(* ===== verification/_CoqProject ===== *)
-Q . S2P
Prelude.v
RustStr.v
BTree.v
Git.v
Delegation.v
Readiness.v
AutopilotStep.v
Sql.v
Board.v
Database.v
AutopilotStore.v
AutopilotDriver.v
Deps.v
Store.v
Events.v
Brakes.v
Queue.v
Mutations.v
Proposals.v
Rulings.v
Drainer.v
MergeSweep.v
PmOps.v
DepGraph.v
BatchGraph.v
Commands.v
Roadmap.v
Closes.v
WfSpec.v
WfStore.v
WfSpawn.v
WfKernel.v
WfProtocol.v
WfDrive.v
WfAgents.v
Cleanup.v
Power.v
WfService.v
WfSystem.v
RustText.v
GitDist.v
Hardening.v
GitCmd.v
GitRemote.v
GitPublish.v
Approval.v
Caps.v
GitRpc.v
GitLicence.v
EgressPolicy.v
EgressRequest.v
Egress.v
EgressHold.v
EgressTold.v
EgressLicence.v
BoxSettings.v
EgressList.v
EgressPrompt.v
EgressCommands.v
EgressAnswer.v
SettingsFile.v
ProjectFile.v
FileGrants.v
Ere.v
Sbpl.v
Paths.v
SandboxPolicy.v
Seatbelt.v
SeatbeltRules.v
SeatbeltReads.v
SeatbeltGuard.v
FolderGrants.v
FolderGuard.v
Prog.v
MessageQueue.v
Messaging.v
MessagingGuard.v
Rehydrate.v
MessageRuns.v
