(* ===== verification/Prelude.v ===== *)
(** * Fletch's engine: verification library (root)

    Fletch runs coding agents on a user's projects. The engine, the crate [fletch-core] under
    src/crates/fletch-core/src/, holds the loops that act while nobody is watching: the roadmap
    queue that launches work from a board, the sweep that lands it, the product manager's writes
    to that board, the autopilot that keeps a pull request mergeable and the delegations that
    carry a request to an agent, and the workflow engine that drives a run of several agents from
    its first step to its pull request. It also stands between the agents and what they may reach:
    it runs git for them, publishes with the user's credentials after the user's consent, and lets
    a box through an egress proxy, the crate [fletch-box] under src/crates/fletch-box/src/, that
    admits listed hosts only, and confines an agent that runs on the host itself by a sandbox
    profile. This library models those parts from the source and proves what they
    promise.

    ** Parts, and the files that model them

    - Shared ground. [Prelude]: results, options, association lists, [Ordering], machine
      integers, tactics and the hint database [fletch]. [RustStr]: the parts of Rust's strings
      and of its [Debug] and [Display] formatting that the source uses. [BTree]: [BTreeMap] as a
      sorted association list. [Sql]: the world monad [M Db]: a computation runs statements over
      the tables; the class [World] supplies the clock, fresh ids and, for every statement, an
      error it may fail with ([w_fault]), so every theorem that mentions a [World] holds under
      any pattern of failing statements. [transaction] restores the tables when its body fails,
      as the source's transactions do.
    - Checkout facts. [Git] (git_state.rs, github/types.rs, verify.rs): what the loops are
      judged on.
    - Delegations. [Delegation] (supervisor/delegation.rs): [delegation_step] for one entry,
      [plan_pass] for a pass over the table, the operations on the table ([Inner] is the
      source's struct under its lock), and [delegations_run_pass], the driver, which must take
      only steps of the table.
    - Autopilot. [Readiness] (autopilot/readiness.rs): blockers, rungs, the ladder.
      [AutopilotStep] (step.rs): the policy, a pure step over [AutopilotState].
      [AutopilotStore] (store.rs): switches and log. [AutopilotDriver] (mod.rs, driver.rs): the
      tracked table, the operations and one pass of the driver.
    - The roadmap. [Board] (types.rs): rows, patches and their text. [Database]: the record
      [Db] of the tables, one list of rows per table. [Store], [Events], [Brakes], [Proposals]
      are the files of those names under roadmap/, one operation per statement. [Deps]:
      dependency checks and the loop search. [Mutations] (mutations.rs, autonomy.rs,
      assignments.rs) and [Rulings]: what a user does to an item. [Queue] and [Drainer]
      (drainer.rs): what to launch, the claim, dispatch, settling. [MergeSweep]
      (merge_sweep.rs, pr_review.rs). [PmOps] (rpc/roadmap/): the product manager's operations.
      [Commands] (commands.rs, client_events.rs): the command surface with the client events
      each command raises.
    - The whole board. [DepGraph] and [BatchGraph]: the dependency graph through every
      operation. [Roadmap]: the board as a state machine whose steps are the commands, the
      product manager's operations and the steps of the queue and the sweep, in any order and
      under any faults.

    - The workflow engine (workflow/). [WfSpec]: specs and their validation, gates, paths, branch
      names, prompts. [WfStore]: the tables of runs, attempts and events with every statement
      that writes them. [WfSpawn] (runner/spawn.rs): what a step's agent is spawned with.
      [WfKernel] (runner/, gitops.rs): one drive of a run, every effect recorded in a trace.
      [Cleanup] (cleanup.rs): deletion around its commit point and its recovery. [WfService]
      (service.rs): launch, resume, cancel, delete and the registry of drives. [WfProtocol],
      [WfDrive] and [WfAgents] hold the kernel's theorems, [WfSystem] the whole engine as a
      concurrent system.
    - [Power] (power.rs): the activity monitor, fed by the registry. [Closes]
      (github/closes.rs): closing references in a pull request's text.

    - Git for the agents (git/, git_dist.rs, exec.rs). [RustText]: text read from processes.
      [GitDist]: the one place that builds git commands, and [GitHost], the class that answers
      every act on the world by its place in the list of acts. [Hardening] (git/hardening.rs):
      which configuration runs a program, and the refusal. [GitCmd] (git/cmd.rs): the calls every
      git command goes through, and the merge of configuration environments. [GitRemote]
      (git/remote.rs): transport with the user's configuration. [GitPublish] (publish.rs,
      identity.rs, signing.rs, transport.rs, branch.rs): what a push publishes.
    - Publishing for the agents (rpc/). [Approval] (approval.rs): the registry of questions, a
      transition system of askers, clients and the clock. [Caps] (caps.rs): an agent's grant.
      [GitRpc] (rpc/git/): the operations an agent may ask for. [GitLicence]: what stands between
      an agent and a publish.
    - The egress proxy (fletch-box, egress/). [EgressPolicy] (policy.rs): patterns, hosts, the
      check. [EgressRequest]: reading a request off a socket. [Egress] (mod.rs): the proxy as a
      transition system. [EgressHold], [EgressTold], [EgressLicence]: its theorems.
    - What a box may reach (sandbox/boxes/, commands/boxes.rs). [BoxSettings] (settings.rs) and
      [EgressList] (allowlist.rs, registry.rs): the settings, the layers of the list and the policy
      they make. [EgressPrompt] (egress_prompt.rs): the prompts that held connections raise.
      [EgressCommands]: the commands that change a box's network. [EgressAnswer]: what an answer
      does to the boxes.
    - What a project's files ask for (project_file/). [SettingsFile] (file.rs): JSON with
      comments, edits of the lists, the reading. [ProjectFile] (mod.rs): which of it applies, the
      approvals, the watch. [FileGrants]: its safety theorem.
    - What an agent on the host may touch (sandbox/policy.rs, sandbox/seatbelt.rs). [SandboxPolicy]:
      the directories granted and withheld. [Seatbelt]: the text of the two profiles, character for
      character. What that text means is stated apart from it: [Ere] is the language of a profile's
      patterns with a matcher, [Sbpl] a reader of profiles and the decision they make (the last rule
      that applies), [Paths] lemmas on paths. [SeatbeltRules] and [SeatbeltReads] read the text back
      as rules; [SeatbeltGuard] says what the rules let a process do.
    - Folders a user grants to an agent (workspace/folder_grants.rs, and its callers in
      supervisor/lifecycle.rs). [FolderGrants]: the check, the table, granting and taking back.
      [FolderGuard]: grants over time, and the changes that need no relaunch.
    - Messages to an agent. [Prog]: a task as the tree of its atomic sections and of the answers it
      waits for, pools of such tasks interleaved, and the proof rule for an invariant of what tasks
      hold. [MessageQueue] (message_queue.rs, workspace/message_queue.rs, workspace/turns.rs): what a
      message comes to, the queue, its rows, the rows of turns. [Messaging] (supervisor/messaging.rs,
      with what disposition.rs, login_refresh.rs, lifecycle.rs and session_switch.rs do to messages):
      sends, flushes, resends, respawns, new sessions and archives of one agent, each section under a
      lock one action. [MessagingGuard]: the invariant and what becomes of a message. [Rehydrate]: the
      queue a start of the app rebuilds. [MessageRuns]: concrete runs.

    State corresponds as follows: a Rust struct is a Record with the fields' names behind a
    short prefix, an enum an Inductive with its constructors, a table a list of rows in
    insertion order, a lock's content the state a function takes and returns. A function keeps
    its name, prefixed with its module's where two modules use the same one.

    ** What the theorems show

    - Safety of the queue: an item is claimed only when it is queued, unheld, on a board that is
      not held and, as far as the count of live runs could be read, below its cap, with its
      dependencies shipped ([claim_is_safe]); an item is given back only when
      no run of it is live ([released_only_when_over]); the sweep acts only on the forge's word
      ([sweep_moves_only_settled]); no step but the user's lifts a hold
      ([only_user_lifts_holds]).
    - Invariants of every reachable board: [reachable_board_ok], and [reachable_acyclic] where a
      batch refers to its entries by plain numbers.
    - Atomicity under faults: [propose_all_or_nothing], [set_ranks_atomic],
      [accept_order_applies].
    - Autopilot and delegations: every dispatch passes every guard, budgets bound the number of
      cycles, a pass triggers an agent at most once, a held trigger is delivered at most once.
    - One drive of a run. What it does, with what it hears of its agents, follows a protocol written
      as a small automaton: an agent is told its step once, and its work is committed and pinned only
      after it was heard to end its turn ([drive_follows_protocol]); a drive pushes at most once, the
      run's own branch, and only when every step went through all of that
      ([push_is_own_branch_after_every_step]); while statements succeed it leaves the run done, failed
      or canceled with the event that says so ([every_drive_concludes]) and no agent behind
      ([no_agent_outlives_its_run]); only a pending run is started ([only_pending_runs_start]);
      the journal has no gaps ([drive_journal_gapless]); the rows it writes can be read back
      ([rows_always_decode]); and all of it is a chain of changes to that run alone
      ([drive_is_local_changes]), which is what lets [WfSystem] interleave drives.
    - The engine. Over the states reachable by any interleaving of locked sections: deletion
      never races a drive, no workspace is orphaned, the monitor hears of every drive. An exit at
      any moment of a deletion is put right by the next startup ([run_deletion_crash_safe],
      [project_deletion_crash_safe]). The sleep assertion follows the demand for it while the
      system grants what is asked ([assertion_follows_demand]).
    - Git and publishing. No git command the shared helpers run in an agent's tree runs but
      after a listing of its configuration, where git gave one, and of its submodules' that showed no
      key known to run a program ([no_command_over_planted_config], [planted_key_is_caught]); every
      push, every pull request opened or merged and every workflow started for an agent follows, in
      the same call, the consent the settings ask for ([dispatch_publishes_with_consent],
      [git_push_publishes_checked_tip], [only_a_yes_approves]); a forced push drops integrated work
      only; signed copies keep everything a commit says ([signed_copies_keep_everything],
      [commit_read_back]).
    - The proxy. Over any interleaving of connections, updates and the clock: every tunnel is
      licensed ([every_tunnel_is_licensed]), holds are counted, bounded and told once each
      ([holds_are_accounted_and_told]), no wake-up is lost ([no_wake_up_is_lost]), and a proxy that
      is gone answers everyone within twelve steps of each connection
      ([gone_proxy_answers_everyone]). A header is read the same however it is cut, and
      what follows it is left over to the byte ([header_read_however_cut]).
    - A box's network. The last layer that names a host decides ([last_layer_decides]); prompts
      stand for holds ([prompts_stand_for_holds]) and the answers for hosts in normal form reach the
      boxes of their scope ([answers_take_effect]); a host the project's files add was granted by the user
      ([file_hosts_were_granted]); an edited settings file reads back as edited
      ([edit_reads_back]).
    - Sandbox profiles. Whatever bytes the paths hold, the text of a profile reads back as exactly
      the rules meant ([agent_profile_reads], [run_profile_reads]), and of what these rules permit:
      the login files the profile names are neither read nor written ([logins_are_out_of_reach]); an agent writes only in
      its roots and the policy's directories ([writes_are_confined]); the app's data is opaque
      ([app_data_is_opaque]); the files from which git and the agents' tools run programs are not
      written at their names ([git_config_is_unwritable], [exec_config_is_unwritable]); a tree
      adopted to be read is not written ([adopted_tree_is_unwritable]). No grant of the policy's is a
      directory it withholds ([policy_withholds_roots]).
    - Folder grants. A folder that may be granted shares nothing with what no grant may expose
      ([granted_folder_is_apart]); every stored grant was accepted as it stands
      ([stored_grants_were_accepted]); a change the agent is not relaunched for changes nothing its
      profile permits ([no_relaunch_is_needed]).
    - Messages. Whatever interleaves and fails, every message announced, and once more each turn put
      back by a login or a limit, is handed over, waits, was dropped or is with a running task, once
      ([messages_are_accounted]); until the agent is torn down or moved, or a turn is sent again, turns
      keep the order of the sends and so do, among themselves, the messages written into a running turn
      ([turns_come_in_order]); and while statements succeed the rows mirror the queue, so that a start
      finds what waited ([restart_finds_what_waited]), folded batches included ([coalesce_groups]).
    - Functional behaviour: the loop search is correct, the queue's choice is exact, edits and
      rulings do what their comments promise, on the error branches too.

    Some lemmas exhibit behaviour that departs from the comments; they are named so
    ([stale_verdict_lands], [batch_alias_closes_loop], [unreadable_run_releases_item],
    [held_item_is_shipped], [dash_before_keyword_panics], [cancel_without_a_driver],
    [hold_end_may_contradict_a_tunnel], [always_answer_may_admit_nothing],
    [ipv6_answers_do_nothing], [one_bad_pattern_drops_every_layer], [bare_scheme_is_lost],
    [edit_drops_other_items], [watch_misses_a_change], [denies_are_by_name],
    [quote_in_a_root_breaks_the_profile], [credentials_file_stays_closed], [a_wakeup_is_lost],
    [an_archived_agent_is_sent_to], [equals_in_subsection_escapes], [a_moved_login_is_readable],
    [git_configs_left_writable]).

    ** Bounds and fuel

    [Deps.walk] takes fuel one above the number of nodes, and [walk_terminates] proves that this
    is always enough: the path never repeats a node. The kernel's waits recurse on the list
    of what the driver reports; how a wait ends is part of the answer of the class [Host]. The parsers of [RustStr] take the length of
    their input. [Hardening]'s search of the submodule configs takes [walk_fuel], two above the entries it may
    visit before it gives up. The proxy's connections need no fuel: twelve of a connection's own steps
    bound its wait once the proxy is gone. Counters, clocks and ranks keep their width: [wrap_i64] and the like
    wrap, ranks are [SpecFloat] doubles.

    ** Parameters

    Unicode tables (lower case, alphanumeric) are the class [Unicode]; JSON text of the
    autopilot's state a codec with its round trip as a hypothesis; the forge's answers, git and
    the test runner are arguments. The workflow engine asks the classes [Codec] (JSON of the
    journal), [Host] (git, GitHub, the agents' driver, the clock), [Files] (which renames and
    removals fail) and [Launcher] (placement, provisioning, discarding an agent); each is indexed
    by the count of effects so far, so an answer may change from one call to the next. Git and the sandbox answer through [GitHost];
    the files of a project through [Disk] and [Checkouts], which may answer differently at each
    look; JSON of settings is [JsonText], with its laws in [JsonLawful]. The file system and
    environment a profile is built in are the class [HostEnv], one snapshot per profile, and
    [Folders] what the checks of grants ask beside it; [Published] is the configured data directory.
    The system's sandbox is [Sandbox], of which [SandboxLaw] assumes one thing: it decides by the
    rules [Sbpl] reads in its profile. What processes, git, other agents' rows and the user's settings
    say to a task of [Messaging] are answers ([Ask]), any answer each time; the JSON of a message's
    paths is [PathsJson], with its round trip in [PathsJsonLaw]. Paths are UTF-8. [debug_str] covers printable characters and the escapes of
    the control characters the source can meet.

    ** Not modelled

    Of the agents' operations the reads, comments and edits on GitHub are the parameter [others] of
    the dispatcher, and the local operations on branches are left out. Of the proxy: the accept
    loop, the copying of bytes through a tunnel and the wrap of 64-bit hold ids. Of a project's
    files: the timer of the watch. Of the sandbox: the environment of a launch, the state roots of a
    nested engine and their cleanup. Of folder grants: the relaunch itself, the events that announce
    a change, and moving a workspace to another engine, whose own check of the grants is not a step
    of [grant_step].

    Of messages: the checkpoint before a turn, adopting attachments (what it returns is an answer), the
    buffer a late client replays, the mirror of a native editor's line, and the pairing of turns with
    transcripts. A task of [Prog] is not cancelled halfway, and of an event of the process only what
    [observe_login] and [observe_limit] read of it is modelled, as their argument. The theorems are about
    one agent; what else writes its runtime is the environment [message_env].

    In [WfSystem] project deletion and the startup recovery of directories are not steps (they
    have theorems of their own), and a drive ends with its run over, which [every_drive_concludes]
    proves when the database answers. Sockets, subprocesses, the GitHub client, virtual machines, the SQLite engine
    (its statements are modelled, its file format and migrations are not), user interfaces, the
    loops that only sleep and call a modelled pass, and the read-only listings written for the
    product manager.
*)

From Stdlib Require Export ZArith Lia.
From stdpp Require Export base decidable option sorting strings gmap list.

(** ** Results: Rust's [Result<A, E>] *)

Inductive result (A E : Type) : Type :=
| Ok (a : A)
| Err (e : E).
Arguments Ok {A E} a.
Arguments Err {A E} e.

Declare Scope fletch_scope.
Delimit Scope fletch_scope with fletch.
Open Scope fletch_scope.

(** [let? x := m in k] is Rust's [m?]: continue with the value or return the error. *)
Notation "'let?' x ':=' m 'in' k" :=
  (match m with Ok x => k | Err e => Err e end)
  (at level 10, x pattern, m at level 200, k at level 200) : fletch_scope.

(** [let_some x := m or d in k] is Rust's [let Some(x) = m else { return d }]. *)
Notation "'let_some' x ':=' m 'or' d 'in' k" :=
  (match m with Some x => k | None => d end)
  (at level 10, x pattern, m at level 200, d at level 200, k at level 200) : fletch_scope.

(** ** Booleans and options *)

(** [is_some] and [is_none] as booleans, as [Option::is_some] returns them. *)
Definition is_some {A} (o : option A) : bool :=
  match o with Some _ => true | None => false end.
Definition is_none {A} (o : option A) : bool := negb (is_some o).

(** [Option::is_some_and]. *)
Definition is_some_and {A} (o : option A) (p : A -> bool) : bool :=
  match o with Some a => p a | None => false end.

(** [Option::filter]. *)
Definition opt_filter {A} (p : A -> bool) (o : option A) : option A :=
  match o with Some a => if p a then Some a else None | None => None end.

(** [Option::or_else]. *)
Definition or_else {A} (o o' : option A) : option A :=
  match o with Some a => Some a | None => o' end.

(** Boolean equality from decidable equality. *)
Definition eqb {A} `{EqDecision A} (x y : A) : bool := bool_decide (x = y).

Lemma eqb_eq {A} `{EqDecision A} (x y : A) : eqb x y = true <-> x = y.
Proof. apply bool_decide_eq_true. Qed.

Lemma eqb_neq {A} `{EqDecision A} (x y : A) : eqb x y = false <-> x <> y.
Proof. apply bool_decide_eq_false. Qed.

Lemma eqb_refl {A} `{EqDecision A} (x : A) : eqb x x = true.
Proof. by apply eqb_eq. Qed.

Lemma is_some_true {A} (o : option A) : is_some o = true <-> exists a, o = Some a.
Proof. destruct o; simpl; naive_solver. Qed.

Lemma is_some_false {A} (o : option A) : is_some o = false <-> o = None.
Proof. destruct o; simpl; naive_solver. Qed.

Lemma is_some_and_true {A} (o : option A) p :
  is_some_and o p = true <-> exists a, o = Some a /\ p a = true.
Proof. destruct o as [x|]; simpl; (split; [by eauto|]); intros (y & Hy & ?); congruence. Qed.

Lemma opt_filter_Some {A} (p : A -> bool) o a :
  opt_filter p o = Some a <-> o = Some a /\ p a = true.
Proof.
  destruct o as [x|]; simpl; [destruct (p x) eqn:?|]; split; try done; intuition congruence.
Qed.

(** ** Lists with boolean predicates ([Iterator::filter], [any], [find], [position]) *)

Fixpoint lfilter {A} (p : A -> bool) (l : list A) : list A :=
  match l with
  | [] => []
  | x :: l => if p x then x :: lfilter p l else lfilter p l
  end.

Fixpoint lfind {A} (p : A -> bool) (l : list A) : option A :=
  match l with
  | [] => None
  | x :: l => if p x then Some x else lfind p l
  end.

Fixpoint lposition {A} (p : A -> bool) (l : list A) : option nat :=
  match l with
  | [] => None
  | x :: l => if p x then Some 0 else S <$> lposition p l
  end.

Definition lcontains {A} `{EqDecision A} (l : list A) (x : A) : bool := existsb (eqb x) l.

Lemma elem_of_lfilter {A} (p : A -> bool) l x :
  x ∈ lfilter p l <-> x ∈ l /\ p x = true.
Proof.
  induction l as [|y l IH]; simpl; [set_solver|].
  destruct (p y) eqn:Hp; rewrite ?elem_of_cons, IH; naive_solver congruence.
Qed.

Lemma lfilter_all {A} (p : A -> bool) l :
  (forall x, x ∈ l -> p x = true) -> lfilter p l = l.
Proof.
  induction l as [|y l IH]; simpl; intros H; [done|].
  rewrite H by set_solver. f_equal. apply IH. set_solver.
Qed.

Lemma lfilter_none {A} (p : A -> bool) l :
  (forall x, x ∈ l -> p x = false) -> lfilter p l = [].
Proof.
  induction l as [|y l IH]; simpl; intros H; [done|].
  rewrite H by set_solver. apply IH. set_solver.
Qed.

Lemma lfilter_app {A} (p : A -> bool) l1 l2 :
  lfilter p (l1 ++ l2) = lfilter p l1 ++ lfilter p l2.
Proof. induction l1 as [|y l IH]; simpl; [done|]. destruct (p y); simpl; congruence. Qed.

Lemma lfilter_length {A} (p : A -> bool) l : length (lfilter p l) <= length l.
Proof. induction l as [|y l IH]; simpl; [done|]. destruct (p y); simpl; lia. Qed.

Lemma lfilter_perm {A} (p : A -> bool) l1 l2 :
  l1 ≡ₚ l2 -> lfilter p l1 ≡ₚ lfilter p l2.
Proof.
  induction 1 as [|x l l' _ IH|x y l|l l' l'' _ IH1 _ IH2]; simpl; [done|..].
  - destruct (p x); [by constructor|done].
  - destruct (p x), (p y); try done. apply Permutation_swap.
  - by etrans.
Qed.

Lemma lfilter_NoDup {A} (p : A -> bool) l : NoDup l -> NoDup (lfilter p l).
Proof.
  induction 1 as [|x l Hx _ IH]; simpl; [constructor|].
  destruct (p x); [constructor; [rewrite elem_of_lfilter; naive_solver|done]|done].
Qed.

Lemma lfilter_fmap_NoDup {A B} (g : A -> B) p l : NoDup (g <$> l) -> NoDup (g <$> lfilter p l).
Proof.
  induction l as [|x l IH]; [done|]. cbn [lfilter]. rewrite fmap_cons. intros [Hx Hl]%NoDup_cons.
  destruct (p x); [|auto]. rewrite fmap_cons. apply NoDup_cons. split; [|auto].
  intros (y & Hy & [Hin _]%elem_of_lfilter)%list_elem_of_fmap. apply Hx. rewrite Hy.
  by apply list_elem_of_fmap_2.
Qed.

Lemma lfind_Some {A} (p : A -> bool) l x :
  lfind p l = Some x -> x ∈ l /\ p x = true.
Proof.
  induction l as [|y l IH]; simpl; [done|].
  destruct (p y) eqn:Hp; [intros [= ->]; set_solver|]. set_solver.
Qed.

Lemma lfind_None {A} (p : A -> bool) l :
  lfind p l = None <-> forall x, x ∈ l -> p x = false.
Proof.
  induction l as [|y l IH]; simpl; [split; [by intros _ x ?%elem_of_nil|done]|].
  destruct (p y) eqn:Hp.
  - split; [done|]. intros H. rewrite H in Hp; [done|by left].
  - rewrite IH. setoid_rewrite elem_of_cons. split; [intros H x [->|?]; eauto|eauto].
Qed.

Lemma lfind_snoc {A} (p : A -> bool) l x :
  (forall y, y ∈ l -> p y = false) -> lfind p (l ++ [x]) = if p x then Some x else None.
Proof.
  induction l as [|y l IH]; intros Hl; simpl; [done|]. rewrite (Hl y) by apply list_elem_of_here.
  apply IH. intros z Hz. apply Hl. by apply list_elem_of_further.
Qed.

Lemma lposition_Some {A} (p : A -> bool) l i :
  lposition p l = Some i -> exists x, l !! i = Some x /\ p x = true.
Proof.
  revert i. induction l as [|y l IH]; simpl; [done|]. intros i.
  destruct (p y) eqn:Hp; [intros [= <-]; eauto|].
  destruct (lposition p l); simpl; [intros [= <-]; eauto|done].
Qed.

Lemma lposition_None {A} (p : A -> bool) l :
  lposition p l = None <-> forall x, x ∈ l -> p x = false.
Proof.
  rewrite <-lfind_None. induction l as [|y l IH]; simpl; [done|].
  destruct (p y); [done|]. rewrite <-IH. by destruct (lposition p l).
Qed.

Lemma lcontains_true {A} `{EqDecision A} (l : list A) x : lcontains l x = true <-> x ∈ l.
Proof.
  unfold lcontains. rewrite existsb_exists.
  setoid_rewrite <-list_elem_of_In. setoid_rewrite eqb_eq. naive_solver.
Qed.

Lemma lcontains_false {A} `{EqDecision A} (l : list A) x : lcontains l x = false <-> x ∉ l.
Proof. rewrite <-lcontains_true. by destruct (lcontains l x). Qed.

(** In a list with unique keys a key names one element. *)
Lemma NoDup_key_inj {A B} (f : A -> B) l x y :
  NoDup (f <$> l) -> x ∈ l -> y ∈ l -> f x = f y -> x = y.
Proof.
  intros Hnd [a Ha]%list_elem_of_lookup_1 [b Hb]%list_elem_of_lookup_1 Hf.
  assert (a = b) as ->; [|congruence].
  eapply NoDup_lookup; [exact Hnd|rewrite list_lookup_fmap, Ha; reflexivity|].
  rewrite list_lookup_fmap, Hb. simpl. by rewrite Hf.
Qed.

(** ** Stable sorting ([slice::sort_by], [ORDER BY] with ties in stored order) *)

Fixpoint insert_by {A} (le : A -> A -> bool) (x : A) (l : list A) : list A :=
  match l with
  | [] => [x]
  | y :: l' => if le x y then x :: l else y :: insert_by le x l'
  end.

Definition sort_by {A} (le : A -> A -> bool) (l : list A) : list A := foldr (insert_by le) [] l.

Lemma insert_by_perm {A} le (x : A) l : insert_by le x l ≡ₚ x :: l.
Proof.
  induction l as [|y l IH]; simpl; [done|]. destruct (le x y); [done|].
  rewrite IH. apply Permutation_swap.
Qed.

Lemma sort_by_perm {A} le (l : list A) : sort_by le l ≡ₚ l.
Proof. induction l as [|x l IH]; simpl; [done|]. rewrite insert_by_perm. by f_equiv. Qed.

Lemma elem_of_sort_by {A} le (l : list A) x : x ∈ sort_by le l <-> x ∈ l.
Proof. by rewrite sort_by_perm. Qed.

(** What goes before everything sorts first, whatever else ties with it. *)
Lemma sort_by_cons {A} le (x : A) l :
  (forall y, y ∈ l -> le x y = true) -> sort_by le (x :: l) = x :: sort_by le l.
Proof.
  intros Hx. simpl. destruct (sort_by le l) as [|y l'] eqn:E; [done|]. simpl.
  rewrite Hx; [done|]. rewrite <-(elem_of_sort_by le), E. apply list_elem_of_here.
Qed.

Section Sorting.
Context {A : Type} (le : A -> A -> bool).
Context (le_total : forall x y, le x y = true \/ le y x = true).
Context (le_trans : forall x y z, le x y = true -> le y z = true -> le x z = true).

Notation sorted := (StronglySorted (fun x y => le x y = true)).

Lemma insert_by_sorted x l : sorted l -> sorted (insert_by le x l).
Proof.
  induction 1 as [|y l Hl IH Hy]; simpl; [by repeat constructor|].
  destruct (le x y) eqn:E.
  - constructor; [by constructor|]. constructor; [done|]. eapply Forall_impl; [exact Hy|]. eauto.
  - constructor; [done|]. rewrite insert_by_perm. constructor; [|done].
    destruct (le_total x y); congruence.
Qed.

Lemma sort_by_sorted l : sorted (sort_by le l).
Proof. induction l as [|x l IH]; simpl; [constructor|]. by apply insert_by_sorted. Qed.

Lemma insert_by_filter p x l :
  sorted l -> lfilter p (insert_by le x l) =
    if p x then insert_by le x (lfilter p l) else lfilter p l.
Proof.
  induction 1 as [|y l Hl IH Hy]; simpl; [by destruct (p x)|].
  destruct (le x y) eqn:E; simpl.
  - destruct (p x); [|done]. destruct (p y) eqn:Ey; simpl; [by rewrite E|].
    destruct (lfilter p l) as [|z l'] eqn:El; simpl; [done|].
    assert (z ∈ l) as Hz by (eapply elem_of_lfilter; rewrite El; apply list_elem_of_here).
    rewrite Forall_forall in Hy. by rewrite (le_trans x y z) by eauto.
  - rewrite IH. destruct (p x), (p y); simpl; by rewrite ?E.
Qed.

(** Filtering and sorting commute: the sort is stable. *)
Lemma sort_by_filter p l : lfilter p (sort_by le l) = sort_by le (lfilter p l).
Proof.
  induction l as [|x l IH]; [done|]. cbn [sort_by foldr lfilter]. fold (sort_by le l).
  rewrite insert_by_filter by apply sort_by_sorted. rewrite IH. by destruct (p x).
Qed.
End Sorting.

(** ** Automation *)

Create HintDb fletch discriminated.
#[export] Hint Resolve lfilter_perm lfilter_NoDup : fletch.
#[export] Hint Resolve list_elem_of_here list_elem_of_further : fletch.

(** Turn boolean tests in the context into propositions. *)
Ltac bool_to_prop :=
  repeat match goal with
  | H : (_ && _)%bool = true |- _ => apply (proj1 (andb_true_iff _ _)) in H as [? ?]
  | H : (_ || _)%bool = false |- _ => apply (proj1 (orb_false_iff _ _)) in H as [? ?]
  | H : negb _ = true |- _ => apply (proj1 (negb_true_iff _)) in H
  | H : negb _ = false |- _ => apply (proj1 (negb_false_iff _)) in H
  | H : eqb _ _ = true |- _ => apply (proj1 (eqb_eq _ _)) in H
  | H : eqb _ _ = false |- _ => apply (proj1 (eqb_neq _ _)) in H
  | H : String.eqb _ _ = true |- _ => apply (proj1 (String.eqb_eq _ _)) in H
  | H : String.eqb _ _ = false |- _ => apply (proj1 (String.eqb_neq _ _)) in H
  | H : N.eqb _ _ = true |- _ => apply (proj1 (N.eqb_eq _ _)) in H
  | H : N.eqb _ _ = false |- _ => apply (proj1 (N.eqb_neq _ _)) in H
  | H : lcontains _ _ = true |- _ => apply (proj1 (lcontains_true _ _)) in H
  | H : lcontains _ _ = false |- _ => apply (proj1 (lcontains_false _ _)) in H
  | H : bool_decide _ = true |- _ => apply (proj1 (bool_decide_eq_true _)) in H
  | H : bool_decide _ = false |- _ => apply (proj1 (bool_decide_eq_false _)) in H
  | H : is_some _ = false |- _ => apply (proj1 (is_some_false _)) in H
  end.

(** Case analysis on every [match] and [if] of the goal, then of the hypotheses. *)
Ltac split_matches :=
  repeat (case_match; simplify_eq/=).

(** Close a goal with a witness's computation. *)
Ltac by_compute := vm_compute; reflexivity.

(** ** Maxima *)

(** [i64::max] over an iterator, [unwrap_or]. *)
Definition max_or (d : Z) (l : list Z) : Z :=
  match l with [] => d | x :: l => foldl Z.max x l end.

Lemma foldl_max_ge l z : (z <= foldl Z.max z l)%Z /\ forall x, x ∈ l -> (x <= foldl Z.max z l)%Z.
Proof.
  revert z. induction l as [|y l IH]; intros z; simpl; [split; [lia|by intros x ?%elem_of_nil]|].
  destruct (IH (Z.max z y)) as [H1 H2]. split; [lia|].
  intros x [->|Hx]%elem_of_cons; [lia|auto].
Qed.

Lemma max_or_ge d l x : x ∈ l -> (x <= max_or d l)%Z.
Proof.
  destruct l as [|y l]; [by intros ?%elem_of_nil|]. simpl. destruct (foldl_max_ge l y) as [H1 H2].
  intros [->|Hx]%elem_of_cons; auto.
Qed.

