(* ===== verification/RustStr.v ===== *)
(** * The parts of Rust's [str] the engine uses

    A Rust [String] is its UTF-8 bytes, a [string]. [chars] groups the bytes of one
    scalar value; everything else is defined through it or through bytes. *)

From Stdlib Require Import DecimalString DecimalN DecimalPos.
From S2P Require Import Prelude.

Local Open Scope string_scope.

(** ** Appending *)

Lemma append_nil s : "" +:+ s = s.
Proof. reflexivity. Qed.

Lemma append_cons b s t : String b s +:+ t = String b (s +:+ t).
Proof. reflexivity. Qed.

Lemma append_empty_r s : s +:+ "" = s.
Proof. induction s as [|b s IH]; [done|]. by rewrite ?append_cons, IH. Qed.

Lemma append_assoc s1 s2 s3 : s1 +:+ (s2 +:+ s3) = (s1 +:+ s2) +:+ s3.
Proof. induction s1 as [|b s1 IH]; [done|]. by rewrite ?append_cons, IH. Qed.

(** ** Characters *)

(** A byte [10xxxxxx] continues the scalar value before it. *)
Definition is_cont (b : Ascii.ascii) : bool :=
  let n := Ascii.N_of_ascii b in ((128 <=? n) && (n <? 192))%N.

(** [str::chars], each scalar value as its UTF-8 bytes. *)
Fixpoint chars (s : string) : list string :=
  match s with
  | EmptyString => []
  | String b s =>
      match chars s with
      | String c cs :: rest =>
          if is_cont c then String b (String c cs) :: rest
          else String b "" :: String c cs :: rest
      | rest => String b "" :: rest
      end
  end.

Definition unchars (cs : list string) : string := foldr String.append "" cs.

Lemma unchars_chars s : unchars (chars s) = s.
Proof.
  induction s as [|b s IH]; simpl; [done|].
  destruct (chars s) as [|[|c cs] rest]; simpl in *; [by rewrite <-IH..|].
  destruct (is_cont c); simpl in *; by rewrite <-IH.
Qed.

Lemma unchars_app l1 l2 : unchars (l1 ++ l2) = unchars l1 +:+ unchars l2.
Proof.
  induction l1 as [|c l1 IH]; simpl; [done|]. by rewrite IH, append_assoc.
Qed.

(** [s.chars().count()]. *)
Definition char_count (s : string) : nat := length (chars s).

(** ** White space and [str::trim] *)

(** A scalar value from its UTF-8 bytes given as numbers. *)
Definition bytes (l : list N) : string :=
  foldr (fun n s => String (Ascii.ascii_of_N n) s) "" l.

(** Unicode [White_Space], as UTF-8: U+0009-000D, U+0020, U+0085, U+00A0, U+1680,
    U+2000-200A, U+2028, U+2029, U+202F, U+205F, U+3000. *)
Definition whitespace : list string :=
  (bytes <$> [[9]; [10]; [11]; [12]; [13]; [32]; [194; 133]; [194; 160]; [225; 154; 128]])%N
  ++ ((fun n => bytes [226; 128; n]) <$> [128; 129; 130; 131; 132; 133; 134; 135; 136; 137; 138;
                                         168; 169; 175])%N
  ++ [bytes [226; 129; 159]%N; bytes [227; 128; 128]%N].

Definition is_ws (c : string) : bool := lcontains whitespace c.

Fixpoint drop_while {A} (p : A -> bool) (l : list A) : list A :=
  match l with
  | [] => []
  | x :: l => if p x then drop_while p l else x :: l
  end.

Definition trim_start (s : string) : string := unchars (drop_while is_ws (chars s)).
Definition trim_end_by (p : string -> bool) (s : string) : string :=
  unchars (rev (drop_while p (rev (chars s)))).
Definition trim_end (s : string) : string := trim_end_by is_ws s.

Definition trim (s : string) : string :=
  unchars (rev (drop_while is_ws (rev (drop_while is_ws (chars s))))).

Definition is_empty (s : string) : bool := String.eqb s "".

(** ** Prefixes, substrings, splitting, joining *)

(** [str::strip_prefix]. *)
Fixpoint strip_prefix (p s : string) : option string :=
  match p, s with
  | EmptyString, _ => Some s
  | String a p, String b s => if Ascii.eqb a b then strip_prefix p s else None
  | String _ _, EmptyString => None
  end.

Definition starts_with (p s : string) : bool := is_some (strip_prefix p s).

(** [s.contains(needle)]. *)
Fixpoint contains (needle s : string) : bool :=
  starts_with needle s ||
  match s with
  | EmptyString => false
  | String _ s => contains needle s
  end.

(** [list.join(sep)]. *)
Definition join (sep : string) (l : list string) : string := String.concat sep l.

Lemma joined_cons sep x y l : join sep (x :: y :: l) = x +:+ sep +:+ join sep (y :: l).
Proof. done. Qed.

Lemma joined_app sep l1 l2 :
  l1 <> [] -> l2 <> [] -> join sep (l1 ++ l2) = join sep l1 +:+ sep +:+ join sep l2.
Proof.
  induction l1 as [|x [|y l1] IH]; intros N1 N2; [done| |].
  - destruct l2 as [|y l2]; [done|]. apply joined_cons.
  - cbn [app] in *. rewrite !joined_cons, IH by done. by rewrite !append_assoc.
Qed.

(** [s.replace(c, by)] for a one-byte pattern. *)
Fixpoint replace (c : Ascii.ascii) (by_ : string) (s : string) : string :=
  match s with
  | EmptyString => ""
  | String b s =>
      if Ascii.eqb b c then by_ +:+ replace c by_ s else String b (replace c by_ s)
  end.

(** [s.split_once(c)] for a one-byte separator. *)
Fixpoint split_once (c : Ascii.ascii) (s : string) : option (string * string) :=
  match s with
  | EmptyString => None
  | String b s =>
      if Ascii.eqb b c then Some ("", s)
      else (fun '(x, y) => (String b x, y)) <$> split_once c s
  end.

(** The last piece of [s.rsplit(c)]: what follows the last [c], or all of [s]. *)
Fixpoint after_last (c : Ascii.ascii) (s : string) : string :=
  match s with
  | EmptyString => ""
  | String b s' =>
      if Ascii.eqb b c then after_last c s'
      else match split_once c s' with
           | Some _ => after_last c s'
           | None => s
           end
  end.

(** [s.split(sep)] for a predicate on bytes. *)
Fixpoint split_by (p : Ascii.ascii -> bool) (s : string) : list string :=
  match s with
  | EmptyString => [""]
  | String b s =>
      if p b then "" :: split_by p s
      else match split_by p s with
           | w :: ws => String b w :: ws
           | [] => [String b ""]
           end
  end.

(** ** ASCII case *)

Definition lower_byte (b : Ascii.ascii) : Ascii.ascii :=
  let n := Ascii.N_of_ascii b in
  if ((65 <=? n) && (n <=? 90))%N then Ascii.ascii_of_N (n + 32) else b.
Definition upper_byte (b : Ascii.ascii) : Ascii.ascii :=
  let n := Ascii.N_of_ascii b in
  if ((97 <=? n) && (n <=? 122))%N then Ascii.ascii_of_N (n - 32) else b.

Fixpoint map_bytes (f : Ascii.ascii -> Ascii.ascii) (s : string) : string :=
  match s with
  | EmptyString => ""
  | String b s => String (f b) (map_bytes f s)
  end.

Definition to_ascii_lowercase (s : string) : string := map_bytes lower_byte s.
Definition to_ascii_uppercase (s : string) : string := map_bytes upper_byte s.

(** [s.bytes().all(p)]. *)
Fixpoint all_bytes (p : Ascii.ascii -> bool) (s : string) : bool :=
  match s with EmptyString => true | String b s => p b && all_bytes p s end.

Definition is_ascii_alphanumeric (b : Ascii.ascii) : bool :=
  let n := Ascii.N_of_ascii b in
  ((48 <=? n) && (n <=? 57) || (65 <=? n) && (n <=? 90) || (97 <=? n) && (n <=? 122))%N.

(** ** Numbers *)

(** [Display] of an unsigned and of a signed integer. *)
Definition show_N (n : N) : string := NilZero.string_of_uint (N.to_uint n).
Definition show_nat (n : nat) : string := show_N (N.of_nat n).
Definition show_Z (z : Z) : string :=
  match z with
  | Z0 => "0"
  | Zpos p => show_N (Npos p)
  | Zneg p => "-" +:+ show_N (Npos p)
  end.

(** Decimal digits, at least one. *)
Definition parse_digits (s : string) : option N :=
  match s with
  | EmptyString => None
  | _ => N.of_uint <$> NilEmpty.uint_of_string s
  end.

Definition strip_sign (s : string) : string :=
  match strip_prefix "+" s with Some r => r | None => s end.

Definition usize_max : N := 18446744073709551615.
Definition i64_max : Z := 9223372036854775807.
Definition i64_min : Z := -9223372036854775808.

(** [s.parse::<usize>()]: an optional [+], digits, no overflow. *)
Definition parse_usize (s : string) : option N :=
  opt_filter (fun n => (n <=? usize_max)%N) (parse_digits (strip_sign s)).

(** [s.parse::<i64>()]. *)
Definition parse_i64 (s : string) : option Z :=
  match strip_prefix "-" s with
  | Some r => opt_filter (fun z => (i64_min <=? z)%Z) ((fun n => (- Z.of_N n)%Z) <$> parse_digits r)
  | None => opt_filter (fun z => (z <=? i64_max)%Z) (Z.of_N <$> parse_digits (strip_sign s))
  end.

(** Two's complement wrap of an [i64] operation (a release build). *)
Definition wrap_i64 (z : Z) : Z := ((z - i64_min) mod 2 ^ 64 + i64_min)%Z.

(** ** Debug formatting *)

(** The double quote, as a byte and as a string. *)
Definition dq_byte : Ascii.ascii := Ascii.ascii_of_N 34.
Definition dq : string := String dq_byte "".
Definition newline : string := bytes [10]%N.

Definition hex_digit (n : N) : Ascii.ascii :=
  Ascii.ascii_of_N (if (n <? 10)%N then 48 + n else 87 + n)%N.

Definition hex (n : N) : string :=
  if (n <? 16)%N then String (hex_digit n) ""
  else String (hex_digit (n / 16)) (String (hex_digit (n mod 16)) "").

(** [char::escape_debug] on one byte. Non-ASCII scalar values print as themselves. *)
Definition escape_byte (b : Ascii.ascii) : string :=
  match Ascii.N_of_ascii b with
  | 0%N => "\0"
  | 9%N => "\t"
  | 10%N => "\n"
  | 13%N => "\r"
  | 34%N => "\" +:+ dq
  | 92%N => "\\"
  | n => if ((n <? 32) || (n =? 127))%N then "\u{" +:+ hex n +:+ "}" else String b ""
  end.

Fixpoint escape (s : string) : string :=
  match s with
  | EmptyString => ""
  | String b s => escape_byte b +:+ escape s
  end.

(** [format!("{s:?}")]. *)
Definition debug_str (s : string) : string := dq +:+ escape s +:+ dq.

(** ** Sorting *)

(** [sort]/[sort_unstable] on strings: equal strings are indistinguishable, so the
    stable and the unstable sort agree. *)
Definition sort_str (l : list string) : list string := merge_sort String.le l.

Lemma sort_str_perm l : sort_str l ≡ₚ l.
Proof. apply merge_sort_Permutation. Qed.

(** Sorting forgets the order it was given. *)
Lemma sort_str_canonical l1 l2 : l1 ≡ₚ l2 -> sort_str l1 = sort_str l2.
Proof.
  intros H. apply (StronglySorted_unique String.le).
  - apply StronglySorted_merge_sort; apply _.
  - apply StronglySorted_merge_sort; apply _.
  - by rewrite !sort_str_perm.
Qed.

(** ** Lemmas *)

Lemma strip_prefix_Some p s r : strip_prefix p s = Some r <-> s = p +:+ r.
Proof.
  revert s. induction p as [|a p IH]; intros s; simpl; [rewrite append_nil; split; [by intros [= ->]|by intros ->]|].
  rewrite append_cons. destruct s as [|b s]; [done|]. destruct (Ascii.eqb_spec a b) as [->|Hne].
  - rewrite IH. split; [by intros ->|by intros [= ->]].
  - split; [done|]. by intros [= -> _].
Qed.

Lemma starts_with_true p s : starts_with p s = true <-> exists r, s = p +:+ r.
Proof.
  unfold starts_with. rewrite is_some_true. by setoid_rewrite strip_prefix_Some.
Qed.

Lemma is_empty_true s : is_empty s = true <-> s = "".
Proof. apply String.eqb_eq. Qed.

Lemma show_N_nonempty n : exists d s, show_N n = String d s.
Proof.
  unfold show_N, NilZero.string_of_uint.
  destruct (N.to_uint n); simpl; eauto.
Qed.

Lemma to_uint_nonnil n : N.to_uint n <> Decimal.Nil.
Proof. destruct n; [done|]. apply DecimalPos.Unsigned.to_uint_nonnil. Qed.

Lemma show_N_digits n : NilEmpty.string_of_uint (N.to_uint n) = show_N n.
Proof.
  unfold show_N, NilZero.string_of_uint.
  pose proof (to_uint_nonnil n). by destruct (N.to_uint n).
Qed.

(** Printing then parsing a number gives it back. *)
Lemma parse_digits_show n : parse_digits (show_N n) = Some n.
Proof.
  unfold parse_digits. destruct (show_N_nonempty n) as (d & s & E). rewrite E, <-E.
  rewrite <-show_N_digits, NilEmpty.usu. simpl. by rewrite DecimalN.Unsigned.of_to.
Qed.

Lemma show_N_inj n m : show_N n = show_N m -> n = m.
Proof.
  intros H. pose proof (parse_digits_show n) as Hn. rewrite H, parse_digits_show in Hn. congruence.
Qed.

(** ** Characters of concatenations and prefixes *)

Fixpoint all_cont (s : string) : bool :=
  match s with EmptyString => true | String b s => is_cont b && all_cont s end.

(** The first byte continues a character. *)
Definition starts_cont (s : string) : bool :=
  match s with String b _ => is_cont b | EmptyString => false end.

(** One character each: a byte and the continuation bytes after it. *)
Fixpoint groups (l : list string) : Prop :=
  match l with
  | [] => True
  | c :: l =>
      match c with String _ r => all_cont r = true | EmptyString => False end /\
      match l with c' :: _ => starts_cont c' = false | [] => True end /\ groups l
  end.

Lemma starts_cont_app s t : s <> "" -> starts_cont (s +:+ t) = starts_cont s.
Proof. by destruct s. Qed.

Lemma chars_head s : match chars s with c :: _ => starts_cont c = starts_cont s /\ c <> "" | [] => s = "" end.
Proof.
  destruct s as [|b s]; [done|]. cbn [chars]. destruct (chars s) as [|[|c cs] l]; [done..|].
  by destruct (is_cont c).
Qed.

Lemma chars_cons b s :
  chars (String b s) =
  if starts_cont s then match chars s with c :: l => String b c :: l | [] => [String b ""] end
  else String b "" :: chars s.
Proof.
  pose proof (chars_head s) as Hh. cbn [chars]. destruct (chars s) as [|[|c cs] l].
  - by rewrite Hh.
  - by destruct Hh as [_ ?].
  - destruct Hh as [<- _]. simpl. by destruct (is_cont c).
Qed.

Lemma chars_groups s : groups (chars s).
Proof.
  induction s as [|b s IH]; [done|]. rewrite chars_cons. pose proof (chars_head s) as Hh.
  destruct (chars s) as [|c l]; [by rewrite Hh|]. destruct Hh as [Hs Hc].
  destruct (starts_cont s) eqn:E.
  - destruct IH as (Hg & Hl & IH). split; [|done]. destruct c as [|x r]; [done|].
    simpl in *. by rewrite Hs, Hg.
  - split; [done|]. by rewrite Hs.
Qed.

Lemma chars_unchars l : groups l -> chars (unchars l) = l.
Proof.
  induction l as [|c l IH]; [done|]. intros (Hc & Hl & Hg). specialize (IH Hg).
  change (unchars (c :: l)) with (c +:+ unchars l).
  assert (starts_cont (unchars l) = false) as Hs.
  { destruct l as [|c' l]; [done|]. change (unchars (c' :: l)) with (c' +:+ unchars l).
    destruct c' as [|x r]; [by destruct Hg|exact Hl]. }
  destruct c as [|b r]; [done|]. revert b. induction r as [|x r IHr]; intros b.
  - change (String b "" +:+ unchars l) with (String b (unchars l)). by rewrite chars_cons, Hs, IH.
  - simpl in Hc. apply andb_true_iff in Hc as [Hx Hr].
    change (String b (String x r) +:+ unchars l) with (String b (String x r +:+ unchars l)).
    rewrite chars_cons, starts_cont_app by done. cbn [starts_cont]. by rewrite Hx, IHr.
Qed.

Lemma groups_take n l : groups l -> groups (take n l).
Proof.
  revert n. induction l as [|c l IH]; intros [|n]; [done..|]. intros (Hc & Hl & Hg).
  split; [done|]. split; [|by apply IH]. by destruct n, l.
Qed.

Lemma char_count_take n s : char_count (unchars (take n (chars s))) <= n.
Proof.
  unfold char_count. rewrite chars_unchars by apply groups_take, chars_groups.
  rewrite length_take. lia.
Qed.

Lemma drop_while_suffix {A} (p : A -> bool) l : exists n, drop_while p l = drop n l.
Proof.
  induction l as [|x l [n IH]]; simpl; [by exists 0|]. destruct (p x); [by exists (S n)|by exists 0].
Qed.

Lemma char_count_trim_end s : char_count (trim_end s) <= char_count s.
Proof.
  unfold trim_end, trim_end_by, char_count. destruct (drop_while_suffix is_ws (rev (chars s))) as [n ->].
  rewrite skipn_rev, rev_involutive.
  rewrite chars_unchars by apply groups_take, chars_groups. rewrite length_take. lia.
Qed.

Lemma char_count_cons b s : char_count (String b s) = ((if starts_cont s then 0 else 1) + char_count s)%nat.
Proof.
  unfold char_count. rewrite chars_cons. pose proof (chars_head s) as Hh.
  destruct (starts_cont s) eqn:E; [|done]. by destruct (chars s); [subst s|].
Qed.

Lemma char_count_app s t : char_count (s +:+ t) <= char_count s + char_count t.
Proof.
  induction s as [|b s IH]; [done|]. rewrite append_cons, !char_count_cons.
  destruct s as [|x s]; [rewrite append_nil; simpl; destruct (starts_cont t); lia|].
  rewrite starts_cont_app by done. lia.
Qed.

Lemma drop_while_none {A} (p : A -> bool) l : Forall (fun x => p x = false) l -> drop_while p l = l.
Proof. destruct 1 as [|x l Hx _]; simpl; [done|]. by rewrite Hx. Qed.

Lemma all_bytes_app p s t : all_bytes p (s +:+ t) = all_bytes p s && all_bytes p t.
Proof.
  induction s as [|b s IH]; [by rewrite append_nil|]. rewrite append_cons. simpl. by rewrite IH, andb_assoc.
Qed.

Lemma all_bytes_impl (p q : Ascii.ascii -> bool) s :
  (forall b, p b = true -> q b = true) -> all_bytes p s = true -> all_bytes q s = true.
Proof. intros Hpq. induction s as [|b s IH]; [done|]. simpl. rewrite !andb_true_iff. intros []. auto. Qed.

Lemma length_append s t : String.length (s +:+ t) = (String.length s + String.length t)%nat.
Proof. induction s as [|b s IH]; [done|]. rewrite append_cons. cbn [String.length]. rewrite IH. lia. Qed.
