(* ===== verification/BTree.v ===== *)
(** * [BTreeMap] as an ordered association list

    A map with the iteration order of [BTreeMap]: entries are kept in increasing key
    order. [insert] replaces the entry of an equal key or inserts before the first
    larger key, so a map built by [insert] from [empty] is sorted and iterates in key
    order. The lookup laws hold of every list. *)

From S2P Require Import Prelude.

Section BTree.
Context {K V : Type} `{EqDecision K} (le : K -> K -> Prop) `{!RelDecision le}.

Fixpoint get (k : K) (m : list (K * V)) : option V :=
  match m with
  | [] => None
  | (k', v) :: m => if eqb k k' then Some v else get k m
  end.

Fixpoint insert (k : K) (v : V) (m : list (K * V)) : list (K * V) :=
  match m with
  | [] => [(k, v)]
  | (k', v') :: m' =>
      if eqb k k' then (k, v) :: m'
      else if bool_decide (le k k') then (k, v) :: m
      else (k', v') :: insert k v m'
  end.

Definition remove (k : K) (m : list (K * V)) : list (K * V) :=
  lfilter (fun e => negb (eqb k e.1)) m.

(** [get_mut(k).map(f)], keeping the key's place. *)
Fixpoint update (k : K) (f : V -> V) (m : list (K * V)) : list (K * V) :=
  match m with
  | [] => []
  | (k', v) :: m => if eqb k k' then (k', f v) :: m else (k', v) :: update k f m
  end.

Definition contains_key (k : K) (m : list (K * V)) : bool := is_some (get k m).

(** [iter().collect()] of pairs: the last of two equal keys wins. *)
Definition collect (l : list (K * V)) : list (K * V) :=
  fold_left (fun m e => insert e.1 e.2 m) l [].

(** Keys strictly increasing. *)
Definition sorted (m : list (K * V)) : Prop := StronglySorted (fun x y => le x y /\ x <> y) m.*1.

Lemma get_insert_eq k v m : get k (insert k v m) = Some v.
Proof.
  induction m as [|[k' v'] m IH]; simpl; [by rewrite eqb_refl|].
  destruct (eqb k k') eqn:E; simpl; [by rewrite eqb_refl|].
  case_bool_decide; simpl; [by rewrite eqb_refl|]. by rewrite E.
Qed.

Lemma get_insert_ne k k' v m : k <> k' -> get k' (insert k v m) = get k' m.
Proof.
  intros Hne. assert (eqb k' k = false) as E by (by apply eqb_neq).
  induction m as [|[k2 v2] m IH]; simpl; [by rewrite E|].
  destruct (eqb k k2) eqn:E2; simpl.
  - apply eqb_eq in E2 as <-. by rewrite E.
  - case_bool_decide; simpl; rewrite ?E, ?IH; done.
Qed.

Lemma get_remove_eq k m : get k (remove k m) = None.
Proof.
  unfold remove. induction m as [|[k' v'] m IH]; simpl; [done|].
  destruct (eqb k k') eqn:E; simpl; [done|]. by rewrite E.
Qed.

Lemma get_remove_ne k k' m : k <> k' -> get k' (remove k m) = get k' m.
Proof.
  intros Hne. unfold remove. induction m as [|[k2 v2] m IH]; simpl; [done|].
  destruct (eqb k k2) eqn:E; simpl.
  - apply eqb_eq in E as <-. rewrite IH. by rewrite (proj2 (eqb_neq k' k)).
  - by rewrite IH.
Qed.

Lemma get_update_eq k f m : get k (update k f m) = f <$> get k m.
Proof.
  induction m as [|[k' v'] m IH]; simpl; [done|].
  destruct (eqb k k') eqn:E; simpl; by rewrite E.
Qed.

Lemma get_update_ne k k' f m : k <> k' -> get k' (update k f m) = get k' m.
Proof.
  intros Hne. induction m as [|[k2 v2] m IH]; simpl; [done|].
  destruct (eqb k k2) eqn:E; simpl.
  - apply eqb_eq in E as <-. by rewrite (proj2 (eqb_neq k' k)).
  - by rewrite IH.
Qed.

Lemma get_elem k v m : get k m = Some v -> (k, v) ∈ m.
Proof.
  induction m as [|[k' v'] m IH]; simpl; [done|].
  destruct (eqb k k') eqn:E; [|intros; right; auto].
  apply eqb_eq in E as <-. intros [= ->]. left.
Qed.

Lemma get_None k m : get k m = None <-> k ∉ m.*1.
Proof.
  induction m as [|[k' v'] m IH]; simpl; [split; [by intros _ ?%elem_of_nil|done]|].
  rewrite not_elem_of_cons. destruct (eqb k k') eqn:E.
  - apply eqb_eq in E as <-. split; [done|]. by intros [? _].
  - apply eqb_neq in E. rewrite IH. tauto.
Qed.

Lemma elem_get k v m : NoDup m.*1 -> (k, v) ∈ m -> get k m = Some v.
Proof.
  induction m as [|[k' v'] m IH]; simpl; [by intros _ ?%elem_of_nil|].
  intros [Hk Hnd]%NoDup_cons [[= <- <-]|Hin]%elem_of_cons; [by rewrite eqb_refl|].
  destruct (eqb k k') eqn:E; [|auto]. apply eqb_eq in E as <-.
  destruct Hk. apply list_elem_of_fmap. by exists (k, v).
Qed.

Lemma elem_of_insert e k v m : e ∈ insert k v m -> e = (k, v) \/ e ∈ m.
Proof.
  induction m as [|[k' v'] m IH]; simpl; [intros ?%list_elem_of_singleton; auto|].
  destruct (eqb k k') eqn:E; [|case_bool_decide]; rewrite ?elem_of_cons; [tauto..|].
  intros [?|?%IH]; tauto.
Qed.

Lemma keys_insert x k v m : x ∈ (insert k v m).*1 <-> x = k \/ x ∈ m.*1.
Proof.
  destruct (decide (x = k)) as [->|Hne].
  - split; [auto|]. intros _. apply list_elem_of_fmap. exists (k, v). split; [done|].
    apply get_elem, get_insert_eq.
  - pose proof (get_None x (insert k v m)) as H1. pose proof (get_None x m) as H2.
    rewrite get_insert_ne in H1 by done.
    destruct (get x m) eqn:E; split; intros H; auto.
    + right. destruct (decide (x ∈ m.*1)) as [|Hn]; [done|]. by apply H2 in Hn.
    + destruct (decide (x ∈ (insert k v m).*1)) as [|Hn]; [done|]. by apply H1 in Hn.
    + exfalso. by apply (proj1 H1).
    + exfalso. destruct H as [|H]; [done|]. by apply (proj1 H2).
Qed.

Lemma keys_remove x k m : x ∈ (remove k m).*1 <-> x ∈ m.*1 /\ x <> k.
Proof.
  unfold remove. rewrite !list_elem_of_fmap. setoid_rewrite elem_of_lfilter.
  setoid_rewrite negb_true_iff. setoid_rewrite eqb_neq. naive_solver.
Qed.

Lemma keys_update k f m : (update k f m).*1 = m.*1.
Proof.
  induction m as [|[k' v'] m IH]; simpl; [done|].
  destruct (eqb k k'); simpl; [done|]. f_equal. exact IH.
Qed.

(** Rewriting every value in place ([iter_mut]). *)
Lemma get_map_values (g : K -> V -> V) k m :
  get k ((fun e => (e.1, g e.1 e.2)) <$> m) = g k <$> get k m.
Proof.
  induction m as [|[k' v'] m IH]; simpl; [done|].
  destruct (eqb k k') eqn:E; [|done]. by apply eqb_eq in E as <-.
Qed.

Lemma keys_map_values (g : K -> V -> V) m : ((fun e => (e.1, g e.1 e.2)) <$> m).*1 = m.*1.
Proof. induction m as [|[k' v'] m IH]; simpl; [done|]. f_equal. exact IH. Qed.

Lemma get_fold k v (l : list (K * V)) m :
  NoDup l.*1 ->
  get k (fold_left (fun m e => insert e.1 e.2 m) l m) = Some v <->
  (k, v) ∈ l \/ k ∉ l.*1 /\ get k m = Some v.
Proof.
  revert m. induction l as [|[k' v'] l IH]; intros m Hnd; cbn [fold_left].
  { split; [intros Hg; right; split; [apply not_elem_of_nil|done]|].
    by intros [Hin%elem_of_nil|[_ Hg]]. }
  rewrite fmap_cons in Hnd. apply NoDup_cons in Hnd as [Hk' Hnd]. cbn [fst snd] in *. rewrite IH by done.
  rewrite fmap_cons, not_elem_of_cons, elem_of_cons. cbn [fst].
  destruct (decide (k = k')) as [->|Hne].
  - rewrite get_insert_eq. split.
    + intros [Hin|[_ Hv]]; [by destruct Hk'; apply (list_elem_of_fmap_2 fst) in Hin|left; left; congruence].
    + intros [[Hv|Hin]|[[Hn _] _]]; [right; split; [done|congruence]|auto|done].
  - rewrite get_insert_ne by done. split.
    + intros [Hin|[Hn Hg]]; [auto|right; auto].
    + intros [[Hv|Hin]|[[_ Hn] Hg]]; [congruence|auto|auto].
Qed.

Lemma get_collect k v l : NoDup l.*1 -> get k (collect l) = Some v <-> (k, v) ∈ l.
Proof. intros Hnd. unfold collect. rewrite get_fold by done. simpl. split; [by intros [|[_ ?]]|auto]. Qed.

Context `{!Transitive le, !Total le, !AntiSymm (=) le}.

Lemma sorted_insert k v m : sorted m -> sorted (insert k v m).
Proof.
  unfold sorted. induction m as [|[k' v'] m IH]; simpl; intros H; [repeat constructor|].
  apply StronglySorted_inv in H as [Hs Hf].
  destruct (eqb k k') eqn:E; simpl.
  { apply eqb_eq in E as <-. by constructor. }
  apply eqb_neq in E. case_bool_decide as Hle; simpl.
  - constructor; [by constructor|]. constructor; [done|].
    eapply Forall_impl; [exact Hf|]. simpl. intros x [Hx Hne]. split; [by etrans|].
    intros ->. apply E. by apply (anti_symm le).
  - constructor; [auto|]. apply Forall_forall. intros x Hx%keys_insert.
    destruct Hx as [->|Hx]; [|rewrite Forall_forall in Hf; auto].
    destruct (total le k k'); [done|]. split; [done|congruence].
Qed.

Lemma sorted_collect l : sorted (collect l).
Proof.
  unfold collect. assert (sorted []) as H by constructor. revert H.
  generalize (@nil (K * V)) as m. induction l as [|e l IH]; simpl; intros m H; [done|].
  by apply IH, sorted_insert.
Qed.

Lemma sorted_remove k m : sorted m -> sorted (remove k m).
Proof.
  unfold sorted, remove. induction m as [|[k' v'] m IH]; simpl; intros H; [done|].
  apply StronglySorted_inv in H as [Hs Hf].
  destruct (eqb k k'); simpl; [auto|]. constructor; [auto|].
  apply Forall_forall. intros x Hx. rewrite Forall_forall in Hf. apply Hf.
  by apply keys_remove in Hx as [? _].
Qed.

Lemma sorted_update k f m : sorted m -> sorted (update k f m).
Proof. unfold sorted. by rewrite keys_update. Qed.

Lemma sorted_NoDup m : sorted m -> NoDup m.*1.
Proof.
  unfold sorted. induction m.*1 as [|x l IH]; intros H; [constructor|].
  apply StronglySorted_inv in H as [Hs Hf]. constructor; [|auto].
  intros Hx. rewrite Forall_forall in Hf. by destruct (Hf x Hx).
Qed.
End BTree.

#[export] Hint Resolve sorted_insert sorted_remove sorted_update sorted_NoDup : fletch.
#[export] Hint Rewrite @get_insert_eq @get_remove_eq @get_update_eq : btree.
