(* ===== verification/Git.v ===== *)
(** * The facts a checkout is judged on

    The read-only data every loop consumes: the git state of a checkout
    (src/crates/fletch-core/src/git_state.rs), its pull request, checks and review
    threads (src/crates/fletch-core/src/github/types.rs), the status of an agent
    (src/crates/fletch-core/src/workspace/mod.rs) and a verification report
    (src/crates/fletch-core/src/verify.rs). A [u32]/[u64] is an [N], an [i64] a [Z]. *)

From S2P Require Import Prelude RustStr.

Inductive StatusKind := Modified | Added | Deleted | Renamed | Untracked | Conflicted.

Record FileStatus := {
  fs_path : string;
  fs_kind : StatusKind;
  fs_staged : bool;
  fs_additions : N;
  fs_deletions : N;
}.

Record LinkedWorktree := { lw_path : string; lw_branch : option string }.

Record GitState := {
  g_branch : string;
  g_parent_branch : string;
  g_ahead : N;
  g_behind : N;
  g_unpushed : N;
  g_files : list FileStatus;
  g_additions : N;
  g_deletions : N;
  g_remote_url : option string;
  g_has_origin : bool;
  g_head_sha : option string;
  g_blocked_config : list string;
  g_worktrees : list LinkedWorktree;
}.

(** [GitState::empty]. *)
Definition git_empty (parent_branch : string) : GitState := {|
  g_branch := ""; g_parent_branch := parent_branch; g_ahead := 0; g_behind := 0;
  g_unpushed := 0; g_files := []; g_additions := 0; g_deletions := 0;
  g_remote_url := None; g_has_origin := false; g_head_sha := None;
  g_blocked_config := []; g_worktrees := [];
|}.

(** [GitState::blocked]: every field but the refused keys is a zero state. *)
Definition git_blocked (parent_branch : string) (keys : list string) : GitState :=
  let e := git_empty parent_branch in {|
  g_branch := g_branch e; g_parent_branch := g_parent_branch e; g_ahead := g_ahead e;
  g_behind := g_behind e; g_unpushed := g_unpushed e; g_files := g_files e;
  g_additions := g_additions e; g_deletions := g_deletions e;
  g_remote_url := g_remote_url e; g_has_origin := g_has_origin e;
  g_head_sha := g_head_sha e; g_blocked_config := keys; g_worktrees := g_worktrees e;
|}.

Inductive PrStatus := PrOpen | PrMerged | PrClosed.

(** [PrStatus::as_str] and [PrStatus::parse]. *)
Definition pr_status_as_str (s : PrStatus) : string :=
  match s with PrOpen => "open" | PrMerged => "merged" | PrClosed => "closed" end.

Definition pr_status_parse (s : string) : option PrStatus :=
  if String.eqb s "open" then Some PrOpen
  else if String.eqb s "merged" then Some PrMerged
  else if String.eqb s "closed" then Some PrClosed
  else None.

Inductive MergeableState := MsMergeable | MsConflicting | MsUnknown.

Record PrState := {
  pr_number : N;
  pr_url : string;
  pr_state : PrStatus;
  pr_title : string;
  pr_mergeable : MergeableState;
  pr_opened_at : option Z;
  pr_merged_at : option Z;
  pr_branch : option string;
}.

Inductive MergeState :=
  Clean | Blocked | Unstable | Behind | Dirty | MsDraft | HasHooks | UnknownGate.

Record CheckRun := {
  cr_id : option N;
  cr_name : string;
  cr_status : string;
  cr_conclusion : option string;
  cr_required : bool;
  cr_url : option string;
  cr_started_at : option string;
  cr_completed_at : option string;
}.

Record PrChecks := {
  ck_merge_state : MergeState;
  ck_rollup : string;
  ck_total : N;
  ck_passed : N;
  ck_failed : N;
  ck_pending : N;
  ck_required_failing : list string;
  ck_runs : list CheckRun;
}.

Inductive ThreadSource := ThreadGithub | ThreadLocal.
Inductive ReviewSeverity := SevHigh | SevMedium | SevLow.

Record PrComment := {
  pc_id : string;
  pc_source : ThreadSource;
  pc_severity : option ReviewSeverity;
  pc_round : option N;
  pc_author : string;
  pc_is_bot : bool;
  pc_body : string;
  pc_path : option string;
  pc_line : option N;
  pc_url : option string;
  pc_replies : N;
  pc_we_replied_last : bool;
}.

Record PrComments := { unresolved : list PrComment }.

Record PrLive := { live_state : PrState; live_checks : option PrChecks }.

Inductive AgentStatus := Spawning | Running | Idle | Stopped | StatusError.

Inductive CheckOutcome := Passed | Failed | TimedOut | SetupFailed | Skipped.

Record CheckResult := {
  cres_name : string;
  cres_command : string;
  cres_outcome : CheckOutcome;
  cres_duration_ms : N;
  cres_tail : list string;
}.

Record VerificationReport := { vr_checks : list CheckResult }.

(** [VerificationReport::passed]: [Skipped] counts as clean. *)
Definition passed (r : VerificationReport) : bool :=
  forallb (fun c => match cres_outcome c with Passed | Skipped => true | _ => false end)
          (vr_checks r).

#[export] Instance StatusKind_eq_dec : EqDecision StatusKind.
Proof. solve_decision. Defined.
#[export] Instance PrStatus_eq_dec : EqDecision PrStatus.
Proof. solve_decision. Defined.
#[export] Instance MergeableState_eq_dec : EqDecision MergeableState.
Proof. solve_decision. Defined.
#[export] Instance MergeState_eq_dec : EqDecision MergeState.
Proof. solve_decision. Defined.
#[export] Instance AgentStatus_eq_dec : EqDecision AgentStatus.
Proof. solve_decision. Defined.

(** [matches!(f.kind, StatusKind::Conflicted)]. *)
Definition is_conflicted (f : FileStatus) : bool :=
  match fs_kind f with Conflicted => true | _ => false end.

(** [p.state == PrStatus::Open]. *)
Definition pr_is (s : PrStatus) (p : PrState) : bool := eqb (pr_state p) s.

Lemma pr_status_roundtrip s : pr_status_parse (pr_status_as_str s) = Some s.
Proof. by destruct s. Qed.
