(* ===== verification/Delegation.v ===== *)
(** * Delegations: one git playbook handed to the coding agent

    Models src/crates/fletch-core/src/supervisor/delegation.rs: the pure decisions
    ([delegation_step], [plan_pass]), the in-memory table of in-flight delegations
    (Module Table, one function per method of [Delegations]), the ops that admit one,
    and the driver's pass over the table (Module Driver). What the pass reads and does
    beyond the table is the class [DelegationWorld]. *)

From S2P Require Import Prelude RustStr BTree Git.

Local Open Scope string_scope.
Local Open Scope list_scope.

(** ** Kinds and playbooks *)

Inductive DelegationKind :=
| Commit | CommitPush | CommitPr | OpenPr | Push | Resolve | UpdateBranch | FixChecks
| ResolveComments.

#[export] Instance DelegationKind_eq_dec : EqDecision DelegationKind.
Proof. solve_decision. Defined.

Definition ALL : list DelegationKind :=
  [Commit; CommitPush; CommitPr; OpenPr; Push; Resolve; UpdateBranch; FixChecks; ResolveComments].

#[export] Program Instance DelegationKind_countable : Countable DelegationKind :=
  {| encode k := encode (match k with
       | Commit => 0 | CommitPush => 1 | CommitPr => 2 | OpenPr => 3 | Push => 4 | Resolve => 5
       | UpdateBranch => 6 | FixChecks => 7 | ResolveComments => 8 end : nat);
     decode p := n ← decode p; ALL !! (n : nat) |}.
Next Obligation. by intros []. Qed.

Definition action (k : DelegationKind) : string :=
  match k with
  | Commit => "commit"
  | CommitPush => "commit-push"
  | CommitPr => "commit-pr"
  | OpenPr => "open-pr"
  | Push => "push"
  | Resolve => "resolve-conflicts"
  | UpdateBranch => "update-branch"
  | FixChecks => "fix-checks"
  | ResolveComments => "resolve-comments"
  end.

Definition from_action (a : string) : option DelegationKind :=
  lfind (fun k => String.eqb (action k) a) ALL.

Definition settles_on_idle (k : DelegationKind) : bool :=
  match k with FixChecks | ResolveComments => true | _ => false end.

Definition action_proves_kind (k : DelegationKind) (op : string) : bool :=
  match k with
  | Commit => String.eqb op "git_commit"
  | Resolve => String.eqb op "git_commit" || String.eqb op "git_update_branch"
  | CommitPush | FixChecks => String.eqb op "git_commit" || String.eqb op "git_push"
  | CommitPr => String.eqb op "git_commit" || String.eqb op "open_pr"
  | OpenPr => String.eqb op "open_pr"
  | Push => String.eqb op "git_push"
  | ResolveComments => String.eqb op "reply_thread" || String.eqb op "resolve_thread"
  | UpdateBranch => String.eqb op "git_update_branch"
  end.

Definition delegation_resolved (k : DelegationKind) (git : option GitState)
    (pr : option PrState) (checks : option PrChecks) : bool :=
  let clean := is_some_and git (fun g => match g_files g with [] => true | _ => false end) in
  let pr_open := is_some_and pr (pr_is PrOpen) in
  let pushed := is_some_and git (fun g => (g_unpushed g =? 0)%N) in
  match k with
  | Commit => clean
  | CommitPush => clean && pushed
  | CommitPr => clean && pr_open
  | OpenPr => pr_open
  | Push => pushed
  | Resolve => is_some_and git (fun g => negb (existsb is_conflicted (g_files g)))
  | UpdateBranch =>
      match checks with
      | Some c => match ck_merge_state c with Behind | Dirty | UnknownGate => false | _ => true end
      | None => is_some_and pr (fun p => eqb (pr_mergeable p) MsMergeable)
      end
  | FixChecks | ResolveComments => false
  end.

Definition delegation_done (k : DelegationKind) : string :=
  match k with
  | Commit => "Agent committed your changes"
  | CommitPush => "Committed & pushed"
  | CommitPr => "Committed — PR is open"
  | OpenPr => "PR is open"
  | Push => "Pushed to origin"
  | Resolve => "Conflicts resolved"
  | UpdateBranch => "Branch updated"
  | FixChecks => "Agent finished — checks are re-running"
  | ResolveComments => "Review comments addressed"
  end.

(** ** The trigger *)

Definition APP_ACTION_PREFIX : string := "[app-action] ".

Definition app_action_message (a : string) (params : list (string * string)) : string :=
  fold_left (fun out '(key, value) =>
    if is_empty value then out
    else out +:+ " " +:+ key +:+ "=" +:+ dq +:+ replace dq_byte ("\" +:+ dq) value +:+ dq)
  params (APP_ACTION_PREFIX +:+ a).

Definition acts_on_pr (k : DelegationKind) : bool :=
  match k with FixChecks | ResolveComments | UpdateBranch => true | _ => false end.

(** The two keys the host owns. *)
Definition host_key (k : string) : bool := String.eqb k "repo" || String.eqb k "branch".

Definition delegation_trigger (kind : DelegationKind) (params : list (string * string))
    (subdir pr_branch : option string) : string :=
  let pairs := lfilter (fun e => negb (host_key e.1)) params in
  let pairs := pairs ++ match opt_filter (fun _ => acts_on_pr kind) pr_branch with
                        | Some b => [("branch", b)] | None => [] end in
  let pairs := pairs ++ match subdir with Some s => [("repo", s)] | None => [] end in
  app_action_message (action kind) pairs.

(** ** One delegation, one observation *)

Definition GIVE_UP_GRACE_MS : Z := 15000.
Definition ABANDONED_NOTICE : string := "Agent finished — review the chat for details".
Definition UNDELIVERED_NOTICE : string := "Couldn't hand the action to the agent".

Record Delegation := {
  d_kind : DelegationKind;
  d_prompt : string;
  d_started_at : Z;
  d_saw_running : bool;
  d_saw_git_op : bool;
  d_queued : bool;
}.

Inductive Step := StepResolve | StepWait | StepDequeue | StepMarkRunning | StepGiveUp.

(** [matches!(status, Running | Spawning)]. *)
Definition is_active (s : AgentStatus) : bool :=
  match s with Running | Spawning => true | _ => false end.

Definition delegation_step (d : Delegation) (status : AgentStatus) (resolved : bool) (now : Z)
    : Step :=
  if resolved && d_saw_git_op d && negb (d_queued d) then StepResolve
  else
  let active := is_active status in
  if d_queued d then (if active then StepWait else StepDequeue)
  else if eqb status Running && negb (d_saw_running d) then StepMarkRunning
  else
  let armed := d_saw_running d || (GIVE_UP_GRACE_MS <? now - d_started_at d)%Z in
  if negb active && armed then StepGiveUp
  else StepWait.

(** ** Planning a pass *)

(** The agent and the subdir of a secondary repo, ordered as the tuple derives it. *)
Abbreviation Key := (string * option string)%type.

Definition opt_str_le (a b : option string) : Prop :=
  match a, b with
  | None, _ => True
  | Some _, None => False
  | Some x, Some y => String.le x y
  end.

Definition key_le (a b : Key) : Prop :=
  if decide (a.1 = b.1) then opt_str_le a.2 b.2 else String.le a.1 b.1.

#[export] Instance opt_str_le_dec : RelDecision opt_str_le.
Proof. intros [x|] [y|]; simpl; apply _. Defined.
#[export] Instance key_le_dec : RelDecision key_le.
Proof. intros a b. unfold key_le. destruct (decide (a.1 = b.1)); apply _. Defined.

Inductive Phase := PhQueued | PhStarted | PhRunning | PhDone | PhAbandoned.
#[export] Instance Phase_eq_dec : EqDecision Phase.
Proof. solve_decision. Defined.

Record Observed := {
  o_git : option GitState;
  o_pr : option PrState;
  o_checks : option PrChecks;
}.

Inductive Effect :=
| Finish (key : Key) (phase : Phase) (notice : string)
| Dequeue (key : Key)
| MarkRunning (key : Key)
| DropOrphan (key : Key).

Definition resolved_in (observed : gmap Key Observed) (key : Key) (d : Delegation) : bool :=
  let seen := observed !! key in
  delegation_resolved (d_kind d) (seen ≫= o_git) (seen ≫= o_pr) (seen ≫= o_checks).

(** The body of [plan_pass]'s loop: the effect for one entry, given the agents already
    dequeued in this pass. *)
Definition plan_entry (statuses : gmap string AgentStatus) (observed : gmap Key Observed)
    (now : Z) (dequeued : list string) (key : Key) (d : Delegation)
    : option Effect * list string :=
  match statuses !! key.1 with
  | None => (Some (DropOrphan key), dequeued)
  | Some status =>
      match delegation_step d status (resolved_in observed key d) now with
      | StepResolve => (Some (Finish key PhDone (delegation_done (d_kind d))), dequeued)
      | StepDequeue =>
          if lcontains dequeued key.1 then (None, dequeued)
          else (Some (Dequeue key), dequeued ++ [key.1])
      | StepMarkRunning => (Some (MarkRunning key), dequeued)
      | StepGiveUp =>
          (Some (if settles_on_idle (d_kind d)
                 then Finish key PhDone (delegation_done (d_kind d))
                 else Finish key PhAbandoned ABANDONED_NOTICE), dequeued)
      | StepWait => (None, dequeued)
      end
  end.

Fixpoint plan_from (statuses : gmap string AgentStatus) (observed : gmap Key Observed) (now : Z)
    (dequeued : list string) (ds : list (Key * Delegation)) : list Effect :=
  match ds with
  | [] => []
  | (key, d) :: ds =>
      let '(e, dequeued) := plan_entry statuses observed now dequeued key d in
      option_list e ++ plan_from statuses observed now dequeued ds
  end.

Definition plan_pass (delegations : list (Key * Delegation)) (statuses : gmap string AgentStatus)
    (observed : gmap Key Observed) (now : Z) : list Effect :=
  plan_from statuses observed now [] delegations.

(** ** The table

    [Delegations]' mutex makes every method one atomic function of [Inner]. *)

Record DelegationView := {
  dv_agent_id : string;
  dv_subdir : option string;
  dv_kind : DelegationKind;
  dv_phase : Phase;
  dv_started_at : Z;
  dv_notice : option string;
}.

Record Entry := { e_id : N; e_delegation : Delegation }.

Record Inner := { in_table : list (Key * Entry); in_next_id : N }.

Definition delegations_default : Inner := {| in_table := []; in_next_id := 0 |}.

Definition view (key : Key) (d : Delegation) (phase : Phase) (notice : option string)
    : DelegationView := {|
  dv_agent_id := key.1; dv_subdir := key.2; dv_kind := d_kind d; dv_phase := phase;
  dv_started_at := d_started_at d; dv_notice := notice;
|}.

Definition live_phase (d : Delegation) : Phase :=
  if d_queued d then PhQueued else if d_saw_running d then PhRunning else PhStarted.

Definition with_table (inner : Inner) (t : list (Key * Entry)) : Inner :=
  {| in_table := t; in_next_id := in_next_id inner |}.

Definition map_entry (f : Delegation -> Delegation) (e : Entry) : Entry :=
  {| e_id := e_id e; e_delegation := f (e_delegation e) |}.

(** A new delegation: neither seen running nor acknowledged. *)
Definition new_delegation (kind : DelegationKind) (prompt : string) (queued : bool) (now : Z)
    : Delegation := {|
  d_kind := kind; d_prompt := prompt; d_started_at := now; d_saw_running := false;
  d_saw_git_op := false; d_queued := queued;
|}.

Definition delegations_record (inner : Inner) (key : Key) (kind : DelegationKind)
    (prompt : string) (queued : bool) (now : Z) : (N * DelegationView) * Inner :=
  let id := ((in_next_id inner + 1) mod 2 ^ 64)%N in
  let delegation := new_delegation kind prompt queued now in
  let shown := view key delegation (live_phase delegation) None in
  ((id, shown),
   {| in_table := insert key_le key {| e_id := id; e_delegation := delegation |} (in_table inner);
      in_next_id := id |}).

Definition delegations_snapshot (inner : Inner) : list (Key * (N * Delegation)) :=
  (fun '(k, e) => (k, (e_id e, e_delegation e))) <$> in_table inner.

Definition delegations_is_empty (inner : Inner) : bool :=
  match in_table inner with [] => true | _ => false end.

Definition delegations_views (inner : Inner) : list DelegationView :=
  (fun '(k, e) => view k (e_delegation e) (live_phase (e_delegation e)) None) <$> in_table inner.

Definition delegations_finish (inner : Inner) (key : Key) (id : N) (phase : Phase)
    (notice : option string) : option DelegationView * Inner :=
  match get key (in_table inner) with
  | Some e =>
      if (e_id e =? id)%N
      then (Some (view key (e_delegation e) phase notice),
            with_table inner (remove key (in_table inner)))
      else (None, inner)
  | None => (None, inner)
  end.

Definition set_running (d : Delegation) : Delegation := {|
  d_kind := d_kind d; d_prompt := d_prompt d; d_started_at := d_started_at d;
  d_saw_running := true; d_saw_git_op := d_saw_git_op d; d_queued := d_queued d;
|}.

Definition delegations_mark_running (inner : Inner) (key : Key) (id : option N)
    : option DelegationView * Inner :=
  match get key (in_table inner) with
  | None => (None, inner)
  | Some e =>
      if is_some_and id (fun id => negb (id =? e_id e)%N) then (None, inner)
      else
      let d := e_delegation e in
      if d_queued d || d_saw_running d then (None, inner)
      else (Some (view key (set_running d) PhRunning None),
            with_table inner (update key (map_entry set_running) (in_table inner)))
  end.

Definition set_dequeued (now : Z) (d : Delegation) : Delegation := {|
  d_kind := d_kind d; d_prompt := d_prompt d; d_started_at := now;
  d_saw_running := d_saw_running d; d_saw_git_op := d_saw_git_op d; d_queued := false;
|}.

Definition delegations_take_dequeue (inner : Inner) (key : Key) (id : N) (now : Z)
    : option (string * DelegationView) * Inner :=
  match get key (in_table inner) with
  | None => (None, inner)
  | Some e =>
      if negb (e_id e =? id)%N || negb (d_queued (e_delegation e)) then (None, inner)
      else
      let d := set_dequeued now (e_delegation e) in
      (Some (d_prompt d, view key d PhStarted None),
       with_table inner (update key (map_entry (set_dequeued now)) (in_table inner)))
  end.

Definition set_git_op (d : Delegation) : Delegation := {|
  d_kind := d_kind d; d_prompt := d_prompt d; d_started_at := d_started_at d;
  d_saw_running := d_saw_running d; d_saw_git_op := true; d_queued := d_queued d;
|}.

(** The entries [note_git_action] acknowledges. *)
Definition acked_by (agent_id op : string) (key : Key) (d : Delegation) : bool :=
  negb (negb (String.eqb key.1 agent_id) || d_queued d || d_saw_git_op d
        || negb (action_proves_kind (d_kind d) op)).

Definition acknowledge (agent_id op : string) (key : Key) (e : Entry) : Entry :=
  if acked_by agent_id op key (e_delegation e) then map_entry set_git_op e else e.

Definition delegations_note_git_action (inner : Inner) (agent_id op : string) : bool * Inner :=
  (existsb (fun '(k, e) => acked_by agent_id op k (e_delegation e)) (in_table inner),
   with_table inner ((fun e => (e.1, acknowledge agent_id op e.1 e.2)) <$> in_table inner)).

Fixpoint mark_each (inner : Inner) (keys : list Key) : list DelegationView * Inner :=
  match keys with
  | [] => ([], inner)
  | k :: keys =>
      let '(v, inner) := delegations_mark_running inner k None in
      let '(vs, inner) := mark_each inner keys in
      (option_list v ++ vs, inner)
  end.

Definition delegations_mark_agent_running (inner : Inner) (agent_id : string)
    : list DelegationView * Inner :=
  mark_each inner (lfilter (fun k => String.eqb k.1 agent_id) (in_table inner).*1).

Definition delegations_pre_authorizes (inner : Inner) (agent_id : string) (repo : option string)
    (op : string) : bool :=
  is_some_and (get (agent_id, repo) (in_table inner))
    (fun e => negb (d_queued (e_delegation e))
              && action_proves_kind (d_kind (e_delegation e)) op).

Definition is_live (inner : Inner) (key : Key) : bool := contains_key key (in_table inner).

(** ** The ops *)

(** The fields of an agent record the engine's loops read: its repos by subdir, the
    primary first. *)
Record AgentRecord := {
  ar_id : string;
  ar_project_id : string;
  ar_repos : list string;
  ar_archived : bool;
}.

Definition checkout_subdir (record : AgentRecord) (subdir : option string)
    : result (option string) string :=
  let_some requested := opt_filter (fun s => negb (is_empty s)) (trim <$> subdir)
    or Ok None in
  if is_some_and (head (ar_repos record)) (fun r => String.eqb r requested) then Ok None
  else if existsb (fun r => String.eqb r requested) (ar_repos record) then Ok (Some requested)
  else Err ("unknown repo " +:+ debug_str requested).

Record AdmittedTo := {
  ad_key : Key;
  ad_id : N;
  ad_prompt : string;
  ad_queued : bool;
  ad_shown : DelegationView;
}.

Definition REVIEW_HOLDS_CHECKOUT : string :=
  "A local review is reading this checkout. Wait for it to finish, or stop it.".

(** What the delegation code reads and does beyond its own table: the supervisor's
    records, statuses and focused PR, the review table, git and GitHub reads, and the
    delivery of a message, which another task may interleave with. *)
Class DelegationWorld := {
  dw_agent : string -> result AgentRecord string;
  dw_status_of : string -> option AgentStatus;
  dw_focused_pr_branch : string -> string -> option string;
  dw_reviewing : Key -> bool;
  dw_git_state : Key -> option GitState;
  dw_pr_live : Key -> option PrLive;
  (** The [n]-th delivery: does it succeed? *)
  dw_deliver : nat -> Key -> string -> result () string;
  (** What other tasks did to the table while the [n]-th delivery was awaited, and while
      the pass read the world. *)
  dw_interleave : nat -> Inner -> Inner;
  dw_interleave_reads : Inner -> Inner;
}.

Section Ops.
Context `{DelegationWorld}.

Definition record_unless_reviewed (inner : Inner) (key : Key) (kind : DelegationKind)
    (prompt : string) (queued : bool) (now : Z) : option (N * DelegationView) * Inner :=
  if negb (dw_reviewing key)
  then let '(r, inner) := delegations_record inner key kind prompt queued now in (Some r, inner)
  else (None, inner).

Definition admit_to (inner : Inner) (agent_id : string) (subdir : option string) (a : string)
    (params : list (string * string)) (now : Z)
    : result (option AdmittedTo) string * Inner :=
  match from_action a with
  | None => (Err ("unknown git action " +:+ debug_str a), inner)
  | Some kind =>
      match dw_agent agent_id with
      | Err e => (Err e, inner)
      | Ok record =>
          if ar_archived record then (Err "agent is archived", inner)
          else match checkout_subdir record subdir with
          | Err e => (Err e, inner)
          | Ok subdir =>
              let worktree := default "" (or_else subdir (head (ar_repos record))) in
              let pr_branch := dw_focused_pr_branch agent_id worktree in
              let prompt := delegation_trigger kind params subdir pr_branch in
              let queued := eqb (dw_status_of agent_id) (Some Running) in
              let key : Key := (agent_id, subdir) in
              match record_unless_reviewed inner key kind prompt queued now with
              | (None, inner) => (Ok None, inner)
              | (Some (id, shown), inner) =>
                  (Ok (Some {| ad_key := key; ad_id := id; ad_prompt := prompt;
                               ad_queued := queued; ad_shown := shown |}), inner)
              end
          end
      end
  end.

(** The views [run_admitted] announces are the second component. *)
Definition run_admitted (inner : Inner) (ad : AdmittedTo) (n : nat)
    : result DelegationView string * list DelegationView * Inner :=
  if negb (ad_queued ad) then
    let sent := dw_deliver n (ad_key ad) (ad_prompt ad) in
    let inner := dw_interleave n inner in
    match sent with
    | Err e =>
        let '(gone, inner) :=
          delegations_finish inner (ad_key ad) (ad_id ad) PhAbandoned (Some UNDELIVERED_NOTICE) in
        (Err e, option_list gone, inner)
    | Ok _ => (Ok (ad_shown ad), [], inner)
    end
  else (Ok (ad_shown ad), [], inner).

Definition delegate (inner : Inner) (agent_id : string) (subdir : option string) (a : string)
    (params : list (string * string)) (now : Z) (n : nat)
    : result DelegationView string * list DelegationView * Inner :=
  match admit_to inner agent_id subdir a params now with
  | (Err e, inner) => (Err e, [], inner)
  | (Ok None, inner) => (Err REVIEW_HOLDS_CHECKOUT, [], inner)
  | (Ok (Some admitted), inner) =>
      let '(r, gone, inner) := run_admitted inner admitted n in
      (r, ad_shown admitted :: gone, inner)
  end.

(** ** The driver *)

Definition agent_status (agent_id : string) : option AgentStatus :=
  match dw_agent agent_id with
  | Err _ => None
  | Ok record => if ar_archived record then None else dw_status_of agent_id
  end.

Definition needs_pr (kind : DelegationKind) : bool :=
  match kind with CommitPr | OpenPr | UpdateBranch => true | _ => false end.

Definition observe_delegation (key : Key) (kind : DelegationKind) : Observed :=
  let git := opt_filter (fun g => match g_blocked_config g with [] => true | _ => false end)
               (dw_git_state key) in
  let live := if needs_pr kind then dw_pr_live key else None in
  {| o_git := git; o_pr := live_state <$> live; o_checks := live ≫= live_checks |}.

(** What a pass did beyond the table: the views it announced, the triggers it sent and
    whether it woke the pull-request watcher. *)
Record PassLog := {
  pl_emitted : list DelegationView;
  pl_delivered : list (Key * string);
  pl_pr_nudges : nat;
}.

Definition log_emit (log : PassLog) (v : option DelegationView) : PassLog := {|
  pl_emitted := pl_emitted log ++ option_list v;
  pl_delivered := pl_delivered log; pl_pr_nudges := pl_pr_nudges log |}.

Definition log_nudge (log : PassLog) : PassLog := {|
  pl_emitted := pl_emitted log; pl_delivered := pl_delivered log;
  pl_pr_nudges := S (pl_pr_nudges log) |}.

Definition log_sent (log : PassLog) (key : Key) (prompt : string) : PassLog := {|
  pl_emitted := pl_emitted log; pl_delivered := pl_delivered log ++ [(key, prompt)];
  pl_pr_nudges := pl_pr_nudges log |}.

(** One arm of the pass's match. The ids come from the snapshot the plan was made on. *)
Definition apply_effect (snapshot : list (Key * (N * Delegation))) (now : Z)
    (st : Inner * PassLog) (e : Effect) : Inner * PassLog :=
  let '(inner, log) := st in
  match e with
  | Finish key phase notice =>
      let_some (id, _) := get key snapshot or st in
      let '(shown, inner) := delegations_finish inner key id phase (Some notice) in
      let log := log_emit log shown in
      (inner, if is_some shown && eqb phase PhDone then log_nudge log else log)
  | DropOrphan key =>
      let_some (id, _) := get key snapshot or st in
      let '(shown, inner) := delegations_finish inner key id PhAbandoned None in
      (inner, log_emit log shown)
  | MarkRunning key =>
      let_some (id, _) := get key snapshot or st in
      let '(shown, inner) := delegations_mark_running inner key (Some id) in
      (inner, log_emit log shown)
  | Dequeue key =>
      let_some (id, _) := get key snapshot or st in
      match delegations_take_dequeue inner key id now with
      | (None, inner) => (inner, log)
      | (Some (prompt, shown), inner) =>
          let log := log_emit log (Some shown) in
          let n := length (pl_delivered log) in
          let sent := dw_deliver n key prompt in
          let inner := dw_interleave n inner in
          let log := log_sent log key prompt in
          match sent with
          | Ok _ => (inner, log)
          | Err _ =>
              let '(gone, inner) :=
                delegations_finish inner key id PhAbandoned (Some UNDELIVERED_NOTICE) in
              (inner, log_emit log gone)
          end
      end
  end.

(** The statuses of the agents in the snapshot; an agent that is gone has none. *)
Definition pass_statuses (snapshot : list (Key * (N * Delegation))) : gmap string AgentStatus :=
  fold_left (fun m '(key, _) =>
    match m !! key.1 with
    | Some _ => m
    | None => match agent_status key.1 with Some s => <[key.1 := s]> m | None => m end
    end) snapshot ∅.

(** Only a delivered, acknowledged, observable delegation is read for. *)
Definition pass_observed (snapshot : list (Key * (N * Delegation))) : gmap Key Observed :=
  fold_left (fun m '(key, (_, d)) =>
    if d_saw_git_op d && negb (d_queued d) && negb (settles_on_idle (d_kind d))
    then <[key := observe_delegation key (d_kind d)]> m else m) snapshot ∅.

Definition delegations_run_pass (inner : Inner) (now : Z) : Inner * PassLog :=
  let log := {| pl_emitted := []; pl_delivered := []; pl_pr_nudges := 0 |} in
  let snapshot := delegations_snapshot inner in
  match snapshot with
  | [] => (inner, log)
  | _ =>
      let statuses := pass_statuses snapshot in
      let observed := pass_observed snapshot in
      let delegations := (fun '(k, (_, d)) => (k, d)) <$> snapshot in
      fold_left (apply_effect snapshot now)
        (plan_pass delegations statuses observed now) (dw_interleave_reads inner, log)
  end.
End Ops.

(** ** Lemmas on planning *)

Definition effect_key (e : Effect) : Key :=
  match e with Finish k _ _ | Dequeue k | MarkRunning k | DropOrphan k => k end.

(** The agents a plan delivers a held trigger to. *)
Definition dequeue_agent (e : Effect) : option string :=
  match e with Dequeue k => Some k.1 | _ => None end.

(** What a plan may do to one delegation, whatever the rest of the table holds. *)
Definition effect_allowed (statuses : gmap string AgentStatus) (observed : gmap Key Observed)
    (now : Z) (key : Key) (d : Delegation) (e : Effect) : Prop :=
  match e with
  | DropOrphan k => k = key /\ statuses !! key.1 = None
  | Dequeue k => k = key /\ d_queued d = true /\
      exists s, statuses !! key.1 = Some s /\ is_active s = false
  | MarkRunning k => k = key /\ d_queued d = false /\ d_saw_running d = false /\
      statuses !! key.1 = Some Running
  | Finish k PhDone n => k = key /\ d_queued d = false /\ n = delegation_done (d_kind d) /\
      (d_saw_git_op d = true /\ resolved_in observed key d = true \/
       settles_on_idle (d_kind d) = true /\
       exists s, statuses !! key.1 = Some s /\ is_active s = false)
  | Finish k PhAbandoned n => k = key /\ d_queued d = false /\ n = ABANDONED_NOTICE /\
      settles_on_idle (d_kind d) = false /\
      (d_saw_running d = true \/ GIVE_UP_GRACE_MS < now - d_started_at d)%Z /\
      exists s, statuses !! key.1 = Some s /\ is_active s = false
  | Finish _ _ _ => False
  end.

Section Plan.
Context (statuses : gmap string AgentStatus) (observed : gmap Key Observed) (now : Z).

Lemma plan_entry_allowed dq key d e dq' :
  plan_entry statuses observed now dq key d = (Some e, dq') ->
  effect_allowed statuses observed now key d e.
Proof.
  unfold plan_entry, delegation_step. destruct (statuses !! key.1) as [s|] eqn:Hs.
  2: { intros [= <- <-]. by simpl. }
  destruct (resolved_in observed key d && d_saw_git_op d && negb (d_queued d)) eqn:Hr.
  { intros [= <- <-]. bool_to_prop. simpl. tauto. }
  destruct (d_queued d) eqn:Hq.
  { destruct (is_active s) eqn:Ha; [done|]. destruct (lcontains dq key.1); [done|].
    intros [= <- <-]. simpl. naive_solver. }
  destruct (eqb s Running && negb (d_saw_running d)) eqn:Hm.
  { intros [= <- <-]. bool_to_prop. simpl. subst s. tauto. }
  destruct (negb (is_active s) && (d_saw_running d || (GIVE_UP_GRACE_MS <? now - d_started_at d)%Z))
    eqn:Hg; [|done].
  intros [= <- <-]. bool_to_prop.
  match goal with H : (_ || _) = true |- _ => apply orb_true_iff in H; rewrite Z.ltb_lt in H end.
  destruct (settles_on_idle (d_kind d)) eqn:Hi; simpl; eauto 10.
Qed.

Lemma plan_entry_keep dq key d o dq' :
  plan_entry statuses observed now dq key d = (o, dq') ->
  dq' = dq ++ option_list (o ≫= dequeue_agent) /\
  (forall a, o ≫= dequeue_agent = Some a -> a ∉ dq).
Proof.
  unfold plan_entry.
  destruct (statuses !! key.1); [|by intros [= <- <-]; simpl; rewrite app_nil_r].
  destruct (delegation_step _ _ _ _); try (intros [= <- <-]; simpl; by rewrite app_nil_r).
  - destruct (lcontains dq key.1) eqn:E; intros [= <- <-]; simpl.
    + by rewrite app_nil_r.
    + split; [done|]. intros ag [= <-]. by apply lcontains_false.
  - destruct (settles_on_idle (d_kind d)); intros [= <- <-]; simpl; by rewrite app_nil_r.
Qed.

Lemma plan_from_allowed dq ds e :
  e ∈ plan_from statuses observed now dq ds ->
  exists key d, (key, d) ∈ ds /\ effect_allowed statuses observed now key d e.
Proof.
  revert dq. induction ds as [|[key d] ds IH]; simpl; intros dq He; [by apply elem_of_nil in He|].
  destruct (plan_entry statuses observed now dq key d) as [o dq'] eqn:Ho.
  apply elem_of_app in He as [He|He].
  - destruct o; [|by apply elem_of_nil in He]. apply list_elem_of_singleton in He as ->.
    exists key, d. split; [left|]. by eapply plan_entry_allowed.
  - apply IH in He as (k & d' & Hin & ?). exists k, d'. split; [by right|done].
Qed.

Lemma plan_from_one_dequeue dq ds :
  NoDup (omap dequeue_agent (plan_from statuses observed now dq ds)) /\
  forall a, a ∈ omap dequeue_agent (plan_from statuses observed now dq ds) -> a ∉ dq.
Proof.
  revert dq. induction ds as [|[key d] ds IH]; simpl; intros dq.
  { split; [constructor|]. by intros a ?%elem_of_nil. }
  destruct (plan_entry statuses observed now dq key d) as [o dq'] eqn:Ho.
  apply plan_entry_keep in Ho as [-> Hfresh]. destruct (IH (dq ++ option_list (o ≫= dequeue_agent))) as [Hnd Hout].
  rewrite omap_app. destruct o as [e|]; simpl in *.
  - destruct (dequeue_agent e) as [a|] eqn:Ha; simpl in *.
    + split.
      * constructor; [|done]. intros Hin. apply Hout in Hin. apply Hin, elem_of_app. right. left.
      * intros b [->|Hb]%elem_of_cons; [by apply Hfresh|]. apply Hout in Hb.
        intros Hdq. apply Hb, elem_of_app. by left.
    + rewrite app_nil_r in *. done.
  - by rewrite app_nil_r in *.
Qed.

(** A settled agent with a held trigger gets exactly the first of them in key order. *)
Lemma plan_from_dequeues_first dq ds key d s :
  statuses !! key.1 = Some s -> is_active s = false -> key.1 ∉ dq ->
  (key, d) ∈ ds -> d_queued d = true ->
  exists key', Dequeue key' ∈ plan_from statuses observed now dq ds /\ key'.1 = key.1.
Proof.
  intros Hs Ha. revert dq. induction ds as [|[key' d'] ds IH]; simpl; intros dq Hdq Hin Hq.
  { by apply elem_of_nil in Hin. }
  destruct (plan_entry statuses observed now dq key' d') as [o dq'] eqn:Ho.
  destruct (decide (o ≫= dequeue_agent = Some key.1)) as [Hd|Hd].
  { destruct o as [[]|]; try done. simpl in Hd. injection Hd as Hd.
    exists key0. split; [|done]. simpl. left. }
  pose proof (plan_entry_keep _ _ _ _ _ Ho) as [-> _].
  apply elem_of_cons in Hin as [[= <- <-]|Hin].
  - exfalso. apply Hd. unfold plan_entry, delegation_step in Ho. rewrite Hs, Hq, Ha in Ho.
    rewrite andb_false_r, (proj2 (lcontains_false dq key.1) Hdq) in Ho. by injection Ho as <-.
  - destruct (IH (dq ++ option_list (o ≫= dequeue_agent))) as (k & Hk & ?).
    + rewrite elem_of_app. intros [|Hc]; [done|].
      destruct (o ≫= dequeue_agent); [|by apply elem_of_nil in Hc].
      apply list_elem_of_singleton in Hc. congruence.
    + done.
    + done.
    + exists k. split; [|done]. apply elem_of_app. by right.
Qed.
End Plan.

(** ** The key order *)

#[export] Instance opt_str_le_trans : Transitive opt_str_le.
Proof. intros [x|] [y|] [z|]; simpl; try done. apply (transitivity (R := String.le)). Qed.
#[export] Instance opt_str_le_total : Total opt_str_le.
Proof. intros [x|] [y|]; simpl; auto. apply (total String.le). Qed.
#[export] Instance opt_str_le_antisym : AntiSymm (=) opt_str_le.
Proof. intros [x|] [y|]; simpl; try done. intros. f_equal. by apply (anti_symm String.le). Qed.

#[export] Instance key_le_antisym : AntiSymm (=) key_le.
Proof.
  intros [a x] [b y]. unfold key_le. simpl. repeat case_decide; subst; try done; intros.
  - f_equal. by apply (anti_symm opt_str_le).
  - exfalso. match goal with H : ?x <> ?y |- _ => by apply H, (anti_symm String.le) end.
Qed.
#[export] Instance key_le_total : Total key_le.
Proof.
  intros [a x] [b y]. unfold key_le. simpl. repeat case_decide; subst; try done.
  - apply (total opt_str_le).
  - apply (total String.le).
Qed.
#[export] Instance key_le_trans : Transitive key_le.
Proof.
  intros [a x] [b y] [c z]. unfold key_le. simpl.
  repeat case_decide; subst; try done; intros Hab Hbc; try by etrans.
  exfalso. match goal with H : ?x <> ?y |- _ => by apply H, (anti_symm String.le) end.
Qed.

(** ** Steps of the table *)

(** Every way the table changes, whoever asks. *)
Inductive table_step : Inner -> Inner -> Prop :=
| ts_record i key kind prompt queued now :
    (in_next_id i + 1 < 2 ^ 64)%N ->
    table_step i (delegations_record i key kind prompt queued now).2
| ts_finish i key id phase notice : table_step i (delegations_finish i key id phase notice).2
| ts_mark_running i key id : table_step i (delegations_mark_running i key id).2
| ts_take_dequeue i key id now : table_step i (delegations_take_dequeue i key id now).2
| ts_note_git_action i agent_id op : table_step i (delegations_note_git_action i agent_id op).2
| ts_mark_agent_running i agent_id : table_step i (delegations_mark_agent_running i agent_id).2.

(** A held delegation has seen nothing of its turn. *)
Definition entry_ok (d : Delegation) : Prop :=
  d_queued d = true -> d_saw_running d = false /\ d_saw_git_op d = false.

Record wf_inner (i : Inner) : Prop := {
  wf_sorted : sorted key_le (in_table i);
  wf_ids k e : get k (in_table i) = Some e -> (0 < e_id e <= in_next_id i)%N;
  wf_distinct k1 e1 k2 e2 :
    get k1 (in_table i) = Some e1 -> get k2 (in_table i) = Some e2 -> e_id e1 = e_id e2 -> k1 = k2;
  wf_entries k e : get k (in_table i) = Some e -> entry_ok (e_delegation e);
}.

(** [finish] on a live id removes that entry; otherwise it changes nothing. *)
Lemma finish_cases i key id phase notice :
  delegations_finish i key id phase notice = (None, i) \/
  exists e, get key (in_table i) = Some e /\ e_id e = id /\
    delegations_finish i key id phase notice =
      (Some (view key (e_delegation e) phase notice), with_table i (remove key (in_table i))).
Proof.
  unfold delegations_finish. destruct (get key (in_table i)) as [e|] eqn:E; [|by left].
  destruct (e_id e =? id)%N eqn:Hid; [|by left]. bool_to_prop. right. by exists e.
Qed.

Lemma mark_running_cases i key id :
  delegations_mark_running i key id = (None, i) \/
  exists e, get key (in_table i) = Some e /\ d_queued (e_delegation e) = false /\
    delegations_mark_running i key id =
      (Some (view key (set_running (e_delegation e)) PhRunning None),
       with_table i (update key (map_entry set_running) (in_table i))).
Proof.
  unfold delegations_mark_running. destruct (get key (in_table i)) as [e|] eqn:E; [|by left].
  destruct (is_some_and _ _); [by left|].
  destruct (d_queued (e_delegation e)) eqn:Hq, (d_saw_running (e_delegation e)); simpl; auto.
  right. by exists e.
Qed.

Lemma take_dequeue_cases i key id now :
  delegations_take_dequeue i key id now = (None, i) \/
  exists e, get key (in_table i) = Some e /\ e_id e = id /\ d_queued (e_delegation e) = true /\
    delegations_take_dequeue i key id now =
      (Some (d_prompt (e_delegation e), view key (set_dequeued now (e_delegation e)) PhStarted None),
       with_table i (update key (map_entry (set_dequeued now)) (in_table i))).
Proof.
  unfold delegations_take_dequeue. destruct (get key (in_table i)) as [e|] eqn:E; [|by left].
  destruct (e_id e =? id)%N eqn:Hid; [|by left].
  destruct (d_queued (e_delegation e)) eqn:Hq; [|by left]. bool_to_prop.
  right. by exists e.
Qed.

(** A rewrite of entries that keeps ids and the entry invariant keeps the table's. *)
Lemma wf_rewrite i (g : Key -> Entry -> Entry) :
  (forall k e, get k (in_table i) = Some e -> e_id (g k e) = e_id e) ->
  (forall k e, get k (in_table i) = Some e -> entry_ok (e_delegation e) ->
     entry_ok (e_delegation (g k e))) ->
  forall t, (forall k, get k t = g k <$> get k (in_table i)) -> sorted key_le t ->
  wf_inner i -> wf_inner (with_table i t).
Proof.
  intros Hid Hok t Hget Hs Hwf. constructor; simpl; [done|..].
  - intros k e. rewrite Hget. intros (e' & He & ->)%fmap_Some. rewrite (Hid _ _ He). by eapply wf_ids.
  - intros k1 e1 k2 e2. rewrite !Hget. intros (x & Hx & ->)%fmap_Some (y & Hy & ->)%fmap_Some.
    rewrite (Hid _ _ Hx), (Hid _ _ Hy). by eapply wf_distinct.
  - intros k e. rewrite Hget. intros (e' & He & ->)%fmap_Some.
    apply Hok; [done|]. by eapply wf_entries.
Qed.

Lemma get_update_if (k k' : Key) (f : Entry -> Entry) m :
  get k (update k' f m) = (if eqb k k' then f else id) <$> get k m.
Proof.
  destruct (eqb k k') eqn:E.
  - apply eqb_eq in E as <-. apply get_update_eq.
  - apply eqb_neq in E. rewrite get_update_ne by done. by destruct (get k m).
Qed.

Lemma wf_update i key (f : Delegation -> Delegation) :
  (forall e, get key (in_table i) = Some e -> entry_ok (e_delegation e) ->
     entry_ok (f (e_delegation e))) ->
  wf_inner i -> wf_inner (with_table i (update key (map_entry f) (in_table i))).
Proof.
  intros Hf Hwf. apply (wf_rewrite i (fun k e => (if eqb k key then map_entry f else id) e)); auto.
  - intros k e _. by destruct (eqb k key).
  - intros k e He. destruct (eqb k key) eqn:E; [|done]. apply eqb_eq in E as ->. by apply Hf.
  - intros k. apply get_update_if.
  - apply sorted_update, wf_sorted, Hwf.
Qed.

Lemma wf_record i key kind prompt queued now :
  (in_next_id i + 1 < 2 ^ 64)%N -> wf_inner i ->
  wf_inner (delegations_record i key kind prompt queued now).2.
Proof.
  intros Hlt [Hs Hids Hd Ho]. unfold delegations_record. simpl.
  rewrite (N.mod_small _ _ Hlt). constructor; simpl.
  - by apply sorted_insert; try apply _.
  - intros k e. destruct (decide (key = k)) as [->|Hne].
    + rewrite get_insert_eq. intros [= <-]. simpl. lia.
    + rewrite get_insert_ne by done. intros H%Hids. lia.
  - intros k1 e1 k2 e2.
    destruct (decide (k1 = key)) as [->|H1], (decide (k2 = key)) as [->|H2];
      rewrite ?get_insert_eq, ?get_insert_ne by done; [done|..|apply Hd].
    + intros [= <-] H%Hids. simpl. lia.
    + intros H%Hids [= <-]. simpl. lia.
  - intros k e. destruct (decide (key = k)) as [->|Hne].
    + rewrite get_insert_eq. by intros [= <-].
    + rewrite get_insert_ne by done. apply Ho.
Qed.

Lemma wf_remove i key : wf_inner i -> wf_inner (with_table i (remove key (in_table i))).
Proof.
  assert (forall k e, get k (remove key (in_table i)) = Some e -> get k (in_table i) = Some e) as Hg.
  { intros k e. destruct (decide (key = k)) as [->|Hne]; [by rewrite get_remove_eq|].
    by rewrite get_remove_ne. }
  intros [Hs Hids Hd Ho]. constructor; simpl; eauto. by apply sorted_remove.
Qed.

Lemma wf_mark_running i key id : wf_inner i -> wf_inner (delegations_mark_running i key id).2.
Proof.
  intros Hwf. destruct (mark_running_cases i key id) as [->|(e & He & Hq & ->)]; [done|].
  apply wf_update; [|done]. intros e' He' _. intros Hq'. simpl in Hq'. congruence.
Qed.

(** The marking loop and the acknowledgement rewrite. *)
Lemma mark_each_ind (P : Inner -> Prop) keys i :
  (forall i k, P i -> P (delegations_mark_running i k None).2) -> P i -> P (mark_each i keys).2.
Proof.
  intros Hstep. revert i. induction keys as [|k keys IH]; intros i Hi; [done|]. simpl.
  pose proof (Hstep i k Hi) as Hk. destruct (delegations_mark_running i k None) as [v i'].
  pose proof (IH i' Hk) as Hi'. by destruct (mark_each i' keys) as [vs i''].
Qed.

Lemma get_note_git_action i agent_id op k :
  get k (in_table (delegations_note_git_action i agent_id op).2) =
  acknowledge agent_id op k <$> get k (in_table i).
Proof. apply (get_map_values (acknowledge agent_id op)). Qed.

Lemma acked_by_true agent_id op k d :
  acked_by agent_id op k d = true <->
  k.1 = agent_id /\ d_queued d = false /\ d_saw_git_op d = false /\
  action_proves_kind (d_kind d) op = true.
Proof.
  unfold acked_by. rewrite negb_true_iff, !orb_false_iff, !negb_false_iff, String.eqb_eq. tauto.
Qed.

Lemma wf_note i agent_id op : wf_inner i -> wf_inner (delegations_note_git_action i agent_id op).2.
Proof.
  intros Hwf. apply (wf_rewrite i (acknowledge agent_id op)); [..|done].
  - intros k e _. unfold acknowledge. by destruct (acked_by _ _ _ _).
  - intros k e _ Hok. unfold acknowledge. destruct (acked_by _ _ _ _) eqn:Ha; [|done].
    apply acked_by_true in Ha as (_ & Hq & _). intros Hq'. simpl in Hq'. congruence.
  - apply get_note_git_action.
  - unfold sorted. rewrite (keys_map_values (acknowledge agent_id op)). apply wf_sorted, Hwf.
Qed.

Lemma wf_step i i' : table_step i i' -> wf_inner i -> wf_inner i'.
Proof.
  intros Hs Hwf. destruct Hs.
  - by apply wf_record.
  - destruct (finish_cases i key id phase notice) as [->|(e & ? & ? & ->)]; [done|].
    by apply wf_remove.
  - by apply wf_mark_running.
  - destruct (take_dequeue_cases i key id now) as [->|(e & ? & ? & ? & ->)]; [done|].
    apply wf_update; [|done]. intros e' _ _ Hq. by simpl in Hq.
  - by apply wf_note.
  - unfold delegations_mark_agent_running. apply mark_each_ind; [|done]. intros. by apply wf_mark_running.
Qed.

Lemma wf_default : wf_inner delegations_default.
Proof. constructor; simpl; try done. constructor. Qed.

Lemma wf_steps i i' : rtc table_step i i' -> wf_inner i -> wf_inner i'.
Proof. induction 1; eauto using wf_step. Qed.

(** What one step may make of a key's entry: the entry it had, never held again once
    delivered, or a newer one. *)
Definition entry_from (i : Inner) (k : Key) (e' : Entry) : Prop :=
  (exists e, get k (in_table i) = Some e /\ e_id e' = e_id e /\
     (d_queued (e_delegation e') = true -> d_queued (e_delegation e) = true)) \/
  (in_next_id i < e_id e')%N.

Lemma entry_from_same i k e : get k (in_table i) = Some e -> entry_from i k e.
Proof. left. by exists e. Qed.

Lemma entry_from_update i k key (f : Delegation -> Delegation) e' :
  (forall d, d_queued (f d) = true -> d_queued d = true) ->
  get k (update key (map_entry f) (in_table i)) = Some e' -> entry_from i k e'.
Proof.
  intros Hf. rewrite get_update_if. intros (e & He & ->)%fmap_Some.
  left. exists e. destruct (eqb k key); simpl; auto.
Qed.

Lemma mark_running_entry i key id k e' :
  get k (in_table (delegations_mark_running i key id).2) = Some e' -> entry_from i k e'.
Proof.
  destruct (mark_running_cases i key id) as [->|(e & _ & _ & ->)]; simpl.
  - apply entry_from_same.
  - by apply entry_from_update.
Qed.

Lemma mark_running_next i key id :
  in_next_id (delegations_mark_running i key id).2 = in_next_id i.
Proof. by destruct (mark_running_cases i key id) as [->|(e & _ & _ & ->)]. Qed.

Lemma entry_from_trans i1 i2 k e :
  (in_next_id i1 <= in_next_id i2)%N ->
  (forall e', get k (in_table i2) = Some e' -> entry_from i1 k e') ->
  entry_from i2 k e -> entry_from i1 k e.
Proof.
  intros Hn H12 [(e' & He' & Hid & Hq)|Hlt]; [|right; lia].
  apply H12 in He' as [(e0 & ? & ? & ?)|?]; [left; exists e0; intuition congruence|right; lia].
Qed.

Lemma step_entry i i' :
  table_step i i' ->
  (in_next_id i <= in_next_id i')%N /\
  forall k e', get k (in_table i') = Some e' -> entry_from i k e'.
Proof.
  intros Hs. destruct Hs.
  - simpl. rewrite N.mod_small by done. split; [lia|]. intros k e'.
    destruct (decide (k = key)) as [->|]; rewrite ?get_insert_eq, ?get_insert_ne by done.
    + intros [= <-]. right. simpl. lia.
    + apply entry_from_same.
  - destruct (finish_cases i key id phase notice) as [->|(e & ? & ? & ->)]; simpl; (split; [lia|]).
    + apply entry_from_same.
    + intros k e'. destruct (decide (k = key)) as [->|]; rewrite ?get_remove_eq, ?get_remove_ne by done;
        [done|apply entry_from_same].
  - rewrite mark_running_next. split; [lia|]. intros k e'. apply mark_running_entry.
  - destruct (take_dequeue_cases i key id now) as [->|(e & ? & ? & ? & ->)]; simpl; (split; [lia|]).
    + apply entry_from_same.
    + intros k e'. by apply entry_from_update.
  - split; [done|]. intros k e'. rewrite get_note_git_action. intros (e & He & ->)%fmap_Some.
    left. exists e. unfold acknowledge. by destruct (acked_by _ _ _ _).
  - apply (mark_each_ind (fun i' => (in_next_id i <= in_next_id i')%N /\
      forall k e', get k (in_table i') = Some e' -> entry_from i k e')).
    + intros i' k [Hn Hi]. rewrite mark_running_next. split; [done|]. intros k' e' He'.
      eapply entry_from_trans; [done|apply Hi|]. by eapply mark_running_entry.
    + split; [lia|]. apply entry_from_same.
Qed.

Lemma steps_entry i i' :
  rtc table_step i i' ->
  (in_next_id i <= in_next_id i')%N /\
  forall k e', get k (in_table i') = Some e' -> entry_from i k e'.
Proof.
  induction 1 as [i|i1 i2 i3 H12 _ [Hn IH]]; [split; [lia|apply entry_from_same]|].
  apply step_entry in H12 as [Hn' H12]. split; [lia|]. intros k e' He'.
  eapply entry_from_trans; eauto.
Qed.

(** ** Lemmas on the pass *)

Definition dequeue_key (e : Effect) : option Key :=
  match e with Dequeue k => Some k | _ => None end.

Lemma dequeue_agents_keys es : omap dequeue_agent es = (omap dequeue_key es).*1.
Proof. induction es as [|[] es IH]; [done|exact IH|cbn; f_equal; exact IH|exact IH..]. Qed.

Section Pass.
Context `{DelegationWorld} (snapshot : list (Key * (N * Delegation))) (now : Z).

Lemma apply_effect_steps st e :
  (forall n i, rtc table_step i (dw_interleave n i)) ->
  rtc table_step st.1 (apply_effect snapshot now st e).1.
Proof.
  intros Hint. destruct st as [i log], e as [key phase notice|key|key|key]; simpl;
    (destruct (get key snapshot) as [[id d]|]; [|apply rtc_refl]).
  - pose proof (ts_finish i key id phase (Some notice)) as Hs.
    destruct (delegations_finish i key id phase (Some notice)). by apply rtc_once.
  - pose proof (ts_take_dequeue i key id now) as Hs.
    destruct (delegations_take_dequeue i key id now) as [[[prompt shown]|] i']; [|by apply rtc_once].
    destruct (dw_deliver _ _ _); simpl.
    + eapply rtc_l; [exact Hs|apply Hint].
    + pose proof (fun n => ts_finish (dw_interleave n i') key id PhAbandoned (Some UNDELIVERED_NOTICE)) as Hf.
      specialize (Hf (length (pl_delivered (log_emit log (Some shown))))). simpl in Hf.
      destruct (delegations_finish _ key id _ _). simpl.
      eapply rtc_l; [exact Hs|]. eapply rtc_r; [apply Hint|exact Hf].
  - pose proof (ts_mark_running i key (Some id)) as Hs.
    destruct (delegations_mark_running i key (Some id)). by apply rtc_once.
  - pose proof (ts_finish i key id PhAbandoned None) as Hs.
    destruct (delegations_finish i key id PhAbandoned None). by apply rtc_once.
Qed.

Lemma apply_effects_steps es st :
  (forall n i, rtc table_step i (dw_interleave n i)) ->
  rtc table_step st.1 (fold_left (apply_effect snapshot now) es st).1.
Proof.
  intros Hint. revert st. induction es as [|e es IH]; intros st; [apply rtc_refl|]. simpl.
  etrans; [by apply (apply_effect_steps st e)|apply IH].
Qed.

Lemma apply_effect_delivers st e :
  exists ds, pl_delivered (apply_effect snapshot now st e).2 = pl_delivered st.2 ++ ds /\
    ds.*1 `sublist_of` option_list (dequeue_key e).
Proof.
  destruct st as [i log], e as [key phase notice|key|key|key]; simpl;
    (destruct (get key snapshot) as [[id d]|];
     [|by exists []; rewrite app_nil_r; split; [|apply sublist_nil_l]]).
  - exists []. rewrite app_nil_r. split; [|done].
    destruct (delegations_finish i key id phase (Some notice)) as [shown i']. simpl.
    by destruct (is_some shown && eqb phase PhDone).
  - destruct (delegations_take_dequeue i key id now) as [[[prompt shown]|] i'].
    + exists [(key, prompt)]. split; [|done]. destruct (dw_deliver _ _ _); [done|].
      by destruct (delegations_finish _ key id _ _).
    + exists []. rewrite app_nil_r. split; [done|]. apply sublist_nil_l.
  - exists []. rewrite app_nil_r. split; [|done].
    by destruct (delegations_mark_running i key (Some id)).
  - exists []. rewrite app_nil_r. split; [|done].
    by destruct (delegations_finish i key id PhAbandoned None).
Qed.

Lemma apply_effects_deliver es st :
  exists ds, pl_delivered (fold_left (apply_effect snapshot now) es st).2 = pl_delivered st.2 ++ ds /\
    ds.*1 `sublist_of` omap dequeue_key es.
Proof.
  revert st. induction es as [|e es IH]; intros st; simpl.
  { exists []. by rewrite app_nil_r. }
  destruct (apply_effect_delivers st e) as (ds1 & E1 & S1).
  destruct (IH (apply_effect snapshot now st e)) as (ds2 & E2 & S2).
  exists (ds1 ++ ds2). rewrite E2, E1, app_assoc. split; [done|]. rewrite fmap_app.
  assert (omap dequeue_key (e :: es) = option_list (dequeue_key e) ++ omap dequeue_key es) as Ho.
  { simpl. by destruct (dequeue_key e). }
  simpl in Ho. rewrite Ho. by apply sublist_app.
Qed.
End Pass.

(** A status the pass holds is the agent's. *)
Lemma pass_statuses_agent `{DelegationWorld} snapshot a s :
  pass_statuses snapshot !! a = Some s -> agent_status a = Some s.
Proof.
  unfold pass_statuses. assert (forall m : gmap string AgentStatus,
    (forall s, m !! a = Some s -> agent_status a = Some s) ->
    forall s, fold_left (fun m '(key, _) =>
      match m !! key.1 with
      | Some _ => m
      | None => match agent_status key.1 with Some s => <[key.1 := s]> m | None => m end
      end) snapshot m !! a = Some s -> agent_status a = Some s) as Hgen.
  { induction snapshot as [|[[b r] x] l IH]; intros m Hm s'; simpl; [apply Hm|].
    apply IH. intros s''. destruct (m !! b) eqn:Hb; [apply Hm|].
    destruct (agent_status b) as [sb|] eqn:Hsb; [|apply Hm].
    rewrite lookup_insert_Some. intros [[-> ->]|[_ ?]]; auto. }
  apply Hgen. by intros ? ?%lookup_empty_Some.
Qed.

Lemma plan_from_finishes statuses observed now dq ds key d s :
  statuses !! key.1 = Some s -> is_active s = false -> (key, d) ∈ ds -> d_queued d = false ->
  d_saw_running d = true \/ (GIVE_UP_GRACE_MS < now - d_started_at d)%Z ->
  exists phase notice, Finish key phase notice ∈ plan_from statuses observed now dq ds.
Proof.
  intros Hs Ha. revert dq. induction ds as [|[key' d'] ds IH]; simpl; intros dq Hin Hq Harm.
  { by apply elem_of_nil in Hin. }
  destruct (plan_entry statuses observed now dq key' d') as [o dq'] eqn:Ho.
  apply elem_of_cons in Hin as [[= <- <-]|Hin].
  - assert (d_saw_running d || (GIVE_UP_GRACE_MS <? now - d_started_at d)%Z = true) as Hg.
    { apply orb_true_iff. rewrite Z.ltb_lt. done. }
    assert (eqb s Running = false) as Hr by (by destruct s).
    unfold plan_entry, delegation_step in Ho. rewrite Hs, Hq, Hr, Ha, Hg in Ho. simpl in Ho.
    repeat case_match; simplify_eq/=; eexists _, _; left.
  - destruct (IH dq') as (p & n & ?); [done..|]. exists p, n. apply elem_of_app. by right.
Qed.

(** ** Properties *)

(** Every effect of a planned pass is licensed by the delegation it is about: a held
    trigger goes out only to a settled agent, success is announced only for an acknowledged
    and resolved delegation (or a remote kind whose agent settled), abandonment only after the
    agent settled, and an orphan is dropped only when its agent is gone; and one pass never
    sends two triggers to one agent. *)
Theorem plan_pass_safe ds statuses observed now :
  (forall e, e ∈ plan_pass ds statuses observed now ->
     exists key d, (key, d) ∈ ds /\ effect_allowed statuses observed now key d e) /\
  NoDup (omap dequeue_agent (plan_pass ds statuses observed now)).
Proof.
  split; [intros e; apply plan_from_allowed|]. apply plan_from_one_dequeue.
Qed.

(** No delegation waits on a settled agent for ever: a settled agent with held triggers is
    sent one of them, and a delivered delegation whose agent ran or whose grace is over is
    finished. *)
Theorem plan_pass_progress ds statuses observed now key d s :
  statuses !! key.1 = Some s -> is_active s = false -> (key, d) ∈ ds ->
  (d_queued d = true ->
     exists key', Dequeue key' ∈ plan_pass ds statuses observed now /\ key'.1 = key.1) /\
  (d_queued d = false -> d_saw_running d = true \/ (GIVE_UP_GRACE_MS < now - d_started_at d)%Z ->
     exists phase notice, Finish key phase notice ∈ plan_pass ds statuses observed now).
Proof.
  intros Hs Ha Hin. split.
  - eapply plan_from_dequeues_first; eauto. by intros ?%elem_of_nil.
  - intros. by eapply plan_from_finishes.
Qed.

Definition witness_held : Delegation := new_delegation Commit "[app-action] commit" true 0.

Lemma plan_pass_progress_witness :
  exists key', Dequeue key' ∈ plan_pass [(("a", None), witness_held)] {["a" := Idle]} ∅ 5
    /\ key'.1 = "a".
Proof.
  apply (plan_pass_progress _ _ _ _ ("a", None) witness_held Idle); [reflexivity..|left|reflexivity].
Defined.

(** Whatever sequence of operations ran, the table is sorted by checkout with one entry
    per checkout, its ids are distinct and already handed out, and a held delegation has
    neither been seen running nor been acknowledged. *)
Theorem table_invariant i : rtc table_step delegations_default i -> wf_inner i /\ NoDup (in_table i).*1.
Proof.
  intros Hs. assert (wf_inner i) as Hwf by (eapply wf_steps; [done|apply wf_default]).
  split; [done|]. eapply sorted_NoDup; apply Hwf.
Qed.

Lemma table_invariant_witness :
  let i := (delegations_record delegations_default ("a", None) Push "p" true 0).2 in
  wf_inner i /\ NoDup (in_table i).*1.
Proof. apply table_invariant, rtc_once, ts_record. reflexivity. Defined.

(** A held trigger leaves the table at most once: after [take_dequeue] gave it to one
    caller, no later [take_dequeue] of that delegation succeeds, whatever happened in
    between. *)
Theorem trigger_delivered_once i key id now sent i' key' now' :
  rtc table_step delegations_default i ->
  (delegations_take_dequeue i key id now).1 = Some sent ->
  rtc table_step (delegations_take_dequeue i key id now).2 i' ->
  delegations_take_dequeue i' key' id now' = (None, i').
Proof.
  intros Hreach Hsent Hs. assert (wf_inner i) as Hwf by (eapply wf_steps; [done|apply wf_default]).
  destruct (take_dequeue_cases i key id now) as [E|(e & He & Hid & Hq & E)]; rewrite E in *; [done|].
  destruct (take_dequeue_cases i' key' id now') as [|(e' & He' & Hid' & Hq' & _)]; [done|exfalso].
  destruct (steps_entry _ _ Hs) as [_ Hfrom]. simpl in *.
  destruct (wf_ids _ Hwf _ _ He) as [_ Hle].
  apply Hfrom in He' as [(e0 & He0 & Hid0 & Hq0)|Hlt]; [|simpl in Hlt; lia].
  simpl in He0. rewrite get_update_if in He0. apply fmap_Some in He0 as (e1 & He1 & ->).
  destruct (eqb key' key) eqn:Ek; simpl in *.
  - by specialize (Hq0 Hq').
  - apply eqb_neq in Ek. apply Ek, (wf_distinct _ Hwf _ _ _ _ He1 He). unfold Datatypes.id in *. congruence.
Qed.

Lemma trigger_delivered_once_witness :
  let i := (delegations_record delegations_default ("a", None) Push "p" true 0).2 in
  let i' := (delegations_take_dequeue i ("a", None) 1 7).2 in
  delegations_take_dequeue i' ("a", None) 1 9 = (None, i').
Proof.
  eapply (trigger_delivered_once _ ("a", None) 1 7).
  - apply rtc_once, (ts_record delegations_default ("a", None) Push "p" true 0). reflexivity.
  - reflexivity.
  - apply rtc_refl.
Defined.

(** A pass cannot end a delegation it did not observe: once a newer delegation was
    recorded on a checkout, finishing with the older id changes nothing, however long after. *)
Theorem stale_finish_ignored i key kind prompt queued now i' id phase notice :
  (id <= in_next_id i)%N -> (in_next_id i + 1 < 2 ^ 64)%N ->
  rtc table_step (delegations_record i key kind prompt queued now).2 i' ->
  delegations_finish i' key id phase notice = (None, i').
Proof.
  intros Hid Hlt Hs. destruct (finish_cases i' key id phase notice) as [|(e & He & Hide & _)]; [done|].
  exfalso. destruct (steps_entry _ _ Hs) as [_ Hfrom].
  simpl in *. rewrite N.mod_small in Hfrom by done.
  apply Hfrom in He as [(e0 & He0 & Hid0 & _)|H]; simpl in *; [|lia].
  rewrite get_insert_eq in He0. injection He0 as <-. simpl in *. lia.
Qed.

Lemma stale_finish_ignored_witness :
  let i0 := (delegations_record delegations_default ("a", None) Push "p" true 0).2 in
  let i1 := (delegations_record i0 ("a", None) Commit "c" false 3).2 in
  delegations_finish i1 ("a", None) 1 PhDone None = (None, i1).
Proof.
  apply (stale_finish_ignored
    (delegations_record delegations_default ("a", None) Push "p" true 0).2
    ("a", None) Commit "c" false 3); [discriminate|reflexivity|apply rtc_refl].
Defined.

Lemma dequeue_key_plan ds statuses observed now k :
  k ∈ omap dequeue_key (plan_pass ds statuses observed now) ->
  exists s, statuses !! k.1 = Some s /\ is_active s = false.
Proof.
  intros (e & He & Hk)%list_elem_of_omap. destruct e; try done. injection Hk as <-.
  apply plan_from_allowed in He as (key' & d & _ & -> & _ & Hs). done.
Qed.

(** The driver's pass only takes steps of the table, provided the tasks it interleaves with
    do; it sends at most one trigger per agent, and only to agents it saw settled. *)
Theorem run_pass_refines `{DelegationWorld} i now :
  (forall n i, rtc table_step i (dw_interleave n i)) ->
  (forall i, rtc table_step i (dw_interleave_reads i)) ->
  let r := delegations_run_pass i now in
  rtc table_step i r.1 /\
  NoDup ((fun x => x.1.1) <$> pl_delivered r.2) /\
  forall k p, (k, p) ∈ pl_delivered r.2 ->
    exists s, agent_status k.1 = Some s /\ is_active s = false.
Proof.
  intros Hint Hreads. unfold delegations_run_pass. set (log := Build_PassLog [] [] 0).
  destruct (delegations_snapshot i) as [|x l] eqn:Esnap; simpl.
  { split; [apply rtc_refl|]. split; [constructor|]. by intros ?? ?%elem_of_nil. }
  set (es := plan_pass _ _ _ _). set (st := (dw_interleave_reads i, log)).
  destruct (apply_effects_deliver (x :: l) now es st) as (ds & E & Hsub).
  split; [etrans; [apply Hreads|by apply (apply_effects_steps _ _ _ st)]|].
  rewrite E. simpl. split.
  - change (NoDup ((fst ∘ fst) <$> ds)). rewrite list_fmap_compose. eapply sublist_NoDup; [|exact (fmap_sublist fst _ _ Hsub)].
    rewrite <-dequeue_agents_keys. apply plan_from_one_dequeue.
  - intros k p Hin. assert (k ∈ omap dequeue_key es) as Hk.
    { eapply elem_of_sublist; [|exact Hsub]. apply list_elem_of_fmap. by exists (k, p). }
    apply dequeue_key_plan in Hk as (s & Hs & Ha). exists s. split; [|done].
    by apply pass_statuses_agent in Hs.
Qed.

(** A world with one idle agent and one repo, for witnesses. *)
Definition quiet_world : DelegationWorld := {|
  dw_agent a := Ok {| ar_id := a; ar_project_id := "p"; ar_repos := ["app"; "lib"]; ar_archived := false |};
  dw_status_of _ := Some Idle;
  dw_focused_pr_branch _ _ := None;
  dw_reviewing _ := false;
  dw_git_state _ := None;
  dw_pr_live _ := None;
  dw_deliver _ _ _ := Ok ();
  dw_interleave _ i := i;
  dw_interleave_reads i := i;
|}.

Lemma run_pass_refines_witness :
  let i := (delegations_record delegations_default ("a", None) Push "p" true 0).2 in
  let r := @delegations_run_pass quiet_world i 5 in
  pl_delivered r.2 = [(("a", None), "p")] /\ NoDup ((fun x => x.1.1) <$> pl_delivered r.2).
Proof.
  split; [vm_compute; reflexivity|].
  apply (@run_pass_refines quiet_world _ 5); intros; apply rtc_refl.
Defined.

(** The trigger a playbook is sent always names that playbook: after the app's prefix its
    first word is the action, which [from_action] reads back as the kind; and no [repo] or
    [branch] a caller passes can change it. *)
Theorem trigger_names_playbook kind params subdir pr_branch :
  let trigger := delegation_trigger kind params subdir pr_branch in
  (exists rest, strip_prefix APP_ACTION_PREFIX trigger = Some rest /\
     from_action (default rest (fst <$> split_once (Ascii.ascii_of_N 32) rest)) = Some kind) /\
  (forall v, delegation_trigger kind (("repo", v) :: params) subdir pr_branch = trigger) /\
  (forall v, delegation_trigger kind (("branch", v) :: params) subdir pr_branch = trigger).
Proof.
  assert (forall l a, exists tail, fold_left (fun out '(key, value) =>
    if is_empty value then out
    else out +:+ " " +:+ key +:+ "=" +:+ dq +:+ replace dq_byte ("\" +:+ dq) value +:+ dq) l a = a +:+ tail
    /\ (tail = "" \/ exists t, tail = String (Ascii.ascii_of_N 32) t)) as Hfold.
  { induction l as [|[k v] l IH]; intros a; simpl.
    - exists "". rewrite append_empty_r. auto.
    - destruct (is_empty v); [apply IH|].
      edestruct IH as (tail & -> & _). eexists. rewrite <-append_assoc. split; [reflexivity|].
      right. eexists. reflexivity. }
  cbv zeta. split; [|split; reflexivity].
  unfold delegation_trigger, app_action_message.
  edestruct Hfold as (tail & -> & Htail). exists (action kind +:+ tail). split.
  - apply strip_prefix_Some. by rewrite append_assoc.
  - destruct Htail as [->|[t ->]]; [rewrite append_empty_r|]; by destruct kind.
Qed.

(** [checkout_subdir] resolves what the caller asked for: nothing, blanks or the primary
    repo mean the primary checkout; another of the agent's repos means that repo; anything
    else is refused. *)
Theorem checkout_subdir_spec record subdir :
  let requested := default "" (trim <$> subdir) in
  checkout_subdir record subdir =
    if bool_decide (requested = "" \/ head (ar_repos record) = Some requested) then Ok None
    else if bool_decide (requested ∈ ar_repos record) then Ok (Some requested)
    else Err ("unknown repo " +:+ debug_str requested).
Proof.
  unfold checkout_subdir. destruct subdir as [s|]; cbn [fmap option_fmap option_map default];
    [|by rewrite bool_decide_true by auto].
  cbn [opt_filter]. destruct (is_empty (trim s)) eqn:He; cbn [negb].
  { apply is_empty_true in He. by rewrite bool_decide_true by auto. }
  assert (trim s <> "") as Hne. { intros E. by rewrite E in He. }
  assert (forall l, existsb (fun r => String.eqb r (trim s)) l = bool_decide (trim s ∈ l)) as Hex.
  { induction l as [|r l IH]; cbn [existsb].
    { by rewrite bool_decide_false by apply not_elem_of_nil. }
    rewrite IH. destruct (String.eqb_spec r (trim s)) as [->|]; cbn [orb].
    - by rewrite bool_decide_true by left.
    - apply bool_decide_ext. rewrite elem_of_cons. split; [by right|]. intros [Heq|?]; [by rewrite Heq in *|done]. }
  rewrite Hex. destruct (head (ar_repos record)) as [r|]; cbn [is_some_and].
  - destruct (String.eqb_spec r (trim s)) as [->|]; [by rewrite bool_decide_true by auto|].
    rewrite (bool_decide_false (trim s = "" \/ _)); [done|]. by intros [?|[= ?]]; congruence.
  - rewrite (bool_decide_false (trim s = "" \/ _)); [done|]. by intros [?|[=]].
Qed.

Lemma admit_to_cases `{DelegationWorld} i agent_id subdir a params now :
  (exists r, admit_to i agent_id subdir a params now = (r, i) /\ forall ad, r <> Ok (Some ad)) \/
  exists ad i', admit_to i agent_id subdir a params now = (Ok (Some ad), i') /\
    dv_agent_id (ad_shown ad) = agent_id /\ from_action a = Some (dv_kind (ad_shown ad)) /\
    ad_queued ad = eqb (dw_status_of agent_id) (Some Running) /\
    dv_phase (ad_shown ad) = (if ad_queued ad then PhQueued else PhStarted).
Proof.
  unfold admit_to, record_unless_reviewed.
  destruct (from_action a) as [kind|]; [|left; eexists; split; [reflexivity|by intros ad]].
  destruct (dw_agent agent_id) as [record|]; [|left; eexists; split; [reflexivity|by intros ad]].
  destruct (ar_archived record); [by left; eexists|].
  destruct (checkout_subdir record subdir) as [sub|]; [|left; eexists; split; [reflexivity|by intros ad]].
  destruct (dw_reviewing _); [by left; eexists|].
  right. eexists _, _. split; [reflexivity|]. simpl.
  split; [done|]. split; [done|]. split; [done|]. by destruct (eqb _ _).
Qed.

(** Asking for a delegation either leaves the table as it was with an error, or admits one of
    the kind asked for, held exactly when the agent is running; when the message then cannot be
    delivered, the error is returned and the admitted delegation is gone. *)
Theorem delegate_outcome `{DelegationWorld} i agent_id subdir a params now n :
  let '(r, _, i') := delegate i agent_id subdir a params now n in
  match r with
  | Err e => i' = i \/
      exists ad, (admit_to i agent_id subdir a params now).1 = Ok (Some ad) /\
        dw_deliver n (ad_key ad) (ad_prompt ad) = Err e /\
        forall en, get (ad_key ad) (in_table i') = Some en -> e_id en <> ad_id ad
  | Ok v => dv_agent_id v = agent_id /\ from_action a = Some (dv_kind v) /\
      (dv_phase v = PhQueued <-> dw_status_of agent_id = Some Running)
  end.
Proof.
  unfold delegate, run_admitted.
  destruct (admit_to_cases i agent_id subdir a params now)
    as [([[ad|]|e] & E & Hr)|(ad & i' & E & Hag & Hk & Hq & Hp)]; rewrite E; simpl; auto.
  { by destruct (Hr ad). }
  assert (dv_phase (ad_shown ad) = PhQueued <-> dw_status_of agent_id = Some Running) as Hph.
  { rewrite Hp, Hq. rewrite <-(eqb_eq (dw_status_of agent_id)). by destruct (eqb _ _). }
  destruct (ad_queued ad); simpl; [done|].
  destruct (dw_deliver n (ad_key ad) (ad_prompt ad)) as [u|e] eqn:Ed; simpl; [done|].
  destruct (delegations_finish _ _ _ _ _) as [gone i2] eqn:Ef. simpl. right.
  exists ad. split; [done|]. split; [done|].
  destruct (finish_cases (dw_interleave n i') (ad_key ad) (ad_id ad) PhAbandoned
    (Some UNDELIVERED_NOTICE)) as [E2|(en & Hen & Hid & E2)]; rewrite E2 in Ef;
    injection Ef as <- <-; intros en' Hen' Hid'.
  - unfold delegations_finish in E2. rewrite Hen', <-Hid', N.eqb_refl in E2. by injection E2.
  - simpl in Hen'. by rewrite get_remove_eq in Hen'.
Qed.

(** Actions and kinds are in bijection: the action a kind is stored under reads back as that
    kind, and no other string does. *)
Theorem from_action_iff a kind : from_action a = Some kind <-> a = action kind.
Proof.
  split; [|by intros ->; destruct kind].
  unfold from_action. intros [_ Ha]%lfind_Some. symmetry. by apply String.eqb_eq.
Qed.
