(* ===== verification/Readiness.v ===== *)
(** * Readiness: what stands between a checkout and landing, and what fixes it

    Models src/crates/fletch-core/src/autopilot/readiness.rs: [detect_blockers] reads the
    blockers out of the checkout's facts, [next_rung] is the ladder that picks the next
    action. [next_rung_reference] is the ladder's contract: one ordering of the blocker kinds
    and one remedy per blocker. *)

From S2P Require Import Prelude RustStr BTree Git Delegation.

Local Open Scope string_scope.
Local Open Scope list_scope.

Inductive Blocker :=
| Conflicted_ (paths : list string)
| Uncommitted (files : N)
| Unpushed (commits : N)
| Unsubmitted
| Diverged (mainline : string)
| BlockChecksFailing (checks : list string)
| ReviewUnaddressed (count : N)
| ReviewDisputed (count : N)
| BlockReviewRequired
| BlockDraft
| ProposalClosed.

Definition blocker_kind (b : Blocker) : string :=
  match b with
  | Conflicted_ _ => "conflicted"
  | Uncommitted _ => "uncommitted"
  | Unpushed _ => "unpushed"
  | Unsubmitted => "unsubmitted"
  | Diverged _ => "diverged"
  | BlockChecksFailing _ => "checks-failing"
  | ReviewUnaddressed _ => "review-unaddressed"
  | ReviewDisputed _ => "review-disputed"
  | BlockReviewRequired => "review-required"
  | BlockDraft => "draft"
  | ProposalClosed => "proposal-closed"
  end.

Definition has_work_since_merge (git : GitState) : bool :=
  match g_files git with [] => false | _ => true end || (0 <? g_unpushed git)%N.

(** [None] is "not read". *)
Record ReadinessInput := {
  r_git : option GitState;
  r_pr : option PrState;
  r_checks : option PrChecks;
  r_comments : option PrComments;
}.

Inductive Situation :=
  SitReady | SitMergeableSoft | SitChecksFailing | SitReviewRequired | SitBehind | SitConflicts
| SitDraft | SitComputing | SitNoConflicts.

#[export] Instance Situation_eq_dec : EqDecision Situation.
Proof. solve_decision. Defined.

Record MergeGate := { mg_situation : Situation; mg_merge_allowed : bool }.

Definition describe_merge_gate (merge_state : option MergeState) (checks_failed : N)
    (mergeable : MergeableState) : MergeGate :=
  let gate s a := {| mg_situation := s; mg_merge_allowed := a |} in
  match merge_state with
  | Some Clean => gate SitReady true
  | Some Unstable => if (0 <? checks_failed)%N then gate SitChecksFailing true
                     else gate SitMergeableSoft true
  | Some Blocked => if (0 <? checks_failed)%N then gate SitChecksFailing false
                    else gate SitReviewRequired false
  | Some Behind => gate SitBehind false
  | Some Dirty => gate SitConflicts false
  | Some MsDraft => gate SitDraft false
  | Some (UnknownGate | HasHooks) => gate SitComputing false
  | None =>
      match mergeable with
      | MsMergeable => gate SitNoConflicts false
      | MsConflicting => gate SitConflicts false
      | MsUnknown => gate SitComputing false
      end
  end.

(** [Vec::push] under a condition. *)
Definition push_if {A} (c : bool) (x : A) (l : list A) : list A := if c then l ++ [x] else l.

(** The names of the required checks that fail; none when the checks were not read. *)
Definition failing_checks (input : ReadinessInput) : list string :=
  match r_checks input with Some c => ck_required_failing c | None => [] end.

(** The gate of an open proposal, as both functions ask for it. *)
Definition gate_of (input : ReadinessInput) (pr : PrState) : MergeGate :=
  describe_merge_gate (ck_merge_state <$> r_checks input)
    (N.of_nat (length (failing_checks input))) (pr_mergeable pr).

Definition gate_blockers (input : ReadinessInput) (git : GitState) (pr : PrState) : list Blocker :=
  match mg_situation (gate_of input pr) with
  | SitConflicts | SitBehind => [Diverged (g_parent_branch git)]
  | SitChecksFailing => [BlockChecksFailing (failing_checks input)]
  | SitReviewRequired => [BlockReviewRequired]
  | SitDraft => [BlockDraft]
  | _ => []
  end.

(** The review threads that count: with no proposal or an open one. *)
Definition counted_threads (input : ReadinessInput) : list PrComment :=
  if match r_pr input with None => true | Some p => pr_is PrOpen p end
  then match r_comments input with Some c => unresolved c | None => [] end
  else [].

Definition detect_blockers (input : ReadinessInput) : list Blocker :=
  let_some git := r_git input or [] in
  let pr := r_pr input in
  let conflicted := fs_path <$> lfilter is_conflicted (g_files git) in
  let blockers := match conflicted with
                  | _ :: _ => [Conflicted_ conflicted]
                  | [] => match g_files git with
                          | _ :: _ => [Uncommitted (N.of_nat (length (g_files git)))]
                          | [] => []
                          end
                  end in
  let blockers := push_if (0 <? g_unpushed git)%N (Unpushed (g_unpushed git)) blockers in
  let unproposed := match pr with
                    | None => (0 <? g_ahead git)%N
                    | Some p => pr_is PrMerged p && (0 <? g_unpushed git)%N
                    end in
  let blockers := push_if unproposed Unsubmitted blockers in
  let blockers := push_if (is_some_and pr (pr_is PrClosed)) ProposalClosed blockers in
  let blockers := blockers ++ match opt_filter (pr_is PrOpen) pr with
                              | Some p => gate_blockers input git p
                              | None => []
                              end in
  let threads := counted_threads input in
  let ours := N.of_nat (length (lfilter pc_we_replied_last threads)) in
  let theirs := (N.of_nat (length threads) - ours)%N in
  let blockers := push_if (0 <? theirs)%N (ReviewUnaddressed theirs) blockers in
  push_if (0 <? ours)%N (ReviewDisputed ours) blockers.

Inductive WaitWhy := UnknownState | GateComputing.

Inductive Rung :=
| RDelegate (kind : DelegationKind) (a : string) (params : list (string * string)) (blocker : Blocker)
| RMerge
| REscalate (blocker : Blocker)
| RWait (why : WaitWhy)
| RLanded
| RReady.

Inductive CommitMode := CmCommit | CmCommitPush | CmCommitPr.

#[export] Instance CommitMode_eq_dec : EqDecision CommitMode.
Proof. solve_decision. Defined.

Definition commit_mode_kind (m : CommitMode) : DelegationKind :=
  match m with CmCommit => Commit | CmCommitPush => CommitPush | CmCommitPr => CommitPr end.

Record LadderContext := { lc_base : string; lc_commit_mode : CommitMode }.

Definition params (pairs : list (string * string)) : list (string * string) :=
  collect String.le pairs.

Definition delegate_rung (kind : DelegationKind) (pairs : list (string * string)) (b : Blocker) : Rung :=
  RDelegate kind (action kind) (params pairs) b.

(** The payloads [next_rung] reads out of a blocker it found by kind; the other arms are the
    code's [unreachable!] (see [find_kind]). *)
Definition review_count (b : Blocker) : N := match b with ReviewUnaddressed n => n | _ => 0 end.
Definition failing_names (b : Blocker) : list string :=
  match b with BlockChecksFailing c => c | _ => [] end.

Definition find_blocker (blockers : list Blocker) (kind : string) : option Blocker :=
  lfind (fun b => String.eqb (blocker_kind b) kind) blockers.

Definition resolve_comments_rung (b : Blocker) : Rung :=
  delegate_rung ResolveComments [("count", show_N (review_count b))] b.

(** The commit mode in effect: with a proposal open, "open a PR" degrades to "push". *)
Definition effective_mode (input : ReadinessInput) (ctx : LadderContext) : CommitMode :=
  if eqb (lc_commit_mode ctx) CmCommitPr && is_some_and (r_pr input) (pr_is PrOpen)
  then CmCommitPush else lc_commit_mode ctx.

Definition commit_rung (input : ReadinessInput) (ctx : LadderContext) (b : Blocker) : Rung :=
  let mode := effective_mode input ctx in
  delegate_rung (commit_mode_kind mode) (if eqb mode CmCommitPr then [("base", lc_base ctx)] else []) b.

Definition gate_rung (input : ReadinessInput) : Rung :=
  let_some pr := opt_filter (pr_is PrOpen) (r_pr input) or RReady in
  let gate := gate_of input pr in
  if eqb (mg_situation gate) SitComputing then RWait GateComputing
  else if mg_merge_allowed gate then RMerge
  else RReady.

Definition next_rung (input : ReadinessInput) (ctx : LadderContext) : Rung :=
  let_some git := r_git input or RWait UnknownState in
  if is_some_and (r_pr input) (pr_is PrMerged) && negb (has_work_since_merge git) then RLanded
  else
  let find := find_blocker (detect_blockers input) in
  match find "conflicted" with Some b => delegate_rung Resolve [] b | None =>
  match find "uncommitted" with Some b => commit_rung input ctx b | None =>
  match (if negb (is_some_and (r_pr input) (pr_is PrOpen)) then find "review-unaddressed" else None)
  with Some b => resolve_comments_rung b | None =>
  match find "unsubmitted" with Some b => delegate_rung OpenPr [("base", lc_base ctx)] b | None =>
  match find "unpushed" with Some b => delegate_rung Push [] b | None =>
  match find "diverged" with Some b => delegate_rung UpdateBranch [("base", lc_base ctx)] b | None =>
  match find "checks-failing" with
  | Some b => delegate_rung FixChecks [("failing", join ", " (failing_names b))] b | None =>
  match or_else (or_else (find "review-required") (find "draft")) (find "proposal-closed") with
  | Some b => REscalate b | None =>
  match find "review-unaddressed" with Some b => resolve_comments_rung b | None =>
  match find "review-disputed" with Some b => REscalate b | None =>
  gate_rung input
  end end end end end end end end end end.

(** ** The ladder's contract *)

(** The one ordering of the blocker kinds, most blocking first. Findings come before a
    proposal exists, and after the forge's own gates once it does. *)
Definition ladder_order (pr_open : bool) : list string :=
  ["conflicted"; "uncommitted"]
  ++ (if pr_open then [] else ["review-unaddressed"])
  ++ ["unsubmitted"; "unpushed"; "diverged"; "checks-failing"; "review-required"; "draft";
      "proposal-closed"; "review-unaddressed"; "review-disputed"].

(** What fixes one blocker. *)
Definition remedy (input : ReadinessInput) (ctx : LadderContext) (b : Blocker) : Rung :=
  match b with
  | Conflicted_ _ => delegate_rung Resolve [] b
  | Uncommitted _ => commit_rung input ctx b
  | Unsubmitted => delegate_rung OpenPr [("base", lc_base ctx)] b
  | Unpushed _ => delegate_rung Push [] b
  | Diverged _ => delegate_rung UpdateBranch [("base", lc_base ctx)] b
  | BlockChecksFailing checks => delegate_rung FixChecks [("failing", join ", " checks)] b
  | ReviewUnaddressed n => delegate_rung ResolveComments [("count", show_N n)] b
  | BlockReviewRequired | BlockDraft | ProposalClosed | ReviewDisputed _ => REscalate b
  end.

(** The first kind of the order that some blocker has, and that blocker. *)
Fixpoint most_blocking (order : list string) (blockers : list Blocker) : option Blocker :=
  match order with
  | [] => None
  | k :: order => or_else (find_blocker blockers k) (most_blocking order blockers)
  end.

Definition next_rung_reference (input : ReadinessInput) (ctx : LadderContext) : Rung :=
  match r_git input with
  | None => RWait UnknownState
  | Some git =>
      if is_some_and (r_pr input) (pr_is PrMerged) && negb (has_work_since_merge git) then RLanded
      else match most_blocking (ladder_order (is_some_and (r_pr input) (pr_is PrOpen)))
                   (detect_blockers input) with
           | Some b => remedy input ctx b
           | None => gate_rung input
           end
  end.

(** ** Lemmas *)

(** A blocker found by kind has the constructor of that kind. *)
Lemma find_kind blockers k b :
  find_blocker blockers k = Some b -> b ∈ blockers /\ blocker_kind b = k.
Proof. intros [Hin Hk]%lfind_Some. split; [done|]. by apply String.eqb_eq. Qed.

Lemma find_blocker_None blockers k :
  find_blocker blockers k = None <-> forall b, b ∈ blockers -> blocker_kind b <> k.
Proof.
  unfold find_blocker. rewrite lfind_None. setoid_rewrite String.eqb_neq. done.
Qed.

Lemma most_blocking_None order blockers :
  most_blocking order blockers = None <-> forall b, b ∈ blockers -> blocker_kind b ∉ order.
Proof.
  induction order as [|k order IH]; simpl.
  - split; [|done]. intros _ b _. by apply not_elem_of_nil.
  - destruct (find_blocker blockers k) as [b|] eqn:E; simpl.
    + apply find_kind in E as [Hin Hk]. split; [done|]. intros H.
      destruct (H b Hin). rewrite Hk. left.
    + rewrite IH. setoid_rewrite not_elem_of_cons. rewrite find_blocker_None in E.
      split; [intros H b Hb; split; auto|intros H b Hb; by apply H].
Qed.

Lemma blocker_kind_in_ladder b o : blocker_kind b ∈ ladder_order o.
Proof. apply lcontains_true. by destruct b, o. Qed.

(** The ladder considers every blocker there is. *)
Lemma most_blocking_nil o blockers :
  most_blocking (ladder_order o) blockers = None <-> blockers = [].
Proof.
  rewrite most_blocking_None. split; [|intros -> b ?%elem_of_nil; done].
  destruct blockers as [|b l]; [done|]. intros H.
  destruct (H b (list_elem_of_here _ _)). apply blocker_kind_in_ladder.
Qed.

Lemma next_rung_is_reference input ctx : next_rung input ctx = next_rung_reference input ctx.
Proof.
  unfold next_rung, next_rung_reference. destruct (r_git input) as [git|]; [|done].
  destruct (_ && _); [done|]. set (bs := detect_blockers input). unfold ladder_order.
  set (o := is_some_and (r_pr input) (pr_is PrOpen)).
  assert (forall k b, find_blocker bs k = Some b -> blocker_kind b = k) as Hk.
  { intros k b Hb. by apply find_kind in Hb as [_ ?]. }
  destruct o; simpl;
    repeat (match goal with |- context [find_blocker bs ?k] =>
              destruct (find_blocker bs k) as [[]|] eqn:? end; simpl;
            try (match goal with H : find_blocker bs _ = Some _ |- _ => by apply Hk in H end);
            try reflexivity).
Qed.

Lemma push_if_nil {A} c (x : A) l : push_if c x l = [] <-> c = false /\ l = [].
Proof. destruct c; simpl; [|tauto]. split; [by intros [_ ?]%app_nil|by intros []]. Qed.

Lemma lfilter_nil {A} (p : A -> bool) l :
  lfilter p l = [] -> forall x, x ∈ l -> p x = false.
Proof.
  intros E x Hx. destruct (p x) eqn:Hp; [|done].
  assert (x ∈ lfilter p l) as H by (by apply elem_of_lfilter). rewrite E in H. by apply elem_of_nil in H.
Qed.

(** Nothing blocks exactly when every source of blockers is silent. *)
Lemma detect_blockers_nil input git :
  r_git input = Some git ->
  (detect_blockers input = [] <->
   g_files git = [] /\ g_unpushed git = 0%N /\ (r_pr input = None -> g_ahead git = 0%N) /\
   (forall p, r_pr input = Some p -> pr_state p <> PrClosed) /\
   (forall p, r_pr input = Some p -> pr_state p = PrOpen -> gate_blockers input git p = []) /\
   counted_threads input = []).
Proof.
  intros Hg. unfold detect_blockers. rewrite Hg. cbv zeta. rewrite !push_if_nil, app_nil, !push_if_nil.
  rewrite !N.ltb_ge, !N.le_0_r.
  set (ts := counted_threads input).
  assert (forall l : list PrComment, length (lfilter pc_we_replied_last l) <= length l) as Hlen.
  { intros l. apply lfilter_length. }
  specialize (Hlen ts).
  assert (((N.of_nat (length (lfilter pc_we_replied_last ts)) = 0%N /\
    (N.of_nat (length ts) - N.of_nat (length (lfilter pc_we_replied_last ts)))%N = 0%N) <-> ts = [])) as Hts.
  { split; [|by intros ->]. intros [H1 H2]. apply length_zero_iff_nil. lia. }
  assert (match fs_path <$> lfilter is_conflicted (g_files git) with
          | [] => match g_files git with
                  | [] => []
                  | _ :: _ => [Uncommitted (N.of_nat (length (g_files git)))]
                  end
          | _ :: _ => [Conflicted_ (fs_path <$> lfilter is_conflicted (g_files git))]
          end = [] <-> g_files git = []) as Hf.
  { destruct (g_files git) as [|f fs]; [done|]. by destruct (fs_path <$> _). }
  assert (is_some_and (r_pr input) (pr_is PrClosed) = false <->
    forall p, r_pr input = Some p -> pr_state p <> PrClosed) as Hc.
  { destruct (r_pr input) as [p|]; simpl; [|split; done]. unfold pr_is. rewrite eqb_neq.
    split; [by intros ? ? [= <-]|auto]. }
  assert (match opt_filter (pr_is PrOpen) (r_pr input) with
          | Some p => gate_blockers input git p | None => [] end = [] <->
    forall p, r_pr input = Some p -> pr_state p = PrOpen -> gate_blockers input git p = []) as Ho.
  { destruct (r_pr input) as [p|]; simpl; [|split; done]. unfold pr_is.
    destruct (eqb (pr_state p) PrOpen) eqn:E; bool_to_prop.
    - split; [by intros ? ? [= <-]|auto].
    - split; [by intros _ ? [= <-]|done]. }
  rewrite Hf, Hc, Ho.
  assert ((g_unpushed git = 0%N /\ match r_pr input with
    | Some p => pr_is PrMerged p && (0 <? g_unpushed git)%N
    | None => (0 <? g_ahead git)%N end = false) <->
    (g_unpushed git = 0%N /\ (r_pr input = None -> g_ahead git = 0%N))) as Hu.
  { destruct (r_pr input) as [p|].
    - split; intros [Hz _]; (split; [done|]); [done|]. rewrite Hz. apply andb_false_r.
    - rewrite N.ltb_ge, N.le_0_r. tauto. }
  tauto.
Qed.

Definition rank (order : list string) (b : Blocker) : nat :=
  default (length order) (lposition (String.eqb (blocker_kind b)) order).

Lemma most_blocking_Some order blockers b :
  most_blocking order blockers = Some b ->
  b ∈ blockers /\ forall b', b' ∈ blockers -> rank order b <= rank order b'.
Proof.
  unfold rank. induction order as [|k order IH]; simpl; [done|].
  destruct (find_blocker blockers k) as [b0|] eqn:E; simpl.
  - intros [= ->]. apply find_kind in E as [Hin Hk]. split; [done|]. intros b' _.
    rewrite (proj2 (String.eqb_eq _ _) Hk). simpl. lia.
  - intros Hb. destruct (IH Hb) as [Hin Hmin]. split; [done|]. intros b' Hb'.
    rewrite find_blocker_None in E.
    rewrite (proj2 (String.eqb_neq _ _) (E _ Hin)), (proj2 (String.eqb_neq _ _) (E _ Hb')).
    specialize (Hmin b' Hb').
    destruct (lposition _ order), (lposition _ order); simpl in *; lia.
Qed.

(** ** Properties *)

(** The ladder acts on the most blocking thing: unless the state is unread or the work has
    landed, it applies the remedy of a blocker of least rank in the one ordering, and only with
    no blocker left does it ask the merge gate. *)
Theorem next_rung_most_blocking input ctx git :
  r_git input = Some git ->
  is_some_and (r_pr input) (pr_is PrMerged) && negb (has_work_since_merge git) = false ->
  let order := ladder_order (is_some_and (r_pr input) (pr_is PrOpen)) in
  (detect_blockers input = [] /\ next_rung input ctx = gate_rung input) \/
  exists b, b ∈ detect_blockers input /\ next_rung input ctx = remedy input ctx b /\
    forall b', b' ∈ detect_blockers input -> rank order b <= rank order b'.
Proof.
  intros Hg Hl order. rewrite next_rung_is_reference. unfold next_rung_reference.
  rewrite Hg, Hl. fold order. destruct (most_blocking order (detect_blockers input)) as [b|] eqn:E.
  - right. exists b. apply most_blocking_Some in E as [Hin Hmin]. done.
  - left. by apply most_blocking_nil in E.
Qed.

Definition witness_git : GitState :=
  let e := git_empty "main" in {|
  g_branch := "work"; g_parent_branch := g_parent_branch e; g_ahead := 1; g_behind := 0;
  g_unpushed := 0; g_files := []; g_additions := 0; g_deletions := 0; g_remote_url := None;
  g_has_origin := true; g_head_sha := Some "c0ffee"; g_blocked_config := []; g_worktrees := [];
|}.

Definition witness_pr : PrState := {|
  pr_number := 7; pr_url := "u"; pr_state := PrOpen; pr_title := "t"; pr_mergeable := MsMergeable;
  pr_opened_at := None; pr_merged_at := None; pr_branch := Some "work";
|}.

Definition witness_checks (m : MergeState) (failing : list string) : PrChecks := {|
  ck_merge_state := m; ck_rollup := "r"; ck_total := 1; ck_passed := 0; ck_failed := 1;
  ck_pending := 0; ck_required_failing := failing; ck_runs := [];
|}.

Definition witness_input (m : MergeState) (failing : list string) : ReadinessInput := {|
  r_git := Some witness_git; r_pr := Some witness_pr;
  r_checks := Some (witness_checks m failing); r_comments := None;
|}.

Definition witness_ctx : LadderContext := {| lc_base := "main"; lc_commit_mode := CmCommitPr |}.

Lemma next_rung_most_blocking_witness :
  exists b, next_rung (witness_input Blocked ["ci"]) witness_ctx =
            remedy (witness_input Blocked ["ci"]) witness_ctx b.
Proof.
  destruct (next_rung_most_blocking (witness_input Blocked ["ci"]) witness_ctx witness_git)
    as [[Hnil _]|(b & _ & H & _)]; [reflexivity..|discriminate Hnil|exists b; exact H].
Defined.

(** The ladder says merge exactly when the checkout is clean and pushed, the proposal is
    open, no review thread is unresolved, and the forge's gate was read and is open: clean, or
    unstable with no required check failing. An unread gate never merges. *)
Theorem next_rung_merge_iff input ctx :
  next_rung input ctx = RMerge <->
  exists git pr c, r_git input = Some git /\ r_pr input = Some pr /\ r_checks input = Some c /\
    g_files git = [] /\ g_unpushed git = 0%N /\ pr_state pr = PrOpen /\
    (r_comments input = None \/ r_comments input = Some {| unresolved := [] |}) /\
    (ck_merge_state c = Clean \/ ck_merge_state c = Unstable /\ ck_required_failing c = []).
Proof.
  assert (forall b, remedy input ctx b <> RMerge) as Hrem by (by intros []).
  rewrite next_rung_is_reference. unfold next_rung_reference.
  assert (forall pr, r_pr input = Some pr -> pr_state pr = PrOpen -> gate_rung input =
    if eqb (mg_situation (gate_of input pr)) SitComputing then RWait GateComputing
    else if mg_merge_allowed (gate_of input pr) then RMerge else RReady) as Hgate.
  { intros pr Hpr Ho. unfold gate_rung, pr_is. by rewrite Hpr; simpl; rewrite Ho. }
  assert (forall pr, r_pr input = Some pr -> pr_state pr = PrOpen ->
    (counted_threads input = [] <->
     r_comments input = None \/ r_comments input = Some {| unresolved := [] |})) as Hthr.
  { intros pr Hpr Ho. unfold counted_threads, pr_is. rewrite Hpr, Ho. simpl.
    destruct (r_comments input) as [[l]|]; simpl; [|tauto].
    split; [intros ->; auto|]. by intros [|[= ->]]. }
  split.
  - destruct (r_git input) as [git|] eqn:Hg; [|done]. destruct (_ && _); [done|].
    destruct (most_blocking _ _) as [b|] eqn:Hb; [by intros ?%Hrem|].
    apply most_blocking_nil, (detect_blockers_nil _ git Hg) in Hb as (Hf & Hu & _ & _ & Hgb & Ht).
    intros Hm. destruct (r_pr input) as [pr|] eqn:Hpr; [|by unfold gate_rung in Hm; rewrite Hpr in Hm].
    assert (pr_state pr = PrOpen) as Ho.
    { unfold gate_rung, pr_is in Hm. rewrite Hpr in Hm. simpl in Hm.
      destruct (eqb (pr_state pr) PrOpen) eqn:E; [by bool_to_prop|done]. }
    rewrite (Hgate pr) in Hm by done. specialize (Hgb pr eq_refl Ho). apply (Hthr pr) in Ht; [|done..].
    unfold gate_blockers, gate_of, failing_checks in *.
    destruct (r_checks input) as [c|] eqn:Hck; simpl in *.
    + exists git, pr, c. repeat (split; [done|]).
      destruct (ck_merge_state c), (ck_required_failing c); simpl in *; try done; auto.
    + by destruct (pr_mergeable pr).
  - intros (git & pr & c & Hg & Hpr & Hck & Hf & Hu & Ho & Ht & Hms). rewrite Hg, Hpr.
    cbn [is_some_and]. unfold pr_is at 1. rewrite Ho. unfold eqb.
    rewrite (bool_decide_false (PrOpen = PrMerged)) by done. cbn [andb].
    destruct (most_blocking _ _) as [b|] eqn:Hb.
    + exfalso. apply most_blocking_Some in Hb as [Hin _].
      rewrite (proj2 (detect_blockers_nil input git Hg)) in Hin; [by apply elem_of_nil in Hin|].
      repeat (split; [by rewrite ?Hpr|]). split; [by rewrite Hpr; intros ? [= <-]; rewrite Ho|].
      split; [|by apply (Hthr pr)]. intros p Hp _. unfold gate_blockers, gate_of, failing_checks.
      rewrite Hck. simpl. destruct Hms as [->|[-> ->]]; done.
    + rewrite (Hgate pr) by done. unfold gate_of, failing_checks. rewrite Hck. simpl.
      destruct Hms as [->|[-> ->]]; reflexivity.
Qed.
