(* ===== verification/AutopilotStep.v ===== *)
(** * The autopilot policy

    Models src/crates/fletch-core/src/autopilot/step.rs: whether to act on what the ladder
    says, and when to stop. [perform] is the state transition each effect implies, which
    src/crates/fletch-core/src/autopilot/driver.rs applies. An [i64] is a [Z]; the attempt
    counters are [u32] and wrap as such. *)

From S2P Require Import Prelude RustStr BTree Git Delegation Readiness.

Local Open Scope string_scope.
Local Open Scope list_scope.

Definition AUTOPILOT_RUNGS : list DelegationKind := [FixChecks; Resolve; UpdateBranch; ResolveComments].

Definition rung_budget (k : DelegationKind) : N :=
  match k with
  | FixChecks => 3
  | Resolve | UpdateBranch | ResolveComments => 2
  | _ => 0
  end.

Inductive Evidence := EvVerify | EvState.
#[export] Instance Evidence_eq_dec : EqDecision Evidence.
Proof. solve_decision. Defined.

Definition rung_evidence (k : DelegationKind) : Evidence :=
  match k with FixChecks => EvVerify | _ => EvState end.

Definition EVIDENCE_TIMEOUT_MS : Z := 15 * 60 * 1000.

Inductive CyclePhase := Working | AwaitingEvidence.
#[export] Instance CyclePhase_eq_dec : EqDecision CyclePhase.
Proof. solve_decision. Defined.

Record Cycle := {
  cy_rung : DelegationKind;
  cy_attempt : N;
  cy_signature : string;
  cy_phase : CyclePhase;
  cy_phase_since : Z;
}.

Inductive GiveUpReason := GuBudgetSpent | GuNoProgress | GuNoEvidence.

Definition give_up_reason_as_str (r : GiveUpReason) : string :=
  match r with
  | GuBudgetSpent => "budget-spent"
  | GuNoProgress => "no-progress"
  | GuNoEvidence => "no-evidence"
  end.

Record AutopilotState := {
  as_enrolled : bool;
  as_cycle : option Cycle;
  as_attempts : gmap DelegationKind N;
  as_situation : string;
  as_barren : list string;
}.

Definition autopilot_state_default : AutopilotState := {|
  as_enrolled := false; as_cycle := None; as_attempts := ∅; as_situation := ""; as_barren := [];
|}.

Definition autopilot_state_enrolled : AutopilotState := {|
  as_enrolled := true; as_cycle := None; as_attempts := ∅; as_situation := ""; as_barren := [];
|}.

Definition u32_succ (n : N) : N := ((n + 1) mod 2 ^ 32)%N.

(** [attempts.get(&rung).copied().unwrap_or(0)]. *)
Definition attempts_of (st : AutopilotState) (rung : DelegationKind) : N :=
  default 0%N (as_attempts st !! rung).

Definition open_cycle (rung : DelegationKind) (signature situation : string) (now : Z)
    (st : AutopilotState) : AutopilotState :=
  let attempts := if negb (String.eqb (as_situation st) situation) then ∅ else as_attempts st in
  let attempt := u32_succ (default 0%N (attempts !! rung)) in {|
  as_enrolled := as_enrolled st;
  as_cycle := Some {| cy_rung := rung; cy_attempt := attempt; cy_signature := signature;
                      cy_phase := Working; cy_phase_since := now |};
  as_attempts := attempts; as_situation := situation; as_barren := as_barren st;
|}.

Definition advance (phase : CyclePhase) (now : Z) (st : AutopilotState) : AutopilotState := {|
  as_enrolled := as_enrolled st;
  as_cycle := (fun c => {| cy_rung := cy_rung c; cy_attempt := cy_attempt c;
                           cy_signature := cy_signature c; cy_phase := phase;
                           cy_phase_since := now |}) <$> as_cycle st;
  as_attempts := as_attempts st; as_situation := as_situation st; as_barren := as_barren st;
|}.

Definition settle (rung : DelegationKind) (st : AutopilotState) : AutopilotState := {|
  as_enrolled := as_enrolled st; as_cycle := None;
  as_attempts := <[rung := 0%N]> (as_attempts st);
  as_situation := as_situation st; as_barren := as_barren st;
|}.

Definition retry (rung : DelegationKind) (barren : option string) (st : AutopilotState)
    : AutopilotState := {|
  as_enrolled := as_enrolled st; as_cycle := None;
  as_attempts := <[rung := u32_succ (attempts_of st rung)]> (as_attempts st);
  as_situation := as_situation st;
  as_barren := match barren with
               | Some b => push_if (negb (lcontains (as_barren st) b)) b (as_barren st)
               | None => as_barren st
               end;
|}.

(** ** Fingerprints *)

Definition conflicted_paths (git : option GitState) : list string :=
  match git with Some g => fs_path <$> lfilter is_conflicted (g_files g) | None => [] end.

Definition thread_mark (t : PrComment) : string :=
  pc_id t +:+ (if pc_we_replied_last t then "!" else "").

Definition thread_marks (comments : option PrComments) : list string :=
  match comments with Some c => thread_mark <$> unresolved c | None => [] end.

Definition state_signature (input : ReadinessInput) : string :=
  let sha := default "no-head" (r_git input ≫= g_head_sha) in
  let failing := sort_str (failing_checks input) in
  let conflicted := sort_str (conflicted_paths (r_git input)) in
  let threads := sort_str (thread_marks (r_comments input)) in
  sha +:+ "|" +:+ join "," failing +:+ "|" +:+ join "," conflicted +:+ "|" +:+ join "," threads.

Definition fingerprint_part (b : Blocker) : string :=
  match b with
  | BlockChecksFailing checks => blocker_kind b +:+ ":" +:+ join "," (sort_str checks)
  | Conflicted_ paths => blocker_kind b +:+ ":" +:+ join "," (sort_str paths)
  | ReviewUnaddressed count | ReviewDisputed count => blocker_kind b +:+ ":" +:+ show_N count
  | _ => blocker_kind b
  end.

Definition blocker_fingerprint (blockers : list Blocker) : string :=
  join "|" (sort_str (fingerprint_part <$> blockers)).

Definition unstaged_edits (git : option GitState) : N :=
  match git with
  | Some g => N.of_nat (length (lfilter (fun f => negb (fs_staged f) && negb (is_conflicted f)) (g_files g)))
  | None => 0
  end.

(** ** The step *)

Inductive WaitReason :=
  WrNotEnrolled | WrAgentBusy | WrDelegationInFlight | WrNoPr | WrNotMine | WrDirtyTree
| WrNoProgress | WrBudgetSpent | WrGateSettling | WrAwaitingEvidence | WrNothingToDo.

Inductive StepEffect :=
| Dispatch (rung : DelegationKind) (a : string) (params : list (string * string))
    (signature situation : string)
| Verify
| AwaitEvidence
| Settle (rung : DelegationKind)
| Retry (rung : DelegationKind) (barren : option string)
| GiveUp (rung : DelegationKind) (reason : GiveUpReason) (barren : option string)
| Wait (why : WaitReason).

Record AutopilotInput := {
  ai_state : option AutopilotState;
  ai_readiness : ReadinessInput;
  ai_ladder : LadderContext;
  ai_agent_busy : bool;
  ai_delegation_in_flight : bool;
  ai_verification : option VerificationReport;
  ai_now : Z;
}.

(** The barren signature of a cycle judged now: its own, when the world has not moved. *)
Definition barren_now (cycle : Cycle) (input : AutopilotInput) : option string :=
  if String.eqb (state_signature (ai_readiness input)) (cy_signature cycle)
  then Some (cy_signature cycle) else None.

(** The closure [failed] of [judge_cycle]. *)
Definition failed (cycle : Cycle) (state : AutopilotState) (input : AutopilotInput) : StepEffect :=
  let barren := barren_now cycle input in
  if is_some_and barren (lcontains (as_barren state)) then GiveUp (cy_rung cycle) GuNoProgress barren
  else if (rung_budget (cy_rung cycle) <=? cy_attempt cycle)%N
  then GiveUp (cy_rung cycle) GuBudgetSpent barren
  else Retry (cy_rung cycle) barren.

Definition still_blocked (rung : Rung) (cycle : Cycle) : bool :=
  match rung with RDelegate kind _ _ _ => eqb kind (cy_rung cycle) | _ => false end.

Definition judge_cycle (cycle : Cycle) (state : AutopilotState) (input : AutopilotInput) : StepEffect :=
  if eqb (cy_phase cycle) Working then
    if ai_agent_busy input || ai_delegation_in_flight input then Wait WrAwaitingEvidence
    else match rung_evidence (cy_rung cycle) with EvVerify => Verify | EvState => AwaitEvidence end
  else
  let barren := barren_now cycle input in
  if eqb (rung_evidence (cy_rung cycle)) EvVerify
     && is_some_and (ai_verification input) (fun v => negb (passed v))
  then failed cycle state input
  else
  let rung := next_rung (ai_readiness input) (ai_ladder input) in
  match rung with
  | RWait _ =>
      if (EVIDENCE_TIMEOUT_MS <? ai_now input - cy_phase_since cycle)%Z
      then GiveUp (cy_rung cycle) GuNoEvidence barren
      else Wait WrAwaitingEvidence
  | _ =>
      if still_blocked rung cycle || is_some barren then failed cycle state input
      else Settle (cy_rung cycle)
  end.

Definition autopilot_step (input : AutopilotInput) : StepEffect :=
  let_some state := opt_filter as_enrolled (ai_state input) or Wait WrNotEnrolled in
  match as_cycle state with
  | Some cycle => judge_cycle cycle state input
  | None =>
  let readiness := ai_readiness input in
  if match r_pr readiness with None => true | Some p => negb (pr_is PrOpen p) end then Wait WrNoPr
  else if ai_agent_busy input then Wait WrAgentBusy
  else if ai_delegation_in_flight input then Wait WrDelegationInFlight
  else
  match next_rung readiness (ai_ladder input) with
  | RDelegate kind a params _ =>
      if negb (lcontains AUTOPILOT_RUNGS kind) then Wait WrNotMine
      else if eqb kind Resolve && (0 <? unstaged_edits (r_git readiness))%N then Wait WrDirtyTree
      else
      let signature := state_signature readiness in
      if lcontains (as_barren state) signature then Wait WrNoProgress
      else
      let situation := blocker_fingerprint (detect_blockers readiness) in
      let spent := if String.eqb (as_situation state) situation then attempts_of state kind else 0%N in
      if (rung_budget kind <=? spent)%N then Wait WrBudgetSpent
      else Dispatch kind a params signature situation
  | RWait _ => Wait WrGateSettling
  | _ => Wait WrNothingToDo
  end
  end.

(** ** What the caller does to the state *)

Definition perform (now : Z) (e : StepEffect) (st : AutopilotState) : AutopilotState :=
  match e with
  | Dispatch rung _ _ signature situation => open_cycle rung signature situation now st
  | Verify | AwaitEvidence => advance AwaitingEvidence now st
  | Settle rung => settle rung st
  | Retry rung barren | GiveUp rung _ barren => retry rung barren st
  | Wait _ => st
  end.

(** The input a checkout in state [st] is judged on, the world's part given. *)
Definition on_state (st : AutopilotState) (input : AutopilotInput) : AutopilotInput := {|
  ai_state := Some st; ai_readiness := ai_readiness input; ai_ladder := ai_ladder input;
  ai_agent_busy := ai_agent_busy input; ai_delegation_in_flight := ai_delegation_in_flight input;
  ai_verification := ai_verification input; ai_now := ai_now input;
|}.

Definition step_state (st : AutopilotState) (input : AutopilotInput) : AutopilotState :=
  perform (ai_now input) (autopilot_step (on_state st input)) st.

(** One tick of a tracked checkout; the effect may also not be performed (a refused rung, a
    switch flipped mid-pass). *)
Inductive policy_step : AutopilotState -> AutopilotState -> Prop :=
| ps_step st input : policy_step st (step_state st input).

(** A sequence of ticks: the effects, and the state after. *)
Fixpoint run_policy (st : AutopilotState) (inputs : list AutopilotInput)
    : list StepEffect * AutopilotState :=
  match inputs with
  | [] => ([], st)
  | input :: inputs =>
      let e := autopilot_step (on_state st input) in
      let '(es, st') := run_policy (perform (ai_now input) e st) inputs in
      (e :: es, st')
  end.

(** ** Lemmas *)

(** What justifies a dispatch: every guard of the step. *)
Record dispatch_ok (st : AutopilotState) (input : AutopilotInput) (rung : DelegationKind)
    (a : string) (params : list (string * string)) (signature situation : string) : Prop := {
  do_enrolled : as_enrolled st = true;
  do_no_cycle : as_cycle st = None;
  do_pr : exists p, r_pr (ai_readiness input) = Some p /\ pr_state p = PrOpen;
  do_free : ai_agent_busy input = false /\ ai_delegation_in_flight input = false;
  do_mine : rung ∈ AUTOPILOT_RUNGS;
  do_clean : rung = Resolve -> unstaged_edits (r_git (ai_readiness input)) = 0%N;
  do_rung : exists b, next_rung (ai_readiness input) (ai_ladder input) = RDelegate rung a params b;
  do_signature : signature = state_signature (ai_readiness input) /\ signature ∉ as_barren st;
  do_situation : situation = blocker_fingerprint (detect_blockers (ai_readiness input));
  do_budget : ((if String.eqb (as_situation st) situation then attempts_of st rung else 0)
               < rung_budget rung)%N;
}.

Local Ltac waits := left; eexists; reflexivity.

Lemma step_no_cycle st input :
  as_cycle st = None ->
  (exists why, autopilot_step (on_state st input) = Wait why) \/
  exists rung a params signature situation,
    autopilot_step (on_state st input) = Dispatch rung a params signature situation /\
    dispatch_ok st input rung a params signature situation.
Proof.
  intros Hc. unfold autopilot_step.
  cbn [on_state ai_state ai_readiness ai_ladder ai_agent_busy ai_delegation_in_flight opt_filter].
  destruct (as_enrolled st) eqn:He; [|waits]. rewrite Hc. destruct (r_pr (ai_readiness input)) as [p|] eqn:Hpr; [|waits].
  destruct (negb (pr_is PrOpen p)) eqn:Ho; [waits|].
  destruct (ai_agent_busy input) eqn:Hb; [waits|].
  destruct (ai_delegation_in_flight input) eqn:Hf; [waits|].
  destruct (next_rung _ _) as [kind a params b| |?|?| |] eqn:Hr; try waits.
  destruct (negb (lcontains AUTOPILOT_RUNGS kind)) eqn:Hm; [waits|].
  destruct (eqb kind Resolve && (0 <? unstaged_edits (r_git (ai_readiness input)))%N) eqn:Hd; [waits|].
  destruct (lcontains (as_barren st) (state_signature (ai_readiness input))) eqn:Hba; [waits|].
  match goal with |- context [(rung_budget kind <=? ?n)%N] =>
    destruct (rung_budget kind <=? n)%N eqn:Hbu; [waits|] end.
  right. eexists _, _, _, _, _. split; [reflexivity|]. unfold pr_is in Ho. bool_to_prop.
  constructor; eauto.
  - intros ->. rewrite eqb_refl in Hd. simpl in Hd. apply N.ltb_ge in Hd. lia.
  - by apply N.leb_gt in Hbu.
Qed.

(** The verdicts a cycle in flight can get. *)
Inductive verdict (c : Cycle) (st : AutopilotState) (input : AutopilotInput) : StepEffect -> Prop :=
| v_wait : verdict c st input (Wait WrAwaitingEvidence)
| v_advance e : cy_phase c = Working -> ai_agent_busy input = false ->
    ai_delegation_in_flight input = false ->
    e = (match rung_evidence (cy_rung c) with EvVerify => Verify | EvState => AwaitEvidence end) ->
    verdict c st input e
| v_settle : cy_phase c = AwaitingEvidence -> barren_now c input = None ->
    still_blocked (next_rung (ai_readiness input) (ai_ladder input)) c = false ->
    verdict c st input (Settle (cy_rung c))
| v_retry : cy_phase c = AwaitingEvidence -> (cy_attempt c < rung_budget (cy_rung c))%N ->
    (forall s, barren_now c input = Some s -> s ∉ as_barren st) ->
    verdict c st input (Retry (cy_rung c) (barren_now c input))
| v_give_up reason : cy_phase c = AwaitingEvidence ->
    verdict c st input (GiveUp (cy_rung c) reason (barren_now c input)).

Lemma failed_verdict c st input :
  cy_phase c = AwaitingEvidence -> verdict c st input (failed c st input).
Proof.
  intros Hp. unfold failed. destruct (is_some_and _ _) eqn:Hb; [by constructor|].
  destruct (_ <=? _)%N eqn:Hle; [by constructor|]. apply N.leb_gt in Hle. constructor; [done..|].
  intros s Hs. rewrite Hs in Hb. simpl in Hb. by apply lcontains_false in Hb.
Qed.

Lemma judge_verdict c st input : verdict c st input (judge_cycle c st input).
Proof.
  unfold judge_cycle. destruct (eqb (cy_phase c) Working) eqn:Hp.
  { destruct (ai_agent_busy input) eqn:?, (ai_delegation_in_flight input) eqn:?; simpl;
      try apply v_wait. bool_to_prop. by apply v_advance. }
  assert (cy_phase c = AwaitingEvidence) as Hph by (bool_to_prop; by destruct (cy_phase c)).
  destruct (_ && _); [by apply failed_verdict|].
  assert (verdict c st input
    (if still_blocked (next_rung (ai_readiness input) (ai_ladder input)) c || is_some (barren_now c input)
     then failed c st input else Settle (cy_rung c))) as Hsettle.
  { destruct (_ || _) eqn:Hs; [by apply failed_verdict|]. bool_to_prop. by constructor. }
  destruct (next_rung _ _) as [| | |why| |]; try done.
  destruct (_ <? _)%Z; [by constructor|apply v_wait].
Qed.

Lemma step_with_cycle st input c :
  as_enrolled st = true -> as_cycle st = Some c ->
  verdict c st (on_state st input) (autopilot_step (on_state st input)).
Proof. intros He Hc. unfold autopilot_step. simpl. rewrite He. simpl. rewrite Hc. apply judge_verdict. Qed.

Lemma step_not_enrolled st input :
  as_enrolled st = false -> autopilot_step (on_state st input) = Wait WrNotEnrolled.
Proof. intros He. unfold autopilot_step. simpl. by rewrite He. Qed.

(** The states the policy moves through. *)
Record wf_policy (st : AutopilotState) : Prop := {
  wp_budget k : (attempts_of st k <= rung_budget k)%N;
  wp_cycle c : as_cycle st = Some c ->
    cy_rung c ∈ AUTOPILOT_RUNGS /\ cy_attempt c = (attempts_of st (cy_rung c) + 1)%N /\
    (cy_attempt c <= rung_budget (cy_rung c))%N;
  wp_barren : NoDup (as_barren st);
}.

Lemma rung_budget_small k : (rung_budget k <= 3)%N.
Proof. destruct k; simpl; lia. Qed.

Lemma u32_succ_small n k : (n <= rung_budget k)%N -> u32_succ n = (n + 1)%N.
Proof. intros. pose proof (rung_budget_small k). unfold u32_succ. apply N.mod_small. lia. Qed.

Lemma attempts_insert st m k k' n :
  as_attempts st = <[k := n]> m -> attempts_of st k' = if decide (k' = k) then n else default 0%N (m !! k').
Proof.
  unfold attempts_of. intros ->. destruct (decide (k' = k)) as [->|].
  - by rewrite lookup_insert_eq.
  - by rewrite lookup_insert_ne.
Qed.

Lemma push_barren_NoDup l (s : string) :
  NoDup l -> NoDup (push_if (negb (lcontains l s)) s l).
Proof.
  intros Hl. destruct (lcontains l s) eqn:E; simpl; [done|]. apply lcontains_false in E.
  apply NoDup_app. split; [done|]. split; [|apply NoDup_singleton].
  intros x Hx ->%list_elem_of_singleton. done.
Qed.

Lemma wf_open_cycle st input rung a params signature situation now :
  wf_policy st -> dispatch_ok st input rung a params signature situation ->
  wf_policy (open_cycle rung signature situation now st).
Proof.
  intros [Hb Hc Hn] Hok. pose proof (do_budget _ _ _ _ _ _ _ Hok) as Hlt.
  unfold open_cycle. set (m := if negb (String.eqb (as_situation st) situation) then ∅ else as_attempts st).
  assert (forall k, default 0%N (m !! k) <= rung_budget k)%N as Hm.
  { intros k. subst m. destruct (String.eqb _ _); simpl; [apply Hb|]. rewrite lookup_empty. simpl. lia. }
  assert (default 0%N (m !! rung) < rung_budget rung)%N as Hr.
  { subst m. destruct (String.eqb _ _); simpl; [exact Hlt|]. rewrite lookup_empty. exact Hlt. }
  constructor; simpl; [done| |done]. intros c [= <-]. simpl. unfold attempts_of. simpl.
  rewrite (u32_succ_small _ rung) by done. split; [apply Hok|]. split; [done|]. lia.
Qed.

Lemma wf_retry st c barren :
  wf_policy st -> as_cycle st = Some c -> wf_policy (retry (cy_rung c) barren st).
Proof.
  intros [Hb Hc Hn] Hcy. destruct (Hc _ Hcy) as (_ & Ha & Hle).
  constructor; simpl; [|done|].
  - intros k. rewrite (attempts_insert (retry (cy_rung c) barren st) (as_attempts st) (cy_rung c) k
      (u32_succ (attempts_of st (cy_rung c)))) by done.
    destruct (decide (k = cy_rung c)) as [->|]; [|apply Hb].
    rewrite (u32_succ_small _ (cy_rung c)) by apply Hb. lia.
  - destruct barren; [by apply push_barren_NoDup|done].
Qed.

Lemma wf_perform_verdict st input c e :
  wf_policy st -> as_cycle st = Some c -> verdict c st input e -> wf_policy (perform (ai_now input) e st).
Proof.
  intros Hwf Hc Hv. pose proof Hwf as [Hb Hcy Hn]. specialize (Hcy _ Hc).
  assert (wf_policy (advance AwaitingEvidence (ai_now input) st)) as Hadv.
  { constructor; simpl; try done. intros c'. rewrite Hc. simpl. intros [= <-]. simpl. exact Hcy. }
  destruct Hv as [|e _ _ _ ->| | |]; simpl; try done; try by apply wf_retry.
  - by destruct (rung_evidence (cy_rung c)).
  - constructor; simpl; [|done|done]. intros k.
    rewrite (attempts_insert (settle (cy_rung c) st) (as_attempts st) (cy_rung c) k 0%N) by done.
    case_decide; [lia|apply Hb].
Qed.

Lemma wf_step_state st input : wf_policy st -> wf_policy (step_state st input).
Proof.
  intros Hwf. unfold step_state. destruct (as_cycle st) as [c|] eqn:Hc.
  - destruct (as_enrolled st) eqn:He; [|by rewrite step_not_enrolled].
    apply (wf_perform_verdict st (on_state st input) c); [done..|by apply step_with_cycle].
  - destruct (step_no_cycle st input Hc) as [[why ->]|(r & a & p & sg & si & -> & Hok)]; [done|].
    simpl. by eapply wf_open_cycle.
Qed.

Lemma wf_enrolled : wf_policy autopilot_state_enrolled.
Proof.
  constructor; simpl; [|done|constructor]. intros k. unfold attempts_of. simpl.
  rewrite lookup_empty. simpl. lia.
Qed.

Lemma wf_policy_steps st st' : rtc policy_step st st' -> wf_policy st -> wf_policy st'.
Proof. induction 1 as [|? ? ? []]; eauto using wf_step_state. Qed.

(** The proven-barren worlds only accumulate. *)
Lemma barren_step st input s : s ∈ as_barren st -> s ∈ as_barren (step_state st input).
Proof.
  intros Hs. unfold step_state. destruct (autopilot_step _) as [| | | |r [b|]|r g [b|]|]; simpl; try done;
    unfold push_if; destruct (negb _); try done; apply elem_of_app; by left.
Qed.

Lemma barren_steps st st' s : rtc policy_step st st' -> s ∈ as_barren st -> s ∈ as_barren st'.
Proof. induction 1 as [|? ? ? []]; eauto using barren_step. Qed.

(** ** Counting dispatches *)

Definition is_dispatch (e : StepEffect) : bool := match e with Dispatch _ _ _ _ _ => true | _ => false end.
Definition is_settle (e : StepEffect) : bool := match e with Settle _ => true | _ => false end.

(** A dispatch on another situation than [s]. *)
Definition leaves_situation (s : string) (e : StepEffect) : bool :=
  match e with Dispatch _ _ _ _ s' => negb (String.eqb s' s) | _ => false end.

(** The cycles spent, the one in flight included. *)
Definition spent_cycles (st : AutopilotState) : N :=
  (attempts_of st FixChecks + attempts_of st Resolve + attempts_of st UpdateBranch
   + attempts_of st ResolveComments + match as_cycle st with Some _ => 1 | None => 0 end)%N.

Lemma rungs_cases r : r ∈ AUTOPILOT_RUNGS ->
  r = FixChecks \/ r = Resolve \/ r = UpdateBranch \/ r = ResolveComments.
Proof.
  unfold AUTOPILOT_RUNGS. rewrite !elem_of_cons. intros [|[|[|[|?%elem_of_nil]]]]; tauto.
Qed.

Lemma spent_bounded st : wf_policy st -> (spent_cycles st <= 9)%N.
Proof.
  intros [Hb Hc _]. pose proof (Hb FixChecks). pose proof (Hb Resolve).
  pose proof (Hb UpdateBranch). pose proof (Hb ResolveComments). unfold spent_cycles. simpl in *.
  destruct (as_cycle st) as [c|]; [|lia]. destruct (Hc c eq_refl) as (Hr & Ha & Hle).
  apply rungs_cases in Hr as [E|[E|[E|E]]]; rewrite E in *; simpl in *; lia.
Qed.

Lemma spent_retry st c barren :
  wf_policy st -> as_cycle st = Some c -> spent_cycles (retry (cy_rung c) barren st) = spent_cycles st.
Proof.
  intros [Hb Hcy _] Hc. destruct (Hcy _ Hc) as (Hr & _ & _). unfold spent_cycles. rewrite Hc. simpl.
  assert (forall k, attempts_of (retry (cy_rung c) barren st) k =
    if decide (k = cy_rung c) then (attempts_of st (cy_rung c) + 1)%N else attempts_of st k) as Ha.
  { intros k. rewrite (attempts_insert (retry (cy_rung c) barren st) (as_attempts st) (cy_rung c) k
      (u32_succ (attempts_of st (cy_rung c)))) by done. case_decide; [|done].
    by apply (u32_succ_small _ (cy_rung c)). }
  rewrite !Ha. apply rungs_cases in Hr as [E|[E|[E|E]]]; rewrite E; simpl; lia.
Qed.

Lemma spent_step st input s :
  wf_policy st -> as_situation st = s ->
  let e := autopilot_step (on_state st input) in
  is_settle e = false -> leaves_situation s e = false ->
  as_situation (perform (ai_now input) e st) = s /\
  spent_cycles (perform (ai_now input) e st) =
    (spent_cycles st + if is_dispatch e then 1 else 0)%N.
Proof.
  intros Hwf Hs e. subst e. destruct (as_cycle st) as [c|] eqn:Hc.
  - destruct (as_enrolled st) eqn:He; [|rewrite step_not_enrolled by done; simpl; by rewrite N.add_0_r].
    pose proof (step_with_cycle st input c He Hc) as Hv.
    assert (spent_cycles (advance AwaitingEvidence (ai_now input) st) = spent_cycles st) as Hadv.
    { unfold spent_cycles, attempts_of. simpl. by rewrite Hc. }
    destruct Hv as [|e _ _ _ ->| | |]; simpl; rewrite ?N.add_0_r; try done; intros _ _.
    + by destruct (rung_evidence (cy_rung c)); simpl; rewrite N.add_0_r.
    + split; [done|]. by apply spent_retry.
    + split; [done|]. by apply spent_retry.
  - destruct (step_no_cycle st input Hc) as [[why ->]|(r & a & p & sg & si & -> & Hok)]; simpl.
    { by rewrite N.add_0_r. }
    intros _ Hsi. apply negb_false_iff, String.eqb_eq in Hsi as ->. split; [done|].
    unfold spent_cycles, attempts_of, open_cycle. simpl. rewrite Hc, Hs, String.eqb_refl. simpl. lia.
Qed.

Lemma run_policy_spent s inputs st :
  wf_policy st -> as_situation st = s ->
  let es := (run_policy st inputs).1 in
  existsb is_settle es = false -> existsb (leaves_situation s) es = false ->
  (N.of_nat (length (lfilter is_dispatch es)) + spent_cycles st <= 9)%N.
Proof.
  revert st. induction inputs as [|input inputs IH]; simpl; intros st Hwf Hs.
  { intros _ _. by apply spent_bounded. }
  pose proof (wf_step_state st input Hwf) as Hwf'. unfold step_state in Hwf'. simpl in Hwf'.
  pose proof (spent_step st input s Hwf Hs) as Hstep. cbv zeta in Hstep.
  set (e := autopilot_step (on_state st input)) in *.
  specialize (IH (perform (ai_now input) e st) Hwf').
  destruct (run_policy (perform (ai_now input) e st) inputs) as [es st']. simpl in *.
  intros [He1 Hes1]%orb_false_iff [He2 Hes2]%orb_false_iff.
  destruct (Hstep He1 He2) as [Hs' Hsp]. specialize (IH Hs' Hes1 Hes2). rewrite Hsp in IH.
  destruct (is_dispatch e); simpl in *; lia.
Qed.

(** ** Properties *)

(** Autopilot dispatches only when every guard holds: enrolled, no cycle in flight, an open
    PR, a free agent and checkout, a rung it may run that the ladder asks for, a clean tree for a
    merge it would finish, a world not proven barren, and attempts left on this situation. *)
Theorem dispatch_guarded st input rung a params signature situation :
  autopilot_step (on_state st input) = Dispatch rung a params signature situation ->
  dispatch_ok st input rung a params signature situation /\ a = action rung.
Proof.
  intros He. assert (dispatch_ok st input rung a params signature situation) as Hok.
  { destruct (as_cycle st) as [c|] eqn:Hc.
    - exfalso. destruct (as_enrolled st) eqn:Hen; [|by rewrite step_not_enrolled in He].
      pose proof (step_with_cycle st input c Hen Hc) as Hv. rewrite He in Hv.
      inversion Hv as [|? ? ? ? Hx| | |]. by destruct (rung_evidence (cy_rung c)).
    - destruct (step_no_cycle st input Hc) as [[why E]|(?&?&?&?&?& E & Hok)]; rewrite E in He; [done|].
      by simplify_eq. }
  split; [done|]. destruct (do_rung _ _ _ _ _ _ _ Hok) as [b Hr].
  rewrite next_rung_is_reference in Hr. unfold next_rung_reference in Hr.
  destruct (r_git _); [|done]. destruct (_ && _); [done|].
  destruct (most_blocking _ _) as [b'|].
  - destruct b'; cbv [remedy commit_rung delegate_rung] in Hr; cbv zeta in Hr; by simplify_eq.
  - unfold gate_rung in Hr. destruct (opt_filter _ _); [|done].
    destruct (eqb _ _); [done|]. by destruct (mg_merge_allowed _).
Qed.

Definition witness_auto (st : AutopilotState) (m : MergeState) (failing : list string) : AutopilotInput := {|
  ai_state := Some st; ai_readiness := witness_input m failing; ai_ladder := witness_ctx;
  ai_agent_busy := false; ai_delegation_in_flight := false; ai_verification := None; ai_now := 100;
|}.

Lemma dispatch_guarded_witness :
  FixChecks ∈ AUTOPILOT_RUNGS /\ action FixChecks = "fix-checks".
Proof.
  destruct (dispatch_guarded autopilot_state_enrolled
    (witness_auto autopilot_state_enrolled Blocked ["ci"])
    FixChecks "fix-checks" [("failing", "ci")] "c0ffee|ci||" "checks-failing:ci") as [Hok Ha].
  - vm_compute. reflexivity.
  - split; [apply Hok|symmetry; exact Ha].
Defined.

(** Whatever ticks happened since a checkout was enrolled, no rung has spent more than its
    budget, the cycle in flight runs a rung autopilot may run and is within budget, and no
    barren world is recorded twice. *)
Theorem policy_invariant st : rtc policy_step autopilot_state_enrolled st -> wf_policy st.
Proof. intros Hs. eapply wf_policy_steps; [done|apply wf_enrolled]. Qed.

Lemma policy_invariant_witness :
  wf_policy (step_state autopilot_state_enrolled (witness_auto autopilot_state_enrolled Blocked ["ci"])).
Proof. apply policy_invariant, rtc_once, ps_step. Defined.

(** (C38) An unattended loop ends: from any reachable state, ticks that keep facing one situation
    and never see a cycle succeed open at most nine cycles in all, however many they are. *)
Theorem dispatches_bounded st inputs :
  rtc policy_step autopilot_state_enrolled st ->
  let es := (run_policy st inputs).1 in
  existsb is_settle es = false -> existsb (leaves_situation (as_situation st)) es = false ->
  length (lfilter is_dispatch es) <= 9.
Proof.
  intros Hs es H1 H2. assert (wf_policy st) as Hwf by (eapply wf_policy_steps; [done|apply wf_enrolled]).
  pose proof (run_policy_spent _ inputs st Hwf eq_refl H1 H2) as Hle. fold es in Hle. lia.
Qed.

(** A checkout whose check fails for ever, its head moving each tick. *)
Definition witness_stuck (n : nat) : AutopilotInput :=
  let i := witness_auto autopilot_state_enrolled Blocked ["ci"] in {|
  ai_state := None;
  ai_readiness := {|
    r_git := Some {| g_branch := "work"; g_parent_branch := "main"; g_ahead := 1; g_behind := 0;
      g_unpushed := 0; g_files := []; g_additions := 0; g_deletions := 0; g_remote_url := None;
      g_has_origin := true; g_head_sha := Some (show_nat n); g_blocked_config := []; g_worktrees := [] |};
    r_pr := r_pr (ai_readiness i); r_checks := r_checks (ai_readiness i); r_comments := None |};
  ai_ladder := ai_ladder i; ai_agent_busy := false; ai_delegation_in_flight := false;
  ai_verification := None; ai_now := Z.of_nat n;
|}.

Lemma dispatches_bounded_witness :
  let st := step_state autopilot_state_enrolled (witness_stuck 0) in
  length (lfilter is_dispatch (run_policy st (witness_stuck <$> seq 1 20)).1) <= 9 /\
  length (lfilter is_dispatch (run_policy st (witness_stuck <$> seq 1 20)).1) = 2.
Proof.
  split; [|vm_compute; reflexivity].
  apply dispatches_bounded; [apply rtc_once, ps_step|vm_compute; reflexivity..].
Defined.

(** A world proven barren is never entered again: once its signature is recorded, no later
    tick facing that signature dispatches anything. *)
Theorem barren_refused st st' input :
  rtc policy_step st st' -> state_signature (ai_readiness input) ∈ as_barren st ->
  is_dispatch (autopilot_step (on_state st' input)) = false.
Proof.
  intros Hs Hb. apply (barren_steps _ _ _ Hs) in Hb.
  destruct (as_cycle st') as [c|] eqn:Hc.
  - destruct (as_enrolled st') eqn:He; [|by rewrite step_not_enrolled].
    destruct (step_with_cycle st' input c He Hc) as [|e _ _ _ ->| | |]; try done.
    by destruct (rung_evidence (cy_rung c)).
  - destruct (step_no_cycle st' input Hc) as [[why ->]|(r & a & p & sg & si & E & Hok)]; [done|].
    destruct (do_signature _ _ _ _ _ _ _ Hok) as [-> Hn]. done.
Qed.

Lemma barren_refused_witness :
  let i := witness_auto autopilot_state_enrolled Blocked ["ci"] in
  let st := retry FixChecks (Some (state_signature (ai_readiness i))) autopilot_state_enrolled in
  is_dispatch (autopilot_step (on_state st i)) = false.
Proof. apply (barren_refused _ _ _ (rtc_refl _ _)). vm_compute. left. Defined.

(** How a cycle awaiting evidence is judged: it settles only when the world moved and the
    ladder no longer asks for its rung; a failed one is retried only while attempts remain and
    never twice on a world proven barren; and whenever the world has not moved, the failure
    records its signature as barren. *)
Theorem judge_sound c st input :
  cy_phase c = AwaitingEvidence ->
  let moved := state_signature (ai_readiness input) <> cy_signature c in
  match judge_cycle c st input with
  | Settle r => r = cy_rung c /\ moved /\
      still_blocked (next_rung (ai_readiness input) (ai_ladder input)) c = false
  | Retry r barren => r = cy_rung c /\ (cy_attempt c < rung_budget (cy_rung c))%N /\
      ((barren = None /\ moved) \/
       (barren = Some (cy_signature c) /\ ~ moved /\ cy_signature c ∉ as_barren st))
  | GiveUp r _ barren => r = cy_rung c /\
      ((barren = None /\ moved) \/ (barren = Some (cy_signature c) /\ ~ moved))
  | Wait _ => True
  | _ => False
  end.
Proof.
  intros Hp moved.
  assert ((barren_now c input = None /\ moved) \/ (barren_now c input = Some (cy_signature c) /\ ~ moved)) as Hb.
  { unfold barren_now. destruct (String.eqb_spec (state_signature (ai_readiness input)) (cy_signature c)).
    - right. split; [done|]. by intros [].
    - by left. }
  destruct (judge_verdict c st input) as [|e Hw _ _ ->|_ Hbn Hsb|_ Hlt Hf|reason _].
  - done.
  - by rewrite Hw in Hp.
  - split; [done|]. split; [|done]. destruct Hb as [[_ Hm]|[Hs _]]; [done|congruence].
  - split; [done|]. split; [done|]. destruct Hb as [[-> Hm]|[Hs Hm]]; [by left|right].
    rewrite Hs. split; [done|]. split; [done|]. by apply Hf.
  - done.
Qed.

Lemma judge_sound_witness :
  let i := witness_auto autopilot_state_enrolled Blocked ["ci"] in
  let c := {| cy_rung := FixChecks; cy_attempt := 1; cy_signature := "c0ffee|ci||";
              cy_phase := AwaitingEvidence; cy_phase_since := 0 |} in
  judge_cycle c autopilot_state_enrolled i = Retry FixChecks (Some "c0ffee|ci||") /\
  (cy_attempt c < rung_budget (cy_rung c))%N.
Proof.
  split; [vm_compute; reflexivity|].
  pose proof (judge_sound {| cy_rung := FixChecks; cy_attempt := 1; cy_signature := "c0ffee|ci||";
    cy_phase := AwaitingEvidence; cy_phase_since := 0 |} autopilot_state_enrolled
    (witness_auto autopilot_state_enrolled Blocked ["ci"]) eq_refl) as H.
  vm_compute in H |- *. exact (proj1 (proj2 H)).
Defined.

(** The world's fingerprint ignores order: listing the files, the failing checks or the
    review threads in another order gives the same signature. *)
Theorem state_signature_order i1 i2 :
  (r_git i1 ≫= g_head_sha) = (r_git i2 ≫= g_head_sha) ->
  conflicted_paths (r_git i1) ≡ₚ conflicted_paths (r_git i2) ->
  failing_checks i1 ≡ₚ failing_checks i2 ->
  thread_marks (r_comments i1) ≡ₚ thread_marks (r_comments i2) ->
  state_signature i1 = state_signature i2.
Proof.
  intros Hs Hc Hf Ht. unfold state_signature.
  by rewrite Hs, (sort_str_canonical _ _ Hc), (sort_str_canonical _ _ Hf), (sort_str_canonical _ _ Ht).
Qed.

Lemma state_signature_order_witness :
  state_signature (witness_input Blocked ["lint"; "ci"]) = state_signature (witness_input Unstable ["ci"; "lint"]).
Proof. apply state_signature_order; [reflexivity..|apply perm_swap|reflexivity]. Defined.
