(* ===== verification/Sql.v ===== *)
(** * The database connection

    The engine's one SQLite connection, behind its mutex, as a state and error monad. A
    connection is the database and a counter of the effects so far; the class [World] says, for
    each count, whether that statement fails (with what text), what the clock reads and which
    uuid is drawn. A failed statement changes nothing. A transaction that fails, or whose commit
    fails, restores the database it began with. *)

From S2P Require Import Prelude.

Local Open Scope string_scope.

Class World := {
  (** The error of the [n]-th statement, if it fails: I/O, a lock, a constraint, a row that does
      not decode. *)
  w_fault : nat -> option string;
  (** [now_millis()] and [Uuid::new_v4()]. *)
  w_now : nat -> Z;
  w_uuid : nat -> string;
}.

Record Conn (D : Type) := { c_db : D; c_tick : nat }.
Arguments c_db {D} _.
Arguments c_tick {D} _.
Arguments Build_Conn {D} _ _.

Definition M (D A : Type) : Type := Conn D -> result A string * Conn D.

Definition ret {D A} (a : A) : M D A := fun c => (Ok a, c).
Definition err {D A} (e : string) : M D A := fun c => (Err e, c).

Definition bind {D A B} (m : M D A) (k : A -> M D B) : M D B := fun c =>
  match m c with
  | (Ok a, c) => k a c
  | (Err e, c) => (Err e, c)
  end.

Notation "'let*' x ':=' m 'in' k" := (bind m (fun x => k))
  (at level 10, x pattern, m at level 200, k at level 200) : fletch_scope.

(** A pure [Result] under [?]. *)
Definition lift {D A} (r : result A string) : M D A := fun c => (r, c).

(** The [Result] of a step as a value, for code that matches on it. *)
Definition attempt {D A} (m : M D A) : M D (result A string) := fun c =>
  let '(r, c) := m c in (Ok r, c).

(** [.ok()]: an error is no value. *)
Definition attempt_ok {D A} (m : M D A) : M D (option A) := fun c =>
  let '(r, c) := m c in (Ok (match r with Ok a => Some a | Err _ => None end), c).

(** [ok_or]: absence is an error. *)
Definition require_some {D A} (e : string) (o : option A) : M D A := fun c =>
  (match o with Some a => Ok a | None => Err e end, c).

Definition tick {D} (c : Conn D) : Conn D := {| c_db := c_db c; c_tick := S (c_tick c) |}.

Section Statements.
Context `{World} {D : Type}.

(** One statement: it may fail before it does anything, or refuse (a constraint). *)
Definition sql {A} (f : D -> result (A * D) string) : M D A := fun c =>
  match w_fault (c_tick c) with
  | Some e => (Err e, tick c)
  | None =>
      match f (c_db c) with
      | Ok (a, d) => (Ok a, {| c_db := d; c_tick := S (c_tick c) |})
      | Err e => (Err e, tick c)
      end
  end.

Definition query {A} (f : D -> A) : M D A := sql (fun d => Ok (f d, d)).
Definition execute (f : D -> D) : M D () := sql (fun d => Ok ((), f d)).

Definition now_millis : M D Z := fun c => (Ok (w_now (c_tick c)), tick c).
Definition new_uuid : M D string := fun c => (Ok (w_uuid (c_tick c)), tick c).

(** [unchecked_transaction] ... [commit]: begin and commit are statements too. *)
Definition transaction {A} (m : M D A) : M D A := fun c =>
  match w_fault (c_tick c) with
  | Some e => (Err e, tick c)
  | None =>
      let rolled_back c' := {| c_db := c_db c; c_tick := S (c_tick c') |} in
      match m (tick c) with
      | (Err e, c') => (Err e, rolled_back c')
      | (Ok a, c') =>
          match w_fault (c_tick c') with
          | Some e => (Err e, rolled_back c')
          | None => (Ok a, tick c')
          end
      end
  end.
End Statements.

(** A loop over a list, collecting results ([for ... { out.push(f(x)?) }]). *)
Fixpoint for_each {D A B} (f : A -> M D B) (l : list A) : M D (list B) :=
  match l with
  | [] => ret []
  | x :: l => let* y := f x in let* ys := for_each f l in ret (y :: ys)
  end.

(** A world where nothing fails, for witnesses: the clock and the uuids count. *)
Definition calm_world (uuid : nat -> string) : World := {|
  w_fault _ := None; w_now n := Z.of_nat n; w_uuid := uuid;
|}.

(** ** Reasoning *)

(** [m] keeps [P] of the database, whatever it returns. *)
Definition preserves {D A} (P : D -> Prop) (m : M D A) : Prop :=
  forall c, P (c_db c) -> P (c_db (m c).2).

(** [m] keeps [P], and its successes satisfy [Q] of the database after. *)
Definition keeps {D A} (P : D -> Prop) (m : M D A) (Q : A -> D -> Prop) : Prop :=
  forall c, P (c_db c) ->
    P (c_db (m c).2) /\ forall a, (m c).1 = Ok a -> Q a (c_db (m c).2).

(** [m] leaves the database as it is. *)
Definition reads {D A} (m : M D A) : Prop := forall c, c_db (m c).2 = c_db c.

Section Logic.
Context `{World} {D : Type} (P : D -> Prop).

Lemma preserves_ret {A} (a : A) : preserves P (ret a).
Proof. by intros c. Qed.

Lemma preserves_err {A} e : preserves P (err e : M D A).
Proof. by intros c. Qed.

Lemma preserves_bind {A B} (m : M D A) (k : A -> M D B) :
  preserves P m -> (forall a, preserves P (k a)) -> preserves P (bind m k).
Proof.
  intros Hm Hk c Hc. unfold bind. specialize (Hm c Hc). destruct (m c) as [[a|e] c']; [|done].
  by apply Hk.
Qed.

Lemma preserves_reads {A} (m : M D A) : reads m -> preserves P m.
Proof. intros Hm c. by rewrite Hm. Qed.

Lemma preserves_attempt {A} (m : M D A) : preserves P m -> preserves P (attempt m).
Proof. intros Hm c Hc. unfold attempt. specialize (Hm c Hc). by destruct (m c). Qed.

Lemma preserves_attempt_ok {A} (m : M D A) : preserves P m -> preserves P (attempt_ok m).
Proof. intros Hm c Hc. unfold attempt_ok. specialize (Hm c Hc). by destruct (m c). Qed.

Lemma preserves_sql {A} (f : D -> result (A * D) string) :
  (forall d a d', P d -> f d = Ok (a, d') -> P d') -> preserves P (sql f).
Proof.
  intros Hf c Hc. unfold sql. destruct (w_fault _); [done|].
  destruct (f (c_db c)) as [[a d']|] eqn:E; [|done]. by eapply Hf.
Qed.

Lemma preserves_execute (f : D -> D) : (forall d, P d -> P (f d)) -> preserves P (execute f).
Proof. intros Hf. apply preserves_sql. intros d a d' Hd [= <- <-]. auto. Qed.

Lemma preserves_transaction {A} (m : M D A) : preserves P m -> preserves P (transaction m).
Proof.
  intros Hm c Hc. unfold transaction. destruct (w_fault _); [done|].
  specialize (Hm (tick c) Hc). destruct (m (tick c)) as [[a|e] c']; [|done].
  by destruct (w_fault _).
Qed.

Lemma preserves_for_each {A B} (f : A -> M D B) l :
  (forall x, preserves P (f x)) -> preserves P (for_each f l).
Proof.
  intros Hf. induction l as [|x l IH]; [apply preserves_ret|]. simpl.
  apply preserves_bind; [done|]. intros y. apply preserves_bind; [done|]. intros ys. apply preserves_ret.
Qed.
End Logic.

Section Reads.
Context `{World} {D : Type}.

Lemma reads_ret {A} (a : A) : reads (ret a : M D A).
Proof. by intros c. Qed.

Lemma reads_err {A} e : reads (err e : M D A).
Proof. by intros c. Qed.

Lemma reads_lift {A} r : reads (lift r : M D A).
Proof. by intros c. Qed.

Lemma reads_require_some {A} e o : reads (require_some e o : M D A).
Proof. by intros c. Qed.

Lemma reads_query {A} (f : D -> A) : reads (query f).
Proof. intros c. unfold query, sql. by destruct (w_fault _). Qed.

Lemma reads_now : reads (now_millis : M D Z).
Proof. by intros c. Qed.

Lemma reads_uuid : reads (new_uuid : M D string).
Proof. by intros c. Qed.

Lemma reads_bind {A B} (m : M D A) (k : A -> M D B) :
  reads m -> (forall a, reads (k a)) -> reads (bind m k).
Proof.
  intros Hm Hk c. unfold bind. specialize (Hm c). destruct (m c) as [[a|e] c']; [|done].
  by rewrite Hk.
Qed.

Lemma reads_attempt {A} (m : M D A) : reads m -> reads (attempt m).
Proof. intros Hm c. unfold attempt. specialize (Hm c). by destruct (m c). Qed.

Lemma reads_attempt_ok {A} (m : M D A) : reads m -> reads (attempt_ok m).
Proof. intros Hm c. unfold attempt_ok. specialize (Hm c). by destruct (m c). Qed.

(** A transaction that fails changed nothing. *)
Lemma transaction_err {A} (m : M D A) c e :
  (transaction m c).1 = Err e -> c_db (transaction m c).2 = c_db c.
Proof.
  unfold transaction. destruct (w_fault _); [done|].
  destruct (m (tick c)) as [[a|e'] c']; [|done]. by destruct (w_fault _).
Qed.

(** Inverting a success. *)
Lemma bind_Ok {A B} (m : M D A) (k : A -> M D B) c b c2 :
  bind m k c = (Ok b, c2) <-> exists a c1, m c = (Ok a, c1) /\ k a c1 = (Ok b, c2).
Proof.
  unfold bind. destruct (m c) as [[a|e] c1].
  - split; [intros Hk; exists a, c1; split; [reflexivity|exact Hk]|].
    intros (a' & c' & Hm & Hk). injection Hm as <- <-. exact Hk.
  - split; [done|]. intros (a' & c' & Hm & _). discriminate Hm.
Qed.

Lemma sql_Ok {A} (f : D -> result (A * D) string) c a c' :
  sql f c = (Ok a, c') <->
  w_fault (c_tick c) = None /\ exists d, f (c_db c) = Ok (a, d) /\
    c' = {| c_db := d; c_tick := S (c_tick c) |}.
Proof.
  unfold sql. destruct (w_fault _); [split; [done|by intros []]|].
  destruct (f (c_db c)) as [[a' d]|].
  - split; [intros [= <- <-]; eauto|]. by intros (_ & d' & [= -> ->] & ->).
  - split; [done|]. by intros (_ & ? & ? & _).
Qed.

Lemma query_Ok {A} (f : D -> A) c a c' :
  query f c = (Ok a, c') <-> w_fault (c_tick c) = None /\ a = f (c_db c) /\ c' = tick c.
Proof.
  unfold query. rewrite sql_Ok. split.
  - intros (Hf & d & [= <- <-] & ->). done.
  - intros (Hf & -> & ->). split; [done|]. by exists (c_db c).
Qed.

Lemma execute_Ok (f : D -> D) c u c' :
  execute f c = (Ok u, c') <->
  w_fault (c_tick c) = None /\ c' = {| c_db := f (c_db c); c_tick := S (c_tick c) |}.
Proof.
  unfold execute. rewrite sql_Ok. split.
  - intros (Hf & d & [= <- <-] & ->). done.
  - intros (Hf & ->). split; [done|]. exists (f (c_db c)). by destruct u.
Qed.

Lemma transaction_Ok {A} (m : M D A) c a c' :
  transaction m c = (Ok a, c') -> exists c1, m (tick c) = (Ok a, c1) /\ c_db c' = c_db c1.
Proof.
  unfold transaction. destruct (w_fault _); [done|].
  destruct (m (tick c)) as [[a'|e] c1]; [|done]. destruct (w_fault _); [done|].
  intros [= <- <-]. by exists c1.
Qed.
End Reads.

(** ** Programs that cannot fail *)

Definition total {D A} (m : M D A) : Prop := forall c, exists a c', m c = (Ok a, c').

Section Total.
Context `{World} {D : Type}.

Lemma total_ret {A} (a : A) : total (ret a : M D A).
Proof. intros c. by exists a, c. Qed.

Lemma total_bind {A B} (m : M D A) (k : A -> M D B) : total m -> (forall a, total (k a)) -> total (bind m k).
Proof. intros Hm Hk c. destruct (Hm c) as (a & c1 & E). unfold bind. rewrite E. apply Hk. Qed.

Lemma total_attempt {A} (m : M D A) : total (attempt m).
Proof. intros c. unfold attempt. destruct (m c) as [r c']. by exists r, c'. Qed.

Lemma total_attempt_ok {A} (m : M D A) : total (attempt_ok m).
Proof. intros c. unfold attempt_ok. destruct (m c) as [r c']. by do 2 eexists. Qed.

Lemma total_now : total (now_millis : M D Z).
Proof. intros c. by do 2 eexists. Qed.

Lemma total_uuid : total (new_uuid : M D string).
Proof. intros c. by do 2 eexists. Qed.
End Total.

#[export] Hint Resolve total_ret total_attempt total_attempt_ok total_now total_uuid : fletch.

Ltac never_failing :=
  repeat first
    [ solve [auto with fletch]
    | progress intros
    | apply total_bind
    | match goal with |- total (match ?x with _ => _ end) => destruct x end
    | match goal with |- total (let '(_, _) := ?x in _) => destruct x end ].

(** ** Hoare triples

    [triple P m Q E]: from [P], a success of [m] with [a] leaves [Q a] and a failure leaves [E],
    whatever the world does. *)
Definition triple {D A} (P : D -> Prop) (m : M D A) (Q : A -> D -> Prop) (E : D -> Prop) : Prop :=
  forall c, P (c_db c) ->
    match m c with (Ok a, c') => Q a (c_db c') | (Err _, c') => E (c_db c') end.

Section Triples.
Context `{World} {D : Type}.
Implicit Types P E : D -> Prop.

Lemma triple_ret {A} P (a : A) (Q : A -> D -> Prop) E : (forall d, P d -> Q a d) -> triple P (ret a) Q E.
Proof. intros Hq c Hc. by apply Hq. Qed.

Lemma triple_err {A} P e (Q : A -> D -> Prop) E : (forall d, P d -> E d) -> triple P (err e) Q E.
Proof. intros He c Hc. by apply He. Qed.

Lemma triple_bind {A B} P (m : M D A) (k : A -> M D B) R Q E :
  triple P m R E -> (forall a, triple (R a) (k a) Q E) -> triple P (bind m k) Q E.
Proof.
  intros Hm Hk c Hc. unfold bind. specialize (Hm c Hc). destruct (m c) as [[a|e] c']; [|done].
  by apply Hk.
Qed.

Lemma triple_weaken {A} P P' (m : M D A) Q Q' E E' :
  triple P' m Q' E' -> (forall d, P d -> P' d) -> (forall a d, Q' a d -> Q a d) -> (forall d, E' d -> E d) ->
  triple P m Q E.
Proof.
  intros Hm HP HQ HE c Hc. specialize (Hm c (HP _ Hc)). destruct (m c) as [[a|e] c']; auto.
Qed.

(** The failure branch of a program that cannot fail is free. *)
Lemma triple_total {A} P (m : M D A) Q E E' : total m -> triple P m Q E -> triple P m Q E'.
Proof.
  intros Ht Hm c Hc. specialize (Hm c Hc). destruct (Ht c) as (a & c' & Ec). by rewrite Ec in Hm |- *.
Qed.

Lemma triple_lift {A} P (r : result A string) Q E :
  (forall a d, r = Ok a -> P d -> Q a d) -> (forall e d, r = Err e -> P d -> E d) -> triple P (lift r) Q E.
Proof. intros HQ HE c Hc. unfold lift. destruct r; eauto. Qed.

Lemma triple_attempt {A} P (m : M D A) Q E E' :
  triple P m Q E -> triple P (attempt m) (fun r d => match r with Ok a => Q a d | Err _ => E d end) E'.
Proof.
  intros Hm c Hc. unfold attempt. specialize (Hm c Hc). by destruct (m c) as [[a|e] c'].
Qed.

Lemma triple_attempt_ok {A} P (m : M D A) Q E E' :
  triple P m Q E -> triple P (attempt_ok m) (fun r d => match r with Some a => Q a d | None => E d end) E'.
Proof.
  intros Hm c Hc. unfold attempt_ok. specialize (Hm c Hc). by destruct (m c) as [[a|e] c'].
Qed.

(** A program that only reads keeps what held. *)
Lemma triple_reads {A} P (m : M D A) : reads m -> triple P m (fun _ => P) P.
Proof. intros Hm c Hc. specialize (Hm c). destruct (m c) as [[a|e] c']; cbn [snd] in Hm; by rewrite Hm. Qed.

Lemma triple_preserves {A} P (m : M D A) : preserves P m -> triple P m (fun _ => P) P.
Proof. intros Hm c Hc. specialize (Hm c Hc). by destruct (m c) as [[a|e] c']. Qed.

Lemma triple_preserved {A} P (m : M D A) : triple P m (fun _ => P) P -> preserves P m.
Proof. intros Hm c Hc. specialize (Hm c Hc). by destruct (m c) as [[a|e] c']. Qed.

(** A transaction that fails leaves what stood before it. *)
Lemma triple_transaction {A} P (m : M D A) (Q : A -> D -> Prop) E : triple P m Q E -> triple P (transaction m) Q P.
Proof.
  intros T c Hc. unfold transaction. destruct (w_fault (c_tick c)); [done|]. specialize (T (tick c) Hc).
  destruct (m (tick c)) as [[a|e] c']; [|done]. by destruct (w_fault (c_tick c')).
Qed.

Lemma triple_exists {A X} (P : X -> D -> Prop) (m : M D A) Q E :
  (forall x, triple (P x) m Q E) -> triple (fun d => exists x, P x d) m Q E.
Proof. intros Hm c (x & Hx). by apply (Hm x). Qed.

(** The clock and the uuids never fail. *)
Lemma triple_now P E : triple P now_millis (fun _ => P) E.
Proof. by intros c. Qed.

Lemma triple_uuid P E : triple P new_uuid (fun _ => P) E.
Proof. by intros c. Qed.

(** A pure fact of the precondition. *)
Lemma triple_pure {A} (F : Prop) P (m : M D A) Q E :
  (F -> triple P m Q E) -> triple (fun d => P d /\ F) m Q E.
Proof. intros Hm c [Hc HF]. by apply (Hm HF). Qed.

(** Statements of a world where none fails. *)
Hypothesis calm : forall n, w_fault n = None.

Lemma triple_sql {A} P (f : D -> result (A * D) string) (Q : A -> D -> Prop) E :
  (forall d a d', P d -> f d = Ok (a, d') -> Q a d') -> (forall d e, P d -> f d = Err e -> E d) ->
  triple P (sql f) Q E.
Proof.
  intros HQ HE c Hc. unfold sql. rewrite calm. destruct (f (c_db c)) as [[a d]|e] eqn:Ef; eauto.
Qed.

Lemma triple_query {A} P (f : D -> A) (Q : A -> D -> Prop) E :
  (forall d, P d -> Q (f d) d) -> triple P (query f) Q E.
Proof. intros HQ. apply triple_sql; [|done]. intros d a d' Hd [= <- <-]. auto. Qed.

Lemma triple_execute P (f : D -> D) (Q : () -> D -> Prop) E :
  (forall d, P d -> Q () (f d)) -> triple P (execute f) Q E.
Proof. intros HQ. apply triple_sql; [|done]. intros d a d' Hd [= <- <-]. auto. Qed.
End Triples.

#[export] Hint Resolve preserves_ret preserves_err preserves_reads preserves_attempt
  preserves_attempt_ok preserves_transaction preserves_for_each : fletch.
#[export] Hint Resolve reads_ret reads_err reads_lift reads_require_some reads_query reads_now
  reads_uuid reads_attempt reads_attempt_ok : fletch.

(** Walk a monadic program, keeping a property of the database. *)
Ltac preserving :=
  repeat first
    [ solve [auto with fletch]
    | progress intros
    | apply preserves_bind
    | apply preserves_transaction
    | apply preserves_attempt
    | apply preserves_attempt_ok
    | apply preserves_for_each
    | match goal with |- preserves _ (match ?x with _ => _ end) => destruct x end
    | match goal with |- preserves _ (let '(_, _) := ?x in _) => destruct x end ].

(** The same for programs that only read. *)
Ltac reading :=
  repeat first
    [ solve [auto with fletch]
    | progress intros
    | apply reads_bind
    | match goal with |- reads (match ?x with _ => _ end) => destruct x end ].

(** Invert a successful monadic run into its steps. *)
Ltac invert_ok :=
  repeat match goal with
  | H : bind _ _ _ = (Ok _, _) |- _ => apply bind_Ok in H as (? & ? & ? & H)
  | H : ret _ _ = (Ok _, _) |- _ => injection H as <- <-
  | H : err _ _ = (Ok _, _) |- _ => discriminate H
  | H : query _ _ = (Ok _, _) |- _ => apply query_Ok in H as (? & -> & ->)
  | H : execute _ _ = (Ok _, _) |- _ => apply execute_Ok in H as (? & ->)
  | H : now_millis _ = (Ok _, _) |- _ => injection H as <- <-
  | H : new_uuid _ = (Ok _, _) |- _ => injection H as <- <-
  end.
