(* ===== verification/Board.v ===== *)
(** * The roadmap's rows

    The data of src/crates/fletch-core/src/roadmap/types.rs, events.rs, proposals.rs,
    order_proposals.rs and the project hold of brakes.rs. Enums are stored by their database
    spelling ([as_str]); the JSON columns hold the decoded values. [rank] is an [f64]. *)

From Stdlib Require Import SpecFloat.
From S2P Require Import Prelude RustStr.

Local Open Scope string_scope.
Local Open Scope list_scope.

Inductive Horizon := HNow | HNext | HLater.
#[export] Instance Horizon_eq_dec : EqDecision Horizon.
Proof. solve_decision. Defined.

Inductive ItemStatus :=
  Captured | Proposed | Open | Queued | Active | InReview | Done | Rejected.
#[export] Instance ItemStatus_eq_dec : EqDecision ItemStatus.
Proof. solve_decision. Defined.

Definition item_status_as_str (s : ItemStatus) : string :=
  match s with
  | Captured => "captured" | Proposed => "proposed" | Open => "open" | Queued => "queued"
  | Active => "active" | InReview => "in_review" | Done => "done" | Rejected => "rejected"
  end.

(** [matches!(self, Proposed | Open | Queued)]. *)
Definition is_rulable (s : ItemStatus) : bool :=
  match s with Proposed | Open | Queued => true | _ => false end.

Inductive ItemSource := SrcUser | SrcPm | SrcLinear | SrcGithub.
#[export] Instance ItemSource_eq_dec : EqDecision ItemSource.
Proof. solve_decision. Defined.

Inductive CaptureKind := CapAsk | CapIdea | CapBrainstorm.

Record Triage := { tr_brief : option string; tr_questions : list string; tr_mined : bool }.

Inductive EventActor := ActUser | ActPm | ActDrainer | ActSweep.
#[export] Instance EventActor_eq_dec : EqDecision EventActor.
Proof. solve_decision. Defined.

Inductive EventKind :=
  EvCreated | EvProposed | EvAccepted | EvEdited | EvQueued | EvUnqueued | EvDispatched
| EvPrOpened | EvRunFailed | EvRunCanceled | EvRunDeleted | EvShipped | EvPrClosed | EvBlocked
| EvHeld | EvReleased | EvRejected | EvReopened | EvNote.
#[export] Instance EventKind_eq_dec : EqDecision EventKind.
Proof. solve_decision. Defined.

Record ItemEvent := {
  ev_id : string;
  ev_item_id : string;
  ev_project_id : string;
  ev_actor : EventActor;
  ev_kind : EventKind;
  ev_detail : option string;
  ev_created_at : Z;
}.

Record RoadmapItem := {
  it_id : string;
  it_project_id : string;
  it_code : string;
  it_title : string;
  it_why : string;
  it_horizon : Horizon;
  it_status : ItemStatus;
  it_rank : spec_float;
  it_area : option string;
  it_source : ItemSource;
  it_accept : list string;
  it_deps : list string;
  it_agent_id : option string;
  it_workflow_def_id : option string;
  it_run_id : option string;
  it_pr_url : option string;
  it_pr_number : option Z;
  it_hold_reason : option string;
  it_held_by : option EventActor;
  it_held_at : option Z;
  it_close_reason : option string;
  it_issue_url : option string;
  it_kind : option CaptureKind;
  it_triage : option Triage;
  it_from_item : option string;
  it_created_at : Z;
  it_updated_at : Z;
}.

Definition is_held (i : RoadmapItem) : bool := is_some (it_hold_reason i).

Record NewItem := {
  new_title : string;
  new_why : string;
  new_horizon : option Horizon;
  new_status : option ItemStatus;
  new_area : option string;
  new_source : option ItemSource;
  new_accept : list string;
  new_deps : list string;
  new_workflow_def_id : option string;
  new_issue_url : option string;
  new_from_item : option string;
}.

Definition new_item_default : NewItem := {|
  new_title := ""; new_why := ""; new_horizon := None; new_status := None; new_area := None;
  new_source := None; new_accept := []; new_deps := []; new_workflow_def_id := None;
  new_issue_url := None; new_from_item := None;
|}.

(** A nullable column's edit is an [option (option _)]: untouched, cleared or set. *)
Record ItemPatch := {
  pt_title : option string;
  pt_why : option string;
  pt_horizon : option Horizon;
  pt_status : option ItemStatus;
  pt_source : option ItemSource;
  pt_rank : option spec_float;
  pt_accept : option (list string);
  pt_deps : option (list string);
  pt_area : option (option string);
  pt_agent_id : option (option string);
  pt_workflow_def_id : option (option string);
  pt_run_id : option (option string);
  pt_pr_url : option (option string);
  pt_pr_number : option (option Z);
}.

Definition item_patch_default : ItemPatch := {|
  pt_title := None; pt_why := None; pt_horizon := None; pt_status := None; pt_source := None;
  pt_rank := None; pt_accept := None; pt_deps := None; pt_area := None; pt_agent_id := None;
  pt_workflow_def_id := None; pt_run_id := None; pt_pr_url := None; pt_pr_number := None;
|}.

(** [ItemPatch { status, run_id, pr_url, pr_number, .. }], the lifecycle fields. *)
Definition status_patch (s : ItemStatus) : ItemPatch := {|
  pt_title := None; pt_why := None; pt_horizon := None; pt_status := Some s; pt_source := None;
  pt_rank := None; pt_accept := None; pt_deps := None; pt_area := None; pt_agent_id := None;
  pt_workflow_def_id := None; pt_run_id := None; pt_pr_url := None; pt_pr_number := None;
|}.

Definition with_status (s : option ItemStatus) (p : ItemPatch) : ItemPatch := {|
  pt_title := pt_title p; pt_why := pt_why p; pt_horizon := pt_horizon p; pt_status := s;
  pt_source := pt_source p; pt_rank := pt_rank p; pt_accept := pt_accept p; pt_deps := pt_deps p;
  pt_area := pt_area p; pt_agent_id := pt_agent_id p; pt_workflow_def_id := pt_workflow_def_id p;
  pt_run_id := pt_run_id p; pt_pr_url := pt_pr_url p; pt_pr_number := pt_pr_number p;
|}.

Definition with_run_id (r : option (option string)) (p : ItemPatch) : ItemPatch := {|
  pt_title := pt_title p; pt_why := pt_why p; pt_horizon := pt_horizon p; pt_status := pt_status p;
  pt_source := pt_source p; pt_rank := pt_rank p; pt_accept := pt_accept p; pt_deps := pt_deps p;
  pt_area := pt_area p; pt_agent_id := pt_agent_id p; pt_workflow_def_id := pt_workflow_def_id p;
  pt_run_id := r; pt_pr_url := pt_pr_url p; pt_pr_number := pt_pr_number p;
|}.

Definition with_pr (url : option (option string)) (number : option (option Z)) (p : ItemPatch)
    : ItemPatch := {|
  pt_title := pt_title p; pt_why := pt_why p; pt_horizon := pt_horizon p; pt_status := pt_status p;
  pt_source := pt_source p; pt_rank := pt_rank p; pt_accept := pt_accept p; pt_deps := pt_deps p;
  pt_area := pt_area p; pt_agent_id := pt_agent_id p; pt_workflow_def_id := pt_workflow_def_id p;
  pt_run_id := pt_run_id p; pt_pr_url := url; pt_pr_number := number;
|}.

Definition with_workflow (w : option (option string)) (p : ItemPatch) : ItemPatch := {|
  pt_title := pt_title p; pt_why := pt_why p; pt_horizon := pt_horizon p; pt_status := pt_status p;
  pt_source := pt_source p; pt_rank := pt_rank p; pt_accept := pt_accept p; pt_deps := pt_deps p;
  pt_area := pt_area p; pt_agent_id := pt_agent_id p; pt_workflow_def_id := w;
  pt_run_id := pt_run_id p; pt_pr_url := pt_pr_url p; pt_pr_number := pt_pr_number p;
|}.

Definition with_agent (a : option (option string)) (p : ItemPatch) : ItemPatch := {|
  pt_title := pt_title p; pt_why := pt_why p; pt_horizon := pt_horizon p; pt_status := pt_status p;
  pt_source := pt_source p; pt_rank := pt_rank p; pt_accept := pt_accept p; pt_deps := pt_deps p;
  pt_area := pt_area p; pt_agent_id := a; pt_workflow_def_id := pt_workflow_def_id p;
  pt_run_id := pt_run_id p; pt_pr_url := pt_pr_url p; pt_pr_number := pt_pr_number p;
|}.

Record ItemUpdate := { up_applied : bool; up_item : RoadmapItem }.

(** ** Asks and holds *)

Inductive ProposalKind := PropUpdate | PropDiscard.

Record ProposalPatch := {
  pp_title : option string;
  pp_why : option string;
  pp_horizon : option Horizon;
  pp_area : option (option string);
  pp_accept : option (list string);
  pp_deps : option (list string);
}.

Definition proposal_patch_is_empty (p : ProposalPatch) : bool :=
  is_none (pp_title p) && is_none (pp_why p) && is_none (pp_horizon p) && is_none (pp_area p)
  && is_none (pp_accept p) && is_none (pp_deps p).

Definition proposal_patch_fields (p : ProposalPatch) : list string :=
  (if is_some (pp_title p) then ["title"] else [])
  ++ (if is_some (pp_why p) then ["why"] else [])
  ++ (if is_some (pp_horizon p) then ["horizon"] else [])
  ++ (if is_some (pp_area p) then ["area"] else [])
  ++ (if is_some (pp_accept p) then ["accept"] else [])
  ++ (if is_some (pp_deps p) then ["deps"] else []).

Definition to_item_patch (p : ProposalPatch) : ItemPatch := {|
  pt_title := pp_title p; pt_why := pp_why p; pt_horizon := pp_horizon p; pt_status := None;
  pt_source := None; pt_rank := None; pt_accept := pp_accept p; pt_deps := pp_deps p;
  pt_area := pp_area p; pt_agent_id := None; pt_workflow_def_id := None; pt_run_id := None;
  pt_pr_url := None; pt_pr_number := None;
|}.

(** The stored patch is JSON; a [Value] that is not a patch does not decode ([Err]). *)
Record Proposal := {
  pr_id : string;
  pr_item_id : string;
  pr_project_id : string;
  pr_kind : ProposalKind;
  pr_patch : option (result ProposalPatch string);
  pr_note : option string;
  pr_created_at : Z;
}.

Record OrderProposal := {
  op_project_id : string;
  op_codes : list string;
  op_note : option string;
  op_created_at : Z;
}.

Record ProjectHold := {
  ph_project_id : string;
  ph_reason : string;
  ph_held_by : EventActor;
  ph_created_at : Z;
}.

(** ** Ranks *)

(** [f64] arithmetic, and the conversion [n as f64]. *)
Definition f64_add : spec_float -> spec_float -> spec_float := SFadd 53 1024.
Definition f64_of_N (n : N) : spec_float :=
  match n with N0 => S754_zero false | Npos p => binary_normalize 53 1024 (Zpos p) 0 false end.
Definition f64_ltb : spec_float -> spec_float -> bool := SFltb.

(** SQLite's [ORDER BY rank, created_at]; the stored order breaks ties. *)
Definition board_le (a b : RoadmapItem) : Prop :=
  match SFcompare (it_rank a) (it_rank b) with
  | Some Lt => True
  | Some Gt => False
  | _ => (it_created_at a <= it_created_at b)%Z
  end.

#[export] Instance board_le_dec : RelDecision board_le.
Proof.
  intros a b. unfold board_le. destruct (SFcompare _ _) as [[]|]; apply _.
Defined.
