(* ===== verification/Database.v ===== *)
(** * The tables the modelled components touch

    One record of tables. A table whose insertion order is observable is a list in [rowid]
    order; one keyed by its primary key is a finite map. Setters change one table. *)

From S2P Require Import Prelude RustStr Board Sql.

Local Open Scope string_scope.
Local Open Scope list_scope.

(** [autopilot_log]; the enum columns are text. *)
Record LogRow := {
  lr_rowid : N;
  lr_id : string;
  lr_agent_id : string;
  lr_subdir : option string;
  lr_at : Z;
  lr_outcome : string;
  lr_rung : string;
  lr_attempt : N;
  lr_reason : option string;
}.

(** The columns of [wf_run] the roadmap reads. *)
Record WfRunRow := {
  run_id : string;
  run_project_id : string;
  run_status_text : string;
  run_roadmap_item_id : option string;
  run_pr_url : option string;
  run_pr_number : option Z;
  run_created_at : Z;
}.

Record RepoRow := { repo_project_id : string; repo_path : string; repo_created_at : Z }.

(** [wf_definition]: the name, and the spec's JSON text. *)
Record DefinitionRow := { def_name : string; def_spec_json : string }.

Record Db := {
  db_projects : gmap string string;
  db_project_settings : gmap (string * string) string;
  db_settings : gmap string string;
  db_workspaces : gmap string string;
  db_autopilot_log : list LogRow;
  db_items : list RoadmapItem;
  db_events : list ItemEvent;
  db_project_holds : gmap string ProjectHold;
  db_proposals : list Proposal;
  db_orders : gmap string OrderProposal;
  db_runs : list WfRunRow;
  db_definitions : gmap string DefinitionRow;
  db_repos : list RepoRow;
}.

Definition empty_db : Db := {|
  db_projects := ∅; db_project_settings := ∅; db_settings := ∅; db_workspaces := ∅;
  db_autopilot_log := []; db_items := []; db_events := []; db_project_holds := ∅;
  db_proposals := []; db_orders := ∅; db_runs := []; db_definitions := ∅; db_repos := [];
|}.

Definition set_project_settings f (d : Db) : Db := {|
  db_projects := db_projects d; db_project_settings := f (db_project_settings d);
  db_settings := db_settings d; db_workspaces := db_workspaces d;
  db_autopilot_log := db_autopilot_log d; db_items := db_items d; db_events := db_events d;
  db_project_holds := db_project_holds d; db_proposals := db_proposals d; db_orders := db_orders d;
  db_runs := db_runs d; db_definitions := db_definitions d; db_repos := db_repos d;
|}.

Definition set_settings f (d : Db) : Db := {|
  db_projects := db_projects d; db_project_settings := db_project_settings d;
  db_settings := f (db_settings d); db_workspaces := db_workspaces d;
  db_autopilot_log := db_autopilot_log d; db_items := db_items d; db_events := db_events d;
  db_project_holds := db_project_holds d; db_proposals := db_proposals d; db_orders := db_orders d;
  db_runs := db_runs d; db_definitions := db_definitions d; db_repos := db_repos d;
|}.

Definition set_autopilot_log f (d : Db) : Db := {|
  db_projects := db_projects d; db_project_settings := db_project_settings d;
  db_settings := db_settings d; db_workspaces := db_workspaces d;
  db_autopilot_log := f (db_autopilot_log d); db_items := db_items d; db_events := db_events d;
  db_project_holds := db_project_holds d; db_proposals := db_proposals d; db_orders := db_orders d;
  db_runs := db_runs d; db_definitions := db_definitions d; db_repos := db_repos d;
|}.

Definition set_items f (d : Db) : Db := {|
  db_projects := db_projects d; db_project_settings := db_project_settings d;
  db_settings := db_settings d; db_workspaces := db_workspaces d;
  db_autopilot_log := db_autopilot_log d; db_items := f (db_items d); db_events := db_events d;
  db_project_holds := db_project_holds d; db_proposals := db_proposals d; db_orders := db_orders d;
  db_runs := db_runs d; db_definitions := db_definitions d; db_repos := db_repos d;
|}.

Definition set_events f (d : Db) : Db := {|
  db_projects := db_projects d; db_project_settings := db_project_settings d;
  db_settings := db_settings d; db_workspaces := db_workspaces d;
  db_autopilot_log := db_autopilot_log d; db_items := db_items d; db_events := f (db_events d);
  db_project_holds := db_project_holds d; db_proposals := db_proposals d; db_orders := db_orders d;
  db_runs := db_runs d; db_definitions := db_definitions d; db_repos := db_repos d;
|}.

Definition set_project_holds f (d : Db) : Db := {|
  db_projects := db_projects d; db_project_settings := db_project_settings d;
  db_settings := db_settings d; db_workspaces := db_workspaces d;
  db_autopilot_log := db_autopilot_log d; db_items := db_items d; db_events := db_events d;
  db_project_holds := f (db_project_holds d); db_proposals := db_proposals d; db_orders := db_orders d;
  db_runs := db_runs d; db_definitions := db_definitions d; db_repos := db_repos d;
|}.

Definition set_proposals f (d : Db) : Db := {|
  db_projects := db_projects d; db_project_settings := db_project_settings d;
  db_settings := db_settings d; db_workspaces := db_workspaces d;
  db_autopilot_log := db_autopilot_log d; db_items := db_items d; db_events := db_events d;
  db_project_holds := db_project_holds d; db_proposals := f (db_proposals d); db_orders := db_orders d;
  db_runs := db_runs d; db_definitions := db_definitions d; db_repos := db_repos d;
|}.

Definition set_orders f (d : Db) : Db := {|
  db_projects := db_projects d; db_project_settings := db_project_settings d;
  db_settings := db_settings d; db_workspaces := db_workspaces d;
  db_autopilot_log := db_autopilot_log d; db_items := db_items d; db_events := db_events d;
  db_project_holds := db_project_holds d; db_proposals := db_proposals d; db_orders := f (db_orders d);
  db_runs := db_runs d; db_definitions := db_definitions d; db_repos := db_repos d;
|}.

(** SQLite's refusals. *)
Definition FOREIGN_KEY_FAILED : string := "FOREIGN KEY constraint failed".
Definition UNIQUE_FAILED : string := "UNIQUE constraint failed".
Definition NO_ROWS : string := "Query returned no rows".

Section Settings.
Context `{World}.

(** [INSERT INTO project_settings ... ON CONFLICT(project_id, key) DO UPDATE]; the project
    must exist. *)
Definition upsert_project_setting (project_id key value : string) : M Db () :=
  sql (fun d =>
    if is_some (db_projects d !! project_id)
    then Ok ((), set_project_settings (fun m => <[(project_id, key) := value]> m) d)
    else Err FOREIGN_KEY_FAILED).

(** [SELECT value FROM project_settings WHERE project_id = ?1 AND key = ?2]. *)
Definition select_project_setting (project_id key : string) : M Db (option string) :=
  query (fun d => db_project_settings d !! (project_id, key)).
End Settings.

(** A setting is durable: what was written is what is read. *)
Lemma upsert_project_setting_Ok `{World} p k v c u c' :
  upsert_project_setting p k v c = (Ok u, c') ->
  db_project_settings (c_db c') = <[(p, k) := v]> (db_project_settings (c_db c)) /\
  db_items (c_db c') = db_items (c_db c).
Proof.
  unfold upsert_project_setting. intros (_ & d & Hd & ->)%sql_Ok. simpl.
  destruct (is_some _); [|done]. by injection Hd as <- <-.
Qed.
