(* ===== verification/AutopilotStore.v ===== *)
(** * Autopilot's durable half

    Models src/crates/fletch-core/src/autopilot/store.rs: the two switches and the history
    log. JSON arrays of strings are read and written by serde_json ([JsonStrings]). *)

From S2P Require Import Prelude RustStr BTree Git Delegation Readiness AutopilotStep Board Sql Database.

Local Open Scope string_scope.
Local Open Scope list_scope.

(** [serde_json::from_str::<Vec<String>>] and [serde_json::to_string]. *)
Class JsonStrings := {
  json_parse : string -> option (list string);
  json_print : list string -> string;
}.

(** serde_json's contract on arrays of strings. *)
Definition json_lawful `{JsonStrings} : Prop := forall l, json_parse (json_print l) = Some l.

Definition PROJECT_ENABLED_KEY : string := "autopilot.enabled".
Definition PAUSED_AGENTS_KEY : string := "autopilotPausedAgents".
Definition LOG_LIMIT : nat := 50.

Definition project_off (value : string) : bool := String.eqb value "0" || String.eqb value "false".

Record Switches := { sw_disabled_projects : list string; sw_paused_agents : list string }.

Definition project_on (s : Switches) (project_id : string) : bool :=
  negb (existsb (fun p => String.eqb p project_id) (sw_disabled_projects s)).
Definition paused (s : Switches) (agent_id : string) : bool :=
  existsb (fun a => String.eqb a agent_id) (sw_paused_agents s).
Definition agent_on (s : Switches) (project_id agent_id : string) : bool :=
  project_on s project_id && negb (paused s agent_id).

Definition parse_paused `{JsonStrings} (raw : option string) : list string :=
  default [] (raw ≫= json_parse).

(** The projects whose [autopilot.enabled] row is off, sorted. *)
Definition disabled_projects (m : gmap (string * string) string) : list string :=
  sort_str ((fun '((p, _), _) => p) <$>
    lfilter (fun '((_, k), v) => String.eqb k PROJECT_ENABLED_KEY && project_off v) (map_to_list m)).

Section Store.
Context `{World} `{JsonStrings}.

Definition read_switches : M Db Switches :=
  let* disabled := query (fun d => disabled_projects (db_project_settings d)) in
  let* raw := query (fun d => db_settings d !! PAUSED_AGENTS_KEY) in
  ret {| sw_disabled_projects := disabled; sw_paused_agents := parse_paused raw |}.

Definition set_project (project_id : string) (enabled : bool) : M Db () :=
  if enabled
  then execute (set_project_settings (fun m => delete (project_id, PROJECT_ENABLED_KEY) m))
  else upsert_project_setting project_id PROJECT_ENABLED_KEY "0".

Definition agent_exists (id : string) : M Db bool :=
  query (fun d => is_some (db_workspaces d !! id)).

(** The ids kept: not the one being written, and still present. The existence check is one
    query per id. *)
Fixpoint keep_paused (agent_id : string) (ids : list string) : M Db (list string) :=
  match ids with
  | [] => ret []
  | id :: ids =>
      if String.eqb id agent_id then keep_paused agent_id ids
      else
      let* e := agent_exists id in
      let* rest := keep_paused agent_id ids in
      ret (if e then id :: rest else rest)
  end.

Definition set_agent_paused (agent_id : string) (pause : bool) : M Db () :=
  let* raw := query (fun d => db_settings d !! PAUSED_AGENTS_KEY) in
  let* list := keep_paused agent_id (parse_paused raw) in
  let list := push_if pause agent_id list in
  execute (set_settings (fun m => <[PAUSED_AGENTS_KEY := json_print list]> m)).
End Store.

(** ** The log *)

Inductive Outcome := OutDispatch | OutSettle | OutRetry | OutGiveUp.
#[export] Instance Outcome_eq_dec : EqDecision Outcome.
Proof. solve_decision. Defined.

Definition outcome_as_str (o : Outcome) : string :=
  match o with
  | OutDispatch => "dispatch" | OutSettle => "settle" | OutRetry => "retry" | OutGiveUp => "give-up"
  end.

Record LogEntry := {
  le_id : string;
  le_agent_id : string;
  le_subdir : option string;
  le_at : Z;
  le_outcome : Outcome;
  le_rung : DelegationKind;
  le_attempt : N;
  le_reason : option GiveUpReason;
}.

(** serde's kebab-case spelling of a kind, which for [Resolve] is not its action. *)
Definition rung_str (k : DelegationKind) : string :=
  match k with Resolve => "resolve" | k => action k end.

Definition parse_outcome (s : string) : option Outcome :=
  lfind (fun o => String.eqb (outcome_as_str o) s) [OutDispatch; OutSettle; OutRetry; OutGiveUp].
Definition parse_rung (s : string) : option DelegationKind :=
  lfind (fun k => String.eqb (rung_str k) s) ALL.
Definition parse_reason (s : string) : option GiveUpReason :=
  lfind (fun r => String.eqb (give_up_reason_as_str r) s) [GuBudgetSpent; GuNoProgress; GuNoEvidence].

(** A row's columns as an entry; [None] when this build cannot read the outcome or rung. *)
Definition entry_of_row (r : LogRow) : option LogEntry :=
  match parse_outcome (lr_outcome r), parse_rung (lr_rung r) with
  | Some o, Some k => Some {|
      le_id := lr_id r; le_agent_id := lr_agent_id r; le_subdir := lr_subdir r; le_at := lr_at r;
      le_outcome := o; le_rung := k; le_attempt := lr_attempt r;
      le_reason := lr_reason r ≫= parse_reason |}
  | _, _ => None
  end.

Definition row_of_entry (rowid : N) (e : LogEntry) : LogRow := {|
  lr_rowid := rowid; lr_id := le_id e; lr_agent_id := le_agent_id e; lr_subdir := le_subdir e;
  lr_at := le_at e; lr_outcome := outcome_as_str (le_outcome e); lr_rung := rung_str (le_rung e);
  lr_attempt := le_attempt e; lr_reason := give_up_reason_as_str <$> le_reason e;
|}.

(** SQLite gives a new row one more than the largest rowid of the table. *)
Definition next_rowid (rows : list LogRow) : N := (foldr (fun r n => N.max (lr_rowid r) n) 0 rows + 1)%N.

Definition same_checkout (agent_id : string) (subdir : option string) (r : LogRow) : bool :=
  String.eqb (lr_agent_id r) agent_id && eqb (lr_subdir r) subdir.

(** [ORDER BY at DESC, rowid DESC]. *)
Definition newer (a b : LogRow) : Prop :=
  (lr_at b < lr_at a)%Z \/ lr_at a = lr_at b /\ (lr_rowid b <= lr_rowid a)%N.
#[export] Instance newer_dec : RelDecision newer.
Proof. intros a b. unfold newer. apply _. Defined.

Definition newest_first (rows : list LogRow) : list LogRow := merge_sort newer rows.

(** The delete: this checkout's rows that are not among its newest [LOG_LIMIT]. *)
Definition trim_log (agent_id : string) (subdir : option string) (rows : list LogRow) : list LogRow :=
  let kept := lr_rowid <$> take LOG_LIMIT (newest_first (lfilter (same_checkout agent_id subdir) rows)) in
  lfilter (fun r => negb (same_checkout agent_id subdir r) || lcontains kept (lr_rowid r)) rows.

Section Log.
Context `{World}.

Definition append_log (e : LogEntry) : M Db () :=
  let* _ := sql (fun d =>
    if existsb (fun r => String.eqb (lr_id r) (le_id e)) (db_autopilot_log d) then Err UNIQUE_FAILED
    else Ok ((), set_autopilot_log (fun rows => rows ++ [row_of_entry (next_rowid rows) e]) d)) in
  execute (set_autopilot_log (trim_log (le_agent_id e) (le_subdir e))).

Inductive LogScope := ScopeAll | ScopeAgent (agent_id : string)
| ScopeCheckout (agent_id : string) (subdir : option string).

Definition in_scope (s : LogScope) (r : LogRow) : bool :=
  match s with
  | ScopeAll => true
  | ScopeAgent a => String.eqb (lr_agent_id r) a
  | ScopeCheckout a sub => same_checkout a sub r
  end.

Definition read_log (s : LogScope) : M Db (list LogEntry) :=
  query (fun d => omap entry_of_row (newest_first (lfilter (in_scope s) (db_autopilot_log d)))).

Definition prune_orphans : M Db () :=
  execute (fun d => set_autopilot_log
    (lfilter (fun r => is_some (db_workspaces d !! lr_agent_id r))) d).
End Log.

(** ** Lemmas *)

#[export] Instance newer_total : Total newer.
Proof. intros a b. unfold newer. lia. Qed.
#[export] Instance newer_trans : Transitive newer.
Proof. intros a b c. unfold newer. lia. Qed.

Lemma newest_first_sorted rows : StronglySorted newer (newest_first rows).
Proof. apply StronglySorted_merge_sort; apply _. Qed.

Lemma newest_first_perm rows : newest_first rows ≡ₚ rows.
Proof. apply merge_sort_Permutation. Qed.

Lemma next_rowid_fresh rows r : r ∈ rows -> (lr_rowid r < next_rowid rows)%N.
Proof.
  unfold next_rowid. induction rows as [|x rows IH]; [by intros ?%elem_of_nil|].
  intros [->|Hr]%elem_of_cons; simpl; [lia|]. specialize (IH Hr). lia.
Qed.

Lemma NoDup_fmap_inj_in {A B} (f : A -> B) l x y :
  NoDup (f <$> l) -> x ∈ l -> y ∈ l -> f x = f y -> x = y.
Proof.
  induction l as [|z l IH]; [by intros _ ?%elem_of_nil|]. rewrite fmap_cons, NoDup_cons.
  intros [Hz Hl] [->|Hx]%elem_of_cons [->|Hy]%elem_of_cons E; auto; exfalso; apply Hz;
    apply list_elem_of_fmap; eauto.
Qed.

Lemma lfilter_lfilter {A} (p q : A -> bool) l : lfilter p (lfilter q l) = lfilter (fun x => q x && p x) l.
Proof.
  induction l as [|x l IH]; simpl; [done|]. destruct (q x); simpl; [|done].
  destruct (p x); by rewrite IH.
Qed.

Lemma lfilter_ext {A} (p q : A -> bool) l : (forall x, x ∈ l -> p x = q x) -> lfilter p l = lfilter q l.
Proof.
  induction l as [|x l IH]; simpl; intros H; [done|].
  rewrite H by left. rewrite IH; [done|]. intros y Hy. apply H. by right.
Qed.

Section Trim.
Context (a : string) (s : option string) (rows : list LogRow) (Hnd : NoDup (lr_rowid <$> rows)).

Local Definition mine := lfilter (same_checkout a s) rows.
Local Definition kept_ids := lr_rowid <$> take LOG_LIMIT (newest_first mine).

Lemma trim_mine :
  lfilter (same_checkout a s) (trim_log a s rows) = lfilter (fun r => lcontains kept_ids (lr_rowid r)) mine.
Proof.
  unfold trim_log, mine. rewrite !lfilter_lfilter. apply lfilter_ext. intros r _.
  fold mine. fold kept_ids. destruct (same_checkout a s r); simpl; [by rewrite andb_true_r|done].
Qed.

Lemma trim_others p :
  (forall r, p r = true -> same_checkout a s r = false) -> lfilter p (trim_log a s rows) = lfilter p rows.
Proof.
  intros Hp. unfold trim_log. rewrite lfilter_lfilter. apply lfilter_ext. intros r _.
  destruct (p r) eqn:E; [|by rewrite andb_false_r]. by rewrite (Hp r E).
Qed.

Lemma trim_length : length (lfilter (same_checkout a s) (trim_log a s rows)) <= LOG_LIMIT.
Proof.
  rewrite trim_mine. rewrite <-(length_fmap lr_rowid).
  transitivity (length kept_ids).
  - apply submseteq_length, NoDup_submseteq.
    + by apply lfilter_fmap_NoDup, lfilter_fmap_NoDup.
    + intros n (r & -> & Hr)%list_elem_of_fmap. apply elem_of_lfilter in Hr as [_ Hk].
      by apply lcontains_true in Hk.
  - unfold kept_ids. rewrite length_fmap, length_take. lia.
Qed.

(** Every row dropped is no newer than every row kept. *)
Lemma trim_newest k r :
  k ∈ mine -> lr_rowid k ∈ kept_ids -> r ∈ mine -> lr_rowid r ∉ kept_ids -> newer k r.
Proof.
  intros Hk Hkk Hr Hrk. pose proof (newest_first_sorted mine) as Hs.
  assert (forall x, x ∈ mine -> x ∈ take LOG_LIMIT (newest_first mine) \/ x ∈ drop LOG_LIMIT (newest_first mine)) as Hsplit.
  { intros x Hx. apply elem_of_app. rewrite take_drop. by rewrite newest_first_perm. }
  assert (k ∈ take LOG_LIMIT (newest_first mine)) as Hk1.
  { apply list_elem_of_fmap in Hkk as (k' & Hkk' & Hin). assert (k = k') as ->; [|done].
    assert (k' ∈ mine) as Hk' by (rewrite <-newest_first_perm; by eapply elem_of_take in Hin as (? & ?%list_elem_of_lookup_2 & _)).
    eapply (NoDup_fmap_inj_in lr_rowid mine); [by apply lfilter_fmap_NoDup|done..]. }
  assert (r ∈ drop LOG_LIMIT (newest_first mine)) as Hr1.
  { destruct (Hsplit r Hr) as [Ht|]; [|done]. destruct Hrk. apply list_elem_of_fmap. eauto. }
  rewrite <-(take_drop LOG_LIMIT (newest_first mine)) in Hs.
  by eapply (StronglySorted_app_1_elem_of newer).
Qed.

(** What is left of the checkout is the first [LOG_LIMIT] of its rows, newest first. *)
Lemma trim_keeps :
  newest_first (lfilter (same_checkout a s) (trim_log a s rows)) = take LOG_LIMIT (newest_first mine).
Proof.
  assert (NoDup (lr_rowid <$> mine)) as Hm by by apply lfilter_fmap_NoDup.
  assert (forall x, x ∈ take LOG_LIMIT (newest_first mine) -> x ∈ mine) as Hin.
  { intros x (? & ?%list_elem_of_lookup_2 & _)%elem_of_take. by rewrite <-newest_first_perm. }
  assert (newest_first (lfilter (same_checkout a s) (trim_log a s rows)) ≡ₚ take LOG_LIMIT (newest_first mine)) as Hp.
  { rewrite newest_first_perm, trim_mine. apply NoDup_Permutation.
    - by eapply NoDup_fmap_1, lfilter_fmap_NoDup.
    - assert (NoDup (newest_first mine)) as Hn by (rewrite newest_first_perm; by eapply NoDup_fmap_1).
      rewrite <-(take_drop LOG_LIMIT (newest_first mine)) in Hn. by apply NoDup_app in Hn as [? _].
    - intros x. rewrite elem_of_lfilter, lcontains_true. unfold kept_ids. split.
      + intros [Hx (y & Hy & Hyt)%list_elem_of_fmap]. assert (x = y) as ->; [|done].
        eapply (NoDup_fmap_inj_in lr_rowid mine); eauto.
      + intros Hx. split; [by apply Hin|]. apply list_elem_of_fmap. eauto. }
  apply (StronglySorted_unique_strong newer); [|apply newest_first_sorted| |done].
  - intros x y Hx Hy Hxy Hyx. apply (NoDup_fmap_inj_in lr_rowid mine); [done| |by apply Hin|].
    + apply Hin. by rewrite <-Hp.
    + unfold newer in *. lia.
  - pose proof (newest_first_sorted mine) as Hs. rewrite <-(take_drop LOG_LIMIT (newest_first mine)) in Hs.
    by apply StronglySorted_app_1_l in Hs.
Qed.
End Trim.

Lemma trim_NoDup a s rows : NoDup (lr_rowid <$> rows) -> NoDup (lr_rowid <$> trim_log a s rows).
Proof. apply lfilter_fmap_NoDup. Qed.

Lemma append_NoDup rows e : NoDup (lr_rowid <$> rows) -> NoDup (lr_rowid <$> rows ++ [row_of_entry (next_rowid rows) e]).
Proof.
  intros Hnd. rewrite fmap_app. apply NoDup_app. split; [done|]. split; [|apply NoDup_singleton].
  intros n (r & -> & Hr)%list_elem_of_fmap Hn%list_elem_of_singleton.
  apply next_rowid_fresh in Hr. simpl in Hn. lia.
Qed.

Lemma row_entry_roundtrip n e : entry_of_row (row_of_entry n e) = Some e.
Proof.
  destruct e as [i a s t o k m r]. unfold entry_of_row, row_of_entry. simpl.
  destruct o, k; simpl; destruct r as [[]|]; reflexivity.
Qed.

Lemma project_on_disabled m paused q :
  project_on {| sw_disabled_projects := disabled_projects m; sw_paused_agents := paused |} q =
  match m !! (q, PROJECT_ENABLED_KEY) with Some v => negb (project_off v) | None => true end.
Proof.
  unfold project_on. simpl.
  assert (existsb (fun p => String.eqb p q) (disabled_projects m) = true <->
    exists v, m !! (q, PROJECT_ENABLED_KEY) = Some v /\ project_off v = true) as Hiff.
  { rewrite existsb_exists. setoid_rewrite <-list_elem_of_In. setoid_rewrite String.eqb_eq.
    unfold disabled_projects. setoid_rewrite sort_str_perm.
    setoid_rewrite list_elem_of_fmap. setoid_rewrite elem_of_lfilter. split.
    - intros (p & ([[p' k] v] & -> & Hin & Hc) & <-). apply elem_of_map_to_list in Hin.
      apply andb_true_iff in Hc as [Hk Ho]. apply String.eqb_eq in Hk as ->. eauto.
    - intros (v & Hv & Ho). exists q. split; [|done]. exists ((q, PROJECT_ENABLED_KEY), v).
      split; [done|]. split; [by apply elem_of_map_to_list|]. by rewrite String.eqb_refl, Ho. }
  destruct (existsb _ _) eqn:E.
  - destruct (proj1 Hiff eq_refl) as (v & -> & ->). done.
  - destruct (m !! _) as [v|] eqn:Hv; [|done]. destruct (project_off v) eqn:Ho; [|done].
    exfalso. assert (false = true) as Hft by (apply Hiff; eauto). done.
Qed.

Section StoreLemmas.
Context `{World} `{JsonStrings}.

Lemma read_switches_Ok c s c' :
  read_switches c = (Ok s, c') ->
  s = {| sw_disabled_projects := disabled_projects (db_project_settings (c_db c));
         sw_paused_agents := parse_paused (db_settings (c_db c) !! PAUSED_AGENTS_KEY) |}.
Proof. unfold read_switches. intros Hr. by invert_ok. Qed.

Lemma keep_paused_Ok a ids c l c' :
  keep_paused a ids c = (Ok l, c') ->
  c_db c' = c_db c /\
  l = lfilter (fun id => negb (String.eqb id a) && is_some (db_workspaces (c_db c) !! id)) ids.
Proof.
  revert c l. induction ids as [|id ids IH]; simpl; intros c l Hk; [by invert_ok|].
  destruct (String.eqb id a); simpl; [by apply IH|].
  unfold agent_exists in Hk. invert_ok.
  match goal with Hrec : keep_paused a ids _ = _ |- _ => apply IH in Hrec as [Hdb ->] end.
  split; [by rewrite Hdb|]. simpl. by destruct (is_some _).
Qed.

Lemma set_agent_paused_Ok a p c u c' :
  set_agent_paused a p c = (Ok u, c') ->
  c_db c' = set_settings (fun m => <[PAUSED_AGENTS_KEY := json_print (push_if p a
    (lfilter (fun id => negb (String.eqb id a) && is_some (db_workspaces (c_db c) !! id))
       (parse_paused (db_settings (c_db c) !! PAUSED_AGENTS_KEY))))]> m) (c_db c).
Proof.
  unfold set_agent_paused. intros Hs. invert_ok.
  match goal with Hrec : keep_paused a _ _ = _ |- _ => apply keep_paused_Ok in Hrec as [Hdb ->] end.
  simpl. by rewrite Hdb.
Qed.
End StoreLemmas.

(** ** Properties *)

(** (C40) An append that succeeds leaves of the checkout's history exactly the newest rows, in the
    order it is read, at most [LOG_LIMIT], of those it had and one new row, which has a row id above
    all others and reads back as the entry appended. So no row dropped is newer than one kept; other
    checkouts' rows are untouched and row ids stay distinct. *)
Theorem append_log_keeps_newest `{World} e c u c' :
  let rows := db_autopilot_log (c_db c) in
  let rows' := db_autopilot_log (c_db c') in
  let same := same_checkout (le_agent_id e) (le_subdir e) in
  NoDup (lr_rowid <$> rows) -> append_log e c = (Ok u, c') ->
  NoDup (lr_rowid <$> rows') /\
  (exists new, entry_of_row new = Some e /\ (forall r, r ∈ rows -> (lr_rowid r < lr_rowid new)%N) /\
     newest_first (lfilter same rows') = take LOG_LIMIT (newest_first (lfilter same rows ++ [new]))) /\
  length (lfilter same rows') = Nat.min LOG_LIMIT (S (length (lfilter same rows))) /\
  (forall k r, k ∈ rows' -> same k = true -> r ∈ rows -> same r = true -> r ∉ rows' -> newer k r) /\
  (forall p, (forall r, p r = true -> same r = false) -> lfilter p rows' = lfilter p rows).
Proof.
  intros rows rows' same Hnd Happ. unfold append_log in Happ. subst rows rows'. invert_ok.
  match goal with Hs : sql _ _ = _ |- _ => apply sql_Ok in Hs as (_ & d & Hd & ->) end.
  simpl in *. destruct (existsb _ _); [done|]. injection Hd as <- <-. simpl.
  set (rows := db_autopilot_log (c_db c)) in *. set (new := row_of_entry (next_rowid rows) e).
  pose proof (append_NoDup rows e Hnd) as Hnd'. fold new in Hnd'.
  assert (lfilter same (rows ++ [new]) = lfilter same rows ++ [new]) as Hsame.
  { rewrite lfilter_app. simpl. unfold same, same_checkout. simpl. by rewrite String.eqb_refl, eqb_refl. }
  pose proof (trim_keeps (le_agent_id e) (le_subdir e) (rows ++ [new]) Hnd') as Hkeep.
  unfold mine in Hkeep. fold same in Hkeep. rewrite Hsame in Hkeep.
  split; [by apply trim_NoDup|]. split.
  { exists new. split; [apply row_entry_roundtrip|]. split; [apply next_rowid_fresh|done]. }
  split; [|split].
  - rewrite <-(newest_first_perm (lfilter same (trim_log _ _ _))), Hkeep, length_take, newest_first_perm,
      length_app, Nat.add_1_r. reflexivity.
  - intros k r Hk Hks Hr Hrs Hout.
    assert (k ∈ lfilter same (trim_log (le_agent_id e) (le_subdir e) (rows ++ [new]))) as Hk'.
    { by apply elem_of_lfilter. }
    unfold same in Hk'. rewrite trim_mine in Hk'. apply elem_of_lfilter in Hk' as [Hkm Hkk].
    apply lcontains_true in Hkk.
    eapply (trim_newest (le_agent_id e) (le_subdir e) (rows ++ [new]) Hnd'); [done|done| |].
    + apply elem_of_lfilter. split; [|done]. apply elem_of_app. by left.
    + intros Hrk. apply Hout. unfold trim_log. apply elem_of_lfilter.
      split; [apply elem_of_app; by left|]. apply orb_true_iff. right. by apply lcontains_true.
  - intros p Hp. rewrite trim_others by done. rewrite lfilter_app. simpl.
    destruct (p new) eqn:Hpn; [|by rewrite app_nil_r]. apply Hp in Hpn.
    unfold same, same_checkout in Hpn. simpl in Hpn. by rewrite String.eqb_refl, eqb_refl in Hpn.
Qed.

Definition witness_entry : LogEntry := {|
  le_id := "e1"; le_agent_id := "a"; le_subdir := None; le_at := 5; le_outcome := OutDispatch;
  le_rung := Resolve; le_attempt := 1; le_reason := None;
|}.

Lemma append_log_keeps_newest_witness :
  let c := {| c_db := empty_db; c_tick := 0 |} in
  let c' := (@append_log (calm_world show_nat) witness_entry c).2 in
  NoDup (lr_rowid <$> db_autopilot_log (c_db c')) /\ length (db_autopilot_log (c_db c')) = 1.
Proof.
  split; [|vm_compute; reflexivity].
  eapply (@append_log_keeps_newest (calm_world show_nat) witness_entry {| c_db := empty_db; c_tick := 0 |} ()).
  - constructor.
  - vm_compute. reflexivity.
Defined.

(** A project's switch is what it was last set to, and setting it touches no other
    project's switch and no agent's pause. *)
Theorem project_switch_roundtrip `{World} `{JsonStrings} p enabled c u c1 s0 s1 cr0 cr1 :
  read_switches c = (Ok s0, cr0) -> set_project p enabled c = (Ok u, c1) ->
  read_switches c1 = (Ok s1, cr1) ->
  project_on s1 p = enabled /\ (forall q, q <> p -> project_on s1 q = project_on s0 q) /\
  sw_paused_agents s1 = sw_paused_agents s0.
Proof.
  intros Hr0 Hset Hr1. apply read_switches_Ok in Hr0 as ->. apply read_switches_Ok in Hr1 as ->.
  unfold set_project in Hset.
  assert (db_settings (c_db c1) = db_settings (c_db c) /\
    db_project_settings (c_db c1) =
      if enabled then delete (p, PROJECT_ENABLED_KEY) (db_project_settings (c_db c))
      else <[(p, PROJECT_ENABLED_KEY) := "0"]> (db_project_settings (c_db c))) as [Hs Hp].
  { destruct enabled; [by apply execute_Ok in Hset as [_ ->]|].
    unfold upsert_project_setting in Hset. apply sql_Ok in Hset as (_ & d & Hd & ->).
    destruct (is_some _); [|done]. by injection Hd as <- <-. }
  split; [|split; [|simpl; by rewrite Hs]].
  - rewrite project_on_disabled, Hp. destruct enabled; by rewrite ?lookup_delete_eq, ?lookup_insert_eq.
  - intros q Hq. rewrite !project_on_disabled, Hp.
    destruct enabled; rewrite ?lookup_delete_ne, ?lookup_insert_ne by congruence; done.
Qed.

(** Pausing is exact: after an agent is paused or resumed it reads as such, and every other
    agent that still exists keeps its state. *)
Theorem agent_pause_roundtrip `{World} `{JsonStrings} a p c u c1 s0 s1 cr0 cr1 :
  json_lawful -> read_switches c = (Ok s0, cr0) -> set_agent_paused a p c = (Ok u, c1) ->
  read_switches c1 = (Ok s1, cr1) ->
  paused s1 a = p /\
  forall b, b <> a -> is_some (db_workspaces (c_db c) !! b) = true -> paused s1 b = paused s0 b.
Proof.
  intros Hj Hr0 Hset Hr1. apply read_switches_Ok in Hr0 as ->. apply read_switches_Ok in Hr1 as ->.
  apply set_agent_paused_Ok in Hset. rewrite Hset. unfold paused. simpl.
  rewrite lookup_insert_eq. unfold parse_paused at 1 3. simpl. rewrite Hj. simpl.
  set (old := parse_paused _). set (f := fun id => _ && _).
  assert (forall l (x : string), existsb (fun y => String.eqb y x) l = lcontains l x) as Hex.
  { intros l x. unfold lcontains. induction l as [|y l IH]; simpl; [done|]. rewrite IH. f_equal.
    unfold eqb. destruct (String.eqb_spec y x); symmetry; [by apply bool_decide_eq_true|].
    by apply bool_decide_eq_false. }
  assert (forall x, x ∈ push_if p a (lfilter f old) <-> (x ∈ old /\ f x = true) \/ (x = a /\ p = true)) as Hin.
  { intros x. destruct p; simpl.
    - rewrite elem_of_app, elem_of_lfilter, list_elem_of_singleton. tauto.
    - rewrite elem_of_lfilter. split; [auto|]. by intros [|[_ ?]]. }
  rewrite !Hex. split.
  - destruct (lcontains (push_if p a (lfilter f old)) a) eqn:E.
    + apply lcontains_true, Hin in E as [[_ E]|[_ ->]]; [|done]. unfold f in E.
      by rewrite String.eqb_refl in E.
    + destruct p; [|done]. apply lcontains_false in E. destruct E. apply Hin. by right.
  - intros b Hb Hw. rewrite !Hex. apply eq_true_iff_eq. rewrite !lcontains_true, Hin.
    unfold f. rewrite (proj2 (String.eqb_neq b a) Hb), Hw. cbn [negb andb].
    split; [by intros [[? _]|[? _]]|by left].
Qed.

(** A lawful stand-in for serde_json: the list's code, in decimal. *)
Definition coded_json : JsonStrings := {|
  json_parse s := match parse_digits s with Some (Npos p) => decode p | _ => None end;
  json_print l := show_N (Npos (encode l));
|}.

Lemma coded_json_lawful : @json_lawful coded_json.
Proof. intros l. simpl. rewrite parse_digits_show. apply decode_encode. Qed.

Definition witness_projects : Db := {|
  db_projects := {["p" := "Proj"]}; db_project_settings := ∅; db_settings := ∅;
  db_workspaces := {["a" := "A"; "b" := "B"]};
  db_autopilot_log := []; db_items := []; db_events := []; db_project_holds := ∅;
  db_proposals := []; db_orders := ∅; db_runs := []; db_definitions := ∅; db_repos := [];
|}.

Lemma project_switch_roundtrip_witness :
  exists s, (@read_switches (calm_world show_nat) coded_json
      (@set_project (calm_world show_nat) "p" false {| c_db := witness_projects; c_tick := 0 |}).2).1 = Ok s
    /\ project_on s "p" = false.
Proof.
  eexists. split; [vm_compute; reflexivity|].
  refine (proj1 (@project_switch_roundtrip (calm_world show_nat) coded_json "p" false
    {| c_db := witness_projects; c_tick := 0 |} () _ _ _ _ _ _ _ _)); vm_compute; reflexivity.
Defined.

Lemma agent_pause_roundtrip_witness :
  exists s, (@read_switches (calm_world show_nat) coded_json
      (@set_agent_paused (calm_world show_nat) coded_json "a" true {| c_db := witness_projects; c_tick := 0 |}).2).1 = Ok s
    /\ paused s "a" = true.
Proof.
  eexists. split; [vm_compute; reflexivity|].
  refine (proj1 (@agent_pause_roundtrip (calm_world show_nat) coded_json "a" true
    {| c_db := witness_projects; c_tick := 0 |} () _ _ _ _ _ coded_json_lawful _ _ _));
    vm_compute; reflexivity.
Defined.
