(* ===== verification/AutopilotDriver.v ===== *)
(** * Autopilot's table and driver

    Models src/crates/fletch-core/src/autopilot/mod.rs (the in-memory table, the rows clients
    see, the switch op) and src/crates/fletch-core/src/autopilot/driver.rs (one pass over every
    enrolled checkout). The trait [World] of the driver is the class [AutoWorld]; what other
    tasks do to the table while a pass awaits is part of it. *)

From S2P Require Import Prelude RustStr BTree Git Delegation.
From S2P Require Import Readiness AutopilotStep Board Sql Database AutopilotStore.

Local Open Scope string_scope.
Local Open Scope list_scope.

(** ** What clients see *)

Record CycleView := {
  cv_rung : DelegationKind;
  cv_attempt : N;
  cv_phase : CyclePhase;
  cv_since : Z;
}.

Record AutopilotCheckout := {
  ac_agent_id : string;
  ac_subdir : option string;
  ac_project_id : string;
  ac_enrolled : bool;
  ac_paused : bool;
  ac_project_enabled : bool;
  ac_cycle : option CycleView;
}.

Record AutopilotSnapshot := {
  sn_checkouts : list AutopilotCheckout;
  sn_disabled_projects : list string;
  sn_paused_agents : list string;
}.

(** ** The table *)

Record ThreadsRead := { th_at : Z; th_comments : option PrComments }.

Record Tracked := {
  t_state : AutopilotState;
  t_verdict : option VerificationReport;
  t_verifying : bool;
  t_threads : option ThreadsRead;
}.

Definition tracked_enrolled : Tracked := {|
  t_state := autopilot_state_enrolled; t_verdict := None; t_verifying := false; t_threads := None;
|}.

Record Table := { tb_inner : list (Key * Tracked); tb_generation : N }.

Definition table_default : Table := {| tb_inner := []; tb_generation := 0 |}.

Definition cycle_view (st : AutopilotState) : option CycleView :=
  (fun c => {| cv_rung := cy_rung c; cv_attempt := cy_attempt c; cv_phase := cy_phase c;
               cv_since := cy_phase_since c |}) <$> as_cycle st.

Definition table_bump (t : Table) : Table :=
  {| tb_inner := tb_inner t; tb_generation := ((tb_generation t + 1) mod 2 ^ 64)%N |}.

Definition table_keys (t : Table) : list Key := (tb_inner t).*1.
Definition table_get (t : Table) (key : Key) : option Tracked := get key (tb_inner t).
Definition table_contains (t : Table) (key : Key) : bool := contains_key key (tb_inner t).

Definition with_inner (t : Table) (m : list (Key * Tracked)) : Table :=
  {| tb_inner := m; tb_generation := tb_generation t |}.

Definition table_enroll (t : Table) (key : Key) : bool * Table :=
  if contains_key key (tb_inner t) then (false, t)
  else (true, with_inner t (insert key_le key tracked_enrolled (tb_inner t))).

Definition table_remove (t : Table) (key : Key) : bool * Table :=
  (contains_key key (tb_inner t), with_inner t (remove key (tb_inner t))).

Definition table_update (t : Table) (key : Key) (f : Tracked -> Tracked) : Table :=
  with_inner t (update key f (tb_inner t)).

Definition cycle_of (t : Table) (key : Key) : option CycleView :=
  table_get t key ≫= fun tr => cycle_view (t_state tr).

Definition autopilot_pre_authorizes (t : Table) (agent_id : string) (repo : option string)
    (op : string) : bool :=
  String.eqb op "git_push" && table_contains t (agent_id, repo).

(** ** Rows *)

(** Every checkout of an agent as a table-key subdir: [None] for the primary. *)
Definition checkouts (record : AgentRecord) : list (option string) :=
  imap (fun i r => if 0 <? i then Some r else None)%nat (ar_repos record).

(** [live_agents]: the non-archived ones. *)
Definition live_agents (agents : list AgentRecord) : list AgentRecord :=
  lfilter (fun a => negb (ar_archived a)) agents.

Definition row (t : Table) (s : Switches) (record : AgentRecord) (subdir : option string)
    : AutopilotCheckout :=
  let project_enabled := project_on s (ar_project_id record) in
  let is_paused := paused s (ar_id record) in {|
  ac_agent_id := ar_id record; ac_subdir := subdir; ac_project_id := ar_project_id record;
  ac_enrolled := project_enabled && negb is_paused; ac_paused := is_paused;
  ac_project_enabled := project_enabled; ac_cycle := cycle_of t (ar_id record, subdir);
|}.

Definition auto_snapshot (t : Table) (s : Switches) (agents : list AgentRecord) : AutopilotSnapshot := {|
  sn_checkouts := agents ≫= (fun a => row t s a <$> checkouts a);
  sn_disabled_projects := sw_disabled_projects s;
  sn_paused_agents := sw_paused_agents s;
|}.

(** ** The switch op *)

Definition clean_arg (s : option string) : option string :=
  opt_filter (fun s => negb (is_empty s)) (trim <$> s).

Definition EXACTLY_ONE : string := "autopilot_set takes exactly one of projectId or agentId".

(** A checkout switched off leaves the table before its row is announced. *)
Definition switch_checkout (s : Switches) (on : bool) (record : AgentRecord)
    (st : Table * list AutopilotCheckout) (subdir : option string) : Table * list AutopilotCheckout :=
  let '(t, rows) := st in
  let t := if on then t else (table_remove t (ar_id record, subdir)).2 in
  (t, rows ++ [row t s record subdir]).

Definition switch_agent (s : Switches) (st : Table * list AutopilotCheckout) (record : AgentRecord)
    : Table * list AutopilotCheckout :=
  let on := agent_on s (ar_project_id record) (ar_id record) in
  fold_left (switch_checkout s on record) (checkouts record) st.

Section Set_.
Context `{World} `{JsonStrings}.

(** [lookup] is [WorkspaceManager::agent], which errors on an unknown id. The table is the
    state beside the connection. *)
Definition autopilot_set (agents : list AgentRecord) (lookup : string -> result AgentRecord string)
    (t : Table) (project_id agent_id : option string) (enabled : bool)
    : M Db (Table * list AutopilotCheckout * AutopilotSnapshot) :=
  let live := live_agents agents in
  let* affected :=
    match clean_arg project_id, clean_arg agent_id with
    | Some p, None =>
        let* _ := set_project p enabled in
        ret (lfilter (fun a => String.eqb (ar_project_id a) p) live)
    | None, Some a =>
        let* _ := lift (lookup a) in
        let* _ := set_agent_paused a (negb enabled) in
        ret (lfilter (fun r => String.eqb (ar_id r) a) live)
    | _, _ => err EXACTLY_ONE
    end in
  let t := table_bump t in
  let* s := read_switches in
  let '(t, rows) := fold_left (switch_agent s) affected (t, []) in
  ret (t, rows, auto_snapshot t s live).
End Set_.

(** ** The pass *)

Class AutoWorld := {
  aw_agents : list AgentRecord;
  (** Reads, at the [n]-th checkout of the pass. *)
  aw_busy : nat -> string -> bool;
  aw_delegation_live : nat -> Key -> bool;
  aw_git : nat -> Key -> option GitState;
  aw_pr : nat -> Key -> option PrLive;
  aw_threads : nat -> Key -> option PrComments;
  (** Taking the checkout for a rung ([Ok false]: a local review has it), and handing the rung
      over. *)
  aw_admit : nat -> Key -> string -> list (string * string) -> result bool string;
  aw_dispatch : nat -> Key -> result () string;
  (** What other tasks do to the table while the pass awaits a read, or a dispatch. *)
  aw_during_reads : nat -> Table -> Table;
  aw_during_dispatch : nat -> Table -> Table;
}.

Definition THREADS_EVERY_MS : Z := 60000.

Record DriverState := {
  ds_table : Table;
  ds_conn : Conn Db;
  ds_rows : list AutopilotCheckout;
  ds_events : list LogEntry;
  ds_dispatched : list Key;
}.

Definition on_table (f : Table -> Table) (st : DriverState) : DriverState := {|
  ds_table := f (ds_table st); ds_conn := ds_conn st; ds_rows := ds_rows st;
  ds_events := ds_events st; ds_dispatched := ds_dispatched st;
|}.

Definition emit_row (r : AutopilotCheckout) (st : DriverState) : DriverState := {|
  ds_table := ds_table st; ds_conn := ds_conn st; ds_rows := ds_rows st ++ [r];
  ds_events := ds_events st; ds_dispatched := ds_dispatched st;
|}.

Definition note_dispatched (key : Key) (st : DriverState) : DriverState := {|
  ds_table := ds_table st; ds_conn := ds_conn st; ds_rows := ds_rows st;
  ds_events := ds_events st; ds_dispatched := ds_dispatched st ++ [key];
|}.

Definition set_state (f : AutopilotState -> AutopilotState) (t : Tracked) : Tracked := {|
  t_state := f (t_state t); t_verdict := t_verdict t; t_verifying := t_verifying t;
  t_threads := t_threads t;
|}.

Definition set_threads (r : ThreadsRead) (t : Tracked) : Tracked := {|
  t_state := t_state t; t_verdict := t_verdict t; t_verifying := t_verifying t; t_threads := Some r;
|}.

Section Driver.
Context `{World} `{AutoWorld}.

(** The row is stored best effort, and announced either way. The uuid is drawn first. *)
Definition record_log (key : Key) (now : Z) (o : Outcome) (rung : DelegationKind) (attempt : N)
    (reason : option GiveUpReason) (st : DriverState) : DriverState :=
  let id := w_uuid (c_tick (ds_conn st)) in
  let e := {| le_id := id; le_agent_id := key.1; le_subdir := key.2; le_at := now; le_outcome := o;
              le_rung := rung; le_attempt := attempt; le_reason := reason |} in {|
  ds_table := ds_table st; ds_conn := (append_log e (tick (ds_conn st))).2; ds_rows := ds_rows st;
  ds_events := ds_events st ++ [e]; ds_dispatched := ds_dispatched st;
|}.

Definition observe_checkout (n : nat) (key : Key) (awaiting_since : option Z)
    (cached : option ThreadsRead) (now : Z) (st : DriverState) : ReadinessInput * DriverState :=
  let git := opt_filter (fun g => match g_blocked_config g with [] => true | _ => false end) (aw_git n key) in
  let live := aw_pr n key in
  let pr := live_state <$> live in
  let checks := live ≫= live_checks in
  let st := on_table (aw_during_reads n) st in
  let '(comments, st) :=
    if is_some_and pr (pr_is PrOpen) then
      let stale := match cached with
                   | None => true
                   | Some c => (THREADS_EVERY_MS <=? now - th_at c)%Z
                               || is_some_and awaiting_since (fun since => th_at c <? since)%Z
                   end in
      if stale then
        let comments := aw_threads n key in
        (comments, on_table (fun t => table_update t key
                     (set_threads {| th_at := now; th_comments := comments |})) st)
      else (cached ≫= th_comments, st)
    else (None, st) in
  ({| r_git := git; r_pr := pr; r_checks := checks; r_comments := comments |}, st).

Definition attempt_of (st : DriverState) (key : Key) : N :=
  match table_get (ds_table st) key ≫= (fun t => as_cycle (t_state t)) with
  | Some c => cy_attempt c
  | None => 0
  end.

Definition open_tracked (rung : DelegationKind) (signature situation : string) (now : Z) (t : Tracked)
    : Tracked := {|
  t_state := open_cycle rung signature situation now (t_state t); t_verdict := None;
  t_verifying := t_verifying t; t_threads := t_threads t;
|}.

Definition start_verifying (now : Z) (t : Tracked) : Tracked := {|
  t_state := advance AwaitingEvidence now (t_state t); t_verdict := t_verdict t;
  t_verifying := true; t_threads := t_threads t;
|}.

(** [apply]: perform one effect; whether it opened a cycle. *)
Definition apply_step (n : nat) (s : Switches) (agent : AgentRecord) (key : Key) (e : StepEffect)
    (now : Z) (st : DriverState) : bool * DriverState :=
  let announce st := emit_row (row (ds_table st) s agent key.2) st in
  match e with
  | Dispatch rung a params signature situation =>
      match aw_admit n key a params with
      | Ok false => (false, st)
      | admitted =>
          let st := on_table (fun t => table_update t key (open_tracked rung signature situation now)) st in
          let st := announce st in
          let st := record_log key now OutDispatch rung (attempt_of st key) None st in
          match admitted with
          | Ok _ => (true, on_table (aw_during_dispatch n) (note_dispatched key st))
          | Err _ => (true, st)
          end
      end
  | AwaitEvidence =>
      let st := on_table (fun t => table_update t key (set_state (advance AwaitingEvidence now))) st in
      (false, announce st)
  | Verify =>
      let st := on_table (fun t => table_update t key (start_verifying now)) st in
      (false, announce st)
  | Settle rung =>
      let st := record_log key now OutSettle rung (attempt_of st key) None st in
      let st := on_table (fun t => table_update t key (set_state (settle rung))) st in
      (false, announce st)
  | Retry rung barren =>
      let st := record_log key now OutRetry rung (attempt_of st key) None st in
      let st := on_table (fun t => table_update t key (set_state (retry rung barren))) st in
      (false, announce st)
  | GiveUp rung reason barren =>
      let st := record_log key now OutGiveUp rung (attempt_of st key) (Some reason) st in
      let st := on_table (fun t => table_update t key (set_state (retry rung barren))) st in
      (false, announce st)
  | Wait _ => (false, st)
  end.

(** The checkouts switched on, and the pass's keys in order. *)
Definition on_checkouts (s : Switches) : gmap Key AgentRecord :=
  fold_left (fun m a =>
    if agent_on s (ar_project_id a) (ar_id a)
    then fold_left (fun m sub => <[(ar_id a, sub) := a]> m) (checkouts a) m else m) aw_agents ∅.

Definition agents_by_id : gmap string AgentRecord :=
  fold_left (fun m a => <[ar_id a := a]> m) aw_agents ∅.

Definition pass_checkouts (t : Table) (s : Switches) : list Key :=
  let on := aw_agents ≫= (fun a => if agent_on s (ar_project_id a) (ar_id a)
                                   then (fun sub => (ar_id a, sub)) <$> checkouts a else []) in
  (collect key_le ((fun k => (k, ())) <$> table_keys t ++ on)).*1.

(** What one checkout is judged on, its world read only when the step could use it. *)
Definition read_checkout (n : nat) (key : Key) (tracked : Tracked) (busy in_flight : bool) (now : Z)
    (st : DriverState) : ReadinessInput * DriverState :=
  let cycle := as_cycle (t_state tracked) in
  let awaiting_since := cy_phase_since <$> opt_filter (fun c => eqb (cy_phase c) AwaitingEvidence) cycle in
  let needs_world := match cycle with
                     | None => negb busy && negb in_flight
                     | Some _ => is_some awaiting_since
                     end in
  if needs_world then observe_checkout n key awaiting_since (t_threads tracked) now st
  else ({| r_git := None; r_pr := None; r_checks := None; r_comments := None |}, st).

Definition ladder_of (readiness : ReadinessInput) : LadderContext :=
  let base := opt_filter (fun b => negb (is_empty b)) (g_parent_branch <$> r_git readiness) in
  {| lc_base := default "main" base; lc_commit_mode := CmCommitPr |}.

Definition step_input (tracked : Tracked) (readiness : ReadinessInput) (busy in_flight : bool) (now : Z)
    : AutopilotInput := {|
  ai_state := Some (t_state tracked); ai_readiness := readiness; ai_ladder := ladder_of readiness;
  ai_agent_busy := busy; ai_delegation_in_flight := in_flight;
  ai_verification := t_verdict tracked; ai_now := now;
|}.

(** One checkout that is switched on: [None] when a switch was written meanwhile. *)
Definition visit (generation : N) (s : Switches) (now : Z) (n : nat) (dispatched_to : list string)
    (key : Key) (agent : AgentRecord) (st : DriverState) : option bool * DriverState :=
  let '(fresh, t) := table_enroll (ds_table st) key in
  let st := on_table (fun _ => t) st in
  let st := if fresh then emit_row (row (ds_table st) s agent key.2) st else st in
  match table_get (ds_table st) key with
  | None => (Some false, st)
  | Some tracked =>
      if t_verifying tracked then (Some false, st)
      else
      let busy := aw_busy n key.1 || lcontains dispatched_to key.1 in
      let in_flight := aw_delegation_live n key in
      let '(readiness, st) := read_checkout n key tracked busy in_flight now st in
      let effect := autopilot_step (step_input tracked readiness busy in_flight now) in
      if negb (tb_generation (ds_table st) =? generation)%N then (None, st)
      else let '(opened, st) := apply_step n s agent key effect now st in (Some opened, st)
  end.

(** A checkout gone, switched off or paused is forgotten. *)
Definition forget_checkout (s : Switches) (key : Key) (st : DriverState) : DriverState :=
  let '(was, t) := table_remove (ds_table st) key in
  let st := on_table (fun _ => t) st in
  match agents_by_id !! key.1 with
  | Some record => if was then emit_row (row (ds_table st) s record key.2) st else st
  | None => st
  end.

Fixpoint pass_loop (generation : N) (s : Switches) (now : Z) (n : nat) (dispatched_to : list string)
    (keys : list Key) (st : DriverState) : DriverState :=
  match keys with
  | [] => st
  | key :: keys =>
      if negb (tb_generation (ds_table st) =? generation)%N then st
      else
      match on_checkouts s !! key with
      | None => pass_loop generation s now (S n) dispatched_to keys (forget_checkout s key st)
      | Some agent =>
          match visit generation s now n dispatched_to key agent st with
          | (None, st) => st
          | (Some opened, st) =>
              pass_loop generation s now (S n) (if opened then key.1 :: dispatched_to else dispatched_to)
                keys st
          end
      end
  end.

Definition autopilot_run_pass `{JsonStrings} (now : Z) (st : DriverState) : DriverState :=
  let generation := tb_generation (ds_table st) in
  let '(r, conn) := read_switches (ds_conn st) in
  let st := {| ds_table := ds_table st; ds_conn := conn; ds_rows := ds_rows st;
               ds_events := ds_events st; ds_dispatched := ds_dispatched st |} in
  match r with
  | Err _ => st
  | Ok s => pass_loop generation s now 0 [] (pass_checkouts (ds_table st) s) st
  end.

(** The spawned verification landing: its evidence counts only for a cycle of the same rung and
    attempt as the one it was started for. *)
Definition cycle_identity (c : option Cycle) : option (DelegationKind * N) :=
  (fun c => (cy_rung c, cy_attempt c)) <$> c.

Definition land_verdict (identity : option (DelegationKind * N)) (report : option VerificationReport)
    (t : Tracked) : Tracked := {|
  t_state := t_state t;
  t_verdict := if eqb (cycle_identity (as_cycle (t_state t))) identity then report else t_verdict t;
  t_verifying := false; t_threads := t_threads t;
|}.

Definition verification_landed (t : Table) (key : Key) (identity : option (DelegationKind * N))
    (report : option VerificationReport) : Table :=
  table_update t key (land_verdict identity report).
End Driver.

(** ** Lemmas *)

Lemma append_log_db_other `{World} e c :
  db_project_settings (c_db (append_log e c).2) = db_project_settings (c_db c).
Proof.
  unfold append_log, bind, sql. destruct (w_fault (c_tick c)); [done|].
  destruct (existsb _ _); [done|]. simpl. unfold execute, sql. by destruct (w_fault _).
Qed.

Section DriverLemmas.
Context `{World} `{AutoWorld}.

Lemma record_log_table key now o rung att reason st :
  ds_table (record_log key now o rung att reason st) = ds_table st.
Proof. reflexivity. Qed.

(** What applying an effect does to the list of rungs handed over. *)
Lemma apply_step_dispatched n s agent key e now st opened st' :
  apply_step n s agent key e now st = (opened, st') ->
  ds_dispatched st' = ds_dispatched st \/
  ds_dispatched st' = ds_dispatched st ++ [key] /\ opened = true /\ is_dispatch e = true.
Proof.
  destruct e; simpl; try (intros [= <- <-]; auto; fail).
  destruct (aw_admit n key a params) as [[|]|e]; intros [= <- <-]; auto.
Qed.

Lemma observe_dispatched n key aw cached now st r st' :
  observe_checkout n key aw cached now st = (r, st') -> ds_dispatched st' = ds_dispatched st.
Proof.
  unfold observe_checkout. destruct (is_some_and _ _); [destruct (match cached with None => _ | _ => _ end)|];
    intros [= <- <-]; done.
Qed.

Lemma read_checkout_dispatched n key tracked busy fl now st r st' :
  read_checkout n key tracked busy fl now st = (r, st') -> ds_dispatched st' = ds_dispatched st.
Proof.
  unfold read_checkout. destruct (match as_cycle _ with None => _ | _ => _ end).
  - apply observe_dispatched.
  - by intros [= <- <-].
Qed.

(** A busy agent is never dispatched to. *)
Lemma busy_no_dispatch tracked readiness fl now :
  is_dispatch (autopilot_step (step_input tracked readiness true fl now)) = false.
Proof.
  set (i := step_input tracked readiness true fl now).
  change (is_dispatch (autopilot_step (on_state (t_state tracked) i)) = false).
  destruct (as_cycle (t_state tracked)) as [c|] eqn:Hc.
  - destruct (as_enrolled (t_state tracked)) eqn:He; [|by rewrite step_not_enrolled].
    destruct (step_with_cycle (t_state tracked) i c He Hc) as [|e _ _ _ ->| | |]; try done.
    by destruct (rung_evidence (cy_rung c)).
  - destruct (step_no_cycle (t_state tracked) i Hc) as [[why ->]|(r & a & p & sg & si & _ & Hok)]; [done|].
    destruct (do_free _ _ _ _ _ _ _ Hok) as [Hb _]. discriminate Hb.
Qed.

Lemma visit_dispatched gen s now n dt key agent st r st' :
  visit gen s now n dt key agent st = (r, st') ->
  ds_dispatched st' = ds_dispatched st \/
  ds_dispatched st' = ds_dispatched st ++ [key] /\ r = Some true /\ key.1 ∉ dt.
Proof.
  unfold visit. destruct (table_enroll (ds_table st) key) as [fresh t].
  set (st1 := if fresh then _ else _).
  assert (ds_dispatched st1 = ds_dispatched st) as E1 by (by unfold st1; destruct fresh).
  clearbody st1. destruct (table_get (ds_table st1) key) as [tracked|]; [|intros [= <- <-]; auto].
  destruct (t_verifying tracked); [intros [= <- <-]; auto|].
  destruct (read_checkout _ _ _ _ _ _ _) as [readiness st2] eqn:Hr.
  apply read_checkout_dispatched in Hr. rewrite <-E1, <-Hr.
  destruct (negb _); [intros [= <- <-]; auto|].
  destruct (apply_step _ _ _ _ _ _ _) as [opened st3] eqn:Ha. intros [= <- <-].
  apply apply_step_dispatched in Ha as [|(E & -> & Hd)]; [auto|]. right. split; [done|]. split; [done|].
  intros Hin. apply lcontains_true in Hin. rewrite Hin, orb_true_r in Hd. by rewrite busy_no_dispatch in Hd.
Qed.

Lemma forget_dispatched s key st : ds_dispatched (forget_checkout s key st) = ds_dispatched st.
Proof.
  unfold forget_checkout. destruct (table_remove _ _) as [was t].
  destruct (agents_by_id !! key.1); [|done]. by destruct was.
Qed.

(** The loop hands at most one rung to an agent, and only to checkouts that are on. *)
Lemma pass_loop_dispatched gen s now n dt keys st :
  NoDup (ds_dispatched st).*1 -> (forall a, a ∈ (ds_dispatched st).*1 -> a ∈ dt) ->
  let st' := pass_loop gen s now n dt keys st in
  NoDup (ds_dispatched st').*1 /\
  forall key, key ∈ ds_dispatched st' -> key ∈ ds_dispatched st \/ is_Some (on_checkouts s !! key).
Proof.
  revert n dt st. induction keys as [|key keys IH]; intros n dt st Hnd Hin; cbv zeta; simpl; [auto|].
  destruct (negb _); [auto|]. destruct (on_checkouts s !! key) as [agent|] eqn:Hon.
  - destruct (visit gen s now n dt key agent st) as [r st'] eqn:Hv.
    apply visit_dispatched in Hv as [E|(E & -> & Hdt)].
    + destruct r as [opened|]; [|by rewrite E; auto]. rewrite <-E.
      apply IH; rewrite E; [done|]. destruct opened; [|done]. intros a Ha. right. by apply Hin.
    + edestruct (IH (S n) (key.1 :: dt) st') as [Hnd' Hkeys].
      * rewrite E, fmap_app. apply NoDup_app. split; [done|]. split; [|apply NoDup_singleton].
        intros a Ha ->%list_elem_of_singleton. by apply Hdt, Hin.
      * intros a. rewrite E, fmap_app, elem_of_app. intros [Ha|Ha%list_elem_of_singleton]; [right; auto|rewrite Ha; left].
      * split; [done|]. intros k Hk. apply Hkeys in Hk as [Hk|]; [|auto].
        rewrite E in Hk. apply elem_of_app in Hk as [|Hk%list_elem_of_singleton]; [auto|rewrite Hk].
        right. by rewrite Hon.
  - pose proof (forget_dispatched s key st) as E. rewrite <-E. apply IH; by rewrite E.
Qed.

Lemma on_checkouts_Some s key a :
  on_checkouts s !! key = Some a ->
  a ∈ aw_agents /\ ar_id a = key.1 /\ key.2 ∈ checkouts a /\ agent_on s (ar_project_id a) (ar_id a) = true.
Proof.
  unfold on_checkouts. set (good := fun (k : Key) b => b ∈ aw_agents /\ ar_id b = k.1 /\
    k.2 ∈ checkouts b /\ agent_on s (ar_project_id b) (ar_id b) = true).
  assert (forall b subs (m : gmap Key AgentRecord), b ∈ aw_agents ->
    agent_on s (ar_project_id b) (ar_id b) = true -> (forall x, x ∈ subs -> x ∈ checkouts b) ->
    (forall k c, m !! k = Some c -> good k c) ->
    forall k c, fold_left (fun m sub => <[(ar_id b, sub) := b]> m) subs m !! k = Some c -> good k c) as Hinner.
  { intros b subs. induction subs as [|x subs IH]; intros m Hb Hon Hsub Hm; simpl; [done|].
    apply IH; [done|done| |].
    - intros y Hy. apply Hsub. by right.
    - intros k c. rewrite lookup_insert_Some. intros [[<- <-]|[_ Hc]]; [|by apply Hm].
      split; [done|]. split; [done|]. split; [apply Hsub; left|done]. }
  assert (forall l (m : gmap Key AgentRecord), (forall b, b ∈ l -> b ∈ aw_agents) ->
    (forall k c, m !! k = Some c -> good k c) ->
    forall k c, fold_left (fun m a => if agent_on s (ar_project_id a) (ar_id a)
      then fold_left (fun m sub => <[(ar_id a, sub) := a]> m) (checkouts a) m else m) l m !! k = Some c ->
    good k c) as Hgen.
  { induction l as [|b l IH]; intros m Hl Hm; simpl; [done|].
    apply IH; [intros; apply Hl; by right|].
    destruct (agent_on s (ar_project_id b) (ar_id b)) eqn:Hon; [|done].
    apply Hinner; [apply Hl; left|done|done|done]. }
  apply Hgen; [done|]. by intros k c ?%lookup_empty_Some.
Qed.
End DriverLemmas.

(** ** The table's invariant *)

Definition tracked_ok (t : Tracked) : Prop := wf_policy (t_state t) /\ as_enrolled (t_state t) = true.

Definition wf_table (t : Table) : Prop :=
  sorted key_le (tb_inner t) /\ forall k tr, table_get t k = Some tr -> tracked_ok tr.

(** What other tasks may do while a pass awaits: land verdicts and re-read threads, which keep
    every policy state; or write a switch, which bumps the generation. *)
Definition other_tasks (f : Table -> Table) : Prop := forall t, wf_table t ->
  wf_table (f t) /\
  (tb_generation (f t) = tb_generation t ->
   forall k, t_state <$> table_get (f t) k = t_state <$> table_get t k).

Lemma get_table_update t key f k :
  table_get (table_update t key f) k = (if eqb k key then f else Datatypes.id) <$> table_get t k.
Proof.
  unfold table_get, table_update. simpl. destruct (eqb k key) eqn:E.
  - apply eqb_eq in E as ->. apply get_update_eq.
  - apply eqb_neq in E. rewrite get_update_ne by done. by destruct (get k _).
Qed.

Lemma wf_table_update t key f :
  wf_table t -> (forall tr, table_get t key = Some tr -> tracked_ok tr -> tracked_ok (f tr)) ->
  wf_table (table_update t key f).
Proof.
  intros [Hs Hok] Hf. split; [by apply sorted_update|]. intros k tr. rewrite get_table_update.
  intros (x & Hx & ->)%fmap_Some. destruct (eqb k key) eqn:E; [|by eapply Hok].
  apply eqb_eq in E as ->. eapply Hf; [done|by eapply Hok].
Qed.

(** An update that keeps the policy state is another task's. *)
Lemma update_other_tasks key f :
  (forall tr, t_state (f tr) = t_state tr) -> other_tasks (fun t => table_update t key f).
Proof.
  intros Hf t Hwf. split.
  - apply wf_table_update; [done|]. intros tr _. unfold tracked_ok. by rewrite Hf.
  - intros _ k. rewrite get_table_update. destruct (table_get t k) as [tr|]; [|done].
    simpl. destruct (eqb k key); simpl; by rewrite ?Hf.
Qed.

Lemma wf_table_enroll t key : wf_table t -> wf_table (table_enroll t key).2.
Proof.
  intros [Hs Hok]. unfold table_enroll. destruct (contains_key _ _); [done|].
  split; simpl; [apply sorted_insert; try apply _; done|]. intros k tr. unfold table_get. simpl.
  destruct (decide (key = k)) as [->|Hne].
  - rewrite get_insert_eq. intros [= <-]. split; [apply wf_enrolled|done].
  - rewrite get_insert_ne by done. apply Hok.
Qed.

Lemma wf_table_remove t key : wf_table t -> wf_table (table_remove t key).2.
Proof.
  intros [Hs Hok]. split; simpl; [by apply sorted_remove|]. intros k tr. unfold table_get. simpl.
  destruct (decide (key = k)) as [->|Hne]; [by rewrite get_remove_eq|].
  rewrite get_remove_ne by done. apply Hok.
Qed.

Section Invariant.
Context `{World} `{AutoWorld}.
Context (Hreads : forall n, other_tasks (aw_during_reads n)).
Context (Hsends : forall n, other_tasks (aw_during_dispatch n)).

Lemma other_tasks_compose f g : other_tasks f -> other_tasks g ->
  (forall t, tb_generation (g t) = tb_generation t) -> other_tasks (fun t => g (f t)).
Proof.
  intros Hf Hg Hgen t Hwf. destruct (Hf t Hwf) as [Hwf1 Hst1]. destruct (Hg _ Hwf1) as [Hwf2 Hst2].
  split; [done|]. rewrite Hgen. intros E k. rewrite Hst2 by apply Hgen. by apply Hst1.
Qed.

Lemma read_checkout_table n key tracked busy fl now st r st' :
  read_checkout n key tracked busy fl now st = (r, st') ->
  exists f, other_tasks f /\ ds_table st' = f (ds_table st).
Proof.
  assert (other_tasks Datatypes.id) as Hid by (by intros t Hwf).
  unfold read_checkout. destruct (match as_cycle _ with None => _ | _ => _ end);
    [|intros [= <- <-]; by exists Datatypes.id].
  unfold observe_checkout.
  destruct (is_some_and _ _); [destruct (match t_threads tracked with None => _ | _ => _ end)|];
    intros [= <- <-]; simpl.
  - exists (fun t => table_update (aw_during_reads n t) key
      (set_threads {| th_at := now; th_comments := aw_threads n key |})). split; [|done].
    apply (other_tasks_compose (aw_during_reads n) (fun t => table_update t key
      (set_threads {| th_at := now; th_comments := aw_threads n key |}))); [done| |done].
    by apply update_other_tasks.
  - by exists (aw_during_reads n).
  - by exists (aw_during_reads n).
Qed.

(** Applying the effect decided on a state to a table where that state still stands. *)
Lemma apply_step_wf n s agent key tracked i now st opened st' :
  wf_table (ds_table st) -> t_state <$> table_get (ds_table st) key = Some (t_state tracked) ->
  now = ai_now i ->
  apply_step n s agent key (autopilot_step (on_state (t_state tracked) i)) now st = (opened, st') ->
  wf_table (ds_table st').
Proof.
  intros Hwf Hst ->. set (e := autopilot_step _).
  assert (forall f, (forall tr, t_state (f tr) = perform (ai_now i) e (t_state tr)) ->
    wf_table (table_update (ds_table st) key f)) as Hupd.
  { intros f Hf. apply wf_table_update; [done|]. intros tr Htr [Hpol Hen]. rewrite Htr in Hst.
    injection Hst as Hst. unfold tracked_ok. rewrite Hf, Hst in *. split.
    - apply (wf_step_state (t_state tracked) i Hpol).
    - by destruct e; simpl; try destruct (as_cycle (t_state tracked)). }
  destruct e; simpl; try (intros [= <- <-]; simpl; by apply Hupd); try (by intros [= <- <-]).
  destruct (aw_admit n key a params) as [[|]|msg]; intros [= <- <-]; simpl; try done.
  - apply Hsends. by apply Hupd.
  - by apply Hupd.
Qed.

Lemma visit_wf gen s now n dt key agent st r st' :
  wf_table (ds_table st) -> tb_generation (ds_table st) = gen ->
  visit gen s now n dt key agent st = (r, st') -> wf_table (ds_table st').
Proof.
  intros Hwf Hgen. unfold visit. pose proof (wf_table_enroll _ key Hwf) as Hwf1.
  assert (tb_generation (table_enroll (ds_table st) key).2 = gen) as Hgen1.
  { unfold table_enroll. by destruct (contains_key _ _). }
  destruct (table_enroll (ds_table st) key) as [fresh t]. simpl in *.
  set (st1 := if fresh then _ else _). assert (ds_table st1 = t) as E1 by (by unfold st1; destruct fresh).
  clearbody st1. rewrite E1. destruct (table_get t key) as [tracked|] eqn:Hget;
    [|intros [= <- <-]; by rewrite E1].
  destruct (t_verifying tracked); [intros [= <- <-]; by rewrite E1|].
  destruct (read_checkout _ _ _ _ _ _ _) as [readiness st2] eqn:Hr.
  destruct (read_checkout_table _ _ _ _ _ _ _ _ _ Hr) as (f & Hf & E2).
  rewrite E1 in E2. destruct (Hf t Hwf1) as [Hwf2 Hst2].
  destruct (negb _) eqn:Hg; [intros [= <- <-]; by rewrite E2|].
  apply negb_false_iff, N.eqb_eq in Hg.
  destruct (apply_step _ _ _ _ _ _ _) as [opened st3] eqn:Ha. intros [= <- <-].
  eapply (apply_step_wf n s agent key tracked (step_input tracked readiness
    (aw_busy n key.1 || lcontains dt key.1) (aw_delegation_live n key) now) now st2); [| |done|exact Ha].
  - by rewrite E2.
  - rewrite E2, Hst2; [by rewrite Hget|]. rewrite <-E2. congruence.
Qed.

Lemma forget_wf s key st : wf_table (ds_table st) -> wf_table (ds_table (forget_checkout s key st)).
Proof.
  intros Hwf. apply (wf_table_remove _ key) in Hwf. unfold forget_checkout.
  destruct (table_remove (ds_table st) key) as [was t]. simpl in Hwf.
  destruct (agents_by_id !! key.1); [|done]. by destruct was.
Qed.

Lemma pass_loop_wf gen s now n dt keys st :
  wf_table (ds_table st) -> wf_table (ds_table (pass_loop gen s now n dt keys st)).
Proof.
  revert n dt st. induction keys as [|key keys IH]; intros n dt st Hwf; simpl; [done|].
  destruct (negb _) eqn:Hg; [done|]. apply negb_false_iff, N.eqb_eq in Hg.
  destruct (on_checkouts s !! key) as [agent|].
  - destruct (visit gen s now n dt key agent st) as [[opened|] st'] eqn:Hv.
    + apply IH. by eapply visit_wf.
    + by eapply visit_wf.
  - apply IH. by apply forget_wf.
Qed.
End Invariant.

(** ** Properties *)

(** A pass hands at most one rung to an agent, and only for a checkout of a live agent whose
    project is on and which is not paused, by switches the pass read; when the switches cannot
    be read it does nothing at all. *)
Theorem pass_dispatches `{World} `{JsonStrings} `{AutoWorld} now st :
  ds_dispatched st = [] ->
  let st' := autopilot_run_pass now st in
  match (read_switches (ds_conn st)).1 with
  | Err _ => ds_table st' = ds_table st /\ ds_rows st' = ds_rows st /\ ds_dispatched st' = []
  | Ok s =>
      NoDup (ds_dispatched st').*1 /\
      forall key, key ∈ ds_dispatched st' -> exists a, a ∈ aw_agents /\ ar_id a = key.1 /\
        key.2 ∈ checkouts a /\ agent_on s (ar_project_id a) (ar_id a) = true
  end.
Proof.
  intros Hst. unfold autopilot_run_pass. destruct (read_switches (ds_conn st)) as [[s|e] conn]; simpl; [|done].
  set (st0 := Build_DriverState _ _ _ _ _).
  destruct (pass_loop_dispatched (tb_generation (ds_table st)) s now 0 []
    (pass_checkouts (ds_table st) s) st0) as [Hnd Hin].
  - simpl. rewrite Hst. constructor.
  - simpl. rewrite Hst. done.
  - split; [done|]. intros key Hkey. apply Hin in Hkey as [Hk|[a Ha]].
    + simpl in Hk. rewrite Hst in Hk. by apply elem_of_nil in Hk.
    + exists a. by apply on_checkouts_Some in Ha.
Qed.

(** Whatever lands while it awaits, a pass keeps the table sound: sorted, and every tracked
    checkout's policy state within its budgets. *)
Theorem pass_keeps_table `{World} `{JsonStrings} `{AutoWorld} now st :
  (forall n, other_tasks (aw_during_reads n)) -> (forall n, other_tasks (aw_during_dispatch n)) ->
  wf_table (ds_table st) -> wf_table (ds_table (autopilot_run_pass now st)).
Proof.
  intros Hreads Hsends Hwf. unfold autopilot_run_pass.
  destruct (read_switches (ds_conn st)) as [[s|e] conn]; [|done]. by apply pass_loop_wf.
Qed.

(** A world with one free agent of two checkouts, both with a failing check. *)
Definition witness_world : AutoWorld := {|
  aw_agents := [{| ar_id := "a"; ar_project_id := "p"; ar_repos := ["app"; "lib"]; ar_archived := false |}];
  aw_busy _ _ := false;
  aw_delegation_live _ _ := false;
  aw_git _ _ := Some witness_git;
  aw_pr _ _ := Some {| live_state := witness_pr; live_checks := Some (witness_checks Blocked ["ci"]) |};
  aw_threads _ _ := None;
  aw_admit _ _ _ _ := Ok true;
  aw_dispatch _ _ := Ok ();
  aw_during_reads _ t := t;
  aw_during_dispatch _ t := t;
|}.

Definition witness_driver : DriverState := {|
  ds_table := table_default; ds_conn := {| c_db := witness_projects; c_tick := 0 |};
  ds_rows := []; ds_events := []; ds_dispatched := [];
|}.

Lemma pass_dispatches_witness :
  let st' := @autopilot_run_pass (calm_world show_nat) witness_world coded_json 100 witness_driver in
  ds_dispatched st' = [("a", None)] /\ NoDup (ds_dispatched st').*1.
Proof.
  split; [vm_compute; reflexivity|].
  exact (proj1 (@pass_dispatches (calm_world show_nat) coded_json witness_world 100 witness_driver eq_refl)).
Defined.

Lemma pass_keeps_table_witness :
  wf_table (ds_table (@autopilot_run_pass (calm_world show_nat) witness_world coded_json 100 witness_driver)).
Proof.
  apply (@pass_keeps_table (calm_world show_nat) coded_json witness_world).
  - intros n t Hwf. split; [exact Hwf|reflexivity].
  - intros n t Hwf. split; [exact Hwf|reflexivity].
  - split; [constructor|]. intros k tr Hk. discriminate Hk.
Defined.

Lemma switch_agent_tracked s rec st k :
  table_contains (switch_agent s st rec).1 k = true -> table_contains st.1 k = true /\
  (agent_on s (ar_project_id rec) (ar_id rec) = false -> k.1 = ar_id rec -> k.2 ∉ checkouts rec).
Proof.
  unfold switch_agent. generalize (agent_on s (ar_project_id rec) (ar_id rec)) as on. intros on.
  revert st. induction (checkouts rec) as [|sub subs IH]; intros st; simpl.
  { intros Hk. split; [done|]. intros _ _. by apply not_elem_of_nil. }
  intros [Hk Hout]%IH. destruct st as [t rows]. simpl in *.
  assert (table_contains t k = true /\ (on = false -> k <> (ar_id rec, sub))) as [Ht Hne].
  { destruct on; [by split|]. unfold table_contains, contains_key in *. simpl in Hk.
    destruct (decide ((ar_id rec, sub) = k)) as [<-|Hd]; [by rewrite get_remove_eq in Hk|].
    rewrite get_remove_ne in Hk by done. split; [done|]. intros _ ->. done. }
  split; [done|]. intros Hon Hk1. apply not_elem_of_cons. split; [|by apply Hout].
  intros Hk2. apply (Hne Hon). destruct k. simpl in *. by subst.
Qed.

Lemma switch_agents_tracked s recs st k :
  table_contains (fold_left (switch_agent s) recs st).1 k = true ->
  table_contains st.1 k = true /\
  forall rec, rec ∈ recs -> agent_on s (ar_project_id rec) (ar_id rec) = false ->
    k.1 = ar_id rec -> k.2 ∉ checkouts rec.
Proof.
  revert st. induction recs as [|rec recs IH]; intros st; simpl.
  { intros Hk. split; [done|]. by intros rec ?%elem_of_nil. }
  intros [Hk Hrest]%IH. apply switch_agent_tracked in Hk as [Hk Hrec]. split; [done|].
  intros r [->|Hr]%elem_of_cons; auto.
Qed.

Lemma switch_agents_generation s recs st :
  tb_generation (fold_left (switch_agent s) recs st).1 = tb_generation st.1.
Proof.
  revert st. induction recs as [|rec recs IH]; intros st; simpl; [done|]. rewrite IH. clear IH.
  unfold switch_agent. generalize (agent_on s (ar_project_id rec) (ar_id rec)) as on. intros on.
  revert st. induction (checkouts rec) as [|sub subs IH]; intros st; simpl; [done|].
  rewrite IH. destruct st as [t rows]. by destruct on.
Qed.

(** Switching off takes effect before the op returns: when a project is switched off, none of
    its live agents' checkouts is tracked any more, so none is pre-authorized to push, and the
    generation moved, which stops a pass in flight. *)
Theorem switch_off_immediate `{World} `{JsonStrings} agents lookup t p t' rows snap c c' rec sub :
  autopilot_set agents lookup t (Some p) None false c = (Ok (t', rows, snap), c') ->
  rec ∈ live_agents agents -> ar_project_id rec = trim p -> sub ∈ checkouts rec ->
  autopilot_pre_authorizes t' (ar_id rec) sub "git_push" = false /\
  tb_generation t' = ((tb_generation t + 1) mod 2 ^ 64)%N.
Proof.
  intros Hset Hrec Hp Hsub. unfold autopilot_set in Hset. cbn [clean_arg fmap option_fmap option_map] in Hset.
  unfold clean_arg in Hset. simpl in Hset.
  destruct (negb (is_empty (trim p))); [|by apply bind_Ok in Hset as (? & ? & ? & ?)].
  apply bind_Ok in Hset as (affected & c1 & Haff & Hset).
  apply bind_Ok in Haff as (u & c0 & Hpr & Haff). injection Haff as <- <-.
  apply bind_Ok in Hset as (s & c2 & Hs & Hset). apply read_switches_Ok in Hs.
  destruct (fold_left (switch_agent s) _ _) as [t1 rows1] eqn:Hfold.
  injection Hset as <- <- <- <-.
  assert (project_on s (trim p) = false) as Hoff.
  { apply upsert_project_setting_Ok in Hpr as [Hpr _].
    rewrite Hs, project_on_disabled, Hpr, lookup_insert_eq. done. }
  assert (rec ∈ lfilter (fun a => String.eqb (ar_project_id a) (trim p)) (live_agents agents)) as Hin.
  { apply elem_of_lfilter. split; [done|]. by apply String.eqb_eq. }
  pose proof (switch_agents_tracked s (lfilter (fun a => String.eqb (ar_project_id a) (trim p))
    (live_agents agents)) (table_bump t, []) (ar_id rec, sub)) as Htr.
  pose proof (switch_agents_generation s (lfilter (fun a => String.eqb (ar_project_id a) (trim p))
    (live_agents agents)) (table_bump t, [])) as Hg.
  rewrite Hfold in Htr, Hg. simpl in Htr, Hg. split; [|done].
  unfold autopilot_pre_authorizes. simpl. destruct (table_contains t1 (ar_id rec, sub)) eqn:E; [|done].
  exfalso. destruct (Htr eq_refl) as [_ Hall]. apply (Hall rec Hin); [|done|done].
  unfold agent_on. rewrite Hp, Hoff. done.
Qed.

Lemma switch_off_immediate_witness :
  let rec := {| ar_id := "a"; ar_project_id := "p"; ar_repos := ["app"]; ar_archived := false |} in
  let t := (table_enroll table_default ("a", None)).2 in
  exists t', autopilot_pre_authorizes t "a" None "git_push" = true /\
    autopilot_pre_authorizes t' "a" None "git_push" = false.
Proof.
  set (rec := {| ar_id := "a"; ar_project_id := "p"; ar_repos := ["app"]; ar_archived := false |}).
  eexists. split; [vm_compute; reflexivity|].
  refine (proj1 (@switch_off_immediate (calm_world show_nat) coded_json [rec] (fun _ => Err "none")
    (table_enroll table_default ("a", None)).2 "p" _ _ _
    {| c_db := witness_projects; c_tick := 0 |} _ rec None _ _ _ _)).
  - vm_compute. reflexivity.
  - left.
  - vm_compute. reflexivity.
  - left.
Defined.

(** A verdict is identified by rung and attempt alone, so one started for a cycle that was since
    forgotten (its checkout switched off and on) lands on the next cycle of the same rung. *)
Lemma stale_verdict_lands report :
  let key : Key := ("a", None) in
  let dispatched t := table_update t key (open_tracked FixChecks "world-1" "s" 0) in
  let verifying := table_update (dispatched (table_enroll table_default key).2) key (start_verifying 1) in
  let identity := table_get verifying key ≫= fun tr => cycle_identity (as_cycle (t_state tr)) in
  let reenrolled := (table_enroll (table_remove verifying key).2 key).2 in
  let next := table_update reenrolled key (open_tracked FixChecks "world-2" "s" 9) in
  table_get (verification_landed next key identity (Some report)) key ≫= t_verdict = Some report.
Proof. vm_compute. reflexivity. Qed.
