(* ===== verification/Deps.v ===== *)
(** * Dependency-graph rules

    Models src/crates/fletch-core/src/roadmap/deps.rs: which codes an item may depend on, and
    the search for a dependency loop. The graph is a [BTreeMap] from code to deps; the search
    keeps a path and a set of settled codes, and recurses at most once per code of the graph,
    so [S (length graph)] steps of fuel always suffice ([find_cycle_fuel]). *)

From S2P Require Import Prelude RustStr BTree Board.

Local Open Scope string_scope.
Local Open Scope list_scope.

Abbreviation Graph := (list (string * list string)) (only parsing).

Definition BATCH_PREFIX : Ascii.ascii := Ascii.ascii_of_N 35.
Definition LISTED : nat := 12.

Definition graph_of (items : list RoadmapItem) : Graph :=
  collect String.le ((fun i => (it_code i, it_deps i)) <$> items).

Definition rejected_of (items : list RoadmapItem) : gset string :=
  list_to_set (it_code <$> lfilter (fun i => eqb (it_status i) Rejected) items).

Definition placeholder (index : nat) : string := String BATCH_PREFIX (show_nat (S index)).

(** [dep.strip_prefix('#')?.trim().parse().ok()?], then 1-based. *)
Definition batch_index (dep : string) (batch_len : nat) : option nat :=
  let_some rest := strip_prefix (String BATCH_PREFIX "") dep or None in
  let_some n := parse_usize (trim rest) or None in
  if ((1 <=? n) && (n <=? N.of_nat batch_len))%N then Some (N.to_nat n - 1) else None.

(** ** The search *)

(** The result of a walk: the loop it closed, or the settled codes. *)
Inductive Walk := Loop (cycle : list string) | Settled (settled : list string).

(** The loop over a code's deps, [w] walking one of them. *)
Fixpoint walk_each (w : string -> list string -> option Walk) (deps settled : list string)
    : option Walk :=
  match deps with
  | [] => Some (Settled settled)
  | dep :: deps =>
      match w dep settled with
      | Some (Settled settled) => walk_each w deps settled
      | r => r
      end
  end.

(** [None] when out of fuel. *)
Fixpoint walk (fuel : nat) (graph : Graph) (at_ : string) (path settled : list string) : option Walk :=
  match fuel with
  | O => None
  | S fuel =>
      match lposition (fun p => String.eqb p at_) path with
      | Some from => Some (Loop (drop from path ++ [at_]))
      | None =>
          if lcontains settled at_ then Some (Settled settled)
          else
          match walk_each (fun dep settled => walk fuel graph dep (path ++ [at_]) settled)
                          (default [] (get at_ graph)) settled with
          | Some (Settled settled) => Some (Settled (at_ :: settled))
          | r => r
          end
      end
  end.

Definition find_cycle (graph : Graph) (start : string) : option (list string) :=
  match walk (S (length graph)) graph start [] [] with
  | Some (Loop cycle) => Some cycle
  | _ => None
  end.

(** ** Messages *)

Definition loop_path (cycle : list string) : string := join " → " cycle.

Definition loop_message (code : string) (cycle : list string) : string :=
  let path := loop_path cycle in
  if is_some_and (head cycle) (fun first => String.eqb first code)
  then code +:+ " can't depend on " +:+ default code (cycle !! 1)
       +:+ ": that closes a dependency loop — " +:+ path
       +:+ ". Nothing in a loop is ever built, because each item waits on the next."
  else code +:+ " would wait on a dependency loop — " +:+ path
       +:+ ". Nothing in a loop is ever built, so that chain has to be broken first.".

Definition rejected_code (dep : string) : string :=
  dep +:+ " was rejected — remove it or reopen it first; a rejected item never satisfies a dependency, so anything waiting on it would sit wedged".

Definition unknown_code (dep : string) (graph : Graph) (batch_note : string) : string :=
  match graph with
  | [] => "`deps` names " +:+ debug_str dep +:+ ", and this board has no items to depend on yet"
  | _ =>
      let codes := graph.*1 in
      let extra := (length codes - LISTED)%nat in
      let listed := join ", " (take LISTED codes)
                    +:+ (if (0 <? extra)%nat then ", and " +:+ show_nat extra +:+ " more" else "") in
      "`deps` names " +:+ debug_str dep +:+ ", which is not an item on this board" +:+ batch_note
      +:+ " — the codes on it are " +:+ listed
  end.

(** ** The rules *)

Fixpoint check_codes (graph : Graph) (rejected : gset string) (code : option string)
    (deps : list string) (batch_note : string) : result () string :=
  match deps with
  | [] => Ok ()
  | d :: deps =>
      if eqb code (Some d) then Err (d +:+ " cannot depend on itself")
      else if negb (contains_key d graph) then Err (unknown_code d graph batch_note)
      else if bool_decide (d ∈ rejected) then Err (rejected_code d)
      else check_codes graph rejected code deps batch_note
  end.

Definition validate_new (graph : Graph) (rejected : gset string) (deps : list string)
    : result () string :=
  check_codes graph rejected None deps "".

Definition validate_edit (graph : Graph) (rejected : gset string) (code : string)
    (deps : list string) : result () string :=
  let? _ := check_codes graph rejected (Some code) deps "" in
  let after := insert String.le code deps graph in
  match find_cycle after code with
  | Some cycle => Err (loop_message code cycle)
  | None => Ok ()
  end.

Record BatchRefusal := { br_at : nat; br_message : string }.

Definition BATCH_NOTE : string :=
  ", and not a " +:+ dq +:+ "#n" +:+ dq +:+ " reference to an item in this batch".

(** The checks of one batch item's deps. *)
Fixpoint check_batch_deps (graph : Graph) (rejected : gset string) (batch_len n : nat)
    (deps : list string) : result () BatchRefusal :=
  match deps with
  | [] => Ok ()
  | d :: deps =>
      let refuse m := Err {| br_at := n; br_message := m |} in
      if starts_with (String BATCH_PREFIX "") d then
        match batch_index d batch_len with
        | None => refuse ("`deps` names " +:+ debug_str d +:+ ", which is not an item in this batch — a batch reference is "
                          +:+ dq +:+ "#1" +:+ dq +:+ " to " +:+ dq +:+ "#" +:+ show_nat batch_len +:+ dq
                          +:+ ", counting the items in the order you sent them")
        | Some position =>
            if (position =? n)%nat
            then refuse (d +:+ " is this item — an item cannot depend on itself")
            else check_batch_deps graph rejected batch_len n deps
        end
      else if negb (contains_key d graph) then refuse (unknown_code d graph BATCH_NOTE)
      else if bool_decide (d ∈ rejected) then refuse (rejected_code d)
      else check_batch_deps graph rejected batch_len n deps
  end.

(** The first loop of [validate_batch]: each item's deps are checked against the board, then
    joined to the merged graph under its placeholder. *)
Fixpoint merge_batch (graph : Graph) (rejected : gset string) (batch_len n : nat)
    (batch : list (list string)) (merged : Graph) : result Graph BatchRefusal :=
  match batch with
  | [] => Ok merged
  | deps :: batch =>
      let? _ := check_batch_deps graph rejected batch_len n deps in
      merge_batch graph rejected batch_len (S n) batch (insert String.le (placeholder n) deps merged)
  end.

(** The second: no placeholder starts a loop. *)
Fixpoint check_batch_loops (merged : Graph) (ns : list nat) : result () BatchRefusal :=
  match ns with
  | [] => Ok ()
  | n :: ns =>
      match find_cycle merged (placeholder n) with
      | Some cycle => Err {| br_at := n; br_message := loop_message (placeholder n) cycle |}
      | None => check_batch_loops merged ns
      end
  end.

Definition validate_batch (graph : Graph) (rejected : gset string) (batch : list (list string))
    : result () BatchRefusal :=
  let? merged := merge_batch graph rejected (length batch) 0 batch graph in
  check_batch_loops merged (seq 0 (length batch)).

(** src/crates/fletch-core/src/rpc/roadmap/intake.rs: once every row of a batch exists, its
    references become codes. *)
Definition resolve_batch_deps (raw : list string) (codes : list string) : list string :=
  (fun d => match batch_index d (length codes) with
            | Some i => default d (codes !! i)
            | None => d
            end) <$> raw.

(** ** Edges, loops *)

Definition edge (g : Graph) (x y : string) : Prop := exists deps, get x g = Some deps /\ y ∈ deps.

(** Consecutive elements are edges. *)
Fixpoint chain (g : Graph) (l : list string) : Prop :=
  match l with
  | x :: (y :: _) as l => edge g x y /\ chain g l
  | _ => True
  end.

(** A loop as the message shows it: from a code back to itself along deps. *)
Definition is_loop (g : Graph) (l : list string) : Prop :=
  exists x, head l = Some x /\ last l = Some x /\ 2 <= length l /\ chain g l.

Definition acyclic (g : Graph) : Prop := forall x, ~ tc (edge g) x x.

Lemma chain_app_singleton g l x y : chain g (l ++ [x]) -> edge g x y -> chain g ((l ++ [x]) ++ [y]).
Proof.
  induction l as [|a l IH]; simpl; [done|]. intros Hc Hxy.
  destruct l as [|b l]; simpl in *; [by destruct Hc|]. destruct Hc as [Hab Hc].
  split; [done|]. by apply IH.
Qed.

Lemma chain_drop g l n : chain g l -> chain g (drop n l).
Proof.
  revert n. induction l as [|x l IH]; intros [|n] Hc; simpl; try done.
  apply IH. destruct l; [done|]. apply Hc.
Qed.

Lemma chain_rtc g l x y : chain g l -> head l = Some x -> last l = Some y -> rtc (edge g) x y.
Proof.
  revert x. induction l as [|a l IH]; intros x Hc Hx Hy; [done|]. injection Hx as ->.
  destruct l as [|b l]; [injection Hy as ->; apply rtc_refl|]. destruct Hc as [Hab Hc].
  rewrite last_cons_cons in Hy. eapply rtc_l; [done|]. by apply IH.
Qed.

Lemma loop_tc g l x : chain g l -> head l = Some x -> last l = Some x -> 2 <= length l -> tc (edge g) x x.
Proof.
  destruct l as [|a [|b l]]; cbn [length]; try lia. intros [Hab Hc] [= ->] Hl _.
  rewrite last_cons_cons in Hl. eapply tc_rtc_r; [by apply tc_once|]. by eapply chain_rtc.
Qed.

(** Codes settled so that each one's deps were settled before it. *)
Fixpoint topo (g : Graph) (l : list string) : Prop :=
  match l with
  | [] => True
  | x :: l => (forall y, edge g x y -> y ∈ l) /\ topo g l
  end.

Lemma topo_closed g l x y : topo g l -> x ∈ l -> edge g x y -> y ∈ l.
Proof.
  induction l as [|a l IH]; [by intros _ ?%elem_of_nil|]. intros [Ha Hl] Hx Hxy.
  apply elem_of_cons in Hx as [->|Hx]; right; auto.
Qed.

Lemma topo_closed_rtc g l x y : topo g l -> rtc (edge g) x y -> x ∈ l -> y ∈ l.
Proof. intros Hl. induction 1; eauto using topo_closed. Qed.

(** No settled code reaches itself. *)
Lemma topo_acyclic g l x : topo g l -> x ∈ l -> ~ tc (edge g) x x.
Proof.
  induction l as [|a l IH]; [by intros _ ?%elem_of_nil|]. intros [Ha Hl] Hx Hc.
  destruct (decide (x ∈ l)) as [Hin|Hout]; [by apply (IH Hl Hin)|].
  apply elem_of_cons in Hx as [->|]; [|done].
  inversion Hc as [? ? Haa|? b ? Hab Hba]; subst.
  - by apply Hout, Ha.
  - apply Hout. eapply topo_closed_rtc; [done|by apply tc_rtc|by apply Ha].
Qed.

Lemma walk_each_spec g w at_ start deps settled :
  (forall d s, edge g at_ d -> topo g s ->
     match w d s with
     | None => False
     | Some (Loop c) => is_loop g c /\ exists x, head c = Some x /\ rtc (edge g) start x
     | Some (Settled s') => topo g s' /\ d ∈ s' /\ s ⊆ s'
     end) ->
  (forall d, d ∈ deps -> edge g at_ d) -> topo g settled ->
  match walk_each w deps settled with
  | None => False
  | Some (Loop c) => is_loop g c /\ exists x, head c = Some x /\ rtc (edge g) start x
  | Some (Settled s') => topo g s' /\ (forall d, d ∈ deps -> d ∈ s') /\ settled ⊆ s'
  end.
Proof.
  intros Hw. revert settled. induction deps as [|d deps IH]; intros settled Hdeps Htopo; simpl.
  { split; [done|]. split; [by intros d ?%elem_of_nil|done]. }
  specialize (Hw d settled (Hdeps d (list_elem_of_here _ _)) Htopo).
  destruct (w d settled) as [[c|s1]|]; [done| |done]. destruct Hw as (Ht1 & Hd1 & Hs1).
  assert (forall d', d' ∈ deps -> edge g at_ d') as Hdeps' by (intros; apply Hdeps; by right).
  specialize (IH s1 Hdeps' Ht1). destruct (walk_each w deps s1) as [[c|s2]|]; [done| |done].
  destruct IH as (Ht2 & Hd2 & Hs2). split; [done|]. split; [|by etrans].
  intros d' [->|Hd']%elem_of_cons; auto.
Qed.

Lemma edge_key g x y : edge g x y -> x ∈ g.*1.
Proof.
  intros (deps & Hx & _). destruct (decide (x ∈ g.*1)) as [|Hn]; [done|].
  apply get_None in Hn. congruence.
Qed.

(** A walk with enough fuel returns, and either closes a loop it reached or settles its code. *)
Lemma walk_spec fuel g at_ path settled start :
  topo g settled -> chain g (path ++ [at_]) -> head (path ++ [at_]) = Some start ->
  NoDup path -> path ⊆ g.*1 -> S (length g) <= fuel + length path ->
  match walk fuel g at_ path settled with
  | None => False
  | Some (Loop c) => is_loop g c /\ exists x, head c = Some x /\ rtc (edge g) start x
  | Some (Settled s') => topo g s' /\ at_ ∈ s' /\ settled ⊆ s'
  end.
Proof.
  revert at_ path settled. induction fuel as [|fuel IH]; intros at_ path settled Ht Hch Hstart Hnd Hsub Hf.
  { assert (length path <= length g.*1) by (by apply submseteq_length, NoDup_submseteq).
    rewrite length_fmap in *. simpl in *. lia. }
  simpl. destruct (lposition _ path) as [from|] eqn:Hpos.
  { apply lposition_Some in Hpos as (x & Hx & ->%String.eqb_eq).
    pose proof (lookup_lt_Some _ _ _ Hx) as Hlt.
    assert (drop from (path ++ [at_]) = drop from path ++ [at_]) as Hd by (apply drop_app_le; lia).
    assert (head (drop from path ++ [at_]) = Some at_) as Hhead by (by rewrite (drop_S _ _ _ Hx)).
    split.
    - exists at_. split; [done|]. split; [by rewrite last_snoc|].
      split; [rewrite length_app, length_drop; simpl; lia|]. rewrite <-Hd. by apply chain_drop.
    - exists at_. split; [done|]. eapply chain_rtc; [exact Hch|exact Hstart|by rewrite last_snoc]. }
  rewrite lposition_None in Hpos.
  assert (at_ ∉ path) as Hout.
  { intros Hin. apply Hpos in Hin. by rewrite String.eqb_refl in Hin. }
  destruct (lcontains settled at_) eqn:Hset; [apply lcontains_true in Hset; done|].
  assert (forall d, d ∈ default [] (get at_ g) -> edge g at_ d) as Hedges.
  { intros d. destruct (get at_ g) as [deps|] eqn:Hg; simpl; [|by intros ?%elem_of_nil].
    intros Hd. by exists deps. }
  assert (forall d s, edge g at_ d -> topo g s ->
    match walk fuel g d (path ++ [at_]) s with
    | None => False
    | Some (Loop c) => is_loop g c /\ exists x, head c = Some x /\ rtc (edge g) start x
    | Some (Settled s') => topo g s' /\ d ∈ s' /\ s ⊆ s'
    end) as Hw.
  { intros d s Hd Hs. apply IH; [done| | | | |].
    - by apply chain_app_singleton.
    - by destruct path.
    - apply NoDup_app. split; [done|]. split; [|apply NoDup_singleton]. by intros x Hx ->%list_elem_of_singleton.
    - intros x [Hx|Hx%list_elem_of_singleton]%elem_of_app; [auto|]. rewrite Hx. by eapply edge_key.
    - rewrite length_app. simpl. lia. }
  pose proof (walk_each_spec g (fun dep s => walk fuel g dep (path ++ [at_]) s) at_ start
    (default [] (get at_ g)) settled Hw Hedges Ht) as Heach. clear Hw.
  destruct (walk_each _ _ settled) as [[c|s']|]; [done| |done]. destruct Heach as (Ht' & Hd' & Hs').
  split; [|split; [left|intros x Hx; right; auto]]. split; [|done].
  intros y (deps & Hg & Hy). apply Hd'. by rewrite Hg.
Qed.

Lemma find_cycle_cases g s :
  match find_cycle g s with
  | Some c => is_loop g c /\ exists x, head c = Some x /\ rtc (edge g) s x
  | None => forall x, rtc (edge g) s x -> ~ tc (edge g) x x
  end.
Proof.
  unfold find_cycle.
  pose proof (walk_spec (S (length g)) g s [] [] s) as Hw.
  destruct (walk (S (length g)) g s [] []) as [[c|s']|].
  - apply Hw; [done|done|done|constructor|by intros x ?%elem_of_nil|simpl; lia].
  - destruct Hw as (Ht & Hs & _); [done|done|done|constructor|by intros x ?%elem_of_nil|simpl; lia|].
    intros x Hx. eapply topo_acyclic; [done|]. by eapply topo_closed_rtc.
  - destruct Hw; [done|done|done|constructor|by intros x ?%elem_of_nil|simpl; lia].
Qed.

(** A loop of a graph changed only at the codes of [S] is old, or passes through [S]. *)
Lemma tc_through (g g' : Graph) (S : string -> Prop) x y :
  (forall z, S z \/ ~ S z) -> (forall z, ~ S z -> get z g' = get z g) ->
  tc (edge g') x y -> tc (edge g) x y \/ exists p, S p /\ rtc (edge g') x p /\ tc (edge g') p y.
Proof.
  intros Hdec Hsame. induction 1 as [x y Hxy|x y z Hxy Hyz IH].
  - destruct (Hdec x) as [HS|HS].
    + right. exists x. split; [done|]. split; [apply rtc_refl|by apply tc_once].
    + left. apply tc_once. destruct Hxy as (deps & Hg & Hy). rewrite Hsame in Hg by done. by exists deps.
  - destruct IH as [IH|(p & Hp & Hyp & Hpz)].
    + destruct (Hdec x) as [HS|HS].
      * right. exists x. split; [done|]. split; [apply rtc_refl|]. by eapply tc_l.
      * left. eapply tc_l; [|exact IH]. destruct Hxy as (deps & Hg & Hy). rewrite Hsame in Hg by done.
        by exists deps.
    + right. exists p. split; [done|]. split; [|done]. by eapply rtc_l.
Qed.

(** Changing some codes' deps keeps a graph acyclic when none of them starts a loop. *)
Lemma acyclic_change (g g' : Graph) (S : string -> Prop) :
  (forall z, S z \/ ~ S z) -> (forall z, ~ S z -> get z g' = get z g) -> acyclic g ->
  (forall p, S p -> find_cycle g' p = None) -> acyclic g'.
Proof.
  intros Hdec Hsame Hac Hnone x Hx. destruct (tc_through g g' S x x Hdec Hsame Hx) as [Hc|(p & HS & Hxp & Hpx)].
  - by apply (Hac x).
  - pose proof (find_cycle_cases g' p) as Hc. rewrite (Hnone p HS) in Hc.
    apply (Hc p); [apply rtc_refl|]. by eapply tc_rtc_r.
Qed.

Lemma check_codes_Ok g rejected code deps note :
  check_codes g rejected code deps note = Ok () <->
  forall d, d ∈ deps -> code <> Some d /\ d ∈ g.*1 /\ d ∉ rejected.
Proof.
  assert (forall d, contains_key d g = true <-> d ∈ g.*1) as Hkey.
  { intros d. unfold contains_key. rewrite is_some_true. split.
    - intros [v Hv]. destruct (decide (d ∈ g.*1)) as [|Hn]; [done|]. apply get_None in Hn. congruence.
    - intros Hin. destruct (get d g) as [v|] eqn:E; [eauto|]. by apply get_None in E. }
  induction deps as [|d deps IH]; simpl; [split; [by intros _ d ?%elem_of_nil|done]|].
  destruct (eqb code (Some d)) eqn:E1.
  { apply (proj1 (eqb_eq _ _)) in E1. split; [done|]. intros Hall. destruct (Hall d (list_elem_of_here _ _)) as (Hc & _ & _).
    by destruct Hc. }
  apply (proj1 (eqb_neq _ _)) in E1. destruct (contains_key d g) eqn:E2; simpl.
  2: { split; [done|]. intros Hall. destruct (Hall d (list_elem_of_here _ _)) as (_ & Hd & _).
       apply Hkey in Hd. congruence. }
  apply Hkey in E2. case_bool_decide as E3.
  { split; [done|]. intros Hall. destruct (Hall d (list_elem_of_here _ _)) as (_ & _ & Hr).
    by destruct Hr. }
  rewrite IH. split; [intros Hall x [->|Hx]%elem_of_cons; auto|intros Hall x Hx; apply Hall; by right].
Qed.

Lemma placeholder_inj n m : placeholder n = placeholder m -> n = m.
Proof. unfold placeholder, show_nat. intros [= E]. apply show_N_inj in E. lia. Qed.

(** The merged graph: each batch item under its placeholder, the board elsewhere. *)
Lemma merge_batch_Ok g rejected len n batch merged0 merged :
  merge_batch g rejected len n batch merged0 = Ok merged ->
  (forall i deps, batch !! i = Some deps ->
     get (placeholder (n + i)) merged = Some deps /\
     check_batch_deps g rejected len (n + i) deps = Ok ()) /\
  (forall x, (forall i, i < length batch -> x <> placeholder (n + i)) -> get x merged = get x merged0).
Proof.
  revert n merged0. induction batch as [|deps batch IH]; simpl; intros n merged0.
  { intros [= <-]. split; [done|]. done. }
  destruct (check_batch_deps g rejected len n deps) as [[]|] eqn:Hc; [|done].
  intros [Hin Hout]%IH. split.
  - intros [|i] ds; simpl.
    + intros [= <-]. rewrite Nat.add_0_r. split; [|done]. rewrite Hout; [apply get_insert_eq|].
      intros i _ Heq%placeholder_inj. lia.
    + intros Hi. apply Hin in Hi. by rewrite Nat.add_succ_r, <-Nat.add_succ_l.
  - intros x Hx. rewrite Hout.
    + apply get_insert_ne. intros <-. apply (Hx 0); [lia|]. by rewrite Nat.add_0_r.
    + intros i Hi. rewrite Nat.add_succ_l, <-Nat.add_succ_r. apply Hx. lia.
Qed.

Lemma check_batch_loops_Ok merged ns :
  check_batch_loops merged ns = Ok () -> forall n, n ∈ ns -> find_cycle merged (placeholder n) = None.
Proof.
  induction ns as [|n ns IH]; simpl; [by intros _ n ?%elem_of_nil|].
  destruct (find_cycle merged (placeholder n)) eqn:E; [done|].
  intros Hns m [->|Hm]%elem_of_cons; auto.
Qed.

(** An accepted batch leaves the merged graph acyclic. *)
Lemma validate_batch_merged g rejected batch :
  acyclic g -> validate_batch g rejected batch = Ok () ->
  exists merged, merge_batch g rejected (length batch) 0 batch g = Ok merged /\ acyclic merged.
Proof.
  intros Hac Hv. unfold validate_batch in Hv.
  destruct (merge_batch g rejected (length batch) 0 batch g) as [merged|] eqn:Hm; [|done].
  exists merged. split; [done|]. apply merge_batch_Ok in Hm as [Hin Hout].
  apply (acyclic_change g merged (fun z => exists i, i < length batch /\ z = placeholder i)); [| |done|].
  - intros z. destruct (decide (Exists (fun i => z = placeholder i) (seq 0 (length batch)))) as [He|Hn].
    + left. apply Exists_exists in He as (i & Hi & ->). apply elem_of_seq in Hi. exists i. split; [lia|done].
    + right. intros (i & Hi & ->). apply Hn, Exists_exists. exists i. split; [|done]. apply elem_of_seq. lia.
  - intros z Hz. apply Hout. intros i Hi ->. apply Hz. by exists i.
  - intros p (i & Hi & ->). eapply check_batch_loops_Ok; [exact Hv|]. apply elem_of_seq. lia.
Qed.

(** The loop of an edge chain is a cycle. *)
Lemma is_loop_tc g c : is_loop g c -> exists x, head c = Some x /\ tc (edge g) x x.
Proof. intros (x & Hh & Hl & Hlen & Hc). exists x. split; [done|]. by eapply loop_tc. Qed.

Lemma acyclic_find_cycle g s : acyclic g -> find_cycle g s = None.
Proof.
  intros Hac. pose proof (find_cycle_cases g s) as Hc. destruct (find_cycle g s) as [c|]; [|done].
  destruct Hc as [Hl _]. apply is_loop_tc in Hl as (x & _ & Hx). by apply Hac in Hx.
Qed.

Lemma insert_acyclic g code deps :
  acyclic g -> find_cycle (insert String.le code deps g) code = None ->
  acyclic (insert String.le code deps g).
Proof.
  intros Hac Hnone. apply (acyclic_change g _ (fun z => z = code)); [| |done|by intros p ->].
  - intros z. destruct (decide (z = code)); auto.
  - intros z Hz. by apply get_insert_ne.
Qed.

(** ** Properties *)

(** The loop search is exact: what it returns is a dependency loop reached from the start,
    shown from a code back to itself, and it returns nothing exactly when no code reachable from
    the start depends on itself, however long the chain. *)
Theorem find_cycle_correct g s :
  (forall c, find_cycle g s = Some c ->
     is_loop g c /\ exists x, head c = Some x /\ rtc (edge g) s x /\ tc (edge g) x x) /\
  (find_cycle g s = None <-> ~ exists x, rtc (edge g) s x /\ tc (edge g) x x).
Proof.
  pose proof (find_cycle_cases g s) as Hc. destruct (find_cycle g s) as [c|].
  - destruct Hc as (Hl & x & Hx & Hr). destruct (is_loop_tc g c Hl) as (x' & Hx' & Htc).
    rewrite Hx in Hx'. injection Hx' as <-. split.
    + intros c' [= <-]. split; [done|]. by exists x.
    + split; [done|]. intros []. by exists x.
  - split; [done|]. split; [|done]. intros _ (x & Hr & Ht). by apply (Hc x).
Qed.

(** The search always returns: one step per code of the board, and one more, is enough. *)
Theorem walk_terminates g s : walk (S (length g)) g s [] [] <> None.
Proof.
  intros Hw. pose proof (walk_spec (S (length g)) g s [] [] s) as Hs. rewrite Hw in Hs.
  apply Hs; [done|done|done|constructor|by intros x ?%elem_of_nil|simpl; lia].
Qed.

(** On a board without loops, an edit of an item's dependencies is accepted exactly when
    every dependency is another item on the board that was not rejected, and the edited board
    still has no loop. *)
Theorem validate_edit_exact g rejected code deps :
  acyclic g ->
  (validate_edit g rejected code deps = Ok () <->
   (forall d, d ∈ deps -> d <> code /\ d ∈ g.*1 /\ d ∉ rejected) /\
   acyclic (insert String.le code deps g)).
Proof.
  intros Hac. unfold validate_edit.
  destruct (check_codes g rejected (Some code) deps "") as [[]|e] eqn:Hc.
  - rewrite check_codes_Ok in Hc.
    assert (forall d, d ∈ deps -> d <> code /\ d ∈ g.*1 /\ d ∉ rejected) as Hd.
    { intros d Hd. destruct (Hc d Hd) as (Hne & ? & ?). split; [congruence|done]. }
    destruct (find_cycle _ code) as [c|] eqn:Hf.
    + split; [done|]. intros [_ Ha]. by rewrite acyclic_find_cycle in Hf.
    + split; [|done]. intros _. split; [done|]. by apply insert_acyclic.
  - split; [done|]. intros [Hd _]. enough (check_codes g rejected (Some code) deps "" = Ok ()) by congruence.
    apply check_codes_Ok. intros d Hin. destruct (Hd d Hin) as (? & ? & ?). split; [congruence|done].
Qed.

Lemma empty_acyclic : acyclic [].
Proof.
  intros x Hx. inversion Hx as [? ? Hxx|? y ? Hxy _]; subst;
    match goal with H : edge [] _ _ |- _ => by destruct H as (? & ? & _) end.
Qed.

Lemma flat_acyclic code : acyclic [(code, [])].
Proof.
  assert (forall x y, ~ edge [(code, [])] x y) as Hno.
  { intros x y (deps & Hg & Hy). simpl in Hg. destruct (eqb x code); [|done].
    injection Hg as <-. by apply elem_of_nil in Hy. }
  intros x Hx. inversion Hx; subst; by eapply Hno.
Qed.

Lemma validate_edit_exact_witness :
  acyclic (insert String.le "P-2" ["P-1"] [("P-1", [])]).
Proof.
  apply (validate_edit_exact [("P-1", [])] ∅ "P-2" ["P-1"]); [apply flat_acyclic|].
  vm_compute. reflexivity.
Defined.

(** A new item cannot close a loop: with dependencies the board accepts, under a code no item
    has or depends on yet, the board stays without loops. *)
Theorem validate_new_acyclic g rejected code deps :
  acyclic g -> validate_new g rejected deps = Ok () -> code ∉ g.*1 ->
  (forall x, ~ edge g x code) -> acyclic (insert String.le code deps g).
Proof.
  intros Hac Hv Hnew Hno. apply insert_acyclic; [done|].
  pose proof (find_cycle_cases (insert String.le code deps g) code) as Hc.
  destruct (find_cycle _ code) as [c|]; [|done]. exfalso.
  assert (forall x, ~ edge (insert String.le code deps g) x code) as Hinto.
  { intros x (ds & Hg & Hin). destruct (decide (x = code)) as [->|Hne].
    - rewrite get_insert_eq in Hg. injection Hg as <-. unfold validate_new in Hv.
      rewrite check_codes_Ok in Hv. by apply Hnew, Hv.
    - rewrite get_insert_ne in Hg by done. apply (Hno x). by exists ds. }
  destruct Hc as [Hl _]. apply is_loop_tc in Hl as (x & _ & Hx).
  destruct (tc_through g (insert String.le code deps g) (fun z => z = code) x x) as [Hg|(p & -> & Hxp & Hpx)].
  - intros z. destruct (decide (z = code)); auto.
  - intros z Hz. by apply get_insert_ne.
  - done.
  - by apply (Hac x).
  - apply rtc_inv_r in Hxp as [->|(y & _ & Hy)]; [|by apply (Hinto y)].
    apply tc_rtc in Hpx as Hr. apply tc_nsteps in Hpx as (n & Hn & Hs).
    destruct n as [|n]; [lia|]. apply nsteps_inv_r in Hs as (y & _ & Hy). by apply (Hinto y).
Qed.

Lemma validate_new_acyclic_witness : acyclic (insert String.le "P-2" ["P-1"] [("P-1", [])]).
Proof.
  apply (validate_new_acyclic [("P-1", [])] ∅ "P-2" ["P-1"]).
  - apply flat_acyclic.
  - vm_compute. reflexivity.
  - apply (bool_decide_unpack _). vm_compute. exact I.
  - intros x (ds & Hg & Hin). simpl in Hg. destruct (eqb x "P-1"); [|discriminate Hg].
    injection Hg as <-. by apply elem_of_nil in Hin.
Defined.

(** The codes' graph once a batch is written: its items under their codes with references
    resolved, the board elsewhere. *)
Definition resolved_graph (g g' : Graph) (batch : list (list string)) (codes : list string) : Prop :=
  length codes = length batch /\ NoDup codes /\
  (forall i c deps, codes !! i = Some c -> batch !! i = Some deps ->
     get c g' = Some (resolve_batch_deps deps codes)) /\
  (forall x, x ∉ codes -> get x g' = get x g).

(** Reading codes back as placeholders. *)
Definition unresolve (codes : list string) (x : string) : string :=
  match lposition (fun c => String.eqb c x) codes with Some i => placeholder i | None => x end.

Lemma unresolve_code codes i c : NoDup codes -> codes !! i = Some c -> unresolve codes c = placeholder i.
Proof.
  intros Hnd Hi. unfold unresolve. destruct (lposition _ codes) as [j|] eqn:Hp.
  - apply lposition_Some in Hp as (x & Hx & ->%String.eqb_eq). f_equal. by eapply NoDup_lookup.
  - rewrite lposition_None in Hp. apply list_elem_of_lookup_2, Hp in Hi. by rewrite String.eqb_refl in Hi.
Qed.

Lemma unresolve_other codes x : x ∉ codes -> unresolve codes x = x.
Proof.
  intros Hx. unfold unresolve. destruct (lposition _ codes) as [j|] eqn:Hp; [|done].
  apply lposition_Some in Hp as (y & Hy & ->%String.eqb_eq). by apply list_elem_of_lookup_2 in Hy.
Qed.

Lemma check_batch_deps_known g rejected len n deps d :
  check_batch_deps g rejected len n deps = Ok () -> d ∈ deps ->
  (exists i, batch_index d len = Some i /\ i <> n) \/ (batch_index d len = None /\ d ∈ g.*1).
Proof.
  induction deps as [|d' deps IH]; simpl; [by intros _ ?%elem_of_nil|].
  intros Hc [->|Hd]%elem_of_cons.
  - destruct (starts_with _ d') eqn:Hs.
    + destruct (batch_index d' len) as [i|]; [|done].
      destruct (i =? n)%nat eqn:E; [done|]. apply Nat.eqb_neq in E. left. by exists i.
    + right. split.
      * unfold batch_index. unfold starts_with in Hs. by destruct (strip_prefix _ d').
      * destruct (contains_key d' g) eqn:Hk; [|done]. unfold contains_key in Hk.
        apply is_some_true in Hk as [v Hv]. destruct (decide (d' ∈ g.*1)) as [|Hn]; [done|].
        apply get_None in Hn. congruence.
  - destruct (starts_with _ d').
    + destruct (batch_index d' len) as [i|]; [|done]. destruct (i =? n)%nat; [done|auto].
    + destruct (negb _); [done|]. case_bool_decide; [done|auto].
Qed.

Lemma batch_index_lt d len i : batch_index d len = Some i -> i < len.
Proof.
  unfold batch_index. destruct (strip_prefix _ d); [|done]. destruct (parse_usize _) as [n|]; [|done].
  destruct (1 <=? n)%N eqn:E1, (n <=? N.of_nat len)%N eqn:E2; simpl; try done.
  apply N.leb_le in E1, E2. intros [= <-]. lia.
Qed.

(** What a dependency of a validated batch names: another item of it, or a code of the board. *)
Lemma validated_dep g rejected batch k deps d :
  validate_batch g rejected batch = Ok () -> batch !! k = Some deps -> d ∈ deps ->
  (exists i, batch_index d (length batch) = Some i /\ i <> k) \/ (batch_index d (length batch) = None /\ d ∈ g.*1).
Proof.
  unfold validate_batch. destruct (merge_batch _ _ _ _ _ _) as [merged|] eqn:Hm; [|done]. intros _ Hk Hd.
  apply merge_batch_Ok in Hm as [Hin _]. destruct (Hin k deps Hk) as [_ Hc].
  by eapply check_batch_deps_known.
Qed.

(** A batch proposed on a board without loops leaves it without loops once its references are
    resolved to the codes the items were given, provided each reference is written the plain way
    (the placeholder's own spelling), the codes are new, and no board code starts with the
    reference mark. *)
Theorem batch_resolved_acyclic g g' rejected batch codes :
  acyclic g -> validate_batch g rejected batch = Ok () -> resolved_graph g g' batch codes ->
  (forall deps d i, deps ∈ batch -> d ∈ deps -> batch_index d (length batch) = Some i -> d = placeholder i) ->
  (forall c, c ∈ codes -> c ∉ g.*1 /\ forall x, ~ edge g x c) ->
  (forall n, placeholder n ∉ g.*1) ->
  acyclic g'.
Proof.
  intros Hac Hv (Hlen & Hnd & Hnew & Hold) Hcanon Hfresh Hmark.
  destruct (validate_batch_merged g rejected batch Hac Hv) as (merged & Hm & Hacm).
  apply merge_batch_Ok in Hm as [Hin Hout].
  assert (forall x y, edge g' x y -> edge merged (unresolve codes x) (unresolve codes y)) as Hmap.
  { intros x y (ds & Hg & Hy). destruct (decide (x ∈ codes)) as [Hx|Hx].
    - apply list_elem_of_lookup_1 in Hx as [i Hi].
      destruct (lookup_lt_is_Some_2 batch i) as [deps Hdeps].
      { rewrite <-Hlen. by eapply lookup_lt_Some. }
      rewrite (Hnew i x deps Hi Hdeps) in Hg. injection Hg as <-.
      apply list_elem_of_fmap in Hy as (d & -> & Hd).
      destruct (Hin i deps Hdeps) as [Hgi Hci]. exists deps.
      rewrite (unresolve_code codes i x Hnd Hi). split; [done|].
      destruct (check_batch_deps_known _ _ _ _ _ d Hci Hd) as [(j & Hj & _)|[Hj Hk]].
      + rewrite Hlen, Hj. destruct (codes !! j) as [c|] eqn:Hcj; simpl.
        * rewrite (unresolve_code codes j c Hnd Hcj). rewrite <-(Hcanon deps d j); [done| |done|done].
          by eapply list_elem_of_lookup_2.
        * apply lookup_ge_None_1 in Hcj. apply batch_index_lt in Hj. lia.
      + rewrite Hlen, Hj. rewrite unresolve_other; [done|]. intros Hc. by destruct (Hfresh d Hc).
    - rewrite (unresolve_other codes x Hx). rewrite Hold in Hg by done.
      rewrite unresolve_other.
      + exists ds. split; [|done]. rewrite Hout; [done|]. intros i _ ->.
        apply (Hmark i), (edge_key g _ y). by exists ds.
      + intros Hc. destruct (Hfresh y Hc) as [_ Hno]. apply (Hno x). by exists ds. }
  intros x Hx. apply (Hacm (unresolve codes x)).
  by apply (tc_congruence (unresolve codes) (edge merged) x x Hmap).
Qed.

Lemma batch_resolved_acyclic_witness :
  acyclic [("P-1", []); ("P-2", ["P-1"])].
Proof.
  apply (batch_resolved_acyclic [] [("P-1", []); ("P-2", ["P-1"])] ∅ [[]; ["#1"]] ["P-1"; "P-2"]).
  - apply empty_acyclic.
  - vm_compute. reflexivity.
  - split; [reflexivity|]. split; [apply (bool_decide_unpack _); vm_compute; exact I|]. split.
    + intros [|[|i]] c deps Hc Hd; simpl in *; [injection Hc as <-; injection Hd as <-; vm_compute; reflexivity..|done].
    + intros x Hx. simpl. apply not_elem_of_cons in Hx as [H1 Hx]. apply not_elem_of_cons in Hx as [H2 _].
      by rewrite !(proj2 (eqb_neq _ _)).
  - intros deps d i Hdeps Hd. repeat (apply elem_of_cons in Hdeps as [->|Hdeps]; [|]);
      try by apply elem_of_nil in Hdeps.
    + by apply elem_of_nil in Hd.
    + apply list_elem_of_singleton in Hd as ->. vm_compute. by intros [= <-].
  - intros c _. split; [by apply not_elem_of_nil|]. by intros x (ds & Hg & _).
  - intros n. by apply not_elem_of_nil.
Defined.

(** Without that proviso a batch can wedge the board: a reference with a space (or a sign, or a
    leading zero) resolves to the same item but is not its placeholder, so the loop it closes is
    not seen. *)
Lemma batch_alias_closes_loop :
  validate_batch [] ∅ [["# 2"]; ["#1"]] = Ok () /\
  resolve_batch_deps ["# 2"] ["P-1"; "P-2"] = ["P-2"] /\
  resolve_batch_deps ["#1"] ["P-1"; "P-2"] = ["P-1"].
Proof. vm_compute. split; [reflexivity|split; reflexivity]. Qed.
