(* ===== verification/Store.v ===== *)
(** * The roadmap item store

    Models src/crates/fletch-core/src/roadmap/store.rs, one definition per function, over the
    connection monad of Sql.v. Integer columns are [i64] and wrap as a release build does. *)

From Stdlib Require Import SpecFloat DecimalString.
From S2P Require Import Prelude RustStr Board Sql Database.

Local Open Scope string_scope.
Local Open Scope list_scope.

Definition PREFIX_KEY : string := "roadmap.code_prefix".
Definition SEQ_KEY : string := "roadmap.code_seq".
Definition FIRST_NUMBER : Z := 100.
Definition FALLBACK_PREFIX : string := "PRJ".

(** ** Rows *)

Definition board_of (items : list RoadmapItem) (project_id : string) : list RoadmapItem :=
  merge_sort board_le (lfilter (fun i => String.eqb (it_project_id i) project_id) items).

Definition find_item (items : list RoadmapItem) (id : string) : option RoadmapItem :=
  lfind (fun i => String.eqb (it_id i) id) items.

(** [UPDATE roadmap_items SET .. WHERE id = ? AND p]. *)
Definition update_rows (p : RoadmapItem -> bool) (f : RoadmapItem -> RoadmapItem)
    (items : list RoadmapItem) : list RoadmapItem :=
  (fun i => if p i then f i else i) <$> items.

Definition has_id (id : string) (i : RoadmapItem) : bool := String.eqb (it_id i) id.

(** The columns a patch sets, and [updated_at]. *)
Definition patch_item (p : ItemPatch) (now : Z) (i : RoadmapItem) : RoadmapItem := {|
  it_id := it_id i; it_project_id := it_project_id i; it_code := it_code i;
  it_title := default (it_title i) (pt_title p);
  it_why := default (it_why i) (pt_why p);
  it_horizon := default (it_horizon i) (pt_horizon p);
  it_status := default (it_status i) (pt_status p);
  it_rank := default (it_rank i) (pt_rank p);
  it_area := default (it_area i) (pt_area p);
  it_source := default (it_source i) (pt_source p);
  it_accept := default (it_accept i) (pt_accept p);
  it_deps := default (it_deps i) (pt_deps p);
  it_agent_id := default (it_agent_id i) (pt_agent_id p);
  it_workflow_def_id := default (it_workflow_def_id i) (pt_workflow_def_id p);
  it_run_id := default (it_run_id i) (pt_run_id p);
  it_pr_url := default (it_pr_url i) (pt_pr_url p);
  it_pr_number := default (it_pr_number i) (pt_pr_number p);
  it_hold_reason := it_hold_reason i; it_held_by := it_held_by i; it_held_at := it_held_at i;
  it_close_reason := it_close_reason i; it_issue_url := it_issue_url i; it_kind := it_kind i;
  it_triage := it_triage i; it_from_item := it_from_item i; it_created_at := it_created_at i;
  it_updated_at := now;
|}.

(** No column set. *)
Definition patch_sets_nothing (p : ItemPatch) : bool :=
  is_none (pt_title p) && is_none (pt_why p) && is_none (pt_horizon p) && is_none (pt_status p)
  && is_none (pt_source p) && is_none (pt_rank p) && is_none (pt_accept p) && is_none (pt_deps p)
  && is_none (pt_area p) && is_none (pt_agent_id p) && is_none (pt_workflow_def_id p)
  && is_none (pt_run_id p) && is_none (pt_pr_url p) && is_none (pt_pr_number p).

(** An item's lifecycle columns, rewritten by the updates that are not patches. *)
Definition set_lifecycle (status : ItemStatus) (hold : option string) (by_ : option EventActor)
    (held_at : option Z) (close agent : option string) (now : Z) (i : RoadmapItem) : RoadmapItem := {|
  it_id := it_id i; it_project_id := it_project_id i; it_code := it_code i; it_title := it_title i;
  it_why := it_why i; it_horizon := it_horizon i; it_status := status; it_rank := it_rank i;
  it_area := it_area i; it_source := it_source i; it_accept := it_accept i; it_deps := it_deps i;
  it_agent_id := agent; it_workflow_def_id := it_workflow_def_id i; it_run_id := it_run_id i;
  it_pr_url := it_pr_url i; it_pr_number := it_pr_number i; it_hold_reason := hold;
  it_held_by := by_; it_held_at := held_at; it_close_reason := close; it_issue_url := it_issue_url i;
  it_kind := it_kind i; it_triage := it_triage i; it_from_item := it_from_item i;
  it_created_at := it_created_at i; it_updated_at := now;
|}.

Definition classify (kind : CaptureKind) (triage : option Triage) (now : Z) (i : RoadmapItem)
    : RoadmapItem := {|
  it_id := it_id i; it_project_id := it_project_id i; it_code := it_code i; it_title := it_title i;
  it_why := it_why i; it_horizon := it_horizon i; it_status := it_status i; it_rank := it_rank i;
  it_area := it_area i; it_source := it_source i; it_accept := it_accept i; it_deps := it_deps i;
  it_agent_id := it_agent_id i; it_workflow_def_id := it_workflow_def_id i; it_run_id := it_run_id i;
  it_pr_url := it_pr_url i; it_pr_number := it_pr_number i; it_hold_reason := it_hold_reason i;
  it_held_by := it_held_by i; it_held_at := it_held_at i; it_close_reason := it_close_reason i;
  it_issue_url := it_issue_url i; it_kind := Some kind; it_triage := triage;
  it_from_item := it_from_item i; it_created_at := it_created_at i; it_updated_at := now;
|}.

Definition rank_item (rank : spec_float) (now : Z) (i : RoadmapItem) : RoadmapItem :=
  patch_item {|
    pt_title := None; pt_why := None; pt_horizon := None; pt_status := None; pt_source := None;
    pt_rank := Some rank; pt_accept := None; pt_deps := None; pt_area := None; pt_agent_id := None;
    pt_workflow_def_id := None; pt_run_id := None; pt_pr_url := None; pt_pr_number := None |} now i.

(** ** Codes *)

Definition code_number (code : string) : option Z := parse_i64 (after_last (Ascii.ascii_of_N 45) code).

Definition words_of (name : string) : list string :=
  lfilter (fun w => negb (is_empty w)) (split_by (fun c => negb (is_ascii_alphanumeric c)) name).

Definition derive_prefix (name : string) : string :=
  let words := words_of name in
  let candidate :=
    match words with
    | _ :: _ :: _ => unchars (omap (fun w => head (chars w)) (take 4 words))
    | _ => match head words with Some w => unchars (take 3 (chars w)) | None => "" end
    end in
  let candidate := to_ascii_uppercase candidate in
  if (2 <=? String.length candidate)%nat then candidate else FALLBACK_PREFIX.

Definition highest_number (items : list RoadmapItem) (project_id : string) : Z :=
  max_or (FIRST_NUMBER - 1)
    (omap (fun i => if String.eqb (it_project_id i) project_id then code_number (it_code i) else None) items).

Definition stored_number (d : Db) (project_id : string) : option Z :=
  (db_project_settings d !! (project_id, SEQ_KEY)) ≫= fun v => parse_i64 (trim v).

Definition max_rank (items : list RoadmapItem) (project_id : string) : option spec_float :=
  foldl (fun m i =>
    if String.eqb (it_project_id i) project_id
    then Some (match m with Some r => if f64_ltb r (it_rank i) then it_rank i else r | None => it_rank i end)
    else m) None items.

Definition missing (id : string) : string := "roadmap item " +:+ id +:+ " no longer exists".

Section Store.
Context `{World}.

Definition store_list (project_id : string) : M Db (list RoadmapItem) :=
  query (fun d => board_of (db_items d) project_id).

Definition store_get (id : string) : M Db (option RoadmapItem) :=
  query (fun d => find_item (db_items d) id).

Definition store_require (id : string) : M Db RoadmapItem :=
  let* o := store_get id in require_some (missing id) o.

Definition code_prefix (project_id : string) : M Db string :=
  let* stored := select_project_setting project_id PREFIX_KEY in
  match opt_filter (fun p => negb (is_empty (trim p))) stored with
  | Some p => ret p
  | None =>
      let* name := query (fun d => db_projects d !! project_id) in
      let prefix := derive_prefix (default "" name) in
      let* _ := upsert_project_setting project_id PREFIX_KEY prefix in
      ret prefix
  end.

Definition next_number (project_id : string) : M Db Z :=
  let* stored := query (fun d => stored_number d project_id) in
  let* highest := query (fun d => highest_number (db_items d) project_id) in
  ret (Z.max (default FIRST_NUMBER stored) (wrap_i64 (highest + 1))).

Definition next_code (project_id : string) : M Db string :=
  let* prefix := code_prefix project_id in
  let* number := next_number project_id in
  let* _ := upsert_project_setting project_id SEQ_KEY (show_Z (wrap_i64 (number + 1))) in
  ret (prefix +:+ "-" +:+ show_Z number).

Definition next_rank (project_id : string) : M Db spec_float :=
  query (fun d => f64_add (default (S754_zero false) (max_rank (db_items d) project_id)) (f64_of_N 1)).

(** The inserted row; columns not named are NULL. *)
Definition new_row (id project_id code : string) (rank : spec_float) (now : Z) (new : NewItem)
    : RoadmapItem := {|
  it_id := id; it_project_id := project_id; it_code := code; it_title := new_title new;
  it_why := new_why new; it_horizon := default HLater (new_horizon new);
  it_status := default Open (new_status new); it_rank := rank; it_area := new_area new;
  it_source := default SrcUser (new_source new); it_accept := new_accept new;
  it_deps := new_deps new; it_agent_id := None; it_workflow_def_id := new_workflow_def_id new;
  it_run_id := None; it_pr_url := None; it_pr_number := None; it_hold_reason := None;
  it_held_by := None; it_held_at := None; it_close_reason := None; it_issue_url := new_issue_url new;
  it_kind := None; it_triage := None; it_from_item := new_from_item new;
  it_created_at := now; it_updated_at := now;
|}.

(** The constraints of the table: the id and the project's code are new, the project and the
    captured row exist. *)
Definition insert_item (row : RoadmapItem) : M Db () :=
  sql (fun d =>
    if existsb (fun i => has_id (it_id row) i
                         || String.eqb (it_project_id i) (it_project_id row)
                            && String.eqb (it_code i) (it_code row)) (db_items d)
    then Err UNIQUE_FAILED
    else if negb (is_some (db_projects d !! it_project_id row)) then Err FOREIGN_KEY_FAILED
    else if is_some_and (it_from_item row) (fun f => negb (existsb (has_id f) (db_items d)))
    then Err FOREIGN_KEY_FAILED
    else Ok ((), set_items (fun l => l ++ [row]) d)).

Definition store_create (project_id : string) (new : NewItem) : M Db RoadmapItem :=
  let* id := new_uuid in
  let* code := next_code project_id in
  let* rank := next_rank project_id in
  let* now := now_millis in
  let* _ := insert_item (new_row id project_id code rank now new) in
  let* o := store_get id in
  require_some NO_ROWS o.

Definition set_triage (id : string) (kind : CaptureKind) (triage : option Triage)
    : M Db (option RoadmapItem) :=
  let* now := now_millis in
  let* _ := execute (set_items (update_rows (has_id id) (classify kind triage now))) in
  store_get id.

Definition store_apply (id : string) (p : ItemPatch) (expected : option ItemStatus)
    : M Db (option RoadmapItem) :=
  if patch_sets_nothing p then
    let* row := store_get id in
    ret (match expected with
         | Some status => opt_filter (fun r => eqb (it_status r) status) row
         | None => row
         end)
  else
    let* now := now_millis in
    let guard i := has_id id i && match expected with Some s => eqb (it_status i) s | None => true end in
    let* changed := sql (fun d => Ok (existsb guard (db_items d),
                                      set_items (update_rows guard (patch_item p now)) d)) in
    if is_some expected && negb changed then ret None
    else store_get id.

Definition store_update (id : string) (p : ItemPatch) : M Db (option RoadmapItem) :=
  store_apply id p None.

Definition update_where_status (id : string) (expected : ItemStatus) (p : ItemPatch)
    : M Db (option RoadmapItem) :=
  store_apply id p (Some expected).

(** The row's events and its pending ask go with it; rows triaged from it forget it. *)
Definition forget_from (id : string) (i : RoadmapItem) : RoadmapItem :=
  if eqb (it_from_item i) (Some id) then {|
    it_id := it_id i; it_project_id := it_project_id i; it_code := it_code i; it_title := it_title i;
    it_why := it_why i; it_horizon := it_horizon i; it_status := it_status i; it_rank := it_rank i;
    it_area := it_area i; it_source := it_source i; it_accept := it_accept i; it_deps := it_deps i;
    it_agent_id := it_agent_id i; it_workflow_def_id := it_workflow_def_id i; it_run_id := it_run_id i;
    it_pr_url := it_pr_url i; it_pr_number := it_pr_number i; it_hold_reason := it_hold_reason i;
    it_held_by := it_held_by i; it_held_at := it_held_at i; it_close_reason := it_close_reason i;
    it_issue_url := it_issue_url i; it_kind := it_kind i; it_triage := it_triage i;
    it_from_item := None; it_created_at := it_created_at i; it_updated_at := it_updated_at i |}
  else i.

Definition store_delete (id : string) : M Db bool :=
  sql (fun d => Ok (existsb (has_id id) (db_items d),
    set_items (fun l => forget_from id <$> lfilter (fun i => negb (has_id id i)) l)
      (set_events (lfilter (fun e => negb (String.eqb (ev_item_id e) id)))
        (set_proposals (lfilter (fun p => negb (String.eqb (pr_item_id p) id))) d)))).

Definition store_reject (id reason : string) : M Db (option RoadmapItem) :=
  let* now := now_millis in
  let* _ := execute (set_items (update_rows (has_id id)
    (set_lifecycle Rejected None None None (Some reason) None now))) in
  store_get id.

Definition store_reopen (id : string) : M Db (option RoadmapItem) :=
  let* now := now_millis in
  let guard i := has_id id i && eqb (it_status i) Rejected in
  let* changed := sql (fun d => Ok (existsb guard (db_items d),
    set_items (update_rows guard (fun i =>
      set_lifecycle Open None None None None (it_agent_id i) now i)) d)) in
  if negb changed then ret None else store_get id.

(** The body of [set_ranks]'s loop. *)
Fixpoint rank_each (now : Z) (n : N) (ids : list string) : M Db (list RoadmapItem) :=
  match ids with
  | [] => ret []
  | id :: ids =>
      let* _ := execute (set_items (update_rows (has_id id) (rank_item (f64_of_N n) now))) in
      let* row := store_get id in
      let* rows := rank_each now (n + 1) ids in
      ret (option_list row ++ rows)
  end.

Definition set_ranks (ids : list string) : M Db (list RoadmapItem) :=
  transaction (let* now := now_millis in rank_each now 1 ids).
End Store.

(** ** The board's invariant *)

(** A hold has its reason, its author and its time, or none of the three. *)
Definition hold_ok (i : RoadmapItem) : Prop :=
  is_some (it_held_by i) = is_some (it_hold_reason i) /\
  is_some (it_held_at i) = is_some (it_hold_reason i).

Definition code_key (i : RoadmapItem) : string * string := (it_project_id i, it_code i).

(** Ids are unique, codes are unique in a project, holds are whole, and what a row, an event or
    an ask refers to exists; an item has one pending ask. *)
Record board_ok (d : Db) : Prop := {
  ok_ids : NoDup (it_id <$> db_items d);
  ok_codes : NoDup (code_key <$> db_items d);
  ok_holds : Forall hold_ok (db_items d);
  ok_from : forall i f, i ∈ db_items d -> it_from_item i = Some f -> f ∈ it_id <$> db_items d;
  ok_events : forall e, e ∈ db_events d -> ev_item_id e ∈ it_id <$> db_items d;
  ok_asks : forall p, p ∈ db_proposals d -> pr_item_id p ∈ it_id <$> db_items d;
  ok_one_ask : NoDup (pr_item_id <$> db_proposals d);
}.

(** What no generic edit touches: identity, hold, close reason, classification, origin. *)
Definition ruling_cols (i : RoadmapItem) :=
  (it_id i, it_project_id i, it_code i, it_from_item i, it_created_at i,
   (it_hold_reason i, it_held_by i, it_held_at i, it_close_reason i),
   (it_issue_url i, it_kind i, it_triage i)).

(** ** Lemmas on codes *)

(** No byte of [s] is [c]. *)
Fixpoint no_byte (c : Ascii.ascii) (s : string) : bool :=
  match s with
  | EmptyString => true
  | String b s => negb (Ascii.eqb b c) && no_byte c s
  end.

Lemma no_byte_split c s : no_byte c s = true -> split_once c s = None.
Proof.
  induction s as [|b s IH]; simpl; [done|]. destruct (Ascii.eqb b c); simpl; [done|].
  intros H. by rewrite IH.
Qed.

Lemma no_byte_after_last c s : no_byte c s = true -> after_last c s = s.
Proof.
  destruct s as [|b s]; simpl; [done|]. destruct (Ascii.eqb b c); simpl; [done|].
  intros H. by rewrite no_byte_split.
Qed.

Lemma split_once_mid c s t : is_some (split_once c (s +:+ String c t)) = true.
Proof.
  induction s as [|b s IH].
  - rewrite append_nil. simpl. by rewrite Ascii.eqb_refl.
  - rewrite append_cons. simpl. destruct (Ascii.eqb b c); [done|].
    by destruct (split_once c (s +:+ String c t)) as [[]|].
Qed.

(** What follows the last separator of [s ++ c ++ t], when [t] has none. *)
Lemma after_last_app c s t : no_byte c t = true -> after_last c (s +:+ String c t) = t.
Proof.
  intros Ht. induction s as [|b s IH].
  - rewrite append_nil. simpl. rewrite Ascii.eqb_refl. by apply no_byte_after_last.
  - rewrite append_cons. simpl. destruct (Ascii.eqb b c); [done|].
    pose proof (split_once_mid c s t) as Hs. by destruct (split_once c (s +:+ String c t)).
Qed.

Lemma uint_no_minus d : no_byte (Ascii.ascii_of_N 45) (NilEmpty.string_of_uint d) = true.
Proof. induction d; simpl; auto. Qed.

Lemma show_N_no_minus n : no_byte (Ascii.ascii_of_N 45) (show_N n) = true.
Proof. rewrite <-show_N_digits. apply uint_no_minus. Qed.

Lemma uint_head d b s : NilEmpty.string_of_uint d = String b s ->
  strip_prefix "-" (String b s) = None /\ strip_sign (String b s) = String b s.
Proof. destruct d; simpl; intros [= <- <-]; done. Qed.

Lemma parse_i64_show n : (Z.of_N n <= i64_max)%Z -> parse_i64 (show_N n) = Some (Z.of_N n).
Proof.
  intros Hn. pose proof (parse_digits_show n) as Hp. destruct (show_N_nonempty n) as (b & s & E).
  rewrite <-show_N_digits in E. pose proof (uint_head _ _ _ E) as [H1 H2]. rewrite show_N_digits in E.
  rewrite E in *. unfold parse_i64. rewrite H1, H2, Hp. simpl.
  by rewrite (proj2 (Z.leb_le _ _) Hn).
Qed.

Lemma show_Z_nonneg z : (0 <= z)%Z -> show_Z z = show_N (Z.to_N z).
Proof. by destruct z. Qed.

(** A generated code carries its number. *)
Lemma code_number_gen prefix z : (0 <= z <= i64_max)%Z -> code_number (prefix +:+ "-" +:+ show_Z z) = Some z.
Proof.
  intros Hz. unfold code_number. rewrite show_Z_nonneg by lia.
  change ("-" +:+ show_N (Z.to_N z)) with (String (Ascii.ascii_of_N 45) (show_N (Z.to_N z))).
  rewrite after_last_app by apply show_N_no_minus.
  rewrite parse_i64_show by lia. f_equal. lia.
Qed.

Lemma split_none_no_byte c s : split_once c s = None -> no_byte c s = true.
Proof.
  induction s as [|b s IH]; simpl; [done|]. destruct (Ascii.eqb b c); [done|].
  destruct (split_once c s) as [[x y]|]; simpl; [done|auto].
Qed.

Lemma after_last_no_byte c s : no_byte c (after_last c s) = true.
Proof.
  induction s as [|b s IH]; simpl; [done|]. destruct (Ascii.eqb b c) eqn:E; [done|].
  destruct (split_once c s) as [[x y]|] eqn:Hs; [done|]. simpl. rewrite E. by apply split_none_no_byte.
Qed.

Lemma code_number_nonneg code z : code_number code = Some z -> (0 <= z)%Z.
Proof.
  unfold code_number. pose proof (after_last_no_byte (Ascii.ascii_of_N 45) code) as Hn.
  destruct (after_last _ code) as [|b s]; [done|]. unfold parse_i64.
  assert (strip_prefix "-" (String b s) = None) as ->.
  { cbn [no_byte] in Hn. apply andb_true_iff in Hn as [Hb _]. apply negb_true_iff in Hb.
    change "-" with (String (Ascii.ascii_of_N 45) ""). cbn [strip_prefix].
    by rewrite Ascii.eqb_sym, Hb. }
  intros Hp%opt_filter_Some. destruct Hp as [Hp _]. destruct (parse_digits _); [|done].
  injection Hp as <-. lia.
Qed.

Lemma highest_number_ge items p i z :
  i ∈ items -> it_project_id i = p -> code_number (it_code i) = Some z -> (z <= highest_number items p)%Z.
Proof.
  intros Hi Hp Hz. apply max_or_ge, list_elem_of_omap. exists i. split; [done|].
  by rewrite (proj2 (String.eqb_eq _ _) Hp).
Qed.

Lemma highest_number_snoc items row p n :
  code_number (it_code row) = Some n ->
  (highest_number (items ++ [row]) p <= Z.max (highest_number items p) n)%Z.
Proof.
  intros Hn. unfold highest_number. rewrite omap_app. set (l := omap _ items).
  assert (forall x, max_or (FIRST_NUMBER - 1) (l ++ [x]) <= Z.max (max_or (FIRST_NUMBER - 1) l) x)%Z as Hmax.
  { intros x. destruct l as [|y l']; simpl; [lia|]. rewrite foldl_app. simpl. lia. }
  simpl. destruct (String.eqb _ _); simpl; [rewrite Hn; apply Hmax|]. rewrite app_nil_r. lia.
Qed.

Lemma highest_number_nonneg items p : (0 <= highest_number items p)%Z.
Proof.
  unfold highest_number. set (l := omap _ items).
  assert (forall x, x ∈ l -> (0 <= x)%Z) as Hl.
  { intros x (i & _ & Hx)%list_elem_of_omap. destruct (String.eqb _ _); [|done].
    by eapply code_number_nonneg. }
  destruct l as [|x l]; simpl; [unfold FIRST_NUMBER; lia|].
  destruct (foldl_max_ge l x) as [H1 _]. specialize (Hl x (list_elem_of_here _ _)). lia.
Qed.

(** A character that is one byte, not white space. *)
Definition plain_char (c : string) : Prop :=
  exists b, c = String b "" /\ is_cont b = false /\ is_ws c = false.

Lemma plain_chars_cons b s : plain_char (String b "") -> Forall plain_char (chars s) ->
  Forall plain_char (chars (String b s)).
Proof.
  intros Hb Hs. cbn [chars]. destruct (chars s) as [|c l]; [by constructor|].
  pose proof Hs as [(b' & -> & Hc & _) _]%Forall_cons. rewrite Hc. by constructor.
Qed.

(** Digits are single bytes and not white space, so trimming a printed number keeps it. *)
Lemma uint_chars d : Forall plain_char (chars (NilEmpty.string_of_uint d)).
Proof.
  induction d; cbn [NilEmpty.string_of_uint]; [constructor|..];
    (apply plain_chars_cons; [eexists; split; [reflexivity|split; vm_compute; reflexivity]|done]).
Qed.

Lemma trim_show_N n : trim (show_N n) = show_N n.
Proof.
  rewrite <-show_N_digits. unfold trim.
  assert (Forall (fun c => is_ws c = false) (chars (NilEmpty.string_of_uint (N.to_uint n)))) as Hf.
  { eapply Forall_impl; [apply uint_chars|]. intros c (b & _ & _ & Hb). exact Hb. }
  rewrite (drop_while_none _ _ Hf), (drop_while_none _ (rev _)) by (apply Forall_rev; exact Hf).
  rewrite rev_involutive. apply unchars_chars.
Qed.

Section StoreLemmas.
Context `{World}.

Lemma select_project_setting_Ok p k c v c' :
  select_project_setting p k c = (Ok v, c') -> v = db_project_settings (c_db c) !! (p, k) /\ c_db c' = c_db c.
Proof. unfold select_project_setting. intros (_ & -> & ->)%query_Ok. done. Qed.

Lemma code_prefix_Ok p c prefix c' :
  code_prefix p c = (Ok prefix, c') ->
  db_items (c_db c') = db_items (c_db c) /\
  forall k, k <> PREFIX_KEY ->
    db_project_settings (c_db c') !! (p, k) = db_project_settings (c_db c) !! (p, k).
Proof.
  unfold code_prefix. intros Hc. apply bind_Ok in Hc as (v & c1 & Hs & Hc).
  apply select_project_setting_Ok in Hs as [_ Hdb].
  destruct (opt_filter _ v) as [q|].
  - injection Hc as <- <-. by rewrite Hdb.
  - apply bind_Ok in Hc as (name & c2 & (_ & -> & ->)%query_Ok & Hc).
    apply bind_Ok in Hc as (u & c3 & [Hu Hi]%upsert_project_setting_Ok & Hc).
    injection Hc as <- <-. rewrite Hu, Hi. simpl. rewrite Hdb. split; [done|]. intros k Hk.
    apply lookup_insert_ne. congruence.
Qed.

Lemma next_number_Ok p c n c' :
  next_number p c = (Ok n, c') ->
  c_db c' = c_db c /\
  n = Z.max (default FIRST_NUMBER (stored_number (c_db c) p)) (wrap_i64 (highest_number (db_items (c_db c)) p + 1)).
Proof. unfold next_number. intros Hc. by invert_ok. Qed.

Lemma wrap_i64_id z : (i64_min <= z <= i64_max)%Z -> wrap_i64 z = z.
Proof.
  unfold wrap_i64, i64_min, i64_max. intros Hz.
  rewrite Z.mod_small by (change (2 ^ 64)%Z with 18446744073709551616%Z; lia). lia.
Qed.

(** Allocating a code: its number, where the counter goes, and that no row changed. *)
Lemma next_code_Ok p c code c' :
  (highest_number (db_items (c_db c)) p + 1 < i64_max)%Z ->
  (default FIRST_NUMBER (stored_number (c_db c) p) < i64_max)%Z ->
  next_code p c = (Ok code, c') ->
  db_items (c_db c') = db_items (c_db c) /\
  exists prefix n, code = prefix +:+ "-" +:+ show_Z n /\ (n < i64_max)%Z /\
    (default FIRST_NUMBER (stored_number (c_db c) p) <= n)%Z /\
    (highest_number (db_items (c_db c)) p < n)%Z /\
    stored_number (c_db c') p = Some (n + 1)%Z /\
    n = Z.max (default FIRST_NUMBER (stored_number (c_db c) p)) (highest_number (db_items (c_db c)) p + 1).
Proof.
  intros Hh Hst Hc. unfold next_code in Hc.
  apply bind_Ok in Hc as (prefix & c1 & Hp & Hc). apply code_prefix_Ok in Hp as [Hi1 Hs1].
  apply bind_Ok in Hc as (n & c2 & Hn & Hc). apply next_number_Ok in Hn as [Hdb2 Hn].
  apply bind_Ok in Hc as (u & c3 & Hu & Hc). injection Hc as <- <-.
  apply upsert_project_setting_Ok in Hu as [Hu Hi3].
  assert (stored_number (c_db c1) p = stored_number (c_db c) p) as Hsn.
  { unfold stored_number. by rewrite Hs1. }
  pose proof (highest_number_nonneg (db_items (c_db c)) p) as Hnn.
  rewrite Hsn, Hi1 in Hn. rewrite wrap_i64_id in Hn by (unfold i64_min; lia).
  split; [by rewrite Hi3, Hdb2|]. exists prefix, n. split; [done|].
  split; [lia|]. split; [lia|]. split; [lia|]. split; [|done].
  unfold stored_number. rewrite Hu, lookup_insert_eq. simpl.
  rewrite wrap_i64_id by (unfold i64_min; lia). rewrite show_Z_nonneg by lia.
  rewrite trim_show_N, parse_i64_show by lia. f_equal. lia.
Qed.
End StoreLemmas.

(** ** The invariant is kept *)

(** An edit of a row's other columns. *)
Definition keeps_identity (f : RoadmapItem -> RoadmapItem) : Prop :=
  forall i, it_id (f i) = it_id i /\ code_key (f i) = code_key i /\ it_from_item (f i) = it_from_item i.

Lemma update_rows_fmap {A} (g : RoadmapItem -> A) p f l :
  (forall i, g (f i) = g i) -> g <$> update_rows p f l = g <$> l.
Proof.
  intros Hg. unfold update_rows. rewrite <-list_fmap_compose. apply list_fmap_ext.
  intros _ i _. simpl. by destruct (p i).
Qed.

Lemma elem_of_update_rows p f l i :
  i ∈ update_rows p f l -> exists j, j ∈ l /\ (i = j \/ p j = true /\ i = f j).
Proof.
  unfold update_rows. intros (j & -> & Hj)%list_elem_of_fmap. exists j. split; [done|].
  destruct (p j); auto.
Qed.

Lemma board_ok_update_rows p f d :
  keeps_identity f -> (forall i, p i = true -> hold_ok i -> hold_ok (f i)) ->
  board_ok d -> board_ok (set_items (update_rows p f) d).
Proof.
  intros Hid Hh [H1 H2 H3 H4 H5 H6 H7].
  assert (it_id <$> update_rows p f (db_items d) = it_id <$> db_items d) as Hids
    by (apply update_rows_fmap; apply Hid).
  split; simpl; rewrite ?Hids; try done.
  - rewrite update_rows_fmap by apply Hid. done.
  - apply Forall_forall. intros i (j & Hj & Hi)%elem_of_update_rows.
    rewrite Forall_forall in H3. destruct Hi as [->|[Hp ->]]; auto.
  - intros i fr (j & Hj & Hi)%elem_of_update_rows Hf.
    destruct Hi as [->|[Hp ->]]; [by eapply H4|]. rewrite (proj2 (proj2 (Hid j))) in Hf. by eapply H4.
Qed.

Lemma patch_item_ruling p now i : ruling_cols (patch_item p now i) = ruling_cols i.
Proof. done. Qed.

(** Finding a row by its id, and after an update. *)
Lemma find_item_Some items id i :
  NoDup (it_id <$> items) -> find_item items id = Some i <-> i ∈ items /\ it_id i = id.
Proof.
  unfold find_item. intros Hnd. induction items as [|j l IH]; simpl.
  { split; [done|]. by intros [?%elem_of_nil _]. }
  rewrite fmap_cons in Hnd. apply NoDup_cons in Hnd as [Hj Hnd].
  rewrite elem_of_cons. destruct (String.eqb (it_id j) id) eqn:E; bool_to_prop.
  - split; [intros [= ->]; auto|]. intros [[->|Hi] Hid]; [done|].
    destruct Hj. rewrite E, <-Hid. by apply list_elem_of_fmap_2.
  - rewrite IH by done. split; [tauto|]. intros [[->|Hi] Hid]; [done|tauto].
Qed.

Lemma find_item_None items id : find_item items id = None <-> id ∉ it_id <$> items.
Proof.
  unfold find_item. rewrite lfind_None. split.
  - intros Hf (i & -> & Hi)%list_elem_of_fmap. specialize (Hf i Hi). by rewrite String.eqb_refl in Hf.
  - intros Hn i Hi. apply String.eqb_neq. intros <-. by apply Hn, list_elem_of_fmap_2.
Qed.

Lemma find_item_update_rows p f items id :
  (forall i, it_id (f i) = it_id i) ->
  find_item (update_rows p f items) id = (fun i => if p i then f i else i) <$> find_item items id.
Proof.
  intros Hf. unfold find_item, update_rows. induction items as [|j l IH]; [done|].
  rewrite fmap_cons. cbn [lfind]. rewrite IH.
  assert (it_id (if p j then f j else j) = it_id j) as -> by (by destruct (p j)).
  by destruct (String.eqb (it_id j) id).
Qed.

Section StoreInvariant.
Context `{World}.

Lemma preserves_update_rows p f :
  keeps_identity f -> (forall i, p i = true -> hold_ok i -> hold_ok (f i)) ->
  preserves board_ok (execute (set_items (update_rows p f))).
Proof. intros Hf Hh. apply preserves_execute. intros d. by apply board_ok_update_rows. Qed.

Lemma store_get_reads id : reads (store_get id).
Proof. apply reads_query. Qed.

Lemma store_list_reads p : reads (store_list p).
Proof. apply reads_query. Qed.

Lemma store_require_reads id : reads (store_require id).
Proof. unfold store_require. reading. apply store_get_reads. Qed.
End StoreInvariant.
#[export] Hint Resolve store_get_reads store_list_reads store_require_reads : fletch.
#[export] Hint Resolve preserves_update_rows : fletch.

Lemma board_ok_ext d d' :
  db_items d' = db_items d -> db_events d' = db_events d -> db_proposals d' = db_proposals d ->
  board_ok d -> board_ok d'.
Proof. intros Hi He Hp [H1 H2 H3 H4 H5 H6 H7]. split; by rewrite ?Hi, ?He, ?Hp. Qed.

(** A generic edit, a rank, a classification keep a row's identity and hold. *)
Lemma patch_keeps p now : keeps_identity (patch_item p now).
Proof. done. Qed.
Lemma classify_keeps k t now : keeps_identity (classify k t now).
Proof. done. Qed.
Lemma rank_keeps r now : keeps_identity (rank_item r now).
Proof. done. Qed.
Lemma lifecycle_keeps s h b t c a now : keeps_identity (set_lifecycle s h b t c a now).
Proof. done. Qed.

Lemma forget_from_id id i : it_id (forget_from id i) = it_id i.
Proof. unfold forget_from. by case_match. Qed.
Lemma forget_from_code id i : code_key (forget_from id i) = code_key i.
Proof. unfold forget_from. by case_match. Qed.
Lemma forget_from_hold id i : hold_ok i -> hold_ok (forget_from id i).
Proof. unfold forget_from. by case_match. Qed.
Lemma forget_from_from id i f : it_from_item (forget_from id i) = Some f ->
  it_from_item i = Some f /\ f <> id.
Proof.
  unfold forget_from. destruct (eqb _ _) eqn:E; [done|]. bool_to_prop. intros Hf. split; [done|].
  intros ->. congruence.
Qed.

(** Deleting a row: its events and ask go, the rows from it forget it. *)
Lemma board_ok_delete id d :
  board_ok d ->
  board_ok (set_items (fun l => forget_from id <$> lfilter (fun i => negb (has_id id i)) l)
      (set_events (lfilter (fun e => negb (String.eqb (ev_item_id e) id)))
        (set_proposals (lfilter (fun p => negb (String.eqb (pr_item_id p) id))) d))).
Proof.
  intros [H1 H2 H3 H4 H5 H6 H7].
  set (rest := lfilter (fun i => negb (has_id id i)) (db_items d)).
  assert (it_id <$> (forget_from id <$> rest) = it_id <$> rest) as Hids.
  { rewrite <-list_fmap_compose. apply list_fmap_ext. intros. apply forget_from_id. }
  assert (forall x, x ∈ it_id <$> db_items d -> x <> id -> x ∈ it_id <$> rest) as Hrest.
  { intros x (i & -> & Hi)%list_elem_of_fmap Hne. apply list_elem_of_fmap_2, elem_of_lfilter.
    split; [done|]. unfold has_id. by rewrite (proj2 (String.eqb_neq _ _) Hne). }
  split; simpl; fold rest; rewrite ?Hids.
  - by apply lfilter_fmap_NoDup.
  - assert (code_key <$> (forget_from id <$> rest) = code_key <$> rest) as ->.
    { rewrite <-list_fmap_compose. apply list_fmap_ext. intros. apply forget_from_code. }
    by apply lfilter_fmap_NoDup.
  - apply Forall_fmap, Forall_forall. intros i [Hi _]%elem_of_lfilter. simpl.
    rewrite Forall_forall in H3. by apply forget_from_hold, H3.
  - intros i f (j & -> & [Hj _]%elem_of_lfilter)%list_elem_of_fmap [Hf Hne]%forget_from_from.
    apply Hrest; [by eapply H4|done].
  - intros e [He Hn]%elem_of_lfilter. bool_to_prop. auto.
  - intros p [Hp Hn]%elem_of_lfilter. bool_to_prop. auto.
  - by apply lfilter_fmap_NoDup.
Qed.

Lemma existsb_false_elem {A} (p : A -> bool) l x : existsb p l = false -> x ∈ l -> p x = false.
Proof.
  intros He Hx. destruct (p x) eqn:Hp; [|done]. rewrite <-He. symmetry. apply existsb_exists.
  exists x. by rewrite <-list_elem_of_In.
Qed.

Lemma existsb_true_elem {A} (p : A -> bool) l : existsb p l = true <-> exists x, x ∈ l /\ p x = true.
Proof. rewrite existsb_exists. by setoid_rewrite list_elem_of_In. Qed.

(** Inserting a row the table's constraints accept. *)
Lemma board_ok_insert row d :
  hold_ok row ->
  existsb (fun i => has_id (it_id row) i
    || String.eqb (it_project_id i) (it_project_id row) && String.eqb (it_code i) (it_code row))
    (db_items d) = false ->
  is_some_and (it_from_item row) (fun f => negb (existsb (has_id f) (db_items d))) = false ->
  board_ok d -> board_ok (set_items (fun l => l ++ [row]) d).
Proof.
  intros Hh Hu Hf [H1 H2 H3 H4 H5 H6 H7].
  assert (forall x, x ∈ it_id <$> db_items d -> x ∈ it_id <$> (db_items d ++ [row])) as Hin.
  { intros x Hx. rewrite fmap_app. apply elem_of_app. by left. }
  split; simpl.
  - rewrite fmap_app. apply NoDup_app. split; [done|]. split; [|apply NoDup_singleton].
    intros x (i & -> & Hi)%list_elem_of_fmap Hx%list_elem_of_singleton.
    pose proof (existsb_false_elem _ _ _ Hu Hi) as Hn. simpl in Hn. bool_to_prop. unfold has_id in *.
    bool_to_prop. congruence.
  - rewrite fmap_app. apply NoDup_app. split; [done|]. split; [|apply NoDup_singleton].
    intros x (i & -> & Hi)%list_elem_of_fmap Hx%list_elem_of_singleton. injection Hx as Hp Hc.
    pose proof (existsb_false_elem _ _ _ Hu Hi) as Hn. simpl in Hn.
    rewrite Hp, Hc, !String.eqb_refl, orb_true_r in Hn. done.
  - apply Forall_app. auto.
  - intros i f [Hi|Hi%list_elem_of_singleton]%elem_of_app Hfr; [eauto|]. rewrite Hi in Hfr.
    rewrite Hfr in Hf. simpl in Hf. bool_to_prop.
    apply existsb_true_elem in Hf as (j & Hj & Hid). unfold has_id in Hid. bool_to_prop.
    apply Hin. rewrite <-Hid. by apply list_elem_of_fmap_2.
  - eauto.
  - eauto.
  - done.
Qed.

Section StoreKeeps.
Context `{World}.

Lemma upsert_project_setting_board p k v : preserves board_ok (upsert_project_setting p k v).
Proof.
  apply preserves_sql. intros d a d' Hd. destruct (is_some _); [|done]. intros [= <- <-].
  by apply (board_ok_ext d).
Qed.

Lemma select_project_setting_reads p k : reads (select_project_setting p k).
Proof. apply reads_query. Qed.

Lemma insert_item_board row : hold_ok row -> preserves board_ok (insert_item row).
Proof.
  intros Hh. apply preserves_sql. intros d a d' Hd.
  destruct (existsb _ _) eqn:E1; [done|]. destruct (negb _); [done|].
  destruct (is_some_and _ _) eqn:E2; [done|]. intros [= <- <-]. by apply board_ok_insert.
Qed.
#[local] Hint Resolve upsert_project_setting_board insert_item_board select_project_setting_reads
  patch_keeps classify_keeps rank_keeps lifecycle_keeps : fletch.

Lemma next_code_board p : preserves board_ok (next_code p).
Proof. unfold next_code, code_prefix, next_number. preserving. Qed.
#[local] Hint Resolve next_code_board : fletch.

Lemma store_create_board p new : preserves board_ok (store_create p new).
Proof. unfold store_create, next_rank. preserving. by apply insert_item_board. Qed.

Lemma set_triage_board id k t : preserves board_ok (set_triage id k t).
Proof. unfold set_triage. preserving. Qed.

Lemma store_apply_board id p e : preserves board_ok (store_apply id p e).
Proof.
  unfold store_apply. preserving.
  apply preserves_sql. intros d a' d' Hd [= <- <-]. by apply board_ok_update_rows.
Qed.

Lemma store_delete_board id : preserves board_ok (store_delete id).
Proof. apply preserves_sql. intros d a d' Hd [= <- <-]. by apply board_ok_delete. Qed.

Lemma store_reject_board id reason : preserves board_ok (store_reject id reason).
Proof. unfold store_reject. preserving. by apply preserves_update_rows. Qed.

Lemma store_reopen_board id : preserves board_ok (store_reopen id).
Proof.
  unfold store_reopen. preserving. apply preserves_sql. intros d a' d' Hd [= <- <-].
  by apply board_ok_update_rows.
Qed.

Lemma rank_each_board now n ids : preserves board_ok (rank_each now n ids).
Proof. revert n. induction ids; intros n; simpl; preserving. Qed.

Lemma set_ranks_board ids : preserves board_ok (set_ranks ids).
Proof. unfold set_ranks. preserving. apply rank_each_board. Qed.
End StoreKeeps.
#[export] Hint Resolve upsert_project_setting_board next_code_board store_create_board
  set_triage_board store_apply_board store_delete_board store_reject_board store_reopen_board
  set_ranks_board select_project_setting_reads : fletch.

Lemma board_of_perm items p :
  board_of items p ≡ₚ lfilter (fun i => String.eqb (it_project_id i) p) items.
Proof. apply merge_sort_Permutation. Qed.

Lemma elem_of_board_of items p i : i ∈ board_of items p <-> i ∈ items /\ it_project_id i = p.
Proof. rewrite board_of_perm, elem_of_lfilter, String.eqb_eq. done. Qed.

(** A project's codes are unique on its board. *)
Lemma board_of_codes d p : board_ok d -> NoDup (it_code <$> board_of (db_items d) p).
Proof.
  intros Hd. rewrite board_of_perm. pose proof (ok_codes d Hd) as Hnd. revert Hnd.
  induction (db_items d) as [|i l IH]; [constructor|]. cbn [lfilter]. rewrite fmap_cons.
  intros [Hi Hl]%NoDup_cons. destruct (String.eqb _ _) eqn:E; [|auto]. bool_to_prop.
  rewrite fmap_cons. apply NoDup_cons. split; [|auto].
  intros (j & Hc & [Hj Hp]%elem_of_lfilter)%list_elem_of_fmap. bool_to_prop. apply Hi.
  apply list_elem_of_fmap. exists j. split; [|done]. unfold code_key. by rewrite E, Hp, Hc.
Qed.

(** What one edit does: the step after which every write of a row is stated. *)
Section StoreSteps.
Context `{World}.

Lemma store_get_Ok id c o c' :
  store_get id c = (Ok o, c') <->
  w_fault (c_tick c) = None /\ o = find_item (db_items (c_db c)) id /\ c' = tick c.
Proof. apply (query_Ok (fun d => find_item (db_items d) id)). Qed.

Lemma store_require_Ok id c i c' :
  store_require id c = (Ok i, c') ->
  find_item (db_items (c_db c)) id = Some i /\ c_db c' = c_db c.
Proof.
  unfold store_require. intros (o & c1 & (_ & -> & ->)%store_get_Ok & Hr)%bind_Ok.
  unfold require_some in Hr. destruct (find_item _ _); [|done]. by injection Hr as <- <-.
Qed.

(** The guard of an edit. *)
Definition expects (expected : option ItemStatus) (i : RoadmapItem) : bool :=
  match expected with Some s => eqb (it_status i) s | None => true end.

Lemma existsb_find items id p :
  NoDup (it_id <$> items) ->
  existsb (fun i => has_id id i && p i) items = is_some (opt_filter p (find_item items id)).
Proof.
  intros Hnd. destruct (existsb _ items) eqn:E.
  - apply existsb_true_elem in E as (i & Hi & Hp). unfold has_id in Hp. bool_to_prop.
    rewrite (proj2 (find_item_Some _ id i Hnd)) by done. simpl. by case_match.
  - destruct (find_item items id) as [i|] eqn:Hf; [|done].
    apply find_item_Some in Hf as [Hi <-]; [|done]. pose proof (existsb_false_elem _ _ _ E Hi) as Hp.
    unfold has_id in Hp. simpl in Hp. rewrite String.eqb_refl in Hp. simpl in *. by rewrite Hp.
Qed.

Lemma update_rows_ext p q f items :
  (forall i, i ∈ items -> p i = q i) -> update_rows p f items = update_rows q f items.
Proof.
  intros Hpq. unfold update_rows. apply list_fmap_ext. intros k i Hi%list_elem_of_lookup_2.
  by rewrite Hpq.
Qed.

Lemma update_rows_none p f items : existsb p items = false -> update_rows p f items = items.
Proof.
  intros He. unfold update_rows. rewrite <-(list_fmap_id items) at 2. apply list_fmap_ext.
  intros k i Hi%list_elem_of_lookup_2. by rewrite (existsb_false_elem _ _ _ He Hi).
Qed.

Lemma set_items_id f d : f (db_items d) = db_items d -> set_items f d = d.
Proof. intros Hf. unfold set_items. rewrite Hf. by destruct d. Qed.

(** A successful edit: the row it expected, edited, in a board where only it changed; or, when
    no row is as expected, nothing. *)
Lemma store_apply_Ok id p e c o c' :
  NoDup (it_id <$> db_items (c_db c)) -> patch_sets_nothing p = false ->
  store_apply id p e c = (Ok o, c') ->
  exists now,
    c_db c' = set_items (update_rows (fun i => has_id id i && expects e i) (patch_item p now)) (c_db c) /\
    o = patch_item p now <$> opt_filter (expects e) (find_item (db_items (c_db c)) id) /\
    (o = None -> c_db c' = c_db c).
Proof.
  intros Hnd Hp Hs. unfold store_apply in Hs. rewrite Hp in Hs.
  apply bind_Ok in Hs as (now & c1 & Hnow & Hs). injection Hnow as <- <-.
  apply bind_Ok in Hs as (ch & c2 & (_ & d & Hd & ->)%sql_Ok & Hs). injection Hd as <- <-.
  exists (w_now (c_tick c)). change (c_db (tick c)) with (c_db c) in *.
  fold (expects e) in *.
  assert (Hdb : c_db c' = set_items (update_rows (fun i => has_id id i && expects e i)
      (patch_item p (w_now (c_tick c)))) (c_db c)).
  { destruct (_ && _) in Hs; [by injection Hs as <- <-|]. by apply store_get_Ok in Hs as (_ & _ & ->). }
  rewrite (existsb_find _ _ (expects e)) in Hs by done.
  pose proof (existsb_find (db_items (c_db c)) id (expects e) Hnd) as Hex.
  assert (Ho : o = patch_item p (w_now (c_tick c)) <$> opt_filter (expects e) (find_item (db_items (c_db c)) id)).
  { destruct (is_some e && negb _) eqn:Hb in Hs.
    - injection Hs as <- <-. apply andb_true_iff in Hb as [_ Hb]. destruct (opt_filter _ _); done.
    - apply store_get_Ok in Hs as (_ & -> & _). cbn [c_db db_items set_items].
      rewrite find_item_update_rows by done. destruct (find_item _ id) as [i|] eqn:Hf; [|done]. simpl.
      apply find_item_Some in Hf as [_ Hid]; [|done]. unfold has_id.
      rewrite (proj2 (String.eqb_eq _ _) Hid). cbn [opt_filter fmap option_fmap option_map andb] in *.
      destruct e as [st|]; [|done]. cbn [expects is_some andb] in *.
      destruct (eqb (it_status i) st); [done|discriminate Hb]. }
  split; [done|]. split; [done|]. intros ->. rewrite Hdb. apply set_items_id, update_rows_none.
  rewrite Hex. by destruct (opt_filter _ _).
Qed.
End StoreSteps.

Lemma rank_each_Ok `{World} now n ids c rows c' :
  NoDup ids -> rank_each now n ids c = (Ok rows, c') ->
  (forall i, i ∈ db_items (c_db c) -> it_id i ∉ ids -> i ∈ db_items (c_db c')) /\
  (forall i k, i ∈ db_items (c_db c) -> ids !! k = Some (it_id i) ->
    rank_item (f64_of_N (n + N.of_nat k)) now i ∈ db_items (c_db c')) /\
  it_id <$> db_items (c_db c') = it_id <$> db_items (c_db c).
Proof.
  revert n c rows. induction ids as [|id ids IH]; intros n c rows Hnd Hr; cbn [rank_each] in Hr.
  { injection Hr as <- <-. split; [auto|]. split; [|done]. intros i k _ Hk. by rewrite lookup_nil in Hk. }
  apply NoDup_cons in Hnd as [Hid Hnd].
  apply bind_Ok in Hr as (u & c1 & (_ & ->)%execute_Ok & Hr).
  apply bind_Ok in Hr as (row & c2 & (_ & -> & ->)%store_get_Ok & Hr).
  apply bind_Ok in Hr as (rows' & c3 & Hr & Hret). injection Hret as <- <-.
  destruct (IH _ _ _ Hnd Hr) as (H1 & H2 & H3). cbn [c_db tick db_items set_items] in *.
  set (f := rank_item (f64_of_N n) now) in *.
  assert (forall i, i ∈ db_items (c_db c) ->
    (if has_id id i then f i else i) ∈ update_rows (has_id id) f (db_items (c_db c))) as Hin.
  { intros i Hi. unfold update_rows. by apply (list_elem_of_fmap_2 (fun j => if has_id id j then f j else j)). }
  split; [|split].
  - intros i Hi Hni. apply not_elem_of_cons in Hni as [Hne Hni]. apply H1; [|done].
    specialize (Hin i Hi). unfold has_id in Hin.
    destruct (String.eqb (it_id i) id) eqn:E; bool_to_prop; [done|exact Hin].
  - intros i [|k] Hi Hk; cbn [lookup list_lookup] in Hk.
    + injection Hk as Hk. specialize (Hin i Hi).
      assert (has_id id i = true) as Hh by (unfold has_id; by rewrite Hk, String.eqb_refl).
      rewrite Hh in Hin. replace (n + N.of_nat 0)%N with n by lia.
      apply H1; [exact Hin|]. change (it_id (f i)) with (it_id i). by rewrite Hk in Hid.
    + specialize (Hin i Hi). unfold has_id in Hin.
      destruct (String.eqb (it_id i) id) eqn:E; bool_to_prop.
      { destruct Hid. rewrite <-E. by eapply list_elem_of_lookup_2. }
      replace (n + N.of_nat (S k))%N with (n + 1 + N.of_nat k)%N by lia. by apply H2.
  - rewrite H3. by apply update_rows_fmap.
Qed.

(** ** Properties *)

(** A new item's code is fresh and never reused: no item of the project has it, and the
    counter moves past its number, so a later code has a larger one even if this item is
    deleted. *)
Theorem next_code_fresh `{World} p c code c' :
  (highest_number (db_items (c_db c)) p + 1 < i64_max)%Z ->
  (default FIRST_NUMBER (stored_number (c_db c) p) < i64_max)%Z ->
  next_code p c = (Ok code, c') ->
  (forall i, i ∈ db_items (c_db c') -> it_project_id i = p -> it_code i <> code) /\
  exists n, code_number code = Some n /\ stored_number (c_db c') p = Some (n + 1)%Z /\
    (default FIRST_NUMBER (stored_number (c_db c) p) <= n)%Z.
Proof.
  intros Hh Hst Hc. apply next_code_Ok in Hc as (Hi & prefix & n & -> & Hn & Hge & Hgt & Hnext & _); [|done..].
  pose proof (highest_number_nonneg (db_items (c_db c)) p) as Hnn.
  assert (code_number (prefix +:+ "-" +:+ show_Z n) = Some n) as Hcode by (apply code_number_gen; lia).
  split; [|by exists n]. intros i Hin Hp Heq. rewrite Hi in Hin.
  assert (n <= highest_number (db_items (c_db c)) p)%Z; [|lia].
  eapply highest_number_ge; [done..|]. by rewrite Heq.
Qed.

(** A generic edit cannot hold, release, reject-with-reason, classify or re-home a row: of
    every row it keeps the identity, hold, close reason, triage and origin columns, it writes
    no row but the one named, and no other table. *)
Theorem generic_edit_keeps_rulings `{World} id p e c :
  let d := c_db c in let d' := c_db (store_apply id p e c).2 in
  ruling_cols <$> db_items d' = ruling_cols <$> db_items d /\
  lfilter (fun i => negb (has_id id i)) (db_items d') = lfilter (fun i => negb (has_id id i)) (db_items d) /\
  (exists l, d' = set_items (fun _ => l) d).
Proof.
  cbv zeta. set (Q d' := ruling_cols <$> db_items d' = ruling_cols <$> db_items (c_db c) /\
    lfilter (fun i => negb (has_id id i)) (db_items d') =
    lfilter (fun i => negb (has_id id i)) (db_items (c_db c)) /\
    exists l, d' = set_items (fun _ => l) (c_db c)).
  assert (preserves Q (store_apply id p e)) as Hp.
  { unfold store_apply. preserving. apply preserves_sql. intros d ch d' (H1 & H2 & l & ->) [= <- <-].
    split; [|split; [|by eexists]]; simpl.
    - rewrite update_rows_fmap by done. exact H1.
    - rewrite <-H2. simpl. unfold update_rows. clear. induction l as [|i l IH]; [done|].
      rewrite fmap_cons. cbn [lfilter]. rewrite IH. unfold has_id.
      destruct (String.eqb (it_id i) id) eqn:E; cbn [andb negb].
      + destruct (match e with Some s => _ | None => true end); simpl; by rewrite E.
      + by rewrite E. }
  apply (Hp c). split; [done|]. split; [done|]. exists (db_items (c_db c)). by destruct (c_db c).
Qed.

(** An edit guarded by a status is a compare-and-swap: when the row is as expected it is
    patched and returned and only it changes, otherwise the answer is [None] and the database is
    as it was. *)
Theorem update_where_status_exact `{World} id s p c o c' :
  NoDup (it_id <$> db_items (c_db c)) -> patch_sets_nothing p = false ->
  update_where_status id s p c = (Ok o, c') ->
  match find_item (db_items (c_db c)) id with
  | Some i =>
      if eqb (it_status i) s
      then exists now, o = Some (patch_item p now i) /\
             db_items (c_db c') = (fun j => if eqb (it_id j) id then patch_item p now j else j)
                                    <$> db_items (c_db c)
      else o = None /\ c_db c' = c_db c
  | None => o = None /\ c_db c' = c_db c
  end.
Proof.
  intros Hnd Hp Hs. pose proof (store_apply_Ok _ _ _ _ _ _ Hnd Hp Hs) as (now & Hdb & Ho & Hn).
  destruct (find_item _ id) as [i|] eqn:Hf; [|by split; [|apply Hn]].
  cbn [opt_filter expects] in Ho. destruct (eqb (it_status i) s) eqn:E; [|by split; [|apply Hn]].
  exists now. split; [done|]. rewrite Hdb. cbn [db_items set_items]. unfold update_rows.
  apply list_fmap_ext. intros k j Hj%list_elem_of_lookup_2.
  apply find_item_Some in Hf as [Hi Hid]; [|done]. unfold has_id. cbn [expects].
  destruct (String.eqb (it_id j) id) eqn:Ej; bool_to_prop; [|by rewrite (proj2 (eqb_neq _ _) Ej)].
  rewrite (proj2 (eqb_eq _ _) Ej). cbn [andb].
  assert (find_item (db_items (c_db c)) id = Some j) as Hfj by (by apply find_item_Some).
  rewrite (proj2 (find_item_Some _ id i Hnd)) in Hfj by done. injection Hfj as ->. by rewrite E, eqb_refl.
Qed.

(** Reordering is all or nothing: if any row's write fails no rank changed, and otherwise
    the [k]-th named row ranks [k], every other column and every other row is as it was. *)
Theorem set_ranks_atomic `{World} ids c r c' :
  NoDup ids -> set_ranks ids c = (r, c') ->
  match r with
  | Err _ => c_db c' = c_db c
  | Ok rows =>
      (forall i, i ∈ db_items (c_db c) -> it_id i ∉ ids -> i ∈ db_items (c_db c')) /\
      (forall i n, i ∈ db_items (c_db c) -> ids !! n = Some (it_id i) ->
        exists now, rank_item (f64_of_N (N.of_nat (S n))) now i ∈ db_items (c_db c')) /\
      it_id <$> db_items (c_db c') = it_id <$> db_items (c_db c)
  end.
Proof.
  intros Hnd Hs. destruct r as [rows|e].
  - apply transaction_Ok in Hs as (c1 & Hs & ->).
    apply bind_Ok in Hs as (now & c2 & Hnow & Hs). injection Hnow as <- <-.
    destruct (rank_each_Ok _ _ _ _ _ _ Hnd Hs) as (H1 & H2 & H3).
    split; [exact H1|]. split; [|exact H3]. intros i n Hi Hn. exists (w_now (c_tick (tick c))).
    replace (N.of_nat (S n)) with (1 + N.of_nat n)%N by lia. by apply H2.
  - pose proof (transaction_err _ _ _ (f_equal fst Hs)) as Ht. unfold set_ranks in Hs.
    by rewrite Hs in Ht.
Qed.

Definition witness_roadmap (items : list RoadmapItem) : Db := {|
  db_projects := {["p" := "Fletch App"]}; db_project_settings := ∅; db_settings := ∅;
  db_workspaces := {["a" := "Ada"]};
  db_autopilot_log := []; db_items := items; db_events := []; db_project_holds := ∅;
  db_proposals := []; db_orders := ∅; db_runs := []; db_definitions := ∅;
  db_repos := [{| repo_project_id := "p"; repo_path := "/src/app"; repo_created_at := 1 |}];
|}.

Lemma next_code_fresh_witness :
  let c := {| c_db := witness_roadmap []; c_tick := 0 |} in
  (@next_code (calm_world show_nat) "p" c).1 = Ok "FA-100" /\
  exists n, code_number "FA-100" = Some n.
Proof.
  split; [vm_compute; reflexivity|].
  destruct (@next_code_fresh (calm_world show_nat) "p" {| c_db := witness_roadmap []; c_tick := 0 |}
    "FA-100" (@next_code (calm_world show_nat) "p" {| c_db := witness_roadmap []; c_tick := 0 |}).2)
    as [_ (n & Hn & _)]; [vm_compute; reflexivity..|exists n; exact Hn].
Defined.

Definition witness_item (id code : string) (status : ItemStatus) (deps : list string) : RoadmapItem :=
  let i := new_row id "p" code (f64_of_N 1) 1 new_item_default in
  patch_item {| pt_title := None; pt_why := None; pt_horizon := None; pt_status := Some status;
    pt_source := None; pt_rank := None; pt_accept := None; pt_deps := Some deps; pt_area := None;
    pt_agent_id := None; pt_workflow_def_id := None; pt_run_id := None; pt_pr_url := None;
    pt_pr_number := None |} 1 i.

Definition two_items : Conn Db :=
  {| c_db := witness_roadmap [witness_item "i1" "FA-1" Queued []; witness_item "i2" "FA-2" Open ["FA-1"]];
     c_tick := 0 |}.

Lemma two_items_ids : NoDup (it_id <$> db_items (c_db two_items)).
Proof. apply (bool_decide_unpack _). vm_compute. exact I. Qed.

Lemma update_where_status_exact_witness :
  let w := calm_world show_nat in
  exists o c', @update_where_status w "i1" Queued (status_patch Active) two_items = (Ok o, c') /\
    exists now, o = Some (patch_item (status_patch Active) now (witness_item "i1" "FA-1" Queued [])).
Proof.
  cbv zeta. do 2 eexists. split; [vm_compute; reflexivity|].
  destruct (@update_where_status_exact (calm_world show_nat) "i1" Queued (status_patch Active) two_items
    _ _ two_items_ids eq_refl eq_refl) as (now & H & _). exists now. exact H.
Defined.

Lemma set_ranks_atomic_witness :
  let w := calm_world show_nat in
  it_id <$> db_items (c_db (@set_ranks w ["i2"; "i1"] two_items).2) = ["i1"; "i2"].
Proof.
  cbv zeta.
  assert (NoDup ["i2"; "i1"]) as Hnd by (apply (bool_decide_unpack _); vm_compute; exact I).
  pose proof (@set_ranks_atomic (calm_world show_nat) ["i2"; "i1"] two_items _ _ Hnd
    (surjective_pairing _)) as H.
  destruct (@set_ranks (calm_world show_nat) ["i2"; "i1"] two_items).1 eqn:E; [|discriminate E].
  destruct H as (_ & _ & H). exact H.
Defined.

(** A board of rows that refer to no other row, with no events and no asks, is well-formed when
    ids and codes are unique and nothing is held. *)
Lemma simple_board_ok items :
  NoDup (it_id <$> items) -> NoDup (code_key <$> items) ->
  Forall (fun i => it_from_item i = None /\ hold_ok i) items -> board_ok (witness_roadmap items).
Proof.
  intros H1 H2 H3. rewrite Forall_forall in H3. split; simpl; try done.
  - apply Forall_forall. intros i Hi. by apply H3.
  - intros i f Hi Hf. destruct (H3 i Hi) as [Hn _]. congruence.
  - by intros e ?%elem_of_nil.
  - by intros p ?%elem_of_nil.
  - constructor.
Qed.

Lemma two_items_ok : board_ok (c_db two_items).
Proof.
  apply simple_board_ok; [apply two_items_ids| |].
  - apply (bool_decide_unpack _). vm_compute. exact I.
  - repeat constructor.
Qed.
