(* ===== verification/Events.v ===== *)
(** * The item history

    Models src/crates/fletch-core/src/roadmap/events.rs: the append-only trail of a roadmap item
    and the queries for its latest entries. The table is in [rowid] order, so its reverse,
    sorted stably by time, is [ORDER BY created_at DESC, rowid DESC]. *)

From S2P Require Import Prelude RustStr Board Sql Database Store.

Local Open Scope string_scope.
Local Open Scope list_scope.

(** [created_at DESC]. *)
Definition ev_newer (a b : ItemEvent) : bool := (ev_created_at b <=? ev_created_at a)%Z.

(** [ORDER BY created_at DESC, rowid DESC] of rows in [rowid] order. *)
Definition newest_first (l : list ItemEvent) : list ItemEvent := sort_by ev_newer (rev l).

(** [ROW_NUMBER() OVER (PARTITION BY item_id ..) = 1] of rows newest first. *)
Fixpoint first_per_item (seen : list string) (l : list ItemEvent) : list ItemEvent :=
  match l with
  | [] => []
  | e :: l =>
      if lcontains seen (ev_item_id e) then first_per_item seen l
      else e :: first_per_item (ev_item_id e :: seen) l
  end.

Record TrailEntry := { te_actor : EventActor; te_kind : EventKind; te_detail : option string }.

Section Events.
Context `{World}.

Definition record (item_id project_id : string) (actor : EventActor) (kind : EventKind)
    (detail : option string) : M Db ItemEvent :=
  let* id := new_uuid in
  let* created_at := now_millis in
  let e := {| ev_id := id; ev_item_id := item_id; ev_project_id := project_id; ev_actor := actor;
              ev_kind := kind; ev_detail := detail; ev_created_at := created_at |} in
  let* _ := sql (fun d =>
    if existsb (fun e => String.eqb (ev_id e) id) (db_events d) then Err UNIQUE_FAILED
    else if negb (existsb (has_id item_id) (db_items d)) then Err FOREIGN_KEY_FAILED
    else Ok ((), set_events (fun l => l ++ [e]) d)) in
  ret e.

Definition list_for_item (item_id : string) : M Db (list ItemEvent) :=
  query (fun d => newest_first (lfilter (fun e => String.eqb (ev_item_id e) item_id) (db_events d))).

Definition latest_per_item (project_id : string) : M Db (list ItemEvent) :=
  query (fun d =>
    first_per_item [] (newest_first (lfilter (fun e => String.eqb (ev_project_id e) project_id) (db_events d)))).

Definition latest_by_item (project_id : string) : M Db (gmap string ItemEvent) :=
  let* l := latest_per_item project_id in
  ret (foldl (fun m e => <[ev_item_id e := e]> m) ∅ l).

Definition latest_for_item (item_id : string) : M Db (option ItemEvent) :=
  query (fun d =>
    head (newest_first (lfilter (fun e => String.eqb (ev_item_id e) item_id) (db_events d)))).
End Events.

Definition transition_kind (expected to : option ItemStatus) : EventKind :=
  match expected, to with
  | Some Proposed, Some Open => EvAccepted
  | Some Open, Some Queued => EvQueued
  | Some Queued, Some Open => EvUnqueued
  | Some InReview, Some Done => EvShipped
  | _, _ => EvEdited
  end.

(** ** Lemmas *)

Lemma ev_newer_total a b : ev_newer a b = true \/ ev_newer b a = true.
Proof. unfold ev_newer. lia. Qed.
Lemma ev_newer_trans a b c : ev_newer a b = true -> ev_newer b c = true -> ev_newer a c = true.
Proof. unfold ev_newer. lia. Qed.

Lemma elem_of_newest l e : e ∈ newest_first l <-> e ∈ l.
Proof. unfold newest_first. rewrite elem_of_sort_by. rewrite !list_elem_of_In. symmetry. apply in_rev. Qed.

Lemma rev_lfilter {A} (p : A -> bool) l : rev (lfilter p l) = lfilter p (rev l).
Proof.
  induction l as [|x l IH]; [done|]. simpl. rewrite lfilter_app, <-IH. simpl.
  destruct (p x); simpl; [done|by rewrite app_nil_r].
Qed.

(** Querying a part of the table is filtering the sorted table. *)
Lemma newest_first_filter p l : newest_first (lfilter p l) = lfilter p (newest_first l).
Proof.
  unfold newest_first. rewrite rev_lfilter. symmetry.
  apply sort_by_filter; [apply ev_newer_total|apply ev_newer_trans].
Qed.

Lemma lfind_lfilter {A} (p : A -> bool) l : lfind p l = head (lfilter p l).
Proof. induction l as [|x l IH]; simpl; [done|]. by destruct (p x). Qed.

Lemma first_per_item_spec seen l id :
  id ∉ seen ->
  lfind (fun e => String.eqb (ev_item_id e) id) (first_per_item seen l) =
  lfind (fun e => String.eqb (ev_item_id e) id) l.
Proof.
  revert seen. induction l as [|e l IH]; intros seen Hs; simpl; [done|].
  destruct (lcontains seen (ev_item_id e)) eqn:Hc; bool_to_prop.
  - destruct (String.eqb (ev_item_id e) id) eqn:E; bool_to_prop; [congruence|auto].
  - simpl. destruct (String.eqb (ev_item_id e) id) eqn:E; bool_to_prop; [done|].
    apply IH. rewrite elem_of_cons. intros [Hi|Hi]; [congruence|done].
Qed.

Lemma first_per_item_seen seen l e : e ∈ first_per_item seen l -> ev_item_id e ∉ seen.
Proof.
  revert seen. induction l as [|e' l IH]; intros seen; simpl; [by intros ?%elem_of_nil|].
  destruct (lcontains _ _) eqn:Hc; bool_to_prop; [apply IH|].
  intros [->|He]%elem_of_cons; [done|]. intros Hs. apply (IH _ He). by right.
Qed.

Lemma first_per_item_NoDup seen l : NoDup (ev_item_id <$> first_per_item seen l).
Proof.
  revert seen. induction l as [|e l IH]; intros seen; simpl; [constructor|].
  destruct (lcontains _ _); [apply IH|]. rewrite fmap_cons. apply NoDup_cons. split; [|apply IH].
  intros (e' & He & Hin)%list_elem_of_fmap. apply first_per_item_seen in Hin. apply Hin.
  rewrite He. by left.
Qed.

(** Collecting rows with distinct keys finds each. *)
Lemma foldl_insert_lookup (l : list ItemEvent) (m : gmap string ItemEvent) id :
  NoDup (ev_item_id <$> l) ->
  foldl (fun m e => <[ev_item_id e := e]> m) m l !! id =
  match lfind (fun e => String.eqb (ev_item_id e) id) l with Some e => Some e | None => m !! id end.
Proof.
  revert m. induction l as [|e l IH]; intros m Hnd; simpl; [done|].
  rewrite fmap_cons in Hnd. apply NoDup_cons in Hnd as [He Hnd]. rewrite IH by done.
  destruct (String.eqb (ev_item_id e) id) eqn:E; bool_to_prop.
  - assert (lfind (fun e => String.eqb (ev_item_id e) id) l = None) as ->.
    { apply lfind_None. intros x Hx. apply String.eqb_neq. intros Hxe. apply He. rewrite E, <-Hxe.
      by apply list_elem_of_fmap_2. }
    by rewrite E, lookup_insert_eq.
  - destruct (lfind _ l); [done|]. by apply lookup_insert_ne.
Qed.

Section EventLemmas.
Context `{World}.

Lemma list_for_item_reads id : reads (list_for_item id).
Proof. apply reads_query. Qed.
Lemma latest_for_item_reads id : reads (latest_for_item id).
Proof. apply reads_query. Qed.
Lemma latest_per_item_reads p : reads (latest_per_item p).
Proof. apply reads_query. Qed.

(** What a recorded event is, and that recording writes only the trail. *)
Lemma record_Ok id p a k det c e c' :
  record id p a k det c = (Ok e, c') ->
  c_db c' = set_events (fun l => l ++ [e]) (c_db c) /\
  ev_item_id e = id /\ ev_project_id e = p /\ ev_actor e = a /\ ev_kind e = k /\ ev_detail e = det /\
  ev_created_at e = w_now (S (c_tick c)) /\ id ∈ it_id <$> db_items (c_db c).
Proof.
  unfold record. intros Hr.
  apply bind_Ok in Hr as (u & c1 & Hu & Hr). injection Hu as <- <-.
  apply bind_Ok in Hr as (t & c2 & Ht & Hr). injection Ht as <- <-.
  apply bind_Ok in Hr as (v & c3 & (_ & d & Hd & ->)%sql_Ok & Hr). injection Hr as <- <-.
  cbn [c_db tick c_tick] in *. destruct (existsb _ (db_events _)); [done|].
  destruct (existsb (has_id id) _) eqn:E; [|done]. injection Hd as _ <-.
  repeat (split; [done|]). apply existsb_true_elem in E as (i & Hi & Hid).
  unfold has_id in Hid. bool_to_prop. rewrite <-Hid. by apply list_elem_of_fmap_2.
Qed.

Lemma record_board id p a k det : preserves board_ok (record id p a k det).
Proof.
  unfold record. preserving. apply preserves_sql. intros d x d' [H1 H2 H3 H4 H5 H6 H7].
  destruct (existsb _ (db_events _)); [done|]. destruct (existsb (has_id id) _) eqn:E; [|done].
  intros [= <- <-]. split; simpl; try done.
  intros e [He| ->%list_elem_of_singleton]%elem_of_app; [auto|]. simpl.
  apply existsb_true_elem in E as (i & Hi & Hid). unfold has_id in Hid. bool_to_prop. rewrite <-Hid.
  by apply list_elem_of_fmap_2.
Qed.
End EventLemmas.
#[export] Hint Resolve list_for_item_reads latest_for_item_reads latest_per_item_reads record_board : fletch.

(** ** Properties *)

(** History is append-only and led by what was recorded last: when the clock has not gone
    back for the item, its history afterwards is the new entry, as asked, before the whole of
    the old one. *)
Theorem recorded_event_leads `{World} id p a k det c e c1 l c0 l' c2 :
  record id p a k det c = (Ok e, c1) ->
  (forall e', e' ∈ db_events (c_db c) -> ev_item_id e' = id -> (ev_created_at e' <= ev_created_at e)%Z) ->
  list_for_item id c = (Ok l, c0) -> list_for_item id c1 = (Ok l', c2) ->
  l' = e :: l /\ ev_item_id e = id /\ ev_kind e = k /\ ev_actor e = a /\ ev_detail e = det.
Proof.
  intros Hr Hold Hl Hl'. apply record_Ok in Hr as (Hdb & Hid & _ & Ha & Hk & Hd & _ & _).
  apply query_Ok in Hl as (_ & -> & _). apply query_Ok in Hl' as (_ & -> & _).
  split; [|done]. rewrite Hdb. cbn [db_events set_events]. unfold newest_first.
  rewrite lfilter_app. cbn [lfilter]. rewrite (proj2 (String.eqb_eq _ _) Hid), rev_app_distr. cbn [rev app].
  apply sort_by_cons. intros e' He'. rewrite rev_lfilter in He'. apply elem_of_lfilter in He' as [He' Hi].
  bool_to_prop. unfold ev_newer. apply Z.leb_le, Hold; [|done].
  apply list_elem_of_In, in_rev. by apply list_elem_of_In.
Qed.

(** The board's one query for every item's latest entry agrees with asking item by item. *)
Theorem latest_by_item_agrees `{World} p id c m c1 o c2 :
  latest_by_item p c = (Ok m, c1) -> latest_for_item id c1 = (Ok o, c2) ->
  (forall e, e ∈ db_events (c_db c) -> ev_item_id e = id -> ev_project_id e = p) ->
  m !! id = o.
Proof.
  intros Hm Ho Hp. apply bind_Ok in Hm as (l & c' & (_ & -> & ->)%query_Ok & Hm).
  injection Hm as <- <-. apply query_Ok in Ho as (_ & -> & _). cbn [c_db tick].
  rewrite foldl_insert_lookup by apply first_per_item_NoDup.
  rewrite first_per_item_spec by apply not_elem_of_nil.
  rewrite lfind_lfilter, <-newest_first_filter, lookup_empty.
  assert (forall l : list ItemEvent, (forall e, e ∈ l -> ev_item_id e = id -> ev_project_id e = p) ->
    lfilter (fun e => String.eqb (ev_item_id e) id)
      (lfilter (fun e => String.eqb (ev_project_id e) p) l) =
    lfilter (fun e => String.eqb (ev_item_id e) id) l) as Hl.
  { induction l as [|e l IH]; intros Hpe; [done|]. cbn [lfilter].
    rewrite <-IH by (intros e' He'; apply Hpe; by right).
    destruct (String.eqb (ev_item_id e) id) eqn:Ei; bool_to_prop.
    - rewrite (proj2 (String.eqb_eq _ _) (Hpe e (list_elem_of_here _ _) Ei)). simpl.
      by rewrite (proj2 (String.eqb_eq _ _) Ei).
    - destruct (String.eqb (ev_project_id e) p); [|done]. simpl.
      by rewrite (proj2 (String.eqb_neq _ _) Ei). }
  rewrite Hl by done. by destruct (newest_first _).
Qed.

Definition one_note : Conn Db :=
  (@record (calm_world show_nat) "i1" "p" ActUser EvNote (Some "a") two_items).2.

Lemma recorded_event_leads_witness :
  exists e c1 l c0 l' c2, @record (calm_world show_nat) "i1" "p" ActUser EvNote (Some "b") one_note = (Ok e, c1) /\
    @list_for_item (calm_world show_nat) "i1" one_note = (Ok l, c0) /\
    @list_for_item (calm_world show_nat) "i1" c1 = (Ok l', c2) /\ length l = 1 /\ l' = e :: l.
Proof.
  do 6 eexists. split; [vm_compute; reflexivity|]. split; [vm_compute; reflexivity|].
  split; [vm_compute; reflexivity|]. split; [reflexivity|].
  eapply (@recorded_event_leads (calm_world show_nat) "i1" "p" ActUser EvNote (Some "b") one_note);
    [vm_compute; reflexivity| |vm_compute; reflexivity..].
  intros e' He' _. vm_compute in He'. apply list_elem_of_singleton in He'. rewrite He'. vm_compute.
  discriminate.
Defined.

Lemma latest_by_item_agrees_witness :
  exists m c1 e c2, @latest_by_item (calm_world show_nat) "p" one_note = (Ok m, c1) /\
    @latest_for_item (calm_world show_nat) "i1" c1 = (Ok (Some e), c2) /\ m !! "i1" = Some e.
Proof.
  do 4 eexists. split; [vm_compute; reflexivity|]. split; [vm_compute; reflexivity|].
  eapply (@latest_by_item_agrees (calm_world show_nat) "p" "i1" one_note);
    [vm_compute; reflexivity..|].
  intros e He _. vm_compute in He. apply list_elem_of_singleton in He. rewrite He. reflexivity.
Defined.
