(* ===== verification/Brakes.v ===== *)
(** * Holds on items and on the board

    Models src/crates/fletch-core/src/roadmap/brakes.rs. The pilot and the product manager may
    hold; releasing goes through the user's commands, and records the user. *)

From S2P Require Import Prelude RustStr Board Sql Database Store Events.

Local Open Scope string_scope.
Local Open Scope list_scope.

Definition MAX_REASON : nat := 300.

Inductive ReasonKind := RkHold | RkReject.

Definition clean_reason_for (reason : string) (kind : ReasonKind) : result string string :=
  let reason := trim reason in
  if is_empty reason then
    Err (match kind with
         | RkHold => "`reason` is required — say what has to be agreed before this moves"
         | RkReject => "`reason` is required — the rejected row is the decision log, and the reason is the decision"
         end)
  else
    let length := char_count reason in
    if (MAX_REASON <? length)%nat then
      Err (match kind with
           | RkHold => "`reason` is " +:+ show_nat length +:+ " characters — keep it under "
               +:+ show_nat MAX_REASON
               +:+ ". Say what has to be agreed; the argument for it belongs in the conversation"
           | RkReject => "`reason` is " +:+ show_nat length +:+ " characters — keep it under "
               +:+ show_nat MAX_REASON
               +:+ ". Say the ruling; the argument for it belongs in the conversation"
           end)
    else Ok reason.

Definition clean_reason (reason : string) : result string string := clean_reason_for reason RkHold.

(** The columns of a hold, and [updated_at]. *)
Definition set_hold (reason : option string) (by_ : option EventActor) (at_ : option Z) (now : Z)
    (i : RoadmapItem) : RoadmapItem :=
  set_lifecycle (it_status i) reason by_ at_ (it_close_reason i) (it_agent_id i) now i.

Definition UNREADABLE : string := "the board's hold could not be read".

Section Brakes.
Context `{World}.

Definition hold_item (item_id reason : string) (by_ : EventActor) : M Db (option RoadmapItem) :=
  let* now := now_millis in
  let* _ := execute (set_items (update_rows (has_id item_id)
              (set_hold (Some reason) (Some by_) (Some now) now))) in
  store_get item_id.

Definition release_item (item_id : string) : M Db (option (RoadmapItem * option string)) :=
  let* current := store_get item_id in
  let_some current := current or ret None in
  let lifted := it_hold_reason current in
  if is_none lifted then ret (Some (current, None))
  else
    let* now := now_millis in
    let* _ := execute (set_items (update_rows (has_id item_id) (set_hold None None None now))) in
    let* row := store_get item_id in
    ret ((fun row => (row, lifted)) <$> row).

Definition hold_with_event (item_id reason : string) (by_ : EventActor) : M Db (RoadmapItem * ItemEvent) :=
  let* item := hold_item item_id reason by_ in
  let* item := require_some (missing item_id) item in
  let* event := record (it_id item) (it_project_id item) by_ EvHeld (Some reason) in
  ret (item, event).

Definition release_with_event (item_id : string) : M Db (RoadmapItem * option ItemEvent) :=
  let* released := release_item item_id in
  let* (item, lifted) := require_some (missing item_id) released in
  match lifted with
  | None => ret (item, None)
  | Some lifted =>
      let* event := record (it_id item) (it_project_id item) ActUser EvReleased (Some lifted) in
      ret (item, Some event)
  end.

Definition get_project (project_id : string) : M Db (option ProjectHold) :=
  query (fun d => db_project_holds d !! project_id).

(** The upsert; the project must exist. *)
Definition hold_project (project_id reason : string) (by_ : EventActor) : M Db ProjectHold :=
  let* created_at := now_millis in
  let hold := {| ph_project_id := project_id; ph_reason := reason; ph_held_by := by_;
                 ph_created_at := created_at |} in
  let* _ := sql (fun d =>
    if is_some (db_projects d !! project_id)
    then Ok ((), set_project_holds (fun m => <[project_id := hold]> m) d)
    else Err FOREIGN_KEY_FAILED) in
  ret hold.

Definition release_project (project_id : string) : M Db bool :=
  sql (fun d => Ok (is_some (db_project_holds d !! project_id),
                    set_project_holds (fun m => delete project_id m) d)).

Definition project_gate (project_id : string) : M Db (option string) :=
  let* r := attempt (get_project project_id) in
  ret (match r with
       | Ok hold => ph_reason <$> hold
       | Err _ => Some UNREADABLE
       end).

Definition gate (item : RoadmapItem) : M Db (option string) :=
  match it_hold_reason item with
  | Some reason => ret (Some reason)
  | None => project_gate (it_project_id item)
  end.
End Brakes.

(** ** Lemmas *)

Section BrakeLemmas.
Context `{World}.

Lemma get_project_reads p : reads (get_project p).
Proof. apply reads_query. Qed.
#[local] Hint Resolve get_project_reads : fletch.

Lemma project_gate_reads p : reads (project_gate p).
Proof. unfold project_gate. reading. Qed.
#[local] Hint Resolve project_gate_reads : fletch.

Lemma gate_reads i : reads (gate i).
Proof. unfold gate. reading. Qed.

Lemma set_hold_keeps r b t now : keeps_identity (set_hold r b t now).
Proof. done. Qed.

Lemma hold_item_board id r b : preserves board_ok (hold_item id r b).
Proof. unfold hold_item. preserving. by apply preserves_update_rows. Qed.

Lemma release_item_board id : preserves board_ok (release_item id).
Proof. unfold release_item. preserving. by apply preserves_update_rows. Qed.

#[local] Hint Resolve hold_item_board release_item_board : fletch.

Lemma hold_with_event_board id r b : preserves board_ok (hold_with_event id r b).
Proof. unfold hold_with_event. preserving. Qed.

Lemma release_with_event_board id : preserves board_ok (release_with_event id).
Proof. unfold release_with_event. preserving. Qed.

Lemma hold_project_board p r b : preserves board_ok (hold_project p r b).
Proof.
  unfold hold_project. preserving. apply preserves_sql. intros d x d' Hd. destruct (is_some _); [|done].
  intros [= <- <-]. by apply (board_ok_ext d).
Qed.

Lemma release_project_board p : preserves board_ok (release_project p).
Proof. apply preserves_sql. intros d x d' Hd [= <- <-]. by apply (board_ok_ext d). Qed.

Lemma project_gate_Ok p c o c' :
  project_gate p c = (Ok o, c') ->
  o = match w_fault (c_tick c) with
      | Some _ => Some UNREADABLE
      | None => ph_reason <$> (db_project_holds (c_db c) !! p)
      end.
Proof.
  unfold project_gate, get_project, attempt, bind, query, sql.
  destruct (w_fault _); intros Hg; injection Hg as <- _; done.
Qed.

(** Rewriting the one row with an id. *)
Lemma update_one_row id f c old :
  NoDup (it_id <$> db_items (c_db c)) -> (forall i, it_id (f i) = it_id i) ->
  find_item (db_items (c_db c)) id = Some old ->
  find_item (update_rows (has_id id) f (db_items (c_db c))) id = Some (f old).
Proof.
  intros Hnd Hf Hold. rewrite find_item_update_rows, Hold by done.
  apply find_item_Some in Hold as [_ Hid]; [|done]. unfold has_id. simpl.
  by rewrite (proj2 (String.eqb_eq _ _) Hid).
Qed.

Lemma hold_with_event_Ok id reason by_ c i e c' :
  NoDup (it_id <$> db_items (c_db c)) -> hold_with_event id reason by_ c = (Ok (i, e), c') ->
  exists now old, find_item (db_items (c_db c)) id = Some old /\
    i = set_hold (Some reason) (Some by_) (Some now) now old /\
    db_items (c_db c') = update_rows (has_id id) (set_hold (Some reason) (Some by_) (Some now) now)
                           (db_items (c_db c)) /\
    ev_kind e = EvHeld /\ ev_actor e = by_.
Proof.
  intros Hnd Hh. apply bind_Ok in Hh as (o & c3 & Hh & Hh2).
  apply bind_Ok in Hh as (now & c4 & Hnow & Hh). injection Hnow as <- <-.
  apply bind_Ok in Hh as (u & c5 & (_ & ->)%execute_Ok & Hh). apply store_get_Ok in Hh as (_ & -> & ->).
  cbn [c_db tick db_items set_items c_tick] in *. apply bind_Ok in Hh2 as (i0 & c6 & Hq & Hh2).
  destruct (find_item (db_items (c_db c)) id) as [old|] eqn:Hf.
  - rewrite (update_one_row _ _ _ old) in Hq by done. injection Hq as <- <-.
    apply bind_Ok in Hh2 as (e0 & c7 & Hrec & Hret). injection Hret as <- <- <-.
    apply record_Ok in Hrec as (Hdb & _ & _ & Ha & Hk & _). rewrite Hdb. by do 2 eexists.
  - rewrite find_item_update_rows, Hf in Hq by done. discriminate Hq.
Qed.

Lemma release_with_event_Ok id c i e c' old reason :
  NoDup (it_id <$> db_items (c_db c)) -> find_item (db_items (c_db c)) id = Some old ->
  it_hold_reason old = Some reason -> release_with_event id c = (Ok (i, e), c') ->
  exists now ev, i = set_hold None None None now old /\ e = Some ev /\
    ev_kind ev = EvReleased /\ ev_actor ev = ActUser /\ ev_detail ev = Some reason.
Proof.
  intros Hnd Hf Hreason Hr. apply bind_Ok in Hr as (o & d1 & Hr & Hr2).
  apply bind_Ok in Hr as (cur & d2 & (_ & -> & ->)%store_get_Ok & Hr). rewrite Hf, Hreason in Hr.
  cbn [is_none is_some negb] in Hr.
  apply bind_Ok in Hr as (now & d3 & Hnow & Hr). injection Hnow as <- <-.
  apply bind_Ok in Hr as (u & d4 & (_ & ->)%execute_Ok & Hr).
  apply bind_Ok in Hr as (row & d5 & (_ & -> & ->)%store_get_Ok & Hr). injection Hr as <- <-.
  cbn [c_db tick db_items set_items c_tick] in *. rewrite (update_one_row _ _ _ old) in Hr2 by done.
  apply bind_Ok in Hr2 as (pr & d6 & Hq & Hr2). injection Hq as <- <-.
  apply bind_Ok in Hr2 as (ev & d7 & Hrec & Hret). injection Hret as <- <- <-.
  apply record_Ok in Hrec as (_ & _ & _ & Ha & Hk & Hd & _). by do 2 eexists.
Qed.
End BrakeLemmas.
#[export] Hint Resolve get_project_reads project_gate_reads gate_reads hold_with_event_board
  release_with_event_board hold_project_board release_project_board : fletch.

(** ** Properties *)

(** (C39) The gate fails closed: it lets an item through exactly when the item is not held, its
    board's hold could be read, and there is none; a hold on the item wins over one on the
    board. *)
Theorem gate_fails_closed `{World} i c o c' :
  gate i c = (Ok o, c') ->
  (o = None <-> it_hold_reason i = None /\ w_fault (c_tick c) = None /\
                db_project_holds (c_db c) !! it_project_id i = None) /\
  (forall r, it_hold_reason i = Some r -> o = Some r).
Proof.
  unfold gate. destruct (it_hold_reason i) as [r|].
  - intros Hg. injection Hg as <- _. split; [split; [done|by intros [? _]]|]. by intros r' [= ->].
  - intros ->%project_gate_Ok. split; [|done]. destruct (w_fault _).
    + split; [done|]. by intros (_ & ? & _).
    + destruct (db_project_holds _ !! _); simpl; [|done]. split; [done|]. by intros (_ & _ & ?).
Qed.

(** Holding stops an item where it is and only a release by the user lifts it: a placed hold
    is recorded under who placed it and leaves the status as it was; the release returns the
    row unheld, with a [released] entry of the user carrying the reason that was lifted. *)
Theorem hold_release_roundtrip `{World} id reason by_ c i e c1 i' e' c2 :
  NoDup (it_id <$> db_items (c_db c)) ->
  hold_with_event id reason by_ c = (Ok (i, e), c1) ->
  release_with_event id c1 = (Ok (i', e'), c2) ->
  (exists old, find_item (db_items (c_db c)) id = Some old /\ it_status i = it_status old /\
    it_status i' = it_status old) /\
  it_hold_reason i = Some reason /\ it_held_by i = Some by_ /\
  ev_kind e = EvHeld /\ ev_actor e = by_ /\
  it_hold_reason i' = None /\ it_held_by i' = None /\ it_held_at i' = None /\
  exists ev, e' = Some ev /\ ev_kind ev = EvReleased /\ ev_actor ev = ActUser /\ ev_detail ev = Some reason.
Proof.
  intros Hnd Hh Hr. apply hold_with_event_Ok in Hh as (now & old & Hf & -> & Hdb & Hk & Ha); [|done].
  set (f := set_hold (Some reason) (Some by_) (Some now) now) in *.
  assert (find_item (db_items (c_db c1)) id = Some (f old)) as Hf1
    by (rewrite Hdb; by apply update_one_row).
  assert (NoDup (it_id <$> db_items (c_db c1))) as Hnd1 by (rewrite Hdb; by rewrite update_rows_fmap).
  apply (release_with_event_Ok _ _ _ _ _ (f old) reason) in Hr as (now' & ev & -> & Hev); [|done..].
  split; [by exists old|]. repeat (split; [done|]). by exists ev.
Qed.

Lemma gate_fails_closed_witness :
  @gate (calm_world show_nat) (witness_item "i1" "FA-1" Queued []) two_items = (Ok None, tick two_items) /\
  it_hold_reason (witness_item "i1" "FA-1" Queued []) = None.
Proof.
  split; [vm_compute; reflexivity|].
  exact (proj1 (proj1 (proj1 (@gate_fails_closed (calm_world show_nat)
    (witness_item "i1" "FA-1" Queued []) two_items None (tick two_items) eq_refl)) eq_refl)).
Defined.

Lemma hold_release_roundtrip_witness :
  exists i e c1 i' e' c2,
    @hold_with_event (calm_world show_nat) "i1" "agree the schema" ActPm two_items = (Ok (i, e), c1) /\
    @release_with_event (calm_world show_nat) "i1" c1 = (Ok (i', e'), c2) /\
    it_hold_reason i = Some "agree the schema" /\ it_hold_reason i' = None.
Proof.
  do 6 eexists. split; [vm_compute; reflexivity|]. split; [vm_compute; reflexivity|].
  edestruct (@hold_release_roundtrip (calm_world show_nat) "i1" "agree the schema" ActPm two_items)
    as (_ & Hr & _ & _ & _ & Hr' & _); [apply two_items_ids|vm_compute; reflexivity..|].
  split; [exact Hr|exact Hr'].
Defined.
