(* ===== verification/Queue.v ===== *)
(** * The roadmap queue's decisions

    Models the part of src/crates/fletch-core/src/roadmap/drainer.rs that decides: what is
    eligible, what comes next, what a finished run means for its item, the brief a run is given,
    and the project's dials. [Drainer.v] has the part that claims and settles. *)

From S2P Require Import Prelude RustStr Board Sql Database Store.

Local Open Scope string_scope.
Local Open Scope list_scope.

Definition MAX_CONCURRENT_ROADMAP_RUNS : N := 1.
Definition MAX_CONCURRENT_ROADMAP_CEILING : N := 4.

Inductive Decision :=
| QEmpty
| QAtCapacity
| QBlocked (item_id : string) (waiting_on : list string)
| QDispatch (index : nat).

Definition done_codes (items : list RoadmapItem) : gset string :=
  list_to_set (it_code <$> lfilter (fun i => eqb (it_status i) Done && negb (is_held i)) items).

Definition known_codes (items : list RoadmapItem) : gset string := list_to_set (it_code <$> items).

Definition unsatisfied_deps (deps : list string) (done known : gset string) : list string :=
  lfilter (fun d => bool_decide (d ∈ known) && negb (bool_decide (d ∈ done))) deps.

Definition dispatchable (items : list RoadmapItem) : list RoadmapItem :=
  lfilter (fun i => eqb (it_status i) Queued && is_none (it_agent_id i) && negb (is_held i)) items.

(** The loop of [pick_next]: [i] counts, [head_block] is the first blocked item seen. *)
Fixpoint pick_from (i : nat) (queued : list RoadmapItem) (done known : gset string)
    (head_block : option (string * list string)) : Decision :=
  match queued with
  | [] =>
      match head_block with
      | Some (item_id, waiting_on) => QBlocked item_id waiting_on
      | None => QEmpty
      end
  | item :: queued =>
      match unsatisfied_deps (it_deps item) done known with
      | [] => QDispatch i
      | waiting =>
          pick_from (S i) queued done known (or_else head_block (Some (it_id item, waiting)))
      end
  end.

Definition pick_next (queued : list RoadmapItem) (live_runs cap : N) (done known : gset string)
    : Decision :=
  match queued with
  | [] => QEmpty
  | _ => if (cap <=? live_runs)%N then QAtCapacity else pick_from 0 queued done known None
  end.

Definition resolve_workflow (item : RoadmapItem) (project_default : option string) : option string :=
  or_else (it_workflow_def_id item) project_default.

(** ** Settlements *)

Inductive RunStatus := RunPending | RunRunning | RunDone | RunFailed | RunCanceled.
#[export] Instance RunStatus_eq_dec : EqDecision RunStatus.
Proof. solve_decision. Defined.

Definition run_status_from_db (s : string) : option RunStatus :=
  if String.eqb s "pending" then Some RunPending
  else if String.eqb s "running" then Some RunRunning
  else if String.eqb s "done" then Some RunDone
  else if String.eqb s "failed" then Some RunFailed
  else if String.eqb s "canceled" then Some RunCanceled
  else None.

Record FinalizedPr := { fp_url : string; fp_number : option Z }.

Inductive Settlement := StRunning | StInReview | StDone | StReleased (why : string).
#[export] Instance Settlement_eq_dec : EqDecision Settlement.
Proof. solve_decision. Defined.

Definition RUN_FAILED : string := "its run failed".
Definition RUN_CANCELED : string := "its run was canceled".
Definition RUN_DELETED : string := "its run was deleted".
Definition RUN_NEVER_STARTED : string := "its run never started".
Definition RUN_UNLAUNCHABLE : string := "its run couldn't be started".

Definition release_kind (why : string) : EventKind :=
  if String.eqb why RUN_CANCELED then EvRunCanceled
  else if String.eqb why RUN_DELETED then EvRunDeleted
  else EvRunFailed.

Definition settle (status : option RunStatus) (pr : option FinalizedPr) : Settlement :=
  match status with
  | None => StReleased RUN_DELETED
  | Some RunPending | Some RunRunning => StRunning
  | Some RunDone => if is_some pr then StInReview else StDone
  | Some RunFailed => StReleased RUN_FAILED
  | Some RunCanceled => StReleased RUN_CANCELED
  end.

Definition settlement_event (outcome : Settlement) (pr : option FinalizedPr)
    : option (EventKind * option string) :=
  match outcome with
  | StRunning => None
  | StInReview => Some (EvPrOpened, fp_url <$> pr)
  | StDone => Some (EvShipped, None)
  | StReleased why => Some (release_kind why, Some why)
  end.

Definition settlement_patch (outcome : Settlement) (pr : option FinalizedPr) : ItemPatch :=
  match outcome with
  | StRunning => item_patch_default
  | StInReview => with_pr (Some (fp_url <$> pr)) (Some (pr ≫= fp_number)) (status_patch InReview)
  | StDone => status_patch Done
  | StReleased _ => with_run_id (Some None) (status_patch Open)
  end.

(** ** The brief *)

Definition build_brief (item : RoadmapItem) (deps : list RoadmapItem) : string :=
  let lines := [it_code item +:+ ": " +:+ it_title item] in
  let lines := lines ++ (if is_empty (trim (it_why item)) then [] else [""; trim (it_why item)]) in
  let lines := lines ++ match it_accept item with
    | [] => []
    | accept => [""; "Done when:"] ++ ((fun a => "- [ ] " +:+ a) <$> accept)
    end in
  let lines := lines ++ match deps with
    | [] => []
    | _ => [""; "Builds on work that has already landed:"]
           ++ ((fun d => "- " +:+ it_code d +:+ ": " +:+ it_title d +:+ " (done)") <$> deps)
    end in
  let lines := lines ++ [""; "Reference [" +:+ it_code item
    +:+ "] in the pull request title and description so this item can be tracked back to the roadmap."] in
  join newline lines.

(** ** The dials *)

Definition DEFAULT_WORKFLOW_KEY : string := "workflow.default".
Definition MAX_CONCURRENT_KEY : string := "roadmap.max_concurrent".
Definition AUTOQUEUE_KEY : string := "roadmap.autoqueue".

Definition parse_flag (raw : option string) (default_ : bool) : bool :=
  match to_ascii_lowercase <$> raw with
  | None => default_
  | Some v =>
      if lcontains ["1"; "true"; "on"; "yes"] v then true
      else if lcontains ["0"; "false"; "off"; "no"] v then false
      else default_
  end.

Definition parse_cap (raw : option string) : N :=
  N.min (default MAX_CONCURRENT_ROADMAP_RUNS (opt_filter (fun n => (1 <=? n)%N) (raw ≫= parse_usize)))
        MAX_CONCURRENT_ROADMAP_CEILING.

Section Dials.
Context `{World}.

(** A setting that cannot be read is one that is not set. *)
Definition project_setting (project_id key : string) : M Db (option string) :=
  let* v := attempt_ok (select_project_setting project_id key) in
  ret (opt_filter (fun s => negb (is_empty s)) (trim <$> mjoin v)).

Definition project_flag (project_id key : string) (default_ : bool) : M Db bool :=
  let* v := project_setting project_id key in ret (parse_flag v default_).

Definition autoqueue (project_id : string) : M Db bool :=
  project_flag project_id AUTOQUEUE_KEY false.

Definition concurrency_cap (project_id : string) : M Db N :=
  let* v := project_setting project_id MAX_CONCURRENT_KEY in ret (parse_cap v).

Lemma project_setting_reads p k : reads (project_setting p k).
Proof. unfold project_setting. reading. Qed.
#[local] Hint Resolve project_setting_reads : fletch.

Lemma autoqueue_reads p : reads (autoqueue p).
Proof. unfold autoqueue, project_flag. reading. Qed.

Lemma concurrency_cap_reads p : reads (concurrency_cap p).
Proof. unfold concurrency_cap. reading. Qed.
End Dials.
#[export] Hint Resolve project_setting_reads autoqueue_reads concurrency_cap_reads : fletch.

(** ** Lemmas *)

Lemma elem_of_unsatisfied deps done known d :
  d ∈ unsatisfied_deps deps done known <-> d ∈ deps /\ d ∈ known /\ d ∉ done.
Proof.
  unfold unsatisfied_deps. rewrite elem_of_lfilter, andb_true_iff, negb_true_iff,
    bool_decide_eq_true, bool_decide_eq_false. tauto.
Qed.

Lemma elem_of_done items d :
  d ∈ done_codes items <->
  exists i, i ∈ items /\ it_code i = d /\ it_status i = Done /\ it_hold_reason i = None.
Proof.
  unfold done_codes. rewrite elem_of_list_to_set, list_elem_of_fmap. split.
  - intros (i & -> & [Hi Hp]%elem_of_lfilter). unfold is_held in Hp. bool_to_prop. by exists i.
  - intros (i & Hi & <- & Hs & Hh). exists i. split; [done|]. apply elem_of_lfilter. split; [done|].
    unfold is_held. by rewrite Hs, Hh.
Qed.

Lemma pick_from_exact i queued done known hb :
  match pick_from i queued done known hb with
  | QEmpty => queued = [] /\ hb = None
  | QAtCapacity => False
  | QDispatch j => exists k item, j = (i + k)%nat /\ queued !! k = Some item /\
      unsatisfied_deps (it_deps item) done known = [] /\
      forall m it, (m < k)%nat -> queued !! m = Some it -> unsatisfied_deps (it_deps it) done known <> []
  | QBlocked id waiting =>
      (forall m it, queued !! m = Some it -> unsatisfied_deps (it_deps it) done known <> []) /\
      match hb with
      | Some b => b = (id, waiting)
      | None => exists item, head queued = Some item /\ it_id item = id /\
                  waiting = unsatisfied_deps (it_deps item) done known
      end
  end.
Proof.
  revert i hb. induction queued as [|item queued IH]; intros i hb; simpl.
  { destruct hb as [[id w]|]; [|done]. split; [intros m it Hm; by rewrite lookup_nil in Hm|done]. }
  destruct (unsatisfied_deps (it_deps item) done known) as [|w ws] eqn:E.
  { exists 0%nat, item. split; [lia|]. split; [done|]. split; [done|]. intros m it Hm; lia. }
  specialize (IH (S i) (or_else hb (Some (it_id item, w :: ws)))).
  destruct (pick_from _ _ _ _ _) as [| |id wa|j].
  - destruct hb; by destruct IH as [_ ?].
  - done.
  - destruct IH as [Hall Hb]. split.
    + intros [|m] it Hm; simpl in Hm; [injection Hm as <-; congruence|by eapply Hall].
    + destruct hb as [b|]; [done|]. simpl in Hb. injection Hb as <- <-. by exists item.
  - destruct IH as (k & it & -> & Hk & Hu & Hall). exists (S k), it. split; [lia|].
    split; [done|]. split; [done|]. intros [|m] it' Hm Hl; simpl in Hl; [injection Hl as <-; congruence|].
    apply (Hall m); [lia|done].
Qed.

Lemma pick_next_spec queued live cap done known :
  match pick_next queued live cap done known with
  | QEmpty => queued = []
  | QAtCapacity => queued <> [] /\ (cap <= live)%N
  | QDispatch i => (live < cap)%N /\ exists item, queued !! i = Some item /\
      (forall d, d ∈ it_deps item -> d ∈ known -> d ∈ done) /\
      forall m it, (m < i)%nat -> queued !! m = Some it ->
        exists d, d ∈ it_deps it /\ d ∈ known /\ d ∉ done
  | QBlocked id waiting => (live < cap)%N /\
      (forall it, it ∈ queued -> exists d, d ∈ it_deps it /\ d ∈ known /\ d ∉ done) /\
      exists item, head queued = Some item /\ it_id item = id /\
        forall d, d ∈ waiting <-> d ∈ it_deps item /\ d ∈ known /\ d ∉ done
  end.
Proof.
  assert (forall it, unsatisfied_deps (it_deps it) done known <> [] ->
    exists d, d ∈ it_deps it /\ d ∈ known /\ d ∉ done) as Hne.
  { intros it Hu. destruct (unsatisfied_deps _ _ _) as [|d l] eqn:E; [done|]. exists d.
    apply elem_of_unsatisfied. rewrite E. apply list_elem_of_here. }
  unfold pick_next. destruct queued as [|q qs]; [done|].
  destruct (cap <=? live)%N eqn:Hc; [apply N.leb_le in Hc; done|]. apply N.leb_gt in Hc.
  pose proof (pick_from_exact 0 (q :: qs) done known None) as Hp.
  destruct (pick_from _ _ _ _ _) as [| |id wa|j].
  - by destruct Hp.
  - done.
  - destruct Hp as (Hall & item & Hh & Hid & ->). split; [done|]. split.
    + intros it [m Hm]%list_elem_of_lookup_1. eauto.
    + exists item. split; [done|]. split; [done|]. intros d. apply elem_of_unsatisfied.
  - destruct Hp as (k & item & -> & Hk & Hu & Hall). split; [done|]. exists item. split; [done|].
    split; [|intros m it Hm Hl; apply Hne; eapply Hall; [|done]; lia].
    intros d Hd Hkn. destruct (decide (d ∈ done)) as [?|Hn]; [done|].
    assert (d ∈ unsatisfied_deps (it_deps item) done known) as Hx by (by apply elem_of_unsatisfied).
    rewrite Hu in Hx. by apply elem_of_nil in Hx.
Qed.

(** A hold is transitive: what the queue dispatches is queued, unassigned and not held, and
    every row of the board it depends on has shipped and is not held either. *)
Lemma dispatch_respects_holds items live cap i item :
  NoDup (it_code <$> items) ->
  pick_next (dispatchable items) live cap (done_codes items) (known_codes items) = QDispatch i ->
  dispatchable items !! i = Some item ->
  item ∈ items /\ it_status item = Queued /\ it_agent_id item = None /\ it_hold_reason item = None /\
  forall dep, dep ∈ items -> it_code dep ∈ it_deps item ->
    it_status dep = Done /\ it_hold_reason dep = None.
Proof.
  intros Hnd Hp Hi. pose proof (pick_next_spec (dispatchable items) live cap (done_codes items)
    (known_codes items)) as He. rewrite Hp in He. destruct He as (_ & item' & Hi' & Hdeps & _).
  rewrite Hi in Hi'. injection Hi' as <-.
  apply list_elem_of_lookup_2, elem_of_lfilter in Hi as [Hin Hq]. unfold is_held, is_none in Hq.
  bool_to_prop. repeat (split; [done|]). intros dep Hdep Hc.
  assert (it_code dep ∈ done_codes items) as (x & Hx & Hxc & Hs & Hh)%elem_of_done.
  { apply Hdeps; [done|]. unfold known_codes. rewrite elem_of_list_to_set. by apply list_elem_of_fmap_2. }
  by rewrite <-(NoDup_key_inj it_code items x dep).
Qed.

(** ** Properties *)

(** What the queue does next: nothing when it is empty, nothing when the project's runs are
    at the cap; otherwise the first item none of whose known dependencies is unlanded, and when
    there is none the block reported is the head's, with what it waits on. *)
Theorem pick_next_exact queued live cap done known :
  match pick_next queued live cap done known with
  | QEmpty => queued = []
  | QAtCapacity => queued <> [] /\ (cap <= live)%N
  | QDispatch i => (live < cap)%N /\ exists item, queued !! i = Some item /\
      (forall d, d ∈ it_deps item -> d ∈ known -> d ∈ done) /\
      forall m it, (m < i)%nat -> queued !! m = Some it ->
        exists d, d ∈ it_deps it /\ d ∈ known /\ d ∉ done
  | QBlocked id waiting => (live < cap)%N /\
      (forall it, it ∈ queued -> exists d, d ∈ it_deps it /\ d ∈ known /\ d ∉ done) /\
      exists item, head queued = Some item /\ it_id item = id /\
        forall d, d ∈ waiting <-> d ∈ it_deps item /\ d ∈ known /\ d ∉ done
  end.
Proof. apply pick_next_spec. Qed.

(** The project's cap is between one and the ceiling, whatever is stored, so one project can
    neither stop its own queue by a bad dial nor run more than the ceiling. *)
Theorem parse_cap_bounds raw :
  (1 <= parse_cap raw <= MAX_CONCURRENT_ROADMAP_CEILING)%N /\
  (forall n, raw ≫= parse_usize = Some n -> (1 <= n <= MAX_CONCURRENT_ROADMAP_CEILING)%N ->
    parse_cap raw = n).
Proof.
  unfold parse_cap, MAX_CONCURRENT_ROADMAP_RUNS, MAX_CONCURRENT_ROADMAP_CEILING. split.
  - destruct (opt_filter _ _) as [n|] eqn:E; simpl; [|lia].
    apply opt_filter_Some in E as [_ E%N.leb_le]. lia.
  - intros n -> Hn. simpl. rewrite (proj2 (N.leb_le _ _)) by lia. simpl. lia.
Qed.

(** Settling reflects the run and nothing else: the row's new status and the history entry
    agree for every outcome, an item leaves [active] exactly when its run is no longer live, and
    a run that did not finish gives the item back, unlinked, with the reason on its trail. *)
Theorem settle_reflects_run status pr :
  let o := settle status pr in
  (pt_status (settlement_patch o pr) = None <-> status = Some RunPending \/ status = Some RunRunning) /\
  match status with
  | Some RunDone =>
      pt_status (settlement_patch o pr) = Some (if is_some pr then InReview else Done) /\
      pt_pr_url (settlement_patch o pr) = (if is_some pr then Some (fp_url <$> pr) else None) /\
      settlement_event o pr = Some (if is_some pr then (EvPrOpened, fp_url <$> pr) else (EvShipped, None))
  | Some RunPending | Some RunRunning => settlement_event o pr = None
  | _ =>
      pt_status (settlement_patch o pr) = Some Open /\ pt_run_id (settlement_patch o pr) = Some None /\
      exists why, o = StReleased why /\ settlement_event o pr = Some (release_kind why, Some why) /\
        release_kind why = match status with Some RunCanceled => EvRunCanceled
                           | None => EvRunDeleted | _ => EvRunFailed end
  end.
Proof.
  destruct status as [[]|]; simpl; try (split; [split; [done|]; intros [|]; done|]); eauto 10;
    try (split; [tauto|done]).
  destruct pr as [p|]; simpl; (split; [split; [done|]; intros [|]; done|done]).
Qed.
