(* ===== verification/Mutations.v ===== *)
(** * Evented writes to the board

    Models src/crates/fletch-core/src/roadmap/autonomy.rs (where an accepted item lands),
    assignments.rs (handing an item to an agent and back), mutations.rs (creating, capturing and
    editing with a history entry) and [check_edit] of deps.rs. Every function runs under the
    connection lock its caller holds. *)

From S2P Require Import Prelude RustStr BTree Board Sql Database Deps Store Events Brakes Queue.

Local Open Scope string_scope.
Local Open Scope list_scope.

(** ** Autonomy *)

Definition is_accept (expect_status : option ItemStatus) (patch : ItemPatch) : bool :=
  eqb expect_status (Some Proposed) && eqb (pt_status patch) (Some Open).

Inductive Landing := LandBoard | LandQueue | LandHeldBack.

Definition landing_status (l : Landing) : ItemStatus :=
  match l with LandQueue => Queued | LandBoard | LandHeldBack => Open end.

Definition landing_detail (l : Landing) : option string :=
  match l with
  | LandBoard => None
  | LandQueue => Some "auto-queued"
  | LandHeldBack => Some "left off the queue — this is held"
  end.

Definition accept_landing (queue_requested autoqueue held : bool) : Landing :=
  if negb queue_requested && negb autoqueue then LandBoard
  else if held then LandHeldBack
  else LandQueue.

(** ** Captures *)

Definition CAPTURE_TITLE_MAX : nat := 120.

Definition ELLIPSIS : string := "…".

Definition captured_item (text : string) : result NewItem string :=
  let text := trim text in
  let '(first, rest) := default (text, "") (split_once (Ascii.ascii_of_N 10) text) in
  let first := trim first in
  if is_empty first then Err "a capture needs some text"
  else
    let '(title, why) :=
      if (CAPTURE_TITLE_MAX <? char_count first)%nat
      then (trim_end (unchars (take (CAPTURE_TITLE_MAX - 1) (chars first))) +:+ ELLIPSIS, text)
      else (first, trim rest) in
    Ok {| new_title := title; new_why := why; new_horizon := Some HLater;
          new_status := Some Captured; new_area := None; new_source := Some SrcUser;
          new_accept := []; new_deps := []; new_workflow_def_id := None; new_issue_url := None;
          new_from_item := None |}.

Definition NOT_A_STATUS_EDIT : string :=
  "an item is ruled off the board with roadmap_reject_item, which requires a reason — not a status edit".

(** What [stamp] writes: the agent taking the item, or nobody. *)
Inductive Stamp := HandOff (agent_id : string) | Reclaim.

Section Mutations.
Context `{World}.

Definition landing_for (id : string) (queue : bool) : M Db (option Landing) :=
  let* item := attempt_ok (store_get id) in
  match mjoin item with
  | None => ret None
  | Some item =>
      let* auto := autoqueue (it_project_id item) in
      let* held := gate item in
      ret (Some (accept_landing queue auto (is_some held)))
  end.

Definition check_edit (item : RoadmapItem) (new_deps : list string) : M Db () :=
  if eqb (it_deps item) new_deps then ret ()
  else
    let* board := store_list (it_project_id item) in
    lift (validate_edit (graph_of board) (rejected_of board) (it_code item) new_deps).

Definition create_checked (project_id : string) (item : NewItem) : M Db (RoadmapItem * ItemEvent) :=
  let* _ :=
    match new_deps item with
    | [] => ret ()
    | deps =>
        let* board := store_list project_id in
        lift (validate_new (graph_of board) (rejected_of board) deps)
    end in
  transaction (
    let* created := store_create project_id item in
    let detail := if eqb (it_status created) Captured then Some "captured" else None in
    let* event := record (it_id created) project_id ActUser EvCreated detail in
    ret (created, event)).

Definition update_and_record (id : string) (patch : ItemPatch) (expect_status : option ItemStatus)
    (queue : bool) : M Db (option ItemUpdate * option ItemEvent) :=
  if eqb (pt_status patch) (Some Rejected) then err NOT_A_STATUS_EDIT
  else
  let* _ :=
    match pt_deps patch with
    | Some new_deps =>
        let* current := store_get id in
        match current with Some current => check_edit current new_deps | None => ret () end
    | None => ret ()
    end in
  let* landing := if is_accept expect_status patch then landing_for id queue else ret None in
  let effective :=
    match landing with
    | Some landing => with_status (Some (landing_status landing)) patch
    | None => patch
    end in
  let* updated :=
    match expect_status with
    | Some expected => update_where_status id expected effective
    | None => store_update id effective
    end in
  match updated with
  | Some item =>
      let* event := record (it_id item) (it_project_id item) ActUser
                      (transition_kind expect_status (pt_status patch)) (landing ≫= landing_detail) in
      ret (Some {| up_applied := true; up_item := item |}, Some event)
  | None =>
      match expect_status with
      | Some _ =>
          let* current := store_get id in
          ret ((fun item => {| up_applied := false; up_item := item |}) <$> current, None)
      | None => ret (None, None)
      end
  end.

(** ** Assignments *)

Definition stamp (item_id : string) (op : Stamp) (refuse : RoadmapItem -> ItemStatus -> string)
    (detail : option string -> string) : M Db (RoadmapItem * ItemEvent) :=
  let* current := store_require item_id in
  let* lookup_id :=
    match op with
    | HandOff agent_id => ret agent_id
    | Reclaim => require_some (it_code current +:+ " isn't with an agent") (it_agent_id current)
    end in
  let* _ :=
    match it_status current with
    | Proposed | Open => ret ()
    | status => err (refuse current status)
    end in
  let* name := attempt_ok (query (fun d => db_workspaces d !! lookup_id)) in
  let agent := match op with HandOff agent_id => Some agent_id | Reclaim => None end in
  let* o := store_update item_id (with_agent (Some agent) item_patch_default) in
  let* item := require_some (missing item_id) o in
  let* event := record (it_id item) (it_project_id item) ActUser EvNote (Some (detail (mjoin name))) in
  ret (item, event).

Definition hand_off (item_id agent_id : string) : M Db (RoadmapItem * ItemEvent) :=
  stamp item_id (HandOff agent_id)
    (fun item status => it_code item +:+ " is " +:+ item_status_as_str status
       +:+ " — an item that is queued or already being built can't be handed to an agent; take it back to the board first")
    (fun name => match name with
                 | Some name => "Handed to agent " +:+ name
                 | None => "Handed to an agent"
                 end).

Definition reclaim (item_id : string) : M Db (RoadmapItem * ItemEvent) :=
  stamp item_id Reclaim
    (fun item status => it_code item +:+ " is " +:+ item_status_as_str status
       +:+ " — it's already being built; deal with it from the run")
    (fun name => match name with
                 | Some name => "Taken back from agent " +:+ name
                 | None => "Taken back from an agent"
                 end).
End Mutations.

(** ** The invariant *)

Section MutationsKeep.
Context `{World}.

Lemma check_edit_reads i deps : reads (check_edit i deps).
Proof. unfold check_edit. reading. Qed.
#[local] Hint Resolve check_edit_reads : fletch.

Lemma landing_for_reads id q : reads (landing_for id q).
Proof. unfold landing_for. reading. Qed.
#[local] Hint Resolve landing_for_reads : fletch.

Lemma store_update_board id p : preserves board_ok (store_update id p).
Proof. apply store_apply_board. Qed.
Lemma update_where_status_board id s p : preserves board_ok (update_where_status id s p).
Proof. apply store_apply_board. Qed.
#[local] Hint Resolve store_update_board update_where_status_board : fletch.

Lemma create_checked_board p new : preserves board_ok (create_checked p new).
Proof. unfold create_checked. preserving. Qed.

Lemma update_and_record_board id p e q : preserves board_ok (update_and_record id p e q).
Proof. unfold update_and_record. preserving. Qed.

Lemma hand_off_board id a : preserves board_ok (hand_off id a).
Proof. unfold hand_off, stamp. preserving. Qed.

Lemma reclaim_board id : preserves board_ok (reclaim id).
Proof. unfold reclaim, stamp. preserving. Qed.
End MutationsKeep.
#[export] Hint Resolve check_edit_reads landing_for_reads store_update_board
  update_where_status_board create_checked_board update_and_record_board hand_off_board reclaim_board
  : fletch.

(** ** Lemmas *)

Section MutationLemmas.
Context `{World}.

Lemma attempt_ok_Ok {A} (m : M Db A) c o c' :
  attempt_ok m c = (Ok o, c') ->
  c' = (m c).2 /\ o = match (m c).1 with Ok a => Some a | Err _ => None end.
Proof. unfold attempt_ok. destruct (m c) as [[a|e] c1]; intros Ha; by injection Ha as <- <-. Qed.

Lemma reads_Ok {A} (m : M Db A) c a c' : reads m -> m c = (Ok a, c') -> c_db c' = c_db c.
Proof. intros Hr Hm. specialize (Hr c). by rewrite Hm in Hr. Qed.

(** An accepted item that lands on the queue is held neither itself nor by its board. *)
Lemma landing_queue id queue c l c' :
  landing_for id queue c = (Ok (Some l), c') -> landing_status l = Queued ->
  exists i, find_item (db_items (c_db c)) id = Some i /\ it_hold_reason i = None /\
    db_project_holds (c_db c) !! it_project_id i = None.
Proof.
  unfold landing_for. intros Hl Hq. apply bind_Ok in Hl as (o & c1 & Ho & Hl).
  apply attempt_ok_Ok in Ho as [-> ->]. pose proof (store_get_reads id c) as Hr.
  destruct (store_get id c) as [[o|e] c1] eqn:Hg; cbn [fst snd] in *; [|by injection Hl].
  apply store_get_Ok in Hg as (_ & -> & ->). destruct (find_item _ id) as [i|] eqn:Hf; [|done].
  cbn [mjoin option_join] in Hl. apply bind_Ok in Hl as (auto & c2 & Ha & Hl).
  pose proof (reads_Ok _ _ _ _ (autoqueue_reads _) Ha) as Hdb2.
  apply bind_Ok in Hl as (held & c3 & Hgate & Hl). injection Hl as <- <-.
  exists i. split; [done|]. destruct held as [r|]; cbn [is_some] in Hq.
  { unfold accept_landing in Hq. by destruct (negb queue && negb auto). }
  unfold gate in Hgate. destruct (it_hold_reason i); [by injection Hgate|].
  apply project_gate_Ok in Hgate. destruct (w_fault _); [done|]. rewrite Hdb2 in Hgate.
  split; [done|]. cbn [c_db tick] in Hgate. by destruct (db_project_holds (c_db c) !! _).
Qed.

Lemma store_apply_db id p e c :
  c_db (store_apply id p e c).2 = c_db c \/
  exists now, c_db (store_apply id p e c).2 =
    set_items (update_rows (fun i => has_id id i && expects e i) (patch_item p now)) (c_db c).
Proof.
  unfold store_apply. destruct (patch_sets_nothing p).
  { left. unfold bind, store_get, query, sql. by destruct (w_fault _). }
  unfold bind, now_millis, sql. destruct (w_fault _); [by left|]. right. exists (w_now (c_tick c)).
  cbn [c_db tick]. destruct (is_some e && negb _); [done|].
  match goal with |- c_db (store_get ?i ?c).2 = _ => rewrite (store_get_reads i c) end. done.
Qed.

(** No row is rejected that was not. *)
Definition no_new_rejects (items : list RoadmapItem) (d : Db) : Prop :=
  forall i, i ∈ db_items d -> it_status i = Rejected ->
    exists j, j ∈ items /\ it_id j = it_id i /\ it_status j = Rejected.

Lemma store_apply_no_rejects items id p e :
  pt_status p <> Some Rejected -> preserves (no_new_rejects items) (store_apply id p e).
Proof.
  intros Hp c Hc. destruct (store_apply_db id p e c) as [->|[now ->]]; [done|].
  intros i (j & Hj & Hi)%elem_of_update_rows Hs. destruct Hi as [->|[_ ->]]; [by apply Hc|].
  apply (Hc j Hj). unfold patch_item in Hs. simpl in Hs. by destruct (pt_status p) as [[]|].
Qed.

Lemma record_items P id p a k det :
  (forall d d', db_items d = db_items d' -> P d -> P d') -> preserves P (record id p a k det).
Proof.
  intros HP. unfold record. preserving. apply preserves_sql. intros d x d' Hd.
  destruct (existsb _ (db_events _)); [done|]. destruct (negb _); [done|]. intros [= <- <-].
  by eapply HP; [|exact Hd].
Qed.
End MutationLemmas.

(** ** Properties *)

(** A generic edit cannot reject: asking for it is refused with nothing written, and no edit,
    however guarded, makes a row rejected that was not. *)
Theorem edits_never_reject `{World} id p e q c :
  (pt_status p = Some Rejected -> update_and_record id p e q c = (Err NOT_A_STATUS_EDIT, c)) /\
  forall i, i ∈ db_items (c_db (update_and_record id p e q c).2) -> it_status i = Rejected ->
    exists j, j ∈ db_items (c_db c) /\ it_id j = it_id i /\ it_status j = Rejected.
Proof.
  split. { intros Hp. unfold update_and_record. by rewrite Hp. }
  set (items := db_items (c_db c)).
  assert (preserves (no_new_rejects items) (update_and_record id p e q)) as Hp.
  { unfold update_and_record. destruct (eqb (pt_status p) (Some Rejected)) eqn:E; [preserving|].
    bool_to_prop. apply preserves_bind; [preserving|]. intros _.
    apply preserves_bind; [preserving|]. intros landing. apply preserves_bind.
    - assert (pt_status (match landing with Some l => with_status (Some (landing_status l)) p | None => p end)
        <> Some Rejected) as Hst by (destruct landing as [[]|]; done).
      destruct e; by apply store_apply_no_rejects.
    - intros [r|]; [apply preserves_bind; [|preserving]|preserving].
      apply record_items. intros d d' Hd Hi i. rewrite <-Hd. apply Hi. }
  apply (Hp c). intros i Hi Hs. by exists i.
Qed.

(** Holds trump autoqueue: an acceptance that was written queues the item only when neither
    the item nor its board was held. *)
Theorem accept_respects_holds `{World} id p q c u ev c' :
  NoDup (it_id <$> db_items (c_db c)) -> is_accept (Some Proposed) p = true ->
  update_and_record id p (Some Proposed) q c = (Ok (Some u, ev), c') ->
  up_applied u = true -> it_status (up_item u) = Queued ->
  exists i, find_item (db_items (c_db c)) id = Some i /\ it_status i = Proposed /\
    it_hold_reason i = None /\ db_project_holds (c_db c) !! it_project_id i = None.
Proof.
  intros Hnd Ha Hu Happ Hq. unfold update_and_record in Hu.
  unfold is_accept in Ha. rewrite eqb_refl in Ha. cbn [andb] in Ha. apply (proj1 (eqb_eq _ _)) in Ha.
  rewrite Ha in Hu. cbn [eqb] in Hu. rewrite (proj2 (eqb_neq (Some Open) (Some Rejected))) in Hu by done.
  apply bind_Ok in Hu as (x & c1 & Hc1 & Hu).
  assert (c_db c1 = c_db c) as Hdb1. { eapply reads_Ok; [|exact Hc1]. reading. }
  unfold is_accept in Hu. rewrite Ha, !eqb_refl in Hu. cbn [andb] in Hu.
  apply bind_Ok in Hu as (landing & c2 & Hl & Hu).
  pose proof (reads_Ok _ _ _ _ (landing_for_reads _ _) Hl) as Hdb2.
  set (eff := match landing with Some l => with_status (Some (landing_status l)) p | None => p end) in *.
  apply bind_Ok in Hu as (o & c3 & Ho & Hu).
  assert (patch_sets_nothing eff = false) as Hns.
  { assert (is_none (pt_status eff) = false) as Hn by (unfold eff; destruct landing; [done|by rewrite Ha]).
    unfold patch_sets_nothing. rewrite Hn.
    by destruct (is_none (pt_title eff)), (is_none (pt_why eff)), (is_none (pt_horizon eff)). }
  rewrite <-Hdb1, <-Hdb2 in Hnd. apply store_apply_Ok in Ho as (now & _ & Ho & _); [|done..].
  rewrite Hdb2, Hdb1 in Ho.
  destruct (find_item (db_items (c_db c)) id) as [i|] eqn:Hf; cbn [opt_filter expects] in Ho.
  2: { rewrite Ho in Hu. apply bind_Ok in Hu as (cur & c4 & _ & Hu). cbn in Hu.
       destruct cur; [|done]. by injection Hu as <- _ _. }
  destruct (eqb (it_status i) Proposed) eqn:Es; cbn in Ho; rewrite Ho in Hu.
  2: { apply bind_Ok in Hu as (cur & c4 & _ & Hu). cbn in Hu. destruct cur; [|done]. by injection Hu as <- _ _. }
  apply bind_Ok in Hu as (e & c4 & _ & Hu). injection Hu as <- _ _. cbn [up_item] in Hq.
  bool_to_prop. exists i. split; [done|]. split; [done|].
  unfold eff in Hq. destruct landing as [l|]; cbn [patch_item it_status] in Hq; [|by rewrite Ha in Hq].
  rewrite <-Hdb1 in Hf |- *. destruct (landing_queue _ _ _ _ _ Hl Hq) as (i' & Hf' & Hh).
  rewrite Hf in Hf'. by injection Hf' as <-.
Qed.

(** A capture keeps what was written: its title is not empty and at most 120 characters long,
    a first line too long to be one is clipped with the whole text kept as the why, and only a
    text without a first line is refused. *)
Theorem captured_item_keeps_text text :
  match captured_item text with
  | Ok new =>
      let first := trim (default (trim text, "") (split_once (Ascii.ascii_of_N 10) (trim text))).1 in
      new_status new = Some Captured /\ new_title new <> "" /\
      char_count (new_title new) <= CAPTURE_TITLE_MAX /\
      (if (CAPTURE_TITLE_MAX <? char_count first)%nat then new_why new = trim text
       else new_title new = first /\
            new_why new = trim (default (trim text, "") (split_once (Ascii.ascii_of_N 10) (trim text))).2)
  | Err _ => trim (default (trim text, "") (split_once (Ascii.ascii_of_N 10) (trim text))).1 = ""
  end.
Proof.
  unfold captured_item. destruct (default _ _) as [f rest]. cbn [fst snd].
  destruct (is_empty (trim f)) eqn:E; [by apply is_empty_true|].
  destruct (CAPTURE_TITLE_MAX <? char_count (trim f))%nat eqn:Hlen; cbn [new_status new_title new_why].
  - split; [done|]. split.
    + intros Ht. destruct (trim_end _); discriminate Ht.
    + split; [|done]. etrans; [apply char_count_app|].
      assert (char_count ELLIPSIS = 1) as -> by reflexivity.
      pose proof (char_count_trim_end (unchars (take (CAPTURE_TITLE_MAX - 1) (chars (trim f))))).
      pose proof (char_count_take (CAPTURE_TITLE_MAX - 1) (trim f)). unfold CAPTURE_TITLE_MAX in *. lia.
  - split; [done|]. split; [|split; [by apply Nat.ltb_ge in Hlen|done]].
    intros Ht. rewrite Ht in E. done.
Qed.

Definition proposed_item : Conn Db :=
  {| c_db := witness_roadmap [witness_item "i1" "FA-1" Proposed []]; c_tick := 0 |}.

Lemma accept_respects_holds_witness :
  exists u ev c', @update_and_record (calm_world show_nat) "i1" (status_patch Open) (Some Proposed) true
      proposed_item = (Ok (Some u, ev), c') /\ it_status (up_item u) = Queued /\
    db_project_holds (c_db proposed_item) !! "p" = None.
Proof.
  do 3 eexists. split; [vm_compute; reflexivity|]. split; [reflexivity|].
  edestruct (@accept_respects_holds (calm_world show_nat) "i1" (status_patch Open) true proposed_item)
    as (i & Hf & _ & _ & Hp);
    [apply (bool_decide_unpack _); vm_compute; exact I|reflexivity|vm_compute; reflexivity|reflexivity
    |reflexivity|].
  vm_compute in Hf. injection Hf as <-. exact Hp.
Defined.
