(* ===== verification/Proposals.v ===== *)
(** * The product manager's pending asks

    Models src/crates/fletch-core/src/roadmap/proposals.rs (one pending ask per item, the newer
    replacing the older under the same id) and order_proposals.rs (one proposed order per
    project, validated against the whole board). A stored patch is JSON: what is written from a
    patch decodes to it, and a value that is not a patch is an error when it is used. *)

From S2P Require Import Prelude RustStr Board Sql Database Store.

Local Open Scope string_scope.
Local Open Scope list_scope.

(** ** Item asks *)

(** [ORDER BY created_at, rowid]. *)
Definition asked_before (a b : Proposal) : bool := (pr_created_at a <=? pr_created_at b)%Z.

(** [ON CONFLICT(item_id) DO UPDATE]. *)
Definition replace_ask (kind : ProposalKind) (patch : option ProposalPatch) (note : option string)
    (now : Z) (p : Proposal) : Proposal := {|
  pr_id := pr_id p; pr_item_id := pr_item_id p; pr_project_id := pr_project_id p; pr_kind := kind;
  pr_patch := Ok <$> patch; pr_note := note; pr_created_at := now;
|}.

(** [Proposal::fields]: the fields the patch names; a value that is not a patch names none. *)
Definition proposal_fields (p : Proposal) : list string :=
  match pr_patch p with Some (Ok patch) => proposal_patch_fields patch | _ => [] end.

Section Asks.
Context `{World}.

Definition for_item (item_id : string) : M Db (option Proposal) :=
  query (fun d => lfind (fun p => String.eqb (pr_item_id p) item_id) (db_proposals d)).

Definition proposal_upsert (project_id item_id : string) (kind : ProposalKind)
    (patch : option ProposalPatch) (note : option string) : M Db Proposal :=
  let* id := new_uuid in
  let* now := now_millis in
  let row := {| pr_id := id; pr_item_id := item_id; pr_project_id := project_id; pr_kind := kind;
                pr_patch := Ok <$> patch; pr_note := note; pr_created_at := now |} in
  let* _ := sql (fun d =>
    if existsb (fun p => String.eqb (pr_id p) id) (db_proposals d) then Err UNIQUE_FAILED
    else if existsb (fun p => String.eqb (pr_item_id p) item_id) (db_proposals d)
    then Ok ((), set_proposals (fun l => (fun p =>
           if String.eqb (pr_item_id p) item_id then replace_ask kind patch note now p else p) <$> l) d)
    else if negb (existsb (has_id item_id) (db_items d)) then Err FOREIGN_KEY_FAILED
    else Ok ((), set_proposals (fun l => l ++ [row]) d)) in
  let* o := for_item item_id in
  require_some NO_ROWS o.

Definition proposal_get (id : string) : M Db (option Proposal) :=
  query (fun d => lfind (fun p => String.eqb (pr_id p) id) (db_proposals d)).

Definition list_for_project (project_id : string) : M Db (list Proposal) :=
  query (fun d =>
    sort_by asked_before (lfilter (fun p => String.eqb (pr_project_id p) project_id) (db_proposals d))).

Definition proposal_delete (id : string) : M Db bool :=
  sql (fun d => Ok (existsb (fun p => String.eqb (pr_id p) id) (db_proposals d),
                    set_proposals (lfilter (fun p => negb (String.eqb (pr_id p) id))) d)).
End Asks.

(** ** Orders *)

Definition is_orderable (i : RoadmapItem) : bool :=
  match it_status i with Proposed | Open | Queued => true | _ => false end.

Definition orderable (items : list RoadmapItem) : list RoadmapItem := lfilter is_orderable items.

(** [collect()] into a [HashMap] by code: the last row with a code wins. *)
Definition by_code (items : list RoadmapItem) : gmap string RoadmapItem :=
  foldl (fun m i => <[it_code i := i]> m) ∅ items.

(** What the scan of the codes gathers: codes seen, ids, unknown codes, closed items. *)
Record OrderScan := {
  os_seen : gset string; os_ids : list string; os_unknown : list string; os_closed : list string;
}.

Fixpoint order_scan (rows : gmap string RoadmapItem) (codes : list string) (s : OrderScan)
    : result OrderScan string :=
  match codes with
  | [] => Ok s
  | code :: codes =>
      if bool_decide (code ∈ os_seen s) then
        Err (code +:+ " appears twice — list every code exactly once, in the order you want")
      else
        let seen := {[code]} ∪ os_seen s in
        order_scan rows codes
          match rows !! code with
          | None => {| os_seen := seen; os_ids := os_ids s; os_unknown := os_unknown s ++ [code];
                       os_closed := os_closed s |}
          | Some item =>
              if negb (is_orderable item)
              then {| os_seen := seen; os_ids := os_ids s; os_unknown := os_unknown s;
                      os_closed := os_closed s ++
                        [it_code item +:+ " is " +:+ item_status_as_str (it_status item)] |}
              else {| os_seen := seen; os_ids := os_ids s ++ [it_id item];
                      os_unknown := os_unknown s; os_closed := os_closed s |}
          end
  end.

Definition names (l : list string) : string := join ", " l.

Definition validate_order (codes : list string) (items : list RoadmapItem) : result (list string) string :=
  let open := orderable items in
  match codes with
  | [] =>
      let all := it_code <$> open in
      Err ("`codes` must list every orderable item on this board, in the order you want them built — that is "
           +:+ match all with
               | [] => "nothing: no item here is proposed, open, or queued"
               | _ => names all
               end)
  | _ =>
      let? s := order_scan (by_code items) codes
                  {| os_seen := ∅; os_ids := []; os_unknown := []; os_closed := [] |} in
      match os_unknown s with
      | _ :: _ => Err (names (os_unknown s)
          +:+ " is not an item on this board — order only the codes `roadmap_list` returns")
      | [] =>
          match os_closed s with
          | _ :: _ => Err (join ", " (os_closed s)
              +:+ " — dispatched, shipped, or rejected items have no place in the queue order; list only the proposed, open, and queued ones")
          | [] =>
              let missing := it_code <$> lfilter (fun i => negb (bool_decide (it_code i ∈ os_seen s))) open in
              match missing with
              | [] => Ok (os_ids s)
              | _ => Err ("the order must name every orderable item, and " +:+ names missing +:+ " "
                  +:+ (if (length missing =? 1)%nat then "is" else "are")
                  +:+ " missing — send the whole sequence, not the part you want moved")
              end
          end
      end
  end.

Section Orders.
Context `{World}.

Definition order_get (project_id : string) : M Db (option OrderProposal) :=
  query (fun d => db_orders d !! project_id).

Definition order_upsert (project_id : string) (codes : list string) (note : option string)
    : M Db OrderProposal :=
  let* now := now_millis in
  let row := {| op_project_id := project_id; op_codes := codes; op_note := note; op_created_at := now |} in
  let* _ := sql (fun d =>
    if is_some (db_projects d !! project_id)
    then Ok ((), set_orders (fun m => <[project_id := row]> m) d)
    else Err FOREIGN_KEY_FAILED) in
  let* o := order_get project_id in
  require_some NO_ROWS o.

Definition order_delete (project_id : string) : M Db bool :=
  sql (fun d => Ok (is_some (db_orders d !! project_id), set_orders (fun m => delete project_id m) d)).
End Orders.

(** ** Lemmas *)

Section AskLemmas.
Context `{World}.

Lemma for_item_reads id : reads (for_item id).
Proof. apply reads_query. Qed.
Lemma proposal_get_reads id : reads (proposal_get id).
Proof. apply reads_query. Qed.
Lemma order_get_reads p : reads (order_get p).
Proof. apply reads_query. Qed.
#[local] Hint Resolve for_item_reads order_get_reads : fletch.

Lemma proposal_upsert_board p i k patch note : preserves board_ok (proposal_upsert p i k patch note).
Proof.
  unfold proposal_upsert. preserving. apply preserves_sql. intros d x d' [H1 H2 H3 H4 H5 H6 H7].
  destruct (existsb _ (db_proposals _)); [done|]. destruct (existsb _ (db_proposals _)) eqn:E1.
  - intros [= <- <-]. split; simpl; try done.
    + intros q (r & -> & Hr)%list_elem_of_fmap. destruct (String.eqb _ _); [by apply (H6 r)|auto].
    + rewrite <-list_fmap_compose. erewrite list_fmap_ext; [exact H7|]. intros n r _. simpl.
      by destruct (String.eqb _ _).
  - destruct (existsb (has_id i) _) eqn:E; [|done]. intros [= <- <-].
    apply existsb_true_elem in E as (j & Hj & Hid). unfold has_id in Hid. bool_to_prop.
    split; simpl; try done.
    + intros q [Hq|Hq%list_elem_of_singleton]%elem_of_app; [auto|]. rewrite Hq. simpl. rewrite <-Hid.
      by apply list_elem_of_fmap_2.
    + rewrite fmap_app. apply NoDup_app. split; [done|]. split; [|apply NoDup_singleton].
      intros y (q & -> & Hq)%list_elem_of_fmap Hy%list_elem_of_singleton. simpl in Hy.
      pose proof (existsb_false_elem _ _ _ E1 Hq) as Hn. simpl in Hn. bool_to_prop. done.
Qed.

Lemma proposal_delete_board id : preserves board_ok (proposal_delete id).
Proof.
  apply preserves_sql. intros d x d' [H1 H2 H3 H4 H5 H6 H7] [= <- <-]. split; simpl; try done.
  - intros q [Hq _]%elem_of_lfilter. auto.
  - by apply lfilter_fmap_NoDup.
Qed.

Lemma order_upsert_board p codes note : preserves board_ok (order_upsert p codes note).
Proof.
  unfold order_upsert. preserving. apply preserves_sql. intros d x d' Hd. destruct (is_some _); [|done].
  intros [= <- <-]. by apply (board_ok_ext d).
Qed.

Lemma order_delete_board p : preserves board_ok (order_delete p).
Proof. apply preserves_sql. intros d x d' Hd [= <- <-]. by apply (board_ok_ext d). Qed.
End AskLemmas.
#[export] Hint Resolve for_item_reads proposal_get_reads order_get_reads proposal_upsert_board
  proposal_delete_board order_upsert_board order_delete_board : fletch.

Lemma foldl_by_code items (m : gmap string RoadmapItem) c :
  NoDup (it_code <$> items) ->
  foldl (fun m i => <[it_code i := i]> m) m items !! c =
  match lfind (fun i => String.eqb (it_code i) c) items with Some i => Some i | None => m !! c end.
Proof.
  revert m. induction items as [|i l IH]; intros m Hnd; simpl; [done|].
  rewrite fmap_cons in Hnd. apply NoDup_cons in Hnd as [Hi Hnd]. rewrite IH by done.
  destruct (String.eqb (it_code i) c) eqn:E; bool_to_prop.
  - assert (lfind (fun i => String.eqb (it_code i) c) l = None) as ->.
    { apply lfind_None. intros x Hx. apply String.eqb_neq. intros Hxc. apply Hi. rewrite E, <-Hxc.
      by apply list_elem_of_fmap_2. }
    by rewrite E, lookup_insert_eq.
  - destruct (lfind _ l); [done|]. by apply lookup_insert_ne.
Qed.

Lemma by_code_Some items c i :
  NoDup (it_code <$> items) -> by_code items !! c = Some i -> i ∈ items /\ it_code i = c.
Proof.
  intros Hnd. unfold by_code. rewrite foldl_by_code by done. destruct (lfind _ items) as [x|] eqn:E.
  - intros [= ->]. apply lfind_Some in E as [Hx Hc]. by bool_to_prop.
  - by rewrite lookup_empty.
Qed.

(** What a scan that refuses nothing gathered: an orderable row per code, in order. *)
Lemma order_scan_Ok rows codes s s' :
  order_scan rows codes s = Ok s' -> os_unknown s' = [] -> os_closed s' = [] ->
  os_unknown s = [] /\ os_closed s = [] /\ os_seen s' = list_to_set codes ∪ os_seen s /\
  NoDup codes /\ (forall c, c ∈ codes -> c ∉ os_seen s) /\
  exists rs, os_ids s' = os_ids s ++ (it_id <$> rs) /\
    Forall2 (fun c i => rows !! c = Some i /\ is_orderable i = true) codes rs.
Proof.
  revert s. induction codes as [|c codes IH]; intros s Hs Hu Hc; cbn [order_scan] in Hs.
  { injection Hs as ->. split; [done|]. split; [done|]. split; [set_solver|].
    split; [constructor|]. split; [by intros x ?%elem_of_nil|]. exists []. by rewrite app_nil_r. }
  case_bool_decide as Hseen; [done|]. destruct (IH _ Hs Hu Hc) as (Hu' & Hc' & Hse & Hnd & Hdis & rs & Hids & Hf).
  destruct (rows !! c) as [i|] eqn:Er; cbn in Hu'; [|by destruct (os_unknown s)].
  destruct (is_orderable i) eqn:Eo; cbn in *; [|by destruct (os_closed s)].
  split; [done|]. split; [done|]. split; [rewrite Hse; set_solver|].
  split; [constructor; [|done]; intros Hin; apply (Hdis c Hin); set_solver|].
  split; [intros x [->|Hx]%elem_of_cons; [done|]; specialize (Hdis x Hx); set_solver|].
  exists (i :: rs). split; [by rewrite Hids, <-app_assoc|]. by constructor.
Qed.

(** ** Properties *)

(** An order that is accepted names every orderable row of the board exactly once: the ids
    are those rows, permuted into the order of the codes. *)
Theorem validate_order_permutes codes items ids :
  NoDup (it_code <$> items) -> validate_order codes items = Ok ids ->
  exists rs, rs ≡ₚ orderable items /\ it_code <$> rs = codes /\ it_id <$> rs = ids.
Proof.
  intros Hnd Hv. unfold validate_order in Hv. destruct codes as [|c0 cs]; [done|].
  remember (c0 :: cs) as codes. clear Heqcodes.
  destruct (order_scan _ codes _) as [s|] eqn:Hs; [|done].
  destruct (os_unknown s) eqn:Hu; [|done]. destruct (os_closed s) eqn:Hc; [|done].
  destruct (it_code <$> lfilter _ _) as [|] eqn:Hm; [|done]. injection Hv as <-.
  apply order_scan_Ok in Hs as (_ & _ & Hse & Hcd & _ & rs & Hids & Hf); [|done..].
  cbn [os_ids os_seen app] in *. exists rs.
  assert (it_code <$> rs = codes) as Hcodes.
  { clear -Hf Hnd. induction Hf as [|c i cs rs [Hi _] _ IH]; [done|]. rewrite fmap_cons, IH.
    f_equal. by apply by_code_Some in Hi as [_ ?]. }
  split; [|by split].
  apply NoDup_Permutation.
  - apply (NoDup_fmap_1 it_code). by rewrite Hcodes.
  - apply lfilter_NoDup. by apply (NoDup_fmap_1 it_code).
  - intros i. unfold orderable. rewrite elem_of_lfilter. split.
    + intros [n Hn]%list_elem_of_lookup_1. destruct (Forall2_lookup_r _ _ _ _ _ Hf Hn) as (c & _ & Hi & Ho).
      by apply by_code_Some in Hi as [Hi _].
    + intros [Hi Ho]. assert (it_code i ∈ it_code <$> rs) as (j & Hij & Hj)%list_elem_of_fmap.
      { rewrite Hcodes. destruct (decide (it_code i ∈ codes)) as [|Hn]; [done|]. exfalso.
        assert (i ∈ lfilter (fun i => negb (bool_decide (it_code i ∈ os_seen s))) (orderable items)) as Hmi.
        { apply elem_of_lfilter. split; [by apply elem_of_lfilter|]. apply negb_true_iff, bool_decide_eq_false.
          rewrite Hse. set_solver. }
        destruct (lfilter _ _); [by apply elem_of_nil in Hmi|done]. }
      destruct (proj1 (list_elem_of_lookup _ _) Hj) as [n Hn].
      destruct (Forall2_lookup_r _ _ _ _ _ Hf Hn) as (c & _ & Hrow & _).
      apply by_code_Some in Hrow as [Hrow _]; [|done].
      by rewrite (NoDup_key_inj it_code items i j).
Qed.

Lemma validate_order_permutes_witness :
  exists rs, rs ≡ₚ orderable (db_items (c_db two_items)) /\ it_code <$> rs = ["FA-2"; "FA-1"] /\
    it_id <$> rs = ["i2"; "i1"].
Proof.
  apply (validate_order_permutes ["FA-2"; "FA-1"] (db_items (c_db two_items)) ["i2"; "i1"]).
  - apply (bool_decide_unpack _). vm_compute. exact I.
  - vm_compute. reflexivity.
Defined.
