(* ===== verification/Rulings.v ===== *)
(** * The user's rulings

    Models src/crates/fletch-core/src/roadmap/rulings.rs: rejecting and reopening items, and
    accepting or declining the product manager's asks and orders. *)

From S2P Require Import Prelude RustStr BTree Board Sql Database.
From S2P Require Import Deps Store Events Brakes Queue Mutations Proposals.

Local Open Scope string_scope.
Local Open Scope list_scope.

Inductive Ruling :=
| Updated (item : RoadmapItem) (event : ItemEvent)
| Stale (message : string).

Inductive OrderRuling :=
| OrderApplied (rows : list RoadmapItem)
| OrderStale (message : string).

Definition proposal_gate (item : RoadmapItem) : result () string :=
  if is_rulable (it_status item) then Ok ()
  else
    let why :=
      match it_status item with
      | Done => "shipped work can't be reshaped by proposal"
      | Rejected => "an item ruled off the board can't be reshaped by proposal — reopen it first"
      | _ => "an item being built or reviewed can't be reshaped by proposal"
      end in
    Err (it_code item +:+ " is " +:+ item_status_as_str (it_status item) +:+ " — " +:+ why).

Definition ruling_detail (verb : string) (note : option string) : string :=
  match note with
  | Some note => verb +:+ " a PM proposal — " +:+ note
  | None => verb +:+ " a PM proposal"
  end.

Definition RULED : string := "this proposal has already been ruled on".
Definition TARGET_GONE : string := "the item this proposal targets no longer exists".
Definition NO_PATCH : string := "proposal carries no patch".
Definition ORDER_RULED : string := "this order proposal has already been ruled on".

(** [reject_item]'s check of the status. *)
Definition reject_gate (current : RoadmapItem) : result () string :=
  match it_status current with
  | Proposed | Open | Queued => Ok ()
  | Active | InReview =>
      Err (it_code current +:+ " is " +:+ item_status_as_str (it_status current)
           +:+ " — an agent is on it; cancel or settle the run before ruling this off the board")
  | Done => Err (it_code current +:+ " is done — shipped work can't be un-decided")
  | Rejected => Err (it_code current +:+ " is already rejected")
  | Captured => Err (it_code current
      +:+ " is still in the inbox — discard it there; nothing was decided to rule off")
  end.

(** A queued dependant whose last word is that the reopened item was rejected. *)
Definition wedged_on (code : string) (latest : option ItemEvent) : bool :=
  is_some_and latest (fun e =>
    eqb (ev_kind e) EvBlocked
    && is_some_and (ev_detail e) (fun d => contains code d && contains "rejected" d)).

Section Rulings.
Context `{World}.

Definition reject_item (item_id reason : string) : M Db (RoadmapItem * ItemEvent * option Proposal) :=
  let* reason := lift (clean_reason_for reason RkReject) in
  let* current := store_require item_id in
  let* _ := lift (reject_gate current) in
  let* pending := for_item item_id in
  let* _ := match pending with
            | Some p => let* _ := proposal_delete (pr_id p) in ret ()
            | None => ret ()
            end in
  let* o := store_reject item_id reason in
  let* item := require_some (missing item_id) o in
  let* event := record (it_id item) (it_project_id item) ActUser EvRejected (Some reason) in
  ret (item, event, pending).

(** The loop over the wedged dependants. *)
Fixpoint correct_each (code : string) (deps : list RoadmapItem) : M Db (list ItemEvent) :=
  match deps with
  | [] => ret []
  | dep :: deps =>
      let* history := list_for_item (it_id dep) in
      if negb (wedged_on code (head history)) then correct_each code deps
      else
        let* note := record (it_id dep) (it_project_id dep) ActUser EvNote
                       (Some (code +:+ " was reopened — waiting on it normally again")) in
        let* notes := correct_each code deps in
        ret (note :: notes)
  end.

Definition correct_wedged_dependants (reopened : RoadmapItem) : M Db (list ItemEvent) :=
  let* board := store_list (it_project_id reopened) in
  correct_each (it_code reopened)
    (lfilter (fun i => eqb (it_status i) Queued && lcontains (it_deps i) (it_code reopened)) board).

Definition reopen_item (item_id : string) : M Db (RoadmapItem * option ItemEvent * list ItemEvent) :=
  let* o := store_get item_id in
  let* current := require_some (missing item_id) o in
  let* reopened := store_reopen item_id in
  match reopened with
  | None => ret (current, None, [])
  | Some item =>
      let detail := match it_close_reason current with
                    | Some reason => "was rejected — " +:+ reason
                    | None => "was rejected"
                    end in
      let* event := record (it_id item) (it_project_id item) ActUser EvReopened (Some detail) in
      let* corrections := correct_wedged_dependants item in
      ret (item, Some event, corrections)
  end.

Definition finish_accept (item : RoadmapItem) (kind : EventKind) (verb : string)
    (note : option string) (proposal_id : string) : M Db Ruling :=
  let* event := record (it_id item) (it_project_id item) ActUser kind (Some (ruling_detail verb note)) in
  let* _ := proposal_delete proposal_id in
  ret (Updated item event).

Definition accept_update (proposal_id : string) (proposal : Proposal) (item : RoadmapItem) : M Db Ruling :=
  let* value := require_some NO_PATCH (pr_patch proposal) in
  let* patch := lift value in
  let* stale := match pp_deps patch with
                | Some new_deps => attempt (check_edit item new_deps)
                | None => ret (Ok ())
                end in
  match stale with
  | Err why =>
      let* _ := proposal_delete proposal_id in
      ret (Stale ("the board changed since the PM asked — " +:+ why))
  | Ok _ =>
      let* o := store_update (it_id item) (to_item_patch patch) in
      let* updated := require_some TARGET_GONE o in
      finish_accept updated EvEdited "Accepted" (pr_note proposal) (pr_id proposal)
  end.

Definition accept_discard (proposal_id : string) (proposal : Proposal) (item : RoadmapItem) : M Db Ruling :=
  let reason := default "discarded at the PM's ask" (pr_note proposal) in
  let* o := store_reject (it_id item) reason in
  let* rejected := require_some TARGET_GONE o in
  finish_accept rejected EvRejected "Rejected" (pr_note proposal) proposal_id.

Definition accept_proposal (proposal_id : string) : M Db Ruling :=
  let* o := proposal_get proposal_id in
  let* proposal := require_some RULED o in
  let* o := store_get (pr_item_id proposal) in
  let* item := require_some TARGET_GONE o in
  match proposal_gate item with
  | Err message =>
      let* _ := proposal_delete proposal_id in
      ret (Stale message)
  | Ok _ =>
      match pr_kind proposal with
      | PropUpdate => accept_update proposal_id proposal item
      | PropDiscard => accept_discard proposal_id proposal item
      end
  end.

Definition reject_proposal (proposal_id : string) : M Db ItemEvent :=
  let* o := proposal_get proposal_id in
  let* proposal := require_some RULED o in
  let* _ := proposal_delete proposal_id in
  record (pr_item_id proposal) (pr_project_id proposal) ActUser EvNote
    (Some (ruling_detail "Declined" (pr_note proposal))).

Definition accept_order (project_id : string) : M Db OrderRuling :=
  let* o := order_get project_id in
  let* proposal := require_some ORDER_RULED o in
  let* items := store_list project_id in
  match validate_order (op_codes proposal) items with
  | Err message =>
      let* _ := order_delete project_id in
      ret (OrderStale ("the board changed since the PM proposed this order — " +:+ message))
  | Ok ids =>
      let* rows := set_ranks ids in
      let* _ := order_delete project_id in
      ret (OrderApplied rows)
  end.
End Rulings.

(** ** The invariant *)

Section RulingsKeep.
Context `{World}.

Lemma reject_item_board id r : preserves board_ok (reject_item id r).
Proof. unfold reject_item. preserving. Qed.

Lemma correct_each_board code deps : preserves board_ok (correct_each code deps).
Proof. induction deps; simpl; preserving. Qed.
#[local] Hint Resolve correct_each_board : fletch.

Lemma correct_wedged_board i : preserves board_ok (correct_wedged_dependants i).
Proof. unfold correct_wedged_dependants. preserving. Qed.
#[local] Hint Resolve correct_wedged_board : fletch.

Lemma reopen_item_board id : preserves board_ok (reopen_item id).
Proof. unfold reopen_item. preserving. Qed.

Lemma finish_accept_board i k v n p : preserves board_ok (finish_accept i k v n p).
Proof. unfold finish_accept. preserving. Qed.
#[local] Hint Resolve finish_accept_board : fletch.

Lemma accept_proposal_board id : preserves board_ok (accept_proposal id).
Proof. unfold accept_proposal, accept_update, accept_discard. preserving. Qed.

Lemma reject_proposal_board id : preserves board_ok (reject_proposal id).
Proof. unfold reject_proposal. preserving. Qed.

Lemma accept_order_board p : preserves board_ok (accept_order p).
Proof. unfold accept_order. preserving. Qed.
End RulingsKeep.
#[export] Hint Resolve reject_item_board reopen_item_board accept_proposal_board
  reject_proposal_board accept_order_board : fletch.

(** ** Lemmas *)

Section RulingLemmas.
Context `{World}.

Lemma order_delete_Ok p c b c' :
  order_delete p c = (Ok b, c') -> c_db c' = set_orders (fun m => delete p m) (c_db c).
Proof. intros (_ & d & Hd & ->)%sql_Ok. by injection Hd as _ <-. Qed.

Lemma proposal_delete_Ok id c b c' :
  proposal_delete id c = (Ok b, c') ->
  c_db c' = set_proposals (lfilter (fun p => negb (String.eqb (pr_id p) id))) (c_db c).
Proof. intros (_ & d & Hd & ->)%sql_Ok. by injection Hd as _ <-. Qed.

Lemma require_some_Ok {A} e (o : option A) (c : Conn Db) a c' :
  require_some e o c = (Ok a, c') -> o = Some a /\ c' = c.
Proof. unfold require_some. destruct o; intros Hr; [|discriminate Hr]. by injection Hr as <- <-. Qed.

Lemma lift_Ok {A} (r : result A string) (c : Conn Db) a c' : lift r c = (Ok a, c') -> r = Ok a /\ c' = c.
Proof. unfold lift. intros Hl. split; [exact (f_equal fst Hl)|exact (eq_sym (f_equal snd Hl))]. Qed.

Lemma set_ranks_Ok ids c rows c' :
  NoDup ids -> set_ranks ids c = (Ok rows, c') ->
  exists now, (forall i, i ∈ db_items (c_db c) -> it_id i ∉ ids -> i ∈ db_items (c_db c')) /\
  (forall i n, i ∈ db_items (c_db c) -> ids !! n = Some (it_id i) ->
    rank_item (f64_of_N (1 + N.of_nat n)) now i ∈ db_items (c_db c')).
Proof.
  intros Hnd (c1 & Hs & Hdb)%transaction_Ok. rewrite Hdb.
  apply bind_Ok in Hs as (now & c2 & Hnow & Hs). injection Hnow as <- <-.
  destruct (rank_each_Ok _ _ _ _ _ _ Hnd Hs) as (H1 & H2 & _). by exists (w_now (c_tick (tick c))).
Qed.

Lemma set_ranks_orders ids : forall c, db_orders (c_db (set_ranks ids c).2) = db_orders (c_db c).
Proof.
  intros c. assert (preserves (fun d => db_orders d = db_orders (c_db c)) (set_ranks ids)) as Hp; [|by apply Hp].
  unfold set_ranks. preserving.
  generalize 1%N. induction ids as [|id ids IH]; intros n; simpl; preserving. by apply preserves_execute.
Qed.
End RulingLemmas.

(** ** Properties *)

(** Accepting an order applies it whole or not at all: if the board has moved, the ask is
    dropped and no row changes; otherwise the codes are a permutation of the orderable rows,
    the [k]-th of them ranks [k], and every row the order does not name is as it was. *)
Theorem accept_order_applies `{World} p c ruling c' :
  board_ok (c_db c) -> accept_order p c = (Ok ruling, c') ->
  db_orders (c_db c') = delete p (db_orders (c_db c)) /\
  exists prop, db_orders (c_db c) !! p = Some prop /\
  match ruling with
  | OrderStale _ => db_items (c_db c') = db_items (c_db c)
  | OrderApplied _ =>
      exists perm now, perm ≡ₚ orderable (board_of (db_items (c_db c)) p) /\
        it_code <$> perm = op_codes prop /\
        (forall k i, perm !! k = Some i ->
           rank_item (f64_of_N (1 + N.of_nat k)) now i ∈ db_items (c_db c')) /\
        forall i, i ∈ db_items (c_db c) -> i ∉ perm -> i ∈ db_items (c_db c')
  end.
Proof.
  intros Hok Ha. apply bind_Ok in Ha as (o & c1 & (_ & -> & ->)%query_Ok & Ha).
  apply bind_Ok in Ha as (prop & c2 & [Hp ->]%require_some_Ok & Ha).
  apply bind_Ok in Ha as (items & c3 & (_ & -> & ->)%query_Ok & Ha). cbn [c_db tick] in Ha.
  destruct (validate_order _ _) as [ids|msg] eqn:Hv.
  - apply bind_Ok in Ha as (rows & c4 & Hs & Ha). apply bind_Ok in Ha as (b & c5 & Hd & Ha).
    injection Ha as <- <-. apply order_delete_Ok in Hd as ->. cbn [db_orders db_items set_orders].
    pose proof (set_ranks_orders ids (tick (tick c))) as Hso. rewrite Hs in Hso. cbn [snd] in Hso.
    rewrite Hso. split; [done|]. exists prop. split; [done|].
    apply validate_order_permutes in Hv as (perm & Hperm & Hcodes & Hids); [|by apply board_of_codes].
    assert (forall i, i ∈ perm -> i ∈ db_items (c_db c)) as Hin.
    { intros i Hi. rewrite Hperm in Hi. apply elem_of_lfilter in Hi as [Hi _]. by apply elem_of_board_of in Hi as [? _]. }
    assert (NoDup ids) as Hnd.
    { rewrite <-Hids. apply NoDup_fmap_2_strong.
      - intros x y Hx Hy. apply (NoDup_key_inj it_id (db_items (c_db c))); auto using ok_ids.
      - apply (NoDup_fmap_1 it_code). rewrite Hperm. apply lfilter_fmap_NoDup. by apply board_of_codes. }
    apply set_ranks_Ok in Hs as (now & H1 & H2); [|done]. exists perm, now. split; [done|]. split; [done|].
    split.
    + intros k i Hk. apply H2; [apply Hin; by eapply list_elem_of_lookup_2|].
      by rewrite <-Hids, list_lookup_fmap, Hk.
    + intros i Hi Hni. apply H1; [done|]. rewrite <-Hids.
      intros (j & Hij & Hj)%list_elem_of_fmap. apply Hni.
      by rewrite (NoDup_key_inj it_id (db_items (c_db c)) i j) by auto using ok_ids.
  - apply bind_Ok in Ha as (b & c5 & Hd & Ha). injection Ha as <- <-. apply order_delete_Ok in Hd as ->.
    split; [done|]. by exists prop.
Qed.

(** A rejection is a ruling: it carries a trimmed, non-empty reason of at most 300 characters,
    it is only for work not under way, and it leaves the row rejected with that reason, unheld
    and with no agent, its pending ask gone and the ruling on its trail. *)
Theorem reject_item_rules `{World} id reason c i e pending c' :
  board_ok (c_db c) -> reject_item id reason c = (Ok (i, e, pending), c') ->
  is_empty (trim reason) = false /\ char_count (trim reason) <= MAX_REASON /\
  (exists old, find_item (db_items (c_db c)) id = Some old /\ is_rulable (it_status old) = true) /\
  find_item (db_items (c_db c')) id = Some i /\
  it_status i = Rejected /\ it_close_reason i = Some (trim reason) /\ it_hold_reason i = None /\
  it_agent_id i = None /\ ev_kind e = EvRejected /\ ev_detail e = Some (trim reason) /\
  (forall q, q ∈ db_proposals (c_db c') -> pr_item_id q <> id).
Proof.
  intros Hok Hr. apply bind_Ok in Hr as (r & c1 & [Hreason ->]%lift_Ok & Hr).
  unfold clean_reason_for in Hreason. destruct (is_empty (trim reason)) eqn:He; [done|].
  destruct (MAX_REASON <? char_count (trim reason))%nat eqn:Hlen; [done|]. injection Hreason as <-.
  apply Nat.ltb_ge in Hlen. split; [done|]. split; [done|].
  apply bind_Ok in Hr as (old & c2 & [Hf Hdb2]%store_require_Ok & Hr).
  apply bind_Ok in Hr as (u & c3 & [Hgate ->]%lift_Ok & Hr).
  split; [exists old; split; [done|]; unfold reject_gate in Hgate; by destruct (it_status old)|].
  apply bind_Ok in Hr as (p & c4 & (_ & -> & ->)%query_Ok & Hr).
  apply bind_Ok in Hr as (u2 & c5 & Hdel & Hr). apply bind_Ok in Hr as (o & c6 & Hrej & Hr).
  apply bind_Ok in Hr as (item & c7 & [-> ->]%require_some_Ok & Hr).
  apply bind_Ok in Hr as (ev & c8 & Hrec & Hr). injection Hr as <- <- _ <-.
  apply record_Ok in Hrec as (Hdb8 & _ & _ & _ & Hk & Hd & _).
  assert (db_items (c_db c5) = db_items (c_db c) /\
    forall q, q ∈ db_proposals (c_db c5) -> pr_item_id q <> id) as [Hi5 Hq5].
  { cbn [c_db tick] in Hdel. rewrite Hdb2 in Hdel. destruct (lfind _ (db_proposals (c_db c))) as [p|] eqn:Hp.
    - apply bind_Ok in Hdel as (b & c9 & Hdel & Hret). injection Hret as _ <-.
      apply proposal_delete_Ok in Hdel as ->. cbn [c_db tick db_items set_proposals db_proposals].
      rewrite Hdb2. split; [done|]. intros q [Hq Hn]%elem_of_lfilter Hqi.
      apply lfind_Some in Hp as [Hp Hpi]. bool_to_prop.
      assert (q = p) as ->; [|done].
      apply (NoDup_key_inj pr_item_id (db_proposals (c_db c))); [by apply ok_one_ask|done|done|congruence].
    - injection Hdel as _ <-. cbn [c_db tick]. rewrite Hdb2. split; [done|]. intros q Hq Hqi.
      pose proof (proj1 (lfind_None _ _) Hp q Hq) as Hn. simpl in Hn. bool_to_prop. done. }
  apply bind_Ok in Hrej as (now & c10 & Hnow & Hrej). injection Hnow as <- <-.
  apply bind_Ok in Hrej as (u3 & c11 & (_ & ->)%execute_Ok & Hrej). apply store_get_Ok in Hrej as (_ & Ho & ->).
  cbn [c_db tick db_items set_items] in *. rewrite Hi5 in Ho.
  rewrite (update_one_row id _ c old) in Ho by (done || by apply ok_ids). injection Ho as ->.
  rewrite Hdb8. cbn [db_items set_events set_items c_db tick db_proposals]. rewrite Hi5.
  rewrite (update_one_row id _ c old) by (done || by apply ok_ids). repeat (split; [done|]). done.
Qed.

(** The board of [two_items] with an order asked for. *)
Definition ordered_board : Conn Db :=
  {| c_db := set_orders (fun _ => {["p" := {| op_project_id := "p"; op_codes := ["FA-2"; "FA-1"];
       op_note := None; op_created_at := 0 |}]}) (c_db two_items); c_tick := 0 |}.

Lemma accept_order_applies_witness :
  exists rows c', @accept_order (calm_world show_nat) "p" ordered_board = (Ok (OrderApplied rows), c') /\
    db_orders (c_db c') !! "p" = None.
Proof.
  do 2 eexists. split; [vm_compute; reflexivity|].
  edestruct (@accept_order_applies (calm_world show_nat) "p" ordered_board) as [Hd _];
    [apply (board_ok_ext (c_db two_items)); [reflexivity..|apply two_items_ok]|vm_compute; reflexivity|].
  rewrite Hd. vm_compute. reflexivity.
Defined.

Lemma reject_item_rules_witness :
  exists i e c', @reject_item (calm_world show_nat) "i1" "  not now " two_items = (Ok (i, e, None), c') /\
    it_status i = Rejected /\ it_close_reason i = Some "not now".
Proof.
  do 3 eexists. split; [vm_compute; reflexivity|].
  edestruct (@reject_item_rules (calm_world show_nat) "i1" "  not now " two_items)
    as (_ & _ & _ & _ & Hs & Hr & _); [apply two_items_ok|vm_compute; reflexivity|].
  split; [exact Hs|exact Hr].
Defined.
