(* ===== verification/Drainer.v ===== *)
(** * The queue at work

    Models the part of src/crates/fletch-core/src/roadmap/drainer.rs that touches the database:
    collecting what runs have settled and writing it, claiming the next item, recording a wedge,
    and what follows a launch. One definition is one lock scope. Reading a workflow's spec
    ([serde_json] and [spec::validate]) is a parameter, as is the outcome of [launch]. *)

From S2P Require Import Prelude RustStr BTree Board Sql Database Deps Store Events Brakes Queue Mutations.

Local Open Scope string_scope.
Local Open Scope list_scope.

Definition is_live (r : WfRunRow) : bool := lcontains ["pending"; "running"] (run_status_text r).

(** The live runs of a project's items ([SELECT COUNT( * )]). *)
Definition live_runs (d : Db) (project_id : string) : N :=
  N.of_nat (length (lfilter (fun r => String.eqb (run_project_id r) project_id
    && is_some (run_roadmap_item_id r) && is_live r) (db_runs d))).

(** [ORDER BY created_at DESC LIMIT 1]. *)
Definition run_newer (a b : WfRunRow) : bool := (run_created_at b <=? run_created_at a)%Z.

Definition find_run (runs : list WfRunRow) (id : string) : option WfRunRow :=
  lfind (fun r => String.eqb (run_id r) id) runs.

Record Settled := {
  sd_item : RoadmapItem;
  sd_outcome : Settlement;
  sd_pr : option FinalizedPr;
  sd_adopted_run_id : option string;
}.

Definition SaidNote : Type := string * Z.

(** A note is said once for each state of the item. *)
Definition record_note (said : gmap string SaidNote) (item : RoadmapItem) (note : string)
    : bool * gmap string SaidNote :=
  let entry := (note, it_updated_at item) in
  if eqb (said !! it_id item) (Some entry) then (false, said)
  else (true, <[it_id item := entry]> said).

Definition forget (said : gmap string SaidNote) (item_id : string) : gmap string SaidNote :=
  delete item_id said.

Definition NO_WORKFLOW : string :=
  "No workflow to run it under. Pick one on this item, or set the project's default workflow.".
Definition BAD_WORKFLOW : string := "Its workflow is missing or no longer valid — pick another.".
Definition NO_REPO : string := "This project has no repo to run in.".

Definition repo_older (a b : RepoRow) : bool := (repo_created_at a <=? repo_created_at b)%Z.

Section Drainer.
Context `{World} {Spec : Type} (read_spec : string -> option Spec).

Record DispatchPrep := {
  dp_definition_id : string;
  dp_spec : Spec;
  dp_repo_path : string;
  dp_brief : string;
  dp_workflow_name : option string;
}.

Record Plan := {
  pl_item : RoadmapItem;
  pl_definition_id : string;
  pl_spec : Spec;
  pl_repo_path : string;
  pl_brief : string;
}.

Inductive Claim :=
| ClaimNothing
| ClaimNote (item : RoadmapItem) (text : string) (recorded : option ItemEvent)
| Claimed (plan : Plan) (event : ItemEvent).

(** ** Reads; one that fails is an absent value *)

Definition projects_with_work : M Db (list string) :=
  let* o := attempt_ok (query (fun d =>
    remove_dups (it_project_id <$>
      lfilter (fun i => eqb (it_status i) Queued || eqb (it_status i) Active) (db_items d)))) in
  ret (default [] o).

Definition dispatched_run_id (item_id : string) : M Db (option string) :=
  let* o := attempt_ok (query (fun d =>
    run_id <$> head (sort_by run_newer
      (lfilter (fun r => eqb (run_roadmap_item_id r) (Some item_id) && is_live r) (db_runs d))))) in
  ret (mjoin o).

Definition run_status (id : string) : M Db (option RunStatus) :=
  let* o := attempt_ok (query (fun d => run_status_text <$> find_run (db_runs d) id)) in
  ret (mjoin o ≫= run_status_from_db).

Definition finalized_pr (id : string) : M Db (option FinalizedPr) :=
  let* o := attempt_ok (query (fun d =>
    (fun r => (run_pr_url r, run_pr_number r)) <$> find_run (db_runs d) id)) in
  ret (mjoin o ≫= fun '(url, number) =>
    (fun url => {| fp_url := url; fp_number := number |})
      <$> opt_filter (fun u => negb (is_empty (trim u))) url).

Definition live_run_count (project_id : string) : M Db N :=
  let* o := attempt_ok (query (fun d => live_runs d project_id)) in
  ret (default 0%N o).

Definition primary_repo_path (project_id : string) : M Db (option string) :=
  let* o := attempt_ok (query (fun d =>
    repo_path <$> head (sort_by repo_older
      (lfilter (fun r => String.eqb (repo_project_id r) project_id) (db_repos d))))) in
  ret (opt_filter (fun p => negb (is_empty (trim p))) (mjoin o)).

Definition definition_name (definition_id : string) : M Db (option string) :=
  let* o := attempt_ok (query (fun d => def_name <$> (db_definitions d !! definition_id))) in
  ret (opt_filter (fun n => negb (is_empty n)) (trim <$> mjoin o)).

Definition definition_spec (definition_id : string) : M Db (option Spec) :=
  let* o := attempt_ok (query (fun d => def_spec_json <$> (db_definitions d !! definition_id))) in
  ret (mjoin o ≫= read_spec).

(** ** Settling *)

Definition settle_item (item : RoadmapItem) : M Db Settled :=
  let* adopted_run_id :=
    match it_run_id item with Some _ => ret None | None => dispatched_run_id (it_id item) end in
  let run_id := or_else (it_run_id item) adopted_run_id in
  let* status := match run_id with Some id => run_status id | None => ret None end in
  let* pr :=
    match status, run_id with
    | Some RunDone, Some id => finalized_pr id
    | _, _ => ret None
    end in
  let outcome :=
    match run_id with None => StReleased RUN_NEVER_STARTED | Some _ => settle status pr end in
  ret {| sd_item := item; sd_outcome := outcome; sd_pr := pr; sd_adopted_run_id := adopted_run_id |}.

Definition settleable (i : RoadmapItem) : bool :=
  eqb (it_status i) Active && (is_some (it_run_id i) || is_none (it_agent_id i)).

Definition collect_settlements (project_id : string) : M Db (option (list Settled)) :=
  let* items := attempt_ok (store_list project_id) in
  match items with
  | None => ret None
  | Some items =>
      let* settled := for_each settle_item (lfilter settleable items) in
      ret (Some (lfilter (fun s => negb (eqb (sd_outcome s) StRunning)
                                   || is_some (sd_adopted_run_id s)) settled))
  end.

Definition write_item (id : string) (patch : ItemPatch) : M Db () :=
  let* _ := attempt (store_update id patch) in ret ().

Definition apply_and_record (id : string) (expected : option ItemStatus) (patch : ItemPatch)
    (actor : EventActor) (kind : EventKind) (detail : option string)
    : M Db (option (RoadmapItem * ItemEvent)) :=
  let* updated :=
    match expected with
    | Some expected => update_where_status id expected patch
    | None => store_update id patch
    end in
  match updated with
  | None => ret None
  | Some row =>
      let* event := record (it_id row) (it_project_id row) actor kind detail in
      ret (Some (row, event))
  end.

Definition write_item_with_event (id : string) (patch : ItemPatch) (kind : EventKind)
    (detail : option string) : M Db bool :=
  let* r := attempt (apply_and_record id None patch ActDrainer kind detail) in
  ret (match r with Ok (Some _) => true | _ => false end).

Definition write_item_where (id : string) (expected : ItemStatus) (patch : ItemPatch)
    (entry : TrailEntry) : M Db () :=
  let* _ := attempt (apply_and_record id (Some expected) patch (te_actor entry) (te_kind entry)
                       (te_detail entry)) in
  ret ().

(** [conclude]: the row's write; asking for a review of what landed is not modelled. *)
Definition conclude (item : RoadmapItem) (outcome : Settlement) (pr : option FinalizedPr)
    (detail : option string) : M Db bool :=
  let patch := settlement_patch outcome pr in
  match settlement_event outcome pr with
  | Some (kind, projected) =>
      write_item_with_event (it_id item) patch kind (or_else detail projected)
  | None => let* _ := write_item (it_id item) patch in ret true
  end.

(** One iteration of [settle_project]'s loop. *)
Definition settle_one (s : Settled) : M Db () :=
  if eqb (sd_outcome s) StRunning
  then write_item (it_id (sd_item s)) (with_run_id (Some (sd_adopted_run_id s)) item_patch_default)
  else let* _ := conclude (sd_item s) (sd_outcome s) (sd_pr s) None in ret ().

Definition settle_project (project_id : string) : M Db () :=
  let* settled := collect_settlements project_id in
  match settled with
  | None => ret ()
  | Some settled => let* _ := for_each settle_one settled in ret ()
  end.

(** ** Claiming *)

Definition record_wedge (item : RoadmapItem) (detail : string) : M Db (option ItemEvent) :=
  let* latest := attempt (latest_for_item (it_id item)) in
  match latest with
  | Ok last =>
      if is_some_and last (fun last =>
           eqb (ev_kind last) EvBlocked && eqb (ev_detail last) (Some detail))
      then ret None
      else attempt_ok (record (it_id item) (it_project_id item) ActDrainer EvBlocked (Some detail))
  | Err _ => ret None
  end.

Definition wedge (item : RoadmapItem) (text : string) : M Db Claim :=
  let* recorded := record_wedge item text in
  ret (ClaimNote item text recorded).

Definition claim_item (item_id definition_id : string) (workflow_name : option string)
    : M Db (option (RoadmapItem * ItemEvent)) :=
  let* fresh := store_get item_id in
  if negb (is_some_and fresh (fun fresh => eqb (it_status fresh) Queued)) then ret None
  else
    let* claimed := store_update item_id (with_workflow (Some (Some definition_id)) (status_patch Active)) in
    match claimed with
    | None => ret None
    | Some claimed =>
        let* event := record (it_id claimed) (it_project_id claimed) ActDrainer EvDispatched
                        (Some (default definition_id workflow_name)) in
        ret (Some (claimed, event))
    end.

Definition resolve_for_dispatch (project_id : string) (item : RoadmapItem) (items : list RoadmapItem)
    : M Db (result DispatchPrep string) :=
  let* project_default := project_setting project_id DEFAULT_WORKFLOW_KEY in
  match resolve_workflow item project_default with
  | None => ret (Err NO_WORKFLOW)
  | Some definition_id =>
      let* spec := definition_spec definition_id in
      match spec with
      | None => ret (Err BAD_WORKFLOW)
      | Some spec =>
          let* repo_path := primary_repo_path project_id in
          match repo_path with
          | None => ret (Err NO_REPO)
          | Some repo_path =>
              let dep_rows := omap (fun code => lfind (fun i => String.eqb (it_code i) code) items)
                                (it_deps item) in
              let* workflow_name := definition_name definition_id in
              ret (Ok {| dp_definition_id := definition_id; dp_spec := spec;
                         dp_repo_path := repo_path; dp_brief := build_brief item dep_rows;
                         dp_workflow_name := workflow_name |})
          end
      end
  end.

Definition claim_when_blocked (items queued : list RoadmapItem) (item_id : string)
    (waiting_on : list string) : M Db Claim :=
  match lfind (has_id item_id) queued with
  | None => ret ClaimNothing
  | Some item =>
      match find_cycle (graph_of items) (it_code item) with
      | Some cycle => wedge item ("Stuck in a dependency loop: " +:+ loop_path cycle)
      | None =>
          let rejected := lfilter (fun code =>
            existsb (fun i => String.eqb (it_code i) code && eqb (it_status i) Rejected) items) waiting_on in
          match rejected with
          | [] => ret (ClaimNote item ("Waiting on " +:+ join ", " waiting_on) None)
          | [code] => wedge item ("Waiting on " +:+ code
              +:+ ", which was rejected — remove or replace that dependency.")
          | many => wedge item ("Waiting on " +:+ join ", " many
              +:+ ", which were rejected — remove or replace those dependencies.")
          end
      end
  end.

Definition claim_prepared (item : RoadmapItem) (prep : DispatchPrep) : M Db Claim :=
  let* r := attempt (claim_item (it_id item) (dp_definition_id prep) (dp_workflow_name prep)) in
  ret (match r with
       | Ok (Some (claimed, event)) =>
           Claimed {| pl_item := claimed; pl_definition_id := dp_definition_id prep;
                      pl_spec := dp_spec prep; pl_repo_path := dp_repo_path prep;
                      pl_brief := dp_brief prep |} event
       | _ => ClaimNothing
       end).

Definition plan_and_claim (project_id : string) (cap : N) : M Db Claim :=
  let* held := project_gate project_id in
  match held with
  | Some _ => ret ClaimNothing
  | None =>
      let* items := attempt_ok (store_list project_id) in
      match items with
      | None => ret ClaimNothing
      | Some items =>
          let done := done_codes items in
          let known := known_codes items in
          let queued := dispatchable items in
          let* live := live_run_count project_id in
          match pick_next queued live cap done known with
          | QDispatch i =>
              match queued !! i with
              | None => ret ClaimNothing
              | Some item =>
                  let* prep := resolve_for_dispatch project_id item items in
                  match prep with
                  | Ok prep => claim_prepared item prep
                  | Err msg => wedge item msg
                  end
              end
          | QBlocked item_id waiting_on => claim_when_blocked items queued item_id waiting_on
          | QEmpty | QAtCapacity => ret ClaimNothing
          end
      end
  end.

(** What [dispatch] writes once the launch has an outcome. *)
Definition finish_dispatch (item : RoadmapItem) (launched : result string string) : M Db () :=
  match launched with
  | Ok run_id => write_item (it_id item) (with_run_id (Some (Some run_id)) item_patch_default)
  | Err e =>
      let* _ := conclude item (StReleased RUN_UNLAUNCHABLE) None (Some ("Couldn't start a run — " +:+ e)) in
      ret ()
  end.
End Drainer.
Arguments Claimed {Spec} plan event.
Arguments ClaimNothing {Spec}.
Arguments ClaimNote {Spec} item text recorded.

(** ** The invariant *)

Section DrainerKeeps.
Context `{World} {Spec : Type} (read_spec : string -> option Spec).

Lemma read_ok_reads {A} (f : Db -> A) : reads (attempt_ok (query f)).
Proof. auto with fletch. Qed.

Lemma dispatched_run_id_reads id : reads (dispatched_run_id id).
Proof. unfold dispatched_run_id. reading. Qed.
Lemma run_status_reads id : reads (run_status id).
Proof. unfold run_status. reading. Qed.
Lemma finalized_pr_reads id : reads (finalized_pr id).
Proof. unfold finalized_pr. reading. Qed.
Lemma live_run_count_reads p : reads (live_run_count p).
Proof. unfold live_run_count. reading. Qed.
Lemma primary_repo_path_reads p : reads (primary_repo_path p).
Proof. unfold primary_repo_path. reading. Qed.
Lemma definition_name_reads id : reads (definition_name id).
Proof. unfold definition_name. reading. Qed.
Lemma definition_spec_reads id : reads (definition_spec read_spec id).
Proof. unfold definition_spec. reading. Qed.
#[local] Hint Resolve dispatched_run_id_reads run_status_reads finalized_pr_reads live_run_count_reads
  primary_repo_path_reads definition_name_reads definition_spec_reads : fletch.

Lemma settle_item_reads i : reads (settle_item i).
Proof. unfold settle_item. reading. Qed.
#[local] Hint Resolve settle_item_reads : fletch.

Lemma for_each_reads {A B} (f : A -> M Db B) l : (forall x, reads (f x)) -> reads (for_each f l).
Proof. intros Hf. induction l as [|x l IH]; simpl; reading. Qed.

Lemma collect_settlements_reads p : reads (collect_settlements p).
Proof. unfold collect_settlements. reading. by apply for_each_reads; auto with fletch. Qed.

Lemma resolve_for_dispatch_reads p i items : reads (resolve_for_dispatch read_spec p i items).
Proof. unfold resolve_for_dispatch. reading. Qed.
#[local] Hint Resolve collect_settlements_reads resolve_for_dispatch_reads : fletch.

Lemma write_item_board id p : preserves board_ok (write_item id p).
Proof. unfold write_item. preserving. Qed.

Lemma apply_and_record_board id e p a k d : preserves board_ok (apply_and_record id e p a k d).
Proof. unfold apply_and_record. preserving. Qed.
#[local] Hint Resolve write_item_board apply_and_record_board : fletch.

Lemma write_item_where_board id e p t : preserves board_ok (write_item_where id e p t).
Proof. unfold write_item_where. preserving. Qed.

Lemma conclude_board i o pr d : preserves board_ok (conclude i o pr d).
Proof. unfold conclude, write_item_with_event. preserving. Qed.
#[local] Hint Resolve conclude_board : fletch.

Lemma settle_one_board s : preserves board_ok (settle_one s).
Proof. unfold settle_one. preserving. Qed.
#[local] Hint Resolve settle_one_board : fletch.

Lemma settle_project_board p : preserves board_ok (settle_project p).
Proof. unfold settle_project. preserving. Qed.

Lemma record_wedge_board i d : preserves board_ok (record_wedge i d).
Proof. unfold record_wedge. preserving. Qed.
#[local] Hint Resolve record_wedge_board : fletch.

Lemma claim_item_board id d w : preserves board_ok (claim_item id d w).
Proof. unfold claim_item. preserving. Qed.
#[local] Hint Resolve claim_item_board : fletch.

Lemma plan_and_claim_board p cap : preserves board_ok (plan_and_claim read_spec p cap).
Proof. unfold plan_and_claim, claim_prepared, claim_when_blocked, wedge. preserving. Qed.

Lemma finish_dispatch_board i r : preserves board_ok (finish_dispatch i r).
Proof. unfold finish_dispatch. preserving. Qed.
End DrainerKeeps.
#[export] Hint Resolve settle_project_board plan_and_claim_board finish_dispatch_board
  write_item_board write_item_where_board settle_one_board conclude_board dispatched_run_id_reads
  run_status_reads finalized_pr_reads live_run_count_reads settle_item_reads resolve_for_dispatch_reads
  : fletch.

(** ** Lemmas *)

Section DrainerLemmas.
Context `{World} {Spec : Type} (read_spec : string -> option Spec).

Lemma attempt_Ok {A} (m : M Db A) c r c' : attempt m c = (Ok r, c') -> m c = (r, c').
Proof. unfold attempt. destruct (m c) as [r' c1]. intros Ha. by injection Ha as <- <-. Qed.

Lemma project_gate_open p c c' :
  project_gate p c = (Ok None, c') ->
  db_project_holds (c_db c) !! p = None /\ c' = tick c.
Proof.
  unfold project_gate, get_project, attempt, bind, query, sql. destruct (w_fault _); [done|].
  cbn. intros Hg. injection Hg as Hh <-. split; [by destruct (db_project_holds (c_db c) !! p)|].
  unfold tick. done.
Qed.

(** A claim in one step: the queued row becomes active under its workflow, with its entry. *)
Lemma claim_item_Ok id def name c i e c' :
  NoDup (it_id <$> db_items (c_db c)) -> claim_item id def name c = (Ok (Some (i, e)), c') ->
  exists now old, find_item (db_items (c_db c)) id = Some old /\ it_status old = Queued /\
    i = patch_item (with_workflow (Some (Some def)) (status_patch Active)) now old /\
    c_db c' = set_events (fun l => l ++ [e]) (set_items (update_rows (has_id id)
      (patch_item (with_workflow (Some (Some def)) (status_patch Active)) now)) (c_db c)) /\
    ev_kind e = EvDispatched /\ ev_actor e = ActDrainer /\ ev_item_id e = id.
Proof.
  intros Hnd Hc. apply bind_Ok in Hc as (fresh & c1 & (_ & -> & ->)%store_get_Ok & Hc).
  destruct (find_item _ id) as [old|] eqn:Hf; [|done]. cbn [is_some_and] in Hc.
  destruct (eqb (it_status old) Queued) eqn:Es; [|done]. apply (proj1 (eqb_eq _ _)) in Es. cbn [negb] in Hc.
  apply bind_Ok in Hc as (o & c2 & Hu & Hc).
  apply (store_apply_Ok _ _ _ (tick c)) in Hu as (now & Hdb & -> & _); [|done..].
  cbn [c_db tick] in Hc, Hdb. rewrite Hf in Hc. cbn [opt_filter expects fmap option_fmap option_map] in Hc.
  apply bind_Ok in Hc as (ev & c3 & Hrec & Hc). injection Hc as <- <- <-.
  apply record_Ok in Hrec as (Hdb3 & Hi & _ & Ha & Hk & _). exists now, old.
  split; [done|]. split; [done|]. split; [done|]. split.
  - rewrite Hdb3, Hdb. unfold set_events, set_items. cbn. f_equal.
    apply update_rows_ext. intros j _. simpl. by rewrite andb_true_r.
  - apply find_item_Some in Hf as [_ Hid]; [|done]. split; [done|]. split; [done|]. by rewrite Hi, <-Hid.
Qed.

Lemma live_run_count_Ok p c live c' :
  w_fault (c_tick c) = None -> live_run_count p c = (Ok live, c') -> live = live_runs (c_db c) p.
Proof.
  unfold live_run_count, attempt_ok, bind, query, sql. intros ->. cbn. intros Hl. by injection Hl as <- _.
Qed.

Lemma blocked_not_claimed items queued id waiting c plan e c' :
  claim_when_blocked (Spec := Spec) items queued id waiting c <> (Ok (Claimed plan e), c').
Proof.
  unfold claim_when_blocked, wedge. intros Hc. destruct (lfind _ queued); [|done].
  destruct (find_cycle _ _); [by apply bind_Ok in Hc as (x5 & c5 & _ & Hc)|].
  destruct (lfilter _ waiting) as [|? [|? ?]]; [done|by apply bind_Ok in Hc as (x5 & c5 & _ & Hc)..].
Qed.
End DrainerLemmas.

(** ** What settling should find *)

(** An item's run: the one it is linked to, or the newest live run dispatched for it. *)
Definition adopted_run (d : Db) (item : RoadmapItem) : option string :=
  match it_run_id item with
  | Some _ => None
  | None => run_id <$> head (sort_by run_newer
      (lfilter (fun r => eqb (run_roadmap_item_id r) (Some (it_id item)) && is_live r) (db_runs d)))
  end.

Definition pr_of_run (d : Db) (id : string) : option FinalizedPr :=
  find_run (db_runs d) id ≫= fun r =>
    (fun url => {| fp_url := url; fp_number := run_pr_number r |})
      <$> opt_filter (fun u => negb (is_empty (trim u))) (run_pr_url r).

(** The settlement the tables say: settle the run's status and, when it is done, its pull request. *)
Definition settled_of (d : Db) (item : RoadmapItem) : Settled :=
  let adopted := adopted_run d item in
  let run := or_else (it_run_id item) adopted in
  let status := run ≫= fun id => find_run (db_runs d) id ≫= fun r => run_status_from_db (run_status_text r) in
  let pr := match status with Some RunDone => run ≫= pr_of_run d | _ => None end in
  {| sd_item := item;
     sd_outcome := match run with None => StReleased RUN_NEVER_STARTED | Some _ => settle status pr end;
     sd_pr := pr; sd_adopted_run_id := adopted |}.

Section Settling.
Context `{World} (calm : forall n, w_fault n = None).

Lemma attempt_ok_query_calm {A} (f : Db -> A) c :
  attempt_ok (query f) c = (Ok (Some (f (c_db c))), tick c).
Proof. unfold attempt_ok, query, sql. by rewrite calm. Qed.

Lemma dispatched_calm id c :
  dispatched_run_id id c = (Ok (run_id <$> head (sort_by run_newer
    (lfilter (fun r => eqb (run_roadmap_item_id r) (Some id) && is_live r) (db_runs (c_db c))))), tick c).
Proof. unfold dispatched_run_id, bind. by rewrite attempt_ok_query_calm. Qed.

Lemma run_status_calm id c :
  run_status id c = (Ok (find_run (db_runs (c_db c)) id ≫= fun r => run_status_from_db (run_status_text r)), tick c).
Proof.
  unfold run_status, bind. rewrite attempt_ok_query_calm. by destruct (find_run _ id).
Qed.

Lemma finalized_pr_calm id c : finalized_pr id c = (Ok (pr_of_run (c_db c) id), tick c).
Proof.
  unfold finalized_pr, pr_of_run, bind. rewrite attempt_ok_query_calm. by destruct (find_run _ id).
Qed.

Lemma settle_item_calm item c :
  exists c', settle_item item c = (Ok (settled_of (c_db c) item), c') /\ c_db c' = c_db c.
Proof.
  assert (exists c', settle_item item c = (Ok (settled_of (c_db c) item), c')) as [c' Hs].
  2: { exists c'. split; [done|]. by eapply reads_Ok; [apply settle_item_reads|]. }
  unfold settle_item, settled_of, adopted_run. destruct (it_run_id item) as [id|] eqn:Hr; cbn [or_else].
  - unfold bind, ret. rewrite run_status_calm. cbn [mbind option_bind].
    destruct (find_run (db_runs (c_db c)) id ≫= _) as [[]|]; try by eexists.
    rewrite finalized_pr_calm. by eexists.
  - unfold bind at 1. rewrite dispatched_calm. set (o := run_id <$> _). destruct o as [id|]; [|by eexists].
    cbn [or_else mbind option_bind]. unfold bind, ret. rewrite run_status_calm. cbn [c_db tick].
    destruct (find_run (db_runs (c_db c)) id ≫= _) as [[]|]; try by eexists.
    rewrite finalized_pr_calm. by eexists.
Qed.

Lemma for_each_settle l c :
  exists c', for_each settle_item l c = (Ok (settled_of (c_db c) <$> l), c').
Proof.
  revert c. induction l as [|i l IH]; intros c; [by eexists|]. cbn [for_each]. unfold bind at 1.
  destruct (settle_item_calm i c) as (c1 & -> & Hdb). destruct (IH c1) as [c2 Hl].
  unfold bind. rewrite Hl, Hdb. by eexists.
Qed.

Lemma collect_settlements_calm p c :
  exists c', collect_settlements p c =
    (Ok (Some (lfilter (fun s => negb (eqb (sd_outcome s) StRunning) || is_some (sd_adopted_run_id s))
       (settled_of (c_db c) <$> lfilter settleable (board_of (db_items (c_db c)) p)))), c').
Proof.
  unfold collect_settlements, store_list, bind at 1. rewrite attempt_ok_query_calm.
  destruct (for_each_settle (lfilter settleable (board_of (db_items (c_db c)) p)) (tick c)) as [c' Hc].
  exists c'. unfold bind. rewrite Hc. done.
Qed.
End Settling.

(** A live run settles as running, so its item is not given back. *)
Lemma settle_live r pr why :
  is_live r = true -> settle (run_status_from_db (run_status_text r)) pr <> StReleased why.
Proof.
  unfold is_live. intros Hl%lcontains_true.
  apply elem_of_cons in Hl as [->|Hl]; [done|]. by apply list_elem_of_singleton in Hl as ->.
Qed.

Lemma find_run_elem runs r : NoDup (run_id <$> runs) -> r ∈ runs -> find_run runs (run_id r) = Some r.
Proof.
  intros Hnd Hr. unfold find_run. destruct (lfind _ _) as [r'|] eqn:E.
  - apply lfind_Some in E as [Hr' Hid]. bool_to_prop. by rewrite (NoDup_key_inj run_id _ r' r Hnd).
  - pose proof (proj1 (lfind_None _ _) E r Hr) as Hn. simpl in Hn. by rewrite String.eqb_refl in Hn.
Qed.

(** ** Properties *)

(** (C2) A claim is safe: with the board not held and, if the count of live runs was read, fewer of them
    than the cap (a count that fails reads as none under way), the item claimed was queued, unassigned
    and unheld, and everything it depends on had shipped and was not held. Of the whole database the
    claim changes that one row, to active under the plan's workflow, and adds the one entry of its
    dispatch to the history. *)
Theorem claim_is_safe `{World} {Spec} (read_spec : string -> option Spec) p cap c plan e c' :
  board_ok (c_db c) -> plan_and_claim read_spec p cap c = (Ok (Claimed plan e), c') ->
  db_project_holds (c_db c) !! p = None /\
  (w_fault (2 + c_tick c) = None -> (live_runs (c_db c) p < cap)%N) /\
  exists old now, old ∈ db_items (c_db c) /\ it_project_id old = p /\
    it_status old = Queued /\ it_agent_id old = None /\ it_hold_reason old = None /\
    (forall dep, dep ∈ db_items (c_db c) -> it_project_id dep = p -> it_code dep ∈ it_deps old ->
       it_status dep = Done /\ it_hold_reason dep = None) /\
    pl_item plan = patch_item (with_workflow (Some (Some (pl_definition_id plan))) (status_patch Active)) now old /\
    c_db c' = set_events (fun l => l ++ [e])
      (set_items (fmap (fun i => if has_id (it_id old) i then pl_item plan else i)) (c_db c)) /\
    ev_kind e = EvDispatched /\ ev_actor e = ActDrainer /\ ev_item_id e = it_id old.
Proof.
  intros Hok Hp. apply bind_Ok in Hp as (held & c1 & Hg & Hp).
  destruct held as [|]; [done|]. apply project_gate_open in Hg as [Hhold ->]. split; [done|].
  apply bind_Ok in Hp as (o & c2 & Ho & Hp). apply attempt_ok_Ok in Ho as [-> ->].
  unfold store_list, query, sql in Hp. cbn [c_tick tick c_db] in Hp.
  destruct (w_fault (S (c_tick c))) as [|] eqn:Hf1; [done|]. cbn [fst snd] in Hp.
  set (items := board_of (db_items (c_db c)) p) in *.
  apply bind_Ok in Hp as (live & c3 & Hl & Hp).
  assert (Hdb3 : c_db c3 = c_db c) by (by pose proof (reads_Ok _ _ _ _ (live_run_count_reads p) Hl)).
  destruct (pick_next _ _ _ _ _) as [| |id w|i] eqn:Hn; [done|done| |].
  { exfalso. by eapply blocked_not_claimed. }
  split. { intros Hf2. pose proof (pick_next_spec (dispatchable items) live cap (done_codes items)
             (known_codes items)) as Hs. rewrite Hn in Hs. destruct Hs as [Hlt _].
           apply live_run_count_Ok in Hl; [|exact Hf2]; by rewrite Hl in Hlt. }
  destruct (dispatchable items !! i) as [old|] eqn:Hi; [|done].
  pose proof (dispatch_respects_holds items live cap i old (board_of_codes _ _ Hok) Hn Hi) as Hd.
  destruct Hd as (Hin & Hq & Ha & Hh & Hdeps). apply elem_of_board_of in Hin as [Hin Hproj].
  apply bind_Ok in Hp as (prep & c4 & Hr & Hp).
  pose proof (reads_Ok _ _ _ _ (resolve_for_dispatch_reads _ _ _ _) Hr) as Hdb4.
  destruct prep as [prep|msg]; [|by apply bind_Ok in Hp as (r & c5 & _ & Hp)].
  apply bind_Ok in Hp as (r & c5 & Hc & Hp). apply attempt_Ok in Hc.
  destruct r as [[[i0 e0]|]|]; [|done..]. injection Hp as <- <- <-.
  assert (c_db c4 = c_db c) as Hdb by congruence.
  apply claim_item_Ok in Hc as (now & old' & Hf & _ & Hi0 & Hdb5 & Hk & Ha5 & He); [|rewrite Hdb; by apply ok_ids].
  rewrite Hdb in Hf, Hdb5. rewrite (proj2 (find_item_Some _ (it_id old) old (ok_ids _ Hok))) in Hf by done.
  injection Hf as <-. exists old, now. cbn [pl_item pl_definition_id].
  do 5 (split; [done|]). split; [intros dep Hd1 Hd2; apply Hdeps; by apply elem_of_board_of|].
  split; [done|]. split; [|done]. rewrite Hdb5, Hi0. unfold set_events, set_items. cbn. f_equal. apply list_fmap_ext.
  intros k j Hj%list_elem_of_lookup_2. destruct (has_id (it_id old) j) eqn:E; [|done].
  unfold has_id in E. bool_to_prop. by rewrite (NoDup_key_inj it_id (db_items (c_db c)) j old (ok_ids _ Hok)).
Qed.

(** When its reads succeed, a settling pass gives back only items whose run is over: every
    settlement is of an active item of the project that no agent holds outside a run, and a
    released one has no live run, neither the one it is linked to nor one dispatched for it
    while it was not linked. *)
Theorem released_only_when_over `{World} p c l c' s :
  (forall n, w_fault n = None) -> NoDup (run_id <$> db_runs (c_db c)) ->
  collect_settlements p c = (Ok (Some l), c') -> s ∈ l ->
  sd_item s ∈ db_items (c_db c) /\ it_status (sd_item s) = Active /\
  (sd_outcome s = StRunning -> it_run_id (sd_item s) = None /\ is_some (sd_adopted_run_id s) = true) /\
  forall why r, sd_outcome s = StReleased why -> r ∈ db_runs (c_db c) -> is_live r = true ->
    it_run_id (sd_item s) <> Some (run_id r) /\
    (it_run_id (sd_item s) = None -> run_roadmap_item_id r <> Some (it_id (sd_item s))).
Proof.
  intros Hcalm Hnd Hc Hs. destruct (collect_settlements_calm Hcalm p c) as [c1 Hc1]. rewrite Hc1 in Hc.
  injection Hc as <- <-. apply elem_of_lfilter in Hs as [Hs Hkeep].
  apply list_elem_of_fmap in Hs as (i & -> & Hi). apply elem_of_lfilter in Hi as [Hi Hset].
  apply elem_of_board_of in Hi as [Hi _]. unfold settleable in Hset. bool_to_prop.
  cbn [sd_item settled_of]. split; [done|]. split; [done|]. split.
  { intros Hrun. rewrite Hrun in Hkeep. cbn [negb orb] in Hkeep. rewrite eqb_refl in Hkeep. cbn in Hkeep.
    split; [|done]. unfold adopted_run in Hkeep. by destruct (it_run_id i). }
  intros why r Hwhy Hr Hlive. cbn [sd_outcome settled_of] in Hwhy.
  pose proof (find_run_elem _ r Hnd Hr) as Hfr. split.
  - intros Hid. rewrite Hid in Hwhy. cbn [or_else mbind option_bind] in Hwhy. rewrite Hfr in Hwhy.
    by apply settle_live in Hwhy.
  - intros Hid Hitem. unfold adopted_run in Hwhy. rewrite Hid in Hwhy. cbn [or_else] in Hwhy.
    set (live := lfilter _ (db_runs (c_db c))) in Hwhy.
    assert (r ∈ sort_by run_newer live) as Hin.
    { apply elem_of_sort_by, elem_of_lfilter. split; [done|]. by rewrite Hitem, eqb_refl, Hlive. }
    destruct (sort_by run_newer live) as [|r0 rest] eqn:Es; [by apply elem_of_nil in Hin|].
    cbn [head fmap option_fmap option_map mbind option_bind] in Hwhy.
    assert (r0 ∈ live) as Hr0 by (apply (elem_of_sort_by run_newer); rewrite Es; apply list_elem_of_here).
    apply elem_of_lfilter in Hr0 as [Hr0 Hl0]. bool_to_prop.
    rewrite (find_run_elem _ r0 Hnd Hr0) in Hwhy. by apply settle_live in Hwhy.
Qed.

(** A wedge is recorded once: an item blocked for a reason is not recorded again for the same
    reason while that is the last thing on its trail, so a queue that keeps finding it blocked
    does not grow its history. *)
Theorem record_wedge_once `{World} i text c e c1 c2 r :
  (forall e', e' ∈ db_events (c_db c) -> ev_item_id e' = it_id i -> (ev_created_at e' <= ev_created_at e)%Z) ->
  record_wedge i text c = (Ok (Some e), c1) -> record_wedge i text c1 = (r, c2) ->
  ev_kind e = EvBlocked /\ ev_detail e = Some text /\ db_events (c_db c1) = db_events (c_db c) ++ [e] /\
  r = Ok None /\ c_db c2 = c_db c1.
Proof.
  intros Hold Hw Hw2. unfold record_wedge in Hw. apply bind_Ok in Hw as (latest & c3 & Hl & Hw).
  apply attempt_Ok in Hl. assert (c_db c3 = c_db c) as Hdb3.
  { pose proof (latest_for_item_reads (it_id i) c) as Hr. by rewrite Hl in Hr. }
  destruct latest as [last|]; [|done]. destruct (is_some_and last _); [done|].
  apply attempt_ok_Ok in Hw as [-> He].
  destruct (record (it_id i) (it_project_id i) ActDrainer EvBlocked (Some text) c3) as [[e'|] c4] eqn:Hrec;
    [|done]. injection He as <-. apply record_Ok in Hrec as (Hdb & Hid & _ & _ & Hk & Hd & _).
  rewrite Hdb3 in Hdb. cbn [snd] in *. split; [done|]. split; [done|]. split; [by rewrite Hdb|].
  unfold record_wedge, bind, attempt, latest_for_item, query, sql in Hw2.
  destruct (w_fault (c_tick c4)); [by injection Hw2 as <- <-|].
  cbn in Hw2. rewrite Hdb in Hw2. cbn [db_events set_events] in Hw2.
  assert (head (newest_first (lfilter (fun x => String.eqb (ev_item_id x) (it_id i)) (db_events (c_db c) ++ [e])))
          = Some e) as Hh.
  { unfold newest_first. rewrite lfilter_app. cbn [lfilter].
    rewrite (proj2 (String.eqb_eq _ _) Hid), rev_app_distr. cbn [rev app]. rewrite sort_by_cons; [done|].
    intros x Hx. rewrite rev_lfilter in Hx. apply elem_of_lfilter in Hx as [Hx Hxi]. bool_to_prop.
    unfold ev_newer. apply Z.leb_le, Hold; [|done]. by apply list_elem_of_In, in_rev, list_elem_of_In. }
  rewrite Hh in Hw2. cbn in Hw2. rewrite Hk, Hd, !eqb_refl in Hw2. cbn in Hw2. by injection Hw2 as <- <-.
Qed.

(** ** Witnesses *)

Definition live_run (id item : string) (at_ : Z) : WfRunRow := {|
  run_id := id; run_project_id := "p"; run_status_text := "running"; run_roadmap_item_id := Some item;
  run_pr_url := None; run_pr_number := None; run_created_at := at_;
|}.

Definition set_runs_defs (runs : list WfRunRow) (d : Db) : Db := {|
  db_projects := db_projects d; db_project_settings := {[("p", DEFAULT_WORKFLOW_KEY) := "w"]};
  db_settings := db_settings d; db_workspaces := db_workspaces d;
  db_autopilot_log := db_autopilot_log d; db_items := db_items d; db_events := db_events d;
  db_project_holds := db_project_holds d; db_proposals := db_proposals d; db_orders := db_orders d;
  db_runs := runs; db_definitions := {["w" := {| def_name := "build"; def_spec_json := "{}" |}]};
  db_repos := db_repos d;
|}.

Definition runnable : Conn Db := {| c_db := set_runs_defs [] (c_db two_items); c_tick := 0 |}.

Lemma runnable_ok : board_ok (c_db runnable).
Proof. apply (board_ok_ext (c_db two_items)); [reflexivity..|apply two_items_ok]. Qed.

Lemma claim_is_safe_witness :
  exists plan e c', @plan_and_claim (calm_world show_nat) string Some "p" 1 runnable = (Ok (Claimed plan e), c') /\
    (live_runs (c_db runnable) "p" < 1)%N /\ ev_item_id e = "i1".
Proof.
  do 3 eexists. split; [vm_compute; reflexivity|].
  edestruct (@claim_is_safe (calm_world show_nat) string Some "p" 1%N runnable)
    as (_ & Hlive & _); [apply runnable_ok|vm_compute; reflexivity|].
  split; [exact (Hlive eq_refl)|reflexivity].
Defined.

(** One active item linked to a run, and the run. *)
Definition active_linked (runs : list WfRunRow) : Conn Db :=
  {| c_db := set_runs_defs runs (witness_roadmap
       [patch_item (with_run_id (Some (Some "r1")) item_patch_default) 1 (witness_item "i1" "FA-1" Active [])]);
     c_tick := 0 |}.

Lemma released_only_when_over_witness :
  exists s c', @collect_settlements (calm_world show_nat) "p" (active_linked []) = (Ok (Some [s]), c') /\
    sd_outcome s = StReleased RUN_DELETED /\ it_status (sd_item s) = Active.
Proof.
  do 2 eexists. split; [vm_compute; reflexivity|]. split; [reflexivity|].
  eapply (@released_only_when_over (calm_world show_nat) "p" (active_linked []));
    [reflexivity|constructor|vm_compute; reflexivity|apply list_elem_of_here].
Defined.

Lemma record_wedge_once_witness :
  exists e c1 c2, @record_wedge (calm_world show_nat) (witness_item "i1" "FA-1" Queued []) "stuck" two_items
      = (Ok (Some e), c1) /\
    @record_wedge (calm_world show_nat) (witness_item "i1" "FA-1" Queued []) "stuck" c1 = (Ok None, c2) /\
    c_db c2 = c_db c1.
Proof.
  do 3 eexists. split; [vm_compute; reflexivity|]. split; [vm_compute; reflexivity|].
  eapply (@record_wedge_once (calm_world show_nat) (witness_item "i1" "FA-1" Queued []) "stuck" two_items);
    [|vm_compute; reflexivity..].
  intros e' He'. by apply elem_of_nil in He'.
Defined.

(** A read that fails is taken for a run that was deleted: one failed statement while its run is
    still running gives the item back to the board. *)
Lemma unreadable_run_releases_item :
  let w := {| w_fault n := if Nat.eqb n 1 then Some "disk I/O error" else None;
              w_now n := Z.of_nat n; w_uuid := show_nat |} in
  let c := active_linked [live_run "r1" "i1" 1] in
  it_status <$> db_items (c_db c) = [Active] /\
  it_status <$> db_items (c_db (@settle_project w "p" c).2) = [Open] /\
  it_status <$> db_items (c_db (@settle_project (calm_world show_nat) "p" c).2) = [Active] /\
  is_live <$> db_runs (c_db (@settle_project w "p" c).2) = [true].
Proof. vm_compute. auto. Qed.
