(* ===== verification/MergeSweep.v ===== *)
(** * The merge sweep

    Models src/crates/fletch-core/src/roadmap/merge_sweep.rs: the pass that asks the forge about
    every item in review, moves the item when its pull request merged or was closed, and gives
    up after a number of unanswered sweeps. What the forge answers is a parameter. Also the
    item checks of pr_review.rs. *)

From S2P Require Import Prelude RustStr Git Board Sql Database Store Events Brakes Queue Mutations Drainer.

Local Open Scope string_scope.
Local Open Scope list_scope.

Definition UNANSWERED_LIMIT : N := 5.

(** The row's version, and the sweeps it went unanswered. *)
Abbreviation Misses := (Z * N)%type (only parsing).

Definition pollable (items : list RoadmapItem) : list RoadmapItem :=
  lfilter (fun i => eqb (it_status i) InReview && is_some (it_pr_number i)) items.

Inductive Verdict := Waiting | Landed | Abandoned.

Definition verdict (state : option PrStatus) : Verdict :=
  match state with
  | Some PrMerged => Landed
  | Some PrClosed => Abandoned
  | Some PrOpen | None => Waiting
  end.

Definition patch_for (v : Verdict) : option ItemPatch :=
  match v with
  | Waiting => None
  | Landed => Some (status_patch Done)
  | Abandoned => Some (with_run_id (Some None) (status_patch Open))
  end.

Definition SHIPPED_WHILE_HELD : string :=
  "its PR merged while this was held — the hold stands, so nothing waiting on it moves".

Definition event_for (v : Verdict) (held : bool) : option (EventKind * option string) :=
  match v with
  | Waiting => None
  | Landed => Some (EvShipped, if held then Some SHIPPED_WHILE_HELD else None)
  | Abandoned => Some (EvPrClosed, Some "nothing merged — the item is back on the board")
  end.

Definition still_watching (seen : gmap string Misses) (id : string) (updated_at : Z) : bool :=
  match seen !! id with
  | Some (version, misses) => negb (version =? updated_at)%Z || (misses <? UNANSWERED_LIMIT)%N
  | None => true
  end.

Definition record_miss (seen : gmap string Misses) (id : string) (updated_at : Z)
    : bool * gmap string Misses :=
  let entry : Misses := default ((updated_at, 0%N) : Misses) (seen !! id) in
  let entry : Misses := if (entry.1 =? updated_at)%Z then entry else (updated_at, 0%N) in
  let entry : Misses := (entry.1, entry.2 + 1)%N in
  ((entry.2 =? UNANSWERED_LIMIT)%N, <[id := entry]> seen).

Definition answered (seen : gmap string Misses) (id : string) : gmap string Misses := delete id seen.

Definition unreachable_note (number : Z) : string :=
  "Can't reach PR #" +:+ show_Z number +:+ " — nothing has answered for "
  +:+ show_N UNANSWERED_LIMIT
  +:+ " sweeps. It may have been deleted, or this repo's remote or token can't see it. Merge it yourself and mark this done, or put the item back on the board.".

Definition abandoned_note (number : Z) : string :=
  "PR #" +:+ show_Z number +:+ " was closed without merging — back on the board.".

Record Watched := {
  wt_id : string; wt_code : string; wt_project_id : string; wt_number : Z; wt_updated_at : Z;
}.

(** [u32::try_from]. *)
Definition u32_of (z : Z) : option N :=
  if ((0 <=? z) && (z <=? 4294967295))%Z then Some (Z.to_N z) else None.

(** [pr_review::watchable]. *)
Definition watchable (item : RoadmapItem) : option N :=
  if negb (eqb (it_status item) InReview) then None else it_pr_number item ≫= u32_of.

Definition feedback_detail (threads : nat) : string :=
  match threads with
  | 1 => "Sent 1 review thread to an agent"
  | n => "Sent " +:+ show_nat n +:+ " review threads to an agent"
  end.

Section MergeSweep.
Context `{World} (forge : string -> N -> option PrStatus).

Definition merge_hold_gate (item_id : string) : M Db () :=
  let* item := store_get item_id in
  match item with
  | None => ret ()
  | Some item =>
      let* held := gate item in
      match held with
      | Some reason => err (it_code item +:+ " is held — " +:+ reason
          +:+ ". Release the hold before merging its pull request.")
      | None => ret ()
      end
  end.

Definition watch_list : M Db (list Watched) :=
  let* items := attempt_ok (query (fun d =>
    lfilter (fun i => eqb (it_status i) InReview && is_some (it_pr_number i)) (db_items d))) in
  ret (omap (fun i => (fun number => {| wt_id := it_id i; wt_code := it_code i;
                          wt_project_id := it_project_id i; wt_number := number;
                          wt_updated_at := it_updated_at i |}) <$> it_pr_number i)
            (pollable (default [] items))).

Definition held_now (item_id : string) : M Db bool :=
  let* r := attempt (store_get item_id) in
  match r with
  | Ok (Some item) => let* held := gate item in ret (is_some held)
  | Ok None => ret false
  | Err _ => ret true
  end.

Definition unreachable (w : Watched) : M Db () :=
  let text := unreachable_note (wt_number w) in
  let* r := attempt (store_get (wt_id w)) in
  match r with
  | Ok (Some item) => let* _ := record_wedge item text in ret ()
  | _ => ret ()
  end.

Definition poll (repo : string) (number : Z) : option PrStatus := u32_of number ≫= forge repo.

(** The repository of a project, resolved once per pass. *)
Definition repo_of (repos : gmap string (option string)) (project_id : string)
    : M Db (option string * gmap string (option string)) :=
  match repos !! project_id with
  | Some repo => ret (repo, repos)
  | None =>
      let* repo := primary_repo_path project_id in
      ret (repo, <[project_id := repo]> repos)
  end.

(** What a verdict writes. *)
Definition settle_verdict (w : Watched) (v : Verdict) : M Db () :=
  match patch_for v with
  | None => ret ()
  | Some patch =>
      let* held := match v with Landed => held_now (wt_id w) | _ => ret false end in
      match event_for v held with
      | None => ret ()
      | Some (kind, detail) =>
          write_item_where (wt_id w) InReview patch
            {| te_actor := ActSweep; te_kind := kind; te_detail := detail |}
      end
  end.

Definition SweepState : Type := gmap string (option string) * gmap string Misses.

(** One watched item of a sweep. *)
Definition sweep_one (st : SweepState) (w : Watched) : M Db SweepState :=
  let '(repos, seen) := st in
  if negb (still_watching seen (wt_id w) (wt_updated_at w)) then ret (repos, seen)
  else
    let* (repo, repos) := repo_of repos (wt_project_id w) in
    match repo ≫= fun repo => poll repo (wt_number w) with
    | None =>
        let '(gave_up, seen) := record_miss seen (wt_id w) (wt_updated_at w) in
        let* _ := if gave_up then unreachable w else ret () in
        ret (repos, seen)
    | Some state =>
        let* _ := settle_verdict w (verdict (Some state)) in
        ret (repos, answered seen (wt_id w))
    end.

Fixpoint sweep (st : SweepState) (watching : list Watched) : M Db SweepState :=
  match watching with
  | [] => ret st
  | w :: watching => let* st := sweep_one st w in sweep st watching
  end.

(** One pass: watch list, then the sweep. *)
Definition sweep_pass (seen : gmap string Misses) : M Db (gmap string Misses) :=
  let* watching := watch_list in
  let* (_, seen) := sweep (∅, seen) watching in
  ret seen.
End MergeSweep.

(** ** Lemmas *)

(** What a sweep may do to a row: nothing, or move it from review on the word of the forge. *)
Definition swept (forge : string -> N -> option PrStatus) (ws : list Watched) (i i' : RoadmapItem) : Prop :=
  it_id i' = it_id i /\
  (i' = i \/
   it_status i = InReview /\ exists w repo now, w ∈ ws /\ wt_id w = it_id i /\
     (poll forge repo (wt_number w) = Some PrMerged /\ i' = patch_item (status_patch Done) now i \/
      poll forge repo (wt_number w) = Some PrClosed /\
        i' = patch_item (with_run_id (Some None) (status_patch Open)) now i)).

Section SweepLemmas.
Context `{World} (forge : string -> N -> option PrStatus).

Lemma watch_list_reads : reads watch_list.
Proof. unfold watch_list. reading. Qed.

Lemma repo_of_reads repos p : reads (repo_of repos p).
Proof. unfold repo_of. reading. Qed.

Lemma held_now_reads id : reads (held_now id).
Proof. unfold held_now. reading. Qed.
#[local] Hint Resolve watch_list_reads repo_of_reads held_now_reads : fletch.

Lemma settle_verdict_board w v : preserves board_ok (settle_verdict w v).
Proof. unfold settle_verdict. preserving. Qed.

Lemma unreachable_board w : preserves board_ok (unreachable w).
Proof. unfold unreachable. preserving. Qed.
#[local] Hint Resolve settle_verdict_board unreachable_board : fletch.

Lemma sweep_one_board st w : preserves board_ok (sweep_one forge st w).
Proof. unfold sweep_one. preserving. Qed.

Lemma sweep_board st ws : preserves board_ok (sweep forge st ws).
Proof.
  revert st. induction ws as [|w ws IH]; intros st; cbn [sweep]; [preserving|].
  apply preserves_bind; [apply sweep_one_board|apply IH].
Qed.

Lemma sweep_pass_board seen : preserves board_ok (sweep_pass forge seen).
Proof. unfold sweep_pass. preserving. apply sweep_board. Qed.

Lemma swept_update ws l0 l id p now :
  Forall2 (swept forge ws) l0 l ->
  (exists w repo, w ∈ ws /\ wt_id w = id /\
    (poll forge repo (wt_number w) = Some PrMerged /\ p = status_patch Done \/
     poll forge repo (wt_number w) = Some PrClosed /\ p = with_run_id (Some None) (status_patch Open))) ->
  Forall2 (swept forge ws) l0
    (update_rows (fun i => has_id id i && expects (Some InReview) i) (patch_item p now) l).
Proof.
  intros Hl (w & repo & Hw & Hid & Hp). apply Forall2_fmap_r. eapply Forall2_impl; [exact Hl|].
  intros i i' [Hii Hs]. cbn [compose]. destruct (has_id id i' && expects (Some InReview) i') eqn:E; [|by split].
  cbn [expects] in E. unfold has_id in E. bool_to_prop. destruct Hs as [->|(Hst & w' & r' & n' & _ & _ & Hm)].
  - split; [done|]. right. split; [done|]. exists w, repo, now. split; [done|]. split; [congruence|].
    destruct Hp as [[Hp ->]|[Hp ->]]; auto.
  - destruct Hm as [[_ Hi]|[_ Hi]]; rewrite Hi in *; discriminate.
Qed.

Lemma write_where_swept ws l0 id p entry :
  (exists w repo, w ∈ ws /\ wt_id w = id /\
    (poll forge repo (wt_number w) = Some PrMerged /\ p = status_patch Done \/
     poll forge repo (wt_number w) = Some PrClosed /\ p = with_run_id (Some None) (status_patch Open))) ->
  preserves (fun d => Forall2 (swept forge ws) l0 (db_items d)) (write_item_where id InReview p entry).
Proof.
  intros Hp. unfold write_item_where. apply preserves_bind; [|intros; apply preserves_ret].
  apply preserves_attempt. unfold apply_and_record. apply preserves_bind.
  - intros c Hc. destruct (store_apply_db id p (Some InReview) c) as [Hd|[now Hd]];
      unfold update_where_status; rewrite Hd; [done|]. by apply swept_update.
  - intros [row|]; [|apply preserves_ret]. apply preserves_bind; [|intros; apply preserves_ret].
    apply record_items. intros d d' Hd Hl. by rewrite <-Hd.
Qed.

Lemma record_wedge_items (P : Db -> Prop) i text :
  (forall d d', db_items d = db_items d' -> P d -> P d') -> preserves P (record_wedge i text).
Proof.
  intros HP. unfold record_wedge. apply preserves_bind; [preserving|]. intros [last|]; [|preserving].
  destruct (is_some_and last _); [preserving|]. by apply preserves_attempt_ok, record_items.
Qed.

Lemma sweep_one_swept ws l0 st w :
  w ∈ ws -> preserves (fun d => Forall2 (swept forge ws) l0 (db_items d)) (sweep_one forge st w).
Proof.
  intros Hw. unfold sweep_one. destruct st as [repos seen]. destruct (negb _); [apply preserves_ret|].
  apply preserves_bind; [preserving|]. intros [repo repos'].
  destruct (repo ≫= _) as [state|] eqn:Hp.
  - apply preserves_bind; [|intros; apply preserves_ret]. unfold settle_verdict.
    destruct repo as [repo|]; [|done]. cbn [mbind option_bind] in Hp.
    destruct (patch_for (verdict (Some state))) as [p|] eqn:Hpatch; [|apply preserves_ret].
    apply preserves_bind; [preserving|]. intros held. destruct (event_for _ held) as [[kind detail]|]; [|preserving].
    apply write_where_swept. exists w, repo. split; [done|]. split; [done|].
    destruct state; [done|left|right]; by injection Hpatch as <-.
  - destruct (record_miss _ _ _) as [gave_up seen']. apply preserves_bind; [|intros; apply preserves_ret].
    destruct gave_up; [|apply preserves_ret]. unfold unreachable.
    apply preserves_bind; [preserving|]. intros [[item|]|]; [|apply preserves_ret..].
    apply preserves_bind; [|intros; apply preserves_ret]. apply record_wedge_items.
    intros d d' Hd Hl. by rewrite <-Hd.
Qed.

Lemma sweep_swept ws l0 st ws' :
  (forall w, w ∈ ws' -> w ∈ ws) ->
  preserves (fun d => Forall2 (swept forge ws) l0 (db_items d)) (sweep forge st ws').
Proof.
  revert st. induction ws' as [|w ws' IH]; intros st Hsub; cbn [sweep]; [apply preserves_ret|].
  apply preserves_bind; [apply sweep_one_swept, Hsub; by left|]. intros st'. apply IH.
  intros w' Hw'. apply Hsub. by right.
Qed.
End SweepLemmas.
#[export] Hint Resolve sweep_pass_board watch_list_reads : fletch.

(** Sweeps in which a row goes unanswered, one after another. *)
Fixpoint misses (k : nat) (seen : gmap string Misses) (id : string) (v : Z) : gmap string Misses :=
  match k with O => seen | S k => (record_miss (misses k seen id v) id v).2 end.

Lemma record_miss_at seen id v n :
  default ((v, 0%N) : Misses) (seen !! id) = (v, n) ->
  record_miss seen id v = ((n + 1 =? UNANSWERED_LIMIT)%N, <[id := (v, (n + 1)%N)]> seen).
Proof. intros Hs. unfold record_miss. rewrite Hs. cbn [fst snd]. rewrite Z.eqb_refl. done. Qed.

Lemma misses_count k seen id v :
  seen !! id = None -> default ((v, 0%N) : Misses) (misses k seen id v !! id) = (v, N.of_nat k) /\
  (k <> 0%nat -> misses k seen id v !! id = Some (v, N.of_nat k)).
Proof.
  intros Hn. induction k as [|k [IH _]]; [cbn [misses]; by rewrite Hn|]. cbn [misses].
  rewrite (record_miss_at _ _ _ _ IH). cbn [snd]. rewrite lookup_insert_eq.
  replace (N.of_nat k + 1)%N with (N.of_nat (S k)) by lia. done.
Qed.

(** ** Properties *)

(** The sweep moves an item only on the forge's word, and only from review: across a whole
    sweep, whatever is answered and whatever fails, each row is as it was, or it was a watched
    item in review whose pull request merged and it is now done, or was closed and it is back
    on the board without its run. *)
Theorem sweep_moves_only_settled `{World} forge st ws c :
  Forall2 (swept forge ws) (db_items (c_db c)) (db_items (c_db (sweep forge st ws c).2)).
Proof.
  apply (sweep_swept forge ws (db_items (c_db c)) st ws); [done|].
  apply Forall2_same_length_lookup_2; [done|]. intros k i i' Hi Hi'.
  rewrite Hi in Hi'. injection Hi' as <-. split; [done|by left].
Qed.

(** A pull request that stops answering is given up on exactly once, at the fifth sweep in a
    row: until then it is watched and nothing is said, from then on it is not polled, and a
    row that changed is watched again. *)
Theorem gives_up_at_fifth seen id v k :
  seen !! id = None ->
  ((record_miss (misses k seen id v) id v).1 = true <-> k = 4%nat) /\
  (still_watching (misses k seen id v) id v = true <-> (k < 5)%nat) /\
  (forall v', v' <> v -> still_watching (misses k seen id v) id v' = true).
Proof.
  intros Hn. destruct (misses_count k seen id v Hn) as [Hd Hs].
  split; [rewrite (record_miss_at _ _ _ _ Hd); cbn [fst]; unfold UNANSWERED_LIMIT; rewrite N.eqb_eq; lia|].
  unfold still_watching, UNANSWERED_LIMIT. destruct (decide (k = 0%nat)) as [->|Hk].
  - cbn [misses]. rewrite Hn. split; [split; [lia|done]|done].
  - rewrite (Hs Hk), Z.eqb_refl. cbn [negb orb]. split; [rewrite N.ltb_lt; lia|].
    intros v' Hv. by rewrite (proj2 (Z.eqb_neq _ _)) by congruence.
Qed.

(** A user's merge cannot bypass a hold: the gate lets it through only when the item is gone,
    or it was read and neither it nor its board is held. *)
Theorem merge_gate_respects_holds `{World} id c u c' :
  merge_hold_gate id c = (Ok u, c') ->
  match find_item (db_items (c_db c)) id with
  | None => True
  | Some i => it_hold_reason i = None /\ db_project_holds (c_db c) !! it_project_id i = None
  end.
Proof.
  intros Hg. apply bind_Ok in Hg as (o & c1 & (_ & -> & ->)%store_get_Ok & Hg).
  destruct (find_item _ id) as [i|]; [|done]. apply bind_Ok in Hg as (held & c2 & Hgate & Hg).
  destruct held; [done|]. unfold gate in Hgate. destruct (it_hold_reason i); [by injection Hgate|].
  apply project_gate_open in Hgate as [Hp _]. done.
Qed.

(** ** Witnesses *)

Definition reviewed (hold : option string) : Conn Db :=
  {| c_db := witness_roadmap
       [set_hold hold (match hold with Some _ => Some ActUser | None => None end)
          (match hold with Some _ => Some 1%Z | None => None end) 1
          (patch_item (with_pr None (Some (Some 7%Z)) item_patch_default) 1
             (witness_item "i1" "FA-1" InReview []))];
     c_tick := 0 |}.

Lemma gives_up_at_fifth_witness :
  (record_miss (misses 4 ∅ "i1" 1) "i1" 1).1 = true.
Proof. apply (proj1 (gives_up_at_fifth ∅ "i1" 1 4 (lookup_empty _))). reflexivity. Defined.

Lemma merge_gate_respects_holds_witness :
  exists c', @merge_hold_gate (calm_world show_nat) "i1" (reviewed None) = (Ok (), c') /\
    (exists e, (@merge_hold_gate (calm_world show_nat) "i1" (reviewed (Some "wait"))).1 = Err e) /\
    db_project_holds (c_db (reviewed None)) !! "p" = None.
Proof.
  eexists. split; [vm_compute; reflexivity|]. split; [eexists; vm_compute; reflexivity|].
  pose proof (@merge_gate_respects_holds (calm_world show_nat) "i1" (reviewed None) ()
    (@merge_hold_gate (calm_world show_nat) "i1" (reviewed None)).2 eq_refl) as H.
  exact (proj2 H).
Defined.

(** A held item whose pull request merged is shipped by the sweep, with a note on its trail. *)
Lemma held_item_is_shipped :
  let c := reviewed (Some "wait") in
  let c' := (@sweep_pass (calm_world show_nat) (fun _ _ => Some PrMerged) ∅ c).2 in
  (fun i => (it_status i, it_hold_reason i)) <$> db_items (c_db c) = [(InReview, Some "wait")] /\
  (fun i => (it_status i, it_hold_reason i)) <$> db_items (c_db c') = [(Done, Some "wait")] /\
  ev_detail <$> db_events (c_db c') = [Some SHIPPED_WHILE_HELD].
Proof. vm_compute. auto. Qed.
