(* ===== verification/PmOps.v ===== *)
(** * The product manager's operations

    Models src/crates/fletch-core/src/rpc/roadmap/: args.rs (the cleaning of arguments),
    duplicates.rs, intake.rs (proposing a batch of tickets), deltas.rs (asking for an edit or a
    discard), ordering.rs (asking for an order), notes.rs, brakes.rs (placing a hold) and
    triage.rs (classifying a capture). Every operation starts from its decoded arguments: a value
    that serde refuses is an error before anything is read. It returns what its response is made
    of and what it announces. *)

From S2P Require Import Prelude RustStr BTree Board Sql Database Deps Store Events Brakes.
From S2P Require Import Queue Mutations Proposals Rulings.

Local Open Scope string_scope.
Local Open Scope list_scope.

(** ** Arguments *)

Definition clean (s : option string) : option string :=
  opt_filter (fun s => negb (is_empty s)) (trim <$> s).

Definition clean_list (v : list string) : list string :=
  lfilter (fun s => negb (is_empty s)) (trim <$> v).

Definition one_of (values : list string) : string := join " | " values.

Record ProposedItem := {
  pi_title : string;
  pi_why : string;
  pi_horizon : option string;
  pi_area : option string;
  pi_accept : list string;
  pi_deps : list string;
}.

Record TriageArgs := {
  ta_code : string;
  ta_kind : string;
  ta_ticket : option ProposedItem;
  ta_brief : option string;
  ta_questions : option (list string);
  ta_candidates : option (list ProposedItem);
}.

Definition PROJECT_SCOPE : string := "project".

(** ** Duplicates *)

(** The case and character tables of the standard library. *)
Class Unicode := {
  to_lowercase : string -> string;
  is_alphanumeric : string -> bool;
}.

Definition STOPWORDS : list string := ["a"; "an"; "the"; "of"; "for"; "to"; "in"; "on"; "and"].

(** [split] on characters. *)
Fixpoint split_chars (p : string -> bool) (cs : list string) : list string :=
  match cs with
  | [] => [""]
  | c :: cs =>
      if p c then "" :: split_chars p cs
      else match split_chars p cs with
           | w :: ws => (c +:+ w) :: ws
           | [] => [c]
           end
  end.

Section Duplicates.
Context `{Unicode}.

Definition title_words (title : string) : gset string :=
  list_to_set (lfilter (fun w => negb (is_empty w) && negb (lcontains STOPWORDS w))
    (split_chars (fun c => negb (is_alphanumeric c)) (chars (to_lowercase title)))).

Definition similar_titles (a b : string) : bool :=
  let a := title_words a in
  let b := title_words b in
  let shared := size (a ∩ b) in
  let smaller := Nat.min (size a) (size b) in
  (2 <=? shared)%nat && (6 * smaller <=? 10 * shared)%nat.

Definition duplicate_warning (at_ : nat) (new : NewItem) (item : RoadmapItem) : string :=
  "item " +:+ show_nat at_ +:+ " (" +:+ debug_str (new_title new) +:+ ") is similar to " +:+ it_code item
  +:+ match it_status item with
      | Rejected => ", which was REJECTED — " +:+ default "no reason recorded" (it_close_reason item)
      | _ => " — " +:+ debug_str (it_title item)
      end.

Definition duplicate_warnings (news : list NewItem) (board : list RoadmapItem) : list string :=
  mjoin (imap (fun n new =>
    duplicate_warning (S n) new <$> lfilter (fun item => similar_titles (new_title new) (it_title item)) board)
    news).
End Duplicates.

(** ** Intake *)

Definition MAX_BATCH : nat := 20.

Definition horizon_from_db (s : string) : option Horizon :=
  if eqb s "now" then Some HNow else if eqb s "next" then Some HNext
  else if eqb s "later" then Some HLater else None.

(** The body of [validate]'s loop: item [at_], counted from one. *)
Definition validate_item (at_ : nat) (it : ProposedItem) : result NewItem string :=
  let title := trim (pi_title it) in
  if is_empty title then Err ("item " +:+ show_nat at_ +:+ ": `title` is required")
  else
    let here := "item " +:+ show_nat at_ +:+ " (" +:+ debug_str title +:+ "): " in
    let required := Err (here +:+ "`horizon` is required — " +:+ one_of ["now"; "next"; "later"]) in
    let? horizon :=
      match trim <$> pi_horizon it with
      | None => required
      | Some h =>
          if is_empty h then required
          else match horizon_from_db h with
               | Some horizon => Ok horizon
               | None => Err (here +:+ "unknown horizon " +:+ debug_str h +:+ " — expected "
                              +:+ one_of ["now"; "next"; "later"])
               end
      end in
    Ok {| new_title := title; new_why := trim (pi_why it); new_horizon := Some horizon;
          new_status := Some Proposed; new_area := clean (pi_area it); new_source := Some SrcPm;
          new_accept := clean_list (pi_accept it); new_deps := clean_list (pi_deps it);
          new_workflow_def_id := None; new_issue_url := None; new_from_item := None |}.

Fixpoint validate_items (at_ : nat) (items : list ProposedItem) : result (list NewItem) string :=
  match items with
  | [] => Ok []
  | it :: items =>
      let? new := validate_item at_ it in
      let? news := validate_items (S at_) items in
      Ok (new :: news)
  end.

Definition validate (items : list ProposedItem) (existing : list RoadmapItem) : result (list NewItem) string :=
  if (length items =? 0)%nat then Err "`items` must be a non-empty array of tickets"
  else if (MAX_BATCH <? length items)%nat then
    Err (show_nat (length items) +:+ " items is too many for one proposal (max " +:+ show_nat MAX_BATCH
         +:+ ") — propose the next slice once these are accepted")
  else
    let? out := validate_items 1 items in
    match validate_batch (graph_of existing) (rejected_of existing) (new_deps <$> out) with
    | Ok _ => Ok out
    | Err r =>
        Err ("item " +:+ show_nat (S (br_at r)) +:+ " (" +:+ debug_str (default "" (new_title <$> out !! br_at r))
             +:+ "): " +:+ br_message r)
    end.

(** What an intake announces: the rows and their history entries. *)
Local Abbreviation Proposed_ := (list RoadmapItem * list ItemEvent)%type (only parsing).

Definition deps_only (deps : list string) : ItemPatch := {|
  pt_title := None; pt_why := None; pt_horizon := None; pt_status := None; pt_source := None;
  pt_rank := None; pt_accept := None; pt_deps := Some deps; pt_area := None; pt_agent_id := None;
  pt_workflow_def_id := None; pt_run_id := None; pt_pr_url := None; pt_pr_number := None;
|}.

Definition names_batch (new : NewItem) : bool := existsb (starts_with (String BATCH_PREFIX "")) (new_deps new).

Section Intake.
Context `{World}.

(** The first pass of [create_proposed]: the row and its entry. *)
Definition create_one (project_id : string) (detail : option string) (new : NewItem)
    : M Db (RoadmapItem * ItemEvent) :=
  let* item := store_create project_id new in
  let* event := record (it_id item) project_id ActPm EvProposed detail in
  ret (item, event).

(** The second pass, from the [n]-th item on: [created] is as long as the batch. *)
Fixpoint resolve_each (n : nat) (news : list NewItem) (created : list RoadmapItem) : M Db (list RoadmapItem) :=
  match news with
  | [] => ret created
  | new :: news =>
      if negb (names_batch new) then resolve_each (S n) news created
      else
        let resolved := resolve_batch_deps (new_deps new) (it_code <$> created) in
        let* row := require_some "index out of bounds" (created !! n) in
        let* updated := store_update (it_id row) (deps_only resolved) in
        resolve_each (S n) news (match updated with Some row => <[n := row]> created | None => created end)
  end.

Definition create_proposed (project_id : string) (news : list NewItem) (detail : option string)
    : M Db Proposed_ :=
  let* pairs := for_each (create_one project_id detail) news in
  let* created := resolve_each 0 news pairs.*1 in
  ret (created, pairs.*2).

Definition insert_batch `{Unicode} (project_id : string) (items : list ProposedItem)
    : M Db (list string * Proposed_) :=
  let* existing := store_list project_id in
  let* news := lift (validate items existing) in
  let warnings := duplicate_warnings news existing in
  let* proposed := transaction (create_proposed project_id news None) in
  ret (warnings, proposed).
End Intake.

(** ** Asks *)

Definition no_item (code : string) : string :=
  "no item " +:+ debug_str code +:+ " on this board — `roadmap_list` shows what exists".

(** [items.iter().find(|i| i.code == code)]. *)
Definition item_by_code (items : list RoadmapItem) (code : string) : option RoadmapItem :=
  lfind (fun i => String.eqb (it_code i) code) items.

Definition proposable (items : list RoadmapItem) (code : string) : result RoadmapItem string :=
  match item_by_code items code with
  | None => Err (no_item code)
  | Some item =>
      if is_rulable (it_status item) then Ok item
      else
        let why :=
          match it_status item with
          | Done => "shipped work can't be reshaped by proposal"
          | Rejected => "the user ruled it off the board; only the user can reopen it"
          | _ => "an item being built or reviewed can't be reshaped by proposal"
          end in
        Err (it_code item +:+ " is " +:+ item_status_as_str (it_status item) +:+ " — " +:+ why
             +:+ "; use the codes `roadmap_list` shows as proposed, open, or queued")
  end.

Definition validate_patch (patch : ProposalPatch) (item : RoadmapItem) (board : list RoadmapItem)
    : result ProposalPatch string :=
  if proposal_patch_is_empty patch then
    Err "`patch` must change at least one field — title | why | horizon | area | accept | deps"
  else
    let? title :=
      match pp_title patch with
      | Some title =>
          let title := trim title in
          if is_empty title then Err "`title` cannot be blank" else Ok (Some title)
      | None => Ok None
      end in
    let? area :=
      match pp_area patch with
      | Some (Some area) =>
          let area := trim area in
          if is_empty area
          then Err ("`area` cannot be blank — send `" +:+ dq +:+ "area" +:+ dq +:+ ": null` to clear it")
          else Ok (Some (Some area))
      | area => Ok area
      end in
    let? deps :=
      match pp_deps patch with
      | Some patched =>
          let patched := clean_list patched in
          let? _ := validate_edit (graph_of board) (rejected_of board) (it_code item) patched in
          Ok (Some patched)
      | None => Ok None
      end in
    Ok {| pp_title := title; pp_why := trim <$> pp_why patch; pp_horizon := pp_horizon patch;
          pp_area := area; pp_accept := clean_list <$> pp_accept patch; pp_deps := deps |}.

Definition MAX_NOTE : nat := 500.

(** The note's checks in [record_note]. *)
Definition clean_note (note : string) : result string string :=
  let note := trim note in
  if is_empty note then Err "`note` is required — say what you observed, in one honest sentence"
  else
    let length := char_count note in
    if (MAX_NOTE <? length)%nat then
      Err ("`note` is " +:+ show_nat length +:+ " characters — keep it under " +:+ show_nat MAX_NOTE
           +:+ ". A note is one observation; if it needs more than that, it is a proposal")
    else Ok note.

Inductive Held :=
| HeldItem (item : RoadmapItem) (event : ItemEvent)
| HeldProject (hold : ProjectHold).

Section PmAsks.
Context `{World}.

Definition park_update (project_id code : string) (patch : ProposalPatch) (note : option string)
    : M Db Proposal :=
  let* items := store_list project_id in
  let* item := lift (proposable items (trim code)) in
  let* patch := lift (validate_patch patch item items) in
  proposal_upsert project_id (it_id item) PropUpdate (Some patch) (clean note).

Definition park_discard (project_id code reason : string) : M Db Proposal :=
  let reason := trim reason in
  if is_empty reason then err "`reason` is required — say why this should leave the board"
  else
    let* items := store_list project_id in
    let* item := lift (proposable items (trim code)) in
    proposal_upsert project_id (it_id item) PropDiscard None (Some reason).

Definition park_order (project_id : string) (codes : list string) (note : option string) : M Db OrderProposal :=
  let* items := store_list project_id in
  let codes := clean_list codes in
  let* _ := lift (validate_order codes items) in
  order_upsert project_id codes (clean note).

Definition note_op (project_id code note : string) : M Db ItemEvent :=
  let* note := lift (clean_note note) in
  let* items := store_list project_id in
  let* item := require_some (no_item (trim code)) (item_by_code items (trim code)) in
  record (it_id item) project_id ActPm EvNote (Some note).

Definition place_hold (project_id scope reason : string) : M Db Held :=
  let* reason := lift (clean_reason reason) in
  let scope := trim scope in
  if is_empty scope then
    err ("`scope` is required — an item code, or " +:+ debug_str PROJECT_SCOPE +:+ " for the whole board")
  else if eqb scope PROJECT_SCOPE then
    let* stored := hold_project project_id reason ActPm in
    ret (HeldProject stored)
  else
    let* items := store_list project_id in
    let* item := require_some (no_item scope +:+ ", or use " +:+ debug_str PROJECT_SCOPE +:+ " to hold the whole board")
                   (item_by_code items scope) in
    if eqb (it_status item) Rejected then
      err (it_code item +:+ " was rejected — a ruled-off item has nothing to pause; ask the user to reopen it first")
    else
      let* (item, event) := hold_with_event (it_id item) reason ActPm in
      ret (HeldItem item event).
End PmAsks.

(** ** Triage *)

Definition MAX_QUESTIONS : nat := 3.
Definition MAX_BRIEF : nat := 1000.

Definition capture_kind_as_str (k : CaptureKind) : string :=
  match k with CapAsk => "ask" | CapIdea => "idea" | CapBrainstorm => "brainstorm" end.

Definition capture_kind_from_db (s : string) : option CaptureKind :=
  if eqb s "ask" then Some CapAsk else if eqb s "idea" then Some CapIdea
  else if eqb s "brainstorm" then Some CapBrainstorm else None.

Inductive Outcome :=
| OutAsk (patch : ItemPatch)
| OutIdea (triage : Triage) (candidates : list NewItem)
| OutBrainstorm (candidates : list NewItem).

Definition captured (board : list RoadmapItem) (code : string) : result RoadmapItem string :=
  match item_by_code board code with
  | None => Err (no_item code)
  | Some item =>
      if negb (eqb (it_status item) Captured)
      then Err (it_code item +:+ " is " +:+ item_status_as_str (it_status item)
                +:+ " — only a captured row is triaged; reshape a ticket with roadmap_propose_update")
      else Ok item
  end.

Definition refuse_extra (kind : CaptureKind) (takes : string) (extra : list (string * bool))
    : result () string :=
  match lfind (fun '(_, present) => present) extra with
  | Some (field, _) =>
      Err ("`" +:+ field +:+ "` doesn't belong to " +:+ capture_kind_as_str kind +:+ " — it takes " +:+ takes)
  | None => Ok ()
  end.

(** [s.replace(needle, by)] for a needle that is not empty. *)
Fixpoint replace_str (needle by_ : string) (skip : nat) (s : string) : string :=
  match s with
  | EmptyString => ""
  | String c rest =>
      match skip with
      | S skip => replace_str needle by_ skip rest
      | O =>
          if starts_with needle s then by_ +:+ replace_str needle by_ (String.length needle - 1) rest
          else String c (replace_str needle by_ 0 rest)
      end
  end.

(** [map_err]. *)
Definition map_err {A E F} (f : E -> F) (r : result A E) : result A F :=
  match r with Ok a => Ok a | Err e => Err (f e) end.

(** The candidates, linked to the captured row; [n] counts them from zero. *)
Fixpoint link_candidates (source : RoadmapItem) (n : nat) (news : list NewItem) : result (list NewItem) string :=
  match news with
  | [] => Ok []
  | new :: news =>
      if lcontains (new_deps new) (it_code source) then
        Err ("candidate " +:+ show_nat (S n) +:+ " (" +:+ debug_str (new_title new) +:+ "): " +:+ it_code source
             +:+ " is the captured note, not a ticket — nothing can wait on it")
      else
        let? rest := link_candidates source (S n) news in
        Ok ({| new_title := new_title new; new_why := new_why new; new_horizon := new_horizon new;
               new_status := new_status new; new_area := new_area new; new_source := new_source new;
               new_accept := new_accept new; new_deps := new_deps new;
               new_workflow_def_id := new_workflow_def_id new; new_issue_url := new_issue_url new;
               new_from_item := Some (it_id source) |} :: rest)
  end.

Definition candidates (items : list ProposedItem) (source : RoadmapItem) (board : list RoadmapItem)
    : result (list NewItem) string :=
  let? news := map_err (replace_str "`items`" "`candidates`" 0) (validate items board) in
  link_candidates source 0 news.

(** The row becomes the ticket. *)
Definition ticket_patch (new : NewItem) : ItemPatch := {|
  pt_title := Some (new_title new); pt_why := Some (new_why new); pt_horizon := new_horizon new;
  pt_status := Some Proposed; pt_source := None; pt_rank := None; pt_accept := Some (new_accept new);
  pt_deps := Some (new_deps new); pt_area := Some (new_area new); pt_agent_id := None;
  pt_workflow_def_id := None; pt_run_id := None; pt_pr_url := None; pt_pr_number := None;
|}.

Definition shape_ask (args : TriageArgs) (source : RoadmapItem) (board : list RoadmapItem)
    : result Outcome string :=
  let? _ := refuse_extra CapAsk "`ticket`"
              [("brief", is_some (ta_brief args)); ("questions", is_some (ta_questions args));
               ("candidates", is_some (ta_candidates args))] in
  match ta_ticket args with
  | None => Err "`ticket` is required for an ask — the row becomes that ticket"
  | Some ticket =>
      let? news := map_err (replace_str "item 1" "`ticket`" 0) (validate [ticket] board) in
      match news with
      | [] => Err "removal index (is 0) should be < len (is 0)"
      | new :: _ =>
          let? _ := validate_edit (graph_of board) (rejected_of board) (it_code source) (new_deps new) in
          Ok (OutAsk (ticket_patch new))
      end
  end.

Definition shape_idea (args : TriageArgs) (source : RoadmapItem) (board : list RoadmapItem)
    : result Outcome string :=
  let? _ := refuse_extra CapIdea "`brief`, `questions` and optional `candidates`"
              [("ticket", is_some (ta_ticket args))] in
  let brief := default "" (trim <$> ta_brief args) in
  if is_empty brief then Err "`brief` is required for an idea — what is worth finding out"
  else
    let length := char_count brief in
    if (MAX_BRIEF <? length)%nat then
      Err ("`brief` is " +:+ show_nat length +:+ " characters — keep it under " +:+ show_nat MAX_BRIEF)
    else
      let questions := clean_list (default [] (ta_questions args)) in
      if (MAX_QUESTIONS <? List.length questions)%nat then
        Err (show_nat (List.length questions) +:+ " questions is too many — ask the " +:+ show_nat MAX_QUESTIONS
             +:+ " that decide it")
      else
        let? candidates :=
          match ta_candidates args with
          | None | Some [] => Ok []
          | Some items => candidates items source board
          end in
        Ok (OutIdea {| tr_brief := Some brief; tr_questions := questions; tr_mined := false |} candidates).

Definition shape_brainstorm (args : TriageArgs) (source : RoadmapItem) (board : list RoadmapItem)
    : result Outcome string :=
  let? _ := refuse_extra CapBrainstorm "`candidates`"
              [("ticket", is_some (ta_ticket args)); ("brief", is_some (ta_brief args));
               ("questions", is_some (ta_questions args))] in
  match default [] (ta_candidates args) with
  | [] => Err "`candidates` must name at least one ticket worth taking from it"
  | items =>
      let? candidates := candidates items source board in
      Ok (OutBrainstorm candidates)
  end.

Definition shape (args : TriageArgs) (source : RoadmapItem) (board : list RoadmapItem) : result Outcome string :=
  match capture_kind_from_db (trim (ta_kind args)) with
  | None => Err ("unknown kind " +:+ debug_str (ta_kind args) +:+ " — expected "
                 +:+ one_of ["ask"; "idea"; "brainstorm"])
  | Some CapAsk => shape_ask args source board
  | Some CapIdea => shape_idea args source board
  | Some CapBrainstorm => shape_brainstorm args source board
  end.

Definition codes (items : list RoadmapItem) : string := join ", " (it_code <$> items).

Section TriageOp.
Context `{World}.

(** The transaction of [triage]. *)
Definition apply_outcome (project_id : string) (source : RoadmapItem) (outcome : Outcome)
    : M Db (CaptureKind * (list RoadmapItem * list ItemEvent)) :=
  let note detail := record (it_id source) project_id ActPm EvNote (Some detail) in
  let from := "from " +:+ it_code source in
  match outcome with
  | OutAsk patch =>
      let* updated := update_where_status (it_id source) Captured patch in
      let* _ := require_some (it_code source +:+ " was triaged meanwhile") updated in
      let* row := set_triage (it_id source) CapAsk None in
      let* row := require_some (missing (it_id source)) row in
      let* event := record (it_id source) project_id ActPm EvProposed (Some "triaged as ask") in
      ret (CapAsk, ([row], [event]))
  | OutIdea triage candidates =>
      let* (items, recorded) := create_proposed project_id candidates (Some from) in
      let questions := length (tr_questions triage) in
      let detail := "triaged as idea — brief, " +:+ show_nat questions +:+ " question"
                    +:+ (if (questions =? 1)%nat then "" else "s") in
      let detail := if (length items =? 0)%nat then detail else detail +:+ "; proposed " +:+ codes items in
      let* row := set_triage (it_id source) CapIdea (Some triage) in
      let* row := require_some (missing (it_id source)) row in
      let* event := note detail in
      ret (CapIdea, (row :: items, recorded ++ [event]))
  | OutBrainstorm candidates =>
      let* (items, recorded) := create_proposed project_id candidates (Some from) in
      let* row := set_triage (it_id source) CapBrainstorm
                    (Some {| tr_brief := None; tr_questions := []; tr_mined := true |}) in
      let* row := require_some (missing (it_id source)) row in
      let* event := note ("triaged as brainstorm — mined " +:+ codes items) in
      ret (CapBrainstorm, (row :: items, recorded ++ [event]))
  end.

Definition triage `{Unicode} (project_id : string) (args : TriageArgs)
    : M Db (RoadmapItem * list string * (CaptureKind * (list RoadmapItem * list ItemEvent))) :=
  let* board := store_list project_id in
  let* source := lift (captured board (trim (ta_code args))) in
  let* outcome := lift (shape args source board) in
  let warnings :=
    match outcome with
    | OutAsk _ => []
    | OutIdea _ candidates | OutBrainstorm candidates => duplicate_warnings candidates board
    end in
  let* done := transaction (apply_outcome project_id source outcome) in
  ret (source, warnings, done).
End TriageOp.

(** ** What validation lets through *)

(** A batch item as its ticket asks for it. *)
Definition asks_for (it : ProposedItem) (new : NewItem) : Prop :=
  new_title new = trim (pi_title it) /\ is_empty (new_title new) = false /\
  new_status new = Some Proposed /\ new_source new = Some SrcPm /\
  new_deps new = clean_list (pi_deps it).

Lemma validate_items_Ok at_ items news :
  validate_items at_ items = Ok news -> Forall2 asks_for items news.
Proof.
  revert at_ news. induction items as [|it items IH]; intros at_ news; cbn [validate_items].
  { intros [= <-]. constructor. }
  destruct (validate_item at_ it) as [new|] eqn:Hv; [|done].
  destruct (validate_items (S at_) items) as [news'|] eqn:Hr; [|done]. intros [= <-].
  constructor; [|by eapply IH]. unfold validate_item in Hv.
  destruct (is_empty (trim (pi_title it))) eqn:He; [done|].
  match type of Hv with (match ?x with _ => _ end) = _ => destruct x as [h|] end; [|done].
  injection Hv as <-. done.
Qed.

Lemma validate_Ok items board news :
  validate items board = Ok news ->
  Forall2 asks_for items news /\ (1 <= length items <= MAX_BATCH)%nat /\
  validate_batch (graph_of board) (rejected_of board) (new_deps <$> news) = Ok ().
Proof.
  unfold validate. destruct (length items =? 0)%nat eqn:E0; [done|].
  destruct (MAX_BATCH <? length items)%nat eqn:E1; [done|].
  apply Nat.eqb_neq in E0. apply Nat.ltb_ge in E1.
  destruct (validate_items 1 items) as [out|] eqn:Hv; [|done].
  destruct (validate_batch _ _ _) as [[]|] eqn:Hb; [|done]. intros [= <-].
  split; [by eapply validate_items_Ok|]. split; [lia|done].
Qed.

(** Linking candidates to the captured row changes nothing else. *)
Lemma link_candidates_Ok source n news linked :
  link_candidates source n news = Ok linked -> new_deps <$> linked = new_deps <$> news /\
  forall new, new ∈ linked -> it_code source ∉ new_deps new /\ new_from_item new = Some (it_id source).
Proof.
  revert n linked. induction news as [|new news IH]; intros n linked; cbn [link_candidates].
  { intros [= <-]. split; [done|]. by intros new ?%elem_of_nil. }
  destruct (lcontains _ _) eqn:Hc; [done|]. destruct (link_candidates source (S n) news) as [rest|] eqn:Hl; [|done].
  intros [= <-]. destruct (IH _ _ Hl) as [Hd Hf]. split; [by rewrite !fmap_cons, Hd|].
  intros new' [->|Hin]%elem_of_cons; [|by apply Hf]. split; [by apply lcontains_false|done].
Qed.

Lemma candidates_Ok items source board news :
  candidates items source board = Ok news ->
  exists asked, validate items board = Ok asked /\ new_deps <$> news = new_deps <$> asked /\
    forall new, new ∈ news -> it_code source ∉ new_deps new /\ new_from_item new = Some (it_id source).
Proof.
  unfold candidates. destruct (validate items board) as [asked|]; [|done]. simpl. intros Hl.
  exists asked. split; [done|]. by eapply link_candidates_Ok.
Qed.

(** ** The board's invariant *)

Section PmBoard.
Context `{World}.

Lemma create_one_board p dt new : preserves board_ok (create_one p dt new).
Proof. unfold create_one. preserving. Qed.

Lemma resolve_each_board n news created : preserves board_ok (resolve_each n news created).
Proof.
  revert n created. induction news as [|new news IH]; intros n created; cbn [resolve_each]; [apply preserves_ret|].
  destruct (negb _); [apply IH|]. preserving.
Qed.

Lemma create_proposed_board p news dt : preserves board_ok (create_proposed p news dt).
Proof.
  unfold create_proposed. apply preserves_bind; [apply preserves_for_each, create_one_board|].
  intros pairs. apply preserves_bind; [apply resolve_each_board|]. preserving.
Qed.
#[local] Hint Resolve resolve_each_board create_proposed_board : fletch.

Lemma insert_batch_board `{Unicode} p items : preserves board_ok (insert_batch p items).
Proof. unfold insert_batch. preserving. Qed.

Lemma park_update_board p code patch note : preserves board_ok (park_update p code patch note).
Proof. unfold park_update. preserving. Qed.
Lemma park_discard_board p code reason : preserves board_ok (park_discard p code reason).
Proof. unfold park_discard. destruct (is_empty _); preserving. Qed.
Lemma park_order_board p cs note : preserves board_ok (park_order p cs note).
Proof. unfold park_order. preserving. Qed.
Lemma note_op_board p code note : preserves board_ok (note_op p code note).
Proof. unfold note_op. preserving. Qed.
Lemma place_hold_board p scope reason : preserves board_ok (place_hold p scope reason).
Proof. unfold place_hold. preserving. Qed.

Lemma apply_outcome_board p source o : preserves board_ok (apply_outcome p source o).
Proof. destruct o; cbn [apply_outcome]; preserving. Qed.
#[local] Hint Resolve apply_outcome_board : fletch.

Lemma triage_board `{Unicode} p args : preserves board_ok (triage p args).
Proof. unfold triage. preserving. Qed.
End PmBoard.
#[export] Hint Resolve insert_batch_board park_update_board park_discard_board park_order_board
  note_op_board place_hold_board triage_board : fletch.
