(* ===== verification/DepGraph.v ===== *)
(** * The board's dependency graph under the operations

    What every operation of the roadmap does to the dependencies of a board: most keep every row's
    code and dependencies; the writers (editing, accepting an ask, creating a row, proposing a
    batch) validate what they write against the board first. *)

From S2P Require Import Prelude RustStr BTree Board Sql Database Deps Store Events Brakes.
From S2P Require Import Queue Mutations Proposals Rulings Drainer MergeSweep PmOps.

Local Open Scope string_scope.
Local Open Scope list_scope.

(** The project's next number. *)
Definition counter (d : Db) (project_id : string) : Z :=
  default FIRST_NUMBER (stored_number d project_id).

(** There is room for [k] more codes. *)
Definition counter_room (k : Z) (d : Db) (project_id : string) : Prop :=
  (highest_number (db_items d) project_id + k < i64_max)%Z /\ (counter d project_id + k <= i64_max)%Z.

(** ** Dependencies *)

(** [x] waits on [y] on a project's board. *)
Definition dep_edge (d : Db) (p x y : string) : Prop :=
  exists i, i ∈ db_items d /\ it_project_id i = p /\ it_code i = x /\ y ∈ it_deps i.

(** No loops, every number a code or a dependency uses has been given out, and every code has one. *)
Record deps_ok (d : Db) : Prop := {
  do_acyclic : forall p x, ~ tc (dep_edge d p) x x;
  do_numbers : forall i x n, i ∈ db_items d -> x = it_code i \/ x ∈ it_deps i ->
    code_number x = Some n -> (n < counter d (it_project_id i))%Z;
  do_coded : forall i, i ∈ db_items d -> code_number (it_code i) <> None;
}.

(** The rows of [d'] come from rows of [d] with the same code and dependencies. *)
Definition deps_kept (d d' : Db) : Prop :=
  (forall i', i' ∈ db_items d' -> exists i, i ∈ db_items d /\ it_project_id i' = it_project_id i /\
     it_code i' = it_code i /\ it_deps i' = it_deps i) /\
  db_project_settings d' = db_project_settings d.

Lemma deps_kept_refl d : deps_kept d d.
Proof. split; [intros i Hi; by exists i|done]. Qed.

Lemma tc_mono {A} (R R' : A -> A -> Prop) x y : (forall x y, R x y -> R' x y) -> tc R x y -> tc R' x y.
Proof. intros Hs. induction 1; [apply tc_once; auto|eapply tc_l; eauto]. Qed.

Lemma counter_settings d d' p : db_project_settings d' = db_project_settings d -> counter d' p = counter d p.
Proof. intros Hs. unfold counter, stored_number. by rewrite Hs. Qed.

Lemma deps_kept_ok d d' : deps_kept d d' -> deps_ok d -> deps_ok d'.
Proof.
  intros [Hk Hs] [Ha Hn Hcd]. split.
  - intros p x Hx. apply (Ha p x). eapply tc_mono; [|exact Hx].
    intros a b (i' & Hi & Hp & Hc & Hb). destruct (Hk i' Hi) as (i & Hi0 & Hpi & Hci & Hdi).
    exists i. rewrite <-Hpi, <-Hci, <-Hdi. done.
  - intros i' x n Hi Hx Hcode. destruct (Hk i' Hi) as (i & Hi0 & Hpi & Hci & Hdi).
    rewrite (counter_settings d), Hpi by done. rewrite Hci, Hdi in Hx. eauto.
  - intros i' Hi. destruct (Hk i' Hi) as (i & Hi0 & _ & -> & _). auto.
Qed.

Lemma deps_kept_ext d0 d d' :
  db_items d' = db_items d -> db_project_settings d' = db_project_settings d ->
  deps_kept d0 d -> deps_kept d0 d'.
Proof. intros Hi Hs [H1 H2]. split; by rewrite ?Hi, ?Hs. Qed.

Lemma deps_kept_update d0 p f d :
  (forall i, it_project_id (f i) = it_project_id i /\ it_code (f i) = it_code i /\ it_deps (f i) = it_deps i) ->
  deps_kept d0 d -> deps_kept d0 (set_items (update_rows p f) d).
Proof.
  intros Hf [H1 H2]. split; [|done]. intros i' (j & Hj & Hi)%elem_of_update_rows.
  destruct (H1 j Hj) as (i & Hi0 & Hp & Hc & Hd). exists i. split; [done|].
  destruct Hi as [->|[_ ->]]; [done|]. destruct (Hf j) as (Hfp & Hfc & Hfd). by rewrite Hfp, Hfc, Hfd.
Qed.

Section DepsKept.
Context `{World} {Spec : Type} (read_spec : string -> option Spec) (d0 : Db).
Local Abbreviation keeps := (preserves (deps_kept d0)).

(** A statement on another table. *)
Lemma other_table {A} (f : Db -> result (A * Db) string) :
  (forall d a d', f d = Ok (a, d') ->
     db_items d' = db_items d /\ db_project_settings d' = db_project_settings d) ->
  keeps (sql f).
Proof.
  intros Hf. apply preserves_sql. intros d a d' Hd He. destruct (Hf d a d' He). by apply (deps_kept_ext d0 d).
Qed.

Lemma record_deps id p a k det : keeps (record id p a k det).
Proof.
  unfold record. preserving. apply other_table. intros d x d'. destruct (existsb _ (db_events _)); [done|].
  destruct (negb _); [done|]. by intros [= <- <-].
Qed.

Lemma store_apply_deps id p e : pt_deps p = None -> keeps (store_apply id p e).
Proof.
  intros Hp c Hc. destruct (store_apply_db id p e c) as [->|[now ->]]; [done|].
  apply deps_kept_update; [|done]. intros i. unfold patch_item. simpl. by rewrite Hp.
Qed.

Lemma store_update_deps id p : pt_deps p = None -> keeps (store_update id p).
Proof. apply store_apply_deps. Qed.
Lemma update_where_deps id s p : pt_deps p = None -> keeps (update_where_status id s p).
Proof. apply store_apply_deps. Qed.

Lemma row_update_deps p f :
  (forall i, it_project_id (f i) = it_project_id i /\ it_code (f i) = it_code i /\ it_deps (f i) = it_deps i) ->
  keeps (execute (set_items (update_rows p f))).
Proof. intros Hf. apply preserves_execute. intros d. by apply deps_kept_update. Qed.
#[local] Hint Resolve record_deps store_update_deps update_where_deps row_update_deps : fletch.

Lemma store_reject_deps id r : keeps (store_reject id r).
Proof. unfold store_reject. preserving. Qed.

Lemma store_reopen_deps id : keeps (store_reopen id).
Proof.
  unfold store_reopen. preserving. apply preserves_sql. intros d x d' Hd [= <- <-].
  by apply deps_kept_update.
Qed.

Lemma store_delete_deps id : keeps (store_delete id).
Proof.
  apply preserves_sql. intros d x d' [H1 H2] [= <- <-]. split; [|done].
  intros i' (j & -> & [Hj _]%elem_of_lfilter)%list_elem_of_fmap. destruct (H1 j Hj) as (i & Hi).
  exists i. unfold forget_from. by destruct (eqb _ _).
Qed.

Lemma rank_each_deps now n ids : keeps (rank_each now n ids).
Proof.
  revert n. induction ids as [|id ids IH]; intros n; cbn [rank_each]; [apply preserves_ret|].
  apply preserves_bind; [by apply row_update_deps|]. intros _. preserving.
Qed.

Lemma set_ranks_deps ids : keeps (set_ranks ids).
Proof. unfold set_ranks. preserving. apply rank_each_deps. Qed.

Lemma proposal_delete_deps id : keeps (proposal_delete id).
Proof. apply other_table. by intros d x d' [= <- <-]. Qed.
Lemma order_delete_deps p : keeps (order_delete p).
Proof. apply other_table. by intros d x d' [= <- <-]. Qed.
#[local] Hint Resolve store_reject_deps store_reopen_deps set_ranks_deps proposal_delete_deps
  order_delete_deps : fletch.

Lemma hold_with_event_deps id r b : keeps (hold_with_event id r b).
Proof. unfold hold_with_event, hold_item. preserving. Qed.
Lemma release_with_event_deps id : keeps (release_with_event id).
Proof. unfold release_with_event, release_item. preserving. Qed.
Lemma hold_project_deps p r b : keeps (hold_project p r b).
Proof.
  unfold hold_project. preserving. apply other_table. intros d x d'. destruct (is_some _); [|done].
  by intros [= <- <-].
Qed.
Lemma release_project_deps p : keeps (release_project p).
Proof. apply other_table. by intros d x d' [= <- <-]. Qed.
Lemma set_triage_deps id k t : keeps (set_triage id k t).
Proof. unfold set_triage. preserving. Qed.
Lemma stamp_deps id op rf dt : keeps (stamp id op rf dt).
Proof. unfold stamp. preserving. Qed.
Lemma reject_item_deps id r : keeps (reject_item id r).
Proof. unfold reject_item. preserving. Qed.
Lemma correct_each_deps code l : keeps (correct_each code l).
Proof. induction l; cbn [correct_each]; preserving. Qed.
#[local] Hint Resolve correct_each_deps : fletch.
Lemma reopen_item_deps id : keeps (reopen_item id).
Proof. unfold reopen_item, correct_wedged_dependants. preserving. Qed.
Lemma reject_proposal_deps id : keeps (reject_proposal id).
Proof. unfold reject_proposal. preserving. Qed.
Lemma accept_order_deps p : keeps (accept_order p).
Proof. unfold accept_order. preserving. Qed.
Lemma proposal_upsert_deps p i k pt n : keeps (proposal_upsert p i k pt n).
Proof.
  unfold proposal_upsert. preserving. apply other_table. intros d x d'.
  destruct (existsb _ (db_proposals _)); [done|]. destruct (existsb _ (db_proposals _)); [by intros [= <- <-]|].
  destruct (negb _); [done|]. by intros [= <- <-].
Qed.
Lemma order_upsert_deps p codes n : keeps (order_upsert p codes n).
Proof.
  unfold order_upsert. preserving. apply other_table. intros d x d'. destruct (is_some _); [|done].
  by intros [= <- <-].
Qed.

Lemma settlement_patch_deps o pr : pt_deps (settlement_patch o pr) = None.
Proof. by destruct o. Qed.
Lemma conclude_deps i o pr d : keeps (conclude i o pr d).
Proof.
  unfold conclude, write_item_with_event, apply_and_record, write_item.
  pose proof (settlement_patch_deps o pr). preserving.
Qed.
#[local] Hint Resolve conclude_deps : fletch.
Lemma settle_one_deps s : keeps (settle_one s).
Proof. unfold settle_one, write_item. preserving. Qed.
Lemma finish_dispatch_deps i l : keeps (finish_dispatch i l).
Proof. unfold finish_dispatch, write_item. preserving. Qed.
Lemma record_wedge_deps i d : keeps (record_wedge i d).
Proof. unfold record_wedge. preserving. Qed.
#[local] Hint Resolve record_wedge_deps : fletch.
Lemma claim_item_deps id d w : keeps (claim_item id d w).
Proof. unfold claim_item. preserving. Qed.
#[local] Hint Resolve claim_item_deps : fletch.
Lemma plan_and_claim_deps p cap : keeps (plan_and_claim read_spec p cap).
Proof. unfold plan_and_claim, claim_prepared, claim_when_blocked, wedge. preserving. Qed.
Lemma settle_verdict_deps w v : keeps (settle_verdict w v).
Proof.
  unfold settle_verdict. destruct (patch_for v) as [p|] eqn:Hp; [|apply preserves_ret].
  assert (pt_deps p = None) by (destruct v; [done|by injection Hp as <-..]).
  unfold write_item_where, apply_and_record, held_now. preserving.
Qed.
Lemma unreachable_deps w : keeps (unreachable w).
Proof. unfold unreachable. preserving. Qed.
End DepsKept.
#[export] Hint Resolve record_deps proposal_delete_deps store_reject_deps : fletch.

(** ** The writers of dependencies *)

Lemma graph_of_get l x deps :
  NoDup (it_code <$> l) ->
  get x (graph_of l) = Some deps <-> exists i, i ∈ l /\ it_code i = x /\ it_deps i = deps.
Proof.
  intros Hnd. unfold graph_of. rewrite get_collect by (by rewrite <-list_fmap_compose).
  rewrite list_elem_of_fmap. split.
  - intros (i & Hi & Hin). injection Hi as -> ->. by exists i.
  - intros (i & Hi & <- & <-). by exists i.
Qed.

Lemma edge_graph d p x y :
  board_ok d -> edge (graph_of (board_of (db_items d) p)) x y <-> dep_edge d p x y.
Proof.
  intros Hok. unfold edge, dep_edge. split.
  - intros (deps & Hg & Hy). apply graph_of_get in Hg as (i & Hi & Hc & <-); [|by apply board_of_codes].
    apply elem_of_board_of in Hi as [Hi Hp]. by exists i.
  - intros (i & Hi & Hp & Hc & Hy). exists (it_deps i). split; [|done].
    apply graph_of_get; [by apply board_of_codes|]. exists i. split; [by apply elem_of_board_of|done].
Qed.

Lemma graph_acyclic d p : board_ok d -> deps_ok d -> acyclic (graph_of (board_of (db_items d) p)).
Proof.
  intros Hok Hd x Hx. apply (do_acyclic d Hd p x). eapply tc_mono; [|exact Hx].
  intros a b. by apply edge_graph.
Qed.

Lemma graph_key d p x :
  board_ok d -> x ∈ (graph_of (board_of (db_items d) p)).*1 ->
  exists i, i ∈ db_items d /\ it_project_id i = p /\ it_code i = x.
Proof.
  intros Hok Hx. destruct (get x (graph_of (board_of (db_items d) p))) as [deps|] eqn:Hg.
  - apply graph_of_get in Hg as (i & Hi & Hc & _); [|by apply board_of_codes].
    apply elem_of_board_of in Hi as [Hi Hp]. by exists i.
  - by apply get_None in Hg.
Qed.

(** A dependency on a code of the board uses a number that was given out. *)
Lemma key_number d p x n :
  board_ok d -> deps_ok d -> x ∈ (graph_of (board_of (db_items d) p)).*1 -> code_number x = Some n ->
  (n < counter d p)%Z.
Proof.
  intros Hok Hd Hx Hn. apply graph_key in Hx as (i & Hi & <- & <-); [|done].
  by eapply (do_numbers d Hd i _ n); [done|left|].
Qed.

Lemma row_by_code d i j :
  board_ok d -> i ∈ db_items d -> j ∈ db_items d -> it_project_id i = it_project_id j ->
  it_code i = it_code j -> i = j.
Proof.
  intros Hok Hi Hj Hp Hc. apply (NoDup_key_inj code_key (db_items d)); [by apply ok_codes|done..|].
  unfold code_key. by rewrite Hp, Hc.
Qed.

(** An edit of one row's dependencies that was validated against its board. *)
Lemma deps_edit_ok d i new f g :
  board_ok d -> deps_ok d -> i ∈ db_items d ->
  validate_edit (graph_of (board_of (db_items d) (it_project_id i)))
    (rejected_of (board_of (db_items d) (it_project_id i))) (it_code i) new = Ok () ->
  (forall j, it_project_id (f j) = it_project_id j /\ it_code (f j) = it_code j /\ it_deps (f j) = new) ->
  (forall j, j ∈ db_items d -> g j = true -> j = i) ->
  deps_ok (set_items (update_rows g f) d).
Proof.
  intros Hok Hd Hi Hv Hf Hg. set (p := it_project_id i) in *.
  set (gr := graph_of (board_of (db_items d) p)) in *. unfold validate_edit in Hv.
  destruct (check_codes gr _ _ new "") as [u|] eqn:Hc; [|done]. destruct u.
  destruct (find_cycle _ _) eqn:Hfc; [done|].
  pose proof (insert_acyclic gr (it_code i) new (graph_acyclic d p Hok Hd) Hfc) as Ha.
  rewrite check_codes_Ok in Hc.
  destruct (g i) eqn:Egi.
  2: { eapply deps_kept_ok; [|exact Hd]. split; [|done]. intros i' (j & Hj & Hij)%elem_of_update_rows.
       exists j. split; [done|]. destruct Hij as [->|[Hgj _]]; [done|].
       apply Hg in Hgj as Hji; [|done]. congruence. }
  assert (forall j', j' ∈ update_rows g f (db_items d) -> exists j, j ∈ db_items d /\
    (j' = j /\ j <> i \/ j = i /\ j' = f i)) as Hrows.
  { intros j' Hj'. unfold update_rows in Hj'. apply list_elem_of_fmap in Hj' as (j & -> & Hj).
    exists j. split; [done|]. destruct (g j) eqn:Egj; [right|left].
    - apply Hg in Egj as ->; done.
    - split; [done|]. intros ->. congruence. }
  split.
  - intros q x Hx. destruct (decide (q = p)) as [->|Hq].
    + apply (Ha x). eapply tc_mono; [|exact Hx]. intros a b (j' & Hj' & Hp & Hcode & Hb).
      destruct (Hrows j' Hj') as (j & Hj & [[-> Hne]|[-> ->]]).
      * assert (a <> it_code i) as Hai.
        { intros ->. apply Hne. by apply (row_by_code d). }
        assert (edge gr a b) as (deps & Hga & Hbd). { apply edge_graph; [done|]. by exists j. }
        exists deps. split; [|done]. by rewrite get_insert_ne.
      * destruct (Hf i) as (_ & Hfc' & Hfd). rewrite Hfc' in Hcode. rewrite Hfd in Hb. exists new.
        split; [|done]. rewrite <-Hcode. apply get_insert_eq.
    + apply (do_acyclic d Hd q x). eapply tc_mono; [|exact Hx]. intros a b (j' & Hj' & Hp & Hcode & Hb).
      destruct (Hrows j' Hj') as (j & Hj & [[-> Hne]|[-> ->]]); [by exists j|].
      destruct (Hf i) as (Hfp & _ & _). rewrite Hfp in Hp. by destruct Hq.
  - intros j' x n Hj' Hx Hn. rewrite (counter_settings d) by done.
    destruct (Hrows j' Hj') as (j & Hj & [[-> Hne]|[-> ->]]); [by eapply do_numbers|].
    destruct (Hf i) as (Hfp & Hfc' & Hfd). rewrite Hfp. rewrite Hfc', Hfd in Hx.
    destruct Hx as [->|Hx]; [apply (do_numbers d Hd i (it_code i) n); [done|by left|done]|].
    destruct (Hc x Hx) as (_ & Hkey & _). by eapply key_number.
  - intros j' Hj'. destruct (Hrows j' Hj') as (j & Hj & [[-> _]|[-> ->]]); [by apply (do_coded d Hd)|].
    destruct (Hf i) as (_ & -> & _). by apply (do_coded d Hd).
Qed.

Section Writers.
Context `{World}.

(** After [m] and then [k]: after a failure of [m], or after [k]. *)
Lemma bind_final {A B} (P : Db -> Prop) (m : M Db A) (k : A -> M Db B) c :
  (forall e c1, m c = (Err e, c1) -> P (c_db c1)) ->
  (forall a c1, m c = (Ok a, c1) -> P (c_db (k a c1).2)) -> P (c_db (bind m k c).2).
Proof. intros He Hk. unfold bind. destruct (m c) as [[a|e] c1]; [by apply Hk|by eapply He]. Qed.

(** The same when [m] only reads. *)
Lemma bind_reads {A B} (P : Db -> Prop) (m : M Db A) (k : A -> M Db B) c :
  reads m -> P (c_db c) ->
  (forall a c1, m c = (Ok a, c1) -> c_db c1 = c_db c -> P (c_db (k a c1).2)) -> P (c_db (bind m k c).2).
Proof.
  intros Hm Hc Hk. specialize (Hm c). apply bind_final.
  - intros e c1 He. rewrite He in Hm. cbn in Hm. by rewrite Hm.
  - intros a c1 Ha. apply Hk; [done|]. by rewrite Ha in Hm.
Qed.

Lemma deps_ok_after {A} (m : M Db A) c :
  preserves (deps_kept (c_db c)) m -> deps_ok (c_db c) -> deps_ok (c_db (m c).2).
Proof. intros Hm Hd. eapply deps_kept_ok; [|exact Hd]. apply (Hm c), deps_kept_refl. Qed.

Lemma deps_ok_run {A} (m : M Db A) c r c' :
  m c = (r, c') -> preserves (deps_kept (c_db c)) m -> deps_ok (c_db c) -> deps_ok (c_db c').
Proof. intros Hm Hp Hd. pose proof (deps_ok_after m c Hp Hd) as H'. by rewrite Hm in H'. Qed.

Definition edit_valid (d : Db) (id : string) (p : ItemPatch) : Prop :=
  forall i new, find_item (db_items d) id = Some i -> pt_deps p = Some new ->
    it_deps i = new \/
    validate_edit (graph_of (board_of (db_items d) (it_project_id i)))
      (rejected_of (board_of (db_items d) (it_project_id i))) (it_code i) new = Ok ().

Lemma store_apply_deps_ok id p e c :
  board_ok (c_db c) -> deps_ok (c_db c) -> edit_valid (c_db c) id p ->
  deps_ok (c_db (store_apply id p e c).2).
Proof.
  intros Hok Hd Hv. destruct (store_apply_db id p e c) as [->|[now ->]]; [done|].
  assert (forall j, j ∈ db_items (c_db c) -> has_id id j && expects e j = true ->
    find_item (db_items (c_db c)) id = Some j) as Hone.
  { intros j Hj Hg. unfold has_id in Hg. bool_to_prop. apply find_item_Some; [by apply ok_ids|done]. }
  destruct (pt_deps p) as [new|] eqn:Hp.
  2: { eapply deps_kept_ok; [|exact Hd]. apply deps_kept_update; [|apply deps_kept_refl].
       intros i. unfold patch_item. simpl. by rewrite Hp. }
  assert (forall j, it_deps (patch_item p now j) = new) as Hnew by (intros j; unfold patch_item; simpl; by rewrite Hp).
  destruct (find_item (db_items (c_db c)) id) as [i|] eqn:Hf.
  - apply find_item_Some in Hf as Hi; [|by apply ok_ids]. destruct Hi as [Hi Hid].
    destruct (Hv i new Hf Hp) as [Hsame|Hval].
    + eapply deps_kept_ok; [|exact Hd]. split; [|done]. intros j' (j & Hj & Hij)%elem_of_update_rows.
      exists j. split; [done|]. destruct Hij as [->|[Hg ->]]; [done|]. split; [done|]. split; [done|].
      rewrite Hnew. apply Hone in Hg; [|done]. injection Hg as <-. done.
    + apply (deps_edit_ok (c_db c) i new); try done. intros j Hj Hg. apply Hone in Hg; [|done]. congruence.
  - eapply deps_kept_ok; [|exact Hd]. split; [|done]. intros j' (j & Hj & Hij)%elem_of_update_rows.
    exists j. split; [done|]. destruct Hij as [->|[Hg _]]; [done|]. by apply Hone in Hg.
Qed.

(** What [check_edit] lets through is a valid edit. *)
Lemma check_edit_Ok i new c u c' :
  check_edit i new c = (Ok u, c') ->
  it_deps i = new \/
  validate_edit (graph_of (board_of (db_items (c_db c)) (it_project_id i)))
    (rejected_of (board_of (db_items (c_db c)) (it_project_id i))) (it_code i) new = Ok ().
Proof.
  unfold check_edit. destruct (eqb (it_deps i) new) eqn:E; [bool_to_prop; auto|]. intros Hc.
  apply bind_Ok in Hc as (board & c1 & (_ & -> & ->)%query_Ok & [Hv _]%lift_Ok). destruct u. auto.
Qed.

Lemma update_and_record_deps id p e q c :
  board_ok (c_db c) -> deps_ok (c_db c) -> deps_ok (c_db (update_and_record id p e q c).2).
Proof.
  intros Hok Hd. unfold update_and_record. destruct (eqb (pt_status p) _); [done|].
  apply bind_reads; [reading|done|]. intros u c1 Hc1 Hdb1.
  assert (edit_valid (c_db c) id p) as Hv.
  { intros i new Hf Hp. rewrite Hp in Hc1. apply bind_Ok in Hc1 as (cur & c2 & (_ & -> & ->)%store_get_Ok & Hc1).
    rewrite Hf in Hc1. by apply check_edit_Ok in Hc1. }
  apply bind_reads; [reading|by rewrite Hdb1|]. intros landing c2 _ Hdb2.
  set (eff := match landing with Some l => with_status (Some (landing_status l)) p | None => p end).
  assert (edit_valid (c_db c) id eff) as Hve by (by unfold eff; destruct landing).
  rewrite Hdb1 in Hdb2. rewrite <-Hdb2 in Hok, Hd, Hve.
  assert (match e with Some expected => update_where_status id expected eff | None => store_update id eff end
    = store_apply id eff e) as -> by (by destruct e).
  pose proof (store_apply_deps_ok id eff e c2 Hok Hd Hve) as Hs.
  apply bind_final.
  - intros err c3 Herr. by rewrite Herr in Hs.
  - intros o c3 Ho. rewrite Ho in Hs.
    apply deps_ok_after; [|done]. destruct o; preserving.
Qed.

Lemma accept_proposal_deps id c :
  board_ok (c_db c) -> deps_ok (c_db c) -> deps_ok (c_db (accept_proposal id c).2).
Proof.
  intros Hok Hd. unfold accept_proposal. apply bind_reads; [reading|done|]. intros o c1 _ H1.
  apply bind_reads; [reading|by rewrite H1|]. intros prop c2 _ H2.
  apply bind_reads; [reading|by rewrite H2, H1|]. intros o2 c3 (_ & -> & ->)%store_get_Ok H3.
  apply bind_reads; [reading|by rewrite H3, H2, H1|]. intros item c4 [Hf ->]%require_some_Ok _.
  rewrite H2, H1 in Hf. assert (c_db (tick c2) = c_db c) as Hdb by congruence. clear H1 H2 H3.
  revert Hdb. generalize (tick c2). intros c4 Hdb.
  destruct (proposal_gate item) as [u|]; [|apply deps_ok_after; [preserving|by rewrite Hdb]].
  destruct (pr_kind prop).
  - unfold accept_update. apply bind_reads; [reading|by rewrite Hdb|]. intros value c5 _ H5.
    apply bind_reads; [reading|by rewrite H5, Hdb|]. intros patch c6 _ H6.
    apply bind_reads; [reading|by rewrite H6, H5, Hdb|]. intros stale c7 Hst H7.
    assert (c_db c6 = c_db c) as Hdb6 by (rewrite H6, H5; exact Hdb).
    assert (c_db c7 = c_db c) as Hdb7 by congruence. destruct stale as [u'|why].
    + apply find_item_Some in Hf as Hi; [|by apply ok_ids]. destruct Hi as [_ Hid].
      assert (edit_valid (c_db c7) (it_id item) (to_item_patch patch)) as Hv.
      { intros i new Hfi Hp. rewrite Hdb7, Hid, Hf in Hfi. injection Hfi as <-.
        cbn [to_item_patch pt_deps] in Hp. rewrite Hp in Hst. apply attempt_Ok in Hst.
        apply check_edit_Ok in Hst. by rewrite Hdb7, <-Hdb6. }
      rewrite <-Hdb7 in Hok, Hd. pose proof (store_apply_deps_ok _ _ None c7 Hok Hd Hv) as Hs.
      apply bind_final; unfold store_update.
      * intros err c8 He. by rewrite He in Hs.
      * intros up c8 Ho. rewrite Ho in Hs. apply deps_ok_after; [|done].
        unfold finish_accept. preserving.
    + apply deps_ok_after; [|by rewrite Hdb7]. preserving.
  - apply deps_ok_after; [|by rewrite Hdb]. unfold accept_discard, finish_accept. preserving.
Qed.
End Writers.

(** ** Creating a row *)

Section Creating.
Context `{World}.

(** Allocating a code touches the settings of its own project only. *)
Lemma next_code_other S p :
  preserves (fun d => forall q k, q <> p -> db_project_settings d !! (q, k) = S q k) (next_code p).
Proof.
  assert (forall k v, preserves (fun d => forall q k, q <> p -> db_project_settings d !! (q, k) = S q k)
    (upsert_project_setting p k v)).
  { intros k v. apply preserves_sql. intros d x d' Hd. destruct (is_some _); [|done]. intros [= <- <-] q k' Hq.
    cbn [db_project_settings set_project_settings]. rewrite lookup_insert_ne by congruence. by apply Hd. }
  unfold next_code, code_prefix, next_number. preserving.
Qed.

(** Allocating and inserting touch no history. *)
Lemma store_create_events E p new : preserves (fun d => db_events d = E) (store_create p new).
Proof.
  assert (forall k v, preserves (fun d => db_events d = E) (upsert_project_setting p k v)).
  { intros k v. apply preserves_sql. intros d x d' Hd. destruct (is_some _); [|done]. by intros [= <- <-]. }
  unfold store_create, next_code, code_prefix, next_number, next_rank, insert_item. preserving. apply preserves_sql.
  intros d x d' Hd. destruct (existsb _ _); [done|]. destruct (negb _); [done|].
  destruct (is_some_and _ _); [done|]. by intros [= <- <-].
Qed.

(** The created row: a fresh id, a fresh code of its project, the dependencies asked for, and the
    counter past its number. *)
Lemma store_create_Ok k p new c i c' :
  (1 <= k)%Z -> counter_room k (c_db c) p -> store_create p new c = (Ok i, c') ->
  exists n, db_items (c_db c') = db_items (c_db c) ++ [i] /\ it_project_id i = p /\
    it_deps i = new_deps new /\ code_number (it_code i) = Some n /\
    (counter (c_db c) p <= n)%Z /\ counter (c_db c') p = (n + 1)%Z /\
    (forall q, q <> p -> counter (c_db c') q = counter (c_db c) q) /\
    (forall j, j ∈ db_items (c_db c) ->
       it_id j <> it_id i /\ (it_project_id j = p -> it_code j <> it_code i)) /\
    counter_room (k - 1) (c_db c') p /\ exists id code rank now, i = new_row id p code rank now new.
Proof.
  intros Hk [Hh Hc] Hs. apply bind_Ok in Hs as (id & c1 & Hid & Hs). injection Hid as <- <-.
  apply bind_Ok in Hs as (code & c2 & Hcode & Hs).
  pose proof (next_code_other (fun q k => db_project_settings (c_db c) !! (q, k)) p (tick c)
    ltac:(done)) as Hother. rewrite Hcode in Hother. cbn [snd] in Hother.
  apply next_code_Ok in Hcode as (Hitems & prefix & n & -> & Hn & Hge & Hgt & Hnext & Hmax);
    cbn [c_db tick] in *; [|unfold counter in Hc; lia..].
  apply bind_Ok in Hs as (rank & c3 & (_ & -> & ->)%query_Ok & Hs).
  apply bind_Ok in Hs as (now & c4 & Hnow & Hs). injection Hnow as <- <-.
  apply bind_Ok in Hs as (u & c5 & (_ & d & Hd & ->)%sql_Ok & Hs).
  apply bind_Ok in Hs as (o & c6 & (_ & -> & ->)%store_get_Ok & [Hf ->]%require_some_Ok).
  cbn [c_db tick] in *. destruct (existsb _ _) eqn:He; [done|]. destruct (negb _); [done|].
  destruct (is_some_and _ _); [done|]. injection Hd as _ <-.
  pose proof (highest_number_nonneg (db_items (c_db c)) p) as Hnn.
  set (row := new_row _ _ _ _ _ new) in *. cbn [db_items set_items] in *. rewrite Hitems in *.
  assert (forall j, j ∈ db_items (c_db c) -> it_id j <> it_id row /\
    (it_project_id j = p -> it_code j <> it_code row)) as Hnew.
  { intros j Hj. pose proof (existsb_false_elem _ _ _ He Hj) as Hno. unfold has_id in Hno. split.
    - intros Heq. by rewrite Heq, String.eqb_refl in Hno.
    - intros Hp Heq. change (it_project_id row) with p in Hno. by rewrite Hp, Heq, !String.eqb_refl, orb_true_r in Hno. }
  assert (row = i) as <-.
  { change (find_item (db_items (c_db c) ++ [row]) (it_id row) = Some i) in Hf. unfold find_item in Hf.
    rewrite lfind_snoc in Hf by (intros j Hj; unfold has_id; by apply String.eqb_neq, Hnew).
    unfold has_id in Hf. rewrite String.eqb_refl in Hf. by injection Hf. }
  assert (code_number (it_code row) = Some n) as Hcn by (apply code_number_gen; lia).
  exists n. split; [done|]. split; [done|]. split; [done|]. split; [done|]. split; [done|].
  assert (counter (set_items (fun l => l ++ [row]) (c_db c2)) p = (n + 1)%Z) as Hcnt.
  { unfold counter, stored_number in *. cbn [db_project_settings set_items]. by rewrite Hnext. }
  split; [done|]. split; [|split; [done|split; [|by eexists _, _, _, _]]].
  - intros q Hq. unfold counter, stored_number. cbn [db_project_settings set_items]. by rewrite Hother.
  - unfold counter_room. rewrite Hcnt. cbn [db_items set_items]. rewrite Hitems.
    pose proof (highest_number_snoc (db_items (c_db c)) row p n Hcn). unfold counter in Hc. lia.
Qed.

(** Adding a row whose dependencies are on the board, under a code nothing uses yet. *)
Lemma deps_add_ok d d' row p n :
  board_ok d -> deps_ok d -> db_items d' = db_items d ++ [row] -> it_project_id row = p ->
  code_number (it_code row) = Some n -> (counter d p <= n)%Z -> counter d' p = (n + 1)%Z ->
  (forall q, q <> p -> counter d' q = counter d q) ->
  (forall j, j ∈ db_items d -> it_project_id j = p -> it_code j <> it_code row) ->
  (forall x, x ∈ it_deps row -> x ∈ (graph_of (board_of (db_items d) p)).*1) ->
  deps_ok d'.
Proof.
  intros Hok Hd Hitems Hp Hn Hge Hc Hother Hfresh Hdeps.
  assert (forall i, i ∈ db_items d -> it_project_id i = p -> it_code row ∉ it_deps i) as Hnoin.
  { intros i Hi Hip Hin. pose proof (do_numbers d Hd i (it_code row) n Hi (or_intror Hin) Hn). rewrite Hip in *. lia. }
  assert (it_code row ∉ it_deps row) as Hself.
  { intros Hin. apply Hdeps in Hin. apply graph_key in Hin as (j & Hj & Hjp & Hjc); [|done]. by apply (Hfresh j). }
  split.
  - (* nothing leads to the new code, so a loop would be an old one *)
    assert (forall q a b, dep_edge d' q a b -> q = p -> b <> it_code row) as Hto.
    { intros q a b (i & Hi & Hip & Hic & Hb) Hq Hbr. rewrite Hitems in Hi. rewrite Hbr in Hb. rewrite Hq in Hip.
      apply elem_of_app in Hi as [Hi|Hi%list_elem_of_singleton]; [by eapply Hnoin|]. by rewrite Hi in Hb. }
    assert (forall q a b, dep_edge d' q a b -> (q = p -> a <> it_code row) -> dep_edge d q a b) as Hold.
    { intros q a b (i & Hi & Hip & Hic & Hb) Hne. rewrite Hitems in Hi.
      apply elem_of_app in Hi as [Hi|Hi%list_elem_of_singleton]; [by exists i|].
      rewrite Hi in Hip, Hic. destruct Hne; congruence. }
    intros q x Hx.
    assert (q = p -> x <> it_code row) as Hxr.
    { intros Hq. clear -Hx Hq Hto. assert (forall a b, tc (dep_edge d' q) a b -> b <> it_code row) as Ht; [|by eapply Ht].
      intros a b. induction 1; [by eapply Hto|done]. }
    apply (do_acyclic d Hd q x).
    assert (forall a b, tc (dep_edge d' q) a b -> (q = p -> a <> it_code row) -> tc (dep_edge d q) a b) as Ht; [|by apply Ht].
    intros a b. induction 1 as [a b Hab|a b e Hab _ IH]; intros Hne; [by apply tc_once, Hold|].
    eapply tc_l; [by apply Hold|]. apply IH. intros Hq. by eapply Hto.
  - intros i x m Hi Hx Hm. rewrite Hitems in Hi.
    assert (forall q, (counter d q <= counter d' q)%Z) as Hmono.
    { intros q. destruct (decide (q = p)) as [->|Hq]; [lia|by rewrite Hother]. }
    apply elem_of_app in Hi as [Hi|Hi%list_elem_of_singleton].
    + eapply Z.lt_le_trans; [by eapply do_numbers|apply Hmono].
    + rewrite Hi in Hx |- *. rewrite Hp, Hc. destruct Hx as [->|Hx]; [rewrite Hn in Hm; injection Hm; lia|].
      apply Hdeps in Hx. pose proof (key_number d p x m Hok Hd Hx Hm). lia.
  - intros i Hi. rewrite Hitems in Hi. apply elem_of_app in Hi as [Hi|Hi%list_elem_of_singleton].
    + by apply (do_coded d Hd).
    + by rewrite Hi, Hn.
Qed.

Lemma transaction_final {A} (m : M Db A) c :
  c_db (transaction m c).2 = c_db c \/
  exists a c1, m (tick c) = (Ok a, c1) /\ c_db (transaction m c).2 = c_db c1.
Proof.
  unfold transaction. destruct (w_fault _); [by left|]. destruct (m (tick c)) as [[a|e] c1]; [|by left].
  destruct (w_fault _); [by left|]. right. by exists a, c1.
Qed.

Lemma create_checked_deps p new c :
  board_ok (c_db c) -> deps_ok (c_db c) -> counter_room 1 (c_db c) p ->
  deps_ok (c_db (create_checked p new c).2).
Proof.
  intros Hok Hd Hroom. unfold create_checked. apply bind_reads; [reading|done|]. intros u c1 Hv Hdb.
  assert (forall x, x ∈ new_deps new -> x ∈ (graph_of (board_of (db_items (c_db c)) p)).*1) as Hdeps.
  { intros x Hx. destruct (new_deps new) as [|d ds]; [by apply elem_of_nil in Hx|].
    apply bind_Ok in Hv as (board & c2 & (_ & -> & ->)%query_Ok & [Hv _]%lift_Ok). destruct u.
    unfold validate_new in Hv. rewrite check_codes_Ok in Hv. by apply Hv. }
  match goal with |- deps_ok (c_db (transaction ?m ?c).2) => destruct (transaction_final m c) as [->|(r & c2 & Hm & ->)] end;
    [by rewrite Hdb|].
  apply bind_Ok in Hm as (i & c3 & Hcr & Hm). rewrite <-Hdb in Hroom.
  apply (store_create_Ok 1) in Hcr as (n & Hitems & Hp & Hds & Hn & Hge & Hc & Hother & Hfresh & _); [|done..].
  cbn [c_db tick] in *. rewrite Hdb in *.
  assert (deps_ok (c_db c3)) as Hd3.
  { eapply (deps_add_ok (c_db c) (c_db c3) i p n); try done; [intros j Hj; by apply Hfresh|by rewrite Hds]. }
  apply bind_Ok in Hm as (e & c4 & Hrec & Hret). injection Hret as _ <-.
  eapply deps_ok_run; [exact Hrec|apply record_deps|done].
Qed.
End Creating.
