(* ===== verification/BatchGraph.v ===== *)
(** * A proposed batch on the board's dependency graph

    What src/crates/fletch-core/src/rpc/roadmap/intake.rs writes: rows created one after another
    under fresh codes, then the references between them resolved to those codes. Either nothing
    is written, or the rows asked for are on the board with their references resolved; and the
    board stays without loops when each reference is spelled the plain way. *)

From Stdlib Require Import DecimalString.
From S2P Require Import Prelude RustStr BTree Board Sql Database Deps Store Events Brakes.
From S2P Require Import Queue Mutations Proposals Rulings Drainer MergeSweep PmOps DepGraph.

Local Open Scope string_scope.
Local Open Scope list_scope.

(** A dependency that, if it names a batch item, is spelled as the placeholder of that item. *)
Definition plain_ref (d : string) : Prop := forall len i, batch_index d len = Some i -> d = placeholder i.

Definition plain_items (items : list ProposedItem) : Prop :=
  forall it d, it ∈ items -> d ∈ clean_list (pi_deps it) -> plain_ref d.

(** The row but for its dependencies (and when it was last written). *)
Definition strip_deps (i : RoadmapItem) : RoadmapItem := patch_item (deps_only []) 0 i.

(** A row whose code has a number given out between two counters. *)
Definition numbered (p : string) (lo hi : Z) (row : RoadmapItem) : Prop :=
  it_project_id row = p /\ exists n, code_number (it_code row) = Some n /\ (lo <= n < hi)%Z.

(** A row as a batch item asked for it. *)
Definition created_as (p : string) (row : RoadmapItem) (new : NewItem) : Prop :=
  exists id code rank now, row = new_row id p code rank now new.

(** A row of a proposed batch: as asked for, its references resolved against the batch's codes. *)
Definition proposed_as (p : string) (codes : list string) (row : RoadmapItem) (new : NewItem) : Prop :=
  it_deps row = resolve_batch_deps (new_deps new) codes /\
  exists id code rank now, strip_deps row = strip_deps (new_row id p code rank now new).

(** The entry of a proposed row. *)
Definition told_as (dt : option string) (e : ItemEvent) (row : RoadmapItem) : Prop :=
  ev_item_id e = it_id row /\ ev_actor e = ActPm /\ ev_kind e = EvProposed /\ ev_detail e = dt.

Lemma strip_deps_keys i j :
  strip_deps i = strip_deps j -> it_id i = it_id j /\ it_project_id i = it_project_id j /\ it_code i = it_code j.
Proof. intros Hs. unfold strip_deps, patch_item in Hs. by injection Hs. Qed.

Section Created.
Context `{World}.

(** The first pass: fresh rows after the old ones. *)
Lemma create_each_Ok k p dt news c pairs c' :
  (Z.of_nat (length news) <= k)%Z -> counter_room k (c_db c) p ->
  for_each (create_one p dt) news c = (Ok pairs, c') ->
  db_items (c_db c') = db_items (c_db c) ++ pairs.*1 /\
  Forall2 (created_as p) pairs.*1 news /\
  Forall (numbered p (counter (c_db c) p) (counter (c_db c') p)) pairs.*1 /\
  (exists es, db_events (c_db c') = db_events (c_db c) ++ es /\ es = pairs.*2 /\ Forall2 (told_as dt) es pairs.*1) /\
  (counter (c_db c) p <= counter (c_db c') p)%Z /\
  (forall q, q <> p -> counter (c_db c') q = counter (c_db c) q) /\
  (forall i j, i ∈ pairs.*1 -> j ∈ db_items (c_db c) ->
     it_id j <> it_id i /\ (it_project_id j = p -> it_code j <> it_code i)) /\
  NoDup (it_id <$> pairs.*1) /\ NoDup (it_code <$> pairs.*1).
Proof.
  revert k c pairs c'. induction news as [|new news IH]; intros k c pairs c' Hk Hroom Hf.
  { injection Hf as <- <-. rewrite app_nil_r. split; [done|]. split; [constructor|]. split; [constructor|].
    split; [exists []; by rewrite app_nil_r|]. split; [lia|]. split; [done|].
    split; [by intros i j ?%elem_of_nil|]. split; constructor. }
  cbn [for_each length] in *. apply bind_Ok in Hf as (pair & c1 & Hone & Hf).
  apply bind_Ok in Hf as (pairs' & c2 & Hf & Hret). injection Hret as <- <-.
  apply bind_Ok in Hone as (i & c3 & Hcr & Hone). apply bind_Ok in Hone as (e & c4 & Hrec & Hret).
  injection Hret as <- <-.
  pose proof (store_create_events (db_events (c_db c)) p new c eq_refl) as Hev. rewrite Hcr in Hev. cbn [snd] in Hev.
  apply (store_create_Ok k) in Hcr
    as (n & Hit & Hp & Hds & Hn & Hlo & Hhi & Hother & Hfresh & Hroom' & Has); [|lia|done].
  apply record_Ok in Hrec as (Hdb & Hei & _ & Hea & Hek & Hed & _).
  assert (db_items (c_db c4) = db_items (c_db c) ++ [i]) as Hit4 by (rewrite Hdb; exact Hit).
  assert (forall q, counter (c_db c4) q = counter (c_db c3) q) as Hc4 by (intros q; by rewrite Hdb).
  assert (counter_room (k - 1) (c_db c4) p) as Hroom4 by (rewrite Hdb; exact Hroom').
  destruct (IH (k - 1)%Z c4 pairs' c2) as (Hits & Hall & Hnums & (es & Hes & -> & Htold) & Hmono & Hoth & Hnew & Hids & Hcds);
    [lia|done|done|]. rewrite Hc4, Hhi in Hnums, Hmono.
  assert (forall j, j ∈ pairs'.*1 -> it_id i <> it_id j /\ it_code i <> it_code j) as Hni.
  { intros j Hj. destruct (Hnew j i Hj) as [H1 H2]; [rewrite Hit4; apply elem_of_app; right; by left|]. auto. }
  cbn [fmap list_fmap fst]. split; [by rewrite Hits, Hit4, <-app_assoc|].
  split; [by constructor|]. split; [|split; [|split; [|split; [|split; [|split]]]]].
  - constructor.
    + split; [done|]. exists n. split; [done|lia].
    + eapply Forall_impl; [exact Hnums|]. intros row (H1 & m & H3 & H4). split; [done|]. exists m. split; [done|lia].
  - exists (e :: pairs'.*2). split; [|split; [done|by constructor]].
    rewrite Hes, Hdb. cbn [db_events set_events]. by rewrite Hev, <-app_assoc.
  - lia.
  - intros q Hq. by rewrite Hoth, Hc4, Hother.
  - intros j j' [->|Hj]%elem_of_cons Hj'; [by apply Hfresh|].
    apply Hnew; [done|]. rewrite Hit4. apply elem_of_app. by left.
  - constructor; [|done]. intros (j & Hid & Hj)%list_elem_of_fmap. by destruct (Hni j Hj).
  - constructor; [|done]. intros (j & Hcd & Hj)%list_elem_of_fmap. by destruct (Hni j Hj).
Qed.

(** An item without a reference resolves to itself. *)
Lemma resolve_no_refs new codes :
  names_batch new = false -> resolve_batch_deps (new_deps new) codes = new_deps new.
Proof.
  unfold names_batch, resolve_batch_deps. intros Hn. rewrite <-(list_fmap_id (new_deps new)) at 2.
  apply list_fmap_ext. intros m d Hd. apply list_elem_of_lookup_2 in Hd.
  pose proof (existsb_false_elem _ _ _ Hn Hd) as Hs. unfold starts_with in Hs. unfold batch_index.
  by destruct (strip_prefix _ d).
Qed.

(** The second pass: the rows from the [n]-th on have their references resolved, every other row
    is as it was. *)
Lemma resolve_each_Ok n news created c r c' :
  NoDup (it_id <$> db_items (c_db c)) -> NoDup (it_id <$> created) ->
  (forall row, row ∈ created -> row ∈ db_items (c_db c)) ->
  (forall m new row, news !! m = Some new -> created !! (n + m) = Some row -> it_deps row = new_deps new) ->
  resolve_each n news created c = (Ok r, c') ->
  db_project_settings (c_db c') = db_project_settings (c_db c) /\ db_events (c_db c') = db_events (c_db c) /\
  exists f, db_items (c_db c') = f <$> db_items (c_db c) /\
    (forall j, strip_deps (f j) = strip_deps j) /\
    (forall j, (forall row, row ∈ created -> it_id j <> it_id row) -> f j = j) /\
    (forall m row, m < n -> created !! m = Some row -> f row = row) /\
    (forall m new row, news !! m = Some new -> created !! (n + m) = Some row ->
       it_deps (f row) = resolve_batch_deps (new_deps new) (it_code <$> created)).
Proof.
  revert n created c. induction news as [|new news IH]; intros n created c Hnd Hcnd Hin Hraw Hr.
  { injection Hr as <- <-. split; [done|]. split; [done|]. exists id. rewrite list_fmap_id. split; [done|]. split; [done|].
    split; [done|]. split; [done|]. intros m new row Hm. by rewrite lookup_nil in Hm. }
  assert (forall m new' row, news !! m = Some new' -> created !! (S n + m) = Some row -> it_deps row = new_deps new')
    as Hraw'.
  { intros m new' row Hm Hrow. apply (Hraw (S m)); [done|]. by rewrite Nat.add_succ_r. }
  cbn [resolve_each] in Hr. destruct (names_batch new) eqn:Hb; cbn [negb] in Hr.
  2: { apply IH in Hr as (Hs & Hev & f & Hf & Hk & Hun & Hlow & Hres); [|done..]. split; [done|]. split; [done|]. exists f. split; [done|].
       split; [done|]. split; [done|]. split; [intros m row Hm; apply Hlow; lia|].
       intros [|m] new' row Hm Hrow; cbn [lookup list_lookup] in Hm.
       - injection Hm as <-. rewrite Nat.add_0_r in Hrow. rewrite (Hlow n row) by (done || lia).
         rewrite resolve_no_refs by done. apply (Hraw 0); [done|]. by rewrite Nat.add_0_r.
       - apply (Hres m); [done|]. by rewrite Nat.add_succ_r in Hrow. }
  apply bind_Ok in Hr as (row & c1 & [Hrow ->]%require_some_Ok & Hr).
  apply bind_Ok in Hr as (o & c2 & Hu & Hr).
  apply store_apply_Ok in Hu as (now & Hdb & Ho & _); [|done..].
  set (deps := resolve_batch_deps (new_deps new) (it_code <$> created)) in *.
  set (upd := patch_item (deps_only deps) now) in *.
  assert (row ∈ db_items (c_db c)) as Hrin by (by apply Hin, (list_elem_of_lookup_2 _ n)).
  assert (find_item (db_items (c_db c)) (it_id row) = Some row) as Hfind by (by apply find_item_Some).
  rewrite Hfind in Ho. cbn [opt_filter expects fmap option_fmap option_map] in Ho. subst o.
  assert (n < length created) as Hlen by (by eapply lookup_lt_Some).
  set (g := fun j => if has_id (it_id row) j && expects None j then upd j else j) in *.
  assert (forall j, strip_deps (g j) = strip_deps j) as Hgk.
  { intros j. unfold g. by destruct (_ && _). }
  assert (forall j, it_id j <> it_id row -> g j = j) as Hgother.
  { intros j Hj. unfold g, has_id. by rewrite (proj2 (String.eqb_neq _ _) Hj). }
  assert (g row = upd row) as Hgrow by (unfold g, has_id; by rewrite String.eqb_refl).
  assert (db_items (c_db c2) = g <$> db_items (c_db c)) as Hit by (by rewrite Hdb).
  assert (forall m row', created !! m = Some row' -> m <> n -> it_id row' <> it_id row) as Hidne.
  { intros m row' Hm Hmn Heq. apply Hmn. eapply (NoDup_lookup (it_id <$> created)); [done| |].
    - rewrite list_lookup_fmap, Hm. simpl. by rewrite Heq.
    - rewrite list_lookup_fmap, Hrow. done. }
  assert (it_id <$> <[n:=upd row]> created = it_id <$> created) as Hids.
  { rewrite list_fmap_insert. apply list_insert_id. by rewrite list_lookup_fmap, Hrow. }
  assert (it_code <$> <[n:=upd row]> created = it_code <$> created) as Hcodes.
  { rewrite list_fmap_insert. apply list_insert_id. by rewrite list_lookup_fmap, Hrow. }
  apply IH in Hr as (Hs & Hev & f & Hf & Hk & Hun & Hlow & Hres).
  - split; [rewrite Hs, Hdb; done|]. split; [rewrite Hev, Hdb; done|]. exists (fun j => f (g j)).
    split; [by rewrite Hf, Hit, <-list_fmap_compose|].
    split; [|split; [|split]].
    + intros j. by rewrite Hk.
    + intros j Hj. rewrite Hgother by (by apply Hj, (list_elem_of_lookup_2 _ n)). apply Hun.
      intros row' [m Hm]%list_elem_of_lookup_1. destruct (decide (m = n)) as [->|Hmn].
      * rewrite list_lookup_insert_eq in Hm by done. injection Hm as <-. change (it_id (upd row)) with (it_id row).
        by apply Hj, (list_elem_of_lookup_2 _ n).
      * rewrite list_lookup_insert_ne in Hm by done. by eapply Hj, list_elem_of_lookup_2.
    + intros m row' Hm Hrow'. rewrite Hgother by (apply (Hidne m); [done|lia]). apply (Hlow m); [lia|].
      by rewrite list_lookup_insert_ne by lia.
    + intros [|m] new' row' Hm Hrow'; cbn [lookup list_lookup] in Hm.
      * injection Hm as <-. rewrite Nat.add_0_r, Hrow in Hrow'. injection Hrow' as <-. rewrite Hgrow.
        rewrite (Hlow n); [done|lia|by apply list_lookup_insert_eq].
      * rewrite Nat.add_succ_r in Hrow'. rewrite Hgother by (apply (Hidne (S (n + m))); [done|lia]).
        rewrite (Hres m new' row'), Hcodes; [done|done|]. cbn [Nat.add].
        by rewrite list_lookup_insert_ne by lia.
  - rewrite Hit, <-list_fmap_compose. rewrite (list_fmap_ext (it_id ∘ g) it_id); [done|].
    intros m j _. by destruct (strip_deps_keys _ _ (Hgk j)).
  - by rewrite Hids.
  - intros row' [m Hm]%list_elem_of_lookup_1. rewrite Hit. destruct (decide (m = n)) as [->|Hmn].
    + rewrite list_lookup_insert_eq in Hm by done. injection Hm as <-. rewrite <-Hgrow. by apply list_elem_of_fmap_2.
    + rewrite list_lookup_insert_ne in Hm by done. rewrite <-(Hgother row') by (by apply (Hidne m)).
      by eapply list_elem_of_fmap_2, Hin, list_elem_of_lookup_2.
  - intros m new' row' Hm Hrow'. apply (Hraw' m); [done|]. by rewrite list_lookup_insert_ne in Hrow' by lia.
Qed.

(** What a proposal that was written leaves: the rows asked for, after the old ones, and their
    entries. *)
Lemma create_proposed_Ok p news dt c r c' :
  NoDup (it_id <$> db_items (c_db c)) -> counter_room (Z.of_nat (length news)) (c_db c) p ->
  create_proposed p news dt c = (Ok r, c') ->
  exists rows, db_items (c_db c') = db_items (c_db c) ++ rows /\
    Forall2 (proposed_as p (it_code <$> rows)) rows news /\
    Forall (numbered p (counter (c_db c) p) (counter (c_db c') p)) rows /\
    (exists es, db_events (c_db c') = db_events (c_db c) ++ es /\ Forall2 (told_as dt) es rows) /\
    (counter (c_db c) p <= counter (c_db c') p)%Z /\
    (forall q, q <> p -> counter (c_db c') q = counter (c_db c) q) /\
    (forall i j, i ∈ rows -> j ∈ db_items (c_db c) -> it_project_id j = p -> it_code j <> it_code i) /\
    NoDup (it_code <$> rows).
Proof.
  intros Hnd Hroom Hc. apply bind_Ok in Hc as (pairs & c1 & Hp1 & Hc).
  apply (create_each_Ok (Z.of_nat (length news))) in Hp1
    as (Hit & Hall & Hnums & (es & Hes & _ & Htold) & Hmono & Hoth & Hfresh & Hids & Hcds); [|lia|done].
  apply bind_Ok in Hc as (created & c2 & Hp2 & Hret). injection Hret as _ <-.
  set (rows := pairs.*1) in *.
  assert (forall m new row, news !! m = Some new -> rows !! m = Some row -> created_as p row new) as Hat.
  { intros m new row Hm Hrow. by eapply Forall2_lookup_lr. }
  assert (NoDup (it_id <$> db_items (c_db c1))) as Hnd1.
  { rewrite Hit, fmap_app. apply NoDup_app. split; [done|]. split; [|done].
    intros x (j & -> & Hj)%list_elem_of_fmap (i & Heq & Hi)%list_elem_of_fmap.
    destruct (Hfresh i j Hi Hj). congruence. }
  apply resolve_each_Ok in Hp2 as (Hs & Hev & f & Hf & Hk & Hun & _ & Hres); [|done..| |].
  2: { intros row Hrow. rewrite Hit. apply elem_of_app. by right. }
  2: { intros m new row Hm Hrow. by destruct (Hat m new row Hm Hrow) as (? & ? & ? & ? & ->). }
  assert (f <$> db_items (c_db c) = db_items (c_db c)) as Hold.
  { rewrite <-(list_fmap_id (db_items (c_db c))) at 2. apply list_fmap_ext.
    intros m j Hj%list_elem_of_lookup_2. apply Hun. intros row Hrow. by apply Hfresh. }
  assert (it_code <$> (f <$> rows) = it_code <$> rows) as Hcodes.
  { rewrite <-list_fmap_compose. apply list_fmap_ext. intros m j _. by destruct (strip_deps_keys _ _ (Hk j)) as (_ & _ & ?). }
  assert (forall q, counter (c_db c2) q = counter (c_db c1) q) as Hcnt by (intros q; by apply counter_settings).
  exists (f <$> rows). split; [by rewrite Hf, Hit, fmap_app, Hold|]. rewrite Hcodes, Hcnt.
  split; [|split; [|split; [|split; [done|split; [|split; [|done]]]]]].
  - apply Forall2_same_length_lookup_2; [rewrite length_fmap; by eapply Forall2_length|].
    intros m row' new Hrow Hm. rewrite list_lookup_fmap in Hrow. destruct (rows !! m) as [row|] eqn:Hr; [|done].
    injection Hrow as <-. destruct (Hat m new row Hm Hr) as (id & code & rank & now & Heq).
    split; [by apply (Hres m)|]. exists id, code, rank, now. by rewrite Hk, Heq.
  - apply Forall_fmap. eapply Forall_impl; [exact Hnums|]. intros row [Hp Hn].
    destruct (strip_deps_keys _ _ (Hk row)) as (_ & Hkp & Hkc). split; simpl; [by rewrite Hkp|by rewrite Hkc].
  - exists es. split; [by rewrite Hev|]. apply Forall2_fmap_r. eapply Forall2_impl; [exact Htold|].
    intros e row (H1 & H2). destruct (strip_deps_keys _ _ (Hk row)) as (Hki & _ & _). split; simpl; [by rewrite Hki|done].
  - intros q Hq. by rewrite Hcnt, Hoth.
  - intros i j (row & -> & Hrow)%list_elem_of_fmap Hj Hp. destruct (strip_deps_keys _ _ (Hk row)) as (_ & _ & ->).
    by apply Hfresh.
Qed.

(** A placeholder is no code: it has no number. *)
Lemma placeholder_no_number n : code_number (placeholder n) = None.
Proof.
  unfold code_number, placeholder. cbn [after_last]. change (Ascii.eqb BATCH_PREFIX _) with false.
  unfold show_nat. rewrite no_byte_split by apply show_N_no_minus.
  generalize (show_N (N.of_nat (S n))). intros s. unfold parse_i64. simpl.
  by destruct (NilEmpty.uint_of_string s).
Qed.
End Created.

(** ** The graph after a batch *)

(** A graph whose codes carry numbers below the counter has no place for a placeholder. *)
Lemma no_placeholder_key d p n :
  board_ok d -> deps_ok d -> placeholder n ∉ (graph_of (board_of (db_items d) p)).*1.
Proof.
  intros Hok Hd Hin. apply graph_key in Hin as (i & Hi & _ & Hc); [|done].
  apply (do_coded d Hd i Hi). rewrite Hc. apply placeholder_no_number.
Qed.

(** Rows added to one project, each resolved against the codes of the batch. *)
Record batch_added (p : string) (news : list NewItem) (rows : list RoadmapItem) (d d' : Db) : Prop := {
  ba_items : db_items d' = db_items d ++ rows;
  ba_rows : Forall2 (fun row new => it_deps row = resolve_batch_deps (new_deps new) (it_code <$> rows)) rows news;
  ba_nums : Forall (numbered p (counter d p) (counter d' p)) rows;
  ba_mono : (counter d p <= counter d' p)%Z;
  ba_other : forall q, q <> p -> counter d' q = counter d q;
  ba_fresh : forall i j, i ∈ rows -> j ∈ db_items d -> it_project_id j = p -> it_code j <> it_code i;
  ba_codes : NoDup (it_code <$> rows);
}.

Lemma added_resolved p news rows d d' :
  board_ok d -> board_ok d' -> batch_added p news rows d d' ->
  resolved_graph (graph_of (board_of (db_items d) p)) (graph_of (board_of (db_items d') p))
    (new_deps <$> news) (it_code <$> rows).
Proof.
  intros Hok Hok' Ha. pose proof (Forall2_length _ _ _ (ba_rows _ _ _ _ _ Ha)) as Hlen.
  assert (forall x deps, get x (graph_of (board_of (db_items d') p)) = Some deps <->
    exists i, i ∈ db_items d' /\ it_project_id i = p /\ it_code i = x /\ it_deps i = deps) as Hget'.
  { intros x deps. rewrite graph_of_get by (by apply board_of_codes). split; intros (i & H1 & H2).
    - apply elem_of_board_of in H1 as [H1 Hp]. exists i. tauto.
    - exists i. rewrite elem_of_board_of. tauto. }
  assert (forall x deps, get x (graph_of (board_of (db_items d) p)) = Some deps <->
    exists i, i ∈ db_items d /\ it_project_id i = p /\ it_code i = x /\ it_deps i = deps) as Hget.
  { intros x deps. rewrite graph_of_get by (by apply board_of_codes). split; intros (i & H1 & H2).
    - apply elem_of_board_of in H1 as [H1 Hp]. exists i. tauto.
    - exists i. rewrite elem_of_board_of. tauto. }
  split; [by rewrite !length_fmap|]. split; [apply Ha|]. split.
  - intros k c deps Hc Hdeps. rewrite list_lookup_fmap in Hc. rewrite list_lookup_fmap in Hdeps.
    destruct (rows !! k) as [row|] eqn:Hr; [|done]. destruct (news !! k) as [new|] eqn:Hn; [|done].
    injection Hc as <-. injection Hdeps as <-. apply Hget'. exists row.
    split; [rewrite (ba_items _ _ _ _ _ Ha); apply elem_of_app; right; by eapply list_elem_of_lookup_2|].
    split; [|split; [done|by eapply (Forall2_lookup_lr _ _ _ _ _ _ (ba_rows _ _ _ _ _ Ha) Hr Hn)]].
    by destruct (Forall_lookup_1 _ _ _ _ (ba_nums _ _ _ _ _ Ha) Hr).
  - intros x Hx. apply option_eq. intros deps. rewrite Hget, Hget'. split; intros (i & Hi & Hrest).
    + rewrite (ba_items _ _ _ _ _ Ha) in Hi. apply elem_of_app in Hi as [Hi|Hi]; [by exists i|].
      destruct Hx. destruct Hrest as (_ & <- & _). by apply list_elem_of_fmap_2.
    + exists i. rewrite (ba_items _ _ _ _ _ Ha), elem_of_app. auto.
Qed.

(** A validated batch with plain references keeps the board without loops. *)
Lemma batch_added_deps p news rows rejected d d' :
  board_ok d -> board_ok d' -> deps_ok d -> batch_added p news rows d d' ->
  validate_batch (graph_of (board_of (db_items d) p)) rejected (new_deps <$> news) = Ok () ->
  (forall new d, new ∈ news -> d ∈ new_deps new -> plain_ref d) -> deps_ok d'.
Proof.
  intros Hok Hok' Hd Ha Hv Hplain. set (g := graph_of (board_of (db_items d) p)) in *.
  pose proof (graph_acyclic d p Hok Hd : acyclic g) as Hac.
  pose proof (added_resolved p news rows d d' Hok Hok' Ha) as Hres. fold g in Hres.
  assert (forall i, i ∈ rows -> exists n, code_number (it_code i) = Some n /\ it_project_id i = p /\
    (counter d p <= n < counter d' p)%Z) as Hnum.
  { intros i Hi. pose proof (proj1 (Forall_forall _ _) (ba_nums _ _ _ _ _ Ha) i Hi) as (Hp & n & Hn & Hb). by exists n. }
  assert (acyclic (graph_of (board_of (db_items d') p))) as Hac'.
  { apply (batch_resolved_acyclic g _ rejected (new_deps <$> news) (it_code <$> rows)); [done..| | |].
    - intros deps x i (new & -> & Hnew)%list_elem_of_fmap Hx Hb. by apply (Hplain new x Hnew Hx) in Hb.
    - intros c (i & -> & Hi)%list_elem_of_fmap. destruct (Hnum i Hi) as (n & Hn & Hp & Hlo & _). split.
      + intros (j & Hj & Hjp & Hjc)%graph_key; [|done]. by apply (ba_fresh _ _ _ _ _ Ha i j).
      + intros x (j & Hj & Hjp & _ & Hin)%edge_graph; [|done].
        pose proof (do_numbers d Hd j (it_code i) n Hj (or_intror Hin) Hn). rewrite Hjp in *. lia.
    - intros n. by apply no_placeholder_key. }
  assert (forall q, (counter d q <= counter d' q)%Z) as Hmono.
  { intros q. destruct (decide (q = p)) as [->|Hq]; [apply Ha|by rewrite (ba_other _ _ _ _ _ Ha)]. }
  split.
  - intros q x Hx. destruct (decide (q = p)) as [->|Hq].
    + apply (Hac' x). eapply tc_mono; [|exact Hx]. intros a b Hab. by apply edge_graph.
    + apply (do_acyclic d Hd q x). eapply tc_mono; [|exact Hx]. intros a b (i & Hi & Hip & Hrest).
      rewrite (ba_items _ _ _ _ _ Ha) in Hi. apply elem_of_app in Hi as [Hi|Hi]; [by exists i|].
      destruct (Hnum i Hi) as (_ & _ & Hp & _). congruence.
  - intros i x n Hi Hx Hn. rewrite (ba_items _ _ _ _ _ Ha) in Hi. apply elem_of_app in Hi as [Hi|Hi].
    { eapply Z.lt_le_trans; [by eapply do_numbers|apply Hmono]. }
    destruct (Hnum i Hi) as (m & Hm & Hp & Hlo & Hhi). rewrite Hp.
    destruct Hx as [->|Hx]; [rewrite Hm in Hn; injection Hn as <-; done|].
    apply list_elem_of_lookup_1 in Hi as [k Hk].
    destruct (Forall2_lookup_l _ _ _ _ _ (ba_rows _ _ _ _ _ Ha) Hk) as (new & Hnew & Heq). rewrite Heq in Hx.
    apply list_elem_of_fmap in Hx as (y & -> & Hy).
    assert ((new_deps <$> news) !! k = Some (new_deps new)) as Hk' by (by rewrite list_lookup_fmap, Hnew).
    assert (length (it_code <$> rows) = length news) as Hlen.
    { rewrite length_fmap. apply (Forall2_length _ _ _ (ba_rows _ _ _ _ _ Ha)). }
    destruct (validated_dep g rejected _ k _ y Hv Hk' Hy) as [(j & Hj & _)|[Hj Hkey]];
      rewrite length_fmap, <-Hlen in Hj; rewrite Hj in Hn.
    + apply batch_index_lt in Hj. destruct ((it_code <$> rows) !! j) as [code|] eqn:Hcode; [|by apply lookup_ge_None in Hcode; lia].
      rewrite list_lookup_fmap in Hcode. destruct (rows !! j) as [row|] eqn:Hrow; [|done]. injection Hcode as <-.
      apply list_elem_of_lookup_2, Hnum in Hrow as (n' & Hn' & _ & _ & Hhi'). simpl in Hn. rewrite Hn' in Hn. injection Hn as <-. done.
    + pose proof (key_number d p y n Hok Hd Hkey Hn). pose proof (ba_mono _ _ _ _ _ Ha). lia.
  - intros i Hi. rewrite (ba_items _ _ _ _ _ Ha) in Hi. apply elem_of_app in Hi as [Hi|Hi]; [by apply (do_coded d Hd)|].
    destruct (Hnum i Hi) as (n & Hn & _). by rewrite Hn.
Qed.

(** ** The operations that propose *)

Section Proposing.
Context `{World} `{Unicode}.

(** Room for a whole batch is room for the items that were validated. *)
Lemma room_le k k' d p : (k' <= k)%Z -> counter_room k d p -> counter_room k' d p.
Proof. unfold counter_room. lia. Qed.

Lemma create_proposed_deps p news dt rejected c r c' :
  board_ok (c_db c) -> deps_ok (c_db c) -> (length news <= MAX_BATCH)%nat ->
  counter_room (Z.of_nat MAX_BATCH) (c_db c) p ->
  validate_batch (graph_of (board_of (db_items (c_db c)) p)) rejected (new_deps <$> news) = Ok () ->
  (forall new d, new ∈ news -> d ∈ new_deps new -> plain_ref d) ->
  create_proposed p news dt c = (Ok r, c') -> board_ok (c_db c') /\ deps_ok (c_db c').
Proof.
  intros Hok Hd Hlen Hroom%(room_le _ (Z.of_nat (length news))) Hv Hplain Hc; [|lia].
  assert (board_ok (c_db c')) as Hok'.
  { pose proof (create_proposed_board p news dt c Hok) as Hb. by rewrite Hc in Hb. }
  split; [done|].
  apply create_proposed_Ok in Hc as (rows & Hit & Hall & Hnums & _ & Hmono & Hoth & Hfresh & Hcds);
    [|by apply ok_ids|done].
  eapply (batch_added_deps p news rows); [exact Hok|done|done| |exact Hv|done].
  split; [done| |done..]. eapply Forall2_impl; [exact Hall|]. by intros row new [? _].
Qed.

Lemma asked_plain items news :
  Forall2 asks_for items news -> plain_items items -> forall new d, new ∈ news -> d ∈ new_deps new -> plain_ref d.
Proof.
  intros Hall Hp new d [k Hk]%list_elem_of_lookup_1 Hd.
  destruct (Forall2_lookup_r _ _ _ _ _ Hall Hk) as (it & Hit & Ha). destruct Ha as (_ & _ & _ & _ & Hds).
  rewrite Hds in Hd. apply (Hp it); [by eapply list_elem_of_lookup_2|done].
Qed.

Lemma insert_batch_deps p items c :
  board_ok (c_db c) -> deps_ok (c_db c) -> counter_room (Z.of_nat MAX_BATCH) (c_db c) p -> plain_items items ->
  deps_ok (c_db (insert_batch p items c).2).
Proof.
  intros Hok Hd Hroom Hplain. unfold insert_batch. apply bind_reads; [reading|done|].
  intros board c1 (_ & -> & ->)%query_Ok _. apply bind_reads; [reading|done|].
  intros news c2 [Hv ->]%lift_Ok _. apply validate_Ok in Hv as (Hall & Hlen & Hv).
  pose proof (Forall2_length _ _ _ Hall) as Hl.
  assert (deps_ok (c_db (transaction (create_proposed p news None) (tick c)).2)) as Ht.
  { destruct (transaction_final (create_proposed p news None) (tick c)) as [->|(r & c3 & Hc & ->)]; [done|].
    pose proof (asked_plain items news Hall Hplain) as Hpl.
    eapply create_proposed_deps in Hc as [_ Hd3]; [done|done|done|lia|done|exact Hv|done]. }
  unfold bind at 1. destruct (transaction _ _) as [[r|e] c3]; done.
Qed.

(** The captured row's own edit was validated against the board. *)
Lemma ask_valid p args source c patch :
  board_ok (c_db c) -> source ∈ board_of (db_items (c_db c)) p ->
  shape args source (board_of (db_items (c_db c)) p) = Ok (OutAsk patch) ->
  edit_valid (c_db c) (it_id source) patch.
Proof.
  intros Hok [Hin Hp]%elem_of_board_of Hs. unfold shape in Hs.
  destruct (capture_kind_from_db _) as [[]|]; [| | |done].
  - unfold shape_ask in Hs. destruct (refuse_extra _ _ _); [|done].
    destruct (ta_ticket args); [|done]. destruct (map_err _ _) as [[|new news]|]; [done| |done].
    destruct (validate_edit _ _ _ _) as [[]|] eqn:Hv; [|done]. injection Hs as <-.
    intros i deps Hf Hds. apply find_item_Some in Hf as [Hi Hid]; [|by apply ok_ids].
    assert (i = source) as -> by (by apply (NoDup_key_inj it_id (db_items (c_db c))); [apply ok_ids|..]).
    cbn [ticket_patch pt_deps] in Hds. injection Hds as <-. right. by rewrite Hp.
  - unfold shape_idea in Hs. destruct (refuse_extra _ _ _); [|done]. destruct (is_empty _); [done|].
    destruct (_ <? _)%nat; [done|]. destruct (_ <? _)%nat; [done|].
    by match type of Hs with (match ?x with _ => _ end) = _ => destruct x end.
  - unfold shape_brainstorm in Hs. destruct (refuse_extra _ _ _); [|done]. destruct (default [] _); [done|].
    by destruct (candidates _ _ _).
Qed.

Definition outcome_candidates (o : Outcome) : list NewItem :=
  match o with OutAsk _ => [] | OutIdea _ l | OutBrainstorm l => l end.

Lemma candidates_valid items source board news :
  candidates items source board = Ok news ->
  (length news <= MAX_BATCH)%nat /\
  validate_batch (graph_of board) (rejected_of board) (new_deps <$> news) = Ok () /\
  (plain_items items -> forall new d, new ∈ news -> d ∈ new_deps new -> plain_ref d).
Proof.
  intros (asked & (Hall & Hlen & Hv)%validate_Ok & Hds & _)%candidates_Ok.
  pose proof (Forall2_length _ _ _ Hall) as Hl. pose proof (f_equal length Hds) as Hl'. rewrite !length_fmap in Hl'.
  split; [lia|]. split; [by rewrite Hds|]. intros Hp new d Hnew Hd.
  assert (new_deps new ∈ new_deps <$> asked) as (new' & Heq & Hnew')%list_elem_of_fmap.
  { rewrite <-Hds. by apply list_elem_of_fmap_2. }
  eapply (asked_plain items asked); [done|done|done|]. by rewrite <-Heq.
Qed.

(** What a triage proposes was validated as a batch. *)
Lemma shape_valid args source board o :
  shape args source board = Ok o -> plain_items (default [] (ta_candidates args)) ->
  (length (outcome_candidates o) <= MAX_BATCH)%nat /\
  validate_batch (graph_of board) (rejected_of board) (new_deps <$> outcome_candidates o) = Ok () /\
  (forall new d, new ∈ outcome_candidates o -> d ∈ new_deps new -> plain_ref d).
Proof.
  assert ((length (@nil NewItem) <= MAX_BATCH)%nat /\
    validate_batch (graph_of board) (rejected_of board) (new_deps <$> []) = Ok () /\
    (forall new d, new ∈ (@nil NewItem) -> d ∈ new_deps new -> plain_ref d)) as Hnil.
  { split; [simpl; lia|]. split; [done|]. by intros new d ?%elem_of_nil. }
  assert (forall items l, candidates items source board = Ok l -> plain_items items ->
    (length l <= MAX_BATCH)%nat /\
    validate_batch (graph_of board) (rejected_of board) (new_deps <$> l) = Ok () /\
    (forall new d, new ∈ l -> d ∈ new_deps new -> plain_ref d)) as Hsome.
  { intros items l Hc Hp. destruct (candidates_valid _ _ _ _ Hc) as (H1 & H2 & H3). split; [done|]. split; [done|].
    by apply H3. }
  intros Hs Hp. unfold shape in Hs. destruct (capture_kind_from_db _) as [[]|]; [| | |done].
  - unfold shape_ask in Hs. destruct (refuse_extra _ _ _); [|done].
    destruct (ta_ticket args); [|done]. destruct (map_err _ _) as [[|new news]|]; [done| |done].
    destruct (validate_edit _ _ _ _); [|done]. by injection Hs as <-.
  - unfold shape_idea in Hs. destruct (refuse_extra _ _ _); [|done]. destruct (is_empty _); [done|].
    destruct (_ <? _)%nat; [done|]. destruct (_ <? _)%nat; [done|].
    destruct (ta_candidates args) as [[|it items]|]; [by injection Hs as <-| |by injection Hs as <-].
    destruct (candidates _ _ _) as [l|] eqn:Hc; [|done]. injection Hs as <-. by apply (Hsome (it :: items)).
  - unfold shape_brainstorm in Hs. destruct (refuse_extra _ _ _); [|done].
    destruct (default [] _) as [|it items]; [done|].
    destruct (candidates _ _ _) as [l|] eqn:Hc; [|done]. injection Hs as <-. by apply (Hsome (it :: items)).
Qed.

#[local] Hint Resolve set_triage_deps : fletch.

(** Each outcome's writes, once they all succeed. *)
Lemma apply_outcome_deps p source o rejected c r c' :
  board_ok (c_db c) -> deps_ok (c_db c) -> counter_room (Z.of_nat MAX_BATCH) (c_db c) p ->
  (forall patch, o = OutAsk patch -> edit_valid (c_db c) (it_id source) patch) ->
  (length (outcome_candidates o) <= MAX_BATCH)%nat ->
  validate_batch (graph_of (board_of (db_items (c_db c)) p)) rejected (new_deps <$> outcome_candidates o) = Ok () ->
  (forall new d, new ∈ outcome_candidates o -> d ∈ new_deps new -> plain_ref d) ->
  apply_outcome p source o c = (Ok r, c') -> deps_ok (c_db c').
Proof.
  intros Hok Hd Hroom Hask Hlen Hv Hplain Ha. destruct o as [patch|triage l|l]; cbn [apply_outcome outcome_candidates] in *.
  - apply bind_Ok in Ha as (up & c1 & Hup & Ha).
    pose proof (store_apply_deps_ok (it_id source) patch (Some Captured) c Hok Hd (Hask patch eq_refl)) as Hd1.
    change (update_where_status _ _ _ _) with (store_apply (it_id source) patch (Some Captured) c) in Hup.
    rewrite Hup in Hd1. eapply deps_ok_run; [exact Ha| |exact Hd1].
    preserving.
  - apply bind_Ok in Ha as ([items es] & c1 & Hc & Ha).
    destruct (create_proposed_deps p l _ rejected c _ c1 Hok Hd Hlen Hroom Hv Hplain Hc) as [_ Hd1].
    eapply deps_ok_run; [exact Ha| |exact Hd1]. preserving.
  - apply bind_Ok in Ha as ([items es] & c1 & Hc & Ha).
    destruct (create_proposed_deps p l _ rejected c _ c1 Hok Hd Hlen Hroom Hv Hplain Hc) as [_ Hd1].
    eapply deps_ok_run; [exact Ha| |exact Hd1]. preserving.
Qed.

Lemma triage_deps p args c :
  board_ok (c_db c) -> deps_ok (c_db c) -> counter_room (Z.of_nat MAX_BATCH) (c_db c) p ->
  plain_items (default [] (ta_candidates args)) -> deps_ok (c_db (triage p args c).2).
Proof.
  intros Hok Hd Hroom Hplain. unfold triage. apply bind_reads; [reading|done|].
  intros board c1 (_ & -> & ->)%query_Ok _. apply bind_reads; [reading|done|].
  intros source c2 [Hsrc ->]%lift_Ok _. apply bind_reads; [reading|done|].
  intros o c3 [Hs ->]%lift_Ok _. set (board := board_of (db_items (c_db c)) p) in *.
  assert (source ∈ board) as Hin.
  { unfold captured, item_by_code in Hsrc. destruct (lfind _ board) as [item|] eqn:Hf; [|done].
    apply lfind_Some in Hf as [Hf _]. destruct (negb _); [done|]. by injection Hsrc as <-. }
  destruct (shape_valid args source board o Hs Hplain) as (Hlen & Hv & Hpl).
  assert (deps_ok (c_db (transaction (apply_outcome p source o) (tick c)).2)) as Ht.
  { destruct (transaction_final (apply_outcome p source o) (tick c)) as [->|(r & c3 & Hc & ->)]; [done|].
    eapply (apply_outcome_deps p source o _ (tick (tick c))); [done|done|done| |done|exact Hv|done|exact Hc].
    intros patch ->. by apply (ask_valid p args). }
  unfold bind at 1. by destruct (transaction _ _) as [[r|e] c3].
Qed.
End Proposing.

(** ** Properties *)

(** A proposed batch is all or nothing: if anything fails the database is as it was;
    otherwise the items asked for (at least one, at most twenty) are on the board after the old
    ones, in order, each [proposed] by the product manager with its references resolved to the
    codes of the batch, under codes no item of the project had, and each with its [proposed]
    entry. *)
Theorem propose_all_or_nothing `{World} `{Unicode} p items c r c' :
  board_ok (c_db c) -> counter_room (Z.of_nat MAX_BATCH) (c_db c) p -> insert_batch p items c = (r, c') ->
  match r with
  | Err _ => c_db c' = c_db c
  | Ok _ =>
      exists news rows es, Forall2 asks_for items news /\ (1 <= length items <= MAX_BATCH)%nat /\
        db_items (c_db c') = db_items (c_db c) ++ rows /\
        Forall2 (proposed_as p (it_code <$> rows)) rows news /\
        NoDup (it_code <$> rows) /\
        (forall i j, i ∈ rows -> j ∈ db_items (c_db c) -> it_project_id j = p -> it_code j <> it_code i) /\
        db_events (c_db c') = db_events (c_db c) ++ es /\ Forall2 (told_as None) es rows
  end.
Proof.
  intros Hok Hroom Hi. destruct r as [[warnings [created recorded]]|e].
  - apply bind_Ok in Hi as (board & c1 & (_ & -> & ->)%query_Ok & Hi).
    apply bind_Ok in Hi as (news & c2 & [Hv ->]%lift_Ok & Hi).
    apply bind_Ok in Hi as (written & c3 & Ht & Hret). injection Hret as _ _ <-.
    apply validate_Ok in Hv as (Hall & Hlen & _). pose proof (Forall2_length _ _ _ Hall) as Hl.
    apply transaction_Ok in Ht as (c4 & Hc & ->).
    apply create_proposed_Ok in Hc as (rows & Hit & Hrows & _ & (es & Hes & Htold) & _ & _ & Hfresh & Hcds);
      [|by apply ok_ids|apply (room_le (Z.of_nat MAX_BATCH)); [lia|done]].
    exists news, rows, es. split_and!; done || lia.
  - unfold insert_batch, bind in Hi. destruct (store_list p c) as [[board|e'] c1] eqn:Hl.
    2: { injection Hi as _ <-. pose proof (store_list_reads p c) as Hr. by rewrite Hl in Hr. }
    apply query_Ok in Hl as (_ & -> & ->). unfold lift in Hi.
    destruct (validate items _) as [news|e']; [|by injection Hi as _ <-].
    destruct (transaction _ _) as [[x|e'] c2] eqn:Ht; [done|]. injection Hi as _ <-.
    pose proof (transaction_err _ _ _ (f_equal fst Ht)) as He. by rewrite Ht in He.
Qed.

(** ** Witnesses *)

#[local] Instance ascii_tables : Unicode := {| to_lowercase := to_ascii_lowercase; is_alphanumeric s := negb (is_ws s) |}.

Definition a_ticket (title : string) (deps : list string) : ProposedItem := {|
  pi_title := title; pi_why := ""; pi_horizon := Some " next "; pi_area := None; pi_accept := []; pi_deps := deps;
|}.

Definition proposing : result _ string * Conn Db :=
  @insert_batch (calm_world show_nat) ascii_tables "p" [a_ticket "one" []; a_ticket "two" ["#1"]] two_items.

Lemma propose_all_or_nothing_witness :
  it_deps <$> db_items (c_db proposing.2) = [[]; ["FA-1"]; []; ["FA-100"]] /\
  exists rows, db_items (c_db proposing.2) = db_items (c_db two_items) ++ rows.
Proof.
  split; [vm_compute; reflexivity|].
  pose proof (@propose_all_or_nothing (calm_world show_nat) ascii_tables "p"
    [a_ticket "one" []; a_ticket "two" ["#1"]] two_items proposing.1 proposing.2 two_items_ok
    ltac:(split; vm_compute; [reflexivity|discriminate]) ltac:(apply surjective_pairing)) as H.
  destruct proposing.1 as [x|e] eqn:E; [|vm_compute in E; discriminate E].
  destruct H as (news & rows & es & _ & _ & H & _). exists rows. exact H.
Defined.
