(* ===== verification/Commands.v ===== *)
(** * The roadmap's command surface

    Models src/crates/fletch-core/src/roadmap/commands.rs and client_events.rs: each command takes
    the connection lock for its reads and writes, drops it, and then announces what it wrote to
    the clients and nudges the loops. A command's answer is paired with its pulses, in order; a
    failure of the locked part announces nothing. *)

From S2P Require Import Prelude RustStr Board Sql Database Deps Store Events Brakes.
From S2P Require Import Queue Mutations Proposals Rulings Drainer MergeSweep PmOps.

Local Open Scope string_scope.
Local Open Scope list_scope.

(** ** Pulses *)

(** The [roadmap:*] events of client_events.rs, and the wake-ups of the background loops. *)
Inductive Pulse :=
| EmitItem (item : RoadmapItem)
| EmitItemDeleted (id : string)
| EmitItemEvent (event : ItemEvent)
| EmitProposal (proposal : Proposal)
| EmitProposalDeleted (id : string)
| EmitOrderProposal (proposal : OrderProposal)
| EmitOrderProposalDeleted (project_id : string)
| EmitProjectHold (hold : ProjectHold)
| EmitProjectHoldReleased (project_id : string)
| NudgeDrainer
| NudgeSweep
| NudgeTriage.

Local Abbreviation Cmd A := (M Db (result A string * list Pulse)) (only parsing).

(** The locked part, then what follows once the lock is dropped. *)
Definition command {A B} (locked : M Db B) (after : B -> result A string * list Pulse) : Cmd A :=
  let* r := attempt locked in
  ret (match r with Ok b => after b | Err e => (Err e, []) end).

(** An answer that announces nothing. *)
Definition answer {A} (locked : M Db A) : Cmd A := command locked (fun a => (Ok a, [])).

(** What [delete_item] answers. *)
Record ItemDiscard := { di_applied : bool; di_item : option RoadmapItem }.

(** What [delete_item] finds under the lock: a proposal already ruled on, or whether a row was
    removed, with its pending ask. *)
Inductive Doomed :=
| RuledOn (row : RoadmapItem)
| RemovedRow (removed : bool) (pending : option Proposal).

Definition option_pulses {A} (f : A -> list Pulse) (o : option A) : list Pulse :=
  match o with Some a => f a | None => [] end.

Section Commands.
Context `{World}.

(** ** Rows *)

Definition roadmap_list_items (project_id : string) : Cmd (list RoadmapItem) := answer (store_list project_id).

Definition roadmap_get_item (item_id : string) : Cmd (option RoadmapItem) := answer (store_get item_id).

Definition roadmap_create_item (project_id : string) (item : NewItem) : Cmd RoadmapItem :=
  if is_empty (trim (new_title item)) then ret (Err "a roadmap item needs a title", [])
  else
    command (create_checked project_id item) (fun '(created, event) =>
      (Ok created, [EmitItem created; EmitItemEvent event; NudgeDrainer])).

Definition roadmap_capture (project_id text : string) : Cmd RoadmapItem :=
  match captured_item text with
  | Err e => ret (Err e, [])
  | Ok item =>
      command (create_checked project_id item) (fun '(created, event) =>
        (Ok created, [EmitItem created; EmitItemEvent event; NudgeTriage]))
  end.

Definition roadmap_update_item (id : string) (patch : ItemPatch) (expect_status : option ItemStatus)
    (queue : option bool) : Cmd ItemUpdate :=
  command (update_and_record id patch expect_status (default false queue)) (fun '(outcome, event) =>
    match outcome with
    | None => (Err (missing id), [])
    | Some outcome =>
        (Ok outcome,
         if up_applied outcome
         then EmitItem (up_item outcome) :: option_pulses (fun e => [EmitItemEvent e]) event
              ++ NudgeDrainer :: (if eqb (it_status (up_item outcome)) InReview then [NudgeSweep] else [])
         else [])
    end).

Definition rank_patch (rank : SpecFloat.spec_float) : ItemPatch := {|
  pt_title := None; pt_why := None; pt_horizon := None; pt_status := None; pt_source := None;
  pt_rank := Some rank; pt_accept := None; pt_deps := None; pt_area := None; pt_agent_id := None;
  pt_workflow_def_id := None; pt_run_id := None; pt_pr_url := None; pt_pr_number := None;
|}.

Definition roadmap_set_rank (item_id : string) (rank : SpecFloat.spec_float) : Cmd RoadmapItem :=
  command (store_update item_id (rank_patch rank)) (fun item =>
    match item with
    | Some item => (Ok item, [EmitItem item; NudgeDrainer])
    | None => (Err (missing item_id), [])
    end).

(** A command that answers a row and announces it with its entry. *)
Definition row_with_event (locked : M Db (RoadmapItem * ItemEvent)) (nudges : list Pulse) : Cmd RoadmapItem :=
  command locked (fun '(item, event) => (Ok item, EmitItem item :: EmitItemEvent event :: nudges)).

Definition roadmap_hand_off_item (item_id agent_id : string) : Cmd RoadmapItem :=
  row_with_event (hand_off item_id agent_id) [].

Definition roadmap_reclaim_item (item_id : string) : Cmd RoadmapItem :=
  row_with_event (reclaim item_id) [NudgeDrainer].

(** [delete_item]: the row is read and ruled on under the lock of the write. *)
Definition doom (id : string) (only_proposed : bool) : M Db Doomed :=
  let* pending := for_item id in
  let* doomed := store_get id in
  match opt_filter (fun row => only_proposed && negb (eqb (it_status row) Proposed)) doomed with
  | Some row => ret (RuledOn row)
  | None =>
      let* removed := store_delete id in
      ret (RemovedRow removed (opt_filter (fun _ => removed) pending))
  end.

Definition delete_item (id : string) (only_proposed : bool) : Cmd ItemDiscard :=
  command (doom id only_proposed) (fun doomed =>
    match doomed with
    | RuledOn row => (Ok {| di_applied := false; di_item := Some row |}, [])
    | RemovedRow removed pending =>
        (Ok {| di_applied := removed; di_item := None |},
         if removed
         then EmitItemDeleted id :: option_pulses (fun p => [EmitProposalDeleted (pr_id p)]) pending ++ [NudgeDrainer]
         else [])
    end).

Definition roadmap_delete_item (id : string) : Cmd () :=
  let* (r, pulses) := delete_item id false in
  ret (match r with Ok _ => Ok () | Err e => Err e end, pulses).

Definition roadmap_discard_proposal (id : string) : Cmd ItemDiscard := delete_item id true.

(** ** Review *)

(** The merge itself is the forge's: [merged] is what it answered for the repository and number. *)
Definition roadmap_merge_item_pr (merged : string -> N -> result () string) (item_id : string) : Cmd () :=
  let* gated := attempt (merge_hold_gate item_id) in
  match gated with
  | Err e => ret (Err e, [])
  | Ok _ =>
      let* item := attempt_ok (store_get item_id) in
      let target item := (pair item) <$> watchable item in
      match mjoin item ≫= target with
      | None => ret (Err "this item has no pull request to merge — it may have shipped or come back to the board", [])
      | Some (item, number) =>
          let* repo := primary_repo_path (it_project_id item) in
          ret (match repo with
               | None => (Err "this item has no pull request to merge — it may have shipped or come back to the board", [])
               | Some repo =>
                   match merged repo number with
                   | Err e => (Err e, [])
                   | Ok _ => (Ok (), [NudgeSweep])
                   end
               end)
      end
  end.

Definition note_review_feedback (item_id : string) (threads : nat) : M Db ItemEvent :=
  let* item := store_require item_id in
  if negb (eqb (it_status item) InReview) then
    err (it_code item +:+ " is " +:+ item_status_as_str (it_status item)
         +:+ " — only an item under review has feedback to send")
  else record (it_id item) (it_project_id item) ActUser EvNote (Some (feedback_detail threads)).

Definition roadmap_note_review_feedback (item_id : string) (threads : nat) : Cmd ItemEvent :=
  command (note_review_feedback item_id threads) (fun event => (Ok event, [EmitItemEvent event])).

(** ** Holds *)

Definition roadmap_hold_item (item_id reason : string) : Cmd RoadmapItem :=
  match clean_reason reason with
  | Err e => ret (Err e, [])
  | Ok reason => row_with_event (hold_with_event item_id reason ActUser) []
  end.

Definition roadmap_release_item (item_id : string) : Cmd RoadmapItem :=
  command (release_with_event item_id) (fun '(item, event) =>
    (Ok item, EmitItem item :: option_pulses (fun e => [EmitItemEvent e; NudgeDrainer]) event)).

Definition roadmap_get_project_hold (project_id : string) : Cmd (option ProjectHold) := answer (get_project project_id).

Definition roadmap_hold_project (project_id reason : string) : Cmd ProjectHold :=
  match clean_reason reason with
  | Err e => ret (Err e, [])
  | Ok reason =>
      command (hold_project project_id reason ActUser) (fun hold => (Ok hold, [EmitProjectHold hold]))
  end.

Definition roadmap_release_project (project_id : string) : Cmd () :=
  command (release_project project_id) (fun _ =>
    (Ok (), [EmitProjectHoldReleased project_id; NudgeDrainer])).

(** ** Rulings *)

Definition roadmap_reject_item (item_id reason : string) : Cmd RoadmapItem :=
  command (reject_item item_id reason) (fun '(item, event, pending) =>
    (Ok item, [EmitItem item; EmitItemEvent event]
              ++ option_pulses (fun p => [EmitProposalDeleted (pr_id p)]) pending ++ [NudgeDrainer])).

Definition roadmap_reopen_item (item_id : string) : Cmd RoadmapItem :=
  command (reopen_item item_id) (fun '(item, event, corrections) =>
    (Ok item, EmitItem item :: option_pulses (fun e => [EmitItemEvent e; NudgeDrainer]) event
              ++ (EmitItemEvent <$> corrections))).

Definition roadmap_accept_proposal (proposal_id : string) : Cmd () :=
  command (accept_proposal proposal_id) (fun ruling =>
    match ruling with
    | Updated item event =>
        (Ok (), [EmitProposalDeleted proposal_id; EmitItem item; EmitItemEvent event; NudgeDrainer])
    | Stale message => (Err message, [EmitProposalDeleted proposal_id])
    end).

Definition roadmap_reject_proposal (proposal_id : string) : Cmd () :=
  command (reject_proposal proposal_id) (fun event =>
    (Ok (), [EmitProposalDeleted proposal_id; EmitItemEvent event])).

Definition roadmap_accept_order_proposal (project_id : string) : Cmd () :=
  command (accept_order project_id) (fun ruling =>
    match ruling with
    | OrderApplied rows => (Ok (), EmitOrderProposalDeleted project_id :: (EmitItem <$> rows) ++ [NudgeDrainer])
    | OrderStale message => (Err message, [EmitOrderProposalDeleted project_id])
    end).

Definition roadmap_reject_order_proposal (project_id : string) : Cmd () :=
  command (order_delete project_id) (fun _ => (Ok (), [EmitOrderProposalDeleted project_id])).

(** ** Reads *)

Definition roadmap_list_item_events (item_id : string) : Cmd (list ItemEvent) := answer (list_for_item item_id).
Definition roadmap_latest_events (project_id : string) : Cmd (list ItemEvent) := answer (latest_per_item project_id).
Definition roadmap_list_proposals (project_id : string) : Cmd (list Proposal) := answer (list_for_project project_id).
Definition roadmap_get_order_proposal (project_id : string) : Cmd (option OrderProposal) := answer (order_get project_id).

(** ** The product manager's operations

    [RoadmapDispatcher] runs each under the lock, for the project it was built for, and announces
    what it stored. *)

Definition roadmap_propose `{Unicode} (project_id : string) (items : list ProposedItem)
    : Cmd (list string * (list RoadmapItem * list ItemEvent)) :=
  command (insert_batch project_id items) (fun '(warnings, (created, recorded)) =>
    (Ok (warnings, (created, recorded)), (EmitItem <$> created) ++ (EmitItemEvent <$> recorded))).

Definition roadmap_propose_update (project_id code : string) (patch : ProposalPatch) (note : option string)
    : Cmd Proposal :=
  command (park_update project_id code patch note) (fun stored => (Ok stored, [EmitProposal stored])).

Definition roadmap_propose_discard (project_id code reason : string) : Cmd Proposal :=
  command (park_discard project_id code reason) (fun stored => (Ok stored, [EmitProposal stored])).

Definition roadmap_propose_order (project_id : string) (codes : list string) (note : option string)
    : Cmd OrderProposal :=
  command (park_order project_id codes note) (fun stored => (Ok stored, [EmitOrderProposal stored])).

Definition roadmap_note (project_id code note : string) : Cmd ItemEvent :=
  command (note_op project_id code note) (fun event => (Ok event, [EmitItemEvent event])).

Definition roadmap_hold (project_id scope reason : string) : Cmd Held :=
  command (place_hold project_id scope reason) (fun held =>
    (Ok held, match held with
              | HeldItem item event => [EmitItem item; EmitItemEvent event]
              | HeldProject hold => [EmitProjectHold hold]
              end)).

Definition roadmap_triage `{Unicode} (project_id : string) (args : TriageArgs)
    : Cmd (RoadmapItem * list string * (CaptureKind * (list RoadmapItem * list ItemEvent))) :=
  command (triage project_id args) (fun '(source, warnings, (kind, (items, recorded))) =>
    (Ok (source, warnings, (kind, (items, recorded))), (EmitItem <$> items) ++ (EmitItemEvent <$> recorded))).
End Commands.

(** ** Lemmas *)

Section CommandLemmas.
Context `{World}.

(** What follows the lock touches nothing. *)
Lemma command_conn {A B} (locked : M Db B) (after : B -> result A string * list Pulse) c :
  (command locked after c).2 = (locked c).2.
Proof. unfold command, bind, attempt. by destruct (locked c) as [[b|e] c']. Qed.

Lemma preserves_command {A B} P (locked : M Db B) (after : B -> result A string * list Pulse) :
  preserves P locked -> preserves P (command locked after).
Proof. intros Hl c Hc. rewrite command_conn. by apply Hl. Qed.

(** A command that answered: the locked part ran, or failed and nothing is announced. *)
Lemma command_pulses {A B} (locked : M Db B) (after : B -> result A string * list Pulse) c r pulses c' :
  command locked after c = (Ok (r, pulses), c') ->
  (exists b, locked c = (Ok b, c') /\ after b = (r, pulses)) \/ pulses = [].
Proof.
  unfold command, bind, attempt, ret. destruct (locked c) as [[b|e] c1].
  - intros Hr. left. exists b. by injection Hr as Hr <-.
  - intros Hr. right. by injection Hr as _ <- _.
Qed.

#[local] Hint Resolve preserves_command : fletch.

Lemma doom_board id b : preserves board_ok (doom id b).
Proof. unfold doom. preserving. Qed.
#[local] Hint Resolve doom_board : fletch.

Lemma delete_item_board id b : preserves board_ok (delete_item id b).
Proof. unfold delete_item. preserving. Qed.

Lemma note_review_feedback_board id n : preserves board_ok (note_review_feedback id n).
Proof. unfold note_review_feedback. preserving. Qed.
End CommandLemmas.
#[export] Hint Resolve preserves_command doom_board delete_item_board note_review_feedback_board : fletch.
