(* ===== verification/Roadmap.v ===== *)
(** * The board as a state machine

    The steps of the roadmap: each is one operation of the modules above, run to its end under
    the connection lock, by the user, the product manager, the queue or the merge sweep. Steps
    interleave freely, and the queue's and the sweep's take whatever they read earlier, however
    old. What every reachable board satisfies follows by induction on the steps. *)

From S2P Require Import Prelude RustStr BTree Git Board Sql Database Deps.
From S2P Require Import Store Events Brakes Queue Mutations Proposals Rulings Drainer MergeSweep.
From S2P Require Import PmOps DepGraph BatchGraph Commands.

Local Open Scope string_scope.
Local Open Scope list_scope.

(** The steps, with what the definitions' catalogue reads from a stored definition ([read_spec]), the
    tables of Unicode, and [refs], which dependencies the product manager may write: [fun _ => True]
    is the whole program. *)
Section Steps.
Context `{World} `{Unicode} {Spec : Type} (read_spec : string -> option Spec) (refs : string -> Prop).

(** The dependencies of proposed items, as they are stored. *)
Definition refs_ok (items : list ProposedItem) : Prop :=
  forall it d, it ∈ items -> d ∈ clean_list (pi_deps it) -> refs d.

(** [board_step who c c']: one step of [who]. *)
Inductive board_step : EventActor -> Conn Db -> Conn Db -> Prop :=
| StepCreate p new c : counter_room 1 (c_db c) p -> board_step ActUser c (roadmap_create_item p new c).2
| StepCapture p text c : counter_room 1 (c_db c) p -> board_step ActUser c (roadmap_capture p text c).2
| StepUpdate id patch expect queue c : board_step ActUser c (roadmap_update_item id patch expect queue c).2
| StepSetRank id rank c : board_step ActUser c (roadmap_set_rank id rank c).2
| StepDelete id c : board_step ActUser c (roadmap_delete_item id c).2
| StepDiscard id c : board_step ActUser c (roadmap_discard_proposal id c).2
| StepHandOff id agent c : board_step ActUser c (roadmap_hand_off_item id agent c).2
| StepReclaim id c : board_step ActUser c (roadmap_reclaim_item id c).2
| StepMerge merged id c : board_step ActUser c (roadmap_merge_item_pr merged id c).2
| StepFeedback id n c : board_step ActUser c (roadmap_note_review_feedback id n c).2
| StepHold id reason c : board_step ActUser c (roadmap_hold_item id reason c).2
| StepRelease id c : board_step ActUser c (roadmap_release_item id c).2
| StepHoldProject p reason c : board_step ActUser c (roadmap_hold_project p reason c).2
| StepReleaseProject p c : board_step ActUser c (roadmap_release_project p c).2
| StepReject id reason c : board_step ActUser c (roadmap_reject_item id reason c).2
| StepReopen id c : board_step ActUser c (roadmap_reopen_item id c).2
| StepAcceptAsk id c : board_step ActUser c (roadmap_accept_proposal id c).2
| StepDeclineAsk id c : board_step ActUser c (roadmap_reject_proposal id c).2
| StepAcceptOrder p c : board_step ActUser c (roadmap_accept_order_proposal p c).2
| StepDropOrder p c : board_step ActUser c (roadmap_reject_order_proposal p c).2
| StepPropose p items c : counter_room (Z.of_nat MAX_BATCH) (c_db c) p -> refs_ok items ->
    board_step ActPm c (roadmap_propose p items c).2
| StepAskUpdate p code patch note c : board_step ActPm c (roadmap_propose_update p code patch note c).2
| StepAskDiscard p code reason c : board_step ActPm c (roadmap_propose_discard p code reason c).2
| StepAskOrder p codes note c : board_step ActPm c (roadmap_propose_order p codes note c).2
| StepNote p code note c : board_step ActPm c (roadmap_note p code note c).2
| StepPmHold p scope reason c : board_step ActPm c (roadmap_hold p scope reason c).2
| StepTriage p args c : counter_room (Z.of_nat MAX_BATCH) (c_db c) p ->
    refs_ok (default [] (ta_candidates args)) -> board_step ActPm c (roadmap_triage p args c).2
| StepClaim p cap c : board_step ActDrainer c (plan_and_claim read_spec p cap c).2
| StepLaunched item launched c : board_step ActDrainer c (finish_dispatch item launched c).2
| StepSettle s c : board_step ActDrainer c (settle_one s c).2
| StepVerdict w v c : board_step ActSweep c (settle_verdict w v c).2
| StepUnreachable w c : board_step ActSweep c (unreachable w c).2.

Definition step (c c' : Conn Db) : Prop := exists who, board_step who c c'.

(** A board nothing has happened on. *)
Definition fresh_board (d : Db) : Prop := db_items d = [] /\ db_events d = [] /\ db_proposals d = [].

Definition reachable (c : Conn Db) : Prop := exists c0, fresh_board (c_db c0) /\ rtc step c0 c.


End Steps.

(** ** Well-formedness *)

(** A step keeps what its operation keeps. *)
Ltac by_preserves :=
  match goal with H : ?P (c_db ?c) |- ?P (c_db (?m ?c).2) =>
    let Hp := fresh in assert (preserves P m) as Hp; [|exact (Hp c H)]
  end.

Ltac unfold_commands :=
  unfold roadmap_create_item, roadmap_capture, roadmap_update_item, roadmap_set_rank,
    roadmap_delete_item, roadmap_discard_proposal, roadmap_hand_off_item, roadmap_reclaim_item,
    roadmap_merge_item_pr, roadmap_note_review_feedback, roadmap_hold_item, roadmap_release_item,
    roadmap_hold_project, roadmap_release_project, roadmap_reject_item, roadmap_reopen_item,
    roadmap_accept_proposal, roadmap_reject_proposal, roadmap_accept_order_proposal,
    roadmap_reject_order_proposal, roadmap_propose, roadmap_propose_update, roadmap_propose_discard,
    roadmap_propose_order, roadmap_note, roadmap_hold, roadmap_triage, row_with_event.

Lemma board_step_ok `{World} `{Unicode} {Spec} (read_spec : string -> option Spec) refs who c c' :
  board_step read_spec refs who c c' -> board_ok (c_db c) -> board_ok (c_db c').
Proof.
  destruct 1; intros Hok; by_preserves; unfold_commands; preserving. apply settle_verdict_board.
Qed.

Lemma fresh_board_ok d : fresh_board d -> board_ok d.
Proof.
  intros (Hi & He & Hp). split; rewrite ?Hi, ?He, ?Hp; try constructor.
  - by intros i f ?%elem_of_nil.
  - by intros e ?%elem_of_nil.
  - by intros p ?%elem_of_nil.
Qed.

(** ** Holds *)

(** What nobody but the user may undo: a row that is held stays, and stays held for a reason. *)
Definition holds_kept (d d' : Db) : Prop :=
  (forall i, i ∈ db_items d -> it_hold_reason i <> None ->
     exists i', i' ∈ db_items d' /\ it_id i' = it_id i /\ it_hold_reason i' <> None) /\
  (forall p, db_project_holds d !! p <> None -> db_project_holds d' !! p <> None).

Lemma holds_kept_refl d : holds_kept d d.
Proof. split; [intros i Hi Hh; by exists i|done]. Qed.

Lemma holds_kept_ext d0 d d' :
  db_items d' = db_items d -> db_project_holds d' = db_project_holds d -> holds_kept d0 d -> holds_kept d0 d'.
Proof. intros Hi Hp [H1 H2]. split; by rewrite ?Hi, ?Hp. Qed.

Lemma holds_kept_update d0 p f d :
  (forall i, it_id (f i) = it_id i) ->
  (forall i, it_hold_reason i <> None -> it_hold_reason (f i) <> None) ->
  holds_kept d0 d -> holds_kept d0 (set_items (update_rows p f) d).
Proof.
  intros Hid Hf [H1 H2]. split; [|done]. intros i Hi Hh. destruct (H1 i Hi Hh) as (j & Hj & Hji & Hjh).
  exists (if p j then f j else j). split; [by apply (list_elem_of_fmap_2 (fun j => if p j then f j else j))|].
  destruct (p j); [by rewrite Hid; auto|done].
Qed.

Section HoldsKept.
Context `{World} {Spec : Type} (read_spec : string -> option Spec) (d0 : Db).
Local Abbreviation keeps := (preserves (holds_kept d0)).

Lemma record_holds id p a k det : keeps (record id p a k det).
Proof.
  unfold record. preserving. apply preserves_sql. intros d x d' Hd. destruct (existsb _ (db_events _)); [done|].
  destruct (negb _); [done|]. intros [= <- <-]. by apply (holds_kept_ext d0 d).
Qed.
#[local] Hint Resolve record_holds : fletch.

Lemma store_apply_holds id p e : keeps (store_apply id p e).
Proof.
  intros c Hc. destruct (store_apply_db id p e c) as [->|[now ->]]; [done|]. by apply holds_kept_update.
Qed.

Lemma store_update_holds id p : keeps (store_update id p).
Proof. apply store_apply_holds. Qed.
Lemma update_where_holds id s p : keeps (update_where_status id s p).
Proof. apply store_apply_holds. Qed.
#[local] Hint Resolve store_update_holds update_where_holds : fletch.

Lemma write_item_where_holds id e p t : keeps (write_item_where id e p t).
Proof. unfold write_item_where, apply_and_record. preserving. Qed.
#[local] Hint Resolve write_item_where_holds : fletch.

Lemma conclude_holds i o pr d : keeps (conclude i o pr d).
Proof. unfold conclude, write_item_with_event, apply_and_record, write_item. preserving. Qed.
#[local] Hint Resolve conclude_holds : fletch.

Lemma settle_one_holds s : keeps (settle_one s).
Proof. unfold settle_one, write_item. preserving. Qed.

Lemma finish_dispatch_holds i l : keeps (finish_dispatch i l).
Proof. unfold finish_dispatch, write_item. preserving. Qed.

Lemma record_wedge_holds i d : keeps (record_wedge i d).
Proof. unfold record_wedge. preserving. Qed.
#[local] Hint Resolve record_wedge_holds : fletch.

Lemma claim_item_holds id d w : keeps (claim_item id d w).
Proof. unfold claim_item. preserving. Qed.
#[local] Hint Resolve claim_item_holds : fletch.

Lemma plan_and_claim_holds p cap : keeps (plan_and_claim read_spec p cap).
Proof. unfold plan_and_claim, claim_prepared, claim_when_blocked, wedge. preserving. Qed.

Lemma settle_verdict_holds w v : keeps (settle_verdict w v).
Proof. unfold settle_verdict, held_now. preserving. Qed.

Lemma unreachable_holds w : keeps (unreachable w).
Proof. unfold unreachable. preserving. Qed.

Lemma hold_with_event_holds id r b : keeps (hold_with_event id r b).
Proof.
  unfold hold_with_event, hold_item. preserving. apply preserves_execute. intros d. by apply holds_kept_update.
Qed.

Lemma hold_project_holds p r b : keeps (hold_project p r b).
Proof.
  unfold hold_project. preserving. apply preserves_sql. intros d x d' [H1 H2]. destruct (is_some _); [|done].
  intros [= <- <-]. split; [done|]. intros q Hq. cbn [db_project_holds set_project_holds].
  destruct (decide (p = q)) as [->|Hne]; [by rewrite lookup_insert_eq|].
  rewrite lookup_insert_ne by done. auto.
Qed.

Lemma proposal_upsert_holds p i k pt n : keeps (proposal_upsert p i k pt n).
Proof.
  unfold proposal_upsert. preserving. apply preserves_sql. intros d x d' Hd.
  destruct (existsb _ (db_proposals _)); [done|]. destruct (existsb _ (db_proposals _)).
  - intros [= <- <-]. by apply (holds_kept_ext d0 d).
  - destruct (negb _); [done|]. intros [= <- <-]. by apply (holds_kept_ext d0 d).
Qed.

Lemma order_upsert_holds p codes n : keeps (order_upsert p codes n).
Proof.
  unfold order_upsert. preserving. apply preserves_sql. intros d x d' Hd. destruct (is_some _); [|done].
  intros [= <- <-]. by apply (holds_kept_ext d0 d).
Qed.

Lemma set_triage_holds id k t : keeps (set_triage id k t).
Proof. unfold set_triage. preserving. apply preserves_execute. intros d. by apply holds_kept_update. Qed.
#[local] Hint Resolve hold_with_event_holds hold_project_holds proposal_upsert_holds order_upsert_holds
  set_triage_holds : fletch.

Lemma store_create_holds p new : keeps (store_create p new).
Proof.
  assert (forall k v, keeps (upsert_project_setting p k v)).
  { intros k v. apply preserves_sql. intros d x d' Hd. destruct (is_some _); [|done]. intros [= <- <-].
    by apply (holds_kept_ext d0 d). }
  unfold store_create, next_code, code_prefix, next_number, next_rank, insert_item. preserving.
  apply preserves_sql. intros d x d' [H1 H2]. destruct (existsb _ _); [done|]. destruct (negb _); [done|].
  destruct (is_some_and _ _); [done|]. intros [= <- <-]. split; [|done]. intros i Hi Hh.
  destruct (H1 i Hi Hh) as (i' & Hi' & Hrest). exists i'. split; [|done]. apply elem_of_app. by left.
Qed.
#[local] Hint Resolve store_create_holds : fletch.

Lemma resolve_each_holds n news created : keeps (resolve_each n news created).
Proof.
  revert n created. induction news as [|new news IH]; intros n created; cbn [resolve_each]; [apply preserves_ret|].
  destruct (negb _); [apply IH|]. preserving.
Qed.
#[local] Hint Resolve resolve_each_holds : fletch.

Lemma create_proposed_holds p news dt : keeps (create_proposed p news dt).
Proof. unfold create_proposed, create_one. preserving. Qed.
#[local] Hint Resolve create_proposed_holds : fletch.

(** What the product manager can do. *)
Lemma insert_batch_holds `{Unicode} p items : keeps (insert_batch p items).
Proof. unfold insert_batch. preserving. Qed.
Lemma park_update_holds p code patch note : keeps (park_update p code patch note).
Proof. unfold park_update. preserving. Qed.
Lemma park_discard_holds p code reason : keeps (park_discard p code reason).
Proof. unfold park_discard. destruct (is_empty _); preserving. Qed.
Lemma park_order_holds p cs note : keeps (park_order p cs note).
Proof. unfold park_order. preserving. Qed.
Lemma note_op_holds p code note : keeps (note_op p code note).
Proof. unfold note_op. preserving. Qed.
Lemma place_hold_holds p scope reason : keeps (place_hold p scope reason).
Proof. unfold place_hold. preserving. Qed.
Lemma triage_holds `{Unicode} p args : keeps (triage p args).
Proof. unfold triage, apply_outcome. preserving. Qed.
End HoldsKept.
#[export] Hint Resolve insert_batch_holds park_update_holds park_discard_holds park_order_holds note_op_holds
  place_hold_holds triage_holds plan_and_claim_holds finish_dispatch_holds settle_one_holds
  settle_verdict_holds unreachable_holds : fletch.


Lemma delete_item_deps `{World} d0 id b : preserves (deps_kept d0) (delete_item id b).
Proof. pose proof (store_delete_deps d0 id). unfold delete_item, doom. preserving. Qed.

#[local] Hint Resolve store_update_deps delete_item_deps stamp_deps reject_item_deps reopen_item_deps
  release_with_event_deps release_project_deps reject_proposal_deps accept_order_deps order_delete_deps
  hold_with_event_deps hold_project_deps proposal_upsert_deps order_upsert_deps plan_and_claim_deps
  finish_dispatch_deps settle_one_deps settle_verdict_deps unreachable_deps : fletch.

(** The writers of dependencies validated them; every other step keeps them. *)
Lemma board_step_deps `{World} `{Unicode} {Spec} (read_spec : string -> option Spec) who c c' :
  board_step read_spec plain_ref who c c' -> board_ok (c_db c) -> deps_ok (c_db c) -> deps_ok (c_db c').
Proof.
  destruct 1; intros Hok Hd; unfold_commands; try destruct (is_empty _); try done.
  all: try destruct (captured_item _) as [new|]; try destruct (clean_reason _); try done; rewrite ?command_conn.
  all: try first [by apply create_checked_deps | by apply update_and_record_deps | by apply accept_proposal_deps
    | by apply insert_batch_deps | by apply triage_deps].
  all: apply deps_ok_after; [|done].
  all: preserving.
  all: unfold park_discard; cbv zeta; preserving.
Qed.

Lemma fresh_deps_ok d : fresh_board d -> deps_ok d.
Proof.
  intros (Hi & _ & _). split.
  - intros p x Hx. assert (forall a b, ~ dep_edge d p a b) as Hno.
    { intros a b (i & Hin & _). rewrite Hi in Hin. by apply elem_of_nil in Hin. }
    inversion Hx; by eapply Hno.
  - intros i x n Hin. rewrite Hi in Hin. by apply elem_of_nil in Hin.
  - intros i Hin. rewrite Hi in Hin. by apply elem_of_nil in Hin.
Qed.

(** ** Properties *)

(** (C35) Every board that can be reached is well-formed: ids are unique, codes are unique in a
    project, every hold has its author and time, an item has at most one pending ask, and no
    event, ask or origin refers to a row that is gone. *)
Theorem reachable_board_ok `{World} `{Unicode} {Spec} (read_spec : string -> option Spec) c :
  reachable read_spec (fun _ => True) c -> board_ok (c_db c).
Proof.
  intros (c0 & Hf & Hs). apply fresh_board_ok in Hf. revert Hf.
  induction Hs as [c|c c1 c2 [who Hs] _ IH]; [done|]. intros Hok. apply IH. by eapply board_step_ok.
Qed.

(** (C1) Only the user lifts a hold: no operation of the product manager, no step of the queue and
    none of the sweep, on whatever stale reading it acts and whatever fails on the way, leaves an
    item or a board unheld that was held. *)
Theorem only_user_lifts_holds `{World} `{Unicode} {Spec} (read_spec : string -> option Spec) who c c' :
  board_step read_spec (fun _ => True) who c c' -> who <> ActUser -> holds_kept (c_db c) (c_db c').
Proof.
  intros Hs Hw. pose proof (holds_kept_refl (c_db c)) as Hr. revert Hr.
  destruct Hs; try done; generalize (c_db c) at 1 3; intros d0 Hr; by_preserves; unfold_commands; preserving.
Qed.

(** (C31) The queue never wedges on a loop of the board's own making: on every board that can be
    reached, however rows were created, edited, ruled on, proposed in batches or triaged, the
    dependency graph of every project has no loop, so the search for one finds none from any
    item. The product manager's references to items of the same batch are spelled the plain way
    ([#1], not [# 1] or [#01]); [Deps.batch_alias_closes_loop] shows why that is needed. *)
Theorem reachable_acyclic `{World} `{Unicode} {Spec} (read_spec : string -> option Spec) c p :
  reachable read_spec plain_ref c ->
  acyclic (graph_of (board_of (db_items (c_db c)) p)) /\
  forall start, find_cycle (graph_of (board_of (db_items (c_db c)) p)) start = None.
Proof.
  intros (c0 & Hf & Hs).
  assert (board_ok (c_db c) /\ deps_ok (c_db c)) as [Hok Hd].
  { assert (board_ok (c_db c0) /\ deps_ok (c_db c0)) as H1 by auto using fresh_board_ok, fresh_deps_ok.
    clear Hf. revert H1. induction Hs as [c|c c1 c2 [who Hs] _ IH]; [done|]. intros [Hok Hd]. apply IH.
    split; [by eapply board_step_ok|by eapply board_step_deps]. }
  pose proof (graph_acyclic (c_db c) p Hok Hd) as Ha. split; [done|]. intros start.
  by apply acyclic_find_cycle.
Qed.

(** ** Witnesses *)

#[local] Instance witness_world : World := calm_world show_nat.
#[local] Instance witness_tables : Unicode := {| to_lowercase := to_ascii_lowercase; is_alphanumeric s := negb (is_ws s) |}.

Definition named (title : string) (deps : list string) : NewItem := {|
  new_title := title; new_why := ""; new_horizon := None; new_status := None; new_area := None;
  new_source := None; new_accept := []; new_deps := deps; new_workflow_def_id := None;
  new_issue_url := None; new_from_item := None;
|}.

(** The user creates an item; the product manager proposes two more, the second waiting on both. *)
Definition started : Conn Db := {| c_db := witness_roadmap []; c_tick := 0 |}.
Definition with_one : Conn Db := (roadmap_create_item "p" (named "one" []) started).2.
Definition batch : list ProposedItem := [a_ticket "two" []; a_ticket "three" ["FA-100"; "#1"]].
Definition with_three : Conn Db := (roadmap_propose "p" batch with_one).2.

Lemma batch_plain : refs_ok plain_ref batch.
Proof.
  intros it d Hit Hd len i. apply elem_of_cons in Hit as [->|Hit]; [by apply elem_of_nil in Hd|].
  apply list_elem_of_singleton in Hit as ->. vm_compute in Hd.
  apply elem_of_cons in Hd as [->|Hd]; [done|]. apply list_elem_of_singleton in Hd as ->.
  change (batch_index "#1" len) with (if ((1 <=? 1) && (1 <=? N.of_nat len))%N then Some 0 else None).
  destruct (_ && _)%N; [|done]. by intros [= <-].
Qed.

Lemma room_for_one : counter_room 1 (c_db started) "p".
Proof. split; vm_compute; [reflexivity|discriminate]. Qed.

Lemma room_for_batch : counter_room (Z.of_nat MAX_BATCH) (c_db with_one) "p".
Proof. split; vm_compute; [reflexivity|discriminate]. Qed.

Lemma with_three_reachable refs : refs_ok refs batch -> reachable (@Some string) refs with_three.
Proof.
  intros Hrefs. exists started. split; [done|].
  eapply rtc_l; [exists ActUser; exact (StepCreate _ _ "p" (named "one" []) started room_for_one)|].
  eapply rtc_l; [exists ActPm; exact (StepPropose _ _ "p" batch with_one room_for_batch Hrefs)|].
  apply rtc_refl.
Qed.

Lemma reachable_board_ok_witness :
  it_code <$> db_items (c_db with_three) = ["FA-100"; "FA-101"; "FA-102"] /\
  NoDup (it_id <$> db_items (c_db with_three)).
Proof.
  split; [vm_compute; reflexivity|].
  exact (ok_ids _ (reachable_board_ok (@Some string) with_three
    (with_three_reachable (fun _ => True) (fun _ _ _ _ => I)))).
Defined.

Lemma reachable_acyclic_witness :
  it_deps <$> db_items (c_db with_three) = [[]; []; ["FA-100"; "FA-101"]] /\
  find_cycle (graph_of (board_of (db_items (c_db with_three)) "p")) "FA-102" = None.
Proof.
  split; [vm_compute; reflexivity|].
  apply (reachable_acyclic (@Some string) with_three "p" (with_three_reachable _ batch_plain)).
Defined.

(** A held item, the queue trying to claim. *)
Definition held_board : Conn Db := (hold_with_event "i1" "wait" ActUser two_items).2.

Lemma only_user_lifts_holds_witness :
  exists i', i' ∈ db_items (c_db (plan_and_claim (@Some string) "p" 1 held_board).2) /\
    it_id i' = "i1" /\ it_hold_reason i' <> None.
Proof.
  destruct (only_user_lifts_holds (@Some string) ActDrainer held_board _
    (StepClaim _ _ "p" 1 held_board) ltac:(discriminate)) as [H _].
  eapply (H (hd (witness_item "" "" Open []) (db_items (c_db held_board)))).
  - vm_compute. apply list_elem_of_here.
  - vm_compute. discriminate.
Defined.
