(* ===== verification/Closes.v ===== *)
(** * Closing trailers of pull request bodies (github/closes.rs)

    Whether a body already closes an issue, and the trailer appended when it does not. Slicing a
    Rust string inside a character panics; a scan that would do so is [None]. *)

From Stdlib Require Import Ascii.
From S2P Require Import Prelude RustStr.

Local Open Scope string_scope.
Local Open Scope list_scope.

Definition CLOSING_KEYWORDS : list string :=
  ["close"; "closes"; "closed"; "fix"; "fixes"; "fixed"; "resolve"; "resolves"; "resolved"].

Inductive IssueRef := RefNumber (n : N) | RefKey (key : string).

Definition is_ascii_digit (b : Ascii.ascii) : bool :=
  let n := Ascii.N_of_ascii b in ((48 <=? n) && (n <=? 57))%N.

Definition is_ascii_alphabetic (b : Ascii.ascii) : bool :=
  is_ascii_alphanumeric b && negb (is_ascii_digit b).

Fixpoint every_byte (p : Ascii.ascii -> bool) (s : string) : bool :=
  match s with EmptyString => true | String b s => p b && every_byte p s end.

Definition u32_max : N := 4294967295.

(** [str::parse::<u32>]. *)
Definition parse_u32 (s : string) : option N :=
  opt_filter (fun n => (n <=? u32_max)%N) (parse_usize s).

(** [s.rsplit_once(c)]. *)
Fixpoint rsplit_once (c : Ascii.ascii) (s : string) : option (string * string) :=
  match s with
  | EmptyString => None
  | String b s' =>
      match rsplit_once c s' with
      | Some (x, y) => Some (String b x, y)
      | None => if Ascii.eqb b c then Some ("", s') else None
      end
  end.

Definition parse_issue_ref (issue_ref : string) : option IssueRef :=
  let r := trim issue_ref in
  match parse_u32 r with
  | Some n => Some (RefNumber n)
  | None =>
      match rsplit_once "-" r with
      | None => None
      | Some (prefix, digits) =>
          let prefix_ok := negb (is_empty prefix) && every_byte is_ascii_alphanumeric prefix in
          let digits_ok := negb (is_empty digits) && every_byte is_ascii_digit digits in
          if prefix_ok && digits_ok then Some (RefKey r) else None
      end
  end.

(** [s.find(needle)]: what precedes and follows the first occurrence. *)
Fixpoint find (needle s : string) : option (string * string) :=
  match strip_prefix needle s with
  | Some after => Some ("", after)
  | None =>
      match s with
      | EmptyString => None
      | String b s => (fun '(before, after) => (String b before, after)) <$> find needle s
      end
  end.

(** A character that is one ASCII letter. *)
Definition is_letter (c : string) : bool :=
  match c with String b EmptyString => is_ascii_alphabetic b | _ => false end.

(** The word a text ends with: the characters after the last that is not a letter. The slice
    starts one byte after that character does, which is inside it unless it has one byte. *)
Definition last_word (s : string) : option string :=
  let back := rev (chars s) in
  match drop_while is_letter back with
  | [] => Some s
  | c :: _ =>
      if (String.length c =? 1)%nat
      then Some (unchars (rev (take (length back - length (drop_while is_letter back)) back)))
      else None
  end.

Definition strip_suffix_colon (s : string) : string :=
  match rev (chars s) with
  | c :: l => if String.eqb c ":" then unchars (rev l) else s
  | [] => s
  end.

Definition ends_with_closing_keyword (before : string) : option bool :=
  let trimmed := trim_end before in
  if (String.length trimmed =? String.length before)%nat then Some false
  else
    word ← last_word (strip_suffix_colon trimmed);
    Some (existsb (fun k => String.eqb (to_ascii_lowercase word) k) CLOSING_KEYWORDS).

(** [after.chars().next().map_or(true, |c| !c.is_ascii_digit())]. *)
Definition bounded (after : string) : bool :=
  match after with EmptyString => true | String b _ => negb (is_ascii_digit b) end.

(** The loop: [seen] is the text before [rest]. Each round drops a needle, so the length of the
    text is enough fuel. *)
Fixpoint closes_from (fuel : nat) (needle seen rest : string) : option bool :=
  match fuel with
  | O => Some false
  | S fuel =>
      match find needle rest with
      | None => Some false
      | Some (pre, after) =>
          let before := seen +:+ pre in
          if bounded after then
            closing ← ends_with_closing_keyword before;
            if closing : bool then Some true else closes_from fuel needle (before +:+ needle) after
          else closes_from fuel needle (before +:+ needle) after
      end
  end.

Definition closes_needle (body needle : string) : option bool :=
  closes_from (S (String.length body)) needle "" body.

Definition closes_issue (body : string) (number : N) : option bool :=
  closes_needle body ("#" +:+ show_N number).

Definition closes_key (body key : string) : option bool :=
  closes_needle (to_ascii_lowercase body) (to_ascii_lowercase key).

Definition closes_ref (body : string) (r : IssueRef) : option bool :=
  match r with RefNumber n => closes_issue body n | RefKey key => closes_key body key end.

Definition trailer_of (r : IssueRef) : string :=
  match r with RefNumber n => "Closes #" +:+ show_N n | RefKey key => "Fixes " +:+ key end.

Definition append_trailer (body trailer : string) : string :=
  let trimmed := trim_end body in
  if is_empty trimmed then trailer else trimmed +:+ newline +:+ newline +:+ trailer.

(** [None] when the scan panics. *)
Definition with_closes_trailer (body : string) (issue_ref : option string) : option string :=
  match issue_ref ≫= parse_issue_ref with
  | None => Some body
  | Some r =>
      closed ← closes_ref body r;
      Some (if closed : bool then body else append_trailer body (trailer_of r))
  end.

(** A keyword glued to a character of several bytes panics: the slice starts inside it. *)
Example dash_before_keyword_panics : with_closes_trailer "Rework of the parser —fixes #12" (Some "12") = None.
Proof. vm_compute. reflexivity. Qed.

Example comma_before_keyword : with_closes_trailer "Done,fixes #12" (Some "12") = Some "Done,fixes #12".
Proof. vm_compute. reflexivity. Qed.

Example mention_is_not_enough :
  with_closes_trailer "see #12" (Some " 12 ") = Some ("see #12" +:+ newline +:+ newline +:+ "Closes #12").
Proof. vm_compute. reflexivity. Qed.

Example tracker_key : with_closes_trailer "" (Some "ENG-7") = Some "Fixes ENG-7".
Proof. vm_compute. reflexivity. Qed.
