(* ===== verification/WfSpec.v ===== *)
(** * Workflow definitions: the spec, its gates, prompts and names

    The pure parts of the workflow engine (src/crates/fletch-core/src/workflow/): the spec and
    its validation (spec.rs), gate evaluation (gates.rs), the blackboard's verdict and path
    checks (blackboard.rs), the step prompt (prompts.rs), ref and branch names (gitops.rs,
    service.rs) and the paging bounds of the journal (mod.rs). *)

From Stdlib Require Import Ascii.
From S2P Require Import Prelude RustStr BTree.

Local Open Scope string_scope.
Local Open Scope list_scope.

(** ** The spec *)

Definition SPEC_VERSION : N := 1.

Record McpServerDef := {
  md_name : string;
  md_transport : string;
  md_command : string;
  md_url : string;
  md_env_keys : list string;
  md_header_keys : list string;
}.

Record AgentSpec := {
  ag_base : string;
  ag_model : option string;
  ag_effort : option string;
  ag_instructions : option string;
  ag_skills : list string;
  ag_mcp_servers : list McpServerDef;
  ag_custom_agent : option string;
}.

Inductive Gate := GateVerdict | GateCommit.
#[export] Instance Gate_eq_dec : EqDecision Gate.
Proof. solve_decision. Defined.

Record WfStep := { st_id : string; st_agent : string; st_goal : string; st_gate : Gate }.

Record Finalize := { fz_push : bool; fz_open_pr : bool; fz_pr_base : option string }.

Record Spec := {
  sp_version : N;
  sp_name : string;
  sp_description : option string;
  sp_agents : list (string * AgentSpec);
  sp_workflow : list WfStep;
  sp_finalize : option Finalize;
}.

(** ** Validation: every violation, in the order the source finds them *)

Definition version_message (v : N) : string :=
  "unknown version " +:+ show_N v +:+ ": this build supports version " +:+ show_N SPEC_VERSION.
Definition NO_STEPS : string := "workflow has no steps".
Definition EMPTY_STEP_ID : string := "step id must not be empty".
Definition duplicate_message (id : string) : string := "duplicate step id '" +:+ id +:+ "'".
Definition agent_message (s : WfStep) : string :=
  "step '" +:+ st_id s +:+ "' references agent '" +:+ st_agent s
    +:+ "', which is not defined in `agents`".

Definition blank (s : string) : bool := is_empty (trim s).

Fixpoint check_steps (agents : list (string * AgentSpec)) (seen : gset string) (steps : list WfStep)
    : list string :=
  match steps with
  | [] => []
  | s :: steps =>
      let '(ids, seen) :=
        if blank (st_id s) then ([EMPTY_STEP_ID], seen)
        else if bool_decide (st_id s ∈ seen) then ([duplicate_message (st_id s)], seen)
        else ([], {[st_id s]} ∪ seen) in
      ids ++ (if contains_key (st_agent s) agents then [] else [agent_message s])
          ++ check_steps agents seen steps
  end.

Definition spec_errors (spec : Spec) : list string :=
  (if (sp_version spec =? SPEC_VERSION)%N then [] else [version_message (sp_version spec)])
  ++ (match sp_workflow spec with [] => [NO_STEPS] | _ => [] end)
  ++ check_steps (sp_agents spec) ∅ (sp_workflow spec).

Definition validate_spec (spec : Spec) : result () (list string) :=
  match spec_errors spec with [] => Ok () | errors => Err errors end.

(** The providers of the aliases the steps name. *)
Definition step_providers (spec : Spec) : gset string :=
  list_to_set (omap (fun s => ag_base <$> get (st_agent s) (sp_agents spec)) (sp_workflow spec)).

(** ** The blackboard's verdict *)

Inductive VerdictResult := VerdictDone | VerdictRevise | VerdictBlocked.

Record Verdict := {
  vd_result : VerdictResult;
  vd_summary : string;
  vd_detail : option string;
  vd_target : option string;
}.

Inductive VerdictError := VerdictMissing | VerdictMalformed (cause : string).

(** [PathBuf::join] of a relative component. *)
Definition path_join (base component : string) : string :=
  if is_empty base || (match rev (String.list_ascii_of_string base) with
                       | c :: _ => Ascii.eqb c "/" | [] => false end)
  then base +:+ component else base +:+ "/" +:+ component.

Fixpoint has_byte (b : Ascii.ascii) (s : string) : bool :=
  match s with EmptyString => false | String c s => Ascii.eqb b c || has_byte b s end.

Definition unsafe_component (id : string) : bool :=
  is_empty id || String.eqb id "." || String.eqb id ".."
  || has_byte "/" id || has_byte "\" id || has_byte Ascii.zero id.

Definition validate_id (kind id : string) : result () string :=
  if unsafe_component id
  then Err ("invalid path: unsafe workflow " +:+ kind +:+ " id: " +:+ debug_str id)
  else Ok ().

Definition blackboard_dir (run_dir : string) : string := path_join run_dir "blackboard".
Definition export_dir (run_dir : string) : string := path_join run_dir "export".
Definition attachments_path (run_dir : string) : string := path_join run_dir "attachments.json".
Definition run_repo_path (run_dir : string) : string := path_join run_dir "repo".

Definition step_dir (blackboard step_id : string) : result string string :=
  let? _ := validate_id "step" step_id in Ok (path_join blackboard step_id).

(** ** Gates *)

Inductive GateOutcome := GateDone | GateBlocked.
Record GateResult := { gr_outcome : GateOutcome; gr_reason : string }.

Record GateInputs := { gi_verdict : option Verdict; gi_verdict_error : option string }.

Definition summary_or (v : Verdict) (fallback : string) : string :=
  if is_empty (trim (vd_summary v)) then fallback else trim (vd_summary v).

Definition gate_done (reason : string) : GateResult :=
  {| gr_outcome := GateDone; gr_reason := reason |}.
Definition gate_blocked (reason : string) : GateResult :=
  {| gr_outcome := GateBlocked; gr_reason := reason |}.

Definition evaluate_verdict (inputs : GateInputs) : GateResult :=
  match gi_verdict inputs with
  | Some v =>
      match vd_result v with
      | VerdictDone => gate_done ("verdict.json result is " +:+ dq +:+ "done" +:+ dq)
      | VerdictRevise =>
          gate_blocked ("verdict.json result is " +:+ dq +:+ "revise" +:+ dq +:+ ": "
            +:+ summary_or v "no summary")
      | VerdictBlocked =>
          gate_blocked ("verdict.json result is " +:+ dq +:+ "blocked" +:+ dq +:+ ": "
            +:+ summary_or v "no summary")
      end
  | None =>
      gate_blocked (match gi_verdict_error inputs with
                    | Some e => "verdict.json unreadable: " +:+ e
                    | None => "verdict.json not written yet"
                    end)
  end.

Definition evaluate (gate : Gate) (inputs : GateInputs) : GateResult :=
  match gate with
  | GateVerdict => evaluate_verdict inputs
  | GateCommit => gate_done "the turn ended; its work is in the boundary commit"
  end.

Definition gate_mode (gate : Gate) : string :=
  match gate with GateVerdict => "verdict" | GateCommit => "commit" end.

(** ** The step prompt *)

Record StepPromptCtx := {
  pc_run_task : string;
  pc_attachments : list string;
  pc_step_id : string;
  pc_step_goal : string;
  pc_step_index : nat;
  pc_step_count : nat;
  pc_gate : Gate;
}.

Definition nl2 : string := newline +:+ newline.

Definition verdict_schema_block : string :=
  "`verdict.json` schema:" +:+ nl2
  +:+ "```json" +:+ newline
  +:+ "{" +:+ newline
  +:+ "  " +:+ dq +:+ "result" +:+ dq +:+ ": " +:+ dq +:+ "done" +:+ dq +:+ " | "
    +:+ dq +:+ "revise" +:+ dq +:+ " | " +:+ dq +:+ "blocked" +:+ dq +:+ "," +:+ newline
  +:+ "  " +:+ dq +:+ "summary" +:+ dq +:+ ": " +:+ dq
    +:+ "one-line handoff for the timeline and the next step" +:+ dq +:+ "," +:+ newline
  +:+ "  " +:+ dq +:+ "detail" +:+ dq +:+ ": " +:+ dq
    +:+ "optional; e.g. structured feedback" +:+ dq +:+ "," +:+ newline
  +:+ "  " +:+ dq +:+ "target" +:+ dq +:+ ": " +:+ dq
    +:+ "optional step-id (revise only)" +:+ dq +:+ newline
  +:+ "}" +:+ newline
  +:+ "```" +:+ newline.

Definition blackboard_contract (step_id : string) : string :=
  "## Blackboard" +:+ nl2
  +:+ "A shared blackboard directory is available at the path in the "
  +:+ "`WF_BLACKBOARD` environment variable. Use it to hand work off:" +:+ nl2
  +:+ "- **Read** prior steps' notes under `<step-id>/handoff.md` and any "
  +:+ "`verdict.json` they left, plus anything in `shared/`." +:+ newline
  +:+ "- **Write** your own handoff into `" +:+ step_id +:+ "/handoff.md` (free-form "
  +:+ "notes for the steps after you)." +:+ newline
  +:+ "- **Write** your completion signal into `" +:+ step_id +:+ "/verdict.json`." +:+ newline
  +:+ "- You may use `shared/` for cross-step scratch space. Only write inside "
  +:+ "your own `" +:+ step_id +:+ "/` directory and `shared/`." +:+ nl2
  +:+ verdict_schema_block.

Definition gate_statement (gate : Gate) : string :=
  match gate with
  | GateVerdict =>
      "You are done when you write `verdict.json` with `result` set to " +:+ dq +:+ "done" +:+ dq +:+ "."
  | GateCommit => "You are done when you have made at least one git commit in this repository."
  end.

Definition attached_files (paths : list string) : string :=
  match paths with
  | [] => ""
  | _ =>
      "## Attached files" +:+ nl2
      +:+ "Files attached to the task — read them as needed:" +:+ nl2
      +:+ foldr (fun path s => "Attached file: " +:+ path +:+ newline +:+ s) "" paths
      +:+ newline
  end.

Definition step_prompt (ctx : StepPromptCtx) : string :=
  "# Workflow step" +:+ nl2
  +:+ "You are one step in an automated workflow. Complete the goal below, "
  +:+ "leave handoff notes for the steps that follow, and signal completion "
  +:+ "exactly as the gate requires." +:+ nl2
  +:+ "## The overall task" +:+ nl2
  +:+ trim (pc_run_task ctx) +:+ nl2
  +:+ attached_files (pc_attachments ctx)
  +:+ "## Your step" +:+ nl2
  +:+ "This is step " +:+ show_nat (S (pc_step_index ctx)) +:+ " of "
    +:+ show_nat (pc_step_count ctx) +:+ "." +:+ nl2
  +:+ trim (pc_step_goal ctx) +:+ nl2
  +:+ blackboard_contract (pc_step_id ctx) +:+ newline
  +:+ "## Done when" +:+ nl2
  +:+ gate_statement (pc_gate ctx) +:+ nl2.

(** ** Refs and branches *)

Definition step_ref (step_exec_id : string) : string := "refs/wf/steps/" +:+ step_exec_id.

Definition is_branch_byte (c : Ascii.ascii) : bool :=
  is_ascii_alphanumeric c || lcontains ["/"; "-"; "_"; "."]%char c.

Definition is_run_branch (b : string) : bool :=
  starts_with "wf/" b && (String.length b <=? 200)%nat && negb (contains ".." b)
  && all_bytes is_branch_byte b.

(** One character of a slug: an ASCII letter or digit in lower case, anything else a dash. *)
Definition slug_char (c : string) : string :=
  match c with
  | String b EmptyString => if is_ascii_alphanumeric b then String (lower_byte b) "" else "-"
  | _ => "-"
  end.

(** One [s.replace("--", "-")]: left to right, without overlap. *)
Fixpoint halve_dashes (s : string) : string :=
  match s with
  | String a (String b s' as t) =>
      if Ascii.eqb a "-" && Ascii.eqb b "-" then String "-" (halve_dashes s')
      else String a (halve_dashes t)
  | s => s
  end.

(** [while s.contains("--")]; each pass is shorter, so the length is enough fuel. *)
Fixpoint collapse (fuel : nat) (s : string) : string :=
  match fuel with
  | O => s
  | S fuel => if contains "--" s then collapse fuel (halve_dashes s) else s
  end.

Definition is_dash (c : string) : bool := String.eqb c "-".
Definition trim_dashes (s : string) : string :=
  trim_end_by is_dash (unchars (drop_while is_dash (chars s))).

Definition slugify (name : string) : string :=
  let s := unchars (slug_char <$> chars name) in
  let s := trim_dashes (collapse (String.length s) s) in
  if is_empty s then "run" else unchars (take 40 (chars s)).

(** [&run_id[run_id.len() - 8..]]. *)
Definition last_bytes (n : nat) (s : string) : string :=
  String.substring (String.length s - n) n s.

Definition run_branch (name run_id : string) : string :=
  "wf/" +:+ slugify name +:+ "-" +:+ last_bytes 8 run_id.

(** ** Paging *)

Definition MAX_EVENTS_PAGE : Z := 1000.

Definition page_bounds (after_seq limit : Z) : Z * Z :=
  (Z.max after_seq 0, Z.min (Z.max limit 1) MAX_EVENTS_PAGE).

(** ** Lemmas on bytes *)

Lemma contains_true n s : contains n s = true <-> exists a b, s = a +:+ n +:+ b.
Proof.
  induction s as [|c s IH]; simpl; rewrite orb_true_iff, starts_with_true.
  - split; [intros [(r & Hr)|?]; [exists "", r; exact Hr|done]|].
    intros (a & b & Hs). left. exists b. destruct a; [exact Hs|discriminate].
  - rewrite IH. split.
    + intros [(r & Hr)|(a & b & ->)]; [by exists "", r|]. by exists (String c a), b.
    + intros (a & b & Hs). destruct a as [|c' a]; [left; by exists b|].
      right. injection Hs as -> ->. by exists a, b.
Qed.

Lemma all_bytes_unchars p l : all_bytes p (unchars l) = forallb (all_bytes p) l.
Proof. induction l as [|c l IH]; [done|]. unfold unchars. simpl. rewrite all_bytes_app. by f_equal. Qed.

Lemma all_bytes_sub p (l l' : list string) :
  l' ⊆ l -> all_bytes p (unchars l) = true -> all_bytes p (unchars l') = true.
Proof. rewrite !all_bytes_unchars, !forallb_forall. intros Hs H x Hx. apply H, list_elem_of_In, Hs. by apply list_elem_of_In. Qed.

Lemma drop_while_subset {A} (p : A -> bool) l : drop_while p l ⊆ l.
Proof. destruct (drop_while_suffix p l) as (n & ->). apply subseteq_drop. Qed.

(** ** Slugs *)

Definition is_slug_byte (c : Ascii.ascii) : bool := is_ascii_alphanumeric c || Ascii.eqb c "-".

Lemma slug_byte_branch c : is_slug_byte c = true -> is_branch_byte c = true.
Proof.
  unfold is_slug_byte, is_branch_byte. rewrite !orb_true_iff. intros [?| ->%Ascii.eqb_eq]; [by left|].
  by right.
Qed.

Lemma slug_char_bytes c : all_bytes is_slug_byte (slug_char c) = true /\ String.length (slug_char c) = 1%nat.
Proof.
  destruct c as [|b [|b' c]]; [done| |done]. simpl. destruct (is_ascii_alphanumeric b) eqn:E; [|done].
  split; [|done]. simpl. destruct b as [[] [] [] [] [] [] [] []]; vm_compute in E |- *; congruence.
Qed.

Lemma slug_chars_bytes l : all_bytes is_slug_byte (unchars (slug_char <$> l)) = true.
Proof.
  rewrite all_bytes_unchars. apply forallb_forall. intros x Hx. apply list_elem_of_In in Hx.
  apply list_elem_of_fmap in Hx as (c & -> & _). apply slug_char_bytes.
Qed.

(** Two-step induction on strings, for [halve_dashes]. *)
Lemma string_ind2 (P : string -> Prop) :
  P "" -> (forall a, P (String a "")) ->
  (forall a b s, P s -> P (String b s) -> P (String a (String b s))) -> forall s, P s.
Proof.
  intros H0 H1 H2 s. enough (P s /\ forall a, P (String a s)) by naive_solver.
  induction s as [|b s [IH IH']]; [done|]. split; [apply IH'|]. intros a. apply H2; [done|]. apply IH'.
Qed.

Lemma halve_cons2 a b s :
  halve_dashes (String a (String b s)) =
  if Ascii.eqb a "-" && Ascii.eqb b "-" then String "-" (halve_dashes s)
  else String a (halve_dashes (String b s)).
Proof. reflexivity. Qed.

Lemma halve_bytes p s : all_bytes p s = true -> all_bytes p (halve_dashes s) = true.
Proof.
  induction s as [|a|a b s IH IH'] using string_ind2; [done|done|]. rewrite halve_cons2.
  destruct (Ascii.eqb a "-" && Ascii.eqb b "-") eqn:E.
  - apply andb_true_iff in E as [->%Ascii.eqb_eq _]. simpl. rewrite !andb_true_iff. intuition.
  - intros (Ha & Hs)%andb_true_iff. cbn [all_bytes]. apply andb_true_iff. split; [exact Ha|].
    exact (IH' Hs).
Qed.

Lemma halve_shorter s :
  String.length (halve_dashes s) <= String.length s /\
  (contains "--" s = true -> String.length (halve_dashes s) < String.length s).
Proof.
  induction s as [|a|a b s IH IH'] using string_ind2; [done| |].
  { split; [done|]. by destruct a as [[] [] [] [] [] [] [] []]. }
  rewrite halve_cons2. destruct (Ascii.eqb a "-" && Ascii.eqb b "-") eqn:E; [simpl; split; [lia|intros _; lia]|].
  destruct IH' as [Hle Hlt]. set (t := String b s) in *. cbn [String.length]. split; [lia|].
  intros Hc. enough (contains "--" t = true) as Hs by (specialize (Hlt Hs); lia).
  change (starts_with "--" (String a t) || contains "--" t = true) in Hc. apply orb_true_iff in Hc as [Hc|Hc]; [|exact Hc].
  apply starts_with_true in Hc as (r & Hr). exfalso. rewrite !append_cons, append_nil in Hr.
  injection Hr as -> -> _. discriminate E.
Qed.

(** The loop ends with no double dash left. *)
Lemma collapse_no_double fuel s :
  String.length s <= fuel -> contains "--" (collapse fuel s) = false.
Proof.
  revert s. induction fuel as [|fuel IH]; intros s Hs.
  - destruct s; [done|simpl in Hs; lia].
  - simpl. destruct (contains "--" s) eqn:E; [|done]. apply IH.
    pose proof (proj2 (halve_shorter s) E). lia.
Qed.

Lemma collapse_bytes p fuel s : all_bytes p s = true -> all_bytes p (collapse fuel s) = true.
Proof.
  revert s. induction fuel as [|fuel IH]; intros s Hs; [done|]. simpl.
  destruct (contains "--" s); [|done]. by apply IH, halve_bytes.
Qed.

Lemma trim_dashes_bytes p s : all_bytes p s = true -> all_bytes p (trim_dashes s) = true.
Proof.
  intros Hs. unfold trim_dashes, trim_end_by.
  assert (Hd : all_bytes p (unchars (drop_while is_dash (chars s))) = true).
  { eapply all_bytes_sub; [apply drop_while_subset|]. by rewrite unchars_chars. }
  revert Hd. generalize (unchars (drop_while is_dash (chars s))). intros t Ht.
  eapply (all_bytes_sub _ (chars t)); [|by rewrite unchars_chars].
  intros x Hx. apply list_elem_of_In, in_rev, list_elem_of_In, drop_while_subset, list_elem_of_In in Hx.
  apply list_elem_of_In, in_rev, Hx.
Qed.

Lemma all_bytes_length s : all_bytes is_slug_byte s = true -> String.length s = char_count s.
Proof.
  induction s as [|b s IH]; [done|]. cbn [all_bytes]. intros (Hb & Hs)%andb_true_iff.
  rewrite char_count_cons, <- (IH Hs). simpl.
  destruct s as [|b' s]; [done|]. cbn [all_bytes] in Hs. apply andb_true_iff in Hs as [Hb' _].
  cbn [starts_cont]. replace (is_cont b') with false; [done|].
  destruct b' as [[] [] [] [] [] [] [] []]; vm_compute in Hb' |- *; congruence.
Qed.

Lemma slug_untrimmed_bytes name :
  all_bytes is_slug_byte (trim_dashes (collapse (String.length (unchars (slug_char <$> chars name)))
    (unchars (slug_char <$> chars name)))) = true.
Proof. apply trim_dashes_bytes, collapse_bytes, slug_chars_bytes. Qed.

Lemma slugify_bytes name :
  all_bytes is_slug_byte (slugify name) = true /\ String.length (slugify name) <= 40.
Proof.
  unfold slugify. pose proof (slug_untrimmed_bytes name) as Hb. revert Hb.
  generalize (trim_dashes (collapse (String.length (unchars (slug_char <$> chars name)))
    (unchars (slug_char <$> chars name)))).
  intros s Hb. destruct (is_empty s); [by split; [|simpl; lia]|].
  assert (Ht : all_bytes is_slug_byte (unchars (take 40 (chars s))) = true).
  { eapply all_bytes_sub; [apply subseteq_take|]. by rewrite unchars_chars. }
  split; [done|]. rewrite (all_bytes_length _ Ht). apply char_count_take.
Qed.

Lemma substring_bytes p n m s :
  all_bytes p s = true -> all_bytes p (String.substring n m s) = true /\ String.length (String.substring n m s) <= m.
Proof.
  revert n m. induction s as [|c s IH]; intros n m Hs.
  - destruct n, m; simpl; split; (done || lia).
  - cbn [all_bytes] in Hs. apply andb_true_iff in Hs as [Hc Hs]. destruct n as [|n], m as [|m]; simpl.
    + split; [done|lia].
    + destruct (IH 0%nat m Hs) as [H1 H2]. rewrite Hc. split; [done|lia].
    + apply (IH n 0%nat Hs).
    + apply (IH n (S m) Hs).
Qed.

(** Whatever a workflow is called, the branch a run of it is launched with is one the run may
    push: the slug of any name keeps to the branch alphabet, so a launched run is never refused
    its own branch. *)
Theorem launch_branch_pushable name run_id :
  all_bytes is_slug_byte run_id = true -> is_run_branch (run_branch name run_id) = true.
Proof.
  intros Hid. destruct (slugify_bytes name) as [Hs Hl].
  destruct (substring_bytes is_slug_byte (String.length run_id - 8) 8 run_id Hid) as [Hr Hrl].
  fold (last_bytes 8 run_id) in Hr, Hrl. unfold is_run_branch, run_branch.
  set (q c := is_slug_byte c || Ascii.eqb c "/").
  assert (Hq : all_bytes q ("wf/" +:+ slugify name +:+ "-" +:+ last_bytes 8 run_id) = true).
  { rewrite !all_bytes_app, !andb_true_iff.
    repeat split; try done; (eapply all_bytes_impl; [|eassumption]); unfold q; intros c ->; done. }
  rewrite !andb_true_iff. split_and!.
  - apply starts_with_true. eauto.
  - apply Nat.leb_le. rewrite !length_append. simpl. lia.
  - apply negb_true_iff. destruct (contains ".." _) eqn:E; [|done].
    apply contains_true in E as (a & b & E). rewrite E, !all_bytes_app in Hq.
    rewrite !andb_true_iff in Hq. destruct Hq as (_ & Hd & _). discriminate Hd.
  - eapply all_bytes_impl; [|exact Hq]. unfold q. intros c [Hc| ->%Ascii.eqb_eq]%orb_true_iff; [by apply slug_byte_branch|done].
Qed.

Lemma launch_branch_pushable_witness :
  run_branch "Fix — & ship!!" "run-0123456789abcdef" = "wf/fix-ship-89abcdef" /\
  is_run_branch (run_branch "Fix — & ship!!" "run-0123456789abcdef") = true.
Proof. split; [vm_compute; reflexivity|]. apply (launch_branch_pushable "Fix — & ship!!"). vm_compute. reflexivity. Defined.

(** The readable part of a branch: never empty, at most forty characters, without a double dash
    before the cut. *)
Lemma slugify_bounds name : slugify name <> "" /\ char_count (slugify name) <= 40.
Proof.
  split.
  - unfold slugify. set (s := trim_dashes _). destruct (is_empty s) eqn:E; [done|].
    assert (Hs : s <> "") by (intros Hs; rewrite Hs in E; discriminate E).
    pose proof (chars_head s) as Hc. destruct (chars s) as [|c l]; [by destruct Hs|].
    destruct Hc as [_ Hc]. unfold unchars. simpl. destruct c; [done|discriminate].
  - destruct (slugify_bytes name) as [Hb Hl]. by rewrite <- all_bytes_length.
Qed.

(** ** Validation *)

(** A defect of a spec and the message that names it. *)
Inductive violation (spec : Spec) : string -> Prop :=
| ViVersion : sp_version spec <> SPEC_VERSION -> violation spec (version_message (sp_version spec))
| ViNoSteps : sp_workflow spec = [] -> violation spec NO_STEPS
| ViEmptyId s : s ∈ sp_workflow spec -> blank (st_id s) = true -> violation spec EMPTY_STEP_ID
| ViDuplicate l1 s l2 s' :
    sp_workflow spec = l1 ++ s :: l2 -> s' ∈ l1 -> st_id s' = st_id s -> blank (st_id s) = false ->
    violation spec (duplicate_message (st_id s))
| ViAgent s : s ∈ sp_workflow spec -> get (st_agent s) (sp_agents spec) = None ->
    violation spec (agent_message s).

(** The ids taken after a step, and the steps' violations one step at a time. *)
Definition mark_seen (seen : gset string) (s : WfStep) : gset string :=
  if blank (st_id s) then seen else {[st_id s]} ∪ seen.

Lemma check_steps_cons agents seen s steps e :
  e ∈ check_steps agents seen (s :: steps) <->
  (blank (st_id s) = true /\ e = EMPTY_STEP_ID) \/
  (blank (st_id s) = false /\ st_id s ∈ seen /\ e = duplicate_message (st_id s)) \/
  (get (st_agent s) agents = None /\ e = agent_message s) \/
  e ∈ check_steps agents (mark_seen seen s) steps.
Proof.
  assert (Hag : e ∈ (if contains_key (st_agent s) agents then [] else [agent_message s]) <->
                get (st_agent s) agents = None /\ e = agent_message s).
  { unfold contains_key. destruct (get _ _); simpl; rewrite ?elem_of_nil, ?list_elem_of_singleton; naive_solver. }
  cbn [check_steps]. unfold mark_seen. destruct (blank (st_id s)).
  - rewrite !elem_of_app, Hag, list_elem_of_singleton. naive_solver.
  - case_bool_decide as Hs; rewrite !elem_of_app, Hag.
    + rewrite list_elem_of_singleton. replace ({[st_id s]} ∪ seen) with seen by set_solver. naive_solver.
    + rewrite elem_of_nil. naive_solver.
Qed.

Lemma elem_of_mark_seen id seen s :
  id ∈ mark_seen seen s <-> id ∈ seen \/ (blank (st_id s) = false /\ id = st_id s).
Proof. unfold mark_seen. destruct (blank _); set_solver. Qed.

(** The violations of the steps, the ids before them being [seen]. *)
Lemma check_steps_spec agents seen steps e :
  e ∈ check_steps agents seen steps <->
  (exists s, s ∈ steps /\ blank (st_id s) = true /\ e = EMPTY_STEP_ID) \/
  (exists l1 s l2, steps = l1 ++ s :: l2 /\ blank (st_id s) = false /\
     (st_id s ∈ seen \/ exists s', s' ∈ l1 /\ st_id s' = st_id s) /\ e = duplicate_message (st_id s)) \/
  (exists s, s ∈ steps /\ get (st_agent s) agents = None /\ e = agent_message s).
Proof.
  revert seen. induction steps as [|s steps IH]; intros seen.
  { cbn [check_steps]. split; [by intros ?%elem_of_nil|].
    intros [(s & Hs & _)|[(l1 & s & l2 & Hs & _)|(s & Hs & _)]];
      [by apply elem_of_nil in Hs|by destruct l1|by apply elem_of_nil in Hs]. }
  rewrite check_steps_cons, IH. clear IH. split.
  - intros [(Hb & ->)|[(Hb & Hs & ->)|[(Ha & ->)|[(x & Hx & Hb & ->)|[(l1 & x & l2 & -> & Hb & Hd & ->)|(x & Hx & Ha & ->)]]]]].
    + left. exists s. split; [left|done].
    + right; left. exists [], s, steps. auto.
    + right; right. exists s. split; [left|done].
    + left. exists x. split; [by right|done].
    + right; left. exists (s :: l1), x, l2. split; [done|]. split; [done|]. split; [|done].
      rewrite elem_of_mark_seen in Hd. destruct Hd as [[Hd|(_ & Hd)]|(s' & Hs' & He)]; [by left| |].
      * right. exists s. split; [left|done].
      * right. exists s'. split; [by right|done].
    + right; right. exists x. split; [by right|done].
  - intros [(x & Hx & Hb & ->)|[(l1 & x & l2 & Hl & Hb & Hd & ->)|(x & Hx & Ha & ->)]].
    + apply elem_of_cons in Hx as [->|Hx]; [by left|]. do 3 right. left. eauto.
    + destruct l1 as [|s0 l1]; injection Hl as <- ->.
      * destruct Hd as [Hd|(s' & Hs' & _)]; [by right; left|by apply elem_of_nil in Hs'].
      * do 4 right. left. exists l1, x, l2. split; [done|]. split; [done|]. split; [|done].
        rewrite elem_of_mark_seen. destruct Hd as [Hd|(s' & Hs' & He)]; [by left; left|].
        apply elem_of_cons in Hs' as [->|Hs']; [left; right; by rewrite He|right; by exists s'].
    + apply elem_of_cons in Hx as [->|Hx]; [by do 2 right; left|]. do 5 right. eauto.
Qed.

(** Validation reports every defect and nothing else: a message is in the list exactly when
    the spec has the defect it names, so the builder can show all of them at once. *)
Theorem validation_complete spec e : e ∈ spec_errors spec <-> violation spec e.
Proof.
  unfold spec_errors. rewrite !elem_of_app, check_steps_spec. split.
  - intros [He|[He|[(s & Hs & Hb & ->)|[(l1 & s & l2 & Hl & Hb & Hd & ->)|(s & Hs & Ha & ->)]]]].
    + destruct (N.eqb_spec (sp_version spec) SPEC_VERSION); [by apply elem_of_nil in He|].
      apply list_elem_of_singleton in He as ->. by constructor.
    + destruct (sp_workflow spec) eqn:E; [|by apply elem_of_nil in He].
      apply list_elem_of_singleton in He as ->. by constructor.
    + by eapply ViEmptyId.
    + destruct Hd as [Hd|(s' & Hs' & He)]; [by apply elem_of_empty in Hd|]. by eapply ViDuplicate.
    + by eapply ViAgent.
  - intros [Hv|Hw|s Hs Hb|l1 s l2 s' Hl Hs' He Hb|s Hs Ha].
    + left. rewrite (proj2 (N.eqb_neq _ _) Hv). left.
    + right; left. rewrite Hw. left.
    + do 2 right. left. eauto.
    + do 3 right. left. exists l1, s, l2. eauto 8.
    + do 4 right. eauto.
Qed.

(** What a valid spec is, in the terms of the format's documentation. *)
Record valid_spec (spec : Spec) : Prop := {
  vs_version : sp_version spec = SPEC_VERSION;
  vs_steps : sp_workflow spec <> [];
  vs_ids : forall s, s ∈ sp_workflow spec -> blank (st_id s) = false;
  vs_distinct : NoDup (st_id <$> sp_workflow spec);
  vs_agents : forall s, s ∈ sp_workflow spec -> is_Some (get (st_agent s) (sp_agents spec));
}.

Lemma not_NoDup_split {A} (f : A -> string) l :
  ~ NoDup (f <$> l) -> exists l1 x l2 y, l = l1 ++ x :: l2 /\ y ∈ l1 /\ f y = f x.
Proof.
  induction l as [|x l IH] using rev_ind; [intros []; constructor|]. intros Hn.
  destruct (decide (NoDup (f <$> l))) as [Hd|Hd].
  - destruct (decide (f x ∈ f <$> l)) as [Hx|Hx].
    + apply list_elem_of_fmap in Hx as (y & Hy & Hl). by exists l, x, [], y.
    + destruct Hn. rewrite fmap_app. apply NoDup_app. split; [done|]. split; [|apply NoDup_singleton].
      intros z Hz [->|Hz']%elem_of_cons; [done|by apply elem_of_nil in Hz'].
  - destruct (IH Hd) as (l1 & z & l2 & y & -> & Hy & He). exists l1, z, (l2 ++ [x]), y.
    by rewrite <- app_assoc.
Qed.

(** A spec is accepted exactly when it has this build's version, at least one step, non-blank
    and distinct step ids, and every step's agent is defined. *)
Theorem validate_spec_exact spec : validate_spec spec = Ok () <-> valid_spec spec.
Proof.
  assert (Hok : validate_spec spec = Ok () <-> spec_errors spec = []).
  { unfold validate_spec. by destruct (spec_errors spec). }
  rewrite Hok. clear Hok. split.
  - intros He. assert (Hno : forall e, ~ violation spec e).
    { intros e Hv%validation_complete. rewrite He in Hv. by apply elem_of_nil in Hv. }
    split.
    + destruct (decide (sp_version spec = SPEC_VERSION)); [done|]. by destruct (Hno _ (ViVersion _ n)).
    + intros Hw. exact (Hno _ (ViNoSteps _ Hw)).
    + intros s Hs. destruct (blank (st_id s)) eqn:Hb; [|done]. by destruct (Hno _ (ViEmptyId _ _ Hs Hb)).
    + destruct (decide (NoDup (st_id <$> sp_workflow spec))) as [|Hd]; [done|].
      apply not_NoDup_split in Hd as (l1 & x & l2 & y & Hl & Hy & Hxy).
      destruct (blank (st_id x)) eqn:Hb.
      * destruct (Hno EMPTY_STEP_ID). eapply (ViEmptyId _ x); [rewrite Hl; apply elem_of_app; right; left|done].
      * by destruct (Hno _ (ViDuplicate _ _ _ _ _ Hl Hy Hxy Hb)).
    + intros s Hs. destruct (get _ _) eqn:Ha; [by eexists|]. by destruct (Hno _ (ViAgent _ _ Hs Ha)).
  - intros [Hv Hw Hi Hd Ha]. destruct (spec_errors spec) as [|e l] eqn:E; [done|]. exfalso.
    assert (Hve : violation spec e) by (apply validation_complete; rewrite E; left).
    destruct Hve as [Hv'|Hw'|s Hs Hb|l1 s l2 s' Hl Hs' He Hb|s Hs Ha'].
    + done.
    + done.
    + by rewrite Hi in Hb.
    + rewrite Hl, fmap_app in Hd. apply NoDup_app in Hd as (_ & Hd & _). apply (Hd (st_id s')).
      * by apply list_elem_of_fmap_2.
      * rewrite He. left.
    + destruct (Ha _ Hs) as (a & Ha''). congruence.
Qed.

(** ** Gates *)

(** A gate is met exactly when its kind says so: a commit gate as soon as the turn is over,
    a verdict gate only by a readable verdict whose result is done. *)
Theorem gate_met_iff gate inputs :
  gr_outcome (evaluate gate inputs) = GateDone <->
  gate = GateCommit \/ exists v, gi_verdict inputs = Some v /\ vd_result v = VerdictDone.
Proof.
  destruct gate; simpl; [|split; [by left|done]]. unfold evaluate_verdict. split.
  - destruct (gi_verdict inputs) as [v|]; [|done]. destruct (vd_result v) eqn:E; try done. intros _. right. by exists v.
  - intros [?|(v & -> & ->)]; done.
Qed.

(** Paging inputs are always in the window. *)
Lemma page_bounds_window after_seq limit :
  (0 <= (page_bounds after_seq limit).1)%Z /\
  (1 <= (page_bounds after_seq limit).2 <= MAX_EVENTS_PAGE)%Z.
Proof. unfold page_bounds, MAX_EVENTS_PAGE. simpl. lia. Qed.
