(* ===== verification/WfStore.v ===== *)
(** * Workflow runs: tables, journal and row writes

    The tables of the workflow engine with their constraints (migration 0019), the append-only
    journal (journal.rs), the kernel's row writes (runner/store.rs) and the read commands
    (mod.rs), as operations of the connection monad over [WfDb]. The record also carries
    [wf_trace], what the engine did to the world outside its database, in order: events to the
    client, calls to the agents' driver, git commands that leave a mark. *)

From S2P Require Import Prelude RustStr Git Sql Database Queue WfSpec.

Local Open Scope string_scope.
Local Open Scope list_scope.

(** ** Rows *)

Record WfRun := {
  wr_id : string;
  wr_definition_id : option string;
  wr_name : string;
  wr_spec_json : string;
  wr_task : string;
  wr_project_id : string;
  wr_repo_path : string;
  wr_run_dir : string;
  wr_branch : string;
  wr_base_sha : string;
  wr_base_branch : string;
  wr_status : string;
  wr_error : option string;
  wr_pr_number : option Z;
  wr_pr_url : option string;
  wr_issue_ref : option string;
  wr_roadmap_item_id : option string;
  wr_created_at : Z;
  wr_updated_at : Z;
}.

Record StepExec := {
  se_id : string;
  se_run_id : string;
  se_step_id : string;
  se_attempt : Z;
  se_iteration : Z;
  se_agent_id : option string;
  se_status : string;
  se_gate_mode : string;
  se_head_start : option string;
  se_head_end : option string;
  se_verdict : option string;
  se_error : option string;
  se_started_at : option Z;
  se_ended_at : option Z;
}.

(** A payload, as the JSON the source builds with [json!]. *)
Inductive Json := JNull | JStr (s : string) | JList (l : list string) | JObj (fields : list (string * Json)).

Record WfEvent := {
  we_run_id : string;
  we_seq : Z;
  we_ts : Z;
  we_step_exec_id : option string;
  we_type : string;
  we_payload : Json;
}.

(** Rows of the local library, as far as a spawn reads them. *)
Record CustomAgentRow := {
  ca_skill_ids : string;
  ca_mcp_server_ids : string;
  ca_effort : option string;
  ca_model : option string;
  ca_instructions : string;
}.
Record SkillSnapshot := { sk_name : string; sk_description : string; sk_body : string }.
Record SkillRow := { sr_id : string; sr_snapshot : SkillSnapshot }.
Record McpServerRow := {
  ms_id : string; ms_name : string; ms_transport : string; ms_command : string;
  ms_env : string; ms_url : string; ms_headers : string;
}.
Record McpServerSnapshot := {
  mc_name : string; mc_transport : string; mc_command : string; mc_args : list string;
  mc_env : list (string * string); mc_url : string; mc_headers : list (string * string);
}.

(** What the kernel asks the driver for. *)
Record SpawnReq := {
  sq_repo_path : string;
  sq_provider : string;
  sq_model : option string;
  sq_effort : option string;
  sq_instructions : option string;
  sq_custom_agent_id : option string;
  sq_skills : list SkillSnapshot;
  sq_mcp_servers : list McpServerSnapshot;
  sq_fork_base : option string;
  sq_owner_run_id : string;
  sq_existing_workspace : option string;
}.

(** What a subscription to status transitions receives. [Lagged] carries the authoritative status
    read in answer to it. *)
Inductive Recv := Transition (agent : string) (status : AgentStatus) | Lagged (now : option AgentStatus) | Closed.

(** An effect outside the database. [SpawnAgent] names the agent a completed spawn returned;
    [Heard] is no effect but an observation: what the subscription delivered while the turn of an
    agent was awaited. *)
Inductive Act :=
| EmitEvent (run_id : string) (seq : Z) (type : string) (step_exec_id : option string)
| EmitRun (run : WfRun)
| EmitRunDeleted (run_id : string)
| SpawnAgent (req : SpawnReq) (agent : string)
| SendMessage (agent text : string)
| Heard (agent : string) (received : list Recv)
| StopAgent (agent : string)
| ArchiveAgent (agent : string)
| Checkout (rev : string)
| Commit (message : string)
| UpdateRef (ref target : string)
| PushBranch (branch : string) (commit : string)
| OpenPr (branch title body base : string).

Record WfDb := {
  wf_runs : list WfRun;
  wf_execs : list StepExec;
  wf_journal : list WfEvent;
  wf_agents : gmap string CustomAgentRow;
  wf_skills : list SkillRow;
  wf_servers : list McpServerRow;
  wf_project_settings : gmap (string * string) string;
  wf_trace : list Act;
}.

Definition set_runs f (d : WfDb) : WfDb := {|
  wf_runs := f (wf_runs d); wf_execs := wf_execs d; wf_journal := wf_journal d;
  wf_agents := wf_agents d; wf_skills := wf_skills d; wf_servers := wf_servers d;
  wf_project_settings := wf_project_settings d; wf_trace := wf_trace d |}.
Definition set_execs f (d : WfDb) : WfDb := {|
  wf_runs := wf_runs d; wf_execs := f (wf_execs d); wf_journal := wf_journal d;
  wf_agents := wf_agents d; wf_skills := wf_skills d; wf_servers := wf_servers d;
  wf_project_settings := wf_project_settings d; wf_trace := wf_trace d |}.
Definition set_journal f (d : WfDb) : WfDb := {|
  wf_runs := wf_runs d; wf_execs := wf_execs d; wf_journal := f (wf_journal d);
  wf_agents := wf_agents d; wf_skills := wf_skills d; wf_servers := wf_servers d;
  wf_project_settings := wf_project_settings d; wf_trace := wf_trace d |}.
Definition set_trace f (d : WfDb) : WfDb := {|
  wf_runs := wf_runs d; wf_execs := wf_execs d; wf_journal := wf_journal d;
  wf_agents := wf_agents d; wf_skills := wf_skills d; wf_servers := wf_servers d;
  wf_project_settings := wf_project_settings d; wf_trace := f (wf_trace d) |}.

(** ** Columns *)

Definition is_run (id : string) (r : WfRun) : bool := String.eqb (wr_id r) id.
Definition is_exec (id : string) (e : StepExec) : bool := String.eqb (se_id e) id.

Definition find_wf_run (d : WfDb) (id : string) : option WfRun := lfind (is_run id) (wf_runs d).
Definition find_exec (d : WfDb) (id : string) : option StepExec := lfind (is_exec id) (wf_execs d).

(** The journal of one run, in insertion order. *)
Definition events_of (d : WfDb) (run_id : string) : list WfEvent :=
  lfilter (fun e => String.eqb (we_run_id e) run_id) (wf_journal d).

Definition with_status (status : string) (error : option string) (now : Z) (r : WfRun) : WfRun := {|
  wr_id := wr_id r; wr_definition_id := wr_definition_id r; wr_name := wr_name r;
  wr_spec_json := wr_spec_json r; wr_task := wr_task r; wr_project_id := wr_project_id r;
  wr_repo_path := wr_repo_path r; wr_run_dir := wr_run_dir r; wr_branch := wr_branch r;
  wr_base_sha := wr_base_sha r; wr_base_branch := wr_base_branch r; wr_status := status;
  wr_error := error; wr_pr_number := wr_pr_number r; wr_pr_url := wr_pr_url r;
  wr_issue_ref := wr_issue_ref r; wr_roadmap_item_id := wr_roadmap_item_id r;
  wr_created_at := wr_created_at r; wr_updated_at := now |}.

Definition with_pr (number : option Z) (url : string) (r : WfRun) : WfRun := {|
  wr_id := wr_id r; wr_definition_id := wr_definition_id r; wr_name := wr_name r;
  wr_spec_json := wr_spec_json r; wr_task := wr_task r; wr_project_id := wr_project_id r;
  wr_repo_path := wr_repo_path r; wr_run_dir := wr_run_dir r; wr_branch := wr_branch r;
  wr_base_sha := wr_base_sha r; wr_base_branch := wr_base_branch r; wr_status := wr_status r;
  wr_error := wr_error r; wr_pr_number := number; wr_pr_url := Some url;
  wr_issue_ref := wr_issue_ref r; wr_roadmap_item_id := wr_roadmap_item_id r;
  wr_created_at := wr_created_at r; wr_updated_at := wr_updated_at r |}.

Definition with_spawned (agent_id : string) (now : Z) (e : StepExec) : StepExec := {|
  se_id := se_id e; se_run_id := se_run_id e; se_step_id := se_step_id e;
  se_attempt := se_attempt e; se_iteration := se_iteration e; se_agent_id := Some agent_id;
  se_status := "running"; se_gate_mode := se_gate_mode e; se_head_start := se_head_start e;
  se_head_end := se_head_end e; se_verdict := se_verdict e; se_error := se_error e;
  se_started_at := Some now; se_ended_at := se_ended_at e |}.

Definition with_finished (status : string) (head_end : option string) (now : Z) (e : StepExec)
    : StepExec := {|
  se_id := se_id e; se_run_id := se_run_id e; se_step_id := se_step_id e;
  se_attempt := se_attempt e; se_iteration := se_iteration e; se_agent_id := se_agent_id e;
  se_status := status; se_gate_mode := se_gate_mode e; se_head_start := se_head_start e;
  se_head_end := head_end; se_verdict := se_verdict e; se_error := se_error e;
  se_started_at := se_started_at e; se_ended_at := Some now |}.

(** Rows matching [p], rewritten. *)
Definition update_where {A} (p : A -> bool) (f : A -> A) (l : list A) : list A :=
  (fun x => if p x then f x else x) <$> l.

(** ** The journal *)

(** What serde and rusqlite decide about a row's text: the error of parsing it as JSON, if any, and
    rusqlite's text for a column that does not decode. *)
Class Codec := {
  json_error : string -> option string;
  conversion_error : string -> string;
  (** [serde_json::from_str::<Vec<String>>]. *)
  parse_ids : string -> result (list string) string;
}.

Section Ops.
Context `{World}.

Definition act (a : Act) : M WfDb () := fun c =>
  (Ok (), {| c_db := set_trace (fun t => t ++ [a]) (c_db c); c_tick := S (c_tick c) |}).

(** [INSERT INTO wf_event]: the run must exist and [(run_id, seq)] be new. *)
Definition insert_event (ev : WfEvent) : M WfDb () :=
  sql (fun d =>
    if negb (existsb (is_run (we_run_id ev)) (wf_runs d)) then Err FOREIGN_KEY_FAILED
    else if existsb (fun e => String.eqb (we_run_id e) (we_run_id ev) && (we_seq e =? we_seq ev)%Z) (wf_journal d)
    then Err UNIQUE_FAILED
    else Ok ((), set_journal (fun l => l ++ [ev]) d)).

Definition next_seq (d : WfDb) (run_id : string) : Z := (max_or 0 (we_seq <$> events_of d run_id) + 1)%Z.

Definition append (run_id event_type : string) (step_exec_id : option string) (payload : Json)
    : M WfDb WfEvent :=
  let* seq := query (fun d => next_seq d run_id) in
  let* ts := now_millis in
  let ev := {| we_run_id := run_id; we_seq := seq; we_ts := ts; we_step_exec_id := step_exec_id;
               we_type := event_type; we_payload := payload |} in
  let* _ := insert_event ev in
  ret ev.

Definition emit_event (ev : WfEvent) : M WfDb () :=
  act (EmitEvent (we_run_id ev) (we_seq ev) (we_type ev) (we_step_exec_id ev)).

Definition journal_event (run_id event_type : string) (step_exec_id : option string) (payload : Json)
    : M WfDb () :=
  let* r := attempt (append run_id event_type step_exec_id payload) in
  match r with Ok ev => emit_event ev | Err _ => ret () end.

Context `{Codec}.

(** [Run::from_row]: the columns that can fail to decode. *)
Definition decode_run (r : WfRun) : result WfRun string :=
  match json_error (wr_spec_json r) with
  | Some e => Err (conversion_error ("spec_json: " +:+ e))
  | None =>
      if is_none (run_status_from_db (wr_status r))
      then Err (conversion_error ("status: unexpected value " +:+ debug_str (wr_status r)))
      else Ok r
  end.

Definition emit_run_row (run_id : string) : M WfDb () :=
  let* r := attempt (let* o := query (fun d => find_wf_run d run_id) in
                     let* row := require_some NO_ROWS o in lift (decode_run row)) in
  match r with Ok run => act (EmitRun run) | Err _ => ret () end.

Definition set_status (run_id status : string) (error : option string) : M WfDb () :=
  let* now := now_millis in
  let* _ := attempt (execute (set_runs (update_where (is_run run_id) (with_status status error now)))) in
  emit_run_row run_id.

Definition RUN_FAILED_EVENT : string := "run_failed".

Definition fail_run (run_id error : string) : M WfDb () :=
  let* _ := journal_event run_id RUN_FAILED_EVENT None (JObj [("error", JStr error)]) in
  set_status run_id "failed" (Some error).

(** ** The kernel's rows *)

Definition load_run (run_id : string) : M WfDb WfRun := fun c =>
  match (let* o := query (fun d => find_wf_run d run_id) in require_some NO_ROWS o) c with
  | (Ok r, c) => (Ok r, c)
  | (Err e, c) => (Err ("run " +:+ run_id +:+ " not found: " +:+ e), c)
  end.

Definition set_pr (run_id : string) (number : option Z) (url : string) : M WfDb () :=
  let* _ := attempt (execute (set_runs (update_where (is_run run_id) (with_pr number url)))) in
  emit_run_row run_id.

Definition new_exec (id run_id step_id : string) (attempt_ iteration : Z) (gate_mode : string) : StepExec := {|
  se_id := id; se_run_id := run_id; se_step_id := step_id; se_attempt := attempt_;
  se_iteration := iteration; se_agent_id := None; se_status := "spawning";
  se_gate_mode := gate_mode; se_head_start := None; se_head_end := None; se_verdict := None;
  se_error := None; se_started_at := None; se_ended_at := None |}.

(** [INSERT INTO wf_step_exec]: a new id, for a run that exists. *)
Definition insert_exec (e : StepExec) : M WfDb () :=
  sql (fun d =>
    if negb (existsb (is_run (se_run_id e)) (wf_runs d)) then Err FOREIGN_KEY_FAILED
    else if existsb (is_exec (se_id e)) (wf_execs d) then Err UNIQUE_FAILED
    else Ok ((), set_execs (fun l => l ++ [e]) d)).

Definition create_step_exec (id run_id step_id : string) (attempt_ iteration : Z) (gate_mode : string)
    : M WfDb () :=
  let* _ := attempt (insert_exec (new_exec id run_id step_id attempt_ iteration gate_mode)) in ret ().

Definition stamp_spawned (exec_id agent_id : string) : M WfDb () :=
  let* now := now_millis in
  let* _ := attempt (execute (set_execs (update_where (is_exec exec_id) (with_spawned agent_id now)))) in
  ret ().

Definition finish_step_exec (id status : string) (head_end : option string) : M WfDb () :=
  let* now := now_millis in
  let* _ := attempt (execute (set_execs (update_where (is_exec id) (with_finished status head_end now)))) in
  ret ().

Definition abandon_exec (run_id exec_id cause : string) : M WfDb () :=
  let* now := now_millis in
  let* _ := attempt (execute (set_execs (update_where (is_exec exec_id)
              (fun e => with_finished "abandoned" (se_head_end e) now e)))) in
  journal_event run_id "attempt_abandoned" (Some exec_id) (JObj [("cause", JStr cause)]).

Definition LIVE_EXEC : list string := ["spawning"; "running"; "gating"].

Definition live_execs (d : WfDb) (run_id : string) : list StepExec :=
  lfilter (fun e => String.eqb (se_run_id e) run_id && lcontains LIVE_EXEC (se_status e)) (wf_execs d).

Definition live_step_agents (run_id : string) : M WfDb (list string) :=
  let* r := attempt_ok (query (fun d => omap se_agent_id (live_execs d run_id))) in
  ret (default [] r).

(** The agent stamped on an exec row. *)
Definition agent_id_of (exec_id : string) : M WfDb (option string) :=
  let* r := attempt_ok (let* o := query (fun d => find_exec d exec_id) in
                        let* e := require_some NO_ROWS o in ret (se_agent_id e)) in
  ret (mjoin r).

(** ** Read commands *)

Definition seq_le (a b : WfEvent) : bool := (we_seq a <=? we_seq b)%Z.

(** SQLite's [LIMIT]: a negative bound is none. *)
Definition sql_limit {A} (limit : Z) (l : list A) : list A :=
  if (limit <? 0)%Z then l else take (Z.to_nat limit) l.

Definition read_events (run_id : string) (after_seq limit : Z) : M WfDb (list WfEvent) :=
  query (fun d => sql_limit limit (sort_by seq_le
    (lfilter (fun e => (after_seq <? we_seq e)%Z) (events_of d run_id)))).

Definition wf_events (run_id : string) (after_seq limit : Z) : M WfDb (list WfEvent) :=
  let '(after_seq, limit) := page_bounds after_seq limit in read_events run_id after_seq limit.

Fixpoint decode_all {A} (f : A -> result A string) (l : list A) : result (list A) string :=
  match l with
  | [] => Ok []
  | x :: l => let? x := f x in let? l := decode_all f l in Ok (x :: l)
  end.

Definition updated_desc (a b : WfRun) : bool := (wr_updated_at b <=? wr_updated_at a)%Z.

Definition wf_list_runs (project_id : option string) : M WfDb (list WfRun) :=
  let* rows := query (fun d => sort_by updated_desc
    (match project_id with
     | Some pid => lfilter (fun r => String.eqb (wr_project_id r) pid) (wf_runs d)
     | None => wf_runs d
     end)) in
  lift (decode_all decode_run rows).

Definition ATTEMPT_STATUSES : list string :=
  ["pending"; "spawning"; "running"; "gating"; "done"; "blocked"; "awaiting_approval"; "error"; "abandoned"].

(** [StepExec::from_row]. *)
Definition decode_exec (e : StepExec) : result StepExec string :=
  if negb (lcontains ATTEMPT_STATUSES (se_status e))
  then Err (conversion_error ("status: unexpected value " +:+ debug_str (se_status e)))
  else match se_verdict e ≫= json_error with
       | Some err => Err (conversion_error ("verdict_json: " +:+ err))
       | None => Ok e
       end.

Definition wf_get_run (run_id : string) : M WfDb (option (WfRun * list StepExec)) :=
  let* o := query (fun d => find_wf_run d run_id) in
  match o with
  | None => ret None
  | Some row =>
      let* run := lift (decode_run row) in
      let* rows := query (fun d => lfilter (fun e => String.eqb (se_run_id e) run_id) (wf_execs d)) in
      let* attempts := lift (decode_all decode_exec rows) in
      ret (Some (run, attempts))
  end.
End Ops.

(** ** Well-formed tables *)

(** Sequence numbers as a journal without gaps carries them: 1, 2, ..., [n]. *)
Definition seqs (n : nat) : list Z := Z.of_nat <$> seq 1 n.

Record wf_ok (d : WfDb) : Prop := {
  wo_runs : NoDup (wr_id <$> wf_runs d);
  wo_execs : NoDup (se_id <$> wf_execs d);
  wo_exec_runs : forall e, e ∈ wf_execs d -> se_run_id e ∈ wr_id <$> wf_runs d;
  wo_event_runs : forall ev, ev ∈ wf_journal d -> we_run_id ev ∈ wr_id <$> wf_runs d;
  wo_seqs : forall id, we_seq <$> events_of d id = seqs (length (events_of d id));
}.

Lemma max_or_seqs n : max_or 0 (seqs n) = Z.of_nat n.
Proof.
  destruct n as [|n]; [done|]. unfold seqs. rewrite seq_S, fmap_app. simpl.
  assert (Hle : forall l z, (forall x, x ∈ l -> (x <= z)%Z) -> (0 <= z)%Z -> max_or 0 (l ++ [z]) = z).
  { intros [|y l] z Hl Hz; [done|]. simpl. rewrite foldl_app. simpl.
    enough (foldl Z.max y l <= z)%Z by lia.
    assert (Hy : (y <= z)%Z) by (apply Hl; left).
    assert (Hl' : forall x, x ∈ l -> (x <= z)%Z) by (intros x Hx; apply Hl; by right).
    clear Hl. revert y Hy. induction l as [|x l IH]; intros y Hy; simpl; [done|].
    apply IH; [intros; apply Hl'; by right|]. specialize (Hl' x ltac:(left)). lia. }
  rewrite Hle; [lia| |lia]. intros x (k & -> & Hk)%list_elem_of_fmap. apply elem_of_seq in Hk. lia.
Qed.

Lemma next_seq_ok d id : wf_ok d -> next_seq d id = Z.of_nat (S (length (events_of d id))).
Proof. intros Hd. unfold next_seq. rewrite (wo_seqs _ Hd), max_or_seqs. lia. Qed.

Lemma seqs_S n : seqs (S n) = seqs n ++ [Z.of_nat (S n)].
Proof. unfold seqs. by rewrite seq_S, fmap_app. Qed.

Lemma events_of_snoc d ev id :
  events_of (set_journal (fun l => l ++ [ev]) d) id =
  events_of d id ++ (if String.eqb (we_run_id ev) id then [ev] else []).
Proof. unfold events_of, set_journal. simpl. by rewrite lfilter_app. Qed.

Lemma update_where_fmap {A B} (p : A -> bool) (f : A -> A) (g : A -> B) l :
  (forall x, g (f x) = g x) -> g <$> update_where p f l = g <$> l.
Proof. intros Hf. unfold update_where. rewrite <- list_fmap_compose. apply list_fmap_ext. intros _ x _. simpl. by destruct (p x). Qed.

Lemma elem_of_update_where {A} (p : A -> bool) f (l : list A) x :
  x ∈ update_where p f l -> x ∈ l \/ exists y, y ∈ l /\ p y = true /\ x = f y.
Proof.
  unfold update_where. intros (y & -> & Hy)%list_elem_of_fmap. destruct (p y) eqn:E; [right; by exists y|by left].
Qed.

(** Rewriting runs without touching their ids, execs without touching theirs, and the trace. *)
Lemma wf_ok_runs p f d : (forall r, wr_id (f r) = wr_id r) -> wf_ok d -> wf_ok (set_runs (update_where p f) d).
Proof.
  intros Hf [H1 H2 H3 H4 H5]. assert (Hr := update_where_fmap p f wr_id (wf_runs d) Hf).
  split; cbn [set_runs wf_runs wf_execs wf_journal]; rewrite ?Hr; auto.
Qed.

Lemma wf_ok_execs p f d :
  (forall e, se_id (f e) = se_id e) -> (forall e, se_run_id (f e) = se_run_id e) ->
  wf_ok d -> wf_ok (set_execs (update_where p f) d).
Proof.
  intros Hi Hr [H1 H2 H3 H4 H5]. split; cbn [set_execs wf_runs wf_execs wf_journal]; auto.
  - by rewrite (update_where_fmap p f se_id).
  - intros e [He|(y & Hy & _ & ->)]%elem_of_update_where; [auto|]. rewrite Hr. auto.
Qed.

Lemma wf_ok_trace f d : wf_ok d -> wf_ok (set_trace f d).
Proof. by intros []; split. Qed.

Lemma existsb_id {A} (f : A -> string) (id : string) l :
  existsb (fun x => String.eqb (f x) id) l = true <-> id ∈ f <$> l.
Proof.
  rewrite existsb_exists, list_elem_of_fmap. split.
  - intros (x & Hx & He%String.eqb_eq). exists x. by split; [|apply list_elem_of_In].
  - intros (x & -> & Hx). exists x. by split; [apply list_elem_of_In|apply String.eqb_refl].
Qed.

Lemma existsb_id_false {A} (f : A -> string) (id : string) l :
  existsb (fun x => String.eqb (f x) id) l = false <-> id ∉ f <$> l.
Proof. rewrite <- existsb_id. by destruct (existsb _ l). Qed.

Lemma NoDup_snoc {A} (l : list A) x : NoDup l -> x ∉ l -> NoDup (l ++ [x]).
Proof.
  intros Hl Hx. apply NoDup_app. split; [done|]. split; [|apply NoDup_singleton].
  intros y Hy [->|Hy']%elem_of_cons; [done|by apply elem_of_nil in Hy'].
Qed.

(** An event with the next number of its run. *)
Lemma wf_ok_event d ev :
  we_run_id ev ∈ wr_id <$> wf_runs d -> we_seq ev = next_seq d (we_run_id ev) -> wf_ok d ->
  wf_ok (set_journal (fun l => l ++ [ev]) d).
Proof.
  intros Hr Hs Hd. rewrite (next_seq_ok _ _ Hd) in Hs. destruct Hd as [H1 H2 H3 H4 H5].
  split; cbn [set_journal wf_runs wf_execs wf_journal]; auto.
  - intros x [Hx|[->|Hx]%elem_of_cons]%elem_of_app; [auto|done|by apply elem_of_nil in Hx].
  - intros id. rewrite events_of_snoc. destruct (String.eqb _ _) eqn:E.
    + apply String.eqb_eq in E as <-. rewrite fmap_app, length_app, H5, Nat.add_1_r, seqs_S. simpl. by rewrite Hs.
    + by rewrite app_nil_r.
Qed.

Lemma wf_ok_exec d e :
  se_run_id e ∈ wr_id <$> wf_runs d -> se_id e ∉ se_id <$> wf_execs d -> wf_ok d ->
  wf_ok (set_execs (fun l => l ++ [e]) d).
Proof.
  intros Hr Hn [H1 H2 H3 H4 H5]. split; cbn [set_execs wf_runs wf_execs wf_journal]; auto.
  - rewrite fmap_app. by apply NoDup_snoc.
  - intros x [Hx|[->|Hx]%elem_of_cons]%elem_of_app; [auto|done|by apply elem_of_nil in Hx].
Qed.

(** ** What the operations keep

    A property closed under the elementary changes of the tables that a program working for one
    run makes, and under events to the client, is kept by every operation on that run, and by
    every program made of them. *)
Definition is_emit (a : Act) : bool :=
  match a with EmitEvent _ _ _ _ | EmitRun _ | EmitRunDeleted _ => true | _ => false end.

Record log_closed_on (run : string) (P : WfDb -> Prop) : Prop := {
  cl_event : forall d ev, we_run_id ev = run -> run ∈ wr_id <$> wf_runs d -> we_seq ev = next_seq d run ->
    P d -> P (set_journal (fun l => l ++ [ev]) d);
  cl_emit : forall d a, is_emit a = true -> P d -> P (set_trace (fun t => t ++ [a]) d);
}.

(** The statuses a row may hold. *)
Definition run_status_ok (s : string) : bool := is_some (run_status_from_db s).
Definition attempt_status_ok (s : string) : bool := lcontains ATTEMPT_STATUSES s.

(** The updates of an attempt name its row only. *)
Record exec_closed (P : WfDb -> Prop) : Prop := {
  cl_spawned : forall d id a now, P d -> P (set_execs (update_where (is_exec id) (with_spawned a now)) d);
  cl_finished : forall d id s h now, attempt_status_ok s = true ->
    P d -> P (set_execs (update_where (is_exec id) (fun e => with_finished s (h e) now e)) d);
}.

Record closed_on (run : string) (P : WfDb -> Prop) : Prop := {
  cl_log : log_closed_on run P;
  cl_execs : exec_closed P;
  cl_exec : forall d id step a i g, run ∈ wr_id <$> wf_runs d -> id ∉ se_id <$> wf_execs d ->
    P d -> P (set_execs (fun l => l ++ [new_exec id run step a i g]) d);
  cl_status : forall d s e now, run_status_ok s = true ->
    P d -> P (set_runs (update_where (is_run run) (with_status s e now)) d);
  cl_pr : forall d n url, P d -> P (set_runs (update_where (is_run run) (with_pr n url)) d);
}.

(** Closed whatever run a program works for. *)
Definition closed (P : WfDb -> Prop) : Prop := forall run, closed_on run P.

Lemma closed_execs P : closed P -> exec_closed P.
Proof. intros HP. apply (cl_execs "" _ (HP "")). Qed.

Lemma closed_any P run : closed P -> closed_on run P.
Proof. auto. Qed.

Lemma wf_ok_closed : closed wf_ok.
Proof.
  intros run. split; [split|split|..]; intros; [subst; by apply wf_ok_event|by apply wf_ok_trace|
    by apply wf_ok_execs|by apply wf_ok_execs|by apply wf_ok_exec|by apply wf_ok_runs|by apply wf_ok_runs].
Qed.

#[export] Hint Resolve wf_ok_closed cl_log closed_execs closed_any : fletch.
#[export] Hint Extern 1 (exec_closed _) => eapply cl_execs; eassumption : fletch.

(** Programs that only journal. *)
Section Logging.
Context `{World} `{Codec} (P : WfDb -> Prop).

Lemma act_closed run a : log_closed_on run P -> is_emit a = true -> preserves P (act a).
Proof. intros HP Ha c. by apply (cl_emit _ _ HP). Qed.

Lemma append_closed run type e p : log_closed_on run P -> preserves P (append run type e p).
Proof.
  intros HP. unfold append. intros c Hc. unfold bind, query, sql, now_millis, insert_event, sql. simpl.
  destruct (w_fault (c_tick c)); [done|]. simpl. destruct (w_fault _); [done|].
  destruct (existsb (is_run run) (wf_runs (c_db c))) eqn:Er; [|done]. simpl.
  destruct (existsb _ (wf_journal (c_db c))); [done|]. simpl.
  apply (cl_event _ _ HP); [done| |done|done]. by apply (existsb_id wr_id run).
Qed.

#[local] Hint Resolve append_closed : fletch.

Lemma journal_event_closed run type e p : log_closed_on run P -> preserves P (journal_event run type e p).
Proof. intros HP. unfold journal_event, emit_event. preserving. by eapply act_closed. Qed.

#[local] Hint Resolve journal_event_closed : fletch.

Lemma emit_run_row_closed run : log_closed_on run P -> preserves P (emit_run_row run).
Proof.
  intros HP. unfold emit_run_row. apply preserves_bind; [|intros [?|?]; [by eapply act_closed|auto with fletch]].
  apply preserves_attempt, preserves_reads. reading.
Qed.

End Logging.

#[export] Hint Resolve append_closed journal_event_closed emit_run_row_closed : fletch.

Section Closed.
Context `{World} `{Codec} (P : WfDb -> Prop).

Lemma set_status_closed run s e : closed_on run P -> run_status_ok s = true -> preserves P (set_status run s e).
Proof. intros HP Hs. unfold set_status. preserving. apply preserves_execute. intros d. by apply (cl_status _ _ HP). Qed.

#[local] Hint Resolve set_status_closed : fletch.

Lemma fail_run_closed run e : closed_on run P -> preserves P (fail_run run e).
Proof. intros HP. unfold fail_run. preserving. Qed.

Lemma set_pr_closed run n url : closed_on run P -> preserves P (set_pr run n url).
Proof. intros HP. unfold set_pr. preserving. apply preserves_execute. intros d. apply (cl_pr _ _ HP). Qed.

Lemma create_step_exec_closed id run step a i g :
  closed_on run P -> preserves P (create_step_exec id run step a i g).
Proof.
  intros HP. unfold create_step_exec. preserving. apply preserves_sql. intros d u d' Hd He. simpl in He.
  destruct (existsb (is_run run) (wf_runs d)) eqn:Er; [|done]. simpl in He.
  destruct (existsb (is_exec id) (wf_execs d)) eqn:Ee; [done|]. injection He as _ <-.
  apply (cl_exec _ _ HP); [by apply (existsb_id wr_id run)|by apply (existsb_id_false se_id id)|done].
Qed.

Lemma stamp_spawned_closed e a : exec_closed P -> preserves P (stamp_spawned e a).
Proof. intros HP. unfold stamp_spawned. preserving. apply preserves_execute. intros d. apply (cl_spawned _ HP). Qed.

Lemma finish_step_exec_closed e s h :
  exec_closed P -> attempt_status_ok s = true -> preserves P (finish_step_exec e s h).
Proof.
  intros HP Hs. unfold finish_step_exec. preserving. apply preserves_execute. intros d.
  by apply (cl_finished _ HP d e s (fun _ => h)).
Qed.

Lemma abandon_exec_closed r e x : closed_on r P -> preserves P (abandon_exec r e x).
Proof.
  intros HP. unfold abandon_exec. preserving. apply preserves_execute. intros d.
  by apply (cl_finished _ (cl_execs _ _ HP)).
Qed.
End Closed.

#[export] Hint Resolve
  set_status_closed fail_run_closed set_pr_closed create_step_exec_closed stamp_spawned_closed
  finish_step_exec_closed abandon_exec_closed : fletch.

Section StoreReads.
Context `{World} `{Codec}.

Lemma load_run_reads run : reads (load_run run).
Proof.
  intros c. unfold load_run. pose proof (reads_bind (query (fun d => find_wf_run d run))
    (fun o => require_some NO_ROWS o)) as Hr. specialize (Hr ltac:(auto with fletch) ltac:(auto with fletch) c).
  destruct (bind _ _ c) as [[r|e] c']; exact Hr.
Qed.

Lemma live_step_agents_reads run : reads (live_step_agents run).
Proof. unfold live_step_agents. reading. Qed.

Lemma agent_id_of_reads e : reads (agent_id_of e).
Proof.
  unfold agent_id_of. apply reads_bind; [|auto with fletch].
  apply reads_attempt_ok. reading.
Qed.
End StoreReads.

#[export] Hint Resolve load_run_reads live_step_agents_reads agent_id_of_reads : fletch.

Lemma find_wf_run_id d id r : find_wf_run d id = Some r -> wr_id r = id /\ r ∈ wf_runs d.
Proof. intros (Hr & Hi)%lfind_Some. split; [by apply String.eqb_eq|done]. Qed.

Lemma load_run_Ok `{World} id c r c' : load_run id c = (Ok r, c') -> find_wf_run (c_db c) id = Some r /\ c_db c' = c_db c.
Proof.
  unfold load_run. destruct (bind _ _ c) as [[r'|e] c1] eqn:E; [|done]. intros [= -> ->].
  apply bind_Ok in E as (o & c1 & (_ & -> & ->)%query_Ok & E). unfold require_some in E.
  destruct (find_wf_run (c_db c) id); [|done]. by injection E as <- <-.
Qed.

(** A run's row is there. *)
Definition has_run (id : string) (d : WfDb) : Prop := id ∈ wr_id <$> wf_runs d.

Lemma find_wf_run_has d id : has_run id d <-> exists r, find_wf_run d id = Some r.
Proof.
  unfold has_run, find_wf_run. split.
  - intros Hid. destruct (lfind (is_run id) (wf_runs d)) as [r|] eqn:E; [by exists r|].
    apply list_elem_of_fmap in Hid as (r & -> & Hr). rewrite lfind_None in E. specialize (E r Hr).
    unfold is_run in E. by rewrite String.eqb_refl in E.
  - intros (r & (Hr & Hi)%lfind_Some). apply String.eqb_eq in Hi as <-. by apply list_elem_of_fmap_2.
Qed.

Lemma find_wf_run_some d id : is_some (find_wf_run d id) = true <-> has_run id d.
Proof. rewrite find_wf_run_has. destruct (find_wf_run d id); split; [by eexists|done|done|by intros []]. Qed.

(** ** Operations that swallow their errors *)

Section Totality.
Context `{World} `{Codec}.

Lemma act_total a : total (act a).
Proof. intros c. by do 2 eexists. Qed.

#[local] Hint Resolve act_total : fletch.

Lemma journal_event_total run t e p : total (journal_event run t e p).
Proof. unfold journal_event, emit_event. never_failing. Qed.

Lemma set_status_total run s e : total (set_status run s e).
Proof. unfold set_status, emit_run_row. never_failing. Qed.

Lemma stamp_spawned_total e a : total (stamp_spawned e a).
Proof. unfold stamp_spawned. never_failing. Qed.

Lemma agent_id_of_total e : total (agent_id_of e).
Proof. unfold agent_id_of. never_failing. Qed.

Lemma create_step_exec_total id run step a i g : total (create_step_exec id run step a i g).
Proof. unfold create_step_exec. never_failing. Qed.
End Totality.

#[export] Hint Resolve act_total journal_event_total set_status_total stamp_spawned_total
  agent_id_of_total create_step_exec_total : fletch.

(** ** Reading the journal *)

(** In a well-formed journal the events after [k] are the ones past position [k]. *)
Lemma events_after d id k :
  wf_ok d -> (0 <= k)%Z ->
  lfilter (fun e => (k <? we_seq e)%Z) (events_of d id) = drop (Z.to_nat k) (events_of d id).
Proof.
  intros Hd Hk. pose proof (wo_seqs _ Hd id) as Hs. revert Hs. generalize (events_of d id). intros l Hl.
  assert (Hz : k = Z.of_nat (Z.to_nat k)) by lia. rewrite Hz, Nat2Z.id. generalize (Z.to_nat k).
  clear k Hk Hz Hd. intros k.
  induction l as [|e l IH] using rev_ind; [by rewrite drop_nil|].
  rewrite length_app, Nat.add_1_r, seqs_S, fmap_app in Hl. simpl in Hl.
  apply app_inj_tail in Hl as [Hl He]. rewrite lfilter_app, (IH Hl). cbn [lfilter]. rewrite He.
  destruct (Z.ltb_spec (Z.of_nat k) (Z.of_nat (S (length l)))).
  - by rewrite drop_app_le by lia.
  - rewrite (drop_ge (l ++ [e])) by (rewrite length_app; simpl; lia). by rewrite drop_ge, app_nil_r by lia.
Qed.

Lemma sort_by_seqs s l :
  we_seq <$> l = Z.of_nat <$> seq s (length l) -> sort_by seq_le l = l.
Proof.
  revert s. induction l as [|e l IH]; intros s Hl; [done|]. injection Hl as He Hl.
  unfold sort_by in *. simpl. rewrite (IH _ Hl). destruct l as [|e' l]; [done|]. injection Hl as He' _.
  simpl. unfold seq_le at 1. by rewrite He, He', (proj2 (Z.leb_le _ _)) by lia.
Qed.

(** The page a reader asks for, as positions of the journal. *)
Definition page (after_seq limit : Z) (l : list WfEvent) : list WfEvent :=
  let '(after_seq, limit) := page_bounds after_seq limit in
  take (Z.to_nat limit) (drop (Z.to_nat after_seq) l).

Lemma wf_events_page `{World} run_id after_seq limit c events c' :
  wf_ok (c_db c) -> wf_events run_id after_seq limit c = (Ok events, c') ->
  events = page after_seq limit (events_of (c_db c) run_id).
Proof.
  intros Hd. unfold wf_events, page. pose proof (page_bounds_window after_seq limit) as [Ha Hl].
  destruct (page_bounds after_seq limit) as [a n]. cbn [fst snd] in *. intros (_ & -> & _)%query_Ok.
  rewrite (events_after _ _ _ Hd Ha). unfold sql_limit. rewrite (proj2 (Z.ltb_ge _ _)) by lia.
  f_equal. apply (sort_by_seqs (1 + Z.to_nat a)). rewrite fmap_drop, (wo_seqs _ Hd). unfold seqs.
  by rewrite <- fmap_drop, drop_seq, length_drop.
Qed.

(** A client that asks for the page after the last number it holds, until a page is empty. *)
Fixpoint read_pages (fuel : nat) (after_seq limit : Z) (l : list WfEvent) : list WfEvent :=
  match fuel with
  | O => []
  | S fuel =>
      match page after_seq limit l with
      | [] => []
      | p => p ++ read_pages fuel (default 0%Z (we_seq <$> last p)) limit l
      end
  end.

Lemma last_seq_of_page l k n :
  we_seq <$> l = seqs (length l) -> take n (drop k l) <> [] ->
  (we_seq <$> last (take n (drop k l))) = Some (Z.of_nat (k + length (take n (drop k l)))).
Proof.
  intros Hl Hne. rewrite <- fmap_last, fmap_take, fmap_drop, Hl. unfold seqs.
  rewrite <- fmap_drop, <- fmap_take, drop_seq, take_seq, fmap_last, length_take, length_drop.
  assert (Hpos : n `min` (length l - k) <> 0%nat).
  { intros Hz. apply Hne, nil_length_inv. by rewrite length_take, length_drop. }
  destruct (n `min` (length l - k)) as [|m]; [done|]. rewrite seq_S, last_snoc. simpl. f_equal. lia.
Qed.

(** Reading a journal page by page, each time from the last number seen and with any page
    size the client asks for, yields every event of the run once, in order, and stops. *)
Lemma paging_reads_everything d run_id limit fuel :
  wf_ok d -> length (events_of d run_id) < fuel ->
  read_pages fuel 0 limit (events_of d run_id) = events_of d run_id.
Proof.
  intros Hd. pose proof (wo_seqs _ Hd run_id) as Hl. revert Hl. generalize (events_of d run_id). intros l Hl Hf.
  enough (forall k fuel, k <= length l -> length l - k < fuel ->
            read_pages fuel (Z.of_nat k) limit l = drop k l) as Hall
    by (specialize (Hall 0%nat fuel ltac:(lia) ltac:(lia)); by rewrite drop_0 in Hall).
  clear fuel Hf. intros k fuel. revert k. induction fuel as [|fuel IH]; intros k Hk Hf; [lia|].
  cbn [read_pages]. unfold page. pose proof (page_bounds_window (Z.of_nat k) limit) as [_ [Hw _]].
  unfold page_bounds in *. cbn [fst snd] in Hw. rewrite (Z.max_l (Z.of_nat k) 0), Nat2Z.id by lia.
  set (n := Z.to_nat _). assert (Hn : 1 <= n) by lia. clearbody n.
  pose proof (last_seq_of_page l k n Hl) as Hlast. destruct (take n (drop k l)) as [|e p] eqn:E.
  - apply (f_equal length) in E. rewrite length_take, length_drop in E. change (n `min` (length l - k) = 0) in E.
    rewrite drop_ge by lia. done.
  - rewrite (Hlast ltac:(done)). cbn [default from_option id]. rewrite <- E.
    assert (Hlen : length (take n (drop k l)) = n `min` (length l - k)) by (by rewrite length_take, length_drop).
    rewrite Hlen.
    assert (Hp : 1 <= n `min` (length l - k)) by (rewrite <- Hlen, E; simpl; lia).
    rewrite IH by lia. rewrite <- (take_drop n (drop k l)) at 2. f_equal. rewrite drop_drop.
    destruct (decide (n <= length l - k)); [by rewrite Nat.min_l by lia|].
    rewrite Nat.min_r by lia. rewrite !drop_ge by lia. done.
Qed.

(** What an append does to the journals. *)
Lemma append_Ok `{World} run type e p c ev c' :
  append run type e p c = (Ok ev, c') ->
  we_type ev = type /\ we_payload ev = p /\ we_step_exec_id ev = e /\ we_run_id ev = run /\
  we_seq ev = next_seq (c_db c) run /\ c_db c' = set_journal (fun l => l ++ [ev]) (c_db c).
Proof.
  unfold append. intros Hap. invert_ok. unfold insert_event in *.
  match goal with H : sql _ _ = (Ok _, _) |- _ => apply sql_Ok in H as (_ & d & Hd & ->) end.
  cbn [we_run_id] in Hd. destruct (negb _); [done|]. destruct (existsb _ (wf_journal _)); [done|].
  injection Hd as _ <-. done.
Qed.
