(* ===== verification/WfSpawn.v ===== *)
(** * What a step's agent is spawned with

    runner/spawn.rs and the deliverables half of definition.rs: a step's agent alias resolved
    against the spec, its custom agent's row, and the local library of skills and MCP servers,
    into the request the driver is given. What no longer resolves is journaled, never fatal. *)

From Stdlib Require Import Ascii.
From S2P Require Import Prelude RustStr BTree Sql WfSpec WfStore.

Local Open Scope string_scope.
Local Open Scope list_scope.

(** ** Text *)

(** [str::lines]: a final line break ends the last line; a return before a break goes with it. *)
Definition strip_cr (s : string) : string :=
  match rev (String.list_ascii_of_string s) with
  | c :: l => if Ascii.eqb c (Ascii.ascii_of_N 13) then String.string_of_list_ascii (rev l) else s
  | [] => s
  end.

Fixpoint end_lines (pieces : list string) : list string :=
  match pieces with
  | [] => []
  | [s] => if is_empty s then [] else [s]
  | s :: pieces => strip_cr s :: end_lines pieces
  end.

Definition lines (s : string) : list string := end_lines (split_by (Ascii.eqb (Ascii.ascii_of_N 10)) s).

(** [str::split_whitespace]. *)
Fixpoint words_from (cs : list string) (word : string) : list string :=
  match cs with
  | [] => if is_empty word then [] else [word]
  | c :: cs =>
      if is_ws c then (if is_empty word then [] else [word]) ++ words_from cs ""
      else words_from cs (word +:+ c)
  end.
Definition split_whitespace (s : string) : list string := words_from (chars s) "".

Definition parse_pair (sep : Ascii.ascii) (line : string) : option (string * string) :=
  match split_once sep (trim line) with
  | Some (k, v) => if is_empty (trim k) then None else Some (trim k, trim v)
  | None => None
  end.

Definition parse_pair_lines (text : string) (sep : Ascii.ascii) : list (string * string) :=
  omap (parse_pair sep) (lines text).

(** ** The library *)

Inductive McpSupport := SupportAll | SupportStdio | SupportNone.

Definition mcp_support (provider : string) : McpSupport :=
  if String.eqb provider "claude" then SupportAll
  else if String.eqb provider "codex" then SupportStdio else SupportNone.

Definition mcp_attachable (support : McpSupport) (transport : string) : bool :=
  match support with
  | SupportAll => true
  | SupportStdio => negb (String.eqb transport "http")
  | SupportNone => false
  end.

(** The column a lookup compares: the unique id, or the name. *)
Inductive Column := ById | ByName.

Definition skill_key (column : Column) (r : SkillRow) : string :=
  match column with ById => sr_id r | ByName => sk_name (sr_snapshot r) end.
Definition server_key (column : Column) (r : McpServerRow) : string :=
  match column with ById => ms_id r | ByName => ms_name r end.

Definition id_le {A} (id : A -> string) (a b : A) : bool := bool_decide (String.le (id a) (id b)).

Definition snapshot_of (r : McpServerRow) : McpServerSnapshot :=
  let tokens := split_whitespace (ms_command r) in
  {| mc_name := ms_name r; mc_transport := ms_transport r; mc_command := default "" (head tokens);
     mc_args := tail tokens; mc_env := parse_pair_lines (ms_env r) "=";
     mc_url := trim (ms_url r); mc_headers := parse_pair_lines (ms_headers r) ":" |}.

Section Deliverables.
Context `{World}.

(** [... WHERE column = ?1 ORDER BY id LIMIT 1]. *)
Definition skill_row (column : Column) (value : string) : M WfDb (option SkillSnapshot) :=
  query (fun d => sr_snapshot <$> head (sort_by (id_le sr_id)
    (lfilter (fun r => String.eqb (skill_key column r) value) (wf_skills d)))).

Definition mcp_snapshot_row (column : Column) (value : string) : M WfDb (option McpServerSnapshot) :=
  query (fun d => snapshot_of <$> head (sort_by (id_le ms_id)
    (lfilter (fun r => String.eqb (server_key column r) value) (wf_servers d)))).

Definition count_skills (name : string) : M WfDb nat :=
  let* r := attempt_ok (query (fun d =>
    length (lfilter (fun r => String.eqb (sk_name (sr_snapshot r)) name) (wf_skills d)))) in
  ret (default 0%nat r).

Definition count_servers (name : string) : M WfDb nat :=
  let* r := attempt_ok (query (fun d =>
    length (lfilter (fun r => String.eqb (ms_name r) name) (wf_servers d)))) in
  ret (default 0%nat r).

Context `{Codec}.

Record StepDeliverables := {
  dl_skills : list SkillSnapshot;
  dl_mcp_servers : list McpServerSnapshot;
  dl_effort : option string;
  dl_model : option string;
  dl_instructions : option string;
  dl_missing_skills : list string;
  dl_missing_mcp_servers : list string;
  dl_missing_custom_agent : option string;
  dl_ambiguous_skills : list string;
  dl_ambiguous_mcp_servers : list string;
}.

Definition filter_blank (v : option string) : option string := opt_filter (fun s => negb (blank s)) v.

(** What the custom agent's row contributes. *)
Record Assigned := {
  as_skill_ids : list string;
  as_server_ids : list string;
  as_effort : option string;
  as_model : option string;
  as_instructions : option string;
  as_missing_skills : list string;
  as_missing_servers : list string;
  as_missing_agent : option string;
}.

Definition nothing_assigned (missing : option string) : Assigned := {|
  as_skill_ids := []; as_server_ids := []; as_effort := None; as_model := None;
  as_instructions := None; as_missing_skills := []; as_missing_servers := [];
  as_missing_agent := missing |}.

Definition read_ids (id column text : string) : list string * list string :=
  match parse_ids text with
  | Ok ids => (ids, [])
  | Err e => ([], ["custom agent '" +:+ id +:+ "' " +:+ column +:+ " unreadable: " +:+ e])
  end.

Definition assigned_by (custom_agent_id : option string) : M WfDb Assigned :=
  match custom_agent_id with
  | None => ret (nothing_assigned None)
  | Some id =>
      let* row := attempt_ok (query (fun d => wf_agents d !! id)) in
      match mjoin row with
      | None => ret (nothing_assigned (Some id))
      | Some r =>
          let '(skill_ids, missing_skills) := read_ids id "skill_ids" (ca_skill_ids r) in
          let '(server_ids, missing_servers) := read_ids id "mcp_server_ids" (ca_mcp_server_ids r) in
          ret {| as_skill_ids := skill_ids; as_server_ids := server_ids;
                 as_effort := filter_blank (ca_effort r); as_model := filter_blank (ca_model r);
                 as_instructions := filter_blank (Some (ca_instructions r));
                 as_missing_skills := missing_skills; as_missing_servers := missing_servers;
                 as_missing_agent := None |}
      end
  end.

(** Names gathered so far: delivered, missing, ambiguous. *)
Record Gathered (A : Type) := { ga_found : list A; ga_missing : list string; ga_ambiguous : list string }.
Arguments ga_found {A} _.
Arguments ga_missing {A} _.
Arguments ga_ambiguous {A} _.
Arguments Build_Gathered {A} _ _ _.

Definition missed {A} (what : string) (g : Gathered A) : Gathered A :=
  {| ga_found := ga_found g; ga_missing := ga_missing g ++ [what]; ga_ambiguous := ga_ambiguous g |}.

(** Push unless it may not be attached or one of that name is there already. *)
Definition found {A} (name : A -> string) (fits : A -> bool) (s : A) (g : Gathered A) : Gathered A :=
  if fits s && negb (existsb (fun k => String.eqb (name k) (name s)) (ga_found g))
  then {| ga_found := ga_found g ++ [s]; ga_missing := ga_missing g; ga_ambiguous := ga_ambiguous g |}
  else g.

Definition ambiguous {A} (name : string) (g : Gathered A) : Gathered A :=
  {| ga_found := ga_found g; ga_missing := ga_missing g; ga_ambiguous := ga_ambiguous g ++ [name] |}.

(** The loop over assigned ids. *)
Fixpoint gather_ids {A} (row : string -> M WfDb (option A)) (name : A -> string) (fits : A -> bool)
    (ids : list string) (g : Gathered A) : M WfDb (Gathered A) :=
  match ids with
  | [] => ret g
  | id :: ids =>
      let* r := attempt_ok (row id) in
      gather_ids row name fits ids (match mjoin r with Some s => found name fits s g | None => missed id g end)
  end.

(** The loop over requested names, which also counts the rows of that name. *)
Fixpoint gather_names {A} (row : string -> M WfDb (option A)) (count : string -> M WfDb nat)
    (name : A -> string) (fits : A -> bool) (names : list string) (g : Gathered A) : M WfDb (Gathered A) :=
  match names with
  | [] => ret g
  | n :: names =>
      let* r := attempt_ok (row n) in
      match mjoin r with
      | Some s =>
          let g := found name fits s g in
          let* k := count n in
          gather_names row count name fits names (if (1 <? k)%nat then ambiguous n g else g)
      | None => gather_names row count name fits names (missed n g)
      end
  end.

Definition any_skill (_ : SkillSnapshot) : bool := true.

Definition resolve_step_deliverables (custom_agent_id : option string)
    (skill_names mcp_server_names : list string) (provider : string) : M WfDb StepDeliverables :=
  let* a := assigned_by custom_agent_id in
  let* skills := gather_ids (skill_row ById) sk_name any_skill (as_skill_ids a)
                   (Build_Gathered [] (as_missing_skills a) []) in
  let* skills := gather_names (skill_row ByName) count_skills sk_name any_skill skill_names skills in
  let attachable m := mcp_attachable (mcp_support provider) (mc_transport m) in
  let* mcp := gather_ids (mcp_snapshot_row ById) mc_name attachable (as_server_ids a)
                (Build_Gathered [] (as_missing_servers a) []) in
  let* mcp := gather_names (mcp_snapshot_row ByName) count_servers mc_name attachable mcp_server_names mcp in
  ret {| dl_skills := ga_found skills; dl_mcp_servers := ga_found mcp;
         dl_effort := as_effort a; dl_model := as_model a; dl_instructions := as_instructions a;
         dl_missing_skills := ga_missing skills; dl_missing_mcp_servers := ga_missing mcp;
         dl_missing_custom_agent := as_missing_agent a;
         dl_ambiguous_skills := ga_ambiguous skills; dl_ambiguous_mcp_servers := ga_ambiguous mcp |}.

(** ** The spawn request *)

Definition resolve_agent (spec : Spec) (step : WfStep) : result AgentSpec string :=
  match get (st_agent step) (sp_agents spec) with
  | Some a => Ok a
  | None => Err ("step '" +:+ st_id step +:+ "' references unknown agent '" +:+ st_agent step +:+ "'")
  end.

Definition nonblank (value : option string) : option string := filter_blank value.

Definition warn_list (run_id event_type : string) (exec_id : string) (key : string) (l : list string)
    : M WfDb () :=
  match l with
  | [] => ret ()
  | _ => journal_event run_id event_type (Some exec_id) (JObj [(key, JList l)])
  end.

(** The warnings of [build_spawn_req], in the source's order. *)
Definition warn_deliverables (run_id exec_id : string) (d : StepDeliverables) : M WfDb () :=
  let* _ := match dl_missing_custom_agent d with
            | Some ca => journal_event run_id "custom_agent_missing" (Some exec_id)
                           (JObj [("custom_agent", JStr ca)])
            | None => ret () end in
  let* _ := warn_list run_id "skills_missing" exec_id "skills" (dl_missing_skills d) in
  let* _ := warn_list run_id "mcp_servers_missing" exec_id "mcp_servers" (dl_missing_mcp_servers d) in
  let* _ := warn_list run_id "skills_ambiguous" exec_id "skills" (dl_ambiguous_skills d) in
  warn_list run_id "mcp_servers_ambiguous" exec_id "mcp_servers" (dl_ambiguous_mcp_servers d).

Definition build_spawn_req (agent_spec : AgentSpec) (fork_base repo workspace run_id : string)
    (warn_exec_id : option string) : M WfDb SpawnReq :=
  let* d := resolve_step_deliverables (ag_custom_agent agent_spec) (ag_skills agent_spec)
              (md_name <$> ag_mcp_servers agent_spec) (ag_base agent_spec) in
  let* _ := match warn_exec_id with
            | Some exec_id => warn_deliverables run_id exec_id d
            | None => ret () end in
  ret {| sq_repo_path := repo; sq_provider := ag_base agent_spec;
         sq_model := or_else (nonblank (ag_model agent_spec)) (dl_model d);
         sq_effort := or_else (nonblank (ag_effort agent_spec)) (dl_effort d);
         sq_instructions := or_else (nonblank (ag_instructions agent_spec)) (dl_instructions d);
         sq_custom_agent_id := ag_custom_agent agent_spec;
         sq_skills := dl_skills d; sq_mcp_servers := dl_mcp_servers d;
         sq_fork_base := Some fork_base; sq_owner_run_id := run_id;
         sq_existing_workspace := Some workspace |}.
End Deliverables.

Arguments ga_found {A} _.
Arguments ga_missing {A} _.
Arguments ga_ambiguous {A} _.
Arguments Build_Gathered {A} _ _ _.

(** ** Properties *)

Section Gathering.
Context `{World} {A : Type} (name : A -> string) (fits : A -> bool) (Q : A -> Prop).

(** What is gathered is distinct by name, fits, and came from the library. *)
Record gathered_ok (g : Gathered A) : Prop := {
  go_names : NoDup (name <$> ga_found g);
  go_fits : forall s, s ∈ ga_found g -> fits s = true /\ Q s;
}.

(** [g'] extends [g]. *)
Definition extends (g g' : Gathered A) : Prop :=
  ga_found g ⊆ ga_found g' /\ ga_missing g ⊆ ga_missing g'.

#[local] Instance extends_refl : Reflexive extends.
Proof. by intros g. Qed.
#[local] Instance extends_trans : Transitive extends.
Proof. intros g1 g2 g3 [H1 H2] [H3 H4]. split; by etrans. Qed.

(** [n] is accounted for. *)
Definition settled (g : Gathered A) (n : string) : Prop :=
  n ∈ name <$> ga_found g \/ n ∈ ga_missing g \/ exists s, name s = n /\ Q s /\ fits s = false.

Lemma settled_extends g g' n : extends g g' -> settled g n -> settled g' n.
Proof.
  intros [Hf Hm] [Hn|[Hn|Hn]]; [left|right; left; auto|by do 2 right].
  apply list_elem_of_fmap in Hn as (s & -> & Hs). apply list_elem_of_fmap_2, Hf, Hs.
Qed.

Lemma missed_ok n g : gathered_ok g -> gathered_ok (missed n g).
Proof. intros [H1 H2]. by split. Qed.

Lemma missed_extends n g : extends g (missed n g) /\ settled (missed n g) n.
Proof.
  split; [split; [done|]; cbn [missed ga_missing]; set_solver|].
  right; left. cbn [missed ga_missing]. set_solver.
Qed.

Lemma found_ok s g : Q s -> gathered_ok g -> gathered_ok (found name fits s g).
Proof.
  intros Hq [H1 H2]. unfold found. destruct (fits s) eqn:Hf; [|by split].
  destruct (existsb _ _) eqn:E; [by split|]. apply (existsb_id_false name) in E. cbn [andb negb].
  split; cbn [ga_found].
  - rewrite fmap_app. by apply NoDup_snoc.
  - intros x [Hx|[->|Hx]%elem_of_cons]%elem_of_app; [auto|done|by apply elem_of_nil in Hx].
Qed.

Lemma found_extends s g : Q s -> extends g (found name fits s g) /\ settled (found name fits s g) (name s).
Proof.
  intros Hq. unfold found. destruct (fits s) eqn:Hf; cbn [andb].
  - destruct (existsb _ _) eqn:E; cbn [negb].
    + split; [done|]. left. by apply (existsb_id name).
    + split; [split; cbn [ga_found ga_missing]; [set_solver|done]|]. left. cbn [ga_found].
      rewrite fmap_app. apply elem_of_app. right. left.
  - split; [done|]. do 2 right. by exists s.
Qed.

Variable D0 : WfDb.
Variable row : string -> M WfDb (option A).
Hypothesis row_reads : forall v, reads (row v).
Hypothesis row_ok : forall v c s c', c_db c = D0 -> row v c = (Ok (Some s), c') -> Q s.

Lemma attempt_row v c : c_db c = D0 ->
  exists o c1, attempt_ok (row v) c = (Ok o, c1) /\ c_db c1 = D0 /\
    forall s, mjoin o = Some s -> exists c2, row v c = (Ok (Some s), c2).
Proof.
  intros Hc. unfold attempt_ok. pose proof (row_reads v c) as Hr. destruct (row v c) as [[o|e] c1]; cbn [snd] in Hr.
  - exists (Some o), c1. split; [done|]. split; [congruence|]. intros s Hs. exists c1.
    destruct o as [s'|]; [|done]. by injection Hs as ->.
  - exists None, c1. split; [done|]. split; [congruence|done].
Qed.

Lemma gather_ids_spec ids g c : c_db c = D0 -> gathered_ok g ->
  exists g' c', gather_ids row name fits ids g c = (Ok g', c') /\ c_db c' = D0 /\
    gathered_ok g' /\ extends g g'.
Proof.
  revert g c. induction ids as [|id ids IH]; intros g c Hc Hg; [by exists g, c|].
  cbn [gather_ids]. destruct (attempt_row id c Hc) as (o & c1 & Ho & Hc1 & Hs).
  unfold bind. rewrite Ho. destruct (mjoin o) as [s|] eqn:E.
  - destruct (Hs s eq_refl) as (c2 & H2). pose proof (row_ok _ _ _ _ Hc H2) as Hq.
    destruct (IH (found name fits s g) c1 Hc1 (found_ok s g Hq Hg)) as (g' & c' & -> & Hc' & Hg' & He).
    exists g', c'. split_and!; [done..|]. etrans; [apply (found_extends s g Hq)|done].
  - destruct (IH (missed id g) c1 Hc1 (missed_ok id g Hg)) as (g' & c' & -> & Hc' & Hg' & He).
    exists g', c'. split_and!; [done..|]. etrans; [apply missed_extends|done].
Qed.

Variable count : string -> M WfDb nat.
Hypothesis count_total : forall v c, exists n c', count v c = (Ok n, c') /\ c_db c' = c_db c.
Hypothesis row_name : forall v c s c', c_db c = D0 -> row v c = (Ok (Some s), c') -> name s = v.

Lemma gather_names_spec names g c : c_db c = D0 -> gathered_ok g ->
  exists g' c', gather_names row count name fits names g c = (Ok g', c') /\ c_db c' = D0 /\
    gathered_ok g' /\ extends g g' /\ forall n, n ∈ names -> settled g' n.
Proof.
  revert g c. induction names as [|n names IH]; intros g c Hc Hg.
  { exists g, c. split_and!; try done. by intros n ?%elem_of_nil. }
  cbn [gather_names]. destruct (attempt_row n c Hc) as (o & c1 & Ho & Hc1 & Hs).
  unfold bind at 1. rewrite Ho. destruct (mjoin o) as [s|] eqn:E.
  - destruct (Hs s eq_refl) as (c2 & H2). pose proof (row_ok _ _ _ _ Hc H2) as Hq.
    pose proof (row_name _ _ _ _ Hc H2) as Hn. destruct (count_total n c1) as (k & c3 & Hk & Hc3).
    unfold bind. rewrite Hk. set (g1 := if (1 <? k)%nat then _ else _).
    assert (Hg1 : gathered_ok g1 /\ extends (found name fits s g) g1).
    { pose proof (found_ok s g Hq Hg) as [Ha Hb]. unfold g1. by destruct (1 <? k)%nat. }
    destruct Hg1 as [Hg1 He1]. destruct (found_extends s g Hq) as [He0 Hset].
    destruct (IH g1 c3 (eq_trans Hc3 Hc1) Hg1) as (g' & c' & -> & Hc' & Hg' & He & Hall).
    exists g', c'. split_and!; [done..|exact (extends_trans _ _ _ He0 (extends_trans _ _ _ He1 He))|].
    intros x [->|Hx]%elem_of_cons; [|auto]. subst n.
    exact (settled_extends _ _ _ (extends_trans _ _ _ He1 He) Hset).
  - destruct (missed_extends n g) as [He0 Hset].
    destruct (IH (missed n g) c1 Hc1 (missed_ok n g Hg)) as (g' & c' & -> & Hc' & Hg' & He & Hall).
    exists g', c'. split_and!; [done..|exact (extends_trans _ _ _ He0 He)|].
    intros x [->|Hx]%elem_of_cons; [|auto]. exact (settled_extends _ _ _ He Hset).
Qed.
End Gathering.

Section Rows.
Context `{World}.

Lemma head_sorted_elem {A} le (l : list A) x : head (sort_by le l) = Some x -> x ∈ l.
Proof. intros Hx. apply (elem_of_sort_by le), head_Some_elem_of, Hx. Qed.

Lemma skill_row_Ok col v c s c' :
  skill_row col v c = (Ok (Some s), c') ->
  exists r, r ∈ wf_skills (c_db c) /\ sr_snapshot r = s /\ skill_key col r = v.
Proof.
  intros (_ & Hs & _)%query_Ok. symmetry in Hs. apply fmap_Some in Hs as (r & Hr & ->).
  apply head_sorted_elem, elem_of_lfilter in Hr as [Hr Hk]. exists r. split; [done|]. split; [done|]. by apply String.eqb_eq.
Qed.

Lemma mcp_snapshot_row_Ok col v c s c' :
  mcp_snapshot_row col v c = (Ok (Some s), c') ->
  exists r, r ∈ wf_servers (c_db c) /\ snapshot_of r = s /\ server_key col r = v.
Proof.
  intros (_ & Hs & _)%query_Ok. symmetry in Hs. apply fmap_Some in Hs as (r & Hr & ->).
  apply head_sorted_elem, elem_of_lfilter in Hr as [Hr Hk]. exists r. split; [done|]. split; [done|]. by apply String.eqb_eq.
Qed.

Lemma count_total_of (f : WfDb -> nat) c :
  exists n c', (let* r := attempt_ok (query f) in ret (default 0%nat r)) c = (Ok n, c') /\ c_db c' = c_db c.
Proof. unfold bind, attempt_ok, query, sql. destruct (w_fault _); simpl; by do 2 eexists. Qed.

Context `{Codec}.

Lemma assigned_total ca c : exists a c', assigned_by ca c = (Ok a, c') /\ c_db c' = c_db c.
Proof.
  unfold assigned_by. destruct ca as [id|]; [|by do 2 eexists].
  unfold bind, attempt_ok, query, sql. destruct (w_fault _); simpl; [by do 2 eexists|].
  destruct (wf_agents _ !! id) as [r|]; simpl; [|by do 2 eexists].
  destruct (read_ids id "skill_ids" _), (read_ids id "mcp_server_ids" _). by do 2 eexists.
Qed.
End Rows.

Section Request.
Context `{World} `{Codec}.

(** Where a delivered skill or server comes from. *)
Definition library_skill (d : WfDb) (s : SkillSnapshot) : Prop :=
  exists r, r ∈ wf_skills d /\ sr_snapshot r = s.
Definition library_server (d : WfDb) (m : McpServerSnapshot) : Prop :=
  exists r, r ∈ wf_servers d /\ snapshot_of r = m.

Definition attachable_to (provider : string) (m : McpServerSnapshot) : bool :=
  mcp_attachable (mcp_support provider) (mc_transport m).

(** What a resolution promises, whatever fails while it reads. *)
Record delivered (d : WfDb) (skills servers : list string) (provider : string) (r : StepDeliverables) : Prop := {
  de_skills : NoDup (sk_name <$> dl_skills r);
  de_servers : NoDup (mc_name <$> dl_mcp_servers r);
  de_skill_from : forall s, s ∈ dl_skills r -> library_skill d s;
  de_server_from : forall m, m ∈ dl_mcp_servers r -> library_server d m /\ attachable_to provider m = true;
  de_skill_settled : forall n, n ∈ skills -> n ∈ sk_name <$> dl_skills r \/ n ∈ dl_missing_skills r;
  de_server_settled : forall n, n ∈ servers ->
    n ∈ mc_name <$> dl_mcp_servers r \/ n ∈ dl_missing_mcp_servers r \/
    exists m, mc_name m = n /\ library_server d m /\ attachable_to provider m = false;
}.

Lemma resolve_total ca skills servers provider c :
  exists r c', resolve_step_deliverables ca skills servers provider c = (Ok r, c') /\
    c_db c' = c_db c /\ delivered (c_db c) skills servers provider r.
Proof.
  unfold resolve_step_deliverables. destruct (assigned_total ca c) as (a & c1 & Ha & Hc1).
  unfold bind at 1. rewrite Ha. clear Ha.
  set (Qs := library_skill (c_db c)). set (Qm := library_server (c_db c)).
  assert (Hsr : forall col v c0 s c', c_db c0 = c_db c -> skill_row col v c0 = (Ok (Some s), c') ->
            Qs s /\ (col = ByName -> sk_name s = v)).
  { intros col v c0 s c' Hc0 (r & Hr & <- & Hk)%skill_row_Ok. rewrite Hc0 in Hr. split; [by exists r|]. by intros ->. }
  assert (Hmr : forall col v c0 s c', c_db c0 = c_db c -> mcp_snapshot_row col v c0 = (Ok (Some s), c') ->
            Qm s /\ (col = ByName -> mc_name s = v)).
  { intros col v c0 s c' Hc0 (r & Hr & <- & Hk)%mcp_snapshot_row_Ok. rewrite Hc0 in Hr. split; [by exists r|]. by intros ->. }
  assert (Hempty : forall {A} (name : A -> string) fits Q m, gathered_ok name fits Q (Build_Gathered [] m [])).
  { intros A name fits Q m. split; [constructor|]. by intros s ?%elem_of_nil. }
  destruct (gather_ids_spec sk_name any_skill Qs (c_db c) (skill_row ById) (fun v => reads_query _)
    (fun v c0 s c' H1 H2 => proj1 (Hsr _ _ _ _ _ H1 H2)) (as_skill_ids a)
    (Build_Gathered [] (as_missing_skills a) []) c1 Hc1 (Hempty _ _ _ _ _)) as (g1 & c2 & Hg1 & Hc2 & Hok1 & _).
  unfold bind at 1. rewrite Hg1. clear Hg1.
  destruct (gather_names_spec sk_name any_skill Qs (c_db c) (skill_row ByName) (fun v => reads_query _)
    (fun v c0 s c' H1 H2 => proj1 (Hsr _ _ _ _ _ H1 H2)) count_skills (fun v c0 => count_total_of _ c0)
    (fun v c0 s c' H1 H2 => proj2 (Hsr _ _ _ _ _ H1 H2) eq_refl) skills g1 c2 Hc2 Hok1)
    as (g2 & c3 & Hg2 & Hc3 & Hok2 & _ & Hset2).
  unfold bind at 1. rewrite Hg2. clear Hg2.
  destruct (gather_ids_spec mc_name (attachable_to provider) Qm (c_db c) (mcp_snapshot_row ById) (fun v => reads_query _)
    (fun v c0 s c' H1 H2 => proj1 (Hmr _ _ _ _ _ H1 H2)) (as_server_ids a)
    (Build_Gathered [] (as_missing_servers a) []) c3 Hc3 (Hempty _ _ _ _ _)) as (g3 & c4 & Hg3 & Hc4 & Hok3 & _).
  unfold bind at 1. fold (attachable_to provider). rewrite Hg3. clear Hg3.
  destruct (gather_names_spec mc_name (attachable_to provider) Qm (c_db c) (mcp_snapshot_row ByName) (fun v => reads_query _)
    (fun v c0 s c' H1 H2 => proj1 (Hmr _ _ _ _ _ H1 H2)) count_servers (fun v c0 => count_total_of _ c0)
    (fun v c0 s c' H1 H2 => proj2 (Hmr _ _ _ _ _ H1 H2) eq_refl) servers g3 c4 Hc4 Hok3)
    as (g4 & c5 & Hg4 & Hc5 & Hok4 & _ & Hset4).
  unfold bind at 1. rewrite Hg4. clear Hg4. do 2 eexists. split; [reflexivity|]. split; [done|].
  destruct Hok2 as [Hn2 Hf2], Hok4 as [Hn4 Hf4]. split; cbn [dl_skills dl_mcp_servers dl_missing_skills dl_missing_mcp_servers].
  - done.
  - done.
  - intros s Hs. by apply Hf2.
  - intros m Hm. by destruct (Hf4 m Hm).
  - intros n Hn. destruct (Hset2 n Hn) as [?|[?|(s & _ & _ & ?)]]; [by left|by right|done].
  - intros n Hn. destruct (Hset4 n Hn) as [?|[?|(m & ? & ? & ?)]]; [by left|by right; left|]. right; right. by exists m.
Qed.
End Request.

Lemma resolve_reads `{World} `{Codec} ca skills servers provider :
  reads (resolve_step_deliverables ca skills servers provider).
Proof. intros c. by destruct (resolve_total ca skills servers provider c) as (r & c' & -> & Hc' & _). Qed.

#[export] Hint Resolve resolve_reads : fletch.

Lemma warn_deliverables_closed `{World} `{Codec} P run e d : log_closed_on run P -> preserves P (warn_deliverables run e d).
Proof. intros HP. unfold warn_deliverables, warn_list. preserving. Qed.

#[export] Hint Resolve warn_deliverables_closed : fletch.

Lemma build_spawn_req_closed `{World} `{Codec} P spec f r w run o :
  log_closed_on run P -> preserves P (build_spawn_req spec f r w run o).
Proof. intros HP. unfold build_spawn_req. preserving. Qed.

#[export] Hint Resolve build_spawn_req_closed : fletch.
