(* ===== verification/WfKernel.v ===== *)
(** * The workflow kernel

    runner/mod.rs and runner/finalize.rs with the git sequences of gitops.rs: one drive of a run,
    from its row to [done], [failed] or [canceled]. Each database access is an operation of
    [WfStore]; everything the drive learns from outside (the agents' driver, git, GitHub, the
    verdict file, the cancel flag) is an answer of the class [Host]; what it does outside goes on
    the trace.

    The source races each step against a wall clock and the cancel flag, and drops the step's
    future at whichever await it stands. So an await either resolves or is cut, by the clock or
    by the flag, and a cut one leaves the effects of the step so far and nothing more. *)

From S2P Require Import Prelude RustStr Git Sql WfSpec WfStore WfSpawn Closes.

Local Open Scope string_scope.
Local Open Scope list_scope.

(** ** Answers from outside *)

Inductive Interrupt := ClockRanOut | CancelSeen.

Inductive Await (A : Type) := Resolved (a : A) | CutBy (i : Interrupt).
Arguments Resolved {A} a.
Arguments CutBy {A} i.

Class Host := {
  (** [gitops::provision_run_repo], [run_git], [git diff --cached --quiet], [git rev-parse HEAD],
      [git::publish] (the tip that went out) and [pr_create_head] (url and number). *)
  h_provision : nat -> result () string;
  h_git : nat -> result () string;
  h_clean : nat -> result bool string;
  h_head : nat -> result string string;
  h_publish : nat -> result string string;
  h_pr_create : nat -> result (string * Z) string;
  (** The files of the run directory. *)
  h_attachments : nat -> list string;
  h_verdict : nat -> result Verdict VerdictError;
  (** The cancel flag, and the driver: spawn, send, the status read and what a subscription
      receives until the wait ends. [None] ends a readiness wait by its own deadline. *)
  h_cancel : nat -> bool;
  h_spawn : nat -> Await (result string string);
  h_send : nat -> Await (result () string);
  h_status : nat -> option AgentStatus;
  h_ready : nat -> list Recv * option Interrupt;
  h_turn : nat -> list Recv * Interrupt;
  (** [serde_json::from_str::<Spec>]. *)
  parse_spec : string -> result Spec string;
}.

(** One answer, at this point of the drive. *)
Definition host {A} (f : nat -> A) : M WfDb A := fun c => (Ok (f (c_tick c)), tick c).
Definition host_try {A} (f : nat -> result A string) : M WfDb A := let* r := host f in lift r.

(** A step of a future that may be cut. *)
Notation "'let!' x ':=' m 'in' k" :=
  (bind m (fun r => match r with Resolved x => k | CutBy i => ret (CutBy i) end))
  (at level 10, x pattern, m at level 200, k at level 200) : fletch_scope.

Definition STEP_TIMEOUT_SECS : N := 1800.

Definition NO_RESUME : string :=
  "this run's driver is gone (an app restart, or the engine that "
  +:+ "started it no longer exists) and runs do not resume yet: nothing is re-run; the "
  +:+ "workspace already holds the finished steps' commits".

(** How one step's agent-facing half ended. *)
Inductive StepEnd := TurnEnded (agent_id : string) | StepFailed (agent_id : option string) (error : string).

(** ** Waiting for an agent *)

Definition NOT_READY : string := "agent error before ready".
Definition MID_TURN : string := "agent errored mid-turn".
Definition SUPERVISOR_STOPPED : string := "supervisor stopped".

Definition ready_status (s : option AgentStatus) : option (result () string) :=
  match s with
  | Some Idle => Some (Ok ())
  | Some StatusError => Some (Err NOT_READY)
  | _ => None
  end.

(** The receive loop: [None] while nothing received decides. *)
Fixpoint await_ready_loop (agent_id : string) (rs : list Recv) : option (result () string) :=
  match rs with
  | [] => None
  | Transition a s :: rs =>
      if String.eqb a agent_id
      then match ready_status (Some s) with Some r => Some r | None => await_ready_loop agent_id rs end
      else await_ready_loop agent_id rs
  | Lagged now :: rs =>
      match ready_status now with Some r => Some r | None => await_ready_loop agent_id rs end
  | Closed :: _ => Some (Err SUPERVISOR_STOPPED)
  end.

Definition turn_status (s : option AgentStatus) : option (result () string) :=
  match s with
  | Some Idle => Some (Ok ())
  | Some StatusError | Some Stopped => Some (Err MID_TURN)
  | _ => None
  end.

Fixpoint await_turn_loop (agent_id : string) (rs : list Recv) : option (result () string) :=
  match rs with
  | [] => None
  | Transition a s :: rs =>
      if String.eqb a agent_id
      then match turn_status (Some s) with Some r => Some r | None => await_turn_loop agent_id rs end
      else await_turn_loop agent_id rs
  | Lagged now :: rs =>
      match turn_status now with Some r => Some r | None => await_turn_loop agent_id rs end
  | Closed :: _ => Some (Err SUPERVISOR_STOPPED)
  end.

Section Kernel.
Context `{World} `{Codec} `{Host}.

Definition await_agent_ready (agent_id : string) : M WfDb (Await (result () string)) :=
  let* status := host h_status in
  match ready_status status with
  | Some r => ret (Resolved r)
  | None =>
      let* (rs, last) := host h_ready in
      match await_ready_loop agent_id rs, last with
      | Some r, _ => ret (Resolved r)
      | None, None => ret (Resolved (Err "spawn_timeout"))
      | None, Some i => ret (CutBy i)
      end
  end.

Definition await_turn_end (agent_id : string) : M WfDb (Await (result () string)) :=
  let* (rs, last) := host h_turn in
  let* _ := act (Heard agent_id rs) in
  match await_turn_loop agent_id rs with
  | Some r => ret (Resolved r)
  | None => ret (CutBy last)
  end.

(** ** The driver's effects *)

Definition driver_spawn (req : SpawnReq) : M WfDb (Await (result string string)) :=
  let* r := host h_spawn in
  let* _ := match r with Resolved (Ok agent) => act (SpawnAgent req agent) | _ => ret () end in
  ret r.

Definition driver_send (agent_id text : string) : M WfDb (Await (result () string)) :=
  let* r := host h_send in
  let* _ := match r with Resolved (Ok _) => act (SendMessage agent_id text) | _ => ret () end in
  ret r.

(** [let _ = driver.stop(..).await], [archive]. *)
Definition driver_stop (agent_id : string) : M WfDb () := act (StopAgent agent_id).
Definition driver_archive (agent_id : string) : M WfDb () := act (ArchiveAgent agent_id).

(** ** One step *)

Definition journal (run_id exec_id event_type : string) (payload : Json) : M WfDb () :=
  journal_event run_id event_type (Some exec_id) payload.

Definition opt_json (o : option string) : Json := match o with Some s => JStr s | None => JNull end.

(** The part of [drive_step] after the spawn: ready, prompt, turn. *)
Definition prompt_step (run_id exec_id agent_id prompt : string) : M WfDb (Await StepEnd) :=
  let! ready := await_agent_ready agent_id in
  match ready with
  | Err e => ret (Resolved (StepFailed (Some agent_id) e))
  | Ok _ =>
      let* _ := journal run_id exec_id "attempt_ready" (JObj []) in
      let! sent := driver_send agent_id prompt in
      match sent with
      | Err e => ret (Resolved (StepFailed (Some agent_id) ("send failed: " +:+ e)))
      | Ok _ =>
          let* _ := journal run_id exec_id "prompt_sent" (JObj [("kind", JStr "step")]) in
          let! turn := await_turn_end agent_id in
          match turn with
          | Ok _ =>
              let* _ := journal run_id exec_id "turn_ended" (JObj [("status", JStr "idle")]) in
              ret (Resolved (TurnEnded agent_id))
          | Err error =>
              let* _ := journal run_id exec_id "turn_ended" (JObj [("status", JStr "error")]) in
              ret (Resolved (StepFailed (Some agent_id) error))
          end
      end
  end.

Definition drive_step (run_id exec_id : string) (req : SpawnReq) (prompt : string)
    : M WfDb (Await StepEnd) :=
  let! spawned := driver_spawn req in
  match spawned with
  | Err e => ret (Resolved (StepFailed None ("spawn failed: " +:+ e)))
  | Ok agent_id =>
      let* _ := stamp_spawned exec_id agent_id in
      let* _ := journal run_id exec_id "attempt_spawned"
                  (JObj [("agent_id", JStr agent_id); ("fork_base", opt_json (sq_fork_base req))]) in
      prompt_step run_id exec_id agent_id prompt
  end.

(** ** Ends of a run *)

Definition RUN_CANCELED_EVENT : string := "run_canceled".

Definition fail_step (run_id exec_id : string) (agent_id : option string) (status error : string)
    : M WfDb () :=
  let* _ := match agent_id with Some a => driver_stop a | None => ret () end in
  let* _ := journal_event run_id "attempt_error" (Some exec_id) (JObj [("error", JStr error)]) in
  let* _ := finish_step_exec exec_id status None in
  fail_run run_id error.

Definition write_canceled (run_id : string) : M WfDb () :=
  let* _ := journal_event run_id RUN_CANCELED_EVENT None (JObj []) in
  set_status run_id "canceled" None.

Definition cancel_step (run_id exec_id : string) : M WfDb () :=
  let* agent_id := agent_id_of exec_id in
  let* _ := match agent_id with Some a => driver_stop a | None => ret () end in
  let* _ := abandon_exec run_id exec_id "canceled" in
  let* _ := match agent_id with Some a => driver_archive a | None => ret () end in
  write_canceled run_id.

Fixpoint stop_all (agents : list string) : M WfDb () :=
  match agents with
  | [] => ret ()
  | a :: agents => let* _ := driver_stop a in stop_all agents
  end.

Definition cancel_run (run_id : string) : M WfDb () :=
  let* agents := live_step_agents run_id in
  let* _ := stop_all agents in
  write_canceled run_id.

Fixpoint abandon_all (run_id : string) (stale : list (string * option string)) : M WfDb () :=
  match stale with
  | [] => ret ()
  | (exec_id, agent_id) :: stale =>
      let* _ := match agent_id with Some a => driver_stop a | None => ret () end in
      let* _ := abandon_exec run_id exec_id NO_RESUME in
      abandon_all run_id stale
  end.

Definition refuse_resume (run_id : string) : M WfDb () :=
  let* stale := attempt_ok (query (fun d =>
    (fun e => (se_id e, se_agent_id e)) <$> live_execs d run_id)) in
  let* _ := abandon_all run_id (default [] stale) in
  fail_run run_id NO_RESUME.

(** ** The gate and the boundary commit *)

Definition evaluate_gate (gate : Gate) (blackboard step_id : string) : M WfDb (result () string) :=
  let decide inputs :=
    let r := evaluate gate inputs in
    match gr_outcome r with GateDone => Ok () | GateBlocked => Err (gr_reason r) end in
  match gate with
  | GateCommit => ret (decide {| gi_verdict := None; gi_verdict_error := None |})
  | GateVerdict =>
      match step_dir blackboard step_id with
      | Err e => ret (Err ("blackboard error: " +:+ e))
      | Ok _ =>
          let* v := host h_verdict in
          ret (decide (match v with
                       | Ok v => {| gi_verdict := Some v; gi_verdict_error := None |}
                       | Err VerdictMissing => {| gi_verdict := None; gi_verdict_error := None |}
                       | Err (VerdictMalformed e) => {| gi_verdict := None; gi_verdict_error := Some e |}
                       end))
      end
  end.

Definition boundary_commit (message : string) : M WfDb string :=
  let* _ := host_try h_git in
  let* clean := host_try h_clean in
  let* _ := if clean : bool then ret () else
              let* _ := host_try h_git in act (Commit message) in
  host_try h_head.

Definition pin_step_ref (exec_id : string) : M WfDb string :=
  let* _ := host_try h_git in
  let* _ := act (UpdateRef (step_ref exec_id) "HEAD") in
  ret (step_ref exec_id).

Definition commit_step (exec_id message : string) : M WfDb string :=
  let* head := boundary_commit message in
  let* _ := pin_step_ref exec_id in
  ret head.

(** ** Finalizing *)

Record FinalizeOutcome := {
  fo_branch : string;
  fo_pr_url : option string;
  fo_pr_number : option Z;
  fo_pr_error : option string;
}.

Definition checkout (rev : string) : M WfDb () :=
  let* _ := host_try h_git in act (Checkout rev).

Definition finalize (final_ref branch base title body : string) (open_pr : bool) : M WfDb FinalizeOutcome :=
  if negb (is_run_branch branch)
  then err ("refusing to push: '" +:+ branch +:+ "' is not a wf/ run branch")
  else
    let* _ := checkout final_ref in
    let* head := host_try h_head in
    let* tip := host_try h_publish in
    let* _ := act (PushBranch branch tip) in
    let* _ :=
      if String.eqb tip head then ret ()
      else
        let* _ := host_try h_git in
        let* _ := act (UpdateRef final_ref tip) in
        checkout tip in
    if open_pr then
      let* pr := host h_pr_create in
      match pr with
      | Ok (url, number) =>
          let* _ := act (OpenPr branch title body base) in
          ret {| fo_branch := branch; fo_pr_url := Some url; fo_pr_number := Some number; fo_pr_error := None |}
      | Err e => ret {| fo_branch := branch; fo_pr_url := None; fo_pr_number := None; fo_pr_error := Some e |}
      end
    else ret {| fo_branch := branch; fo_pr_url := None; fo_pr_number := None; fo_pr_error := None |}.

(** The base a pull request is opened against: the spec's, the launch's, [main]. *)
Definition pr_base (fin : Finalize) (run : WfRun) : string :=
  let nonempty := opt_filter (fun b => negb (is_empty b)) in
  default "main" (or_else (nonempty (fz_pr_base fin)) (nonempty (Some (wr_base_branch run)))).

(** The closing trailer of an empty body: the scan of an empty text cannot panic. *)
Definition pr_body (run : WfRun) : string := default "" (with_closes_trailer "" (wr_issue_ref run)).

Definition finalize_run (run : WfRun) (spec : Spec) (last_exec_id : option string) : M WfDb () :=
  let run_id := wr_id run in
  match sp_finalize spec with
  | None => ret ()
  | Some fin =>
      if negb (fz_push fin) then ret ()
      else
        match last_exec_id with
        | None => ret ()
        | Some exec_id =>
            let* outcome := finalize (step_ref exec_id) (wr_branch run) (pr_base fin run)
                              ("wf: " +:+ sp_name spec) (pr_body run) (fz_open_pr fin) in
            let* _ := journal_event run_id "finalize_pushed" None
                        (JObj [("branch", JStr (fo_branch outcome))]) in
            match fo_pr_url outcome, fo_pr_error outcome with
            | Some url, _ =>
                let* _ := journal_event run_id "finalize_pr" None (JObj [("url", JStr url)]) in
                set_pr run_id (fo_pr_number outcome) url
            | None, Some e => journal_event run_id "finalize_pr" None (JObj [("error", JStr e)])
            | None, None => ret ()
            end
        end
  end.

(** ** The step loop *)

Definition timeout_message : string := "step timed out after " +:+ show_N STEP_TIMEOUT_SECS +:+ "s".

(** A step raced against its clock and the cancel flag. *)
Definition race_step (run_id exec_id : string) (req : SpawnReq) (prompt : string)
    : M WfDb (option StepEnd) :=
  let* r := drive_step run_id exec_id req prompt in
  match r with
  | Resolved e => ret (Some e)
  | CutBy ClockRanOut =>
      let* agent_id := agent_id_of exec_id in
      ret (Some (StepFailed agent_id timeout_message))
  | CutBy CancelSeen => ret None
  end.

Definition step_context (run : WfRun) (spec : Spec) (attachments : list string) (index : nat)
    (step : WfStep) : StepPromptCtx := {|
  pc_run_task := wr_task run;
  pc_attachments := if (index =? 0)%nat then attachments else [];
  pc_step_id := st_id step; pc_step_goal := st_goal step; pc_step_index := index;
  pc_step_count := length (sp_workflow spec); pc_gate := st_gate step |}.

Definition gate_payload (gate : Gate) (r : result () string) : Json :=
  JObj [("mode", JStr (gate_mode gate));
        ("outcome", JStr (match r with Ok _ => "done" | Err _ => "blocked" end));
        ("reason", JStr (match r with Ok _ => "" | Err e => e end))].

(** What follows a turn that ended: the gate, the boundary commit, the row, the archive. [true]
    when the run goes on. *)
Definition close_step (run : WfRun) (spec : Spec) (step : WfStep) (exec_id agent_id : string) : M WfDb bool :=
  let run_id := wr_id run in
  let* gate := evaluate_gate (st_gate step) (blackboard_dir (wr_run_dir run)) (st_id step) in
  let* _ := journal run_id exec_id "gate_evaluated" (gate_payload (st_gate step) gate) in
  match gate with
  | Err reason => let* _ := fail_step run_id exec_id (Some agent_id) "blocked" reason in ret false
  | Ok _ =>
      let message := "wf(" +:+ sp_name spec +:+ "): " +:+ st_id step in
      let* head := attempt (commit_step exec_id message) in
      match head with
      | Err e =>
          let* _ := fail_step run_id exec_id (Some agent_id) "error" ("boundary commit failed: " +:+ e) in
          ret false
      | Ok head =>
          let* _ := journal_event run_id "boundary_commit" (Some exec_id)
                      (JObj [("sha", JStr head); ("message", JStr message)]) in
          let* _ := finish_step_exec exec_id "done" (Some head) in
          let* _ := driver_archive agent_id in
          ret true
      end
  end.

(** One iteration: the exec's id when the run goes on, [None] when it has ended. *)
Definition run_step (run : WfRun) (spec : Spec) (workspace : string) (attachments : list string)
    (index : nat) (step : WfStep) (last_ref : string) : M WfDb (option string) :=
  let run_id := wr_id run in
  let* canceled := host h_cancel in
  if canceled : bool then let* _ := cancel_run run_id in ret None
  else
    let* agent_spec := lift (resolve_agent spec step) in
    let* uuid := new_uuid in
    let exec_id := "exec-" +:+ uuid in
    let* _ := create_step_exec exec_id run_id (st_id step) 1 0 (gate_mode (st_gate step)) in
    let prompt := step_prompt (step_context run spec attachments index step) in
    let* req := build_spawn_req agent_spec last_ref (wr_repo_path run) workspace run_id (Some exec_id) in
    let* ended := race_step run_id exec_id req prompt in
    match ended with
    | None => let* _ := cancel_step run_id exec_id in ret None
    | Some (StepFailed agent_id error) =>
        let* _ := fail_step run_id exec_id agent_id "error" error in ret None
    | Some (TurnEnded agent_id) =>
        let* goes_on := close_step run spec step exec_id agent_id in
        ret (if goes_on : bool then Some exec_id else None)
    end.

(** The loop: [Some] last exec when every step is done, [None] when the run has ended. *)
Fixpoint run_steps (run : WfRun) (spec : Spec) (workspace : string) (attachments : list string)
    (index : nat) (steps : list WfStep) (last_ref : string) (last_exec_id : option string)
    : M WfDb (option (option string)) :=
  match steps with
  | [] => ret (Some last_exec_id)
  | step :: steps =>
      let* r := run_step run spec workspace attachments index step last_ref in
      match r with
      | None => ret None
      | Some exec_id =>
          run_steps run spec workspace attachments (S index) steps (step_ref exec_id) (Some exec_id)
      end
  end.

Definition TERMINAL : list string := ["done"; "failed"; "canceled"].

Definition provision_run_repo (run_dir : string) : M WfDb string :=
  let* _ := host_try h_provision in ret (run_repo_path run_dir).

(** The drive of a pending run. *)
Definition drive_run (run : WfRun) : M WfDb () :=
  let run_id := wr_id run in
  let* spec := lift (match parse_spec (wr_spec_json run) with
                     | Ok spec => Ok spec
                     | Err e => Err ("unsupported workflow spec: " +:+ e) end) in
  let* workspace := provision_run_repo (wr_run_dir run) in
  let* _ := checkout (wr_base_sha run) in
  let* _ := journal_event run_id "run_launched" None
              (JObj [("base_sha", JStr (wr_base_sha run)); ("runner", JStr "kernel");
                     ("workspace", JStr workspace)]) in
  let* _ := set_status run_id "running" None in
  let* attachments := host h_attachments in
  let* last := run_steps run spec workspace attachments 0 (sp_workflow spec) (wr_base_sha run) None in
  match last with
  | None => ret ()
  | Some last_exec_id =>
      let* _ := finalize_run run spec last_exec_id in
      let* _ := journal_event run_id "run_done" None (JObj []) in
      set_status run_id "done" None
  end.

Definition run_kernel_inner (run_id : string) : M WfDb () :=
  let* run := load_run run_id in
  if lcontains TERMINAL (wr_status run) then ret ()
  else if negb (String.eqb (wr_status run) "pending") then refuse_resume run_id
  else drive_run run.

Definition run_kernel (run_id : string) : M WfDb () :=
  let* r := attempt (run_kernel_inner run_id) in
  match r with Ok _ => ret () | Err e => fail_run run_id e end.
End Kernel.

(** ** What a drive keeps of the tables *)

Lemma host_reads `{World} `{Host} {A} (f : nat -> A) : reads (host f).
Proof. by intros c. Qed.

#[export] Hint Resolve host_reads : fletch.

Lemma host_try_reads `{World} `{Host} {A} (f : nat -> result A string) : reads (host_try f).
Proof. unfold host_try. reading. Qed.

#[export] Hint Resolve host_try_reads : fletch.

Lemma host_total `{World} `{Host} {A} (f : nat -> A) : total (host f).
Proof. intros c. by do 2 eexists. Qed.

#[export] Hint Resolve host_total : fletch.

Lemma drive_step_total `{World} `{Codec} `{Host} run exec req prompt : total (drive_step run exec req prompt).
Proof. unfold drive_step, prompt_step, driver_spawn, driver_send, await_agent_ready, await_turn_end, journal. never_failing. Qed.

#[export] Hint Resolve drive_step_total : fletch.

Lemma race_step_total `{World} `{Codec} `{Host} run exec req prompt : total (race_step run exec req prompt).
Proof. unfold race_step. never_failing. Qed.

#[export] Hint Resolve race_step_total : fletch.

(** The effects that concern an agent. *)
Definition is_agent_act (a : Act) : bool :=
  match a with SpawnAgent _ _ | SendMessage _ _ | StopAgent _ | ArchiveAgent _ => true | _ => false end.

Section KeptByGit.
Context `{World} `{Codec} `{Host} (P : WfDb -> Prop).
Context (HG : forall d a, is_agent_act a = false -> P d -> P (set_trace (fun t => t ++ [a]) d)).

Lemma git_act_kept a : is_agent_act a = false -> preserves P (act a).
Proof. intros Ha c. by apply HG. Qed.

#[local] Hint Resolve git_act_kept : fletch.

Lemma commit_step_closed exec msg : preserves P (commit_step exec msg).
Proof. unfold commit_step, boundary_commit, pin_step_ref. preserving. Qed.

Lemma checkout_closed rev : preserves P (checkout rev).
Proof. unfold checkout. preserving. Qed.

#[local] Hint Resolve checkout_closed : fletch.

Lemma finalize_closed f b base t body o : preserves P (finalize f b base t body o).
Proof. unfold finalize. preserving. Qed.

#[local] Hint Resolve finalize_closed : fletch.

Lemma finalize_run_closed run spec last : closed_on (wr_id run) P -> preserves P (finalize_run run spec last).
Proof. intros HP. unfold finalize_run. preserving. Qed.

Lemma write_canceled_closed run : closed_on run P -> preserves P (write_canceled run).
Proof. intros HP. unfold write_canceled. preserving. Qed.
End KeptByGit.

#[export] Hint Resolve commit_step_closed checkout_closed finalize_run_closed write_canceled_closed : fletch.

Section Kept.
Context `{World} `{Codec} `{Host} (P : WfDb -> Prop).
Context (HA : forall d a, P d -> P (set_trace (fun t => t ++ [a]) d)).

Lemma act_kept a : preserves P (act a).
Proof. intros c. apply HA. Qed.

#[local] Hint Resolve act_kept : fletch.

Lemma drive_step_closed run exec req prompt : closed_on run P -> preserves P (drive_step run exec req prompt).
Proof.
  intros HP. unfold drive_step, prompt_step, driver_spawn, driver_send, await_agent_ready, await_turn_end, journal.
  preserving.
Qed.

Lemma fail_step_closed run exec o s e :
  closed_on run P -> attempt_status_ok s = true -> preserves P (fail_step run exec o s e).
Proof. intros HP Hs. unfold fail_step, driver_stop. preserving. Qed.

#[local] Hint Resolve drive_step_closed fail_step_closed : fletch.

Lemma cancel_step_closed run exec : closed_on run P -> preserves P (cancel_step run exec).
Proof. intros HP. unfold cancel_step, driver_stop, driver_archive. preserving. Qed.

Lemma stop_all_closed l : preserves P (stop_all l).
Proof. induction l as [|a l IH]; cbn [stop_all]; unfold driver_stop; preserving. Qed.

#[local] Hint Resolve cancel_step_closed stop_all_closed : fletch.

Lemma cancel_run_closed run : closed_on run P -> preserves P (cancel_run run).
Proof. intros HP. unfold cancel_run. preserving. Qed.

Lemma abandon_all_closed run l : closed_on run P -> preserves P (abandon_all run l).
Proof. intros HP. induction l as [|[e o] l IH]; cbn [abandon_all]; unfold driver_stop; preserving. Qed.

#[local] Hint Resolve cancel_run_closed abandon_all_closed : fletch.

Lemma refuse_resume_closed run : closed_on run P -> preserves P (refuse_resume run).
Proof. intros HP. unfold refuse_resume. preserving. Qed.

Lemma close_step_closed run spec step exec a :
  closed_on (wr_id run) P -> preserves P (close_step run spec step exec a).
Proof. intros HP. unfold close_step, evaluate_gate, journal, driver_archive. preserving. Qed.

#[local] Hint Resolve refuse_resume_closed close_step_closed : fletch.

Lemma run_step_closed run spec w atts i step ref :
  closed_on (wr_id run) P -> preserves P (run_step run spec w atts i step ref).
Proof. intros HP. unfold run_step, race_step. preserving. Qed.

#[local] Hint Resolve run_step_closed : fletch.

Lemma run_steps_closed run spec w atts i steps ref last :
  closed_on (wr_id run) P -> preserves P (run_steps run spec w atts i steps ref last).
Proof.
  intros HP. revert i ref last. induction steps as [|s steps IH]; intros i ref last; cbn [run_steps]; preserving.
Qed.

#[local] Hint Resolve run_steps_closed : fletch.

Lemma drive_run_closed run : closed_on (wr_id run) P -> preserves P (drive_run run).
Proof. intros HP. unfold drive_run, provision_run_repo. preserving. Qed.

#[local] Hint Resolve drive_run_closed : fletch.

Lemma run_kernel_inner_closed run : closed_on run P -> preserves P (run_kernel_inner run).
Proof.
  intros HP c Hc. unfold run_kernel_inner, bind. pose proof (load_run_reads run c) as Hl.
  destruct (load_run run c) as [[r|e] c1] eqn:El; cbn [snd] in Hl; rewrite <- Hl in Hc; [|exact Hc].
  apply load_run_Ok in El as [Hr _]. apply find_wf_run_id in Hr as [<- _].
  match goal with |- P (c_db (?m c1).2) => enough (Hb : preserves P m) by exact (Hb c1 Hc) end. preserving.
Qed.

#[local] Hint Resolve run_kernel_inner_closed : fletch.

Lemma run_kernel_closed run : closed_on run P -> preserves P (run_kernel run).
Proof. intros HP. unfold run_kernel. preserving. Qed.
End Kept.

#[export] Hint Resolve drive_step_closed fail_step_closed cancel_step_closed cancel_run_closed
  refuse_resume_closed close_step_closed run_step_closed run_steps_closed run_kernel_closed : fletch.

(** ** A concrete drive, for witnesses: two steps, both done, pushed with a pull request *)

Definition demo_agent : AgentSpec := {|
  ag_base := "claude"; ag_model := None; ag_effort := Some "  "; ag_instructions := None;
  ag_skills := ["review"]; ag_mcp_servers := []; ag_custom_agent := None |}.

Definition demo_spec : Spec := {|
  sp_version := 1; sp_name := "Fix & ship"; sp_description := None;
  sp_agents := [("coder", demo_agent)];
  sp_workflow := [{| st_id := "plan"; st_agent := "coder"; st_goal := "plan it"; st_gate := GateVerdict |};
                  {| st_id := "code"; st_agent := "coder"; st_goal := "do it"; st_gate := GateCommit |}];
  sp_finalize := Some {| fz_push := true; fz_open_pr := true; fz_pr_base := None |} |}.

Definition demo_run (status : string) : WfRun := {|
  wr_id := "run-1"; wr_definition_id := None; wr_name := "Fix & ship"; wr_spec_json := "{}";
  wr_task := "the task"; wr_project_id := "p"; wr_repo_path := "/src"; wr_run_dir := "/runs/run-1";
  wr_branch := run_branch "Fix & ship" "run-0123456789abcdef"; wr_base_sha := "base"; wr_base_branch := "develop";
  wr_status := status; wr_error := None; wr_pr_number := None; wr_pr_url := None;
  wr_issue_ref := Some "12"; wr_roadmap_item_id := Some "i1"; wr_created_at := 0; wr_updated_at := 0 |}.

Definition demo_db (status : string) : WfDb := {|
  wf_runs := [demo_run status]; wf_execs := []; wf_journal := []; wf_agents := ∅; wf_skills := [];
  wf_servers := []; wf_project_settings := ∅; wf_trace := [] |}.

Definition demo_codec : Codec := {|
  json_error _ := None; conversion_error s := s; parse_ids _ := Ok [] |}.

(** A host that answers everything well; [verdict] and the way a turn ends are the caller's. *)
Definition demo_host (verdict : VerdictResult) (turn : list Recv * Interrupt) : Host := {|
  h_provision _ := Ok (); h_git _ := Ok (); h_clean _ := Ok false; h_head _ := Ok "head";
  h_publish _ := Ok "head"; h_pr_create _ := Ok ("https://x/pull/7", 7%Z); h_attachments _ := [];
  h_verdict _ := Ok {| vd_result := verdict; vd_summary := ""; vd_detail := None; vd_target := None |};
  h_cancel _ := false; h_spawn _ := Resolved (Ok "agent"); h_send _ := Resolved (Ok ());
  h_status _ := None; h_ready _ := ([Transition "other" Idle; Lagged None; Transition "agent" Idle], None);
  h_turn _ := turn; parse_spec _ := Ok demo_spec |}.

Definition good_turn : list Recv * Interrupt := ([Transition "agent" Running; Transition "agent" Idle], ClockRanOut).

Definition demo_drive (status : string) (verdict : VerdictResult) (turn : list Recv * Interrupt) : Conn WfDb :=
  (@run_kernel (calm_world show_nat) demo_codec (demo_host verdict turn) "run-1"
     {| c_db := demo_db status; c_tick := 0 |}).2.

Definition status_of (c : Conn WfDb) : list (string * option string) :=
  (fun r => (wr_status r, wr_error r)) <$> wf_runs (c_db c).

Example demo_done : status_of (demo_drive "pending" VerdictDone good_turn) = [("done", None)].
Proof. by_compute. Qed.

Example demo_blocked :
  status_of (demo_drive "pending" VerdictBlocked good_turn) =
  [("failed", Some ("verdict.json result is " +:+ dq +:+ "blocked" +:+ dq +:+ ": no summary"))].
Proof. by_compute. Qed.

Example demo_timed_out :
  status_of (demo_drive "pending" VerdictDone ([Transition "agent" Running], ClockRanOut)) =
  [("failed", Some "step timed out after 1800s")].
Proof. by_compute. Qed.

Example demo_canceled :
  status_of (demo_drive "pending" VerdictDone ([], CancelSeen)) = [("canceled", None)].
Proof. by_compute. Qed.

Example demo_restarted : status_of (demo_drive "running" VerdictDone good_turn) = [("failed", Some NO_RESUME)].
Proof. by_compute. Qed.
