(* ===== verification/WfProtocol.v ===== *)
(** * What a drive may do, in which order

    An abstract protocol of a run, as an automaton over the effects outside the database and what is
    heard of the agents, and the refinement: whatever fails, hangs, is cut off or answers nonsense,
    the trace of a drive of the kernel is a word of the automaton. Steps run one at a time and in
    order, each in the run's workspace from the ref the step before it pinned; an agent is told its
    step once, and its work is committed and pinned only after it was heard to end its turn; it is
    archived only once its step is pinned; and nothing is pushed but the run's own branch, once, after
    every step. *)

From S2P Require Import Prelude RustStr Git Sql WfSpec WfStore WfSpawn WfKernel.

Local Open Scope string_scope.
Local Open Scope list_scope.

(** Where a drive stands: [Ready n ref] has [n] steps done and the workspace at [ref]; the next four
    are inside step [n]: its agent is spawned, has its prompt, has ended its turn, and its work is
    pinned; after [Closing] only stops and archives follow. *)
Inductive Phase :=
| Start
| Ready (n : nat) (ref : string)
| Working (n : nat) (agent : string)
| Prompted (n : nat) (agent : string)
| Ended (n : nat) (agent : string)
| Pinned (n : nat) (agent ref : string)
| Closing
| Publishing (ref : string)
| Published (ref : string).

(** The agent's turn is over by what was heard: the first thing that tells is that it is idle. *)
Definition telling (agent : string) (r : Recv) : bool :=
  match r with
  | Transition a (Idle | StatusError | Stopped) => String.eqb a agent
  | Lagged (Some (Idle | StatusError | Stopped)) | Closed => true
  | _ => false
  end.

Definition turn_over (agent : string) (received : list Recv) : bool :=
  match lfind (telling agent) received with
  | Some (Transition _ Idle) | Some (Lagged (Some Idle)) => true
  | _ => false
  end.

Section Protocol.
(** The steps of the spec, and of the run: its branch, workspace, base and id. *)
Context (total : nat) (branch workspace base run_id : string).

Definition may_spawn (n : nat) (ref : string) (req : SpawnReq) : bool :=
  (n <? total)%nat && eqb (sq_fork_base req) (Some ref)
  && eqb (sq_existing_workspace req) (Some workspace) && String.eqb (sq_owner_run_id req) run_id.

Definition proto (ph : Phase) (a : Act) : option Phase :=
  match a, ph with
  | EmitEvent _ _ _ _, _ | EmitRun _, _ | EmitRunDeleted _, _ => Some ph
  | Checkout rev, Start => if String.eqb rev base then Some (Ready 0 base) else None
  | SpawnAgent req a, Ready n ref => if may_spawn n ref req then Some (Working n a) else None
  | SendMessage a _, Working n a' => if String.eqb a a' then Some (Prompted n a') else None
  | Heard a received, Prompted n a' =>
      if String.eqb a a' then Some (if turn_over a received then Ended n a' else ph) else None
  | Commit _, Ended n a => Some ph
  | UpdateRef ref target, Ended n a => if String.eqb target "HEAD" then Some (Pinned n a ref) else None
  | ArchiveAgent a, Pinned n a' ref => if String.eqb a a' then Some (Ready (S n) ref) else None
  | StopAgent _, (Start | Ready _ _ | Working _ _ | Prompted _ _ | Ended _ _ | Pinned _ _ _ | Closing) => Some Closing
  | ArchiveAgent _, Closing => Some Closing
  | Checkout rev, Ready n ref => if (n =? total)%nat && String.eqb rev ref then Some (Publishing ref) else None
  | PushBranch b _, Publishing ref => if String.eqb b branch && is_run_branch b then Some (Published ref) else None
  | UpdateRef ref _, Published ref' => if String.eqb ref ref' then Some ph else None
  | Checkout _, Published _ => Some ph
  | OpenPr b _ _ _, Published _ => if String.eqb b branch then Some ph else None
  | _, _ => None
  end.

Fixpoint run_proto (ph : Phase) (t : list Act) : option Phase :=
  match t with
  | [] => Some ph
  | a :: t => match proto ph a with Some ph => run_proto ph t | None => None end
  end.

Lemma run_proto_app ph t1 t2 ph' :
  run_proto ph t1 = Some ph' -> run_proto ph (t1 ++ t2) = run_proto ph' t2.
Proof.
  revert ph. induction t1 as [|a t1 IH]; intros ph; simpl; [by intros [= ->]|].
  destruct (proto ph a); [apply IH|done].
Qed.

(** ** What acceptance implies *)

(** What a trace tells: the agents spawned, those told their step, those whose turn was heard to be
    over, those archived; the refs pinned, the commits checked out, the branches pushed. *)
Definition spawned (t : list Act) : list string := omap (fun a => match a with SpawnAgent _ g => Some g | _ => None end) t.
Definition told (t : list Act) : list string := omap (fun a => match a with SendMessage g _ => Some g | _ => None end) t.
Definition ended (t : list Act) : list string :=
  omap (fun a => match a with Heard g received => if turn_over g received then Some g else None | _ => None end) t.
Definition archived (t : list Act) : list string := omap (fun a => match a with ArchiveAgent g => Some g | _ => None end) t.
Definition pinned (t : list Act) : list string := omap (fun a => match a with UpdateRef ref _ => Some ref | _ => None end) t.
Definition checked_out (t : list Act) : list string := omap (fun a => match a with Checkout rev => Some rev | _ => None end) t.
Definition pushed (t : list Act) : list string := omap (fun a => match a with PushBranch b _ => Some b | _ => None end) t.

(** The steps finished: every agent spawned was told its step, ended its turn and was archived, one
    after the other, and one ref was pinned for each; [ref] is the last one, or the base. *)
Definition steps_done (n : nat) (ref : string) (t : list Act) : Prop :=
  length (spawned t) = n /\ told t = spawned t /\ ended t = spawned t /\ archived t = spawned t /\
  length (pinned t) = n /\ ref = default base (last (pinned t)).

(** What the trace is where a drive stands, inside the steps. *)
Definition tells (ph : Phase) (t : list Act) : Prop :=
  match ph with
  | Start => spawned t = [] /\ told t = [] /\ ended t = [] /\ archived t = [] /\ pinned t = []
  | Ready n ref => steps_done n ref t
  | Working n a => exists l, length l = n /\ spawned t = l ++ [a] /\ told t = l /\ ended t = l /\ archived t = l /\
      length (pinned t) = n
  | Prompted n a => exists l, length l = n /\ spawned t = l ++ [a] /\ told t = l ++ [a] /\ ended t = l /\ archived t = l /\
      length (pinned t) = n
  | Ended n a => exists l, length l = n /\ spawned t = l ++ [a] /\ told t = l ++ [a] /\ ended t = l ++ [a] /\ archived t = l /\
      length (pinned t) = n
  | Pinned n a ref => exists l, length l = n /\ spawned t = l ++ [a] /\ told t = l ++ [a] /\ ended t = l ++ [a] /\ archived t = l /\
      length (pinned t) = S n /\ last (pinned t) = Some ref
  | Closing => True
  | Publishing ref => steps_done total ref t /\ last (checked_out t) = Some ref
  | Published _ => True
  end.

Lemma tells_step ph t a ph' : proto ph a = Some ph' -> tells ph t -> tells ph' (t ++ [a]).
Proof.
  unfold tells, steps_done.
  assert (spawned (t ++ [a]) = spawned t ++ spawned [a] /\ told (t ++ [a]) = told t ++ told [a] /\
    ended (t ++ [a]) = ended t ++ ended [a] /\ archived (t ++ [a]) = archived t ++ archived [a] /\
    pinned (t ++ [a]) = pinned t ++ pinned [a] /\ checked_out (t ++ [a]) = checked_out t ++ checked_out [a])
    as (-> & -> & -> & -> & -> & ->) by (split_and!; apply omap_app).
  generalize (spawned t) (told t) (ended t) (archived t) (pinned t) (checked_out t). clear t.
  intros sp tl en ar pi co E HT.
  destruct a; cbn [spawned told ended archived pinned checked_out omap list_omap]; rewrite ?app_nil_r;
    try (destruct ph; try discriminate E; injection E as <-; exact HT).
  - destruct ph as [|n ref| | | | | | |]; try discriminate E. cbn [proto] in E. destruct (may_spawn n ref req); [|done].
    injection E as <-. destruct HT as (<- & -> & -> & -> & ? & _). by exists sp.
  - destruct ph as [| |n g| | | | | |]; try discriminate E. cbn [proto] in E.
    destruct (String.eqb_spec agent g) as [->|]; [|done]. injection E as <-.
    destruct HT as (l & ? & ? & -> & ?). by exists l.
  - destruct ph as [| | |n g| | | | |]; try discriminate E. cbn [proto] in E.
    destruct (String.eqb_spec agent g) as [->|]; [|done]. injection E as <-.
    destruct HT as (l & ? & ? & ? & -> & ?). destruct (turn_over g received); [|rewrite app_nil_r]; by exists l.
  - destruct ph; try discriminate E; cbn [proto] in E; by injection E as <-.
  - destruct ph as [| | | | |n g ref|  | |]; try discriminate E; cbn [proto] in E; [|by injection E as <-].
    destruct (String.eqb_spec agent g) as [->|]; [|done]. injection E as <-.
    destruct HT as (l & <- & -> & -> & -> & -> & Hp & Hl). rewrite Hl, length_app, Nat.add_1_r. by split_and!.
  - destruct ph as [|n ref| | | | | | |]; try discriminate E; cbn [proto] in E.
    + destruct (String.eqb_spec rev base) as [->|]; [|done]. injection E as <-.
      destruct HT as (-> & -> & -> & -> & ->). by split_and!.
    + destruct (Nat.eqb_spec n total) as [->|]; [|done]. destruct (String.eqb_spec rev ref) as [->|]; [|done].
      injection E as <-. split; [exact HT|]. by rewrite last_snoc.
    + by injection E as <-.
  - destruct ph as [| | | |n g| | | |]; try discriminate E; cbn [proto] in E.
    + destruct (String.eqb target "HEAD"); [|done]. injection E as <-.
      destruct HT as (l & ? & ? & ? & ? & ? & Hp). exists l. rewrite last_snoc, length_app, Nat.add_1_r, Hp. by split_and!.
    + destruct (String.eqb _ _); [|done]. by injection E as <-.
  - destruct ph; try discriminate E. cbn [proto] in E. destruct (_ && _); [|done]. by injection E as <-.
  - destruct ph; try discriminate E. cbn [proto] in E. destruct (String.eqb _ _); [|done]. by injection E as <-.
Qed.

Lemma run_tells ph t0 t ph' : run_proto ph t = Some ph' -> tells ph t0 -> tells ph' (t0 ++ t).
Proof.
  revert ph t0. induction t as [|a t IH]; intros ph t0; cbn [run_proto]; [intros [= ->]; by rewrite app_nil_r|].
  destruct (proto ph a) as [ph1|] eqn:E; [|done]. intros Hr Hk.
  change (a :: t) with ([a] ++ t). rewrite app_assoc. eapply IH; [exact Hr|]. by eapply tells_step.
Qed.

Lemma run_proto_inv ph t1 a t2 ph' : run_proto ph (t1 ++ a :: t2) = Some ph' ->
  exists ph1 ph2, run_proto ph t1 = Some ph1 /\ proto ph1 a = Some ph2 /\ run_proto ph2 t2 = Some ph'.
Proof.
  revert ph. induction t1 as [|b t1 IH]; intros ph; cbn [app run_proto].
  - destruct (proto ph a) as [ph2|] eqn:E; [|done]. by exists ph, ph2.
  - destruct (proto ph b) as [ph1|]; [apply IH|done].
Qed.

Lemma proto_push ph b tip ph' :
  proto ph (PushBranch b tip) = Some ph' ->
  exists ref, ph = Publishing ref /\ ph' = Published ref /\ b = branch /\ is_run_branch b = true.
Proof.
  destruct ph; try done. cbn [proto]. destruct (String.eqb b branch) eqn:E; [|done].
  apply String.eqb_eq in E. destruct (is_run_branch b) eqn:Hb; [|done]. intros [= <-]. eauto.
Qed.

(** After the push the drive only notes what went out, asks for a pull request and looks at it. *)
Lemma published_once ref t ph' : run_proto (Published ref) t = Some ph' -> ph' = Published ref /\ pushed t = [] /\ spawned t = [].
Proof.
  induction t as [|a t IH]; [by intros [= <-]|]. cbn [run_proto].
  destruct (proto (Published ref) a) as [ph1|] eqn:E; [|done].
  assert (ph1 = Published ref /\ pushed [a] = [] /\ spawned [a] = []) as (-> & Hp & Hs).
  { destruct a; cbn [proto] in E; try discriminate E;
      repeat match type of E with (if ?b then _ else _) = _ => destruct b; [|discriminate E] end;
      by injection E as <-. }
  intros Hr. destruct (IH Hr) as (? & Hp' & Hs'). unfold pushed, spawned in *. cbn [omap list_omap] in *.
  by destruct a.
Qed.

Lemma pushed_some t : pushed t <> [] -> exists t1 b tip t2, t = t1 ++ PushBranch b tip :: t2.
Proof.
  induction t as [|a t IH]; [done|]. unfold pushed. cbn [omap list_omap]. destruct a; try (intros Hp;
    destruct (IH Hp) as (t1 & b & tip & t2 & ->); eexists (_ :: t1), b, tip, t2; reflexivity).
  intros _. by exists [], branch0, commit, t.
Qed.

(** Nothing but the run's own branch is pushed, once, with every step finished before. *)
Lemma pushed_last t1 b tip t2 ph' :
  run_proto Start (t1 ++ PushBranch b tip :: t2) = Some ph' ->
  b = branch /\ is_run_branch b = true /\ pushed (t1 ++ t2) = [] /\
  exists ref, steps_done total ref t1 /\ last (checked_out t1) = Some ref /\ spawned t2 = [].
Proof.
  intros (ph1 & ph2 & E1 & E2 & E3)%run_proto_inv. apply proto_push in E2 as (ref & -> & -> & Hb & Hr).
  destruct (published_once _ _ _ E3) as (_ & Hp2 & Hs2). split; [done|]. split; [done|]. split.
  - unfold pushed in *. rewrite omap_app, Hp2, app_nil_r. destruct (decide (pushed t1 = [])) as [|Hne]; [done|].
    exfalso. apply pushed_some in Hne as (u & b' & tip' & v & ->).
    apply run_proto_inv in E1 as (ph3 & ph4 & _ & E4 & E5). apply proto_push in E4 as (ref' & _ & -> & _).
    by destruct (published_once _ _ _ E5).
  - apply (run_tells Start []) in E1 as [Hd Hl]; [|done]. by exists ref.
Qed.

(** ** Programs that keep to the protocol *)

Context `{World} `{Codec} `{Host} (t0 : list Act).

(** The trace since [t0] is accepted and leaves the drive in a phase of [R]. *)
Definition at_phase (R : Phase -> Prop) (d : WfDb) : Prop :=
  exists t ph, wf_trace d = t0 ++ t /\ run_proto Start t = Some ph /\ R ph.

Lemma at_phase_trace R d d' : wf_trace d' = wf_trace d -> at_phase R d -> at_phase R d'.
Proof. intros He (t & ph & Ht & Hp). exists t, ph. by rewrite He. Qed.

Lemma at_phase_impl (R R' : Phase -> Prop) d : (forall ph, R ph -> R' ph) -> at_phase R d -> at_phase R' d.
Proof. intros Hi (t & ph & Ht & Hp & HR). exists t, ph. auto. Qed.

Lemma at_phase_act (R R' : Phase -> Prop) a d :
  (forall ph, R ph -> exists ph', proto ph a = Some ph' /\ R' ph') ->
  at_phase R d -> at_phase R' (set_trace (fun t => t ++ [a]) d).
Proof.
  intros Ha (t & ph & Ht & Hp & HR). destruct (Ha ph HR) as (ph' & Hph & HR').
  exists (t ++ [a]), ph'. split; [cbn [set_trace wf_trace]; by rewrite Ht, app_assoc|].
  split; [|done]. rewrite (run_proto_app _ _ _ _ Hp). simpl. by rewrite Hph.
Qed.

Lemma act_phase (R R' : Phase -> Prop) a E :
  (forall ph, R ph -> exists ph', proto ph a = Some ph' /\ R' ph') ->
  triple (at_phase R) (act a) (fun _ => at_phase R') E.
Proof. intros Ha c Hc. by apply (at_phase_act R). Qed.

(** Programs whose effects are only events to the client, or none: they keep every phase. *)
Local Abbreviation quiet m := (forall R, preserves (at_phase R) m).

Lemma at_phase_closed R : closed (at_phase R).
Proof.
  intros run. split; [split|split|..]; try by intros; eapply at_phase_trace.
  intros d a Ha. apply at_phase_act. intros ph Hph. exists ph. by destruct a.
Qed.

#[local] Hint Resolve at_phase_closed : fletch.

Lemma host_quiet {A} (f : nat -> A) : quiet (host f).
Proof. by intros R c. Qed.

Lemma host_try_quiet {A} (f : nat -> result A string) : quiet (host_try f).
Proof. intros R. apply preserves_bind; [apply host_quiet|]. intros r. apply preserves_reads. auto with fletch. Qed.

Lemma write_canceled_quiet run : quiet (write_canceled run).
Proof. intros R. unfold write_canceled. preserving. Qed.

#[local] Hint Resolve write_canceled_quiet host_quiet host_try_quiet : fletch.

(** ** The kernel's parts, as triples over phases *)

Definition stoppable (ph : Phase) : Prop :=
  match ph with Publishing _ | Published _ => False | _ => True end.

(** A quiet program under a phase. *)
Lemma quiet_triple {A} (m : M WfDb A) R : quiet m -> triple (at_phase R) m (fun _ => at_phase R) (at_phase R).
Proof. intros Hm. apply triple_preserves, Hm. Qed.

(** Inside a step: the phase on success, anything stoppable on failure. *)
Lemma quiet_step {A B} (m : M WfDb A) (k : A -> M WfDb B) R Q :
  (forall ph, R ph -> stoppable ph) -> quiet m ->
  (forall a, triple (at_phase R) (k a) Q (at_phase stoppable)) ->
  triple (at_phase R) (bind m k) Q (at_phase stoppable).
Proof.
  intros HR Hm Hk. eapply triple_bind; [|exact Hk].
  eapply triple_weaken; [by apply quiet_triple|done|done|]. intros d. by apply at_phase_impl.
Qed.

Lemma quiet_last {A} (m : M WfDb A) R :
  (forall ph, R ph -> stoppable ph) -> quiet m ->
  triple (at_phase R) m (fun _ => at_phase stoppable) (at_phase stoppable).
Proof.
  intros HR Hm. eapply triple_weaken; [by apply (quiet_triple m R)|done| |]; intros; by eapply at_phase_impl.
Qed.

Lemma stop_triple R a :
  (forall ph, R ph -> stoppable ph) ->
  triple (at_phase R) (driver_stop a) (fun _ => at_phase (eq Closing)) (at_phase stoppable).
Proof.
  intros HR. apply act_phase. intros ph Hph. specialize (HR ph Hph). exists Closing. by destruct ph.
Qed.

Lemma build_spawn_req_triple R spec fork repo w :
  triple (at_phase R) (build_spawn_req spec fork repo workspace run_id w)
    (fun req d => at_phase R d /\ sq_fork_base req = Some fork /\
       sq_existing_workspace req = Some workspace /\ sq_owner_run_id req = run_id) (at_phase R).
Proof.
  unfold build_spawn_req. eapply triple_bind; [apply triple_reads, resolve_reads|]. intros d.
  eapply (triple_bind _ _ _ (fun _ => at_phase R)).
  - destruct w; [apply quiet_triple; auto with fletch|by apply triple_ret].
  - intros ?. apply triple_ret. auto.
Qed.

(** Where the agent-facing half of a step leaves the drive. *)
Definition step_end_phase (n : nat) (r : Await StepEnd) : Phase -> Prop :=
  match r with Resolved (TurnEnded a) => eq (Ended n a) | _ => stoppable end.

Lemma await_ready_quiet a : quiet (await_agent_ready a).
Proof. intros R. unfold await_agent_ready. preserving. Qed.

(** What the loop takes for the end of the turn is what tells it, first. *)
Lemma await_turn_loop_over a rs : await_turn_loop a rs = Some (Ok ()) -> turn_over a rs = true.
Proof.
  unfold turn_over. induction rs as [|x rs IH]; [done|]. cbn [await_turn_loop lfind].
  destruct x as [a' s|now|]; cbn [telling]; [| |done].
  - destruct (String.eqb a' a) eqn:E; [|by destruct s]. destruct s; cbn [turn_status]; rewrite ?E; by auto.
  - destruct now as [s|]; cbn [turn_status]; [|by auto]. by destruct s; cbn [turn_status]; auto.
Qed.

Lemma await_turn_triple n a :
  triple (at_phase (eq (Prompted n a))) (await_turn_end a)
    (fun r => at_phase (match r with Resolved (Ok _) => eq (Ended n a) | _ => stoppable end)) (at_phase stoppable).
Proof.
  unfold await_turn_end. apply quiet_step; [by intros ph <-|apply host_quiet|intros [rs last]].
  apply (triple_bind _ _ _ (fun _ => at_phase (eq (if turn_over a rs then Ended n a else Prompted n a)))).
  { apply act_phase. intros ph <-. cbn [proto]. rewrite String.eqb_refl. by eexists. }
  intros ?. destruct (await_turn_loop a rs) as [[[]|e]|] eqn:E; apply triple_ret; intros d; apply at_phase_impl.
  - by rewrite (await_turn_loop_over a rs E).
  - by intros ph <-; destruct (turn_over a rs).
  - by intros ph <-; destruct (turn_over a rs).
Qed.

Lemma drive_step_triple n ref run exec req prompt :
  may_spawn n ref req = true ->
  triple (at_phase (eq (Ready n ref))) (drive_step run exec req prompt)
    (fun r => at_phase (step_end_phase n r)) (at_phase stoppable).
Proof.
  intros Hreq. assert (Hst : forall a ph, Working n a = ph -> stoppable ph) by (by intros a ph <-).
  unfold drive_step, prompt_step.
  apply (triple_bind _ _ _ (fun r => match r with
    | Resolved (Ok a) => at_phase (eq (Working n a)) | _ => at_phase (eq (Ready n ref)) end)).
  { unfold driver_spawn. eapply triple_bind; [eapply triple_weaken;
      [apply quiet_triple; intros R; apply host_quiet|done|done|]; intros d; apply at_phase_impl; by intros ? <-|].
    intros r. eapply (triple_bind _ _ _ (fun _ => match r with
      | Resolved (Ok a) => at_phase (eq (Working n a)) | _ => at_phase (eq (Ready n ref)) end)).
    - destruct r as [[a|e]|i]; [|by apply triple_ret..]. apply act_phase. intros ph <-.
      exists (Working n a). cbn [proto]. by rewrite Hreq.
    - intros ?. by apply triple_ret. }
  intros [[a|e]|i].
  2,3: apply triple_ret; intros d; apply at_phase_impl; by intros ? <-.
  apply quiet_step; [apply Hst|auto with fletch|intros ?].
  apply quiet_step; [apply Hst|intros R; apply journal_event_closed; auto with fletch|intros ?].
  apply quiet_step; [apply Hst|apply await_ready_quiet|].
  intros [[u|e]|i]; [|apply triple_ret; intros d; apply at_phase_impl; by intros ? <-..].
  apply quiet_step; [apply Hst|intros R; apply journal_event_closed; auto with fletch|intros ?].
  apply (triple_bind _ _ _ (fun r => at_phase (eq (match r with Resolved (Ok _) => Prompted n a | _ => Working n a end)))).
  { unfold driver_send. apply quiet_step; [apply Hst|apply host_quiet|intros r].
    apply (triple_bind _ _ _ (fun _ => at_phase (eq (match r with Resolved (Ok _) => Prompted n a | _ => Working n a end))));
      [|intros ?; by apply triple_ret].
    destruct r as [[[]|e]|i]; [|by apply triple_ret..]. apply act_phase. intros ph <-.
    exists (Prompted n a). cbn [proto]. by rewrite String.eqb_refl. }
  intros [[u'|e]|i]; [|apply triple_ret; intros d; apply at_phase_impl; by intros ? <-..].
  apply quiet_step; [by intros ph <-|intros R; apply journal_event_closed; auto with fletch|intros ?].
  eapply triple_bind; [apply await_turn_triple|].
  intros [[u2|e]|i]; [| |apply triple_ret; intros d; apply at_phase_impl; by intros ?].
  - apply quiet_step; [by intros ph <-|intros R; apply journal_event_closed; auto with fletch|intros ?]. by apply triple_ret.
  - apply quiet_step; [done|intros R; apply journal_event_closed; auto with fletch|intros ?]. by apply triple_ret.
Qed.

Definition race_phase (n : nat) (r : option StepEnd) : Phase -> Prop :=
  match r with Some (TurnEnded a) => eq (Ended n a) | _ => stoppable end.

Lemma race_step_triple n ref run exec req prompt :
  may_spawn n ref req = true ->
  triple (at_phase (eq (Ready n ref))) (race_step run exec req prompt)
    (fun r => at_phase (race_phase n r)) (at_phase stoppable).
Proof.
  intros Hreq. unfold race_step. eapply triple_bind; [by apply drive_step_triple|].
  intros [e|[|]]; cbn [step_end_phase].
  - apply triple_ret. by destruct e.
  - apply quiet_step; [done|intros R; auto with fletch|]. intros a. by apply triple_ret.
  - by apply triple_ret.
Qed.

(** Closing a run down keeps what was stoppable stoppable. *)
Lemma option_stop_triple R o :
  (forall ph, R ph -> stoppable ph) ->
  triple (at_phase R) (match o with Some a => driver_stop a | None => ret () end)
    (fun _ => at_phase (fun ph => stoppable ph /\ (is_Some o -> ph = Closing))) (at_phase stoppable).
Proof.
  intros HR. destruct o as [a|].
  - eapply triple_weaken; [by apply stop_triple|done| |done]. intros ? d. apply at_phase_impl. by intros ph <-.
  - apply triple_ret. intros d. apply at_phase_impl. intros ph Hph. split; [by apply HR|]. by intros [? ?].
Qed.

Lemma fail_step_triple R run exec o s e :
  attempt_status_ok s = true -> (forall ph, R ph -> stoppable ph) ->
  triple (at_phase R) (fail_step run exec o s e) (fun _ => at_phase stoppable) (at_phase stoppable).
Proof.
  intros Hs HR. unfold fail_step. eapply triple_bind; [by apply option_stop_triple|intros ?].
  apply quiet_step; [by intros ph []|intros R'; auto with fletch|intros ?].
  apply quiet_step; [by intros ph []|intros R'; auto with fletch|intros ?].
  apply quiet_last; [by intros ph []|intros R'; auto with fletch].
Qed.

Lemma cancel_step_triple run exec :
  triple (at_phase stoppable) (cancel_step run exec) (fun _ => at_phase stoppable) (at_phase stoppable).
Proof.
  unfold cancel_step. apply quiet_step; [done|intros R; auto with fletch|]. intros o.
  eapply triple_bind; [by apply option_stop_triple|intros ?].
  apply quiet_step; [by intros ph []|intros R; auto with fletch|intros ?].
  apply (triple_bind _ _ _ (fun _ => at_phase stoppable)); [|intros ?; apply quiet_triple; auto with fletch].
  destruct o as [ag|]; [|apply triple_ret; intros d; apply at_phase_impl; by intros ph []].
  apply act_phase. intros ph [_ Hc]. exists Closing. by rewrite (Hc ltac:(by eexists)).
Qed.

Lemma stop_all_triple l :
  triple (at_phase stoppable) (stop_all l) (fun _ => at_phase stoppable) (at_phase stoppable).
Proof.
  induction l as [|a l IH]; [by apply triple_ret|]. cbn [stop_all]. eapply triple_bind; [by apply stop_triple|].
  intros ?. eapply triple_weaken; [exact IH| |done|done]. intros d. apply at_phase_impl. by intros ph <-.
Qed.

Lemma cancel_run_triple R run :
  (forall ph, R ph -> stoppable ph) ->
  triple (at_phase R) (cancel_run run) (fun _ => at_phase stoppable) (at_phase stoppable).
Proof.
  intros HR. apply (triple_weaken _ (at_phase stoppable) _ _ (fun _ => at_phase stoppable) _ (at_phase stoppable));
    [|intros d; by apply at_phase_impl|done|done].
  unfold cancel_run. apply quiet_step; [done|intros R'; auto with fletch|]. intros l.
  eapply triple_bind; [apply stop_all_triple|]. intros ?. apply quiet_triple. auto with fletch.
Qed.

Lemma abandon_all_triple run l :
  triple (at_phase stoppable) (abandon_all run l) (fun _ => at_phase stoppable) (at_phase stoppable).
Proof.
  induction l as [|[exec o] l IH]; [by apply triple_ret|]. cbn [abandon_all].
  eapply triple_bind; [by apply option_stop_triple|intros ?].
  apply quiet_step; [by intros ph []|intros R; auto with fletch|intros ?].
  eapply triple_weaken; [exact IH| |done|done]. intros d. apply at_phase_impl. by intros ph [].
Qed.

Lemma refuse_resume_triple run :
  triple (at_phase stoppable) (refuse_resume run) (fun _ => at_phase stoppable) (at_phase stoppable).
Proof.
  unfold refuse_resume. apply quiet_step; [done|intros R; preserving|]. intros stale.
  eapply triple_bind; [apply abandon_all_triple|]. intros ?. apply quiet_triple. auto with fletch.
Qed.

(** ** A step that ended its turn *)

Lemma evaluate_gate_quiet g b s : quiet (evaluate_gate g b s).
Proof. intros R. unfold evaluate_gate. preserving. Qed.

Lemma boundary_commit_triple n a msg :
  triple (at_phase (eq (Ended n a))) (boundary_commit msg)
    (fun _ => at_phase (eq (Ended n a))) (at_phase stoppable).
Proof.
  assert (Hst : forall ph, Ended n a = ph -> stoppable ph) by (by intros ph <-).
  unfold boundary_commit. apply quiet_step; [done|apply host_try_quiet|intros ?].
  apply quiet_step; [done|apply host_try_quiet|intros clean].
  apply (triple_bind _ _ _ (fun _ => at_phase (eq (Ended n a)))).
  - destruct clean; [by apply triple_ret|]. apply quiet_step; [done|apply host_try_quiet|intros ?].
    apply act_phase. intros ph <-. by eexists.
  - intros ?. eapply triple_weaken; [apply quiet_triple; intros R; apply host_try_quiet|done|done|].
    intros d. apply at_phase_impl, Hst.
Qed.

Lemma commit_step_triple n a exec msg :
  triple (at_phase (eq (Ended n a))) (commit_step exec msg)
    (fun _ => at_phase (eq (Pinned n a (step_ref exec)))) (at_phase stoppable).
Proof.
  unfold commit_step. eapply triple_bind; [apply boundary_commit_triple|]. intros head.
  apply (triple_bind _ _ _ (fun _ => at_phase (eq (Pinned n a (step_ref exec))))); [|intros ?; by apply triple_ret].
  unfold pin_step_ref.
  apply quiet_step; [by intros ph <-|apply host_try_quiet|intros ?].
  apply (triple_bind _ _ _ (fun _ => at_phase (eq (Pinned n a (step_ref exec))))); [|intros ?; by apply triple_ret].
  apply act_phase. intros ph <-. by eexists.
Qed.

Lemma close_step_triple n a run spec step exec :
  triple (at_phase (eq (Ended n a))) (close_step run spec step exec a)
    (fun b => at_phase (if b : bool then eq (Ready (S n) (step_ref exec)) else stoppable)) (at_phase stoppable).
Proof.
  assert (Hst : forall ph, Ended n a = ph -> stoppable ph) by (by intros ph <-).
  unfold close_step. apply quiet_step; [done|apply evaluate_gate_quiet|intros gate].
  apply quiet_step; [done|intros R; apply journal_event_closed; auto with fletch|intros ?].
  destruct gate as [u|reason]; [|eapply triple_bind; [by apply fail_step_triple|intros ?; by apply triple_ret]].
  eapply triple_bind; [eapply triple_attempt, commit_step_triple|]. intros [head|e].
  - apply quiet_step; [by intros ph <-|intros R; auto with fletch|intros ?].
    apply quiet_step; [by intros ph <-|intros R; auto with fletch|intros ?].
    apply (triple_bind _ _ _ (fun _ => at_phase (eq (Ready (S n) (step_ref exec))))); [|intros ?; by apply triple_ret].
    apply act_phase. intros ph <-. exists (Ready (S n) (step_ref exec)). cbn [proto]. by rewrite String.eqb_refl.
  - eapply triple_bind; [by apply fail_step_triple|intros ?; by apply triple_ret].
Qed.

(** ** The loop and the end *)

Lemma run_step_triple n ref run spec atts step :
  wr_id run = run_id -> n < total ->
  triple (at_phase (eq (Ready n ref))) (run_step run spec workspace atts n step ref)
    (fun r => at_phase (match r with Some e => eq (Ready (S n) (step_ref e)) | None => stoppable end))
    (at_phase stoppable).
Proof.
  intros Hid Hn. assert (Hst : forall ph, Ready n ref = ph -> stoppable ph) by (by intros ph <-).
  unfold run_step. rewrite Hid. apply quiet_step; [done|apply host_quiet|intros canceled].
  destruct canceled; [eapply triple_bind; [by apply cancel_run_triple|intros ?; by apply triple_ret]|].
  apply quiet_step; [done|intros R; apply preserves_reads; auto with fletch|intros agent_spec].
  apply quiet_step; [done|intros R; apply preserves_reads; auto with fletch|intros uuid].
  apply quiet_step; [done|intros R; auto with fletch|intros ?].
  eapply triple_bind.
  { eapply triple_weaken; [apply build_spawn_req_triple|done|intros; eassumption|]. intros d. by apply at_phase_impl. }
  intros req. apply triple_pure. intros (Hf & Hw & Ho).
  assert (Hreq : may_spawn n ref req = true).
  { unfold may_spawn. by rewrite (proj2 (Nat.ltb_lt _ _) Hn), Hf, Hw, Ho, !eqb_refl, String.eqb_refl. }
  eapply triple_bind; [by apply race_step_triple|]. intros [[agent|o e]|]; cbn [race_phase].
  - eapply triple_bind; [apply close_step_triple|]. intros []; by apply triple_ret.
  - eapply triple_bind; [by apply fail_step_triple|intros ?; by apply triple_ret].
  - eapply triple_bind; [apply cancel_step_triple|intros ?; by apply triple_ret].
Qed.

(** The exec whose ref the workspace stands at. *)
Definition stands_at (last : option string) (ref : string) : Prop :=
  match last with Some e => ref = step_ref e | None => True end.

Lemma run_steps_triple run spec atts steps n ref last :
  wr_id run = run_id -> (n + length steps)%nat = total -> stands_at last ref ->
  triple (at_phase (eq (Ready n ref))) (run_steps run spec workspace atts n steps ref last)
    (fun r => at_phase (fun ph => match r with
       | Some last => exists ref, ph = Ready total ref /\ stands_at last ref
       | None => stoppable ph end)) (at_phase stoppable).
Proof.
  intros Hid. revert n ref last. induction steps as [|step steps IH]; intros n ref last Hn Hl; cbn [run_steps].
  - apply triple_ret. intros d. apply at_phase_impl. intros ph <-. exists ref. split; [|done].
    f_equal. simpl in Hn. lia.
  - cbn [length] in Hn. eapply triple_bind; [apply run_step_triple; [done|lia]|]. intros [e|].
    + apply (IH (S n) (step_ref e) (Some e)); [lia|done].
    + by apply triple_ret.
Qed.

Definition anywhere (ph : Phase) : Prop := True.

Lemma at_anywhere R d : at_phase R d -> at_phase anywhere d.
Proof. apply at_phase_impl. by intros. Qed.

Lemma quiet_any {A} (m : M WfDb A) R : quiet m -> triple (at_phase R) m (fun _ => at_phase anywhere) (at_phase anywhere).
Proof. intros Hm. eapply triple_weaken; [by apply (quiet_triple m R)|done| |].
  - intros ? d. apply at_anywhere.
  - intros d. apply at_anywhere.
 Qed.

Lemma quiet_then {A B} (m : M WfDb A) (k : A -> M WfDb B) R Q :
  quiet m -> (forall a, triple (at_phase R) (k a) Q (at_phase anywhere)) ->
  triple (at_phase R) (bind m k) Q (at_phase anywhere).
Proof.
  intros Hm Hk. eapply triple_bind; [|exact Hk].
  eapply triple_weaken; [by apply quiet_triple|done|done|]. intros d. by apply at_anywhere.
Qed.

Lemma act_then {B} a (k : () -> M WfDb B) R R' Q :
  (forall ph, R ph -> exists ph', proto ph a = Some ph' /\ R' ph') ->
  triple (at_phase R') (k ()) Q (at_phase anywhere) ->
  triple (at_phase R) (bind (act a) k) Q (at_phase anywhere).
Proof. intros Ha Hk. eapply triple_bind; [by apply act_phase|]. by intros []. Qed.

Lemma checkout_any R R' rev :
  (forall ph, R ph -> exists ph', proto ph (Checkout rev) = Some ph' /\ R' ph') ->
  triple (at_phase R) (checkout rev) (fun _ => at_phase R') (at_phase anywhere).
Proof. intros Ha. unfold checkout. apply quiet_then; [intros R''; apply host_try_quiet|intros ?]. by apply act_phase. Qed.

Lemma finalize_triple ref title base' body open_pr :
  triple (at_phase (eq (Ready total ref))) (finalize ref branch base' title body open_pr)
    (fun o => at_phase anywhere) (at_phase anywhere).
Proof.
  unfold finalize. destruct (is_run_branch branch) eqn:Hb; cbn [negb];
    [|apply triple_err; intros d; by apply at_anywhere].
  eapply triple_bind; [apply (checkout_any _ (eq (Publishing ref)))|intros ?].
  { intros ph <-. cbn [proto]. rewrite Nat.eqb_refl, String.eqb_refl. by eexists. }
  apply quiet_then; [intros R; apply host_try_quiet|intros head].
  apply quiet_then; [intros R; apply host_try_quiet|intros tip].
  apply (act_then _ _ _ (eq (Published ref))).
  { intros ph <-. cbn [proto]. rewrite String.eqb_refl, Hb. by eexists. }
  apply (triple_bind _ _ _ (fun _ => at_phase (eq (Published ref)))).
  - destruct (String.eqb tip head); [by apply triple_ret|].
    apply quiet_then; [intros R; apply host_try_quiet|intros ?].
    apply (act_then _ _ _ (eq (Published ref))); [|apply checkout_any; intros ph <-; by eexists].
    intros ph <-. cbn [proto]. rewrite String.eqb_refl. by eexists.
  - intros ?. destruct open_pr; [|apply triple_ret; intros d; by apply at_anywhere].
    apply quiet_then; [apply host_quiet|]. intros [[url number]|e]; [|apply triple_ret; intros d; by apply at_anywhere].
    apply (act_then _ _ _ (eq (Published ref))); [|apply triple_ret; intros d; by apply at_anywhere].
    intros ph <-. cbn [proto]. rewrite String.eqb_refl. by eexists.
Qed.

Lemma finalize_run_triple run spec ref last :
  wr_branch run = branch -> stands_at last ref ->
  triple (at_phase (eq (Ready total ref))) (finalize_run run spec last)
    (fun _ => at_phase anywhere) (at_phase anywhere).
Proof.
  intros Hb Hl. unfold finalize_run.
  destruct (sp_finalize spec) as [fin|]; [|apply triple_ret; intros d; by apply at_anywhere].
  destruct (fz_push fin); cbn [negb]; [|apply triple_ret; intros d; by apply at_anywhere].
  destruct last as [e|]; [|apply triple_ret; intros d; by apply at_anywhere]. cbn [stands_at] in Hl.
  rewrite Hb, <- Hl. eapply triple_bind; [apply finalize_triple|]. intros o.
  apply quiet_then; [intros R; auto with fletch|intros ?].
  destruct (fo_pr_url o); [|destruct (fo_pr_error o); [apply quiet_any; auto with fletch|by apply triple_ret]].
  apply quiet_then; [intros R; auto with fletch|intros ?]. apply quiet_any. auto with fletch.
Qed.

(** What a drive does once every step is done. *)
Lemma finish_triple run spec last :
  wr_branch run = branch ->
  triple (at_phase (fun ph => exists ref, ph = Ready total ref /\ stands_at last ref))
    (let* _ := finalize_run run spec last in
     let* _ := journal_event (wr_id run) "run_done" None (JObj []) in set_status (wr_id run) "done" None)
    (fun _ => at_phase anywhere) (at_phase anywhere).
Proof.
  intros Hb c (t & ph & Ht & Hp & ref & -> & Hs).
  assert (Hc : at_phase (eq (Ready total ref)) (c_db c)) by (by exists t, (Ready total ref)).
  match goal with |- match ?m c with _ => _ end =>
    enough (triple (at_phase (eq (Ready total ref))) m (fun _ => at_phase anywhere) (at_phase anywhere)) as Hall
      by exact (Hall c Hc) end.
  eapply triple_bind; [by apply finalize_run_triple|intros ?].
  apply quiet_then; [intros R; apply journal_event_closed; auto with fletch|intros ?].
  apply quiet_any. intros R. apply set_status_closed; auto with fletch.
Qed.
End Protocol.

#[export] Hint Resolve at_phase_closed : fletch.

(** ** The drive *)

Section Drive.
Context `{World} `{Codec} `{Host}.

(** How many steps a run's spec has. *)
Definition steps_of (r : WfRun) : nat :=
  match parse_spec (wr_spec_json r) with Ok spec => length (sp_workflow spec) | Err _ => 0 end.

Definition accepted (r : WfRun) (ph : Phase) (t : list Act) : option Phase :=
  run_proto (steps_of r) (wr_branch r) (run_repo_path (wr_run_dir r)) (wr_base_sha r) (wr_id r) ph t.

Definition drive_phase (r : WfRun) (t0 : list Act) (R : Phase -> Prop) (d : WfDb) : Prop :=
  at_phase (steps_of r) (wr_branch r) (run_repo_path (wr_run_dir r)) (wr_base_sha r) (wr_id r) t0 R d.

Lemma drive_run_triple r t0 :
  triple (drive_phase r t0 (eq Start)) (drive_run r) (fun _ => drive_phase r t0 anywhere) (drive_phase r t0 anywhere).
Proof.
  unfold drive_run, drive_phase, steps_of.
  destruct (parse_spec (wr_spec_json r)) as [spec|e]; [|intros c Hc; by apply at_anywhere in Hc].
  eapply triple_bind; [apply triple_lift; [intros a d Ha Hd; exact (conj Hd Ha)|done]|].
  intros spec'. apply triple_pure. intros [= <-]. unfold provision_run_repo.
  apply (triple_bind _ _ _ (fun w d => at_phase (length (sp_workflow spec)) (wr_branch r)
    (run_repo_path (wr_run_dir r)) (wr_base_sha r) (wr_id r) t0 (eq Start) d /\ w = run_repo_path (wr_run_dir r))).
  { apply quiet_then; [intros R; apply host_try_quiet|intros ?]. by apply triple_ret. }
  intros w. apply triple_pure. intros ->.
  eapply triple_bind; [apply (checkout_any _ _ _ _ _ _ _ (eq (Ready 0 (wr_base_sha r))))|intros ?].
  { intros ph <-. cbn [proto]. rewrite String.eqb_refl. by eexists. }
  apply quiet_then; [intros R; apply journal_event_closed; auto with fletch|intros ?].
  apply quiet_then; [intros R; apply set_status_closed; auto with fletch|intros ?].
  apply quiet_then; [apply host_quiet|intros atts].
  eapply triple_bind.
  { eapply triple_weaken; [by apply (run_steps_triple (length (sp_workflow spec)))|done|intros; eassumption|].
    intros d. apply at_anywhere. }
  intros [last|]; [by apply finish_triple|apply triple_ret; intros d; apply at_anywhere].
Qed.

Lemma run_kernel_inner_triple (r : WfRun) t0 c :
  find_wf_run (c_db c) (wr_id r) = Some r -> drive_phase r t0 (eq Start) (c_db c) ->
  drive_phase r t0 anywhere (c_db (run_kernel_inner (wr_id r) c).2).
Proof.
  intros Hr Hc. unfold run_kernel_inner, bind at 1. destruct (load_run (wr_id r) c) as [[r'|e] c1] eqn:El;
    [|pose proof (load_run_reads (wr_id r) c) as Hl; rewrite El in Hl; cbn [snd] in *; rewrite Hl; by apply at_anywhere in Hc].
  apply load_run_Ok in El as [Hr' Hc1]. rewrite Hr in Hr'. injection Hr' as <-. rewrite <- Hc1 in Hc.
  destruct (lcontains TERMINAL (wr_status r)); [by apply at_anywhere in Hc|].
  destruct (String.eqb (wr_status r) "pending"); cbn [negb].
  - pose proof (drive_run_triple r t0 c1 Hc) as Hd. by destruct (drive_run r c1) as [[u|e] c2].
  - pose proof (refuse_resume_triple (steps_of r) (wr_branch r) (run_repo_path (wr_run_dir r)) (wr_base_sha r)
      (wr_id r) t0 (wr_id r) c1) as Hd.
    specialize (Hd ltac:(revert Hc; apply at_phase_impl; by intros ph <-)).
    destruct (refuse_resume (wr_id r) c1) as [[u|e] c2]; by eapply at_anywhere.
Qed.

Lemma drive_accepted r c :
  find_wf_run (c_db c) (wr_id r) = Some r ->
  exists t ph, wf_trace (c_db (run_kernel (wr_id r) c).2) = wf_trace (c_db c) ++ t /\
    accepted r Start t = Some ph.
Proof.
  intros Hr.
  assert (Hc : drive_phase r (wf_trace (c_db c)) anywhere (c_db (run_kernel (wr_id r) c).2)).
  { unfold run_kernel, bind, attempt.
    pose proof (run_kernel_inner_triple r (wf_trace (c_db c)) c Hr) as Hi.
    specialize (Hi ltac:(exists [], Start; by rewrite app_nil_r)).
    destruct (run_kernel_inner (wr_id r) c) as [[u|e] c1]; [exact Hi|]. apply fail_run_closed; [apply at_phase_closed|exact Hi]. }
  destruct Hc as (t & ph & Ht & Hp & _). by exists t, ph.
Qed.
End Drive.

(** (C21) Whatever the world, the driver and the forge answer, and wherever the clock, a cancel or a
    failing statement cuts it, a drive does to the outside only what the protocol allows next:
    the effects it adds to the trace, with what it heard of its agents among them, are a word of the
    automaton from its start. So a step's work is committed and pinned only after its agent was told
    the step and heard to be idle again, before it failed or stopped. *)
Theorem drive_follows_protocol `{World} `{Codec} `{Host} r c :
  find_wf_run (c_db c) (wr_id r) = Some r ->
  exists t, wf_trace (c_db (run_kernel (wr_id r) c).2) = wf_trace (c_db c) ++ t /\
    is_Some (accepted r Start t).
Proof. intros Hr. destruct (drive_accepted r c Hr) as (t & ph & Ht & Hp). exists t. split; [done|by exists ph]. Qed.

(** (C23) A drive pushes at most once, its run's own branch, inside the [wf/] namespace, and only with
    every step of the spec finished before: an agent was spawned for each, in turn told its step,
    heard to have ended its turn, its work pinned and itself archived; what is checked out when the
    push is made is the last step's pin. No agent is spawned after it. *)
Theorem push_is_own_branch_after_every_step `{World} `{Codec} `{Host} r c t1 b tip t2 :
  find_wf_run (c_db c) (wr_id r) = Some r ->
  wf_trace (c_db (run_kernel (wr_id r) c).2) = wf_trace (c_db c) ++ t1 ++ PushBranch b tip :: t2 ->
  b = wr_branch r /\ is_run_branch b = true /\ pushed (t1 ++ t2) = [] /\
  exists ref, steps_done (wr_base_sha r) (steps_of r) ref t1 /\ last (checked_out t1) = Some ref /\ spawned t2 = [].
Proof.
  intros Hr Ht. destruct (drive_accepted r c Hr) as (t & ph & Ht' & Hp). rewrite Ht in Ht'.
  apply app_inv_head in Ht' as <-. by eapply pushed_last in Hp.
Qed.

Lemma drive_follows_protocol_witness :
  let w := calm_world show_nat in
  let c := {| c_db := demo_db "pending"; c_tick := 0 |} in
  find_wf_run (c_db c) (wr_id (demo_run "pending")) = Some (demo_run "pending") /\
  exists t, wf_trace (c_db (demo_drive "pending" VerdictDone good_turn)) = wf_trace (c_db c) ++ t /\
    is_Some (@accepted (demo_host VerdictDone good_turn) (demo_run "pending") Start t).
Proof.
  split; [reflexivity|].
  exact (@drive_follows_protocol (calm_world show_nat) demo_codec (demo_host VerdictDone good_turn)
    (demo_run "pending") {| c_db := demo_db "pending"; c_tick := 0 |} eq_refl).
Defined.

(** The trace of the demonstration, cut at its push. *)
Definition demo_trace : list Act := wf_trace (c_db (demo_drive "pending" VerdictDone good_turn)).
Definition is_push (a : Act) : bool := match a with PushBranch _ _ => true | _ => false end.
Definition before_push : list Act := take (default 0%nat (lposition is_push demo_trace)) demo_trace.
Definition after_push : list Act := drop (S (default 0%nat (lposition is_push demo_trace))) demo_trace.

Lemma push_is_own_branch_after_every_step_witness :
  let b := run_branch "Fix & ship" "run-0123456789abcdef" in
  demo_trace = before_push ++ PushBranch b "head" :: after_push /\
  b = wr_branch (demo_run "pending") /\ is_run_branch b = true /\ pushed (before_push ++ after_push) = [] /\
  exists ref, steps_done "base" 2 ref before_push /\ last (checked_out before_push) = Some ref /\ spawned after_push = [].
Proof.
  intros b. split; [vm_compute; reflexivity|].
  refine (@push_is_own_branch_after_every_step (calm_world show_nat) demo_codec (demo_host VerdictDone good_turn)
    (demo_run "pending") {| c_db := demo_db "pending"; c_tick := 0 |} before_push b "head" after_push _ _);
    vm_compute; reflexivity.
Defined.
