(* ===== verification/WfDrive.v ===== *)
(** * How a drive ends

    The kernel's promise, in a world whose statements succeed: whatever the driver, git and the
    forge answer and wherever the clock or a cancel cuts it, a drive leaves its run [done],
    [failed] or [canceled] with the matching last event on its journal, no agent it spawned still
    running, and nothing of a run it must not restart touched. *)

From S2P Require Import Prelude RustStr Git Sql Queue WfSpec WfStore WfSpawn WfKernel WfProtocol.

Local Open Scope string_scope.
Local Open Scope list_scope.

(** ** Facts that survive every operation *)

Definition has_exec (id : string) (d : WfDb) : Prop := id ∈ se_id <$> wf_execs d.

Lemma has_run_closed id : closed (has_run id).
Proof.
  intros run. unfold has_run. split; [by split|split|..]; try done; intros; cbn [set_runs wf_runs];
    by rewrite (update_where_fmap _ _ wr_id).
Qed.

Lemma has_exec_closed id : closed (has_exec id).
Proof.
  intros run. unfold has_exec. split; [by split|split|..]; try done; intros; cbn [set_execs wf_execs];
    [by rewrite (update_where_fmap _ _ se_id)..|rewrite fmap_app; apply elem_of_app; by left].
Qed.

Lemma closed_and P Q : closed P -> closed Q -> closed (fun d => P d /\ Q d).
Proof.
  intros HP HQ run. destruct (HP run) as [[] [] ], (HQ run) as [[] [] ].
  split; [split|split|..]; intros; match goal with H : _ /\ _ |- _ => destruct H end; split; auto.
Qed.

Lemma find_update_run id f d r :
  (forall r, wr_id (f r) = wr_id r) -> find_wf_run d id = Some r ->
  find_wf_run (set_runs (update_where (is_run id) f) d) id = Some (f r).
Proof.
  intros Hf. unfold find_wf_run. cbn [set_runs wf_runs]. unfold update_where.
  induction (wf_runs d) as [|x l IH]; [done|]. cbn [lfind fmap list_fmap].
  destruct (is_run id x) eqn:E; [|by rewrite E]. intros [= ->].
  unfold is_run in *. by rewrite Hf, E.
Qed.

(** ** The end of a run *)

(** The last event of a run's journal. *)
Definition last_event (id type : string) (p : Json) (d : WfDb) : Prop :=
  exists evs ev, events_of d id = evs ++ [ev] /\ we_type ev = type /\ we_payload ev = p.

(** A terminal status and the event that goes with it. *)
Inductive outcome : string -> option string -> string -> Json -> Prop :=
| OutDone : outcome "done" None "run_done" (JObj [])
| OutFailed e : outcome "failed" (Some e) RUN_FAILED_EVENT (JObj [("error", JStr e)])
| OutCanceled : outcome "canceled" None RUN_CANCELED_EVENT (JObj []).

Definition concluded (id : string) (d : WfDb) : Prop :=
  exists r type p, find_wf_run d id = Some r /\ last_event id type p d /\
    outcome (wr_status r) (wr_error r) type p.

Section Calm.
Context `{World} `{Codec} `{Host}.
Hypothesis calm : forall n, w_fault n = None.

Lemma next_seq_new d id : existsb (fun e => String.eqb (we_run_id e) id && (we_seq e =? next_seq d id)%Z) (wf_journal d) = false.
Proof.
  destruct (existsb _ _) eqn:E; [|done]. apply existsb_exists in E as (e & He & Hb). apply andb_true_iff in Hb as [Hi Hs].
  apply Z.eqb_eq in Hs. apply list_elem_of_In in He.
  assert (Hm : (we_seq e <= max_or 0 (we_seq <$> events_of d id))%Z).
  { apply max_or_ge, list_elem_of_fmap_2. apply elem_of_lfilter. by split. }
  unfold next_seq in Hs. lia.
Qed.

(** Appending to the journal of a run that exists. *)
Lemma journal_event_triple (R : WfDb -> Prop) id type e p E :
  log_closed_on id R -> (forall d, R d -> has_run id d) ->
  triple R (journal_event id type e p) (fun _ d => R d /\ last_event id type p d) E.
Proof.
  intros HR Hrun. unfold journal_event, append, emit_event.
  intros c Hc. specialize (Hrun _ Hc). unfold bind, attempt, query, sql, now_millis, insert_event, sql, act. simpl.
  rewrite calm. simpl. rewrite calm. cbn [we_run_id we_seq].
  assert (Hex : existsb (is_run id) (wf_runs (c_db c)) = true) by by apply (existsb_id wr_id id).
  rewrite Hex. cbn [negb]. rewrite next_seq_new. split.
  - apply (cl_emit _ _ HR); [done|]. apply (cl_event _ _ HR); [done|exact Hrun|done|exact Hc].
  - exists (events_of (c_db c) id). eexists. split.
    + etrans; [exact (events_of_snoc (c_db c) _ id)|]. cbn [we_run_id]. by rewrite String.eqb_refl.
    + by split.
Qed.

Lemma emit_run_row_triple (P : WfDb -> Prop) id E :
  (forall d f, P d -> P (set_trace f d)) -> triple P (emit_run_row id) (fun _ => P) E.
Proof.
  intros HP. unfold emit_run_row. eapply triple_bind; [apply triple_attempt, triple_reads; reading|].
  intros [r|e]; [|by apply triple_ret]. intros c Hc. by apply HP.
Qed.

Lemma set_status_triple id s e type p E :
  outcome s e type p ->
  triple (fun d => has_run id d /\ last_event id type p d) (set_status id s e) (fun _ => concluded id) E.
Proof.
  intros Ho. unfold set_status. eapply triple_bind; [apply triple_now|]. intros now.
  eapply triple_bind.
  { apply (triple_attempt _ _ (fun _ => concluded id) (fun _ => False)), triple_execute; [exact calm|].
    intros d [(r & Hr)%find_wf_run_has Hl]. exists (with_status s e now r), type, p. split_and!; [|done|done].
    by rewrite (find_update_run _ _ _ r). }
  intros [u|e']; [|by intros c []]. apply emit_run_row_triple. by intros d f.
Qed.

Lemma fail_run_triple id e E : triple (has_run id) (fail_run id e) (fun _ => concluded id) E.
Proof.
  unfold fail_run. eapply triple_bind; [apply journal_event_triple; [apply has_run_closed|done]|].
  intros u. apply set_status_triple. constructor.
Qed.

Lemma write_canceled_triple id E : triple (has_run id) (write_canceled id) (fun _ => concluded id) E.
Proof.
  unfold write_canceled. eapply triple_bind; [apply journal_event_triple; [apply has_run_closed|done]|].
  intros u. apply set_status_triple. constructor.
Qed.

(** A program that keeps the run's row, before the rest of the drive. *)
Lemma keep_run {A B} id (m : M WfDb A) (k : A -> M WfDb B) Q :
  preserves (has_run id) m -> (forall a, triple (has_run id) (k a) Q (has_run id)) ->
  triple (has_run id) (bind m k) Q (has_run id).
Proof. intros Hm Hk. eapply triple_bind; [by apply triple_preserves|exact Hk]. Qed.

(** The same for a program that ends the run. *)
Lemma end_run {A} id (m : M WfDb ()) (a : A) :
  triple (has_run id) m (fun _ => concluded id) (has_run id) ->
  forall Q : A -> WfDb -> Prop, (forall d, concluded id d -> Q a d) ->
  triple (has_run id) (let* _ := m in ret a) Q (has_run id).
Proof. intros Hm Q HQ. eapply triple_bind; [exact Hm|]. intros u. by apply triple_ret. Qed.

Lemma has_run_acts id d a : has_run id d -> has_run id (set_trace (fun t => t ++ [a]) d).
Proof. done. Qed.

#[local] Hint Resolve has_run_closed has_run_acts act_kept : fletch.

Lemma fail_step_concludes id exec o st e :
  attempt_status_ok st = true ->
  triple (has_run id) (fail_step id exec o st e) (fun _ => concluded id) (has_run id).
Proof.
  intros Hs. unfold fail_step. apply keep_run; [unfold driver_stop; preserving|intros ?].
  apply keep_run; [auto with fletch|intros ?]. apply keep_run; [auto with fletch|intros ?]. apply fail_run_triple.
Qed.

Lemma cancel_step_concludes id exec :
  triple (has_run id) (cancel_step id exec) (fun _ => concluded id) (has_run id).
Proof.
  unfold cancel_step. apply keep_run; [auto with fletch|intros o].
  apply keep_run; [unfold driver_stop; preserving|intros ?]. apply keep_run; [auto with fletch|intros ?].
  apply keep_run; [unfold driver_archive; preserving|intros ?]. apply write_canceled_triple.
Qed.

Lemma cancel_run_concludes id : triple (has_run id) (cancel_run id) (fun _ => concluded id) (has_run id).
Proof.
  unfold cancel_run. apply keep_run; [auto with fletch|intros l].
  apply keep_run; [apply stop_all_closed; auto with fletch|intros ?]. apply write_canceled_triple.
Qed.

Lemma refuse_resume_concludes id : triple (has_run id) (refuse_resume id) (fun _ => concluded id) (has_run id).
Proof.
  unfold refuse_resume. apply keep_run; [preserving|intros l].
  apply keep_run; [apply abandon_all_closed; auto with fletch|intros ?]. apply fail_run_triple.
Qed.

(** The run goes on, or it is over. *)
Definition goes_on {A} (id : string) (r : option A) : WfDb -> Prop :=
  match r with Some _ => has_run id | None => concluded id end.

Lemma close_step_concludes run spec step exec a :
  triple (has_run (wr_id run)) (close_step run spec step exec a)
    (fun b => if b : bool then has_run (wr_id run) else concluded (wr_id run)) (has_run (wr_id run)).
Proof.
  unfold close_step, journal. apply keep_run; [unfold evaluate_gate; preserving|intros gate].
  apply keep_run; [auto with fletch|intros ?].
  destruct gate as [u|reason]; [|by apply end_run; [apply fail_step_concludes|]].
  apply keep_run; [auto with fletch|]. intros [head|e]; [|by apply end_run; [apply fail_step_concludes|]].
  apply keep_run; [auto with fletch|intros ?]. apply keep_run; [auto with fletch|intros ?].
  apply keep_run; [unfold driver_archive; preserving|intros ?]. by apply triple_ret.
Qed.

Lemma run_step_concludes run spec w atts i step ref :
  triple (has_run (wr_id run)) (run_step run spec w atts i step ref)
    (fun r => goes_on (wr_id run) r) (has_run (wr_id run)).
Proof.
  unfold run_step. apply keep_run; [preserving|intros canceled].
  destruct canceled; [by apply end_run; [apply cancel_run_concludes|]|].
  apply keep_run; [preserving|intros agent]. apply keep_run; [preserving|intros uuid].
  apply keep_run; [auto with fletch|intros ?]. apply keep_run; [auto with fletch|intros req].
  apply keep_run; [unfold race_step; preserving|]. intros [[agent'|o e]|].
  - eapply triple_bind; [apply close_step_concludes|]. intros []; by apply triple_ret.
  - by apply end_run; [apply fail_step_concludes|].
  - by apply end_run; [apply cancel_step_concludes|].
Qed.

Lemma run_steps_concludes run spec w atts i steps ref last :
  triple (has_run (wr_id run)) (run_steps run spec w atts i steps ref last)
    (fun r => goes_on (wr_id run) r) (has_run (wr_id run)).
Proof.
  revert i ref last. induction steps as [|step steps IH]; intros i ref last; cbn [run_steps]; [by apply triple_ret|].
  eapply triple_bind; [apply run_step_concludes|]. intros [e|]; [apply IH|by apply triple_ret].
Qed.

(** A run that may be driven: pending, or found running by a new session. *)
Definition drivable (r : WfRun) : Prop := wr_status r ∉ TERMINAL.

Lemma drive_run_concludes r :
  triple (has_run (wr_id r)) (drive_run r) (fun _ => concluded (wr_id r)) (has_run (wr_id r)).
Proof.
  unfold drive_run, provision_run_repo. apply keep_run; [preserving|intros spec].
  apply keep_run; [preserving|intros w]. apply keep_run; [auto with fletch|intros ?].
  apply keep_run; [auto with fletch|intros ?]. apply keep_run; [auto with fletch|intros ?].
  apply keep_run; [preserving|intros atts].
  eapply triple_bind; [apply run_steps_concludes|]. intros [last|]; [|by apply triple_ret].
  apply keep_run; [auto with fletch|intros ?].
  eapply triple_bind; [apply journal_event_triple; [apply has_run_closed|done]|].
  intros ?. apply set_status_triple. constructor.
Qed.

Lemma kernel_concludes c id r :
  find_wf_run (c_db c) id = Some r -> drivable r -> concluded id (c_db (run_kernel id c).2).
Proof.
  intros Hr Hd. destruct (find_wf_run_id _ _ _ Hr) as [Hid _]. subst id.
  assert (Hc : has_run (wr_id r) (c_db c)) by (apply find_wf_run_has; by exists r).
  assert (Hi : match run_kernel_inner (wr_id r) c with
               | (Ok _, c') => concluded (wr_id r) (c_db c')
               | (Err _, c') => has_run (wr_id r) (c_db c') end).
  { unfold run_kernel_inner, bind at 1. destruct (load_run (wr_id r) c) as [[r'|e] c1] eqn:El.
    2: { pose proof (load_run_reads (wr_id r) c) as Hl. rewrite El in Hl. cbn [snd] in Hl. by rewrite Hl. }
    apply load_run_Ok in El as [Hr' Hc1]. rewrite Hr in Hr'. injection Hr' as <-. rewrite <- Hc1 in Hc.
    rewrite (proj2 (lcontains_false _ _) Hd).
    destruct (String.eqb (wr_status r) "pending"); cbn [negb]; [by apply drive_run_concludes|by apply refuse_resume_concludes]. }
  unfold run_kernel, bind, attempt. destruct (run_kernel_inner (wr_id r) c) as [[u|e] c1]; [exact Hi|].
  pose proof (fail_run_triple (wr_id r) e (fun _ => False) c1 Hi) as Hf. by destruct (fail_run (wr_id r) e c1) as [[u|e'] c2].
Qed.
End Calm.

(** ** What the queue sees of a run that was driven *)

(** The pull request columns of a run, as the queue reads them. *)
Definition recorded_pr (r : WfRun) : option FinalizedPr :=
  (fun url => {| fp_url := url; fp_number := wr_pr_number r |})
    <$> opt_filter (fun u => negb (is_empty (trim u))) (wr_pr_url r).

(** What a settling pass of the queue makes of a run's row. *)
Definition settled_as (r : WfRun) : Settlement := settle (run_status_from_db (wr_status r)) (recorded_pr r).

(** (C27) While the database answers, a drive always ends: from a run that is not over and whose row is
    drivable, whatever the driver, git and the forge answer and wherever the clock or a cancel cuts
    it, the run is left done, failed or canceled,
    its journal's last event says so with the same cause as the row, and the roadmap queue settles
    its item for good instead of taking it for a run still going. *)
Theorem every_drive_concludes `{World} `{Codec} `{Host} c id r :
  (forall n, w_fault n = None) -> find_wf_run (c_db c) id = Some r -> drivable r ->
  concluded id (c_db (run_kernel id c).2) /\
  forall r', find_wf_run (c_db (run_kernel id c).2) id = Some r' -> settled_as r' <> StRunning.
Proof.
  intros calm Hr Hd. pose proof (kernel_concludes calm c id r Hr Hd) as Hc. split; [exact Hc|].
  intros r' Hr'. destruct Hc as (r2 & type & p & Hr2 & _ & Ho). rewrite Hr' in Hr2. injection Hr2 as <-.
  unfold settled_as. destruct Ho; cbn; [|done..]. by destruct (is_some (recorded_pr r')).
Qed.

Lemma every_drive_concludes_witness :
  let c' := demo_drive "pending" VerdictRevise good_turn in
  status_of c' = [("failed", Some ("verdict.json result is " +:+ dq +:+ "revise" +:+ dq +:+ ": no summary"))] /\
  concluded "run-1" (c_db c').
Proof.
  intros c'. split; [vm_compute; reflexivity|].
  refine (proj1 (@every_drive_concludes (calm_world show_nat) demo_codec (demo_host VerdictRevise good_turn)
    {| c_db := demo_db "pending"; c_tick := 0 |} "run-1" (demo_run "pending") (fun _ => eq_refl) eq_refl _)).
  unfold drivable. apply (bool_decide_unpack _). vm_compute. exact I.
Defined.

(** ** Runs that are not started *)

(** The trace grew by stops and client events only. *)
Definition is_stop_or_emit (a : Act) : bool := match a with StopAgent _ => true | a => is_emit a end.

Definition only_stops (t0 : list Act) (d : WfDb) : Prop :=
  exists t, wf_trace d = t0 ++ t /\ forallb is_stop_or_emit t = true.

Lemma only_stops_snoc t0 d a :
  is_stop_or_emit a = true -> only_stops t0 d -> only_stops t0 (set_trace (fun t => t ++ [a]) d).
Proof.
  intros Ha (t & Ht & Hf). exists (t ++ [a]). cbn [set_trace wf_trace]. rewrite Ht, app_assoc, forallb_app, Hf.
  split; [done|]. simpl. by rewrite Ha.
Qed.

Lemma only_stops_closed t0 : closed (only_stops t0).
Proof. intros run. split; [split|split|..]; try done. intros d a Ha. apply only_stops_snoc. by destruct a. Qed.

#[local] Hint Resolve only_stops_closed : fletch.

Section NotStarted.
Context `{World} `{Codec} `{Host}.

Lemma stop_only t0 a : preserves (only_stops t0) (driver_stop a).
Proof. intros c. by apply only_stops_snoc. Qed.

#[local] Hint Resolve stop_only : fletch.

Lemma abandon_all_stops t0 id l : preserves (only_stops t0) (abandon_all id l).
Proof. induction l as [|[e o] l IH]; cbn [abandon_all]; preserving. Qed.

#[local] Hint Resolve abandon_all_stops : fletch.

Lemma refuse_resume_stops t0 id : preserves (only_stops t0) (refuse_resume id).
Proof. unfold refuse_resume. preserving. Qed.

(** Only a pending run is started. Driving any other one, for instance the runs an earlier
    session left running, spawns no agent, sends no prompt, commits and pushes nothing, whatever
    the world does: the only effects are stops of agents it had left alive and client events. *)
Theorem only_pending_runs_start c id r :
  find_wf_run (c_db c) id = Some r -> wr_status r <> "pending" ->
  exists t, wf_trace (c_db (run_kernel id c).2) = wf_trace (c_db c) ++ t /\ forallb is_stop_or_emit t = true.
Proof.
  intros Hr Hs. change (only_stops (wf_trace (c_db c)) (c_db (run_kernel id c).2)).
  assert (Hc : only_stops (wf_trace (c_db c)) (c_db c)) by (exists []; by rewrite app_nil_r).
  revert Hc. generalize (wf_trace (c_db c)). intros t0 Hc.
  assert (Hi : only_stops t0 (c_db (run_kernel_inner id c).2)).
  { unfold run_kernel_inner, bind. pose proof (load_run_reads id c) as Hl.
    destruct (load_run id c) as [[r'|e] c1] eqn:El; cbn [snd] in Hl; rewrite <- Hl in Hc; [|exact Hc].
    apply load_run_Ok in El as [Hr' _]. rewrite Hr in Hr'. injection Hr' as <-.
    destruct (lcontains TERMINAL (wr_status r)); [exact Hc|].
    rewrite (proj2 (String.eqb_neq _ _) Hs). by apply refuse_resume_stops. }
  unfold run_kernel, bind, attempt. destruct (run_kernel_inner id c) as [[u|e] c1]; [exact Hi|].
  by apply fail_run_closed; [apply only_stops_closed|].
Qed.
End NotStarted.

(** A run an earlier session left running, its first step's agent alive. *)
Definition left_running : Conn WfDb :=
  let c := (@demo_drive "pending" VerdictDone ([Transition "agent" Running], ClockRanOut)) in
  {| c_db := set_execs (update_where (fun _ => true) (with_spawned "agent" 0))
               (set_runs (update_where (fun _ => true) (with_status "running" None 0)) (c_db c));
     c_tick := c_tick c |}.

Lemma only_pending_runs_start_witness :
  let c' := (@run_kernel (calm_world show_nat) demo_codec (demo_host VerdictDone good_turn) "run-1" left_running).2 in
  find_wf_run (c_db left_running) "run-1" = Some (demo_run "running") /\
  exists t, wf_trace (c_db c') = wf_trace (c_db left_running) ++ t /\ forallb is_stop_or_emit t = true.
Proof.
  intros c'. split; [vm_compute; reflexivity|].
  refine (@only_pending_runs_start (calm_world show_nat) demo_codec (demo_host VerdictDone good_turn)
    left_running "run-1" (demo_run "running") _ _); [vm_compute; reflexivity|discriminate].
Defined.

(** A terminal run is left exactly as it is. *)
Lemma terminal_run_untouched `{World} `{Codec} `{Host} c id r :
  (forall n, w_fault n = None) -> find_wf_run (c_db c) id = Some r -> wr_status r ∈ TERMINAL ->
  c_db (run_kernel id c).2 = c_db c.
Proof.
  intros calm Hr Ht. assert (Hl : load_run id c = (Ok r, tick c)).
  { unfold load_run, bind, query, sql, require_some. rewrite calm. cbn [c_db tick]. by rewrite Hr. }
  unfold run_kernel, run_kernel_inner, bind, attempt. rewrite Hl, (proj2 (lcontains_true _ _) Ht). reflexivity.
Qed.

(** ** What the rows hold *)

(** Every run and every attempt decodes: their statuses are in the vocabulary, their JSON parses. *)
Definition rows_ok `{Codec} (d : WfDb) : Prop :=
  (forall r, r ∈ wf_runs d -> decode_run r = Ok r) /\ (forall e, e ∈ wf_execs d -> decode_exec e = Ok e).

Lemma rows_ok_runs `{Codec} p f d :
  (forall r, decode_run r = Ok r -> decode_run (f r) = Ok (f r)) -> rows_ok d ->
  rows_ok (set_runs (update_where p f) d).
Proof.
  intros Hf [Hr He]. split; [|exact He]. intros r [Hi|(y & Hy & _ & ->)]%elem_of_update_where; auto.
Qed.

Lemma rows_ok_execs `{Codec} p f d :
  (forall e, decode_exec e = Ok e -> decode_exec (f e) = Ok (f e)) -> rows_ok d ->
  rows_ok (set_execs (update_where p f) d).
Proof.
  intros Hf [Hr He]. split; [exact Hr|]. intros e [Hi|(y & Hy & _ & ->)]%elem_of_update_where; auto.
Qed.

Lemma decode_run_json `{Codec} r : decode_run r = Ok r -> json_error (wr_spec_json r) = None.
Proof. unfold decode_run. by destruct (json_error _). Qed.

Lemma decode_run_status `{Codec} r : decode_run r = Ok r -> run_status_ok (wr_status r) = true.
Proof. unfold decode_run, run_status_ok. destruct (json_error _); [done|]. by destruct (run_status_from_db _). Qed.

Lemma decode_run_intro `{Codec} r :
  json_error (wr_spec_json r) = None -> run_status_ok (wr_status r) = true -> decode_run r = Ok r.
Proof. unfold decode_run, run_status_ok. intros ->. by destruct (run_status_from_db _). Qed.

Lemma decode_exec_iff `{Codec} e :
  decode_exec e = Ok e <-> attempt_status_ok (se_status e) = true /\ se_verdict e ≫= json_error = None.
Proof.
  unfold decode_exec, attempt_status_ok. destruct (lcontains _ _); cbn [negb]; [|by split; [|intros []]].
  destruct (_ ≫= _); by split; [|intros []].
Qed.

Lemma rows_ok_closed `{Codec} : closed rows_ok.
Proof.
  intros run. split; [by split|split|..].
  - intros d id a now. apply rows_ok_execs. intros e [_ Hv]%decode_exec_iff. by apply decode_exec_iff.
  - intros d id s h now Hs. apply rows_ok_execs. intros e [_ Hv]%decode_exec_iff. by apply decode_exec_iff.
  - intros d id step a i g _ _ [Hr He]. split; [exact Hr|]. cbn [set_execs wf_execs].
    intros e [Hi|[->|Hi]%elem_of_cons]%elem_of_app; [auto| |by apply elem_of_nil in Hi]. by apply decode_exec_iff.
  - intros d s e now Hs. apply rows_ok_runs. intros r Hr%decode_run_json. by apply decode_run_intro.
  - intros d n url. apply rows_ok_runs. intros r Hr.
    apply decode_run_intro; [exact (decode_run_json r Hr)|exact (decode_run_status r Hr)].
Qed.

Lemma decode_all_Ok {A} (f : A -> result A string) l : (forall x, x ∈ l -> f x = Ok x) -> decode_all f l = Ok l.
Proof.
  induction l as [|x l IH]; intros Hl; [done|]. cbn [decode_all].
  rewrite (Hl x (list_elem_of_here _ _)). cbn. rewrite IH; [done|].
  intros y Hy. apply Hl. by apply list_elem_of_further.
Qed.

(** (C37) Rows stay in their types: whatever a drive meets, faults of its statements included, the
    statuses it writes are the ones the enumerations of runs and attempts read back, so a table
    whose rows all decode is left one, and listing the runs after it yields every row instead of
    an error. *)
Theorem rows_always_decode `{World} `{Codec} `{Host} c id :
  rows_ok (c_db c) ->
  let c' := (run_kernel id c).2 in
  rows_ok (c_db c') /\
  (w_fault (c_tick c') = None ->
   exists rows, fst (wf_list_runs None c') = Ok rows /\ rows ≡ₚ wf_runs (c_db c')).
Proof.
  intros Hc c'. assert (Hk : rows_ok (c_db c')).
  { apply run_kernel_closed; [done|apply rows_ok_closed|done]. }
  split; [exact Hk|]. intros Hw. exists (sort_by updated_desc (wf_runs (c_db c'))).
  split; [|apply sort_by_perm]. unfold wf_list_runs, bind, query, sql. rewrite Hw. cbn [fst lift].
  rewrite decode_all_Ok; [done|]. intros r Hr%elem_of_sort_by. by apply Hk.
Qed.

Lemma rows_always_decode_witness :
  let c' := demo_drive "pending" VerdictDone good_turn in
  wr_status <$> wf_runs (c_db c') = ["done"] /\ @rows_ok demo_codec (c_db c').
Proof.
  intros c'. split; [vm_compute; reflexivity|].
  refine (proj1 (@rows_always_decode (calm_world show_nat) demo_codec (demo_host VerdictDone good_turn)
    {| c_db := demo_db "pending"; c_tick := 0 |} "run-1" _)).
  split; [|by intros e ?%elem_of_nil]. intros r Hr. change (r ∈ [demo_run "pending"]) in Hr.
  apply list_elem_of_singleton in Hr as ->. vm_compute. reflexivity.
Defined.

(** ** The journal a drive leaves *)

(** The journal has no gaps: after a drive in any world, faults included, every run's events
    are numbered 1, 2, 3, ... in the order they were written, so a client that reads page by page,
    each time from the last number it holds and with any page size, receives every event once, in
    order, and stops. *)
Theorem drive_journal_gapless `{World} `{Codec} `{Host} c id run_id limit fuel :
  wf_ok (c_db c) ->
  let l := events_of (c_db (run_kernel id c).2) run_id in
  we_seq <$> l = seqs (length l) /\ (length l < fuel -> read_pages fuel 0 limit l = l).
Proof.
  intros Hc l. assert (Hd : wf_ok (c_db (run_kernel id c).2)).
  { apply run_kernel_closed; [|apply wf_ok_closed|done]. intros d a. apply wf_ok_trace. }
  split; [by apply wo_seqs|]. intros Hf. by apply paging_reads_everything.
Qed.

Lemma demo_db_ok s : wf_ok (demo_db s).
Proof. split; [apply NoDup_singleton|constructor|by intros e ?%elem_of_nil|by intros e ?%elem_of_nil|done]. Qed.

Lemma drive_journal_gapless_witness :
  let l := events_of (c_db (demo_drive "pending" VerdictRevise good_turn)) "run-1" in
  length l = 9%nat /\ we_seq <$> l = [1; 2; 3; 4; 5; 6; 7; 8; 9]%Z /\ read_pages 10 0 3 l = l.
Proof.
  intros l. split; [vm_compute; reflexivity|]. split; [vm_compute; reflexivity|].
  refine (proj2 (@drive_journal_gapless (calm_world show_nat) demo_codec (demo_host VerdictRevise good_turn)
    {| c_db := demo_db "pending"; c_tick := 0 |} "run-1" "run-1" 3%Z 10%nat (demo_db_ok "pending")) _).
  apply Nat.ltb_lt. vm_compute. reflexivity.
Defined.
