(* ===== verification/WfAgents.v ===== *)
(** * No agent outlives its run

    An agent a drive spawned is stopped or archived before the drive returns, on every path: the
    step that completes, the one that fails, the one the clock or a cancel cuts off, whose agent
    the kernel finds again through the row it stamped. *)

From S2P Require Import Prelude RustStr Git Sql WfSpec WfStore WfSpawn WfKernel WfProtocol WfDrive.

Local Open Scope string_scope.
Local Open Scope list_scope.

(** The agents spawned and not yet stopped or archived. *)
Definition track (s : gset string) (a : Act) : gset string :=
  match a with
  | SpawnAgent _ g => {[g]} ∪ s
  | StopAgent g | ArchiveAgent g => s ∖ {[g]}
  | _ => s
  end.

Definition outstanding (t : list Act) : gset string := foldl track ∅ t.

Lemma outstanding_snoc t a : outstanding (t ++ [a]) = track (outstanding t) a.
Proof. unfold outstanding. by rewrite foldl_app. Qed.

Definition opt_set (o : option string) : gset string := match o with Some a => {[a]} | None => ∅ end.

(** At most [s] are outstanding. *)
Definition tame (s : gset string) (d : WfDb) : Prop := outstanding (wf_trace d) ⊆ s.

Lemma tame_quiet s d a : is_agent_act a = false -> tame s d -> tame s (set_trace (fun t => t ++ [a]) d).
Proof. unfold tame. cbn [set_trace wf_trace]. rewrite outstanding_snoc. by destruct a. Qed.

Lemma tame_weaken s s' d : s ⊆ s' -> tame s d -> tame s' d.
Proof. unfold tame. set_solver. Qed.

Lemma tame_closed s : closed (tame s).
Proof.
  split; [split|..]; try done. intros d a Ha. apply tame_quiet. by destruct a.
Qed.

(** The agent on an exec's row. *)
Definition stamped (exec : string) (o : option string) (d : WfDb) : Prop :=
  exists e, find_exec d exec = Some e /\ se_agent_id e = o.

Lemma find_exec_has d id : has_exec id d <-> exists e, find_exec d id = Some e.
Proof.
  unfold has_exec, find_exec. split.
  - intros Hid. destruct (lfind (is_exec id) (wf_execs d)) as [r|] eqn:E; [by exists r|].
    apply list_elem_of_fmap in Hid as (r & -> & Hr). rewrite lfind_None in E. specialize (E r Hr).
    unfold is_exec in E. by rewrite String.eqb_refl in E.
  - intros (r & (Hr & Hi)%lfind_Some). apply String.eqb_eq in Hi as <-. by apply list_elem_of_fmap_2.
Qed.

Lemma find_update_exec id f d e :
  (forall e, se_id (f e) = se_id e) -> find_exec d id = Some e ->
  find_exec (set_execs (update_where (is_exec id) f) d) id = Some (f e).
Proof.
  intros Hf. unfold find_exec. cbn [set_execs wf_execs]. unfold update_where.
  induction (wf_execs d) as [|x l IH]; [done|]. cbn [lfind fmap list_fmap].
  destruct (is_exec id x) eqn:E; [|by rewrite E]. intros [= ->].
  unfold is_exec in *. by rewrite Hf, E.
Qed.

Section Calm.
Context `{World} `{Codec} `{Host}.
Hypothesis calm : forall n, w_fault n = None.
Variable id : string.
Variable L : gset string.

(** The run's row is there and at most [s] are outstanding beyond [L]. *)
Definition held (s : gset string) (d : WfDb) : Prop := has_run id d /\ tame (s ∪ L) d.

Lemma held_closed s : closed (held s).
Proof. apply closed_and; [apply has_run_closed|apply tame_closed]. Qed.

Lemma held_quiet s d a : is_agent_act a = false -> held s d -> held s (set_trace (fun t => t ++ [a]) d).
Proof. intros Ha [Hr Ht]. split; [done|]. by apply tame_quiet. Qed.

Lemma held_weaken s s' d : s ⊆ s' -> held s d -> held s' d.
Proof. intros Hs [Hr Ht]. split; [done|]. eapply tame_weaken; [|exact Ht]. set_solver. Qed.

#[local] Hint Resolve held_closed held_quiet : fletch.

(** Stopping or archiving an agent takes it off. *)
Lemma dismiss_triple a g s E :
  a = StopAgent g \/ a = ArchiveAgent g ->
  triple (held ({[g]} ∪ s)) (act a) (fun _ => held s) E.
Proof.
  intros Ha c [Hr Ht]. split; [done|]. unfold tame in *. cbn [c_db set_trace wf_trace].
  rewrite outstanding_snoc. destruct Ha as [-> | ->]; simpl; set_solver.
Qed.

Lemma option_dismiss (f : string -> Act) o E :
  (forall g, f g = StopAgent g \/ f g = ArchiveAgent g) ->
  triple (held (opt_set o)) (match o with Some g => act (f g) | None => ret () end) (fun _ => held ∅) E.
Proof.
  intros Hf. destruct o as [g|]; [|by apply triple_ret].
  eapply triple_weaken; [apply (dismiss_triple (f g) g ∅ E), Hf| |done|done].
  intros d. apply held_weaken. set_solver.
Qed.

(** What keeps [held s], before the rest. *)
Lemma keep_held {A B} s (m : M WfDb A) (k : A -> M WfDb B) Q :
  preserves (held s) m -> (forall a, triple (held s) (k a) Q (held s)) ->
  triple (held s) (bind m k) Q (held s).
Proof. intros Hm Hk. eapply triple_bind; [by apply triple_preserves|exact Hk]. Qed.

(** A kept program without failures. *)
Lemma keep_all {A} s (m : M WfDb A) : preserves (held s) m -> triple (held s) m (fun _ => held s) (held s).
Proof. apply triple_preserves. Qed.

Lemma keep_none {A B} (m : M WfDb A) (k : A -> M WfDb B) s Q :
  triple (held s) m (fun _ => held ∅) (held ∅) -> (forall a, triple (held ∅) (k a) Q (held ∅)) ->
  triple (held s) (bind m k) Q (held ∅).
Proof. intros Hm Hk. eapply triple_bind; [exact Hm|exact Hk]. Qed.

Lemma fail_step_tame exec o st e :
  attempt_status_ok st = true ->
  triple (held (opt_set o)) (fail_step id exec o st e) (fun _ => held ∅) (held ∅).
Proof.
  intros Hs. unfold fail_step, driver_stop. apply keep_none; [apply (option_dismiss StopAgent); by left|intros ?].
  apply keep_all. preserving.
Qed.

Lemma write_canceled_tame s : preserves (held s) (write_canceled id).
Proof. unfold write_canceled. preserving. Qed.

#[local] Hint Resolve write_canceled_tame : fletch.

Lemma agent_id_of_triple exec P o E :
  triple (fun d => P d /\ stamped exec o d) (agent_id_of exec) (fun o' d => P d /\ o' = o) E.
Proof.
  intros c [Hc (e & He & Ho)]. unfold agent_id_of, bind, attempt_ok, query, sql. rewrite calm. simpl.
  rewrite He. simpl. by subst o.
Qed.

Lemma cancel_step_tame exec :
  triple (fun d => exists o, held (opt_set o) d /\ stamped exec o d) (cancel_step id exec)
    (fun _ => held ∅) (held ∅).
Proof.
  apply triple_exists. intros o. unfold cancel_step, driver_stop, driver_archive.
  eapply triple_bind; [apply agent_id_of_triple|]. intros o'. apply triple_pure. intros ->.
  apply keep_none; [apply (option_dismiss StopAgent); by left|intros ?].
  apply keep_held; [auto with fletch|intros ?].
  apply keep_none; [|intros ?; apply keep_all; auto with fletch].
  eapply triple_weaken; [apply (option_dismiss ArchiveAgent o); by right| |done|done].
  intros d. apply held_weaken. set_solver.
Qed.

Lemma stop_all_tame l : preserves (held ∅) (stop_all l).
Proof.
  induction l as [|g l IH]; [apply preserves_ret|]. cbn [stop_all]. apply preserves_bind; [|done].
  apply triple_preserved. eapply triple_weaken; [apply (dismiss_triple (StopAgent g) g ∅); by left| |done|done].
  intros d. apply held_weaken. set_solver.
Qed.

Lemma cancel_run_tame : triple (held ∅) (cancel_run id) (fun _ => held ∅) (held ∅).
Proof.
  unfold cancel_run. apply keep_held; [apply preserves_reads; auto with fletch|intros l].
  apply keep_held; [apply stop_all_tame|intros ?]. apply keep_all. auto with fletch.
Qed.

(** ** The agent-facing half of a step *)

Definition step_held (exec : string) (r : Await StepEnd) (d : WfDb) : Prop :=
  match r with
  | Resolved (TurnEnded a) => held {[a]} d
  | Resolved (StepFailed o _) => held (opt_set o) d
  | CutBy _ => exists o, held (opt_set o) d /\ stamped exec o d
  end.

(** While the agent [a] works, its row stamped. *)
Definition working (exec a : string) (d : WfDb) : Prop := held {[a]} d /\ stamped exec (Some a) d.

Lemma working_log exec a run : log_closed_on run (working exec a).
Proof.
  destruct (cl_log _ _ (held_closed {[a]} run)) as [He Ht].
  split; [intros d ev Hr Hi Hs [Hd Hx]|intros d x Ha [Hd Hx]]; (split; [by auto|exact Hx]).
Qed.

#[local] Hint Resolve working_log : fletch.

(** A program that keeps the agent at work, before the rest; it does not fail. *)
Lemma keep_working {A B} exec a (m : M WfDb A) (k : A -> M WfDb B) Q :
  preserves (working exec a) m -> (forall x, triple (working exec a) (k x) Q (held {[a]})) ->
  triple (working exec a) (bind m k) Q (held {[a]}).
Proof.
  intros Hm Hk. eapply triple_bind; [|exact Hk].
  eapply triple_weaken; [by apply triple_preserves|done|done|]. by intros d [].
Qed.

Lemma ret_working exec a r :
  match r with Resolved (TurnEnded a') => a' = a | Resolved (StepFailed o _) => o = Some a | CutBy _ => True end ->
  triple (working exec a) (ret r) (step_held exec) (held {[a]}).
Proof.
  intros Hr. apply triple_ret. intros d [Hd Hs]. destruct r as [[a'|o e]|i]; simpl in Hr |- *; subst; try done.
  by exists (Some a).
Qed.

Lemma stamp_triple exec a :
  triple (fun d => held {[a]} d /\ has_exec exec d) (stamp_spawned exec a) (fun _ => working exec a) (held {[a]}).
Proof.
  unfold stamp_spawned. eapply triple_bind; [apply triple_now|]. intros now.
  eapply triple_bind.
  - apply (triple_attempt _ _ (fun _ => working exec a) (fun _ => False)), triple_execute; [exact calm|].
    intros d [Hd (e & He)%find_exec_has]. split; [by apply (cl_spawned _ (closed_execs _ (held_closed _)))|].
    exists (with_spawned a now e). split; [by apply find_update_exec|done].
  - intros [u|e]; [|by intros c []]. by apply triple_ret.
Qed.

(** A message sent and a status heard change nothing here. *)
Lemma untracked_working exec a x : (forall s, track s x = s) -> preserves (working exec a) (act x).
Proof.
  intros Hx c [Hd He]. split; [|exact He]. destruct Hd as [Hr Ht]. split; [done|].
  unfold tame in *. cbn [act c_db snd set_trace wf_trace]. by rewrite outstanding_snoc, Hx.
Qed.

Lemma prompt_step_tame exec a prompt :
  triple (working exec a) (prompt_step id exec a prompt) (step_held exec) (held {[a]}).
Proof.
  unfold prompt_step. apply keep_working; [unfold await_agent_ready; preserving|]. intros [[u|e]|i]; [|by apply ret_working..].
  apply keep_working; [unfold journal; auto with fletch|intros ?].
  apply keep_working.
  { unfold driver_send. apply preserves_bind; [preserving|]. intros r.
    apply preserves_bind; [|preserving]. destruct r as [[u'|e]|i]; [|apply preserves_ret..].
    by apply untracked_working. }
  intros [[u'|e]|i]; [|by apply ret_working..].
  apply keep_working; [unfold journal; auto with fletch|intros ?].
  apply keep_working.
  { unfold await_turn_end. apply preserves_bind; [preserving|]. intros [rs last].
    apply preserves_bind; [by apply untracked_working|intros ?]. preserving. } intros [[u2|e]|i]; [| |by apply ret_working].
  - apply keep_working; [unfold journal; auto with fletch|intros ?]. by apply ret_working.
  - apply keep_working; [unfold journal; auto with fletch|intros ?]. by apply ret_working.
Qed.

Lemma prompt_step_total exec a prompt : total (prompt_step id exec a prompt).
Proof. unfold prompt_step, driver_send, await_agent_ready, await_turn_end, journal. never_failing. Qed.

Lemma drive_step_tame exec req prompt E :
  triple (fun d => held ∅ d /\ has_exec exec d) (drive_step id exec req prompt) (step_held exec) E.
Proof.
  apply (triple_total _ _ _ (fun _ => True)); [auto with fletch|]. unfold drive_step.
  apply (triple_bind _ _ _ (fun r d => has_exec exec d /\
    match r with Resolved (Ok a) => held {[a]} d | _ => held ∅ d end)).
  { unfold driver_spawn. eapply triple_bind; [eapply triple_total; [apply host_total|apply triple_reads; auto with fletch]|].
    intros r. apply (triple_bind _ _ _ (fun _ d => has_exec exec d /\
      match r with Resolved (Ok a) => held {[a]} d | _ => held ∅ d end)); [|intros ?; by apply triple_ret].
    destruct r as [[a|e]|i]; [|by apply triple_ret; intros d []..].
    intros c [[Hr Ht] He]. split; [done|]. split; [done|]. unfold tame in *. cbn [c_db set_trace wf_trace].
    rewrite outstanding_snoc. simpl. set_solver. }
  assert (Hcut : forall d, has_exec exec d -> held ∅ d -> exists o, held (opt_set o) d /\ stamped exec o d).
  { intros d (e & He)%find_exec_has Hd. exists (se_agent_id e). split; [|by exists e].
    by eapply held_weaken; [|exact Hd]. }
  intros [[a|e]|i]; [|by apply triple_ret; intros d []|apply triple_ret; intros d []; by apply Hcut].
  eapply triple_bind.
  { eapply triple_weaken; [apply (stamp_triple exec a)|intros d []; done|intros; eassumption|done]. }
  intros ?. eapply triple_bind.
  { eapply triple_total; [apply journal_event_total|apply triple_preserves, journal_event_closed, working_log]. }
  intros ?. eapply triple_weaken; [apply prompt_step_tame|done|done|done].
Qed.

(** ** A step, and the drive *)

Definition race_held (exec : string) (r : option StepEnd) (d : WfDb) : Prop :=
  match r with
  | Some (TurnEnded a) => held {[a]} d
  | Some (StepFailed o _) => held (opt_set o) d
  | None => exists o, held (opt_set o) d /\ stamped exec o d
  end.

Lemma race_step_tame exec req prompt E :
  triple (fun d => held ∅ d /\ has_exec exec d) (race_step id exec req prompt) (race_held exec) E.
Proof.
  apply (triple_total _ _ _ (fun _ => True)); [auto with fletch|]. unfold race_step.
  eapply triple_bind; [apply drive_step_tame|]. intros [e|[|]]; cbn [step_held].
  - apply triple_ret. by destruct e.
  - apply triple_exists. intros o. eapply triple_bind; [apply agent_id_of_triple|]. intros o'.
    apply triple_pure. intros ->. by apply triple_ret.
  - by apply triple_ret.
Qed.

Lemma create_exec_triple exec step g E :
  triple (held ∅) (create_step_exec exec id step 1 0 g) (fun _ d => held ∅ d /\ has_exec exec d) E.
Proof.
  apply (triple_total _ _ _ (fun _ => True)); [auto with fletch|]. unfold create_step_exec.
  apply (triple_bind _ _ _ (fun _ d => held ∅ d /\ has_exec exec d)); [|intros ?; by apply triple_ret].
  intros c [Hr Ht]. unfold attempt, insert_exec, sql. rewrite calm. cbn [se_run_id se_id new_exec].
  assert (Hex : existsb (is_run id) (wf_runs (c_db c)) = true) by by apply (existsb_id wr_id id).
  rewrite Hex. cbn [negb]. destruct (existsb (is_exec exec) (wf_execs (c_db c))) eqn:Ee.
  - split; [by split|]. by apply (existsb_id se_id exec).
  - split; [by split|]. unfold has_exec. cbn [c_db set_execs wf_execs]. rewrite fmap_app.
    apply elem_of_app. right. left.
Qed.

Lemma close_step_tame run spec step exec a :
  wr_id run = id ->
  triple (held {[a]}) (close_step run spec step exec a) (fun _ => held ∅) (held ∅).
Proof.
  intros Hid. unfold close_step, journal. rewrite Hid.
  assert (Hfail : forall st e, attempt_status_ok st = true -> triple (held {[a]}) (let* _ := fail_step id exec (Some a) st e in ret false)
                    (fun _ => held ∅) (held ∅)).
  { intros st e Hs. eapply triple_bind; [by apply (fail_step_tame exec (Some a))|]. intros ?. by apply triple_ret. }
  apply (triple_bind _ _ _ (fun _ => held {[a]})).
  { eapply triple_total; [|apply triple_preserves; unfold evaluate_gate; preserving]. unfold evaluate_gate. never_failing. }
  intros gate. apply (triple_bind _ _ _ (fun _ => held {[a]})).
  { eapply triple_total; [|apply triple_preserves]; auto with fletch. }
  intros ?. destruct gate as [u|reason]; [|by apply Hfail].
  apply (triple_bind _ _ _ (fun _ => held {[a]})).
  { eapply triple_total; [|apply triple_preserves]; auto with fletch. }
  intros [head|e]; [|by apply Hfail].
  apply (triple_bind _ _ _ (fun _ => held {[a]})).
  { eapply triple_total; [|apply triple_preserves]; auto with fletch. }
  intros ?. apply (triple_bind _ _ _ (fun _ => held {[a]})).
  { eapply triple_total; [|apply triple_preserves]; [unfold finish_step_exec; never_failing|auto with fletch]. }
  intros ?. apply (triple_bind _ _ _ (fun _ => held ∅)); [|intros ?; by apply triple_ret]. unfold driver_archive.
  eapply triple_weaken; [apply (dismiss_triple (ArchiveAgent a) a ∅); by right| |done|done].
  intros d. apply held_weaken. set_solver.
Qed.

Lemma run_step_tame run spec w atts i step ref :
  wr_id run = id ->
  triple (held ∅) (run_step run spec w atts i step ref) (fun _ => held ∅) (held ∅).
Proof.
  intros Hid. unfold run_step. rewrite Hid. apply keep_held; [preserving|intros canceled].
  destruct canceled; [eapply triple_bind; [apply cancel_run_tame|intros ?; by apply triple_ret]|].
  apply keep_held; [preserving|intros agent]. apply keep_held; [preserving|intros uuid].
  eapply triple_bind; [apply create_exec_triple|intros ?].
  apply (triple_bind _ _ _ (fun _ d => held ∅ d /\ has_exec ("exec-" +:+ uuid) d)).
  { eapply (triple_weaken _ (fun d => held ∅ d /\ has_exec ("exec-" +:+ uuid) d));
      [apply triple_preserves, build_spawn_req_closed|done|done|by intros d []].
    apply cl_log, closed_and; [apply held_closed|apply has_exec_closed]. }
  intros req. eapply triple_bind; [apply race_step_tame|]. intros [[g|o e]|]; cbn [race_held].
  - eapply triple_bind; [by apply close_step_tame|]. intros b. by apply triple_ret.
  - eapply triple_bind; [by apply fail_step_tame|]. intros ?. by apply triple_ret.
  - eapply triple_bind; [apply cancel_step_tame|]. intros ?. by apply triple_ret.
Qed.

Lemma run_steps_tame run spec w atts i steps ref last :
  wr_id run = id ->
  triple (held ∅) (run_steps run spec w atts i steps ref last) (fun _ => held ∅) (held ∅).
Proof.
  intros Hid. revert i ref last. induction steps as [|s steps IH]; intros i ref last; cbn [run_steps]; [by apply triple_ret|].
  eapply triple_bind; [by apply run_step_tame|]. intros [e|]; [apply IH|by apply triple_ret].
Qed.

Lemma abandon_all_tame l : preserves (held ∅) (abandon_all id l).
Proof.
  induction l as [|[e o] l IH]; [apply preserves_ret|]. cbn [abandon_all]. unfold driver_stop.
  apply preserves_bind; [|intros ?; apply preserves_bind; [auto with fletch|done]].
  apply triple_preserved. eapply triple_weaken; [apply (option_dismiss StopAgent o); by left| |done|done].
  intros d. apply held_weaken. set_solver.
Qed.

Lemma run_kernel_tame : preserves (held ∅) (run_kernel id).
Proof.
  unfold run_kernel. apply preserves_bind; [apply preserves_attempt|intros [u|e]; auto with fletch].
  unfold run_kernel_inner. intros c Hc. unfold bind. pose proof (load_run_reads id c) as Hl.
  destruct (load_run id c) as [[r|e] c1] eqn:El; cbn [snd] in Hl; rewrite <- Hl in Hc; [|exact Hc].
  apply load_run_Ok in El as [Hr _]. apply find_wf_run_id in Hr as [Hid _].
  destruct (lcontains TERMINAL (wr_status r)); [exact Hc|]. revert c1 Hc Hl. intros c1 Hc _. revert c1 Hc.
  destruct (negb _).
  - unfold refuse_resume. apply (preserves_bind (held ∅)); [preserving|intros stale].
    apply preserves_bind; [apply abandon_all_tame|intros ?; auto with fletch].
  - unfold drive_run, provision_run_repo. rewrite Hid. apply (preserves_bind (held ∅)); [preserving|intros spec].
    apply preserves_bind; [preserving|intros w]. apply preserves_bind; [auto with fletch|intros ?].
    apply preserves_bind; [auto with fletch|intros ?]. apply preserves_bind; [auto with fletch|intros ?].
    apply preserves_bind; [preserving|intros atts].
    apply preserves_bind; [by apply triple_preserved, run_steps_tame|]. intros [last|]; [|apply preserves_ret].
    apply preserves_bind; [auto with fletch|intros ?]. apply preserves_bind; [auto with fletch|intros ?]. auto with fletch.
Qed.
End Calm.

(** No agent outlives its run: when the statements of a drive succeed, every agent it spawned
    has been stopped or archived by the time it returns, whether its step was completed, failed,
    ran out of time or was canceled, and whatever the driver answered. *)
Theorem no_agent_outlives_its_run `{World} `{Codec} `{Host} c id :
  (forall n, w_fault n = None) -> has_run id (c_db c) ->
  outstanding (wf_trace (c_db (run_kernel id c).2)) ⊆ outstanding (wf_trace (c_db c)).
Proof.
  intros calm Hr. pose proof (run_kernel_tame calm id (outstanding (wf_trace (c_db c))) c) as Hk.
  destruct Hk as [_ Hk]; [split; [done|]; unfold tame; set_solver|].
  unfold tame in Hk. set_solver.
Qed.

Lemma no_agent_outlives_its_run_witness :
  let host := demo_host VerdictDone ([Transition "agent" Running], ClockRanOut) in
  let c := {| c_db := demo_db "pending"; c_tick := 0 |} in
  length (lfilter is_agent_act (wf_trace (c_db (@run_kernel (calm_world show_nat) demo_codec host "run-1" c).2))) = 3%nat /\
  outstanding (wf_trace (c_db (@run_kernel (calm_world show_nat) demo_codec host "run-1" c).2))
    ⊆ outstanding (wf_trace (c_db c)).
Proof.
  intros host c. split; [vm_compute; reflexivity|].
  apply (@no_agent_outlives_its_run (calm_world show_nat) demo_codec host c "run-1"); [reflexivity|].
  unfold has_run. apply list_elem_of_here.
Defined.
