(* ===== verification/Cleanup.v ===== *)
(** * Deleting runs: the commit point and its recovery (workflow/cleanup.rs)

    A run owns a row and a directory. Its directory is renamed aside, its row is deleted, and
    only then is the directory removed; a failed delete renames it back, and the next startup
    settles whatever an exit in between left. Directories are names under the runs root with the
    entries they hold. [rs_possible] collects every durable state the operations went through:
    what a crash at any moment leaves behind. *)

From S2P Require Import Prelude RustStr Sql Database Queue WfSpec WfStore WfSpawn WfKernel.

Local Open Scope string_scope.
Local Open Scope list_scope.

Abbreviation Dirs := (gmap string (list string)).

Record RunStore := {
  rs_wf : WfDb;
  rs_dirs : Dirs;
  rs_possible : list (WfDb * Dirs);
}.

(** What the file system answers: a rename refused, what a removal that failed part way left
    behind, a directory that cannot be listed, an entry that cannot be read. *)
Class Files := {
  f_rename : nat -> option string;
  f_remove : nat -> option (list string);
  f_read_dir : nat -> bool;
  f_entry : string -> bool;
}.

(** A durable change. *)
Definition durable (wf : WfDb) (dirs : Dirs) (s : RunStore) : RunStore :=
  {| rs_wf := wf; rs_dirs := dirs; rs_possible := rs_possible s ++ [(wf, dirs)] |}.

Inductive RenameError := NotFound | Refused (e : string).

(** [std::fs::rename] of directories: onto nothing or onto an empty one. *)
Definition move (src dst : string) (dirs : Dirs) : result Dirs RenameError :=
  match dirs !! src with
  | None => Err NotFound
  | Some content =>
      match dirs !! dst with
      | Some (_ :: _) => Err (Refused "Directory not empty (os error 66)")
      | _ => Ok (<[dst := content]> (delete src dirs))
      end
  end.

(** [DELETE FROM wf_run] with its cascades. *)
Definition delete_runs (doomed : WfRun -> bool) (d : WfDb) : WfDb :=
  let keep id := negb (existsb (fun r => doomed r && String.eqb (wr_id r) id) (wf_runs d)) in
  {| wf_runs := lfilter (fun r => negb (doomed r)) (wf_runs d);
     wf_execs := lfilter (fun e => keep (se_run_id e)) (wf_execs d);
     wf_journal := lfilter (fun ev => keep (we_run_id ev)) (wf_journal d);
     wf_agents := wf_agents d; wf_skills := wf_skills d; wf_servers := wf_servers d;
     wf_project_settings := wf_project_settings d; wf_trace := wf_trace d |}.

Definition DELETING : string := ".deleting".
Definition staged_name (run_id : string) : string := run_id +:+ DELETING.

(** [str::strip_suffix]. *)
Fixpoint strip_suffix (t s : string) : option string :=
  if String.eqb s t then Some ""
  else match s with
       | EmptyString => None
       | String b s => String b <$> strip_suffix t s
       end.

Record StagedRunDir := { sd_live : string; sd_staged : string; sd_exists : bool }.

Section Cleanup.
Context `{World} `{Files}.

Definition rename (src dst : string) : M RunStore (result () RenameError) := fun c =>
  let s := c_db c in
  match move src dst (rs_dirs s) with
  | Err e => (Ok (Err e), tick c)
  | Ok dirs =>
      match f_rename (c_tick c) with
      | Some e => (Ok (Err (Refused e)), tick c)
      | None => (Ok (Ok ()), {| c_db := durable (rs_wf s) dirs s; c_tick := S (c_tick c) |})
      end
  end.

(** [let _ = std::fs::remove_dir_all(..)]. *)
Definition remove_dir_all (name : string) : M RunStore () := fun c =>
  let s := c_db c in
  match rs_dirs s !! name with
  | None => (Ok (), tick c)
  | Some _ =>
      let dirs := match f_remove (c_tick c) with
                  | None => delete name (rs_dirs s)
                  | Some kept => <[name := kept]> (rs_dirs s)
                  end in
      (Ok (), {| c_db := durable (rs_wf s) dirs s; c_tick := S (c_tick c) |})
  end.

(** One statement, or one transaction, on the rows. *)
Definition on_rows (f : WfDb -> result WfDb string) : M RunStore () :=
  sql (fun s => match f (rs_wf s) with Ok wf => Ok ((), durable wf (rs_dirs s) s) | Err e => Err e end).

Definition dir_exists (name : string) : M RunStore bool := fun c => (Ok (is_some (rs_dirs (c_db c) !! name)), c).

(** ** One directory *)

Definition stage (run_id : string) : M RunStore StagedRunDir :=
  let staged := staged_name run_id in
  let* r := rename run_id staged in
  let* exists_ :=
    match r with
    | Ok _ => ret true
    | Err NotFound => dir_exists staged
    | Err (Refused e) => err ("cannot stage run dir for " +:+ run_id +:+ ": " +:+ e)
    end in
  ret {| sd_live := run_id; sd_staged := staged; sd_exists := exists_ |}.

Definition restore (d : StagedRunDir) : M RunStore () :=
  if sd_exists d then let* _ := rename (sd_staged d) (sd_live d) in ret () else ret ().

Definition remove_staged (d : StagedRunDir) : M RunStore () :=
  if sd_exists d then remove_dir_all (sd_staged d) else ret ().

(** ** Many *)

Fixpoint restore_each (staged : list StagedRunDir) : M RunStore () :=
  match staged with
  | [] => ret ()
  | d :: staged => let* _ := restore d in restore_each staged
  end.

Definition restore_staged_run_dirs (staged : list StagedRunDir) : M RunStore () := restore_each (rev staged).

Fixpoint stage_each (run_ids : list string) (staged : list StagedRunDir) : M RunStore (list StagedRunDir) :=
  match run_ids with
  | [] => ret staged
  | run_id :: run_ids =>
      match validate_id "run" run_id with
      | Err e => let* _ := restore_staged_run_dirs staged in err e
      | Ok _ =>
          let* r := attempt (stage run_id) in
          match r with
          | Ok d => stage_each run_ids (staged ++ [d])
          | Err e => let* _ := restore_staged_run_dirs staged in err e
          end
      end
  end.

Definition stage_run_dirs (run_ids : list string) : M RunStore (list StagedRunDir) := stage_each run_ids [].

Fixpoint remove_each (staged : list StagedRunDir) : M RunStore () :=
  match staged with
  | [] => ret ()
  | d :: staged => let* _ := remove_staged d in remove_each staged
  end.

(** ** Guards *)

Fixpoint check_deletable (run_ids : list string) : M RunStore () :=
  match run_ids with
  | [] => ret ()
  | id :: run_ids =>
      let* r := attempt (let* o := query (fun s => find_wf_run (rs_wf s) id) in require_some NO_ROWS o) in
      match r with
      | Err e => err ("run " +:+ id +:+ " not found: " +:+ e)
      | Ok row =>
          if lcontains ["done"; "failed"; "canceled"] (wr_status row) then check_deletable run_ids
          else err ("cannot delete a " +:+ wr_status row +:+ " run — cancel it first")
      end
  end.

(** ** Deleting one run *)

Definition delete_run_data (run_id : string) : M RunStore () :=
  let* _ := lift (validate_id "run" run_id) in
  let* staged := stage run_id in
  let* r := attempt (on_rows (fun d => Ok (delete_runs (is_run run_id) d))) in
  match r with
  | Err e => let* _ := restore staged in err e
  | Ok _ => remove_staged staged
  end.

(** ** Deleting a project's runs *)

Definition created_order (a b : WfRun) : bool :=
  (wr_created_at a <? wr_created_at b)%Z
  || ((wr_created_at a =? wr_created_at b)%Z && bool_decide (String.le (wr_id a) (wr_id b))).

Definition of_project (project_id : string) (r : WfRun) : bool := String.eqb (wr_project_id r) project_id.

Definition project_run_ids (project_id : string) (d : WfDb) : list string :=
  wr_id <$> sort_by created_order (lfilter (of_project project_id) (wf_runs d)).

(** The transaction of [Workspace::delete_project], as far as runs go; [rest] is the outcome of
    its other statements and its commit. *)
Definition delete_project_rows (project_id : string) (expected : list string) (rest : option string)
    : M RunStore () :=
  on_rows (fun d =>
    let actual := project_run_ids project_id d in
    if bool_decide (actual = expected)
    then match rest with Some e => Err e | None => Ok (delete_runs (of_project project_id) d) end
    else Err ("project workflow set changed during deletion: expected "
           +:+ show_nat (length expected) +:+ ", found " +:+ show_nat (length actual))).

(** [prepare_project_runs_locked], the transaction, then [finish] or [restore]. [live] is the
    registry of drive tasks. *)
Definition prepare_project_runs (live : string -> bool) (project_id : string)
    : M RunStore (list string * list StagedRunDir) :=
  let* all_ids := query (fun s => project_run_ids project_id (rs_wf s)) in
  let* _ := check_deletable all_ids in
  match lfind live all_ids with
  | Some id => err ("run " +:+ id +:+ " is still winding down — try again in a moment")
  | None => let* staged := stage_run_dirs all_ids in ret (all_ids, staged)
  end.

Definition delete_project_runs (live : string -> bool) (project_id : string) (rest : option string)
    : M RunStore (list string) :=
  let* (ids, staged) := prepare_project_runs live project_id in
  let* r := attempt (delete_project_rows project_id ids rest) in
  match r with
  | Err e => let* _ := restore_staged_run_dirs staged in err e
  | Ok _ => let* _ := remove_each staged in ret ids
  end.

(** ** Startup *)

Fixpoint recover_each (entries : list string) : M RunStore () :=
  match entries with
  | [] => ret ()
  | name :: entries =>
      match strip_suffix DELETING name with
      | None => recover_each entries
      | Some run_id =>
          let* row := attempt (query (fun s => is_some (find_wf_run (rs_wf s) run_id))) in
          let* _ := match row with
                    | Err _ => ret ()
                    | Ok true => let* _ := rename name run_id in ret ()
                    | Ok false => remove_dir_all name
                    end in
          recover_each entries
      end
  end.

Definition recover_staged_run_dirs : M RunStore () := fun c =>
  if f_read_dir (c_tick c) then (Ok (), c)
  else recover_each (lfilter f_entry (fst <$> map_to_list (rs_dirs (c_db c)))) c.
End Cleanup.

(** ** What a crash can leave *)

Lemma strip_suffix_Some t s r : strip_suffix t s = Some r <-> s = r +:+ t.
Proof.
  revert r. induction s as [|b s IH]; intros r; cbn [strip_suffix].
  - destruct (String.eqb_spec "" t) as [<-|Hne].
    + split; [by intros [= <-]|]. by destruct r.
    + split; [done|]. destruct r; [intros Ht; by destruct Hne|done].
  - destruct (String.eqb_spec (String b s) t) as [<-|Hne].
    + split; [by intros [= <-]|]. intros Hr. destruct r as [|c r]; [done|]. exfalso.
      apply (f_equal String.length) in Hr. rewrite length_append in Hr. simpl in Hr. lia.
    + split.
      * destruct (strip_suffix t s) as [r'|] eqn:E; [|done]. intros [= <-]. by rewrite (proj1 (IH r') eq_refl).
      * destruct r as [|c r]; [intros Ht; by destruct Hne|]. intros [= <- ->]. by rewrite (proj2 (IH r)).
Qed.

Lemma staged_inj a b : staged_name a = staged_name b -> a = b.
Proof.
  intros Hs. assert (Ha : strip_suffix DELETING (staged_name a) = Some a) by by apply strip_suffix_Some.
  rewrite Hs in Ha. apply strip_suffix_Some in Ha. unfold staged_name in Ha.
  assert (Hb : strip_suffix DELETING (b +:+ DELETING) = Some a) by by apply strip_suffix_Some.
  rewrite (proj2 (strip_suffix_Some DELETING _ b)) in Hb by done. by injection Hb.
Qed.

(** A name that is not a staged one. *)
Definition plain (name : string) : Prop := strip_suffix DELETING name = None.

Lemma plain_staged name id : plain name -> name <> staged_name id.
Proof. intros Hp ->. unfold plain in Hp. by rewrite (proj2 (strip_suffix_Some DELETING (staged_name id) id)) in Hp. Qed.

(** Tidy directories: nothing staged. *)
Definition tidy (dirs : Dirs) : Prop := forall name, is_Some (dirs !! name) -> plain name.

(** The states a deletion of [doomed] goes through from [dirs0]: while the rows stand each doomed
    directory is where it was or staged whole; once they are gone it is not live. *)
Definition aside (dirs0 : Dirs) (doomed : list string) (dirs : Dirs) : Prop :=
  (forall id, id ∈ doomed ->
     (dirs !! id = dirs0 !! id /\ dirs !! staged_name id = None)
     \/ (dirs !! id = None /\ dirs !! staged_name id = dirs0 !! id)) /\
  (forall name, name ∉ doomed -> name ∉ staged_name <$> doomed -> dirs !! name = dirs0 !! name).

Definition gone (dirs0 : Dirs) (doomed : list string) (dirs : Dirs) : Prop :=
  (forall id, id ∈ doomed -> dirs !! id = None) /\
  (forall name, name ∉ doomed -> name ∉ staged_name <$> doomed -> dirs !! name = dirs0 !! name).

(** Every doomed directory is staged: the rows may go. *)
Definition all_aside (dirs0 : Dirs) (doomed : list string) (dirs : Dirs) : Prop :=
  aside dirs0 doomed dirs /\ forall id, id ∈ doomed -> dirs !! id = None.

Lemma all_aside_gone dirs0 doomed dirs : all_aside dirs0 doomed dirs -> gone dirs0 doomed dirs.
Proof. intros [[_ Ho] Hn]. by split. Qed.

Section Moves.
Context (dirs0 : Dirs) (doomed : list string).
Hypothesis plain_doomed : forall id, id ∈ doomed -> plain id.

Lemma staged_not_doomed id : staged_name id ∉ doomed.
Proof. intros Hd. by apply (plain_staged (staged_name id) id (plain_doomed _ Hd)). Qed.

(** Staging and restoring one directory. *)
Lemma move_aside id dirs dirs' :
  id ∈ doomed -> aside dirs0 doomed dirs -> move id (staged_name id) dirs = Ok dirs' ->
  aside dirs0 doomed dirs' /\ dirs' !! id = None /\ forall x, x ∈ doomed -> dirs !! x = None -> dirs' !! x = None.
Proof.
  intros Hid [Ha Ho] Hm. unfold move in Hm. destruct (dirs !! id) as [content|] eqn:Ei; [|done].
  assert (Hst : dirs' = <[staged_name id := content]> (delete id dirs)).
  { destruct (dirs !! staged_name id) as [[|? ?]|]; [|discriminate Hm|]; by injection Hm as <-. }
  assert (Hns : staged_name id <> id) by (intros He; apply (plain_staged id id); auto).
  destruct (Ha id Hid) as [[H1 H2]|[H1 _]]; [|congruence]. rewrite Ei in H1. subst dirs'. split_and!.
  - split.
    + intros x Hx. destruct (decide (x = id)) as [->|Hne].
      * right. by rewrite lookup_insert_ne, lookup_delete_eq, lookup_insert_eq by done.
      * assert (staged_name id <> x) by (intros <-; by apply (staged_not_doomed id)).
        assert (id <> staged_name x) by (apply plain_staged; auto).
        assert (staged_name id <> staged_name x) by (intros He%staged_inj; congruence).
        rewrite !lookup_insert_ne, !lookup_delete_ne by done. by apply Ha.
    + intros x Hx Hs. assert (staged_name id <> x) by (intros <-; apply Hs; by apply list_elem_of_fmap_2).
      rewrite lookup_insert_ne, lookup_delete_ne by (congruence || set_solver). by apply Ho.
  - by rewrite lookup_insert_ne, lookup_delete_eq by done.
  - intros x Hx Hn. assert (staged_name id <> x) by (intros <-; by apply (staged_not_doomed id)).
    rewrite lookup_insert_ne by done. destruct (decide (x = id)) as [->|]; [by rewrite lookup_delete_eq|].
    by rewrite lookup_delete_ne.
Qed.

Lemma move_back id dirs dirs' :
  id ∈ doomed -> aside dirs0 doomed dirs -> move (staged_name id) id dirs = Ok dirs' -> aside dirs0 doomed dirs'.
Proof.
  intros Hid [Ha Ho] Hm. unfold move in Hm. destruct (dirs !! staged_name id) as [content|] eqn:Ei; [|done].
  assert (Hst : dirs' = <[id := content]> (delete (staged_name id) dirs)).
  { destruct (dirs !! id) as [[|? ?]|]; [|discriminate Hm|]; by injection Hm as <-. }
  destruct (Ha id Hid) as [[_ H2]|[_ H2]]; [congruence|]. rewrite Ei in H2. subst dirs'.
  assert (Hns : id <> staged_name id) by (apply plain_staged; auto). split.
  - intros x Hx. destruct (decide (x = id)) as [->|Hne].
    + left. by rewrite lookup_insert_eq, lookup_insert_ne, lookup_delete_eq by done.
    + assert (staged_name id <> x) by (intros <-; by apply (staged_not_doomed id)).
      assert (id <> staged_name x) by (apply plain_staged; auto).
      assert (staged_name id <> staged_name x) by (intros He%staged_inj; congruence).
      rewrite !lookup_insert_ne, !lookup_delete_ne by done. by apply Ha.
  - intros x Hx Hs. assert (staged_name id <> x) by (intros <-; apply Hs; by apply list_elem_of_fmap_2).
    rewrite lookup_insert_ne, lookup_delete_ne by (congruence || set_solver). by apply Ho.
Qed.

Lemma gone_remove id dirs content :
  id ∈ doomed -> gone dirs0 doomed dirs ->
  gone dirs0 doomed (delete (staged_name id) dirs) /\ gone dirs0 doomed (<[staged_name id := content]> dirs).
Proof.
  intros Hid [Hg Ho]. split; split; intros x Hx.
  - rewrite lookup_delete_ne; [auto|]. intros <-. by apply (staged_not_doomed id).
  - intros Hs. rewrite lookup_delete_ne; [auto|]. intros <-. apply Hs. by apply list_elem_of_fmap_2.
  - rewrite lookup_insert_ne; [auto|]. intros <-. by apply (staged_not_doomed id).
  - intros Hs. rewrite lookup_insert_ne; [auto|]. intros <-. apply Hs. by apply list_elem_of_fmap_2.
Qed.
End Moves.

(** ** Deletions stay within those states *)

Section Deleting.
Context `{World} `{Files} (wf0 wf1 : WfDb) (dirs0 : Dirs) (doomed : list string).
Hypothesis plain_doomed : forall id, id ∈ doomed -> plain id.

(** A durable state: before the commit point or after it. *)
Definition on_the_way (h : WfDb * Dirs) : Prop :=
  (h.1 = wf0 /\ aside dirs0 doomed h.2) \/ (h.1 = wf1 /\ gone dirs0 doomed h.2).

Definition possible_ok (s : RunStore) : Prop := forall h, h ∈ rs_possible s -> on_the_way h.

(** Before the rows go, with the directories of [ids] aside. *)
Definition before_with (ids : list string) (s : RunStore) : Prop :=
  rs_wf s = wf0 /\ aside dirs0 doomed (rs_dirs s) /\ (forall x, x ∈ ids -> rs_dirs s !! x = None) /\ possible_ok s.

Definition after (s : RunStore) : Prop := rs_wf s = wf1 /\ gone dirs0 doomed (rs_dirs s) /\ possible_ok s.

Lemma possible_durable wf dirs s : on_the_way (wf, dirs) -> possible_ok s -> possible_ok (durable wf dirs s).
Proof.
  intros Hw Hs h [Hh|[->|Hh]%elem_of_cons]%elem_of_app; [auto|done|by apply elem_of_nil in Hh].
Qed.

Lemma before_weaken ids s : before_with ids s -> before_with [] s.
Proof. intros (H1 & H2 & _ & H3). split_and!; try done. by intros x ?%elem_of_nil. Qed.

Definition is_staging (d : StagedRunDir) : Prop := sd_live d ∈ doomed /\ sd_staged d = staged_name (sd_live d).

Lemma stage_triple id ids :
  id ∈ doomed -> (forall x, x ∈ ids -> x ∈ doomed) ->
  triple (before_with ids) (stage id) (fun d s => before_with (id :: ids) s /\ is_staging d) (before_with []).
Proof.
  intros Hid Hids. unfold stage.
  apply (triple_bind _ _ _ (fun r s => before_with ids s /\
    match r with Err (Refused _) => True | _ => rs_dirs s !! id = None end)).
  - intros c (Hw & Ha & Hn & Hp). unfold rename.
    destruct (move id (staged_name id) (rs_dirs (c_db c))) as [dirs|e] eqn:Em.
    + destruct (f_rename (c_tick c)); [by split_and!|].
      apply (move_aside dirs0 doomed plain_doomed) in Em as (Ha' & Hi & Hk); [|done..].
      split; [|exact Hi]. split_and!; [done|done|intros x Hx; apply Hk; auto|].
      apply possible_durable; [|done]. left. by rewrite Hw.
    + split; [by split_and!|]. unfold move in Em. destruct (rs_dirs (c_db c) !! id) eqn:Ei; [|by destruct e].
      destruct (rs_dirs (c_db c) !! staged_name id) as [[|? ?]|]; by simplify_eq.
  - intros r. apply (triple_bind _ _ _ (fun _ => before_with (id :: ids))).
    + destruct r as [[]|[|e]].
      * apply triple_ret. intros s [(Hw & Ha & Hn & Hp) Hi]. split_and!; try done.
        intros x [->|Hx]%elem_of_cons; auto.
      * intros c [(Hw & Ha & Hn & Hp) Hi]. split_and!; try done. intros x [->|Hx]%elem_of_cons; auto.
      * apply triple_err. intros s [Hb _]. by eapply before_weaken.
    + intros ex. apply triple_ret. intros s Hb. split; [done|]. by split.
Qed.

Lemma restore_triple d E : is_staging d -> triple (before_with []) (restore d) (fun _ => before_with []) E.
Proof.
  intros [Hd Hs]. unfold restore. destruct (sd_exists d); [|by apply triple_ret].
  apply (triple_bind _ _ _ (fun _ => before_with [])); [|intros r; by apply triple_ret]. rewrite Hs.
  intros c (Hw & Ha & Hn & Hp). unfold rename.
  destruct (move (staged_name (sd_live d)) (sd_live d) (rs_dirs (c_db c))) as [dirs|e] eqn:Em; [|by split_and!].
  destruct (f_rename (c_tick c)); [by split_and!|].
  apply (move_back dirs0 doomed plain_doomed) in Em; [|done..].
  split_and!; [done|done|by intros x ?%elem_of_nil|]. apply possible_durable; [|done]. left. by rewrite Hw.
Qed.

Lemma restore_each_triple l E :
  Forall is_staging l -> triple (before_with []) (restore_each l) (fun _ => before_with []) E.
Proof.
  induction 1 as [|d l Hd Hl IH]; cbn [restore_each]; [by apply triple_ret|].
  eapply triple_bind; [by apply restore_triple|]. by intros u.
Qed.

Lemma restore_all_triple l E :
  Forall is_staging l -> triple (before_with []) (restore_staged_run_dirs l) (fun _ => before_with []) E.
Proof. intros Hl. apply restore_each_triple. by apply Forall_rev. Qed.

Lemma stage_each_triple ids staged l :
  (forall x, x ∈ ids ++ l -> x ∈ doomed) -> Forall is_staging staged ->
  triple (before_with l) (stage_each ids staged)
    (fun ds s => before_with (rev ids ++ l) s /\ Forall is_staging ds) (before_with []).
Proof.
  revert staged l. induction ids as [|id ids IH]; intros staged l Hin Hst; cbn [stage_each]; [by apply triple_ret|].
  assert (Hback : forall e : string, triple (before_with l)
            (let* _ := restore_staged_run_dirs staged in err e)
            (fun (ds : list StagedRunDir) s => before_with (rev (id :: ids) ++ l) s /\ Forall is_staging ds) (before_with [])).
  { intros e. eapply triple_bind; [|intros u; apply triple_err; intros s Hs; exact Hs].
    eapply triple_weaken; [by apply restore_all_triple|apply before_weaken|done|intros d Hd; exact Hd]. }
  destruct (validate_id "run" id) as [[]|e]; [|apply Hback].
  eapply triple_bind.
  { eapply triple_attempt, stage_triple; [apply Hin; left|intros x Hx; apply Hin, elem_of_app; by right]. }
  intros [d|e]; cbn [before_with].
  - intros c [Hb Hd]. eapply (IH (staged ++ [d]) (id :: l)) in Hb.
    + destruct (stage_each ids (staged ++ [d]) c) as [[ds|e] c']; [|exact Hb].
      cbn [rev]. by rewrite <- app_assoc.
    + intros x [Hx|[->|Hx]%elem_of_cons]%elem_of_app; apply Hin; [right; apply elem_of_app; by left|left|].
      right. apply elem_of_app. by right.
    + apply Forall_app. by split; [|apply Forall_singleton].
  - eapply triple_bind; [by apply restore_all_triple|]. intros u. by apply triple_err.
Qed.

Lemma on_rows_triple f :
  (forall d, f wf0 = Ok d -> d = wf1) ->
  triple (before_with doomed) (on_rows f) (fun _ => after) (before_with []).
Proof.
  intros Hf c (Hw & Ha & Hn & Hp). unfold on_rows, sql.
  destruct (w_fault (c_tick c)); [by eapply before_weaken|]. rewrite Hw.
  destruct (f wf0) as [d|e] eqn:E; [|by eapply before_weaken]. rewrite (Hf d eq_refl) in *.
  assert (Hg : gone dirs0 doomed (rs_dirs (c_db c))) by by apply all_aside_gone.
  split_and!; [done|done|]. apply possible_durable; [|done]. right. done.
Qed.

Lemma remove_staged_triple d E : is_staging d -> triple after (remove_staged d) (fun _ => after) E.
Proof.
  intros [Hd Hs]. unfold remove_staged. destruct (sd_exists d); [|by apply triple_ret]. rewrite Hs.
  intros c (Hw & Hg & Hp). unfold remove_dir_all. destruct (rs_dirs (c_db c) !! _); [|by split_and!].
  assert (Hg' : gone dirs0 doomed (match f_remove (c_tick c) with
      | None => delete (staged_name (sd_live d)) (rs_dirs (c_db c))
      | Some kept => <[staged_name (sd_live d) := kept]> (rs_dirs (c_db c)) end)).
  { destruct (f_remove _) as [kept|]; by eapply (gone_remove dirs0 doomed plain_doomed _ _ []) || eapply (gone_remove dirs0 doomed plain_doomed _ _ kept). }
  split_and!; [done|done|]. apply possible_durable; [|done]. right. by rewrite Hw.
Qed.
End Deleting.

(** ** What startup makes of them *)

(** One entry, when nothing fails. *)
Definition settle_entry (wf : WfDb) (name : string) (dirs : Dirs) : Dirs :=
  match strip_suffix DELETING name with
  | None => dirs
  | Some id =>
      if is_some (find_wf_run wf id)
      then match move name id dirs with Ok dirs' => dirs' | Err _ => dirs end
      else delete name dirs
  end.

Definition settle_entries (wf : WfDb) (entries : list string) (dirs : Dirs) : Dirs :=
  foldl (fun dirs name => settle_entry wf name dirs) dirs entries.

(** Files that never fail. *)
Definition sound_files : Files := {|
  f_rename _ := None; f_remove _ := None; f_read_dir _ := false; f_entry _ := true |}.

Section Recovery.
Context (wf : WfDb).
Let row (id : string) : bool := is_some (find_wf_run wf id).

Lemma recover_each_settles `{World} entries c :
  (forall n, w_fault n = None) -> rs_wf (c_db c) = wf ->
  match @recover_each _ sound_files entries c with
  | (_, c') => rs_wf (c_db c') = wf /\ rs_dirs (c_db c') = settle_entries wf entries (rs_dirs (c_db c))
  end.
Proof.
  intros calm. revert c. induction entries as [|name entries IH]; intros c Hc; [done|].
  cbn [recover_each settle_entries foldl]. unfold settle_entry at 2.
  destruct (strip_suffix DELETING name) as [id|] eqn:E; [|by apply IH].
  unfold bind at 1. unfold attempt at 1, query, sql. rewrite calm, Hc. unfold bind at 1.
  destruct (is_some (find_wf_run wf id)).
  - unfold bind at 1, rename. cbn [c_db c_tick tick f_rename sound_files].
    destruct (move name id (rs_dirs (c_db c))) eqn:Em; cbn [ret]; refine (IH {| c_db := _; c_tick := _ |} _); exact Hc.
  - unfold remove_dir_all. cbn [c_db c_tick tick f_remove sound_files].
    destruct (rs_dirs (c_db c) !! name) eqn:Ed; [refine (IH {| c_db := _; c_tick := _ |} _); exact Hc|].
    rewrite (delete_id _ _ Ed). refine (IH {| c_db := _; c_tick := _ |} _). exact Hc.
Qed.

(** The keys an entry concerns: itself, and the live name of a row. *)
Definition concerns (name k : string) : Prop :=
  exists id, name = staged_name id /\ (k = name \/ (row id = true /\ k = id)).

Lemma settle_entry_other name k dirs : ~ concerns name k -> settle_entry wf name dirs !! k = dirs !! k.
Proof.
  intros Hk. unfold settle_entry. destruct (strip_suffix DELETING name) as [id|] eqn:E; [|done].
  apply strip_suffix_Some in E. fold (staged_name id) in E.
  assert (Hn : k <> name) by (intros ->; apply Hk; exists id; auto).
  change (is_some (find_wf_run wf id)) with (row id). destruct (row id) eqn:Er; [|by rewrite lookup_delete_ne].
  assert (Hi : k <> id) by (intros ->; apply Hk; exists id; auto).
  unfold move. destruct (dirs !! name); [|done]. destruct (dirs !! id) as [[|? ?]|]; [|done|];
    by rewrite lookup_insert_ne, lookup_delete_ne.
Qed.

Lemma settle_entries_other entries k dirs :
  (forall name, name ∈ entries -> ~ concerns name k) -> settle_entries wf entries dirs !! k = dirs !! k.
Proof.
  revert dirs. induction entries as [|name entries IH]; intros dirs Hk; [done|].
  change (settle_entries wf entries (settle_entry wf name dirs) !! k = dirs !! k). rewrite IH by (intros x Hx; apply Hk; by right).
  apply settle_entry_other, Hk. left.
Qed.

Context (entries : list string) (Hnd : NoDup entries).
Hypothesis plain_entries : forall id, staged_name id ∈ entries -> plain id.

Lemma concerns_apart id name k :
  staged_name id ∈ entries -> name ∈ entries -> name <> staged_name id ->
  k = staged_name id \/ k = id -> ~ concerns name k.
Proof.
  intros Hid Hn Hne Hk (id' & -> & Hc). destruct Hk as [-> | ->], Hc as [Hc|[_ Hc]].
  - congruence.
  - by apply (plain_staged id' id (plain_entries _ Hn)).
  - by apply (plain_staged id id' (plain_entries _ Hid)).
  - congruence.
Qed.

(** A staged entry is moved back when its row stands, and removed when it does not. *)
Lemma settle_entries_staged id dirs :
  staged_name id ∈ entries -> (row id = true -> dirs !! id = None) ->
  settle_entries wf entries dirs !! staged_name id = None /\
  settle_entries wf entries dirs !! id = if row id then dirs !! staged_name id else dirs !! id.
Proof.
  intros Hid Hlive. pose proof (plain_entries id Hid) as Hp.
  assert (Hns : id <> staged_name id) by (by apply plain_staged).
  pose proof (concerns_apart id) as Hap.
  destruct (list_elem_of_split _ _ Hid) as (l1 & l2 & E). rewrite E in Hnd, Hap |- *.
  apply NoDup_app in Hnd as (_ & Hd1 & Hn2). apply NoDup_cons in Hn2 as [Hn2 _].
  assert (Ho1 : forall k dirs, k = staged_name id \/ k = id -> settle_entries wf l1 dirs !! k = dirs !! k).
  { intros k d Hk. apply settle_entries_other. intros x Hx. apply Hap; [set_solver|set_solver| |done].
    intros ->. apply (Hd1 _ Hx). left. }
  assert (Ho2 : forall k dirs, k = staged_name id \/ k = id -> settle_entries wf l2 dirs !! k = dirs !! k).
  { intros k d Hk. apply settle_entries_other. intros x Hx. apply Hap; [set_solver|set_solver|congruence|done]. }
  unfold settle_entries in *. rewrite foldl_app. cbn [foldl]. rewrite !Ho2 by auto.
  set (d1 := foldl _ dirs l1). assert (H1 : d1 !! id = dirs !! id) by (apply Ho1; auto).
  assert (H2 : d1 !! staged_name id = dirs !! staged_name id) by (apply Ho1; auto). clearbody d1.
  unfold settle_entry. rewrite (proj2 (strip_suffix_Some DELETING (staged_name id) id) eq_refl).
  change (is_some (find_wf_run wf id)) with (row id). destruct (row id) eqn:Er.
  - unfold move. rewrite H1, (Hlive eq_refl), <- H2. destruct (d1 !! staged_name id) as [content|] eqn:Es.
    + by rewrite lookup_insert_ne, lookup_delete_eq, lookup_insert_eq.
    + rewrite Es. split; [done|]. by rewrite H1, Hlive.
  - rewrite lookup_delete_eq, lookup_delete_ne by done. by split.
Qed.
End Recovery.

(** ** Both together *)

(** The directories without those of [doomed]. *)
Definition without (doomed : list string) (dirs : Dirs) : Dirs := filter (fun p => p.1 ∉ doomed) dirs.

Lemma without_in doomed dirs id : id ∈ doomed -> without doomed dirs !! id = None.
Proof. intros Hid. apply map_lookup_filter_None. right. intros x Hx. by intros Hn. Qed.

Lemma without_notin doomed dirs id : id ∉ doomed -> without doomed dirs !! id = dirs !! id.
Proof.
  intros Hid. unfold without. destruct (dirs !! id) as [x|] eqn:E.
  - by apply map_lookup_filter_Some.
  - apply map_lookup_filter_None. by left.
Qed.

(** What a startup that meets the state [h] leaves on disk. *)
Definition recovered (h : WfDb * Dirs) : Dirs :=
  settle_entries h.1 (fst <$> map_to_list h.2) h.2.

Lemma recover_is_recovered `{World} h c :
  (forall n, w_fault n = None) -> rs_wf (c_db c) = h.1 -> rs_dirs (c_db c) = h.2 ->
  rs_wf (c_db (@recover_staged_run_dirs _ sound_files c).2) = h.1 /\
  rs_dirs (c_db (@recover_staged_run_dirs _ sound_files c).2) = recovered h.
Proof.
  intros calm Hw Hd. unfold recover_staged_run_dirs. cbn [f_read_dir f_entry sound_files]. rewrite lfilter_all by done.
  pose proof (recover_each_settles h.1 (fst <$> map_to_list (rs_dirs (c_db c))) c calm Hw) as Hr.
  destruct (recover_each _ c) as [r c']. unfold recovered. by rewrite Hd in Hr.
Qed.

Section Outcome.
Context (wf0 wf1 : WfDb) (dirs0 : Dirs) (doomed : list string).
Hypothesis plain_doomed : forall id, id ∈ doomed -> plain id.
Hypothesis tidy0 : tidy dirs0.
Hypothesis rows0 : forall id, id ∈ doomed -> is_some (find_wf_run wf0 id) = true.
Hypothesis rows1 : forall id, id ∈ doomed -> is_some (find_wf_run wf1 id) = false.

Lemma entries_of (dirs : Dirs) name : name ∈ (map_to_list dirs).*1 <-> is_Some (dirs !! name).
Proof.
  rewrite list_elem_of_fmap. split.
  - intros ([n x] & -> & Hx%elem_of_map_to_list). by exists x.
  - intros [x Hx]. exists (name, x). by rewrite elem_of_map_to_list.
Qed.

(** A staged entry belongs to a doomed run. *)
Lemma staged_is_doomed (dirs : Dirs) id :
  (forall name, name ∉ doomed -> name ∉ staged_name <$> doomed -> dirs !! name = dirs0 !! name) ->
  is_Some (dirs !! staged_name id) -> id ∈ doomed.
Proof.
  intros Ho Hs. destruct (decide (id ∈ doomed)) as [|Hn]; [done|exfalso].
  rewrite Ho in Hs.
  - by apply (plain_staged _ id (tidy0 _ Hs)).
  - intros Hd. by apply (plain_staged _ id (plain_doomed _ Hd)).
  - intros (x & He%staged_inj & Hx)%list_elem_of_fmap. by subst.
Qed.

(** Keys no staged entry concerns stay. *)
Lemma recovered_other wf (dirs : Dirs) k :
  (forall id, is_Some (dirs !! staged_name id) ->
     k <> staged_name id /\ (is_some (find_wf_run wf id) = true -> k <> id)) ->
  recovered (wf, dirs) !! k = dirs !! k.
Proof.
  intros Hk. apply settle_entries_other. intros name Hn%entries_of (id & -> & Hc).
  destruct (Hk id Hn) as [H1 H2], Hc as [->|[Hr ->]]; [done|]. by apply H2.
Qed.

Lemma recovered_staged wf (dirs : Dirs) id :
  (forall id, is_Some (dirs !! staged_name id) -> plain id) -> is_Some (dirs !! staged_name id) ->
  (is_some (find_wf_run wf id) = true -> dirs !! id = None) ->
  recovered (wf, dirs) !! staged_name id = None /\
  (is_some (find_wf_run wf id) = true -> recovered (wf, dirs) !! id = dirs !! staged_name id).
Proof.
  intros Hp Hs Hl. destruct (settle_entries_staged wf (map_to_list dirs).*1 (NoDup_fst_map_to_list dirs)
    (fun id Hin => Hp id (proj1 (entries_of dirs _) Hin)) id dirs (proj2 (entries_of dirs _) Hs) Hl) as [H1 H2].
  split; [exact H1|]. intros Hr. by rewrite Hr in H2.
Qed.

(** Before the commit point: everything is back. *)
Lemma recovered_before (dirs : Dirs) : aside dirs0 doomed dirs -> recovered (wf0, dirs) = dirs0.
Proof.
  intros [Ha Ho]. pose proof (fun id => staged_is_doomed dirs id Ho) as Hd.
  assert (Hp : forall id, is_Some (dirs !! staged_name id) -> plain id) by (intros id Hs; by apply plain_doomed, Hd).
  assert (Hl : forall id, is_Some (dirs !! staged_name id) -> dirs !! id = None).
  { intros id Hs. destruct (Ha id (Hd id Hs)) as [[_ Hn]|[Hn _]]; [|done]. rewrite Hn in Hs. by destruct Hs. }
  apply map_eq. intros k. destruct (decide (k ∈ doomed)) as [Hk|Hk].
  - destruct (decide (is_Some (dirs !! staged_name k))) as [Hs|Hs].
    + destruct (recovered_staged wf0 dirs k Hp Hs (fun _ => Hl k Hs)) as [_ Hr]. rewrite Hr by auto.
      destruct (Ha k Hk) as [[_ Hn]|[_ Hn]]; [|exact Hn]. rewrite Hn in Hs. by destruct Hs.
    + rewrite recovered_other.
      * apply eq_None_not_Some in Hs. destruct (Ha k Hk) as [[Hn _]|[Hn Hn']]; congruence.
      * intros id Hi. split; [apply plain_staged; auto|]. intros _ ->. by apply Hs.
  - destruct (decide (k ∈ staged_name <$> doomed)) as [(id & -> & Hid)%list_elem_of_fmap|Hk'].
    + assert (H0 : dirs0 !! staged_name id = None).
      { apply eq_None_not_Some. intros Hs. by apply (plain_staged _ id (tidy0 _ Hs)). }
      rewrite H0. destruct (decide (is_Some (dirs !! staged_name id))) as [Hs|Hs].
      * by apply (recovered_staged wf0 dirs id Hp Hs (fun _ => Hl id Hs)).
      * rewrite recovered_other; [by apply eq_None_not_Some|]. intros id' Hi. split.
        -- intros He%staged_inj. by subst.
        -- intros _ <-. by apply (plain_staged _ id (Hp _ Hi)).
    + rewrite recovered_other; [by apply Ho|]. intros id Hi. split.
      * intros ->. apply Hk'. apply list_elem_of_fmap_2. auto.
      * intros _ ->. auto.
Qed.

(** After it: nothing of the doomed runs is left, and nothing else changed. *)
Lemma recovered_after (dirs : Dirs) : gone dirs0 doomed dirs -> recovered (wf1, dirs) = without doomed dirs0.
Proof.
  intros [Hg Ho]. pose proof (fun id => staged_is_doomed dirs id Ho) as Hd.
  assert (Hp : forall id, is_Some (dirs !! staged_name id) -> plain id) by (intros id Hs; by apply plain_doomed, Hd).
  assert (Hno : forall id, is_Some (dirs !! staged_name id) -> is_some (find_wf_run wf1 id) <> true)
    by (intros id Hs; rewrite rows1; auto).
  apply map_eq. intros k. destruct (decide (k ∈ doomed)) as [Hk|Hk].
  - rewrite without_in by done. rewrite recovered_other; [by apply Hg|].
    intros id Hi. split; [apply plain_staged; auto|]. intros Hr. by destruct (Hno id Hi).
  - rewrite without_notin by done. destruct (decide (k ∈ staged_name <$> doomed)) as [(id & -> & Hid)%list_elem_of_fmap|Hk'].
    + assert (H0 : dirs0 !! staged_name id = None).
      { apply eq_None_not_Some. intros Hs. by apply (plain_staged _ id (tidy0 _ Hs)). }
      rewrite H0. destruct (decide (is_Some (dirs !! staged_name id))) as [Hs|Hs].
      * apply (recovered_staged wf1 dirs id Hp Hs). intros Hr. by destruct (Hno id Hs).
      * rewrite recovered_other; [by apply eq_None_not_Some|]. intros id' Hi. split.
        -- intros He%staged_inj. by subst.
        -- intros Hr. by destruct (Hno id' Hi).
    + rewrite recovered_other; [by apply Ho|]. intros id Hi. split.
      * intros ->. apply Hk'. apply list_elem_of_fmap_2. auto.
      * intros Hr. by destruct (Hno id Hi).
Qed.

Lemma recovered_on_the_way h :
  on_the_way wf0 wf1 dirs0 doomed h ->
  (h.1 = wf0 /\ recovered h = dirs0) \/ (h.1 = wf1 /\ recovered h = without doomed dirs0).
Proof.
  destruct h as [wf dirs]. unfold on_the_way. cbn [fst snd]. intros [[-> Ha]|[-> Hg]];
    [left; split; [done|by apply recovered_before]|right; split; [done|by apply recovered_after]].
Qed.
End Outcome.

Lemma aside_start dirs doomed : tidy dirs -> aside dirs doomed dirs.
Proof.
  intros Ht. split; [|done]. intros id _. left. split; [done|].
  apply eq_None_not_Some. intros Hs. by apply (plain_staged _ id (Ht _ Hs)).
Qed.

(** Rows of the doomed, before and after. *)
Lemma delete_runs_row p d id :
  (forall r, r ∈ wf_runs d -> wr_id r = id -> p r = true) -> is_some (find_wf_run (delete_runs p d) id) = false.
Proof.
  intros Hp. destruct (is_some _) eqn:E; [|done].
  apply find_wf_run_some, list_elem_of_fmap in E as (r & He & [Hr Hn]%elem_of_lfilter).
  by rewrite (Hp r Hr (eq_sym He)) in Hn.
Qed.

(** What a deletion of rows keeps. *)
Definition doomed_id (p : WfRun -> bool) (d : WfDb) (id : string) : bool :=
  existsb (fun r => p r && String.eqb (wr_id r) id) (wf_runs d).

Lemma kept_run p d id : has_run id d -> doomed_id p d id = false -> has_run id (delete_runs p d).
Proof.
  unfold has_run. intros (r & -> & Hr)%list_elem_of_fmap Hk. apply list_elem_of_fmap. exists r. split; [done|].
  cbn [delete_runs wf_runs]. apply elem_of_lfilter. split; [done|]. destruct (p r) eqn:E; [|done]. exfalso.
  assert (Hx : doomed_id p d (wr_id r) = true); [|congruence].
  apply existsb_exists. exists r. split; [by apply list_elem_of_In|]. by rewrite E, String.eqb_refl.
Qed.

Lemma events_of_delete_runs p d id :
  events_of (delete_runs p d) id = if doomed_id p d id then [] else events_of d id.
Proof.
  unfold events_of. cbn [delete_runs wf_journal]. induction (wf_journal d) as [|e l IH]; [by destruct (doomed_id p d id)|].
  cbn [lfilter]. fold (doomed_id p d (we_run_id e)).
  destruct (String.eqb_spec (we_run_id e) id) as [He|Hne].
  - rewrite He. destruct (doomed_id p d id); cbn [negb] in *; [exact IH|]. cbn [lfilter].
    by rewrite He, String.eqb_refl, IH.
  - destruct (negb _); [|exact IH]. cbn [lfilter]. by destruct (String.eqb_spec (we_run_id e) id).
Qed.

Lemma wf_ok_delete_runs p d : wf_ok d -> wf_ok (delete_runs p d).
Proof.
  intros [H1 H2 H3 H4 H5].
  split; [by apply lfilter_fmap_NoDup|by apply lfilter_fmap_NoDup| | |].
  - intros e [He Hk%negb_true_iff]%elem_of_lfilter. apply kept_run; [by apply H3|exact Hk].
  - intros ev [He Hk%negb_true_iff]%elem_of_lfilter. apply kept_run; [by apply H4|exact Hk].
  - intros id. rewrite events_of_delete_runs. destruct (doomed_id p d id); [done|apply H5].
Qed.

Lemma has_run_delete_runs id d other : other <> id -> has_run other d -> has_run other (delete_runs (is_run id) d).
Proof.
  intros Hne Hr. apply kept_run; [done|]. destruct (doomed_id (is_run id) d other) eqn:E; [|done]. exfalso.
  apply existsb_exists in E as (r & _ & [Hi Ho]%andb_true_iff). unfold is_run in Hi.
  apply String.eqb_eq in Hi, Ho. congruence.
Qed.

Lemma elem_of_project_run_ids p d id :
  id ∈ project_run_ids p d <-> exists r, r ∈ wf_runs d /\ wr_id r = id /\ of_project p r = true.
Proof.
  unfold project_run_ids. rewrite list_elem_of_fmap. split.
  - intros (r & -> & Hr%elem_of_sort_by). apply elem_of_lfilter in Hr as [Hr Hp]. eauto.
  - intros (r & Hr & <- & Hp). exists r. split; [done|]. by apply elem_of_sort_by, elem_of_lfilter.
Qed.

Section Deletions.
Context `{World} `{Files}.

Lemma check_deletable_reads ids : reads (check_deletable ids).
Proof.
  induction ids as [|id ids IH]; cbn [check_deletable]; [auto with fletch|].
  apply reads_bind; [apply reads_attempt; reading|]. intros [row|e]; [|auto with fletch].
  destruct (lcontains _ _); auto with fletch.
Qed.

(** The guard lets through terminal runs only. *)
Lemma check_deletable_Ok ids c u c' :
  check_deletable ids c = (Ok u, c') ->
  forall id, id ∈ ids -> exists r, find_wf_run (rs_wf (c_db c)) id = Some r /\
    wr_status r ∈ ["done"; "failed"; "canceled"].
Proof.
  revert c. induction ids as [|i ids IH]; intros c Hc id Hid; [by apply elem_of_nil in Hid|].
  cbn [check_deletable] in Hc. unfold bind at 1, attempt in Hc.
  destruct ((let* o := query _ in require_some NO_ROWS o) c) as [[row|e] c1] eqn:E; [|done].
  apply bind_Ok in E as (o & c2 & (_ & -> & ->)%query_Ok & E). unfold require_some in E.
  destruct (find_wf_run (rs_wf (c_db c)) i) as [r|] eqn:Ef; [|done]. injection E as -> <-.
  destruct (lcontains _ (wr_status row)) eqn:El; [|done]. apply lcontains_true in El.
  apply elem_of_cons in Hid as [->|Hid]; [by exists row|]. exact (IH _ Hc id Hid).
Qed.

Lemma delete_run_data_triple wf0 dirs0 id :
  plain id ->
  triple (before_with wf0 (delete_runs (is_run id) wf0) dirs0 [id] []) (delete_run_data id)
    (fun _ => after wf0 (delete_runs (is_run id) wf0) dirs0 [id])
    (before_with wf0 (delete_runs (is_run id) wf0) dirs0 [id] []).
Proof.
  intros Hp. assert (Hd : forall x, x ∈ [id] -> plain x) by (by intros x ->%list_elem_of_singleton).
  unfold delete_run_data. eapply triple_bind; [apply triple_reads; auto with fletch|intros u].
  eapply triple_bind; [apply (stage_triple _ _ _ _ Hd id []); [left|by intros x ?%elem_of_nil]|].
  intros d. apply triple_pure. intros Hst. eapply triple_bind.
  { eapply triple_attempt, on_rows_triple. by intros d' [= <-]. }
  intros [u'|e].
  - by apply remove_staged_triple.
  - eapply triple_bind; [by apply restore_triple|]. intros u'. by apply triple_err.
Qed.

Lemma remove_each_triple wf0 wf1 dirs0 doomed l E :
  (forall id, id ∈ doomed -> plain id) -> Forall (is_staging doomed) l ->
  triple (after wf0 wf1 dirs0 doomed) (remove_each l) (fun _ => after wf0 wf1 dirs0 doomed) E.
Proof.
  intros Hd. induction 1 as [|d l Hl _ IH]; cbn [remove_each]; [by apply triple_ret|].
  eapply triple_bind; [by apply remove_staged_triple|]. by intros u.
Qed.

Lemma delete_project_runs_triple live p rest wf0 dirs0 :
  let ids := project_run_ids p wf0 in let wf1 := delete_runs (of_project p) wf0 in
  (forall id, id ∈ ids -> plain id) ->
  triple (before_with wf0 wf1 dirs0 ids []) (delete_project_runs live p rest)
    (fun _ => after wf0 wf1 dirs0 ids) (before_with wf0 wf1 dirs0 ids []).
Proof.
  intros ids wf1 Hd. unfold delete_project_runs.
  apply (triple_bind _ _ _ (fun r s => before_with wf0 wf1 dirs0 ids ids s /\ (r.1 = ids /\ Forall (is_staging ids) r.2))).
  - unfold prepare_project_runs.
    apply (triple_bind _ _ _ (fun r s => before_with wf0 wf1 dirs0 ids [] s /\ r = ids)).
    { intros c Hc. unfold query, sql. destruct (w_fault _); [done|]. split; [done|]. by destruct Hc as [-> _]. }
    intros all. apply triple_pure. intros ->.
    eapply triple_bind; [apply triple_reads, check_deletable_reads|intros u].
    destruct (lfind live ids); [by apply triple_err|].
    eapply triple_bind; [apply (stage_each_triple _ _ _ _ Hd ids [] []); [by rewrite app_nil_r|constructor]|].
    intros ds. apply triple_ret. intros s [Hb Hs]. split; [|done]. rewrite app_nil_r in Hb.
    destruct Hb as (H1 & H2 & H3 & H4). split_and!; try done. intros x Hx. apply H3. by rewrite <- Permutation_rev.
  - intros [all ds]. cbn [fst snd]. apply triple_pure. intros [-> Hst].
    eapply triple_bind.
    { eapply triple_attempt, on_rows_triple. intros d. cbv zeta. fold ids. rewrite bool_decide_true by done.
      destruct rest; [done|]. by intros [= <-]. }
    intros [u|e]; [eapply triple_bind; [by apply remove_each_triple|intros u'; by apply triple_ret]|].
    eapply triple_bind; [by apply restore_all_triple|]. intros u. by apply triple_err.
Qed.
End Deletions.

(** What recovery leaves of every state a deletion may have been cut at. *)
Lemma crash_recovered (W : World) wf0 wf1 dirs0 doomed s :
  (forall id, id ∈ doomed -> plain id) -> tidy dirs0 ->
  (forall id, id ∈ doomed -> is_some (find_wf_run wf0 id) = true) ->
  (forall id, id ∈ doomed -> is_some (find_wf_run wf1 id) = false) ->
  possible_ok wf0 wf1 dirs0 doomed s ->
  forall h c', h ∈ (wf0, dirs0) :: rs_possible s ->
    (forall n, w_fault n = None) -> rs_wf (c_db c') = h.1 -> rs_dirs (c_db c') = h.2 ->
    let s' := c_db (@recover_staged_run_dirs W sound_files c').2 in
    (rs_wf s' = wf0 /\ rs_dirs s' = dirs0) \/ (rs_wf s' = wf1 /\ rs_dirs s' = without doomed dirs0).
Proof.
  intros Hpl Ht H0 H1 Hs h c' Hh calm Hw Hd s'. destruct (recover_is_recovered h c' calm Hw Hd) as [Hw' Hd'].
  unfold s'. rewrite Hw', Hd'. apply (recovered_on_the_way _ _ _ _ Hpl Ht H0 H1).
  apply elem_of_cons in Hh as [->|Hh]; [left; split; [done|by apply aside_start]|by apply Hs].
Qed.

(** (C30) Deleting a run survives a crash at any moment: whatever fails, and wherever the process
    stops between its durable changes, the next startup finds either the run with its row and its
    directory exactly as they were, or neither of them; other runs' directories are untouched. *)
Theorem run_deletion_crash_safe (W W' : World) `{Files} c id h c' :
  let s := c_db c in
  rs_possible s = [] -> tidy (rs_dirs s) -> plain id -> has_run id (rs_wf s) ->
  h ∈ (rs_wf s, rs_dirs s) :: rs_possible (c_db (@delete_run_data W _ id c).2) ->
  (forall n, @w_fault W' n = None) -> rs_wf (c_db c') = h.1 -> rs_dirs (c_db c') = h.2 ->
  let s' := c_db (@recover_staged_run_dirs W' sound_files c').2 in
  (rs_wf s' = rs_wf s /\ rs_dirs s' = rs_dirs s) \/
  (rs_wf s' = delete_runs (is_run id) (rs_wf s) /\ rs_dirs s' = without [id] (rs_dirs s)).
Proof.
  intros s Hp Ht Hid Hrun Hh calm Hw Hd.
  assert (Hpl : forall x, x ∈ [id] -> plain x) by (by intros x ->%list_elem_of_singleton).
  apply (crash_recovered W' _ (delete_runs (is_run id) (rs_wf s)) (rs_dirs s) [id]
    (c_db (@delete_run_data W _ id c).2) Hpl Ht) with h; try done.
  - intros x ->%list_elem_of_singleton. by apply find_wf_run_some.
  - intros x ->%list_elem_of_singleton. apply delete_runs_row. intros r _ <-. apply String.eqb_refl.
  - pose proof (@delete_run_data_triple W _ (rs_wf s) (rs_dirs s) id Hid c) as Htr.
    assert (Hb : before_with (rs_wf s) (delete_runs (is_run id) (rs_wf s)) (rs_dirs s) [id] [] s).
    { split_and!; [done|by apply aside_start|by intros x ?%elem_of_nil|]. intros x. rewrite Hp. by intros ?%elem_of_nil. }
    specialize (Htr Hb). destruct (@delete_run_data W _ id c) as [[u|e] c1]; [by destruct Htr as (_ & _ & ?)|].
    by destruct Htr as (_ & _ & _ & ?).
Qed.

(** Deleting a project is all or nothing over its runs, crash included: the deletion goes
    through only when every run of the project is over and none has a live drive task; when it
    reports an error every row is still there; and from any moment the process may stop at, the
    next startup restores every run's directory or has removed them all. *)
Theorem project_deletion_crash_safe (W W' : World) `{Files} live p rest c :
  let s := c_db c in let ids := project_run_ids p (rs_wf s) in
  let wf1 := delete_runs (of_project p) (rs_wf s) in
  let r := @delete_project_runs W _ live p rest c in
  rs_possible s = [] -> tidy (rs_dirs s) -> NoDup (wr_id <$> wf_runs (rs_wf s)) ->
  (forall id, id ∈ ids -> plain id) ->
  match r.1 with
  | Ok _ => rs_wf (c_db r.2) = wf1 /\ forall id, id ∈ ids -> live id = false /\
      exists run, find_wf_run (rs_wf s) id = Some run /\ wr_status run ∈ ["done"; "failed"; "canceled"]
  | Err _ => rs_wf (c_db r.2) = rs_wf s
  end /\
  forall h c', h ∈ (rs_wf s, rs_dirs s) :: rs_possible (c_db r.2) ->
    (forall n, @w_fault W' n = None) -> rs_wf (c_db c') = h.1 -> rs_dirs (c_db c') = h.2 ->
    let s' := c_db (@recover_staged_run_dirs W' sound_files c').2 in
    (rs_wf s' = rs_wf s /\ rs_dirs s' = rs_dirs s) \/ (rs_wf s' = wf1 /\ rs_dirs s' = without ids (rs_dirs s)).
Proof.
  intros s ids wf1 r Hp Ht Hnd Hpl.
  assert (Hb : before_with (rs_wf s) wf1 (rs_dirs s) ids [] s).
  { split_and!; [done|by apply aside_start|by intros x ?%elem_of_nil|]. intros x. rewrite Hp. by intros ?%elem_of_nil. }
  pose proof (@delete_project_runs_triple W _ live p rest (rs_wf s) (rs_dirs s) Hpl c Hb) as Htr.
  assert (Hok : possible_ok (rs_wf s) wf1 (rs_dirs s) ids (c_db r.2)).
  { unfold r. destruct (@delete_project_runs W _ live p rest c) as [[u|e] c1]; [by destruct Htr as (_ & _ & ?)|].
    by destruct Htr as (_ & _ & _ & ?). }
  split.
  - unfold r. destruct (@delete_project_runs W _ live p rest c) as [[u|e] c1] eqn:E; cbn [fst snd]; [|by destruct Htr].
    split; [by destruct Htr|]. intros id Hid.
    unfold delete_project_runs in E. apply bind_Ok in E as ([all ds] & c2 & E & _).
    unfold prepare_project_runs in E. apply bind_Ok in E as (l & c3 & (_ & -> & ->)%query_Ok & E).
    apply bind_Ok in E as (u' & c4 & Hc & E). change (project_run_ids p (rs_wf (c_db c))) with ids in *.
    destruct (lfind live ids) eqn:El; [done|]. rewrite lfind_None in El. split; [by apply El|].
    exact (@check_deletable_Ok W ids (tick c) u' c4 Hc id Hid).
  - intros h c' Hh calm Hw Hd. apply (crash_recovered W' (rs_wf s) wf1 (rs_dirs s) ids (c_db r.2) Hpl Ht) with h; try done.
    + intros id (x & Hx & <- & _)%elem_of_project_run_ids. apply find_wf_run_some. by apply list_elem_of_fmap_2.
    + intros id (x & Hx & <- & Hpx)%elem_of_project_run_ids. apply delete_runs_row. intros y Hy He.
      by rewrite (NoDup_key_inj wr_id (wf_runs (rs_wf s)) y x Hnd Hy Hx He).
Qed.

(** A finished run with its directory, and the state between its staging and its row's end. *)
Definition demo_dirs : Dirs := {["run-1" := ["blackboard"; "repo"]; "run-0" := ["repo"]]}.
Definition demo_store : Conn RunStore := {|
  c_db := {| rs_wf := demo_db "done"; rs_dirs := demo_dirs; rs_possible := [] |}; c_tick := 0 |}.
Definition cut_store : WfDb * Dirs :=
  (demo_db "done", {["run-1.deleting" := ["blackboard"; "repo"]; "run-0" := ["repo"]]}).
Definition restarted (h : WfDb * Dirs) : Conn RunStore := {|
  c_db := {| rs_wf := h.1; rs_dirs := h.2; rs_possible := [] |}; c_tick := 0 |}.

Lemma demo_tidy : tidy demo_dirs.
Proof.
  intros name Hn%entries_of. assert (E : (map_to_list demo_dirs).*1 = ["run-1"; "run-0"]) by (vm_compute; reflexivity).
  rewrite E in Hn.
  rewrite !elem_of_cons, elem_of_nil in Hn. destruct Hn as [->|[->|[]]]; vm_compute; reflexivity.
Qed.

Lemma run_deletion_crash_safe_witness :
  let recover := @recover_staged_run_dirs (calm_world show_nat) sound_files (restarted cut_store) in
  let s' := c_db recover.2 in
  rs_dirs s' = demo_dirs /\
  ((rs_wf s' = demo_db "done" /\ rs_dirs s' = demo_dirs) \/
   (rs_wf s' = delete_runs (is_run "run-1") (demo_db "done") /\ rs_dirs s' = without ["run-1"] demo_dirs)).
Proof.
  intros recover s'. split; [vm_compute; reflexivity|].
  refine (@run_deletion_crash_safe (calm_world show_nat) (calm_world show_nat) sound_files demo_store "run-1"
    cut_store (restarted cut_store) eq_refl demo_tidy eq_refl _ _ (fun _ => eq_refl) eq_refl eq_refl).
  - apply list_elem_of_here.
  - apply list_elem_of_In. right. left. vm_compute. reflexivity.
Defined.

Lemma project_deletion_crash_safe_witness :
  let r := @delete_project_runs (calm_world show_nat) sound_files (fun _ => false) "p" None demo_store in
  let h := cut_store in
  let s' := c_db (@recover_staged_run_dirs (calm_world show_nat) sound_files (restarted h)).2 in
  r.1 = Ok ["run-1"] /\ wf_runs (rs_wf (c_db r.2)) = [] /\
  ((rs_wf s' = demo_db "done" /\ rs_dirs s' = demo_dirs) \/
   (rs_wf s' = delete_runs (of_project "p") (demo_db "done") /\ rs_dirs s' = without ["run-1"] demo_dirs)).
Proof.
  intros r h s'. split; [vm_compute; reflexivity|]. split; [vm_compute; reflexivity|].
  refine (proj2 (@project_deletion_crash_safe (calm_world show_nat) (calm_world show_nat) sound_files
    (fun _ => false) "p" None demo_store eq_refl demo_tidy (NoDup_singleton _) _)
    cut_store (restarted cut_store) _ (fun _ => eq_refl) eq_refl eq_refl).
  - intros id Hid. change (id ∈ ["run-1"]) in Hid. by apply list_elem_of_singleton in Hid as ->.
  - apply list_elem_of_In. right. left. vm_compute. reflexivity.
Defined.
