(* ===== verification/Power.v ===== *)
(** * Keeping the machine awake (power.rs)

    The activity monitor: which agents and runs are at work, the keep-awake inputs, and the power
    assertion that follows them. A change takes the lock, records itself, and recomputes under a
    second lock; a release is debounced by a timer that fires only if no recompute came after it.
    The functions are the monitor's operations; [pstep] interleaves their locked sections, since
    any thread may report a change. *)

From S2P Require Import Prelude RustStr.

Local Open Scope list_scope.

(** [Inner], with [armed] beside it. *)
Record Power := {
  pw_agents : gset string;
  pw_runs : gset string;
  pw_keep_awake_on_power : bool;
  pw_remote_enabled : bool;
  pw_on_external_power : bool;
  pw_release_gen : N;
  pw_assertion : bool;
  pw_armed : bool;
}.

Definition fresh : Power := {|
  pw_agents := ∅; pw_runs := ∅; pw_keep_awake_on_power := true; pw_remote_enabled := false;
  pw_on_external_power := false; pw_release_gen := 0; pw_assertion := false; pw_armed := false |}.

Definition wants_assertion (p : Power) : bool :=
  negb (bool_decide (pw_agents p = ∅)) || negb (bool_decide (pw_runs p = ∅))
  || (pw_keep_awake_on_power p && pw_remote_enabled p && pw_on_external_power p).

(** The inputs. *)
Definition with_agents (s : gset string) (p : Power) : Power := {|
  pw_agents := s; pw_runs := pw_runs p; pw_keep_awake_on_power := pw_keep_awake_on_power p;
  pw_remote_enabled := pw_remote_enabled p; pw_on_external_power := pw_on_external_power p;
  pw_release_gen := pw_release_gen p; pw_assertion := pw_assertion p; pw_armed := pw_armed p |}.
Definition with_runs (s : gset string) (p : Power) : Power := {|
  pw_agents := pw_agents p; pw_runs := s; pw_keep_awake_on_power := pw_keep_awake_on_power p;
  pw_remote_enabled := pw_remote_enabled p; pw_on_external_power := pw_on_external_power p;
  pw_release_gen := pw_release_gen p; pw_assertion := pw_assertion p; pw_armed := pw_armed p |}.
Definition with_flags (keep remote external : bool) (p : Power) : Power := {|
  pw_agents := pw_agents p; pw_runs := pw_runs p; pw_keep_awake_on_power := keep;
  pw_remote_enabled := remote; pw_on_external_power := external;
  pw_release_gen := pw_release_gen p; pw_assertion := pw_assertion p; pw_armed := pw_armed p |}.

Definition u64_modulus : N := 2 ^ 64.

(** [apply]'s locked section: a new generation, and the assertion taken when wanted; [created]
    says whether the system grants one. The second result is the release it schedules. *)
Definition apply_section (created : bool) (p : Power) : Power * option N :=
  let generation := ((pw_release_gen p + 1) mod u64_modulus)%N in
  let with_assertion a := {|
    pw_agents := pw_agents p; pw_runs := pw_runs p;
    pw_keep_awake_on_power := pw_keep_awake_on_power p; pw_remote_enabled := pw_remote_enabled p;
    pw_on_external_power := pw_on_external_power p; pw_release_gen := generation;
    pw_assertion := a; pw_armed := pw_armed p |} in
  if wants_assertion p then (with_assertion (pw_assertion p || created), None)
  else (with_assertion (pw_assertion p), Some generation).

(** A scheduled release, when its time comes. *)
Definition release_section (generation : N) (p : Power) : Power :=
  if (pw_release_gen p =? generation)%N && negb (wants_assertion p) then
    {| pw_agents := pw_agents p; pw_runs := pw_runs p;
       pw_keep_awake_on_power := pw_keep_awake_on_power p; pw_remote_enabled := pw_remote_enabled p;
       pw_on_external_power := pw_on_external_power p; pw_release_gen := pw_release_gen p;
       pw_assertion := false; pw_armed := pw_armed p |}
  else p.

(** The recording sections: the new state when something changed. *)
Inductive Flag := KeepAwakeOnPower | RemoteEnabled | OnExternalPower.

Definition flag (f : Flag) (p : Power) : bool :=
  match f with
  | KeepAwakeOnPower => pw_keep_awake_on_power p
  | RemoteEnabled => pw_remote_enabled p
  | OnExternalPower => pw_on_external_power p
  end.

Definition put_flag (f : Flag) (v : bool) (p : Power) : Power :=
  match f with
  | KeepAwakeOnPower => with_flags v (pw_remote_enabled p) (pw_on_external_power p) p
  | RemoteEnabled => with_flags (pw_keep_awake_on_power p) v (pw_on_external_power p) p
  | OnExternalPower => with_flags (pw_keep_awake_on_power p) (pw_remote_enabled p) v p
  end.

Definition set_flag (f : Flag) (v : bool) (p : Power) : option Power :=
  if Bool.eqb (flag f p) v then None else Some (put_flag f v p).

(** [HashSet::insert] and [remove], when they changed the set. *)
Definition toggle (id : string) (present : bool) (s : gset string) : option (gset string) :=
  if present then (if bool_decide (id ∈ s) then None else Some ({[id]} ∪ s))
  else (if bool_decide (id ∈ s) then Some (s ∖ {[id]}) else None).

Definition set_agent_running (agent_id : string) (running : bool) (p : Power) : option Power :=
  if negb (pw_armed p) then None else (fun s => with_agents s p) <$> toggle agent_id running (pw_agents p).

Definition resync_agents (running : gset string) (p : Power) : option Power :=
  if negb (pw_armed p) then None
  else if bool_decide (pw_agents p = running) then None else Some (with_agents running p).

Definition set_run_active (run_id : string) (active : bool) (p : Power) : option Power :=
  if negb (pw_armed p) then None else (fun s => with_runs s p) <$> toggle run_id active (pw_runs p).

(** [arm]: the flag, then the sampled power source. *)
Definition arm_section (p : Power) : Power := {|
  pw_agents := pw_agents p; pw_runs := pw_runs p; pw_keep_awake_on_power := pw_keep_awake_on_power p;
  pw_remote_enabled := pw_remote_enabled p; pw_on_external_power := pw_on_external_power p;
  pw_release_gen := pw_release_gen p; pw_assertion := pw_assertion p; pw_armed := true |}.

(** One report, both sections in a row. *)
Definition report (created : bool) (change : Power -> option Power) (p : Power) : Power :=
  match change p with Some p => (apply_section created p).1 | None => p end.

(** ** Threads

    What is under way between two locked sections: calls that recorded a change and have not yet
    read [armed] or not yet recomputed, an [arm] that has not sampled the power source, and the
    releases scheduled. *)
Record PowerSys := {
  ps_power : Power;
  ps_checking : nat;
  ps_applying : nat;
  ps_sampling : nat;
  ps_timers : list N;
}.

Definition start : PowerSys := {|
  ps_power := fresh; ps_checking := 0; ps_applying := 0; ps_sampling := 0; ps_timers := [] |}.

(** [sure]: the system grants every assertion it is asked for. *)
Inductive pstep (sure : bool) : PowerSys -> PowerSys -> Prop :=
| PsFlag f v p' s : set_flag f v (ps_power s) = Some p' ->
    pstep sure s {| ps_power := p'; ps_checking := S (ps_checking s); ps_applying := ps_applying s;
               ps_sampling := ps_sampling s; ps_timers := ps_timers s |}
| PsCheck k s : ps_checking s = S k ->
    pstep sure s {| ps_power := ps_power s; ps_checking := k;
               ps_applying := (if pw_armed (ps_power s) then S (ps_applying s) else ps_applying s);
               ps_sampling := ps_sampling s; ps_timers := ps_timers s |}
| PsChange change p' s :
    (exists a b, change = set_agent_running a b) \/ (exists l, change = resync_agents l)
      \/ (exists r b, change = set_run_active r b) ->
    change (ps_power s) = Some p' ->
    pstep sure s {| ps_power := p'; ps_checking := ps_checking s; ps_applying := S (ps_applying s);
               ps_sampling := ps_sampling s; ps_timers := ps_timers s |}
| PsArm s :
    pstep sure s {| ps_power := arm_section (ps_power s); ps_checking := ps_checking s;
               ps_applying := ps_applying s; ps_sampling := S (ps_sampling s); ps_timers := ps_timers s |}
| PsSample k v s : ps_sampling s = S k ->
    pstep sure s {| ps_power := put_flag OnExternalPower v (ps_power s); ps_checking := ps_checking s;
               ps_applying := S (ps_applying s); ps_sampling := k; ps_timers := ps_timers s |}
| PsApply k created p' t s : ps_applying s = S k -> (sure = true -> created = true) ->
    apply_section created (ps_power s) = (p', t) ->
    pstep sure s {| ps_power := p'; ps_checking := ps_checking s; ps_applying := k;
               ps_sampling := ps_sampling s;
               ps_timers := ps_timers s ++ (match t with Some g => [g] | None => [] end) |}
| PsTimer l1 g l2 s : ps_timers s = l1 ++ g :: l2 ->
    pstep sure s {| ps_power := release_section g (ps_power s); ps_checking := ps_checking s;
               ps_applying := ps_applying s; ps_sampling := ps_sampling s; ps_timers := l1 ++ l2 |}.

(** ** What the monitor promises *)

(** Nothing is between two sections. *)
Definition settled (s : PowerSys) : bool :=
  (ps_checking s =? 0)%nat && (ps_applying s =? 0)%nat && (ps_sampling s =? 0)%nat.

Record power_ok (sure : bool) (s : PowerSys) : Prop := {
  po_unarmed : pw_armed (ps_power s) = false ->
    pw_assertion (ps_power s) = false /\ ps_applying s = 0 /\ ps_sampling s = 0;
  po_held : sure = true -> pw_armed (ps_power s) = true -> wants_assertion (ps_power s) = true ->
    settled s = true -> pw_assertion (ps_power s) = true;
  po_release : pw_assertion (ps_power s) = true -> wants_assertion (ps_power s) = false ->
    settled s = true -> pw_release_gen (ps_power s) ∈ ps_timers s;
}.

Lemma put_flag_kept f v p :
  pw_armed (put_flag f v p) = pw_armed p /\ pw_assertion (put_flag f v p) = pw_assertion p.
Proof. by destruct f. Qed.

Lemma change_armed change p p' :
  (exists a b, change = set_agent_running a b) \/ (exists l, change = resync_agents l)
    \/ (exists r b, change = set_run_active r b) ->
  change p = Some p' -> pw_armed p = true /\ pw_armed p' = true.
Proof.
  intros Hc Hp. destruct Hc as [(a & b & ->)|[(l & ->)|(r & b & ->)]];
    unfold set_agent_running, resync_agents, set_run_active in Hp; destruct (pw_armed p) eqn:E; simpl in Hp; try done.
  - destruct (toggle _ _ _); [|done]. by injection Hp as <-.
  - destruct (bool_decide _); [done|]. by injection Hp as <-.
  - destruct (toggle _ _ _); [|done]. by injection Hp as <-.
Qed.

Lemma settled_true s : settled s = true <-> ps_checking s = 0 /\ ps_applying s = 0 /\ ps_sampling s = 0.
Proof. unfold settled. rewrite !andb_true_iff, !Nat.eqb_eq. tauto. Qed.

(** A thread is under way. *)
Local Ltac under_way :=
  intros; exfalso; match goal with H : settled _ = true |- _ => apply settled_true in H; simpl in H; lia end.

Lemma apply_section_spec created p p' t :
  apply_section created p = (p', t) ->
  pw_armed p' = pw_armed p /\ wants_assertion p' = wants_assertion p /\
  (wants_assertion p = true -> created = true -> pw_assertion p' = true) /\
  (wants_assertion p = false -> t = Some (pw_release_gen p')).
Proof.
  unfold apply_section. destruct (wants_assertion p) eqn:E; intros [= <- <-]; (split; [done|]; split; [exact E|]).
  - split; [|done]. intros _ ->. apply orb_true_r.
  - by split.
Qed.

Lemma release_section_spec g p :
  pw_armed (release_section g p) = pw_armed p /\ wants_assertion (release_section g p) = wants_assertion p /\
  pw_release_gen (release_section g p) = pw_release_gen p /\
  (wants_assertion p = true -> pw_assertion (release_section g p) = pw_assertion p) /\
  (pw_assertion (release_section g p) = true ->
   pw_assertion p = true /\ (wants_assertion p = false -> pw_release_gen p <> g)).
Proof.
  unfold release_section. destruct (N.eqb_spec (pw_release_gen p) g) as [He|He], (wants_assertion p) eqn:E; simpl;
    split_and!; done.
Qed.

Lemma pstep_ok sure s s' : power_ok sure s -> pstep sure s s' -> power_ok sure s'.
Proof.
  intros [Hu Hh Hr] Hs. destruct Hs as [f v p' s Hf|k s Hk|change p' s Hc Hp|s|k v s Hk|k created p' t s Hk Hok Ha|l1 g l2 s Ht].
  - unfold set_flag in Hf. destruct (Bool.eqb _ v); [done|]. injection Hf as <-.
    destruct (put_flag_kept f v (ps_power s)) as [H1 H2].
    split; cbn [ps_power ps_applying ps_sampling]; rewrite ?H1, ?H2; [exact Hu|done..].
  - split; cbn [ps_power ps_applying ps_sampling ps_timers].
    + intros Ha. rewrite Ha. by apply Hu.
    + intros _ Ha. rewrite Ha. under_way.
    + intros Has. destruct (pw_armed (ps_power s)) eqn:Ha; [under_way|]. destruct (Hu eq_refl) as [Hf _]. congruence.
  - destruct (change_armed _ _ _ Hc Hp) as [Ha Ha']. split; cbn [ps_power ps_applying ps_sampling]; [congruence|..];
      under_way.
  - split; cbn [ps_power ps_applying ps_sampling]; [done|..];
      under_way.
  - destruct (put_flag_kept OnExternalPower v (ps_power s)) as [H1 H2].
    split; cbn [ps_power ps_applying ps_sampling]; rewrite ?H1, ?H2.
    + intros Ha. destruct (Hu Ha) as (_ & _ & ?). congruence.
    + under_way.
    + under_way.
  - destruct (apply_section_spec _ _ _ _ Ha) as (H1 & H2 & H3 & H4).
    split; cbn [ps_power ps_applying ps_sampling ps_timers]; rewrite ?H1, ?H2.
    + intros Hna. destruct (Hu Hna) as (_ & ? & _). congruence.
    + intros Hsure _ Hw _. apply H3; auto.
    + intros _ Hw _. rewrite (H4 Hw). apply elem_of_app. right. left.
  - destruct (release_section_spec g (ps_power s)) as (H1 & H2 & H3 & H4 & H5).
    assert (Hset : forall p t, settled {| ps_power := p; ps_checking := ps_checking s; ps_applying := ps_applying s;
                     ps_sampling := ps_sampling s; ps_timers := t |} = settled s) by done.
    split; cbn [ps_power ps_applying ps_sampling ps_timers]; rewrite ?H1, ?H2, ?H3, ?Hset.
    + intros Ha. destruct (Hu Ha) as (Hf & H6 & H7). split; [|done].
      destruct (pw_assertion (release_section g (ps_power s))) eqn:E; [|done]. destruct (H5 eq_refl). congruence.
    + intros Hsure Ha Hw Hq. rewrite H4 by done. auto.
    + intros Has Hw Hq. destruct (H5 Has) as [Has' Hne]. specialize (Hr Has' Hw Hq). rewrite Ht in Hr.
      apply elem_of_app in Hr as [Hr|[Hr|Hr]%elem_of_cons]; [apply elem_of_app; by left|by destruct (Hne Hw)|].
      apply elem_of_app. by right.
Qed.

Lemma reachable_power_ok sure s : rtc (pstep sure) start s -> power_ok sure s.
Proof.
  assert (H0 : power_ok sure start) by (by split).
  intros Hr. revert H0. induction Hr as [x|x y z Hxy _ IH]; [done|]. intros Hx. by eapply IH, pstep_ok.
Qed.

(** The scheduled releases, fired one after the other. *)
Definition fire (timers : list N) (p : Power) : Power := foldl (fun p g => release_section g p) p timers.

Lemma fire_spec timers p :
  wants_assertion (fire timers p) = wants_assertion p /\ pw_release_gen (fire timers p) = pw_release_gen p /\
  (wants_assertion p = true -> pw_assertion (fire timers p) = pw_assertion p) /\
  (pw_assertion (fire timers p) = true ->
   pw_assertion p = true /\ (wants_assertion p = false -> pw_release_gen p ∉ timers)).
Proof.
  revert p. induction timers as [|g l IH]; intros p; [split_and!; try done; intros H; split; [done|]; by intros _ ?%elem_of_nil|].
  destruct (release_section_spec g p) as (_ & H2 & H3 & H4 & H5). destruct (IH (release_section g p)) as (I2 & I3 & I4 & I5).
  cbn [fire foldl]. fold (fire l (release_section g p)). rewrite I2, I3, H2, H3. split_and!; [done|done|..].
  - intros Hw. rewrite I4 by congruence. auto.
  - intros Ha. destruct (I5 Ha) as [Ha' Hn]. destruct (H5 Ha') as [Ha'' Hg]. split; [done|].
    intros Hw Hin. apply elem_of_cons in Hin as [Hin|Hin]; [by apply (Hg Hw)|].
    rewrite H2, H3 in Hn. by apply (Hn Hw).
Qed.

(** (C34) The machine is kept awake while there is work. In any interleaving of reports, settings and power
    changes, once no call is under way an armed monitor holds the assertion if anything wants it,
    provided the system grants every assertion asked for ([sure]). Granted or not, the releases scheduled so far, in any order, leave
    it as it is while anything wants it, and drop it when nothing does. *)
Theorem assertion_follows_demand sure s timers :
  rtc (pstep sure) start s -> settled s = true -> pw_armed (ps_power s) = true -> timers ≡ₚ ps_timers s ->
  (sure = true -> wants_assertion (ps_power s) = true -> pw_assertion (ps_power s) = true) /\
  pw_assertion (fire timers (ps_power s)) =
    if wants_assertion (ps_power s) then pw_assertion (ps_power s) else false.
Proof.
  intros Hr Hq Ha Ht. destruct (reachable_power_ok _ _ Hr) as [_ Hheld Hrel]. split; [auto|].
  destruct (fire_spec timers (ps_power s)) as (_ & _ & H1 & H2).
  destruct (wants_assertion (ps_power s)) eqn:Hw; [auto|].
  destruct (pw_assertion (fire timers (ps_power s))) eqn:E; [|done]. destruct (H2 eq_refl) as [Has Hn].
  destruct (Hn eq_refl). rewrite Ht. auto.
Qed.

(** A run began and ended on an armed monitor; its release is still scheduled. *)
Definition run_ended : PowerSys := {|
  ps_power := {| pw_agents := ∅; pw_runs := ({["r"%string]} ∪ ∅) ∖ {["r"%string]};
    pw_keep_awake_on_power := true; pw_remote_enabled := false; pw_on_external_power := false;
    pw_release_gen := 3; pw_assertion := true; pw_armed := true |};
  ps_checking := 0; ps_applying := 0; ps_sampling := 0; ps_timers := [1; 3]%N |}.

Lemma run_ended_reachable : rtc (pstep true) start run_ended.
Proof.
  eapply rtc_l; [apply PsArm|]. eapply rtc_l; [apply (PsSample _ 0 false); reflexivity|].
  eapply rtc_l; [by eapply (PsApply _ 0 true)|].
  eapply rtc_l; [eapply (PsChange _ (set_run_active "r" true)); [eauto 10|reflexivity]|].
  eapply rtc_l; [by eapply (PsApply _ 0 true)|].
  eapply rtc_l; [eapply (PsChange _ (set_run_active "r" false)); [eauto 10|vm_compute; reflexivity]|].
  eapply rtc_l; [by eapply (PsApply _ 0 true)|]. apply rtc_refl.
Qed.

Lemma assertion_follows_demand_witness :
  pw_assertion (ps_power run_ended) = true /\ pw_assertion (fire [3; 1]%N (ps_power run_ended)) = false.
Proof.
  split; [reflexivity|].
  refine (proj2 (assertion_follows_demand true run_ended [3; 1]%N run_ended_reachable eq_refl eq_refl _)).
  apply Permutation_swap.
Defined.
