(* ===== verification/WfService.v ===== *)
(** * The workflow service (workflow/service.rs)

    Launching, canceling, resuming and deleting runs, and the registry of drive tasks. A service
    is the store of runs with their directories ([Cleanup]), the registry with each run's cancel
    flag, the activity monitor the registry feeds ([Power]) and the workspaces of the agents the
    runs own. Each operation is a sequence of locked sections; where the source releases its
    locks between two of them, the operation here is the bind of their definitions, so that
    [WfSystem] can interleave them. *)

From S2P Require Import Prelude RustStr Sql Database Queue WfSpec WfStore WfSpawn WfKernel Cleanup Power.

Local Open Scope string_scope.
Local Open Scope list_scope.

Record Service := {
  sv_store : RunStore;
  sv_runs : gmap string bool;
  sv_power : Power;
  sv_workspaces : list (string * string);
}.

Definition set_store (s : RunStore) (v : Service) : Service := {|
  sv_store := s; sv_runs := sv_runs v; sv_power := sv_power v; sv_workspaces := sv_workspaces v |}.
Definition set_registry (runs : gmap string bool) (p : Power) (v : Service) : Service := {|
  sv_store := sv_store v; sv_runs := runs; sv_power := p; sv_workspaces := sv_workspaces v |}.
Definition set_workspaces (l : list (string * string)) (v : Service) : Service := {|
  sv_store := sv_store v; sv_runs := sv_runs v; sv_power := sv_power v; sv_workspaces := l |}.

Definition set_wf (d : WfDb) (s : RunStore) : RunStore :=
  {| rs_wf := d; rs_dirs := rs_dirs s; rs_possible := rs_possible s |}.

(** A part's program, run on the whole. *)
Definition zoom {D E A} (get : D -> E) (put : E -> D -> D) (m : M E A) : M D A := fun c =>
  let '(r, c') := m {| c_db := get (c_db c); c_tick := c_tick c |} in
  (r, {| c_db := put (c_db c') (c_db c); c_tick := c_tick c' |}).

Definition on_store {A} (m : M RunStore A) : M Service A := zoom sv_store set_store m.
Definition on_wf {A} (m : M WfDb A) : M Service A :=
  zoom (fun v => rs_wf (sv_store v)) (fun d v => set_store (set_wf d (sv_store v)) v) m.

(** What a launch and a deletion learn from outside: whether an agent of these providers would
    land in a box, a revision resolved in the source repository, the runs root, provisioning the
    run's directory (its entries, or the error after leaving some), the spec as JSON, the project
    that owns a repository, a discarded agent's error, and whether the system grants an
    assertion. *)
Class Launcher := {
  l_boxed : option string -> string -> gset string -> nat -> bool;
  l_rev_parse : string -> string -> nat -> result string string;
  l_runs_root : result string string;
  l_provision : nat -> list string * option string;
  l_to_json : Spec -> result string string;
  l_project_for_repo : string -> option string;
  l_discard : string -> nat -> option string;
  l_created : nat -> bool;
}.

Definition BOX_REFUSAL : string :=
  "Workflow runs cannot run in a box yet, and this project's agents run in one.".

Definition PLACEMENT_KEY : string := "sandbox.placement".

(** The text of a failure of [from] turned into [to]. *)
Definition map_err {D A} (f : string -> string) (m : M D A) : M D A := fun c =>
  match m c with (Ok a, c) => (Ok a, c) | (Err e, c) => (Err (f e), c) end.

(** What a launch is asked for. *)
Record LaunchReq := {
  lr_spec : Spec;
  lr_task : string;
  lr_project_id : string;
  lr_repo_path : string;
  lr_definition_id : option string;
  lr_base_branch : option string;
  lr_attachments : list string;
  lr_issue_ref : option string;
  lr_roadmap_item_id : option string;
}.

Section Service.
Context `{World} `{Codec} `{Files} `{Launcher}.

Definition ask {A} (f : nat -> A) : M Service A := fun c => (Ok (f (c_tick c)), tick c).

Definition project_setting (project_id key : string) : M Service (option string) :=
  let* r := attempt_ok (on_wf (let* o := query (fun d => wf_project_settings d !! (project_id, key)) in
                               require_some NO_ROWS o)) in
  ret r.

(** ** The registry *)

(** [register_driver] and [deregister_driver]: the registry and the monitor under one lock. *)
Definition register_driver (run_id : string) : M Service () := fun c =>
  let v := c_db c in
  (Ok (), {| c_db := set_registry (<[run_id := false]> (sv_runs v))
               (report (l_created (c_tick c)) (set_run_active run_id true) (sv_power v)) v;
             c_tick := S (c_tick c) |}).

Definition deregister_driver (run_id : string) : M Service () := fun c =>
  let v := c_db c in
  (Ok (), {| c_db := set_registry (delete run_id (sv_runs v))
               (report (l_created (c_tick c)) (set_run_active run_id false) (sv_power v)) v;
             c_tick := S (c_tick c) |}).

Definition is_driven (v : Service) (run_id : string) : bool := is_some (sv_runs v !! run_id).

(** The locked head of [spawn_drive_task]: [true] when a drive task was started. *)
Definition spawn_drive (run_id : string) : M Service bool := fun c =>
  if is_driven (c_db c) run_id then (Ok false, c)
  else (let* _ := register_driver run_id in ret true) c.

(** The watchdog's end of a drive task. *)
Definition end_drive (panicked : bool) (run_id : string) : M Service () :=
  let* _ := if panicked then on_wf (fail_run run_id "internal scheduler error") else ret () in
  deregister_driver run_id.

(** ** Launch *)

Definition base_ref (r : LaunchReq) : string :=
  default "HEAD" (or_else (lr_base_branch r) (sp_finalize (lr_spec r) ≫= fz_pr_base)).

Definition check_launch (r : LaunchReq) : M Service () :=
  let* _ := lift (match validate_spec (lr_spec r) with
                  | Ok _ => Ok () | Err errs => Err (join "; " errs) end) in
  let* placement := project_setting (lr_project_id r) PLACEMENT_KEY in
  let* boxed := ask (l_boxed placement (lr_repo_path r) (step_providers (lr_spec r))) in
  if boxed : bool then err BOX_REFUSAL else ret ().

(** [blackboard::provision], [write_attachments] and [provision_run_repo]. *)
Definition provision (run_id : string) : M Service () := fun c =>
  let '(entries, failed) := l_provision (c_tick c) in
  let s := sv_store (c_db c) in
  (match failed with Some e => Err e | None => Ok () end,
   {| c_db := set_store (durable (rs_wf s) (<[run_id := entries]> (rs_dirs s)) s) (c_db c);
      c_tick := S (c_tick c) |}).

Definition new_run (r : LaunchReq) (run_id run_dir base_sha spec_json : string) (now : Z) : WfRun := {|
  wr_id := run_id; wr_definition_id := lr_definition_id r; wr_name := sp_name (lr_spec r);
  wr_spec_json := spec_json; wr_task := lr_task r; wr_project_id := lr_project_id r;
  wr_repo_path := lr_repo_path r; wr_run_dir := run_dir;
  wr_branch := run_branch (sp_name (lr_spec r)) run_id; wr_base_sha := base_sha;
  wr_base_branch := default "" (lr_base_branch r); wr_status := "pending"; wr_error := None;
  wr_pr_number := None; wr_pr_url := None; wr_issue_ref := lr_issue_ref r;
  wr_roadmap_item_id := lr_roadmap_item_id r; wr_created_at := now; wr_updated_at := now |}.

(** [INSERT INTO wf_run]: a new id. *)
Definition insert_run (r : WfRun) : M RunStore () :=
  on_rows (fun d =>
    if existsb (is_run (wr_id r)) (wf_runs d) then Err UNIQUE_FAILED
    else Ok (set_runs (fun l => l ++ [r]) d)).

(** Under the lifecycle lock, up to the row. *)
Definition launch_row (r : LaunchReq) : M Service string :=
  let* uuid := new_uuid in
  let run_id := "run-" +:+ uuid in
  let* base_sha := map_err (fun e => "cannot resolve base '" +:+ base_ref r +:+ "': " +:+ e)
                     (let* b := ask (l_rev_parse (lr_repo_path r) (base_ref r)) in lift b) in
  let* _ := lift (validate_id "run" run_id) in
  let* root := lift l_runs_root in
  let* _ := provision run_id in
  let* spec_json := lift (l_to_json (lr_spec r)) in
  let* now := now_millis in
  let* _ := on_store (insert_run (new_run r run_id (path_join root run_id) base_sha spec_json now)) in
  ret run_id.

Definition launch (r : LaunchReq) : M Service string :=
  let* _ := check_launch r in
  let* run_id := launch_row r in
  let* _ := spawn_drive run_id in
  ret run_id.

Definition with_project (p : string) (r : LaunchReq) : LaunchReq := {|
  lr_spec := lr_spec r; lr_task := lr_task r; lr_project_id := p; lr_repo_path := lr_repo_path r;
  lr_definition_id := lr_definition_id r; lr_base_branch := lr_base_branch r;
  lr_attachments := lr_attachments r; lr_issue_ref := lr_issue_ref r; lr_roadmap_item_id := None |}.

Definition wf_launch (r : LaunchReq) : M Service string :=
  launch (with_project (default (lr_project_id r) (l_project_for_repo (lr_repo_path r))) r).

(** ** Resume at startup *)

Definition ACTIVE : list string := ["pending"; "running"].

Definition active_ids : M Service (list string) :=
  let* r := attempt_ok (on_wf (query (fun d =>
    wr_id <$> lfilter (fun r => lcontains ACTIVE (wr_status r)) (wf_runs d)))) in
  ret (default [] r).

Fixpoint spawn_all (ids : list string) : M Service () :=
  match ids with
  | [] => ret ()
  | id :: ids => let* _ := spawn_drive id in spawn_all ids
  end.

Definition resume_active_runs : M Service () :=
  let* _ := match l_runs_root with Ok _ => on_store recover_staged_run_dirs | Err _ => ret () end in
  let* ids := active_ids in
  spawn_all ids.

(** ** Cancel *)

(** Flag the live driver; [false] when there is none. *)
Definition flag_driver (run_id : string) : M Service bool := fun c =>
  let v := c_db c in
  if is_driven v run_id
  then (Ok true, {| c_db := set_registry (<[run_id := true]> (sv_runs v)) (sv_power v) v; c_tick := S (c_tick c) |})
  else (Ok false, tick c).

Definition stop_live_step_agents (run_id : string) : M WfDb () :=
  let* agents := live_step_agents run_id in stop_all agents.

Definition mark_canceled (run_id : string) : M WfDb () := set_status run_id "canceled" None.

Definition cancel (run_id : string) : M Service () :=
  let* flagged := flag_driver run_id in
  if flagged : bool then ret ()
  else let* _ := on_wf (stop_live_step_agents run_id) in on_wf (mark_canceled run_id).

(** ** Delete *)

Definition winding_down (run_id : string) : string :=
  "run " +:+ run_id +:+ " is still winding down — try again in a moment".

(** The guards and the listing, each under its own lock. *)
Definition check_run (run_id : string) : M Service () := on_store (check_deletable [run_id]).

Definition refuse_driven (run_id : string) : M Service () := fun c =>
  if is_driven (c_db c) run_id then (Err (winding_down run_id), c) else (Ok (), c).

Definition agents_for_run (run_id : string) : M Service (list string) := fun c =>
  (Ok (fst <$> lfilter (fun w => String.eqb (snd w) run_id) (sv_workspaces (c_db c))), c).

(** [Supervisor::discard_agent]: a success removes the workspace. *)
Definition discard_agent (agent_id : string) : M Service () := fun c =>
  match l_discard agent_id (c_tick c) with
  | Some e => (Err e, tick c)
  | None => (Ok (), {| c_db := set_workspaces (lfilter (fun w => negb (String.eqb (fst w) agent_id))
                                                 (sv_workspaces (c_db c))) (c_db c);
                       c_tick := S (c_tick c) |})
  end.

(** Every id is attempted; [errors] grows by one per failure. *)
Fixpoint discard_all (ids : list string) (run_id : string) (errors : list string) : M Service (list string) :=
  match ids with
  | [] => ret errors
  | id :: ids =>
      let* r := attempt (discard_agent id) in
      discard_all ids run_id (match r with
        | Ok _ => errors
        | Err e => errors ++ ["run " +:+ run_id +:+ ": discard agent " +:+ id +:+ ": " +:+ e] end)
  end.

Definition delete_rows (run_id : string) : M Service (list string) :=
  let* r := attempt (on_store (delete_run_data run_id)) in
  match r with
  | Ok _ => let* _ := on_wf (act (EmitRunDeleted run_id)) in ret []
  | Err e => ret ["run " +:+ run_id +:+ ": " +:+ e]
  end.

Definition incomplete (errors : list string) : string :=
  "run deletion incomplete: " +:+ join "; " errors +:+ ". The run is kept — delete again to finish.".

Definition delete_run (run_id : string) : M Service () :=
  let* _ := check_run run_id in
  let* _ := refuse_driven run_id in
  let* agents := agents_for_run run_id in
  let* errors := discard_all agents run_id [] in
  let* errors := match errors with [] => delete_rows run_id | _ => ret errors end in
  match errors with [] => ret () | _ => err (incomplete errors) end.

Fixpoint emit_deleted (ids : list string) : M Service () :=
  match ids with
  | [] => ret ()
  | id :: ids => let* _ := on_wf (act (EmitRunDeleted id)) in emit_deleted ids
  end.

(** Under the lifecycle lock; [rest] is the outcome of what else the transaction deletes. *)
Definition delete_project (project_id : string) (rest : option string) : M Service () := fun c =>
  (let* ids := on_store (delete_project_runs (is_driven (c_db c)) project_id rest) in emit_deleted ids) c.
End Service.
