(* ===== verification/WfSystem.v ===== *)
(** * The workflow engine as a concurrent system

    Drives, launches, cancels, resumes and deletions run at once and share one store behind short
    locks. Here the kernel's drive is shown to be a sequence of elementary changes to its own
    run, and the service's operations are interleaved with any such changes at every point where
    the source lets go of its locks. The invariant of the reachable states says what the
    registry, the lifecycle lock and the guards are there for. *)

From S2P Require Import Prelude RustStr Sql Database Queue WfSpec WfStore WfSpawn WfKernel WfProtocol WfDrive Cleanup Power WfService.

Local Open Scope string_scope.
Local Open Scope list_scope.

(** ** The kernel, change by change *)

(** One locked write, or one effect, of a drive of [id]. *)
Inductive kernel_change (id : string) : WfDb -> WfDb -> Prop :=
| KcEvent d ev : we_run_id ev = id -> id ∈ wr_id <$> wf_runs d -> we_seq ev = next_seq d id ->
    kernel_change id d (set_journal (fun l => l ++ [ev]) d)
| KcEffect d a : kernel_change id d (set_trace (fun t => t ++ [a]) d)
| KcExec d exec step a i g : id ∈ wr_id <$> wf_runs d -> exec ∉ se_id <$> wf_execs d ->
    kernel_change id d (set_execs (fun l => l ++ [new_exec exec id step a i g]) d)
| KcStatus d s e now : run_status_ok s = true ->
    kernel_change id d (set_runs (update_where (is_run id) (with_status s e now)) d)
| KcPr d n url : kernel_change id d (set_runs (update_where (is_run id) (with_pr n url)) d)
| KcSpawned d exec a now : kernel_change id d (set_execs (update_where (is_exec exec) (with_spawned a now)) d)
| KcFinished d exec s h now : attempt_status_ok s = true ->
    kernel_change id d (set_execs (update_where (is_exec exec) (fun e => with_finished s (h e) now e)) d).

Definition kernel_changes (id : string) : WfDb -> WfDb -> Prop := rtc (kernel_change id).

Lemma kernel_changes_closed id d0 : closed_on id (kernel_changes id d0).
Proof.
  split; [split|split|..]; intros; (eapply rtc_r; [eassumption|]);
    [by apply KcEvent|apply KcEffect|apply KcSpawned|by apply KcFinished|by apply KcExec|by apply KcStatus|apply KcPr].
Qed.

Lemma kernel_changes_effect id d0 d a :
  kernel_changes id d0 d -> kernel_changes id d0 (set_trace (fun t => t ++ [a]) d).
Proof. intros Hd. eapply rtc_r; [exact Hd|apply KcEffect]. Qed.

(** What holds of one change holds of all. *)
Lemma kernel_change_keeps id P d d' :
  closed_on id P -> (forall d a, P d -> P (set_trace (fun t => t ++ [a]) d)) ->
  kernel_change id d d' -> P d -> P d'.
Proof.
  intros HP HA Hs Hd. destruct Hs.
  - by apply (cl_event _ _ (cl_log _ _ HP)).
  - by apply HA.
  - by apply (cl_exec _ _ HP).
  - by apply (cl_status _ _ HP).
  - by apply (cl_pr _ _ HP).
  - by apply (cl_spawned _ (cl_execs _ _ HP)).
  - by apply (cl_finished _ (cl_execs _ _ HP)).
Qed.

(** Another run's row and journal. *)
Definition elsewhere (id : string) (d0 d : WfDb) : Prop :=
  forall other, other <> id ->
    find_wf_run d other = find_wf_run d0 other /\ events_of d other = events_of d0 other.

Lemma find_update_other id other f d :
  (forall r, wr_id (f r) = wr_id r) -> other <> id ->
  find_wf_run (set_runs (update_where (is_run id) f) d) other = find_wf_run d other.
Proof.
  intros Hf Hne. unfold find_wf_run. cbn [set_runs wf_runs]. unfold update_where.
  induction (wf_runs d) as [|x l IH]; [done|]. cbn [lfind fmap list_fmap].
  destruct (is_run id x) eqn:E; [|by rewrite IH]. unfold is_run in *. apply String.eqb_eq in E.
  rewrite Hf, E. destruct (String.eqb_spec id other) as [->|]; [done|exact IH].
Qed.

Lemma elsewhere_closed id d0 : closed_on id (elsewhere id d0).
Proof.
  split; [split|split|..]; try done.
  - intros d ev He _ _ Hd other Hne. destruct (Hd other Hne) as [H1 H2]. split; [exact H1|].
    rewrite events_of_snoc, He. destruct (String.eqb_spec id other) as [->|]; [done|]. by rewrite app_nil_r.
  - intros d s e now _ Hd other Hne. destruct (Hd other Hne) as [H1 H2]. split; [|exact H2].
    by rewrite find_update_other.
  - intros d n url Hd other Hne. destruct (Hd other Hne) as [H1 H2]. split; [|exact H2].
    by rewrite find_update_other.
Qed.

(** A drive is a sequence of small changes to its own run: whatever the world answers, what
    the kernel does to the tables is a chain of journal appends, attempt rows and updates made
    for the run it drives, and the row and the journal of every other run are as before. *)
Theorem drive_is_local_changes `{World} `{Codec} `{Host} c id :
  kernel_changes id (c_db c) (c_db (run_kernel id c).2) /\ elsewhere id (c_db c) (c_db (run_kernel id c).2).
Proof.
  split.
  - apply (run_kernel_closed (kernel_changes id (c_db c))); [|apply kernel_changes_closed|apply rtc_refl].
    intros d a. apply kernel_changes_effect.
  - apply (run_kernel_closed (elsewhere id (c_db c))); [done|apply elsewhere_closed|done].
Qed.

(** ** The system *)

Definition wf_of (v : Service) : WfDb := rs_wf (sv_store v).
Definition put_wf (d : WfDb) (v : Service) : Service := set_store (set_wf d (sv_store v)) v.

(** A service call between two of its locked sections. *)
Inductive Task :=
| Launched (id : string)
| Resuming (ids : list string)
| Stopping (id : string)
| Canceling (id : string)
| Checked (id : string)
| Cleared (id : string)
| Deleting (id : string) (agents : list string) (failed : bool).

(** The calls that hold the lifecycle lock. *)
Definition holds_lifecycle (t : Task) : bool :=
  match t with Launched _ | Checked _ | Cleared _ | Deleting _ _ _ => true | _ => false end.

(** [sy_driving]: the drive tasks whose kernel found a run to drive. *)
Record System := { sy_conn : Conn Service; sy_tasks : list Task; sy_driving : gset string }.

Definition at_conn (c : Conn Service) (y : System) : System :=
  {| sy_conn := c; sy_tasks := sy_tasks y; sy_driving := sy_driving y |}.
Definition with_task (c : Conn Service) (ts : list Task) (y : System) : System :=
  {| sy_conn := c; sy_tasks := ts; sy_driving := sy_driving y |}.

(** A run that is over, if it is there. *)
Definition over (id : string) (d : WfDb) : Prop :=
  forall r, find_wf_run d id = Some r -> wr_status r ∈ TERMINAL.

Section System.
Context `{World} `{Codec} `{Files} `{Launcher}.

Definition free (y : System) : Prop := forall t, t ∈ sy_tasks y -> holds_lifecycle t = false.

(** The service as it stands. *)
Local Abbreviation svc y := (c_db (sy_conn y)).

(** A change of the tables by itself. *)
Definition changed (d : WfDb) (y : System) : System :=
  at_conn {| c_db := put_wf d (svc y); c_tick := S (c_tick (sy_conn y)) |} y.

(** One locked section of some call. The launch, deletion and cancel of a run are tasks between
    their sections; a drive's writes come one by one. A drive ends with its run over, which is
    what [WfDrive.every_drive_concludes] shows of a database that answers. *)
Inductive sstep : System -> System -> Prop :=
| SsLaunch y req id c' : free y -> launch_row req (sy_conn y) = (Ok id, c') ->
    sstep y (with_task c' (Launched id :: sy_tasks y) y)
| SsLaunchFails y req e c' : free y -> launch_row req (sy_conn y) = (Err e, c') -> sstep y (at_conn c' y)
| SsLaunched y ts1 id ts2 : sy_tasks y = ts1 ++ Launched id :: ts2 ->
    sstep y (with_task (spawn_drive id (sy_conn y)).2 (ts1 ++ ts2) y)
| SsResume y ids c' : active_ids (sy_conn y) = (Ok ids, c') ->
    sstep y (with_task c' (Resuming ids :: sy_tasks y) y)
| SsResuming y ts1 id ids ts2 : sy_tasks y = ts1 ++ Resuming (id :: ids) :: ts2 ->
    sstep y (with_task (spawn_drive id (sy_conn y)).2 (ts1 ++ Resuming ids :: ts2) y)
| SsStart y id r : is_driven (svc y) id = true -> find_wf_run (wf_of (svc y)) id = Some r -> drivable r ->
    sstep y {| sy_conn := sy_conn y; sy_tasks := sy_tasks y; sy_driving := {[id]} ∪ sy_driving y |}
| SsKernel y id d : id ∈ sy_driving y -> kernel_change id (wf_of (svc y)) d -> sstep y (changed d y)
| SsWorkspace y id a : id ∈ sy_driving y ->
    sstep y (at_conn {| c_db := set_workspaces ((a, id) :: sv_workspaces (svc y)) (svc y);
                        c_tick := c_tick (sy_conn y) |} y)
| SsKernelFails y id e : is_driven (svc y) id = true -> sstep y (at_conn (on_wf (fail_run id e) (sy_conn y)).2 y)
| SsDriveEnd y panicked id : is_driven (svc y) id = true ->
    over id (wf_of (c_db (end_drive panicked id (sy_conn y)).2)) ->
    sstep y {| sy_conn := (end_drive panicked id (sy_conn y)).2; sy_tasks := sy_tasks y;
               sy_driving := sy_driving y ∖ {[id]} |}
| SsCancel y id flagged c' : flag_driver id (sy_conn y) = (Ok flagged, c') ->
    sstep y (with_task c' (if flagged then sy_tasks y else Stopping id :: sy_tasks y) y)
| SsStopping y ts1 id ts2 : sy_tasks y = ts1 ++ Stopping id :: ts2 ->
    sstep y (with_task (on_wf (stop_live_step_agents id) (sy_conn y)).2 (ts1 ++ Canceling id :: ts2) y)
| SsCanceling y ts1 id ts2 : sy_tasks y = ts1 ++ Canceling id :: ts2 ->
    sstep y (with_task (on_wf (mark_canceled id) (sy_conn y)).2 (ts1 ++ ts2) y)
| SsCheck y id c' : free y -> check_run id (sy_conn y) = (Ok (), c') ->
    sstep y (with_task c' (Checked id :: sy_tasks y) y)
| SsRegistry y ts1 id ts2 r c' : sy_tasks y = ts1 ++ Checked id :: ts2 -> refuse_driven id (sy_conn y) = (r, c') ->
    sstep y (with_task c' (ts1 ++ (match r with Ok _ => [Cleared id] | Err _ => [] end) ++ ts2) y)
| SsDelete y ts1 id ts2 agents c' : sy_tasks y = ts1 ++ Cleared id :: ts2 ->
    agents_for_run id (sy_conn y) = (Ok agents, c') ->
    sstep y (with_task c' (ts1 ++ Deleting id agents false :: ts2) y)
| SsDiscard y ts1 id a agents failed ts2 r c' :
    sy_tasks y = ts1 ++ Deleting id (a :: agents) failed :: ts2 -> discard_agent a (sy_conn y) = (r, c') ->
    sstep y (with_task c' (ts1 ++ Deleting id agents (match r with Ok _ => failed | Err _ => true end) :: ts2) y)
| SsDeleteRows y ts1 id ts2 : sy_tasks y = ts1 ++ Deleting id [] false :: ts2 ->
    sstep y (with_task (delete_rows id (sy_conn y)).2 (ts1 ++ ts2) y)
| SsDeleteStops y ts1 id ts2 : sy_tasks y = ts1 ++ Deleting id [] true :: ts2 ->
    sstep y (with_task (sy_conn y) (ts1 ++ ts2) y).

(** ** What the locks and guards are for *)

(** What a deletion may rely on at each of its sections. *)
Definition task_ok (v : Service) (driving : gset string) (t : Task) : Prop :=
  match t with
  | Checked id => id ∈ driving \/ over id (wf_of v)
  | Cleared id => id ∉ driving /\ over id (wf_of v)
  | Deleting id agents failed =>
      id ∉ driving /\ over id (wf_of v) /\
      forall a, (a, id) ∈ sv_workspaces v -> a ∈ agents \/ failed = true
  | _ => True
  end.

Record sys_ok (v : Service) (ts : list Task) (driving : gset string) : Prop := {
  so_driving : forall id, id ∈ driving -> is_driven v id = true /\ has_run id (wf_of v);
  so_deleting : forall t, t ∈ ts -> task_ok v driving t;
  so_lock : length (lfilter holds_lifecycle ts) <= 1;
  so_workspaces : forall a id, (a, id) ∈ sv_workspaces v -> has_run id (wf_of v);
  so_tables : wf_ok (wf_of v);
  so_power : pw_armed (sv_power v) = true /\ pw_runs (sv_power v) = dom (sv_runs v);
}.

Definition system_ok (y : System) : Prop := sys_ok (svc y) (sy_tasks y) (sy_driving y).

(** ** Changing one part *)

(** Everything but the store is as in [v0]. *)
Definition frame (v0 v : Service) : Prop :=
  sv_runs v = sv_runs v0 /\ sv_power v = sv_power v0 /\ sv_workspaces v = sv_workspaces v0.

Lemma task_ok_mono v v' dr dr' t :
  (forall id, id ∉ dr -> id ∉ dr') -> (forall id, id ∈ dr -> id ∈ dr' \/ over id (wf_of v')) ->
  (forall id, id ∉ dr -> over id (wf_of v) -> over id (wf_of v')) ->
  (forall a id, id ∉ dr -> (a, id) ∈ sv_workspaces v' -> (a, id) ∈ sv_workspaces v) ->
  task_ok v dr t -> task_ok v' dr' t.
Proof.
  intros Hdr Hchk Hover Hws. destruct t as [| | | |id|id|id agents failed]; cbn [task_ok]; try done.
  - destruct (decide (id ∈ dr)); [auto|]. intros [?|Ho]; [done|right; auto].
  - intros [Hi Ho]. auto.
  - intros (Hi & Ho & Hw). split_and!; auto.
Qed.

Lemma sys_ok_tables v v' ts dr :
  frame v v' -> (forall id, has_run id (wf_of v) -> has_run id (wf_of v')) -> wf_ok (wf_of v') ->
  (forall id, id ∉ dr -> over id (wf_of v) -> over id (wf_of v')) ->
  sys_ok v ts dr -> sys_ok v' ts dr.
Proof.
  intros (Hr & Hp & Hw) Hmono Hok Hover [S1 S2 S3 S4 S5 S6]. split; rewrite ?Hr, ?Hp, ?Hw; auto.
  - intros id Hid. destruct (S1 id Hid) as [Hd Hrun]. split; [|auto]. unfold is_driven in *. by rewrite Hr.
  - intros t Ht. apply (task_ok_mono v v' dr); auto. intros a id _. by rewrite Hw.
  - intros a id Ha. apply Hmono. eapply S4, Ha.
Qed.

(** Tables as they were. *)
Lemma sys_ok_ext v v' ts dr : frame v v' -> wf_of v' = wf_of v -> sys_ok v ts dr -> sys_ok v' ts dr.
Proof. intros Hf Hw Hs. eapply sys_ok_tables; [exact Hf|..|exact Hs]; rewrite Hw; auto. by destruct Hs. Qed.

Definition is_deleting (t : Task) : bool :=
  match t with Checked _ | Cleared _ | Deleting _ _ _ => true | _ => false end.

Lemma not_deleting_ok v dr t : is_deleting t = false -> task_ok v dr t.
Proof. by destruct t. Qed.

Lemma sys_ok_tasks v ts ts' dr :
  (forall t, t ∈ ts' -> t ∈ ts \/ is_deleting t = false) ->
  length (lfilter holds_lifecycle ts') <= 1 -> sys_ok v ts dr -> sys_ok v ts' dr.
Proof.
  intros Hts Hl [S1 S2 S3 S4 S5 S6]. split; auto. intros t Ht. destruct (Hts t Ht); [auto|by apply not_deleting_ok].
Qed.

Lemma lfilter_length_app {A} (p : A -> bool) l1 l2 :
  length (lfilter p (l1 ++ l2)) = length (lfilter p l1) + length (lfilter p l2).
Proof. by rewrite lfilter_app, length_app. Qed.

(** A task moves on, or is done. *)
Lemma sys_ok_done v ts1 t ts2 dr : sys_ok v (ts1 ++ t :: ts2) dr -> sys_ok v (ts1 ++ ts2) dr.
Proof.
  intros Hs. pose proof (so_lock _ _ _ Hs) as Hl. eapply sys_ok_tasks; [| |exact Hs].
  - intros x Hx. left. set_solver.
  - rewrite lfilter_length_app in *. simpl in Hl. destruct (holds_lifecycle t); simpl in Hl; lia.
Qed.

Lemma sys_ok_replace v ts1 t t' ts2 dr :
  is_deleting t' = false -> holds_lifecycle t' = false -> sys_ok v (ts1 ++ t :: ts2) dr ->
  sys_ok v (ts1 ++ t' :: ts2) dr.
Proof.
  intros Hd Hh Hs. pose proof (so_lock _ _ _ Hs) as Hl. eapply sys_ok_tasks; [| |exact Hs].
  - intros x [Hx|[->|Hx]%elem_of_cons]%elem_of_app; [left; set_solver|by right|left; set_solver].
  - rewrite lfilter_length_app in *. simpl in Hl |- *. rewrite Hh. destruct (holds_lifecycle t); simpl in Hl; lia.
Qed.

Lemma free_none y : free y -> lfilter holds_lifecycle (sy_tasks y) = [].
Proof. apply lfilter_none. Qed.

Lemma sys_ok_begin v ts t dr :
  is_deleting t = false -> lfilter holds_lifecycle ts = [] \/ holds_lifecycle t = false ->
  sys_ok v ts dr -> sys_ok v (t :: ts) dr.
Proof.
  intros Hd Hl Hs. pose proof (so_lock _ _ _ Hs). eapply sys_ok_tasks; [| |exact Hs].
  - intros x [->|Hx]%elem_of_cons; [by right|by left].
  - cbn [lfilter]. destruct (holds_lifecycle t); [|done]. destruct Hl as [->|]; [simpl; lia|done].
Qed.

(** ** The service's programs on the tables *)

Lemma on_wf_spec {A} (m : M WfDb A) c :
  frame (c_db c) (c_db (on_wf m c).2) /\
  wf_of (c_db (on_wf m c).2) = c_db (m {| c_db := wf_of (c_db c); c_tick := c_tick c |}).2.
Proof. unfold on_wf, zoom. destruct (m _) as [r c']. split; [|done]. by unfold frame. Qed.

Lemma on_wf_keeps {A} (P : WfDb -> Prop) (m : M WfDb A) c :
  preserves P m -> P (wf_of (c_db c)) -> P (wf_of (c_db (on_wf m c).2)).
Proof. intros Hm Hc. rewrite (proj2 (on_wf_spec m c)). by apply Hm. Qed.

Lemma over_log id run : log_closed_on run (over id).
Proof. by split. Qed.

Lemma over_update id run s e now d :
  s ∈ TERMINAL -> over id d -> over id (set_runs (update_where (is_run run) (with_status s e now)) d).
Proof.
  intros Hs Hd r Hr. destruct (decide (run = id)) as [->|Hne].
  - destruct (find_wf_run d id) as [r0|] eqn:E.
    + rewrite (find_update_run id (with_status s e now) d r0) in Hr by done. by injection Hr as <-.
    + exfalso. assert (Hh : has_run id (set_runs (update_where (is_run id) (with_status s e now)) d))
        by (apply find_wf_run_has; by exists r).
      unfold has_run in Hh. cbn [set_runs wf_runs] in Hh. rewrite (update_where_fmap _ _ wr_id) in Hh by done.
      apply find_wf_run_has in Hh as [r0 Hr0]. congruence.
  - rewrite find_update_other in Hr by done. by apply Hd.
Qed.

Lemma fail_run_over id run e : preserves (over id) (fail_run run e).
Proof.
  pose proof (over_log id run) as Hl. unfold fail_run, set_status. preserving. apply preserves_execute. intros d.
  apply over_update. right. left.
Qed.

Lemma mark_canceled_over id run : preserves (over id) (mark_canceled run).
Proof.
  pose proof (over_log id run) as Hl. unfold mark_canceled, set_status. preserving. apply preserves_execute.
  intros d. apply over_update. right. right. left.
Qed.

Lemma stop_live_keeps (P : WfDb -> Prop) run :
  (forall d a, P d -> P (set_trace (fun t => t ++ [a]) d)) -> preserves P (stop_live_step_agents run).
Proof.
  intros HP. unfold stop_live_step_agents. apply preserves_bind; [auto with fletch|]. intros l.
  induction l as [|a l IH]; cbn [stop_all]; [auto with fletch|]. apply preserves_bind; [|done].
  intros c. apply HP.
Qed.

Lemma over_elsewhere id other d0 d : id <> other -> elsewhere other d0 d -> over id d0 -> over id d.
Proof. intros Hne He Ho r. rewrite (proj1 (He id Hne)). apply Ho. Qed.

(** A program that works on the store's tables, with what it keeps. *)
Lemma sys_ok_on_wf {A} (m : M WfDb A) c ts dr :
  preserves wf_ok m -> (forall id, preserves (has_run id) m) -> (forall id, preserves (over id) m) ->
  sys_ok (c_db c) ts dr -> sys_ok (c_db (on_wf m c).2) ts dr.
Proof.
  intros Hok Hrun Hover Hs. eapply sys_ok_tables; [apply on_wf_spec|..|exact Hs].
  - intros id. by apply on_wf_keeps.
  - apply on_wf_keeps; [done|]. by destruct Hs.
  - intros id _. by apply on_wf_keeps.
Qed.

Lemma sys_ok_fail_run id e c ts dr :
  sys_ok (c_db c) ts dr -> sys_ok (c_db (on_wf (fail_run id e) c).2) ts dr.
Proof.
  apply sys_ok_on_wf; [auto with fletch|..]; [|intros id'; apply fail_run_over].
  intros id'. apply fail_run_closed, has_run_closed.
Qed.

(** ** The registry and the monitor *)

Lemma report_run created id b p :
  pw_armed p = true ->
  pw_armed (report created (set_run_active id b) p) = true /\
  pw_runs (report created (set_run_active id b) p) = if b then {[id]} ∪ pw_runs p else pw_runs p ∖ {[id]}.
Proof.
  intros Ha.
  assert (Hk : forall q, pw_armed (apply_section created q).1 = pw_armed q /\
    pw_runs (apply_section created q).1 = pw_runs q) by (intros q; unfold apply_section; by destruct (wants_assertion q)).
  unfold report, set_run_active, toggle. rewrite Ha. cbn [negb].
  destruct b, (decide (id ∈ pw_runs p)) as [Hi|Hi];
    rewrite ?(bool_decide_eq_true_2 _ Hi), ?(bool_decide_eq_false_2 _ Hi); cbn [fmap option_fmap option_map];
    try match goal with |- context [apply_section created ?q] => destruct (Hk q) as [-> ->] end;
    (split; [done|]); cbn [with_runs pw_runs]; set_solver.
Qed.

Lemma sys_ok_register id c ts dr :
  sys_ok (c_db c) ts dr -> sys_ok (c_db (register_driver id c).2) ts dr.
Proof.
  intros [S1 S2 S3 S4 S5 [S6 S7]]. unfold register_driver. cbn [snd c_db]. split; [|exact S2|exact S3|exact S4|exact S5|].
  - intros x Hx. destruct (S1 x Hx) as [Hd Hr]. split; [|done]. unfold is_driven in *. cbn.
    destruct (decide (id = x)) as [->|]; [by rewrite lookup_insert_eq|by rewrite lookup_insert_ne].
  - destruct (report_run (l_created (c_tick c)) id true (sv_power (c_db c)) S6) as [Ha Hr].
    split; [exact Ha|]. etrans; [exact Hr|]. cbn. by rewrite dom_insert_L, S7.
Qed.

Lemma sys_ok_deregister id c ts dr :
  over id (wf_of (c_db c)) -> sys_ok (c_db c) ts dr -> sys_ok (c_db (deregister_driver id c).2) ts (dr ∖ {[id]}).
Proof.
  intros Hover [S1 S2 S3 S4 S5 [S6 S7]]. unfold deregister_driver. cbn [snd c_db]. split; [| |exact S3|exact S4|exact S5|]; cbn.
  - intros x [Hx Hne]%elem_of_difference. destruct (S1 x Hx) as [Hd Hr]. split; [|done]. unfold is_driven in *. cbn.
    rewrite lookup_delete_ne by set_solver. done.
  - intros t Ht. eapply (task_ok_mono (c_db c) _ dr); [set_solver| |auto|auto|by apply S2].
    intros x Hx. destruct (decide (x = id)) as [->|]; [by right|left; set_solver].
  - destruct (report_run (l_created (c_tick c)) id false (sv_power (c_db c)) S6) as [Ha Hr].
    split; [exact Ha|]. etrans; [exact Hr|]. cbn. by rewrite dom_delete_L, S7.
Qed.

Lemma sys_ok_spawn id c ts dr : sys_ok (c_db c) ts dr -> sys_ok (c_db (spawn_drive id c).2) ts dr.
Proof. intros Hs. unfold spawn_drive. destruct (is_driven (c_db c) id); [done|]. by apply sys_ok_register. Qed.

Lemma sys_ok_flag id c r c' ts dr : flag_driver id c = (r, c') -> sys_ok (c_db c) ts dr -> sys_ok (c_db c') ts dr.
Proof.
  unfold flag_driver, is_driven. destruct (sv_runs (c_db c) !! id) as [b|] eqn:E; intros [= <- <-]; [|done].
  intros [S1 S2 S3 S4 S5 [S6 S7]]. cbn. split; [|exact S2|exact S3|exact S4|exact S5|]; cbn.
  - intros x Hx. destruct (S1 x Hx) as [Hd Hr]. split; [|done]. unfold is_driven in *. cbn.
    destruct (decide (id = x)) as [->|]; [by rewrite lookup_insert_eq|by rewrite lookup_insert_ne].
  - split; [done|]. rewrite dom_insert_L, S7. assert (id ∈ dom (sv_runs (c_db c))) by (apply elem_of_dom; by eexists).
    set_solver.
Qed.

(** ** Launching a row *)

(** As in [v0], as far as the invariant can see. *)
Definition alike (v0 v : Service) : Prop := frame v0 v /\ wf_of v = wf_of v0.

Lemma alike_refl v : alike v v.
Proof. by split; [split_and!|]. Qed.

Lemma sys_ok_alike v v' ts dr : alike v v' -> sys_ok v ts dr -> sys_ok v' ts dr.
Proof. intros [Hf Hw]. by apply sys_ok_ext. Qed.

Lemma ask_reads {A} (f : nat -> A) : reads (ask f).
Proof. by intros c. Qed.

Lemma map_err_reads {D A} f (m : M D A) : reads m -> reads (map_err f m).
Proof. intros Hm c. unfold map_err. specialize (Hm c). by destruct (m c) as [[a|e] c']. Qed.

#[local] Hint Resolve ask_reads map_err_reads : fletch.

Lemma provision_alike v0 id : preserves (alike v0) (provision id).
Proof. intros c Hc. unfold provision. by destruct (l_provision _). Qed.

(** A row with a new id, or nothing. *)
Definition launched (v0 : Service) (id : string) (v : Service) : Prop :=
  frame v0 v /\ exists r, wr_id r = id /\ ~ has_run id (wf_of v0) /\
    wf_of v = set_runs (fun l => l ++ [r]) (wf_of v0).

Lemma insert_run_triple v0 r :
  triple (alike v0) (on_store (insert_run r)) (fun _ => launched v0 (wr_id r)) (alike v0).
Proof.
  intros c [Hf Hw]. unfold on_store, zoom, insert_run, on_rows, sql. cbn [c_db c_tick].
  destruct (w_fault (c_tick c)); [by split|]. fold (wf_of (c_db c)). rewrite Hw.
  destruct (existsb (is_run (wr_id r)) (wf_runs (wf_of v0))) eqn:E; [by split|]. cbn. split; [exact Hf|].
  exists r. split_and!; [done| |done]. by apply (existsb_id_false wr_id).
Qed.

Lemma launch_row_triple v0 req :
  triple (alike v0) (launch_row req) (launched v0) (alike v0).
Proof.
  unfold launch_row. apply (triple_bind _ _ _ (fun _ => alike v0)); [apply triple_uuid|intros uuid].
  eapply triple_bind; [apply triple_reads, map_err_reads, reads_bind; auto with fletch|intros base].
  eapply triple_bind; [apply triple_reads; auto with fletch|intros []].
  eapply triple_bind; [apply triple_reads; auto with fletch|intros root].
  eapply triple_bind; [apply triple_preserves, provision_alike|intros u].
  eapply triple_bind; [apply triple_reads; auto with fletch|intros spec].
  apply (triple_bind _ _ _ (fun _ => alike v0)); [apply triple_now|intros now].
  eapply triple_bind; [apply insert_run_triple|]. intros u'. by apply triple_ret.
Qed.

Lemma wf_ok_launch r d : ~ has_run (wr_id r) d -> wf_ok d -> wf_ok (set_runs (fun l => l ++ [r]) d).
Proof.
  intros Hn [W1 W2 W3 W4 W5]. split; cbn [set_runs wf_runs wf_execs wf_journal]; auto.
  - rewrite fmap_app. by apply NoDup_snoc.
  - intros e He. rewrite fmap_app. apply elem_of_app. left. auto.
  - intros ev Hev. rewrite fmap_app. apply elem_of_app. left. auto.
Qed.

Lemma has_run_launch id r d : has_run id d -> has_run id (set_runs (fun l => l ++ [r]) d).
Proof. unfold has_run. cbn [set_runs wf_runs]. rewrite fmap_app. intros Hid. apply elem_of_app. by left. Qed.

(** Under the lifecycle lock no deletion is under way. *)
Lemma no_deleting ts t : lfilter holds_lifecycle ts = [] -> t ∈ ts -> is_deleting t = false.
Proof.
  intros Hl Ht. destruct (is_deleting t) eqn:E; [|done]. exfalso.
  assert (Hin : t ∈ lfilter holds_lifecycle ts) by (apply elem_of_lfilter; split; [done|by destruct t]).
  rewrite Hl in Hin. by apply elem_of_nil in Hin.
Qed.

Lemma sys_ok_launched v0 v id ts dr :
  launched v0 id v -> lfilter holds_lifecycle ts = [] -> sys_ok v0 ts dr -> sys_ok v (Launched id :: ts) dr.
Proof.
  intros [(Hr & Hp & Hw) (r & Hid & Hn & Hd)] Hl [S1 S2 S3 S4 S5 S6]. subst id.
  apply sys_ok_begin; [done|by left|]. split; rewrite ?Hr, ?Hp, ?Hw, ?Hd, ?Hl; simpl; auto.
  - intros x Hx. destruct (S1 x Hx). split; [unfold is_driven in *; by rewrite Hr|by apply has_run_launch].
  - intros t Ht. apply not_deleting_ok. by eapply no_deleting.
  - intros a x Ha. apply has_run_launch. eapply S4, Ha.
  - by apply wf_ok_launch.
Qed.

(** ** Deleting rows *)

(** The rows are there, or gone with the run's. *)
Definition rows (wf0 : WfDb) (s : RunStore) : Prop := rs_wf s = wf0.

Lemma rename_rows wf0 src dst : preserves (rows wf0) (rename src dst).
Proof. intros c Hc. unfold rename. destruct (move _ _ _); [|done]. by destruct (f_rename _). Qed.

Lemma remove_dir_all_rows wf0 name : preserves (rows wf0) (remove_dir_all name).
Proof. intros c Hc. unfold remove_dir_all. by destruct (rs_dirs _ !! name). Qed.

#[local] Hint Resolve rename_rows remove_dir_all_rows : fletch.

Lemma dir_exists_reads name : reads (dir_exists name).
Proof. by intros c. Qed.

#[local] Hint Resolve dir_exists_reads : fletch.

Lemma stage_rows wf0 id : preserves (rows wf0) (stage id).
Proof. unfold stage. preserving. Qed.

Lemma restore_rows wf0 d : preserves (rows wf0) (restore d).
Proof. unfold restore. preserving. Qed.

Lemma remove_staged_rows wf0 d : preserves (rows wf0) (remove_staged d).
Proof. unfold remove_staged. preserving. Qed.

Lemma remove_staged_total d : total (remove_staged d).
Proof.
  intros c. unfold remove_staged, remove_dir_all, ret. destruct (sd_exists d); [|by do 2 eexists].
  destruct (rs_dirs _ !! _); by do 2 eexists.
Qed.

Lemma delete_run_data_rows wf0 id :
  triple (rows wf0) (delete_run_data id) (fun _ => rows (delete_runs (is_run id) wf0)) (rows wf0).
Proof.
  unfold delete_run_data. eapply triple_bind; [apply triple_reads; auto with fletch|intros u].
  eapply triple_bind; [apply triple_preserves, stage_rows|intros d].
  apply (triple_bind _ _ _ (fun r s => rows (match r with Ok _ => delete_runs (is_run id) wf0 | Err _ => wf0 end) s)).
  - intros c Hc. unfold attempt, on_rows, sql. destruct (w_fault _); [done|]. cbn. by rewrite Hc.
  - intros [u'|e].
    + eapply triple_total, triple_preserves, remove_staged_rows. apply remove_staged_total.
    + eapply triple_bind; [apply triple_preserves, restore_rows|]. intros u'. by apply triple_err.
Qed.

Lemma delete_rows_spec id c :
  frame (c_db c) (c_db (delete_rows id c).2) /\
  (wf_of (c_db (delete_rows id c).2) = delete_runs (is_run id) (wf_of (c_db c)) \/
   wf_of (c_db (delete_rows id c).2) = set_trace (fun t => t ++ [EmitRunDeleted id]) (delete_runs (is_run id) (wf_of (c_db c))) \/
   wf_of (c_db (delete_rows id c).2) = wf_of (c_db c)).
Proof.
  unfold delete_rows, bind, attempt, on_store, on_wf, zoom.
  pose proof (delete_run_data_rows (wf_of (c_db c)) id {| c_db := sv_store (c_db c); c_tick := c_tick c |} eq_refl) as Hd.
  destruct (delete_run_data id _) as [[u|e] c1]; cbn in Hd |- *; (split; [by split_and!|]).
  - right. left. unfold wf_of. cbn. by rewrite Hd.
  - right. right. exact Hd.
Qed.

(** Once the last owned workspace is gone the rows may go. *)
Lemma sys_ok_delete_rows v v' id ts1 ts2 dr :
  frame v v' ->
  (wf_of v' = delete_runs (is_run id) (wf_of v) \/
   wf_of v' = set_trace (fun t => t ++ [EmitRunDeleted id]) (delete_runs (is_run id) (wf_of v))) ->
  sys_ok v (ts1 ++ Deleting id [] false :: ts2) dr -> sys_ok v' (ts1 ++ ts2) dr.
Proof.
  intros (Hr & Hp & Hw) Hd Hs. assert (Hs' := sys_ok_done _ _ _ _ _ Hs). destruct Hs as [S1 S2 S3 S4 S5 S6].
  destruct (S2 (Deleting id [] false)) as (K1 & _ & K3); [set_solver|].
  assert (Hnone : lfilter holds_lifecycle (ts1 ++ ts2) = []).
  { apply nil_length_inv. rewrite lfilter_length_app in *. simpl in S3. lia. }
  assert (Hkeep : forall x, x <> id -> has_run x (wf_of v) -> has_run x (wf_of v')).
  { intros x Hne Hx. apply (has_run_delete_runs id) in Hx; [|done]. by destruct Hd as [-> | ->]. }
  split; rewrite ?Hr, ?Hp, ?Hw; auto.
  - intros x Hx. destruct (S1 x Hx). split; [unfold is_driven in *; by rewrite Hr|]. apply Hkeep; [congruence|done].
  - intros t Ht. apply not_deleting_ok. by eapply no_deleting.
  - by apply Hs'.
  - intros a x Ha. apply Hkeep; [|by eapply S4]. intros ->.
    by destruct (K3 a Ha) as [?%elem_of_nil|].
  - apply (wf_ok_delete_runs (is_run id)) in S5. destruct Hd as [-> | ->]; [done|by apply wf_ok_trace].
Qed.

(** The guard lets through runs that are over. *)
Lemma check_run_spec id c u c' :
  check_run id c = (Ok u, c') -> alike (c_db c) (c_db c') /\ over id (wf_of (c_db c)).
Proof.
  unfold check_run, on_store, zoom. destruct (check_deletable [id] _) as [r c2] eqn:Ec. intros [= -> <-].
  pose proof (check_deletable_reads [id] {| c_db := sv_store (c_db c); c_tick := c_tick c |}) as Hread.
  rewrite Ec in Hread. cbn in Hread.
  destruct (check_deletable_Ok _ _ _ _ Ec id) as (r & Hr & Hst); [left|]. cbn in Hr. split.
  - split; [by split_and!|]. unfold wf_of. cbn. by rewrite Hread.
  - intros r' Hr'. unfold wf_of in Hr'. rewrite Hr in Hr'. by injection Hr' as <-.
Qed.

Lemma sys_ok_check id c c' ts dr :
  check_run id c = (Ok (), c') -> lfilter holds_lifecycle ts = [] ->
  sys_ok (c_db c) ts dr -> sys_ok (c_db c') (Checked id :: ts) dr.
Proof.
  intros [Ha Ho]%check_run_spec Hl Hs. apply (sys_ok_alike _ _ _ _ Ha) in Hs. destruct Ha as [_ Hwf].
  destruct Hs as [S1 S2 S3 S4 S5 S6]. split; auto.
  - intros t [->|Ht]%elem_of_cons; [|auto]. right. by rewrite Hwf.
  - cbn [lfilter holds_lifecycle]. rewrite Hl. simpl. lia.
Qed.

(** A task that holds the lock moves on to another that does. *)
Lemma sys_ok_next v ts1 t t' ts2 dr :
  holds_lifecycle t = true -> task_ok v dr t' -> sys_ok v (ts1 ++ t :: ts2) dr -> sys_ok v (ts1 ++ t' :: ts2) dr.
Proof.
  intros Hh Ht [S1 S2 S3 S4 S5 S6]. split; auto.
  - intros x [Hx|[->|Hx]%elem_of_cons]%elem_of_app; [|done|]; apply S2; set_solver.
  - rewrite lfilter_length_app in *. simpl in S3 |- *. rewrite Hh in S3. simpl in S3.
    destruct (holds_lifecycle t'); simpl; lia.
Qed.

Lemma sys_ok_registry id r c c' ts1 ts2 dr :
  refuse_driven id c = (r, c') -> sys_ok (c_db c) (ts1 ++ Checked id :: ts2) dr ->
  sys_ok (c_db c') (ts1 ++ (match r with Ok _ => [Cleared id] | Err _ => [] end) ++ ts2) dr.
Proof.
  unfold refuse_driven. destruct (is_driven (c_db c) id) eqn:Ed; intros [= <- <-] Hs; [by eapply sys_ok_done|].
  assert (Hn : id ∉ dr) by (intros [Hd _]%(so_driving _ _ _ Hs); congruence).
  eapply (sys_ok_next _ ts1 (Checked id)); [done| |exact Hs]. split; [done|].
  by destruct (so_deleting _ _ _ Hs (Checked id)) as [?|?]; [set_solver|..].
Qed.

Lemma sys_ok_listed id agents c c' ts1 ts2 dr :
  agents_for_run id c = (Ok agents, c') -> sys_ok (c_db c) (ts1 ++ Cleared id :: ts2) dr ->
  sys_ok (c_db c') (ts1 ++ Deleting id agents false :: ts2) dr.
Proof.
  unfold agents_for_run. intros [= <- <-] Hs. eapply (sys_ok_next _ ts1 (Cleared id)); [done| |exact Hs].
  destruct (so_deleting _ _ _ Hs (Cleared id)) as [Hi Ho]; [set_solver|]. split_and!; [done|done|].
  intros a Ha. left. apply list_elem_of_fmap. exists (a, id). split; [done|]. apply elem_of_lfilter.
  split; [exact Ha|]. apply String.eqb_refl.
Qed.

(** One agent discarded, or not. *)
Lemma sys_ok_discard id a agents failed r c c' ts1 ts2 dr :
  discard_agent a c = (r, c') -> sys_ok (c_db c) (ts1 ++ Deleting id (a :: agents) failed :: ts2) dr ->
  sys_ok (c_db c') (ts1 ++ Deleting id agents (match r with Ok _ => failed | Err _ => true end) :: ts2) dr.
Proof.
  intros Hd [S1 S2 S3 S4 S5 S6].
  assert (Hdb : frame (c_db c) (set_workspaces (sv_workspaces (c_db c)) (c_db c')) /\ wf_of (c_db c') = wf_of (c_db c) /\
    forall w, w ∈ sv_workspaces (c_db c') ->
      w ∈ sv_workspaces (c_db c) /\ (match r with Ok _ => w.1 <> a | Err _ => True end)).
  { unfold discard_agent in Hd. destruct (l_discard a (c_tick c)); injection Hd as <- <-; [by split_and!|].
    split; [by split_and!|]. split; [done|]. cbn. intros w [Hw Hn]%elem_of_lfilter. split; [done|].
    by destruct (String.eqb_spec (fst w) a). }
  destruct Hdb as ((Hr & Hp & _) & Hwf & Hw). cbn in Hr, Hp. split; rewrite ?Hwf, ?Hr, ?Hp; auto.
  - intros x Hx. unfold is_driven. rewrite Hr. by apply S1.
  - intros t Ht. apply elem_of_app in Ht as [Ht|[->|Ht]%elem_of_cons].
    1,3: eapply task_ok_mono, S2; [auto|auto| |by intros b x _ [? _]%Hw|set_solver]; intros x _; by rewrite Hwf.
    destruct (S2 (Deleting id (a :: agents) failed) ltac:(set_solver)) as (K1 & K2 & K3).
    split_and!; [done|by rewrite Hwf|]. intros b [Hb Hne]%Hw.
    destruct (K3 b Hb) as [[->|?]%elem_of_cons| ->]; destruct r; auto.
  - rewrite lfilter_length_app in *. simpl in S3 |- *. lia.
  - intros b x [Hb _]%Hw. by eapply S4.
Qed.

(** ** Every step *)

Lemma sys_ok_driving v ts dr id :
  is_driven v id = true -> (exists r, find_wf_run (wf_of v) id = Some r /\ drivable r) ->
  sys_ok v ts dr -> sys_ok v ts ({[id]} ∪ dr).
Proof.
  intros Hd (r & Hr & Hnt) [S1 S2 S3 S4 S5 S6]. split; auto.
  - intros x [->%elem_of_singleton|Hx]%elem_of_union; [|auto]. split; [done|]. apply find_wf_run_has. by exists r.
  - assert (Hno : ~ over id (wf_of v)) by (intros Ho; apply Hnt, Ho, Hr).
    intros t Ht. specialize (S2 t Ht). destruct t as [| | | |x|x|x agents failed]; cbn [task_ok] in *; try done.
    + set_solver.
    + destruct S2 as [Hi Ho]. split; [|done]. intros [->%elem_of_singleton|]%elem_of_union; done.
    + destruct S2 as (Hi & Ho & Hw). split_and!; [|done..]. intros [->%elem_of_singleton|]%elem_of_union; done.
Qed.

Lemma sys_ok_kernel v id d ts dr :
  id ∈ dr -> kernel_change id (wf_of v) d -> sys_ok v ts dr -> sys_ok (put_wf d v) ts dr.
Proof.
  intros Hid Hk Hs. pose proof (so_tables _ _ _ Hs) as Hok.
  assert (Hkeep : forall (P : WfDb -> Prop), closed_on id P ->
            (forall d a, P d -> P (set_trace (fun t => t ++ [a]) d)) -> P (wf_of v) -> P (wf_of (put_wf d v))).
  { intros P HP HA. by apply (kernel_change_keeps id P (wf_of v) d). }
  eapply (sys_ok_tables v); [by split_and!|..|exact Hs].
  - intros x. apply Hkeep; [apply has_run_closed|done].
  - apply Hkeep; [apply wf_ok_closed| |done]. intros d' a. apply wf_ok_trace.
  - intros x Hx. apply (over_elsewhere x id); [congruence|].
    apply Hkeep; [apply elsewhere_closed|done|]. by intros y.
Qed.

Lemma sys_ok_workspace v id a ts dr :
  id ∈ dr -> sys_ok v ts dr -> sys_ok (set_workspaces ((a, id) :: sv_workspaces v) v) ts dr.
Proof.
  intros Hid [S1 S2 S3 S4 S5 S6]. split; auto.
  - intros t Ht. eapply task_ok_mono, S2, Ht; auto. intros b x Hx [[= -> ->]|Hb]%elem_of_cons; done.
  - intros b x [[= -> ->]|Hb]%elem_of_cons; [by apply S1|by eapply S4].
Qed.

Lemma active_ids_alike c ids c' : active_ids c = (Ok ids, c') -> alike (c_db c) (c_db c').
Proof.
  intros Ha. pose proof (triple_preserves (alike (c_db c)) active_ids) as Hp.
  assert (Hr : preserves (alike (c_db c)) active_ids).
  { unfold active_ids. apply preserves_bind; [|auto with fletch]. apply preserves_attempt_ok. intros c1 [Hf Hw].
    destruct (on_wf_spec (query (fun d => wr_id <$> lfilter (fun r => lcontains ACTIVE (wr_status r)) (wf_runs d))) c1)
      as [Hf' Hw']. split; [by destruct Hf as (? & ? & ?), Hf' as (? & ? & ?); split_and!; congruence|].
    rewrite Hw', <- Hw. apply reads_query. }
  specialize (Hp Hr c (alike_refl _)). by rewrite Ha in Hp.
Qed.

Lemma fail_run_total id e : total (fail_run id e).
Proof.
  unfold fail_run. apply total_bind; [apply journal_event_total|intros u; apply set_status_total].
Qed.

Lemma sys_ok_end_drive p id c ts dr :
  over id (wf_of (c_db (end_drive p id c).2)) -> sys_ok (c_db c) ts dr -> sys_ok (c_db (end_drive p id c).2) ts (dr ∖ {[id]}).
Proof.
  intros Hover Hs. unfold end_drive in *. destruct p.
  - unfold bind in *. destruct (on_wf (fail_run id "internal scheduler error") c) as [r c1] eqn:E.
    assert (Hs1 := sys_ok_fail_run id "internal scheduler error" c ts dr Hs). rewrite E in Hs1.
    destruct r as [u|e]; [by apply sys_ok_deregister; [exact Hover|]|].
    exfalso. clear Hover. pose proof (fail_run_total id "internal scheduler error" {| c_db := wf_of (c_db c); c_tick := c_tick c |}) as (u & c2 & Ef).
    unfold on_wf, zoom in E. unfold wf_of in Ef. rewrite Ef in E. discriminate E.
  - by apply sys_ok_deregister.
Qed.

Lemma sstep_ok y y' : sstep y y' -> system_ok y -> system_ok y'.
Proof.
  unfold system_ok. intros Hs Hok.
  destruct Hs as [y req id c' Hf Hl|y req e c' Hf Hl|y ts1 id ts2 Ht|y ids c' Ha|y ts1 id ids ts2 Ht|y id r Hd Hr Hn
    |y id d Hid Hk|y id a Hid|y id e Hd|y p id Hd Hov|y id fl c' Hfl|y ts1 id ts2 Ht|y ts1 id ts2 Ht|y id c' Hf Hg
    |y ts1 id ts2 r c' Ht Hg|y ts1 id ts2 ag c' Ht Hg|y ts1 id a ag failed ts2 r c' Ht Hd|y ts1 id ts2 Ht|y ts1 id ts2 Ht]; cbn; rewrite ?Ht in Hok.
  - pose proof (launch_row_triple (svc y) req (sy_conn y) (alike_refl _)) as Hp. rewrite Hl in Hp.
    by eapply sys_ok_launched, Hok; [|apply free_none].
  - pose proof (launch_row_triple (svc y) req (sy_conn y) (alike_refl _)) as Hp. rewrite Hl in Hp.
    by eapply sys_ok_alike.
  - by eapply sys_ok_spawn, sys_ok_done.
  - apply sys_ok_begin; [done|by right|]. eapply sys_ok_alike, Hok. by eapply active_ids_alike.
  - by eapply sys_ok_spawn, sys_ok_replace.
  - apply sys_ok_driving; eauto.
  - by eapply sys_ok_kernel.
  - by apply sys_ok_workspace.
  - by apply sys_ok_fail_run.
  - by apply sys_ok_end_drive.
  - assert (Hok' := sys_ok_flag _ _ _ _ _ _ Hfl Hok). destruct fl; [done|]. by apply sys_ok_begin; [|right|].
  - apply sys_ok_on_wf; [..|by eapply sys_ok_replace].
    + apply stop_live_keeps. intros d a. apply wf_ok_trace.
    + by intros x; apply stop_live_keeps.
    + by intros x; apply stop_live_keeps.
  - apply sys_ok_on_wf; [..|by eapply sys_ok_done].
    + apply set_status_closed; [auto with fletch|done].
    + intros x. apply set_status_closed; [apply has_run_closed|done].
    + intros x. apply mark_canceled_over.
  - eapply sys_ok_check; [exact Hg|by apply free_none|exact Hok].
  - by eapply sys_ok_registry.
  - by eapply sys_ok_listed.
  - by eapply sys_ok_discard.
  - destruct (delete_rows_spec id (sy_conn y)) as (Hfr & [Hd|[Hd|Hd]]);
      [by eapply sys_ok_delete_rows; [..|exact Hok]; auto|by eapply sys_ok_delete_rows; [..|exact Hok]; auto|].
    eapply sys_ok_ext; [exact Hfr|exact Hd|]. by eapply sys_ok_done.
  - by eapply sys_ok_done.
Qed.

(** A service that just started: nothing under way, nobody driven, sound tables. *)
Record booted (y : System) : Prop := {
  bt_tasks : sy_tasks y = [];
  bt_driving : sy_driving y = ∅;
  bt_tables : wf_ok (wf_of (svc y));
  bt_workspaces : forall a id, (a, id) ∈ sv_workspaces (svc y) -> has_run id (wf_of (svc y));
  bt_registry : sv_runs (svc y) = ∅;
  bt_power : pw_armed (sv_power (svc y)) = true /\ pw_runs (sv_power (svc y)) = ∅;
}.

Lemma booted_ok y : booted y -> system_ok y.
Proof.
  intros [B1 B2 B3 B4 B5 [B6 B7]]. unfold system_ok. rewrite B1, B2. split; auto.
  - set_solver.
  - set_solver.
  - by rewrite B5, dom_empty_L, B7.
Qed.

Lemma reachable_ok y0 y : booted y0 -> rtc sstep y0 y -> system_ok y.
Proof.
  intros Hb Hr. apply booted_ok in Hb. revert Hb. induction Hr as [x|x z y Hxz _ IH]; [done|].
  intros Hx. by eapply IH, sstep_ok.
Qed.

Lemma on_wf_rows {A} (m : M WfDb A) c id :
  preserves (has_run id) m -> has_run id (wf_of (c_db c)) -> has_run id (wf_of (c_db (on_wf m c).2)).
Proof. apply (on_wf_keeps (has_run id)). Qed.

Lemma spawn_drive_rows id c : wf_of (c_db (spawn_drive id c).2) = wf_of (c_db c).
Proof. unfold spawn_drive. by destruct (is_driven (c_db c) id). Qed.

Lemma flag_driver_rows id c r c' : flag_driver id c = (r, c') -> wf_of (c_db c') = wf_of (c_db c).
Proof. unfold flag_driver. by destruct (is_driven (c_db c) id); intros [= <- <-]. Qed.

Lemma end_drive_rows p id other c :
  has_run other (wf_of (c_db c)) -> has_run other (wf_of (c_db (end_drive p id c).2)).
Proof.
  intros Hr. unfold end_drive, bind. destruct p; [|done].
  pose proof (on_wf_rows (fail_run id "internal scheduler error") c other) as Hk.
  destruct (on_wf _ c) as [[u|e] c1]; cbn in Hk |- *; apply Hk; try done; apply fail_run_closed, has_run_closed.
Qed.

(** One step takes at most the row of a run whose deletion has finished with its agents. *)
Lemma sstep_rows y y' id :
  sstep y y' -> has_run id (wf_of (svc y)) -> has_run id (wf_of (svc y')) \/ Deleting id [] false ∈ sy_tasks y.
Proof.
  intros Hs Hr.
  destruct Hs as [y req x c' Hf Hl|y req e c' Hf Hl|y ts1 x ts2 Ht|y ids c' Ha|y ts1 x ids ts2 Ht|y x r Hd Hx Hn
    |y x d Hid Hk|y x a Hid|y x e Hd|y p x Hd Hov|y x fl c' Hfl|y ts1 x ts2 Ht|y ts1 x ts2 Ht|y x c' Hf Hg
    |y ts1 x ts2 r c' Ht Hg|y ts1 x ts2 ag c' Ht Hg|y ts1 x a ag failed ts2 r c' Ht Hd|y ts1 x ts2 Ht|y ts1 x ts2 Ht]; cbn; try (by left).
  - left. pose proof (launch_row_triple (svc y) req (sy_conn y) (alike_refl _)) as Hp. rewrite Hl in Hp.
    destruct Hp as [_ (r & _ & _ & ->)]. by apply has_run_launch.
  - left. pose proof (launch_row_triple (svc y) req (sy_conn y) (alike_refl _)) as Hp. rewrite Hl in Hp.
    by destruct Hp as [_ ->].
  - left. by rewrite spawn_drive_rows.
  - left. by destruct (active_ids_alike _ _ _ Ha) as [_ ->].
  - left. by rewrite spawn_drive_rows.
  - left. eapply (kernel_change_keeps x (has_run id)); [apply has_run_closed|done|exact Hk|done].
  - left. apply on_wf_rows; [apply fail_run_closed, has_run_closed|done].
  - left. by apply end_drive_rows.
  - left. by rewrite (flag_driver_rows _ _ _ _ Hfl).
  - left. apply on_wf_rows; [by apply stop_live_keeps|done].
  - left. apply on_wf_rows; [apply set_status_closed; [apply has_run_closed|done]|done].
  - left. by destruct (check_run_spec _ _ _ _ Hg) as [[_ ->] _].
  - left. unfold refuse_driven in Hg. by destruct (is_driven (svc y) x); injection Hg as <- <-.
  - left. unfold agents_for_run in Hg. by injection Hg as <- <-.
  - left. unfold discard_agent in Hd. by destruct (l_discard a (c_tick (sy_conn y))); injection Hd as <- <-.
  - destruct (decide (id = x)) as [->|Hne]; [right; rewrite Ht; set_solver|left].
    assert (Hr' := has_run_delete_runs x _ _ Hne Hr).
    by destruct (delete_rows_spec x (sy_conn y)) as (_ & [-> |[-> | ->]]).
Qed.

(** (C20) Deletion never races a drive: in any interleaving of launches, resumes, drives, cancels
    and deletions, a run a drive task works on keeps its row and its registration and is not
    being deleted; and a step that takes a run's row finds the run finished, driven by nobody
    and with every workspace it owned discarded. *)
Theorem deletion_never_races_a_drive y0 y :
  booted y0 -> rtc sstep y0 y ->
  (forall id, id ∈ sy_driving y ->
     is_driven (svc y) id = true /\ has_run id (wf_of (svc y)) /\
     forall agents failed, Deleting id agents failed ∉ sy_tasks y) /\
  (forall y' id, sstep y y' -> has_run id (wf_of (svc y)) -> ~ has_run id (wf_of (svc y')) ->
     over id (wf_of (svc y)) /\ id ∉ sy_driving y /\ forall a, (a, id) ∉ sv_workspaces (svc y)).
Proof.
  intros Hb Hr. apply (reachable_ok _ _ Hb) in Hr as [S1 S2 S3 S4 S5 S6]. split.
  - intros id Hid. destruct (S1 id Hid). split_and!; [done..|]. intros agents failed Ht.
    by destruct (S2 _ Ht).
  - intros y' id Hs Hrow Hn. destruct (sstep_rows _ _ _ Hs Hrow) as [?|Ht]; [done|].
    destruct (S2 _ Ht) as (K1 & K2 & K3). split_and!; [done..|].
    intros a Ha. by destruct (K3 a Ha) as [?%elem_of_nil|].
Qed.

(** Nothing a run owns outlives it unseen: in every reachable state each workspace a run
    checked out belongs to a run that still has its row, so a deletion that could not discard an
    agent keeps the run and can be asked for again; and journals, attempts and ids stay sound. *)
Theorem no_workspace_is_orphaned y0 y :
  booted y0 -> rtc sstep y0 y ->
  (forall a id, (a, id) ∈ sv_workspaces (svc y) -> has_run id (wf_of (svc y))) /\ wf_ok (wf_of (svc y)).
Proof. intros Hb Hr. by apply (reachable_ok _ _ Hb) in Hr as [S1 S2 S3 S4 S5 S6]. Qed.

(** The monitor hears of every drive: in every reachable state the runs it counts as active
    are exactly the registered ones, so it wants the machine awake while any run is driven. *)
Theorem awake_while_driven y0 y :
  booted y0 -> rtc sstep y0 y ->
  pw_runs (sv_power (svc y)) = dom (sv_runs (svc y)) /\
  forall id, is_driven (svc y) id = true -> wants_assertion (sv_power (svc y)) = true.
Proof.
  intros Hb Hr. apply (reachable_ok _ _ Hb) in Hr as [S1 S2 S3 S4 S5 [S6 S7]]. split; [done|].
  intros id Hd. unfold wants_assertion. rewrite (bool_decide_eq_false_2 (pw_runs _ = ∅)), orb_true_r; [done|].
  rewrite S7. intros He. unfold is_driven in Hd. destruct (sv_runs (svc y) !! id) eqn:E; [|done].
  assert (id ∈ dom (sv_runs (svc y))) by (apply elem_of_dom; by eexists). set_solver.
Qed.
End System.

(** ** On concrete systems *)

Definition demo_launcher : Launcher := {|
  l_boxed _ _ _ _ := false; l_rev_parse _ _ _ := Ok "0123abc"; l_runs_root := Ok "/runs";
  l_provision _ := (["blackboard"; "repo"], None); l_to_json _ := Ok "{}"; l_project_for_repo _ := None;
  l_discard _ _ := None; l_created _ := true |}.

#[local] Existing Instance sound_files.
#[local] Existing Instance demo_launcher.
#[local] Existing Instance demo_codec.
#[local] Instance demo_world : World := calm_world show_nat.

(** A run of the given status, with a workspace of its own. *)
Definition demo_system (status : string) : System := {|
  sy_conn := {| c_db := {| sv_store := {| rs_wf := demo_db status; rs_dirs := demo_dirs; rs_possible := [] |};
                           sv_runs := ∅; sv_power := arm_section fresh; sv_workspaces := [("a", "run-1")] |};
                c_tick := 0 |};
  sy_tasks := []; sy_driving := ∅ |}.

Lemma demo_booted s : booted (demo_system s).
Proof.
  split; [done|done|apply demo_db_ok| |done|done].
  intros a id [= -> ->]%list_elem_of_singleton. vm_compute. by left.
Qed.

(** Its deletion, locked section by locked section. *)
Definition checked : System :=
  with_task (check_run "run-1" (sy_conn (demo_system "done"))).2 [Checked "run-1"] (demo_system "done").
Definition cleared : System := with_task (sy_conn checked) [Cleared "run-1"] checked.
Definition guarded : System := with_task (sy_conn cleared) [Deleting "run-1" ["a"] false] cleared.
Definition discarded : System :=
  with_task (discard_agent "a" (sy_conn guarded)).2 [Deleting "run-1" [] false] guarded.
Definition deleted : System :=
  with_task (delete_rows "run-1" (sy_conn discarded)).2 [] discarded.

Lemma guarded_reached : rtc sstep (demo_system "done") guarded.
Proof.
  eapply rtc_l; [|eapply rtc_l; [|eapply rtc_l; [|apply rtc_refl]]].
  - apply (SsCheck (demo_system "done") "run-1"); [by intros t ?%elem_of_nil|vm_compute; reflexivity].
  - apply (SsRegistry checked [] "run-1" [] (Ok ())); [reflexivity|vm_compute; reflexivity].
  - apply (SsDelete cleared [] "run-1" [] ["a"]); [reflexivity|vm_compute; reflexivity].
Qed.

Lemma discarded_reached : rtc sstep (demo_system "done") discarded.
Proof.
  eapply rtc_r; [exact guarded_reached|].
  apply (SsDiscard guarded [] "run-1" "a" [] false [] (Ok ())); [reflexivity|vm_compute; reflexivity].
Qed.

Lemma deletion_never_races_a_drive_witness :
  rs_dirs (sv_store (c_db (sy_conn deleted))) !! "run-1" = None /\
  over "run-1" (wf_of (c_db (sy_conn discarded))) /\ "run-1" ∉ sy_driving discarded /\
  forall a, (a, "run-1") ∉ sv_workspaces (c_db (sy_conn discarded)).
Proof.
  split; [vm_compute; reflexivity|].
  refine (proj2 (deletion_never_races_a_drive (demo_system "done") discarded (demo_booted _) discarded_reached)
    deleted "run-1" _ _ _).
  - apply (SsDeleteRows discarded [] "run-1" []). reflexivity.
  - vm_compute. by left.
  - intros Hr%find_wf_run_some. vm_compute in Hr. discriminate Hr.
Defined.

Lemma no_workspace_is_orphaned_witness :
  (forall a id, (a, id) ∈ sv_workspaces (c_db (sy_conn guarded)) -> has_run id (wf_of (c_db (sy_conn guarded)))) /\
  wf_ok (wf_of (c_db (sy_conn guarded))).
Proof. exact (no_workspace_is_orphaned (demo_system "done") guarded (demo_booted _) guarded_reached). Defined.

(** A run picked up at startup. *)
Definition resuming : System :=
  with_task (active_ids (sy_conn (demo_system "running"))).2 [Resuming ["run-1"]] (demo_system "running").
Definition resumed : System :=
  with_task (spawn_drive "run-1" (sy_conn resuming)).2 [Resuming []] resuming.

Lemma resumed_reached : rtc sstep (demo_system "running") resumed.
Proof.
  eapply rtc_l; [|eapply rtc_l; [|apply rtc_refl]].
  - apply (SsResume (demo_system "running") ["run-1"]). vm_compute. reflexivity.
  - apply (SsResuming resuming [] "run-1" [] []). reflexivity.
Qed.

Lemma awake_while_driven_witness :
  is_driven (c_db (sy_conn resumed)) "run-1" = true /\
  wants_assertion (sv_power (c_db (sy_conn resumed))) = true.
Proof.
  split; [vm_compute; reflexivity|].
  refine (proj2 (awake_while_driven (demo_system "running") resumed (demo_booted _) resumed_reached) "run-1" _).
  vm_compute. reflexivity.
Defined.

(** ** Canceling without a drive *)

Section Canceling.
Context `{World} `{Codec} `{Files} `{Launcher}.

Lemma on_wf_triple {A} (P E : WfDb -> Prop) (m : M WfDb A) Q :
  triple P m Q E -> triple (fun v => P (wf_of v)) (on_wf m) (fun a v => Q a (wf_of v)) (fun v => E (wf_of v)).
Proof.
  intros Hm c Hc. unfold on_wf, zoom. specialize (Hm {| c_db := wf_of (c_db c); c_tick := c_tick c |} Hc).
  unfold wf_of in Hm. by destruct (m _) as [[a|e] c'].
Qed.

Lemma stop_live_total id : total (stop_live_step_agents id).
Proof.
  unfold stop_live_step_agents. apply total_bind; [unfold live_step_agents; never_failing|].
  intros l. induction l as [|a l IH]; cbn [stop_all]; [auto with fletch|]. by apply total_bind; [apply act_total|].
Qed.

Lemma on_wf_total {A} (m : M WfDb A) : total m -> total (on_wf m).
Proof.
  intros Hm c. destruct (Hm {| c_db := wf_of (c_db c); c_tick := c_tick c |}) as (a & c' & E).
  exists a. unfold on_wf, zoom. unfold wf_of in E. rewrite E. by eexists.
Qed.

(** The row of [id] as given, and these events. *)
Definition row_and_events (id : string) (r : WfRun) (l : list WfEvent) (d : WfDb) : Prop :=
  find_wf_run d id = Some r /\ wf_journal d = l.

Lemma mark_canceled_triple id r l E : (forall n, w_fault n = None) ->
  triple (row_and_events id r l) (mark_canceled id)
    (fun _ d => exists now, row_and_events id (with_status "canceled" None now r) l d) E.
Proof.
  intros Hcalm. unfold mark_canceled, set_status. eapply triple_bind; [apply triple_now|]. intros now.
  apply (triple_bind _ _ _ (fun _ => row_and_events id (with_status "canceled" None now r) l)).
  - eapply triple_weaken;
      [apply triple_attempt, (triple_execute Hcalm (row_and_events id r l) _
         (fun _ => row_and_events id (with_status "canceled" None now r) l) (fun _ => False))|done| |intros d Hd; exact Hd].
    + intros d [Hr Hl]. split; [|exact Hl]. by rewrite (find_update_run _ _ _ r).
    + by intros [u|e] d Hd.
  - intros u. eapply triple_weaken;
      [apply (emit_run_row_triple (row_and_events id (with_status "canceled" None now r) l))|done| |intros d Hd; exact Hd].
    + by intros d f [].
    + intros u' d Hd. by exists now.
Qed.

(** With no live driver a cancel succeeds and marks the run canceled whatever its status
    was, a finished run's included, and appends no event: the row alone records the outcome. *)
Theorem cancel_without_a_driver id r c :
  (forall n, w_fault n = None) -> is_driven (c_db c) id = false -> find_wf_run (wf_of (c_db c)) id = Some r ->
  exists c' now, cancel id c = (Ok (), c') /\
    find_wf_run (wf_of (c_db c')) id = Some (with_status "canceled" None now r) /\
    wf_journal (wf_of (c_db c')) = wf_journal (wf_of (c_db c)).
Proof.
  intros Hcalm Hd Hr. set (l := wf_journal (wf_of (c_db c))). unfold cancel, bind at 1, flag_driver. rewrite Hd.
  set (m := let* _ := on_wf (stop_live_step_agents id) in on_wf (mark_canceled id)).
  assert (Htot : total m).
  { apply total_bind; [apply on_wf_total, stop_live_total|]. intros u. apply on_wf_total, set_status_total. }
  assert (Hm : triple (fun v => row_and_events id r l (wf_of v)) m
    (fun _ v => exists now, row_and_events id (with_status "canceled" None now r) l (wf_of v)) (fun _ => True)).
  { apply (triple_bind _ _ _ (fun _ v => row_and_events id r l (wf_of v))).
    - eapply triple_weaken;
        [eapply (on_wf_triple (row_and_events id r l)), triple_preserves, stop_live_keeps; by intros d a []|done..].
    - intros u. exact (on_wf_triple _ (fun _ => True) _ _ (mark_canceled_triple id r l _ Hcalm)). }
  destruct (Htot (tick c)) as ([] & c' & E). specialize (Hm (tick c) (conj Hr eq_refl)). rewrite E in Hm.
  destruct Hm as (now & Hrow & Hl). by exists c', now.
Qed.
End Canceling.

(** A run that was done. *)
Lemma cancel_without_a_driver_witness :
  let r := hd_error (wf_runs (demo_db "done")) in
  option_map wr_status r = Some "done" /\
  exists c' now, cancel "run-1" (sy_conn (demo_system "done")) = (Ok (), c') /\
    find_wf_run (wf_of (c_db c')) "run-1" = option_map (with_status "canceled" None now) r /\
    wf_journal (wf_of (c_db c')) = wf_journal (demo_db "done").
Proof.
  intros r. split; [reflexivity|].
  exact (cancel_without_a_driver "run-1" _ (sy_conn (demo_system "done")) (fun _ => eq_refl) eq_refl eq_refl).
Defined.
