(* ===== verification/RustText.v ===== *)
(** * Text read from processes

    The parts of Rust's [str] and [Path] that the git layer uses on what a child process printed:
    lossy decoding, lines, pieces of a line, ASCII case, and paths by their components. *)

From S2P Require Import Prelude RustStr.

Local Open Scope string_scope.

(** ** Bytes to text *)

(** U+FFFD. *)
Definition REPLACEMENT : string := bytes [239; 191; 189]%N.

Definition byte_in (lo hi : N) (b : option Ascii.ascii) : bool :=
  match b with
  | Some b => let n := Ascii.N_of_ascii b in ((lo <=? n) && (n <=? hi))%N
  | None => false
  end.

Definition nth_byte (n : nat) (s : string) : option Ascii.ascii := String.get n s.

(** The chunk a UTF-8 decoder takes from [b :: s]: how many bytes of [s] go with [b], and whether
    they make a scalar value. An ill-formed chunk is the longest prefix that starts one. *)
Definition utf8_chunk (b : Ascii.ascii) (s : string) : nat * bool :=
  let n := Ascii.N_of_ascii b in
  let at_ k := nth_byte k s in
  let cont k := byte_in 128 191 (at_ k) in
  if (n <? 128)%N then (0, true)
  else if ((194 <=? n) && (n <=? 223))%N then if cont 0 then (1, true) else (0, false)
  else if ((224 <=? n) && (n <=? 239))%N then
    let second :=
      if (n =? 224)%N then byte_in 160 191 (at_ 0)
      else if (n =? 237)%N then byte_in 128 159 (at_ 0)
      else cont 0 in
    if second then if cont 1 then (2, true) else (1, false) else (0, false)
  else if ((240 <=? n) && (n <=? 244))%N then
    let second :=
      if (n =? 240)%N then byte_in 144 191 (at_ 0)
      else if (n =? 244)%N then byte_in 128 143 (at_ 0)
      else cont 0 in
    if second then
      if cont 1 then if cont 2 then (3, true) else (2, false) else (1, false)
    else (0, false)
  else (0, false).

(** [String::from_utf8_lossy]. [pending] bytes still belong to the chunk before: copied when it
    was well-formed, dropped when it became U+FFFD. *)
Fixpoint lossy (pending : nat) (copy : bool) (s : string) : string :=
  match s with
  | EmptyString => ""
  | String b s =>
      match pending with
      | S k => if copy then String b (lossy k copy s) else lossy k copy s
      | O =>
          let '(k, ok) := utf8_chunk b s in
          if ok then String b (lossy k true s) else REPLACEMENT +:+ lossy k false s
      end
  end.

Definition from_utf8_lossy (s : string) : string := lossy 0 true s.

Definition is_ascii_byte (b : Ascii.ascii) : bool := (Ascii.N_of_ascii b <? 128)%N.

Fixpoint is_ascii (s : string) : bool :=
  match s with EmptyString => true | String b s => is_ascii_byte b && is_ascii s end.

(** [s.iter().all(u8::is_ascii_whitespace)]: tab, line feed, form feed, carriage return, space. *)
Definition is_ascii_whitespace (b : Ascii.ascii) : bool :=
  let n := Ascii.N_of_ascii b in ((n =? 9) || (n =? 10) || (n =? 12) || (n =? 13) || (n =? 32))%N.

Fixpoint all_ascii_whitespace (s : string) : bool :=
  match s with EmptyString => true | String b s => is_ascii_whitespace b && all_ascii_whitespace s end.

(** ** Lines and pieces *)

(** [s.split(c)]. *)
Definition split_on (c : Ascii.ascii) (s : string) : list string := split_by (Ascii.eqb c) s.

Definition newline_byte : Ascii.ascii := Ascii.ascii_of_N 10.
Definition tab_byte : Ascii.ascii := Ascii.ascii_of_N 9.
Definition tab : string := String tab_byte "".

Fixpoint strip_suffix_byte (c : Ascii.ascii) (s : string) : option string :=
  match s with
  | EmptyString => None
  | String b EmptyString => if Ascii.eqb b c then Some "" else None
  | String b s => String b <$> strip_suffix_byte c s
  end.

Definition strip_cr (line : string) : string :=
  match strip_suffix_byte (Ascii.ascii_of_N 13) line with Some l => l | None => line end.

(** A line that ended in a line feed may end in a carriage return too; the last, unterminated one
    keeps its own. *)
Fixpoint finish_lines (pieces : list string) : list string :=
  match pieces with
  | [] => []
  | [last] => if is_empty last then [] else [last]
  | l :: ls => strip_cr l :: finish_lines ls
  end.

(** [s.lines()]. *)
Definition lines (s : string) : list string := finish_lines (split_on newline_byte s).

(** [s.split_whitespace()]: the non-empty runs between white space. *)
Fixpoint words_of (cs : list string) (word : string) : list string :=
  match cs with
  | [] => if is_empty word then [] else [word]
  | c :: cs =>
      if is_ws c then if is_empty word then words_of cs "" else word :: words_of cs ""
      else words_of cs (word +:+ c)
  end.

Definition split_whitespace (s : string) : list string := words_of (chars s) "".

(** [s.strip_suffix(t)]: the other end of [strip_prefix]. *)
Definition rev_string (s : string) : string := String.string_of_list_ascii (rev (String.list_ascii_of_string s)).

Definition strip_suffix (t s : string) : option string :=
  rev_string <$> strip_prefix (rev_string t) (rev_string s).

Definition ends_with (t s : string) : bool := is_some (strip_suffix t s).

(** [s.trim_start_matches(c)] and [s.trim_matches(c)] for a one-byte pattern. *)
Fixpoint trim_start_byte (c : Ascii.ascii) (s : string) : string :=
  match s with
  | String b s' => if Ascii.eqb b c then trim_start_byte c s' else s
  | EmptyString => ""
  end.

Definition trim_byte (c : Ascii.ascii) (s : string) : string :=
  rev_string (trim_start_byte c (rev_string (trim_start_byte c s))).

(** [a.eq_ignore_ascii_case(b)]. *)
Definition eq_ignore_ascii_case (a b : string) : bool :=
  String.eqb (to_ascii_lowercase a) (to_ascii_lowercase b).

(** [list.concat()]. *)
Definition concat (l : list string) : string := foldr String.append "" l.

(** ** Paths *)

Definition slash : Ascii.ascii := Ascii.ascii_of_N 47.

Fixpoint drop_dots (first : bool) (pieces : list string) : list string :=
  match pieces with
  | [] => []
  | p :: ps =>
      if is_empty p || (String.eqb p "." && negb first) then drop_dots false ps
      else p :: drop_dots false ps
  end.

(** [Path::components]: a root, and the pieces between slashes; empty pieces and dots go, save a
    leading dot of a relative path. *)
Definition components (path : string) : bool * list string :=
  let absolute := starts_with "/" path in
  (absolute, drop_dots (negb absolute) (split_on slash path)).

(** [PathBuf: PartialEq] compares components. *)
Definition path_eqb (a b : string) : bool := eqb (components a) (components b).

Definition is_prefix_of (a b : list string) : bool := eqb (take (length a) b) a.

(** [dir.starts_with(root)]. *)
Definition path_starts_with (dir root : string) : bool :=
  eqb (components dir).1 (components root).1
  && is_prefix_of (components root).2 (components dir).2.

(** [base.join(name)] for a relative [name]. *)
Definition path_join (base name : string) : string :=
  if is_empty base || ends_with "/" base then base +:+ name else base +:+ "/" +:+ name.

(** ** Lemmas *)

Lemma lossy_ascii copy s : is_ascii s = true -> lossy 0 copy s = s.
Proof.
  revert copy. induction s as [|b s IH]; intros copy; [done|]. cbn [is_ascii lossy].
  intros [Hb Hs]%andb_true_iff. unfold utf8_chunk. unfold is_ascii_byte in Hb. rewrite Hb.
  by rewrite IH.
Qed.

Lemma from_utf8_lossy_ascii s : is_ascii s = true -> from_utf8_lossy s = s.
Proof. apply lossy_ascii. Qed.

Lemma eq_ignore_ascii_case_refl a : eq_ignore_ascii_case a a = true.
Proof. apply String.eqb_refl. Qed.

Lemma eq_ignore_ascii_case_sym a b : eq_ignore_ascii_case a b = eq_ignore_ascii_case b a.
Proof. apply String.eqb_sym. Qed.

Lemma eq_ignore_ascii_case_trans a b c :
  eq_ignore_ascii_case a b = true -> eq_ignore_ascii_case b c = true ->
  eq_ignore_ascii_case a c = true.
Proof. unfold eq_ignore_ascii_case. rewrite !String.eqb_eq. congruence. Qed.

Lemma path_eqb_refl p : path_eqb p p = true.
Proof. apply eqb_refl. Qed.

Lemma split_by_cons p s : exists w ws, split_by p s = w :: ws.
Proof.
  destruct s as [|b s]; cbn [split_by]; [by do 2 eexists|].
  destruct (p b); [by do 2 eexists|]. destruct (split_by p s); by do 2 eexists.
Qed.

(** A piece holds no separator. *)
Fixpoint free_of (c : Ascii.ascii) (s : string) : bool :=
  match s with EmptyString => true | String b s => negb (Ascii.eqb b c) && free_of c s end.

Lemma free_of_app c s t : free_of c (s +:+ t) = free_of c s && free_of c t.
Proof. induction s as [|b s IH]; [done|]. rewrite append_cons. cbn [free_of]. by rewrite IH, andb_assoc. Qed.

Lemma split_on_free c s : free_of c s = true -> split_on c s = [s].
Proof.
  unfold split_on. induction s as [|b s IH]; [done|]. cbn [free_of split_by].
  rewrite andb_true_iff, negb_true_iff. intros [Hb Hs].
  rewrite Ascii.eqb_sym, Hb. by rewrite IH.
Qed.

Lemma split_on_app c s t : free_of c s = true -> split_on c (s +:+ String c t) = s :: split_on c t.
Proof.
  unfold split_on. induction s as [|b s IH]; intros Hs.
  - rewrite append_nil. cbn [split_by]. by rewrite Ascii.eqb_refl.
  - revert Hs. rewrite append_cons. cbn [free_of split_by].
    rewrite andb_true_iff, negb_true_iff. intros [Hb Hs].
    rewrite Ascii.eqb_sym, Hb. by rewrite IH.
Qed.

Lemma split_once_app c s t : free_of c s = true -> split_once c (s +:+ String c t) = Some (s, t).
Proof.
  induction s as [|b s IH]; intros Hs.
  - rewrite append_nil. cbn [split_once]. by rewrite Ascii.eqb_refl.
  - revert Hs. rewrite append_cons. cbn [free_of split_once].
    rewrite andb_true_iff, negb_true_iff. intros [Hb Hs]. rewrite Hb. by rewrite IH.
Qed.

Lemma split_once_None c s : free_of c s = true -> split_once c s = None.
Proof.
  induction s as [|b s IH]; [done|]. cbn [free_of split_once].
  rewrite andb_true_iff, negb_true_iff. intros [Hb Hs]. rewrite Hb. by rewrite IH.
Qed.

Lemma split_once_Some c s x y : split_once c s = Some (x, y) -> s = x +:+ String c y /\ free_of c x = true.
Proof.
  revert x y. induction s as [|b s IH]; intros x y; [done|]. cbn [split_once].
  destruct (Ascii.eqb b c) eqn:Hb.
  - intros [= <- <-]. apply Ascii.eqb_eq in Hb as ->. done.
  - destruct (split_once c s) as [[x' y']|]; [|done]. intros [= <- <-].
    destruct (IH _ _ eq_refl) as [-> Hx]. cbn [free_of]. by rewrite Hb, Hx.
Qed.

(** A text whose lines are known, without carriage returns. *)
Lemma strip_suffix_byte_free c s : free_of c s = true -> strip_suffix_byte c s = None.
Proof.
  induction s as [|b s IH]; [done|]. cbn [free_of strip_suffix_byte].
  rewrite andb_true_iff, negb_true_iff. intros [Hb Hs]. rewrite Hb, (IH Hs).
  by destruct s.
Qed.

Definition plain_line (l : string) : bool := free_of newline_byte l && free_of (Ascii.ascii_of_N 13) l.

Lemma lines_cons l s : plain_line l = true -> lines (l +:+ String newline_byte s) = l :: lines s.
Proof.
  unfold plain_line. rewrite andb_true_iff. intros [Hn Hr]. unfold lines.
  rewrite split_on_app by done. destruct (split_by_cons (Ascii.eqb newline_byte) s) as (w & ws & E).
  unfold split_on. rewrite E. change (finish_lines (l :: w :: ws)) with (strip_cr l :: finish_lines (w :: ws)).
  f_equal. unfold strip_cr. by rewrite strip_suffix_byte_free.
Qed.

Lemma lines_nil : lines "" = [].
Proof. done. Qed.

(** [ls] as a process prints them, each ended. *)
Definition unlines (ls : list string) : string := concat ((fun l => l +:+ newline) <$> ls).

Lemma lines_unlines ls : forallb plain_line ls = true -> lines (unlines ls) = ls.
Proof.
  induction ls as [|l ls IH]; [done|]. cbn [forallb]. rewrite andb_true_iff. intros [Hl Hls].
  unfold unlines. rewrite fmap_cons. cbn [concat foldr]. change newline with (String newline_byte "").
  rewrite <-append_assoc, append_cons, append_nil, lines_cons by done. f_equal. by apply IH.
Qed.
