(* ===== verification/GitDist.v ===== *)
(** * Spawning git on the host (git_dist.rs, git/hardening.rs, exec.rs)

    What the git layer does to the world is a list of acts, kept by the monad of [Sql]: each git
    process with its directory, arguments, environment and answer, each call into the sandbox,
    each GitHub request, each approval asked. [GitHost] answers them, by the number of what was asked
    before, so nothing is assumed of an agent that changes its checkout between two calls. The
    rest of the file is the one place where git commands are built: the hardening flags, the
    credential variables, the choice between the host and a guest. *)

From S2P Require Import Prelude RustStr RustText Sql.

Local Open Scope string_scope.
Local Open Scope list_scope.

(** ** Acts *)

(** A process as the host starts it: where, with what arguments after the program, with which
    variables set or removed (the last entry of a name counts), with what on its input. [cmd_guest]
    is a git run by the sandbox that holds the directory. *)
Record Cmd := {
  cmd_dir : string;
  cmd_guest : bool;
  cmd_args : list string;
  cmd_env : list (string * option string);
  cmd_stdin : string;
}.

(** [std::process::Output]: the exit code, absent when a signal ended the process. *)
Record Output := { o_code : option Z; o_stdout : string; o_stderr : string }.

Definition success (o : Output) : bool := eqb (o_code o) (Some 0%Z).

Inductive BoxCall :=
| TransportRepo (checkout source_repo : string)
| SyncTracking (repo checkout : string)
| ExportCommit (checkout sha : string).

Inductive ApiCall :=
| PrCreate (source_repo checkout head title body base : string)
| PrViewBranch (source_repo branch : string)
| PrMergeNumber (source_repo : string) (number : N)
| WorkflowDispatch (source_repo workflow git_ref : string) (inputs : list (string * string)).

Inductive Act :=
(** A process; no answer when it was killed at its deadline, an error when it could not run. *)
| Run (cmd : Cmd) (out : option (result Output string))
| Box (call : BoxCall)
| Api (call : ApiCall)
(** An approval asked of the user, and the refusal it ended in, if any. *)
| Prompt (agent_id op : string) (repo : option string) (detail : string) (verdict : option string).

Notation G := (M (list Act)).

Record Entry := { en_name : string; en_is_dir : bool }.

Class GitHost := {
  h_run : nat -> Cmd -> option (result Output string);
  (** [std::fs::canonicalize], [metadata().len()]; a listing, [stat().is_file] and [exists] where
      the checkout lives. *)
  h_canonicalize : nat -> string -> option string;
  h_len : nat -> string -> option N;
  h_list : nat -> string -> option (list Entry);
  h_is_file : nat -> string -> bool;
  h_exists : nat -> string -> bool;
  (** [exec::for_path]: whether a sandbox's guest holds the directory. *)
  h_remote : string -> bool;
  (** [workspace::checkouts_root], [blackboard::runs_root]. *)
  h_checkouts_root : option string;
  h_runs_root : option string;
  (** [bin_resolve::effective_env_var], and the relocation variables of the resolved git. *)
  h_shell_env : nat -> string -> option string;
  h_git_env : list (string * string);
  (** [github::client::token], [publish_prefs::branch_prefix], [is_backing_off]. *)
  h_token : nat -> option string;
  h_branch_prefix : nat -> string;
  h_backing_off : nat -> bool;
  (** The base64 alphabet of the [base64] crate. *)
  h_base64 : string -> string;
  (** [git_dist::fallback_identity]: name and email. *)
  h_fallback_identity : nat -> string * string;
  (** [std::process::id()] and the clock in nanoseconds, for scratch names. *)
  h_pid : N;
  h_nanos : nat -> N;
}.

(** A host for examples: checkouts under /w, no guests, no token; git answers as given. *)
Definition plain_host (answer : nat -> Cmd -> option (result Output string)) : GitHost := {|
  h_run := answer;
  h_canonicalize _ p := Some p; h_len _ _ := None; h_list _ _ := None;
  h_is_file _ _ := false; h_exists _ _ := false; h_remote _ := false;
  h_checkouts_root := Some "/w"; h_runs_root := None;
  h_shell_env _ _ := None; h_git_env := []; h_token _ := None; h_branch_prefix _ := "";
  h_backing_off _ := false; h_base64 s := s; h_fallback_identity _ := ("", ""); h_pid := 1%N;
  h_nanos n := N.of_nat n;
|}.

Definition exited (code : Z) (stdout : string) : option (result Output string) :=
  Some (Ok {| o_code := Some code; o_stdout := stdout; o_stderr := "" |}).

(** Reading the host's state: numbered like everything else, but not an act. *)
Definition look {A} (f : nat -> A) : G A := fun c =>
  (Ok (f (c_tick c)), {| c_db := c_db c; c_tick := S (c_tick c) |}).

Definition act (a : Act) : G () := fun c =>
  (Ok (), {| c_db := c_db c ++ [a]; c_tick := S (c_tick c) |}).

(** ** Errors as they display *)

Definition git_error (s : string) : string := "git command failed: " +:+ s.
Definition gh_error (s : string) : string := "github: " +:+ s.
Definition io_error (s : string) : string := "io error: " +:+ s.

(** ** Building a command *)

Definition NEUTRALISED : list (string * string) :=
  [ ("core.hooksPath", "/dev/null");
    ("core.fsmonitor", "false");
    ("core.pager", "cat");
    ("core.editor", "false");
    ("sequence.editor", "false");
    ("submodule.recurse", "false");
    ("fetch.recurseSubmodules", "no");
    ("push.recurseSubmodules", "no") ].

Definition NO_IMPLICIT_SIGNING : list (string * string) :=
  [ ("commit.gpgsign", "false"); ("tag.gpgsign", "false") ].

Definition c_flags (rows : list (string * string)) : list string :=
  flat_map (fun '(k, v) => ["-c"; k +:+ "=" +:+ v]) rows.

Definition config_overrides : list string := c_flags NEUTRALISED.

Definition config_overrides_scoped (agent_writable : bool) : list string :=
  config_overrides ++ if agent_writable then c_flags NO_IMPLICIT_SIGNING else [].

Definition HELPER_ENV : list string := ["PATH"].
Definition CREDENTIAL_ENV : list string := ["SSH_AUTH_SOCK"; "GNUPGHOME"].

Section Spawning.
Context `{GitHost}.

(** Run to completion; no deadline, so only an I/O error stops it. *)
Definition run (cmd : Cmd) : G (option (result Output string)) := fun c =>
  let out := h_run (c_tick c) cmd in
  (Ok out, {| c_db := c_db c ++ [Run cmd out]; c_tick := S (c_tick c) |}).

(** [cmd.output().await?]. *)
Definition output (cmd : Cmd) : G Output :=
  let* out := run cmd in
  match out with
  | Some (Ok o) => ret o
  | Some (Err e) => err (io_error e)
  | None => err (io_error "killed")
  end.

(** The same under a deadline, killing the process when it passes. *)
Definition output_within (cmd : Cmd) (expired : string) : G Output :=
  let* out := run cmd in
  match out with
  | Some (Ok o) => ret o
  | Some (Err e) => err (io_error e)
  | None => err expired
  end.

Definition is_inside (dir root : string) : G bool :=
  let* d := look (fun n => h_canonicalize n dir) in
  let* r := look (fun n => h_canonicalize n root) in
  ret (match d, r with Some d, Some r => path_starts_with d r | _, _ => false end).

Fixpoint find_root (dir : string) (roots : list string) : G (option string) :=
  match roots with
  | [] => ret None
  | root :: roots =>
      let* inside := is_inside dir root in
      if inside then ret (Some root) else find_root dir roots
  end.

Definition agent_writable_root (dir : string) : G (option string) :=
  find_root dir (option_list h_checkouts_root ++ option_list h_runs_root).

Definition agent_writable (dir : string) : G bool :=
  let* root := agent_writable_root dir in ret (is_some root).

Definition config_overrides_for (dir : string) : G (list string) :=
  let* aw := agent_writable dir in ret (config_overrides_scoped aw).

(** Variables the programs git runs read: set from the login shell, or removed; the credentials
    are removed unless the directory is trusted. *)
Fixpoint shell_vars (names : list string) : G (list (string * option string)) :=
  match names with
  | [] => ret []
  | name :: names =>
      let* v := look (fun n => h_shell_env n name) in
      let* rest := shell_vars names in
      ret ((name, v) :: rest)
  end.

Definition helper_env (trusted : bool) : G (list (string * option string)) :=
  let* helper := shell_vars HELPER_ENV in
  if trusted then
    let* credential := shell_vars CREDENTIAL_ENV in ret (helper ++ credential)
  else ret (helper ++ ((fun name => (name, None)) <$> CREDENTIAL_ENV)).

Definition set_env (env : list (string * string)) : list (string * option string) :=
  (fun '(k, v) => (k, Some v)) <$> env.

Definition resolved (dir : string) (trusted : bool) : G Cmd :=
  let* helper := helper_env trusted in
  let* overrides := config_overrides_for dir in
  ret {| cmd_dir := dir; cmd_guest := false; cmd_args := overrides;
         cmd_env := helper ++ set_env h_git_env; cmd_stdin := "" |}.

Definition with_env (cmd : Cmd) (env : list (string * string)) : Cmd := {|
  cmd_dir := cmd_dir cmd; cmd_guest := cmd_guest cmd; cmd_args := cmd_args cmd;
  cmd_env := cmd_env cmd ++ set_env env; cmd_stdin := cmd_stdin cmd;
|}.

Definition with_args (cmd : Cmd) (args : list string) : Cmd := {|
  cmd_dir := cmd_dir cmd; cmd_guest := cmd_guest cmd; cmd_args := cmd_args cmd ++ args;
  cmd_env := cmd_env cmd; cmd_stdin := cmd_stdin cmd;
|}.

Definition with_stdin (cmd : Cmd) (input : string) : Cmd := {|
  cmd_dir := cmd_dir cmd; cmd_guest := cmd_guest cmd; cmd_args := cmd_args cmd;
  cmd_env := cmd_env cmd; cmd_stdin := input;
|}.

Definition command_env (dir : string) (env : list (string * string)) : G Cmd :=
  if h_remote dir then
    let* overrides := config_overrides_for dir in
    ret {| cmd_dir := dir; cmd_guest := true; cmd_args := overrides; cmd_env := set_env env;
           cmd_stdin := "" |}
  else
    let* aw := agent_writable dir in
    let* cmd := resolved dir (negb aw) in
    ret (with_env cmd env).

Definition command (dir : string) : G Cmd := command_env dir [].

(** [github::git_auth_env]: the app's token, for https to github.com only. *)
Definition git_auth_env : G (list (string * string)) :=
  let* token := look h_token in
  match token with
  | None => ret []
  | Some token =>
      ret [ ("GIT_CONFIG_COUNT", "1");
            ("GIT_CONFIG_KEY_0", "http.https://github.com/.extraheader");
            ("GIT_CONFIG_VALUE_0",
             "AUTHORIZATION: basic " +:+ h_base64 ("x-access-token:" +:+ token)) ]
  end.

End Spawning.

(** The variable as the process sees it: set, removed, or (nothing said) inherited. *)
Definition env_of (cmd : Cmd) (name : string) : option (option string) :=
  snd <$> last (lfilter (fun e => String.eqb e.1 name) (cmd_env cmd)).

(** ** Reasoning about acts

    [during m R]: whatever came before and whatever the host answers, [m] runs from one moment to a
    later one, adds acts [l] and ends in [r] with [R l r], told the two moments. [acts m R] is the
    same for what does not depend on the time. *)
Definition during {A} (m : G A) (R : nat -> nat -> list Act -> result A string -> Prop) : Prop :=
  forall c, exists l, c_db (m c).2 = c_db c ++ l /\ c_tick c <= c_tick (m c).2 /\
                      R (c_tick c) (c_tick (m c).2) l (m c).1.

Definition acts {A} (m : G A) (R : list Act -> result A string -> Prop) : Prop :=
  during m (fun _ _ => R).

Lemma during_mono {A} (m : G A) (R R' : nat -> nat -> list Act -> result A string -> Prop) :
  during m R -> (forall n n' l r, n <= n' -> R n n' l r -> R' n n' l r) -> during m R'.
Proof. intros Hm HR c. destruct (Hm c) as (l & E & Hn & Hl). eauto 6. Qed.

(** Backward through a sequence, whose parts meet at a moment. *)
Lemma during_bind {A B} (m : G A) (k : A -> G B) (R : nat -> nat -> list Act -> result B string -> Prop) :
  during m (fun n n1 l r => match r with
                     | Ok a => during (k a) (fun n1' n' l' r' => n1' = n1 -> R n n' (l ++ l') r')
                     | Err e => R n n1 l (Err e)
                     end) ->
  during (bind m k) R.
Proof.
  intros Hm c. unfold bind. destruct (Hm c) as (l & E & Hn & Hl). destruct (m c) as [[a|e] c'].
  - destruct (Hl c') as (l' & E' & Hn' & Hl'). exists (l ++ l'). cbn [snd fst] in *.
    rewrite E', E, <-app_assoc. split; [done|]. split; [lia|]. by apply Hl'.
  - by exists l.
Qed.

Lemma during_and {A} (m : G A) R R' :
  during m R -> during m R' -> during m (fun n n' l r => R n n' l r /\ R' n n' l r).
Proof.
  intros Hm Hm' c. destruct (Hm c) as (l & E & Hn & Hl), (Hm' c) as (l' & E' & _ & Hl').
  assert (l' = l) as ->; [|eauto]. rewrite E in E'. by apply app_inv_head in E'.
Qed.

Lemma during_look {A} (f : nat -> A) (R : nat -> nat -> list Act -> result A string -> Prop) :
  (forall n, R n (S n) [] (Ok (f n))) -> during (look f) R.
Proof. intros HR c. exists []. rewrite app_nil_r. split; [done|]. split; [cbn; lia|]. apply HR. Qed.

Lemma during_ret {A} (a : A) (R : nat -> nat -> list Act -> result A string -> Prop) :
  (forall n, R n n [] (Ok a)) -> during (ret a) R.
Proof. intros HR c. exists []. rewrite app_nil_r. split; [done|]. split; [done|]. apply HR. Qed.

Lemma during_err {A} e (R : nat -> nat -> list Act -> result A string -> Prop) :
  (forall n, R n n [] (Err e)) -> during (err e) R.
Proof. intros HR c. exists []. rewrite app_nil_r. split; [done|]. split; [done|]. apply HR. Qed.

Lemma during_act a (R : nat -> nat -> list Act -> result () string -> Prop) :
  (forall n, R n (S n) [a] (Ok ())) -> during (act a) R.
Proof. intros HR c. exists [a]. split; [done|]. split; [cbn; lia|]. apply HR. Qed.

Lemma acts_mono {A} (m : G A) (R R' : list Act -> result A string -> Prop) :
  acts m R -> (forall l r, R l r -> R' l r) -> acts m R'.
Proof. intros Hm HR. eapply during_mono; [exact Hm|]. cbn. eauto. Qed.

Lemma acts_ret {A} (a : A) (R : list Act -> result A string -> Prop) : R [] (Ok a) -> acts (ret a) R.
Proof. intros HR. by apply during_ret. Qed.

Lemma acts_lift {A} (r : result A string) (R : list Act -> result A string -> Prop) : R [] r -> acts (lift r) R.
Proof. intros HR c. exists []. by rewrite app_nil_r. Qed.

Lemma acts_err {A} e (R : list Act -> result A string -> Prop) : R [] (Err e) -> acts (err e) R.
Proof. intros HR. by apply (acts_lift (Err e)). Qed.

Lemma acts_look {A} (f : nat -> A) (R : list Act -> result A string -> Prop) :
  (forall n, R [] (Ok (f n))) -> acts (look f) R.
Proof. intros HR. by apply during_look. Qed.

Lemma acts_act a (R : list Act -> result () string -> Prop) : R [a] (Ok ()) -> acts (act a) R.
Proof. intros HR. by apply during_act. Qed.

Lemma acts_run `{GitHost} cmd (R : list Act -> result (option (result Output string)) string -> Prop) :
  (forall out, R [Run cmd out] (Ok out)) -> acts (run cmd) R.
Proof. intros HR c. eexists. split; [reflexivity|]. split; [cbn; lia|]. apply HR. Qed.

(** Backward through a sequence. *)
Lemma acts_bind {A B} (m : G A) (k : A -> G B) (R : list Act -> result B string -> Prop) :
  acts m (fun l r => match r with
                     | Ok a => acts (k a) (fun l' r' => R (l ++ l') r')
                     | Err e => R l (Err e)
                     end) ->
  acts (bind m k) R.
Proof.
  intros Hm. apply during_bind. eapply during_mono; [exact Hm|]. intros n n1 l [a|e] _ Hl; [|done].
  eapply during_mono; [exact Hl|]. cbn. auto.
Qed.

Lemma acts_assoc {A B C} (m : G A) (k : A -> G B) (k' : B -> G C) R :
  acts (bind (bind m k) k') R -> acts (bind m (fun a => bind (k a) k')) R.
Proof. intros Hm c. specialize (Hm c). unfold bind in *. by destruct (m c) as [[a|e] c']. Qed.

Lemma acts_attempt {A} (m : G A) (R : list Act -> result (result A string) string -> Prop) :
  acts m (fun l r => R l (Ok r)) -> acts (attempt m) R.
Proof. intros Hm c. unfold attempt. destruct (Hm c) as (l & E & Hn & Hl). destruct (m c). eauto. Qed.

Lemma acts_attempted {A} (m : G A) (R : list Act -> result A string -> Prop) :
  acts m R -> acts (attempt m) (fun l r => exists r', r = Ok r' /\ R l r').
Proof. intros Hm. apply acts_attempt. eapply acts_mono; [exact Hm|]. eauto. Qed.

Lemma acts_attempt_ok {A} (m : G A) (R : list Act -> result (option A) string -> Prop) :
  acts m (fun l r => R l (Ok (match r with Ok a => Some a | Err _ => None end))) -> acts (attempt_ok m) R.
Proof. intros Hm c. unfold attempt_ok. destruct (Hm c) as (l & E & Hn & Hl). destruct (m c). eauto. Qed.

Lemma acts_and {A} (m : G A) R R' : acts m R -> acts m R' -> acts m (fun l r => R l r /\ R' l r).
Proof. apply during_and. Qed.

(** [emits P Q m]: every act of [m] satisfies [P], and what it returns satisfies [Q]. *)
Definition emits {A} (P : Act -> Prop) (Q : A -> Prop) (m : G A) : Prop :=
  acts m (fun l r => Forall P l /\ forall a, r = Ok a -> Q a).

Definition quiet {A} (P : Act -> Prop) (m : G A) : Prop := emits P (fun _ => True) m.

Section Emits.
Context (P : Act -> Prop).

Lemma emits_mono {A} (Q Q' : A -> Prop) m :
  emits P Q m -> (forall a, Q a -> Q' a) -> emits P Q' m.
Proof. intros Hm HQ. eapply acts_mono; [exact Hm|]. intros l r [Hl Hr]. split; [done|]. eauto. Qed.

Lemma emits_ret {A} (Q : A -> Prop) a : Q a -> emits P Q (ret a).
Proof. intros HQ. apply acts_ret. split; [constructor|]. by intros ? [= <-]. Qed.

Lemma emits_err {A} (Q : A -> Prop) e : emits P Q (err e).
Proof. apply acts_err. split; [constructor|done]. Qed.

Lemma emits_look {A} (Q : A -> Prop) f : (forall n, Q (f n)) -> emits P Q (look f).
Proof.
  intros HQ. apply acts_look. intros n. split; [constructor|]. by intros ? [= <-].
Qed.

Lemma emits_act (Q : () -> Prop) a : P a -> Q () -> emits P Q (act a).
Proof. intros HP HQ. apply acts_act. split; [by constructor|]. by intros [] _. Qed.

Lemma emits_bind {A B} (R : A -> Prop) (Q : B -> Prop) (m : G A) (k : A -> G B) :
  emits P R m -> (forall a, R a -> emits P Q (k a)) -> emits P Q (bind m k).
Proof.
  intros Hm Hk. apply acts_bind. eapply acts_mono; [exact Hm|]. intros l [a|e] [Hl Hr]; [|done].
  eapply acts_mono; [by apply Hk, Hr|]. intros l' r' [Hl' Hr']. by rewrite Forall_app.
Qed.

Lemma emits_attempt {A} (Q : result A string -> Prop) (R : A -> Prop) m :
  emits P R m -> (forall a, R a -> Q (Ok a)) -> (forall e, Q (Err e)) -> emits P Q (attempt m).
Proof.
  intros Hm HQ HE. apply acts_attempt. eapply acts_mono; [exact Hm|]. intros l r [Hl Hr].
  split; [done|]. intros ? [= <-]. destruct r; eauto.
Qed.

Lemma emits_attempt_ok {A} (Q : option A -> Prop) (R : A -> Prop) m :
  emits P R m -> (forall a, R a -> Q (Some a)) -> Q None -> emits P Q (attempt_ok m).
Proof.
  intros Hm HQ HE. apply acts_attempt_ok. eapply acts_mono; [exact Hm|]. intros l r [Hl Hr].
  split; [done|]. intros ? [= <-]. destruct r; eauto.
Qed.

Lemma emits_lift {A} (Q : A -> Prop) r : (forall a, r = Ok a -> Q a) -> emits P Q (lift r).
Proof. intros HQ. apply acts_lift. by split; [constructor|]. Qed.

Lemma emits_run `{GitHost} (Q : _ -> Prop) cmd :
  (forall out, P (Run cmd out)) -> (forall out, Q out) -> emits P Q (run cmd).
Proof. intros HP HQ. apply acts_run. intros out. split; [by constructor|]. naive_solver. Qed.

Lemma emits_output `{GitHost} (Q : Output -> Prop) cmd :
  (forall out, P (Run cmd out)) -> (forall out, Q out) -> emits P Q (output cmd).
Proof.
  intros HP HQ. eapply emits_bind; [by apply (emits_run (fun _ => True))|].
  intros [[o|e]|] _; [by apply emits_ret|apply emits_err..].
Qed.

Lemma emits_output_within `{GitHost} (Q : Output -> Prop) cmd e :
  (forall out, P (Run cmd out)) -> (forall out, Q out) -> emits P Q (output_within cmd e).
Proof.
  intros HP HQ. eapply emits_bind; [by apply (emits_run (fun _ => True))|].
  intros [[o|e']|] _; [by apply emits_ret|apply emits_err..].
Qed.

(** [quiet] composes without annotations. *)
Lemma quiet_bind {A B} (m : G A) (k : A -> G B) :
  quiet P m -> (forall a, quiet P (k a)) -> quiet P (bind m k).
Proof. intros Hm Hk. eapply emits_bind; [exact Hm|]. intros a _. apply Hk. Qed.

Lemma quiet_bind_emits {A B} (Q : B -> Prop) (m : G A) (k : A -> G B) :
  quiet P m -> (forall a, emits P Q (k a)) -> emits P Q (bind m k).
Proof. intros Hm Hk. eapply emits_bind; [exact Hm|]. intros a _. apply Hk. Qed.

Lemma emits_quiet {A} Q (m : G A) : emits P Q m -> quiet P m.
Proof. intros Hm. by eapply emits_mono. Qed.

Lemma quiet_ret {A} (a : A) : quiet P (ret a).
Proof. by apply emits_ret. Qed.

Lemma quiet_err {A} e : quiet P (err e : G A).
Proof. apply emits_err. Qed.

Lemma quiet_look {A} (f : nat -> A) : quiet P (look f).
Proof. by apply emits_look. Qed.

Lemma quiet_act a : P a -> quiet P (act a).
Proof. intros HP. by apply emits_act. Qed.

Lemma quiet_attempt {A} (m : G A) : quiet P m -> quiet P (attempt m).
Proof. intros Hm. by eapply emits_attempt. Qed.

Lemma quiet_attempt_ok {A} (m : G A) : quiet P m -> quiet P (attempt_ok m).
Proof. intros Hm. by eapply emits_attempt_ok. Qed.

Lemma quiet_lift {A} (r : result A string) : quiet P (lift r).
Proof. by apply emits_lift. Qed.
End Emits.

Lemma emits_weaken {A} (P P' : Act -> Prop) (Q : A -> Prop) m :
  emits P Q m -> (forall a, P a -> P' a) -> emits P' Q m.
Proof.
  intros Hm HP. eapply acts_mono; [exact Hm|]. intros l r [Hl Hr]. split; [|done].
  eapply Forall_impl; [exact Hl|done].
Qed.

#[export] Hint Resolve quiet_ret quiet_err quiet_look quiet_lift : fletch.

(** Walk a program whose every act satisfies a property; the hint database knows its parts. *)
Ltac quieting :=
  repeat first
    [ solve [auto with fletch]
    | progress intros
    | apply quiet_bind
    | apply quiet_attempt
    | apply quiet_attempt_ok
    | apply quiet_act
    | match goal with |- quiet _ (match ?x with _ => _ end) => destruct x end
    | match goal with |- quiet _ (let '(_, _) := ?x in _) => destruct x end ].

(** *** Commands *)

Section Commands.
Context `{GitHost} (P : Act -> Prop).

Lemma quiet_is_inside dir root : quiet P (is_inside dir root).
Proof. unfold is_inside. quieting. Qed.

Lemma quiet_find_root dir roots : quiet P (find_root dir roots).
Proof.
  induction roots as [|r roots IH]; simpl; [apply quiet_ret|].
  apply quiet_bind; [apply quiet_is_inside|]. intros []; [apply quiet_ret|done].
Qed.

Lemma quiet_agent_writable_root dir : quiet P (agent_writable_root dir).
Proof. apply quiet_find_root. Qed.

Lemma quiet_agent_writable dir : quiet P (agent_writable dir).
Proof. unfold agent_writable. pose proof (quiet_agent_writable_root dir). quieting. Qed.

Lemma quiet_shell_vars names : quiet P (shell_vars names).
Proof. induction names as [|n names IH]; simpl; quieting. Qed.

Lemma quiet_git_auth_env : quiet P git_auth_env.
Proof. unfold git_auth_env. quieting. Qed.

(** What every command carries: its directory, the hardening flags first, nothing on its input. *)
Definition hardened (dir : string) (cmd : Cmd) : Prop :=
  cmd_dir cmd = dir /\ cmd_stdin cmd = "" /\ cmd_guest cmd = h_remote dir /\
  exists aw, cmd_args cmd = config_overrides_scoped aw.

Lemma emits_config_overrides_for dir :
  emits P (fun l => exists aw, l = config_overrides_scoped aw) (config_overrides_for dir).
Proof.
  unfold config_overrides_for. eapply emits_bind; [apply quiet_agent_writable|].
  intros aw _. apply emits_ret. eauto.
Qed.

Lemma emits_resolved dir trusted :
  emits P (fun cmd => cmd_dir cmd = dir /\ cmd_stdin cmd = "" /\ cmd_guest cmd = false /\
                      exists aw, cmd_args cmd = config_overrides_scoped aw) (resolved dir trusted).
Proof.
  unfold resolved. eapply emits_bind.
  { unfold helper_env. eapply quiet_bind; [apply quiet_shell_vars|]. intros ?. destruct trusted; [|quieting].
    eapply quiet_bind; [apply quiet_shell_vars|]. quieting. }
  intros ? _. eapply emits_bind; [apply emits_config_overrides_for|].
  intros ? [aw ->]. apply emits_ret. cbn. eauto.
Qed.

Lemma emits_command_env dir env : emits P (hardened dir) (command_env dir env).
Proof.
  unfold command_env, hardened. destruct (h_remote dir).
  - eapply emits_bind; [apply emits_config_overrides_for|]. intros ? [aw ->].
    apply emits_ret. cbn. eauto.
  - eapply emits_bind; [apply quiet_agent_writable|]. intros aw _.
    eapply emits_bind; [apply emits_resolved|]. intros cmd (? & ? & ? & ?). apply emits_ret. cbn. eauto.
Qed.

Lemma emits_command dir : emits P (hardened dir) (command dir).
Proof. apply emits_command_env. Qed.
End Commands.
