(* ===== verification/Hardening.v ===== *)
(** * Refusing a checkout whose config would run a program (git/hardening.rs)

    Which keys of a [git config --list] steer host-side git, the search of the submodule configs
    under [.git/modules], the refusal before every git command in an agent-writable tree, and the
    removal a user may ask for. *)

From Stdlib Require Import Ascii.
From S2P Require Import Prelude RustStr RustText Sql GitDist.

Local Open Scope string_scope.
Local Open Scope list_scope.

Definition EXEC_CONFIG : list (string * string) :=
  [ ("core", "sshcommand"); ("core", "gitproxy"); ("core", "alternaterefscommand");
    ("gpg", "program"); ("gpg", "defaultkeycommand"); ("credential", "helper");
    ("diff", "external");
    ("filter", "clean"); ("filter", "smudge"); ("filter", "process");
    ("diff", "textconv"); ("diff", "command"); ("merge", "driver");
    ("remote", "uploadpack"); ("remote", "receivepack") ].

Definition TRANSPORT_STEERING_CONFIG : list (string * string) :=
  [ ("url", "insteadof"); ("url", "pushinsteadof") ].

Definition AGENT_WRITABLE_SCOPES : list string := ["local"; "worktree"].

(** First and last of the pieces between dots. *)
Definition first_segment (key : string) : string :=
  match split_once "." key with Some (a, _) => a | None => key end.

Definition executes_a_program (key : string) : bool :=
  existsb (fun '(s, l) => eq_ignore_ascii_case (first_segment key) s
                          && eq_ignore_ascii_case (after_last "." key) l)
    (EXEC_CONFIG ++ TRANSPORT_STEERING_CONFIG).

(** One line of the listing: the key it would be refused over. *)
Definition steerable_line (line : string) : option string :=
  match split_once tab_byte line with
  | None => None
  | Some (scope, entry) =>
      if lcontains AGENT_WRITABLE_SCOPES (trim scope) then
        let key := trim (match split_once "=" entry with Some (k, _) => k | None => entry end) in
        if negb (is_empty key) && executes_a_program key then Some key else None
      else None
  end.

Fixpoint dedup (seen keys : list string) : list string :=
  match keys with
  | [] => []
  | k :: keys => if lcontains seen k then dedup seen keys else k :: dedup (k :: seen) keys
  end.

Definition steerable_keys (listing : string) : list string :=
  dedup [] (omap steerable_line (lines listing)).

(** ** The submodules' configs *)

Record SubmoduleConfig := { sm_path : string; sm_name : string }.

Definition MAX_DEPTH : nat := 8.
Definition MAX_ENTRIES : nat := 10000.

Record Walk := {
  wk_visited : nat;
  wk_pending : list (string * nat);
  wk_found : list SubmoduleConfig;
}.

Section Refusal.
Context `{GitHost}.

Definition lossy_out (o : Output) : string := from_utf8_lossy (o_stdout o).
Definition lossy_err (o : Output) : string := trim (from_utf8_lossy (o_stderr o)).

(** The entries of one directory; [inl] stops the whole search. *)
Fixpoint scan_entries (common root : string) (depth : nat) (entries : list Entry) (w : Walk)
    : G (list SubmoduleConfig + Walk) :=
  match entries with
  | [] => ret (inr w)
  | e :: entries =>
      let visited := S (wk_visited w) in
      if (MAX_ENTRIES <? visited)%nat then ret (inl (wk_found w))
      else
        let path := path_join root (en_name e) in
        let w := {| wk_visited := visited; wk_pending := wk_pending w; wk_found := wk_found w |} in
        if en_is_dir e then
          scan_entries common root depth entries
            (if (depth <? MAX_DEPTH)%nat
             then {| wk_visited := visited; wk_pending := (path, S depth) :: wk_pending w;
                     wk_found := wk_found w |}
             else w)
        else
          let* is_config :=
            if String.eqb (en_name e) "config" then
              let* file := look (fun n => h_is_file n path) in
              if file then look (fun n => h_exists n (path_join root "HEAD")) else ret false
            else ret false in
          let name := match strip_prefix (path_join common "") path with
                      | Some rest => rest
                      | None => path
                      end in
          scan_entries common root depth entries
            (if is_config : bool
             then {| wk_visited := visited; wk_pending := wk_pending w;
                     wk_found := wk_found w ++ [{| sm_path := path; sm_name := name |}] |}
             else w)
  end.

Definition sort_configs (l : list SubmoduleConfig) : list SubmoduleConfig :=
  sort_by (fun a b => String.leb (sm_name a) (sm_name b)) l.

(** The stack of directories still to list; [None] when the fuel ran out. *)
Fixpoint walk (fuel : nat) (common : string) (w : Walk) : G (option (list SubmoduleConfig)) :=
  match fuel with
  | O => ret None
  | S fuel =>
      match wk_pending w with
      | [] => ret (Some (sort_configs (wk_found w)))
      | (root, depth) :: pending =>
          let w := {| wk_visited := wk_visited w; wk_pending := pending; wk_found := wk_found w |} in
          let* entries := look (fun n => h_list n root) in
          match entries with
          | None => walk fuel common w
          | Some entries =>
              let* r := scan_entries common root depth entries w in
              match r with
              | inl found => ret (Some found)
              | inr w => walk fuel common w
              end
          end
      end
  end.

(** Every directory listed beyond the first was an entry counted. *)
Definition walk_fuel : nat := MAX_ENTRIES + 2.

Definition submodule_configs (dir : string) : G (list SubmoduleConfig) :=
  let* cmd := command dir in
  let* out :=
    attempt_ok (output (with_args cmd ["rev-parse"; "--path-format=absolute"; "--git-common-dir"])) in
  match opt_filter success out with
  | None => ret []
  | Some out =>
      let common := trim (lossy_out out) in
      let start := {| wk_visited := 0; wk_pending := [(path_join common "modules", 0)];
                      wk_found := [] |} in
      let* found := walk walk_fuel common start in
      ret (default [] found)
  end.

(** ** The refusal *)

(** The keys of each submodule's config, reported under the file's name. *)
Fixpoint submodule_keys (dir : string) (files : list SubmoduleConfig) : G (list string) :=
  match files with
  | [] => ret []
  | file :: files =>
      let* cmd := command dir in
      let* out :=
        output (with_args cmd ["config"; "--file"; sm_path file; "--list"; "--includes"]) in
      let listing := concat ((fun line => "local" +:+ tab +:+ line +:+ newline) <$> lines (lossy_out out)) in
      let keys :=
        if success out then (fun key => sm_name file +:+ ": " +:+ key) <$> steerable_keys listing
        else [] in
      let* rest := submodule_keys dir files in
      ret (keys ++ rest)
  end.

Definition steerable_config_under (dir root : string) : G (list string) :=
  let* inside := is_inside dir root in
  if inside then
    let* cmd := command dir in
    let* out := output (with_args cmd ["config"; "--list"; "--show-scope"; "--includes"]) in
    if success out then
      let keys := steerable_keys (lossy_out out) in
      let* files := submodule_configs dir in
      let* more := submodule_keys dir files in
      ret (keys ++ more)
    else ret []
  else ret [].

Definition steerable_config (dir : string) : G (list string) :=
  let* root := agent_writable_root dir in
  match root with
  | Some root => steerable_config_under dir root
  | None => ret []
  end.

Definition refuse (dir : string) (offending : list string) : G () :=
  match offending with
  | [] => ret ()
  | _ =>
      err (git_error ("refusing to run git in " +:+ dir
             +:+ ": its config would execute a program (" +:+ join ", " offending
             +:+ "). Fletch will not act on this checkout until those settings are removed."))
  end.

Definition refuse_steerable_config (dir : string) : G () :=
  let* keys := steerable_config dir in refuse dir keys.

Definition config_is_safe (dir : string) : G bool :=
  let* r := attempt (refuse_steerable_config dir) in
  ret (match r with Ok _ => true | Err _ => false end).

(** [.split_once(": ")] *)
Fixpoint split_colon (s : string) : option (string * string) :=
  match strip_prefix ": " s with
  | Some rest => Some ("", rest)
  | None =>
      match s with
      | EmptyString => None
      | String b s => (fun '(x, y) => (String b x, y)) <$> split_colon s
      end
  end.

Fixpoint unset_in_scopes (dir key : string) (scopes : list string) : G () :=
  match scopes with
  | [] => ret ()
  | scope :: scopes =>
      let* cmd := command dir in
      let* _ := output (with_args cmd ["config"; scope; "--unset-all"; key]) in
      unset_in_scopes dir key scopes
  end.

Fixpoint remove_each (dir : string) (submodules : list SubmoduleConfig) (entries : list string) : G () :=
  match entries with
  | [] => ret ()
  | entry :: entries =>
      let* _ :=
        match split_colon entry with
        | Some (file, key) =>
            match lfind (fun s => String.eqb (sm_name s) file) submodules with
            | Some sub =>
                let* cmd := command dir in
                let* _ :=
                  output (with_args cmd ["config"; "--file"; sm_path sub; "--unset-all"; key]) in
                ret ()
            | None => ret ()
            end
        | None => unset_in_scopes dir entry ["--local"; "--worktree"]
        end in
      remove_each dir submodules entries
  end.

Definition remove_steerable_config_under (dir root : string) : G () :=
  let* submodules := submodule_configs dir in
  let* entries := steerable_config_under dir root in
  let* _ := remove_each dir submodules entries in
  let* left_over := steerable_config_under dir root in
  match left_over with
  | [] => ret ()
  | _ =>
      err (git_error ("could not remove " +:+ join ", " left_over +:+ " from " +:+ dir
             +:+ ": they are likely set in a file its config includes (include.path). Remove them by hand."))
  end.

Definition remove_steerable_config (dir : string) : G () :=
  let* root := agent_writable_root dir in
  match root with
  | Some root => remove_steerable_config_under dir root
  | None => ret ()
  end.

End Refusal.

(** ** Which keys are caught *)

Lemma dedup_spec seen keys k : k ∈ dedup seen keys <-> k ∈ keys /\ k ∉ seen.
Proof.
  revert seen. induction keys as [|x keys IH]; intros seen; cbn [dedup]; [set_solver|].
  destruct (lcontains seen x) eqn:E.
  - apply lcontains_true in E. rewrite IH. set_solver.
  - assert (x ∉ seen) by (intros Hx; by apply lcontains_true in Hx; rewrite E in Hx).
    rewrite elem_of_cons, IH. destruct (decide (k = x)) as [->|]; set_solver.
Qed.

Lemma steerable_keys_spec listing k :
  k ∈ steerable_keys listing <->
  exists line, line ∈ lines listing /\ steerable_line line = Some k.
Proof.
  unfold steerable_keys. rewrite dedup_spec, list_elem_of_omap. set_solver.
Qed.

Lemma after_last_free c s : free_of c s = true -> after_last c s = s.
Proof.
  destruct s as [|b s]; [done|]. cbn [free_of after_last].
  intros [Hb Hs]%andb_true_iff. rewrite negb_true_iff in Hb. by rewrite Hb, split_once_None.
Qed.

Lemma after_last_piece c s t : free_of c t = true -> after_last c (s +:+ String c t) = t.
Proof.
  intros Ht. induction s as [|b s IH].
  - rewrite append_nil. cbn [after_last]. rewrite Ascii.eqb_refl. by apply after_last_free.
  - rewrite append_cons. cbn [after_last]. destruct (Ascii.eqb b c); [done|].
    destruct (split_once c (s +:+ String c t)) eqn:E; [done|].
    exfalso. clear -E. induction s as [|b' s IH].
    + rewrite append_nil in E. cbn [split_once] in E. by rewrite Ascii.eqb_refl in E.
    + rewrite append_cons in E. cbn [split_once] in E. destruct (Ascii.eqb b' c); [done|].
      destruct (split_once c (s +:+ String c t)); [done|]. by apply IH.
Qed.

(** [section.subsection.leaf], or [section.leaf]. *)
Definition config_key (section : string) (subsection : option string) (leaf : string) : string :=
  section +:+ "." +:+ match subsection with Some sub => sub +:+ "." +:+ leaf | None => leaf end.

Lemma config_key_segments section sub leaf :
  free_of "." section = true -> free_of "." leaf = true ->
  first_segment (config_key section sub leaf) = section
  /\ after_last "." (config_key section sub leaf) = leaf.
Proof.
  intros Hs Hl. unfold config_key, first_segment. split.
  - change ("." +:+ ?x) with (String "." x). by rewrite split_once_app.
  - destruct sub as [sub|].
    + rewrite !append_assoc. rewrite <-append_assoc.
      change ("." +:+ leaf) with (String "." leaf). by apply after_last_piece.
    + change ("." +:+ leaf) with (String "." leaf). by apply after_last_piece.
Qed.

Lemma free_of_lower c s :
  (forall b, Ascii.eqb (lower_byte b) c = Ascii.eqb b c) ->
  free_of c (to_ascii_lowercase s) = free_of c s.
Proof.
  intros Hc. induction s as [|b s IH]; [done|].
  unfold to_ascii_lowercase in *. cbn [map_bytes free_of]. by rewrite Hc, IH.
Qed.

Lemma dot_free_lower s : free_of "." (to_ascii_lowercase s) = free_of "." s.
Proof. apply free_of_lower. intros [[] [] [] [] [] [] [] []]; reflexivity. Qed.

Lemma table_dot_free s l x :
  (s, l) ∈ EXEC_CONFIG ++ TRANSPORT_STEERING_CONFIG ->
  eq_ignore_ascii_case x s = true \/ eq_ignore_ascii_case x l = true -> free_of "." x = true.
Proof.
  unfold eq_ignore_ascii_case. rewrite !String.eqb_eq. intros Hin Hx.
  rewrite <-dot_free_lower.
  assert (free_of "." (to_ascii_lowercase s) = true /\ free_of "." (to_ascii_lowercase l) = true) as [? ?].
  { revert Hin. rewrite list_elem_of_In. cbn [In app EXEC_CONFIG TRANSPORT_STEERING_CONFIG].
    intros Hin. repeat (destruct Hin as [[= <- <-]|Hin]; [by split|]). done. }
  destruct Hx as [->| ->]; done.
Qed.

(** (C33) A key that names a program or redirects a local fetch is refused however its section and leaf
    are spelled, under every subsection that holds no `=`, in every scope an agent can write. A
    subsection that does hold one escapes: [equals_in_subsection_escapes]. The key is one git prints on
    one line, with no blank at its ends. *)
Theorem planted_key_is_caught listing scope s l section sub leaf value :
  (s, l) ∈ EXEC_CONFIG ++ TRANSPORT_STEERING_CONFIG ->
  eq_ignore_ascii_case section s = true -> eq_ignore_ascii_case leaf l = true ->
  let key := config_key section sub leaf in
  free_of "=" key = true -> trim key = key ->
  scope ∈ AGENT_WRITABLE_SCOPES ->
  (scope +:+ tab +:+ key +:+ "=" +:+ value) ∈ lines listing ->
  key ∈ steerable_keys listing.
Proof.
  intros Hin Hs Hl key Hfree Htrim Hscope Hline. apply steerable_keys_spec.
  exists (scope +:+ tab +:+ key +:+ "=" +:+ value). split; [done|].
  assert (free_of "." section = true /\ free_of "." leaf = true) as [Hds Hdl]
    by (split; eapply table_dot_free; eauto).
  destruct (config_key_segments section sub leaf Hds Hdl) as [Hfirst Hlast].
  unfold steerable_line, tab. rewrite append_cons, append_nil.
  assert (free_of tab_byte scope = true /\ lcontains AGENT_WRITABLE_SCOPES (trim scope) = true) as [Ht Hc].
  { revert Hscope. unfold AGENT_WRITABLE_SCOPES. rewrite !elem_of_cons, elem_of_nil.
    intros [->|[->|[]]]; by compute. }
  rewrite (split_once_app _ _ _ Ht), Hc. change ("=" +:+ value) with (String "=" value).
  rewrite (split_once_app _ _ _ Hfree), Htrim.
  assert (executes_a_program key = true) as ->.
  { unfold executes_a_program. apply existsb_exists. exists (s, l). split; [by apply list_elem_of_In|].
    unfold key. by rewrite Hfirst, Hlast, Hs, Hl. }
  assert (is_empty key = false) as ->; [|done].
  unfold key, config_key. by destruct section.
Qed.

Example planted_key_is_caught_witness :
  config_key "Filter" (Some "lfs.x") "CLEAN"
  ∈ steerable_keys ("local" +:+ tab +:+ "Filter.lfs.x.CLEAN=sh -c evil" +:+ newline).
Proof.
  refine (planted_key_is_caught _ "local" "filter" "clean" "Filter" (Some "lfs.x") "CLEAN"
            "sh -c evil" _ _ _ _ _ _ _).
  - apply list_elem_of_In. vm_compute. tauto.
  - vm_compute. reflexivity.
  - vm_compute. reflexivity.
  - vm_compute. reflexivity.
  - vm_compute. reflexivity.
  - apply list_elem_of_In. vm_compute. tauto.
  - apply list_elem_of_In. vm_compute. tauto.
Defined.

(** Git lets a subsection hold an `=`, and [git config --list] prints it as it is: the key is read up to
    it, and a filter so named is not refused, although git runs it for `filter=a=b` of a
    [.gitattributes]. *)
Lemma equals_in_subsection_escapes :
  config_key "filter" (Some "a=b") "clean" = "filter.a=b.clean" /\
  steerable_keys ("local" +:+ tab +:+ "filter.a=b.clean=sh -c evil" +:+ newline) = [] /\
  steerable_keys ("local" +:+ tab +:+ "filter.ab.clean=sh -c evil" +:+ newline) = ["filter.ab.clean"].
Proof. split_and!; vm_compute; reflexivity. Qed.

(** What is refused is in a scope the agent can write: the user's own settings never are. *)
Lemma steerable_keys_scoped listing k :
  k ∈ steerable_keys listing ->
  exists scope entry, (scope +:+ tab +:+ entry) ∈ lines listing
    /\ trim scope ∈ AGENT_WRITABLE_SCOPES /\ executes_a_program k = true.
Proof.
  rewrite steerable_keys_spec. intros (line & Hline & Hk). unfold steerable_line in Hk.
  destruct (split_once tab_byte line) as [[scope entry]|] eqn:E; [|done].
  destruct (lcontains _ _) eqn:Hc; [|done]. apply lcontains_true in Hc.
  apply split_once_Some in E as [-> _]. exists scope, entry.
  destruct (negb _ && _) eqn:Hx; [|done]. injection Hk as <-.
  apply andb_true_iff in Hx as [_ Hx]. split; [|done]. unfold tab.
  by rewrite append_cons, append_nil.
Qed.

(** ** The search of the submodules ends *)

Definition walk_measure (w : Walk) : nat := length (wk_pending w) + (MAX_ENTRIES - wk_visited w).

Section Walking.
Context `{GitHost} (P : Act -> Prop).

Lemma scan_entries_ends common root depth entries w c :
  wk_visited w <= MAX_ENTRIES ->
  exists r c', scan_entries common root depth entries w c = (Ok r, c') /\ c_db c' = c_db c /\
    match r with
    | inl _ => True
    | inr w' => wk_visited w' <= MAX_ENTRIES /\ walk_measure w' <= walk_measure w
    end.
Proof.
  unfold walk_measure. revert w c. induction entries as [|e entries IH]; intros w c Hw; cbn [scan_entries].
  { exists (inr w), c. split; [done|]. split; [done|]. simpl. lia. }
  destruct (MAX_ENTRIES <? S (wk_visited w))%nat eqn:Hmax; [by do 2 eexists|].
  apply Nat.ltb_ge in Hmax.
  cbv zeta. cbn [wk_visited wk_pending wk_found]. destruct (en_is_dir e).
  - destruct (depth <? MAX_DEPTH)%nat;
      match goal with |- context [scan_entries common root depth entries ?w' c] =>
        destruct (IH w' c) as (r & c' & E & Hdb & Hr); [done|]
      end;
      exists r, c'; (split; [exact E|]); (split; [done|]); destruct r; [done| |done|];
      cbn [wk_visited wk_pending length] in Hr; lia.
  - match goal with |- context [bind ?m _ c] =>
      assert (exists b c', m c = (Ok b, c') /\ c_db c' = c_db c) as (b & c1 & E & Hdb1) end.
    { destruct (String.eqb _ _); [|by do 2 eexists]. unfold bind, look. cbn [c_tick c_db].
      destruct (h_is_file _ _); by do 2 eexists. }
    unfold bind at 1. rewrite E. cbv zeta.
    match goal with |- context [scan_entries _ _ _ _ (if b then ?x else ?y)] =>
      destruct (IH (if b then x else y) c1) as (r & c' & E' & Hdb & Hr); [by destruct b|] end.
    exists r, c'. split; [exact E'|]. split; [congruence|]. destruct r; [done|].
    destruct b; cbn [wk_visited wk_pending] in Hr; lia.
Qed.

Lemma walk_ends fuel common w c :
  wk_visited w <= MAX_ENTRIES -> walk_measure w < fuel ->
  exists found c', walk fuel common w c = (Ok (Some found), c') /\ c_db c' = c_db c.
Proof.
  unfold walk_measure. revert w c. induction fuel as [|fuel IH]; intros w c Hw Hf; [lia|].
  cbn [walk]. destruct (wk_pending w) as [|[root depth] pending] eqn:Ep; [by do 2 eexists|].
  unfold bind at 1. cbn [look]. destruct (h_list _ _) as [entries|].
  - destruct (scan_entries_ends common root depth entries
      {| wk_visited := wk_visited w; wk_pending := pending; wk_found := wk_found w |}
      {| c_db := c_db c; c_tick := S (c_tick c) |} Hw) as (r & c' & E & Hdb & Hr).
    unfold bind at 1. rewrite E. destruct r as [found|w']; [by do 2 eexists|].
    unfold walk_measure in Hr. cbn [wk_visited wk_pending length] in Hr, Hf.
    destruct (IH w' c') as (found & c2 & E2 & Hdb2); [lia..|].
    exists found, c2. split; [exact E2|]. simpl in *. congruence.
  - cbn [length] in Hf.
    destruct (IH {| wk_visited := wk_visited w; wk_pending := pending; wk_found := wk_found w |}
      {| c_db := c_db c; c_tick := S (c_tick c) |}) as (found & c2 & E2 & Hdb2);
      [cbn [wk_visited wk_pending]; lia..|].
    by exists found, c2.
Qed.

(** The entries the search visits below a directory, and the configs it looks for there: files called
    `config` beside a `HEAD`, at most [levels] directories further down. *)
Fixpoint entries_below (levels : nat) (root : string) : nat :=
  match h_list 0 root with
  | None => 0
  | Some entries =>
      length entries +
      match levels with
      | O => 0
      | S levels =>
          list_sum ((fun e => if en_is_dir e then entries_below levels (path_join root (en_name e)) else 0) <$> entries)
      end
  end.

Definition is_config (root : string) (e : Entry) : bool :=
  negb (en_is_dir e) && String.eqb (en_name e) "config" && h_is_file 0 (path_join root (en_name e)) &&
  h_exists 0 (path_join root "HEAD").

Fixpoint configs_below (levels : nat) (root : string) : list string :=
  match h_list 0 root with
  | None => []
  | Some entries =>
      ((fun e => path_join root (en_name e)) <$> lfilter (is_config root) entries) ++
      match levels with
      | O => []
      | S levels =>
          flat_map (fun e => if en_is_dir e then configs_below levels (path_join root (en_name e)) else []) entries
      end
  end.

(** Nobody writes while the search runs. *)
Definition still : Prop := forall n path,
  h_list n path = h_list 0 path /\ h_is_file n path = h_is_file 0 path /\ h_exists n path = h_exists 0 path.

(** What is left to visit, and to find. *)
Definition todo (pending : list (string * nat)) : nat :=
  list_sum ((fun '(root, depth) => entries_below (MAX_DEPTH - depth) root) <$> pending).
Definition wanted (pending : list (string * nat)) (p : string) : Prop :=
  exists root depth, (root, depth) ∈ pending /\ p ∈ configs_below (MAX_DEPTH - depth) root.
Definition has (w : list SubmoduleConfig) (p : string) : Prop := exists f, f ∈ w /\ sm_path f = p.

Definition subdirs (root : string) (depth : nat) (entries : list Entry) : list (string * nat) :=
  if (depth <? MAX_DEPTH)%nat
  then (fun e => (path_join root (en_name e), S depth)) <$> lfilter en_is_dir entries else [].

Lemma scan_entries_finds common root depth entries w c :
  still -> wk_visited w + length entries <= MAX_ENTRIES ->
  exists w' c', scan_entries common root depth entries w c = (Ok (inr w'), c') /\
    wk_visited w' = wk_visited w + length entries /\
    wk_pending w' ≡ₚ subdirs root depth entries ++ wk_pending w /\
    (forall p, has (wk_found w) p -> has (wk_found w') p) /\
    (forall e, e ∈ entries -> is_config root e = true -> has (wk_found w') (path_join root (en_name e))).
Proof.
  intros Hs. revert w c. induction entries as [|e entries IH]; intros w c Hw; cbn [scan_entries].
  { exists w, c. split; [done|]. split; [by rewrite Nat.add_0_r|].
    split; [unfold subdirs; by destruct (depth <? MAX_DEPTH)%nat|].
    split; [done|by intros ? ?%elem_of_nil]. }
  cbn [length] in Hw. rewrite (proj2 (Nat.ltb_ge MAX_ENTRIES (S (wk_visited w)))) by lia. cbv zeta.
  assert (forall w0 c0, wk_visited w0 = S (wk_visited w) ->
    wk_pending w0 = (if en_is_dir e then subdirs root depth [e] else []) ++ wk_pending w ->
    (forall p, has (wk_found w) p -> has (wk_found w0) p) ->
    (is_config root e = true -> has (wk_found w0) (path_join root (en_name e))) ->
    exists w' c', scan_entries common root depth entries w0 c0 = (Ok (inr w'), c') /\
      wk_visited w' = wk_visited w + length (e :: entries) /\
      wk_pending w' ≡ₚ subdirs root depth (e :: entries) ++ wk_pending w /\
      (forall p, has (wk_found w) p -> has (wk_found w') p) /\
      (forall e', e' ∈ e :: entries -> is_config root e' = true -> has (wk_found w') (path_join root (en_name e')))) as Hgo.
  { intros w0 c0 Hv Hp Hf Hc. destruct (IH w0 c0) as (w' & c' & E & Hv' & Hp' & Hf' & Hc'); [lia|].
    exists w', c'. split; [exact E|]. split; [cbn [length]; lia|]. split.
    - rewrite Hp', Hp. unfold subdirs. cbn [lfilter]. destruct (en_is_dir e), (depth <? MAX_DEPTH)%nat; try done.
      cbn. by rewrite Permutation_middle.
    - split; [by auto|]. intros e' [->|He]%elem_of_cons ?; auto. }
  destruct (en_is_dir e) eqn:Ed.
  - apply Hgo; try (by destruct (depth <? MAX_DEPTH)%nat).
    + unfold subdirs. cbn [lfilter]. rewrite Ed. by destruct (depth <? MAX_DEPTH)%nat.
    + unfold is_config. by rewrite Ed.
  - match goal with |- context [bind ?m _ c] =>
      assert (exists c1, m c = (Ok (is_config root e), c1)) as (c1 & E) end.
    { unfold is_config. rewrite Ed. cbn [negb andb]. destruct (String.eqb _ _); cbn [andb]; [|by eexists].
      unfold bind, look. cbn [c_tick c_db]. destruct (Hs (c_tick c) (path_join root (en_name e))) as (_ & -> & _).
      destruct (h_is_file 0 _); cbn [andb]; [|by eexists].
      cbn [c_tick c_db]. destruct (Hs (S (c_tick c)) (path_join root "HEAD")) as (_ & _ & ->). by eexists. }
    unfold bind at 1. rewrite E. cbv zeta. apply Hgo.
    + by destruct (is_config root e).
    + by destruct (is_config root e).
    + intros p (f & Hf & <-). destruct (is_config root e); cbn [wk_found]; exists f; (split; [|done]); [|done].
      apply elem_of_app. by left.
    + intros ->. cbn [wk_found]. eexists. split; [apply elem_of_app; right; apply list_elem_of_here|done].
Qed.

Lemma list_sum_perm l l' : l ≡ₚ l' -> list_sum l = list_sum l'.
Proof. induction 1; simpl; lia. Qed.

(** A directory listed: its entries are visited, its subdirectories left. *)
Lemma entries_listed depth root entries : depth <= MAX_DEPTH -> h_list 0 root = Some entries ->
  entries_below (MAX_DEPTH - depth) root = length entries + todo (subdirs root depth entries).
Proof.
  intros Hd E. unfold todo, subdirs. destruct (Nat.ltb_spec depth MAX_DEPTH) as [Hlt|Hge].
  - replace (MAX_DEPTH - depth) with (S (MAX_DEPTH - S depth)) by lia. cbn [entries_below]. rewrite E. f_equal.
    clear E. induction entries as [|e entries IH]; [done|]. rewrite fmap_cons. cbn [lfilter].
    destruct (en_is_dir e); rewrite ?fmap_cons; unfold list_sum in *; cbn [foldr]; rewrite IH; reflexivity.
  - replace (MAX_DEPTH - depth) with 0 by lia. cbn [entries_below]. rewrite E. cbn. lia.
Qed.

Lemma configs_listed depth root entries p : depth <= MAX_DEPTH -> h_list 0 root = Some entries ->
  p ∈ configs_below (MAX_DEPTH - depth) root ->
  (exists e, e ∈ entries /\ is_config root e = true /\ p = path_join root (en_name e)) \/
  wanted (subdirs root depth entries) p.
Proof.
  intros Hd E. unfold wanted, subdirs. destruct (Nat.ltb_spec depth MAX_DEPTH) as [Hlt|Hge].
  - replace (MAX_DEPTH - depth) with (S (MAX_DEPTH - S depth)) by lia. cbn [configs_below]. rewrite E.
    rewrite elem_of_app. intros [(e & -> & [He Hc]%elem_of_lfilter)%list_elem_of_fmap|Hp]; [left; by exists e|right].
    apply list_elem_of_In, in_flat_map in Hp as (e & He%list_elem_of_In & Hp).
    destruct (en_is_dir e) eqn:Ed; [|done]. exists (path_join root (en_name e)), (S depth).
    split; [|by apply list_elem_of_In]. apply list_elem_of_fmap. exists e. split; [done|]. by apply elem_of_lfilter.
  - replace (MAX_DEPTH - depth) with 0 by lia. cbn [configs_below]. rewrite E, app_nil_r.
    intros (e & -> & [He Hc]%elem_of_lfilter)%list_elem_of_fmap. left. by exists e.
Qed.

Lemma todo_app l l' : todo (l ++ l') = todo l + todo l'.
Proof. unfold todo. rewrite fmap_app. by rewrite list_sum_app. Qed.

(** What the bound lets the search visit, it finds. *)
Lemma walk_finds fuel common w c found c' :
  still -> (forall root depth, (root, depth) ∈ wk_pending w -> depth <= MAX_DEPTH) ->
  wk_visited w + todo (wk_pending w) <= MAX_ENTRIES ->
  walk fuel common w c = (Ok (Some found), c') ->
  (forall p, has (wk_found w) p -> has found p) /\ (forall p, wanted (wk_pending w) p -> has found p).
Proof.
  intros Hs. revert w c. induction fuel as [|fuel IH]; intros w c Hdepth Hw; [done|].
  cbn [walk]. destruct (wk_pending w) as [|[root depth] pending] eqn:Ep.
  { intros [= <- _]. split; [|by intros p (? & ? & ?%elem_of_nil & _)].
    intros p (f & Hf & <-). exists f. split; [|done]. unfold sort_configs. by rewrite elem_of_sort_by. }
  assert (depth <= MAX_DEPTH) as Hd by (apply (Hdepth root); by left).
  change (todo ((root, depth) :: pending)) with (entries_below (MAX_DEPTH - depth) root + todo pending) in Hw.
  unfold bind at 1. cbn [look]. destruct (Hs (c_tick c) root) as (-> & _).
  destruct (h_list 0 root) as [entries|] eqn:El.
  - rewrite (entries_listed depth root entries Hd El) in Hw.
    match goal with |- context [bind (scan_entries common root depth entries ?w0) _ ?c0] =>
      destruct (scan_entries_finds common root depth entries w0 c0 Hs) as (w' & c1 & E & Hv & Hp & Hf & Hc) end;
      [cbn [wk_visited]; lia|]. cbn [wk_visited wk_pending wk_found] in *.
    unfold bind at 1. rewrite E. intros Hwalk. destruct (IH w' c1) as [Hkeep Hfind]; try done.
    + intros root' depth'. rewrite Hp, elem_of_app. intros [Hin|Hin]; [|apply (Hdepth root'); by right].
      unfold subdirs in Hin. destruct (Nat.ltb_spec depth MAX_DEPTH); [|by apply elem_of_nil in Hin].
      apply list_elem_of_fmap in Hin as (e & [= -> ->] & _). lia.
    + rewrite Hv. unfold todo at 1. rewrite (list_sum_perm _ _ (fmap_Permutation _ _ _ Hp)).
      fold (todo (subdirs root depth entries ++ pending)). rewrite todo_app. lia.
    + split; [by auto|]. intros p (root' & depth' & [[= -> ->]|Hin]%elem_of_cons & Hpin).
      * destruct (configs_listed _ _ _ _ Hd El Hpin) as [(e & He & Hec & ->)|(r' & d' & Hin & Hpin')]; [by auto|].
        apply Hfind. exists r', d'. rewrite Hp, elem_of_app. auto.
      * apply Hfind. exists root', depth'. rewrite Hp, elem_of_app. auto.
  - intros Hwalk. apply IH in Hwalk as [Hkeep Hfind]; cbn [wk_pending wk_visited wk_found] in *.
    2: { intros root' depth' Hin. apply (Hdepth root'). by right. }
    2: lia.
    split; [done|]. intros p (root' & depth' & [[= -> ->]|Hin]%elem_of_cons & Hpin); [|apply Hfind; by exists root', depth'].
    exfalso. destruct (MAX_DEPTH - depth); cbn in Hpin; rewrite El in Hpin; by apply elem_of_nil in Hpin.
Qed.
End Walking.

(** The search of the submodules' configs ends within its fuel whatever tree an agent planted:
    directories listed are the first and at most one per entry counted. *)
Theorem submodule_search_ends `{GitHost} common c :
  exists found c',
    walk walk_fuel common {| wk_visited := 0; wk_pending := [(path_join common "modules", 0)];
                             wk_found := [] |} c = (Ok (Some found), c').
Proof.
  destruct (walk_ends walk_fuel common {| wk_visited := 0; wk_pending := [(path_join common "modules", 0)];
    wk_found := [] |} c) as (found & c' & E & _); [apply Nat.le_0_l| |by exists found, c'].
  unfold walk_measure, walk_fuel. cbn [wk_pending wk_visited length]. lia.
Qed.

(** ** What the refusal reads *)

(** The commands of the check itself: they list configuration and find [.git], nothing else. *)
Inductive probe_args : list string -> Prop :=
| probe_list : probe_args ["config"; "--list"; "--show-scope"; "--includes"]
| probe_common : probe_args ["rev-parse"; "--path-format=absolute"; "--git-common-dir"]
| probe_file path : probe_args ["config"; "--file"; path; "--list"; "--includes"].

Definition probe (dir : string) (a : Act) : Prop :=
  match a with
  | Run cmd _ => cmd_dir cmd = dir /\ cmd_stdin cmd = "" /\
      exists aw args, cmd_args cmd = config_overrides_scoped aw ++ args /\ probe_args args
  | _ => False
  end.

Section Probes.
Context `{GitHost}.

(** A git command built and run in one go. *)
Lemma emits_command_output (P : Act -> Prop) (Q : Output -> Prop) dir args :
  (forall cmd out, hardened dir cmd -> P (Run (with_args cmd args) out)) -> (forall o, Q o) ->
  emits P Q (let* cmd := command dir in output (with_args cmd args)).
Proof.
  intros HP HQ. eapply emits_bind; [apply emits_command|]. intros cmd Hc. apply emits_output; auto.
Qed.

Lemma probe_run dir cmd args out : hardened dir cmd -> probe_args args -> probe dir (Run (with_args cmd args) out).
Proof. intros (Hd & Hs & _ & aw & Ha) Hp. cbn. rewrite Ha. split; [done|]. split; [done|]. by exists aw, args. Qed.

Lemma quiet_scan_entries (P : Act -> Prop) common root depth entries w :
  quiet P (scan_entries common root depth entries w).
Proof.
  revert w. induction entries as [|e entries IH]; intros w; cbn [scan_entries]; [apply quiet_ret|].
  destruct (_ <? _)%nat; [apply quiet_ret|]. destruct (en_is_dir e); [apply IH|].
  apply quiet_bind; [|intros; apply IH]. destruct (String.eqb _ _); [|apply quiet_ret].
  apply quiet_bind; [apply quiet_look|]. intros []; [apply quiet_look|apply quiet_ret].
Qed.

Lemma quiet_walk (P : Act -> Prop) fuel common w : quiet P (walk fuel common w).
Proof.
  revert w. induction fuel as [|fuel IH]; intros w; cbn [walk]; [apply quiet_ret|].
  destruct (wk_pending w) as [|[root depth] pending]; [apply quiet_ret|].
  apply quiet_bind; [apply quiet_look|]. intros [entries|]; [|apply IH].
  apply quiet_bind; [apply quiet_scan_entries|]. intros []; [apply quiet_ret|apply IH].
Qed.

Lemma quiet_submodule_configs dir : quiet (probe dir) (submodule_configs dir).
Proof.
  unfold submodule_configs. eapply emits_bind; [apply emits_command|]. intros cmd Hc.
  apply quiet_bind.
  { apply quiet_attempt_ok, (emits_output _ (fun _ => True)); [|done]. intros out.
    apply probe_run; [done|constructor]. }
  intros out. destruct (opt_filter success out); [|apply quiet_ret].
  apply quiet_bind; [apply quiet_walk|]. intros; apply quiet_ret.
Qed.

Lemma quiet_submodule_keys dir files : quiet (probe dir) (submodule_keys dir files).
Proof.
  induction files as [|f files IH]; cbn [submodule_keys]; [apply quiet_ret|].
  eapply emits_bind; [apply emits_command|]. intros cmd Hc.
  apply quiet_bind.
  { apply (emits_output _ (fun _ => True)); [|done]. intros out. apply probe_run; [done|constructor]. }
  intros o. cbv zeta. apply quiet_bind; [done|]. intros; apply quiet_ret.
Qed.

Lemma quiet_steerable_config_under dir root : quiet (probe dir) (steerable_config_under dir root).
Proof.
  unfold steerable_config_under. apply quiet_bind; [apply quiet_is_inside|].
  intros []; [|apply quiet_ret]. eapply emits_bind; [apply emits_command|]. intros cmd Hc.
  apply quiet_bind.
  { apply (emits_output _ (fun _ => True)); [|done]. intros out. apply probe_run; [done|constructor]. }
  intros o. destruct (success o); [|apply quiet_ret]. cbv zeta.
  apply quiet_bind; [apply quiet_submodule_configs|]. intros files.
  apply quiet_bind; [apply quiet_submodule_keys|]. intros; apply quiet_ret.
Qed.

Lemma quiet_steerable_config dir : quiet (probe dir) (steerable_config dir).
Proof.
  unfold steerable_config. apply quiet_bind; [apply quiet_agent_writable_root|].
  intros [root|]; [apply quiet_steerable_config_under|apply quiet_ret].
Qed.

Lemma quiet_refuse P dir keys : quiet P (refuse dir keys).
Proof. destruct keys; [apply quiet_ret|apply quiet_err]. Qed.

Lemma quiet_refuse_steerable_config dir : quiet (probe dir) (refuse_steerable_config dir).
Proof.
  unfold refuse_steerable_config. apply quiet_bind; [apply quiet_steerable_config|].
  intros; apply quiet_refuse.
Qed.

(** [dir] is in the agents' checkouts, as the file system resolves it at every moment. *)
Definition in_checkouts (dir : string) : Prop := exists root,
  h_checkouts_root = Some root /\
  forall n m, exists d r, h_canonicalize n dir = Some d /\ h_canonicalize m root = Some r /\
    path_starts_with d r = true.

Lemma is_inside_true dir root (P : Act -> Prop) :
  (forall n m, exists d r, h_canonicalize n dir = Some d /\ h_canonicalize m root = Some r /\
    path_starts_with d r = true) ->
  emits P (fun b => b = true) (is_inside dir root).
Proof.
  intros Hin. unfold is_inside.
  eapply (emits_bind _ (fun o => exists n, o = h_canonicalize n dir)); [apply emits_look; eauto|].
  intros ? [n ->].
  eapply (emits_bind _ (fun o => exists n, o = h_canonicalize n root)); [apply emits_look; eauto|].
  intros ? [m ->]. apply emits_ret. destruct (Hin n m) as (d & r & -> & -> & E). done.
Qed.

Lemma in_checkouts_root dir (P : Act -> Prop) :
  in_checkouts dir ->
  emits P (fun o => exists root, o = Some root /\ h_checkouts_root = Some root) (agent_writable_root dir).
Proof.
  intros (root & E & Hin). unfold agent_writable_root. rewrite E. cbn [option_list app find_root].
  eapply emits_bind; [by apply is_inside_true|]. intros ? ->. apply emits_ret. eauto.
Qed.

Lemma in_checkouts_writable dir (P : Act -> Prop) :
  in_checkouts dir -> emits P (fun b => b = true) (agent_writable dir).
Proof.
  intros Hin. unfold agent_writable. eapply emits_bind; [by apply in_checkouts_root|].
  intros ? (root & -> & _). by apply emits_ret.
Qed.

(** A hardened git command of these arguments ran in [dir] and ended. *)
Definition answered (dir : string) (args : list string) (o : Output) (l : list Act) : Prop :=
  exists cmd aw, Run cmd (Some (Ok o)) ∈ l /\ cmd_dir cmd = dir /\ cmd_args cmd = config_overrides_scoped aw ++ args.

Lemma answered_mono dir args o l l' : answered dir args o l -> (forall a, a ∈ l -> a ∈ l') -> answered dir args o l'.
Proof. intros (cmd & aw & Hin & ?) Hl. exists cmd, aw. split; [by apply Hl|done]. Qed.

Definition LISTING : list string := ["config"; "--list"; "--show-scope"; "--includes"].
Definition COMMON_DIR : list string := ["rev-parse"; "--path-format=absolute"; "--git-common-dir"].
Definition file_listing (path : string) : list string := ["config"; "--file"; path; "--list"; "--includes"].

(** A file's listing, its lines taken for local ones. *)
Definition as_local (o : Output) : string :=
  concat ((fun line => "local" +:+ tab +:+ line +:+ newline) <$> lines (lossy_out o)).

(** A submodule's config was listed too, and its keys are among those reported. *)
Definition file_vetted (dir path : string) (keys : list string) (l : list Act) : Prop :=
  exists o, answered dir (file_listing path) o l /\
    (success o = true -> forall k, k ∈ steerable_keys (as_local o) -> exists name, (name +:+ ": " +:+ k) ∈ keys).

(** What vetting a checkout comes to. Git listed its config just now, and if it could, the keys
    that steer it are all among those found; and if git names its common directory, every config
    of a submodule under there was vetted as well (while nobody writes, within the bounds of the
    search). *)
Definition vetted (dir : string) (keys : list string) (l : list Act) : Prop := exists o,
  answered dir LISTING o l /\
  (success o = true ->
     (forall k, k ∈ steerable_keys (lossy_out o) -> k ∈ keys) /\
     exists out cmd, Run cmd out ∈ l /\ cmd_dir cmd = dir /\
       (exists aw, cmd_args cmd = config_overrides_scoped aw ++ COMMON_DIR) /\
       forall rp, out = Some (Ok rp) -> success rp = true ->
         let modules := path_join (trim (lossy_out rp)) "modules" in
         still -> entries_below MAX_DEPTH modules <= MAX_ENTRIES ->
         forall path, path ∈ configs_below MAX_DEPTH modules -> file_vetted dir path keys l).

Lemma acts_quiet {A} P (m : G A) (R : list Act -> result A string -> Prop) :
  quiet P m -> (forall l r, Forall P l -> R l r) -> acts m R.
Proof. intros Hm HR. eapply acts_mono; [exact Hm|]. intros l r [Hl _]. auto. Qed.

Lemma acts_output cmd (R : list Act -> result Output string -> Prop) :
  (forall o, R [Run cmd (Some (Ok o))] (Ok o)) -> 
  (forall out e, (forall o, out <> Some (Ok o)) -> R [Run cmd out] (Err e)) -> acts (output cmd) R.
Proof.
  intros Hok Herr. unfold output. apply acts_bind, acts_run. intros [[o|e]|]; [apply acts_ret, Hok|by apply acts_err, Herr..].
Qed.

Lemma acts_walk dir common :
  let start := {| wk_visited := 0; wk_pending := [(path_join common "modules", 0)]; wk_found := [] |} in
  acts (walk walk_fuel common start) (fun l r => Forall (probe dir) l /\ exists found, r = Ok (Some found) /\
    (still -> entries_below MAX_DEPTH (path_join common "modules") <= MAX_ENTRIES ->
     forall path, path ∈ configs_below MAX_DEPTH (path_join common "modules") -> has found path)).
Proof.
  intros start c. destruct (quiet_walk (probe dir) walk_fuel common start c) as (l & El & Hn & Hl & _).
  exists l. split; [done|]. split; [done|]. split; [done|].
  destruct (submodule_search_ends common c) as (found & c' & E). fold start in E. rewrite E. exists found.
  split; [done|]. intros Hstill Hsize path Hpath.
  apply (walk_finds walk_fuel common start c found c' Hstill); [|cbn [start wk_visited wk_pending]; unfold todo; cbn [fmap list_fmap list_sum foldr]; rewrite Nat.sub_0_r; lia|exact E|].
  - intros root depth [= -> ->]%list_elem_of_singleton. apply Nat.le_0_l.
  - exists (path_join common "modules"), 0. split; [by left|]. by rewrite Nat.sub_0_r.
Qed.

(** The submodule configs the search reports. *)
Lemma submodule_configs_found dir :
  acts (submodule_configs dir) (fun l r => forall files, r = Ok files ->
    exists out cmd, Run cmd out ∈ l /\ cmd_dir cmd = dir /\
    (exists aw, cmd_args cmd = config_overrides_scoped aw ++ COMMON_DIR) /\
    forall rp, out = Some (Ok rp) -> success rp = true ->
      let modules := path_join (trim (lossy_out rp)) "modules" in
      still -> entries_below MAX_DEPTH modules <= MAX_ENTRIES ->
      forall path, path ∈ configs_below MAX_DEPTH modules -> has files path).
Proof.
  unfold submodule_configs. apply acts_bind. eapply acts_mono; [apply (emits_command (fun _ => True))|].
  intros l1 [cmd|e] [_ Hc]; [|done]. destruct (Hc _ eq_refl) as (Hd & _ & _ & aw & Ha).
  set (cmd' := with_args cmd _).
  assert (cmd_args cmd' = config_overrides_scoped aw ++ COMMON_DIR) as Ha' by (unfold cmd'; cbn; by rewrite Ha).
  apply acts_bind, acts_attempt_ok, acts_output.
  - intros o. cbn [opt_filter]. destruct (success o) eqn:Ho.
    + apply acts_bind. eapply acts_mono; [apply (acts_walk dir)|]. intros l2 ? (_ & found & -> & Hf).
      apply acts_ret. intros files [= <-]. exists (Some (Ok o)), cmd'. split; [set_solver|]. split; [done|].
      split; [by exists aw|]. by intros rp [= <-].
    + apply acts_ret. intros files [= <-]. exists (Some (Ok o)), cmd'. split; [set_solver|]. split; [done|].
      split; [by exists aw|]. intros rp [= <-]. by rewrite Ho.
  - intros out e Hout. cbn [opt_filter]. apply acts_ret. intros files [= <-]. exists out, cmd'.
    split; [set_solver|]. split; [done|]. split; [by exists aw|]. intros rp E. by destruct (Hout rp).
Qed.

(** Each of them was listed. *)
Lemma submodule_keys_listed dir files :
  acts (submodule_keys dir files) (fun l r => forall keys, r = Ok keys ->
    forall path, has files path -> file_vetted dir path keys l).
Proof.
  induction files as [|f files IH]; cbn [submodule_keys].
  { apply acts_ret. intros keys _ path (f & Hf & _). by apply elem_of_nil in Hf. }
  apply acts_bind. eapply acts_mono; [apply (emits_command (fun _ => True))|].
  intros l1 [cmd|e] [_ Hc]; [|done]. destruct (Hc _ eq_refl) as (Hd & _ & _ & aw & Ha).
  apply acts_bind, acts_output; [|done]. intros o. cbv zeta. apply acts_bind.
  eapply acts_mono; [apply IH|]. intros l2 [rest|e] Hrest; [|done]. apply acts_ret.
  intros keys [= <-] path (f' & [->|Hf]%elem_of_cons & <-).
  - exists o. split; [exists (with_args cmd (file_listing (sm_path f))), aw; split; [set_solver|]; cbn; by rewrite Ha|].
    intros Ho k Hk. exists (sm_name f). rewrite Ho. apply elem_of_app. left. apply list_elem_of_fmap. by exists k.
  - destruct (Hrest _ eq_refl (sm_path f')) as (o' & Hans & Hkeys); [by exists f'|].
    exists o'. split; [eapply answered_mono; [exact Hans|set_solver]|].
    intros Ho k Hk. destruct (Hkeys Ho k Hk) as [name Hn]. exists name. apply elem_of_app. by right.
Qed.

Lemma file_vetted_mono dir path keys keys' l l' :
  file_vetted dir path keys l -> (forall k, k ∈ keys -> k ∈ keys') -> (forall a, a ∈ l -> a ∈ l') ->
  file_vetted dir path keys' l'.
Proof.
  intros (o & Ha & Hk) Hkeys Hl. exists o. split; [by eapply answered_mono|].
  intros Ho k (name & Hn)%Hk; [|done]. exists name. auto.
Qed.

Lemma steerable_config_vetted dir :
  in_checkouts dir ->
  acts (steerable_config dir)
    (fun l r => match r with Ok keys => vetted dir keys l | Err _ => True end).
Proof.
  intros Hin. unfold steerable_config. apply acts_bind.
  eapply acts_mono; [by apply (in_checkouts_root dir (fun _ => True))|].
  intros l1 [o|e] [_ Ho]; [|done]. destruct (Ho _ eq_refl) as (root & -> & Hroot).
  unfold steerable_config_under. apply acts_bind.
  eapply acts_mono; [apply (is_inside_true dir root (fun _ => True))|].
  { destruct Hin as (root' & E & Hin'). rewrite E in Hroot. injection Hroot as <-. exact Hin'. }
  intros l2 [b|e] [_ Hb]; [|done]. rewrite (Hb _ eq_refl).
  apply acts_bind. eapply acts_mono; [apply (emits_command (fun _ => True))|].
  intros l3 [cmd|e] [_ Hc]; [|done]. destruct (Hc _ eq_refl) as (Hd & _ & _ & aw & Ha).
  apply acts_bind, acts_output; [|done]. intros o.
  set (line := Run _ _).
  assert (forall l, line ∈ l -> answered dir LISTING o l) as Hans.
  { intros l Hl. exists (with_args cmd LISTING), aw. split; [done|]. cbn. by rewrite Ha. }
  destruct (success o) eqn:Hs; [|apply acts_ret; exists o; split; [apply Hans; set_solver|by rewrite Hs] ].
  cbv zeta. apply acts_bind. eapply acts_mono; [apply submodule_configs_found|]. intros l4 [files|e] Hfound; [|done].
  destruct (Hfound _ eq_refl) as (out & rcmd & Hrun & Hrd & Hra & Hfiles).
  apply acts_bind. eapply acts_mono; [apply submodule_keys_listed|]. intros l5 [more|e] Hmore; [|done].
  apply acts_ret. exists o. split; [apply Hans; set_solver|]. intros _. split; [intros k Hk; set_solver|].
  exists out, rcmd. split; [set_solver|]. split; [done|]. split; [done|].
  intros rp Erp Hrp modules Hstill Hsize path Hpath.
  eapply file_vetted_mono; [exact (Hmore _ eq_refl path (Hfiles rp Erp Hrp Hstill Hsize path Hpath))| |]; set_solver.
Qed.

End Probes.
