(* ===== verification/GitCmd.v ===== *)
(** * Running git (git/cmd.rs)

    The helpers every git call of the engine goes through: the config refusal first, then the
    command under its deadline. And the environments: the fallback identity, and the merge of
    several sets of [GIT_CONFIG_*] variables. *)

From Stdlib Require Import Ascii DecimalString.
From S2P Require Import Prelude RustStr RustText Sql GitDist Hardening Closes.

Local Open Scope string_scope.
Local Open Scope list_scope.

Definition timed_out (args : list string) : string :=
  git_error ("git " +:+ default "" (head args) +:+ " timed out after 120s").

Section Helpers.
Context `{GitHost}.

Definition git_output_env (dir : string) (args : list string) (env : list (string * string)) : G Output :=
  let* _ := refuse_steerable_config dir in
  let* cmd := command_env dir env in
  output_within (with_args cmd args) (timed_out args).

Definition git_output (dir : string) (args : list string) : G Output := git_output_env dir args [].

(** [output_with_stdin]: what the process read does not matter to its answer's shape. *)
Definition output_with_stdin (cmd : Cmd) (input what : string) (secs : string) : G Output :=
  output_within (with_stdin cmd input) (git_error (what +:+ " timed out after " +:+ secs +:+ "s")).

Definition git_output_stdin (dir : string) (args : list string) (env : list (string * string))
    (input : string) : G Output :=
  let* _ := refuse_steerable_config dir in
  let* cmd := command_env dir env in
  output_with_stdin (with_args cmd args) input ("git " +:+ default "" (head args)) "120".

(** A network command, under the network deadline. *)
Definition output_timed (cmd : Cmd) (what : string) : G Output :=
  output_within cmd (what +:+ " timed out after 60s — check your network connection").

Definition run_git_env (dir : string) (args : list string) (env : list (string * string))
    (label : string) : G Output :=
  let* out := git_output_env dir args env in
  if success out then ret out
  else err (git_error (label +:+ " failed: " +:+ lossy_err out)).

Definition run_git (dir : string) (args : list string) (label : string) : G Output :=
  run_git_env dir args [] label.

Definition apply_github_auth (cmd : Cmd) : G Cmd :=
  let* auth := git_auth_env in ret (with_env cmd auth).

(** ** The identity of commits made for the user *)

Definition has_setting (key : string) (listing : list string) : bool :=
  existsb (fun line => match split_once " " line with
                       | Some (k, v) => String.eqb k key && negb (is_empty (trim v))
                       | None => false
                       end) listing.

Definition identity_env (dir : string) : G (list (string * string)) :=
  let* out := attempt_ok (git_output dir ["config"; "--get-regexp"; "^user\.(name|email)$"]) in
  let listing := match out with Some o => lines (lossy_out o) | None => [] end in
  let has_name := has_setting "user.name" listing in
  let has_email := has_setting "user.email" listing in
  if has_name && has_email then ret []
  else
    let* id := look h_fallback_identity in
    ret ((if has_name then [] else [("GIT_AUTHOR_NAME", id.1); ("GIT_COMMITTER_NAME", id.1)])
         ++ (if has_email then [] else [("GIT_AUTHOR_EMAIL", id.2); ("GIT_COMMITTER_EMAIL", id.2)])).

End Helpers.

(** ** Merging [GIT_CONFIG_*] sets *)

Definition env_lookup (set : list (string * string)) (name : string) : option string :=
  snd <$> lfind (fun e => String.eqb e.1 name) set.

Definition config_pair (set : list (string * string)) (i : nat) : option (string * string) :=
  match env_lookup set ("GIT_CONFIG_KEY_" +:+ show_nat i), env_lookup set ("GIT_CONFIG_VALUE_" +:+ show_nat i) with
  | Some k, Some v => Some (k, v)
  | _, _ => None
  end.

Definition config_count (set : list (string * string)) : nat :=
  N.to_nat (default 0%N (env_lookup set "GIT_CONFIG_COUNT" ≫= parse_u32)).

(** The pairs a set declares. *)
Definition config_pairs (set : list (string * string)) : list (string * string) :=
  omap (config_pair set) (seq 0 (config_count set)).

Definition is_config_var (name : string) : bool :=
  String.eqb name "GIT_CONFIG_COUNT" || starts_with "GIT_CONFIG_KEY_" name
  || starts_with "GIT_CONFIG_VALUE_" name.

Fixpoint numbered (idx : nat) (pairs : list (string * string)) : list (string * string) :=
  match pairs with
  | [] => []
  | (k, v) :: pairs =>
      ("GIT_CONFIG_KEY_" +:+ show_nat idx, k) :: ("GIT_CONFIG_VALUE_" +:+ show_nat idx, v)
      :: numbered (S idx) pairs
  end.

Fixpoint merge_from (idx : nat) (sets : list (list (string * string))) : nat * list (string * string) :=
  match sets with
  | [] => (idx, [])
  | set :: sets =>
      let pairs := config_pairs set in
      let rest := lfilter (fun e => negb (is_config_var e.1)) set in
      let '(idx', out) := merge_from (idx + length pairs) sets in
      (idx', numbered idx pairs ++ rest ++ out)
  end.

Definition merge_git_env (sets : list (list (string * string))) : list (string * string) :=
  let '(idx, out) := merge_from 0 sets in out ++ [("GIT_CONFIG_COUNT", show_nat idx)].

(** ** Merging loses no setting *)

Definition num (is_key : bool) (i : nat) : string :=
  (if is_key then "GIT_CONFIG_KEY_" else "GIT_CONFIG_VALUE_") +:+ show_nat i.
Definition sel (is_key : bool) (p : string * string) : string := if is_key then p.1 else p.2.

Lemma show_nat_inj i j : show_nat i = show_nat j -> i = j.
Proof. intros E%show_N_inj. by apply Nat2N.inj. Qed.

Lemma num_eqb b b' i j : String.eqb (num b i) (num b' j) = Bool.eqb b b' && (i =? j)%nat.
Proof.
  destruct (i =? j)%nat eqn:E.
  - apply Nat.eqb_eq in E as <-. destruct b, b'; cbn [Bool.eqb andb]; try apply String.eqb_refl; done.
  - rewrite andb_false_r. apply String.eqb_neq. intros En. apply Nat.eqb_neq in E. apply E.
    destruct b, b'; simplify_eq/=; apply show_nat_inj; by simplify_eq/=.
Qed.

Lemma num_is_config b i : is_config_var (num b i) = true.
Proof. by destruct b. Qed.

Lemma env_lookup_app s1 s2 name :
  env_lookup (s1 ++ s2) name
  = match env_lookup s1 name with Some v => Some v | None => env_lookup s2 name end.
Proof.
  unfold env_lookup. induction s1 as [|[k v] s1 IH]; [done|]. simpl.
  destruct (String.eqb k name); [done|]. apply IH.
Qed.

Lemma env_lookup_rest set name :
  is_config_var name = true -> env_lookup (lfilter (fun e => negb (is_config_var e.1)) set) name = None.
Proof.
  intros Hn. unfold env_lookup. induction set as [|[k v] set IH]; [done|]. cbn [lfilter fst].
  destruct (is_config_var k) eqn:Hk; cbn [negb]; [done|]. cbn [lfind fst].
  destruct (String.eqb_spec k name) as [->|_]; [congruence|]. done.
Qed.

Lemma env_lookup_numbered b idx pairs i :
  env_lookup (numbered idx pairs) (num b i)
  = if (idx <=? i)%nat then sel b <$> pairs !! (i - idx) else None.
Proof.
  unfold env_lookup. revert idx. induction pairs as [|[k v] pairs IH]; intros idx; cbn [numbered].
  { cbn [lfind]. destruct (idx <=? i)%nat; [|done]. by destruct (i - idx). }
  cbn [lfind fst]. change ("GIT_CONFIG_KEY_" +:+ show_nat idx) with (num true idx).
  change ("GIT_CONFIG_VALUE_" +:+ show_nat idx) with (num false idx). rewrite !num_eqb.
  destruct (Nat.eqb_spec idx i) as [<-|Hne].
  - rewrite Nat.leb_refl, Nat.sub_diag. by destruct b.
  - rewrite !andb_false_r, IH.
    destruct (Nat.leb_spec (S idx) i), (Nat.leb_spec idx i); try lia; [|done].
    by replace (i - idx) with (S (i - S idx)) by lia.
Qed.

Lemma env_lookup_numbered_count idx pairs : env_lookup (numbered idx pairs) "GIT_CONFIG_COUNT" = None.
Proof. revert idx. induction pairs as [|[k v] pairs IH]; intros idx; [done|]. apply (IH (S idx)). Qed.

Lemma merge_from_lookup b idx sets i :
  let '(idx', out) := merge_from idx sets in
  let all := flat_map config_pairs sets in
  idx' = idx + length all /\ env_lookup out "GIT_CONFIG_COUNT" = None /\
  env_lookup out (num b i) = if (idx <=? i)%nat then sel b <$> all !! (i - idx) else None.
Proof.
  revert idx. induction sets as [|set sets IH]; intros idx; cbn [merge_from].
  { cbn. repeat split; [lia|]. by destruct (idx <=? i)%nat. }
  specialize (IH (idx + length (config_pairs set))).
  destruct (merge_from _ sets) as [idx' out]. destruct IH as (-> & Hc & Hl).
  cbn [flat_map]. rewrite length_app. repeat split; [lia|..].
  - by rewrite !env_lookup_app, env_lookup_numbered_count, env_lookup_rest, Hc.
  - rewrite !env_lookup_app, env_lookup_numbered, env_lookup_rest, Hl by apply num_is_config.
    destruct (Nat.leb_spec idx i) as [Hi|Hi].
    + destruct (Nat.leb_spec (idx + length (config_pairs set)) i) as [Hj|Hj].
      * rewrite (lookup_ge_None_2 (config_pairs set)), lookup_app_r by lia. cbn [fmap option_fmap option_map].
        by replace (i - (idx + length (config_pairs set))) with (i - idx - length (config_pairs set)) by lia.
      * rewrite lookup_app_l by lia.
        destruct (lookup_lt_is_Some_2 (config_pairs set) (i - idx)) as [x ->]; [lia|done].
    + destruct (Nat.leb_spec (idx + length (config_pairs set)) i); [lia|done].
Qed.

Lemma omap_seq_lookup {A} (f : nat -> option A) (l : list A) :
  (forall i, i < length l -> f i = l !! i) -> omap f (seq 0 (length l)) = l.
Proof.
  intros Hf. induction l as [|x l IH] using rev_ind; [done|].
  rewrite length_app, Nat.add_1_r, seq_S, omap_app, Nat.add_0_l. rewrite IH.
  - cbn [omap list_omap]. rewrite Hf, list_lookup_middle by (rewrite ?length_app; simpl; lia). done.
  - intros i Hi. rewrite Hf, lookup_app_l by (rewrite ?length_app; lia). done.
Qed.

Lemma strip_sign_show n : strip_sign (show_N n) = show_N n.
Proof. unfold show_N, NilZero.string_of_uint, strip_sign. by destruct (N.to_uint n). Qed.

(** Git reads from the merged environment every setting the sets declared, in their order. *)
Theorem merged_env_keeps_every_setting sets :
  (N.of_nat (length (flat_map config_pairs sets)) <= u32_max)%N ->
  config_pairs (merge_git_env sets) = flat_map config_pairs sets.
Proof.
  intros Hmax. unfold merge_git_env.
  pose proof (fun b i => merge_from_lookup b 0 sets i) as Hl. destruct (merge_from 0 sets) as [idx out].
  set (all := flat_map config_pairs sets) in *.
  assert (idx = length all) as -> by apply (Hl true 0).
  unfold config_pairs at 1.
  assert (config_count (out ++ [("GIT_CONFIG_COUNT", show_nat (length all))]) = length all) as ->.
  { unfold config_count. destruct (Hl true 0) as (_ & Hc & _). rewrite env_lookup_app, Hc.
    cbn [env_lookup lfind fst String.eqb fmap option_fmap option_map snd]. cbn.
    unfold parse_u32, parse_usize, show_nat.
    rewrite strip_sign_show, parse_digits_show. cbn [opt_filter].
    assert ((N.of_nat (length all) <=? usize_max)%N = true) as ->.
    { apply N.leb_le. etrans; [exact Hmax|]. by vm_compute. }
    cbn [opt_filter]. assert ((N.of_nat (length all) <=? u32_max)%N = true) as -> by by apply N.leb_le.
    cbn. by rewrite Nat2N.id. }
  apply omap_seq_lookup. intros i Hi. unfold config_pair.
  change ("GIT_CONFIG_KEY_" +:+ show_nat i) with (num true i).
  change ("GIT_CONFIG_VALUE_" +:+ show_nat i) with (num false i).
  destruct (Hl true i) as (_ & _ & Hk), (Hl false i) as (_ & _ & Hv).
  rewrite !env_lookup_app, Hk, Hv, Nat.sub_0_r. cbn [Nat.leb].
  destruct (lookup_lt_is_Some_2 all i) as [[k v] ->]; [lia|]. done.
Qed.

Example merged_env_keeps_every_setting_witness :
  let auth := [("GIT_CONFIG_COUNT", "1"); ("GIT_CONFIG_KEY_0", "a"); ("GIT_CONFIG_VALUE_0", "b")] in
  let more := [("GIT_CONFIG_COUNT", "1"); ("GIT_CONFIG_KEY_0", "c"); ("GIT_CONFIG_VALUE_0", "d");
               ("GIT_AUTHOR_NAME", "x")] in
  config_pairs (merge_git_env [auth; more]) = [("a", "b"); ("c", "d")].
Proof.
  refine (merged_env_keeps_every_setting
    [[("GIT_CONFIG_COUNT", "1"); ("GIT_CONFIG_KEY_0", "a"); ("GIT_CONFIG_VALUE_0", "b")];
     [("GIT_CONFIG_COUNT", "1"); ("GIT_CONFIG_KEY_0", "c"); ("GIT_CONFIG_VALUE_0", "d");
      ("GIT_AUTHOR_NAME", "x")]] _).
  vm_compute. discriminate.
Defined.

(** ** The seam *)

Section Seam.
Context `{GitHost}.

(** In an agent's checkout the credentials are removed from the command's variables, and the
    hardening flags include the switches against implicit signing. *)
Definition disarmed (cmd : Cmd) : Prop :=
  (exists args, cmd_args cmd = config_overrides_scoped true ++ args) /\
  (cmd_guest cmd = false -> forall name, name ∈ CREDENTIAL_ENV -> env_of cmd name = Some None).

Lemma last_filter_app (name : string) (e1 e2 : list (string * option string)) :
  lfilter (fun e => String.eqb e.1 name) e2 = [] ->
  last (lfilter (fun e => String.eqb e.1 name) (e1 ++ e2)) = last (lfilter (fun e => String.eqb e.1 name) e1).
Proof.
  intros E. enough (lfilter (fun e => String.eqb e.1 name) (e1 ++ e2)
    = lfilter (fun e => String.eqb e.1 name) e1 ++ lfilter (fun e => String.eqb e.1 name) e2) as ->
    by (by rewrite E, app_nil_r).
  clear E. induction e1 as [|x e1 IH]; [done|]. cbn [app lfilter].
  destruct (String.eqb _ _); by rewrite IH.
Qed.

Lemma set_env_free name env :
  name ∉ env.*1 -> lfilter (fun e => String.eqb e.1 name) (set_env env) = [].
Proof.
  intros Hn. apply lfilter_none. intros [k v] Hk. apply String.eqb_neq. cbn. intros ->.
  apply Hn. unfold set_env in Hk. apply list_elem_of_fmap in Hk as ([k' v'] & [= -> ->] & Hk).
  apply list_elem_of_fmap. by exists (k', v').
Qed.

Lemma emits_disarmed P dir env :
  in_checkouts dir -> (forall name, name ∈ CREDENTIAL_ENV -> name ∉ (h_git_env ++ env).*1) ->
  emits P (fun cmd => hardened dir cmd /\ disarmed cmd /\ cmd_args cmd = config_overrides_scoped true)
    (command_env dir env).
Proof.
  intros Hin Henv. unfold command_env, hardened, disarmed.
  assert (emits P (fun l => l = config_overrides_scoped true) (config_overrides_for dir)) as Hover.
  { unfold config_overrides_for. eapply emits_bind; [by apply in_checkouts_writable|].
    intros ? ->. by apply emits_ret. }
  destruct (h_remote dir).
  - eapply emits_bind; [exact Hover|]. intros ? ->. apply emits_ret. cbn [cmd_dir cmd_stdin cmd_guest cmd_args].
    split_and!; try done; [by exists true|]. exists []. by rewrite app_nil_r.
  - eapply emits_bind; [by apply in_checkouts_writable|]. intros ? ->. cbn [negb].
    eapply emits_bind; [|intros cmd Hc; apply emits_ret, Hc].
    unfold resolved. eapply (emits_bind _ (fun hs => exists path, hs = [("PATH", path); ("SSH_AUTH_SOCK", None); ("GNUPGHOME", None)])).
    { unfold helper_env. eapply (emits_bind _ (fun l => exists path, l = [("PATH", path)])).
      - unfold HELPER_ENV. cbn [shell_vars]. eapply emits_bind; [by apply (emits_look _ (fun _ => True))|].
        intros v _. eapply (emits_bind _ (fun l => l = [])); [by apply emits_ret|].
        intros ? ->. apply emits_ret. eauto.
      - intros ? [path ->]. apply emits_ret. eauto. }
    intros ? [path ->]. eapply emits_bind; [exact Hover|]. intros ? ->. apply emits_ret.
    cbn [cmd_dir cmd_stdin cmd_guest cmd_args with_env cmd_env].
    split_and!; try done; [by exists true|exists []; by rewrite app_nil_r|].
    intros _ name Hname. unfold env_of. cbn [cmd_env with_env].
    specialize (Henv _ Hname). rewrite fmap_app, elem_of_app in Henv.
    rewrite last_filter_app by (apply set_env_free; set_solver).
    rewrite last_filter_app by (apply set_env_free; set_solver).
    unfold CREDENTIAL_ENV in Hname. rewrite !elem_of_cons, elem_of_nil in Hname.
    destruct Hname as [->|[->|[]]]; done.
Qed.

(** What a call of the seam does in [dir]: probes that vet the checkout and, if they found nothing,
    the command, last and disarmed. *)
Definition after_vetting (dir : string) (args : list string) (input : string) (l : list Act)
    (r : result Output string) : Prop := exists checks rest,
  l = checks ++ rest /\ Forall (probe dir) checks /\
  (rest = [] /\ (exists e, r = Err e) \/
   exists cmd out, rest = [Run cmd out] /\ disarmed cmd /\ cmd_dir cmd = dir /\ cmd_stdin cmd = input /\
     cmd_args cmd = config_overrides_scoped true ++ args /\ vetted dir [] checks).

Lemma seam_vets dir args env input expired (set : Cmd -> Cmd) :
  in_checkouts dir -> (forall name, name ∈ CREDENTIAL_ENV -> name ∉ (h_git_env ++ env).*1) ->
  (forall cmd, hardened dir cmd -> cmd_dir (set cmd) = cmd_dir cmd /\ cmd_guest (set cmd) = cmd_guest cmd /\
     cmd_env (set cmd) = cmd_env cmd /\ cmd_args (set cmd) = cmd_args cmd ++ args /\ cmd_stdin (set cmd) = input) ->
  acts (let* _ := refuse_steerable_config dir in let* cmd := command_env dir env in output_within (set cmd) expired)
    (after_vetting dir args input).
Proof.
  intros Hin Henv Hset. unfold after_vetting, refuse_steerable_config.
  apply acts_bind, acts_bind. eapply acts_mono.
  { apply acts_and; [by apply steerable_config_vetted|apply quiet_steerable_config]. }
  intros l1 [keys|e] [Hl [Hp _]].
  2:{ exists l1, []. rewrite app_nil_r. split_and!; eauto. }
  destruct keys as [|k keys]; cbn [refuse].
  2:{ apply acts_err. exists (l1 ++ []), []. rewrite !app_nil_r. split_and!; eauto. }
  apply acts_ret. apply acts_bind. rewrite app_nil_r.
  eapply acts_mono; [by apply (emits_disarmed (fun _ => False))|].
  intros l2 [cmd|e] [Hl2 Hc].
  2:{ destruct l2 as [|a l2]; [|by inversion Hl2]. exists l1, []. rewrite app_nil_r. split_and!; eauto. }
  destruct l2 as [|a l2]; [|by inversion Hl2]. destruct (Hc _ eq_refl) as (Hh & [_ Hdis] & Ha).
  destruct (Hset cmd Hh) as (Hsd & Hsg & Hse & Hsa & Hsi). destruct Hh as (Hd & _).
  unfold output_within. apply acts_bind, acts_run. intros out.
  assert (disarmed (set cmd)) as Hdis'.
  { split; [rewrite Hsa, Ha; by eexists|]. unfold env_of. rewrite Hsg, Hse. exact Hdis. }
  assert (forall r : result Output string, after_vetting dir args input (l1 ++ [] ++ [Run (set cmd) out] ++ []) r) as Hall.
  { intros r. exists l1, [Run (set cmd) out]. split; [done|]. split; [done|]. right.
    exists (set cmd), out. rewrite Hsa, Ha. split_and!; try done. congruence. }
  destruct out as [[o|e]|]; [apply acts_ret|apply acts_err..]; apply Hall.
Qed.

End Seam.

(** A checkout with one submodule whose config is clean: vetted, then [git status]. *)
Definition submodule_host : GitHost := {|
  h_run _ cmd := exited 0 (if lcontains (cmd_args cmd) "rev-parse" then "/w/a/.git" else "");
  h_canonicalize _ p := Some p; h_len _ _ := None;
  h_list _ p := if String.eqb p "/w/a/.git/modules" then Some [{| en_name := "sub"; en_is_dir := true |}]
                else if String.eqb p "/w/a/.git/modules/sub" then
                  Some [{| en_name := "HEAD"; en_is_dir := false |}; {| en_name := "config"; en_is_dir := false |}]
                else None;
  h_is_file _ _ := true; h_exists _ _ := true; h_remote _ := false;
  h_checkouts_root := Some "/w"; h_runs_root := None;
  h_shell_env _ _ := None; h_git_env := []; h_token _ := None; h_branch_prefix _ := "";
  h_backing_off _ := false; h_base64 s := s; h_fallback_identity _ := ("", ""); h_pid := 1%N;
  h_nanos n := N.of_nat n;
|}.

