(* ===== verification/GitRemote.v ===== *)
(** * Transport with the user's configuration (git/remote.rs, github/query.rs)

    Every fetch, push and [ls-remote] of a checkout runs in the user's own repository, over the
    checkout's objects and private refs, to the URLs that repository's config names. *)

From Stdlib Require Import Ascii.
From S2P Require Import Prelude RustStr RustText Sql GitDist Hardening GitCmd.

Local Open Scope string_scope.
Local Open Scope list_scope.

Definition FETCHED : string := "refs/worktree/fletch/origin".
Definition TRACKING : string := "refs/remotes/origin".

Definition TRANSPORT_CONFIG : list (string * string) :=
  [ ("gc.auto", "0");
    ("maintenance.auto", "false");
    ("fetch.writeCommitGraph", "false");
    ("url.https://github.com/.insteadOf", "git@github.com:");
    ("url.https://github.com/.insteadOf", "ssh://git@github.com/") ].

Record Split := { sp_git_dir : string; sp_common_dir : string; sp_objects : string }.

Record Transport := {
  t_checkout : string;
  t_guest : option string;
  t_source_repo : string;
  t_split : option Split;
  t_fetch_remote : string;
  t_push_remotes : list string;
}.

Inductive Branches := All | One (branch : string) | PullRequest (n : N).

Definition single (b : Branches) : option (string * string) :=
  match b with
  | All => None
  | One branch => Some ("refs/heads/" +:+ branch, TRACKING +:+ "/" +:+ branch)
  | PullRequest n => let name := "refs/pull/" +:+ show_N n +:+ "/head" in Some (name, name)
  end.

(** [github_https_remote]. *)
Definition github_https_remote (remote : string) : string :=
  let r := trim remote in
  let path := or_else (strip_prefix "git@github.com:" r)
                (or_else (strip_prefix "ssh://git@github.com/" r)
                   (strip_prefix "ssh://git@github.com:22/" r)) in
  let path := opt_filter (fun p => negb (is_empty p)) (trim_start_byte slash <$> path) in
  match path with
  | Some path => "https://github.com/" +:+ path
  | None => r
  end.

(** The sandbox's side of a box checkout: its mirror on the host, kept in step with the guest. *)
Class Guests := {
  h_transport_repo : nat -> string -> string -> result (option string) string;
  h_sync_tracking : nat -> string -> string -> result () string;
  h_export_commit : nat -> string -> string -> result () string;
}.

Definition remotes (t : Transport) : list string :=
  fold_left (fun all url => if lcontains all url then all else all ++ [url])
    (t_push_remotes t) [t_fetch_remote t].

Section Transport.
Context `{GitHost} `{Guests}.

Definition box {A} (call : BoxCall) (f : nat -> result A string) : G A :=
  let* r := look f in
  let* _ := act (Box call) in
  lift r.

Definition transport_repo (checkout source_repo : string) : G (option string) :=
  box (TransportRepo checkout source_repo) (fun n => h_transport_repo n checkout source_repo).
Definition sync_tracking (repo checkout : string) : G () :=
  box (SyncTracking repo checkout) (fun n => h_sync_tracking n repo checkout).
Definition export_commit (checkout sha : string) : G () :=
  box (ExportCommit checkout sha) (fun n => h_export_commit n checkout sha).

Definition resolve (repo rev : string) : G (option string) :=
  let* out := git_output repo ["rev-parse"; "--verify"; "--quiet"; rev +:+ "^{commit}"] in
  ret (if success out then Some (trim (lossy_out out)) else None).

Definition git_path (repo what : string) : G string :=
  let* out := git_output repo ["rev-parse"; "--path-format=absolute"; what] in
  if success out then ret (trim (lossy_out out))
  else err (git_error ("rev-parse " +:+ what +:+ " in '" +:+ repo +:+ "' failed: " +:+ lossy_err out)).

Definition origin_url (repo : string) : G (option string) :=
  let* out := git_output repo ["config"; "--get"; "remote.origin.url"] in
  ret (if success out
       then let url := trim (lossy_out out) in if is_empty url then None else Some url
       else None).

Definition no_origin (source_repo : string) : string :=
  git_error ("no origin remote: '" +:+ source_repo +:+ "' has none to publish to or fetch from").

Definition require_origin_unchanged (checkout source_repo : string) : G () :=
  let* source := origin_url source_repo in
  match source with
  | None => err (no_origin source_repo)
  | Some source =>
      if path_eqb checkout source_repo then ret ()
      else
        let trusted := github_https_remote source in
        let* url := origin_url checkout in
        match url with
        | Some url =>
            if String.eqb (github_https_remote url) trusted then ret ()
            else err (git_error ("refusing to reach '" +:+ url
                   +:+ "': the checkout's origin was changed from the remote it was cloned for ("
                   +:+ trusted +:+ "). Fletch's host-side git talks only to that remote; restore it with `git remote set-url origin "
                   +:+ trusted +:+ "`"))
        | None =>
            err (git_error ("refusing to fetch or push: the checkout has no origin, while the repository it was cloned from publishes to "
                   +:+ trusted +:+ ". Restore it with `git remote set-url origin " +:+ trusted +:+ "`"))
        end
  end.

(** ** Commands *)

Definition object_command (t : Transport) : G Cmd :=
  let* cmd := command (t_source_repo t) in
  ret (match t_split t with
       | Some split => with_env cmd [("GIT_OBJECT_DIRECTORY", sp_objects split)]
       | None => cmd
       end).

Definition transport_command (t : Transport) : G Cmd :=
  let* cmd := object_command t in
  let cmd := match t_split t with
             | Some split => with_env cmd [("GIT_DIR", sp_git_dir split);
                                           ("GIT_COMMON_DIR", sp_common_dir split)]
             | None => cmd
             end in
  apply_github_auth (with_args cmd (c_flags TRANSPORT_CONFIG)).

Definition origin_urls (t : Transport) (extra : list string) : G (list string) :=
  let* cmd := transport_command t in
  let* out := output (with_args cmd (["remote"; "get-url"] ++ extra ++ ["origin"])) in
  let urls := lfilter (fun l => negb (is_empty l)) (trim <$> lines (lossy_out out)) in
  if negb (success out) || bool_decide (urls = []) then err (no_origin (t_source_repo t))
  else ret urls.

Definition with_remotes (t : Transport) (fetch : string) (push : list string) : Transport := {|
  t_checkout := t_checkout t; t_guest := t_guest t; t_source_repo := t_source_repo t;
  t_split := t_split t; t_fetch_remote := fetch; t_push_remotes := push;
|}.

Definition read_split (checkout source_repo : string) : G Split :=
  let* git_dir := git_path checkout "--absolute-git-dir" in
  let worktree_config := path_join git_dir "config.worktree" in
  let* len := look (fun n => h_len n worktree_config) in
  if is_some_and len (fun len => (0 <? len)%N) then
    err (git_error ("refusing to fetch or push: '" +:+ worktree_config
           +:+ "' exists, and git would read it as the repository's configuration. Fletch's host-side git takes its configuration from your repository only; remove the file"))
  else
    let* common := git_path source_repo "--git-common-dir" in
    let* objects := git_path checkout "--git-common-dir" in
    ret {| sp_git_dir := git_dir; sp_common_dir := common;
           sp_objects := path_join objects "objects" |}.

Definition open (checkout source_repo : string) : G Transport :=
  let* _ := refuse_steerable_config checkout in
  let* _ := require_origin_unchanged checkout source_repo in
  let* mirror := transport_repo checkout source_repo in
  let guest := match mirror with Some _ => Some checkout | None => None end in
  let checkout := default checkout mirror in
  let* split :=
    if path_eqb checkout source_repo then ret None
    else let* split := read_split checkout source_repo in ret (Some split) in
  let t := {| t_checkout := checkout; t_guest := guest; t_source_repo := source_repo;
              t_split := split; t_fetch_remote := "origin"; t_push_remotes := ["origin"] |} in
  if is_some split then
    let* fetch := origin_urls t [] in
    let t := with_remotes t (default "" (head fetch)) (t_push_remotes t) in
    let* push := origin_urls t ["--push"; "--all"] in
    ret (with_remotes t (t_fetch_remote t) push)
  else ret t.

(** ** The remotes' branches *)

Definition parse_head (line : string) : option (string * string) :=
  match split_once tab_byte line with
  | None => None
  | Some (sha, name) => (fun branch => (branch, trim sha)) <$> strip_prefix "refs/heads/" (trim name)
  end.

Definition heads (t : Transport) (remote : string) (branch : option string) : G (list (string * string)) :=
  let* cmd := transport_command t in
  let args := ["ls-remote"; "--heads"; remote]
              ++ match branch with Some b => ["refs/heads/" +:+ b] | None => [] end in
  let* out := output_timed (with_args cmd args) "git ls-remote" in
  if success out then ret (omap parse_head (lines (lossy_out out)))
  else err (git_error ("ls-remote " +:+ remote +:+ " failed: " +:+ lossy_err out)).

Definition tip (t : Transport) (remote branch : string) : G (option string) :=
  let* found := heads t remote (Some branch) in
  ret (snd <$> lfind (fun h => String.eqb h.1 branch) found).

Definition branches (t : Transport) : G (list (string * string)) := heads t (t_fetch_remote t) None.

Fixpoint tips_of (t : Transport) (urls : list string) : G (list string) :=
  match urls with
  | [] => ret []
  | url :: urls =>
      let* found := heads t url None in
      let* rest := tips_of t urls in
      ret (found.*2 ++ rest)
  end.

Definition published_tips (t : Transport) : G (list string) :=
  let* tips := tips_of t (remotes t) in ret (sort_str (dedup [] tips)).

(** ** Fetching and recording *)

Definition update_refs (t : Transport) (script : string) : G () :=
  if is_empty script then ret ()
  else
    let* out := git_output_stdin (t_checkout t) ["update-ref"; "--stdin"] [] script in
    if success out then ret ()
    else err (git_error ("updating the checkout's remote refs failed: " +:+ lossy_err out)).

(** What stands before each slash of a name. *)
Fixpoint slash_prefixes (before s : string) : list string :=
  match s with
  | EmptyString => []
  | String b s =>
      (if Ascii.eqb b slash then [before] else []) ++ slash_prefixes (before +:+ String b "") s
  end.

Definition conflicting (branch name : string) : bool :=
  starts_with (TRACKING +:+ "/" +:+ branch +:+ "/") name
  || lcontains ((fun a => TRACKING +:+ "/" +:+ a) <$> slash_prefixes "" branch) name.

Definition delete_ref (name : string) : string :=
  "option no-deref" +:+ newline +:+ "delete " +:+ name +:+ newline.

Definition clear_conflicting (t : Transport) (branch : string) : G () :=
  let* out := git_output (t_checkout t) ["for-each-ref"; "--format=%(refname)"; TRACKING] in
  update_refs t (concat (delete_ref <$> lfilter (conflicting branch) (lines (lossy_out out)))).

Definition set_tracking (t : Transport) (branch commit : string) : G () :=
  let* _ := clear_conflicting t branch in
  update_refs t ("update " +:+ TRACKING +:+ "/" +:+ branch +:+ " " +:+ commit +:+ newline).

Definition sync_guest (t : Transport) : G () :=
  match t_guest t with
  | Some guest => sync_tracking (t_checkout t) guest
  | None => ret ()
  end.

Definition record_pushed (t : Transport) (branch commit : string) : G () :=
  match t_split t with
  | None => ret ()
  | Some _ =>
      let* _ := set_tracking t branch commit in
      sync_guest t
  end.

Definition fetch (t : Transport) (remote : string) (refspecs : list string) (prune : bool)
    (secs : string) : G () :=
  let* cmd := transport_command t in
  let args := ["fetch"; "--quiet"; "--stdin"; "--no-write-fetch-head"]
              ++ (if prune then ["--prune"] else []) ++ [remote] in
  let input := concat ((fun r => r +:+ newline) <$> refspecs) in
  let* out := output_with_stdin (with_args cmd args) input "git fetch" secs in
  if success out then ret ()
  else err (git_error ("fetch from " +:+ remote +:+ " failed: " +:+ lossy_err out)).

Definition fetch_commit (t : Transport) (commit : string) : G () :=
  fetch t (t_fetch_remote t) [commit] false "60".

Definition push (t : Transport) (url : string) (extra : list string) (refspec : string) : G Output :=
  let* cmd := transport_command t in
  output_timed (with_args cmd (["push"] ++ extra ++ [url; refspec])) "git push".

Definition mirror_fetched (t : Transport) : G () :=
  let* out := git_output (t_checkout t)
    ["fetch"; "--quiet"; "--prune"; "--no-write-fetch-head"; ".";
     "+" +:+ FETCHED +:+ "/*:" +:+ TRACKING +:+ "/*"] in
  if success out then ret ()
  else err (git_error ("updating the checkout's remote refs failed: " +:+ lossy_err out)).

(** One ref, into a scratch ref of this fetch's own and from there to its name. *)
Definition fetch_single (t : Transport) (which : Branches) (refspec destination secs : string) : G () :=
  match t_split t with
  | None =>
      let* refspec :=
        match which with
        | One branch => let* _ := clear_conflicting t branch in ret refspec
        | _ => ret ("+" +:+ refspec +:+ ":" +:+ destination)
        end in
      fetch t (t_fetch_remote t) [refspec] false secs
  | Some _ =>
      let* nanos := look h_nanos in
      let scratch := "refs/worktree/fletch/fetch/" +:+ show_N h_pid +:+ "-" +:+ show_N nanos in
      let* _ := fetch t (t_fetch_remote t) ["+" +:+ refspec +:+ ":" +:+ scratch] false secs in
      let* fetched := resolve (t_checkout t) scratch in
      let* _ := update_refs t (delete_ref scratch) in
      let* fetched := require_some (git_error ("fetched nothing for " +:+ refspec)) fetched in
      match which with
      | One branch => set_tracking t branch fetched
      | _ => update_refs t ("update " +:+ destination +:+ " " +:+ fetched +:+ newline)
      end
  end.

Fixpoint fetch_push_remotes (t : Transport) (urls : list string) (secs : string) : G () :=
  match urls with
  | [] => ret ()
  | url :: urls =>
      let* found := heads t url None in
      let names := (fun h => "refs/heads/" +:+ h.1) <$> found in
      let* _ := match names with [] => ret () | _ => fetch t url names false secs end in
      fetch_push_remotes t urls secs
  end.

Definition fetch_branches_into_store (t : Transport) (which : Branches) (secs : string) : G () :=
  match single which with
  | Some (refspec, destination) => fetch_single t which refspec destination secs
  | None =>
      let into := if is_some (t_split t) then FETCHED else TRACKING in
      let* _ := fetch t (t_fetch_remote t) ["+refs/heads/*:" +:+ into +:+ "/*"] true secs in
      let* _ := if is_some (t_split t) then mirror_fetched t else ret () in
      fetch_push_remotes t (tail (remotes t)) secs
  end.

Definition fetch_branches_within (t : Transport) (which : Branches) (secs : string) : G () :=
  let* _ := fetch_branches_into_store t which secs in
  sync_guest t.

Definition fetch_branches (t : Transport) (which : Branches) : G () :=
  fetch_branches_within t which "60".

End Transport.

(** ** What goes over the network, and where it runs *)

(** The arguments after the leading [-c] settings. *)
Fixpoint sub_args (l : list string) : list string :=
  match l with
  | a :: _ :: rest => if String.eqb a "-c" then sub_args rest else l
  | _ => l
  end.

(** Arguments that reach a remote; a fetch from [.] stays in the repository. *)
Definition wire_args (args : list string) : bool :=
  match sub_args args with
  | verb :: rest =>
      lcontains ["push"; "ls-remote"] verb || String.eqb verb "fetch" && negb (lcontains rest ".")
  | [] => false
  end.

Definition is_network (cmd : Cmd) : bool := wire_args (cmd_args cmd).

(** Neither network, nor a request to GitHub, nor a question to the user. *)
Definition local (a : Act) : Prop :=
  match a with
  | Run cmd _ => is_network cmd = false
  | Box _ => True
  | _ => False
  end.

Lemma sub_args_flags rows args : sub_args (c_flags rows ++ args) = sub_args args.
Proof. induction rows as [|[k v] rows IH]; [done|]. exact IH. Qed.

Lemma sub_args_overrides aw args : sub_args (config_overrides_scoped aw ++ args) = sub_args args.
Proof.
  unfold config_overrides_scoped, config_overrides. rewrite <-app_assoc, sub_args_flags.
  destruct aw; [apply sub_args_flags|done].
Qed.

Lemma probe_local dir a : probe dir a -> local a.
Proof.
  destruct a as [cmd out| | |]; try done. intros (_ & _ & aw & args & E & Hp).
  cbn. unfold is_network, wire_args. rewrite E, sub_args_overrides. by destruct Hp.
Qed.

Lemma hardened_sub_args `{GitHost} dir cmd args :
  hardened dir cmd -> sub_args (cmd_args (with_args cmd args)) = sub_args args.
Proof. intros (_ & _ & _ & aw & E). cbn. by rewrite E, sub_args_overrides. Qed.

Section Local.
Context `{GitHost} (P : Act -> Prop) (Hlocal : forall a, local a -> P a).

Lemma quiet_probes {A} dir (m : G A) : quiet (probe dir) m -> quiet P m.
Proof. intros Hm. eapply emits_weaken; [exact Hm|]. intros a Ha. by eapply Hlocal, probe_local. Qed.

(** A git command in a directory, behind the refusal. *)
Lemma quiet_git_output_env dir args env :
  (forall cmd out, cmd_dir cmd = dir -> sub_args (cmd_args cmd) = sub_args args -> P (Run cmd out)) ->
  quiet P (git_output_env dir args env).
Proof.
  intros HP. unfold git_output_env. apply quiet_bind; [apply (quiet_probes dir), quiet_refuse_steerable_config|].
  intros _. eapply emits_bind; [apply emits_command_env|]. intros cmd Hc.
  apply (emits_output_within _ (fun _ => True)); [|done]. intros out. apply HP; [apply Hc|].
  by eapply hardened_sub_args.
Qed.

Lemma quiet_git_output_stdin dir args env input :
  (forall cmd out, cmd_dir cmd = dir -> sub_args (cmd_args cmd) = sub_args args -> P (Run cmd out)) ->
  quiet P (git_output_stdin dir args env input).
Proof.
  intros HP. unfold git_output_stdin. apply quiet_bind; [apply (quiet_probes dir), quiet_refuse_steerable_config|].
  intros _. eapply emits_bind; [apply emits_command_env|]. intros cmd Hc.
  apply (emits_output_within _ (fun _ => True)); [|done]. intros out. apply HP; [apply Hc|].
  cbn. by eapply (hardened_sub_args dir cmd args).
Qed.

(** One that stays off the network. *)
Definition off_wire (args : list string) : Prop := wire_args args = false.

Lemma off_wire_local cmd args : off_wire args -> sub_args (cmd_args cmd) = sub_args args -> is_network cmd = false.
Proof. unfold off_wire, is_network, wire_args. by intros Ho ->. Qed.

Lemma quiet_git_local dir args : off_wire args -> quiet P (git_output dir args).
Proof.
  intros Ho. apply quiet_git_output_env. intros cmd out _ E. apply Hlocal. by eapply off_wire_local.
Qed.

Lemma quiet_stdin_local dir args env input : off_wire args -> quiet P (git_output_stdin dir args env input).
Proof.
  intros Ho. apply quiet_git_output_stdin. intros cmd out _ E. apply Hlocal. by eapply off_wire_local.
Qed.

Lemma quiet_resolve repo rev : quiet P (resolve repo rev).
Proof. unfold resolve. apply quiet_bind; [by apply quiet_git_local|]. intros; apply quiet_ret. Qed.

Lemma quiet_git_path repo what : quiet P (git_path repo what).
Proof.
  unfold git_path. apply quiet_bind; [by apply quiet_git_local|]. intros o.
  destruct (success o); [apply quiet_ret|apply quiet_err].
Qed.

Lemma quiet_origin_url repo : quiet P (origin_url repo).
Proof. unfold origin_url. apply quiet_bind; [by apply quiet_git_local|]. intros; apply quiet_ret. Qed.

Lemma quiet_require_origin_unchanged checkout source : quiet P (require_origin_unchanged checkout source).
Proof.
  unfold require_origin_unchanged. apply quiet_bind; [apply quiet_origin_url|].
  intros [s|]; [|apply quiet_err]. destruct (path_eqb _ _); [apply quiet_ret|]. cbv zeta.
  apply quiet_bind; [apply quiet_origin_url|]. intros [u|]; [|apply quiet_err].
  destruct (String.eqb _ _); [apply quiet_ret|apply quiet_err].
Qed.

Lemma quiet_read_split checkout source : quiet P (read_split checkout source).
Proof.
  unfold read_split. apply quiet_bind; [apply quiet_git_path|]. intros d. cbv zeta.
  apply quiet_bind; [apply quiet_look|]. intros len. destruct (is_some_and _ _); [apply quiet_err|].
  apply quiet_bind; [apply quiet_git_path|]. intros ?. apply quiet_bind; [apply quiet_git_path|].
  intros; apply quiet_ret.
Qed.

Lemma quiet_update_refs t script : quiet P (update_refs t script).
Proof.
  unfold update_refs. destruct (is_empty _); [apply quiet_ret|].
  apply quiet_bind; [by apply quiet_stdin_local|]. intros o. destruct (success o); [apply quiet_ret|apply quiet_err].
Qed.

Lemma quiet_clear_conflicting t branch : quiet P (clear_conflicting t branch).
Proof.
  unfold clear_conflicting. apply quiet_bind; [by apply quiet_git_local|].
  intros o. apply quiet_update_refs.
Qed.

Lemma quiet_set_tracking t branch commit : quiet P (set_tracking t branch commit).
Proof.
  unfold set_tracking. apply quiet_bind; [apply quiet_clear_conflicting|]. intros. apply quiet_update_refs.
Qed.

Lemma quiet_mirror_fetched t : quiet P (mirror_fetched t).
Proof.
  unfold mirror_fetched. apply quiet_bind; [by apply quiet_git_local|].
  intros o. destruct (success o); [apply quiet_ret|apply quiet_err].
Qed.

Lemma quiet_box `{Guests} {A} call (f : nat -> result A string) : quiet P (box call f).
Proof.
  unfold box. apply quiet_bind; [apply quiet_look|]. intros r. apply quiet_bind; [|intros; apply quiet_lift].
  apply quiet_act. by apply Hlocal.
Qed.

Lemma quiet_sync_guest `{Guests} t : quiet P (sync_guest t).
Proof. unfold sync_guest. destruct (t_guest t); [apply quiet_box|apply quiet_ret]. Qed.

Lemma quiet_record_pushed `{Guests} t branch commit : quiet P (record_pushed t branch commit).
Proof.
  unfold record_pushed. destruct (t_split t); [|apply quiet_ret].
  apply quiet_bind; [apply quiet_set_tracking|]. intros; apply quiet_sync_guest.
Qed.
End Local.

Lemma remotes_head t : t_fetch_remote t ∈ remotes t.
Proof.
  unfold remotes. enough (forall l all, t_fetch_remote t ∈ all -> t_fetch_remote t ∈ fold_left
    (fun all url => if lcontains all url then all else all ++ [url]) l all) as Hgen by (apply Hgen; set_solver).
  induction l as [|u l IH]; intros all Hall; [done|]. cbn [fold_left]. apply IH.
  destruct (lcontains all u); set_solver.
Qed.

Lemma remotes_spec t url : url ∈ remotes t <-> url = t_fetch_remote t \/ url ∈ t_push_remotes t.
Proof.
  unfold remotes. enough (forall l all, url ∈ fold_left
    (fun all u => if lcontains all u then all else all ++ [u]) l all <-> url ∈ all \/ url ∈ l) as ->
    by set_solver.
  induction l as [|u l IH]; intros all; [set_solver|]. cbn [fold_left]. rewrite IH.
  destruct (lcontains all u) eqn:E; [apply lcontains_true in E|]; set_solver.
Qed.

Section Wire.
Context `{GitHost} `{Guests}.

(** A transport command: in the user's repository, reading its configuration, over the objects and
    private refs of the checkout. *)
Definition carries (t : Transport) (args : list string) (cmd : Cmd) : Prop :=
  cmd_dir cmd = t_source_repo t /\
  (exists aw, cmd_args cmd
     = (config_overrides_scoped aw ++ c_flags TRANSPORT_CONFIG) ++ args) /\
  match t_split t with
  | Some split =>
      env_of cmd "GIT_COMMON_DIR" = Some (Some (sp_common_dir split)) /\
      env_of cmd "GIT_DIR" = Some (Some (sp_git_dir split)) /\
      env_of cmd "GIT_OBJECT_DIRECTORY" = Some (Some (sp_objects split))
  | None => True
  end.

Lemma carries_sub_args t args cmd : carries t args cmd -> sub_args (cmd_args cmd) = sub_args args.
Proof. intros (_ & (aw & E) & _). by rewrite E, <-app_assoc, sub_args_overrides, sub_args_flags. Qed.

Lemma emits_git_auth_env P :
  emits P (fun auth => forall name, is_config_var name = false -> name ∉ auth.*1) git_auth_env.
Proof.
  unfold git_auth_env. eapply (emits_bind _ (fun _ => True)); [by apply emits_look|].
  intros [token|] _; apply emits_ret; intros name Hn; [|set_solver].
  cbn [fmap list_fmap fst]. rewrite !elem_of_cons, elem_of_nil.
  intros [->|[->|[->|[]]]]; discriminate Hn.
Qed.

Lemma emits_transport_command P t : emits P (carries t []) (transport_command t).
Proof.
  unfold transport_command, object_command, apply_github_auth.
  eapply (emits_bind _ (fun cmd => exists base, hardened (t_source_repo t) base /\
    cmd = match t_split t with
          | Some split => with_env base [("GIT_OBJECT_DIRECTORY", sp_objects split)]
          | None => base
          end)).
  { eapply emits_bind; [apply emits_command|]. intros base Hb. apply emits_ret. eauto. }
  intros cmd (base & (Hd & _ & _ & aw & Ha) & ->).
  eapply emits_bind; [apply emits_git_auth_env|]. intros auth Hauth. apply emits_ret.
  unfold carries. destruct (t_split t) as [split|].
  - split; [done|]. split; [exists aw; cbn; by rewrite Ha, app_nil_r|].
    unfold env_of. cbn [cmd_env with_env with_args].
    split_and!.
    all: rewrite last_filter_app by (apply set_env_free, Hauth; reflexivity).
    all: rewrite <-!app_assoc, lfilter_app; cbn; by rewrite last_snoc.
  - split; [done|]. split; [exists aw; cbn; by rewrite Ha, app_nil_r|done].
Qed.

(** What a transport sends over the wire, other than a push: it asks for the branches of one of its
    remotes, or fetches from one. *)
Inductive asks (t : Transport) : list string -> Prop :=
| asks_heads url pattern : url ∈ remotes t -> asks t (["ls-remote"; "--heads"; url] ++ pattern)
| asks_fetch prune url : url ∈ remotes t ->
    asks t (["fetch"; "--quiet"; "--stdin"; "--no-write-fetch-head"] ++ prune ++ [url]).

Definition reads_remote (t : Transport) (a : Act) : Prop :=
  match a with
  | Run cmd _ => exists args, asks t args /\ carries t args cmd
  | _ => False
  end.

Lemma carries_args t cmd args : carries t [] cmd -> carries t args (with_args cmd args).
Proof.
  intros (Hd & (aw & E) & Hs). split; [done|]. split; [|done]. exists aw.
  rewrite app_nil_r in E. cbn. by rewrite E.
Qed.

Context (P : Act -> Prop) (t : Transport).
Context (Hlocal : forall a, local a -> P a) (Hreads : forall a, reads_remote t a -> P a).

Lemma emits_origin_urls extra : emits P (fun urls => urls <> []) (origin_urls t extra).
Proof.
  unfold origin_urls. eapply emits_bind; [apply emits_transport_command|]. intros cmd Hc.
  eapply quiet_bind_emits.
  { apply (emits_output _ (fun _ => True)); [|done]. intros out. apply Hlocal. cbn. unfold is_network, wire_args.
    by rewrite (carries_sub_args _ _ _ (carries_args _ _ _ Hc)). }
  intros o. cbv zeta. destruct (negb _ || _) eqn:E; [apply emits_err|]. apply emits_ret.
  apply orb_false_iff in E as [_ E]. by apply bool_decide_eq_false in E.
Qed.

Lemma quiet_heads url branch : url ∈ remotes t -> quiet P (heads t url branch).
Proof.
  intros Hurl. unfold heads. eapply emits_bind; [apply emits_transport_command|]. intros cmd Hc.
  cbv zeta. apply quiet_bind.
  { apply (emits_output_within _ (fun _ => True)); [|done]. intros out. apply Hreads. eexists.
    split; [by apply asks_heads|]. by apply carries_args. }
  intros o. destruct (success o); [apply quiet_ret|apply quiet_err].
Qed.

Lemma quiet_tip url branch : url ∈ remotes t -> quiet P (tip t url branch).
Proof. intros Hurl. unfold tip. apply quiet_bind; [by apply quiet_heads|]. intros; apply quiet_ret. Qed.

Lemma quiet_fetch url refspecs prune secs : url ∈ remotes t -> quiet P (fetch t url refspecs prune secs).
Proof.
  intros Hurl. unfold fetch. eapply emits_bind; [apply emits_transport_command|]. intros cmd Hc.
  cbv zeta. apply quiet_bind.
  { apply (emits_output_within _ (fun _ => True)); [|done]. intros out. apply Hreads. eexists.
    split; [by apply asks_fetch|]. by apply (carries_args t cmd). }
  intros o. destruct (success o); [apply quiet_ret|apply quiet_err].
Qed.

Lemma quiet_tips_of urls : (forall u, u ∈ urls -> u ∈ remotes t) -> quiet P (tips_of t urls).
Proof.
  induction urls as [|u urls IH]; intros Hu; cbn [tips_of]; [apply quiet_ret|].
  apply quiet_bind; [apply quiet_heads, Hu; set_solver|]. intros found.
  apply quiet_bind; [apply IH; set_solver|]. intros; apply quiet_ret.
Qed.

Lemma quiet_published_tips : quiet P (published_tips t).
Proof.
  unfold published_tips. apply quiet_bind; [by apply quiet_tips_of|]. intros; apply quiet_ret.
Qed.

Lemma quiet_fetch_single which refspec destination secs : quiet P (fetch_single t which refspec destination secs).
Proof.
  unfold fetch_single. destruct (t_split t).
  - apply quiet_bind; [apply quiet_look|]. intros nanos. cbv zeta.
    apply quiet_bind; [apply quiet_fetch, remotes_head|]. intros _.
    apply quiet_bind; [by apply quiet_resolve|]. intros o.
    apply quiet_bind; [by apply quiet_update_refs|]. intros _.
    apply quiet_bind; [destruct o; [apply quiet_ret|apply quiet_err]|]. intros f.
    destruct which; (by apply quiet_update_refs) || (by apply quiet_set_tracking).
  - apply quiet_bind; [|intros; apply quiet_fetch, remotes_head].
    destruct which; try apply quiet_ret. apply quiet_bind; [by apply quiet_clear_conflicting|].
    intros; apply quiet_ret.
Qed.

Lemma quiet_fetch_push_remotes urls secs :
  (forall u, u ∈ urls -> u ∈ remotes t) -> quiet P (fetch_push_remotes t urls secs).
Proof.
  induction urls as [|u urls IH]; intros Hu; cbn [fetch_push_remotes]; [apply quiet_ret|].
  apply quiet_bind; [apply quiet_heads, Hu; set_solver|]. intros found. cbv zeta.
  apply quiet_bind; [|intros; apply IH; set_solver].
  destruct ((fun h => "refs/heads/" +:+ h.1) <$> found); [apply quiet_ret|apply quiet_fetch, Hu; set_solver].
Qed.

Lemma quiet_fetch_branches_within which secs : quiet P (fetch_branches_within t which secs).
Proof.
  unfold fetch_branches_within. apply quiet_bind; [|intros; by apply quiet_sync_guest].
  unfold fetch_branches_into_store. destruct (single which) as [[r d]|]; [apply quiet_fetch_single|].
  cbv zeta. apply quiet_bind; [apply quiet_fetch, remotes_head|]. intros _.
  apply quiet_bind; [destruct (is_some _); [by apply quiet_mirror_fetched|apply quiet_ret]|]. intros _.
  apply quiet_fetch_push_remotes. intros u Hu. destruct (remotes t); [done|]. by right.
Qed.
End Wire.

Section Open.
Context `{GitHost} `{Guests} (P : Act -> Prop) (Hlocal : forall a, local a -> P a).

(** Opening a transport reaches no remote. *)
Lemma emits_open checkout source :
  emits P (fun t => t_source_repo t = source /\
    (t_split t = None -> t_fetch_remote t = "origin" /\ t_push_remotes t = ["origin"]) /\
    t_push_remotes t <> []) (open checkout source).
Proof.
  unfold open. eapply quiet_bind_emits; [by apply (quiet_probes _ Hlocal checkout), quiet_refuse_steerable_config|].
  intros _. eapply quiet_bind_emits; [by apply quiet_require_origin_unchanged|]. intros _.
  eapply quiet_bind_emits; [by apply quiet_box|]. intros mirror. cbv zeta.
  eapply quiet_bind_emits.
  { destruct (path_eqb _ _); [apply quiet_ret|]. apply quiet_bind; [by apply quiet_read_split|].
    intros; apply quiet_ret. }
  intros [split|]; cbn [is_some]; [|by apply emits_ret].
  eapply emits_bind; [by apply emits_origin_urls|]. intros fetch _.
  eapply emits_bind; [by apply emits_origin_urls|]. intros push Hpush.
  by apply emits_ret.
Qed.
End Open.
