(* ===== verification/GitPublish.v ===== *)
(** * Publishing (git/publish.rs, git/identity.rs, git/signing.rs, git/transport.rs, git/branch.rs)

    The one way to push: whose commits a push would publish, the signed copies a signing user's
    repository asks for, the lease of a forced push, and the push of the commit settled on. *)

From Stdlib Require Import Ascii.
From S2P Require Import Prelude RustStr RustText Sql GitDist Hardening GitCmd GitRemote.

Local Open Scope string_scope.
Local Open Scope list_scope.

(** ** Identity *)

Inductive Identity := Own (tip : string) | Foreign (why : string).

Fixpoint foreign_emails (email : string) (seen ls : list string) : list string :=
  match ls with
  | [] => seen
  | line :: ls =>
      let committer := trim line in
      if is_empty committer || eq_ignore_ascii_case committer email then foreign_emails email seen ls
      else if existsb (fun s => eq_ignore_ascii_case s committer) seen then foreign_emails email seen ls
      else foreign_emails email (seen ++ [committer]) ls
  end.

Section Identity.
Context `{GitHost}.

Definition configured_email (repo : string) : G (option string) :=
  let* out := git_output repo ["config"; "--get"; "user.email"] in
  let email := trim (lossy_out out) in
  ret (if is_empty email then None else Some email).

Definition branch_tip (repo branch : string) : G string :=
  let* out := git_output repo ["rev-parse"; "--verify"; "--quiet"; "refs/heads/" +:+ branch] in
  if success out then ret (trim (lossy_out out))
  else err (git_error ("no local branch " +:+ branch)).

Definition foreign_committers (repo tip email : string) : G (list string) :=
  let* out := git_output repo ["log"; "--format=%ce"; tip; "--not"; "--remotes=origin"; "--"] in
  if success out then ret (foreign_emails email [] (lines (lossy_out out)))
  else err (git_error ("log " +:+ tip +:+ " failed: " +:+ lossy_err out)).

Definition check_identity_of (repo branch tip : string) : G Identity :=
  let* email := configured_email repo in
  match email with
  | None => ret (Own tip)
  | Some email =>
      let* foreign := foreign_committers repo tip email in
      match foreign with
      | [] => ret (Own tip)
      | _ =>
          ret (Foreign ("refusing to push '" +:+ branch +:+ "': new commits were made as "
                 +:+ join ", " foreign +:+ ", not the checkout's " +:+ email
                 +:+ " — GitHub would show them as nobody's and unverified. Rewrite them with the configured identity (`git rebase <base> --exec 'git commit --amend --no-edit'` re-stamps the committer and keeps each author), then push again with `args.force=true`"))
      end
  end.

Definition check_identity (repo branch : string) : G Identity :=
  let* tip := branch_tip repo branch in
  check_identity_of repo branch tip.

End Identity.

(** ** Reading a commit *)

Record Ident := { id_name : string; id_email : string; id_date : string }.

Definition ident_parse (line : string) : option Ident :=
  match split_once "<" line with
  | None => None
  | Some (name, rest) =>
      match split_once ">" rest with
      | None => None
      | Some (email, date) =>
          Some {| id_name := trim name; id_email := email; id_date := trim date |}
      end
  end.

Record RawCommit := {
  rc_tree : string;
  rc_parents : list string;
  rc_author : Ident;
  rc_committer : Ident;
  rc_message : string;
}.

(** The bytes before and after the first blank line. *)
Fixpoint split_headers (s : string) : option (string * string) :=
  match strip_prefix (newline +:+ newline) s with
  | Some message => Some ("", message)
  | None =>
      match s with
      | EmptyString => None
      | String b s => (fun '(h, m) => (String b h, m)) <$> split_headers s
      end
  end.

Record Headers := {
  hd_tree : option string;
  hd_parents : list string;
  hd_author : option Ident;
  hd_committer : option Ident;
}.

Definition read_header (h : Headers) (line : string) : Headers :=
  if starts_with " " line then h
  else
    match split_once " " line with
    | None => h
    | Some (key, v) =>
        {| hd_tree := if String.eqb key "tree" then Some v else hd_tree h;
           hd_parents := if String.eqb key "parent" then hd_parents h ++ [v] else hd_parents h;
           hd_author := if String.eqb key "author" then ident_parse v else hd_author h;
           hd_committer := if String.eqb key "committer" then ident_parse v else hd_committer h |}
    end.

Definition rawcommit_parse (raw : string) : option RawCommit :=
  match split_headers raw with
  | None => None
  | Some (headers, message) =>
      let h := fold_left read_header (lines (from_utf8_lossy headers))
                 {| hd_tree := None; hd_parents := []; hd_author := None; hd_committer := None |} in
      match hd_tree h, hd_author h, hd_committer h with
      | Some tree, Some author, Some committer =>
          Some {| rc_tree := tree; rc_parents := hd_parents h; rc_author := author;
                  rc_committer := committer; rc_message := message |}
      | _, _, _ => None
      end
  end.

Definition ident_env (who : string) (i : Ident) : list (string * string) :=
  [ ("GIT_" +:+ who +:+ "_NAME", id_name i);
    ("GIT_" +:+ who +:+ "_EMAIL", id_email i);
    ("GIT_" +:+ who +:+ "_DATE", id_date i) ].

Definition commit_env (c : RawCommit) : list (string * string) :=
  ident_env "AUTHOR" (rc_author c) ++ ident_env "COMMITTER" (rc_committer c).

(** ** Whether and what to sign *)

Definition signing_requested (show_scope : string) : bool :=
  let rows := omap (split_once tab_byte) (lines show_scope) in
  is_some_and (lfind (fun '(scope, _) => negb (String.eqb scope "command")) (rev rows))
    (fun '(_, value) => String.eqb (trim value) "true").

(** [cat-file --batch-check]: the names it answered with a commit. *)
Definition present_commits (listing : string) : list string :=
  omap (fun line => match split_on " " line with
                    | sha :: kind :: _ => if String.eqb kind "commit" then Some sha else None
                    | _ => None
                    end) (lines listing).

Definition rev_lines (tip : string) (published : list string) : string :=
  tip +:+ newline +:+ concat ((fun sha => "^" +:+ sha +:+ newline) <$> published).

Section Signing.
Context `{GitHost} `{Guests}.

Definition host_signs_commits (source_repo : string) : G bool :=
  let* out := git_output source_repo
    ["config"; "--type=bool"; "--show-scope"; "--get-all"; "commit.gpgsign"] in
  ret (success out && signing_requested (lossy_out out)).

Definition missing_commits (checkout : string) (commits : list string) : G (list string) :=
  match commits with
  | [] => ret []
  | _ =>
      let* out := git_output_stdin checkout ["cat-file"; "--batch-check"] []
        (join newline commits +:+ newline) in
      let present := present_commits (lossy_out out) in
      ret (lfilter (fun c => negb (lcontains present c)) commits)
  end.

(** [Err(...).map_err]: the error named. *)
Definition map_err {A} (f : string -> string) (m : G A) : G A :=
  let* r := attempt m in
  match r with Ok a => ret a | Err e => err (f e) end.

Fixpoint refresh_attempts (n : nat) (t : Transport) (checkout : string) : G (list string) :=
  match n with
  | O =>
      err (git_error "the remotes kept moving while the publish was being prepared (2 attempts); try again")
  | S n =>
      let* _ := map_err (fun e => git_error ("refreshing the remotes before signing failed: " +:+ e))
        (fetch_branches t All) in
      let* tips := map_err
        (fun e => git_error ("reading the remotes' tips before signing failed: " +:+ e))
        (published_tips t) in
      let* missing := missing_commits checkout tips in
      match missing with
      | [] => ret tips
      | _ => refresh_attempts n t checkout
      end
  end.

Definition refresh_remote_refs (checkout source_repo : string) : G (list string) :=
  let* t := open checkout source_repo in
  refresh_attempts 2 t checkout.

Definition unpublished_commits (checkout tip : string) (published : list string) : G (list string) :=
  let* missing := missing_commits checkout published in
  match missing with
  | _ :: _ =>
      err (git_error ("published tips " +:+ join ", " missing
             +:+ " are not in the checkout; refresh the remotes first"))
  | [] =>
      let* out := git_output_stdin checkout
        ["rev-list"; "--reverse"; "--topo-order"; "--stdin"; "--"] [] (rev_lines tip published) in
      if success out then
        ret (lfilter (fun s => negb (is_empty s)) (trim <$> lines (lossy_out out)))
      else err (git_error ("rev-list " +:+ tip +:+ " failed: " +:+ lossy_err out))
  end.

Definition commit_signed (t : Transport) (commit : RawCommit) (parents : list string) : G string :=
  let* cmd := object_command t in
  let cmd := with_args cmd (["commit-tree"; "-S"; rc_tree commit]
                            ++ flat_map (fun p => ["-p"; p]) parents) in
  let* out := output_with_stdin (with_env cmd (commit_env commit)) (rc_message commit)
    "git commit-tree" "120" in
  if success out then ret (trim (lossy_out out))
  else err (git_error ("signing failed: " +:+ lossy_err out)).

(** A commit's signed copy, or the commit itself. *)
Definition copy_of (signed : gmap string string) (sha : string) : string :=
  default sha (signed !! sha).

Fixpoint sign_each (t : Transport) (checkout : string) (shas : list string)
    (signed : gmap string string) : G (gmap string string) :=
  match shas with
  | [] => ret signed
  | sha :: shas =>
      let* raw := git_output checkout ["cat-file"; "commit"; sha] in
      if success raw then
        match rawcommit_parse (o_stdout raw) with
        | None => err (git_error ("commit " +:+ sha +:+ " is malformed"))
        | Some commit =>
            let* copy := commit_signed t commit (copy_of signed <$> rc_parents commit) in
            sign_each t checkout shas (<[sha := copy]> signed)
        end
      else err (git_error ("cat-file " +:+ sha +:+ " failed: " +:+ lossy_err raw))
  end.

Definition sign_unpublished (checkout source_repo tip : string) (published : list string) : G string :=
  let* unpublished := unpublished_commits checkout tip published in
  match unpublished with
  | [] => ret tip
  | _ =>
      let* t := open checkout source_repo in
      let* signed := sign_each t checkout unpublished ∅ in
      ret (copy_of signed tip)
  end.

(** ** The push *)

Definition require_integrated (checkout branch expected : string) : G () :=
  let* out := git_output checkout ["log"; "-g"; "--format=%H"; "refs/heads/" +:+ branch] in
  let entries := lfilter (fun l => negb (is_empty l)) (trim <$> lines (lossy_out out)) in
  let* integrated :=
    match entries with
    | [] => ret false
    | _ =>
        let* out := git_output_stdin checkout ["rev-list"; "-n"; "1"; "--stdin"] []
          (expected +:+ newline +:+ concat ((fun sha => "^" +:+ sha +:+ newline) <$> entries)) in
        ret (success out && all_ascii_whitespace (o_stdout out))
    end in
  if integrated : bool then ret ()
  else err (git_error ("push failed: ! [rejected] " +:+ branch +:+ " (stale info): origin/"
         +:+ branch +:+ " is at " +:+ expected
         +:+ ", which this checkout has never integrated; fetch and rebase onto it first")).

Definition lease_arg (branch : string) (expected : option string) : string :=
  "--force-with-lease=refs/heads/" +:+ branch +:+ ":" +:+ default "" expected.

Fixpoint push_each (t : Transport) (urls lease : list string) (refspec : string) (up_to_date : bool)
    : G bool :=
  match urls with
  | [] => ret up_to_date
  | url :: urls =>
      let* out := push t url lease refspec in
      if success out then
        let combined := lossy_out out +:+ from_utf8_lossy (o_stderr out) in
        push_each t urls lease refspec (up_to_date && contains "Everything up-to-date" combined)
      else err (git_error ("push failed: " +:+ lossy_err out))
  end.

Definition push_source (checkout source_repo source branch : string) (force : bool) : G string :=
  let* t := open checkout source_repo in
  let urls := t_push_remotes t in
  if force && (1 <? length urls)%nat then
    err (git_error ("refusing to force-push '" +:+ branch +:+ "': origin has "
           +:+ show_nat (length urls)
           +:+ " push URLs and a lease can hold only one remote's tip; push without force, or configure a single push URL"))
  else
    let* pushed := resolve checkout source in
    let* lease :=
      if force then
        let* expected := tip t (default "" (head urls)) branch in
        let* _ :=
          match opt_filter (fun e => negb (eqb (Some e) pushed)) expected with
          | Some expected => require_integrated checkout branch expected
          | None => ret ()
          end in
        ret [lease_arg branch expected]
      else ret [] in
    let refspec := source +:+ ":refs/heads/" +:+ branch in
    let* up_to_date := push_each t urls lease refspec true in
    let* _ := match pushed with Some pushed => record_pushed t branch pushed | None => ret () end in
    ret (if up_to_date : bool then "up-to-date" else "pushed").

Definition push_commit (checkout source_repo commit branch : string) (force : bool) : G string :=
  let* summary := push_source checkout source_repo commit branch force in
  let* _ := attempt (git_output checkout
    ["branch"; "--set-upstream-to"; "origin/" +:+ branch; branch]) in
  ret summary.

(** ** Publishing *)

Inductive Tip := TipBranch | TipCommit (sha : string).

Record Publication := {
  pb_checkout : string;
  pb_source_repo : string;
  pb_branch : string;
  pb_force : bool;
}.

Record Published := { pd_summary : string; pd_tip : string }.

Definition move_branch (checkout branch from to : string) : G () :=
  let* at_ := attempt (branch_tip checkout branch) in
  match at_ with
  | Err _ => ret ()
  | Ok at_ =>
      if String.eqb at_ from then
        let* out := git_output checkout
          ["update-ref"; "-m"; "fletch: signed on publish"; "refs/heads/" +:+ branch; to; from] in
        if success out then ret ()
        else err (git_error ("moving '" +:+ branch +:+ "' to its signed tip failed: " +:+ lossy_err out))
      else err (git_error ("'" +:+ branch +:+ "' moved while it was being published; push again"))
  end.

Definition signed (p : Publication) (tip : string) : G string :=
  let* published := refresh_remote_refs (pb_checkout p) (pb_source_repo p) in
  let* id := check_identity_of (pb_checkout p) (pb_branch p) tip in
  match id with
  | Foreign why => err (git_error why)
  | Own tip =>
      let* signed := map_err (fun e => git_error ("could not sign the commits '" +:+ pb_branch p
          +:+ "' would publish: " +:+ e
          +:+ ". Your repository's git config sets commit.gpgsign=true, so Fletch signs on push with the key it names; make that key available to Fletch, or set commit.gpgsign=false"))
        (sign_unpublished (pb_checkout p) (pb_source_repo p) tip published) in
      if String.eqb signed tip then ret signed
      else
        let* _ := export_commit (pb_checkout p) signed in
        let* _ := move_branch (pb_checkout p) (pb_branch p) tip signed in
        ret signed
  end.

Definition publish (p : Publication) (tip : Tip) : G Published :=
  let* tip := match tip with
              | TipBranch => branch_tip (pb_checkout p) (pb_branch p)
              | TipCommit sha => ret sha
              end in
  let agent_work := negb (path_eqb (pb_checkout p) (pb_source_repo p)) in
  let* signs := if agent_work then host_signs_commits (pb_source_repo p) else ret false in
  let* tip := if signs : bool then signed p tip else ret tip in
  let* summary := push_commit (pb_checkout p) (pb_source_repo p) tip (pb_branch p) (pb_force p) in
  ret {| pd_summary := summary; pd_tip := tip |}.

(** ** Branches of a checkout *)

Definition current_branch (repo : string) : G (option string) :=
  let* out := git_output repo ["symbolic-ref"; "--short"; "-q"; "HEAD"] in
  match o_code out with
  | Some 0%Z => let name := trim (lossy_out out) in ret (if is_empty name then None else Some name)
  | Some 1%Z => ret None
  | _ => err (git_error ("symbolic-ref failed: " +:+ lossy_err out))
  end.

Definition branch_exists (repo branch : string) : G bool :=
  let* out := git_output repo ["show-ref"; "--verify"; "--quiet"; "refs/heads/" +:+ branch] in
  match o_code out with
  | Some 0%Z => ret true
  | Some 1%Z => ret false
  | _ => err (git_error ("show-ref failed: " +:+ lossy_err out))
  end.

Definition has_origin_tracking_ref (checkout branch : string) : G bool :=
  let* out := git_output checkout ["show-ref"; "--verify"; "--quiet"; "refs/remotes/origin/" +:+ branch] in
  ret (eqb (o_code out) (Some 0%Z)).

Definition branch_name_taken (checkout branch : string) : G bool :=
  let* exists_ := branch_exists checkout branch in
  if exists_ : bool then ret true else has_origin_tracking_ref checkout branch.

Definition checkout_new_branch (checkout branch : string) : G () :=
  let* _ := run_git checkout ["checkout"; "-b"; branch] ("checkout -b " +:+ branch) in ret ().

Definition MAX_BRANCH_SUFFIX : nat := 1000.

Definition candidate (desired : string) (n : nat) : string :=
  if (n =? 1)%nat then desired else desired +:+ "-" +:+ show_nat n.

Fixpoint first_free (checkout desired : string) (tries n : nat) : G string :=
  match tries with
  | O => err (git_error ("no free branch name for `" +:+ desired +:+ "` within 1000 tries"))
  | S tries =>
      let name := candidate desired n in
      let* taken := branch_name_taken checkout name in
      if taken : bool then first_free checkout desired tries (S n)
      else
        let* _ := checkout_new_branch checkout name in
        ret name
  end.

Definition checkout_new_unique_branch (checkout desired : string) : G string :=
  first_free checkout desired MAX_BRANCH_SUFFIX 1.

Definition remote_branch_exists (checkout source_repo branch : string) : G (option bool) :=
  let* t := attempt_ok (open checkout source_repo) in
  match t with
  | None => ret None
  | Some t =>
      let* found := attempt_ok (tip t (t_fetch_remote t) branch) in
      ret (is_some <$> found)
  end.

End Signing.

(** ** What a publish does to the world *)

Section Publishing.
Context `{GitHost} `{Guests}.

(** An act on this machine, or a question to one of the remotes of the user's repository. *)
Definition reading (source : string) (a : Act) : Prop :=
  local a \/ exists t, t_source_repo t = source /\ reads_remote t a.

(** The push of [commit]: to a push URL of the user's [origin], the exact commit to the full name
    of the branch, with a lease exactly when forced, and then to the only push URL there is. *)
Definition pushes (source branch : string) (force : bool) (commit : string) (a : Act) : Prop :=
  match a with
  | Run cmd _ => exists t lease url,
      t_source_repo t = source /\ url ∈ t_push_remotes t /\
      carries t (["push"] ++ lease ++ [url; commit +:+ ":refs/heads/" +:+ branch]) cmd /\
      (force = false -> lease = []) /\
      (force = true -> (exists expected, lease = [lease_arg branch expected]) /\
                       length (t_push_remotes t) <= 1)
  | _ => False
  end.

Context (source : string) (P : Act -> Prop) (HP : forall a, reading source a -> P a).

Lemma Plocal a : local a -> P a.
Proof. intros Ha. apply HP. by left. Qed.

Lemma Preads t a : t_source_repo t = source -> reads_remote t a -> P a.
Proof. intros Ht Ha. apply HP. right. eauto. Qed.

Lemma quiet_git dir args : off_wire args -> quiet P (git_output dir args).
Proof. apply quiet_git_local, Plocal. Qed.

Lemma quiet_stdin dir args env input : off_wire args -> quiet P (git_output_stdin dir args env input).
Proof. apply quiet_stdin_local, Plocal. Qed.

Lemma quiet_configured_email repo : quiet P (configured_email repo).
Proof. unfold configured_email. apply quiet_bind; [by apply quiet_git|]. intros; apply quiet_ret. Qed.

Lemma quiet_branch_tip repo branch : quiet P (branch_tip repo branch).
Proof.
  unfold branch_tip. apply quiet_bind; [by apply quiet_git|].
  intros o. destruct (success o); [apply quiet_ret|apply quiet_err].
Qed.

Lemma quiet_foreign_committers repo tip email : quiet P (foreign_committers repo tip email).
Proof.
  unfold foreign_committers. apply quiet_bind; [by apply quiet_git|].
  intros o. destruct (success o); [apply quiet_ret|apply quiet_err].
Qed.

(** The check answers for the very tip it was given. *)
Lemma emits_check_identity_of repo branch tip :
  emits P (fun id => match id with Own t => t = tip | Foreign _ => True end)
    (check_identity_of repo branch tip).
Proof.
  unfold check_identity_of. eapply quiet_bind_emits; [apply quiet_configured_email|].
  intros [email|]; [|by apply emits_ret].
  eapply quiet_bind_emits; [apply quiet_foreign_committers|]. intros []; by apply emits_ret.
Qed.

Lemma quiet_check_identity repo branch : quiet P (check_identity repo branch).
Proof.
  unfold check_identity. apply quiet_bind; [apply quiet_branch_tip|]. intros.
  eapply emits_quiet, emits_check_identity_of.
Qed.

Lemma quiet_host_signs_commits repo : quiet P (host_signs_commits repo).
Proof. unfold host_signs_commits. apply quiet_bind; [by apply quiet_git|]. intros; apply quiet_ret. Qed.

Lemma quiet_missing_commits checkout commits : quiet P (missing_commits checkout commits).
Proof.
  unfold missing_commits. destruct commits; [apply quiet_ret|].
  apply quiet_bind; [by apply quiet_stdin|]. intros; apply quiet_ret.
Qed.

Lemma quiet_map_err {A} f (m : G A) : quiet P m -> quiet P (map_err f m).
Proof.
  intros Hm. unfold map_err. apply quiet_bind; [by apply quiet_attempt|].
  intros []; [apply quiet_ret|apply quiet_err].
Qed.

Lemma quiet_refresh_attempts n t checkout : t_source_repo t = source -> quiet P (refresh_attempts n t checkout).
Proof.
  intros Ht. induction n as [|n IH]; cbn [refresh_attempts]; [apply quiet_err|].
  apply quiet_bind.
  { apply quiet_map_err, (quiet_fetch_branches_within P t Plocal). intros a. by apply Preads. }
  intros _. apply quiet_bind.
  { apply quiet_map_err, (quiet_published_tips P t Plocal). intros a. by apply Preads. }
  intros tips. apply quiet_bind; [apply quiet_missing_commits|]. intros []; [apply quiet_ret|done].
Qed.

Lemma quiet_refresh checkout : quiet P (refresh_remote_refs checkout source).
Proof.
  unfold refresh_remote_refs. eapply emits_bind; [apply (emits_open P Plocal)|].
  intros t [Ht _]. by apply quiet_refresh_attempts.
Qed.

Lemma quiet_unpublished_commits checkout tip published : quiet P (unpublished_commits checkout tip published).
Proof.
  unfold unpublished_commits. apply quiet_bind; [apply quiet_missing_commits|].
  intros []; [|apply quiet_err]. apply quiet_bind; [by apply quiet_stdin|].
  intros o. destruct (success o); [apply quiet_ret|apply quiet_err].
Qed.

Lemma commit_tree_local cmd args env input :
  (exists aw, cmd_args cmd = config_overrides_scoped aw) ->
  off_wire args -> is_network (with_stdin (with_env (with_args cmd args) env) input) = false.
Proof. intros (aw & E). unfold is_network, off_wire, wire_args. cbn. by rewrite E, sub_args_overrides. Qed.

Lemma emits_object_command t :
  emits P (fun cmd => exists base, hardened (t_source_repo t) base /\
    cmd = match t_split t with
          | Some split => with_env base [("GIT_OBJECT_DIRECTORY", sp_objects split)]
          | None => base
          end) (object_command t).
Proof. unfold object_command. eapply emits_bind; [apply emits_command|]. intros. apply emits_ret. eauto. Qed.

Lemma quiet_commit_signed t commit parents : quiet P (commit_signed t commit parents).
Proof.
  unfold commit_signed. eapply emits_bind; [apply emits_object_command|].
  intros cmd (base & (_ & _ & _ & aw & E) & ->). cbv zeta. apply quiet_bind.
  { apply (emits_output_within _ (fun _ => True)); [|done]. intros out. apply Plocal. cbn.
    apply commit_tree_local; [|done]. exists aw. by destruct (t_split t). }
  intros o. destruct (success o); [apply quiet_ret|apply quiet_err].
Qed.

Lemma quiet_sign_each t checkout shas m : quiet P (sign_each t checkout shas m).
Proof.
  revert m. induction shas as [|sha shas IH]; intros m; cbn [sign_each]; [apply quiet_ret|].
  apply quiet_bind; [by apply quiet_git|]. intros raw. destruct (success raw); [|apply quiet_err].
  destruct (rawcommit_parse _); [|apply quiet_err].
  apply quiet_bind; [apply quiet_commit_signed|]. done.
Qed.

Lemma quiet_sign_unpublished checkout tip published : quiet P (sign_unpublished checkout source tip published).
Proof.
  unfold sign_unpublished. apply quiet_bind; [apply quiet_unpublished_commits|].
  intros [|u us]; [apply quiet_ret|].
  apply quiet_bind; [eapply emits_quiet, (emits_open P Plocal)|]. intros t.
  apply quiet_bind; [apply quiet_sign_each|]. intros; apply quiet_ret.
Qed.

Lemma quiet_move_branch checkout branch from to : quiet P (move_branch checkout branch from to).
Proof.
  unfold move_branch. apply quiet_bind; [apply quiet_attempt, quiet_branch_tip|].
  intros [a|]; [|apply quiet_ret]. destruct (String.eqb a from); [|apply quiet_err].
  apply quiet_bind; [by apply quiet_git|]. intros o. destruct (success o); [apply quiet_ret|apply quiet_err].
Qed.

Lemma quiet_signed p tip : pb_source_repo p = source -> quiet P (signed p tip).
Proof.
  intros Hs. unfold signed. rewrite Hs. apply quiet_bind; [apply quiet_refresh|]. intros published.
  apply quiet_bind; [eapply emits_quiet, emits_check_identity_of|]. intros [t|]; [|apply quiet_err].
  apply quiet_bind; [apply quiet_map_err, quiet_sign_unpublished|]. intros s.
  destruct (String.eqb s t); [apply quiet_ret|].
  apply quiet_bind; [apply (quiet_box P Plocal)|]. intros _.
  apply quiet_bind; [apply quiet_move_branch|]. intros; apply quiet_ret.
Qed.

Lemma quiet_require_integrated checkout branch expected : quiet P (require_integrated checkout branch expected).
Proof.
  unfold require_integrated. apply quiet_bind; [by apply quiet_git|]. intros o. cbv zeta.
  apply quiet_bind; [|intros []; [apply quiet_ret|apply quiet_err]].
  destruct (lfilter _ _); [apply quiet_ret|].
  apply quiet_bind; [by apply quiet_stdin|]. intros; apply quiet_ret.
Qed.

Lemma quiet_push_each t urls lease commit branch force up :
  t_source_repo t = source -> (forall u, u ∈ urls -> u ∈ t_push_remotes t) ->
  (force = false -> lease = []) ->
  (force = true -> (exists expected, lease = [lease_arg branch expected]) /\ length (t_push_remotes t) <= 1) ->
  (forall a, pushes source branch force commit a -> P a) ->
  quiet P (push_each t urls lease (commit +:+ ":refs/heads/" +:+ branch) up).
Proof.
  intros Ht Hu Hf0 Hf1 Hp. revert up. induction urls as [|u urls IH]; intros up; cbn [push_each]; [apply quiet_ret|].
  apply quiet_bind.
  { unfold push. eapply emits_bind; [apply emits_transport_command|]. intros cmd Hc.
    apply (emits_output_within _ (fun _ => True)); [|done]. intros out. apply Hp.
    exists t, lease, u. split_and!; [done|apply Hu; set_solver|by apply carries_args|done|done]. }
  intros o. destruct (success o); [|apply quiet_err]. cbv zeta. apply IH. set_solver.
Qed.

Lemma quiet_push_source checkout commit branch force :
  (forall a, pushes source branch force commit a -> P a) ->
  quiet P (push_source checkout source commit branch force).
Proof.
  intros Hp. unfold push_source. eapply emits_bind; [apply (emits_open P Plocal)|]. intros t (Ht & _ & Hne).
  cbv zeta. destruct (force && _) eqn:Hmany; [apply quiet_err|].
  apply quiet_bind; [apply (quiet_resolve P Plocal)|]. intros pushed.
  eapply (emits_bind _ (fun lease => (force = false -> lease = []) /\
    (force = true -> exists expected, lease = [lease_arg branch expected]))).
  { destruct force; [|by apply emits_ret]. eapply quiet_bind_emits.
    { apply (quiet_tip P t); [intros a; by apply Preads|]. apply (proj2 (remotes_spec t _)). right.
      destruct (t_push_remotes t); [done|]. set_solver. }
    intros expected. eapply quiet_bind_emits.
    { destruct (opt_filter _ _); [apply quiet_require_integrated|apply quiet_ret]. }
    intros _. apply emits_ret. split; [done|]. eauto. }
  intros lease [Hf0 Hf1]. apply quiet_bind.
  { apply quiet_push_each with (force := force); try done. intros ->. split; [by apply Hf1|].
    rewrite andb_true_l in Hmany. apply Nat.ltb_ge in Hmany. exact Hmany. }
  intros up. apply quiet_bind; [|intros; apply quiet_ret].
  destruct pushed; [apply (quiet_record_pushed P Plocal)|apply quiet_ret].
Qed.
End Publishing.

(** ** The signed copies *)

Section Copies.
Context `{GitHost} `{Guests}.

(** What a git command answered, and where and how it ran. *)
Definition ran (dir : string) (args : list string) (o : Output) (l : list Act) : Prop :=
  exists cmd, Run cmd (Some (Ok o)) ∈ l /\ cmd_dir cmd = dir /\ sub_args (cmd_args cmd) = args.

Lemma ran_mono dir args o l l' : ran dir args o l -> (forall a, a ∈ l -> a ∈ l') -> ran dir args o l'.
Proof. intros (cmd & Hin & ?) Hl. exists cmd. auto. Qed.

Lemma git_output_ran dir args :
  acts (git_output dir args)
    (fun l r => forall o, r = Ok o -> ran dir (sub_args args) o l).
Proof.
  unfold git_output, git_output_env. apply acts_bind.
  eapply acts_quiet; [apply quiet_refuse_steerable_config|]. intros l1 [[]|e] _; [|done].
  apply acts_bind. eapply acts_mono; [apply (emits_command_env (fun _ => True))|].
  intros l2 [cmd|e] [_ Hc]; [|done]. specialize (Hc _ eq_refl).
  unfold output_within. apply acts_bind, acts_run.
  intros [[o|e]|]; [apply acts_ret|by apply acts_err..].
  intros ? [= <-]. exists (with_args cmd args). split; [set_solver|].
  split; [apply Hc|]. by eapply hardened_sub_args.
Qed.

(** The copy of [sha]: made by [commit-tree -S] in the user's repository over the checkout's
    objects, from the tree, message, identities and dates [cat-file] printed, over the parents
    [parent] maps. *)
Definition signed_copy (t : Transport) (checkout : string) (l : list Act) (parent : string -> string)
    (sha copy : string) : Prop := exists raw c cmd o,
  ran checkout ["cat-file"; "commit"; sha] raw l /\ success raw = true /\
  rawcommit_parse (o_stdout raw) = Some c /\
  Run cmd (Some (Ok o)) ∈ l /\ cmd_dir cmd = t_source_repo t /\
  sub_args (cmd_args cmd) = ["commit-tree"; "-S"; rc_tree c]
                            ++ flat_map (fun p => ["-p"; p]) (parent <$> rc_parents c) /\
  cmd_stdin cmd = rc_message c /\
  (forall k v, (k, v) ∈ commit_env c -> env_of cmd k = Some (Some v)) /\
  (forall split, t_split t = Some split ->
     env_of cmd "GIT_OBJECT_DIRECTORY" = Some (Some (sp_objects split))) /\
  success o = true /\ copy = trim (lossy_out o).

Lemma signed_copy_mono t checkout l l' parent parent' sha copy :
  signed_copy t checkout l parent sha copy -> (forall a, a ∈ l -> a ∈ l') ->
  (forall p, parent p = parent' p) -> signed_copy t checkout l' parent' sha copy.
Proof.
  intros (raw & c & cmd & o & Hr & Hs & Hp & Hin & Hd & Ha & Hrest) Hl Hparent.
  exists raw, c, cmd, o. split; [by eapply ran_mono|]. split; [done|]. split; [done|]. split; [by apply Hl|].
  split; [done|]. split; [|exact Hrest]. rewrite Ha. do 2 f_equal. by apply list_fmap_ext.
Qed.

Lemma commit_env_eq c : commit_env c =
  [ ("GIT_AUTHOR_NAME", id_name (rc_author c)); ("GIT_AUTHOR_EMAIL", id_email (rc_author c));
    ("GIT_AUTHOR_DATE", id_date (rc_author c)); ("GIT_COMMITTER_NAME", id_name (rc_committer c));
    ("GIT_COMMITTER_EMAIL", id_email (rc_committer c));
    ("GIT_COMMITTER_DATE", id_date (rc_committer c)) ].
Proof. reflexivity. Qed.

Lemma env_of_commit cmd c k v :
  (k, v) ∈ commit_env c -> env_of (with_env cmd (commit_env c)) k = Some (Some v).
Proof.
  rewrite commit_env_eq, !elem_of_cons, elem_of_nil.
  intros Hk. unfold env_of. cbn [cmd_env with_env]. rewrite lfilter_app.
  repeat (destruct Hk as [[= -> ->]|Hk]; [cbn; by rewrite last_snoc|]). destruct Hk.
Qed.

Lemma commit_signed_copy t c parents :
  acts (commit_signed t c parents) (fun l r => forall copy, r = Ok copy -> exists cmd o,
    Run cmd (Some (Ok o)) ∈ l /\ cmd_dir cmd = t_source_repo t /\
    sub_args (cmd_args cmd) = ["commit-tree"; "-S"; rc_tree c] ++ flat_map (fun p => ["-p"; p]) parents /\
    cmd_stdin cmd = rc_message c /\
    (forall k v, (k, v) ∈ commit_env c -> env_of cmd k = Some (Some v)) /\
    (forall split, t_split t = Some split ->
       env_of cmd "GIT_OBJECT_DIRECTORY" = Some (Some (sp_objects split))) /\
    success o = true /\ copy = trim (lossy_out o)).
Proof.
  unfold commit_signed. apply acts_bind. eapply acts_mono; [apply (emits_object_command (fun _ => True))|].
  intros l1 [cmd|e] [_ Hc]; [|done]. destruct (Hc _ eq_refl) as (base & (Hd & _ & _ & aw & Ea) & ->).
  cbv zeta. apply acts_bind. unfold output_with_stdin, output_within. apply acts_bind, acts_run.
  set (args := ["commit-tree"; "-S"; rc_tree c] ++ _).
  intros [[o|e]|]; [apply acts_ret|by apply acts_err..].
  destruct (success o) eqn:Ho; [apply acts_ret|by apply acts_err].
  intros copy [= <-]. eexists _, o. split; [apply elem_of_app; right; apply elem_of_app; left; apply list_elem_of_here|].
  cbn [cmd_dir cmd_stdin with_stdin with_env with_args]. split_and!; try done.
  - by destruct (t_split t).
  - cbn [cmd_args with_stdin with_env with_args].
    destruct (t_split t); cbn [cmd_args with_env]; by rewrite Ea, sub_args_overrides.
  - intros k v Hk. by apply (env_of_commit (with_args _ args)).
  - intros split E. rewrite E. unfold env_of. cbn [cmd_env with_stdin with_env with_args].
    rewrite last_filter_app; [|apply set_env_free].
    + rewrite lfilter_app. cbn. by rewrite last_snoc.
    + rewrite commit_env_eq. cbn. rewrite !elem_of_cons, elem_of_nil. naive_solver discriminate.
Qed.

Lemma sign_each_copies t checkout shas m :
  NoDup shas ->
  acts (sign_each t checkout shas m) (fun l r => forall m', r = Ok m' ->
    (forall k, k ∉ shas -> m' !! k = m !! k) /\
    forall i sha, shas !! i = Some sha -> exists copy, m' !! sha = Some copy /\
      signed_copy t checkout l
        (fun p => if decide (p ∈ drop i shas) then copy_of m p else copy_of m' p) sha copy).
Proof.
  intros Hnd. revert m. induction Hnd as [|sha shas Hsha Hnd IH]; intros m; cbn [sign_each].
  { apply acts_ret. intros m' [= <-]. split; [done|]. intros i sha' E. by rewrite lookup_nil in E. }
  apply acts_bind. eapply acts_mono; [apply git_output_ran|]. intros l1 [raw|e] Hraw; [|done].
  specialize (Hraw _ eq_refl). cbn [sub_args] in Hraw. change (sub_args ["cat-file"; "commit"; sha])
    with ["cat-file"; "commit"; sha] in Hraw.
  destruct (success raw) eqn:Hsuccess; [|by apply acts_err].
  destruct (rawcommit_parse (o_stdout raw)) as [c|] eqn:Hparse; [|by apply acts_err].
  apply acts_bind. eapply acts_mono; [apply commit_signed_copy|]. intros l2 [copy|e] Hcopy; [|done].
  destruct (Hcopy _ eq_refl) as (cmd & o & Hin & Hd & Ha & Hrest).
  eapply acts_mono; [apply IH|]. intros l3 r Hr m' ->. destruct (Hr _ eq_refl) as [Hout Hall].
  split.
  - intros k Hk. rewrite Hout by set_solver. apply lookup_insert_ne. set_solver.
  - intros [|i] sha' Ei; cbn in Ei.
    + injection Ei as <-. exists copy. split.
      { rewrite Hout by done. apply lookup_insert_eq. }
      exists raw, c, cmd, o. split; [eapply ran_mono; [exact Hraw|set_solver]|].
      split; [done|]. split; [done|].
      split; [set_solver|]. split; [done|]. split; [|exact Hrest].
      { rewrite Ha. do 2 f_equal. apply list_fmap_ext. intros _ p _. rewrite drop_0.
        destruct (decide (p ∈ sha :: shas)) as [|Hp]; [done|]. unfold copy_of.
        rewrite Hout, lookup_insert_ne by set_solver. done. }
    + destruct (Hall _ _ Ei) as (copy' & E' & Hc). exists copy'. split; [done|].
      eapply signed_copy_mono; [exact Hc|set_solver|]. intros p. cbn [drop].
      destruct (decide (p ∈ drop i shas)) as [Hp|]; [|done]. unfold copy_of.
      rewrite lookup_insert_ne; [done|]. intros <-. apply Hsha.
      eapply elem_of_submseteq; [exact Hp|]. apply sublist_submseteq, sublist_drop.
Qed.
End Copies.

Section Settled.
Context `{GitHost} `{Guests}.

(** The commit was printed by a signing [commit-tree] in the user's repository. *)
Definition made_by_signer (source : string) (l : list Act) (commit : string) : Prop := exists o rest,
  ran source ("commit-tree" :: "-S" :: rest) o l /\ success o = true /\ commit = trim (lossy_out o).

Lemma made_mono source l l' c : made_by_signer source l c -> (forall a, a ∈ l -> a ∈ l') -> made_by_signer source l' c.
Proof. intros (o & rest & Hr & ?) Hl. exists o, rest. split; [by eapply ran_mono|done]. Qed.

Lemma sign_each_made t checkout shas m :
  acts (sign_each t checkout shas m) (fun l r => forall m', r = Ok m' ->
    forall k v, m' !! k = Some v -> m !! k = Some v \/ made_by_signer (t_source_repo t) l v).
Proof.
  revert m. induction shas as [|sha shas IH]; intros m; cbn [sign_each].
  { apply acts_ret. intros m' [= <-]. by left. }
  apply acts_bind. eapply acts_mono; [apply git_output_ran|]. intros l1 [raw|e] _; [|done].
  destruct (success raw); [|by apply acts_err].
  destruct (rawcommit_parse (o_stdout raw)) as [c|]; [|by apply acts_err].
  apply acts_bind. eapply acts_mono; [apply commit_signed_copy|]. intros l2 [copy|e] Hcopy; [|done].
  destruct (Hcopy _ eq_refl) as (cmd & o & Hin & Hd & Ha & _ & _ & _ & Ho & E).
  eapply acts_mono; [apply IH|]. intros l3 r Hr m' -> k v Hk.
  destruct (Hr _ eq_refl _ _ Hk) as [Hv|Hv]; [|right; eapply made_mono; [exact Hv|set_solver]].
  apply lookup_insert_Some in Hv as [[<- <-]|[_ Hv]]; [right|by left].
  eexists o, _. split; [|done]. exists cmd. split; [set_solver|]. split; [done|exact Ha].
Qed.

Lemma sign_unpublished_made checkout source tip published :
  acts (sign_unpublished checkout source tip published)
    (fun l r => forall s, r = Ok s -> s = tip \/ made_by_signer source l s).
Proof.
  unfold sign_unpublished. apply acts_bind.
  eapply acts_quiet; [apply (quiet_unpublished_commits source (fun _ => True)); done|].
  intros l1 [[|u us]|e] _; [apply acts_ret; intros ? [= <-]; by left| |done].
  apply acts_bind. eapply acts_mono; [by apply (emits_open (fun _ => True))|].
  intros l2 [t|e] [_ Ht]; [|done]. destruct (Ht _ eq_refl) as [Hs _].
  apply acts_bind. eapply acts_mono; [apply sign_each_made|]. intros l3 [m|e] Hm; [|done].
  apply acts_ret. intros s [= <-]. unfold copy_of. destruct (m !! tip) as [c|] eqn:E; [|by left].
  right. cbn. destruct (Hm _ eq_refl _ _ E) as [Hc|Hc]; [by rewrite lookup_empty in Hc|].
  rewrite <-Hs. eapply made_mono; [exact Hc|]. set_solver.
Qed.

Lemma acts_map_err {A} f (m : G A) R :
  acts m R -> acts (map_err f m) (fun l r => forall a, r = Ok a -> R l (Ok a)).
Proof.
  intros Hm. unfold map_err. apply acts_bind, acts_attempt. eapply acts_mono; [exact Hm|].
  intros l [a|e] HR; [apply acts_ret|by apply acts_err]. rewrite app_nil_r. by intros ? [= <-].
Qed.

(** The user's repository was asked, and its own settings say commits are signed. *)
Definition wants_signing (source : string) (l : list Act) : Prop := exists o,
  ran source ["config"; "--type=bool"; "--show-scope"; "--get-all"; "commit.gpgsign"] o l /\
  success o = true /\ signing_requested (lossy_out o) = true.

Lemma host_signs_wanted source :
  acts (host_signs_commits source) (fun l r => r = Ok true -> wants_signing source l).
Proof.
  unfold host_signs_commits. apply acts_bind. eapply acts_mono; [apply git_output_ran|].
  intros l1 [o|e] Ho; [|done]. apply acts_ret. rewrite app_nil_r. intros [= E].
  apply andb_true_iff in E as [? ?]. exists o. split; [by apply Ho|done].
Qed.

(** The identity check of the tip itself, in the checkout, found nobody else. *)
Definition own_commits (checkout tip : string) (l : list Act) : Prop :=
  (exists o, ran checkout ["config"; "--get"; "user.email"] o l /\ is_empty (trim (lossy_out o)) = true) \/
  exists o oe, ran checkout ["config"; "--get"; "user.email"] oe l /\
    ran checkout ["log"; "--format=%ce"; tip; "--not"; "--remotes=origin"; "--"] o l /\
    success o = true /\ foreign_emails (trim (lossy_out oe)) [] (lines (lossy_out o)) = [].

Lemma own_mono checkout tip l l' : own_commits checkout tip l -> (forall a, a ∈ l -> a ∈ l') -> own_commits checkout tip l'.
Proof.
  intros [(o & Hr & He)|(o & oe & He & Hr & Hs)] Hl.
  - left. exists o. split; [by eapply ran_mono|done].
  - right. exists o, oe. split; [by eapply ran_mono|]. split; [by eapply ran_mono|done].
Qed.

Lemma check_identity_own checkout branch tip :
  acts (check_identity_of checkout branch tip)
    (fun l r => forall t, r = Ok (Own t) -> t = tip /\ own_commits checkout tip l).
Proof.
  unfold check_identity_of, configured_email, foreign_committers. apply acts_bind, acts_bind.
  eapply acts_mono; [apply git_output_ran|]. intros l1 [oe|e] He; [|done]. specialize (He _ eq_refl).
  apply acts_ret. destruct (is_empty (trim (lossy_out oe))) eqn:Hempty.
  { apply acts_ret. intros t [= <-]. split; [done|]. left. exists oe. split; [|done].
    eapply ran_mono; [exact He|set_solver]. }
  apply acts_bind, acts_bind. eapply acts_mono; [apply git_output_ran|].
  intros l2 [o|e] Ho; [|done]. specialize (Ho _ eq_refl). destruct (success o) eqn:Hs; [|by apply acts_err].
  apply acts_ret. destruct (foreign_emails _ _ _) eqn:Hf; [|by apply acts_ret].
  apply acts_ret. intros t [= <-]. split; [done|]. right. exists o, oe.
  split; [eapply ran_mono; [exact He|set_solver]|].
  split; [eapply ran_mono; [exact Ho|set_solver]|]. done.
Qed.

Lemma signed_settled p tip :
  acts (signed p tip) (fun l r => forall s, r = Ok s ->
    own_commits (pb_checkout p) tip l /\ (s = tip \/ made_by_signer (pb_source_repo p) l s)).
Proof.
  unfold signed. apply acts_bind.
  eapply acts_quiet; [apply (quiet_refresh (pb_source_repo p) (fun _ => True)); done|].
  intros l1 [published|e] _; [|done]. apply acts_bind.
  eapply acts_mono; [apply check_identity_own|]. intros l2 [[t|why]|e] Hid; [|by apply acts_err|done].
  destruct (Hid _ eq_refl) as [-> Hown].
  apply acts_bind. eapply acts_mono; [apply acts_map_err, sign_unpublished_made|].
  intros l3 [s|e] Hs; [|done]. specialize (Hs _ eq_refl _ eq_refl).
  assert (forall l4 : list Act, own_commits (pb_checkout p) tip (l1 ++ l2 ++ l3 ++ l4) /\
    (s = tip \/ made_by_signer (pb_source_repo p) (l1 ++ l2 ++ l3 ++ l4) s)) as Hall.
  { intros l4. split; [eapply own_mono; [exact Hown|set_solver]|].
    destruct Hs as [?|Hs]; [by left|right; eapply made_mono; [exact Hs|set_solver]]. }
  destruct (String.eqb s tip); [apply acts_ret; by intros ? [= <-]|].
  apply acts_bind. eapply acts_quiet; [by apply (quiet_box (fun _ => True))|].
  intros l4 [[]|e] _; [|done]. apply acts_bind.
  eapply acts_quiet; [by apply (quiet_move_branch (pb_source_repo p) (fun _ => True))|].
  intros l5 [[]|e] _; [|done]. apply acts_ret. intros ? [= <-]. apply Hall.
Qed.
End Settled.

Section OnePush.
Context `{GitHost} `{Guests}.

(** Why [commit] is what a publish of [sha] sends: it is [sha] itself, or the signed copy the
    user's own settings asked for; and whenever it was signed for, the identity check passed [sha]
    in the same publish. *)
Definition settled (p : Publication) (l : list Act) (sha commit : string) : Prop :=
  commit = sha \/
  (path_eqb (pb_checkout p) (pb_source_repo p) = false /\ wants_signing (pb_source_repo p) l /\
   own_commits (pb_checkout p) sha l /\ made_by_signer (pb_source_repo p) l commit).

Lemma settled_mono p l l' sha c : settled p l sha c -> (forall a, a ∈ l -> a ∈ l') -> settled p l' sha c.
Proof.
  intros [?|(? & (o & Hw & ?) & Hown & Hmade)] Hl; [by left|right]. split; [done|].
  split; [exists o; split; [by eapply ran_mono|done]|].
  split; [by eapply own_mono|by eapply made_mono].
Qed.

(** What the push sends is decided before it: by [settle] of the tip. *)
Lemma acts_settle p sha :
  acts (let* signs := if negb (path_eqb (pb_checkout p) (pb_source_repo p))
                      then host_signs_commits (pb_source_repo p) else ret false in
        if signs : bool then signed p sha else ret sha)
    (fun l r => Forall (reading (pb_source_repo p)) l /\
                forall commit, r = Ok commit -> settled p l sha commit).
Proof.
  apply acts_bind. destruct (path_eqb _ _) eqn:Hp; cbn [negb].
  { apply acts_ret, acts_ret. split; [done|]. intros ? [= <-]. by left. }
  eapply acts_mono.
  { apply acts_and; [apply host_signs_wanted|].
    apply (quiet_host_signs_commits (pb_source_repo p) (reading (pb_source_repo p))). done. }
  intros l1 [[]|e] [Hw [Hl1 _]]; [|apply acts_ret; rewrite app_nil_r; split; [done|intros ? [= <-]; by left]|done].
  specialize (Hw eq_refl). eapply acts_mono.
  { apply acts_and; [apply signed_settled|].
    apply (quiet_signed (pb_source_repo p) (reading (pb_source_repo p))); done. }
  intros l2 r [Hs [Hl2 _]]. split; [by apply Forall_app|]. intros commit ->.
  destruct (Hs _ eq_refl) as [Hown [->|Hmade]]; [by left|right]. destruct Hw as (o & Hw & Hok).
  split; [done|]. split; [exists o; split; [eapply ran_mono; [exact Hw|set_solver]|done]|].
  split; [eapply own_mono; [exact Hown|set_solver]|eapply made_mono; [exact Hmade|set_solver]].
Qed.

Lemma quiet_push_commit source (P : Act -> Prop) (HP : forall a, reading source a -> P a)
    checkout commit branch force :
  (forall a, pushes source branch force commit a -> P a) ->
  quiet P (push_commit checkout source commit branch force).
Proof.
  intros Hp. unfold push_commit. apply quiet_bind; [by apply quiet_push_source|]. intros s.
  apply quiet_bind; [|intros; apply quiet_ret]. by apply quiet_attempt, (quiet_git source P HP).
Qed.

(** A publish of an exact commit does two things: it reads (this machine's repositories, and what
    the remotes of the user's repository advertise), and it pushes one commit, by its full name to
    the branch, to the push URLs the user's repository names, run in that repository with its
    configuration; forced only when asked, with a lease, and then to a single URL. The commit is
    the one it was given, or its copy signed by the user's signer at the user's request, and only
    after the identity check passed the one given. *)
Theorem publish_pushes_one_settled_commit p sha :
  acts (publish p (TipCommit sha)) (fun l r => exists settling pushing commit,
    l = settling ++ pushing /\
    Forall (reading (pb_source_repo p)) settling /\
    Forall (fun a => reading (pb_source_repo p) a
                     \/ pushes (pb_source_repo p) (pb_branch p) (pb_force p) commit a) pushing /\
    (pushing = [] \/ settled p settling sha commit) /\
    forall pd, r = Ok pd -> pd_tip pd = commit /\ settled p settling sha commit).
Proof.
  unfold publish. apply acts_bind, acts_ret. cbv zeta. apply acts_assoc, acts_bind.
  eapply acts_mono; [apply acts_settle|].
  intros l1 [commit|e] [Hl1 Hc].
  2:{ exists l1, [], "". rewrite app_nil_r. split_and!; auto; discriminate. }
  specialize (Hc _ eq_refl). apply acts_bind.
  pose proof (quiet_push_commit (pb_source_repo p) (fun a => reading (pb_source_repo p) a
      \/ pushes (pb_source_repo p) (pb_branch p) (pb_force p) commit a)
    ltac:(by left) (pb_checkout p) commit (pb_branch p) (pb_force p) ltac:(by right)) as Hq.
  eapply acts_mono; [exact Hq|]. intros l2 [s|e] [Hl2 _].
  - apply acts_ret. exists l1, l2, commit. rewrite app_nil_r. split_and!; auto.
    by intros pd [= <-].
  - exists l1, l2, commit. split_and!; auto. all: try discriminate.
Qed.
End OnePush.

(** ** Reading a commit back *)

Definition show_ident (i : Ident) : string := id_name i +:+ " <" +:+ id_email i +:+ "> " +:+ id_date i.

(** The header lines git prints for a commit; [extra] stands after the committer, where a
    signature or an encoding goes. *)
Definition commit_lines (c : RawCommit) (extra : list string) : list string :=
  ("tree " +:+ rc_tree c) :: ((fun p => "parent " +:+ p) <$> rc_parents c)
  ++ [ "author " +:+ show_ident (rc_author c); "committer " +:+ show_ident (rc_committer c) ] ++ extra.

Definition commit_object (c : RawCommit) (extra : list string) : string :=
  join newline (commit_lines c extra) +:+ newline +:+ newline +:+ rc_message c.

Definition ident_ok (i : Ident) : Prop :=
  free_of "<" (id_name i) = true /\ free_of ">" (id_email i) = true /\
  trim (id_name i +:+ " ") = id_name i /\ trim (" " +:+ id_date i) = id_date i.

(** A header the copy does not carry, or a continuation line of one. *)
Definition other_header (line : string) : bool :=
  starts_with " " line ||
  match split_once " " line with
  | None => true
  | Some (key, _) => negb (lcontains ["tree"; "parent"; "author"; "committer"] key)
  end.

Definition header_line (l : string) : bool := negb (is_empty l) && plain_line l.

(** One step of the search, where no blank line starts. *)
Lemma split_headers_step b s :
  Ascii.eqb b newline_byte = false \/ (exists b' r, s = String b' r /\ Ascii.eqb b' newline_byte = false) ->
  split_headers (String b s) = (fun '(h, m) => (String b h, m)) <$> split_headers s.
Proof.
  intros Hb. cbn [split_headers]. change (newline +:+ newline) with (String newline_byte (String newline_byte "")).
  cbn [strip_prefix]. destruct Hb as [Hb|(b' & r & -> & Hb)].
  - by rewrite Ascii.eqb_sym, Hb.
  - rewrite (Ascii.eqb_sym newline_byte b'), Hb. by destruct (Ascii.eqb newline_byte b).
Qed.

Lemma split_headers_line l m :
  header_line l = true ->
  split_headers (l +:+ newline +:+ newline +:+ m) = Some (l, m).
Proof.
  unfold header_line, plain_line. intros [_ [Hl _]%andb_true_iff]%andb_true_iff.
  induction l as [|b l IH]; [by destruct m|].
  cbn [free_of] in Hl. apply andb_true_iff in Hl as [Hb Hl]. rewrite negb_true_iff in Hb.
  rewrite append_cons, split_headers_step by by left. by rewrite IH.
Qed.

Lemma split_headers_skip l rest h m :
  header_line l = true -> (exists b r, rest = String b r /\ Ascii.eqb b newline_byte = false) ->
  split_headers rest = Some (h, m) ->
  split_headers (l +:+ newline +:+ rest) = Some (l +:+ newline +:+ h, m).
Proof.
  unfold header_line, plain_line. intros [_ [Hl _]%andb_true_iff]%andb_true_iff Hrest Hr.
  induction l as [|b l IH].
  - change ("" +:+ newline +:+ ?x) with (String newline_byte x).
    rewrite split_headers_step by by right. by rewrite Hr.
  - cbn [free_of] in Hl. apply andb_true_iff in Hl as [Hb Hl]. rewrite negb_true_iff in Hb.
    rewrite !append_cons, split_headers_step by by left. by rewrite IH.
Qed.

Lemma header_line_head l x : header_line l = true ->
  exists b r, l +:+ x = String b r /\ Ascii.eqb b newline_byte = false.
Proof.
  unfold header_line, plain_line. destruct l as [|b l]; [done|]. cbn.
  intros [Hl _]%andb_true_iff. apply andb_true_iff in Hl as [Hb _]. rewrite negb_true_iff in Hb.
  exists b, (l +:+ x). done.
Qed.

Lemma split_headers_lines ls m :
  ls <> [] -> forallb header_line ls = true ->
  split_headers (join newline ls +:+ newline +:+ newline +:+ m) = Some (join newline ls, m).
Proof.
  induction ls as [|l ls IH]; [done|]. intros _. cbn [forallb]. intros [Hl Hls]%andb_true_iff.
  destruct ls as [|l' ls]; [by apply split_headers_line|].
  change (join newline (l :: l' :: ls)) with (l +:+ newline +:+ join newline (l' :: ls)).
  rewrite <-!append_assoc. apply split_headers_skip; [done| |by apply IH].
  cbn [forallb] in Hls. apply andb_true_iff in Hls as [Hl' _].
  destruct ls as [|l'' ls]; cbn [join String.concat]; [|rewrite <-append_assoc]; by apply header_line_head.
Qed.

Lemma lines_join ls :
  ls <> [] -> forallb header_line ls = true -> lines (join newline ls) = ls.
Proof.
  induction ls as [|l ls IH]; [done|]. intros _. cbn [forallb]. intros [Hl Hls]%andb_true_iff.
  pose proof Hl as [Hne Hp]%andb_true_iff. destruct ls as [|l' ls].
  - cbn [join String.concat]. unfold lines. rewrite split_on_free; [|by apply andb_true_iff in Hp as [? _]].
    cbn [finish_lines]. apply negb_true_iff in Hne. by rewrite Hne.
  - change (join newline (l :: l' :: ls)) with (l +:+ String newline_byte (join newline (l' :: ls))).
    rewrite lines_cons by done. f_equal. by apply IH.
Qed.

Lemma ident_parse_show i : ident_ok i -> ident_parse (show_ident i) = Some i.
Proof.
  intros (Hn & He & Htn & Htd). unfold ident_parse, show_ident.
  replace (id_name i +:+ " <" +:+ id_email i +:+ "> " +:+ id_date i)
    with ((id_name i +:+ " ") +:+ String "<" (id_email i +:+ String ">" (" " +:+ id_date i)))
    by (by rewrite <-append_assoc).
  rewrite split_once_app by (rewrite free_of_app, Hn; done).
  rewrite split_once_app by done. rewrite Htn, Htd. by destruct i.
Qed.

Lemma read_header_key h key v :
  free_of " " key = true -> key <> "" ->
  read_header h (key +:+ " " +:+ v) =
  {| hd_tree := if String.eqb key "tree" then Some v else hd_tree h;
     hd_parents := if String.eqb key "parent" then hd_parents h ++ [v] else hd_parents h;
     hd_author := if String.eqb key "author" then ident_parse v else hd_author h;
     hd_committer := if String.eqb key "committer" then ident_parse v else hd_committer h |}.
Proof.
  intros Hk Hne. unfold read_header. change (" " +:+ v) with (String " " v).
  rewrite (split_once_app " ") by done. destruct key as [|b key]; [done|].
  cbn [free_of] in Hk. apply andb_true_iff in Hk as [Hb _]. rewrite negb_true_iff in Hb.
  rewrite append_cons. unfold starts_with. cbn [strip_prefix]. rewrite Ascii.eqb_sym, Hb. done.
Qed.

Lemma read_other_headers extra h : forallb other_header extra = true -> fold_left read_header extra h = h.
Proof.
  revert h. induction extra as [|x extra IH]; intros h; [done|]. cbn [forallb fold_left].
  intros [Hx He]%andb_true_iff. rewrite <-(IH h) at 2 by done. f_equal.
  unfold other_header in Hx. unfold read_header. destruct (starts_with " " x); [done|]. cbn [orb] in Hx.
  destruct (split_once " " x) as [[key v]|]; [|done]. rewrite negb_true_iff in Hx.
  apply lcontains_false in Hx. destruct h. cbn.
  destruct (String.eqb_spec key "tree"), (String.eqb_spec key "parent"),
    (String.eqb_spec key "author"), (String.eqb_spec key "committer"); subst; set_solver || done.
Qed.

Lemma read_parents ps h :
  fold_left read_header ((fun p => "parent " +:+ p) <$> ps) h
  = {| hd_tree := hd_tree h; hd_parents := hd_parents h ++ ps; hd_author := hd_author h;
       hd_committer := hd_committer h |}.
Proof.
  revert h. induction ps as [|p ps IH]; intros h; [destruct h; by rewrite app_nil_r|].
  rewrite fmap_cons. cbn [fold_left]. change ("parent " +:+ p) with ("parent" +:+ " " +:+ p).
  rewrite read_header_key, IH by done. cbn. by rewrite <-app_assoc.
Qed.

(** A commit as git prints it, whatever other headers it has (an encoding, a signature over several
    lines), is read back whole: tree, parents in order, both identities, and the message byte for
    byte, blank lines and invalid UTF-8 included. *)
Theorem commit_read_back c extra :
  ident_ok (rc_author c) -> ident_ok (rc_committer c) ->
  forallb other_header extra = true -> forallb header_line (commit_lines c extra) = true ->
  from_utf8_lossy (join newline (commit_lines c extra)) = join newline (commit_lines c extra) ->
  rawcommit_parse (commit_object c extra) = Some c.
Proof.
  intros Ha Hc He Hl Hu. unfold rawcommit_parse, commit_object.
  rewrite split_headers_lines, Hu, lines_join by done. unfold commit_lines.
  cbn [fold_left]. rewrite !fold_left_app.
  change ("tree " +:+ rc_tree c) with ("tree" +:+ " " +:+ rc_tree c).
  rewrite read_header_key by done. rewrite read_parents. cbn [fold_left].
  change ("author " +:+ ?x) with ("author" +:+ " " +:+ x).
  change ("committer " +:+ ?x) with ("committer" +:+ " " +:+ x).
  rewrite !read_header_key, read_other_headers by done.
  rewrite !ident_parse_show by done. by destruct c.
Qed.

Definition demo_commit : RawCommit := {|
  rc_tree := "4b825d"; rc_parents := ["aaa"; "bbb"];
  rc_author := {| id_name := "Ada L"; id_email := "ada@x"; id_date := "1700000000 +0100" |};
  rc_committer := {| id_name := "Bob"; id_email := "bob@y"; id_date := "1700000001 -0500" |};
  rc_message := "fix" +:+ newline +:+ newline +:+ "tree of life" +:+ bytes [255; 10]%N;
|}.

Definition demo_signature : list string :=
  ["encoding latin1"; "gpgsig -----BEGIN-----"; " tree forged"; " -----END-----"].

Example commit_read_back_witness :
  rawcommit_parse (commit_object demo_commit demo_signature) = Some demo_commit.
Proof.
  refine (commit_read_back demo_commit demo_signature _ _ _ _ _); vm_compute; try reflexivity;
    repeat split.
Defined.

(** A repository with two commits to sign, for examples: [cat-file] prints them, the signer names
    its copies after their tree. *)
Definition demo_signer (n : nat) (cmd : Cmd) : option (result Output string) :=
  match sub_args (cmd_args cmd) with
  | ["cat-file"; "commit"; sha] =>
      exited 0 (commit_object {| rc_tree := "t" +:+ sha; rc_parents := if String.eqb sha "c2" then ["c1"] else ["base"];
        rc_author := rc_author demo_commit; rc_committer := rc_committer demo_commit;
        rc_message := "m" |} [])
  | "commit-tree" :: "-S" :: tree :: _ => exited 0 ("signed-" +:+ tree +:+ newline)
  | _ => exited 0 ""
  end.

Definition no_guests : Guests := {|
  h_transport_repo _ _ _ := Ok None; h_sync_tracking _ _ _ := Ok (); h_export_commit _ _ _ := Ok ();
|}.

Definition demo_transport : Transport := {|
  t_checkout := "/w/a"; t_guest := None; t_source_repo := "/u";
  t_split := Some {| sp_git_dir := "/w/a/.git"; sp_common_dir := "/u/.git"; sp_objects := "/w/a/.git/objects" |};
  t_fetch_remote := "https://github.com/o/r"; t_push_remotes := ["https://github.com/o/r"];
|}.

(** What git printed of a commit is [c], whatever other headers it has. *)
Definition prints (raw : Output) (c : RawCommit) : Prop := exists extra,
  o_stdout raw = commit_object c extra /\ ident_ok (rc_author c) /\ ident_ok (rc_committer c) /\
  forallb other_header extra = true /\ forallb header_line (commit_lines c extra) = true /\
  from_utf8_lossy (join newline (commit_lines c extra)) = join newline (commit_lines c extra).

(** [copy] was made of the commit [sha]: git printed the commit in the checkout, and a signing
    [commit-tree] in the user's repository, over the checkout's objects, answered [copy]; it was
    given the tree of the commit printed, the parents [parent] maps its parents to, in order, its
    message on its input, and in its environment who wrote and who committed it, and when. *)
Definition faithful_copy (t : Transport) (checkout : string) (l : list Act) (parent : string -> string)
    (sha copy : string) : Prop := exists raw cmd o,
  ran checkout ["cat-file"; "commit"; sha] raw l /\ success raw = true /\
  Run cmd (Some (Ok o)) ∈ l /\ cmd_dir cmd = t_source_repo t /\
  (forall split, t_split t = Some split -> env_of cmd "GIT_OBJECT_DIRECTORY" = Some (Some (sp_objects split))) /\
  success o = true /\ copy = trim (lossy_out o) /\
  forall c, prints raw c ->
    sub_args (cmd_args cmd) = ["commit-tree"; "-S"; rc_tree c] ++ flat_map (fun p => ["-p"; p]) (parent <$> rc_parents c) /\
    cmd_stdin cmd = rc_message c /\
    env_of cmd "GIT_AUTHOR_NAME" = Some (Some (id_name (rc_author c))) /\
    env_of cmd "GIT_AUTHOR_EMAIL" = Some (Some (id_email (rc_author c))) /\
    env_of cmd "GIT_AUTHOR_DATE" = Some (Some (id_date (rc_author c))) /\
    env_of cmd "GIT_COMMITTER_NAME" = Some (Some (id_name (rc_committer c))) /\
    env_of cmd "GIT_COMMITTER_EMAIL" = Some (Some (id_email (rc_committer c))) /\
    env_of cmd "GIT_COMMITTER_DATE" = Some (Some (id_date (rc_committer c))).

Lemma signed_faithful t checkout l parent parent' sha copy :
  signed_copy t checkout l parent sha copy -> (forall p, parent p = parent' p) ->
  faithful_copy t checkout l parent' sha copy.
Proof.
  intros (raw & c & cmd & o & Hr & Hs & Hp & Hin & Hd & Ha & Hm & He & Hg & Ho & Hc) Hparent.
  exists raw, cmd, o. split_and!; try done. intros c' (extra & Eo & Hok).
  destruct Hok as (H1 & H2 & H3 & H4 & H5). rewrite Eo, commit_read_back in Hp by done. injection Hp as ->.
  rewrite commit_env_eq in He.
  split; [rewrite Ha; do 2 f_equal; by apply list_fmap_ext|]. split; [done|].
  split_and!; apply He; rewrite !elem_of_cons; naive_solver.
Qed.

Section Faithful.
Context `{GitHost} `{Guests}.

(** (C26) Signing rewrites no content. Each unpublished commit, in order, gets a copy made by the
    user's signer in the user's repository; if what git printed of it is a commit, with whatever
    further headers (an encoding, a signature of several lines), the signing command was given
    exactly that commit's tree, its message byte for byte, and its author's and committer's names,
    addresses and dates, and as parents the signed copies of its own, parents already published as
    they are. A commit is what git prints: headers in UTF-8, no `<` or `>` in a name, nothing blank
    around it. *)
Theorem signed_copies_keep_everything t checkout shas :
  NoDup shas ->
  acts (sign_each t checkout shas ∅) (fun l r => forall m, r = Ok m ->
    (forall k, k ∉ shas -> m !! k = None) /\
    forall i sha, shas !! i = Some sha -> exists copy, m !! sha = Some copy /\
      faithful_copy t checkout l
        (fun p => if decide (p ∈ drop i shas) then p else copy_of m p) sha copy).
Proof.
  intros Hnd. eapply acts_mono; [by apply sign_each_copies|]. intros l r Hr m ->.
  destruct (Hr _ eq_refl) as [Hout Hall]. split; [intros k Hk; by rewrite Hout, lookup_empty|].
  intros i sha E. destruct (Hall _ _ E) as (copy & Em & Hc). exists copy. split; [done|].
  eapply signed_faithful; [exact Hc|]. intros p. cbn beta.
  destruct (decide (p ∈ drop i shas)); [|done]. unfold copy_of. by rewrite lookup_empty.
Qed.
End Faithful.

Example signed_copies_keep_everything_witness :
  let run := @sign_each (plain_host demo_signer) demo_transport "/w/a" ["c1"; "c2"] ∅ {| c_db := []; c_tick := 0 |} in
  (copy_of (match run.1 with Ok m => m | Err _ => ∅ end) "c2" = "signed-tc2") /\
  exists l, c_db run.2 = [] ++ l /\ forall m, run.1 = Ok m ->
    exists copy, m !! "c2" = Some copy /\
      faithful_copy demo_transport "/w/a" l
        (fun p => if decide (p ∈ drop 1 ["c1"; "c2"]) then p else copy_of m p) "c2" copy.
Proof.
  intros run. split; [vm_compute; reflexivity|].
  assert (NoDup ["c1"; "c2"]) as Hnd by (apply (bool_decide_unpack _); vm_compute; exact I).
  destruct (@signed_copies_keep_everything (plain_host demo_signer) demo_transport "/w/a" ["c1"; "c2"] Hnd
    {| c_db := []; c_tick := 0 |}) as (l & El & _ & Hl).
  exists l. split; [exact El|]. intros m Em. exact (proj2 (Hl m Em) 1 "c2" eq_refl).
Defined.

(** ** Forced pushes *)

Section Forced.
Context `{GitHost} `{Guests}.

(** The push remote [url] advertises [expected] at the branch, as it answered just now. *)
Definition advertised (t : Transport) (url branch : string) (expected : option string) (l : list Act) : Prop :=
  exists cmd o, Run cmd (Some (Ok o)) ∈ l /\
    carries t ["ls-remote"; "--heads"; url; "refs/heads/" +:+ branch] cmd /\ success o = true /\
    expected = snd <$> lfind (fun h => String.eqb h.1 branch) (omap parse_head (lines (lossy_out o))).

(** Everything [e] reaches is reached by an entry of the branch's reflog: [rev-list] of [e] without
    what the entries reach printed nothing. *)
Definition integrated (checkout branch e : string) (l : list Act) : Prop := exists reflog cmd o,
  ran checkout ["log"; "-g"; "--format=%H"; "refs/heads/" +:+ branch] reflog l /\
  let entries := lfilter (fun x => negb (is_empty x)) (trim <$> lines (lossy_out reflog)) in
  entries <> [] /\ Run cmd (Some (Ok o)) ∈ l /\ cmd_dir cmd = checkout /\
  sub_args (cmd_args cmd) = ["rev-list"; "-n"; "1"; "--stdin"] /\
  cmd_stdin cmd = e +:+ newline +:+ concat ((fun sha => "^" +:+ sha +:+ newline) <$> entries) /\
  success o = true /\ all_ascii_whitespace (o_stdout o) = true.

(** [e] is the commit being pushed. *)
Definition same_commit (checkout commit e : string) (l : list Act) : Prop := exists o,
  ran checkout ["rev-parse"; "--verify"; "--quiet"; commit +:+ "^{commit}"] o l /\
  trim (lossy_out o) = e.

Lemma tip_advertised t url branch :
  acts (tip t url branch) (fun l r => forall expected, r = Ok expected -> advertised t url branch expected l).
Proof.
  unfold tip, heads. apply acts_bind, acts_bind.
  eapply acts_mono; [apply (emits_transport_command (fun _ => True))|].
  intros l1 [cmd|e] [_ Hc]; [|done]. specialize (Hc _ eq_refl). cbv zeta. apply acts_bind.
  unfold output_timed, output_within. apply acts_bind, acts_run.
  intros [[o|e]|]; [apply acts_ret|by apply acts_err..].
  destruct (success o) eqn:Ho; [apply acts_ret|by apply acts_err]. apply acts_ret.
  intros ? [= <-]. exists (with_args cmd ["ls-remote"; "--heads"; url; "refs/heads/" +:+ branch]), o.
  split; [set_solver|]. split; [by apply carries_args|]. done.
Qed.

Lemma resolve_same checkout commit :
  acts (resolve checkout commit) (fun l r => forall e, r = Ok (Some e) -> same_commit checkout commit e l).
Proof.
  unfold resolve. apply acts_bind. eapply acts_mono; [apply git_output_ran|].
  intros l [o|e] Ho; [|done]. specialize (Ho _ eq_refl). apply acts_ret. rewrite app_nil_r.
  intros e. destruct (success o); [|done]. intros [= <-]. by exists o.
Qed.

Lemma git_output_stdin_ran dir args env input :
  acts (git_output_stdin dir args env input) (fun l r => forall o, r = Ok o -> exists cmd,
    Run cmd (Some (Ok o)) ∈ l /\ cmd_dir cmd = dir /\ sub_args (cmd_args cmd) = sub_args args /\
    cmd_stdin cmd = input).
Proof.
  unfold git_output_stdin. apply acts_bind.
  eapply acts_quiet; [apply quiet_refuse_steerable_config|]. intros l1 [[]|e] _; [|done].
  apply acts_bind. eapply acts_mono; [apply (emits_command_env (fun _ => True))|].
  intros l2 [cmd|e] [_ Hc]; [|done]. specialize (Hc _ eq_refl).
  unfold output_with_stdin, output_within. apply acts_bind, acts_run.
  intros [[o|e]|]; [apply acts_ret|by apply acts_err..].
  intros ? [= <-]. eexists. split; [apply elem_of_app; right; apply elem_of_app; right; apply list_elem_of_here|].
  split; [apply Hc|]. split; [by eapply (hardened_sub_args dir)|done].
Qed.

Lemma require_integrated_ok checkout branch e :
  acts (require_integrated checkout branch e) (fun l r => r = Ok () -> integrated checkout branch e l).
Proof.
  unfold require_integrated. apply acts_bind. eapply acts_mono; [apply git_output_ran|].
  intros l1 [reflog|e1] Hr; [|done]. specialize (Hr _ eq_refl). cbv zeta.
  change (sub_args _) with ["log"; "-g"; "--format=%H"; "refs/heads/" +:+ branch] in Hr.
  destruct (lfilter _ _) as [|x xs] eqn:Ee.
  { apply acts_bind, acts_ret, acts_err. done. }
  rewrite <-Ee. apply acts_bind, acts_bind. eapply acts_mono; [apply git_output_stdin_ran|].
  intros l2 [o|e1] Ho; [|done]. destruct (Ho _ eq_refl) as (cmd & Hin & Hd & Ha & Hs). apply acts_ret.
  destruct (success o && all_ascii_whitespace (o_stdout o)) eqn:Hb; [apply acts_ret|by apply acts_err].
  intros _. apply andb_true_iff in Hb as [? ?]. exists reflog, cmd, o.
  split; [eapply ran_mono; [exact Hr|set_solver]|]. cbv zeta. rewrite Ee. split; [done|].
  split; [set_solver|]. split; [done|]. split; [done|]. split; [by rewrite <-Ee|done].
Qed.

(** The check that lets the lease through. *)
Lemma expected_integrated source checkout branch expected pushed :
  acts (match opt_filter (fun e => negb (eqb (Some e) pushed)) expected with
        | Some e => require_integrated checkout branch e
        | None => ret ()
        end)
    (fun l r => Forall (reading source) l /\ (r = Ok () -> forall e, expected = Some e ->
       pushed = Some e \/ integrated checkout branch e l)).
Proof.
  destruct expected as [e|]; cbn [opt_filter]; [|apply acts_ret; by split].
  destruct (eqb (Some e) pushed) eqn:Eq; cbn [negb].
  - apply acts_ret. split; [done|]. intros _ ? [= <-]. left. symmetry. by apply eqb_eq.
  - eapply acts_mono; [apply acts_and; [apply require_integrated_ok|
      apply (quiet_require_integrated source (reading source)); done]|].
    intros l r [Hi [Hl _]]. split; [done|]. intros -> ? [= <-]. right. by apply Hi.
Qed.

(** Exactly one push, then the record of it. *)
Definition one_push (source : string) (t : Transport) (args : list string) (a : Act) : Prop :=
  reading source a \/ exists cmd out, a = Run cmd out /\ carries t args cmd.

Lemma quiet_one_push source t url lease refspec branch (pushed : option string) :
  quiet (one_push source t ["push"; lease; url; refspec])
    (let* up_to_date := push_each t [url] [lease] refspec true in
     let* _ := match pushed with Some pushed => record_pushed t branch pushed | None => ret () end in
     ret (if up_to_date : bool then "up-to-date" else "pushed")).
Proof.
  apply quiet_bind.
  - cbn [push_each]. apply quiet_bind; [|intros o; destruct (success o); [apply quiet_ret|apply quiet_err]].
    unfold push. eapply emits_bind; [apply emits_transport_command|]. intros cmd Hc.
    apply (emits_output_within _ (fun _ => True)); [|done]. intros out. right.
    eexists _, out. split; [done|]. by apply (carries_args t cmd).
  - intros up. apply quiet_bind; [|intros; apply quiet_ret].
    destruct pushed; [|apply quiet_ret]. apply quiet_record_pushed. intros a Ha. left. by left.
Qed.

(** (C24) A forced push goes out only after the one push remote was asked for the branch's tip; its lease
    expects exactly that tip; and the tip is either absent, or the commit being pushed, or was
    integrated by this checkout at some point, so no work nobody here looked at is dropped. *)
Theorem forced_push_drops_only_integrated_work checkout source commit branch :
  acts (push_source checkout source commit branch true) (fun l r => exists before after,
    l = before ++ after /\ Forall (reading source) before /\
    (after = [] \/ exists t url expected,
       t_source_repo t = source /\ t_push_remotes t = [url] /\
       advertised t url branch expected before /\
       (forall e, expected = Some e ->
          same_commit checkout commit e before \/ integrated checkout branch e before) /\
       Forall (one_push source t
                 ["push"; lease_arg branch expected; url; commit +:+ ":refs/heads/" +:+ branch]) after)).
Proof.
  unfold push_source. apply acts_bind.
  eapply acts_mono; [apply (emits_open (reading source)); by left|].
  intros l1 [t|e] [Hl1 Ht].
  2:{ exists l1, []. rewrite app_nil_r. split_and!; auto. }
  destruct (Ht _ eq_refl) as (Hs & _ & Hne). cbv zeta. rewrite andb_true_l.
  destruct (1 <? length (t_push_remotes t))%nat eqn:Hmany.
  { apply acts_err. exists (l1 ++ []), []. rewrite !app_nil_r. split_and!; auto. }
  destruct (t_push_remotes t) as [|url [|u us]] eqn:Eu; [done| |done]. cbn [head default].
  apply acts_bind. eapply acts_mono.
  { apply acts_and; [apply resolve_same|apply (quiet_resolve (reading source)); by left]. }
  intros l2 [pushed|e] [Hpushed [Hl2 _]].
  2:{ exists (l1 ++ l2), []. rewrite app_nil_r. split_and!; auto. by apply Forall_app. }
  apply acts_bind, acts_bind. eapply acts_mono.
  { apply acts_and; [apply tip_advertised|apply (quiet_tip (reading source) t)].
    - intros a Ha. right. eauto.
    - apply (proj2 (remotes_spec t _)). right. rewrite Eu. set_solver. }
  intros l3 [expected|e] [Hadv [Hl3 _]].
  2:{ exists (l1 ++ l2 ++ l3), []. rewrite app_nil_r. split_and!; auto. by rewrite !Forall_app. }
  specialize (Hadv _ eq_refl). apply acts_bind.
  eapply acts_mono; [apply expected_integrated|]. intros l4 [[]|e] [Hl4 Hexp].
  2:{ exists (l1 ++ l2 ++ l3 ++ l4), []. rewrite app_nil_r. split_and!; auto. by rewrite !Forall_app. }
  specialize (Hexp eq_refl). apply acts_ret.
  eapply acts_quiet.
  { apply quiet_one_push. }
  intros l5 r Hl5. exists (l1 ++ l2 ++ l3 ++ l4), l5. split; [by rewrite <-!app_assoc|].
  split; [by rewrite !Forall_app|]. right. exists t, url, expected. split_and!; try done.
  - destruct Hadv as (cmd & o & Hin & ?). exists cmd, o. split; [set_solver|done].
  - intros e ->. destruct (Hexp _ eq_refl) as [->|Hi]; [left|right].
    + destruct (Hpushed _ eq_refl) as (o & Hr & ?). exists o. split; [eapply ran_mono; [exact Hr|set_solver]|done].
    + destruct Hi as (reflog & cmd & o & Hr & Hne' & Hin & ?). exists reflog, cmd, o.
      split; [eapply ran_mono; [exact Hr|set_solver]|]. split; [done|]. split; [set_solver|done].
Qed.
End Forced.
