(* ===== verification/Approval.v ===== *)
(** * Approval of a credentialed publish (rpc/approval.rs)

    The registry of unanswered questions and the tasks that wait on it, as a transition system whose
    steps are what runs under one lock or between two awaits: any number of dispatchers, clients
    answering from anywhere, and the clock. *)

From S2P Require Import Prelude RustStr RustText.

Local Open Scope string_scope.
Local Open Scope list_scope.

Definition SETTING : string := "publish_confirmation".
Definition EVENT_REQUESTED : string := "publish:approval-requested".
Definition EVENT_RESOLVED : string := "publish:approval-resolved".
Definition WAIT_SETTING : string := "publish_approval_wait".
Definition DEFAULT_WAIT_SECS : N := 120.

Record PendingApproval := {
  pa_id : string;
  pa_agent_id : string;
  pa_op : string;
  pa_repo : option string;
  pa_detail : string;
  pa_requested_at : string;
}.

Inductive Outcome := Approved | Denied | Expired.

Definition outcome_as_str (o : Outcome) : string :=
  match o with Approved => "approved" | Denied => "denied" | Expired => "expired" end.

Definition parse_enabled (raw : option string) : bool :=
  match raw with Some s => String.eqb s "true" | None => false end.

Definition parse_wait_secs (raw : option string) : N :=
  default DEFAULT_WAIT_SECS (raw ≫= fun s => parse_usize (trim s)).

Definition refusal (detail why : string) : string := "not publishing (" +:+ detail +:+ "): " +:+ why.

(** How the wait on the answer's channel ended: a message, a dropped sender, the deadline. *)
Inductive Answered := Said (approved : bool) | Dismissed | Lapsed.

Definition conclude (detail : string) (wait : N) (a : Answered) : option string * Outcome :=
  match a with
  | Said true => (None, Approved)
  | Said false => (Some (refusal detail "you declined it"), Denied)
  | Dismissed => (Some (refusal detail "the approval prompt was dismissed"), Expired)
  | Lapsed => (Some (refusal detail ("nobody answered within " +:+ show_N wait +:+ "s")), Expired)
  end.

Definition no_window (detail : string) : string :=
  refusal detail "no window is available to approve it".

(** [sort_by(requested_at)], stable. *)
Definition oldest_first (l : list PendingApproval) : list PendingApproval :=
  sort_by (fun a b => String.leb (pa_requested_at a) (pa_requested_at b)) l.

(** ** The registry and its waiters *)

(** The sender's side of a waiter's channel. *)
Inductive Chan := Open | Sent (approved : bool) | Closed.

(** Where a call of [refuse_unless_approved] stands: it has registered; its event is out and it
    awaits the answer; it stopped waiting without an answer and is about to drop its entry; it
    returned. *)
Inductive Phase :=
| Registered
| Waiting (wait : N)
| Forgetting (wait : N) (a : Answered)
| Returned (verdict : option string).

Record Waiter := { wt_info : PendingApproval; wt_chan : Chan; wt_phase : Phase }.

(** What is observed: a question put, its event, what a client answered to which id, the event of
    its end. The first and the third are inputs, recorded before anything is done with them. *)
Inductive Event :=
| Asked (w : nat) (info : PendingApproval)
| Requested (w : nat) (info : PendingApproval)
| Answer (id : string) (approved : bool)
| Resolved (w : nat) (id : string) (o : Outcome).

Record State := {
  st_pending : gmap string nat;
  st_waiters : gmap nat Waiter;
  st_log : list Event;
}.

Definition initial : State := {| st_pending := ∅; st_waiters := ∅; st_log := [] |}.

Definition set_waiter (w : nat) (x : Waiter) (s : State) : State := {|
  st_pending := st_pending s; st_waiters := <[w := x]> (st_waiters s); st_log := st_log s;
|}.

Definition on_waiter (w : nat) (f : Waiter -> Waiter) (s : State) : State :=
  match st_waiters s !! w with Some x => set_waiter w (f x) s | None => s end.

Definition set_chan (c : Chan) (x : Waiter) : Waiter := {|
  wt_info := wt_info x; wt_chan := c; wt_phase := wt_phase x;
|}.

Definition set_phase (p : Phase) (x : Waiter) : Waiter := {|
  wt_info := wt_info x; wt_chan := wt_chan x; wt_phase := p;
|}.

Definition log (e : Event) (s : State) : State := {|
  st_pending := st_pending s; st_waiters := st_waiters s; st_log := st_log s ++ [e];
|}.

(** [take]: the entry leaves the map, and with it the sender it holds. *)
Definition take (id : string) (s : State) : option nat * State :=
  (st_pending s !! id,
   {| st_pending := delete id (st_pending s); st_waiters := st_waiters s; st_log := st_log s |}).

(** A sender dropped unsent: its receiver sees the channel close. *)
Definition drop_sender (w : option nat) (s : State) : State :=
  match w with
  | None => s
  | Some w => on_waiter w (fun x => match wt_chan x with Open => set_chan Closed x | _ => x end) s
  end.

Definition forget (id : string) (s : State) : State :=
  let '(w, s) := take id s in drop_sender w s.

(** [register]: an entry of the same id, were there one, is replaced and its sender dropped. *)
Definition register (w : nat) (info : PendingApproval) (s : State) : State :=
  let old := st_pending s !! pa_id info in
  drop_sender old
    {| st_pending := <[pa_id info := w]> (st_pending s);
       st_waiters := <[w := {| wt_info := info; wt_chan := Open; wt_phase := Registered |}]> (st_waiters s);
       st_log := st_log s |}.

(** [answer]: the sender is consumed; a receiver already gone hears nothing. *)
Definition answer (id : string) (approved : bool) (s : State) : State :=
  let '(w, s) := take id s in
  match w with
  | None => s
  | Some w =>
      match st_waiters s !! w with
      | Some x =>
          match wt_phase x with
          | Registered | Waiting _ => set_waiter w (set_chan (Sent approved) x) s
          | _ => s
          end
      | None => s
      end
  end.

(** [pending]. *)
Definition pending (s : State) : list PendingApproval :=
  oldest_first (omap (fun '(_, w) => wt_info <$> (st_waiters s !! w)) (map_to_list (st_pending s))).

(** The end of [refuse_unless_approved]: the resolved event, then the verdict. *)
Definition return_with (w : nat) (wait : N) (a : Answered) (s : State) : State :=
  match st_waiters s !! w with
  | None => s
  | Some x =>
      let '(verdict, outcome) := conclude (pa_detail (wt_info x)) wait a in
      log (Resolved w (pa_id (wt_info x)) outcome) (set_waiter w (set_phase (Returned verdict) x) s)
  end.

Definition refuse_unasked (w : nat) (s : State) : State :=
  on_waiter w (fun x => set_phase (Returned (Some (no_window (pa_detail (wt_info x))))) x) s.

Inductive step : State -> State -> Prop :=
| step_register w info s :
    st_waiters s !! w = None -> step s (register w info (log (Asked w info) s))
| step_emitted w x wait s :
    st_waiters s !! w = Some x -> wt_phase x = Registered ->
    step s (log (Requested w (wt_info x)) (set_waiter w (set_phase (Waiting wait) x) s))
| step_no_window w x s :
    st_waiters s !! w = Some x -> wt_phase x = Registered ->
    step s (refuse_unasked w (forget (pa_id (wt_info x)) s))
| step_answer id approved s : step s (answer id approved (log (Answer id approved) s))
| step_received w x wait approved s :
    st_waiters s !! w = Some x -> wt_phase x = Waiting wait -> wt_chan x = Sent approved ->
    step s (return_with w wait (Said approved) s)
| step_dismissed w x wait s :
    st_waiters s !! w = Some x -> wt_phase x = Waiting wait -> wt_chan x = Closed ->
    step s (set_waiter w (set_phase (Forgetting wait Dismissed) x) s)
(** No deadline when the setting is zero; a message that is there is taken before the deadline is
    looked at. *)
| step_lapsed w x wait s :
    st_waiters s !! w = Some x -> wt_phase x = Waiting wait -> wait <> 0%N -> wt_chan x = Open ->
    step s (set_waiter w (set_phase (Forgetting wait Lapsed) x) s)
| step_forget w x wait a s :
    st_waiters s !! w = Some x -> wt_phase x = Forgetting wait a ->
    step s (return_with w wait a (forget (pa_id (wt_info x)) s)).

Definition reachable (s : State) : Prop := rtc step initial s.

(** ** What the log says of one question *)

Definition requests (w : nat) (l : list Event) : list PendingApproval :=
  omap (fun e => match e with Requested w' i => if (w' =? w)%nat then Some i else None | _ => None end) l.
Definition resolutions (w : nat) (l : list Event) : list (string * Outcome) :=
  omap (fun e => match e with Resolved w' id o => if (w' =? w)%nat then Some (id, o) else None | _ => None end) l.

(** Nothing put under an id and no answer naming it. *)
Definition silent_on (id : string) (l : list Event) : Prop :=
  forall e, e ∈ l -> match e with Asked _ i => pa_id i <> id | Answer i _ => i <> id | _ => True end.

(** A question was put, and no client has named its id since. *)
Definition unanswered (w : nat) (info : PendingApproval) (l : list Event) : Prop :=
  exists l1 l2, l = l1 ++ Asked w info :: l2 /\ silent_on (pa_id info) l2.

(** A question was put, and the first answer a client then gave that names its id is this one. *)
Definition answered_first (w : nat) (info : PendingApproval) (approved : bool) (l : list Event) : Prop :=
  exists l1 l2, l = l1 ++ Answer (pa_id info) approved :: l2 /\ unanswered w info l1.

(** The story of a question by where its task stands. *)
Definition story (w : nat) (x : Waiter) (l : list Event) : Prop :=
  match wt_chan x with Sent b => answered_first w (wt_info x) b l | _ => True end /\
  match wt_phase x with
  | Registered => requests w l = [] /\ resolutions w l = []
  | Waiting _ => requests w l = [wt_info x] /\ resolutions w l = []
  | Forgetting _ a => (forall b, a <> Said b) /\ requests w l = [wt_info x] /\ resolutions w l = []
  | Returned verdict =>
      (requests w l = [] /\ resolutions w l = [] /\ verdict = Some (no_window (pa_detail (wt_info x)))) \/
      (exists wait a, requests w l = [wt_info x] /\
         conclude (pa_detail (wt_info x)) wait a
           = (verdict, match resolutions w l with [(_, o)] => o | _ => Expired end) /\
         (exists o, resolutions w l = [(pa_id (wt_info x), o)]) /\
         (forall b, a = Said b -> answered_first w (wt_info x) b l))
  end.

Record consistent (s : State) : Prop := {
  co_pending : forall id w, st_pending s !! id = Some w ->
    exists x, st_waiters s !! w = Some x /\ pa_id (wt_info x) = id /\ wt_chan x = Open /\
      (forall v, wt_phase x <> Returned v) /\ unanswered w (wt_info x) (st_log s);
  co_story : forall w x, st_waiters s !! w = Some x -> story w x (st_log s);
  co_fresh : forall w, st_waiters s !! w = None ->
    requests w (st_log s) = [] /\ resolutions w (st_log s) = [];
}.

Lemma requests_app w l1 l2 : requests w (l1 ++ l2) = requests w l1 ++ requests w l2.
Proof. apply omap_app. Qed.
Lemma resolutions_app w l1 l2 : resolutions w (l1 ++ l2) = resolutions w l1 ++ resolutions w l2.
Proof. apply omap_app. Qed.

Lemma silent_on_app id l1 l2 : silent_on id l1 -> silent_on id l2 -> silent_on id (l1 ++ l2).
Proof. intros H1 H2 e [He|He]%elem_of_app; [by apply H1|by apply H2]. Qed.

Lemma silent_on_nil id : silent_on id [].
Proof. intros e He. by apply not_elem_of_nil in He. Qed.

Lemma silent_on_one id e :
  match e with Asked _ i => pa_id i <> id | Answer i _ => i <> id | _ => True end -> silent_on id [e].
Proof. by intros H e' ->%list_elem_of_singleton. Qed.

Lemma unanswered_app w info l es : unanswered w info l -> silent_on (pa_id info) es -> unanswered w info (l ++ es).
Proof.
  intros (l1 & l2 & -> & Hl) Hes. exists l1, (l2 ++ es). rewrite <-app_assoc. split; [done|]. by apply silent_on_app.
Qed.

Lemma answered_first_app w info b l es : answered_first w info b l -> answered_first w info b (l ++ es).
Proof. intros (l1 & l2 & -> & Hl). exists l1, (l2 ++ es). by rewrite <-app_assoc. Qed.

Lemma unanswered_then w info b l : unanswered w info l -> answered_first w info b (l ++ [Answer (pa_id info) b]).
Proof. intros H. by exists l, []. Qed.

(** Later events that are not its own do not change a story. *)
Lemma story_app w x l es : story w x l -> requests w es = [] -> resolutions w es = [] -> story w x (l ++ es).
Proof.
  intros [Ha Hph] E1 E2. unfold story. rewrite requests_app, resolutions_app, E1, E2, !app_nil_r.
  split; [destruct (wt_chan x); auto using answered_first_app|].
  destruct (wt_phase x) as [| | |v]; [done..|]. destruct Hph as [Hph|(wait & a & ? & ? & ? & Hb)]; [by left|right].
  exists wait, a. split_and!; try done. intros b E. by apply answered_first_app, Hb.
Qed.

(** Events nobody's story is made of: the inputs. *)
Definition is_input (e : Event) : bool := match e with Asked _ _ | Answer _ _ => true | _ => false end.

Lemma input_unseen w e : is_input e -> requests w [e] = [] /\ resolutions w [e] = [].
Proof. by destruct e. Qed.

(** An input is recorded while what it names is not pending, or before anything is done with it. *)
Lemma log_input_consistent e p s :
  consistent s -> is_input e ->
  (forall id w, p !! id = Some w -> st_pending s !! id = Some w /\ silent_on id [e]) ->
  consistent {| st_pending := p; st_waiters := st_waiters s; st_log := st_log s ++ [e] |}.
Proof.
  intros [Hp Hs Hf] He Hpend. split; cbn [st_pending st_waiters st_log].
  - intros id w (Hid & Hq)%Hpend. destruct (Hp _ _ Hid) as (x & Hx & <- & Ho & Hr & Hu). exists x.
    split_and!; try done. by apply unanswered_app.
  - intros w x Hx. destruct (input_unseen w e He) as [? ?]. apply story_app; auto.
  - intros w Hw. rewrite requests_app, resolutions_app. destruct (input_unseen w e He) as [-> ->].
    destruct (Hf _ Hw) as [-> ->]. done.
Qed.

(** One waiter moves, with events of its own; entries may only go. *)
Lemma consistent_update w x x' p es s :
  consistent s -> st_waiters s !! w = Some x ->
  (forall w', w' <> w -> requests w' es = [] /\ resolutions w' es = []) ->
  (forall id, silent_on id es) ->
  (forall id w', p !! id = Some w' -> st_pending s !! id = Some w' /\
     (w' = w -> wt_info x' = wt_info x /\ wt_chan x' = Open /\ forall v, wt_phase x' <> Returned v)) ->
  story w x' (st_log s ++ es) ->
  consistent {| st_pending := p; st_waiters := <[w := x']> (st_waiters s); st_log := st_log s ++ es |}.
Proof.
  intros [Hp Hs Hf] Hw Hes Hq Hpend Hstory. split; cbn [st_pending st_waiters st_log].
  - intros id w' Hid. destruct (Hpend _ _ Hid) as [Hold Hnew]. destruct (Hp _ _ Hold) as (y & Hy & Hi & Ho & Hr & Hu).
    destruct (decide (w' = w)) as [->|Hne].
    + rewrite lookup_insert_eq. exists x'. destruct (Hnew eq_refl) as (Ei & Eo & Er). simplify_eq.
      split_and!; try done; rewrite Ei; [done|]. by apply unanswered_app.
    + rewrite lookup_insert_ne by done. exists y. split_and!; try done. by apply unanswered_app.
  - intros w' y Hy. destruct (decide (w' = w)) as [->|Hne].
    + rewrite lookup_insert_eq in Hy. by injection Hy as <-.
    + rewrite lookup_insert_ne in Hy by done. destruct (Hes _ Hne). apply story_app; auto.
  - intros w' Hy. destruct (decide (w' = w)) as [->|Hne]; [by rewrite lookup_insert_eq in Hy|].
    rewrite lookup_insert_ne in Hy by done. destruct (Hes _ Hne) as [? ?].
    rewrite requests_app, resolutions_app. destruct (Hf _ Hy) as (-> & ->). done.
Qed.

(** The same without events. *)
Lemma consistent_silent w x x' p s :
  consistent s -> st_waiters s !! w = Some x ->
  (forall id w', p !! id = Some w' -> st_pending s !! id = Some w' /\
     (w' = w -> wt_info x' = wt_info x /\ wt_chan x' = Open /\ forall v, wt_phase x' <> Returned v)) ->
  story w x' (st_log s) ->
  consistent {| st_pending := p; st_waiters := <[w := x']> (st_waiters s); st_log := st_log s |}.
Proof.
  intros Hs Hw Hp Hst. rewrite <-(app_nil_r (st_log s)). eapply consistent_update; try done.
  - intros id. apply silent_on_nil.
  - by rewrite app_nil_r.
Qed.

(** One id, one question. *)
Lemma pending_id_unique s id id' w : consistent s -> st_pending s !! id = Some w -> st_pending s !! id' = Some w -> id = id'.
Proof.
  intros Hs H1 H2. destruct (co_pending s Hs _ _ H1) as (x & Ex & <- & _).
  destruct (co_pending s Hs _ _ H2) as (y & Ey & <- & _). congruence.
Qed.

Lemma delete_consistent id s : consistent s ->
  consistent {| st_pending := delete id (st_pending s); st_waiters := st_waiters s; st_log := st_log s |}.
Proof.
  intros [Hp Hst Hf]. split; cbn; try done. intros id' w' [_ Hid']%lookup_delete_Some. by apply Hp.
Qed.

Lemma take_spec id s : (take id s).1 = st_pending s !! id /\
  st_waiters (take id s).2 = st_waiters s /\ st_log (take id s).2 = st_log s /\
  st_pending (take id s).2 = delete id (st_pending s).
Proof. done. Qed.

Lemma forget_consistent id s : consistent s -> consistent (forget id s).
Proof.
  intros Hs. unfold forget, take, drop_sender, on_waiter, set_waiter. cbn [st_waiters st_pending st_log].
  destruct (st_pending s !! id) as [w|] eqn:Ew; [|by apply delete_consistent].
  destruct (co_pending s Hs _ _ Ew) as (x & Ex & Hid & Ho & Hr). rewrite Ex, Ho.
  eapply consistent_silent; try done.
  - intros id' w' [Hne Hid']%lookup_delete_Some. split; [done|]. intros ->. exfalso. apply Hne.
    by eapply pending_id_unique.
  - destruct (co_story s Hs _ _ Ex) as [Ha Hph]. by split.
Qed.

Lemma forget_waiter id s w x :
  st_waiters s !! w = Some x ->
  exists c, st_waiters (forget id s) !! w = Some (set_chan c x).
Proof.
  intros Hx. unfold forget, take, drop_sender, on_waiter, set_waiter. cbn [st_waiters].
  assert (x = set_chan (wt_chan x) x) as Heta by by destruct x.
  destruct (st_pending s !! id) as [w'|]; cbn [st_waiters]; [|by exists (wt_chan x); rewrite <-Heta].
  destruct (st_waiters s !! w') as [y|] eqn:Ey; cbn [st_waiters]; [|by exists (wt_chan x); rewrite <-Heta].
  destruct (decide (w' = w)) as [->|Hne].
  - rewrite lookup_insert_eq. rewrite Hx in Ey. injection Ey as <-.
    destruct (wt_chan x) eqn:Ec; [by exists Closed|exists (Sent approved)|exists Closed];
      destruct x; cbn in Ec; by subst.
  - rewrite lookup_insert_ne by done. exists (wt_chan x). by rewrite <-Heta.
Qed.

Lemma forget_pending id s : st_pending (forget id s) = delete id (st_pending s).
Proof.
  unfold forget, take, drop_sender, on_waiter, set_waiter. cbn.
  destruct (st_pending s !! id); [|done]. by destruct (st_waiters s !! n).
Qed.

(** Where a task may return: it heard an answer, or has just dropped its entry. *)
Definition may_return (w : nat) (x : Waiter) (wait : N) (a : Answered) : Prop :=
  (exists b, wt_phase x = Waiting wait /\ wt_chan x = Sent b /\ a = Said b) \/
  wt_phase x = Forgetting wait a.

Lemma return_with_consistent w x wait a s :
  consistent s -> st_waiters s !! w = Some x -> may_return w x wait a ->
  (forall id, st_pending s !! id <> Some w) -> consistent (return_with w wait a s).
Proof.
  intros Hs Hx Hret Hnp. unfold return_with. rewrite Hx.
  destruct (conclude (pa_detail (wt_info x)) wait a) as [verdict o] eqn:Ec.
  pose proof (co_story s Hs _ _ Hx) as [Hans Hph].
  assert (requests w (st_log s) = [wt_info x] /\ resolutions w (st_log s) = [] /\
    forall b, a = Said b -> answered_first w (wt_info x) b (st_log s)) as (Hq & Hr & Hb).
  { destruct Hret as [(b & Hp & Hc & ->)|Hp]; rewrite Hp in Hph.
    - destruct Hph as [? ?]. split_and!; try done. intros b' [= <-]. by rewrite Hc in Hans.
    - destruct Hph as (Hno & ? & ?). split_and!; try done. intros b Hsaid. by destruct (Hno b). }
  unfold log, set_waiter. cbn [st_pending st_waiters st_log]. apply consistent_update with (x := x); try done.
  - intros w' Hne. cbn. apply Nat.eqb_neq in Hne. rewrite (Nat.eqb_sym w w'), Hne. done.
  - intros id. by apply silent_on_one.
  - intros id w' Hid. split; [done|]. intros ->. by destruct (Hnp id).
  - unfold story. rewrite requests_app, resolutions_app, Hq, Hr, app_nil_l.
    cbn [resolutions omap list_omap requests wt_chan wt_phase set_phase wt_info].
    rewrite Nat.eqb_refl, ?app_nil_r. split; [destruct (wt_chan x); auto using answered_first_app|].
    right. exists wait, a. split; [done|]. split; [exact Ec|]. split; [by eexists|].
    intros b E. by apply answered_first_app, Hb.
Qed.

Lemma not_pending_unless_open s w x :
  consistent s -> st_waiters s !! w = Some x -> wt_chan x <> Open ->
  forall id, st_pending s !! id <> Some w.
Proof. intros Hs Hx Hc id Hid. destruct (co_pending s Hs _ _ Hid) as (y & Ey & _ & Ho & _). congruence. Qed.

(** A new waiter, its question recorded, before its entry is in the map. *)
Lemma new_waiter_consistent w info s :
  consistent s -> st_waiters s !! w = None ->
  consistent {| st_pending := delete (pa_id info) (st_pending s);
    st_waiters := <[w := {| wt_info := info; wt_chan := Open; wt_phase := Registered |}]> (st_waiters s);
    st_log := st_log s ++ [Asked w info] |}.
Proof.
  intros Hs Hw.
  assert (consistent {| st_pending := delete (pa_id info) (st_pending s); st_waiters := st_waiters s;
    st_log := st_log s ++ [Asked w info] |}) as [Hp Hst Hf].
  { apply log_input_consistent; try done. intros id w' [Hne Hid]%lookup_delete_Some. split; [done|].
    by apply silent_on_one. }
  split; cbn [st_pending st_waiters st_log] in *.
  - intros id w' Hid. destruct (Hp _ _ Hid) as (y & Ey & Hy). exists y. rewrite lookup_insert_ne; [done|congruence].
  - intros w' y Hy. apply lookup_insert_Some in Hy as [[<- <-]|[_ Hy]]; [|by apply Hst]. by split; [|apply Hf].
  - intros w' Hy. apply lookup_insert_None in Hy as [Hy _]. by apply Hf.
Qed.

Lemma register_consistent w info s :
  consistent s -> st_waiters s !! w = None -> consistent (register w info (log (Asked w info) s)).
Proof.
  intros Hs Hw. pose proof (new_waiter_consistent w info s Hs Hw) as Hs1.
  set (x := {| wt_info := info; wt_chan := Open; wt_phase := Registered |}) in *.
  unfold register, drop_sender, on_waiter, set_waiter, log. fold x. cbn [st_waiters st_pending st_log].
  set (l := st_log s ++ [Asked w info]) in *.
  assert (forall ws, consistent {| st_pending := delete (pa_id info) (st_pending s); st_waiters := ws; st_log := l |} ->
    ws !! w = Some x ->
    consistent {| st_pending := <[pa_id info := w]> (st_pending s); st_waiters := ws; st_log := l |}) as Hadd.
  { intros ws [Hp1 Hst1 Hf1] Hwx. split; try done. cbn. intros id w' Hid.
    apply lookup_insert_Some in Hid as [[<- <-]|[Hid Hold]].
    - exists x. split_and!; try done. exists (st_log s), []. split; [done|apply silent_on_nil].
    - apply Hp1. by apply lookup_delete_Some. }
  destruct (st_pending s !! pa_id info) as [w0|] eqn:E0; [|apply Hadd; [done|by rewrite lookup_insert_eq]].
  destruct (co_pending s Hs _ _ E0) as (y & Ey & Hyi & Ho & Hyr & Hyu).
  assert (w <> w0) as Hw0 by congruence.
  rewrite lookup_insert_ne, Ey, Ho by done. apply Hadd; [|by rewrite lookup_insert_ne, lookup_insert_eq].
  apply (consistent_silent w0 y (set_chan Closed y) _ _ Hs1).
  - cbn. by rewrite lookup_insert_ne.
  - cbn. intros id w' Hid. split; [done|]. intros ->. exfalso.
    apply lookup_delete_Some in Hid as [Hid Hold]. apply Hid. exact (pending_id_unique s _ _ w0 Hs E0 Hold).
  - destruct (co_story _ Hs1 w0 y) as [_ Hph]; [cbn; by rewrite lookup_insert_ne|]. by split.
Qed.

(** An answer reaches the one question whose id it names. *)
Lemma answer_consistent id b s : consistent s -> consistent (answer id b (log (Answer id b) s)).
Proof.
  intros Hs. unfold answer, take, log. cbn [st_waiters st_pending st_log].
  assert (consistent {| st_pending := delete id (st_pending s); st_waiters := st_waiters s;
    st_log := st_log s ++ [Answer id b] |}) as Hdel.
  { apply log_input_consistent; try done. intros id' w [Hne Hid]%lookup_delete_Some. split; [done|].
    by apply silent_on_one. }
  destruct (st_pending s !! id) as [w|] eqn:Ew; [|done].
  destruct (co_pending s Hs _ _ Ew) as (x & Ex & <- & Ho & Hr & Hu). rewrite Ex.
  destruct (co_story _ Hdel _ _ Ex) as [_ Hph]. cbn [st_log] in Hph.
  assert (consistent (set_waiter w (set_chan (Sent b) x) {| st_pending := delete (pa_id (wt_info x)) (st_pending s);
      st_waiters := st_waiters s; st_log := st_log s ++ [Answer (pa_id (wt_info x)) b] |})) as Hsent.
  { unfold set_waiter. cbn [st_waiters st_pending st_log].
    apply (consistent_silent w x _ _ _ Hdel); [done| |].
    - cbn. intros id' w' Hid'. split; [done|]. intros ->. exfalso.
      apply lookup_delete_Some in Hid' as [Hne Hid']. apply Hne. exact (pending_id_unique s _ _ w Hs Ew Hid').
    - split; [by apply unanswered_then|]. cbn [wt_phase set_chan wt_info st_log]. exact Hph. }
  by destruct (wt_phase x).
Qed.

Lemma step_consistent s s' : step s s' -> consistent s -> consistent s'.
Proof.
  intros Hstep Hs. destruct Hstep as [w info s Hw|w x wait s Hx Hp|w x s Hx Hp|id b s
    |w x wait b s Hx Hp Hc|w x wait s Hx Hp Hc|w x wait s Hx Hp _ Hc|w x wait a s Hx Hp].
  - by apply register_consistent.
  - unfold log, set_waiter. cbn [st_waiters st_pending st_log].
    apply consistent_update with (x := x); try done.
    + intros w' Hne%Nat.eqb_neq. cbn. by rewrite (Nat.eqb_sym w w'), Hne.
    + intros id. by apply silent_on_one.
    + intros id w' Hid. split; [done|]. intros ->.
      destruct (co_pending s Hs _ _ Hid) as (y & Ey & _ & ? & _). simplify_eq. by split_and!.
    + destruct (co_story s Hs _ _ Hx) as [Ha Hph]. rewrite Hp in Hph. destruct Hph as [Hq Hr].
      split; cbn [set_phase wt_phase wt_chan wt_info].
      * destruct (wt_chan x); auto using answered_first_app.
      * rewrite requests_app, resolutions_app, Hq, Hr. cbn. by rewrite Nat.eqb_refl.
  - pose proof (forget_consistent (pa_id (wt_info x)) s Hs) as Hs1.
    destruct (forget_waiter (pa_id (wt_info x)) s w x Hx) as (c & Hx1).
    unfold refuse_unasked, on_waiter, set_waiter. rewrite Hx1. eapply consistent_silent; try done.
    + intros id w' Hid. split; [done|]. intros ->. exfalso. rewrite forget_pending in Hid.
      apply lookup_delete_Some in Hid as [Hne Hid].
      destruct (co_pending s Hs _ _ Hid) as (y & Ey & Hy & _). congruence.
    + destruct (co_story _ Hs1 _ _ Hx1) as [Ha Hph]. cbn in Hph. rewrite Hp in Hph.
      split; [exact Ha|]. left. by destruct Hph.
  - by apply answer_consistent.
  - apply return_with_consistent with (x := x); try done; [left; eauto|].
    apply (not_pending_unless_open s w x); congruence.
  - unfold set_waiter. eapply consistent_silent; try done.
    + intros id w' Hid. split; [done|]. intros ->. by destruct (not_pending_unless_open s w x Hs Hx ltac:(congruence) id).
    + destruct (co_story s Hs _ _ Hx) as [Ha Hph]. rewrite Hp in Hph. split; [exact Ha|]. by split.
  - unfold set_waiter. eapply consistent_silent; try done.
    destruct (co_story s Hs _ _ Hx) as [Ha Hph]. rewrite Hp in Hph. split; [exact Ha|]. by split.
  - destruct (forget_waiter (pa_id (wt_info x)) s w x Hx) as (c & Hx1).
    apply return_with_consistent with (x := set_chan c x); try done; [by apply forget_consistent|by right|].
    intros id Hid. rewrite forget_pending in Hid. apply lookup_delete_Some in Hid as [Hne Hid].
    destruct (co_pending s Hs _ _ Hid) as (y & Ey & Hy & _). congruence.
Qed.

Lemma initial_consistent : consistent initial.
Proof. split; unfold initial; cbn; [by intros ? ? ?%lookup_empty_Some..|done]. Qed.

Lemma reachable_consistent s : reachable s -> consistent s.
Proof.
  intros Hr. pose proof initial_consistent as Hi. revert Hi. unfold reachable in Hr.
  induction Hr as [|x y z Hxy _ IH]; intros Hx; [done|]. apply IH. by eapply step_consistent.
Qed.

(** (C22) However dispatchers, clients and deadlines interleave, a publish question goes through only
    if it was shown and, of the answers clients gave after it was put, the first that names its own id
    is a yes; a refusal reported as a denial has a no in that place. A question that was shown is
    reported resolved exactly once, with the outcome the publish got, and one never shown is refused
    and never reported; nothing waiting has been reported. The answers are the calls as the clients
    made them, recorded before the registry looks anything up. *)
Theorem only_a_yes_approves s w x :
  reachable s -> st_waiters s !! w = Some x ->
  match wt_phase x with
  | Returned None =>
      requests w (st_log s) = [wt_info x] /\ answered_first w (wt_info x) true (st_log s) /\
      resolutions w (st_log s) = [(pa_id (wt_info x), Approved)]
  | Returned (Some why) =>
      (requests w (st_log s) = [] /\ resolutions w (st_log s) = [] /\ why = no_window (pa_detail (wt_info x))) \/
      (requests w (st_log s) = [wt_info x] /\
       (resolutions w (st_log s) = [(pa_id (wt_info x), Denied)] /\ answered_first w (wt_info x) false (st_log s) \/
        resolutions w (st_log s) = [(pa_id (wt_info x), Expired)]))
  | _ => resolutions w (st_log s) = []
  end.
Proof.
  intros Hr Hx. destruct (co_story s (reachable_consistent s Hr) _ _ Hx) as [_ Hph].
  destruct (wt_phase x) as [|wait|wait a|[why|]]; [by destruct Hph..|by destruct Hph as (_ & _ & ?)| |].
  - destruct Hph as [(? & ? & [= ->])|(wait & a & Hq & Hc & (o & Ho) & Hb)]; [by left|right].
    split; [done|]. rewrite Ho in Hc |- *. destruct a as [[]| |]; cbn in Hc; injection Hc as ? <-.
    all: try discriminate. all: auto.
  - destruct Hph as [(? & ? & ?)|(wait & a & Hq & Hc & (o & Ho) & Hb)]; [done|].
    rewrite Ho in Hc |- *. destruct a as [[]| |]; cbn in Hc; try discriminate. injection Hc as <-.
    split; [done|]. split; [by apply Hb|done].
Qed.

(** Only what still waits is listed, and only unanswered questions wait. *)
Lemma pending_is_unanswered s info :
  reachable s -> info ∈ pending s ->
  exists w x, st_waiters s !! w = Some x /\ wt_info x = info /\ unanswered w info (st_log s) /\
    resolutions w (st_log s) = [].
Proof.
  intros Hr Hin. pose proof (reachable_consistent s Hr) as Hs. unfold pending, oldest_first in Hin.
  rewrite elem_of_sort_by, list_elem_of_omap in Hin. destruct Hin as ([id w] & Hmem & Hw).
  apply elem_of_map_to_list in Hmem. destruct (co_pending s Hs _ _ Hmem) as (x & Ex & _ & Ho & Hnr & Hu).
  rewrite Ex in Hw. injection Hw as <-. exists w, x. split; [done|]. split; [done|].
  destruct (co_story s Hs _ _ Ex) as [Ha Hph]. split; [done|].
  destruct (wt_phase x) eqn:Ep; [by destruct Hph..|by destruct Hph as (_ & _ & ?)|by destruct (Hnr _ eq_refl)].
Qed.

(** A late answer, or one to an unknown id, changes nothing. *)
Lemma late_answer_ignored s id b : st_pending s !! id = None -> answer id b s = s.
Proof. intros E. unfold answer, take. rewrite E, delete_id by done. by destruct s. Qed.

(** ** A question approved, for the witness *)

Definition demo_question : PendingApproval := {|
  pa_id := "q1"; pa_agent_id := "fuji"; pa_op := "git_push"; pa_repo := None;
  pa_detail := "push fix/x"; pa_requested_at := "2026-01-01T00:00:00Z";
|}.

Definition demo_waiting : State :=
  let s := register 0 demo_question (log (Asked 0 demo_question) initial) in
  log (Requested 0 demo_question)
    (set_waiter 0 {| wt_info := demo_question; wt_chan := Open; wt_phase := Waiting 120 |} s).

Definition demo_approved : State := 
  return_with 0 120 (Said true) (answer "q1" true (log (Answer "q1" true) demo_waiting)).

Lemma demo_reachable : reachable demo_approved.
Proof.
  eapply rtc_l; [by apply (step_register 0 demo_question)|].
  eapply rtc_l; [by apply (step_emitted 0 {| wt_info := demo_question; wt_chan := Open; wt_phase := Registered |} 120)|].
  eapply rtc_l; [by apply (step_answer "q1" true)|].
  apply rtc_once. by eapply step_received.
Qed.

Example only_a_yes_approves_witness :
  requests 0 (st_log demo_approved) = [demo_question] /\ answered_first 0 demo_question true (st_log demo_approved) /\
  resolutions 0 (st_log demo_approved) = [("q1", Approved)].
Proof.
  exact (only_a_yes_approves demo_approved 0
    {| wt_info := demo_question; wt_chan := Sent true; wt_phase := Returned None |}
    demo_reachable eq_refl).
Defined.
