(* ===== verification/Caps.v ===== *)
(** * What an agent may publish (rpc/caps.rs)

    The grant stamped on an agent at its spawn, and the three refusals made from it. *)

From S2P Require Import Prelude RustStr RustText.

Local Open Scope string_scope.
Local Open Scope list_scope.

Definition PUBLISH_OPS : list string := ["git_push"; "open_pr"; "pr_merge"; "workflow_dispatch"].

Definition is_publish_op (op : string) : bool := lcontains PUBLISH_OPS op.

Definition PROTECTED_TRUNKS : list string := ["main"; "master"].

Inductive Publish := OwnBranch | PublishDenied (why : string).

Record AgentCaps := { ac_publish : Publish }.

Definition interactive : AgentCaps := {| ac_publish := OwnBranch |}.

Definition run_owned : AgentCaps := {|
  ac_publish := PublishDenied
    "workflow step agents cannot push or open PRs; the run publishes its wf/ branch when it finalizes";
|}.

Definition advisory : AgentCaps := {|
  ac_publish := PublishDenied
    "the project-manager chat proposes roadmap items; it never publishes code — write the work up as a roadmap item instead";
|}.

Definition reviewer : AgentCaps := {|
  ac_publish := PublishDenied
    "the reviewer reads and reports; it never edits, commits or publishes — report your findings through review_submit instead";
|}.

Definition refuses (caps : AgentCaps) (op : string) : option string :=
  match ac_publish caps with
  | PublishDenied why => if is_publish_op op then Some why else None
  | OwnBranch => None
  end.

(** [a.trim().eq_ignore_ascii_case(b.trim())]. *)
Definition same (a b : string) : bool := eq_ignore_ascii_case (trim a) (trim b).

Definition is_review_target (branch base : string) : bool :=
  same branch base || existsb (same branch) PROTECTED_TRUNKS.

Definition refuses_branch (caps : AgentCaps) (branch base : string) : option string :=
  match ac_publish caps with
  | PublishDenied why => Some why
  | OwnBranch =>
      if is_review_target branch base then
        Some ("refusing to publish to '" +:+ branch
              +:+ "': it is the branch this work is reviewed against. Push your own branch (e.g. fix/…) and open a pull request instead")
      else None
  end.

Definition refuses_force (caps : AgentCaps) (branch : string) (own_branch : option string) : option string :=
  match ac_publish caps with
  | PublishDenied why => Some why
  | OwnBranch =>
      match opt_filter (fun s => negb (is_empty s)) (trim <$> own_branch) with
      | Some own =>
          if same branch own then None
          else Some ("refusing to force-push '" +:+ trim branch
                 +:+ "': force is limited to this agent's own branch '" +:+ own
                 +:+ "'. Push without --force to create or update a different branch")
      | None =>
          Some ("refusing to force-push '" +:+ trim branch
            +:+ "': this agent has no recorded work branch to authorize a force against yet. Push without --force first (e.g. to open your pull request); force becomes available for that branch afterward")
      end
  end.

(** ** Facts *)

Lemma refuses_None caps op :
  is_publish_op op = true -> refuses caps op = None -> ac_publish caps = OwnBranch.
Proof. intros Hop. unfold refuses. rewrite Hop. by destruct (ac_publish caps). Qed.

Lemma refuses_branch_None caps branch base :
  refuses_branch caps branch base = None ->
  ac_publish caps = OwnBranch /\ is_review_target branch base = false.
Proof. unfold refuses_branch. destruct (ac_publish caps); [|done]. by destruct (is_review_target _ _). Qed.

(** A review target in any spelling a case-insensitive file system would take for it. *)
Lemma is_review_target_spec branch base :
  is_review_target branch base = true <->
  same branch base = true \/ same branch "main" = true \/ same branch "master" = true.
Proof.
  unfold is_review_target. cbn [existsb PROTECTED_TRUNKS]. rewrite !orb_true_iff. intuition congruence.
Qed.

Lemma refuses_force_None caps branch own :
  refuses_force caps branch own = None ->
  ac_publish caps = OwnBranch /\
  exists o, own = Some o /\ is_empty (trim o) = false /\ same branch (trim o) = true.
Proof.
  unfold refuses_force. destruct (ac_publish caps); [|done].
  destruct own as [o|]; [|done]. cbn [fmap option_fmap option_map opt_filter].
  destruct (is_empty (trim o)) eqn:Ho; [done|]. cbn [negb]. destruct (same branch (trim o)) eqn:Hs; [|done].
  eauto.
Qed.
