(* ===== verification/GitRpc.v ===== *)
(** * The agent's git and GitHub operations (rpc/git)

    What an agent asks of the host over its mailbox: the targets it may name, the arguments as they
    are read, and the operations that publish with the user's credentials, each behind its grant,
    its own refusals, the identity check and the approval prompt, in that order. *)

From Stdlib Require Import Ascii.
From S2P Require Import Prelude RustStr RustText Sql GitDist Hardening GitCmd GitRemote GitPublish.
From S2P Require Caps Approval Delegation AutopilotDriver Closes.

Local Open Scope string_scope.
Local Open Scope list_scope.

(** ** Arguments (serde_json) *)

Inductive Number := PosInt (n : N) | NegInt (z : Z) | Float (text : string).

Inductive Value :=
| Null
| Bool (b : bool)
| Num (n : Number)
| Str (s : string)
| Array (l : list Value)
| Object (fields : list (string * Value)).

Definition get (args : Value) (key : string) : option Value :=
  match args with
  | Object fields => snd <$> lfind (fun f => String.eqb f.1 key) fields
  | _ => None
  end.

Definition as_str (v : Value) : option string := match v with Str s => Some s | _ => None end.
Definition as_bool (v : Value) : option bool := match v with Bool b => Some b | _ => None end.
Definition as_u64 (v : Value) : option N := match v with Num (PosInt n) => Some n | _ => None end.

Definition arg_branch_named (args : Value) (key : string) : option string :=
  opt_filter (fun s => negb (is_empty s)) (trim <$> (get args key ≫= as_str)).
Definition arg_branch (args : Value) : option string := arg_branch_named args "branch".
Definition arg_bool (args : Value) (key : string) : bool := default false (get args key ≫= as_bool).
Definition arg_text (args : Value) (key : string) : string := default "" (get args key ≫= as_str).

(** ** Replies *)

Record Response := {
  re_id : string;
  re_ok : bool;
  re_exit_code : option Z;
  re_stdout : option string;
  re_stderr : option string;
  re_error : option string;
}.

Definition response_ok (id : string) (code : Z) (stdout stderr : string) : Response := {|
  re_id := id; re_ok := true; re_exit_code := Some code; re_stdout := Some stdout;
  re_stderr := Some stderr; re_error := None;
|}.

Definition response_err (id error : string) : Response := {|
  re_id := id; re_ok := false; re_exit_code := None; re_stdout := None; re_stderr := None;
  re_error := Some error;
|}.

Record RpcEvent := { ev_name : string; ev_payload : Value }.

Definition EVENT_BRANCH_CREATED : string := "git.branch_created".
Definition EVENT_PR_OPENED : string := "git.pr_opened".
Definition EVENT_ACTION_DONE : string := "git.action_done".
Definition EVENT_TITLE_SET : string := "workspace.title_set".
Definition MAX_TITLE_CHARS : nat := 80.

Definition is_mutating_op (op : string) : bool :=
  lcontains ["git_push"; "open_pr"; "pr_edit"; "pr_comment"; "pr_close"; "pr_merge";
             "workflow_dispatch"; "issue_comment"; "reply_thread"; "resolve_thread"] op.

Definition is_signalable_action (action : string) : bool :=
  lcontains ["git_commit"; "git_update_branch"] action.

Definition refuse_option_like (id op kind value : string) : option Response :=
  if starts_with "-" value then
    Some (response_err id (op +:+ ": refusing option-like " +:+ kind +:+ " " +:+ debug_str value))
  else None.

(** ** Targets *)

Record RepoTarget := {
  rt_subdir : string;
  rt_cwd : string;
  rt_source_repo : string;
  rt_base_branch : string;
  rt_own_branch : option string;
}.

Record Target := {
  tg_subdir : option string;
  tg_cwd : string;
  tg_source_repo : string;
  tg_base_branch : string;
  tg_own_branch : option string;
}.

Record GitDispatcher := {
  gd_cwd : string;
  gd_source_repo : string;
  gd_base_branch : string;
  gd_default_subdir : option string;
  gd_own_branch : option string;
  gd_repos : gmap string RepoTarget;
  gd_issue_agent : option string;
  gd_caps : Caps.AgentCaps;
  (** The agent's id, once there is a window to ask through. *)
  gd_approval : option string;
}.

Definition new_dispatcher (cwd source_repo base_branch : string) (caps : Caps.AgentCaps) : GitDispatcher := {|
  gd_cwd := cwd; gd_source_repo := source_repo; gd_base_branch := base_branch;
  gd_default_subdir := None; gd_own_branch := None; gd_repos := ∅; gd_issue_agent := None;
  gd_caps := caps; gd_approval := None;
|}.

Definition with_approval (d : GitDispatcher) (agent_id : string) : GitDispatcher := {|
  gd_cwd := gd_cwd d; gd_source_repo := gd_source_repo d; gd_base_branch := gd_base_branch d;
  gd_default_subdir := gd_default_subdir d; gd_own_branch := gd_own_branch d; gd_repos := gd_repos d;
  gd_issue_agent := gd_issue_agent d; gd_caps := gd_caps d; gd_approval := Some agent_id;
|}.

(** A later entry of the same folder wins; the primary is one whose folder is the dispatcher's. *)
Definition with_repos (d : GitDispatcher) (repos : list RepoTarget) : GitDispatcher :=
  let map := list_to_map (rev ((fun r => (rt_subdir r, r)) <$> repos)) : gmap string RepoTarget in
  let primary := lfind (fun r => path_eqb (rt_cwd r) (gd_cwd d)) (map_to_list map).*2 in
  {| gd_cwd := gd_cwd d; gd_source_repo := gd_source_repo d; gd_base_branch := gd_base_branch d;
     gd_default_subdir := rt_subdir <$> primary; gd_own_branch := primary ≫= rt_own_branch;
     gd_repos := map; gd_issue_agent := gd_issue_agent d; gd_caps := gd_caps d;
     gd_approval := gd_approval d |}.

Definition target (d : GitDispatcher) (id : string) (args : Value) : result Target Response :=
  match arg_branch_named args "repo" with
  | None =>
      Ok {| tg_subdir := gd_default_subdir d; tg_cwd := gd_cwd d; tg_source_repo := gd_source_repo d;
            tg_base_branch := gd_base_branch d; tg_own_branch := gd_own_branch d |}
  | Some name =>
      match gd_repos d !! name with
      | Some repo =>
          Ok {| tg_subdir := Some name; tg_cwd := rt_cwd repo; tg_source_repo := rt_source_repo repo;
                tg_base_branch := rt_base_branch repo; tg_own_branch := rt_own_branch repo |}
      | None =>
          Err (response_err id ("unknown repo " +:+ debug_str name +:+ "; tracked checkouts: "
                 +:+ join ", " (sort_str (map_to_list (gd_repos d)).*1)))
      end
  end.

Definition with_repo (fields : list (string * Value)) (subdir : option string) : Value :=
  Object (fields ++ match subdir with Some s => [("repo", Str s)] | None => [] end).

Definition approval_repo (subdir primary : option string) : option string :=
  opt_filter (fun s => negb (eqb (Some s) primary)) subdir.

(** ** The repository on GitHub *)

(** [git_state::github_web_url]. *)
Definition github_web_url (remote : string) : option string :=
  let r := trim remote in
  owner_repo ← or_else (strip_prefix "git@github.com:" r)
                 (or_else (strip_prefix "ssh://git@github.com/" r)
                 (or_else (strip_prefix "https://github.com/" r)
                 (or_else (strip_prefix "http://github.com/" r)
                          (strip_prefix "git://github.com/" r))));
  let owner_repo := trim_end_by (String.eqb "/") owner_repo in
  let owner_repo := default owner_repo (strip_suffix ".git" owner_repo) in
  let owner_repo := trim_end_by (String.eqb "/") owner_repo in
  match split_on slash owner_repo with
  | [owner; repo] =>
      if is_empty owner || is_empty repo then None
      else Some ("https://github.com/" +:+ owner +:+ "/" +:+ repo)
  | _ => None
  end.

Section RepoRef.
Context `{GitHost}.

(** [github::repo_ref]. *)
Definition repo_ref (checkout : string) : G (option (string * string)) :=
  let* cmd := command checkout in
  let* out := attempt_ok (output (with_args cmd ["remote"; "get-url"; "origin"])) in
  ret (out ← out;
       if success out then
         web ← github_web_url (trim (lossy_out out));
         path ← strip_prefix "https://github.com/" web;
         match split_on slash path with
         | owner :: repo :: _ => Some (owner, repo)
         | _ => None
         end
       else None).
End RepoRef.

(** ** The host around the dispatcher *)

(** What the operations read of a pull request. *)
Record PrState := { ps_number : N; ps_url : string; ps_title : string }.

(** The setting of the approval gate, the delegation and autopilot tables, the agents' live issues
    and GitHub as they are when asked, and the answer a prompt meets: whether its event reached a
    window, how its channel ends when it is waited for, whether that is before the deadline. *)
Class RpcHost := {
  h_enabled : nat -> bool;
  h_delegations : nat -> Delegation.Inner;
  h_autopilot : nat -> AutopilotDriver.Table;
  h_emits : nat -> bool;
  h_wait : nat -> N;
  h_channel : nat -> option bool;
  h_in_time : nat -> N -> bool;
  h_issue_ref : nat -> string -> option string;
  (** A failure to start a process at all. *)
  h_spawn_error : nat -> option string;
  h_pr_create : nat -> string -> string -> string -> string -> string -> string -> result PrState string;
  h_pr_view_branch : nat -> string -> string -> result (option PrState) string;
  h_pr_merge_number : nat -> string -> N -> result () string;
  h_workflow_dispatch : nat -> string -> string -> string -> list (string * string) -> result string string;
  (** [serde_json]: a value as it displays, and over several lines. *)
  h_json : Value -> string;
  h_json_pretty : Value -> result string string;
}.

Notation Reply := (Response * list RpcEvent)%type.

(** ** Names *)

(** [publish_prefs::with_prefix]. *)
Definition with_prefix (prefix desired : string) : string :=
  if is_empty prefix || starts_with prefix desired then desired else prefix +:+ desired.

Fixpoint slug_of (prev_dash : bool) (title : string) : string :=
  match title with
  | "" => ""
  | String b title =>
      if is_ascii_alphanumeric b then String (lower_byte b) (slug_of false title)
      else if is_cont b then slug_of prev_dash title
      else if prev_dash then slug_of true title
      else String "-" (slug_of true title)
  end.

Definition fallback_branch (title : string) : string :=
  let slug := trim_byte "-" (slug_of false title) in
  if is_empty slug then "chore/update" else "chore/" +:+ slug.

(** ** More arguments *)

Definition MAX_DISPATCH_INPUTS : nat := 10.

Section Args.
Context `{RpcHost}.

Definition positive_u32_arg (args : Value) (key : string) : result (option N) string :=
  match get args key with
  | None | Some Null => Ok None
  | Some v =>
      match opt_filter (fun n => (0 <? n)%N && (n <? 2 ^ 32)%N) (as_u64 v) with
      | Some n => Ok (Some n)
      | None => Err ("`" +:+ key +:+ "` must be a positive integer, got " +:+ h_json v)
      end
  end.

Definition workflow_name_byte (b : Ascii.ascii) : bool :=
  is_ascii_alphanumeric b || lcontains ["."; "_"; "-"]%char b.

Definition workflow_arg (args : Value) : result (option string) string :=
  match get args "workflow" with
  | None | Some Null => Ok None
  | Some (Num n) =>
      match opt_filter (fun n => (0 <? n)%N) (as_u64 (Num n)) with
      | Some n => Ok (Some (show_N n))
      | None => Err ("`workflow` must be a file name or a positive id, got " +:+ h_json (Num n))
      end
  | Some (Str s) =>
      let raw := trim s in
      if is_empty raw then Ok None else
      let name := trim_start_byte slash (default raw (strip_prefix ".github/workflows/" raw)) in
      if negb (is_empty name) && negb (starts_with "-" name)
         && forallb workflow_name_byte (String.list_ascii_of_string name) then Ok (Some name)
      else Err ("`workflow` must be a workflow file name like " +:+ dq +:+ "ci.yml" +:+ dq
                +:+ " (or its id), got " +:+ debug_str raw)
  | Some other =>
      Err ("`workflow` must be a file name like " +:+ dq +:+ "ci.yml" +:+ dq +:+ " or an id, got "
           +:+ h_json other)
  end.

Definition dispatch_input (key : string) (value : Value) : result (string * string) string :=
  match value with
  | Str s => Ok (key, s)
  | Num n => Ok (key, h_json (Num n))
  | Bool b => Ok (key, if b then "true" else "false")
  | other => Err ("`inputs." +:+ key +:+ "` must be a string, number or boolean, got " +:+ h_json other)
  end.

Fixpoint collect_inputs (fields : list (string * Value)) : result (list (string * string)) string :=
  match fields with
  | [] => Ok []
  | (key, value) :: fields =>
      match dispatch_input key value with
      | Err e => Err e
      | Ok input => match collect_inputs fields with Err e => Err e | Ok inputs => Ok (input :: inputs) end
      end
  end.

Definition dispatch_inputs (args : Value) : result (list (string * string)) string :=
  match get args "inputs" with
  | None | Some Null => Ok []
  | Some (Object o) =>
      if (MAX_DISPATCH_INPUTS <? length o)%nat then
        Err ("`inputs` holds " +:+ show_nat (length o) +:+ " values; GitHub takes at most "
             +:+ show_nat MAX_DISPATCH_INPUTS)
      else collect_inputs o
  | Some other => Err ("`inputs` must be an object, got " +:+ h_json other)
  end.

Definition requested_ref (args : Value) : result (option string) string :=
  match get args "ref" with
  | None | Some Null => Ok None
  | Some (Str s) =>
      if is_empty (trim s) then Err ("`ref` must be a branch or tag name, got " +:+ h_json (Str s))
      else Ok (Some (trim s))
  | Some other => Err ("`ref` must be a branch or tag name, got " +:+ h_json other)
  end.

Definition refs_error (v : Value) : string := "`refs` must be an array of branch names, got " +:+ h_json v.

Fixpoint named_refs (items : list Value) : result (list string) string :=
  match items with
  | [] => Ok []
  | item :: items =>
      match trim <$> as_str item with
      | None => Err (refs_error item)
      | Some s =>
          match named_refs items with
          | Err e => Err e
          | Ok refs => Ok (if is_empty s then refs else s :: refs)
          end
      end
  end.

(** [Vec::dedup]: of equal neighbours the first stays. *)
Fixpoint dedup_runs (l : list string) : list string :=
  match l with
  | [] => []
  | x :: l =>
      match dedup_runs l with
      | y :: l' => if String.eqb x y then y :: l' else x :: y :: l'
      | [] => [x]
      end
  end.

Definition requested_refs (args : Value) : result (list string) string :=
  let one := option_list (arg_branch_named args "ref") in
  match get args "refs" with
  | None | Some Null => Ok (dedup_runs one)
  | Some (Array items) =>
      match named_refs items with
      | Ok refs => Ok (dedup_runs (one ++ refs))
      | Err e => Err e
      end
  | Some other => Err (refs_error other)
  end.

End Args.

Definition requested_branch (r : string) : Branches :=
  let rest := default r (strip_prefix "refs/" r) in
  match opt_filter (fun n => (0 <? n)%N)
          (pull ← strip_prefix "pull/" rest; n ← strip_suffix "/head" pull; Closes.parse_u32 n) with
  | Some n => PullRequest n
  | None => One r
  end.

Definition remote_heads (heads : list (string * string)) (prefix : option string) : list (string * string) :=
  lfilter (fun '(branch, _) => match prefix with Some p => starts_with p branch | None => true end) heads.

(** ** The operations *)

Section Ops.
Context `{GitHost} `{Guests} `{RpcHost}.

(** [approval::refuse_unless_approved]; [None] lets the publish go on. *)
Definition refuse_unless_approved (agent_id op : string) (repo : option string) (detail : string)
    : G (option string) :=
  let* enabled := look h_enabled in
  if negb enabled then ret None else
  let* table := look h_delegations in
  if Delegation.delegations_pre_authorizes table agent_id repo op then ret None else
  let* autopilot := look h_autopilot in
  if AutopilotDriver.autopilot_pre_authorizes autopilot agent_id repo op then ret None else
  let* shown := look h_emits in
  if negb shown then ret (Some (Approval.no_window detail)) else
  let* wait := look h_wait in
  let* in_time := look (fun n => h_in_time n wait) in
  let* channel := look h_channel in
  let answered := if (wait =? 0)%N || in_time then
                    match channel with
                    | Some approved => Approval.Said approved
                    | None => Approval.Dismissed
                    end
                  else Approval.Lapsed in
  let verdict := (Approval.conclude detail wait answered).1 in
  let* _ := act (Prompt agent_id op repo detail verdict) in
  ret verdict.

Definition refuse_unless_publish_approved (d : GitDispatcher) (op : string) (repo : option string)
    (detail : string) : G (option string) :=
  let* enabled := look h_enabled in
  if negb enabled then ret None else
  match gd_approval d with
  | None =>
      ret (Some ("not publishing (" +:+ detail +:+ "): publish confirmation is enabled but this session has no window to ask through"))
  | Some agent_id =>
      refuse_unless_approved agent_id op (approval_repo repo (gd_default_subdir d)) detail
  end.

(** *** Publishing *)

Definition checked_tip (id cwd branch : string) : G (result string Response) :=
  let* checked := attempt (check_identity cwd branch) in
  ret (match checked with
       | Ok (Own tip) => Ok tip
       | Ok (Foreign why) => Err (response_err id why)
       | Err e => Err (response_err id ("could not read the commits '" +:+ branch +:+ "' would publish: " +:+ e))
       end).

Definition materialize_branch (checkout desired : string) : G string :=
  let* prefix := look h_branch_prefix in
  checkout_new_unique_branch checkout (with_prefix prefix desired).

Definition branch_created (t : Target) (name : string) : RpcEvent := {|
  ev_name := EVENT_BRANCH_CREATED; ev_payload := with_repo [("branch", Str name)] (tg_subdir t);
|}.

(** The branch's name, or why there is none, with the events. *)
Definition create_branch (t : Target) (desired : string) (effects : list RpcEvent)
    : G (result string string * list RpcEvent) :=
  let* name := attempt (materialize_branch (tg_cwd t) desired) in
  match name with
  | Ok name => ret (Ok name, effects ++ [branch_created t name])
  | Err e => ret (Err e, effects)
  end.

Definition born_on_origin_by_this_push (t : Target) (branch : string) (effects : list RpcEvent) : G bool :=
  let already_noted := existsb (fun e => String.eqb (ev_name e) EVENT_BRANCH_CREATED) effects in
  if already_noted || eqb (tg_own_branch t) (Some branch) then ret false
  else
    let* there := remote_branch_exists (tg_cwd t) (tg_source_repo t) branch in
    ret (eqb there (Some false)).

Definition note_branch_born (born : bool) (t : Target) (branch : string) (effects : list RpcEvent)
    : list RpcEvent :=
  if born then effects ++ [branch_created t branch] else effects.

Definition publication (t : Target) (branch : string) (force : bool) : Publication := {|
  pb_checkout := tg_cwd t; pb_source_repo := tg_source_repo t; pb_branch := branch; pb_force := force;
|}.

(** [Target::publish]. *)
Definition target_publish (t : Target) (branch tip : string) (force : bool) : G string :=
  let* published := publish (publication t branch force) (TipCommit tip) in
  ret (pd_summary published).

(** The refusals and the prompt shared by the two pushes, in order; the tip to publish. *)
Definition licence (d : GitDispatcher) (t : Target) (id op branch detail : string)
    (force_refusal : option string) : G (result string Response) :=
  match refuse_option_like id op "branch" branch with
  | Some resp => ret (Err resp)
  | None =>
  match Caps.refuses_branch (gd_caps d) branch (tg_base_branch t) with
  | Some why => ret (Err (response_err id why))
  | None =>
  let* before := checked_tip id (tg_cwd t) branch in
  match before with
  | Err resp => ret (Err resp)
  | Ok _ =>
  let* refused := refuse_unless_publish_approved d op (tg_subdir t) detail in
  match refused with
  | Some why => ret (Err (response_err id why))
  | None =>
  match force_refusal with
  | Some why => ret (Err (response_err id why))
  | None => checked_tip id (tg_cwd t) branch
  end end end end end.

(** The licence, whether the branch is about to be born on origin, and the push. *)
Definition publish_licensed (d : GitDispatcher) (t : Target) (id op branch detail : string) (force : bool)
    (force_refusal : option string) (born : G bool) : G (result (bool * result string string) Response) :=
  let* tip := licence d t id op branch detail force_refusal in
  match tip with
  | Err resp => ret (Err resp)
  | Ok tip =>
      let* born := born in
      let* pushed := attempt (target_publish t branch tip force) in
      ret (Ok (born, pushed))
  end.

Definition git_push (d : GitDispatcher) (id : string) (args : Value) : G Reply :=
  match target d id args with
  | Err resp => ret (resp, [])
  | Ok t =>
  let* current := attempt (current_branch (tg_cwd t)) in
  match current with
  | Err e => ret (response_err id ("git_push: " +:+ e), [])
  | Ok current =>
  let* (branch, effects) :=
    match current, arg_branch args with
    | Some cur, _ => ret (Ok cur, [])
    | None, Some req =>
        let* (name, effects) := create_branch t req [] in
        ret (match name with
             | Ok name => Ok name
             | Err e => Err (response_err id ("git_push: " +:+ e))
             end, effects)
    | None, None =>
        ret (Err (response_err id ("git_push: HEAD is detached — pass `args.branch` (e.g. " +:+ dq
               +:+ "fix/…" +:+ dq +:+ ") to create the branch")), [])
    end in
  match branch with
  | Err resp => ret (resp, effects)
  | Ok branch =>
  let force := arg_bool args "force" in
  let force_refusal := if force then Caps.refuses_force (gd_caps d) branch (tg_own_branch t) else None in
  let* published := publish_licensed d t id "git_push" branch ("push " +:+ branch) force force_refusal
                      (born_on_origin_by_this_push t branch effects) in
  ret (match published with
       | Err resp => (resp, effects)
       | Ok (born, Ok summary) => (response_ok id 0 summary "", note_branch_born born t branch effects)
       | Ok (_, Err e) => (response_err id e, effects)
       end)
  end end end.

(** The issue the primary checkout's pull request closes. *)
Definition live_closes (d : GitDispatcher) (t : Target) : G (option string) :=
  if negb (eqb (tg_subdir t) (gd_default_subdir d)) then ret None
  else match gd_issue_agent d with
       | Some agent => look (fun n => h_issue_ref n agent)
       | None => ret None
       end.

Definition pr_opened (t : Target) (pr : PrState) (branch base : string) : RpcEvent := {|
  ev_name := EVENT_PR_OPENED;
  ev_payload := with_repo
    [ ("number", Num (PosInt (ps_number pr))); ("base", Str base); ("branch", Str branch);
      ("url", Str (ps_url pr)); ("title", Str (ps_title pr)) ] (tg_subdir t);
|}.

Definition pr_create (t : Target) (head title body base : string) : G PrState :=
  let* _ := act (Api (PrCreate (tg_source_repo t) (tg_cwd t) head title body base)) in
  let* r := look (fun n => h_pr_create n (tg_source_repo t) (tg_cwd t) head title body base) in
  lift r.

(** The branch a pull request is opened from: the head asked for, the one checked out, or one made
    for it. *)
Definition head_branch (t : Target) (title : string) (head current requested : option string)
    : G (result string string * list RpcEvent) :=
  match head, current, requested with
  | Some head, _, _ => ret (Ok head, [])
  | None, Some cur, None => ret (Ok cur, [])
  | None, Some cur, Some req =>
      if String.eqb req cur then ret (Ok cur, []) else create_branch t req []
  | None, None, req => create_branch t (default (fallback_branch title) req) []
  end.

Definition open_pr (d : GitDispatcher) (id : string) (args : Value) : G Reply :=
  match target d id args with
  | Err resp => ret (resp, [])
  | Ok t =>
  let title := arg_text args "title" in
  let* closes := live_closes d t in
  match Closes.with_closes_trailer (arg_text args "body") closes with
  | None => err "panicked"
  | Some body =>
  let requested_base := arg_branch_named args "base" in
  let base := default (tg_base_branch t) requested_base in
  match refuse_option_like id "open_pr" "base" base with
  | Some resp => ret (resp, [])
  | None =>
  let* there := match requested_base with
                | Some _ => remote_branch_exists (tg_cwd t) (tg_source_repo t) base
                | None => ret None
                end in
  if eqb there (Some false) then
    ret (response_err id ("open_pr: base branch " +:+ debug_str base
           +:+ " does not exist on origin — pass an existing branch as `args.base`"), [])
  else
  let* current := attempt (current_branch (tg_cwd t)) in
  match current with
  | Err e => ret (response_err id ("open_pr: " +:+ e), [])
  | Ok current =>
  let head := arg_branch_named args "head" in
  let publishes_other_head := is_some head && negb (eqb head current) in
  let* (branch, effects) := head_branch t title head current (arg_branch args) in
  match branch with
  | Err e => ret (response_err id ("open_pr: " +:+ e), effects)
  | Ok branch =>
  let detail := "open a pull request from " +:+ branch +:+ " into " +:+ base in
  let* published := publish_licensed d t id "open_pr" branch detail false None
                      (if publishes_other_head then ret false
                       else born_on_origin_by_this_push t branch effects) in
  match published with
  | Err resp => ret (resp, effects)
  | Ok (_, Err e) => ret (response_err id ("open_pr push failed: " +:+ e), effects)
  | Ok (born, Ok _) =>
  let effects := note_branch_born born t branch effects in
  let* pr := attempt (pr_create t branch title body base) in
  match pr with
  | Ok pr => ret (response_ok id 0 (ps_url pr) "", effects ++ [pr_opened t pr branch base])
  | Err e => ret (response_err id ("open_pr: " +:+ e), effects)
  end end end end end end end.

(** *** Writes through GitHub's API *)

Definition pr_read_target (d : GitDispatcher) (id op : string) (args : Value) : G (result Target Response) :=
  match target d id args with
  | Err resp => ret (Err resp)
  | Ok t =>
  let* repo := repo_ref (tg_source_repo t) in
  if is_none repo then
    ret (Err (response_err id (op +:+ ": origin is not a GitHub repository (or there is no origin)"))) else
  let* token := look h_token in
  if is_none token then
    ret (Err (response_err id (op +:+ ": the host is not connected to GitHub — the user must sign in"))) else
  let* backing_off := look h_backing_off in
  if backing_off : bool then
    ret (Err (response_err id (op +:+ ": GitHub rate limit reached; the host is backing off — try again shortly")))
  else ret (Ok t)
  end.

Definition NO_BRANCH_PR : string :=
  "no pull request for this branch, or the host's GitHub account cannot see this repository".

Definition pr_view_branch (source_repo branch : string) : G (option PrState) :=
  let* _ := act (Api (PrViewBranch source_repo branch)) in
  let* r := look (fun n => h_pr_view_branch n source_repo branch) in
  lift r.

Definition branch_pr (id op : string) (t : Target) : G (result PrState Response) :=
  let no_pr := Err (response_err id (op +:+ ": " +:+ NO_BRANCH_PR)) in
  let fail := fun e => Err (response_err id (op +:+ ": " +:+ e)) in
  let* branch := attempt (current_branch (tg_cwd t)) in
  match branch with
  | Err e => ret (fail e)
  | Ok None => ret no_pr
  | Ok (Some branch) =>
      let* pr := attempt (pr_view_branch (tg_source_repo t) branch) in
      ret (match pr with
           | Ok (Some pr) => Ok pr
           | Ok None => no_pr
           | Err e => fail e
           end)
  end.

Definition json_ok (id op : string) (value : Value) : Response :=
  match h_json_pretty value with
  | Ok json => response_ok id 0 json ""
  | Err e => response_err id (op +:+ ": " +:+ e)
  end.

Definition pr_merge_number (source_repo : string) (number : N) : G () :=
  let* _ := act (Api (PrMergeNumber source_repo number)) in
  let* r := look (fun n => h_pr_merge_number n source_repo number) in
  lift r.

Definition pr_merge (d : GitDispatcher) (id : string) (args : Value) : G Response :=
  match positive_u32_arg args "number" with
  | Err e => ret (response_err id ("pr_merge: " +:+ e))
  | Ok number =>
  let* t := pr_read_target d id "pr_merge" args in
  match t with
  | Err resp => ret resp
  | Ok t =>
  let* number := match number with
                 | Some n => ret (Ok n)
                 | None =>
                     let* pr := branch_pr id "pr_merge" t in
                     ret (match pr with Ok pr => Ok (ps_number pr) | Err resp => Err resp end)
                 end in
  match number with
  | Err resp => ret resp
  | Ok number =>
  let* refused := refuse_unless_publish_approved d "pr_merge" (tg_subdir t)
                    ("merge pull request #" +:+ show_N number) in
  match refused with
  | Some why => ret (response_err id why)
  | None =>
  let* merged := attempt (pr_merge_number (tg_source_repo t) number) in
  ret (match merged with
       | Ok _ => json_ok id "pr_merge"
                   (Object [("number", Num (PosInt number)); ("merge", Str "requested")])
       | Err e => response_err id ("pr_merge: " +:+ e)
       end)
  end end end end.

Definition workflow_dispatch_api (source_repo workflow git_ref : string) (inputs : list (string * string))
    : G string :=
  let* _ := act (Api (WorkflowDispatch source_repo workflow git_ref inputs)) in
  let* r := look (fun n => h_workflow_dispatch n source_repo workflow git_ref inputs) in
  lift r.

Definition NO_RUN_ID : string :=
  "GitHub reports no run id for a dispatch; run_list with this workflow and branch finds the run once it is queued".

Definition workflow_dispatch (d : GitDispatcher) (id : string) (args : Value) : G Response :=
  let op := "workflow_dispatch" in
  match workflow_arg args with
  | Err e => ret (response_err id (op +:+ ": " +:+ e))
  | Ok None =>
      ret (response_err id ("workflow_dispatch requires `workflow`: a workflow file name like " +:+ dq
             +:+ "deploy.yml" +:+ dq +:+ " (as run_list's `workflow` spells it) or its id"))
  | Ok (Some workflow) =>
  match dispatch_inputs args with
  | Err e => ret (response_err id (op +:+ ": " +:+ e))
  | Ok inputs =>
  match requested_ref args with
  | Err e => ret (response_err id (op +:+ ": " +:+ e))
  | Ok requested =>
  match requested ≫= refuse_option_like id op "ref" with
  | Some resp => ret resp
  | None =>
  let* t := pr_read_target d id op args in
  match t with
  | Err resp => ret resp
  | Ok t =>
  let* git_ref := match requested with
                  | Some r => ret (Ok r)
                  | None =>
                      let* current := attempt (current_branch (tg_cwd t)) in
                      ret (match current with
                           | Ok (Some branch) => Ok branch
                           | Ok None => Err (response_err id (op +:+ ": HEAD is detached — pass `args.ref` (a branch or tag on origin) to run the workflow on"))
                           | Err e => Err (response_err id (op +:+ ": " +:+ e))
                           end)
                  end in
  match git_ref with
  | Err resp => ret resp
  | Ok git_ref =>
  let* refused := refuse_unless_publish_approved d op (tg_subdir t)
                    ("run workflow " +:+ workflow +:+ " on " +:+ git_ref) in
  match refused with
  | Some why => ret (response_err id why)
  | None =>
  let* dispatched := attempt (workflow_dispatch_api (tg_source_repo t) workflow git_ref inputs) in
  ret (match dispatched with
       | Ok runs_url => json_ok id op (Object
           [ ("workflow", Str workflow); ("ref", Str git_ref);
             ("inputs", Object ((fun '(k, v) => (k, Str v)) <$> inputs));
             ("dispatched", Bool true); ("runs_url", Str runs_url); ("note", Str NO_RUN_ID) ])
       | Err e => response_err id (op +:+ ": " +:+ e)
       end)
  end end end end end end end.

(** *** Reads *)

Definition OP_TIMEOUT : string := "120".

Definition run_git_command (id cwd : string) (args : list string) (env : list (string * string)) : G Response :=
  let* guard := attempt (refuse_steerable_config cwd) in
  match guard with
  | Err e => ret (response_err id e)
  | Ok _ =>
  let* cmd := command cwd in
  let* spawn_error := look h_spawn_error in
  match spawn_error with
  | Some e => ret (response_err id ("spawn git: " +:+ e))
  | None =>
  let* out := run (with_env (with_args cmd args) env) in
  ret (match out with
       | Some (Ok out) => response_ok id (default (-1)%Z (o_code out)) (lossy_out out) (lossy_err out)
       | Some (Err e) => response_err id ("run git: " +:+ e)
       | None => response_err id ("op timed out after " +:+ OP_TIMEOUT +:+ "s")
       end)
  end end.

Definition git_status (d : GitDispatcher) (id : string) (args : Value) : G Response :=
  match target d id args with
  | Ok t => run_git_command id (tg_cwd t) ["status"; "--porcelain=v1"; "--branch"] []
  | Err resp => ret resp
  end.

(** One round trip per ref, up to the first that fails. *)
Fixpoint fetch_each (t : Transport) (refs : list string) : G () :=
  match refs with
  | [] => ret ()
  | r :: refs =>
      let* _ := fetch_branches t (requested_branch r) in
      fetch_each t refs
  end.

Fixpoint first_refused (id op kind : string) (values : list string) : option Response :=
  match values with
  | [] => None
  | v :: values => or_else (refuse_option_like id op kind v) (first_refused id op kind values)
  end.

Definition git_fetch (d : GitDispatcher) (id : string) (args : Value) : G Response :=
  match target d id args with
  | Err resp => ret resp
  | Ok t =>
  match requested_refs args with
  | Err e => ret (response_err id ("git_fetch: " +:+ e))
  | Ok refs =>
  let refs := match refs with [] => [tg_base_branch t] | _ => refs end in
  match first_refused id "git_fetch" "ref" refs with
  | Some resp => ret resp
  | None =>
  let* transport := attempt (open (tg_cwd t) (tg_source_repo t)) in
  match transport with
  | Err e => ret (response_err id ("git_fetch: " +:+ e))
  | Ok transport =>
  let* fetched := attempt (fetch_each transport refs) in
  ret (match fetched with
       | Ok _ => response_ok id 0 "" ""
       | Err e => response_err id ("git_fetch: fetch origin " +:+ join " " refs +:+ " failed: " +:+ e)
       end)
  end end end end.

Definition head_row (head : string * string) : Value :=
  Object [("branch", Str head.1); ("sha", Str head.2)].

Definition git_ls_remote (d : GitDispatcher) (id : string) (args : Value) : G Response :=
  match target d id args with
  | Err resp => ret resp
  | Ok t =>
  let prefix := arg_branch_named args "prefix" in
  let* transport := attempt (open (tg_cwd t) (tg_source_repo t)) in
  match transport with
  | Err e => ret (response_err id ("git_ls_remote: " +:+ e))
  | Ok transport =>
  let* heads := attempt (branches transport) in
  ret (match heads with
       | Err e => response_err id ("git_ls_remote: " +:+ e)
       | Ok heads => json_ok id "git_ls_remote" (Array (head_row <$> remote_heads heads prefix))
       end)
  end end.

(** *** Neither git nor GitHub *)

Definition echo (id : string) (args : Value) : Response :=
  let message := arg_text args "message" in
  if is_empty message then response_err id "echo requires a non-empty `message` arg"
  else response_ok id 0 message "".

Definition set_title (id : string) (args : Value) : Reply :=
  let title := default "" ((fun s => join " " (split_whitespace s)) <$> (get args "title" ≫= as_str)) in
  if is_empty title then (response_err id "set_title requires a non-empty `title` arg", [])
  else if (MAX_TITLE_CHARS <? char_count title)%nat then
    (response_err id ("set_title: title exceeds " +:+ show_nat MAX_TITLE_CHARS
       +:+ " characters; keep it to a few words"), [])
  else (response_ok id 0 title "",
        [{| ev_name := EVENT_TITLE_SET; ev_payload := Object [("title", Str title)] |}]).

Definition action_done (op : string) : RpcEvent := {|
  ev_name := EVENT_ACTION_DONE; ev_payload := Object [("op", Str op)];
|}.

Definition signal_git_action (id : string) (args : Value) : Reply :=
  let action := arg_text args "action" in
  if is_signalable_action action then (response_ok id 0 "" "", [action_done action])
  else (response_err id ("signal_git_action: unknown action " +:+ debug_str action), []).

(** *** The dispatcher *)

(** The operations whose handlers are not followed here: GitHub's reads, and its comments and
    edits. *)
Definition OTHER_OPS : list string :=
  [ "pr_view"; "pr_list"; "repo_view"; "issue_view"; "issue_list"; "pr_checks"; "pr_check_log";
    "run_list"; "run_log"; "release_list"; "release_view"; "pr_comments"; "pr_edit"; "pr_comment";
    "pr_close"; "issue_comment"; "pr_threads"; "reply_thread"; "resolve_thread" ].

Definition quietly (m : G Response) : G Reply := let* resp := m in ret (resp, []).

Definition arm (others : string -> G Reply) (d : GitDispatcher) (id op : string) (args : Value) : G Reply :=
  if String.eqb op "open_pr" then open_pr d id args
  else if String.eqb op "git_push" then git_push d id args
  else if String.eqb op "git_fetch" then quietly (git_fetch d id args)
  else if String.eqb op "git_ls_remote" then quietly (git_ls_remote d id args)
  else if String.eqb op "signal_git_action" then ret (signal_git_action id args)
  else if String.eqb op "workflow_dispatch" then quietly (workflow_dispatch d id args)
  else if String.eqb op "pr_merge" then quietly (pr_merge d id args)
  else if String.eqb op "echo" then ret (echo id args, [])
  else if String.eqb op "set_title" then ret (set_title id args)
  else if String.eqb op "ping" then ret (response_ok id 0 "pong" "", [])
  else if String.eqb op "git_status" then quietly (git_status d id args)
  else if lcontains OTHER_OPS op then others op
  else ret (response_err id ("unknown op: " +:+ op), []).

Definition dispatch_inner (others : string -> G Reply) (d : GitDispatcher) (id op : string) (args : Value)
    : G Reply :=
  match Caps.refuses (gd_caps d) op with
  | Some why => ret (response_err id why, [])
  | None =>
      let* (resp, effects) := arm others d id op args in
      ret (resp, if re_ok resp && is_mutating_op op then effects ++ [action_done op] else effects)
  end.

End Ops.
