(* ===== verification/GitLicence.v ===== *)
(** * What lets an agent publish (rpc/git, its theorems)

    Every push and every write to GitHub an agent obtains through the dispatcher comes after the
    refusals of its grant, the identity check and the user's consent, in the same call; the other
    operations only read. *)

From S2P Require Import Prelude RustStr RustText Sql GitDist Hardening GitCmd GitRemote GitPublish GitRpc.
From S2P Require Caps Approval Delegation AutopilotDriver Closes.

Local Open Scope string_scope.
Local Open Scope list_scope.

Section Licence.
Context `{GitHost} `{Guests} `{RpcHost}.

(** ** Vocabulary *)

(** The user agreed, between two moments: confirmation is off; a delegation the user started on
    this checkout performs the very operation; autopilot is on there and the operation is a push;
    or a prompt naming the act was answered with yes. *)
Definition consented (d : GitDispatcher) (op : string) (subdir : option string) (detail : string)
    (n n' : nat) (l : list Act) : Prop :=
  (exists k, n <= k < n' /\ h_enabled k = false) \/
  exists agent, gd_approval d = Some agent /\
    let repo := approval_repo subdir (gd_default_subdir d) in
    ((exists k, n <= k < n' /\ Delegation.delegations_pre_authorizes (h_delegations k) agent repo op = true) \/
     (exists k, n <= k < n' /\ AutopilotDriver.autopilot_pre_authorizes (h_autopilot k) agent repo op = true) \/
     l = [Prompt agent op repo detail None]).

(** What a handler does before it publishes: it reads, looks up a pull request, asks. *)
Definition inquires (source : string) (a : Act) : Prop :=
  reading source a \/ (exists b, a = Api (PrViewBranch source b)) \/
  exists agent op repo detail verdict, a = Prompt agent op repo detail verdict.

Definition branch_was (checkout branch sha : string) (l : list Act) : Prop := exists o,
  ran checkout ["rev-parse"; "--verify"; "--quiet"; "refs/heads/" +:+ branch] o l /\
  success o = true /\ sha = trim (lossy_out o).

(** Why [sha] may be pushed to [branch]. *)
Record licensed (d : GitDispatcher) (t : Target) (op branch detail sha : string) (n n' : nat)
    (l : list Act) : Prop := {
  li_grant : Caps.ac_publish (gd_caps d) = Caps.OwnBranch;
  li_plain : starts_with "-" branch = false;
  li_target : Caps.is_review_target branch (tg_base_branch t) = false;
  (** Consent first, then the check of the commits, of the branch as it stands then. *)
  li_checked : exists n1 n2 l0 l1 l2, l = l0 ++ l1 ++ l2 /\ n <= n1 /\ n2 <= n' /\
    consented d op (tg_subdir t) detail n1 n2 l1 /\
    own_commits (tg_cwd t) sha l2 /\ branch_was (tg_cwd t) branch sha l2;
}.

(** ** The gate *)

Lemma refuse_unless_approved_consents d agent op subdir detail :
  gd_approval d = Some agent ->
  during (refuse_unless_approved agent op (approval_repo subdir (gd_default_subdir d)) detail)
    (fun n n' l r => (exists verdict, r = Ok verdict) /\
       (l = [] \/ exists verdict, l = [Prompt agent op (approval_repo subdir (gd_default_subdir d)) detail verdict]) /\
       (r = Ok None -> consented d op subdir detail n n' l)).
Proof.
  intros Hd. unfold refuse_unless_approved, consented.
  apply during_bind, during_look. intros n. destruct (h_enabled n) eqn:He; cbn [negb].
  2:{ apply during_ret. intros n1 ->. cbn [app]. split; [eauto|]. split; [by left|]. intros _. left.
      exists n. split; [lia|done]. }
  apply during_bind, during_look. intros n1. destruct (Delegation.delegations_pre_authorizes _ _ _ _) eqn:Hdel.
  { apply during_ret. intros n2 -> ->. cbn [app]. split; [eauto|]. split; [by left|]. intros _. right.
    exists agent. split; [done|]. cbv zeta. left. exists (S n). split; [lia|done]. }
  apply during_bind, during_look. intros n2. destruct (AutopilotDriver.autopilot_pre_authorizes _ _ _ _) eqn:Hauto.
  { apply during_ret. intros n3 -> -> ->. cbn [app]. split; [eauto|]. split; [by left|]. intros _. right.
    exists agent. split; [done|]. cbv zeta. right. left. exists (S (S n)). split; [lia|done]. }
  apply during_bind, during_look. intros n3. destruct (h_emits n3); cbn [negb].
  2:{ apply during_ret. intros n4 _ _ _ _. split; [eauto|]. split; [by left|]. done. }
  apply during_bind, during_look. intros n4. apply during_bind, during_look. intros n5.
  apply during_bind, during_look. intros n6. cbv zeta.
  apply during_bind, during_act. intros n7. apply during_ret. intros. cbn [app].
  split; [eauto|]. split; [eauto|].
  intros [= Hv]. right. exists agent. split; [done|]. right. right. by rewrite Hv.
Qed.

Lemma gate_consents d op subdir detail :
  during (refuse_unless_publish_approved d op subdir detail)
    (fun n n' l r => (exists verdict, r = Ok verdict) /\
       Forall (fun a => exists agent op repo detail verdict, a = Prompt agent op repo detail verdict) l /\
       (r = Ok None -> consented d op subdir detail n n' l)).
Proof.
  unfold refuse_unless_publish_approved. apply during_bind, during_look. intros n.
  destruct (h_enabled n) eqn:He; cbn [negb].
  2:{ apply during_ret. intros n1 ->. split; [eauto|]. split; [done|]. intros _. left. exists n. split; [lia|done]. }
  destruct (gd_approval d) as [agent|] eqn:Hd.
  2:{ apply during_ret. intros n1 _. split; [eauto|]. done. }
  eapply during_mono; [by apply refuse_unless_approved_consents|].
  intros n1 n2 l r _ (Hr & Hl & Hc) ->. split; [done|]. cbn [app]. split.
  { destruct Hl as [->|[v ->]]; [done|]. repeat constructor. eauto 10. }
  intros Er. destruct (Hc Er) as [(k & ? & ?)|(ag & ? & Hag)].
  - left. exists k. split; [lia|done].
  - right. exists ag. split; [done|]. destruct Hag as [(k & ? & ?)|[(k & ? & ?)|?]].
    + left. exists k. split; [lia|done].
    + right. left. exists k. split; [lia|done].
    + by right; right.
Qed.

(** ** Reading *)

Section Reads.
Context (source : string) (P : Act -> Prop) (HP : forall a, reading source a -> P a).

Lemma quiet_current_branch repo : quiet P (current_branch repo).
Proof.
  unfold current_branch. apply quiet_bind; [by apply (quiet_git source P HP)|]. intros o.
  destruct (o_code o) as [[|[]|]|]; apply quiet_ret || apply quiet_err.
Qed.

Lemma quiet_branch_name_taken repo branch : quiet P (branch_name_taken repo branch).
Proof.
  unfold branch_name_taken, branch_exists, has_origin_tracking_ref.
  apply quiet_bind; [apply quiet_bind; [by apply (quiet_git source P HP)|]|]; intros o.
  - destruct (o_code o) as [[|[]|]|]; apply quiet_ret || apply quiet_err.
  - destruct o; [apply quiet_ret|]. apply quiet_bind; [by apply (quiet_git source P HP)|]. intros; apply quiet_ret.
Qed.

Lemma quiet_checkout_new_branch repo branch : quiet P (checkout_new_branch repo branch).
Proof.
  unfold checkout_new_branch, run_git, run_git_env. apply quiet_bind; [|intros; apply quiet_ret].
  apply quiet_bind; [by apply (quiet_git source P HP)|]. intros o.
  destruct (success o); apply quiet_ret || apply quiet_err.
Qed.

Lemma quiet_first_free repo desired tries n : quiet P (first_free repo desired tries n).
Proof.
  revert n. induction tries as [|tries IH]; intros n; cbn [first_free]; [apply quiet_err|]. cbv zeta.
  apply quiet_bind; [apply quiet_branch_name_taken|]. intros []; [apply IH|].
  apply quiet_bind; [apply quiet_checkout_new_branch|]. intros; apply quiet_ret.
Qed.

Lemma quiet_create_branch t desired effects : quiet P (create_branch t desired effects).
Proof.
  unfold create_branch, materialize_branch. apply quiet_bind; [apply quiet_attempt, quiet_bind|].
  - apply quiet_look.
  - intros; apply quiet_first_free.
  - intros []; apply quiet_ret.
Qed.

Lemma quiet_remote_branch_exists checkout branch : quiet P (remote_branch_exists checkout source branch).
Proof.
  unfold remote_branch_exists. eapply emits_bind.
  { apply emits_attempt_ok with (R := fun t => t_source_repo t = source) (Q := fun t => match t with
      | Some t => t_source_repo t = source | None => True end); [|done..].
    eapply emits_mono; [apply (emits_open P), (Plocal source P HP)|]. naive_solver. }
  intros [t|] Ht; [|apply quiet_ret]. apply quiet_bind; [|intros; apply quiet_ret].
  apply quiet_attempt_ok, (quiet_tip P t). { intros a. by apply (Preads source P HP). } apply remotes_head.
Qed.

Lemma quiet_born t branch effects :
  tg_source_repo t = source -> quiet P (born_on_origin_by_this_push t branch effects).
Proof.
  intros E. unfold born_on_origin_by_this_push. rewrite E. cbv zeta. destruct (_ || _); [apply quiet_ret|].
  apply quiet_bind; [apply quiet_remote_branch_exists|]. intros; apply quiet_ret.
Qed.

Lemma quiet_checked_tip id cwd branch : quiet P (checked_tip id cwd branch).
Proof.
  unfold checked_tip. apply quiet_bind; [|intros; apply quiet_ret].
  by apply quiet_attempt, (quiet_check_identity source P HP).
Qed.

Lemma quiet_repo_ref checkout : quiet P (repo_ref checkout).
Proof.
  unfold repo_ref. eapply emits_bind; [apply emits_command|]. intros cmd Hc.
  apply quiet_bind; [|intros; apply quiet_ret]. apply quiet_attempt_ok.
  apply (emits_output _ (fun _ => True)); [|done]. intros out. apply (Plocal source P HP).
  cbn [local]. eapply (off_wire_local _ ["remote"; "get-url"; "origin"]); [done|].
  by eapply hardened_sub_args.
Qed.

Lemma quiet_pr_read_target d id op args : quiet P (pr_read_target d id op args).
Proof.
  unfold pr_read_target. destruct (target d id args) as [t|]; [|apply quiet_ret].
  apply quiet_bind; [apply quiet_repo_ref|]. intros o. destruct (is_none o); [apply quiet_ret|].
  apply quiet_bind; [apply quiet_look|]. intros tok. destruct (is_none tok); [apply quiet_ret|].
  apply quiet_bind; [apply quiet_look|]. intros []; apply quiet_ret.
Qed.
End Reads.

(** The tip that passes is the branch's, as it was read just before its commits were checked. *)
Lemma checked_tip_own id cwd branch :
  acts (checked_tip id cwd branch) (fun l r => (forall resp, r = Ok (Err resp) -> re_ok resp = false) /\
    forall sha, r = Ok (Ok sha) -> own_commits cwd sha l /\ branch_was cwd branch sha l).
Proof.
  unfold checked_tip, check_identity. apply acts_bind, acts_attempt, acts_bind. unfold branch_tip.
  apply acts_bind. eapply acts_mono; [apply git_output_ran|].
  intros l1 [o|e] Ho; [|by apply acts_ret; split; [intros ? [= <-]|]]. specialize (Ho _ eq_refl).
  destruct (success o) eqn:Hs; [apply acts_ret|by apply acts_err, acts_ret; split; [intros ? [= <-]|]].
  eapply acts_mono; [apply check_identity_own|]. intros l2 r Hr.
  apply acts_ret. split; [by destruct r as [[]|]; intros ? [= <-]|]. intros sha E. destruct r as [[tip|why]|e]; try done.
  injection E as ->. destruct (Hr _ eq_refl) as [-> Hown]. split.
  - eapply own_mono; [exact Hown|]. intros a. rewrite !elem_of_app. tauto.
  - exists o. split; [|done]. eapply ran_mono; [exact Ho|]. intros a. rewrite !elem_of_app. tauto.
Qed.

Lemma licence_licenses d t id op branch detail force_refusal :
  during (licence d t id op branch detail force_refusal) (fun n n' l r =>
    Forall (inquires (tg_source_repo t)) l /\ (forall resp, r = Ok (Err resp) -> re_ok resp = false) /\
    forall sha, r = Ok (Ok sha) -> licensed d t op branch detail sha n n' l /\ force_refusal = None).
Proof.
  set (source := tg_source_repo t).
  assert (forall a, reading source a -> inquires source a) as HP by (intros; by left).
  assert (forall n n' (r : result (result string Response) string) l resp, r = Ok (Err resp) ->
    re_ok resp = false -> Forall (inquires source) l -> Forall (inquires source) l /\
    (forall resp, r = Ok (Err resp) -> re_ok resp = false) /\
    forall sha, r = Ok (Ok sha) -> licensed d t op branch detail sha n n' l /\ force_refusal = None) as Hrefuse.
  { intros n n' r l resp -> Hresp Hl. split; [done|]. split; [by intros ? [= <-]|]. intros sha Hr. discriminate Hr. }
  unfold licence, refuse_option_like. destruct (starts_with "-" branch) eqn:Hplain.
  { apply during_ret. intros n. by eapply (Hrefuse _ _ _ _ (response_err _ _)). }
  destruct (Caps.refuses_branch _ _ _) eqn:Hcaps; [apply during_ret; intros n; by eapply (Hrefuse _ _ _ _ (response_err _ _))|].
  apply Caps.refuses_branch_None in Hcaps as [Hgrant Htarget].
  apply during_bind. eapply during_mono.
  { apply during_and; [apply checked_tip_own|apply (quiet_checked_tip source (inquires source) HP)]. }
  intros n n1 l0 [r0|e] Hn [Hown0 [Hl0 _]]; [|by split].
  destruct r0; [|apply during_ret; intros n1' _; rewrite app_nil_r; eapply Hrefuse; [done|by apply Hown0|done]].
  apply during_bind. eapply during_mono; [apply gate_consents|].
  intros n1' n2 l1 r1 Hn1 (Hr1 & Hl1 & Hconsent).
  assert (Forall (inquires source) l1) as Hl1'.
  { eapply Forall_impl; [exact Hl1|]. intros x Hx. right. right. exact Hx. }
  destruct Hr1 as [[why|] ->].
  { apply during_ret. intros. subst. eapply (Hrefuse _ _ _ _ (response_err _ _)); [done..|]. rewrite app_nil_r. by apply Forall_app. }
  specialize (Hconsent eq_refl).
  destruct force_refusal as [why|].
  { apply during_ret. intros. subst. eapply (Hrefuse _ _ _ _ (response_err _ _)); [done..|]. rewrite app_nil_r. by apply Forall_app. }
  eapply during_mono.
  { apply during_and; [apply checked_tip_own|apply (quiet_checked_tip source (inquires source) HP)]. }
  intros n2' n3 l2 r2 Hn2 [[Hresp Hown] [Hl2 _]] -> ->.
  split; [by rewrite !Forall_app|]. split; [done|]. intros sha ->. destruct (Hown _ eq_refl) as [Ho Hb].
  split; [|done]. split; [done..|]. exists n1, n2, l0, l1, l2. by split_and!.
Qed.

(** ** Pushes *)

(** A push as it may be: everything asked and read first, then the commit licensed, or the copy of
    it the user's signer made, to the branch licensed. *)
Record pushed (d : GitDispatcher) (t : Target) (op branch detail : string) (force : bool)
    (n n' : nat) (asking settling pushing : list Act) : Prop := {
  pu_asking : Forall (inquires (tg_source_repo t)) asking;
  pu_settling : Forall (reading (tg_source_repo t)) settling;
  pu_pushing : exists sha commit n1, n1 <= n' /\
    licensed d t op branch detail sha n n1 asking /\
    settled (publication t branch force) settling sha commit /\
    Forall (fun a => reading (tg_source_repo t) a \/ pushes (tg_source_repo t) branch force commit a) pushing;
}.

Lemma target_publish_settles t branch sha force :
  acts (target_publish t branch sha force) (fun l r =>
    exists settling pushing, l = settling ++ pushing /\ Forall (reading (tg_source_repo t)) settling /\
      ((pushing = [] /\ forall s, r <> Ok s) \/ exists commit,
        settled (publication t branch force) settling sha commit /\
        Forall (fun a => reading (tg_source_repo t) a \/ pushes (tg_source_repo t) branch force commit a) pushing)).
Proof.
  unfold target_publish. apply acts_bind. eapply acts_mono; [apply publish_pushes_one_settled_commit|].
  intros l r (settling & pushing & commit & -> & Hs & Hp & Hset & Hok). destruct r as [pd|e].
  - apply acts_ret. rewrite app_nil_r. exists settling, pushing. split_and!; [done..|]. right. exists commit.
    by destruct (Hok _ eq_refl).
  - exists settling, pushing. split_and!; [done..|].
    destruct Hset as [->|Hset]; [by left|right]. eauto.
Qed.

(** Either nothing left the machine but questions, or one licensed push. *)
Definition at_most_pushed (d : GitDispatcher) (t : Target) (op : string) (force : bool)
    (branch detail : string) (n n' : nat) (l : list Act) : Prop :=
  Forall (inquires (tg_source_repo t)) l \/
  exists asking settling pushing, l = asking ++ settling ++ pushing /\
    pushed d t op branch detail force n n' asking settling pushing.

Lemma reading_inquires source l : Forall (reading source) l -> Forall (inquires source) l.
Proof. intros Hl. eapply Forall_impl; [exact Hl|]. intros x Hx. by left. Qed.

Lemma publish_licensed_spec d t id op branch detail force fr born :
  quiet (reading (tg_source_repo t)) born ->
  during (publish_licensed d t id op branch detail force fr born) (fun n n' l r =>
    at_most_pushed d t op force branch detail n n' l /\ (fr = None \/ Forall (inquires (tg_source_repo t)) l) /\
    (forall resp, r = Ok (Err resp) -> re_ok resp = false) /\
    forall b s, r = Ok (Ok (b, Ok s)) -> exists asking settling pushing, l = asking ++ settling ++ pushing /\
      pushed d t op branch detail force n n' asking settling pushing).
Proof.
  intros Hborn. unfold publish_licensed.
  assert (forall n n' l (r : result (result (bool * result string string) Response) string),
    Forall (inquires (tg_source_repo t)) l -> (forall b s, r <> Ok (Ok (b, Ok s))) ->
    (forall resp, r = Ok (Err resp) -> re_ok resp = false) ->
    at_most_pushed d t op force branch detail n n' l /\ (fr = None \/ Forall (inquires (tg_source_repo t)) l) /\
    (forall resp, r = Ok (Err resp) -> re_ok resp = false) /\
    forall b s, r = Ok (Ok (b, Ok s)) -> exists asking settling pushing, l = asking ++ settling ++ pushing /\
      pushed d t op branch detail force n n' asking settling pushing) as Hno.
  { intros n n' l r Hl Hr Hresp. split; [by left|]. split; [by right|]. split; [done|]. intros b s E. by destruct (Hr b s). }
  apply during_bind. eapply during_mono; [apply licence_licenses|].
  intros n n1 l1 [[sha|resp]|e] Hn (Hl1 & Hresp & Hlic);
    [|apply during_ret; intros; rewrite app_nil_r; apply Hno; [done..|by intros ? [= <-]; apply Hresp]|by apply Hno].
  destruct (Hlic _ eq_refl) as [Hlicensed ->].
  apply during_bind. eapply during_mono; [exact Hborn|]. intros n1' n2 l2 [b|e] Hn2 [Hl2 _].
  2:{ intros ->. apply Hno; [|done..]. rewrite Forall_app. split; [done|by apply reading_inquires]. }
  apply during_bind. eapply during_mono.
  { apply acts_attempted, target_publish_settles. }
  intros n2' n3 l3 r0 Hn3 (r & -> & settling & pushing & -> & Hs & Hp).
  apply during_ret. intros n4 -> -> ->. rewrite app_nil_r.
  destruct Hp as [[-> Hr]|(commit & Hset & Hp)].
  { apply Hno; [|intros b' s E; injection E as _ E; by eapply Hr|done]. rewrite app_nil_r, !Forall_app.
    split; [done|]. by split; apply reading_inquires. }
  assert (exists asking settling' pushing', l1 ++ l2 ++ settling ++ pushing = asking ++ settling' ++ pushing' /\
    pushed d t op branch detail force n n3 asking settling' pushing') as Hpushed.
  { exists l1, (l2 ++ settling), pushing. split; [by rewrite <-!app_assoc|]. split; [done|by apply Forall_app|].
    exists sha, commit, n1. split_and!; [lia|done| |done].
    eapply settled_mono; [exact Hset|]. set_solver. }
  split; [by right|]. split; [by left|]. split; [done|]. by intros.
Qed.

(** What was read before a stretch belongs to its asking. *)
Lemma pushed_before d t op branch detail force n0 n n' l0 asking settling pushing :
  n0 <= n -> Forall (inquires (tg_source_repo t)) l0 ->
  pushed d t op branch detail force n n' asking settling pushing ->
  pushed d t op branch detail force n0 n' (l0 ++ asking) settling pushing.
Proof.
  intros Hn Hl0 [Ha Hs (sha & commit & n1 & Hn1 & [Hg Hpl Ht Hc] & Hset & Hp)]. split; [by apply Forall_app|done|].
  exists sha, commit, n1. split; [done|]. split; [|by split]. split; [done..|].
  destruct Hc as (m1 & m2 & x & y & z & -> & ? & ? & ?). exists m1, m2, (l0 ++ x), y, z.
  rewrite <-!app_assoc. split; [done|]. split; [lia|done].
Qed.

Lemma at_most_pushed_before d t op force branch detail n0 n n' l0 l :
  n0 <= n -> Forall (inquires (tg_source_repo t)) l0 ->
  at_most_pushed d t op force branch detail n n' l ->
  at_most_pushed d t op force branch detail n0 n' (l0 ++ l).
Proof.
  intros Hn Hl0 [Hl|(x & y & z & -> & Hp)]; [left; by apply Forall_app|right].
  exists (l0 ++ x), y, z. rewrite <-app_assoc. split; [done|]. by eapply pushed_before.
Qed.

(** A handler that asks, or only reads, then goes on; one that ends having asked. *)
Ltac asked H := first [apply during_ret | apply during_err | idtac]; intros; rewrite ?app_nil_r; apply H;
                rewrite ?Forall_app; by auto.

Lemma during_inquires {A B} source (Q : A -> Prop) (m : G A) (k : A -> G B) R :
  emits (inquires source) Q m ->
  (forall n n' l e, Forall (inquires source) l -> R n n' l (Err e)) ->
  (forall a n n' l, Q a -> n <= n' -> Forall (inquires source) l ->
     during (k a) (fun n1 n2 l' r => n1 = n' -> R n n2 (l ++ l') r)) ->
  during (bind m k) R.
Proof.
  intros Hm Herr Hk. apply during_bind. eapply during_mono; [exact Hm|].
  intros n n' l [a|e] Hn [Hl HQ]; [apply Hk|apply Herr]; eauto.
Qed.

Lemma during_reads {A B} source (Q : A -> Prop) (m : G A) (k : A -> G B) R :
  emits (reading source) Q m ->
  (forall n n' l e, Forall (inquires source) l -> R n n' l (Err e)) ->
  (forall a n n' l, Q a -> n <= n' -> Forall (inquires source) l ->
     during (k a) (fun n1 n2 l' r => n1 = n' -> R n n2 (l ++ l') r)) ->
  during (bind m k) R.
Proof.
  intros Hm. apply during_inquires. eapply emits_weaken; [exact Hm|]. by left.
Qed.

Definition force_anchored (t : Target) (branch : string) : Prop :=
  exists own, tg_own_branch t = Some own /\ is_empty (trim own) = false /\ Caps.same branch (trim own) = true.

(** What [git_push] does, whatever it is asked. *)
Definition git_push_does (d : GitDispatcher) (args : Value) (t : Target) (n n' : nat) (l : list Act)
    (ok : bool) : Prop :=
  let force := arg_bool args "force" in
  exists branch,
    at_most_pushed d t "git_push" force branch ("push " +:+ branch) n n' l /\
    (force = true -> force_anchored t branch \/ Forall (inquires (tg_source_repo t)) l) /\
    (ok = true -> exists asking settling pushing, l = asking ++ settling ++ pushing /\
       pushed d t "git_push" branch ("push " +:+ branch) force n n' asking settling pushing).

Lemma git_push_asked d args t n n' l : Forall (inquires (tg_source_repo t)) l -> git_push_does d args t n n' l false.
Proof. intros Hl. exists "". split_and!; [by left|by right|done]. Qed.

Lemma git_push_spec d id args :
  during (git_push d id args) (fun n n' l r =>
    match target d id args with
    | Err resp => l = [] /\ r = Ok (resp, [])
    | Ok t => git_push_does d args t n n' l (match r with Ok (resp, _) => re_ok resp | Err _ => false end)
    end).
Proof.
  unfold git_push. destruct (target d id args) as [t|resp]; [|by apply during_ret].
  set (source := tg_source_repo t).
  apply (during_reads source (fun _ => True));
    [by apply quiet_attempt, (quiet_current_branch source)|by intros; apply git_push_asked|].
  intros [current|e] n0 n1 l0 _ Hn0 Hl0.
  2:{ apply during_ret. intros. rewrite app_nil_r. by apply git_push_asked. }
  apply (during_reads source (fun r => match r.1 with Ok _ => True | Err resp => re_ok resp = false end)).
  { destruct current as [cur|]; [by apply emits_ret|]. destruct (arg_branch args); [|by apply emits_ret].
    eapply quiet_bind_emits; [by apply (quiet_create_branch source)|]. intros [[] ?]; by apply emits_ret. }
  { intros. apply git_push_asked. by apply Forall_app. }
  intros [[branch|resp] effects] n2 n3 l1 Hbranch Hn1 Hl1.
  2:{ apply during_ret. intros. rewrite app_nil_r. cbn in Hbranch. rewrite Hbranch. apply git_push_asked. by apply Forall_app. }
  cbv zeta. apply during_bind.
  eapply during_mono; [apply publish_licensed_spec; by apply (quiet_born source)|].
  intros n4 n5 l2 r Hn4 (Hmost & Hforce & Hresp & Hok).
  assert (n4 = n3 -> n2 = n1 -> forall ok, (ok = true -> exists b s, r = Ok (Ok (b, Ok s))) ->
    git_push_does d args t n0 n5 (l0 ++ l1 ++ l2) ok) as Hdone.
  { intros -> -> ok Hr. exists branch. cbv zeta. rewrite (app_assoc l0).
    assert (Forall (inquires source) (l0 ++ l1)) as Hl01 by by apply Forall_app.
    split_and!; [eapply at_most_pushed_before; [|done..]; lia| |].
    - intros Hf. rewrite Hf in Hforce. destruct Hforce as [Hnone|Hl2]; [left|right; by apply Forall_app].
      by apply Caps.refuses_force_None in Hnone as [_ ?].
    - intros Htrue. destruct (Hr Htrue) as (b & s & ->). destruct (Hok _ _ eq_refl) as (x & y & z & -> & Hp).
      exists ((l0 ++ l1) ++ x), y, z. rewrite <-!app_assoc. split; [done|]. rewrite app_assoc.
      eapply pushed_before; [|done..]. lia. }
  destruct r as [r|e]; [|by intros E1 E2; apply Hdone].
  apply during_ret. intros n6 -> E1 E2. rewrite app_nil_r. apply Hdone; [done..|].
  destruct r as [[b [s|e]]|resp]; cbn; [eauto|done|]. by rewrite (Hresp _ eq_refl).
Qed.

(** ** Pull requests *)

Lemma pushed_until d t op branch detail force n n1 n' asking settling pushing :
  n1 <= n' -> pushed d t op branch detail force n n1 asking settling pushing ->
  pushed d t op branch detail force n n' asking settling pushing.
Proof. intros Hn [Ha Hs (sha & commit & m & ? & Hp)]. split; [done..|]. exists sha, commit, m. split; [lia|done]. Qed.

Definition open_detail (branch base : string) : string :=
  "open a pull request from " +:+ branch +:+ " into " +:+ base.

(** What [open_pr] does: at most one licensed push, and after that push at most one request to
    open a pull request, of the branch pushed and into the base the user was told. *)
Definition open_pr_does (d : GitDispatcher) (args : Value) (t : Target) (n n' : nat) (l : list Act)
    (ok : bool) : Prop :=
  let base := default (tg_base_branch t) (arg_branch_named args "base") in
  (Forall (inquires (tg_source_repo t)) l /\ ok = false) \/
  exists branch created, starts_with "-" base = false /\
    (exists asking settling pushing, l = asking ++ settling ++ pushing ++ created /\
       pushed d t "open_pr" branch (open_detail branch base) false n n' asking settling pushing) /\
    (created = [] /\ ok = false \/ exists body,
     created = [Api (PrCreate (tg_source_repo t) (tg_cwd t) branch (arg_text args "title") body base)]).

Lemma pr_create_act t head title body base :
  acts (pr_create t head title body base)
    (fun l _ => l = [Api (PrCreate (tg_source_repo t) (tg_cwd t) head title body base)]).
Proof.
  unfold pr_create. apply acts_bind, acts_act, acts_bind, acts_look. intros n. by apply acts_lift.
Qed.

Lemma quiet_live_closes P d t : quiet P (live_closes d t).
Proof.
  unfold live_closes. destruct (negb _); [apply quiet_ret|].
  destruct (gd_issue_agent d); [apply quiet_look|apply quiet_ret].
Qed.

Lemma quiet_head_branch source P t title head current requested :
  (forall a, reading source a -> P a) -> quiet P (head_branch t title head current requested).
Proof.
  intros HP. unfold head_branch.
  destruct head, current, requested as [req|]; try apply quiet_ret; try by apply (quiet_create_branch source P HP).
  destruct (String.eqb _ _); [apply quiet_ret|by apply (quiet_create_branch source P HP)].
Qed.

Lemma open_pr_does_before d args t n0 n n' l0 l ok :
  n0 <= n -> Forall (inquires (tg_source_repo t)) l0 ->
  open_pr_does d args t n n' l ok -> open_pr_does d args t n0 n' (l0 ++ l) ok.
Proof.
  intros Hn Hl0 [[Hl ->]|(branch & created & Hb & (x & y & z & -> & Hp) & Hc)].
  { left. split; [by apply Forall_app|done]. }
  right. exists branch, created. split; [done|]. split; [|done]. exists (l0 ++ x), y, z.
  rewrite <-app_assoc. split; [done|]. by eapply pushed_before.
Qed.

(** Once the branch is known. *)
Lemma publish_then_open d t id args branch body born effects :
  let base := default (tg_base_branch t) (arg_branch_named args "base") in
  quiet (reading (tg_source_repo t)) born -> starts_with "-" base = false ->
  during (let* published := publish_licensed d t id "open_pr" branch (open_detail branch base) false None born in
          match published with
          | Err resp => ret (resp, effects)
          | Ok (_, Err e) => ret (response_err id ("open_pr push failed: " +:+ e), effects)
          | Ok (born, Ok _) =>
              let effects := note_branch_born born t branch effects in
              let* pr := attempt (pr_create t branch (arg_text args "title") body base) in
              match pr with
              | Ok pr => ret (response_ok id 0 (ps_url pr) "", effects ++ [pr_opened t pr branch base])
              | Err e => ret (response_err id ("open_pr: " +:+ e), effects)
              end
          end)
    (fun n n' l r => open_pr_does d args t n n' l (match r with Ok (resp, _) => re_ok resp | Err _ => false end)).
Proof.
  intros base Hborn Hbase. apply during_bind.
  eapply during_mono; [by apply publish_licensed_spec|]. intros n n1 l1 r Hn (Hmost & _ & Hresp & Hok).
  assert (forall n', n1 <= n' -> open_pr_does d args t n n' l1 false) as Hfailed.
  { intros n' Hn'. destruct Hmost as [Hl|(x & y & z & -> & Hp)]; [by left|right].
    exists branch, []. split; [done|]. split; [|by left]. exists x, y, z. rewrite app_nil_r.
    split; [done|]. by eapply pushed_until. }
  destruct r as [[[b [s|e]]|resp]|e]; [..|by apply Hfailed].
  2:{ apply during_ret. intros n2 ->. rewrite app_nil_r. by apply Hfailed. }
  2:{ apply during_ret. intros n2 ->. rewrite app_nil_r, (Hresp _ eq_refl). by apply Hfailed. }
  destruct (Hok _ _ eq_refl) as (x & y & z & -> & Hp). cbv zeta.
  apply during_bind. eapply during_mono; [apply acts_attempted, pr_create_act|].
  intros n2 n3 l2 r Hn2 (pr & -> & ->).
  destruct pr as [pr|e]; apply during_ret; intros n4 -> ->; right; exists branch, [Api (PrCreate (tg_source_repo t)
    (tg_cwd t) branch (arg_text args "title") body base)]; rewrite app_nil_r;
    (split; [done|]; split; [|eauto]); exists x, y, z; rewrite <-!app_assoc; (split; [done|]);
    by eapply pushed_until.
Qed.

Lemma open_pr_spec d id args :
  during (open_pr d id args) (fun n n' l r =>
    match target d id args with
    | Err resp => l = [] /\ r = Ok (resp, [])
    | Ok t => open_pr_does d args t n n' l (match r with Ok (resp, _) => re_ok resp | Err _ => false end)
    end).
Proof.
  unfold open_pr. destruct (target d id args) as [t|resp]; [|by apply during_ret].
  set (source := tg_source_repo t). cbv zeta.
  assert (forall n n' l, Forall (inquires source) l -> open_pr_does d args t n n' l false) as Hasked by by left.
  apply (during_reads source (fun _ => True)); [apply quiet_live_closes|asked Hasked|].
  intros closes n0 n1 l0 _ Hn0 Hl0.
  destruct (Closes.with_closes_trailer _ _) as [body|]; [|asked Hasked].
  unfold refuse_option_like. destruct (starts_with "-" (default _ _)) eqn:Hbase; [asked Hasked|].
  apply (during_reads source (fun _ => True)); [|asked Hasked|].
  { destruct (arg_branch_named args "base"); [by apply quiet_remote_branch_exists|apply quiet_ret]. }
  intros there n2 n3 l1 _ Hn1 Hl1. destruct (eqb there _); [asked Hasked|].
  apply (during_reads source (fun _ => True)); [by apply quiet_attempt, (quiet_current_branch source)|asked Hasked|].
  intros [current|e] n4 n5 l2 _ Hn2 Hl2; [|asked Hasked].
  apply (during_reads source (fun _ => True)); [by apply (quiet_head_branch source)|asked Hasked|].
  intros [[branch|e] effects] n6 n7 l3 _ Hn3 Hl3; [|asked Hasked].
  eapply during_mono; [apply publish_then_open; [|exact Hbase]|].
  { destruct (_ && _); [apply quiet_ret|by apply (quiet_born source)]. }
  intros n8 n9 l4 r Hn4 Hdoes -> -> -> ->. rewrite !app_assoc.
  eapply open_pr_does_before; [|by rewrite !Forall_app|exact Hdoes]. lia.
Qed.

(** ** Writes to GitHub *)

(** A handler that may end in one request that writes: everything asked first, the consent to the
    very act last. *)
Definition may_write (d : GitDispatcher) (t : Target) (op : string) (named : ApiCall -> string -> Prop)
    (n n' : nat) (l : list Act) : Prop :=
  Forall (inquires (tg_source_repo t)) l \/
  exists asking agreed call detail n1 n2, l = asking ++ agreed ++ [Api call] /\
    Forall (inquires (tg_source_repo t)) (asking ++ agreed) /\ n <= n1 /\ n2 <= n' /\
    consented d op (tg_subdir t) detail n1 n2 agreed /\ named call detail.

Definition names_merge (t : Target) (call : ApiCall) (detail : string) : Prop := exists number,
  call = PrMergeNumber (tg_source_repo t) number /\ detail = "merge pull request #" +:+ show_N number.

Definition names_dispatch (t : Target) (args : Value) (call : ApiCall) (detail : string) : Prop :=
  exists workflow git_ref inputs,
    call = WorkflowDispatch (tg_source_repo t) workflow git_ref inputs /\
    workflow_arg args = Ok (Some workflow) /\ dispatch_inputs args = Ok inputs /\
    detail = "run workflow " +:+ workflow +:+ " on " +:+ git_ref.

Lemma may_write_before d t op named n0 n n' l0 l :
  n0 <= n -> Forall (inquires (tg_source_repo t)) l0 ->
  may_write d t op named n n' l -> may_write d t op named n0 n' (l0 ++ l).
Proof.
  intros Hn Hl0 [Hl|(x & y & call & detail & n1 & n2 & -> & Hx & ? & ? & ?)]; [left; by apply Forall_app|right].
  exists (l0 ++ x), y, call, detail, n1, n2. rewrite <-app_assoc. split; [done|].
  split; [by rewrite <-app_assoc, Forall_app|]. split; [lia|done].
Qed.

Lemma gate_then_write {A} d t op (named : ApiCall -> string -> Prop) detail call (m : G A)
    (refused : string -> Response) (answer : result A string -> Response) :
  acts m (fun l _ => l = [Api call]) -> named call detail ->
  during (let* why := refuse_unless_publish_approved d op (tg_subdir t) detail in
          match why with
          | Some why => ret (refused why)
          | None => let* r := attempt m in ret (answer r)
          end) (fun n n' l _ => may_write d t op named n n' l).
Proof.
  intros Hm Hnamed. apply during_bind. eapply during_mono; [apply gate_consents|].
  intros n n1 l r Hn (([why|] & ->) & Hprompts & Hc);
    assert (Forall (inquires (tg_source_repo t)) l) as Hl
      by (eapply Forall_impl; [exact Hprompts|]; intros a Ha; by right; right).
  { apply during_ret. intros ? ->. rewrite app_nil_r. by left. }
  apply during_bind. eapply during_mono; [apply acts_attempted; exact Hm|].
  intros n2 n3 l2 r Hn2 (r' & -> & ->). apply during_ret. intros n4 -> ->. rewrite app_nil_r. right.
  exists [], l, call, detail, n, n1. split; [done|]. split; [done|]. split; [lia|]. split; [lia|].
  split; [by apply Hc|done].
Qed.

Lemma quiet_branch_pr id op t : quiet (inquires (tg_source_repo t)) (branch_pr id op t).
Proof.
  unfold branch_pr. cbv zeta. apply quiet_bind.
  { apply quiet_attempt, (quiet_current_branch (tg_source_repo t)). by left. }
  intros [[branch|]|e]; try apply quiet_ret. apply quiet_bind; [|intros; apply quiet_ret].
  apply quiet_attempt. unfold pr_view_branch. apply quiet_bind; [|intros; quieting].
  apply quiet_act. right. left. eauto.
Qed.

Lemma emits_pr_read_target source d id op args :
  emits (reading source) (fun r => match r with Ok t => target d id args = Ok t | Err _ => True end)
    (pr_read_target d id op args).
Proof.
  unfold pr_read_target. destruct (target d id args) as [t|]; [|by apply emits_ret].
  eapply quiet_bind_emits; [by apply (quiet_repo_ref source)|]. intros o. destruct (is_none o); [by apply emits_ret|].
  eapply quiet_bind_emits; [apply quiet_look|]. intros tok. destruct (is_none tok); [by apply emits_ret|].
  eapply quiet_bind_emits; [apply quiet_look|]. intros []; by apply emits_ret.
Qed.

(** The write operations add nothing when the checkout is unknown, otherwise what [may_write] says. *)
Definition write_does (d : GitDispatcher) (id : string) (args : Value) (op : string)
    (named : Target -> ApiCall -> string -> Prop) (n n' : nat) (l : list Act) : Prop :=
  match target d id args with
  | Ok t => may_write d t op (named t) n n' l
  | Err _ => l = []
  end.

Lemma read_target_then {A} d id op args (k : result Target Response -> G A) R :
  (forall resp n, during (k (Err resp)) (fun n1 n2 l' _ => n1 = n -> l' = [])) ->
  (forall t, target d id args = Ok t ->
     during (k (Ok t)) (fun n n' l _ => may_write d t op (R t) n n' l)) ->
  during (let* t := pr_read_target d id op args in k t)
    (fun n n' l _ => write_does d id args op R n n' l).
Proof.
  intros Herr Hok. unfold write_does. destruct (target d id args) as [t|resp0] eqn:Ht.
  - apply (during_reads (tg_source_repo t) (fun r => match r with Ok t' => t' = t | Err _ => True end)).
    { eapply emits_mono; [apply emits_pr_read_target|]. intros [t'|] E; [|done]. rewrite Ht in E. by injection E. }
    { intros n n' l e Hl. by left. }
    intros r n n' l Hr Hn Hl. destruct r as [t'|resp].
    + subst t'. eapply during_mono; [by apply Hok|]. intros n1 n2 l' r' _ Hw ->. by eapply may_write_before.
    + eapply during_mono; [apply (Herr resp n')|]. intros n1 n2 l' r' _ Hl' E. rewrite (Hl' E), app_nil_r. by left.
  - unfold pr_read_target. rewrite Ht. apply during_bind, during_ret. intros n.
    eapply during_mono; [apply (Herr resp0 n)|]. intros n1 n2 l' r' _ Hl' E. cbn [app]. by apply Hl'.
Qed.

Lemma api_once {A} (call : ApiCall) (f : nat -> result A string) :
  acts (let* _ := act (Api call) in let* r := look f in lift r) (fun l _ => l = [Api call]).
Proof. apply acts_bind, acts_act, acts_bind, acts_look. intros n. by apply acts_lift. Qed.

Lemma pr_merge_spec d id args :
  during (pr_merge d id args) (fun n n' l _ => l = [] \/ write_does d id args "pr_merge" names_merge n n' l).
Proof.
  unfold pr_merge. destruct (positive_u32_arg args "number") as [number|e]; [|apply during_ret; intros; by left].
  eapply during_mono; [apply (read_target_then d id "pr_merge" args _ names_merge)|by right].
  { intros resp n. by apply during_ret. }
  intros t Ht.
  apply (during_inquires (tg_source_repo t) (fun _ => True)).
  { destruct number as [m|]; [apply quiet_ret|].
    apply quiet_bind; [apply quiet_branch_pr|]. intros []; apply quiet_ret. }
  { intros n n' l e Hl. by left. }
  intros [m|resp] n n' l _ Hn Hl.
  2:{ apply during_ret. intros. rewrite app_nil_r. by left. }
  eapply during_mono.
  { apply (gate_then_write d t "pr_merge" (names_merge t)) with (call := PrMergeNumber (tg_source_repo t) m);
      [apply api_once|by exists m]. }
  intros n1 n2 l' r' _ Hw ->. by eapply may_write_before.
Qed.

Lemma workflow_dispatch_spec d id args :
  during (workflow_dispatch d id args)
    (fun n n' l _ => l = [] \/ write_does d id args "workflow_dispatch" (fun t => names_dispatch t args) n n' l).
Proof.
  unfold workflow_dispatch. cbv zeta.
  destruct (workflow_arg args) as [[workflow|]|e] eqn:Hw; [|apply during_ret; intros; by left..].
  destruct (dispatch_inputs args) as [inputs|e] eqn:Hi; [|apply during_ret; intros; by left].
  destruct (requested_ref args) as [requested|e]; [|apply during_ret; intros; by left].
  destruct (requested ≫= _) as [resp|]; [apply during_ret; intros; by left|].
  eapply during_mono; [apply (read_target_then d id "workflow_dispatch" args _ (fun t => names_dispatch t args))|by right].
  { intros resp n. by apply during_ret. }
  intros t Ht.
  apply (during_reads (tg_source_repo t) (fun _ => True)).
  { destruct requested as [r|]; [apply quiet_ret|].
    apply quiet_bind; [by apply quiet_attempt, (quiet_current_branch (tg_source_repo t))|].
    intros; apply quiet_ret. }
  { intros n n' l e Hl. by left. }
  intros [git_ref|resp] n n' l _ Hn Hl.
  2:{ apply during_ret. intros. rewrite app_nil_r. by left. }
  eapply during_mono.
  { apply (gate_then_write d t "workflow_dispatch" (names_dispatch t args))
      with (call := WorkflowDispatch (tg_source_repo t) workflow git_ref inputs); [apply api_once|].
    exists workflow, git_ref, inputs. by split_and!. }
  intros n1 n2 l' r' _ Hwr ->. by eapply may_write_before.
Qed.

(** ** Reads *)

Lemma quiet_git_status source d id args : quiet (reading source) (git_status d id args).
Proof.
  unfold git_status. destruct (target d id args) as [t|]; [|apply quiet_ret]. unfold run_git_command.
  apply quiet_bind.
  { eapply quiet_attempt, (quiet_probes (reading source)), quiet_refuse_steerable_config.
    intros; by left. }
  intros []; [|apply quiet_ret]. eapply emits_bind; [apply emits_command|]. intros cmd Hc.
  apply quiet_bind; [apply quiet_look|]. intros []; [apply quiet_ret|].
  apply quiet_bind; [|intros; apply quiet_ret].
  apply (emits_run _ (fun _ => True)); [|done]. intros out. left. cbn [local].
  eapply (off_wire_local _ ["status"; "--porcelain=v1"; "--branch"]); [done|].
  by eapply (hardened_sub_args _ cmd).
Qed.

Lemma emits_attempt_open (t : Target) :
  emits (reading (tg_source_repo t)) (fun r => match r with Ok tr => t_source_repo tr = tg_source_repo t | Err _ => True end)
    (attempt (open (tg_cwd t) (tg_source_repo t))).
Proof.
  eapply emits_attempt; [apply emits_open; by left|by intros ? []|done].
Qed.

Lemma quiet_fetch_each source tr refs : t_source_repo tr = source -> quiet (reading source) (fetch_each tr refs).
Proof.
  intros E. induction refs as [|r refs IH]; cbn [fetch_each]; [apply quiet_ret|].
  apply quiet_bind; [|done]. apply (quiet_fetch_branches_within (reading source)); [by left|].
  intros a Ha. right. eauto.
Qed.

Lemma git_fetch_reads d id args t : target d id args = Ok t ->
  quiet (reading (tg_source_repo t)) (git_fetch d id args).
Proof.
  intros Ht. unfold git_fetch. rewrite Ht. destruct (requested_refs args); [|apply quiet_ret]. cbv zeta.
  destruct (first_refused _ _ _ _); [apply quiet_ret|].
  eapply emits_bind; [apply emits_attempt_open|]. intros [tr|e] Htr; [|apply quiet_ret].
  apply quiet_bind; [by apply quiet_attempt, quiet_fetch_each|]. intros; apply quiet_ret.
Qed.

Lemma git_ls_remote_reads d id args t : target d id args = Ok t ->
  quiet (reading (tg_source_repo t)) (git_ls_remote d id args).
Proof.
  intros Ht. unfold git_ls_remote. rewrite Ht. cbv zeta.
  eapply emits_bind; [apply emits_attempt_open|]. intros [tr|e] Htr; [|apply quiet_ret].
  apply quiet_bind; [|intros; apply quiet_ret]. apply quiet_attempt.
  apply (quiet_heads (reading (tg_source_repo t)) tr); [|apply remotes_head].
  intros a Ha. right. eauto.
Qed.

(** ** Every operation *)

(** A push, or a write through GitHub's API. *)
Definition publishes (a : Act) : bool :=
  match a with
  | Run cmd _ => match sub_args (cmd_args cmd) with verb :: _ => String.eqb verb "push" | [] => false end
  | Api (PrViewBranch _ _) => false
  | Api _ => true
  | _ => false
  end.

(** What the user is told names the act. *)
Definition names (t : Target) (detail : string) (a : Act) : Prop :=
  match a with
  | Run _ _ => exists branch force commit, pushes (tg_source_repo t) branch force commit a /\
      (detail = "push " +:+ branch \/ exists base, detail = open_detail branch base)
  | Api (PrCreate source checkout head _ _ base) =>
      source = tg_source_repo t /\ checkout = tg_cwd t /\ detail = open_detail head base
  | Api (PrMergeNumber source number) =>
      source = tg_source_repo t /\ detail = "merge pull request #" +:+ show_N number
  | Api (WorkflowDispatch source workflow git_ref _) =>
      source = tg_source_repo t /\ detail = "run workflow " +:+ workflow +:+ " on " +:+ git_ref
  | _ => False
  end.

Definition consented_before (d : GitDispatcher) (t : Target) (op : string) (n n' : nat) (l1 : list Act)
    (a : Act) : Prop :=
  exists detail n1 n2 x y z, l1 = x ++ y ++ z /\ n <= n1 /\ n2 <= n' /\
    consented d op (tg_subdir t) detail n1 n2 y /\ names t detail a.

Definition all_consented (d : GitDispatcher) (t : Target) (op : string) (n n' : nat) (l : list Act) : Prop :=
  forall l1 a l2, l = l1 ++ a :: l2 -> publishes a = true -> consented_before d t op n n' l1 a.

Lemma local_publishes a : local a -> publishes a = false.
Proof.
  destruct a as [cmd out| | |]; [|done..]. cbn [local publishes]. unfold is_network, wire_args.
  destruct (sub_args _) as [|v rest]; [done|]. intros E. apply orb_false_iff in E as [E _].
  destruct (String.eqb_spec v "push") as [->|]; [discriminate E|done].
Qed.

Lemma reads_remote_publishes t a : reads_remote t a -> publishes a = false.
Proof.
  destruct a as [cmd out| | |]; [|done..]. intros (args & Hargs & Hc). cbn [publishes].
  rewrite (carries_sub_args _ _ _ Hc). by destruct Hargs.
Qed.

Lemma inquires_publishes source a : inquires source a -> publishes a = false.
Proof.
  intros [[Hl|(t & _ & Hr)]|[(b & ->)|(agent & op & repo & detail & v & ->)]]; [|by eapply reads_remote_publishes|done..].
  by apply local_publishes.
Qed.

Lemma split_after {A} (p : A -> bool) x rest l1 a l2 :
  Forall (fun b => p b = false) x -> p a = true -> x ++ rest = l1 ++ a :: l2 ->
  exists l1', l1 = x ++ l1' /\ rest = l1' ++ a :: l2.
Proof.
  intros Hx Ha E. apply app_eq_app in E as (k & [[-> Ek]|[-> ->]]); [|by exists k].
  destruct k as [|b k].
  - exists []. rewrite !app_nil_r. by cbn in Ek.
  - injection Ek as <- _. apply Forall_app in Hx as [_ Hx]. apply Forall_cons in Hx as [Hx _]. congruence.
Qed.

Lemma unpublishing source l : Forall (inquires source) l -> Forall (fun a => publishes a = false) l.
Proof. intros Hl. eapply Forall_impl; [exact Hl|]. intros a. apply inquires_publishes. Qed.

Lemma inquiring_consented d t op n n' l : Forall (inquires (tg_source_repo t)) l -> all_consented d t op n n' l.
Proof.
  intros Hl l1 a l2 -> Ha. apply unpublishing in Hl. apply Forall_app in Hl as [_ Hl].
  apply Forall_cons in Hl as [Hl _]. congruence.
Qed.

(** The acts of a licensed push, with what follows it when that is named too. *)
Lemma pushed_consented d t op branch detail force n n' asking settling pushing created :
  (detail = "push " +:+ branch \/ exists base, detail = open_detail branch base) ->
  pushed d t op branch detail force n n' asking settling pushing ->
  Forall (names t detail) created ->
  all_consented d t op n n' (asking ++ settling ++ pushing ++ created).
Proof.
  intros Hdetail [Ha Hs (sha & commit & m & Hm & [Hg _ _ Hc] & _ & Hp)] Hcreated l1 a l2 E Hpub.
  destruct Hc as (n1 & n2 & x & y & z & -> & ? & ? & Hc & _).
  rewrite app_assoc in E. apply (split_after publishes) in E as (l1' & -> & E); [|apply Forall_app; split|done].
  2:{ by eapply unpublishing. }
  2:{ by eapply unpublishing, reading_inquires. }
  exists detail, n1, n2, x, y, (z ++ settling ++ l1'). rewrite <-!app_assoc.
  split; [done|]. split; [lia|]. split; [lia|]. split; [done|].
  assert (a ∈ pushing ++ created) as [Hin|Hin]%elem_of_app by (rewrite E; set_solver).
  - rewrite Forall_forall in Hp. destruct (Hp _ Hin) as [Hr|Hr].
    + rewrite (inquires_publishes (tg_source_repo t) a) in Hpub; [done|by left].
    + destruct a as [cmd out| | |]; [|done..]. cbn [names]. eauto 6.
  - rewrite Forall_forall in Hcreated. by apply Hcreated.
Qed.

Lemma may_write_consented d t op named n n' l :
  (forall call detail, named call detail -> names t detail (Api call)) ->
  may_write d t op named n n' l -> all_consented d t op n n' l.
Proof.
  intros Hnamed [Hl|(x & y & call & detail & n1 & n2 & -> & Hx & ? & ? & Hc & Hn)]; [by apply inquiring_consented|].
  intros l1 a l2 E Hpub. rewrite app_assoc in E.
  apply (split_after publishes) in E as (l1' & -> & E); [|by eapply unpublishing|done].
  destruct l1' as [|b l1']; [injection E as <- _|by destruct l1'].
  exists detail, n1, n2, x, y, []. rewrite !app_nil_r. split_and!; auto.
Qed.

Lemma git_push_consented d args t n n' l ok :
  git_push_does d args t n n' l ok -> all_consented d t "git_push" n n' l.
Proof.
  intros (branch & [Hl|(x & y & z & -> & Hp)] & _); [by apply inquiring_consented|].
  rewrite <-(app_nil_r z). eapply pushed_consented; [by left|exact Hp|done].
Qed.

Lemma open_pr_consented d args t n n' l ok :
  open_pr_does d args t n n' l ok -> all_consented d t "open_pr" n n' l.
Proof.
  intros [[Hl _]|(branch & created & _ & (x & y & z & -> & Hp) & Hc)]; [by apply inquiring_consented|].
  eapply pushed_consented; [by right; eexists|exact Hp|].
  destruct Hc as [[-> _]|[body ->]]; by repeat constructor.
Qed.

(** What one operation adds. *)
Definition arm_does (d : GitDispatcher) (id op : string) (args : Value) (n n' : nat) (l : list Act) : Prop :=
  l = [] \/ exists t, target d id args = Ok t /\
    ((Caps.is_publish_op op = true /\ all_consented d t op n n' l) \/ Forall (reading (tg_source_repo t)) l).

Lemma quietly_during m (R : nat -> nat -> list Act -> Prop) :
  during m (fun n n' l _ => R n n' l) -> during (quietly m) (fun n n' l _ => R n n' l).
Proof.
  intros Hm. unfold quietly. apply during_bind. eapply during_mono; [exact Hm|].
  intros n n' l [resp|e] _ Hl; [|done]. apply during_ret. intros ? ->. by rewrite app_nil_r.
Qed.

Lemma read_arm d id op args m :
  (forall t, target d id args = Ok t -> quiet (reading (tg_source_repo t)) m) ->
  (forall resp, target d id args = Err resp -> m = ret resp) ->
  during (quietly m) (fun n n' l _ => arm_does d id op args n n' l).
Proof.
  intros Hok Herr. apply quietly_during. destruct (target d id args) as [t|resp] eqn:Ht.
  - eapply during_mono; [by apply Hok|]. intros n n' l r _ [Hl _]. right. exists t. split; [done|by right].
  - rewrite (Herr _ eq_refl). apply during_ret. by left.
Qed.

Lemma write_arm d id op args named n n' l :
  Caps.is_publish_op op = true ->
  (forall t call detail, named t call detail -> names t detail (Api call)) ->
  l = [] \/ write_does d id args op named n n' l -> arm_does d id op args n n' l.
Proof.
  intros Hop Hnamed [->|Hw]; [by left|]. unfold write_does in Hw. destruct (target d id args) as [t|] eqn:Ht; [|by left].
  right. exists t. split; [done|]. left. split; [done|]. by eapply may_write_consented; [apply Hnamed|].
Qed.

Lemma arm_spec others d id op args :
  lcontains OTHER_OPS op = false ->
  during (arm others d id op args) (fun n n' l _ => arm_does d id op args n n' l).
Proof.
  intros Hother. unfold arm. rewrite Hother.
  repeat match goal with |- during (if String.eqb op ?name then _ else _) _ =>
    destruct (String.eqb_spec op name) as [->|_] end.
  all: try (apply during_ret; by left).
  - eapply during_mono; [apply open_pr_spec|]. cbn beta. intros n n' l r _ Hl.
    destruct (target d id args) as [t|] eqn:Ht; [right|left; tauto]. exists t. split; [done|]. left. split; [done|].
    by eapply open_pr_consented.
  - eapply during_mono; [apply git_push_spec|]. cbn beta. intros n n' l r _ Hl.
    destruct (target d id args) as [t|] eqn:Ht; [right|left; tauto]. exists t. split; [done|]. left. split; [done|].
    by eapply git_push_consented.
  - apply read_arm; [apply git_fetch_reads|]. intros resp E. unfold git_fetch. by rewrite E.
  - apply read_arm; [apply git_ls_remote_reads|]. intros resp E. unfold git_ls_remote. by rewrite E.
  - apply quietly_during. eapply during_mono; [apply workflow_dispatch_spec|]. intros n n' l r _.
    apply write_arm; [done|]. by intros t call detail (w & g & i & -> & _ & _ & ->).
  - apply quietly_during. eapply during_mono; [apply pr_merge_spec|]. intros n n' l r _.
    apply write_arm; [done|]. by intros t call detail (m & -> & ->).
  - apply read_arm; [intros; apply quiet_git_status|]. intros resp E. unfold git_status. by rewrite E.
Qed.

(** The publish operations are all among those followed here. *)
Lemma publish_ops_are_followed op : Caps.is_publish_op op = true -> lcontains OTHER_OPS op = false.
Proof.
  unfold Caps.is_publish_op. rewrite lcontains_true. unfold Caps.PUBLISH_OPS. rewrite !elem_of_cons, elem_of_nil.
  intros [->|[->|[->|[->|[]]]]]; reflexivity.
Qed.

(** (C3) Of the operations the dispatcher carries out itself, all the publish operations among them, every
    push, every pull request opened or merged and every workflow started comes, in the same call, after
    the consent the settings ask for to an act that names it, and from an agent whose grant lets it
    publish its own branch. The operations left out, [OTHER_OPS], read GitHub, or edit, close or comment,
    which the code does without asking. *)
Theorem dispatch_publishes_with_consent others d id op args :
  lcontains OTHER_OPS op = false ->
  during (dispatch_inner others d id op args) (fun n n' l _ => forall l1 a l2,
    l = l1 ++ a :: l2 -> publishes a = true ->
    Caps.ac_publish (gd_caps d) = Caps.OwnBranch /\ Caps.is_publish_op op = true /\
    exists t, target d id args = Ok t /\ consented_before d t op n n' l1 a).
Proof.
  intros Hother. unfold dispatch_inner.
  destruct (Caps.refuses (gd_caps d) op) as [why|] eqn:Hcaps.
  { apply during_ret. intros n l1 a l2 E. by destruct l1. }
  apply during_bind. eapply during_mono; [by apply arm_spec|]. intros n n1 l r Hn Hl.
  assert (forall l1 a l2, l = l1 ++ a :: l2 -> publishes a = true ->
    Caps.ac_publish (gd_caps d) = Caps.OwnBranch /\ Caps.is_publish_op op = true /\
    exists t, target d id args = Ok t /\ consented_before d t op n n1 l1 a) as Hend.
  { intros l1 a l2 E Hpub. destruct Hl as [->|(t & Ht & [[Hop Hc]|Hr])]; [by destruct l1| |].
    - split; [by eapply Caps.refuses_None|]. split; [done|]. exists t. split; [done|]. by eapply Hc.
    - rewrite E in Hr. apply Forall_app in Hr as [_ Hr]. apply Forall_cons in Hr as [Hr _].
      rewrite (inquires_publishes (tg_source_repo t) a) in Hpub; [done|by left]. }
  destruct r as [[resp effects]|e]; [|exact Hend].
  apply during_ret. intros ? ->. rewrite app_nil_r. exact Hend.
Qed.

(** Consent to the push of the branch, then the branch read and its commits checked. *)
Definition consented_then_checked (d : GitDispatcher) (t : Target) (branch sha : string) (n n' : nat)
    (l : list Act) : Prop :=
  exists n1 n2 x y z w, l = x ++ y ++ z ++ w /\ n <= n1 /\ n2 <= n' /\
    consented d "git_push" (tg_subdir t) ("push " +:+ branch) n1 n2 y /\
    own_commits (tg_cwd t) sha z /\ branch_was (tg_cwd t) branch sha z.

Lemma licensed_checked d t branch sha n m n' l rest :
  m <= n' -> licensed d t "git_push" branch ("push " +:+ branch) sha n m l ->
  consented_then_checked d t branch sha n n' (l ++ rest).
Proof.
  intros Hm [_ _ _ (n1 & n2 & x & y & z & -> & ? & ? & ?)]. exists n1, n2, x, y, z, rest.
  rewrite <-!app_assoc. split; [done|]. split; [lia|]. split; [lia|done].
Qed.

(** (C4) A [git_push] publishes one commit of the branch it names: the branch is neither an option nor
    what the work is reviewed against, a force is of the agent's own recorded branch, and the commit
    is the tip the branch had after the user's consent, its commits then found to be the checkout's
    own (or the copy of it that the user's signer made). A reply of success means just that. *)
Theorem git_push_publishes_checked_tip d id args :
  during (git_push d id args) (fun n n' l r => forall t, target d id args = Ok t ->
    let force := arg_bool args "force" in
    (forall l1 a l2, l = l1 ++ a :: l2 -> publishes a = true ->
      exists branch sha commit, Caps.ac_publish (gd_caps d) = Caps.OwnBranch /\
        starts_with "-" branch = false /\ Caps.is_review_target branch (tg_base_branch t) = false /\
        (force = true -> force_anchored t branch) /\
        consented_then_checked d t branch sha n n' l1 /\
        settled (publication t branch force) l1 sha commit /\
        pushes (tg_source_repo t) branch force commit a) /\
    forall resp events, r = Ok (resp, events) -> re_ok resp = true ->
      exists branch sha commit, consented_then_checked d t branch sha n n' l /\
        settled (publication t branch force) l sha commit).
Proof.
  eapply during_mono; [apply git_push_spec|]. cbn beta. intros n n' l r _ Hl t Ht. rewrite Ht in Hl.
  destruct Hl as (branch & Hmost & Hforce & Hok). split.
  - intros l1 a l2 E Hpub.
    assert (~ Forall (inquires (tg_source_repo t)) l) as Hnot.
    { intros Hin. rewrite E in Hin. apply unpublishing, Forall_app in Hin as [_ Hin].
      apply Forall_cons in Hin as [Hin _]. congruence. }
    destruct Hmost as [?|(x & y & z & -> & [Ha Hs (sha & commit & m & Hm & Hlic & Hset & Hp)])]; [done|].
    rewrite app_assoc in E. apply (split_after publishes) in E as (l1' & -> & E); [|apply Forall_app; split|done].
    2:{ by eapply unpublishing. } 2:{ by eapply unpublishing, reading_inquires. }
    exists branch, sha, commit. split; [apply Hlic|]. split; [apply Hlic|]. split; [apply Hlic|].
    split; [intros Hf; by destruct (Hforce Hf)|]. split; [rewrite <-app_assoc; by eapply licensed_checked|].
    split; [eapply settled_mono; [exact Hset|]; set_solver|].
    rewrite Forall_forall in Hp. destruct (Hp a) as [Hr|Hr]; [rewrite E; set_solver| |done].
    rewrite (inquires_publishes (tg_source_repo t) a) in Hpub; [done|by left].
  - intros resp events -> Hresp.
    destruct (Hok Hresp) as (x & y & z & -> & [Ha Hs (sha & commit & m & Hm & Hlic & Hset & Hp)]).
    exists branch, sha, commit. split; [by eapply licensed_checked|].
    eapply settled_mono; [exact Hset|]. set_solver.
Qed.
End Licence.

(** ** An example: a push the user says yes to *)

Definition demo_git (n : nat) (cmd : Cmd) : option (result Output string) :=
  match sub_args (cmd_args cmd) with
  | "symbolic-ref" :: _ => exited 0 ("fix/x" +:+ newline)
  | ["rev-parse"; "--verify"; "--quiet"; _] => exited 0 ("c0ffee" +:+ newline)
  | ["config"; "--get"; "user.email"] => exited 0 ("ada@x" +:+ newline)
  | ["config"; "--get"; "remote.origin.url"] => exited 0 ("https://github.com/o/r" +:+ newline)
  | "remote" :: "get-url" :: _ => exited 0 ("https://github.com/o/r" +:+ newline)
  | "log" :: _ => exited 0 ("ada@x" +:+ newline)
  | ["rev-parse"; "--path-format=absolute"; _] => exited 0 ("/u/.git" +:+ newline)
  | _ => exited 0 ""
  end.

Definition demo_rpc (yes : bool) : RpcHost := {|
  h_enabled _ := true; h_delegations _ := Delegation.delegations_default;
  h_autopilot _ := AutopilotDriver.table_default; h_emits _ := true; h_wait _ := 120%N;
  h_channel _ := Some yes; h_in_time _ _ := true; h_issue_ref _ _ := None; h_spawn_error _ := None;
  h_pr_create _ _ _ _ _ _ _ := Err "no"; h_pr_view_branch _ _ _ := Ok None;
  h_pr_merge_number _ _ _ := Err "no"; h_workflow_dispatch _ _ _ _ _ := Err "no";
  h_json _ := ""; h_json_pretty _ := Ok "";
|}.

Definition demo_dispatcher : GitDispatcher :=
  with_approval (new_dispatcher "/w/a" "/u" "main" Caps.interactive) "fuji".

Definition demo_dispatch (yes : bool) : result Reply string * Conn (list Act) :=
  @dispatch_inner (plain_host demo_git) no_guests (demo_rpc yes) (fun _ => ret (response_err "" "", []))
    demo_dispatcher "1" "git_push" (Object []) {| c_db := []; c_tick := 0 |}.

Example dispatch_publishes_with_consent_witness :
  existsb publishes (c_db (demo_dispatch true).2) = true /\
  existsb publishes (c_db (demo_dispatch false).2) = false /\
  exists l, c_db (demo_dispatch true).2 = [] ++ l /\ forall l1 a l2, l = l1 ++ a :: l2 -> publishes a = true ->
    exists t, target demo_dispatcher "1" (Object []) = Ok t /\
      @consented_before (demo_rpc true) demo_dispatcher t "git_push" 0
        (c_tick (demo_dispatch true).2) l1 a.
Proof.
  split; [vm_compute; reflexivity|]. split; [vm_compute; reflexivity|].
  destruct (@dispatch_publishes_with_consent (plain_host demo_git) no_guests (demo_rpc true)
    (fun _ => ret (response_err "" "", [])) demo_dispatcher "1" "git_push" (Object []) eq_refl
    {| c_db := []; c_tick := 0 |}) as (l & El & _ & Hl).
  exists l. split; [exact El|]. intros l1 a l2 E Ha. exact (proj2 (proj2 (Hl l1 a l2 E Ha))).
Defined.

Definition demo_push : result Reply string * Conn (list Act) :=
  @git_push (plain_host demo_git) no_guests (demo_rpc true) demo_dispatcher "1" (Object []) {| c_db := []; c_tick := 0 |}.

Example git_push_publishes_checked_tip_witness :
  existsb publishes (c_db demo_push.2) = true /\
  exists l, c_db demo_push.2 = [] ++ l /\ forall l1 a l2, l = l1 ++ a :: l2 -> publishes a = true ->
    exists t branch sha, target demo_dispatcher "1" (Object []) = Ok t /\
      @consented_then_checked (demo_rpc true) demo_dispatcher t branch sha 0 (c_tick demo_push.2) l1.
Proof.
  split; [vm_compute; reflexivity|].
  destruct (@git_push_publishes_checked_tip (plain_host demo_git) no_guests (demo_rpc true) demo_dispatcher "1" (Object [])
    {| c_db := []; c_tick := 0 |}) as (l & El & _ & Hl).
  exists l. split; [exact El|]. intros l1 a l2 E Ha.
  destruct (Hl _ eq_refl) as [Hpush _]. destruct (Hpush l1 a l2 E Ha) as (branch & sha & commit & Hc).
  eexists _, branch, sha. split; [reflexivity|]. apply Hc.
Defined.
