(* ===== verification/EgressPolicy.v ===== *)
(** * Who a box may reach

    [src/crates/fletch-box/src/egress/policy.rs]: the template of allowed hosts, the hosts denied
    quietly, host patterns with their parser and printer, host normalization, and the policy a
    connection is checked against. A pattern matches at label boundaries only, and printing a
    parsed pattern and parsing it again gives it back. *)

From Stdlib Require Import Ascii.
From S2P Require Import Prelude RustStr RustText.

Local Open Scope string_scope.
Local Open Scope list_scope.

(** ** The template *)

Inductive Category := Providers | Registries | Toolchains | SourceHosting | OsPackages.

#[export] Instance Category_dec : EqDecision Category.
Proof. solve_decision. Defined.

Definition Category_as_str (c : Category) : string :=
  match c with
  | Providers => "providers"
  | Registries => "registries"
  | Toolchains => "toolchains"
  | SourceHosting => "source_hosting"
  | OsPackages => "os_packages"
  end.

Definition TEMPLATE : list (string * Category) :=
  [ ("api.anthropic.com", Providers)
  ; ("platform.claude.com", Providers)
  ; ("*.anthropic.com", Providers)
  ; ("*.claude.ai", Providers)
  ; ("api.openai.com", Providers)
  ; ("chatgpt.com", Providers)
  ; ("auth.openai.com", Providers)
  ; ("api2.cursor.sh", Providers)
  ; ("*.cursor.sh", Providers)
  ; ("api.cursor.com", Providers)
  ; ("opencode.ai", Providers)
  ; ("*.opencode.ai", Providers)
  ; ("generativelanguage.googleapis.com", Providers)
  ; ("openrouter.ai", Providers)
  ; ("api.groq.com", Providers)
  ; ("api.x.ai", Providers)
  ; ("api.deepseek.com", Providers)
  ; ("api.mistral.ai", Providers)
  ; ("api.githubcopilot.com", Providers)
  ; ("models.dev", Providers)
  ; ("registry.npmjs.org", Registries)
  ; ("*.npmjs.org", Registries)
  ; ("registry.yarnpkg.com", Registries)
  ; ("repo.yarnpkg.com", Registries)
  ; ("jsr.io", Registries)
  ; ("pypi.org", Registries)
  ; ("files.pythonhosted.org", Registries)
  ; ("crates.io", Registries)
  ; ("static.crates.io", Registries)
  ; ("index.crates.io", Registries)
  ; ("proxy.golang.org", Registries)
  ; ("sum.golang.org", Registries)
  ; ("repo.packagist.org", Registries)
  ; ("rubygems.org", Registries)
  ; ("index.rubygems.org", Registries)
  ; ("repo1.maven.org", Registries)
  ; ("repo.maven.apache.org", Registries)
  ; ("plugins.gradle.org", Registries)
  ; ("api.nuget.org", Registries)
  ; ("static.rust-lang.org", Toolchains)
  ; ("sh.rustup.rs", Toolchains)
  ; ("cursor.com", Toolchains)
  ; ("downloads.cursor.com", Toolchains)
  ; ("nodejs.org", Toolchains)
  ; ("bun.sh", Toolchains)
  ; ("deno.land", Toolchains)
  ; ("dl.deno.land", Toolchains)
  ; ("astral.sh", Toolchains)
  ; ("bootstrap.pypa.io", Toolchains)
  ; ("go.dev", Toolchains)
  ; ("dl.google.com", Toolchains)
  ; ("services.gradle.org", Toolchains)
  ; ("downloads.gradle.org", Toolchains)
  ; ("getcomposer.org", Toolchains)
  ; ("cdn.playwright.dev", Toolchains)
  ; ("playwright.download.prss.microsoft.com", Toolchains)
  ; ("github.com", SourceHosting)
  ; ("api.github.com", SourceHosting)
  ; ("objects.githubusercontent.com", SourceHosting)
  ; ("raw.githubusercontent.com", SourceHosting)
  ; ("codeload.github.com", SourceHosting)
  ; ("release-assets.githubusercontent.com", SourceHosting)
  ; ("gitlab.com", SourceHosting)
  ; ("bitbucket.org", SourceHosting)
  ; ("deb.debian.org", OsPackages)
  ; ("security.debian.org", OsPackages)
  ; ("snapshot.debian.org", OsPackages) ].

Definition DEFAULT_ALLOW : list string := fst <$> TEMPLATE.

Definition QUIET : list string :=
  [ "*.datadoghq.com"
  ; "*.datadoghq.eu"
  ; "sentry.io"
  ; "*.sentry.io"
  ; "statsig.com"
  ; "*.statsig.com"
  ; "featuregates.org"
  ; "*.featuregates.org"
  ; "*.featureassets.org"
  ; "*.prodregistryv2.org"
  ; "api.segment.io"
  ; "*.posthog.com"
  ; "*.amplitude.com"
  ; "*.mixpanel.com"
  ; "api.honeycomb.io"
  ; "content-autofill.googleapis.com"
  ; "optimizationguide-pa.googleapis.com"
  ; "safebrowsing.googleapis.com"
  ; "clientservices.googleapis.com"
  ; "update.googleapis.com"
  ; "clients2.google.com"
  ; "*.gvt1.com" ].

Definition DEFAULT_PORTS : list N := [80; 443]%N.

(** ** Host names *)

Definition dot_byte : ascii := "."%char.

(** [b.is_ascii_alphanumeric() || b == b'-' || b == b'_']. *)
Definition label_byte (b : ascii) : bool :=
  is_ascii_alphanumeric b || Ascii.eqb b "-"%char || Ascii.eqb b "_"%char.

Definition label_ok (label : string) : bool := negb (is_empty label) && all_bytes label_byte label.

(** [host.len() <= 253]. *)
Definition MAX_HOST_LEN : nat := 253.

Definition plausible (host : string) : bool :=
  negb (is_empty host) && (String.length host <=? MAX_HOST_LEN)%nat
  && forallb label_ok (split_on dot_byte host).

Definition normalize_host (host : string) : option string :=
  let host := to_ascii_lowercase (trim_end_by (eqb ".") (trim host)) in
  if plausible host then Some host else None.

(** ** Patterns *)

(** [Suffix] is stored with its leading dot. *)
Inductive HostPattern :=
| Exact (name : string)
| Suffix (suffix : string).

#[export] Instance HostPattern_dec : EqDecision HostPattern.
Proof. solve_decision. Defined.

(** The error carries the pattern as given. *)
Definition PatternError := string.

Definition PatternError_display (e : PatternError) : string :=
  "invalid host pattern " +:+ debug_str e +:+ ": use a host name or *.domain".

Definition from_str (pattern : string) : result HostPattern PatternError :=
  match strip_prefix "*." pattern with
  | Some domain =>
      match normalize_host domain with
      | Some d => Ok (Suffix ("." +:+ d))
      | None => Err pattern
      end
  | None =>
      match normalize_host pattern with
      | Some name => Ok (Exact name)
      | None => Err pattern
      end
  end.

Definition display (p : HostPattern) : string :=
  match p with
  | Exact name => name
  | Suffix suffix => "*" +:+ suffix
  end.

Definition matches (p : HostPattern) (host : string) : bool :=
  match p with
  | Exact name => String.eqb host name
  | Suffix suffix => ends_with suffix host
  end.

Definition is_quiet (host : string) : bool :=
  existsb (fun p => match from_str p with Ok pattern => matches pattern host | Err _ => false end) QUIET.

(** ** Policies *)

Record EgressPolicy := mkEgressPolicy {
  allow : list HostPattern;
  ports : list N;
}.

#[export] Instance EgressPolicy_dec : EqDecision EgressPolicy.
Proof. solve_decision. Defined.

Inductive Denial := DenyHost | DenyPort.

#[export] Instance Denial_dec : EqDecision Denial.
Proof. solve_decision. Defined.

Definition Denial_display (d : Denial) : string :=
  match d with
  | DenyHost => "host not allowed"
  | DenyPort => "port not allowed"
  end.

(** [collect::<Result<_, _>>()] of the parsed patterns: the first error wins. *)
Fixpoint parse_all (patterns : list string) : result (list HostPattern) PatternError :=
  match patterns with
  | [] => Ok []
  | p :: ps =>
      match from_str p with
      | Err e => Err e
      | Ok h => match parse_all ps with Ok hs => Ok (h :: hs) | Err e => Err e end
      end
  end.

Definition new (patterns : list string) : result EgressPolicy PatternError :=
  match parse_all patterns with
  | Ok allow => Ok (mkEgressPolicy allow DEFAULT_PORTS)
  | Err e => Err e
  end.

(** [EgressPolicy::default()]: [None] is the panic of its [expect]. *)
Definition default_policy : option EgressPolicy :=
  match new DEFAULT_ALLOW with Ok p => Some p | Err _ => None end.

(** [None] is the panic of [default_policy]. *)
Definition with_extra (patterns : list string) : option (result EgressPolicy PatternError) :=
  policy ← default_policy;
  Some (match parse_all patterns with
        | Ok more => Ok (mkEgressPolicy (allow policy ++ more) (ports policy))
        | Err e => Err e
        end).

Definition listed (policy : EgressPolicy) (host : string) : bool :=
  existsb (fun p => matches p host) (allow policy).

Definition check (policy : EgressPolicy) (host : string) (port : N) : result () Denial :=
  if negb (lcontains (ports policy) port) then Err DenyPort
  else if listed policy host then Ok tt
  else Err DenyHost.

(** ** Labels *)

(** The domain of a [Suffix], which is stored with its leading dot. *)
Definition drop_dot (suffix : string) : string := match suffix with String _ d => d | EmptyString => "" end.

(** A host name as its labels. *)
Definition labels (host : string) : list string := split_on dot_byte host.

Lemma split_on_app_all c s t : split_on c (s +:+ String c t) = split_on c s ++ split_on c t.
Proof.
  unfold split_on. induction s as [|b s IH]; [rewrite append_nil|rewrite append_cons]; cbn [split_by].
  - by rewrite Ascii.eqb_refl.
  - rewrite IH. destruct (Ascii.eqb c b); [done|].
    destruct (split_by_cons (Ascii.eqb c) s) as (w & ws & E). by rewrite E.
Qed.

Lemma join_cons c w v vs : join (String c "") (w :: v :: vs) = w +:+ String c (join (String c "") (v :: vs)).
Proof. reflexivity. Qed.

Lemma join_split_on c s : join (String c "") (split_on c s) = s.
Proof.
  unfold split_on. induction s as [|b s IH]; [done|]. cbn [split_by].
  destruct (split_by_cons (Ascii.eqb c) s) as (w & ws & E). rewrite E in *.
  destruct (Ascii.eqb_spec c b) as [<-|Hne].
  - by rewrite join_cons, IH.
  - destruct ws as [|v vs]; [cbn in *; by subst|]. by rewrite join_cons, append_cons, <-join_cons, IH.
Qed.

Lemma split_on_inj c s t : split_on c s = split_on c t -> s = t.
Proof. intros E. by rewrite <-(join_split_on c s), E, join_split_on. Qed.

Lemma join_app c l l' : l <> [] -> l' <> [] ->
  join (String c "") (l ++ l') = join (String c "") l +:+ String c (join (String c "") l').
Proof. intros Hl Hl'. rewrite joined_app by done. by rewrite append_cons. Qed.

Lemma rev_string_list s : String.list_ascii_of_string (rev_string s) = rev (String.list_ascii_of_string s).
Proof. unfold rev_string. by rewrite String.list_ascii_of_string_of_list_ascii. Qed.

Lemma list_ascii_inj s t : String.list_ascii_of_string s = String.list_ascii_of_string t -> s = t.
Proof.
  intros E. by rewrite <-(String.string_of_list_ascii_of_string s), E, String.string_of_list_ascii_of_string.
Qed.

Lemma list_ascii_app s t :
  String.list_ascii_of_string (s +:+ t) = String.list_ascii_of_string s ++ String.list_ascii_of_string t.
Proof. induction s as [|b s IH]; [done|]. rewrite append_cons. cbn. by rewrite IH. Qed.

Lemma rev_string_involutive s : rev_string (rev_string s) = s.
Proof. apply list_ascii_inj. by rewrite !rev_string_list, rev_involutive. Qed.

Lemma rev_string_app s t : rev_string (s +:+ t) = rev_string t +:+ rev_string s.
Proof. apply list_ascii_inj. by rewrite rev_string_list, !list_ascii_app, !rev_string_list, rev_app_distr. Qed.

Lemma ends_with_true t s : ends_with t s = true <-> exists r, s = r +:+ t.
Proof.
  unfold ends_with, strip_suffix. rewrite is_some_true. split.
  - intros [r E]. destruct (strip_prefix _ _) as [r'|] eqn:E'; [|done]. apply strip_prefix_Some in E'.
    exists (rev_string r'). rewrite <-(rev_string_involutive s), E', rev_string_app. by rewrite rev_string_involutive.
  - intros [r ->]. exists r. rewrite rev_string_app.
    rewrite (proj2 (strip_prefix_Some _ _ _) eq_refl). cbn. by rewrite rev_string_involutive.
Qed.

(** ** Normal form *)

(** What [normalize_host] returns: a plausible name in lower case. *)
Definition normal (host : string) : bool := plausible host && String.eqb (to_ascii_lowercase host) host.

(** The bytes of a plausible name. *)
Definition host_byte (b : ascii) : bool := label_byte b || Ascii.eqb b dot_byte.

Lemma plausible_bytes host : plausible host = true -> all_bytes host_byte host = true.
Proof.
  unfold plausible. rewrite !andb_true_iff. intros [_ H].
  rewrite <-(join_split_on dot_byte host). revert H. generalize (split_on dot_byte host) as ls.
  assert (forall l, label_ok l = true -> all_bytes host_byte l = true) as Hl.
  { intros l [_ Hb]%andb_true_iff. eapply all_bytes_impl; [|done]. intros b Hb'. unfold host_byte. by rewrite Hb'. }
  induction ls as [|w [|v vs] IH]; [done|..]; cbn [forallb]; rewrite ?andb_true_iff.
  - intros [Hw _]. by apply Hl.
  - intros [Hw Hv]. rewrite join_cons, all_bytes_app, Hl by done. apply IH. cbn [forallb]. by rewrite andb_true_iff.
Qed.

Lemma lower_byte_idem b : lower_byte (lower_byte b) = lower_byte b.
Proof. destruct b as [[] [] [] [] [] [] [] []]; vm_compute; reflexivity. Qed.

Lemma to_ascii_lowercase_idem s : to_ascii_lowercase (to_ascii_lowercase s) = to_ascii_lowercase s.
Proof. unfold to_ascii_lowercase. induction s as [|b s IH]; [done|]. cbn. by rewrite IH, lower_byte_idem. Qed.

Lemma host_byte_plain b : host_byte b = true -> is_ascii_byte b = true /\ is_ws (String b "") = false.
Proof. destruct b as [[] [] [] [] [] [] [] []]; vm_compute; auto. Qed.

Lemma chars_ascii s : is_ascii s = true -> chars s = (fun b => String b "") <$> String.list_ascii_of_string s.
Proof.
  induction s as [|b s IH]; [done|]. cbn [is_ascii chars String.list_ascii_of_string].
  rewrite andb_true_iff. intros [Hb Hs]. rewrite (IH Hs). destruct s as [|c s]; [done|]. cbn.
  enough (is_cont c = false) as -> by done. cbn in Hs. apply andb_true_iff in Hs as [Hc _].
  clear -Hc. revert Hc. by destruct c as [[] [] [] [] [] [] [] []].
Qed.

Lemma is_ascii_all_bytes s : is_ascii s = all_bytes is_ascii_byte s.
Proof. induction s as [|b s IH]; [done|]. cbn. by rewrite IH. Qed.

Lemma all_bytes_Forall p s : all_bytes p s = true <-> Forall (fun b => p b = true) (String.list_ascii_of_string s).
Proof. induction s as [|b s IH]; cbn; [done|]. by rewrite andb_true_iff, Forall_cons, IH. Qed.

Lemma trim_host s : all_bytes host_byte s = true -> trim s = s.
Proof.
  intros Hs. assert (chars s = (fun b => String b "") <$> String.list_ascii_of_string s) as E.
  { apply chars_ascii. rewrite is_ascii_all_bytes. eapply all_bytes_impl; [|done]. by intros b [? ?]%host_byte_plain. }
  assert (Forall (fun c => is_ws c = false) (chars s)) as Hws.
  { rewrite E. apply Forall_fmap. apply all_bytes_Forall in Hs. eapply Forall_impl; [done|].
    by intros b [? ?]%host_byte_plain. }
  unfold trim. rewrite (drop_while_none _ (chars s)) by done.
  rewrite drop_while_none by (by apply Forall_rev). by rewrite rev_involutive, unchars_chars.
Qed.

Lemma plausible_not_dotted host : plausible host = true ->
  exists b s, host = s +:+ String b "" /\ b <> dot_byte.
Proof.
  intros Hp. unfold plausible in Hp. rewrite !andb_true_iff in Hp. destruct Hp as [[Hne _] Hl].
  rewrite <-(rev_string_involutive host).
  destruct (rev_string host) as [|b s] eqn:E.
  - exfalso. apply (f_equal rev_string) in E. rewrite rev_string_involutive in E. by subst.
  - assert (host = rev_string s +:+ String b "") as Eh.
    { rewrite <-(rev_string_involutive host), E. apply list_ascii_inj.
      rewrite rev_string_list, list_ascii_app, rev_string_list. reflexivity. }
    rewrite <-E, rev_string_involutive. exists b, (rev_string s). split; [done|]. intros ->.
    rewrite Eh, split_on_app_all, forallb_app in Hl. apply andb_true_iff in Hl as [_ Hl]. by vm_compute in Hl.
Qed.

Lemma trim_end_dots host : plausible host = true -> trim_end_by (eqb ".") host = host.
Proof.
  intros Hp. pose proof (plausible_bytes _ Hp) as Hb. destruct (plausible_not_dotted _ Hp) as (b & s & -> & Hne).
  assert (is_ascii (s +:+ String b "") = true) as Ha.
  { rewrite is_ascii_all_bytes. eapply all_bytes_impl; [|done]. by intros c [? ?]%host_byte_plain. }
  unfold trim_end_by. rewrite chars_ascii, list_ascii_app, fmap_app, rev_app_distr by done. cbn [rev fmap list_fmap
    String.list_ascii_of_string app drop_while].
  rewrite (proj2 (eqb_neq _ _)) by (intros [= ?]; by subst). cbn [rev]. rewrite rev_involutive.
  rewrite unchars_app. f_equal. rewrite <-chars_ascii; [apply unchars_chars|].
  rewrite is_ascii_all_bytes, all_bytes_app in Ha. rewrite is_ascii_all_bytes. by apply andb_true_iff in Ha as [? _].
Qed.

Lemma normalize_normal h n : normalize_host h = Some n -> normal n = true.
Proof.
  unfold normalize_host, normal. destruct (plausible _) eqn:E; [|done]. intros [= <-].
  by rewrite E, to_ascii_lowercase_idem, String.eqb_refl.
Qed.

Lemma normalize_of_normal n : normal n = true -> normalize_host n = Some n.
Proof.
  unfold normal. rewrite andb_true_iff, String.eqb_eq. intros [Hp Hl]. unfold normalize_host.
  rewrite trim_host, trim_end_dots, Hl, Hp; [done..|by apply plausible_bytes].
Qed.

Lemma normalize_idempotent h n : normalize_host h = Some n -> normalize_host n = Some n.
Proof. intros. by eapply normalize_of_normal, normalize_normal. Qed.

(** No pattern's name starts with a star. *)
Lemma normal_no_star n : normal n = true -> strip_prefix "*." n = None.
Proof.
  intros [Hp _]%andb_true_iff. apply plausible_bytes in Hp. destruct (strip_prefix "*." n) as [r|] eqn:E; [|done].
  apply strip_prefix_Some in E as ->. by vm_compute in Hp.
Qed.

Lemma from_str_shape s p : from_str s = Ok p ->
  (exists n, p = Exact n /\ normal n = true) \/ (exists d, p = Suffix ("." +:+ d) /\ normal d = true).
Proof.
  unfold from_str. destruct (strip_prefix _ _) as [d|].
  - destruct (normalize_host d) as [n|] eqn:E; [|done]. intros [= <-]. apply normalize_normal in E. eauto.
  - destruct (normalize_host s) as [n|] eqn:E; [|done]. intros [= <-]. apply normalize_normal in E. eauto.
Qed.

(** A pattern that was parsed is the one its printed form parses to. *)
Theorem pattern_roundtrip s p : from_str s = Ok p -> from_str (display p) = Ok p.
Proof.
  intros [(n & -> & Hn)|(d & -> & Hd)]%from_str_shape; unfold from_str; cbn [display].
  - by rewrite normal_no_star, normalize_of_normal.
  - change ("*" +:+ "." +:+ d) with ("*." +:+ d). rewrite (proj2 (strip_prefix_Some "*." _ d) eq_refl). by rewrite normalize_of_normal.
Qed.

Lemma pattern_roundtrip_witness : from_str "*.PyPI.org. " = Ok (Suffix ".pypi.org") /\ from_str "*.pypi.org" = Ok (Suffix ".pypi.org").
Proof. split; [vm_compute; reflexivity|]. apply (pattern_roundtrip "*.PyPI.org. " (Suffix ".pypi.org")). vm_compute. reflexivity. Defined.

(** ** What a pattern covers *)

(** The names a parsed pattern stands for, by their labels: the name itself, or every name strictly
    below the domain. *)
Definition covers (p : HostPattern) (host : string) : Prop :=
  match p with
  | Exact name => labels host = labels name
  | Suffix suffix => exists below, below <> [] /\ labels host = below ++ labels (drop_dot suffix)
  end.

Lemma labels_nonnil host : labels host <> [].
Proof.
  unfold labels, split_on. destruct (split_by_cons (Ascii.eqb dot_byte) host) as (w & ws & E). by rewrite E.
Qed.

Lemma labels_below host d : (exists r, host = r +:+ "." +:+ d) <-> (exists l, l <> [] /\ labels host = l ++ labels d).
Proof.
  split.
  - intros [r ->]. exists (labels r). split; [apply labels_nonnil|].
    unfold labels. by rewrite <-split_on_app_all.
  - intros (l & Hl & E). exists (join "." l). rewrite <-(join_split_on dot_byte host). fold (labels host).
    rewrite E, join_app by (done || apply labels_nonnil). unfold labels. by rewrite join_split_on.
Qed.

Lemma from_str_matches s p host : from_str s = Ok p -> (matches p host = true <-> covers p host).
Proof.
  intros [(n & -> & Hn)|(d & -> & Hd)]%from_str_shape; cbn [matches covers].
  - rewrite String.eqb_eq. split; [by intros ->|apply split_on_inj].
  - rewrite ends_with_true. apply labels_below.
Qed.

(** A parsed pattern matches a host exactly when it covers it: at label boundaries only, never the
    bare domain of a [*.domain], never a longer name that merely ends in the same letters. *)
Theorem pattern_matches_labels s p host : from_str s = Ok p -> (matches p host = true <-> covers p host).
Proof. apply from_str_matches. Qed.

Lemma pattern_matches_labels_witness :
  covers (Suffix ".pypi.org") "files.pypi.org" /\ ~ covers (Suffix ".pypi.org") "evilpypi.org".
Proof.
  pose proof (fun h => pattern_matches_labels "*.pypi.org" (Suffix ".pypi.org") h eq_refl) as H.
  split; [apply H; vm_compute; reflexivity|]. intros Hc. apply H in Hc. by vm_compute in Hc.
Defined.

(** ** The template *)

Definition template_ok : bool :=
  forallb (fun h => match from_str h with Ok _ => true | Err _ => false end) (DEFAULT_ALLOW ++ QUIET)
  && bool_decide (NoDup DEFAULT_ALLOW) && bool_decide (NoDup QUIET)
  && forallb (fun h => match from_str h with Ok p => String.eqb (display p) h | Err _ => false end) (DEFAULT_ALLOW ++ QUIET)
  && forallb (fun h => negb (is_quiet h) && negb (is_quiet (drop_dot (drop_dot h)))) DEFAULT_ALLOW.

(** Every entry of the template and of the quiet list is a pattern as it prints, none is listed
    twice, and no template entry is on the quiet list: the policy every box starts from exists, and
    is on the ports 80 and 443. *)
Theorem template_well_formed : template_ok = true /\ is_some default_policy = true.
Proof. split; vm_compute; reflexivity. Qed.

Lemma check_Ok policy host port :
  check policy host port = Ok tt <-> port ∈ ports policy /\ listed policy host = true.
Proof.
  unfold check. destruct (lcontains (ports policy) port) eqn:E; cbn.
  - apply lcontains_true in E. destruct (listed policy host); naive_solver.
  - apply lcontains_false in E. naive_solver.
Qed.

Lemma check_Host policy host port :
  check policy host port = Err DenyHost <-> port ∈ ports policy /\ listed policy host = false.
Proof.
  unfold check. destruct (lcontains (ports policy) port) eqn:E; cbn.
  - apply lcontains_true in E. destruct (listed policy host); naive_solver.
  - apply lcontains_false in E. naive_solver.
Qed.

Lemma parse_all_spec ps hs : parse_all ps = Ok hs -> Forall2 (fun s p => from_str s = Ok p) ps hs.
Proof.
  revert hs. induction ps as [|s ps IH]; cbn; intros hs; [by intros [= <-]|].
  destruct (from_str s) as [p|] eqn:E; [|done]. destruct (parse_all ps) as [l|]; [|done].
  intros [= <-]. constructor; auto.
Qed.

(** A policy built from patterns admits exactly the hosts one of them covers, on the default ports. *)
Theorem new_policy_admits patterns policy host port : new patterns = Ok policy ->
  (check policy host port = Ok tt <->
   (port = 80 \/ port = 443)%N /\ exists s p, s ∈ patterns /\ from_str s = Ok p /\ covers p host).
Proof.
  unfold new. destruct (parse_all patterns) as [hs|] eqn:E; [|done]. intros [= <-].
  apply parse_all_spec in E. rewrite check_Ok. cbn [ports]. unfold listed. cbn [allow].
  rewrite existsb_exists. unfold DEFAULT_PORTS.
  rewrite elem_of_cons, list_elem_of_singleton. apply and_iff_compat_l. split.
  - intros (p & Hin%list_elem_of_In & Hm). apply list_elem_of_lookup in Hin as [i Hi].
    destruct (Forall2_lookup_r _ _ _ _ _ E Hi) as (s & Hs & Hp). exists s, p. split; [by eapply list_elem_of_lookup_2|].
    split; [done|]. by eapply from_str_matches.
  - intros (s & p & Hin & Hp & Hc). apply list_elem_of_lookup in Hin as [i Hi].
    destruct (Forall2_lookup_l _ _ _ _ _ E Hi) as (p' & Hp' & Hf). exists p'. rewrite Hp in Hf. injection Hf as <-.
    split; [by eapply list_elem_of_In, list_elem_of_lookup_2|]. by eapply from_str_matches.
Qed.
