(* ===== verification/EgressRequest.v ===== *)
(** * What a box asks of the proxy

    The first half of [serve] in [src/crates/fletch-box/src/egress/mod.rs]: reading the header off
    the socket, the request line, the CONNECT target, and the answers sent back. A byte buffer is a
    [string]; the socket is the list of what its reads return. However a request is cut into reads,
    the same header is read. *)

From Stdlib Require Import Ascii DecimalString.
From S2P Require Import Prelude RustStr RustText Closes EgressPolicy.

Local Open Scope string_scope.
Local Open Scope list_scope.

Definition MAX_HEADER : nat := 8 * 1024.

(** The buffer [read] fills: no read returns more. *)
Definition CHUNK : nat := 1024.

Definition crlf : string := bytes [13; 10]%N.

(** ** The header *)

(** [buf.windows(4).position(|w| w == CRLFCRLF).map(|i| i + 4)]. *)
Fixpoint find_header_end (buf : string) : option nat :=
  match buf with
  | EmptyString => None
  | String _ rest =>
      if starts_with (crlf +:+ crlf) buf then Some 4 else S <$> find_header_end rest
  end.

(** [buf.split_off(end)]: what stays, and what goes. *)
Fixpoint split_at (n : nat) (s : string) : string * string :=
  match n, s with
  | S n, String b s => let '(x, y) := split_at n s in (String b x, y)
  | _, _ => ("", s)
  end.

(** What one [read] returns; no bytes is the end of the stream. *)
Inductive Read :=
| Chunk (data : string)
| ReadErr (message : string).

(** [read_header], up to the decoding of the header. [None]: the next read has not returned. *)
Fixpoint read_raw (buf : string) (reads : list Read) : option (result (string * string) string) :=
  match find_header_end buf with
  | Some end_ => Some (Ok (split_at end_ buf))
  | None =>
      if (MAX_HEADER <=? String.length buf)%nat then Some (Err "header too long")
      else match reads with
           | [] => None
           | ReadErr e :: _ => Some (Err e)
           | Chunk "" :: _ => Some (Err "connection closed before the header ended")
           | Chunk data :: reads => read_raw (buf +:+ data) reads
           end
  end.

Definition read_header (reads : list Read) : option (result (string * string) string) :=
  (fun r => match r with Ok (head, leftover) => Ok (from_utf8_lossy head, leftover) | Err e => Err e end)
  <$> read_raw "" reads.

(** ** IP literals: [str::parse::<std::net::IpAddr>] *)

Definition to_digit (radix : N) (b : ascii) : option N :=
  let n := N_of_ascii b in
  let v := if ((48 <=? n) && (n <=? 57))%N then Some (n - 48)%N
           else if ((97 <=? n) && (n <=? 122))%N then Some (n - 87)%N
           else if ((65 <=? n) && (n <=? 90))%N then Some (n - 55)%N
           else None in
  opt_filter (fun d => (d <? radix)%N) v.

Fixpoint take_digits (radix : N) (s : string) : list N * string :=
  match s with
  | String b s' =>
      match to_digit radix b with
      | Some d => let '(ds, rest) := take_digits radix s' in (d :: ds, rest)
      | None => ([], s)
      end
  | EmptyString => ([], "")
  end.

(** [Parser::read_number]: what follows the number. *)
Definition read_number (radix bound : N) (max_digits : nat) (allow_zero_prefix : bool) (s : string) : option string :=
  let '(ds, rest) := take_digits radix s in
  let leading_zero := match ds with 0%N :: _ :: _ => true | _ => false end in
  if (length ds =? 0)%nat || (max_digits <? length ds)%nat then None
  else if (bound <? foldl (fun v d => v * radix + d) 0 ds)%N then None
  else if negb allow_zero_prefix && leading_zero then None
  else Some rest.

Definition read_given_char (c : ascii) (s : string) : option string := strip_prefix (String c "") s.

(** [Parser::read_separator]: the separator comes before every group but the first. *)
Definition read_separator (sep : ascii) (index : nat) (inner : string -> option string) (s : string) : option string :=
  match index with
  | O => inner s
  | S _ => read_given_char sep s ≫= inner
  end.

Definition read_octet : string -> option string := read_number 10 255 3 false.

Definition read_ipv4_addr (s : string) : option string :=
  s ← read_octet s;
  s ← read_separator "." 1 read_octet s;
  s ← read_separator "." 2 read_octet s;
  read_separator "." 3 read_octet s.

(** [read_groups]: how many of [slots] groups were read after the [index] before, whether an
    embedded IPv4 address ended them, and what follows. *)
Fixpoint read_groups (slots index : nat) (s : string) : nat * bool * string :=
  match slots with
  | O => (index, false, s)
  | S slots =>
      match (if (0 <? slots)%nat then read_separator ":" index read_ipv4_addr s else None) with
      | Some rest => (index + 2, true, rest)
      | None =>
          match read_separator ":" index (read_number 16 65535 4 true) s with
          | Some rest => read_groups slots (S index) rest
          | None => (index, false, s)
          end
      end
  end.

Definition read_ipv6_addr (s : string) : option string :=
  let '(head, v4, rest) := read_groups 8 0 s in
  if (head =? 8)%nat then Some rest
  else if v4 then None
  else rest ← read_given_char ":" rest;
       rest ← read_given_char ":" rest;
       let '(_, _, rest) := read_groups (8 - (head + 1)) 0 rest in
       Some rest.

Definition is_ip (s : string) : bool :=
  match or_else (read_ipv4_addr s) (read_ipv6_addr s) with Some rest => is_empty rest | None => false end.

(** ** The target *)

Definition u16_max : N := 65535.

Definition parse_u16 (s : string) : option N := opt_filter (fun n => (n <=? u16_max)%N) (parse_usize s).

(** [s.trim_end_matches(c)] for a one-byte pattern. *)
Definition trim_end_byte (c : ascii) (s : string) : string := rev_string (trim_start_byte c (rev_string s)).

Definition parse_target (target : string) : option (string * N) :=
  '(host, port) ← rsplit_once ":" target;
  port ← parse_u16 port;
  let host := trim_end_byte "]" (trim_start_byte "[" host) in
  host ← (if is_ip host then Some (to_ascii_lowercase host) else normalize_host host);
  Some (host, port).

(** ** The request line *)

Inductive Request :=
| Connect_to (host : string) (port : N)
| Bad_target (target : string)
| Not_connect (method target : string).

Definition request (head : string) : Request :=
  let words := split_whitespace (default "" (List.hd_error (lines head))) in
  let method := default "" (words !! 0%nat) in
  let target := default "" (words !! 1%nat) in
  if negb (String.eqb method "CONNECT") then Not_connect method target
  else match parse_target target with
       | Some (host, port) => Connect_to host port
       | None => Bad_target target
       end.

(** ** Answers *)

Definition respond (status body : string) : string :=
  let body := body +:+ newline in
  "HTTP/1.1 " +:+ status +:+ crlf +:+ "Content-Type: text/plain" +:+ crlf +:+ "Content-Length: "
  +:+ show_nat (String.length body) +:+ crlf +:+ "Connection: close" +:+ crlf +:+ crlf +:+ body.

Definition established : string := "HTTP/1.1 200 Connection established" +:+ crlf +:+ crlf.
Definition bad_request (message : string) : string := respond "400 Bad Request" message.
Definition method_not_allowed : string :=
  respond "405 Method Not Allowed" "only CONNECT is supported by the box egress proxy".
Definition refusal (host : string) (port : N) (reason : Denial) : string :=
  respond "403 Forbidden"
    (host +:+ ":" +:+ show_N port +:+ ": " +:+ Denial_display reason +:+ " by the box egress policy").
Definition gateway (message : string) : string := respond "502 Bad Gateway" message.

Example ip_literals :
  forallb is_ip ["127.0.0.1"; "::1"; "::"; "fe80::1"; "1:2:3:4:5:6:7:8"; "::ffff:1.2.3.4"; "1:2:3:4:5:6:1.2.3.4"] = true /\
  existsb is_ip [""; "1.2.3"; "01.2.3.4"; "256.1.1.1"; "1:2:3:4:5:6:7"; "1::2::3"; "1:2:3:4:5:6:7:8:9"; "::1%eth0"; "12345::"; "1.2.3.4:5"; "1.2.3.4::"] = false.
Proof. vm_compute. auto. Qed.

Example targets :
  parse_target "Example.com.:443" = Some ("example.com", 443%N) /\ parse_target "[::1]:80" = Some ("::1", 80%N) /\
  parse_target "example.com:65536" = None /\ parse_target "example.com" = None /\ parse_target "a..b:80" = None.
Proof. vm_compute. auto. Qed.

(** ** However a request is cut into reads *)

Lemma starts_with_app p s t : starts_with p s = true -> starts_with p (s +:+ t) = true.
Proof. rewrite !starts_with_true. intros [r ->]. exists (r +:+ t). by rewrite append_assoc. Qed.

Lemma starts_with_short p s t :
  (String.length p <= String.length s)%nat -> starts_with p (s +:+ t) = true -> starts_with p s = true.
Proof.
  unfold starts_with. revert s. induction p as [|a p IH]; intros [|b s]; cbn; [done..|lia|].
  intros Hl. rewrite append_cons. cbn. destruct (Ascii.eqb a b); [|done]. apply IH. lia.
Qed.

Lemma find_header_end_nil : find_header_end "" = None.
Proof. done. Qed.

Lemma find_header_end_cons b s :
  find_header_end (String b s) =
    if starts_with (crlf +:+ crlf) (String b s) then Some 4%nat else S <$> find_header_end s.
Proof. done. Qed.

(** The end found in a buffer stays the end as more arrives. *)
Lemma find_header_end_app s t e : find_header_end s = Some e -> find_header_end (s +:+ t) = Some e.
Proof.
  revert e. induction s as [|b s IH]; intros e; [done|]. rewrite append_cons, !find_header_end_cons.
  destruct (starts_with _ (String b s)) eqn:E.
  - intros [= <-]. eapply (starts_with_app _ _ t) in E. rewrite append_cons in E. by rewrite E.
  - destruct (starts_with _ (String b (s +:+ t))) eqn:E'.
    + destruct (find_header_end s) as [e'|] eqn:Es; [|done]. exfalso.
      rewrite (starts_with_short _ _ t) in E; [done| |by rewrite append_cons].
      specialize (IH e' eq_refl). clear -Es. revert e' Es.
      assert (forall s e, find_header_end s = Some e -> (4 <= String.length s)%nat) as Hl; [|intros e' ?%Hl; change (4 <= S (String.length s))%nat; lia].
      clear. induction s as [|b s IH]; [done|]. intros e. rewrite find_header_end_cons.
      destruct (starts_with _ _) eqn:E.
      * intros _. apply starts_with_true in E as [r ->]. rewrite length_append. change (String.length (crlf +:+ crlf)) with 4%nat. lia.
      * destruct (find_header_end s) as [e'|] eqn:Es; [|done]. specialize (IH _ eq_refl). cbn. lia.
    + destruct (find_header_end s) as [e'|]; [|done]. intros [= <-]. by rewrite (IH _ eq_refl).
Qed.

(** An end within the bytes already there is found in them. *)
Lemma find_header_end_inside s t e :
  find_header_end (s +:+ t) = Some e -> (e <= String.length s)%nat -> find_header_end s = Some e.
Proof.
  revert e. induction s as [|b s IH]; intros e.
  - intros H Hle. exfalso. cbn in Hle. destruct e; [|lia]. revert H. rewrite append_nil. clear.
    destruct t as [|b t]; [done|]. rewrite find_header_end_cons. destruct (starts_with _ _); [done|].
    by destruct (find_header_end t).
  - rewrite append_cons, !find_header_end_cons. intros H Hle.
    destruct (starts_with _ (String b (s +:+ t))) eqn:E'.
    + injection H as <-. rewrite (starts_with_short _ _ t); [done|exact Hle|by rewrite append_cons].
    + destruct (starts_with _ (String b s)) eqn:E.
      * apply (starts_with_app _ _ t) in E. rewrite append_cons in E. by rewrite E in E'.
      * destruct (find_header_end (s +:+ t)) as [e'|]; [|done]. injection H as <-.
        rewrite (IH e'); [done..|]. cbn in Hle. lia.
Qed.

Lemma split_at_app n s t : (n <= String.length s)%nat ->
  split_at n (s +:+ t) = ((split_at n s).1, (split_at n s).2 +:+ t).
Proof.
  revert s. induction n as [|n IH]; intros [|b s]; cbn; [done..|lia|].
  intros Hle. rewrite append_cons. cbn. rewrite IH by lia. by destruct (split_at n s).
Qed.

Lemma split_at_join n s : (split_at n s).1 +:+ (split_at n s).2 = s.
Proof.
  revert s. induction n as [|n IH]; intros [|b s]; cbn; [done..|]. specialize (IH s).
  destruct (split_at n s) as [x y]. cbn in *. by rewrite append_cons, IH.
Qed.

Lemma find_header_end_bound s e : find_header_end s = Some e -> (e <= String.length s)%nat.
Proof.
  revert e. induction s as [|b s IH]; intros e; [done|]. rewrite find_header_end_cons.
  destruct (starts_with _ _) eqn:E.
  - intros [= <-]. apply starts_with_true in E as [r ->]. rewrite length_append. change (String.length (crlf +:+ crlf)) with 4%nat. lia.
  - destruct (find_header_end s) as [e'|] eqn:Es; [|done]. intros [= <-]. specialize (IH _ eq_refl). cbn. lia.
Qed.

Lemma read_raw_done buf reads e : find_header_end buf = Some e -> read_raw buf reads = Some (Ok (split_at e buf)).
Proof. intros E. by destruct reads; cbn; rewrite E. Qed.

Lemma find_header_end_Some s e :
  find_header_end s = Some e -> exists a b, s = a +:+ (crlf +:+ crlf) +:+ b /\ e = (String.length a + 4)%nat.
Proof.
  revert e. induction s as [|x s IH]; intros e; [done|]. rewrite find_header_end_cons.
  destruct (starts_with _ _) eqn:E.
  - intros [= <-]. apply starts_with_true in E as [b ->]. by exists "", b.
  - destruct (find_header_end s) as [e'|]; [|done]. intros [= <-].
    destruct (IH _ eq_refl) as (a & b & -> & ->). by exists (String x a), b.
Qed.

Lemma find_header_end_None s a b : find_header_end s = None -> s <> a +:+ (crlf +:+ crlf) +:+ b.
Proof.
  intros Hn ->. induction a as [|x a IH]; [by rewrite append_nil in Hn|].
  rewrite append_cons, find_header_end_cons in Hn. destruct (starts_with _ _); [done|].
  by destruct (find_header_end (a +:+ _)); [|apply IH].
Qed.

(** A request's header, its empty line included: the first empty line is the one it ends with. *)
Definition is_header (h : string) : Prop :=
  (exists lines, h = lines +:+ (crlf +:+ crlf)) /\
  forall a b, h = a +:+ (crlf +:+ crlf) +:+ b -> b = "".

Lemma find_header_end_header h rest : is_header h -> find_header_end (h +:+ rest) = Some (String.length h).
Proof.
  intros [[lines Hl] Hfirst]. apply find_header_end_app. destruct (find_header_end h) as [e|] eqn:E.
  - apply find_header_end_Some in E as (a & b & Ha & ->). pose proof (Hfirst _ _ Ha) as ->.
    f_equal. by rewrite Ha, append_empty_r, length_append.
  - destruct (find_header_end_None _ lines "" E). by rewrite append_empty_r.
Qed.

Lemma split_at_append s t : split_at (String.length s) (s +:+ t) = (s, t).
Proof. induction s as [|b s IH]; [done|]. rewrite append_cons. cbn. by rewrite IH. Qed.

Lemma read_raw_header h leftover later :
  is_header h -> read_raw (h +:+ leftover) later = Some (Ok (h, leftover)).
Proof. intros Hh. rewrite (read_raw_done _ _ _ (find_header_end_header h leftover Hh)). by rewrite split_at_append. Qed.

(** A buffer shorter than the header that starts with it is read on. *)
Lemma read_raw_short h rest buf tail c later :
  is_header h -> h +:+ rest = buf +:+ tail -> (String.length buf < String.length h)%nat ->
  (String.length h <= MAX_HEADER)%nat -> c <> "" ->
  read_raw buf (Chunk c :: later) = read_raw (buf +:+ c) later.
Proof.
  intros Hh Heq Hlt Hle Hc. cbn [read_raw]. destruct (find_header_end buf) as [e|] eqn:E.
  - exfalso. pose proof (find_header_end_bound _ _ E). apply (find_header_end_app _ tail) in E.
    rewrite <-Heq, find_header_end_header in E by done. injection E as <-. lia.
  - rewrite (proj2 (Nat.leb_gt _ _)) by lia. by destruct c.
Qed.

Lemma append_prefix_le (h rest buf tail : string) :
  h +:+ rest = buf +:+ tail -> (String.length h <= String.length buf)%nat -> exists l, buf = h +:+ l.
Proof.
  revert buf. induction h as [|x h IH]; intros buf; [by exists buf|].
  destruct buf as [|y buf]; [cbn; lia|]. rewrite !append_cons. intros [= <- Heq] Hle.
  destruct (IH buf Heq) as [l ->]; [cbn in Hle; lia|]. by exists l.
Qed.

Lemma read_raw_chunks chunks buf h rest :
  Forall (fun c => c <> "") chunks -> is_header h -> (String.length h <= MAX_HEADER)%nat ->
  h +:+ rest = buf +:+ concat chunks ->
  exists n leftover, buf +:+ concat (take n chunks) = h +:+ leftover /\
    (forall m, (m < n)%nat -> (String.length (buf +:+ concat (take m chunks)) < String.length h)%nat) /\
    forall later, read_raw buf ((Chunk <$> take n chunks) ++ later) = Some (Ok (h, leftover)).
Proof.
  intros Hne Hh Hle. revert buf. induction Hne as [|c chunks Hc Hne IH]; intros buf Heq;
    destruct (decide (String.length h <= String.length buf)%nat) as [Hin|Hout].
  2: { exfalso. cbn in Heq. rewrite append_empty_r in Heq. subst buf. rewrite length_append in Hout. lia. }
  1, 2: destruct (append_prefix_le _ _ _ _ Heq Hin) as [l ->]; exists 0%nat, l; cbn [take concat foldr fmap list_fmap app];
    rewrite append_empty_r; split; [done|]; split; [lia|]; intros later; by apply read_raw_header.
  destruct (IH (buf +:+ c)) as (n & l & Hl & Hn & Hr); [by rewrite Heq, <-append_assoc|].
  exists (S n), l. cbn [take concat foldr fmap list_fmap app]. rewrite <-append_assoc in Hl.
  split; [exact Hl|]. split.
  - intros [|m] Hm; cbn [take concat foldr]; [rewrite append_empty_r; lia|].
    specialize (Hn m). rewrite <-append_assoc in Hn. apply Hn. lia.
  - intros later. rewrite (read_raw_short h rest _ _ _ _ Hh Heq) by (done || lia). apply Hr.
Qed.

(** (C29) However a request is cut into reads, a header that ends within [MAX_HEADER] bytes is the one
    read. The reads made are the fewest that hold it; the bytes of the last one past its end are the
    leftover, to the byte; and the answer is the same whatever the reads after it would return, so
    none of them is consumed. *)
Theorem header_read_however_cut chunks h rest :
  Forall (fun c => c <> "") chunks -> concat chunks = h +:+ rest ->
  is_header h -> (String.length h <= MAX_HEADER)%nat ->
  exists n leftover,
    concat (take n chunks) = h +:+ leftover /\
    (forall m, (m < n)%nat -> (String.length (concat (take m chunks)) < String.length h)%nat) /\
    forall later, read_header ((Chunk <$> take n chunks) ++ later) = Some (Ok (from_utf8_lossy h, leftover)).
Proof.
  intros Hne Heq Hh Hle. destruct (read_raw_chunks chunks "" h rest) as (n & l & Hl & Hn & Hr); [done..|].
  exists n, l. rewrite append_nil in Hl. split; [done|]. split; [exact Hn|].
  intros later. unfold read_header. by rewrite Hr.
Qed.

(** Tested on a header: the empty line nowhere but at its end. *)
Lemma is_header_end h : find_header_end h = Some (String.length h) -> is_header h.
Proof.
  intros E. split.
  - pose proof (find_header_end_Some _ _ E) as (a & b & Ha & Hl). exists a. rewrite Ha in Hl |- *.
    rewrite !length_append in Hl. change (String.length crlf) with 2%nat in Hl.
    destruct b; [by rewrite append_empty_r|]. cbn [String.length] in Hl. lia.
  - intros a b Ha. assert (find_header_end (a +:+ (crlf +:+ crlf)) = None -> False) as Hs.
    { intros Hn. apply (find_header_end_None _ a "" Hn). by rewrite append_empty_r. }
    destruct (find_header_end (a +:+ (crlf +:+ crlf))) as [e|] eqn:Ee; [|done].
    pose proof (find_header_end_bound _ _ Ee) as Hb. apply (find_header_end_app _ b) in Ee.
    rewrite <-append_assoc, <-Ha, E in Ee. injection Ee as <-. rewrite Ha, !length_append in Hb.
    destruct b; [done|]. cbn [String.length] in Hb. lia.
Qed.

Lemma header_read_however_cut_witness :
  exists n leftover,
    concat (take n ["CONNECT a:80 HTTP/1.1" +:+ bytes [13]%N; bytes [10; 13]%N; newline +:+ "hi"; "more"]) =
      ("CONNECT a:80 HTTP/1.1" +:+ crlf +:+ crlf) +:+ leftover /\ n = 3 /\ leftover = "hi".
Proof.
  destruct (header_read_however_cut
    ["CONNECT a:80 HTTP/1.1" +:+ bytes [13]%N; bytes [10; 13]%N; newline +:+ "hi"; "more"]
    ("CONNECT a:80 HTTP/1.1" +:+ crlf +:+ crlf) "himore") as (n & l & Hl & Hn & _);
    [repeat constructor; discriminate|vm_compute; reflexivity|apply is_header_end; vm_compute; reflexivity
    |apply Nat.leb_le; vm_compute; reflexivity|].
  exists n, l. split; [exact Hl|].
  destruct n as [|[|[|[|n]]]]; [vm_compute in Hl; discriminate..| |].
  - split; [reflexivity|]. vm_compute in Hl. by injection Hl.
  - specialize (Hn 3 ltac:(lia)). apply Nat.ltb_lt in Hn. vm_compute in Hn. discriminate.
Defined.

Definition read_size_ok (r : Read) : Prop :=
  match r with Chunk data => (String.length data <= CHUNK)%nat | ReadErr _ => True end.

Lemma read_raw_bound reads buf h l : Forall read_size_ok reads ->
  (String.length buf < MAX_HEADER + CHUNK)%nat -> read_raw buf reads = Some (Ok (h, l)) ->
  (String.length (h +:+ l) < MAX_HEADER + CHUNK)%nat.
Proof.
  intros Hr. revert buf. induction Hr as [|r reads Hr Hrs IH]; intros buf Hb; cbn [read_raw];
    (destruct (find_header_end buf) as [e|];
     [intros [= Hs]; pose proof (split_at_join e buf) as E; rewrite Hs in E; cbn in E; by rewrite E|]);
    destruct (Nat.leb_spec MAX_HEADER (String.length buf)); [done..|].
  destruct r as [[|b c]|]; [done| |done]. apply IH. rewrite length_append. cbn [read_size_ok] in Hr. lia.
Qed.

(** What one connection can make the proxy keep while its header is read is bounded, whatever it sends. *)
Theorem header_is_bounded reads h l : Forall read_size_ok reads -> read_raw "" reads = Some (Ok (h, l)) ->
  (String.length (h +:+ l) < MAX_HEADER + CHUNK)%nat.
Proof. intros Hr. apply read_raw_bound; [done|]. cbn [String.length]. unfold MAX_HEADER. lia. Qed.

Lemma header_is_bounded_witness : (String.length ((crlf +:+ crlf) +:+ "x") < MAX_HEADER + CHUNK)%nat.
Proof.
  apply (header_is_bounded [Chunk (crlf +:+ crlf +:+ "x")]); [|vm_compute; reflexivity].
  constructor; [|constructor]. apply Nat.leb_le. vm_compute. reflexivity.
Defined.

Lemma read_raw_ends reads buf :
  (MAX_HEADER <= String.length buf + length reads)%nat -> read_raw buf reads <> None.
Proof.
  revert buf. induction reads as [|r reads IH]; intros buf Hle; cbn [read_raw];
    (destruct (find_header_end buf); [done|]);
    destruct (Nat.leb_spec MAX_HEADER (String.length buf)); try done; [cbn [length] in Hle; lia|].
  destruct r as [[|b c]|]; [done| |done]. apply IH. rewrite length_append. cbn [length String.length] in *. lia.
Qed.

(** A client cannot keep the proxy reading: [MAX_HEADER] reads decide, whatever they return. *)
Theorem header_is_decided reads : (MAX_HEADER <= length reads)%nat -> is_some (read_header reads) = true.
Proof.
  intros Hle. unfold read_header. pose proof (read_raw_ends reads "" ltac:(cbn [String.length]; lia)).
  by destruct (read_raw "" reads) as [[[]|]|].
Qed.

Lemma header_is_decided_witness : is_some (read_header (replicate MAX_HEADER (Chunk "x"))) = true.
Proof. apply (header_is_decided (replicate MAX_HEADER (Chunk "x"))). by rewrite length_replicate. Defined.

(** ** Targets *)

(** What a target names: an IP literal in lower case, or a normal host name. *)
Definition target_host (host : string) : Prop :=
  (exists h, is_ip h = true /\ host = to_ascii_lowercase h) \/ normal host = true.

Lemma parse_u16_bound s n : parse_u16 s = Some n -> (n <= u16_max)%N.
Proof. unfold parse_u16. rewrite opt_filter_Some. intros [_ H]. by apply N.leb_le. Qed.

Lemma parse_target_shape t host port : parse_target t = Some (host, port) -> target_host host /\ (port <= u16_max)%N.
Proof.
  unfold parse_target. destruct (rsplit_once _ _) as [[h p]|]; [|done]. cbn.
  destruct (parse_u16 p) as [n|] eqn:E; [|done]. cbn. apply parse_u16_bound in E.
  destruct (is_ip _) eqn:Ei; cbn.
  - intros [= <- <-]. split; [left; eauto|done].
  - destruct (normalize_host _) as [nh|] eqn:En; [|done]. intros [= <- <-]. split; [|done].
    right. by eapply normalize_normal.
Qed.

Lemma rsplit_once_app c s t : free_of c t = true -> rsplit_once c (s +:+ String c t) = Some (s, t).
Proof.
  intros Ht. assert (rsplit_once c t = None) as E.
  { clear s. revert Ht. induction t as [|b t IH]; [done|]. cbn [free_of rsplit_once]. intros [Hb Ht]%andb_true_iff.
    rewrite (IH Ht). apply negb_true_iff in Hb. by rewrite Hb. }
  induction s as [|b s IH]; [rewrite append_nil|rewrite append_cons]; cbn [rsplit_once].
  - by rewrite E, Ascii.eqb_refl.
  - by rewrite IH.
Qed.

Lemma strip_sign_digits n : strip_sign (show_N n) = show_N n.
Proof. unfold show_N, NilZero.string_of_uint, strip_sign. by destruct (N.to_uint n). Qed.

Lemma show_N_no_colon n : free_of ":"%char (show_N n) = true.
Proof. rewrite <-show_N_digits. generalize (N.to_uint n) as d. induction d; cbn; auto. Qed.

Lemma parse_u16_show n : (n <= u16_max)%N -> parse_u16 (show_N n) = Some n.
Proof.
  intros Hn. unfold parse_u16, parse_usize. rewrite strip_sign_digits, parse_digits_show. cbn [opt_filter].
  rewrite (proj2 (N.leb_le n usize_max)) by (unfold u16_max, usize_max in *; lia). cbn [opt_filter].
  by rewrite (proj2 (N.leb_le _ _)).
Qed.

Lemma trim_start_byte_id c s : free_of c s = true -> trim_start_byte c s = s.
Proof. destruct s as [|b s]; [done|]. cbn. intros [Hb _]%andb_true_iff. apply negb_true_iff in Hb. by rewrite Hb. Qed.

Lemma free_of_list c s : free_of c s = true <-> Forall (fun b => b <> c) (String.list_ascii_of_string s).
Proof.
  induction s as [|b s IH]; cbn; [done|]. rewrite andb_true_iff, Forall_cons, IH, negb_true_iff.
  by rewrite Ascii.eqb_neq.
Qed.

Lemma trim_end_byte_id c s : free_of c s = true -> trim_end_byte c s = s.
Proof.
  intros Hs. unfold trim_end_byte. rewrite trim_start_byte_id; [apply rev_string_involutive|].
  rewrite free_of_list in *. rewrite rev_string_list. by apply Forall_rev.
Qed.

Lemma host_free_of c s : all_bytes host_byte s = true -> host_byte c = false -> free_of c s = true.
Proof.
  intros Hs Hc. apply free_of_list. apply all_bytes_Forall in Hs. eapply Forall_impl; [done|].
  cbn. intros b Hb ->. by rewrite Hb in Hc.
Qed.

(** A normal host and any port written as a target come back as they are. *)
Theorem target_roundtrip host port : normal host = true -> (port <= u16_max)%N ->
  parse_target (host +:+ ":" +:+ show_N port) = Some (host, port).
Proof.
  intros Hn Hp. pose proof (normalize_of_normal _ Hn) as Hnorm. apply andb_true_iff in Hn as [Hpl Hlow].
  apply String.eqb_eq in Hlow. apply plausible_bytes in Hpl. unfold parse_target.
  change (":" +:+ show_N port) with (String ":"%char (show_N port)).
  rewrite rsplit_once_app by apply show_N_no_colon. cbn. rewrite parse_u16_show by done. cbn.
  rewrite trim_start_byte_id, trim_end_byte_id by (by apply host_free_of).
  destruct (is_ip host); cbn; [by rewrite Hlow|by rewrite Hnorm].
Qed.

Lemma target_roundtrip_witness : parse_target "registry.npmjs.org:443" = Some ("registry.npmjs.org", 443%N).
Proof. apply (target_roundtrip "registry.npmjs.org" 443); [vm_compute; reflexivity|unfold u16_max; lia]. Defined.
