(* ===== verification/Egress.v ===== *)
(** * The egress proxy

    [src/crates/fletch-box/src/egress/mod.rs] as a transition system. [Shared] is what the
    connections consult; each of its parts is behind a lock of its own, so a decision is three
    reads with other tasks in between, and an update is two writes and a tick. [run] is a
    connection's next step from where it is ([Pc]); the engine's calls, the client, the upstream and
    the clock are the other [Label]s. A hold's connections, the wake-ups and the end of every hold
    are stated over the reachable states in EgressHold.v, the licence of a tunnel in
    EgressLicence.v. *)

From S2P Require Import Prelude RustStr RustText EgressPolicy EgressRequest.

Local Open Scope string_scope.
Local Open Scope list_scope.

(** ** Data *)

Inductive Mode := MOpen | MOverride | MHold | MRefuse.

Inductive Admission := Listed | ByOpen | ByOverride.

Inductive EgressEvent :=
| Allowed (host : string) (port : N) (admission : Admission) (bytes_up bytes_down : N)
| Denied (host : string) (port : N) (reason : Denial)
| Held (hold : N) (host : string) (port : N)
| HoldEnded (hold : N) (host : string) (port : N) (admitted : bool)
| Error (host : option string) (message : string).

#[export] Instance Mode_dec : EqDecision Mode.
Proof. solve_decision. Defined.
#[export] Instance Admission_dec : EqDecision Admission.
Proof. solve_decision. Defined.
#[export] Instance EgressEvent_dec : EqDecision EgressEvent.
Proof. solve_decision. Defined.

(** Times are in milliseconds. *)
Definition HOLD_TIMEOUT : Z := 60000.
Definition MAX_HELD_HOSTS : nat := 4.

Record Hold := mkHold {
  h_id : N;
  h_since : Z;
  h_port : N;
  h_waiting : nat;
}.

(** [open_] is false once the proxy, and with it the sender of [generation], is gone. *)
Record Shared := mkShared {
  policy : EgressPolicy;
  mode : Mode;
  declined : gset string;
  held : gmap string Hold;
  generation : N;
  open_ : bool;
  hold_timeout : Z;
}.

Definition set_policy (p : EgressPolicy) (s : Shared) : Shared :=
  mkShared p (mode s) (declined s) (held s) (generation s) (open_ s) (hold_timeout s).
Definition set_mode (m : Mode) (s : Shared) : Shared :=
  mkShared (policy s) m (declined s) (held s) (generation s) (open_ s) (hold_timeout s).
Definition insert_declined (h : string) (s : Shared) : Shared :=
  mkShared (policy s) (mode s) ({[h]} ∪ declined s) (held s) (generation s) (open_ s) (hold_timeout s).
Definition set_held (hs : gmap string Hold) (s : Shared) : Shared :=
  mkShared (policy s) (mode s) (declined s) hs (generation s) (open_ s) (hold_timeout s).
Definition bump (s : Shared) : Shared :=
  mkShared (policy s) (mode s) (declined s) (held s) (generation s + 1)%N (open_ s) (hold_timeout s).
Definition close (s : Shared) : Shared :=
  mkShared (policy s) (mode s) (declined s) (held s) (generation s) false (hold_timeout s).

Definition is_declined (s : Shared) (host : string) : bool := bool_decide (host ∈ declined s).

(** ** Holds *)

(** [HOLD_IDS.fetch_add(1) + 1]. The counter is 64 bits wide; the model's does not wrap, which takes
    more holds than a process can start. *)
Definition next_hold_id (ids : N) : N := (ids + 1)%N.

Record Joined := mkJoined {
  j_id : N;
  j_since : Z;
  j_first : bool;
}.

(** The place given, with the holds and the id counter after. *)
Definition join_hold (now : Z) (ids : N) (hs : gmap string Hold) (host : string) (port : N) :
    option (Joined * gmap string Hold * N) :=
  match hs !! host with
  | Some hold =>
      Some (mkJoined (h_id hold) (h_since hold) false,
            <[host := mkHold (h_id hold) (h_since hold) (h_port hold) (S (h_waiting hold))]> hs, ids)
  | None =>
      if (MAX_HELD_HOSTS <=? size hs)%nat then None
      else let id := next_hold_id ids in
           Some (mkJoined id now true, <[host := mkHold id now port 1]> hs, id)
  end.

(** The port when this was the last connection of the hold, with the holds after. *)
Definition leave_hold (hs : gmap string Hold) (host : string) : option N * gmap string Hold :=
  match hs !! host with
  | None => (None, hs)
  | Some hold =>
      let waiting := (h_waiting hold - 1)%nat in
      if (0 <? waiting)%nat
      then (None, <[host := mkHold (h_id hold) (h_since hold) (h_port hold) waiting]> hs)
      else (Some (h_port hold), delete host hs)
  end.

(** [held_hosts]: sorted. *)
Definition held_hosts (s : Shared) : list string := sort_str (map_to_list (held s)).*1.

(** ** Decisions *)

Inductive Verdict :=
| Allow (admission : Admission)
| Refuse (reason : Denial)
| Hold_it.

(** What the mode answers for a host that is neither listed nor declined. *)
Definition by_mode (m : Mode) (host : string) : Verdict :=
  match m with
  | MOpen => Allow ByOpen
  | MOverride => Allow ByOverride
  | MRefuse => Refuse DenyHost
  | MHold => if is_quiet host then Refuse DenyHost else Hold_it
  end.

(** [decide], its three reads at one moment. *)
Definition decide_now (s : Shared) (host : string) (port : N) : Verdict :=
  match check (policy s) host port with
  | Ok _ => Allow Listed
  | Err DenyPort => Refuse DenyPort
  | Err DenyHost => if is_declined s host then Refuse DenyHost else by_mode (mode s) host
  end.

(** ** A connection *)

(** Who asked for the decision: [serve], or the loop of [hold] with the hold's id, its start and
    the generation seen last. *)
Inductive Where :=
| InServe
| InHold (id : N) (since : Z) (seen : N).

(** Where a connection with a target is. *)
Inductive Pc :=
| Check (w : Where)
| CheckDeclined (w : Where)
| ReadMode (w : Where)
| Subscribe
| Join (seen : N)
| Announce (id : N) (since : Z) (seen : N)
| Wait (id : N) (since : Z) (seen : N)
| Leave (id : N) (admitted : option Admission)
| End_ (id port : N) (admitted : option Admission)
| Refusing (reason : Denial)
| Connect (admission : Admission)
| Tunnel (admission : Admission)
| Done.

Inductive Conn :=
| Reading
| On (host : string) (port : N) (pc : Pc)
| Gone.

#[export] Instance Where_dec : EqDecision Where.
Proof. solve_decision. Defined.
#[export] Instance Pc_dec : EqDecision Pc.
Proof. solve_decision. Defined.

(** What an update or a decline has still to do after its first write. *)
Inductive Op := WriteMode (m : Mode) | Bump.

(** [events] are newest first; [replies] is what was written to each client, newest first. *)
Record State := mkState {
  shared : Shared;
  hold_ids : N;
  now : Z;
  conns : gmap nat Conn;
  ops : gmap nat Op;
  events : list EgressEvent;
  replies : list (nat * string);
}.

Definition with_shared (f : Shared -> Shared) (s : State) : State :=
  mkState (f (shared s)) (hold_ids s) (now s) (conns s) (ops s) (events s) (replies s).
Definition with_conn (c : nat) (x : Conn) (s : State) : State :=
  mkState (shared s) (hold_ids s) (now s) (<[c := x]> (conns s)) (ops s) (events s) (replies s).
Definition with_ops (o : gmap nat Op) (s : State) : State :=
  mkState (shared s) (hold_ids s) (now s) (conns s) o (events s) (replies s).
Definition with_ids (n : N) (s : State) : State :=
  mkState (shared s) n (now s) (conns s) (ops s) (events s) (replies s).
Definition with_now (t : Z) (s : State) : State :=
  mkState (shared s) (hold_ids s) t (conns s) (ops s) (events s) (replies s).
Definition emit (e : EgressEvent) (s : State) : State :=
  mkState (shared s) (hold_ids s) (now s) (conns s) (ops s) (e :: events s) (replies s).
Definition reply (c : nat) (text : string) (s : State) : State :=
  mkState (shared s) (hold_ids s) (now s) (conns s) (ops s) (events s) ((c, text) :: replies s).

(** What the asker of a decision does with its verdict. *)
Definition answer (w : Where) (v : Verdict) : Pc :=
  match w, v with
  | InServe, Allow admission => Connect admission
  | InServe, Refuse reason => Refusing reason
  | InServe, Hold_it => Subscribe
  | InHold id since seen, Allow admission => Leave id (Some admission)
  | InHold id since seen, Refuse _ => Leave id None
  | InHold id since seen, Hold_it => Wait id since seen
  end.

(** What [serve] does with the result of [hold]. *)
Definition after_hold (admitted : option Admission) : Pc :=
  match admitted with
  | Some admission => Connect admission
  | None => Refusing DenyHost
  end.

(** The next step of a connection to [host:port] at [pc]; [None] when it waits. *)
Definition run_pc (c : nat) (host : string) (port : N) (pc : Pc) (s : State) : option State :=
  let sh := shared s in
  let go pc' := with_conn c (On host port pc') in
  match pc with
  | Check w =>
      Some (match check (policy sh) host port with
            | Ok _ => go (answer w (Allow Listed)) s
            | Err DenyPort => go (answer w (Refuse DenyPort)) s
            | Err DenyHost => go (CheckDeclined w) s
            end)
  | CheckDeclined w =>
      Some (if is_declined sh host then go (answer w (Refuse DenyHost)) s else go (ReadMode w) s)
  | ReadMode w => Some (go (answer w (by_mode (mode sh) host)) s)
  | Subscribe => Some (go (Join (generation sh)) s)
  | Join seen =>
      Some (match join_hold (now s) (hold_ids s) (held sh) host port with
            | None => go (Refusing DenyHost) s
            | Some (j, hs, ids) =>
                go (if j_first j then Announce (j_id j) (j_since j) seen
                    else Check (InHold (j_id j) (j_since j) seen))
                   (with_ids ids (with_shared (set_held hs) s))
            end)
  | Announce id since seen => Some (go (Check (InHold id since seen)) (emit (Held id host port) s))
  | Wait id since seen =>
      if negb (N.eqb seen (generation sh)) then Some (go (Check (InHold id since (generation sh))) s)
      else if negb (open_ sh) || (since + hold_timeout sh <=? now s)%Z then Some (go (Leave id None) s)
      else None
  | Leave id admitted =>
      let '(ended, hs) := leave_hold (held sh) host in
      Some (go (match ended with Some port' => End_ id port' admitted | None => after_hold admitted end)
               (with_shared (set_held hs) s))
  | End_ id port' admitted =>
      Some (go (after_hold admitted) (emit (HoldEnded id host port' (is_some admitted)) s))
  | Refusing reason =>
      Some (go Done (reply c (refusal host port reason) (emit (Denied host port reason) s)))
  | Connect _ | Tunnel _ | Done => None
  end.

Definition run (c : nat) (s : State) : option State :=
  match conns s !! c with
  | Some (On host port pc) => run_pc c host port pc s
  | _ => None
  end.

(** ** The world *)

(** How reading the header ended: [None] is the timeout. *)
Definition HeaderOutcome := option (result (string * string) string).

(** What the upstream, then the client, made of an admitted connection. *)
Inductive Reached :=
| Connected
| Unreachable (message : string)
| ClientGone.

(** How an open tunnel ended: the copy's byte counts, or the write of the leftover failed. *)
Inductive Ended :=
| Copied (bytes_up bytes_down : N)
| LeftoverLost.

Inductive Label :=
| LAccept (c : nat)
| LHeader (c : nat) (outcome : HeaderOutcome)
| LRun (c : nat)
| LReach (c : nat) (r : Reached)
| LEnd (c : nat) (e : Ended)
| LUpdate (o : nat) (p : EgressPolicy) (m : Mode)
| LDecline (o : nat) (host : string)
| LOp (o : nat)
| LDrop
| LTick (d : Z)
| LOtherHold.

(** The start of [serve], up to the first decision. *)
Definition serve_header (c : nat) (outcome : HeaderOutcome) (s : State) : State :=
  match outcome with
  | None => with_conn c Gone s
  | Some (Err e) =>
      with_conn c Gone (reply c (bad_request e) (emit (Error None ("bad request: " +:+ e)) s))
  | Some (Ok (head, _)) =>
      match request head with
      | Not_connect method target =>
          with_conn c Gone (reply c method_not_allowed
            (emit (Error None ("refused " +:+ method +:+ " " +:+ target +:+ ": only CONNECT is supported")) s))
      | Bad_target target =>
          with_conn c Gone (reply c (bad_request "CONNECT needs host:port")
            (emit (Error None ("bad CONNECT target " +:+ debug_str target)) s))
      | Connect_to host port => with_conn c (On host port (Check InServe)) s
      end
  end.

(** [serve] from its connect to the end of the tunnel's set-up. *)
Definition reach (c : nat) (host : string) (port : N) (admission : Admission) (r : Reached) (s : State) : State :=
  match r with
  | Connected => with_conn c (On host port (Tunnel admission)) (reply c established s)
  | Unreachable message =>
      with_conn c (On host port Done) (reply c (gateway message)
        (emit (Error (Some host) (host +:+ ":" +:+ show_N port +:+ ": " +:+ message)) s))
  | ClientGone => with_conn c (On host port Done) s
  end.

Definition end_tunnel (c : nat) (host : string) (port : N) (admission : Admission) (e : Ended) (s : State) : State :=
  match e with
  | Copied up down => with_conn c (On host port Done) (emit (Allowed host port admission up down) s)
  | LeftoverLost => with_conn c (On host port Done) s
  end.

(** [update]: the policy, then the mode, then the tick, each under its own lock. *)
Definition update (o : nat) (p : EgressPolicy) (m : Mode) (s : State) : State :=
  with_ops (<[o := WriteMode m]> (ops s)) (with_shared (set_policy p) s).

(** [decline]: the insertion, then the tick. *)
Definition decline (o : nat) (host : string) (s : State) : State :=
  match normalize_host host with
  | None => s
  | Some host => with_ops (<[o := Bump]> (ops s)) (with_shared (insert_declined host) s)
  end.

(** The rest of a call in progress. *)
Definition run_op (o : nat) (s : State) : option State :=
  op ← ops s !! o;
  Some (match op with
        | WriteMode m => with_ops (<[o := Bump]> (ops s)) (with_shared (set_mode m) s)
        | Bump => with_ops (delete o (ops s)) (with_shared bump s)
        end).

(** [Drop] takes the proxy, so no call on it is in progress. Other proxies of the process take ids
    of the one counter ([LOtherHold]). *)
Definition step (l : Label) (s : State) : option State :=
  match l with
  | LAccept c => match conns s !! c with None => Some (with_conn c Reading s) | Some _ => None end
  | LHeader c outcome =>
      match conns s !! c with Some Reading => Some (serve_header c outcome s) | _ => None end
  | LRun c => run c s
  | LReach c r =>
      match conns s !! c with
      | Some (On host port (Connect admission)) => Some (reach c host port admission r s)
      | _ => None
      end
  | LEnd c e =>
      match conns s !! c with
      | Some (On host port (Tunnel admission)) => Some (end_tunnel c host port admission e s)
      | _ => None
      end
  | LUpdate o p m =>
      match open_ (shared s), ops s !! o with true, None => Some (update o p m s) | _, _ => None end
  | LDecline o host =>
      match open_ (shared s), ops s !! o with true, None => Some (decline o host s) | _, _ => None end
  | LOp o => run_op o s
  | LDrop => if open_ (shared s) && bool_decide (ops s = ∅) then Some (with_shared close s) else None
  | LTick d => if (0 <=? d)%Z then Some (with_now (now s + d)%Z s) else None
  | LOtherHold => Some (with_ids (next_hold_id (hold_ids s)) s)
  end.

(** [EgressProxy::start_with_timeout]. *)
Definition start_with_timeout (p : EgressPolicy) (m : Mode) (timeout : Z) (ids : N) (t : Z) : State :=
  mkState (mkShared p m ∅ ∅ 0 true timeout) ids t ∅ ∅ [] [].

Definition start (p : EgressPolicy) (m : Mode) : N -> Z -> State := start_with_timeout p m HOLD_TIMEOUT.

(** A run of the proxy: the states it went through, newest first, and the one it is in. *)
Inductive trace : list State -> State -> Prop :=
| TrStart p m timeout ids t : trace [] (start_with_timeout p m timeout ids t)
| TrStep past s l s' : trace past s -> step l s = Some s' -> trace (s :: past) s'.

Definition reachable (s : State) : Prop := exists past, trace past s.

(** A list of labels run in order. *)
Fixpoint steps (ls : list Label) (s : State) : option State :=
  match ls with
  | [] => Some s
  | l :: ls => s ← step l s; steps ls s
  end.

Lemma steps_reachable ls s s' : reachable s -> steps ls s = Some s' -> reachable s'.
Proof.
  revert s. induction ls as [|l ls IH]; cbn; intros s Hr; [by intros [= <-]|].
  destruct (step l s) as [s1|] eqn:E; [|done]. apply IH. destruct Hr as [past Ht].
  exists (s :: past). by econstructor.
Qed.

Lemma start_reachable p m timeout ids t : reachable (start_with_timeout p m timeout ids t).
Proof. exists []. constructor. Qed.

(** Rule induction over the reachable states. *)
Lemma reachable_ind (P : State -> Prop) :
  (forall p m timeout ids t, P (start_with_timeout p m timeout ids t)) ->
  (forall s l s', reachable s -> P s -> step l s = Some s' -> P s') ->
  forall s, reachable s -> P s.
Proof.
  intros H0 HS s [past Ht]. induction Ht as [|past s l s' Ht IH E]; [apply H0|].
  eapply HS; [by exists past|done..].
Qed.

(** With nothing in between, a decision's three reads are [decide_now]. *)
Theorem decision_is_decide_now c host port w s :
  exists n, (1 <= n <= 3)%nat /\
    steps (replicate n (LRun c)) (with_conn c (On host port (Check w)) s) =
      Some (with_conn c (On host port (answer w (decide_now (shared s) host port))) s).
Proof.
  unfold decide_now.
  assert (forall x y : Conn, with_conn c x (with_conn c y s) = with_conn c x s) as Hw.
  { intros. unfold with_conn. cbn. by rewrite insert_insert_eq. }
  assert (forall pc, run c (with_conn c (On host port pc) s) = run_pc c host port pc (with_conn c (On host port pc) s)) as Hr.
  { intros. unfold run. cbn. by rewrite lookup_insert_eq. }
  destruct (check (policy (shared s)) host port) as [u|[]] eqn:Ec.
  - exists 1%nat. split; [lia|]. cbn [replicate steps step]. rewrite Hr. cbn. by rewrite Ec, Hw.
  - destruct (is_declined (shared s) host) eqn:Ed.
    + exists 2%nat. split; [lia|]. cbn [replicate steps step]. rewrite Hr. cbn. rewrite Ec, Hw, Hr. cbn.
      by rewrite Ed, Hw.
    + exists 3%nat. split; [lia|]. cbn [replicate steps step]. rewrite Hr. cbn. rewrite Ec, Hw, Hr. cbn.
      rewrite Ed, Hw, Hr. cbn. by rewrite Hw.
  - exists 1%nat. split; [lia|]. cbn [replicate steps step]. rewrite Hr. cbn. by rewrite Ec, Hw.
Qed.

(** ** A run *)

Fixpoint play (ls : list Label) (past : list State) (s : State) : option (list State * State) :=
  match ls with
  | [] => Some (past, s)
  | l :: ls => s' ← step l s; play ls (s :: past) s'
  end.

Lemma play_trace ls past s past' s' : trace past s -> play ls past s = Some (past', s') -> trace past' s'.
Proof.
  revert past s. induction ls as [|l ls IH]; cbn; intros past s Ht; [by intros [= <- <-]|].
  destruct (step l s) as [s1|] eqn:E; [|done]. apply IH. by econstructor.
Qed.

Lemma play_reachable ls past s past' s' : trace past s -> play ls past s = Some (past', s') -> reachable s'.
Proof. intros Ht H. exists past'. by eapply play_trace. Qed.

Definition demo_start : State := start (mkEgressPolicy [] DEFAULT_PORTS) MHold 0 0.

Definition demo_head : HeaderOutcome :=
  read_header [Chunk ("CONNECT example.com:443 HTTP/1.1" +:+ crlf); Chunk crlf].

(** One connection is held on a host no list has. *)
Definition demo_held : list Label :=
  [LAccept 0; LHeader 0 demo_head] ++ replicate 9 (LRun 0).

(** Then a list gets it. *)
Definition demo_allowed : list Label :=
  [LUpdate 0 (mkEgressPolicy [Exact "example.com"] DEFAULT_PORTS) MHold; LOp 0; LOp 0] ++ replicate 4 (LRun 0)
  ++ [LReach 0 Connected].

(** Or the engine declines it, and stops holding nothing: a second connection comes later. *)
Definition demo_declined : list Label :=
  [LDecline 0 "Example.com."; LOp 0] ++ replicate 6 (LRun 0)
  ++ [LAccept 1; LTick 1; LUpdate 0 (mkEgressPolicy [Exact "example.com"] DEFAULT_PORTS) MOpen; LOp 0; LOp 0;
      LHeader 1 demo_head; LRun 1; LReach 1 Connected].

Definition demo (ls : list Label) : list State * State := default ([], demo_start) (play ls [] demo_start).

Lemma demo_trace ls : is_some (play ls [] demo_start) = true -> trace (demo ls).1 (demo ls).2.
Proof.
  intros H. apply is_some_true in H as [[past s] E]. unfold demo. rewrite E. cbn.
  by eapply play_trace; [apply TrStart|].
Qed.

Lemma proxy_reachable ls : is_some (play ls [] demo_start) = true -> reachable (demo ls).2.
Proof. intros H. eexists. by apply demo_trace. Qed.

Example demo_waits : conns (demo demo_held).2 !! 0%nat = Some (On "example.com" 443 (Wait 1 0 0)) /\
  events (demo demo_held).2 = [Held 1 "example.com" 443] /\ held_hosts (shared (demo demo_held).2) = ["example.com"].
Proof. vm_compute. auto. Qed.
