(* ===== verification/EgressHold.v ===== *)
(** * Holds

    Over the reachable states of the proxy: a hold counts its connections, at most
    [MAX_HELD_HOSTS] hosts are held, each hold is announced once and ended at most once after that,
    no wake-up is lost, and once the proxy is gone every hold ends. *)

From S2P Require Import Prelude RustStr RustText EgressPolicy EgressRequest Egress.

Local Open Scope string_scope.
Local Open Scope list_scope.

(** ** Who is in a hold *)

Definition where_id (w : Where) : option N :=
  match w with InServe => None | InHold id _ _ => Some id end.

Definition in_hold (pc : Pc) : option N :=
  match pc with
  | Check w | CheckDeclined w | ReadMode w => where_id w
  | Announce id _ _ | Wait id _ _ | Leave id _ => Some id
  | _ => None
  end.

(** The hold a connection is in: its host and the hold's id. *)
Definition mark (x : Conn) : option (string * N) :=
  match x with On host _ pc => (fun id => (host, id)) <$> in_hold pc | _ => None end.

Definition in_hold_on (host : string) (x : Conn) : bool :=
  match mark x with Some (h, _) => String.eqb h host | None => false end.

Definition holders (host : string) (m : gmap nat Conn) : gmap nat Conn :=
  filter (fun kv => in_hold_on host kv.2 = true) m.

(** The accounting of the holds. *)
Record acc (hs : gmap string Hold) (ids : N) (m : gmap nat Conn) : Prop := {
  acc_count : forall host,
    size (holders host m) = match hs !! host with Some h => h_waiting h | None => 0 end;
  acc_pos : forall host h, hs !! host = Some h -> (0 < h_waiting h)%nat;
  acc_mark : forall c x host id, m !! c = Some x -> mark x = Some (host, id) ->
    exists h, hs !! host = Some h /\ h_id h = id;
  acc_max : (size hs <= MAX_HELD_HOSTS)%nat;
  acc_ids : forall host h, hs !! host = Some h -> (h_id h <= ids)%N;
  acc_inj : forall host1 host2 h1 h2, hs !! host1 = Some h1 -> hs !! host2 = Some h2 ->
    h_id h1 = h_id h2 -> host1 = host2;
}.

Lemma holders_insert_new host c x m : m !! c = None ->
  size (holders host (<[c := x]> m)) = (size (holders host m) + Nat.b2n (in_hold_on host x))%nat.
Proof.
  intros Hn. unfold holders. destruct (in_hold_on host x) eqn:E; cbn.
  - rewrite map_filter_insert_True by done. rewrite map_size_insert_None; [lia|].
    apply map_lookup_filter_None. by left.
  - rewrite map_filter_insert_False by (cbn; by rewrite E). rewrite delete_id by done. lia.
Qed.

Lemma holders_insert host c x m :
  (size (holders host (<[c := x]> m)) + Nat.b2n (is_some_and (m !! c) (in_hold_on host)) =
   size (holders host m) + Nat.b2n (in_hold_on host x))%nat.
Proof.
  destruct (m !! c) as [y|] eqn:Ey; cbn; [|rewrite holders_insert_new by done; lia].
  pose proof (holders_insert_new host c x (delete c m) (lookup_delete_eq _ _)) as Hx.
  pose proof (holders_insert_new host c y (delete c m) (lookup_delete_eq _ _)) as Hy.
  rewrite insert_delete_eq in Hx. rewrite insert_delete_id in Hy by done. lia.
Qed.

(** A connection that stays where it is, as far as the holds go, leaves the accounting. *)
Lemma acc_same hs ids m c x : m !! c ≫= mark = mark x -> acc hs ids m -> acc hs ids (<[c := x]> m).
Proof.
  intros Hx [H1 H2 H3 H4 H5 H6]. split; try done.
  - intros host. rewrite <-H1. pose proof (holders_insert host c x m) as Hi.
    enough (is_some_and (m !! c) (in_hold_on host) = in_hold_on host x) as E by (rewrite E in Hi; lia).
    unfold in_hold_on at 2. rewrite <-Hx. by destruct (m !! c).
  - intros c' y host id. destruct (decide (c' = c)) as [->|Hne].
    + rewrite lookup_insert_eq. intros [= <-] Hy. rewrite <-Hx in Hy.
      destruct (m !! c) as [z|] eqn:Ez; [|done]. by eapply H3.
    + rewrite lookup_insert_ne by done. apply H3.
Qed.

Lemma acc_more_ids hs ids ids' m : (ids <= ids')%N -> acc hs ids m -> acc hs ids' m.
Proof. intros Hle [H1 H2 H3 H4 H5 H6]. split; try done. intros host h Hh. specialize (H5 _ _ Hh). lia. Qed.

Lemma acc_init ids : acc ∅ ids ∅.
Proof.
  split.
  - intros host. unfold holders. by rewrite map_filter_empty, lookup_empty, !map_size_empty.
  - intros host h. by rewrite lookup_empty.
  - intros c x host id. by rewrite lookup_empty.
  - rewrite map_size_empty. unfold MAX_HELD_HOSTS. lia.
  - intros host h. by rewrite lookup_empty.
  - intros host1 host2 h1 h2. by rewrite lookup_empty.
Qed.

Lemma in_hold_on_other host h x id : mark x = None \/ mark x = Some (host, id) -> h <> host -> in_hold_on h x = false.
Proof. unfold in_hold_on. intros [-> | ->]; [done|]. intros Hne. by apply String.eqb_neq. Qed.

Lemma in_hold_on_here host x id : mark x = Some (host, id) -> in_hold_on host x = true.
Proof. unfold in_hold_on. intros ->. apply String.eqb_refl. Qed.

(** One connection joins, or leaves, the hold of [host], whose entry becomes [o]. *)
Lemma acc_set host o hs hs' ids ids' m c x0 x id0 id :
  acc hs ids m -> (ids <= ids')%N -> m !! c = Some x0 ->
  (mark x0 = None \/ mark x0 = Some (host, id0)) -> (mark x = None \/ mark x = Some (host, id)) ->
  hs' !! host = o -> (forall h, h <> host -> hs' !! h = hs !! h) -> (size hs' <= MAX_HELD_HOSTS)%nat ->
  size (holders host (<[c := x]> m)) = match o with Some h => h_waiting h | None => 0 end ->
  (forall h, o = Some h -> (0 < h_waiting h)%nat /\ (h_id h <= ids')%N /\
     match hs !! host with Some k => h_id h = h_id k | None => (ids < h_id h)%N end) ->
  (forall i, mark x = Some (host, i) -> exists h, o = Some h /\ h_id h = i) ->
  acc hs' ids' (<[c := x]> m).
Proof.
  intros [H1 H2 H3 H4 H5 H6] Hle Hc H0 Hx Ho Hoth Hsz Hn Hok Hmk. split.
  - intros h. destruct (decide (h = host)) as [->|Hne]; [by rewrite Ho|].
    rewrite Hoth, <-H1 by done. pose proof (holders_insert h c x m) as Hi. rewrite Hc in Hi. cbn [is_some_and] in Hi.
    rewrite (in_hold_on_other host h x0 id0), (in_hold_on_other host h x id) in Hi by done. cbn in Hi. lia.
  - intros h k. destruct (decide (h = host)) as [->|Hne]; [rewrite Ho; intros ->; by apply Hok|].
    rewrite Hoth by done. apply H2.
  - intros c' y h i. destruct (decide (c' = c)) as [->|Hne].
    + rewrite lookup_insert_eq. intros [= <-] Hy. destruct Hx as [E|E]; rewrite E in Hy; [done|].
      injection Hy as <- <-. rewrite Ho. by apply Hmk.
    + rewrite lookup_insert_ne by done. intros Hy Hm. destruct (H3 _ _ _ _ Hy Hm) as (k & Hk & <-).
      destruct (decide (h = host)) as [->|Hnh]; [|exists k; by rewrite Hoth].
      rewrite Ho. pose proof (H1 host) as Hs. destruct o as [k'|].
      * exists k'. split; [done|]. destruct (Hok _ eq_refl) as (_ & _ & Hid). by rewrite Hk in Hid.
      * exfalso. apply map_size_empty_inv in Hn. assert (holders host (<[c:=x]> m) !! c' = Some y) as Hin.
        { unfold holders. apply map_lookup_filter_Some. rewrite lookup_insert_ne by done. split; [done|].
          by eapply in_hold_on_here. }
        by rewrite Hn, lookup_empty in Hin.
  - done.
  - intros h k. destruct (decide (h = host)) as [->|Hne]; [rewrite Ho; intros ->; by apply Hok|].
    rewrite Hoth by done. intros Hk. specialize (H5 _ _ Hk). lia.
  - assert (forall h k k', h <> host -> o = Some k -> hs !! h = Some k' -> h_id k = h_id k' -> False) as Hd.
    { intros h k k' Hne -> Hk' E. destruct (Hok _ eq_refl) as (_ & _ & Hid). specialize (H5 _ _ Hk').
      destruct (hs !! host) as [k0|] eqn:E0; [|lia]. apply Hne, (H6 _ _ _ _ Hk' E0). congruence. }
    intros h1 h2 k1 k2. destruct (decide (h1 = host)) as [->|Hn1], (decide (h2 = host)) as [->|Hn2]; [done|..];
      rewrite ?Ho, ?(Hoth h1), ?(Hoth h2) by done; intros Hk1 Hk2 E; [by edestruct (Hd h2)|by edestruct (Hd h1)|].
    by eapply H6.
Qed.

Lemma acc_join now ids hs host port j hs' ids' m c x0 x :
  join_hold now ids hs host port = Some (j, hs', ids') ->
  m !! c = Some x0 -> mark x0 = None -> mark x = Some (host, j_id j) ->
  acc hs ids m -> acc hs' ids' (<[c := x]> m).
Proof.
  intros Hj Hc H0 Hx Ha. pose proof (acc_count _ _ _ Ha host) as Hs. pose proof (holders_insert host c x m) as Hi.
  rewrite Hc in Hi. cbn [is_some_and] in Hi. rewrite (in_hold_on_here _ _ _ Hx) in Hi.
  assert (in_hold_on host x0 = false) as E by (unfold in_hold_on; by rewrite H0). rewrite E in Hi. cbn in Hi.
  unfold join_hold in Hj. destruct (hs !! host) as [hold|] eqn:Eh.
  - injection Hj as <- <- <-. cbn in Hx. eapply (acc_set host (Some _) hs _ ids ids m c x0 x 0 (h_id hold)); try done.
    + by left.
    + by right.
    + apply lookup_insert_eq.
    + intros h Hne. by apply lookup_insert_ne.
    + rewrite map_size_insert_Some by done. apply Ha.
    + cbn. lia.
    + intros h [= <-]. cbn. rewrite Eh. split; [lia|]. split; [by eapply acc_ids|done].
    + intros i Hi'. rewrite Hx in Hi'. injection Hi' as <-. eauto.
  - destruct (Nat.leb_spec MAX_HELD_HOSTS (size hs)) as [|Hlt]; [done|]. injection Hj as <- <- <-. cbn in Hx.
    unfold next_hold_id in *. eapply (acc_set host (Some _) hs _ ids _ m c x0 x 0 (ids + 1)); try done.
    + lia.
    + by left.
    + by right.
    + apply lookup_insert_eq.
    + intros h Hne. by apply lookup_insert_ne.
    + rewrite map_size_insert_None by done. lia.
    + cbn. lia.
    + intros h [= <-]. cbn. rewrite Eh. lia.
    + intros i Hi'. rewrite Hx in Hi'. injection Hi' as <-. eauto.
Qed.

Lemma acc_leave ids hs host p hs' m c x0 x id :
  leave_hold hs host = (p, hs') ->
  m !! c = Some x0 -> mark x0 = Some (host, id) -> mark x = None ->
  acc hs ids m -> acc hs' ids (<[c := x]> m).
Proof.
  intros Hl Hc H0 Hx Ha. pose proof (acc_count _ _ _ Ha host) as Hs. pose proof (holders_insert host c x m) as Hi.
  rewrite Hc in Hi. cbn [is_some_and] in Hi. rewrite (in_hold_on_here _ _ _ H0) in Hi.
  assert (in_hold_on host x = false) as E by (unfold in_hold_on; by rewrite Hx). rewrite E in Hi. cbn in Hi.
  destruct (acc_mark _ _ _ Ha _ _ _ _ Hc H0) as (hold & Eh & Hid).
  unfold leave_hold in Hl. rewrite Eh in *. destruct (Nat.ltb_spec 0 (h_waiting hold - 1)) as [Hw|Hw]; injection Hl as <- <-.
  - eapply (acc_set host (Some _) hs _ ids ids m c x0 x id 0); try done.
    + by right.
    + by left.
    + apply lookup_insert_eq.
    + intros h Hne. by apply lookup_insert_ne.
    + rewrite map_size_insert_Some by done. apply Ha.
    + cbn. lia.
    + intros h [= <-]. cbn. rewrite Eh. split; [lia|]. split; [by eapply acc_ids|done].
    + intros i Hi'. by rewrite Hx in Hi'.
  - eapply (acc_set host None hs _ ids ids m c x0 x id 0); try done.
    + by right.
    + by left.
    + apply lookup_delete_eq.
    + intros h Hne. by apply lookup_delete_ne.
    + rewrite map_size_delete_Some by done. pose proof (acc_max _ _ _ Ha). lia.
    + lia.
    + intros i Hi'. by rewrite Hx in Hi'.
Qed.

(** ** The accounting is kept *)

Lemma answer_in_hold w v : in_hold (answer w v) = where_id w.
Proof. by destruct w, v. Qed.

Lemma after_hold_free admitted : in_hold (after_hold admitted) = None.
Proof. by destruct admitted. Qed.

Definition acc_ok (s : State) : Prop := acc (held (shared s)) (hold_ids s) (conns s).

Lemma acc_go host port pc pc' c hs ids m : m !! c = Some (On host port pc) -> in_hold pc = in_hold pc' ->
  acc hs ids m -> acc hs ids (<[c := On host port pc']> m).
Proof. intros Hc E. apply acc_same. rewrite Hc. cbn. by rewrite E. Qed.

Lemma acc_run_pc c host port pc s s' :
  conns s !! c = Some (On host port pc) -> run_pc c host port pc s = Some s' -> acc_ok s -> acc_ok s'.
Proof.
  intros Hc Hr Ha. unfold acc_ok in *. destruct pc; cbn [run_pc] in Hr; try done.
  - destruct (check _ _ _) as [?|[]]; injection Hr as <-; (eapply acc_go; [done| |done]); by rewrite ?answer_in_hold.
  - destruct (is_declined _ _); injection Hr as <-; (eapply acc_go; [done| |done]); by rewrite ?answer_in_hold.
  - injection Hr as <-. eapply acc_go; [done| |done]. by rewrite answer_in_hold.
  - injection Hr as <-. by eapply acc_go.
  - destruct (join_hold _ _ _ _ _) as [[[j hs] ids]|] eqn:Ej; injection Hr as <-; [|by eapply acc_go].
    eapply acc_join; [done|done|done|cbn; by destruct (j_first j)|done].
  - injection Hr as <-. by eapply acc_go.
  - destruct (negb _); [|destruct (_ || _)]; try done; injection Hr as <-; by eapply acc_go.
  - destruct (leave_hold _ _) as [ended hs] eqn:El. injection Hr as <-.
    eapply acc_leave; [done|done|done|destruct ended; cbn; by rewrite ?after_hold_free|done].
  - injection Hr as <-. eapply acc_go; [done| |done]. by rewrite after_hold_free.
  - injection Hr as <-. by eapply acc_go.
Qed.

(** Outside every hold: before the decision, or past it. *)
Definition plain (x : Conn) : bool :=
  match x with
  | Reading | Gone | On _ _ (Check InServe | Connect _ | Tunnel _ | Done) => true
  | _ => false
  end.

Lemma plain_mark x : plain x = true -> mark x = None.
Proof. by destruct x as [|host port [[] | | | | | | | | | | | |]|]. Qed.

(** An event that is about no hold. *)
Definition tells_no_hold (e : EgressEvent) : bool :=
  match e with Held _ _ _ | HoldEnded _ _ _ _ => false | _ => true end.

(** What is not a connection's own step in a decision or a hold moves no one in or out of a hold,
    and tells of none. *)
Record aside (s s' : State) : Prop := {
  as_held : held (shared s') = held (shared s);
  as_ids : (hold_ids s <= hold_ids s')%N;
  as_conns : conns s' = conns s \/ exists c x, conns s' = <[c := x]> (conns s) /\
    (forall y, conns s !! c = Some y -> plain y = true) /\ plain x = true;
  as_events : events s' = events s \/ exists e, events s' = e :: events s /\ tells_no_hold e = true;
}.

Lemma step_cases l s s' : step l s = Some s' ->
  (exists c host port pc, conns s !! c = Some (On host port pc) /\ run_pc c host port pc s = Some s') \/ aside s s'.
Proof.
  assert (forall s1, held (shared s1) = held (shared s) -> (hold_ids s <= hold_ids s1)%N ->
    conns s1 = conns s -> events s1 = events s -> aside s s1) as Hquiet by (intros; split; auto).
  assert (forall s1 c y x, conns s !! c = y -> (forall z, y = Some z -> plain z = true) -> plain x = true ->
    held (shared s1) = held (shared s) -> hold_ids s1 = hold_ids s -> conns s1 = <[c := x]> (conns s) ->
    (events s1 = events s \/ exists e, events s1 = e :: events s /\ tells_no_hold e = true) -> aside s s1) as Hone.
  { intros s1 c y x Hy Hpy Hpx Hh Hi Hc He. split; [done|lia| |done]. right. exists c, x. rewrite Hy. auto. }
  destruct l; cbn [step]; intros H.
  - destruct (conns s !! c) eqn:E; [done|]. injection H as <-. right. eapply (Hone _ c _ Reading E); cbn; auto. done.
  - destruct (conns s !! c) as [[]|] eqn:E; try done. injection H as <-. right.
    assert (forall z : Conn, Some Reading = Some z -> plain z = true) as Hp by (by intros z [= <-]).
    destruct outcome as [[[head l]|e]|]; cbn; [destruct (request head)|..];
      (eapply (Hone _ c _ _ E Hp); [| | |reflexivity|]); cbn; eauto.
  - left. unfold run in H. destruct (conns s !! c) as [[|host port pc|]|] eqn:E; try done. eauto 10.
  - destruct (conns s !! c) as [[|host port []|]|] eqn:E; try done. injection H as <-. right.
    assert (forall z : Conn, Some (On host port (Connect admission)) = Some z -> plain z = true) as Hp by (by intros z [= <-]).
    destruct r; cbn; (eapply (Hone _ c _ _ E Hp); [| | |reflexivity|]); cbn; eauto.
  - destruct (conns s !! c) as [[|host port []|]|] eqn:E; try done. injection H as <-. right.
    assert (forall z : Conn, Some (On host port (Tunnel admission)) = Some z -> plain z = true) as Hp by (by intros z [= <-]).
    destruct e; cbn; (eapply (Hone _ c _ _ E Hp); [| | |reflexivity|]); cbn; eauto.
  - right. destruct (open_ _), (ops s !! o); try done. injection H as <-. by apply Hquiet.
  - right. destruct (open_ _), (ops s !! o); try done. injection H as <-. unfold decline.
    destruct (normalize_host host); by apply Hquiet.
  - right. unfold run_op in H. destruct (ops s !! o) as [[]|]; try done; injection H as <-; by apply Hquiet.
  - right. destruct (_ && _); [|done]. injection H as <-. by apply Hquiet.
  - right. destruct (_ <=? _)%Z; [|done]. injection H as <-. by apply Hquiet.
  - right. injection H as <-. apply Hquiet; try done. cbn. unfold next_hold_id. lia.
Qed.

Lemma acc_reachable s : reachable s -> acc_ok s.
Proof.
  revert s. apply reachable_ind.
  - intros. apply acc_init.
  - intros s l s' _ Ha [(c & host & port & pc & Hc & Hr)|[Hh Hi Hm _] ]%step_cases; [by eapply acc_run_pc|].
    unfold acc_ok in *. rewrite Hh. eapply acc_more_ids; [done|].
    destruct Hm as [->|(c & x & -> & Hc & Hx)]; [done|]. apply acc_same; [|done].
    rewrite (plain_mark x) by done. destruct (conns s !! c) as [y|]; [|done]. by apply plain_mark, Hc.
Qed.

(** ** No wake-up is lost *)

(** The part of the state a decision reads, and the calls still in progress on it. *)
Definition settings (s : State) : EgressPolicy * Mode * gset string * N * gmap nat Op :=
  (policy (shared s), mode (shared s), declined (shared s), generation (shared s), ops s).

(** No call is between its first write and its tick, and [g] is the latest generation. *)
Definition fresh (s : State) (g : N) : Prop := ops s = ∅ /\ g = generation (shared s).

Lemma run_pc_settings c host port pc s s' : run_pc c host port pc s = Some s' -> settings s' = settings s.
Proof.
  destruct pc; cbn [run_pc]; intros H; try done.
  - destruct (check _ _ _) as [?|[]]; by injection H as <-.
  - destruct (is_declined _ _); by injection H as <-.
  - by injection H as <-.
  - by injection H as <-.
  - destruct (join_hold _ _ _ _ _) as [[[j hs] ids]|]; by injection H as <-.
  - by injection H as <-.
  - destruct (negb _); [|destruct (_ || _)]; try done; by injection H as <-.
  - destruct (leave_hold _ _) as [ended hs]. by injection H as <-.
  - by injection H as <-.
  - by injection H as <-.
Qed.

(** A change to what decisions read leaves a call in progress, and the end of a call ticks. *)
Lemma step_settings l s s' : step l s = Some s' ->
  settings s' = settings s \/ (ops s' <> ∅ /\ generation (shared s') = generation (shared s)) \/
  generation (shared s') = (generation (shared s) + 1)%N.
Proof.
  destruct l; cbn [step]; intros H.
  - left. destruct (conns s !! c); [done|]. by injection H as <-.
  - left. destruct (conns s !! c) as [[]|]; try done. injection H as <-.
    destruct outcome as [[[head l]|e]|]; cbn; [by destruct (request head)|done..].
  - left. unfold run in H. destruct (conns s !! c) as [[|host port pc|]|]; try done. by eapply run_pc_settings.
  - left. destruct (conns s !! c) as [[|host port []|]|]; try done. injection H as <-. by destruct r.
  - left. destruct (conns s !! c) as [[|host port []|]|]; try done. injection H as <-. by destruct e.
  - right; left. destruct (open_ _), (ops s !! o); try done. injection H as <-. split; [apply insert_non_empty|done].
  - destruct (open_ _), (ops s !! o); try done. injection H as <-. unfold decline.
    destruct (normalize_host host); [|by left]. right; left. split; [apply insert_non_empty|done].
  - unfold run_op in H. destruct (ops s !! o) as [[]|]; try done; injection H as <-; [|by right; right].
    right; left. split; [apply insert_non_empty|done].
  - left. destruct (_ && _); [|done]. by injection H as <-.
  - left. destruct (_ <=? _)%Z; [|done]. by injection H as <-.
  - left. by injection H as <-.
Qed.

Definition where_seen (w : Where) : option N :=
  match w with InServe => None | InHold _ _ seen => Some seen end.

Definition seen_of (pc : Pc) : option N :=
  match pc with
  | Check w | CheckDeclined w | ReadMode w => where_seen w
  | Join seen | Announce _ _ seen | Wait _ _ seen => Some seen
  | _ => None
  end.

(** What a connection that saw the latest generation knows of the current settings. *)
Definition knows (s : State) (host : string) (port : N) (pc : Pc) : Prop :=
  match pc with
  | CheckDeclined _ => check (policy (shared s)) host port = Err DenyHost
  | ReadMode _ => check (policy (shared s)) host port = Err DenyHost /\ is_declined (shared s) host = false
  | Wait _ _ _ => decide_now (shared s) host port = Hold_it
  | _ => True
  end.

Definition awake (s : State) (host : string) (port : N) (pc : Pc) : Prop :=
  forall g, seen_of pc = Some g -> (g <= generation (shared s))%N /\ (fresh s g -> knows s host port pc).

Lemma awake_mono s s' l host port pc : step l s = Some s' -> awake s host port pc -> awake s' host port pc.
Proof.
  intros Hs Ha g Hg. destruct (Ha g Hg) as [Hle Hk].
  destruct (step_settings _ _ _ Hs) as [E|[[Hne E]|E] ].
  - injection E as E1 E2 E3 E4 E5. rewrite E4. split; [done|]. intros [Ho Hge].
    assert (fresh s g) as Hf by (split; congruence). specialize (Hk Hf).
    unfold knows, decide_now, is_declined in *. by rewrite E1, E2, E3.
  - rewrite E. split; [done|]. by intros [? _].
  - rewrite E. split; [lia|]. intros [_ Hge]. lia.
Qed.

(** The settings a step of a connection leaves are those it found. *)
Lemma awake_settings s s' host port pc : settings s' = settings s -> awake s host port pc -> awake s' host port pc.
Proof.
  intros E Ha g Hg. destruct (Ha g Hg) as [Hle Hk]. injection E as E1 E2 E3 E4 E5. rewrite E4.
  split; [done|]. intros [Ho Hge]. assert (fresh s g) as Hf by (split; congruence). specialize (Hk Hf).
  unfold knows, decide_now, is_declined in *. by rewrite E1, E2, E3.
Qed.

Lemma awake_answer s host port w v :
  (forall id since seen, w = InHold id since seen -> v = Hold_it -> awake s host port (Wait id since seen)) ->
  awake s host port (answer w v).
Proof. intros H. destruct w as [|id since seen], v; try (intros g [=]; done). by apply H. Qed.

(** One step of a connection, the settings as they were: it knows what it must. *)
Definition next_awake c host port s s1 : Prop :=
  exists pc', conns s1 = <[c := On host port pc']> (conns s) /\ awake s host port pc'.

Lemma next_go c host port s pc' s1 : conns s1 = conns s -> awake s host port pc' ->
  next_awake c host port s (with_conn c (On host port pc') s1).
Proof. intros E Ha. exists pc'. cbn. by rewrite E. Qed.

Lemma run_pc_awake c host port pc s s' : run_pc c host port pc s = Some s' -> awake s host port pc ->
  next_awake c host port s s'.
Proof.
  intros Hr Ha. assert (forall pc', seen_of pc' = None -> awake s host port pc') as Hnone by (by intros pc' E g; rewrite E).
  assert (forall w v, v <> Hold_it -> awake s host port (answer w v)) as Hans by (intros; by apply awake_answer).
  destruct pc as [w|w|w| |seen|id since seen|id since seen|id admitted|id port' admitted|reason| | |]; cbn [run_pc] in Hr; try done.
  - destruct (check _ _ _) as [u|[]] eqn:E; injection Hr as <-; apply next_go; auto.
    intros g Hg. by destruct (Ha g Hg) as [Hle _].
  - destruct (is_declined _ _) eqn:E; injection Hr as <-; apply next_go; auto.
    intros g Hg. destruct (Ha g Hg) as [Hle Hk]. split; [done|]. intros Hf. split; [by apply Hk|done].
  - injection Hr as <-. apply next_go; [done|]. apply awake_answer. intros id since seen -> Hv g [= <-].
    destruct (Ha seen eq_refl) as [Hle Hk]. split; [done|]. intros [Hc Hd]%Hk. cbn. unfold decide_now. by rewrite Hc, Hd.
  - injection Hr as <-. apply next_go; [done|]. by intros g [= <-].
  - destruct (Ha seen eq_refl) as [Hle _].
    destruct (join_hold _ _ _ _ _) as [[[j hs] ids]|]; injection Hr as <-; apply next_go; auto.
    destruct (j_first j); by intros g [= <-].
  - injection Hr as <-. apply next_go; [done|]. destruct (Ha seen eq_refl) as [Hle _]. by intros g [= <-].
  - destruct (negb _); [|destruct (_ || _)]; try done; injection Hr as <-; apply next_go; auto. by intros g [= <-].
  - destruct (leave_hold _ _) as [ended hs]. injection Hr as <-. apply next_go; [done|]. apply Hnone. by destruct ended, admitted.
  - injection Hr as <-. apply next_go; [done|]. apply Hnone. by destruct admitted.
  - injection Hr as <-. apply next_go; auto.
Qed.

Lemma run_pc_conns c host port pc s s' : run_pc c host port pc s = Some s' ->
  exists pc', conns s' = <[c := On host port pc']> (conns s).
Proof.
  destruct pc; cbn [run_pc]; intros H; try done.
  - destruct (check _ _ _) as [?|[]]; injection H as <-; eexists; reflexivity.
  - destruct (is_declined _ _); injection H as <-; eexists; reflexivity.
  - injection H as <-. eexists; reflexivity.
  - injection H as <-. eexists; reflexivity.
  - destruct (join_hold _ _ _ _ _) as [[[j hs] ids]|]; injection H as <-; eexists; reflexivity.
  - injection H as <-. eexists; reflexivity.
  - destruct (negb _); [|destruct (_ || _)]; try done; injection H as <-; eexists; reflexivity.
  - destruct (leave_hold _ _) as [ended hs]. injection H as <-. eexists; reflexivity.
  - injection H as <-. eexists; reflexivity.
  - injection H as <-. eexists; reflexivity.
Qed.

(** How a connection with a target got where it is. *)
Inductive came (c : nat) (host : string) (port : N) (pc' : Pc) (s s' : State) : Label -> Prop :=
| CameStayed l : conns s !! c = Some (On host port pc') -> came c host port pc' s s' l
| CameRun pc : conns s !! c = Some (On host port pc) -> run_pc c host port pc s = Some s' ->
    came c host port pc' s s' (LRun c)
| CameHeader outcome : conns s !! c = Some Reading -> pc' = Check InServe -> events s' = events s ->
    came c host port pc' s s' (LHeader c outcome)
| CameReach adm r : conns s !! c = Some (On host port (Connect adm)) -> pc' = Tunnel adm \/ pc' = Done ->
    came c host port pc' s s' (LReach c r)
| CameEnd adm e : conns s !! c = Some (On host port (Tunnel adm)) -> pc' = Done ->
    came c host port pc' s s' (LEnd c e).

Lemma insert_came c c0 x y (m : gmap nat Conn) : <[c0 := x]> m !! c = Some y -> (c0 = c /\ x = y) \/ m !! c = Some y.
Proof.
  destruct (decide (c0 = c)) as [->|Hne]; [rewrite lookup_insert_eq; intros [= ->]; by left|].
  rewrite lookup_insert_ne by done. by right.
Qed.

Lemma step_conn l s s' c host port pc' : step l s = Some s' -> conns s' !! c = Some (On host port pc') ->
  came c host port pc' s s' l.
Proof.
  destruct l as [c0|c0 outcome|c0|c0 r|c0 e|o p m|o h|o| |d|]; cbn [step]; intros H Hc.
  - destruct (conns s !! c0) eqn:E; [done|]. injection H as <-. apply insert_came in Hc as [[_ [=]]|Hc]. by constructor.
  - destruct (conns s !! c0) as [[]|] eqn:E; try done. injection H as <-.
    destruct outcome as [[[head l]|e]|]; cbn in Hc; [destruct (request head) eqn:Er|..];
      apply insert_came in Hc as [[-> Hx]|Hc]; try (injection Hx as <- <- <-); try done; try by constructor.
    apply CameHeader; [done..|]. cbn. by rewrite Er.
  - unfold run in H. destruct (conns s !! c0) as [[|h p pc|]|] eqn:E; try done.
    destruct (run_pc_conns _ _ _ _ _ _ H) as [pc1 E1]. rewrite E1 in Hc.
    apply insert_came in Hc as [[-> [= -> -> ->]]|Hc]; [by econstructor|by constructor].
  - destruct (conns s !! c0) as [[|h p []|]|] eqn:E; try done. injection H as <-.
    destruct r; cbn in Hc; (apply insert_came in Hc as [[-> [= -> -> <-]]|Hc]; [|by constructor]); eapply CameReach; eauto.
  - destruct (conns s !! c0) as [[|h p []|]|] eqn:E; try done. injection H as <-.
    destruct e; cbn in Hc; (apply insert_came in Hc as [[-> [= -> -> <-]]|Hc]; [|by constructor]); eapply CameEnd; eauto.
  - destruct (open_ _), (ops s !! o); try done. injection H as <-. by constructor.
  - destruct (open_ _), (ops s !! o); try done. injection H as <-. unfold decline in Hc.
    destruct (normalize_host h); by constructor.
  - unfold run_op in H. destruct (ops s !! o) as [[]|]; try done; injection H as <-; by constructor.
  - destruct (_ && _); [|done]. injection H as <-. by constructor.
  - destruct (_ <=? _)%Z; [|done]. injection H as <-. by constructor.
  - injection H as <-. by constructor.
Qed.

Lemma awake_reachable s : reachable s -> forall c host port pc, conns s !! c = Some (On host port pc) -> awake s host port pc.
Proof.
  revert s. refine (reachable_ind (fun s => forall c host port pc, conns s !! c = Some (On host port pc) -> awake s host port pc) _ _).
  - intros p m timeout ids t c host port pc Hc. cbn in Hc. by rewrite lookup_empty in Hc.
  - intros s l s' _ IH Hs c host port pc' Hc. eapply (awake_mono s); [done|].
    destruct (step_conn _ _ _ _ _ _ _ Hs Hc) as [l Hold|pc Hold Hr|o Hold -> _|adm r Hold [->| ->]|adm e Hold ->]; try by intros g [=].
    + by eapply IH.
    + destruct (run_pc_awake _ _ _ _ _ _ Hr (IH _ _ _ _ Hold)) as (pc1 & E & Ha).
      rewrite E, lookup_insert_eq in Hc. by injection Hc as ->.
Qed.

(** (C10) A connection that waits with no generation unseen and no call in progress is one the settings
    would still hold: no update, no decline is ever missed, whatever came between its decision, its
    subscription and its wait. *)
Theorem no_wake_up_is_lost s c host port id since : reachable s ->
  conns s !! c = Some (On host port (Wait id since (generation (shared s)))) -> ops s = ∅ ->
  decide_now (shared s) host port = Hold_it.
Proof. intros Hr Hc Ho. by apply (awake_reachable s Hr c host port _ Hc _ eq_refl). Qed.

Lemma no_wake_up_is_lost_witness : decide_now (shared (demo demo_held).2) "example.com" 443 = Hold_it.
Proof.
  refine (no_wake_up_is_lost (demo demo_held).2 0 "example.com" 443 1 0 _ _ _).
  - apply proxy_reachable. vm_compute. reflexivity.
  - vm_compute. reflexivity.
  - vm_compute. reflexivity.
Defined.

(** ** The proxy gone, every connection is answered *)

(** No step left to take before the connection is refused or let through; one more when the
    generation is not the latest seen, for the check it still has to make. *)
Definition left_where (g : N) (w : Where) (n : nat) : nat :=
  match w with InServe => 6 + n | InHold _ _ seen => if N.eqb seen g then n else 4 + n end.

Definition left_steps (g : N) (pc : Pc) : nat :=
  match pc with
  | Check w => left_where g w 6
  | CheckDeclined w => left_where g w 5
  | ReadMode w => left_where g w 4
  | Subscribe => 9
  | Join seen => if N.eqb seen g then 8 else 12
  | Announce _ _ seen => if N.eqb seen g then 7 else 11
  | Wait _ _ seen => if N.eqb seen g then 3 else 7
  | Leave _ _ => 2
  | End_ _ _ _ => 1
  | Refusing _ | Connect _ | Tunnel _ | Done => 0
  end.

(** Refused, or let through to its upstream. *)
Definition answered (pc : Pc) : Prop :=
  match pc with Refusing _ | Connect _ | Tunnel _ | Done => True | _ => False end.

Ltac case_left_steps pc g :=
  destruct pc as [[|? ? seen]|[|? ? seen]|[|? ? seen]| |seen|? ? seen|? ? seen|? ?|? ? ?|?|?|?|]; cbn;
  try destruct (N.eqb seen g).

Lemma left_steps_answered g pc : left_steps g pc = 0%nat <-> answered pc.
Proof. case_left_steps pc g; split; done || lia. Qed.

Lemma left_steps_bound g pc : (left_steps g pc <= 12)%nat.
Proof. case_left_steps pc g; lia. Qed.

Definition closed (s : State) : Prop := open_ (shared s) = false /\ ops s = ∅.

Lemma run_pc_open c host port pc s s' : run_pc c host port pc s = Some s' ->
  open_ (shared s') = open_ (shared s).
Proof.
  destruct pc; cbn [run_pc]; intros Hr; try done;
    [destruct (check _ _ _) as [?|[]]|destruct (is_declined _ _)| | |destruct (join_hold _ _ _ _ _) as [[[j hs] ids]|]| |
     destruct (negb _); [|destruct (_ || _)]|destruct (leave_hold _ _)| |]; try done; by injection Hr as <-.
Qed.

Lemma step_open l s s' : step l s = Some s' ->
  open_ (shared s') = open_ (shared s) \/ (ops s' = ∅ /\ open_ (shared s) = true).
Proof.
  destruct l; cbn [step]; intros Hs.
  - left. destruct (conns s !! c); [done|]. by injection Hs as <-.
  - left. destruct (conns s !! c) as [[]|]; try done. injection Hs as <-.
    destruct outcome as [[[head l]|e]|]; cbn; [by destruct (request head)|done..].
  - left. unfold run in Hs. destruct (conns s !! c) as [[|host port pc|]|]; try done. by eapply run_pc_open.
  - left. destruct (conns s !! c) as [[|host port []|]|]; try done. injection Hs as <-. by destruct r.
  - left. destruct (conns s !! c) as [[|host port []|]|]; try done. injection Hs as <-. by destruct e.
  - left. destruct (open_ (shared s)) eqn:E, (ops s !! o); try done. by injection Hs as <-.
  - left. destruct (open_ (shared s)) eqn:E, (ops s !! o); try done. injection Hs as <-. unfold decline.
    by destruct (normalize_host host).
  - left. unfold run_op in Hs. destruct (ops s !! o) as [[]|]; try done; by injection Hs as <-.
  - right. destruct (open_ (shared s)); [|done]. cbn in Hs. destruct (bool_decide _) eqn:E; [|done].
    injection Hs as <-. by apply bool_decide_eq_true in E.
  - left. destruct (_ <=? _)%Z; [|done]. by injection Hs as <-.
  - left. by injection Hs as <-.
Qed.

(** No step changes what decisions read once the proxy is gone. *)
Lemma closed_step l s s' : closed s -> step l s = Some s' -> closed s' /\ settings s' = settings s.
Proof.
  intros [Ho Hops] Hs. destruct (step_open _ _ _ Hs) as [E|[_ E] ]; [|congruence].
  enough (settings s' = settings s) as Es.
  { split; [|done]. injection Es as _ _ _ _ Es. split; congruence. }
  destruct l; cbn [step] in Hs.
  - destruct (conns s !! c); [done|]. by injection Hs as <-.
  - destruct (conns s !! c) as [[]|]; try done. injection Hs as <-.
    destruct outcome as [[[head l]|e]|]; cbn; [by destruct (request head)|done..].
  - unfold run in Hs. destruct (conns s !! c) as [[|host port pc|]|]; try done. by eapply run_pc_settings.
  - destruct (conns s !! c) as [[|host port []|]|]; try done. injection Hs as <-. by destruct r.
  - destruct (conns s !! c) as [[|host port []|]|]; try done. injection Hs as <-. by destruct e.
  - by rewrite Ho in Hs.
  - by rewrite Ho in Hs.
  - unfold run_op in Hs. by rewrite Hops, lookup_empty in Hs.
  - by rewrite Ho in Hs.
  - destruct (_ <=? _)%Z; [|done]. by injection Hs as <-.
  - by injection Hs as <-.
Qed.

Lemma closed_reachable s : reachable s -> open_ (shared s) = false -> closed s.
Proof.
  revert s. refine (reachable_ind (fun s => open_ (shared s) = false -> closed s) _ _); [done|].
  intros s l s' _ IH Hs Hc. destruct (step_open _ _ _ Hs) as [E|[E _] ]; [|by split].
  rewrite Hc in E. symmetry in E. eapply closed_step; [by apply IH|done].
Qed.

(** The connection's own steps among some labels. *)
Definition is_own (c : nat) (l : Label) : bool := match l with LRun c' => Nat.eqb c' c | _ => false end.
Definition own_steps (c : nat) (ls : list Label) : nat := length (lfilter (is_own c) ls).

Ltac one_step_less g seen :=
  eexists; split; [reflexivity|]; cbn; try destruct (N.eqb seen g); lia.

(** Whatever a connection's step decides, one step fewer is left. *)
Lemma run_pc_left c host port pc s s' : open_ (shared s) = false -> run_pc c host port pc s = Some s' ->
  exists pc', conns s' = <[c := On host port pc']> (conns s) /\
    (left_steps (generation (shared s)) pc' <= left_steps (generation (shared s)) pc - 1)%nat.
Proof.
  intros Ho Hr. set (g := generation (shared s)).
  destruct pc as [w|w|w| |seen|id since seen|id since seen|id a|id p a|r|a|a|]; cbn [run_pc] in Hr; try done.
  - destruct (check _ _ _) as [?|[]]; injection Hr as <-; destruct w as [|? ? seen]; one_step_less g seen.
  - destruct (is_declined _ _); injection Hr as <-; destruct w as [|? ? seen]; one_step_less g seen.
  - destruct (by_mode _ _); injection Hr as <-; destruct w as [|? ? seen]; one_step_less g seen.
  - injection Hr as <-. eexists. split; [reflexivity|]. cbn. fold g. rewrite N.eqb_refl. lia.
  - destruct (join_hold _ _ _ _ _) as [[[j hs] ids]|]; injection Hr as <-; [destruct (j_first j)|]; one_step_less g seen.
  - injection Hr as <-. one_step_less g seen.
  - fold g in Hr. destruct (N.eqb seen g) eqn:E; cbn in Hr.
    + rewrite Ho in Hr. cbn in Hr. injection Hr as <-. eexists. split; [reflexivity|]. cbn. rewrite E. lia.
    + injection Hr as <-. eexists. split; [reflexivity|]. cbn. fold g. rewrite E, N.eqb_refl. lia.
  - destruct (leave_hold _ _) as [[port'|] hs]; injection Hr as <-; eexists; (split; [reflexivity|]); cbn; [lia|destruct a; cbn; lia].
  - injection Hr as <-. eexists. split; [reflexivity|]. destruct a; cbn; lia.
  - injection Hr as <-. eexists. split; [reflexivity|]. cbn. lia.
Qed.

Lemma run_pc_enabled c host port pc s : open_ (shared s) = false ->
  ~ answered pc -> is_some (run_pc c host port pc s) = true.
Proof.
  intros Ho Hn. destruct pc; cbn [answered] in Hn; try tauto; cbn; try done.
  - rewrite Ho. by destruct (N.eqb _ _).
  - by destruct (leave_hold _ _).
Qed.

(** What one step of the world does to a connection that has a target. *)
Inductive went (c : nat) (host : string) (port : N) (pc : Pc) (s s' : State) (l : Label) : Prop :=
| WentNowhere : is_own c l = false -> conns s' !! c = Some (On host port pc) -> went c host port pc s s' l
| WentOn : l = LRun c -> run_pc c host port pc s = Some s' -> went c host port pc s s' l
| WentOut pc' : is_own c l = false -> answered pc -> conns s' !! c = Some (On host port pc') -> answered pc' ->
    went c host port pc s s' l.

Lemma went_insert c host port pc s s' l c0 x :
  is_own c l = false -> c0 <> c -> conns s !! c = Some (On host port pc) -> conns s' = <[c0 := x]> (conns s) ->
  went c host port pc s s' l.
Proof. intros Hl Hne Hc E. apply WentNowhere; [done|]. by rewrite E, lookup_insert_ne. Qed.

Lemma step_went l s s' c host port pc : step l s = Some s' -> conns s !! c = Some (On host port pc) ->
  went c host port pc s s' l.
Proof.
  intros Hs Hc. destruct l as [c0|c0 outcome|c0|c0 r|c0 e|o p m|o h|o| |d|]; cbn [step] in Hs.
  - destruct (conns s !! c0) eqn:E; [done|]. injection Hs as <-.
    eapply went_insert; [done| |done|reflexivity]. congruence.
  - destruct (conns s !! c0) as [[]|] eqn:E; try done. injection Hs as <-.
    destruct outcome as [[[head l]|e]|]; cbn; [destruct (request head)|..];
      (eapply went_insert; [done| |done|reflexivity]); congruence.
  - unfold run in Hs. destruct (conns s !! c0) as [[|h p pc0|]|] eqn:E; try done.
    destruct (decide (c0 = c)) as [->|Hne].
    + rewrite Hc in E. injection E as <- <- <-. by apply WentOn.
    + destruct (run_pc_conns _ _ _ _ _ _ Hs) as [pc1 E1]. eapply went_insert; [|done..]. by apply Nat.eqb_neq.
  - destruct (conns s !! c0) as [[|h p [] |]|] eqn:E; try done. injection Hs as <-.
    destruct (decide (c0 = c)) as [->|Hne].
    + rewrite Hc in E. injection E as <- <- ->.
      destruct r; (eapply WentOut; [done|done|cbn; apply lookup_insert_eq|done]).
    + destruct r; (eapply went_insert; [done|done|done|reflexivity]).
  - destruct (conns s !! c0) as [[|h p [] |]|] eqn:E; try done. injection Hs as <-.
    destruct (decide (c0 = c)) as [->|Hne].
    + rewrite Hc in E. injection E as <- <- ->.
      destruct e; (eapply WentOut; [done|done|cbn; apply lookup_insert_eq|done]).
    + destruct e; (eapply went_insert; [done|done|done|reflexivity]).
  - destruct (open_ _), (ops s !! o); try done. injection Hs as <-. by apply WentNowhere.
  - destruct (open_ _), (ops s !! o); try done. injection Hs as <-. unfold decline.
    destruct (normalize_host h); by apply WentNowhere.
  - unfold run_op in Hs. destruct (ops s !! o) as [[]|]; try done; injection Hs as <-; by apply WentNowhere.
  - destruct (_ && _); [|done]. injection Hs as <-. by apply WentNowhere.
  - destruct (_ <=? _)%Z; [|done]. injection Hs as <-. by apply WentNowhere.
  - injection Hs as <-. by apply WentNowhere.
Qed.

Lemma steps_left ls s s' c host port pc : closed s -> steps ls s = Some s' -> conns s !! c = Some (On host port pc) ->
  exists pc', conns s' !! c = Some (On host port pc') /\ closed s' /\
    (left_steps (generation (shared s')) pc' <= left_steps (generation (shared s)) pc - own_steps c ls)%nat.
Proof.
  revert s pc. induction ls as [|l ls IH]; cbn [steps]; intros s pc Hcl Hs Hc.
  - injection Hs as <-. exists pc. split_and!; [done|apply Hcl..|]. cbn. lia.
  - destruct (step l s) as [s1|] eqn:E; [|done]. cbn in Hs.
    destruct (closed_step _ _ _ Hcl E) as [Hcl1 Es]. injection Es as _ _ _ Hg _.
    assert (exists pc1, conns s1 !! c = Some (On host port pc1) /\
      (left_steps (generation (shared s)) pc1 <= left_steps (generation (shared s)) pc - Nat.b2n (is_own c l))%nat) as (pc1 & Hc1 & Hle).
    { destruct (step_went _ _ _ _ _ _ _ E Hc) as [Hl Hc1| -> Hr|pc1 Hl Ha Hc1 Ha1].
      - exists pc. rewrite Hl. split; [done|]. cbn. lia.
      - destruct (run_pc_left _ _ _ _ _ _ (proj1 Hcl) Hr) as (pc1 & -> & Hle). exists pc1.
        rewrite lookup_insert_eq. cbn. by rewrite Nat.eqb_refl.
      - exists pc1. split; [done|]. apply (left_steps_answered (generation (shared s))) in Ha1. lia. }
    destruct (IH s1 pc1 Hcl1 Hs Hc1) as (pc' & Hc' & Hcl' & Hle'). exists pc'. split_and!; [done|apply Hcl'..|].
    unfold own_steps. cbn [lfilter]. rewrite Hg in Hle'. unfold own_steps in Hle'.
    destruct (is_own c l); cbn in *; lia.
Qed.

(** (C28) Once the proxy is gone no connection is left waiting, however the steps of the others, the clock
    and new connections fall between its own: until it is answered it always has a step to take, and
    twelve of them answer it. *)
Theorem gone_proxy_answers_everyone s ls s' c host port pc :
  reachable s -> open_ (shared s) = false -> conns s !! c = Some (On host port pc) -> steps ls s = Some s' ->
  exists pc', conns s' !! c = Some (On host port pc') /\
    (answered pc' \/ (own_steps c ls < 12)%nat /\ is_some (step (LRun c) s') = true).
Proof.
  intros Hr Ho Hc Hs. destruct (steps_left ls s s' c host port pc) as (pc' & Hc' & [Ho' _] & Hle);
    [by apply closed_reachable|done..|]. exists pc'. split; [done|].
  pose proof (left_steps_bound (generation (shared s)) pc) as Hb.
  destruct (left_steps (generation (shared s')) pc') as [|n] eqn:E.
  - left. by apply left_steps_answered in E.
  - right. split; [lia|]. cbn [step]. unfold run. rewrite Hc'. apply run_pc_enabled; [done|].
    intros Ha. apply (left_steps_answered (generation (shared s'))) in Ha. lia.
Qed.

Lemma gone_proxy_answers_everyone_witness :
  exists pc', conns (demo (demo_held ++ [LDrop; LRun 0; LTick 5; LRun 0])).2 !! 0%nat = Some (On "example.com" 443 pc') /\
    (answered pc' \/ (own_steps 0 [LRun 0; LTick 5; LRun 0] < 12)%nat /\
     is_some (step (LRun 0) (demo (demo_held ++ [LDrop; LRun 0; LTick 5; LRun 0])).2) = true).
Proof.
  refine (gone_proxy_answers_everyone (demo (demo_held ++ [LDrop])).2 [LRun 0; LTick 5; LRun 0] _ 0 "example.com" 443 (Wait 1 0 0) _ _ _ _).
  - apply proxy_reachable. vm_compute. reflexivity.
  - vm_compute. reflexivity.
  - vm_compute. reflexivity.
  - vm_compute. reflexivity.
Defined.
