(* ===== verification/EgressTold.v ===== *)
(** * What the engine is told of holds

    Each hold is announced once, by its first connection, and its end reported at most once, after
    the announcement and with the same id, host and port, whatever order the connections, the
    updates and the clock take. *)

From S2P Require Import Prelude RustStr RustText EgressPolicy EgressRequest Egress EgressHold.

Local Open Scope string_scope.
Local Open Scope list_scope.

(** ** The story of the events *)

Definition held_id (e : EgressEvent) : option N := match e with Held id _ _ => Some id | _ => None end.
Definition ended_id (e : EgressEvent) : option N := match e with HoldEnded id _ _ _ => Some id | _ => None end.
Definition held_ids (evs : list EgressEvent) : list N := omap held_id evs.
Definition ended_ids (evs : list EgressEvent) : list N := omap ended_id evs.

(** [evs] newest first. *)
Fixpoint told (evs : list EgressEvent) : Prop :=
  match evs with
  | [] => True
  | e :: rest =>
      told rest /\
      match e with
      | Held id _ _ => id ∉ held_ids rest
      | HoldEnded id host port _ => Held id host port ∈ rest /\ id ∉ ended_ids rest
      | _ => True
      end
  end.

Lemma elem_of_held_ids id evs : id ∈ held_ids evs <-> exists host port, Held id host port ∈ evs.
Proof.
  unfold held_ids. rewrite list_elem_of_omap. split.
  - intros ([] & Hin & [= <-]). eauto.
  - intros (host & port & Hin). by eexists (Held _ _ _).
Qed.

Lemma told_ended_held evs id : told evs -> id ∈ ended_ids evs -> id ∈ held_ids evs.
Proof.
  intros Ht. unfold ended_ids. rewrite list_elem_of_omap. intros (e & Hin & He). destruct e; try done. injection He as ->.
  apply elem_of_held_ids. induction evs as [|e evs IH]; [by apply elem_of_nil in Hin|].
  destruct Ht as [Ht He]. apply elem_of_cons in Hin as [<-|Hin].
  - destruct He as [He _]. exists host, port. by right.
  - destruct (IH Ht Hin) as (h & p & ?). exists h, p. by right.
Qed.

(** An id is held on one host and port. *)
Lemma told_held_fun evs id host port host' port' : told evs ->
  Held id host port ∈ evs -> Held id host' port' ∈ evs -> host = host' /\ port = port'.
Proof.
  induction evs as [|e evs IH]; [by intros _ H%elem_of_nil|]. intros [Ht He].
  assert (forall h p, Held id h p ∈ evs -> id ∈ held_ids evs) as Hin by (intros h p ?; apply elem_of_held_ids; eauto).
  rewrite !elem_of_cons. intros [E1|H1] [E2|H2]; [by subst e; injection E2| | |by apply IH].
  - subst e. by destruct He; eapply Hin.
  - subst e. by destruct He; eapply Hin.
Qed.

(** ** Who has a hold to announce or to end *)

Inductive Role :=
| RAnnounce (host : string) (port id : N)
| REnd (host : string) (port id : N).

Definition role (x : Conn) : option Role :=
  match x with
  | On host port (Announce id _ _) => Some (RAnnounce host port id)
  | On host _ (End_ id port _) => Some (REnd host port id)
  | _ => None
  end.

Definition role_id (r : Role) : N := match r with RAnnounce _ _ id | REnd _ _ id => id end.

(** The story so far, the holds and the connections agree. *)
Record tale (hs : gmap string Hold) (ids : N) (m : gmap nat Conn) (evs : list EgressEvent) : Prop := {
  tl_told : told evs;
  tl_ids : forall id, (id ∈ held_ids evs) -> (id <= ids)%N;
  tl_hold : forall host h, hs !! host = Some h -> (h_id h ∉ ended_ids evs) /\
    (Held (h_id h) host (h_port h) ∈ evs \/
     exists c x, m !! c = Some x /\ role x = Some (RAnnounce host (h_port h) (h_id h)));
  tl_announce : forall c x host port id, m !! c = Some x -> role x = Some (RAnnounce host port id) ->
    (id ∉ held_ids evs) /\ exists h, hs !! host = Some h /\ h_id h = id /\ h_port h = port;
  tl_end : forall c x host port id, m !! c = Some x -> role x = Some (REnd host port id) ->
    (Held id host port ∈ evs) /\ (id ∉ ended_ids evs) /\ forall host' h, hs !! host' = Some h -> h_id h <> id;
  tl_uniq : forall c1 c2 x1 x2 r1 r2, m !! c1 = Some x1 -> m !! c2 = Some x2 -> role x1 = Some r1 ->
    role x2 = Some r2 -> role_id r1 = role_id r2 -> c1 = c2;
  tl_open : forall id host port, Held id host port ∈ evs -> id ∉ ended_ids evs ->
    (exists h, hs !! host = Some h /\ h_id h = id) \/
    exists c x, m !! c = Some x /\ role x = Some (REnd host port id);
}.

Lemma tale_init ids : tale ∅ ids ∅ [].
Proof.
  split; [done|by intros id H%elem_of_nil| | | | |by intros id host port H%elem_of_nil]; intros *; by rewrite lookup_empty.
Qed.

(** A connection whose role stays. *)
Lemma role_insert c x (m : gmap nat Conn) c' y r : m !! c ≫= role = role x ->
  <[c := x]> m !! c' = Some y -> role y = Some r -> exists z, m !! c' = Some z /\ role z = Some r.
Proof.
  intros Hx. destruct (decide (c' = c)) as [->|Hne]; [|rewrite lookup_insert_ne by done; eauto].
  rewrite lookup_insert_eq. intros [= <-] Hr. rewrite <-Hx in Hr. destruct (m !! c) as [z|]; [eauto|done].
Qed.

Lemma role_insert_old c x (m : gmap nat Conn) c' y r : m !! c ≫= role = role x ->
  m !! c' = Some y -> role y = Some r -> exists z, <[c := x]> m !! c' = Some z /\ role z = Some r.
Proof.
  intros Hx Hy Hr. destruct (decide (c' = c)) as [->|Hne]; [|rewrite lookup_insert_ne by done; eauto].
  rewrite Hy in Hx. rewrite lookup_insert_eq. exists x. split; [done|]. by rewrite <-Hx.
Qed.

Lemma tale_same hs ids m evs c x : m !! c ≫= role = role x -> tale hs ids m evs -> tale hs ids (<[c := x]> m) evs.
Proof.
  intros Hx [H1 H2 H3 H4 H5 H6 H7]. split; try done.
  - intros host h Hh. destruct (H3 _ _ Hh) as [He [Hin|(c' & y & Hy & Hr)] ]; (split; [done|]); [by left|right].
    exists c'. eapply role_insert_old; eauto.
  - intros c' y host port id Hy Hr. destruct (role_insert _ _ _ _ _ _ Hx Hy Hr) as (z & Hz & Hr'). by eapply H4.
  - intros c' y host port id Hy Hr. destruct (role_insert _ _ _ _ _ _ Hx Hy Hr) as (z & Hz & Hr'). by eapply H5.
  - intros c1 c2 x1 x2 r1 r2 Hy1 Hy2 Hr1 Hr2.
    destruct (role_insert _ _ _ _ _ _ Hx Hy1 Hr1) as (z1 & Hz1 & Hr1').
    destruct (role_insert _ _ _ _ _ _ Hx Hy2 Hr2) as (z2 & Hz2 & Hr2'). by eapply H6.
  - intros id host port Hin Hn. destruct (H7 _ _ _ Hin Hn) as [?|(c' & y & Hy & Hr)]; [by left|right].
    exists c'. eapply role_insert_old; eauto.
Qed.

(** Only the id and the port of a hold are told. *)
Lemma tale_holds hs hs' ids m evs :
  (forall host, (fun h => (h_id h, h_port h)) <$> hs' !! host = (fun h => (h_id h, h_port h)) <$> hs !! host) ->
  tale hs ids m evs -> tale hs' ids m evs.
Proof.
  intros E. assert (forall host h', hs' !! host = Some h' -> exists h, hs !! host = Some h /\ h_id h = h_id h' /\ h_port h = h_port h') as Hd.
  { intros host h' Hh. specialize (E host). rewrite Hh in E. destruct (hs !! host) as [h|]; [|done].
    injection E as ? ?. eauto. }
  intros [H1 H2 H3 H4 H5 H6 H7]. split; try done.
  - intros host h' Hh. destruct (Hd _ _ Hh) as (h & Hh0 & <- & <-). by apply H3.
  - intros c x host port id Hx Hr. destruct (H4 _ _ _ _ _ Hx Hr) as [Hn (h & Hh & <- & <-)]. split; [done|].
    specialize (E host). rewrite Hh in E. destruct (hs' !! host) as [h'|]; [|done]. injection E as ? ?. eauto.
  - intros c x host port id Hx Hr. destruct (H5 _ _ _ _ _ Hx Hr) as (Hin & Hn & Hno). split_and!; try done.
    intros host' h' Hh. destruct (Hd _ _ Hh) as (h & Hh0 & <- & _). by eapply Hno.
  - intros id host port Hin Hn. destruct (H7 _ _ _ Hin Hn) as [(h & Hh & <-)|?]; [left|by right].
    specialize (E host). rewrite Hh in E. destruct (hs' !! host) as [h'|]; [|done]. injection E as ? ?. eauto.
Qed.

Lemma tale_more_ids hs ids ids' m evs : (ids <= ids')%N -> tale hs ids m evs -> tale hs ids' m evs.
Proof. intros Hle [H1 H2 H3 H4 H5 H6 H7]. split; try done. intros id Hid. specialize (H2 _ Hid). lia. Qed.

(** An event that is about no hold. *)
Lemma tale_emit hs ids m evs e : held_id e = None -> ended_id e = None -> tale hs ids m evs -> tale hs ids m (e :: evs).
Proof.
  intros Hh He [H1 H2 H3 H4 H5 H6 H7].
  assert (held_ids (e :: evs) = held_ids evs) as E1 by (cbn; by rewrite Hh).
  assert (ended_ids (e :: evs) = ended_ids evs) as E2 by (cbn; by rewrite He).
  split; try done.
  - split; [done|]. by destruct e.
  - intros id. rewrite E1. apply H2.
  - intros host h Hh'. rewrite E2. destruct (H3 _ _ Hh') as [? [?|?]]; (split; [done|]); [left; by right|by right].
  - intros c x host port id Hx Hr. rewrite E1. by eapply H4.
  - intros c x host port id Hx Hr. rewrite E2. destruct (H5 _ _ _ _ _ Hx Hr) as (? & ? & ?). split_and!; try done. by right.
  - intros id host port Hin. rewrite E2. apply H7. apply elem_of_cons in Hin as [<-|Hin]; [by cbn in Hh|done].
Qed.

(** ** The four moves of a hold *)

Lemma lookup_insert_case {A} (m : gmap nat A) c x c' y : <[c := x]> m !! c' = Some y -> (c' = c /\ y = x) \/ (c' <> c /\ m !! c' = Some y).
Proof.
  destruct (decide (c' = c)) as [->|Hne]; [rewrite lookup_insert_eq; intros [= ->]; by left|].
  rewrite lookup_insert_ne by done. by right.
Qed.

(** The first connection to a host starts its hold. *)
Lemma tale_begin hs ids m evs c x0 x host port id since n :
  hs !! host = None -> (ids < id)%N -> m !! c = Some x0 -> role x0 = None ->
  role x = Some (RAnnounce host port id) -> (forall h k, hs !! h = Some k -> (h_id k <= ids)%N) ->
  tale hs ids m evs -> tale (<[host := mkHold id since port n]> hs) id (<[c := x]> m) evs.
Proof.
  intros Hn Hid Hc H0 Hx Hle [H1 H2 H3 H4 H5 H6 H7].
  assert (forall c' y r, <[c := x]> m !! c' = Some y -> role y = Some r -> c' <> c -> (role_id r <= ids)%N) as Hr.
  { intros c' y r Hy Hr Hne. rewrite lookup_insert_ne in Hy by done. destruct r as [h p i|h p i]; cbn.
    - destruct (H4 _ _ _ _ _ Hy Hr) as [_ (k & Hk & <- & _)]. by eapply Hle.
    - destruct (H5 _ _ _ _ _ Hy Hr) as (Hin & _ & _). apply H2, elem_of_held_ids. eauto. }
  assert (id ∉ held_ids evs) as Hfresh by (intros ?%H2; lia).
  split; try done.
  - intros i Hi. specialize (H2 _ Hi). lia.
  - intros h k. destruct (decide (h = host)) as [->|Hne].
    + rewrite lookup_insert_eq. intros [= <-]. cbn. split.
      * intros Hin%told_ended_held; done.
      * right. exists c, x. by rewrite lookup_insert_eq.
    + rewrite lookup_insert_ne by done. intros Hk. destruct (H3 _ _ Hk) as [? [?|(c' & y & Hy & Hry)] ]; (split; [done|]); [by left|].
      right. exists c', y. rewrite lookup_insert_ne; [done|]. intros ->. congruence.
  - intros c' y h p i Hy Hry. destruct (lookup_insert_case _ _ _ _ _ Hy) as [[-> ->]|[Hne Hy'] ].
    + rewrite Hx in Hry. injection Hry as <- <- <-. split; [done|]. rewrite lookup_insert_eq. eauto.
    + destruct (H4 _ _ _ _ _ Hy' Hry) as [Hnot (k & Hk & <- & <-)]. split; [done|]. exists k.
      rewrite lookup_insert_ne; [done|]. intros ->. congruence.
  - intros c' y h p i Hy Hry. destruct (lookup_insert_case _ _ _ _ _ Hy) as [[-> ->]|[Hne Hy'] ]; [congruence|].
    destruct (H5 _ _ _ _ _ Hy' Hry) as (Hin & Hnot & Hno). split_and!; try done. intros h' k.
    destruct (decide (h' = host)) as [->|Hnh]; [|rewrite lookup_insert_ne by done; apply Hno].
    rewrite lookup_insert_eq. intros [= <-]. cbn. specialize (Hr _ _ _ Hy Hry Hne). cbn in Hr. lia.
  - intros c1 c2 x1 x2 r1 r2 Hy1 Hy2 Hr1 Hr2 E.
    destruct (lookup_insert_case _ _ _ _ _ Hy1) as [[-> ->]|[Hn1 Hy1'] ], (lookup_insert_case _ _ _ _ _ Hy2) as [[-> ->]|[Hn2 Hy2'] ]; [done|..].
    + specialize (Hr _ _ _ Hy2 Hr2 Hn2). rewrite Hx in Hr1. injection Hr1 as <-. cbn in *. lia.
    + specialize (Hr _ _ _ Hy1 Hr1 Hn1). rewrite Hx in Hr2. injection Hr2 as <-. cbn in *. lia.
    + by eapply H6.
  - intros i h p Hin Hnot. destruct (H7 _ _ _ Hin Hnot) as [(k & Hk & <-)|(c' & y & Hy & Hry)].
    + left. exists k. rewrite lookup_insert_ne; [done|]. intros ->. congruence.
    + right. exists c', y. rewrite lookup_insert_ne; [done|]. intros ->. congruence.
Qed.

(** It announces the hold. *)
Lemma tale_announced hs ids m evs c x0 x host port id :
  m !! c = Some x0 -> role x0 = Some (RAnnounce host port id) -> role x = None ->
  (forall h1 h2 k1 k2, hs !! h1 = Some k1 -> hs !! h2 = Some k2 -> h_id k1 = h_id k2 -> h1 = h2) ->
  (forall h k, hs !! h = Some k -> (h_id k <= ids)%N) ->
  tale hs ids m evs -> tale hs ids (<[c := x]> m) (Held id host port :: evs).
Proof.
  intros Hc H0 Hx Hinj Hle [H1 H2 H3 H4 H5 H6 H7].
  destruct (H4 _ _ _ _ _ Hc H0) as [Hfresh (k0 & Hk0 & <- & <-)].
  assert (forall c' y r, <[c := x]> m !! c' = Some y -> role y = Some r -> m !! c' = Some y /\ role_id r <> h_id k0) as Hother.
  { intros c' y r Hy Hr. destruct (lookup_insert_case _ _ _ _ _ Hy) as [[-> ->]|[Hne Hy'] ]; [congruence|].
    split; [done|]. intros E. by apply Hne, (H6 c' c _ _ _ _ Hy' Hc Hr H0). }
  split.
  - by split.
  - intros i [->|Hi]%elem_of_cons; [by eapply Hle|by apply H2].
  - intros h k Hk. destruct (H3 _ _ Hk) as [Hnot Hor]. split; [done|]. destruct Hor as [Hin|(c' & y & Hy & Hr)]; [left; by right|].
    destruct (decide (c' = c)) as [->|Hne].
    + rewrite Hc in Hy. injection Hy as <-. rewrite H0 in Hr. injection Hr as -> -> ->. left. by left.
    + right. exists c', y. by rewrite lookup_insert_ne.
  - intros c' y h p i Hy Hr. destruct (Hother _ _ _ Hy Hr) as [Hy' Hid]. destruct (H4 _ _ _ _ _ Hy' Hr) as [Hnot Hex].
    split; [|done]. intros [->|Hi]%elem_of_cons; done.
  - intros c' y h p i Hy Hr. destruct (Hother _ _ _ Hy Hr) as [Hy' Hid]. destruct (H5 _ _ _ _ _ Hy' Hr) as (Hin & Hnot & Hno).
    split_and!; try done. by right.
  - intros c1 c2 x1 x2 r1 r2 Hy1 Hy2 Hr1 Hr2. destruct (Hother _ _ _ Hy1 Hr1) as [Hy1' _], (Hother _ _ _ Hy2 Hr2) as [Hy2' _].
    by eapply H6.
  - intros i h p [[= -> -> ->]|Hin]%elem_of_cons Hn; [left; eauto|].
    destruct (H7 _ _ _ Hin Hn) as [?|(c' & y & Hy & Hr)]; [by left|]. right. exists c', y.
    rewrite lookup_insert_ne; [done|]. intros ->. congruence.
Qed.

(** The last connection leaves the hold, which no other connection is in. *)
Lemma tale_left hs ids m evs c x0 x host k :
  hs !! host = Some k -> m !! c = Some x0 -> role x0 = None -> role x = Some (REnd host (h_port k) (h_id k)) ->
  (forall h1 h2 k1 k2, hs !! h1 = Some k1 -> hs !! h2 = Some k2 -> h_id k1 = h_id k2 -> h1 = h2) ->
  (forall c' y p i, m !! c' = Some y -> role y <> Some (RAnnounce host p i)) ->
  tale hs ids m evs -> tale (delete host hs) ids (<[c := x]> m) evs.
Proof.
  intros Hk Hc H0 Hx Hinj Hnone [H1 H2 H3 H4 H5 H6 H7].
  assert (forall c' y r, m !! c' = Some y -> role y = Some r -> role_id r <> h_id k) as Hother.
  { intros c' y r Hy Hr E. destruct r as [h p i|h p i]; cbn in E; subst i.
    - destruct (H4 _ _ _ _ _ Hy Hr) as [_ (k' & Hk' & E & _)]. rewrite (Hinj _ _ _ _ Hk' Hk E) in Hr. by eapply Hnone.
    - destruct (H5 _ _ _ _ _ Hy Hr) as (_ & _ & Hno). by eapply Hno. }
  destruct (H3 _ _ Hk) as [Hnot [Hheld|(c' & y & Hy & Hr)] ]; [|by destruct (Hnone _ _ _ _ Hy Hr)].
  split; try done.
  - intros h k' [Hne Hk']%lookup_delete_Some. destruct (H3 _ _ Hk') as [Hn [?|(c' & y & Hy & Hr)] ]; (split; [done|]); [by left|].
    right. exists c', y. rewrite lookup_insert_ne; [done|]. intros ->. congruence.
  - intros c' y h p i Hy Hr. destruct (lookup_insert_case _ _ _ _ _ Hy) as [[-> ->]|[Hne Hy'] ]; [congruence|].
    destruct (H4 _ _ _ _ _ Hy' Hr) as [Hn (k' & Hk' & Hrest)]. split; [done|]. exists k'.
    rewrite lookup_delete_ne; [done|]. intros <-. by eapply Hnone.
  - intros c' y h p i Hy Hr. destruct (lookup_insert_case _ _ _ _ _ Hy) as [[-> ->]|[Hne Hy'] ].
    + rewrite Hx in Hr. injection Hr as <- <- <-. split_and!; try done.
      intros h' k' [Hne Hk']%lookup_delete_Some E. apply Hne. symmetry. by eapply Hinj.
    + destruct (H5 _ _ _ _ _ Hy' Hr) as (Hin & Hn & Hno). split_and!; try done.
      intros h' k' [_ Hk']%lookup_delete_Some. by eapply Hno.
  - intros c1 c2 x1 x2 r1 r2 Hy1 Hy2 Hr1 Hr2 E.
    destruct (lookup_insert_case _ _ _ _ _ Hy1) as [[-> ->]|[Hn1 Hy1'] ], (lookup_insert_case _ _ _ _ _ Hy2) as [[-> ->]|[Hn2 Hy2'] ]; [done|..].
    + rewrite Hx in Hr1. injection Hr1 as <-. by destruct (Hother _ _ _ Hy2' Hr2).
    + rewrite Hx in Hr2. injection Hr2 as <-. by destruct (Hother _ _ _ Hy1' Hr1).
    + by eapply H6.
  - intros i h p Hin Hn. destruct (H7 _ _ _ Hin Hn) as [(k' & Hk' & <-)|(c' & y & Hy & Hr)].
    + destruct (decide (h = host)) as [->|Hne]; [|left; exists k'; by rewrite lookup_delete_ne].
      right. exists c, x. rewrite lookup_insert_eq. split; [done|]. rewrite Hk in Hk'. injection Hk' as <-.
      by destruct (told_held_fun _ _ _ _ _ _ H1 Hheld Hin) as [_ <-].
    + right. exists c', y. rewrite lookup_insert_ne; [done|]. intros ->. congruence.
Qed.

(** And reports its end. *)
Lemma tale_ended hs ids m evs c x0 x host port id admitted :
  m !! c = Some x0 -> role x0 = Some (REnd host port id) -> role x = None ->
  tale hs ids m evs -> tale hs ids (<[c := x]> m) (HoldEnded id host port admitted :: evs).
Proof.
  intros Hc H0 Hx [H1 H2 H3 H4 H5 H6 H7]. destruct (H5 _ _ _ _ _ Hc H0) as (Hin & Hnot & Hno).
  assert (forall c' y r, <[c := x]> m !! c' = Some y -> role y = Some r -> m !! c' = Some y /\ role_id r <> id) as Hother.
  { intros c' y r Hy Hr. destruct (lookup_insert_case _ _ _ _ _ Hy) as [[-> ->]|[Hne Hy'] ]; [congruence|].
    split; [done|]. intros E. by apply Hne, (H6 c' c _ _ _ _ Hy' Hc Hr H0). }
  split.
  - by split.
  - done.
  - intros h k Hk. destruct (H3 _ _ Hk) as [Hn Hor]. split.
    + intros [E|Hi]%elem_of_cons; [by apply (Hno _ _ Hk)|done].
    + destruct Hor as [?|(c' & y & Hy & Hr)]; [left; by right|]. right. exists c', y.
      rewrite lookup_insert_ne; [done|]. intros ->. congruence.
  - intros c' y h p i Hy Hr. destruct (Hother _ _ _ Hy Hr) as [Hy' _]. by eapply H4.
  - intros c' y h p i Hy Hr. destruct (Hother _ _ _ Hy Hr) as [Hy' Hid]. destruct (H5 _ _ _ _ _ Hy' Hr) as (Hi & Hn & Hno').
    split_and!; [by right| |done]. intros [->|Hi']%elem_of_cons; done.
  - intros c1 c2 x1 x2 r1 r2 Hy1 Hy2 Hr1 Hr2. destruct (Hother _ _ _ Hy1 Hr1) as [Hy1' _], (Hother _ _ _ Hy2 Hr2) as [Hy2' _].
    by eapply H6.
  - intros i h p [[=]|Hi]%elem_of_cons Hn. cbn in Hn. apply not_elem_of_cons in Hn as [Hne Hn].
    destruct (H7 _ _ _ Hi Hn) as [?|(c' & y & Hy & Hr)]; [by left|]. right. exists c', y.
    rewrite lookup_insert_ne; [done|]. intros ->. congruence.
Qed.

(** ** The tale is kept *)

Definition tale_ok (s : State) : Prop := tale (held (shared s)) (hold_ids s) (conns s) (events s).

Lemma plain_role x : plain x = true -> role x = None.
Proof. by destruct x as [|host port [[] | | | | | | | | | | | |]|]. Qed.

Lemma role_answer host port w v : role (On host port (answer w v)) = None.
Proof. by destruct w, v. Qed.

Lemma role_after host port a : role (On host port (after_hold a)) = None.
Proof. by destruct a. Qed.

Lemma tale_go host port pc pc' c hs ids m evs : m !! c = Some (On host port pc) ->
  role (On host port pc) = None -> role (On host port pc') = None -> tale hs ids m evs ->
  tale hs ids (<[c := On host port pc']> m) evs.
Proof. intros Hc E E'. apply tale_same. by rewrite Hc, E'. Qed.

(** The last connection of a hold is its only one. *)
Lemma last_is_alone hs ids m host k c x id c' y id' :
  acc hs ids m -> hs !! host = Some k -> (h_waiting k - 1)%nat = 0%nat ->
  m !! c = Some x -> mark x = Some (host, id) -> m !! c' = Some y -> mark y = Some (host, id') -> c' = c.
Proof.
  intros Ha Hk Hw Hx Hmx Hy Hmy. destruct (decide (c' = c)) as [|Hne]; [done|]. exfalso.
  assert (holders host m !! c = Some x) as Hin by (apply map_lookup_filter_Some; split; [done|by eapply in_hold_on_here]).
  assert (holders host m !! c' = Some y) as Hin' by (apply map_lookup_filter_Some; split; [done|by eapply in_hold_on_here]).
  pose proof (acc_count _ _ _ Ha host) as Hs. rewrite Hk in Hs.
  rewrite <-(insert_delete_id _ _ _ Hin) in Hs.
  rewrite map_size_insert_None in Hs by apply lookup_delete_eq.
  assert (delete c (holders host m) !! c' = Some y) as Hd by (by rewrite lookup_delete_ne).
  rewrite <-(insert_delete_id _ _ _ Hd) in Hs.
  rewrite map_size_insert_None in Hs by apply lookup_delete_eq. lia.
Qed.

Lemma tale_join c host port seen s j hs ids :
  join_hold (now s) (hold_ids s) (held (shared s)) host port = Some (j, hs, ids) ->
  conns s !! c = Some (On host port (Join seen)) -> acc_ok s -> tale_ok s ->
  tale hs ids (<[c := On host port (if j_first j then Announce (j_id j) (j_since j) seen
                                    else Check (InHold (j_id j) (j_since j) seen))]> (conns s)) (events s).
Proof.
  intros Hj Hc Ha Ht. unfold join_hold in Hj. destruct (held (shared s) !! host) as [k|] eqn:Ek.
  - injection Hj as <- <- <-. cbn. eapply tale_go; [done..|]. eapply tale_holds; [|done].
    intros h. destruct (decide (h = host)) as [->|Hne]; [by rewrite lookup_insert_eq, Ek|by rewrite lookup_insert_ne].
  - destruct (_ <=? _)%nat; [done|]. injection Hj as <- <- <-. cbn.
    eapply (tale_begin _ (hold_ids s)); [done| |done|done|done|apply Ha|done]. unfold next_hold_id. lia.
Qed.

Lemma tale_leave c host port id admitted s ended hs :
  leave_hold (held (shared s)) host = (ended, hs) ->
  conns s !! c = Some (On host port (Leave id admitted)) -> acc_ok s -> tale_ok s ->
  tale hs (hold_ids s) (<[c := On host port (match ended with Some port' => End_ id port' admitted
                                             | None => after_hold admitted end)]> (conns s)) (events s).
Proof.
  intros Hl Hc Ha Ht. destruct (acc_mark _ _ _ Ha _ _ _ _ Hc eq_refl) as (k & Hk & Hid).
  unfold leave_hold in Hl. rewrite Hk in Hl. destruct (Nat.ltb_spec 0 (h_waiting k - 1)) as [Hw|Hw]; injection Hl as <- <-.
  - eapply tale_go; [done|done|apply role_after|]. eapply tale_holds; [|done].
    intros h. destruct (decide (h = host)) as [->|Hne]; [by rewrite lookup_insert_eq, Hk|by rewrite lookup_insert_ne].
  - subst id. eapply tale_left; [done|done|done|done|apply Ha| |done].
    intros c' y p i Hy Hr. destruct y as [|h pt pc|]; try done. destruct pc; try done. injection Hr as -> -> ->.
    assert (c' = c) as ->; [|congruence].
    eapply (last_is_alone _ _ _ _ _ _ _ (h_id k)); [exact Ha|exact Hk|lia|exact Hc|done|exact Hy|reflexivity].
Qed.

Lemma tale_run_pc c host port pc s s' : conns s !! c = Some (On host port pc) ->
  run_pc c host port pc s = Some s' -> acc_ok s -> tale_ok s -> tale_ok s'.
Proof.
  intros Hc Hr Ha Ht. unfold tale_ok. destruct pc; cbn [run_pc] in Hr; try done.
  - destruct (check _ _ _) as [?|[]]; injection Hr as <-; (eapply tale_go; [done|done| |done]); by rewrite ?role_answer.
  - destruct (is_declined _ _); injection Hr as <-; (eapply tale_go; [done|done| |done]); by rewrite ?role_answer.
  - injection Hr as <-. eapply tale_go; [done|done| |done]. by rewrite role_answer.
  - injection Hr as <-. by eapply tale_go.
  - destruct (join_hold _ _ _ _ _) as [[[j hs] ids]|] eqn:Ej; injection Hr as <-;
      [exact (tale_join _ _ _ _ _ _ _ _ Ej Hc Ha Ht)|by eapply tale_go].
  - injection Hr as <-. eapply tale_announced; [done|reflexivity|done|apply Ha..|done].
  - destruct (negb _); [|destruct (_ || _)]; try done; injection Hr as <-; by eapply tale_go.
  - destruct (leave_hold _ _) as [ended hs] eqn:El. injection Hr as <-. exact (tale_leave _ _ _ _ _ _ _ _ El Hc Ha Ht).
  - injection Hr as <-. eapply tale_ended; [done|reflexivity|apply role_after|done].
  - injection Hr as <-. cbn [events emit with_conn reply shared held conns hold_ids]. apply tale_emit; [done..|]. by eapply tale_go.
Qed.

Lemma tale_aside s s' : aside s s' -> tale_ok s -> tale_ok s'.
Proof.
  intros [Hh Hi Hc He] Ht. unfold tale_ok in *. rewrite Hh. eapply tale_more_ids; [done|].
  assert (tale (held (shared s)) (hold_ids s) (conns s') (events s)) as Ht'.
  { destruct Hc as [->|(c & x & -> & Hy & Hx)]; [done|]. apply tale_same; [|done].
    rewrite (plain_role x) by done. destruct (conns s !! c) as [y|]; [|done]. by apply plain_role, Hy. }
  destruct He as [->|(e & -> & He)]; [done|]. apply tale_emit; [by destruct e..|done].
Qed.

Lemma tale_reachable s : reachable s -> tale_ok s.
Proof.
  revert s. apply reachable_ind.
  - intros. apply tale_init.
  - intros s l s' Hr Ht [(c & host & port & pc & Hc & Hrun)|Has]%step_cases; [|by eapply tale_aside].
    eapply tale_run_pc; [done..|by apply acc_reachable|done].
Qed.

(** (C11) Whatever the interleaving: at most [MAX_HELD_HOSTS] hosts are held, the hold of a host counts
    exactly the connections in it, all of which carry its id, and a host without one has none; and
    the engine is told of each hold once as it starts and at most once as it ends, after the start
    and under the same id, host and port. *)
Theorem holds_are_accounted_and_told s : reachable s ->
  (size (held (shared s)) <= MAX_HELD_HOSTS)%nat /\
  (forall host, match held (shared s) !! host with
     | Some h => (0 < h_waiting h)%nat /\ h_waiting h = size (holders host (conns s)) /\
         h_id h ∉ ended_ids (events s) /\
         forall c x i, conns s !! c = Some x -> mark x = Some (host, i) -> i = h_id h
     | None => holders host (conns s) = ∅
     end) /\
  told (events s).
Proof.
  intros Hr. pose proof (acc_reachable s Hr) as [H1 H2 H3 H4 H5 H6]. pose proof (tale_reachable s Hr) as Ht.
  split; [done|]. split; [|apply Ht]. intros host. pose proof (H1 host) as Hs.
  destruct (held (shared s) !! host) as [h|] eqn:E; [|by apply map_size_empty_inv].
  split_and!; [by eapply H2|done|by eapply tl_hold|]. intros c x i Hx Hm.
  destruct (H3 _ _ _ _ Hx Hm) as (h' & Hh & <-). congruence.
Qed.

Lemma holds_are_accounted_and_told_witness :
  (size (held (shared (demo demo_held).2)) <= MAX_HELD_HOSTS)%nat /\ told (events (demo demo_held).2).
Proof.
  pose proof (holds_are_accounted_and_told (demo demo_held).2
    (proxy_reachable demo_held ltac:(vm_compute; reflexivity))) as (H1 & _ & H2).
  split; [exact H1|exact H2].
Defined.

(** ** The end of a hold does not speak for all its connections *)

(** Two connections are held; a list gets their host, one of them is let through, and the list loses
    it before the other looks. *)
Definition demo_race : list Label :=
  demo_held ++ [LAccept 1; LHeader 1 demo_head] ++ replicate 8 (LRun 1)
  ++ [LUpdate 0 (mkEgressPolicy [Exact "example.com"] DEFAULT_PORTS) MHold; LOp 0; LOp 0] ++ replicate 3 (LRun 0)
  ++ [LUpdate 0 (mkEgressPolicy [] DEFAULT_PORTS) MRefuse; LOp 0; LOp 0] ++ replicate 7 (LRun 1)
  ++ [LReach 0 Connected; LEnd 0 (Copied 1 2)].

(** The hold's end says no one was admitted, and a connection it held reports its tunnel. *)
Theorem hold_end_may_contradict_a_tunnel :
  events (demo demo_race).2 =
    [Allowed "example.com" 443 Listed 1 2; Denied "example.com" 443 DenyHost;
     HoldEnded 1 "example.com" 443 false; Held 1 "example.com" 443].
Proof. vm_compute. reflexivity. Qed.
