(* ===== verification/EgressLicence.v ===== *)
(** * What lets a tunnel through

    Every tunnel, and every [Allowed] event, traces back to one decision of its own connection: a
    policy that listed the host on that port, or a mode that admits what is neither listed nor
    declined, each read at some moment of that decision. A declined host is out until a list has it. *)

From S2P Require Import Prelude RustStr RustText EgressPolicy EgressRequest Egress EgressHold EgressTold.

Local Open Scope string_scope.
Local Open Scope list_scope.

(** ** Licences *)

(** The mode an admission off the list names. *)
Definition mode_of (a : Admission) : option Mode :=
  match a with Listed => None | ByOpen => Some MOpen | ByOverride => Some MOverride end.

(** [x] came no later than [y]. *)
Definition later (x y : State) : Prop := exists ls, steps ls x = Some y.

(** Connection [c] was at [pc] in [s]. *)
Definition at_ (c : nat) (host : string) (port : N) (pc : Pc) (s : State) : Prop :=
  conns s !! c = Some (On host port pc).

(** Each disjunct is one decision of [c], its reads in order. *)
Definition licensed (past : list State) (c : nat) (host : string) (port : N) (a : Admission) : Prop :=
  match mode_of a with
  | None => exists w s, s ∈ past /\ at_ c host port (Check w) s /\ check (policy (shared s)) host port = Ok tt
  | Some m => exists w s1 s2 s3, (s1 ∈ past /\ s2 ∈ past /\ s3 ∈ past) /\ later s1 s2 /\ later s2 s3 /\
      (at_ c host port (Check w) s1 /\ check (policy (shared s1)) host port = Err DenyHost) /\
      (at_ c host port (CheckDeclined w) s2 /\ is_declined (shared s2) host = false) /\
      (at_ c host port (ReadMode w) s3 /\ mode (shared s3) = m)
  end.

(** How far the decision at [pc] has come. *)
Definition deciding (past : list State) (c : nat) (host : string) (port : N) (pc : Pc) (s : State) : Prop :=
  match pc with
  | CheckDeclined w => exists s1, s1 ∈ past /\ later s1 s /\ at_ c host port (Check w) s1 /\
      check (policy (shared s1)) host port = Err DenyHost
  | ReadMode w => exists s1 s2, (s1 ∈ past /\ s2 ∈ past) /\ later s1 s2 /\ later s2 s /\
      (at_ c host port (Check w) s1 /\ check (policy (shared s1)) host port = Err DenyHost) /\
      (at_ c host port (CheckDeclined w) s2 /\ is_declined (shared s2) host = false)
  | Leave _ (Some a) | End_ _ _ (Some a) | Connect a | Tunnel a => licensed past c host port a
  | _ => True
  end.

Lemma later_refl x : later x x.
Proof. by exists []. Qed.

Lemma steps_app ls ls' s : steps (ls ++ ls') s = steps ls s ≫= steps ls'.
Proof. revert s. induction ls as [|l ls IH]; intros s; cbn; [done|]. destruct (step l s); cbn; [apply IH|done]. Qed.

Lemma later_step x y y' l : later x y -> step l y = Some y' -> later x y'.
Proof. intros [ls H] E. exists (ls ++ [l]). rewrite steps_app, H. cbn. by rewrite E. Qed.

Lemma later_trans x y z : later x y -> later y z -> later x z.
Proof. intros [ls H] [ls' H']. exists (ls ++ ls'). by rewrite steps_app, H. Qed.

Lemma trace_later past s x : trace past s -> x ∈ past -> later x s.
Proof.
  induction 1 as [|past s l s' Ht IH E]; [by intros ?%elem_of_nil|].
  intros [->|Hin]%elem_of_cons; eapply later_step; [apply later_refl|done|by apply IH|done].
Qed.

(** Two moments of a run come one after the other. *)
Lemma trace_total past s x y : trace past s -> x ∈ past -> y ∈ past -> later x y \/ later y x.
Proof.
  induction 1 as [|past s l s' Ht IH E]; [by intros ?%elem_of_nil|].
  intros [->|Hx]%elem_of_cons [->|Hy]%elem_of_cons; [left; apply later_refl|right|left|by apply IH]; by eapply trace_later.
Qed.

Lemma licensed_mono past s c host port a : licensed past c host port a -> licensed (s :: past) c host port a.
Proof.
  unfold licensed. destruct (mode_of a).
  - intros (w & s1 & s2 & s3 & (? & ? & ?) & Hrest). exists w, s1, s2, s3. split; [|done]. split_and!; by right.
  - intros (w & s1 & ? & Hrest). exists w, s1. split; [by right|done].
Qed.

Lemma deciding_mono past s s' l c host port pc : step l s = Some s' ->
  deciding past c host port pc s -> deciding (s :: past) c host port pc s'.
Proof.
  intros Hs. destruct pc; cbn [deciding]; try done.
  - intros (s1 & ? & ? & Hrest). exists s1. split; [by right|]. split; [by eapply later_step|done].
  - intros (s1 & s2 & [? ?] & ? & ? & Hrest). exists s1, s2. split; [split; by right|]. split; [done|].
    split; [by eapply later_step|done].
  - destruct admitted; [apply licensed_mono|done].
  - destruct admitted; [apply licensed_mono|done].
  - apply licensed_mono.
  - apply licensed_mono.
Qed.

Lemma deciding_answer past c host port w v s : (forall a, v = Allow a -> licensed past c host port a) ->
  deciding past c host port (answer w v) s.
Proof. intros H. destruct w, v; cbn; auto. Qed.

Lemma deciding_after past c host port a s :
  (forall x, a = Some x -> licensed past c host port x) -> deciding past c host port (after_hold a) s.
Proof. intros H. destruct a; cbn; auto. Qed.

(** A connection's own step carries its decision on. *)
Lemma run_pc_deciding past c host port pc pc' s s' :
  at_ c host port pc s -> run_pc c host port pc s = Some s' -> at_ c host port pc' s' ->
  deciding past c host port pc s -> deciding (s :: past) c host port pc' s'.
Proof.
  unfold at_. intros Hc Hr Hc' Hd. assert (later s s') as Hl.
  { exists [LRun c]. cbn. unfold run. by rewrite Hc, Hr. }
  assert (s ∈ s :: past) as Hhere by left.
  destruct pc as [w|w|w| |seen|id since seen|id since seen|id a|id p a|r|a|a|]; cbn [run_pc] in Hr; try done.
  - destruct (check _ _ _) as [[]|[]] eqn:E; injection Hr as <-; cbn in Hc'; rewrite lookup_insert_eq in Hc'; injection Hc' as <-.
    + apply deciding_answer. intros a [= <-]. exists w, s. done.
    + exists s. done.
    + by apply deciding_answer.
  - destruct (is_declined _ _) eqn:E; injection Hr as <-; cbn in Hc'; rewrite lookup_insert_eq in Hc'; injection Hc' as <-.
    + by apply deciding_answer.
    + destruct Hd as (s1 & Hin & Hl1 & Hrest). exists s1, s. split; [by split; [right|]|]. done.
  - injection Hr as <-. cbn in Hc'. rewrite lookup_insert_eq in Hc'. injection Hc' as <-. apply deciding_answer.
    intros a Ha. destruct Hd as (s1 & s2 & [Hin1 Hin2] & Hl1 & Hl2 & [? ?] & [? ?]).
    assert (mode_of a = Some (mode (shared s))) as Hm.
    { destruct (mode (shared s)); cbn [by_mode] in Ha; [by injection Ha as <-..|by destruct (is_quiet host)|done]. }
    unfold licensed. rewrite Hm. exists w, s1, s2, s. split_and!; try done; by right.
  - injection Hr as <-. cbn in Hc'. rewrite lookup_insert_eq in Hc'. by injection Hc' as <-.
  - destruct (join_hold _ _ _ _ _) as [[[j hs] ids]|]; injection Hr as <-; cbn in Hc'; rewrite lookup_insert_eq in Hc';
      injection Hc' as <-; [by destruct (j_first j)|done].
  - injection Hr as <-. cbn in Hc'. rewrite lookup_insert_eq in Hc'. by injection Hc' as <-.
  - destruct (negb _); [|destruct (_ || _)]; try done; injection Hr as <-; cbn in Hc'; rewrite lookup_insert_eq in Hc'; by injection Hc' as <-.
  - destruct (leave_hold _ _) as [ended hs]. injection Hr as <-. cbn in Hc'. rewrite lookup_insert_eq in Hc'. injection Hc' as <-.
    destruct ended; [destruct a; [by apply licensed_mono|done]|]. apply deciding_after. intros x ->. by apply licensed_mono.
  - injection Hr as <-. cbn in Hc'. rewrite lookup_insert_eq in Hc'. injection Hc' as <-. apply deciding_after.
    intros x ->. by apply licensed_mono.
  - injection Hr as <-. cbn in Hc'. rewrite lookup_insert_eq in Hc'. by injection Hc' as <-.
Qed.

Lemma trace_deciding past s : trace past s -> forall c host port pc, at_ c host port pc s -> deciding past c host port pc s.
Proof.
  induction 1 as [p m timeout ids t|past s l s' Ht IH E]; intros c host port pc' Hc.
  - unfold at_ in Hc. cbn in Hc. by rewrite lookup_empty in Hc.
  - destruct (step_conn _ _ _ _ _ _ _ E Hc) as [l Hold|pc Hold Hr|o Hold -> _|adm r Hold [->| ->]|adm e Hold ->].
    + eapply deciding_mono; [done|]. by apply IH.
    + eapply run_pc_deciding; [done..|]. by apply IH.
    + done.
    + cbn. apply licensed_mono. by apply (IH _ _ _ _ Hold).
    + done.
    + done.
Qed.

(** ** What the engine is told *)

Lemma run_pc_no_allowed c h p pc s s' host port a up down : run_pc c h p pc s = Some s' ->
  Allowed host port a up down ∈ events s' -> Allowed host port a up down ∈ events s.
Proof.
  destruct pc; cbn [run_pc]; intros Hr; try done;
    [destruct (check _ _ _) as [?|[]]|destruct (is_declined _ _)| | |destruct (join_hold _ _ _ _ _) as [[[j hs] ids]|]| |
     destruct (negb _); [|destruct (_ || _)]|destruct (leave_hold _ _)| |]; try done;
    injection Hr as <-; cbn; rewrite ?elem_of_cons; naive_solver.
Qed.

Lemma step_allowed l s s' host port a up down : step l s = Some s' ->
  Allowed host port a up down ∈ events s' ->
  (Allowed host port a up down ∈ events s) \/ exists c, at_ c host port (Tunnel a) s.
Proof.
  intros Hs. destruct l; cbn [step] in Hs.
  - destruct (conns s !! c); [done|]. injection Hs as <-. by left.
  - destruct (conns s !! c) as [[]|]; try done. injection Hs as <-. intros H. left. revert H.
    destruct outcome as [[[head l]|e]|]; cbn; [destruct (request head)|..]; cbn; rewrite ?elem_of_cons; naive_solver.
  - unfold run in Hs. destruct (conns s !! c) as [[|h p pc|]|]; try done. left. by eapply run_pc_no_allowed.
  - destruct (conns s !! c) as [[|h p []|]|]; try done. injection Hs as <-. intros H. left. revert H.
    destruct r; cbn; rewrite ?elem_of_cons; naive_solver.
  - destruct (conns s !! c) as [[|h p []|]|] eqn:E; try done. injection Hs as <-.
    destruct e; cbn; rewrite ?elem_of_cons; [|by left]. intros [[= -> -> -> _ _]|H]; [right; by exists c|by left].
  - destruct (open_ _), (ops s !! o); try done. injection Hs as <-. by left.
  - destruct (open_ _), (ops s !! o); try done. injection Hs as <-. unfold decline.
    destruct (normalize_host host0); by left.
  - unfold run_op in Hs. destruct (ops s !! o) as [[]|]; try done; injection Hs as <-; by left.
  - destruct (_ && _); [|done]. injection Hs as <-. by left.
  - destruct (_ <=? _)%Z; [|done]. injection Hs as <-. by left.
  - injection Hs as <-. by left.
Qed.

(** (C9) Every connection on its way to an upstream or in a tunnel, and every tunnel reported, was let
    through by a decision of that connection: under the list, or, off the list, by the mode the
    admission names, on a port the policy has and while the host was not declined. *)
Theorem every_tunnel_is_licensed past s : trace past s ->
  (forall c host port a, at_ c host port (Connect a) s \/ at_ c host port (Tunnel a) s -> licensed past c host port a) /\
  (forall host port a up down, Allowed host port a up down ∈ events s -> exists c, licensed past c host port a).
Proof.
  intros Ht. split.
  - intros c host port a [Hc|Hc]; exact (trace_deciding _ _ Ht _ _ _ _ Hc).
  - induction Ht as [p m timeout ids t|past s l s' Ht IH E]; intros host port a up down Hin; [by apply elem_of_nil in Hin|].
    destruct (step_allowed _ _ _ _ _ _ _ _ E Hin) as [Hin'|[c Hc] ].
    + destruct (IH _ _ _ _ _ Hin') as [c Hc]. exists c. by apply licensed_mono.
    + exists c. apply licensed_mono. exact (trace_deciding _ _ Ht _ _ _ _ Hc).
Qed.

(** ** A decline stands *)

Lemma step_declined l s s' host : step l s = Some s' -> is_declined (shared s) host = true -> is_declined (shared s') host = true.
Proof.
  unfold is_declined. intros Hs. rewrite !bool_decide_eq_true. intros Hd.
  destruct (step_settings _ _ _ Hs) as [E|_]; [injection E as _ _ -> _ _; done|].
  destruct l; cbn [step] in Hs.
  - destruct (conns s !! c); [done|]. by injection Hs as <-.
  - destruct (conns s !! c) as [[]|]; try done. injection Hs as <-.
    destruct outcome as [[[head l]|e]|]; cbn; [by destruct (request head)|done..].
  - unfold run in Hs. destruct (conns s !! c) as [[|h p pc|]|]; try done.
    pose proof (run_pc_settings _ _ _ _ _ _ Hs) as E. injection E as _ _ -> _ _. done.
  - destruct (conns s !! c) as [[|h p []|]|]; try done. injection Hs as <-. by destruct r.
  - destruct (conns s !! c) as [[|h p []|]|]; try done. injection Hs as <-. by destruct e.
  - destruct (open_ _), (ops s !! o); try done. by injection Hs as <-.
  - destruct (open_ _), (ops s !! o); try done. injection Hs as <-. unfold decline.
    destruct (normalize_host host0); [|done]. cbn. set_solver.
  - unfold run_op in Hs. destruct (ops s !! o) as [[]|]; try done; by injection Hs as <-.
  - destruct (_ && _); [|done]. by injection Hs as <-.
  - destruct (_ <=? _)%Z; [|done]. by injection Hs as <-.
  - by injection Hs as <-.
Qed.

Lemma later_declined x y host : later x y -> is_declined (shared x) host = true -> is_declined (shared y) host = true.
Proof.
  intros [ls H]. revert x H. induction ls as [|l ls IH]; cbn; intros x; [by intros [= <-]|].
  destruct (step l x) as [x1|] eqn:E; [|done]. intros H Hd. eapply IH; [done|]. by eapply step_declined.
Qed.

(** A connection keeps the target it was given. *)
Lemma later_on x y c host port pc : later x y -> at_ c host port pc x -> exists pc', at_ c host port pc' y.
Proof.
  intros [ls H]. revert x pc H. induction ls as [|l ls IH]; cbn; intros x pc; [intros [= <-]; eauto|].
  destruct (step l x) as [x1|] eqn:E; [|done]. intros H Hc.
  assert (exists pc1, at_ c host port pc1 x1) as [pc1 H1]; [|by eapply IH].
  destruct (step_went _ _ _ _ _ _ _ E Hc) as [_ H1| -> Hr|pc1 _ _ H1 _]; [by eexists| |by eexists].
  destruct (run_pc_conns _ _ _ _ _ _ Hr) as [pc1 E1]. exists pc1. unfold at_. by rewrite E1, lookup_insert_eq.
Qed.

(** A connection that names its host after the engine declined it, under whatever mode and through
    whatever changes of it, reaches that host only by a list that has it. *)
Theorem declined_until_listed past s s0 c host port a : trace past s -> s0 ∈ past ->
  is_declined (shared s0) host = true -> (forall pc, ~ at_ c host port pc s0) ->
  at_ c host port (Tunnel a) s -> a = Listed.
Proof.
  intros Ht H0 Hd Hnew Hc. pose proof (trace_deciding _ _ Ht _ _ _ _ Hc) as Hl. cbn in Hl. unfold licensed in Hl.
  destruct (mode_of a) as [m|] eqn:Em; [|by destruct a].
  destruct Hl as (w & s1 & s2 & s3 & (_ & H2 & _) & _ & _ & _ & [Hat2 Hn2] & _).
  exfalso. destruct (trace_total _ _ _ _ Ht H0 H2) as [Hl|Hl].
  - by rewrite (later_declined _ _ _ Hl Hd) in Hn2.
  - destruct (later_on _ _ _ _ _ _ Hl Hat2) as [pc' Hpc]. by eapply Hnew.
Qed.

Lemma every_tunnel_is_licensed_witness :
  at_ 0 "example.com" 443 (Tunnel Listed) (demo (demo_held ++ demo_allowed)).2 /\
  licensed (demo (demo_held ++ demo_allowed)).1 0 "example.com" 443 Listed.
Proof.
  assert (at_ 0 "example.com" 443 (Tunnel Listed) (demo (demo_held ++ demo_allowed)).2) as Hat by (vm_compute; reflexivity).
  split; [exact Hat|]. pose proof (every_tunnel_is_licensed _ _ (demo_trace (demo_held ++ demo_allowed) ltac:(vm_compute; reflexivity))) as [H _].
  apply H. right. exact Hat.
Defined.

(** The state in which the second connection of [demo_declined] is accepted. *)
Definition demo_before : State := (demo (demo_held ++ take 8 demo_declined)).2.

Lemma declined_until_listed_witness :
  is_declined (shared demo_before) "example.com" = true /\
  at_ 1 "example.com" 443 (Tunnel Listed) (demo (demo_held ++ demo_declined)).2 /\ Listed = Listed.
Proof.
  assert (at_ 1 "example.com" 443 (Tunnel Listed) (demo (demo_held ++ demo_declined)).2) as Hat by (vm_compute; reflexivity).
  assert (is_declined (shared demo_before) "example.com" = true) as Hd by (vm_compute; reflexivity).
  split; [exact Hd|]. split; [exact Hat|].
  refine (declined_until_listed (demo (demo_held ++ demo_declined)).1 _ demo_before 1 "example.com" 443 Listed _ _ Hd _ Hat).
  - apply demo_trace. vm_compute. reflexivity.
  - apply list_elem_of_lookup. exists 7%nat. vm_compute. reflexivity.
  - intros pc. vm_compute. discriminate.
Defined.
