(* ===== verification/BoxSettings.v ===== *)
(** * The box engine's settings

    [src/crates/fletch-core/src/sandbox/boxes/settings.rs]: the parsers the setter validates with and
    the reader reads with, and the in-process mirror the proxies' lists and postures are built from. *)

From Stdlib Require Import DecimalString.
From S2P Require Import Prelude RustStr Store Closes AutopilotStore EgressPolicy Egress.

Local Open Scope string_scope.
Local Open Scope list_scope.

Definition MEMORY_SETTING : string := "box_memory_mib".
Definition CPUS_SETTING : string := "box_cpus".
Definition DISK_SETTING : string := "box_disk_gib".
Definition IMAGE_URL_SETTING : string := "box_image_url".
Definition IDLE_STOP_SETTING : string := "box_idle_stop_minutes".
Definition EGRESS_MODE_SETTING : string := "box_egress_mode".
Definition EGRESS_ALLOW_KEY : string := "box.egress_allow".
Definition EGRESS_MODE_KEY : string := "sandbox.egress_mode".

Definition KEYS : list string :=
  [MEMORY_SETTING; CPUS_SETTING; DISK_SETTING; IMAGE_URL_SETTING; IDLE_STOP_SETTING; EGRESS_MODE_SETTING].

(** ** The posture *)

Inductive EgressMode := PostureOpen | PostureAsk | PostureAllowList.

#[export] Instance EgressMode_dec : EqDecision EgressMode.
Proof. solve_decision. Defined.

(** [raw.map(str::trim).filter(|s| !s.is_empty())]. *)
Definition given (raw : option string) : option string :=
  opt_filter (fun s => negb (is_empty s)) (trim <$> raw).

Definition parse_mode (raw : option string) : result EgressMode string :=
  match given raw with
  | None => Ok PostureOpen
  | Some other =>
      if String.eqb other "open" then Ok PostureOpen
      else if String.eqb other "ask" then Ok PostureAsk
      else if String.eqb other "allowlist" then Ok PostureAllowList
      else Err (EGRESS_MODE_SETTING +:+ " must be open, ask or allowlist; got " +:+ debug_str other)
  end.

Definition as_setting (m : EgressMode) : string :=
  match m with PostureOpen => "open" | PostureAsk => "ask" | PostureAllowList => "allowlist" end.

Definition proxy_mode (m : EgressMode) : Mode :=
  match m with PostureOpen => MOpen | PostureAsk => MHold | PostureAllowList => MRefuse end.

(** ** The knobs *)

Definition DEFAULT_MEMORY_MIB : N := 2048.
Definition MIN_MEMORY_MIB : N := 512.
Definition DEFAULT_CPUS : N := 2.
Definition MIN_DISK_GIB : N := 4.
Definition MAX_DISK_GIB : N := 256.
Definition DEFAULT_IDLE_STOP_MINUTES : N := 10.

Definition u8_max : N := 255.
Definition u64_max : N := 18446744073709551615.

Definition parse_u8 (s : string) : option N := opt_filter (fun n => (n <=? u8_max)%N) (parse_usize s).
Definition parse_u64 (s : string) : option N := opt_filter (fun n => (n <=? u64_max)%N) (parse_usize s).

Definition parse_memory (raw : option string) : result N string :=
  match given raw with
  | None => Ok DEFAULT_MEMORY_MIB
  | Some raw =>
      match opt_filter (fun mib => (MIN_MEMORY_MIB <=? mib)%N) (parse_u32 raw) with
      | Some mib => Ok mib
      | None => Err (MEMORY_SETTING +:+ " must be a whole number of MiB, at least " +:+ show_N MIN_MEMORY_MIB
                     +:+ "; got " +:+ debug_str raw)
      end
  end.

Definition parse_cpus (raw : option string) : result N string :=
  match given raw with
  | None => Ok DEFAULT_CPUS
  | Some raw =>
      match opt_filter (fun cpus => (1 <=? cpus) && (cpus <=? 32))%N (parse_u8 raw) with
      | Some cpus => Ok cpus
      | None => Err (CPUS_SETTING +:+ " must be between 1 and 32; got " +:+ debug_str raw)
      end
  end.

(** [fletch_box::disks::DEFAULT_DATA_DISK_BYTES], 8 GiB. *)
Definition DEFAULT_DATA_DISK_BYTES : N := N.shiftl 8 30.
Definition DEFAULT_DISK_GIB : N := N.shiftr DEFAULT_DATA_DISK_BYTES 30.

Definition parse_disk (raw : option string) : result N string :=
  match given raw with
  | None => Ok DEFAULT_DISK_GIB
  | Some raw =>
      match opt_filter (fun gib => (MIN_DISK_GIB <=? gib) && (gib <=? MAX_DISK_GIB))%N (parse_u32 raw) with
      | Some gib => Ok gib
      | None => Err (DISK_SETTING +:+ " must be a whole number of GiB between " +:+ show_N MIN_DISK_GIB
                     +:+ " and " +:+ show_N MAX_DISK_GIB +:+ "; got " +:+ debug_str raw)
      end
  end.

(** [None] is the GitHub release. *)
Definition parse_image_url (raw : option string) : result (option string) string :=
  match given raw with
  | None => Ok None
  | Some raw =>
      if existsb (fun scheme => starts_with scheme raw) ["https://"; "http://"; "file://"]
      then Ok (Some (trim_end_by (eqb "/") raw))
      else Err (IMAGE_URL_SETTING +:+ " must start with https://, http:// or file://; got " +:+ debug_str raw)
  end.

(** The stop as its seconds; [None] is never. *)
Definition parse_idle_stop (raw : option string) : result (option N) string :=
  match given raw with
  | None => Ok (Some (DEFAULT_IDLE_STOP_MINUTES * 60)%N)
  | Some raw =>
      match parse_u64 raw with
      | Some 0%N => Ok None
      | Some minutes =>
          if (minutes <=? 24 * 60)%N then Ok (Some (minutes * 60)%N)
          else Err (IDLE_STOP_SETTING +:+ " must be a number of minutes (0 = never, at most 1440); got " +:+ debug_str raw)
      | None => Err (IDLE_STOP_SETTING +:+ " must be a number of minutes (0 = never, at most 1440); got " +:+ debug_str raw)
      end
  end.

Record BoxSettings := mkBoxSettings {
  bs_memory_mib : N;
  bs_cpus : N;
  bs_disk_gib : N;
  bs_image_url : option string;
  bs_idle_stop : option N;
  bs_egress_mode : EgressMode;
}.

Definition default_settings : BoxSettings :=
  mkBoxSettings DEFAULT_MEMORY_MIB DEFAULT_CPUS DEFAULT_DISK_GIB None
    (Some (DEFAULT_IDLE_STOP_MINUTES * 60)%N) PostureOpen.

(** [r.unwrap_or(d)]. *)
Definition unwrap_or {A E} (r : result A E) (d : A) : A := match r with Ok a => a | Err _ => d end.

(** [load], from the raw values of the rows. *)
Definition load_values (memory cpus disk url idle mode : option string) : BoxSettings :=
  mkBoxSettings
    (unwrap_or (parse_memory memory) DEFAULT_MEMORY_MIB)
    (unwrap_or (parse_cpus cpus) DEFAULT_CPUS)
    (unwrap_or (parse_disk disk) DEFAULT_DISK_GIB)
    (unwrap_or (parse_image_url url) None)
    (unwrap_or (parse_idle_stop idle) (Some (DEFAULT_IDLE_STOP_MINUTES * 60)%N))
    (unwrap_or (parse_mode mode) PostureOpen).

(** [load] of a settings table every read of which succeeds. *)
Definition load (settings : gmap string string) : BoxSettings :=
  load_values (settings !! MEMORY_SETTING) (settings !! CPUS_SETTING) (settings !! DISK_SETTING)
    (settings !! IMAGE_URL_SETTING) (settings !! IDLE_STOP_SETTING) (settings !! EGRESS_MODE_SETTING).

(** [r.map(f)]. *)
Definition map_ok {A B E} (f : A -> B) (r : result A E) : result B E :=
  match r with Ok a => Ok (f a) | Err e => Err e end.

(** [None] for a key that is not a box setting. *)
Definition validate (key value : string) : option (result string string) :=
  if String.eqb key MEMORY_SETTING then Some (map_ok show_N (parse_memory (Some value)))
  else if String.eqb key CPUS_SETTING then Some (map_ok show_N (parse_cpus (Some value)))
  else if String.eqb key DISK_SETTING then Some (map_ok show_N (parse_disk (Some value)))
  else if String.eqb key IMAGE_URL_SETTING then Some (map_ok (default "") (parse_image_url (Some value)))
  else if String.eqb key IDLE_STOP_SETTING then
    Some (map_ok (fun d => show_N (match d with Some secs => secs / 60 | None => 0 end)%N) (parse_idle_stop (Some value)))
  else if String.eqb key EGRESS_MODE_SETTING then Some (map_ok as_setting (parse_mode (Some value)))
  else None.

(** ** What is validated is what is read *)

Lemma strip_sign_shown n : strip_sign (show_N n) = show_N n.
Proof. unfold show_N, NilZero.string_of_uint, strip_sign. by destruct (N.to_uint n). Qed.

Lemma parse_usize_show n : (n <= usize_max)%N -> parse_usize (show_N n) = Some n.
Proof.
  intros Hn. unfold parse_usize. rewrite strip_sign_shown, parse_digits_show. cbn [opt_filter].
  by rewrite (proj2 (N.leb_le _ _)).
Qed.

Lemma given_show n : given (Some (show_N n)) = Some (show_N n).
Proof.
  unfold given. cbn [fmap option_fmap option_map opt_filter]. rewrite trim_show_N.
  destruct (show_N_nonempty n) as (d & s & E). by rewrite E.
Qed.

Lemma parse_within_show p n m : parse_usize (show_N n) = Some n -> opt_filter p (parse_usize m) = Some n ->
  opt_filter p (parse_usize (show_N n)) = Some n.
Proof. intros E H. apply opt_filter_Some in H as [_ H]. by rewrite E; cbn; rewrite H. Qed.

Lemma parse_usize_bound s n : parse_usize s = Some n -> (n <= usize_max)%N.
Proof. unfold parse_usize. rewrite opt_filter_Some. intros [_ H]. by apply N.leb_le. Qed.

(** A bounded number read back from its own digits. *)
Lemma parse_bounded_show p q s n :
  opt_filter p (opt_filter q (parse_usize s)) = Some n -> opt_filter p (opt_filter q (parse_usize (show_N n))) = Some n.
Proof.
  rewrite !opt_filter_Some. intros [[Hs Hq] Hp]. split; [|done]. split; [|done].
  apply parse_usize_show. by eapply parse_usize_bound.
Qed.

Lemma parse_memory_show raw mib : parse_memory raw = Ok mib -> parse_memory (Some (show_N mib)) = Ok mib.
Proof.
  unfold parse_memory. rewrite given_show. destruct (given raw) as [s|].
  - destruct (opt_filter _ _) as [n|] eqn:E; [|done]. intros [= <-]. unfold parse_u32 in *.
    by rewrite (parse_bounded_show _ _ _ _ E).
  - intros [= <-]. vm_compute. reflexivity.
Qed.

Lemma parse_cpus_show raw cpus : parse_cpus raw = Ok cpus -> parse_cpus (Some (show_N cpus)) = Ok cpus.
Proof.
  unfold parse_cpus. rewrite given_show. destruct (given raw) as [s|].
  - destruct (opt_filter _ _) as [n|] eqn:E; [|done]. intros [= <-]. unfold parse_u8 in *.
    by rewrite (parse_bounded_show _ _ _ _ E).
  - intros [= <-]. vm_compute. reflexivity.
Qed.

Lemma parse_disk_show raw gib : parse_disk raw = Ok gib -> parse_disk (Some (show_N gib)) = Ok gib.
Proof.
  unfold parse_disk. rewrite given_show. destruct (given raw) as [s|].
  - destruct (opt_filter _ _) as [n|] eqn:E; [|done]. intros [= <-]. unfold parse_u32 in *.
    by rewrite (parse_bounded_show _ _ _ _ E).
  - intros [= <-]. vm_compute. reflexivity.
Qed.

(** The minutes of a stop. *)
Definition minutes (d : option N) : N := match d with Some secs => (secs / 60)%N | None => 0%N end.

Lemma parse_idle_stop_show raw d : parse_idle_stop raw = Ok d -> parse_idle_stop (Some (show_N (minutes d))) = Ok d.
Proof.
  assert (forall n, (n <= 24 * 60)%N -> parse_u64 (show_N n) = Some n) as Hn.
  { intros n Hn. unfold parse_u64. rewrite parse_usize_show by (unfold usize_max; lia). cbn [opt_filter].
    rewrite (proj2 (N.leb_le _ _)); [done|unfold u64_max; lia]. }
  unfold parse_idle_stop. rewrite given_show. destruct (given raw) as [s|].
  - destruct (parse_u64 s) as [[|m]|]; [|destruct (N.leb_spec (N.pos m) (24 * 60)) as [Hle|]|]; try done; intros [= <-]; cbn [minutes].
    + by rewrite Hn by lia.
    + rewrite N.div_mul, Hn by lia. by rewrite (proj2 (N.leb_le _ _)).
  - intros [= <-]. vm_compute. reflexivity.
Qed.

Lemma parse_mode_show m : parse_mode (Some (as_setting m)) = Ok m.
Proof. destruct m; vm_compute; reflexivity. Qed.

(** What the setter stores for a knob is what it makes of it again, so the reader, which parses with
    the same parsers, finds the value that was set; of the keys of the box settings only the image's
    URL is not spelled one way. *)
Theorem validated_settings_are_stable key value stored :
  key <> IMAGE_URL_SETTING -> validate key value = Some (Ok stored) -> validate key stored = Some (Ok stored).
Proof.
  unfold validate. intros Hne. rewrite (proj2 (String.eqb_neq key IMAGE_URL_SETTING)) by done.
  destruct (String.eqb key MEMORY_SETTING).
  { destruct (parse_memory _) as [n|] eqn:E; [|done]. intros [= <-]. by rewrite (parse_memory_show _ _ E). }
  destruct (String.eqb key CPUS_SETTING).
  { destruct (parse_cpus _) as [n|] eqn:E; [|done]. intros [= <-]. by rewrite (parse_cpus_show _ _ E). }
  destruct (String.eqb key DISK_SETTING).
  { destruct (parse_disk _) as [n|] eqn:E; [|done]. intros [= <-]. by rewrite (parse_disk_show _ _ E). }
  destruct (String.eqb key IDLE_STOP_SETTING).
  { destruct (parse_idle_stop _) as [d|] eqn:E; [|done]. cbn [map_ok]. intros [= <-].
    change (match d with Some secs => (secs / 60)%N | None => 0%N end) with (minutes d).
    by rewrite (parse_idle_stop_show _ _ E). }
  destruct (String.eqb key EGRESS_MODE_SETTING); [|done].
  destruct (parse_mode _) as [m|]; [|done]. intros [= <-]. by rewrite parse_mode_show.
Qed.

Lemma validated_settings_are_stable_witness :
  validate DISK_SETTING " +0064 " = Some (Ok "64") /\ validate DISK_SETTING "64" = Some (Ok "64").
Proof.
  assert (validate DISK_SETTING " +0064 " = Some (Ok "64")) as H by (vm_compute; reflexivity).
  split; [exact H|]. apply (validated_settings_are_stable DISK_SETTING " +0064 "); [discriminate|exact H].
Defined.

(** The setter accepts a scheme with nothing after it, stores it without its slashes, and the reader
    then refuses what was stored. *)
Theorem bare_scheme_is_lost :
  validate IMAGE_URL_SETTING "https://" = Some (Ok "https:") /\
  bs_image_url (load {[IMAGE_URL_SETTING := "https:"]}) = None /\
  is_some_and (validate IMAGE_URL_SETTING "https:") (fun r => match r with Ok _ => false | Err _ => true end) = true.
Proof. vm_compute. auto. Qed.
