(* ===== verification/EgressList.v ===== *)
(** * The layers of a box's allow-list

    [src/crates/fletch-core/src/sandbox/boxes/allowlist.rs], the egress half of [settings.rs]'s mirror,
    and [egress_entries], [egress_policy] and [Entry::proxy_mode] of [registry.rs]: what the template,
    the user's global list, the project's files and its in-app additions come to, and the policy and
    the mode a proxy is given. *)

From S2P Require Import Prelude RustStr Closes AutopilotStore EgressPolicy Egress BoxSettings.

Local Open Scope string_scope.
Local Open Scope list_scope.

(** ** Deltas *)

Record Delta := mkDelta { add : list string; remove : list string }.

Definition no_delta : Delta := mkDelta [] [].

#[export] Instance Delta_dec : EqDecision Delta.
Proof. solve_decision. Defined.

(** [if !out.contains(&x) { out.push(x) }]. *)
Definition push_new (out : list string) (x : string) : list string :=
  if lcontains out x then out else out ++ [x].

(** A pattern in its own spelling. *)
Definition spelled (pattern : string) : result string string :=
  match from_str pattern with Ok p => Ok (display p) | Err e => Err (PatternError_display e) end.

Fixpoint normalize_from (out : list string) (patterns : list string) : result (list string) string :=
  match patterns with
  | [] => Ok out
  | p :: ps => match spelled p with Ok s => normalize_from (push_new out s) ps | Err e => Err e end
  end.

Definition normalize_all : list string -> result (list string) string := normalize_from [].

Definition normalized (d : Delta) : result Delta string :=
  match normalize_all (add d) with
  | Err e => Err e
  | Ok add =>
      match normalize_all (remove d) with
      | Err e => Err e
      | Ok remove => Ok (mkDelta add remove)
      end
  end.

(** [serde_json::from_str::<Delta>] and [serde_json::to_string]. *)
Class DeltaJson := {
  delta_from_json : string -> option Delta;
  delta_to_json : Delta -> string;
}.

Definition parse_delta `{DeltaJson} (raw : option string) : Delta :=
  default no_delta (text ← raw; d ← delta_from_json text; match normalized d with Ok d => Some d | Err _ => None end).

(** ** The effective list *)

Inductive Source := FromTemplate | FromGlobal | FromProjectFile | FromProject.

Record Entry := mkEntry { pattern : string; source : Source; category : option string }.

#[export] Instance Source_dec : EqDecision Source.
Proof. solve_decision. Defined.

Definition template_entries : list Entry :=
  (fun '(p, c) => mkEntry p FromTemplate (Some (Category_as_str c))) <$> TEMPLATE.

Definition has_pattern (entries : list Entry) (p : string) : bool :=
  existsb (fun e => String.eqb (pattern e) p) entries.

Definition add_entry (src : Source) (entries : list Entry) (p : string) : list Entry :=
  if has_pattern entries p then entries else entries ++ [mkEntry p src None].

Definition apply_layer (entries : list Entry) (layer : Source * Delta) : list Entry :=
  let '(src, delta) := layer in
  foldl (add_entry src) (lfilter (fun e => negb (lcontains (remove delta) (pattern e))) entries) (add delta).

Definition effective (layers : list (Source * Delta)) : list Entry := foldl apply_layer template_entries layers.

(** ** The mirror *)

Record Mirror := mkMirror {
  mr_settings : BoxSettings;
  mr_egress : gmap string (list string);
  mr_modes : gmap string EgressMode;
  mr_global : Delta;
}.

Definition parse_egress_allow `{JsonStrings} (raw : string) : list string :=
  default [] ((fun patterns => lfilter (fun p => negb (is_empty p)) (trim <$> patterns)) <$> json_parse raw).

Definition egress_allow (m : Mirror) (project_id : string) : list string := default [] (mr_egress m !! project_id).

Definition set_egress_allow (project_id : string) (patterns : list string) (m : Mirror) : Mirror :=
  mkMirror (mr_settings m) (<[project_id := patterns]> (mr_egress m)) (mr_modes m) (mr_global m).

Definition set_global_egress (d : Delta) (m : Mirror) : Mirror :=
  mkMirror (mr_settings m) (mr_egress m) (mr_modes m) (mkDelta (add d) []).

Definition egress_mode (m : Mirror) (project_id : string) : EgressMode :=
  default (bs_egress_mode (mr_settings m)) (mr_modes m !! project_id).

Definition set_egress_mode_override (project_id : string) (mode : option EgressMode) (m : Mirror) : Mirror :=
  mkMirror (mr_settings m) (mr_egress m)
    (match mode with Some mode => <[project_id := mode]> (mr_modes m) | None => delete project_id (mr_modes m) end)
    (mr_global m).

Definition set_box_settings (s : BoxSettings) (m : Mirror) : Mirror :=
  mkMirror s (mr_egress m) (mr_modes m) (mr_global m).

Definition GLOBAL_SETTING : string := "box_egress_global".

(** [project_rows], as a map: one row per project and key. *)
Definition project_rows (rows : gmap (string * string) string) (key : string) : gmap string string :=
  list_to_map ((fun '((p, _), v) => (p, v)) <$> lfilter (fun '((_, k), _) => String.eqb k key) (map_to_list rows)).

(** [seed]: the settings table and the project settings at boot. *)
Definition seed `{JsonStrings} `{DeltaJson} (settings : gmap string string) (rows : gmap (string * string) string) : Mirror :=
  mkMirror (load settings)
    (parse_egress_allow <$> project_rows rows EGRESS_ALLOW_KEY)
    (omap (fun v => match parse_mode (Some v) with Ok mode => Some mode | Err _ => None end) (project_rows rows EGRESS_MODE_KEY))
    (mkDelta (add (parse_delta (settings !! GLOBAL_SETTING))) []).

(** ** What a proxy is given *)

(** [file]: the layer of the project's settings files. *)
Definition layers (m : Mirror) (file : Delta) (project_id : string) : list (Source * Delta) :=
  [(FromGlobal, mr_global m); (FromProjectFile, file); (FromProject, mkDelta (egress_allow m project_id) [])].

Definition egress_entries (m : Mirror) (file : Delta) (project_id : string) : list Entry :=
  effective (layers m file project_id).

(** [None] is the panic of [EgressPolicy::default]. *)
Definition egress_policy (m : Mirror) (file : Delta) (project_id : string) : option EgressPolicy :=
  match EgressPolicy.new (pattern <$> egress_entries m file project_id) with
  | Ok policy => Some policy
  | Err _ => default_policy
  end.

(** [Entry::proxy_mode]. *)
Definition entry_mode (m : Mirror) (project_id : string) (turn_open : bool) : Mode :=
  if turn_open then MOverride else proxy_mode (egress_mode m project_id).

(** ** What the layers come to *)

(** The last layer that names a pattern decides about it. *)
Definition layer_says (base : bool) (layer : Source * Delta) (p : string) : bool :=
  lcontains (add layer.2) p || base && negb (lcontains (remove layer.2) p).

Fixpoint says (base : bool) (ls : list (Source * Delta)) (p : string) : bool :=
  match ls with [] => base | l :: ls => says (layer_says base l p) ls p end.

Lemma has_pattern_In entries p : has_pattern entries p = true <-> p ∈ pattern <$> entries.
Proof.
  unfold has_pattern. rewrite existsb_exists, list_elem_of_fmap. split.
  - intros (e & Hin & E%String.eqb_eq). exists e. split; [done|]. by apply list_elem_of_In.
  - intros (e & -> & Hin). exists e. split; [by apply list_elem_of_In|apply String.eqb_refl].
Qed.

Lemma add_entries_patterns src l entries p :
  p ∈ pattern <$> foldl (add_entry src) entries l <-> p ∈ l \/ p ∈ pattern <$> entries.
Proof.
  revert entries. induction l as [|x l IH]; intros entries; cbn [foldl]; [by rewrite elem_of_nil; tauto|].
  rewrite IH, elem_of_cons. unfold add_entry. destruct (has_pattern entries x) eqn:E.
  - apply has_pattern_In in E. naive_solver.
  - rewrite fmap_app, elem_of_app. cbn. rewrite list_elem_of_singleton. tauto.
Qed.

Lemma filter_patterns q entries p : p ∈ pattern <$> lfilter (fun e => q (pattern e)) entries <-> p ∈ pattern <$> entries /\ q p = true.
Proof.
  rewrite !list_elem_of_fmap. split.
  - intros (e & -> & Hin%elem_of_lfilter). destruct Hin. eauto.
  - intros [(e & -> & Hin) Hq]. exists e. split; [done|]. by apply elem_of_lfilter.
Qed.

Lemma apply_layer_patterns entries layer p :
  p ∈ pattern <$> apply_layer entries layer <-> layer_says (has_pattern entries p) layer p = true.
Proof.
  destruct layer as [src delta]. cbn [apply_layer]. rewrite add_entries_patterns.
  rewrite (filter_patterns (fun s => negb (lcontains (remove delta) s))).
  unfold layer_says. cbn [snd]. rewrite orb_true_iff, andb_true_iff, lcontains_true, has_pattern_In. tauto.
Qed.

Lemma says_patterns ls entries p : p ∈ pattern <$> foldl apply_layer entries ls <-> says (has_pattern entries p) ls p = true.
Proof.
  revert entries. induction ls as [|l ls IH]; intros entries; cbn [foldl says]; [by rewrite has_pattern_In|].
  rewrite IH. f_equiv. f_equal. apply Bool.eq_iff_eq_true. by rewrite has_pattern_In, apply_layer_patterns.
Qed.

Lemma add_entries_NoDup src l entries : NoDup (pattern <$> entries) -> NoDup (pattern <$> foldl (add_entry src) entries l).
Proof.
  revert entries. induction l as [|x l IH]; intros entries Hnd; cbn [foldl]; [done|]. apply IH. unfold add_entry.
  destruct (has_pattern entries x) eqn:E; [done|]. rewrite fmap_app. apply NoDup_app. split; [done|]. split; [|apply NoDup_singleton].
  intros y Hy Hx. cbn in Hx. apply list_elem_of_singleton in Hx as ->. apply has_pattern_In in Hy. congruence.
Qed.

Lemma effective_NoDup ls : NoDup (pattern <$> effective ls).
Proof.
  unfold effective. assert (NoDup (pattern <$> template_entries)) as Ht.
  { apply (bool_decide_eq_true_1 (NoDup (pattern <$> template_entries))). vm_compute. reflexivity. }
  revert Ht. generalize template_entries as entries. induction ls as [|[src d] ls IH]; intros entries Hnd; [done|].
  cbn [foldl apply_layer]. apply IH, add_entries_NoDup. by apply lfilter_fmap_NoDup.
Qed.

Lemma effective_says ls p : p ∈ pattern <$> effective ls <-> says (lcontains DEFAULT_ALLOW p) ls p = true.
Proof.
  unfold effective. rewrite says_patterns. f_equiv. f_equal.
  apply Bool.eq_iff_eq_true. rewrite has_pattern_In, lcontains_true. unfold DEFAULT_ALLOW, template_entries.
  rewrite <-list_fmap_compose. by rewrite (list_fmap_ext (pattern ∘ _) fst) by (by intros i [] _).
Qed.

(** The effective list holds a pattern exactly when the last layer to name it allows it, an allow of
    a layer winning over its own removal, or when no layer names it and the template has it; and
    holds it once. *)
Theorem last_layer_decides ls p :
  NoDup (pattern <$> effective ls) /\
  (p ∈ pattern <$> effective ls <-> says (lcontains DEFAULT_ALLOW p) ls p = true).
Proof. split; [apply effective_NoDup|apply effective_says]. Qed.

(** ** The policy *)

(** A pattern in the spelling it is stored in. *)
Definition parses (p : string) : Prop := exists h, from_str p = Ok h.

Lemma template_parses p : p ∈ DEFAULT_ALLOW -> parses p.
Proof.
  assert (forallb (fun h => match from_str h with Ok _ => true | Err _ => false end) DEFAULT_ALLOW = true) as H
    by (vm_compute; reflexivity).
  intros Hin. rewrite forallb_forall in H. specialize (H p (proj1 (list_elem_of_In _ _) Hin)).
  unfold parses. destruct (from_str p) as [h|]; [by exists h|done].
Qed.

Lemma parse_all_total ps : (forall p, p ∈ ps -> parses p) -> exists hs, parse_all ps = Ok hs.
Proof.
  induction ps as [|p ps IH]; intros H; [by exists []|]. cbn.
  destruct (H p) as [h ->]; [by left|]. destruct IH as [hs ->]; [intros q Hq; apply H; by right|]. by eexists.
Qed.

Lemma parse_all_fails ps p : p ∈ ps -> ~ parses p -> exists e, parse_all ps = Err e.
Proof.
  intros Hin Hn. destruct (parse_all ps) as [hs|e] eqn:E; [|by exists e]. exfalso. apply parse_all_spec in E.
  apply list_elem_of_lookup in Hin as [i Hi]. destruct (Forall2_lookup_l _ _ _ _ _ E Hi) as (h & _ & Hp).
  apply Hn. by exists h.
Qed.

Lemma says_source base ls p : says base ls p = true -> base = true \/ exists l, l ∈ ls /\ p ∈ add l.2.
Proof.
  revert base. induction ls as [|l ls IH]; cbn; intros base; [by left|].
  intros [H|(l' & Hin & Hp)]%IH; [|right; exists l'; split; [by right|done] ].
  unfold layer_says in H. apply orb_true_iff in H as [H|[H _]%andb_true_iff]; [|by left].
  right. exists l. split; [by left|by apply lcontains_true].
Qed.

(** Every addition of every layer parses. *)
Definition layers_ok (ls : list (Source * Delta)) : Prop := forall l p, l ∈ ls -> p ∈ add l.2 -> parses p.

Lemma effective_parses ls p : layers_ok ls -> p ∈ pattern <$> effective ls -> parses p.
Proof.
  intros Hok Hin. unfold effective in Hin. apply says_patterns, says_source in Hin as [Hb|(l & Hl & Hp)]; [|by eapply Hok].
  apply template_parses. apply has_pattern_In in Hb. unfold DEFAULT_ALLOW, template_entries in *.
  rewrite <-list_fmap_compose in Hb. by rewrite (list_fmap_ext (pattern ∘ _) fst) in Hb by (by intros i [] _).
Qed.

(** With additions that parse, a proxy is given exactly the effective list, on the default ports. *)
Lemma egress_policy_lists m file project_id policy host :
  layers_ok (layers m file project_id) -> egress_policy m file project_id = Some policy ->
  ports policy = DEFAULT_PORTS /\
  (listed policy host = true <->
   exists p h, p ∈ pattern <$> egress_entries m file project_id /\ from_str p = Ok h /\ covers h host).
Proof.
  intros Hok. unfold egress_policy, new.
  destruct (parse_all_total (pattern <$> egress_entries m file project_id)) as [hs E].
  { intros p Hp. by eapply effective_parses. }
  rewrite E. intros [= <-]. split; [done|]. cbn [allow]. unfold listed. cbn [allow]. apply parse_all_spec in E.
  rewrite existsb_exists. split.
  - intros (h & Hin%list_elem_of_In & Hm). apply list_elem_of_lookup in Hin as [i Hi].
    destruct (Forall2_lookup_r _ _ _ _ _ E Hi) as (p & Hp & Hf). exists p, h. split; [by eapply list_elem_of_lookup_2|].
    split; [done|]. destruct (from_str_matches p h host Hf) as [H _]. by apply H.
  - intros (p & h & Hin & Hf & Hc). apply list_elem_of_lookup in Hin as [i Hi].
    destruct (Forall2_lookup_l _ _ _ _ _ E Hi) as (h' & Hh & Hf'). rewrite Hf in Hf'. injection Hf' as <-.
    exists h. split; [by eapply list_elem_of_In, list_elem_of_lookup_2|]. by apply (from_str_matches p h host Hf).
Qed.

(** The policy is never missing: the template parses. *)
Lemma egress_policy_total m file project_id : is_some (egress_policy m file project_id) = true.
Proof.
  unfold egress_policy. destruct (new _); [done|]. vm_compute. reflexivity.
Qed.

(** One stored addition that no longer parses takes every layer with it: the box gets the template
    as it is, entries the project turned off included. *)
Theorem one_bad_pattern_drops_every_layer m file project_id p :
  p ∈ pattern <$> egress_entries m file project_id -> ~ parses p ->
  egress_policy m file project_id = default_policy.
Proof.
  intros Hin Hn. unfold egress_policy, new. by destruct (parse_all_fails _ _ Hin Hn) as [e ->].
Qed.

(** A project that turned GitHub off, with a hand-edited addition. *)
Definition bad_mirror : Mirror :=
  mkMirror default_settings {["p1" := ["not a host"]]} ∅ no_delta.
Definition turned_off : Delta := mkDelta [] ["github.com"].

Lemma one_bad_pattern_drops_every_layer_witness :
  lcontains (pattern <$> egress_entries bad_mirror turned_off "p1") "github.com" = false /\
  egress_policy bad_mirror turned_off "p1" = default_policy /\
  is_some_and default_policy (fun p => listed p "github.com") = true.
Proof.
  split; [vm_compute; reflexivity|]. split; [|vm_compute; reflexivity].
  apply (one_bad_pattern_drops_every_layer bad_mirror turned_off "p1" "not a host").
  - apply lcontains_true. vm_compute. reflexivity.
  - intros [h H]. vm_compute in H. discriminate H.
Defined.
