(* ===== verification/EgressPrompt.v ===== *)
(** * The questions held connections raise

    [src/crates/fletch-core/src/sandbox/boxes/egress_prompt.rs], the proxy's event handler
    [on_egress] of [registry.rs] and the record it keeps ([egress_log.rs]). The registry of prompts
    is process-wide; a callback takes its lock once, and the second lock of [ended] closes an id that
    is never reused, so each callback is one step. Beside one workspace's proxy, whose events the
    callbacks are: a prompt that is up stands for a hold that is not over. *)

From S2P Require Import Prelude RustStr RustText EgressPolicy EgressRequest Egress EgressHold EgressTold.

Local Open Scope string_scope.
Local Open Scope list_scope.

(** ** The registry *)

Definition EVENT_REQUESTED : string := "box:egress-requested".
Definition EVENT_RESOLVED : string := "box:egress-resolved".

Record Prompt := mkPrompt {
  pp_id : string;
  pp_agent_id : string;
  pp_project_id : string;
  pp_host : string;
  pp_port : N;
  pp_requested_at : string;
  pp_hold : N;
}.

#[export] Instance Prompt_dec : EqDecision Prompt.
Proof. solve_decision. Defined.

Inductive Outcome := Allowed_ | Blocked | Expired.

Definition outcome_as_str (o : Outcome) : string :=
  match o with Allowed_ => "allowed" | Blocked => "blocked" | Expired => "expired" end.

(** What clients are told. *)
Inductive UiEvent :=
| Requested (p : Prompt)
| Resolved (id : string) (o : Outcome)
| Answered (agent_id host : string) (port : N) (allowed quiet : bool).


Definition values (m : gmap string Prompt) : list Prompt := (map_to_list m).*2.

(** [find] over the map's values: its order is the map's own, and at most one value can match. *)
Definition standing (agent_id host : string) (m : gmap string Prompt) : option Prompt :=
  lfind (fun p => String.eqb (pp_agent_id p) agent_id && String.eqb (pp_host p) host) (values m).

(** [id] is the new uuid and [requested_at] the time. *)
Definition request (id requested_at agent_id project_id host : string) (port hold : N) (m : gmap string Prompt) :
    gmap string Prompt * list UiEvent :=
  let prompt := mkPrompt id agent_id project_id host port requested_at hold in
  match standing agent_id host m with
  | Some p =>
      if N.eqb (pp_hold p) hold then (m, [])
      else let stale := delete (pp_id p) m in
           (<[id := prompt]> stale,
            (if is_some (m !! pp_id p) then [Resolved (pp_id p) Expired] else []) ++ [Requested prompt])
  | None => (<[id := prompt]> m, [Requested prompt])
  end.

(** Oldest first; the sort is stable. *)
Definition pending (m : gmap string Prompt) : list Prompt :=
  sort_by (fun a b => String.leb (pp_requested_at a) (pp_requested_at b)) (values m).

Definition resolve (id : string) (o : Outcome) (m : gmap string Prompt) : gmap string Prompt * list UiEvent :=
  match m !! id with
  | Some _ => (delete id m, [Resolved id o])
  | None => (m, [])
  end.

Definition of_hold (agent_id : string) (hold : N) (m : gmap string Prompt) : option Prompt :=
  lfind (fun p => String.eqb (pp_agent_id p) agent_id && N.eqb (pp_hold p) hold) (values m).

Definition ended (agent_id : string) (hold : N) (admitted : bool) (m : gmap string Prompt) : gmap string Prompt * list UiEvent :=
  match of_hold agent_id hold m with
  | Some p => resolve (pp_id p) (if admitted then Allowed_ else Expired) m
  | None => (m, [])
  end.

(** ** The record *)

Record LogRecord := mkLogRecord {
  lr_agent_id : string;
  lr_project_id : string;
  lr_host : string;
  lr_port : N;
  lr_allowed : bool;
  lr_via : string;
  lr_bytes_up : N;
  lr_bytes_down : N;
}.

Definition via_admission (a : Admission) : string :=
  match a with Listed => "listed" | ByOpen => "open" | ByOverride => "turn" end.

Definition via_denial (host : string) (d : Denial) : string :=
  match d with DenyPort => "port" | DenyHost => if is_quiet host then "quiet" else "host" end.

(** What one event leaves: the registry, what clients are told, the row of the log. *)
Definition on_egress (id requested_at agent_id project_id : string) (e : EgressEvent) (m : gmap string Prompt) :
    gmap string Prompt * list UiEvent * list LogRecord :=
  match e with
  | Allowed host port admission up down =>
      (m, [Answered agent_id host port true false],
       [mkLogRecord agent_id project_id host port true (via_admission admission) up down])
  | Denied host port reason =>
      (m, [Answered agent_id host port false (is_quiet host)],
       [mkLogRecord agent_id project_id host port false (via_denial host reason) 0 0])
  | Held hold host port =>
      let '(m, ui) := request id requested_at agent_id project_id host port hold m in (m, ui, [])
  | HoldEnded hold _ _ admitted => let '(m, ui) := ended agent_id hold admitted m in (m, ui, [])
  | Error _ _ => (m, [], [])
  end.

(** ** Beside a proxy *)

Record Desk := mkDesk {
  dk_proxy : State;
  dk_pending : gmap string Prompt;
  dk_ui : list UiEvent;
  dk_log : list LogRecord;
}.

(** What a step of the proxy told: newest first, as its events are. *)
Definition told_by (s s' : State) : list EgressEvent :=
  take (length (events s') - length (events s)) (events s').

Section Desk.
(** [since]: the ids given out in the process before this proxy started. *)
Context (agent_id project_id : string) (since : N).

Definition deliver (id at_ : string) (e : EgressEvent) (d : Desk) : Desk :=
  let '(m, ui, rows) := on_egress id at_ agent_id project_id e (dk_pending d) in
  mkDesk (dk_proxy d) m (dk_ui d ++ ui) (dk_log d ++ rows).

(** The proxy and its callbacks, an answer from any client, the end of a hold of this workspace's
    proxy before this one, delivered late, and the other workspaces' boxes. *)
Inductive DeskLabel :=
| DProxy (l : Label) (id at_ : string)
| DResolve (id : string) (o : Outcome)
| DLateEnded (hold : N) (admitted : bool)
| DOtherHeld (other id at_ project host : string) (port hold : N)
| DOtherEnded (other : string) (hold : N) (admitted : bool).

Definition desk_step (l : DeskLabel) (d : Desk) : option Desk :=
  match l with
  | DProxy l id at_ =>
      s' ← step l (dk_proxy d);
      Some (foldr (deliver id at_) (mkDesk s' (dk_pending d) (dk_ui d) (dk_log d)) (told_by (dk_proxy d) s'))
  | DResolve id o =>
      let '(m, ui) := resolve id o (dk_pending d) in Some (mkDesk (dk_proxy d) m (dk_ui d ++ ui) (dk_log d))
  | DLateEnded hold admitted =>
      if (hold <=? since)%N
      then let '(m, ui) := ended agent_id hold admitted (dk_pending d) in
           Some (mkDesk (dk_proxy d) m (dk_ui d ++ ui) (dk_log d))
      else None
  | DOtherHeld other id at_ project host port hold =>
      if String.eqb other agent_id then None
      else let '(m, ui) := request id at_ other project host port hold (dk_pending d) in
           Some (mkDesk (dk_proxy d) m (dk_ui d ++ ui) (dk_log d))
  | DOtherEnded other hold admitted =>
      if String.eqb other agent_id then None
      else let '(m, ui) := ended other hold admitted (dk_pending d) in
           Some (mkDesk (dk_proxy d) m (dk_ui d ++ ui) (dk_log d))
  end.

(** Each prompt under its own id, and one per workspace and host. *)
Definition registry_ok (m : gmap string Prompt) : Prop :=
  (forall k p, m !! k = Some p -> pp_id p = k) /\
  (forall k1 k2 p1 p2, m !! k1 = Some p1 -> m !! k2 = Some p2 ->
     pp_agent_id p1 = pp_agent_id p2 -> pp_host p1 = pp_host p2 -> k1 = k2).

(** The prompts up as the proxy starts stand for holds of proxies before it. *)
Inductive desk_reachable : Desk -> Prop :=
| DeskStart p m timeout t m0 : registry_ok m0 ->
    (forall k q, m0 !! k = Some q -> pp_agent_id q = agent_id -> (pp_hold q <= since)%N) ->
    desk_reachable (mkDesk (start_with_timeout p m timeout since t) m0 [] [])
| DeskStep d l d' : desk_reachable d -> desk_step l d = Some d' -> desk_reachable d'.

(** ** The registry *)

Lemma elem_of_values p (m : gmap string Prompt) : p ∈ values m <-> exists k, m !! k = Some p.
Proof.
  unfold values. rewrite list_elem_of_fmap. split.
  - intros ([k q] & -> & Hin%elem_of_map_to_list). eauto.
  - intros [k Hk]. exists (k, p). split; [done|]. by apply elem_of_map_to_list.
Qed.

Lemma standing_Some a h m p : standing a h m = Some p -> (exists k, m !! k = Some p) /\ pp_agent_id p = a /\ pp_host p = h.
Proof.
  intros (Hin & Hp)%lfind_Some. apply elem_of_values in Hin. apply andb_true_iff in Hp as [H1 H2].
  by apply String.eqb_eq in H1, H2.
Qed.

Lemma standing_None a h m k p : standing a h m = None -> m !! k = Some p -> pp_agent_id p = a -> pp_host p <> h.
Proof.
  intros Hn Hk Ha Hh. assert (p ∈ values m) as Hin by (apply elem_of_values; eauto).
  pose proof (proj1 (lfind_None _ _) Hn p Hin) as H. cbn in H. by rewrite Ha, Hh, !String.eqb_refl in H.
Qed.

(** What is in the registry after a request was there or is the new prompt. *)
Lemma request_lookup id t a pr h port hold m k q : (request id t a pr h port hold m).1 !! k = Some q ->
  m !! k = Some q \/ (k = id /\ q = mkPrompt id a pr h port t hold).
Proof.
  unfold request. cbv zeta. destruct (standing a h m) as [p|]; [destruct (N.eqb _ _)|]; cbn [fst]; [by left|..];
    (destruct (decide (k = id)) as [->|Hne]; [rewrite lookup_insert_eq; intros [= <-]; by right|rewrite lookup_insert_ne by done]).
  - intros [_ Hq]%lookup_delete_Some. by left.
  - by left.
Qed.

Lemma request_ok id t a pr h port hold m : registry_ok m -> registry_ok (request id t a pr h port hold m).1.
Proof.
  intros [Hk Hu]. split.
  - intros k q [Hq|[-> ->] ]%request_lookup; [by apply Hk|done].
  - intros k1 k2 p1 p2 H1 H2 Ea Eh. pose proof (request_lookup _ _ _ _ _ _ _ _ _ _ H1) as C1.
    pose proof (request_lookup _ _ _ _ _ _ _ _ _ _ H2) as C2.
    assert (forall k q, (request id t a pr h port hold m).1 !! k = Some q -> pp_agent_id q = a -> pp_host q = h ->
      standing a h m = None \/ is_some_and (standing a h m) (fun p => negb (N.eqb (pp_hold p) hold)) = true -> k = id) as Hnew.
    { intros k q. unfold request. cbv zeta. destruct (standing a h m) as [p|] eqn:Es.
      - destruct (standing_Some _ _ _ _ Es) as ([kp Hp] & Hpa & Hph).
        destruct (N.eqb _ _) eqn:En; cbn [fst]; [intros _ _ _ [?|H]; [done|cbn in H; by rewrite En in H]|].
        destruct (decide (k = id)) as [|Hne]; [done|]. rewrite lookup_insert_ne by done.
        intros [Hd Hq]%lookup_delete_Some Hqa Hqh _. exfalso. apply Hd.
        rewrite (Hk _ _ Hp). apply (Hu _ _ _ _ Hp Hq); congruence.
      - cbn [fst]. destruct (decide (k = id)) as [|Hne]; [done|]. rewrite lookup_insert_ne by done.
        intros Hq Hqa Hqh. by destruct (standing_None _ _ _ _ _ Es Hq Hqa). }
    assert (forall k q, (request id t a pr h port hold m).1 !! k = Some q -> m !! k = Some q \/
      (standing a h m = None \/ is_some_and (standing a h m) (fun p => negb (N.eqb (pp_hold p) hold)) = true)) as Hold.
    { intros k q. unfold request. destruct (standing a h m) as [p|]; [destruct (N.eqb _ _) eqn:En|]; cbn;
        [by left|right; right; by rewrite En|right; by left]. }
    destruct C1 as [C1|[-> ->] ], C2 as [C2|[-> ->] ]; [by eapply Hu|..|done].
    + destruct (Hold _ _ H2) as [Hm|Hs]; [by eapply Hu|]. cbn in Ea, Eh. by eapply Hnew.
    + destruct (Hold _ _ H1) as [Hm|Hs]; [by eapply Hu|]. cbn in Ea, Eh. symmetry. by eapply Hnew.
Qed.

Lemma registry_ok_delete id m : registry_ok m -> registry_ok (delete id m).
Proof.
  intros [Hk Hu]. split.
  - intros k p [_ Hp]%lookup_delete_Some. by apply Hk.
  - intros k1 k2 p1 p2 [_ H1]%lookup_delete_Some [_ H2]%lookup_delete_Some. by eapply Hu.
Qed.

Lemma resolve_subset id o m k q : (resolve id o m).1 !! k = Some q -> m !! k = Some q /\ k <> id.
Proof.
  unfold resolve. destruct (m !! id) eqn:E; cbn [fst].
  - intros [? ?]%lookup_delete_Some. auto.
  - intros H. split; [done|]. intros ->. congruence.
Qed.

Lemma resolve_ok id o m : registry_ok m -> registry_ok (resolve id o m).1.
Proof. unfold resolve. destruct (m !! id); [apply registry_ok_delete|done]. Qed.

Lemma ended_subset a hold adm m k q : (ended a hold adm m).1 !! k = Some q -> m !! k = Some q.
Proof. unfold ended. destruct (of_hold a hold m); [|done]. by intros [? _]%resolve_subset. Qed.

Lemma ended_ok a hold adm m : registry_ok m -> registry_ok (ended a hold adm m).1.
Proof. unfold ended. destruct (of_hold a hold m); [apply resolve_ok|done]. Qed.

(** The end of a hold closes its prompt. *)
Lemma ended_closes a hold adm m k q : registry_ok m ->
  (forall k1 k2 p1 p2, m !! k1 = Some p1 -> m !! k2 = Some p2 -> pp_agent_id p1 = a -> pp_agent_id p2 = a ->
     pp_hold p1 = hold -> pp_hold p2 = hold -> pp_host p1 = pp_host p2) ->
  (ended a hold adm m).1 !! k = Some q -> pp_agent_id q = a -> pp_hold q <> hold.
Proof.
  intros [Hk Hu] Hsame. unfold ended. destruct (of_hold a hold m) as [p|] eqn:E.
  - apply lfind_Some in E as [Hin Hp]. apply elem_of_values in Hin as [kp Hkp].
    apply andb_true_iff in Hp as [H1%String.eqb_eq H2%N.eqb_eq].
    intros [Hq Hne]%resolve_subset Ha Eh. apply Hne. rewrite (Hk _ _ Hkp).
    apply (Hu _ _ _ _ Hq Hkp); [congruence|]. by eapply Hsame.
  - cbn. intros Hq Ha Eh. assert (q ∈ values m) as Hin by (apply elem_of_values; eauto).
    pose proof (proj1 (lfind_None _ _) E q Hin) as H. cbn in H. by rewrite Ha, Eh, String.eqb_refl, N.eqb_refl in H.
Qed.

(** ** A prompt stands for a hold *)

Lemma step_events l s s' : step l s = Some s' -> events s' = events s \/ exists e, events s' = e :: events s.
Proof.
  intros [(c & host & port & pc & Hc & Hr)|[_ _ _ [?|(e & ? & _)] ] ]%step_cases; [|by left|right; eauto].
  destruct pc; cbn [run_pc] in Hr; try done;
    [destruct (check _ _ _) as [?|[]]|destruct (is_declined _ _)| | |destruct (join_hold _ _ _ _ _) as [[[j hs] ids]|]| |
     destruct (negb _); [|destruct (_ || _)]|destruct (leave_hold _ _)| |]; try done; injection Hr as <-; cbn; eauto.
Qed.

Lemma told_by_spec l s s' : step l s = Some s' ->
  (events s' = events s /\ told_by s s' = []) \/ exists e, events s' = e :: events s /\ told_by s s' = [e].
Proof.
  intros [E|[e E] ]%step_events; unfold told_by; rewrite E.
  - left. by rewrite Nat.sub_diag.
  - right. exists e. split; [done|]. cbn [length]. by replace (S (length (events s)) - length (events s))%nat with 1%nat by lia.
Qed.

(** Every id this proxy gives is new to the process. *)
Definition since_ok (s : State) : Prop :=
  (since <= hold_ids s)%N /\ (forall host h, held (shared s) !! host = Some h -> (since < h_id h)%N) /\
  (forall id, id ∈ held_ids (events s) -> (since < id)%N).

Lemma since_step l s s' : tale_ok s -> since_ok s -> step l s = Some s' -> since_ok s'.
Proof.
  intros Ht (H1 & H2 & H3) [(c & host & port & pc & Hc & Hr)|[Hh Hi _ He] ]%step_cases.
  - destruct pc; cbn [run_pc] in Hr; try done.
    + destruct (check _ _ _) as [?|[]]; by injection Hr as <-.
    + destruct (is_declined _ _); by injection Hr as <-.
    + by injection Hr as <-.
    + by injection Hr as <-.
    + destruct (join_hold _ _ _ _ _) as [[[j hs] ids]|] eqn:Ej; injection Hr as <-; [|done]. unfold join_hold in Ej.
      destruct (held (shared s) !! host) as [k|] eqn:Ek; [|destruct (_ <=? _)%nat; [done|]]; injection Ej as <- <- <-;
        (split; [cbn; unfold next_hold_id; lia|]); (split; [|done]); cbn; intros h x;
        (destruct (decide (h = host)) as [->|Hne]; [rewrite lookup_insert_eq; intros [= <-]; cbn|rewrite lookup_insert_ne by done; apply H2]).
      * by eapply H2.
      * unfold next_hold_id. lia.
    + injection Hr as <-. split; [done|]. split; [done|]. cbn. intros i [->|Hi]%elem_of_cons; [|by apply H3].
      destruct (tl_announce _ _ _ _ Ht _ _ _ _ _ Hc eq_refl) as [_ (h & Hh & <- & _)]. by eapply H2.
    + destruct (negb _); [|destruct (_ || _)]; try done; by injection Hr as <-.
    + destruct (leave_hold _ _) as [ended_ hs] eqn:El. injection Hr as <-. split; [done|]. split; [|done]. cbn.
      unfold leave_hold in El. destruct (held (shared s) !! host) as [k|] eqn:Ek; [|injection El as <- <-; apply H2].
      destruct (_ <? _)%nat; injection El as <- <-; intros h x.
      * destruct (decide (h = host)) as [->|Hne]; [rewrite lookup_insert_eq; intros [= <-]; cbn; by eapply H2|].
        rewrite lookup_insert_ne by done. apply H2.
      * intros [_ Hx]%lookup_delete_Some. by eapply H2.
    + injection Hr as <-. split; [done|]. split; [done|]. cbn. apply H3.
    + by injection Hr as <-.
  - split; [lia|]. rewrite Hh. split; [done|]. destruct He as [->|(e & -> & He)]; [done|]. cbn. destruct e; done.
Qed.

Definition desk_ok (d : Desk) : Prop :=
  reachable (dk_proxy d) /\ since_ok (dk_proxy d) /\ registry_ok (dk_pending d) /\
  forall k q, dk_pending d !! k = Some q -> pp_agent_id q = agent_id -> (since < pp_hold q)%N ->
    Held (pp_hold q) (pp_host q) (pp_port q) ∈ events (dk_proxy d) /\ pp_hold q ∉ ended_ids (events (dk_proxy d)).

(** Another workspace's prompt comes; no prompt of this one comes with it. *)
Lemma desk_other d m ui rows : desk_ok d -> registry_ok m ->
  (forall k q, m !! k = Some q -> pp_agent_id q = agent_id -> dk_pending d !! k = Some q) ->
  desk_ok (mkDesk (dk_proxy d) m ui rows).
Proof. intros (H1 & H2 & H3 & H4) Hm Hsub. split_and!; try done. cbn. intros k q Hq Ha. by apply (H4 k q); [apply Hsub|]. Qed.

Lemma deliver_ok id at_ e s' d : desk_ok d -> reachable s' -> since_ok s' -> events s' = e :: events (dk_proxy d) ->
  desk_ok (deliver id at_ e (mkDesk s' (dk_pending d) (dk_ui d) (dk_log d))).
Proof.
  intros (_ & _ & Hreg & Hlive) Hr Hsince Ee. pose proof (tl_told _ _ _ _ (tale_reachable s' Hr)) as Ht. rewrite Ee in Ht.
  destruct Ht as [Ht He].
  assert (forall m ui rows, registry_ok m -> (forall k q, m !! k = Some q -> dk_pending d !! k = Some q) ->
    (forall k q, m !! k = Some q -> pp_agent_id q = agent_id -> (since < pp_hold q)%N -> pp_hold q ∉ ended_ids (events s')) ->
    desk_ok (mkDesk s' m ui rows)) as Hsub.
  { intros m ui rows Hm Hs Hn. split_and!; try done. cbn. intros k q Hq Ha Hlt. split; [|by eapply Hn].
    rewrite Ee. right. by apply (Hlive k q); [apply Hs|..]. }
  unfold deliver. destruct e as [h p a up down|h p r|i h p|i h p adm|h msg]; cbn [on_egress dk_pending dk_ui dk_log dk_proxy].
  - apply Hsub; [done..|]. rewrite Ee. intros k q Hq Ha Hlt. by apply (Hlive k q).
  - apply Hsub; [done..|]. rewrite Ee. intros k q Hq Ha Hlt. by apply (Hlive k q).
  - destruct (request id at_ agent_id project_id h p i (dk_pending d)) as [m ui] eqn:Em.
    assert (m = (request id at_ agent_id project_id h p i (dk_pending d)).1) as E by (by rewrite Em).
    split_and!; try done; cbn; [rewrite E; by apply request_ok|]. rewrite E, Ee.
    intros k q [Hq|[-> ->] ]%request_lookup Ha Hlt.
    + destruct (Hlive _ _ Hq Ha Hlt). split; [by right|done].
    + cbn. split; [by left|]. intros Hin%told_ended_held; done.
  - destruct (ended agent_id i adm (dk_pending d)) as [m ui] eqn:Em.
    assert (m = (ended agent_id i adm (dk_pending d)).1) as E by (by rewrite Em).
    destruct He as [Hheld Hnot].
    apply Hsub; [rewrite E; by apply ended_ok|rewrite E; apply ended_subset|]. rewrite E, Ee. cbn.
    intros k q Hq Ha Hlt. apply not_elem_of_cons. split; [|by apply (Hlive k q); [eapply ended_subset|..]].
    eapply ended_closes; [done| |exact Hq|done]. intros k1 k2 p1 p2 Hp1 Hp2 Ha1 Ha2 E1 E2.
    assert (since < i)%N as Hi by (apply Hsince; rewrite Ee; cbn; apply elem_of_held_ids; eauto).
    destruct (Hlive _ _ Hp1 Ha1) as [Hin1 _]; [lia|]. destruct (Hlive _ _ Hp2 Ha2) as [Hin2 _]; [lia|].
    rewrite E1 in Hin1. rewrite E2 in Hin2. by destruct (told_held_fun _ _ _ _ _ _ Ht Hin1 Hin2) as [-> _].
  - apply Hsub; [done..|]. rewrite Ee. intros k q Hq Ha Hlt. by apply (Hlive k q).
Qed.

Lemma desk_reachable_ok d : desk_reachable d -> desk_ok d.
Proof.
  induction 1 as [p m timeout t m0 Hm0 Hold|d l d' _ IH Hs].
  - split_and!; [apply start_reachable| |done|].
    + split; [cbn; lia|]. split; [intros h k; cbn; by rewrite lookup_empty|by intros i Hi%elem_of_nil].
    + cbn. intros k q Hq Ha Hlt. specialize (Hold _ _ Hq Ha). lia.
  - destruct l as [l id at_|id o|hold adm|other id at_ pr h p hold|other hold adm]; cbn [desk_step] in Hs.
    + destruct (step l (dk_proxy d)) as [s'|] eqn:E; [|done]. cbn in Hs. injection Hs as <-.
      pose proof IH as (Hr & Hsince & Hreg & Hlive).
      assert (reachable s') as Hr' by (destruct Hr as [past Ht]; eexists; by econstructor).
      pose proof (since_step l (dk_proxy d) s' (tale_reachable _ Hr) Hsince E) as Hs'.
      destruct (told_by_spec _ _ _ E) as [[Ee ->]|(e & Ee & ->)]; cbn [foldr]; [|by apply deliver_ok].
      split_and!; try done. cbn. rewrite Ee. apply Hlive.
    + destruct (resolve id o (dk_pending d)) as [m ui] eqn:E. injection Hs as <-.
      assert (m = (resolve id o (dk_pending d)).1) as -> by (by rewrite E).
      apply desk_other; [done|apply resolve_ok, IH|]. by intros k q [? _]%resolve_subset.
    + destruct (_ <=? _)%N; [|done]. destruct (ended _ _ _ _) as [m ui] eqn:E. injection Hs as <-.
      assert (m = (ended agent_id hold adm (dk_pending d)).1) as -> by (by rewrite E).
      apply desk_other; [done|apply ended_ok, IH|]. by intros k q ?%ended_subset.
    + destruct (String.eqb_spec other agent_id) as [|Hne]; [done|]. destruct (request _ _ _ _ _ _ _ _) as [m ui] eqn:E.
      injection Hs as <-. assert (m = (request id at_ other pr h p hold (dk_pending d)).1) as -> by (by rewrite E).
      apply desk_other; [done|apply request_ok, IH|]. intros k q [?|[-> ->] ]%request_lookup; [done|]. cbn. congruence.
    + destruct (String.eqb_spec other agent_id) as [|Hne]; [done|]. destruct (ended _ _ _ _) as [m ui] eqn:E.
      injection Hs as <-. assert (m = (ended other hold adm (dk_pending d)).1) as -> by (by rewrite E).
      apply desk_other; [done|apply ended_ok, IH|]. by intros k q ?%ended_subset.
Qed.

(** (C19) Whatever the connections, the answers and the other workspaces do: a workspace has one prompt per
    host, and each prompt of this proxy stands for a hold that is on its map or whose end is about to
    be told: no question stays up for a hold that is over. *)
Theorem prompts_stand_for_holds d k q : desk_reachable d -> dk_pending d !! k = Some q ->
  pp_agent_id q = agent_id -> (since < pp_hold q)%N ->
  (forall k' q', dk_pending d !! k' = Some q' -> pp_agent_id q' = agent_id -> pp_host q' = pp_host q -> k' = k) /\
  ((exists h, held (shared (dk_proxy d)) !! pp_host q = Some h /\ h_id h = pp_hold q) \/
   exists c port admitted, conns (dk_proxy d) !! c = Some (On (pp_host q) port (End_ (pp_hold q) (pp_port q) admitted))).
Proof.
  intros Hd Hq Ha Hlt. destruct (desk_reachable_ok d Hd) as (Hr & _ & [_ Hu] & Hlive). split.
  - intros k' q' Hq' Ha' Hh. apply (Hu _ _ _ _ Hq' Hq); congruence.
  - destruct (Hlive _ _ Hq Ha Hlt) as [Hin Hn].
    destruct (tl_open _ _ _ _ (tale_reachable _ Hr) _ _ _ Hin Hn) as [?|(c & x & Hx & Hrole)]; [by left|right].
    destruct x as [|host port pc|]; try done. destruct pc; try done. injection Hrole as -> -> ->. eauto.
Qed.

Lemma holder_exists (m : gmap nat Conn) host : (0 < size (holders host m))%nat ->
  exists c h p pc, m !! c = Some (On h p pc) /\ ~ answered pc.
Proof.
  intros Hs. destruct (map_choose (holders host m)) as (c & x & Hx).
  { intros E. rewrite E, map_size_empty in Hs. lia. }
  apply map_lookup_filter_Some in Hx as [Hx Hh]. cbn in Hh. unfold in_hold_on in Hh.
  destruct x as [|h p pc|]; try done. exists c, h, p, pc. split; [done|]. intros Hp. by destruct pc.
Qed.

(** Once every connection of the proxy is answered none of its prompts is up, answered by anyone or
    not: a box that stopped leaves no card behind. *)
Theorem answered_proxy_leaves_no_prompt d k q : desk_reachable d ->
  (forall c host port pc, conns (dk_proxy d) !! c = Some (On host port pc) -> answered pc) ->
  dk_pending d !! k = Some q -> pp_agent_id q = agent_id -> (pp_hold q <= since)%N.
Proof.
  intros Hd Hall Hq Ha. destruct (N.le_gt_cases (pp_hold q) since) as [|Hlt]; [done|]. exfalso.
  destruct (desk_reachable_ok d Hd) as (Hr & _ & _ & Hlive). destruct (Hlive _ _ Hq Ha Hlt) as [Hin Hn].
  pose proof (acc_reachable _ Hr) as Hacc.
  destruct (tl_open _ _ _ _ (tale_reachable _ Hr) _ _ _ Hin Hn) as [(h & Hh & _)|(c & x & Hx & Hrole)].
  - pose proof (acc_count _ _ _ Hacc (pp_host q)) as Hc. pose proof (acc_pos _ _ _ Hacc _ _ Hh) as Hp. rewrite Hh in Hc.
    destruct (holder_exists (conns (dk_proxy d)) (pp_host q)) as (c & h' & p & pc & Hx & Hna); [lia|]. by eapply Hna, Hall.
  - destruct x as [|host port pc|]; try done. destruct pc; try done. by apply (Hall _ _ _ _ Hx).
Qed.

(** ** A run *)

Fixpoint desk_steps (ls : list DeskLabel) (d : Desk) : option Desk :=
  match ls with [] => Some d | l :: ls => d ← desk_step l d; desk_steps ls d end.

Lemma desk_steps_reachable ls d d' : desk_reachable d -> desk_steps ls d = Some d' -> desk_reachable d'.
Proof.
  revert d. induction ls as [|l ls IH]; cbn; intros d Hd; [by intros [= <-]|].
  destruct (desk_step l d) as [d1|] eqn:E; [|done]. apply IH. by econstructor.
Qed.

Lemma desk_start_reachable p m timeout t : desk_reachable (mkDesk (start_with_timeout p m timeout since t) ∅ [] []).
Proof. by constructor; [split; intros *; rewrite lookup_empty|intros *; rewrite lookup_empty]. Qed.
End Desk.

Definition desk_demo (ls : list DeskLabel) : Desk :=
  default (mkDesk demo_start ∅ [] []) (desk_steps "fuji" "p1" 0 ls (mkDesk demo_start ∅ [] [])).

Lemma desk_demo_reachable ls : is_some (desk_steps "fuji" "p1" 0 ls (mkDesk demo_start ∅ [] [])) = true ->
  desk_reachable "fuji" "p1" 0 (desk_demo ls).
Proof.
  intros H. apply is_some_true in H as [d E]. unfold desk_demo. rewrite E. cbn.
  eapply desk_steps_reachable; [|exact E]. apply desk_start_reachable.
Qed.

Definition demo_asked : list DeskLabel := (fun l => DProxy l "u1" "10:00") <$> demo_held.

(** The box stops with the question up. *)
Definition demo_stopped : list DeskLabel :=
  demo_asked ++ ((fun l => DProxy l "u2" "10:01") <$> [LDrop; LRun 0; LRun 0; LRun 0; LRun 0]).

Definition demo_prompt : Prompt := mkPrompt "u1" "fuji" "p1" "example.com" 443 "10:00" 1.

Lemma prompts_stand_for_holds_witness :
  pending (dk_pending (desk_demo demo_asked)) = [demo_prompt] /\
  ((exists h, held (shared (dk_proxy (desk_demo demo_asked))) !! "example.com" = Some h /\ h_id h = 1%N) \/
   exists c port admitted, conns (dk_proxy (desk_demo demo_asked)) !! c = Some (On "example.com" port (End_ 1 443 admitted))).
Proof.
  split; [vm_compute; reflexivity|].
  refine (proj2 (prompts_stand_for_holds "fuji" "p1" 0 (desk_demo demo_asked) "u1" demo_prompt _ _ _ _)).
  - apply desk_demo_reachable. vm_compute. reflexivity.
  - vm_compute. reflexivity.
  - reflexivity.
  - vm_compute. reflexivity.
Defined.

Example demo_card_comes_down :
  dk_ui (desk_demo demo_stopped) =
    [Requested demo_prompt; Resolved "u1" Expired; Answered "fuji" "example.com" 443 false false] /\
  pending (dk_pending (desk_demo demo_stopped)) = [].
Proof. vm_compute. auto. Qed.

(** A desk whose one connection is answered and whose registry holds a prompt from before it. *)
Definition demo_old : Desk :=
  mkDesk (start_with_timeout (mkEgressPolicy [] DEFAULT_PORTS) MHold 60000 7 0)
    {["u0" := mkPrompt "u0" "fuji" "p1" "old.example" 443 "9:00" 7]} [] [].

Lemma answered_proxy_leaves_no_prompt_witness : (7 <= 7)%N.
Proof.
  refine (answered_proxy_leaves_no_prompt "fuji" "p1" 7 demo_old "u0" (mkPrompt "u0" "fuji" "p1" "old.example" 443 "9:00" 7) _ _ _ eq_refl).
  - constructor; [split|].
    + intros k p [<- <-]%lookup_singleton_Some. reflexivity.
    + intros k1 k2 p1 p2 [<- _]%lookup_singleton_Some [<- _]%lookup_singleton_Some _ _. reflexivity.
    + intros k q [_ <-]%lookup_singleton_Some _. vm_compute. discriminate.
  - intros c host port pc. vm_compute. discriminate.
  - vm_compute. reflexivity.
Defined.
