(* ===== verification/EgressCommands.v ===== *)
(** * The commands that change a box's network

    [box_egress_allow_impl], [set_box_egress_global_impl], [box_egress_answer_impl],
    [box_egress_open_turn_impl] and [set_box_setting_impl] of
    [src/crates/fletch-core/src/commands/boxes.rs], [set_project_setting_impl] of
    [project_settings.rs], and what they call on the registry of boxes ([registry.rs]): over the
    database, the mirror, the boxes and the prompts. What a box's proxy is told is a list of calls in
    order; each is an [update] or a [decline] of Egress.v. *)

From S2P Require Import Prelude RustStr Closes Sql Database AutopilotStore EgressPolicy EgressRequest Egress BoxSettings EgressList EgressPrompt.

Local Open Scope string_scope.
Local Open Scope list_scope.

(** ** The engine *)

(** An entry of the registry, as far as its network goes. *)
Record BoxEntry := mkBoxEntry {
  be_project_id : string;
  be_running : bool;
  be_turn_open : bool;
}.

(** What the proxy of an agent's running box is told. *)
Inductive ProxyCall :=
| CallUpdate (agent_id : string) (p : EgressPolicy) (m : Mode)
| CallDecline (agent_id host : string).

Inductive Told :=
| TellPrompt (e : UiEvent)
| TellProjectSetting (project_id key : string) (value : option string)
| TellPolicy (project_id : option string)
| TellState (agent_id : string)
| TellSetting (key : string) (value : option string).

(** [en_files]: the layer of each project's settings files ([project_file::egress_delta]). *)
Record Engine := mkEngine {
  en_db : Db;
  en_mirror : Mirror;
  en_files : gmap string Delta;
  en_boxes : gmap string BoxEntry;
  en_prompts : gmap string Prompt;
  en_calls : list ProxyCall;
  en_told : list Told;
}.

Definition with_db (d : Db) (e : Engine) : Engine :=
  mkEngine d (en_mirror e) (en_files e) (en_boxes e) (en_prompts e) (en_calls e) (en_told e).
Definition with_mirror (f : Mirror -> Mirror) (e : Engine) : Engine :=
  mkEngine (en_db e) (f (en_mirror e)) (en_files e) (en_boxes e) (en_prompts e) (en_calls e) (en_told e).
Definition with_boxes (b : gmap string BoxEntry) (e : Engine) : Engine :=
  mkEngine (en_db e) (en_mirror e) (en_files e) b (en_prompts e) (en_calls e) (en_told e).
Definition with_prompts (p : gmap string Prompt) (e : Engine) : Engine :=
  mkEngine (en_db e) (en_mirror e) (en_files e) (en_boxes e) p (en_calls e) (en_told e).
Definition with_calls (l : list ProxyCall) (e : Engine) : Engine :=
  mkEngine (en_db e) (en_mirror e) (en_files e) (en_boxes e) (en_prompts e) (en_calls e ++ l) (en_told e).
Definition with_told (l : list Told) (e : Engine) : Engine :=
  mkEngine (en_db e) (en_mirror e) (en_files e) (en_boxes e) (en_prompts e) (en_calls e) (en_told e ++ l).

Section Engine.
Context `{World} `{JsonStrings} `{DeltaJson}.

(** A statement of the engine's database. *)
Definition on_db {A} (m : M Db A) : M Engine A := fun c =>
  let '(r, c') := m (Build_Conn (en_db (c_db c)) (c_tick c)) in
  (r, Build_Conn (with_db (c_db c') (c_db c)) (c_tick c')).

(** What is in memory is read and written without a statement. *)
Definition look {A} (f : Engine -> A) : M Engine A := fun c => (Ok (f (c_db c)), c).
Definition change (f : Engine -> Engine) : M Engine () := fun c => (Ok tt, Build_Conn (f (c_db c)) (c_tick c)).

(** ** The registry *)

Definition file_delta (e : Engine) (project_id : string) : Delta := default no_delta (en_files e !! project_id).

(** [egress_policy]; the default is never taken ([egress_policy_total]). *)
Definition policy_of (e : Engine) (project_id : string) : EgressPolicy :=
  default (mkEgressPolicy [] []) (egress_policy (en_mirror e) (file_delta e project_id) project_id).

Definition mode_of (e : Engine) (b : BoxEntry) : Mode := entry_mode (en_mirror e) (be_project_id b) (be_turn_open b).

Definition update_calls (e : Engine) (project_id : string) : list ProxyCall :=
  (fun '(agent_id, b) => CallUpdate agent_id (policy_of e project_id) (mode_of e b))
  <$> lfilter (fun '(_, b) => String.eqb (be_project_id b) project_id && be_running b) (map_to_list (en_boxes e)).

Definition update_egress (project_id : string) : M Engine () :=
  change (fun e => with_calls (update_calls e project_id) e).

(** The projects with a running box, each once. *)
Definition running_projects (e : Engine) : list string :=
  elements (list_to_set (be_project_id <$> lfilter be_running (map_to_list (en_boxes e)).*2) : gset string).

Definition update_egress_all : M Engine () :=
  let* projects := look running_projects in
  let* _ := for_each update_egress projects in
  ret tt.

Definition set_turn_open (agent_id : string) (open : bool) : M Engine bool :=
  let* b := look (fun e => en_boxes e !! agent_id) in
  match b with
  | None => ret false
  | Some b =>
      if eqb (be_turn_open b) open then ret true
      else let b := mkBoxEntry (be_project_id b) (be_running b) open in
           let* _ := change (fun e => with_boxes (<[agent_id := b]> (en_boxes e)) e) in
           let* _ := (if be_running b
                      then change (fun e => with_calls [CallUpdate agent_id (policy_of e (be_project_id b)) (mode_of e b)] e)
                      else ret tt) in
           let* _ := change (with_told [TellState agent_id]) in
           ret true
  end.

Definition turn_ended (agent_id : string) : M Engine () := let* _ := set_turn_open agent_id false in ret tt.

Definition decline_host (agent_id host : string) : M Engine () :=
  let* b := look (fun e => en_boxes e !! agent_id) in
  if is_some_and b be_running then change (with_calls [CallDecline agent_id host]) else ret tt.

(** ** Project settings *)

Definition PROJECT_SETTING_KEYS : list string :=
  ["verify.on_turn_end"; "run_env"; "workflow.default"; "roadmap.autoqueue"; "roadmap.max_concurrent";
   "roadmap.settle_review"; "linear.team_id"; "linear.team_name"; "context.enabled"; "context.extract";
   EGRESS_ALLOW_KEY; "sandbox.placement"; EGRESS_MODE_KEY; "icon.source"; "roadmap.triage"].

Definition RUN_PREFIX : string := "run.".

Definition is_client_project_key (key : string) : bool :=
  lcontains PROJECT_SETTING_KEYS key
  || (starts_with RUN_PREFIX key && (String.length RUN_PREFIX <? String.length key)%nat).

Definition delete_project_setting (project_id key : string) : M Db () :=
  execute (set_project_settings (fun m => delete (project_id, key) m)).

Definition ICON_SOURCE_KEY : string := "icon.source".

Definition set_project_setting_impl (project_id key : string) (value : option string) : M Engine () :=
  if negb (is_client_project_key key)
  then err ("`" +:+ key +:+ "` is not a project setting a client may write")
  else if String.eqb key ICON_SOURCE_KEY
  then err ("`" +:+ key +:+ "` is written through project_icon_set")
  else
    let is_mode := String.eqb key EGRESS_MODE_KEY in
    let* mode := lift (match value with
                       | Some v => if is_mode then match parse_mode (Some v) with Ok m => Ok (Some m) | Err e => Err e end
                                   else Ok None
                       | None => Ok None
                       end) in
    let value := match mode with Some m => Some (as_setting m) | None => value end in
    let* _ := on_db (match value with
                     | Some v => upsert_project_setting project_id key v
                     | None => delete_project_setting project_id key
                     end) in
    let* _ := (if is_mode
               then let* _ := change (with_mirror (set_egress_mode_override project_id mode)) in update_egress project_id
               else ret tt) in
    change (with_told [TellProjectSetting project_id key value]).

(** ** The lists *)

Definition box_egress_allow_impl (project_id pattern : string) : M Engine (list string) :=
  let* pattern := lift (spelled pattern) in
  let* patterns := look (fun e => push_new (egress_allow (en_mirror e) project_id) pattern) in
  let* _ := set_project_setting_impl project_id EGRESS_ALLOW_KEY (Some (json_print patterns)) in
  let* _ := change (with_mirror (set_egress_allow project_id patterns)) in
  let* _ := update_egress project_id in
  let* _ := change (with_told [TellPolicy (Some project_id)]) in
  ret patterns.

Definition set_setting (key value : string) : M Db () := execute (set_settings (fun m => <[key := value]> m)).

Definition set_box_egress_global_impl (delta : Delta) : M Engine Delta :=
  let* d := lift (normalized delta) in
  let delta := mkDelta (add d) [] in
  let* _ := on_db (set_setting GLOBAL_SETTING (delta_to_json delta)) in
  let* _ := change (with_mirror (set_global_egress delta)) in
  let* _ := update_egress_all in
  let* _ := change (with_told [TellPolicy None]) in
  ret delta.

(** ** The answers *)

Inductive EgressAnswer := AnswerProject | AnswerAlways | AnswerBlock | AnswerTurn.

Definition resolve_prompt (id : string) (o : Outcome) : M Engine () :=
  change (fun e => let '(m, ui) := resolve id o (en_prompts e) in with_told (TellPrompt <$> ui) (with_prompts m e)).

Definition box_egress_answer_impl (id : string) (answer : EgressAnswer) : M Engine () :=
  let* prompt := look (fun e => en_prompts e !! id) in
  match prompt with
  | None => ret tt
  | Some prompt =>
      match answer with
      | AnswerProject =>
          let* _ := box_egress_allow_impl (pp_project_id prompt) (pp_host prompt) in
          resolve_prompt (pp_id prompt) Allowed_
      | AnswerAlways =>
          let* global := look (fun e => mr_global (en_mirror e)) in
          let* _ := set_box_egress_global_impl (mkDelta (push_new (add global) (pp_host prompt)) (remove global)) in
          resolve_prompt (pp_id prompt) Allowed_
      | AnswerTurn =>
          let* _ := set_turn_open (pp_agent_id prompt) true in
          resolve_prompt (pp_id prompt) Allowed_
      | AnswerBlock =>
          let* _ := resolve_prompt (pp_id prompt) Blocked in
          decline_host (pp_agent_id prompt) (pp_host prompt)
      end
  end.

Definition box_egress_open_turn_impl (agent_id : string) (open : bool) : M Engine () :=
  let* there := set_turn_open agent_id open in
  if there then ret tt else err "this workspace does not run in a Linux VM".

(** ** The box settings *)

Definition delete_setting (key : string) : M Db () := execute (set_settings (fun m => delete key m)).

(** [database::get_setting]: an unreadable row is no row. *)
Definition get_setting (key : string) : M Db (option string) :=
  let* o := attempt_ok (query (fun d => db_settings d !! key)) in ret (mjoin o).

Definition load_settings : M Db BoxSettings :=
  let* memory := get_setting MEMORY_SETTING in
  let* cpus := get_setting CPUS_SETTING in
  let* disk := get_setting DISK_SETTING in
  let* url := get_setting IMAGE_URL_SETTING in
  let* idle := get_setting IDLE_STOP_SETTING in
  let* mode := get_setting EGRESS_MODE_SETTING in
  ret (load_values memory cpus disk url idle mode).

Definition set_box_setting_impl (key : string) (value : option string) : M Engine () :=
  let refused := "`" +:+ key +:+ "` is not a box setting" in
  let* normalized := lift (match value with
                           | Some v => match validate key v with
                                       | None => Err refused
                                       | Some (Err e) => Err e
                                       | Some (Ok v) => Ok (Some v)
                                       end
                           | None => if lcontains KEYS key then Ok None else Err refused
                           end) in
  let* _ := on_db (match normalized with Some v => set_setting key v | None => delete_setting key end) in
  let* settings := on_db load_settings in
  let* _ := change (with_mirror (set_box_settings settings)) in
  let* _ := (if String.eqb key EGRESS_MODE_SETTING then update_egress_all else ret tt) in
  change (with_told [TellSetting key normalized]).
End Engine.
