(* ===== verification/EgressAnswer.v ===== *)
(** * What an answer does

    An answered prompt reaches the proxies it is about: the list that gains the host is the one each
    running box of its scope is told, the posture opens, or the host is declined; and the prompt comes
    down with the outcome that matches. Two ways it does not are stated as they are. *)

From S2P Require Import Prelude RustStr Closes Sql Database AutopilotStore EgressPolicy EgressRequest Egress EgressHold EgressTold EgressLicence BoxSettings EgressList EgressPrompt EgressCommands.

Local Open Scope string_scope.
Local Open Scope list_scope.

Lemma lift_inv {D A} (r : result A string) c a (c' : Sql.Conn D) : lift r c = (Ok a, c') -> r = Ok a /\ c' = c.
Proof. unfold lift. by intros [= -> ->]. Qed.

Lemma ret_inv {D A} (x : A) c a (c' : Sql.Conn D) : ret x c = (Ok a, c') -> a = x /\ c' = c.
Proof. unfold ret. by intros [= <- <-]. Qed.

Section Answers.
Context `{World0 : World} `{Json0 : JsonStrings} `{Json1 : DeltaJson}.

Lemma look_inv {A} (f : Engine -> A) c a c' : look f c = (Ok a, c') -> a = f (c_db c) /\ c' = c.
Proof. unfold look. by intros [= <- <-]. Qed.

Lemma change_inv f c u c' : change f c = (Ok u, c') -> c_db c' = f (c_db c).
Proof. unfold change. by intros [= <- <-]. Qed.

Lemma on_db_inv {A} (m : M Db A) c a c' : on_db m c = (Ok a, c') -> exists d, c_db c' = with_db d (c_db c).
Proof. unfold on_db. destruct (m _) as [r c1]. intros [= _ <-]. by eexists. Qed.

(** ** Lists *)

Lemma elem_of_push_new l x y : y ∈ push_new l x <-> y ∈ l \/ y = x.
Proof.
  unfold push_new. destruct (lcontains l x) eqn:E.
  - apply lcontains_true in E. split; [by left|by intros [?| ->] ].
  - rewrite elem_of_app, list_elem_of_singleton. done.
Qed.

(** A normal host is its own pattern. *)
Lemma from_str_normal h : normal h = true -> from_str h = Ok (Exact h).
Proof. intros Hn. unfold from_str. by rewrite normal_no_star, normalize_of_normal. Qed.

Lemma spelled_normal h : normal h = true -> spelled h = Ok h.
Proof. intros Hn. unfold spelled. by rewrite from_str_normal. Qed.

(** Everything the lists hold parses: what the setters and the readers of the files store. *)
Definition lists_ok (e : Engine) : Prop :=
  (forall project_id p, p ∈ egress_allow (en_mirror e) project_id -> parses p) /\
  (forall p, p ∈ add (mr_global (en_mirror e)) -> parses p) /\
  (forall project_id p, p ∈ add (file_delta e project_id) -> parses p).

Lemma lists_ok_layers e project_id : lists_ok e -> layers_ok (layers (en_mirror e) (file_delta e project_id) project_id).
Proof.
  intros (H1' & H2' & H3') l p. unfold layers. rewrite !elem_of_cons, elem_of_nil.
  intros [->|[->|[->|[] ] ] ]; cbn; eauto.
Qed.

(** A host that is a pattern of the effective list is listed by the policy. *)
Lemma policy_lists e project_id host : lists_ok e -> normal host = true ->
  says (lcontains DEFAULT_ALLOW host) (layers (en_mirror e) (file_delta e project_id) project_id) host = true ->
  listed (policy_of e project_id) host = true.
Proof.
  intros Hok Hn Hs. unfold policy_of.
  pose proof (egress_policy_total (en_mirror e) (file_delta e project_id) project_id) as Ht.
  apply is_some_true in Ht as [pol E]. rewrite E. cbn.
  destruct (egress_policy_lists _ _ _ _ host (lists_ok_layers _ _ Hok) E) as [_ Hl]. apply Hl.
  exists host, (Exact host). split; [|split; [by apply from_str_normal|done] ].
  unfold egress_entries. by apply effective_says.
Qed.

(** ** The calls of an update *)

Lemma update_calls_in e project_id agent b : en_boxes e !! agent = Some b -> be_running b = true ->
  be_project_id b = project_id -> CallUpdate agent (policy_of e project_id) (mode_of e b) ∈ update_calls e project_id.
Proof.
  intros Hb Hr Hp. unfold update_calls. apply list_elem_of_fmap. exists (agent, b). split; [done|].
  apply elem_of_lfilter. split; [by apply elem_of_map_to_list|]. by rewrite Hp, String.eqb_refl, Hr.
Qed.

(** Every call of an update to a box of the project carries the project's policy. *)
Lemma update_calls_spec e project_id call : call ∈ update_calls e project_id ->
  exists agent b, call = CallUpdate agent (policy_of e project_id) (mode_of e b) /\
    en_boxes e !! agent = Some b /\ be_project_id b = project_id.
Proof.
  unfold update_calls. intros ([agent b] & -> & [Hin E]%elem_of_lfilter)%list_elem_of_fmap.
  apply andb_true_iff in E as [Hp%String.eqb_eq _]. apply elem_of_map_to_list in Hin. exists agent, b. done.
Qed.

Lemma update_egress_inv project_id c u c' : update_egress project_id c = (Ok u, c') ->
  c_db c' = with_calls (update_calls (c_db c) project_id) (c_db c).
Proof. exact (change_inv (fun e => with_calls (update_calls e project_id) e) c u c'). Qed.

(** The calls follow from the mirror, the files and the boxes. *)
Lemma update_calls_same e e' p : en_mirror e' = en_mirror e -> en_files e' = en_files e -> en_boxes e' = en_boxes e ->
  update_calls e' p = update_calls e p.
Proof. unfold update_calls, policy_of, mode_of, file_delta. by intros -> -> ->. Qed.

Lemma with_calls_app l l' e : with_calls l' (with_calls l e) = with_calls (l ++ l') e.
Proof. unfold with_calls. cbn. by rewrite app_assoc. Qed.

Lemma with_calls_nil e : with_calls [] e = e.
Proof. destruct e. unfold with_calls. cbn. by rewrite app_nil_r. Qed.

Lemma update_each_inv ps c us c' : for_each update_egress ps c = (Ok us, c') ->
  c_db c' = with_calls (mjoin (update_calls (c_db c) <$> ps)) (c_db c).
Proof.
  revert c us. induction ps as [|p ps IH]; cbn [for_each]; intros c us.
  - intros [_ ->]%ret_inv. by rewrite with_calls_nil.
  - intros (u & c1 & Hu & (us' & c2 & Hus & [_ ->]%ret_inv)%bind_Ok)%bind_Ok.
    apply update_egress_inv in Hu. by rewrite (IH _ _ Hus), Hu, with_calls_app.
Qed.

Lemma update_egress_all_inv c u c' : update_egress_all c = (Ok u, c') ->
  c_db c' = with_calls (mjoin (update_calls (c_db c) <$> running_projects (c_db c))) (c_db c).
Proof.
  unfold update_egress_all.
  intros (ps & c1 & [-> ->]%look_inv & (us & c2 & Hu & [_ ->]%ret_inv)%bind_Ok)%bind_Ok. by apply update_each_inv in Hu.
Qed.

Lemma running_project e agent b : en_boxes e !! agent = Some b -> be_running b = true -> be_project_id b ∈ running_projects e.
Proof.
  intros Hb Hr. unfold running_projects. apply elem_of_elements, elem_of_list_to_set, list_elem_of_fmap.
  exists b. split; [done|]. apply elem_of_lfilter. split; [|done]. apply list_elem_of_fmap. exists (agent, b).
  split; [done|]. by apply elem_of_map_to_list.
Qed.

(** What the calls [l] do to a box: at least one update, and every call to it an update that lists the host. *)
Definition box_takes (agent host : string) (l : list ProxyCall) : Prop :=
  (exists policy mode, CallUpdate agent policy mode ∈ l) /\
  (forall policy mode, CallUpdate agent policy mode ∈ l -> listed policy host = true) /\
  (forall h, CallDecline agent h ∉ l).

Lemma updates_take e ps agent b host : en_boxes e !! agent = Some b -> be_running b = true -> be_project_id b ∈ ps ->
  listed (policy_of e (be_project_id b)) host = true -> box_takes agent host (mjoin (update_calls e <$> ps)).
Proof.
  intros Hb Hr Hps Hl.
  assert (forall call, call ∈ mjoin (update_calls e <$> ps) -> exists p, call ∈ update_calls e p) as Hin.
  { intros call (l & Hc & (p & -> & _)%list_elem_of_fmap)%list_elem_of_join. by exists p. }
  split; [|split].
  - eexists _, _. apply list_elem_of_join. eexists. split; [by eapply update_calls_in|]. by apply list_elem_of_fmap_2.
  - intros policy mode (p & (x & b' & [= -> -> _] & Hb' & <-)%update_calls_spec)%Hin. by simplify_eq.
  - intros h (p & (x & b' & [=] & _)%update_calls_spec)%Hin.
Qed.

Lemma update_takes e p agent b host : en_boxes e !! agent = Some b -> be_running b = true -> be_project_id b = p ->
  listed (policy_of e p) host = true -> box_takes agent host (update_calls e p).
Proof.
  intros Hb Hr <- Hl. pose proof (updates_take e [be_project_id b] agent b host Hb Hr) as Ht.
  cbn in Ht. rewrite app_nil_r in Ht. apply Ht; [by left|done].
Qed.

(** ** What each command leaves *)

(** The memory of the engine but for the database, the calls and what was told. *)
Definition same_memory (e e' : Engine) : Prop :=
  en_mirror e' = en_mirror e /\ en_files e' = en_files e /\ en_boxes e' = en_boxes e /\ en_prompts e' = en_prompts e.

Lemma set_allow_row_inv p v c u c' : set_project_setting_impl p EGRESS_ALLOW_KEY (Some v) c = (Ok u, c') ->
  same_memory (c_db c) (c_db c') /\ en_calls (c_db c') = en_calls (c_db c).
Proof.
  unfold set_project_setting_impl. cbn -[on_db change].
  intros (m & c0 & [[= <-] ->]%lift_inv & (u1 & c1 & [d Hd]%on_db_inv & (u2 & c2 & [_ ->]%ret_inv & Hc%change_inv)%bind_Ok)%bind_Ok)%bind_Ok.
  rewrite Hc, Hd. done.
Qed.

Lemma box_egress_allow_inv p pattern c l c' : box_egress_allow_impl p pattern c = (Ok l, c') ->
  exists s, spelled pattern = Ok s /\ l = push_new (egress_allow (en_mirror (c_db c)) p) s /\
    en_mirror (c_db c') = set_egress_allow p l (en_mirror (c_db c)) /\
    en_files (c_db c') = en_files (c_db c) /\ en_boxes (c_db c') = en_boxes (c_db c) /\
    en_prompts (c_db c') = en_prompts (c_db c) /\
    en_calls (c_db c') = en_calls (c_db c) ++ update_calls (c_db c') p.
Proof.
  unfold box_egress_allow_impl.
  intros (s & c0 & [Hs ->]%lift_inv & (ps & c1 & [-> ->]%look_inv & (u2 & c2 & [(Hm & Hf & Hb & Hp) Hcs]%set_allow_row_inv &
    (u3 & c3 & H3'%change_inv & (u4 & c4 & H4'%update_egress_inv & (u5 & c5 & H5'%change_inv & [-> ->]%ret_inv)%bind_Ok)%bind_Ok)%bind_Ok)%bind_Ok)%bind_Ok)%bind_Ok.
  exists s. split; [done|]. split; [done|]. rewrite H5'. unfold with_told. cbn. rewrite H4'. cbn. rewrite H3'. cbn.
  rewrite Hm, Hf, Hb, Hp, Hcs. split_and!; try done. f_equal. apply update_calls_same; cbn; by rewrite ?Hm.
Qed.

Lemma set_global_inv delta c r c' : set_box_egress_global_impl delta c = (Ok r, c') ->
  exists d, normalized delta = Ok d /\ r = mkDelta (add d) [] /\
    en_mirror (c_db c') = set_global_egress r (en_mirror (c_db c)) /\
    en_files (c_db c') = en_files (c_db c) /\ en_boxes (c_db c') = en_boxes (c_db c) /\
    en_prompts (c_db c') = en_prompts (c_db c) /\
    en_calls (c_db c') = en_calls (c_db c) ++ mjoin (update_calls (c_db c') <$> running_projects (c_db c')).
Proof.
  unfold set_box_egress_global_impl.
  intros (d & c0 & [Hd ->]%lift_inv & (u1 & c1 & [db Hdb]%on_db_inv &
    (u2 & c2 & H2'%change_inv & (u3 & c3 & H3'%update_egress_all_inv & (u4 & c4 & H4'%change_inv & [-> ->]%ret_inv)%bind_Ok)%bind_Ok)%bind_Ok)%bind_Ok)%bind_Ok.
  exists d. split; [done|]. split; [done|]. rewrite H4'. unfold with_told. cbn. rewrite H3'. cbn. rewrite H2'. cbn.
  rewrite Hdb. by split_and!.
Qed.

Lemma resolve_prompt_inv id o p c u c' : en_prompts (c_db c) !! id = Some p -> resolve_prompt id o c = (Ok u, c') ->
  c_db c' = with_told [TellPrompt (Resolved id o)] (with_prompts (delete id (en_prompts (c_db c))) (c_db c)).
Proof.
  intros Hp Hc%change_inv. rewrite Hc. unfold resolve. by rewrite Hp.
Qed.

Lemma decline_host_inv agent host b c u c' : en_boxes (c_db c) !! agent = Some b -> decline_host agent host c = (Ok u, c') ->
  c_db c' = if be_running b then with_calls [CallDecline agent host] (c_db c) else c_db c.
Proof.
  intros Hb. unfold decline_host. intros (b' & c1 & [-> ->]%look_inv & Hk)%bind_Ok. rewrite Hb in Hk. cbn [is_some_and] in Hk.
  destruct (be_running b); [by apply change_inv in Hk|by apply ret_inv in Hk as [_ ->] ].
Qed.

Definition opened (b : BoxEntry) : BoxEntry := mkBoxEntry (be_project_id b) (be_running b) true.

Lemma set_turn_open_inv agent b c there c' : en_boxes (c_db c) !! agent = Some b -> set_turn_open agent true c = (Ok there, c') ->
  there = true /\ en_boxes (c_db c') = <[agent := opened b]> (en_boxes (c_db c)) /\
  en_prompts (c_db c') = en_prompts (c_db c) /\
  en_calls (c_db c') = en_calls (c_db c) ++
    if negb (be_turn_open b) && be_running b
    then [CallUpdate agent (policy_of (c_db c) (be_project_id b)) MOverride] else [].
Proof.
  intros Hb. unfold set_turn_open. intros (b' & c1 & [-> ->]%look_inv & Hk)%bind_Ok. rewrite Hb in Hk.
  destruct b as [p running []]; cbn -[bind] in Hk |- *.
  - apply ret_inv in Hk as [-> ->]. split; [done|]. unfold opened. cbn. by rewrite insert_id, app_nil_r by done.
  - apply bind_Ok in Hk as (u1 & c1 & Ha%change_inv & Hk).
    apply bind_Ok in Hk as (u2 & c2 & Hu & (u3 & c3 & Ht%change_inv & [-> ->]%ret_inv)%bind_Ok).
    rewrite Ht. unfold with_told. cbn. destruct running.
    + apply change_inv in Hu. rewrite Hu, Ha. done.
    + apply ret_inv in Hu as [_ ->]. rewrite Ha. cbn. by rewrite app_nil_r.
Qed.

Lemma spelled_parses p s : spelled p = Ok s -> parses s.
Proof.
  unfold spelled. destruct (from_str p) as [h|] eqn:E; [|done]. intros [= <-]. exists h. by eapply pattern_roundtrip.
Qed.

Lemma elem_of_normalize_from ps out l x : normalize_from out ps = Ok l ->
  x ∈ l <-> x ∈ out \/ exists p, p ∈ ps /\ spelled p = Ok x.
Proof.
  revert out. induction ps as [|p ps IH]; cbn; intros out.
  - intros [= <-]. split; [by left|]. intros [Hx|(p & Hp%elem_of_nil & _)]; done.
  - destruct (spelled p) as [s|] eqn:E; [|done]. intros Hl. rewrite (IH _ Hl), elem_of_push_new.
    split.
    + intros [[Hx| ->]|(q & Hq & Hs)]; [by left|right; exists p; split; [by left|done]|right; exists q; split; [by right|done] ].
    + intros [Hx|(q & [->|Hq]%elem_of_cons & Hs)]; [by do 2 left|left; right; congruence|right; by exists q].
Qed.

Lemma normalized_add d d' x : normalized d = Ok d' -> x ∈ add d' <-> exists p, p ∈ add d /\ spelled p = Ok x.
Proof.
  unfold normalized. destruct (normalize_all (add d)) as [l|] eqn:E; [|done]. destruct (normalize_all (remove d)); [|done].
  intros [= <-]. cbn. rewrite (elem_of_normalize_from _ _ _ _ E), elem_of_nil. tauto.
Qed.

(** ** The answers *)

(** What the answer [a] does to the running boxes it is about: [l] are the calls it makes. *)
Definition answered_by (a : EgressAnswer) (q : Prompt) (e e' : Engine) (l : list ProxyCall) : Prop :=
  match a with
  | AnswerProject => forall agent b, en_boxes e !! agent = Some b -> be_running b = true ->
      be_project_id b = pp_project_id q -> box_takes agent (pp_host q) l
  | AnswerAlways => forall agent b, en_boxes e !! agent = Some b -> be_running b = true ->
      lcontains (remove (file_delta e (be_project_id b))) (pp_host q) = false -> box_takes agent (pp_host q) l
  | AnswerTurn => forall b, en_boxes e !! pp_agent_id q = Some b ->
      (exists b', en_boxes e' !! pp_agent_id q = Some b' /\ be_turn_open b' = true) /\
      (be_running b = true -> be_turn_open b = false -> exists policy, CallUpdate (pp_agent_id q) policy MOverride ∈ l)
  | AnswerBlock => forall b, en_boxes e !! pp_agent_id q = Some b -> be_running b = true ->
      l = [CallDecline (pp_agent_id q) (pp_host q)]
  end.

Definition outcome_of (a : EgressAnswer) : Outcome := match a with AnswerBlock => Blocked | _ => Allowed_ end.

Lemma allow_takes q c l c' : lists_ok (c_db c) -> normal (pp_host q) = true ->
  box_egress_allow_impl (pp_project_id q) (pp_host q) c = (Ok l, c') ->
  en_prompts (c_db c') = en_prompts (c_db c) /\
  exists calls, en_calls (c_db c') = en_calls (c_db c) ++ calls /\ answered_by AnswerProject q (c_db c) (c_db c') calls.
Proof.
  intros (Ha & Hg & Hf) Hn (x & Hx & -> & Hm & Hfs & Hb & Hp & Hc)%box_egress_allow_inv.
  rewrite spelled_normal in Hx by done. injection Hx as <-. split; [done|]. eexists. split; [exact Hc|].
  intros agent b Hbox Hr Hproj. eapply update_takes; [by rewrite Hb|done..|]. apply policy_lists; [|done|].
  - unfold lists_ok, file_delta. rewrite Hm, Hfs. split; [|done]. cbn. intros project_id p Hp'.
    unfold egress_allow in Hp' at 1. cbn in Hp'. destruct (decide (project_id = pp_project_id q)) as [->|Hne].
    + rewrite lookup_insert_eq in Hp'. cbn in Hp'. apply elem_of_push_new in Hp' as [Hp'| ->]; [by eapply Ha|].
      eexists. by apply from_str_normal.
    + rewrite lookup_insert_ne in Hp' by done. by apply (Ha project_id).
  - unfold layers. cbn [says]. unfold layer_says at 1. rewrite Hm. unfold egress_allow. cbn [add snd mr_egress set_egress_allow].
    rewrite lookup_insert_eq. cbn [default]. apply orb_true_iff. left. apply lcontains_true, elem_of_push_new. by right.
Qed.

Lemma global_takes q c r c' : lists_ok (c_db c) -> normal (pp_host q) = true ->
  let g := mr_global (en_mirror (c_db c)) in
  set_box_egress_global_impl (mkDelta (push_new (add g) (pp_host q)) (remove g)) c = (Ok r, c') ->
  en_prompts (c_db c') = en_prompts (c_db c) /\
  exists calls, en_calls (c_db c') = en_calls (c_db c) ++ calls /\ answered_by AnswerAlways q (c_db c) (c_db c') calls.
Proof.
  intros (Ha & Hg & Hf) Hn g (d & Hd & -> & Hm & Hfs & Hb & Hp & Hc)%set_global_inv.
  split; [done|]. eexists. split; [exact Hc|].
  assert (pp_host q ∈ add d) as Hin.
  { apply (normalized_add _ _ _ Hd). exists (pp_host q). split; [|by apply spelled_normal]. apply elem_of_push_new. by right. }
  intros agent b Hbox Hr Hfile.
  assert (en_boxes (c_db c') !! agent = Some b) as Hbox' by (by rewrite Hb).
  eapply updates_take; [done|done|by eapply running_project|]. apply policy_lists; [|done|].
  - unfold lists_ok, file_delta. rewrite Hm, Hfs. split; [done|]. split; [|done]. cbn.
    intros p (p' & _ & Hs)%(normalized_add _ _ _ Hd). by eapply spelled_parses.
  - unfold layers. cbn [says]. unfold layer_says. rewrite Hm. cbn [add remove fst snd mr_global set_global_egress].
    apply lcontains_true in Hin. unfold file_delta in *. rewrite Hin, Hfs, Hfile. cbn. by rewrite !orb_true_r.
Qed.

Lemma block_takes q c u c' : decline_host (pp_agent_id q) (pp_host q) c = (Ok u, c') ->
  en_prompts (c_db c') = en_prompts (c_db c) /\ en_told (c_db c') = en_told (c_db c) /\
  exists l, en_calls (c_db c') = en_calls (c_db c) ++ l /\ answered_by AnswerBlock q (c_db c) (c_db c') l.
Proof.
  intros Hk. unfold answered_by. destruct (en_boxes (c_db c) !! pp_agent_id q) as [b|] eqn:Hb.
  - apply (decline_host_inv _ _ _ _ _ _ Hb) in Hk. destruct (be_running b) eqn:Hr; rewrite Hk; (split; [done|]); (split; [done|]); eexists.
    + by split.
    + split; [symmetry; apply app_nil_r|]. intros b' Hb'. assert (b' = b) as -> by congruence. clear Hb'. by rewrite Hr.
  - unfold decline_host in Hk. apply bind_Ok in Hk as (b & c2 & [-> ->]%look_inv & Hk). rewrite Hb in Hk.
    apply ret_inv in Hk as [_ ->]. split_and!; [done..|]. exists []. by rewrite app_nil_r.
Qed.

Lemma turn_takes q c there c' : set_turn_open (pp_agent_id q) true c = (Ok there, c') ->
  en_prompts (c_db c') = en_prompts (c_db c) /\
  exists l, en_calls (c_db c') = en_calls (c_db c) ++ l /\ answered_by AnswerTurn q (c_db c) (c_db c') l.
Proof.
  intros Hx. unfold answered_by. destruct (en_boxes (c_db c) !! pp_agent_id q) as [b|] eqn:Hb.
  - destruct (set_turn_open_inv _ _ _ _ _ Hb Hx) as (_ & Hbs & Hp & Hc). split; [done|]. eexists. split; [exact Hc|].
    intros b' Hb'. assert (b' = b) as -> by congruence. clear Hb'. split; [eexists; by rewrite Hbs, lookup_insert_eq|]. intros Hr Ho. rewrite Hr, Ho. eexists. by left.
  - unfold set_turn_open in Hx. apply bind_Ok in Hx as (b & c2 & [-> ->]%look_inv & Hx). rewrite Hb in Hx.
    apply ret_inv in Hx as [_ ->]. split; [done|]. exists []. by rewrite app_nil_r.
Qed.

(** The command tells the outcome once its work is done. *)
Lemma closes_prompt (q : Prompt) o c c1 u c' (T : list ProxyCall -> Prop) : en_prompts (c_db c) !! pp_id q = Some q ->
  (en_prompts (c_db c1) = en_prompts (c_db c) /\ exists l, en_calls (c_db c1) = en_calls (c_db c) ++ l /\ T l) ->
  resolve_prompt (pp_id q) o c1 = (Ok u, c') ->
  en_boxes (c_db c') = en_boxes (c_db c1) /\
  en_prompts (c_db c') = delete (pp_id q) (en_prompts (c_db c)) /\
  TellPrompt (Resolved (pp_id q) o) ∈ en_told (c_db c') /\
  exists l, en_calls (c_db c') = en_calls (c_db c) ++ l /\ T l.
Proof.
  intros Hq (Hp & Hl) Hk. rewrite <-Hp in Hq. apply (resolve_prompt_inv _ _ _ _ _ _ Hq) in Hk. rewrite Hk. cbn. rewrite Hp.
  split_and!; try done. apply elem_of_app. right. by left.
Qed.

(** (C15) An answer that went through, to a prompt for a host in normal form (a name or an IPv4 literal;
    what becomes of the others is [ipv6_answers_do_nothing]) while the stored lists parse (else see
    [EgressList.one_bad_pattern_drops_every_layer]), brings the prompt down, tells clients the outcome,
    and reaches the boxes it is about. "Allow for this project" tells every running box of the project a policy that
    lists the host, and none any other; "always" does so for every running box whose project's files
    do not turn the host off (the others are [always_answer_may_admit_nothing]); "for this turn" opens the workspace's posture, and its box's if it was
    not open; "block" declines the host at the workspace's box. *)
Theorem answers_take_effect id a q c u c' : lists_ok (c_db c) -> normal (pp_host q) = true ->
  en_prompts (c_db c) !! id = Some q -> pp_id q = id -> box_egress_answer_impl id a c = (Ok u, c') ->
  en_prompts (c_db c') = delete id (en_prompts (c_db c)) /\
  TellPrompt (Resolved id (outcome_of a)) ∈ en_told (c_db c') /\
  exists l, en_calls (c_db c') = en_calls (c_db c) ++ l /\ answered_by a q (c_db c) (c_db c') l.
Proof.
  intros Hok Hn Hq <-. unfold box_egress_answer_impl. intros (q' & c0 & [-> ->]%look_inv & Hk)%bind_Ok. rewrite Hq in Hk.
  destruct a; apply bind_Ok in Hk as (x & c1 & Hx & Hk).
  - apply allow_takes in Hx; [|done..]. by eapply closes_prompt in Hk as (_ & Hk).
  - apply look_inv in Hx as [-> ->]. apply bind_Ok in Hk as (y & c1 & Hx & Hk).
    apply global_takes in Hx; [|done..]. by eapply closes_prompt in Hk as (_ & Hk).
  - apply (resolve_prompt_inv _ _ _ _ _ _ Hq) in Hx. apply block_takes in Hk as (Hp & Ht & l & Hl & Hans).
    rewrite Hp, Ht, Hl, Hx. cbn. split; [done|]. split; [apply elem_of_app; right; by left|]. exists l. split; [done|].
    by rewrite Hx in Hans.
  - apply turn_takes in Hx. eapply closes_prompt in Hk as (Hb & Hp & Ht & l & Hl & Hans); [|done..].
    split_and!; [done..|]. exists l. split; [done|]. unfold answered_by in *. by rewrite Hb.
Qed.
End Answers.

(** ** From the call to the connection *)

(** A call as the proxy of the box takes it. *)
Definition as_label (call : ProxyCall) : Label :=
  match call with CallUpdate _ p m => LUpdate 0 p m | CallDecline _ host => LDecline 0 host end.

Lemma run_at c host port pc s : conns s !! c = Some (On host port pc) -> run c s = run_pc c host port pc s.
Proof. intros Hc. unfold run. by rewrite Hc. Qed.

(** A connection that is held, with nothing unseen, is let in by the list it is told: after the call's
    writes its next two steps leave the hold with the host listed. *)
Theorem told_list_lets_the_held_in s c host port id since agent p m :
  conns s !! c = Some (On host port (Wait id since (generation (shared s)))) ->
  open_ (shared s) = true -> ops s = ∅ -> listed p host = true -> port ∈ ports p ->
  exists s', steps [as_label (CallUpdate agent p m); LOp 0; LOp 0; LRun c; LRun c] s = Some s' /\
    conns s' !! c = Some (On host port (Leave id (Some Listed))).
Proof.
  intros Hc Ho Hops Hl Hp. assert (check p host port = Ok tt) as Hk by (by apply check_Ok).
  destruct s as [ [pol md dec hs g op timeout] ids t cs os evs reps]. cbn in Hc, Ho, Hops |- *. subst op os.
  cbn. rewrite lookup_empty. cbn. unfold run_op. cbn. rewrite lookup_insert_eq. cbn. rewrite lookup_insert_eq. cbn.
  rewrite (run_at c host port (Wait id since g)) by exact Hc. cbn. rewrite (proj2 (N.eqb_neq g (g + 1))) by lia. cbn.
  rewrite (run_at c host port (Check (InHold id since (g + 1)))) by (cbn; by rewrite lookup_insert_eq).
  cbn. rewrite Hk. eexists. split; [reflexivity|]. cbn. by rewrite lookup_insert_eq.
Qed.

(** ** An engine with a question up *)

#[local] Instance demo_delta_json : DeltaJson := {|
  delta_from_json text := (fun l => mkDelta l []) <$> @json_parse coded_json text;
  delta_to_json d := @json_print coded_json (add d);
|}.

Definition demo_question (host : string) : Prompt := mkPrompt "u1" "fuji" "p" host 443 "10:00" 1.

Definition demo_engine (host : string) (files : gmap string Delta) : Engine := mkEngine witness_projects
  (mkMirror default_settings ∅ ∅ no_delta) files
  {["fuji" := mkBoxEntry "p" true false; "etna" := mkBoxEntry "p" true false; "hekla" := mkBoxEntry "q" true false]}
  {["u1" := demo_question host]} [] [].

Definition demo_answer (host : string) (files : gmap string Delta) (a : EgressAnswer) : result () string * Sql.Conn Engine :=
  @box_egress_answer_impl (calm_world show_nat) coded_json demo_delta_json "u1" a (Sql.Build_Conn (demo_engine host files) 0).

Lemma injective_projections_l {A B} (x : A * B) a : x.1 = a -> x = (a, x.2).
Proof. destruct x. by intros <-. Qed.

Lemma demo_lists_ok host : lists_ok (demo_engine host ∅).
Proof. split_and!; intros *;
  unfold egress_allow, file_delta; cbn; rewrite ?lookup_empty; cbn; by intros ?%elem_of_nil. Qed.

Lemma answers_take_effect_witness :
  (demo_answer "example.com" ∅ AnswerProject).1 = Ok tt /\
  exists l, en_calls (c_db (demo_answer "example.com" ∅ AnswerProject).2) = l /\ box_takes "etna" "example.com" l.
Proof.
  assert ((demo_answer "example.com" ∅ AnswerProject).1 = Ok tt) as E by (vm_compute; reflexivity).
  split; [exact E|]. apply injective_projections_l in E.
  destruct (@answers_take_effect (calm_world show_nat) coded_json demo_delta_json "u1" AnswerProject (demo_question "example.com")
    (Sql.Build_Conn (demo_engine "example.com" ∅) 0) tt _ (demo_lists_ok _) eq_refl eq_refl eq_refl E) as (_ & _ & l & Hl & Ht).
  exists l. split; [exact Hl|]. apply (Ht "etna" (mkBoxEntry "p" true false)); vm_compute; reflexivity.
Defined.

(** A project whose committed file turns a host off, and a user who allows the host for every project
    from that project's own prompt: the prompt comes down as allowed, and no box of the project is told
    a list that has the host. *)
Theorem always_answer_may_admit_nothing :
  let r := demo_answer "example.com" {["p" := mkDelta [] ["example.com"]]} AnswerAlways in
  r.1 = Ok tt /\ en_prompts (c_db r.2) = ∅ /\
  TellPrompt (Resolved "u1" Allowed_) ∈ en_told (c_db r.2) /\
  (forall p m, CallUpdate "fuji" p m ∈ en_calls (c_db r.2) -> listed p "example.com" = false).
Proof.
  cbn zeta. split; [vm_compute; reflexivity|]. split; [vm_compute; reflexivity|]. split.
  - apply list_elem_of_lookup. exists 1%nat. vm_compute. reflexivity.
  - assert (forallb (fun call => match call with CallUpdate "fuji" p _ => negb (listed p "example.com") | _ => true end)
      (en_calls (c_db (demo_answer "example.com" {["p" := mkDelta [] ["example.com"]]} AnswerAlways).2)) = true) as Hall
      by (vm_compute; reflexivity).
    intros p m Hin. rewrite forallb_forall in Hall. apply list_elem_of_In, Hall in Hin. by apply negb_true_iff.
Qed.

(** A host that is an IPv6 literal can be asked about, and its answers do not work: "block" says the
    host is blocked and declines nothing, so the connection waits on; "allow" fails, and the prompt
    stays up. *)
Theorem ipv6_answers_do_nothing :
  parse_target "[::1]:443" = Some ("::1", 443%N) /\
  (demo_answer "::1" ∅ AnswerBlock).1 = Ok tt /\
  en_told (c_db (demo_answer "::1" ∅ AnswerBlock).2) = [TellPrompt (Resolved "u1" Blocked)] /\
  en_calls (c_db (demo_answer "::1" ∅ AnswerBlock).2) = [CallDecline "fuji" "::1"] /\
  (forall o s, decline o "::1" s = s) /\
  en_prompts (c_db (demo_answer "::1" ∅ AnswerProject).2) = {["u1" := demo_question "::1"]} /\
  en_prompts (c_db (demo_answer "::1" ∅ AnswerAlways).2) = {["u1" := demo_question "::1"]}.
Proof. split_and!; try (vm_compute; reflexivity). Qed.
