(* ===== verification/SettingsFile.v ===== *)
(** * A project's settings file

    [src/crates/fletch-core/src/project_file/file.rs]: JSON with comments made JSON, what a file asks
    for, an edit of its lists as the text to write, and the reading of both files from a disk that may
    change between two looks. [serde_json] is the class [JsonText]: its [Map] is a tree by key, so an
    object is its entries in key order. *)

From Stdlib Require Import OrderedTypeEx DecimalString.
From S2P Require Import Prelude RustStr RustText Store Closes Sql EgressPolicy EgressList.

Local Open Scope string_scope.
Local Open Scope list_scope.

Definition DIR : string := ".fletch".
Definition SHARED_FILE : string := "settings.json".
Definition LOCAL_FILE : string := "settings.local.json".
Definition MAX_FILE_BYTES : N := 256 * 1024.

(** ** JSON with comments *)

Definition newline : string := String newline_byte "".
Definition backslash : string := "\".

Definition next_is (c : string) (l : list string) : bool :=
  match l with c' :: _ => String.eqb c' c | [] => false end.

(** Where the scan is: the loops of [strip_jsonc] and [closes_next]. *)
Inductive Scan := Plain | InString | InLine | InBlock.

(** Whether the next significant character is [}] or []]. *)
Fixpoint closes_from (m : Scan) (l : list string) : bool :=
  match l with
  | [] => false
  | c :: rest =>
      match m with
      | InLine => if String.eqb c newline then closes_from Plain rest else closes_from InLine rest
      | InBlock =>
          match rest with
          | [] => false
          | d :: rest' =>
              if String.eqb c "*" && String.eqb d "/" then closes_from Plain rest' else closes_from InBlock rest
          end
      | _ =>
          if is_ws c then closes_from Plain rest
          else if String.eqb c "/" && next_is "/" rest then closes_from InLine rest
          else if String.eqb c "/" && next_is "*" rest then
            match rest with [] => false | _ :: rest' => closes_from InBlock rest' end
          else String.eqb c "}" || String.eqb c "]"
      end
  end.

Definition closes_next (l : list string) : bool := closes_from Plain l.

Fixpoint strip (m : Scan) (l : list string) : list string :=
  match l with
  | [] => []
  | c :: rest =>
      match m with
      | InString =>
          if String.eqb c backslash then
            match rest with [] => [c] | d :: rest' => c :: d :: strip InString rest' end
          else if String.eqb c dq then c :: strip Plain rest
          else c :: strip InString rest
      | InLine => if String.eqb c newline then c :: strip Plain rest else " " :: strip InLine rest
      | InBlock =>
          match rest with
          | [] => [if String.eqb c newline then newline else " "]
          | d :: rest' =>
              if String.eqb c "*" && String.eqb d "/" then " " :: " " :: strip Plain rest'
              else (if String.eqb c newline then newline else " ") :: strip InBlock rest
          end
      | Plain =>
          if String.eqb c dq then c :: strip InString rest
          else if String.eqb c "/" && next_is "/" rest then " " :: strip InLine rest
          else if String.eqb c "/" && next_is "*" rest then
            match rest with [] => [] | _ :: rest' => " " :: " " :: strip InBlock rest' end
          else if String.eqb c "," && closes_next rest then " " :: strip Plain rest
          else c :: strip Plain rest
      end
  end.

Definition strip_jsonc (text : string) : string := unchars (strip Plain (chars text)).

Fixpoint commented (in_string : bool) (l : list string) : bool :=
  match l with
  | [] => false
  | c :: rest =>
      if in_string then
        if String.eqb c backslash then match rest with [] => false | _ :: rest' => commented true rest' end
        else if String.eqb c dq then commented false rest
        else commented true rest
      else if String.eqb c dq then commented true rest
      else if String.eqb c "/" && (next_is "/" rest || next_is "*" rest) then true
      else commented false rest
  end.

Definition has_comments (text : string) : bool := commented false (chars text).

(** ** What the scan keeps *)

(** A character stays or becomes a space; a line's end stays. *)
Definition kept (a b : string) : Prop := b = a \/ (b = " " /\ a <> newline).

Lemma kept_refl l : Forall2 kept l l.
Proof. induction l; constructor; [by left|done]. Qed.

Lemma next_is_true c l : next_is c l = true -> exists rest, l = c :: rest.
Proof. destruct l as [|d l]; [done|]. cbn. intros ->%String.eqb_eq. by exists l. Qed.

(** A property of the scan by the length of what is left: the scan steps over one character or two. *)
Lemma scan_ind (P : Scan -> list string -> Prop) :
  (forall m l, (forall m' l', (length l' < length l)%nat -> P m' l') -> P m l) -> forall m l, P m l.
Proof.
  intros H m l. remember (length l) as n eqn:E. revert m l E.
  induction n as [n IH] using (well_founded_induction Nat.lt_wf_0). intros m l ->. apply H. intros m' l' Hl. by eapply IH.
Qed.

Lemma strip_kept m l : Forall2 kept l (strip m l).
Proof.
  revert m l. apply scan_ind. intros m [|c rest] IH; [constructor|].
  assert (forall m', Forall2 kept rest (strip m' rest)) as IH1 by (intros m'; apply IH; cbn; lia).
  assert (forall m' d rest', rest = d :: rest' -> Forall2 kept rest' (strip m' rest')) as IH2.
  { intros m' d rest' ->. apply IH. cbn. lia. }
  assert (kept c (if String.eqb c newline then newline else " ")) as Hb.
  { destruct (String.eqb_spec c newline) as [->|Hn]; [by left|by right]. }
  destruct m; cbn [strip].
  - destruct (String.eqb c dq); [constructor; [by left|apply IH1]|].
    destruct (String.eqb c "/" && next_is "/" rest) eqn:E1.
    { apply andb_true_iff in E1 as [->%String.eqb_eq _]. constructor; [by right|apply IH1]. }
    destruct (String.eqb c "/" && next_is "*" rest) eqn:E2.
    { apply andb_true_iff in E2 as [->%String.eqb_eq [rest' ->]%next_is_true]. do 2 (constructor; [by right|]). by eapply IH2. }
    destruct (String.eqb c "," && closes_next rest) eqn:E3; [|constructor; [by left|apply IH1] ].
    apply andb_true_iff in E3 as [->%String.eqb_eq _]. constructor; [by right|apply IH1].
  - destruct (String.eqb c backslash); [|destruct (String.eqb c dq); constructor; (apply IH1 || by left)].
    destruct rest as [|d rest']; [by constructor; [left|]|]. do 2 (constructor; [by left|]). by eapply IH2.
  - destruct (String.eqb_spec c newline) as [->|Hn]; constructor; [by left|apply IH1|by right|apply IH1].
  - destruct rest as [|d rest']; [by constructor|].
    destruct (String.eqb c "*" && String.eqb d "/") eqn:E; [|by constructor].
    apply andb_true_iff in E as [->%String.eqb_eq ->%String.eqb_eq]. do 2 (constructor; [by right|]). by eapply IH2.
Qed.

Lemma kept_groups l l' : groups l -> Forall2 kept l l' -> groups l'.
Proof.
  intros Hg HF. revert Hg. induction HF as [|a b l l' Hk HF IH]; [done|]. intros (Hc & Hl & Hg).
  split; [by destruct Hk as [->|[-> _] ]|]. split; [|by apply IH].
  destruct HF as [|a' b' l l' [->|[-> _] ] _]; done.
Qed.

Lemma chars_strip text : chars (strip_jsonc text) = strip Plain (chars text).
Proof. apply chars_unchars. eapply kept_groups; [apply chars_groups|apply strip_kept]. Qed.

(** Making JSON of a text keeps every position in it: each character stays or becomes a space, and the
    ends of lines stay, so a line and a column of the JSON are those of the file. *)
Theorem strip_keeps_positions text : Forall2 kept (chars text) (chars (strip_jsonc text)).
Proof. rewrite chars_strip. apply strip_kept. Qed.

Lemma strip_next x m l : x <> " " -> next_is x (strip m l) = true -> next_is x l = true.
Proof.
  intros Hx. destruct (strip_kept m l) as [|a b l l' [->|[-> _] ] _]; [done..|]. cbn [next_is]. by intros <-%String.eqb_eq.
Qed.

Definition in_text (m : Scan) : bool := match m with InString => true | _ => false end.

Lemma strip_uncommented m l : commented (in_text m) (strip m l) = false.
Proof.
  revert m l. apply scan_ind. intros m [|c rest] IH; [done|].
  assert (forall m', commented (in_text m') (strip m' rest) = false) as IH1 by (intros m'; apply IH; cbn; lia).
  assert (forall m' d rest', rest = d :: rest' -> commented (in_text m') (strip m' rest') = false) as IH2.
  { intros m' d rest' ->. apply IH. cbn. lia. }
  destruct m; cbn [strip in_text].
  - destruct (String.eqb c dq) eqn:Eq; [cbn [commented]; rewrite Eq; exact (IH1 InString)|].
    destruct (String.eqb c "/" && next_is "/" rest) eqn:E1; [exact (IH1 InLine)|].
    destruct (String.eqb c "/" && next_is "*" rest) eqn:E2.
    { apply andb_true_iff in E2 as [_ [rest' ->]%next_is_true]. exact (IH2 InBlock _ _ eq_refl). }
    destruct (String.eqb c "," && closes_next rest); [exact (IH1 Plain)|]. cbn [commented]. rewrite Eq, andb_orb_distrib_r.
    destruct (String.eqb c "/"); cbn [andb] in *; [|exact (IH1 Plain)].
    destruct (next_is "/" (strip Plain rest)) eqn:E3; [apply strip_next in E3; [congruence|done]|].
    destruct (next_is "*" (strip Plain rest)) eqn:E4; [apply strip_next in E4; [congruence|done]|]. exact (IH1 Plain).
  - destruct (String.eqb c backslash) eqn:Eb.
    { destruct rest as [|d rest']; cbn [commented]; rewrite Eb; [done|]. exact (IH2 InString _ _ eq_refl). }
    destruct (String.eqb c dq) eqn:Eq; cbn [commented]; rewrite Eb, Eq; [exact (IH1 Plain)|exact (IH1 InString)].
  - destruct (String.eqb_spec c newline) as [->|Hn]; [exact (IH1 Plain)|exact (IH1 InLine)].
  - destruct rest as [|d rest']; [by destruct (String.eqb c newline)|].
    destruct (_ && _); [exact (IH2 Plain _ _ eq_refl)|]. destruct (String.eqb c newline); exact (IH1 InBlock).
Qed.

(** No comment is left. *)
Lemma strip_has_no_comments text : has_comments (strip_jsonc text) = false.
Proof. unfold has_comments. rewrite chars_strip. apply (strip_uncommented Plain). Qed.

Definition only_comma (a b : string) : Prop := b = a \/ (a = "," /\ b = " ").

Lemma strip_commas m l : (m = Plain \/ m = InString) -> commented (in_text m) l = false -> Forall2 only_comma l (strip m l).
Proof.
  revert m l. apply (scan_ind (fun m l => m = Plain \/ m = InString -> commented (in_text m) l = false -> Forall2 only_comma l (strip m l))).
  intros m [|c rest] IH Hm; [constructor|].
  assert (forall m', m' = Plain \/ m' = InString -> commented (in_text m') rest = false -> Forall2 only_comma rest (strip m' rest)) as IH1
    by (intros m'; apply IH; cbn; lia).
  destruct Hm as [->| ->]; cbn [strip in_text commented].
  - destruct (String.eqb c dq); [intros Hc; constructor; [by left|apply IH1; [by right|done] ]|].
    rewrite andb_orb_distrib_r.
    destruct (String.eqb c "/" && next_is "/" rest); [done|]. destruct (String.eqb c "/" && next_is "*" rest); [done|]. intros Hc.
    destruct (String.eqb c "," && closes_next rest) eqn:E; constructor; try (apply IH1; [by left|done]); [|by left].
    apply andb_true_iff in E as [->%String.eqb_eq _]. by right.
  - destruct (String.eqb c backslash).
    { destruct rest as [|d rest']; [repeat constructor|intros Hc; do 2 (constructor; [by left|]); apply IH; [cbn; lia|by right|done] ]. }
    destruct (String.eqb c dq); intros Hc; constructor; try (by left); apply IH1; auto.
Qed.

(** In a file without comments, the only ones an edit takes, nothing but trailing commas changes. *)
Theorem edited_text_loses_no_comment text : has_comments text = false ->
  Forall2 only_comma (chars text) (chars (strip_jsonc text)).
Proof. intros Hc. rewrite chars_strip. apply strip_commas; [by left|done]. Qed.

Lemma edited_text_loses_no_comment_witness : has_comments "[1,]" = false /\ Forall2 only_comma (chars "[1,]") (chars (strip_jsonc "[1,]")).
Proof.
  assert (has_comments "[1,]" = false) as H by (vm_compute; reflexivity). split; [exact H|].
  exact (edited_text_loses_no_comment "[1,]" H).
Defined.

(** ** JSON *)

Inductive Number := Whole (z : Z) | Float (text : string).

Inductive Json :=
| JNull
| JBool (b : bool)
| JNumber (n : Number)
| JString (s : string)
| JArray (items : list Json)
| JObject (entries : list (string * Json)).

Definition Object := list (string * Json).

(** [serde_json::from_str], [to_string_pretty], and a value's own text. *)
Class JsonText := {
  json_from_str : string -> result Json string;
  to_string_pretty : Json -> string;
  json_display : Json -> string;
}.

(** [Map::remove] and [Map::insert]. *)
Definition obj_get (k : string) (o : Object) : option Json := snd <$> lfind (fun '(k', _) => String.eqb k' k) o.
Definition obj_remove (k : string) (o : Object) : Object := lfilter (fun '(k', _) => negb (String.eqb k' k)) o.

Fixpoint obj_insert (k : string) (v : Json) (o : Object) : Object :=
  match o with
  | [] => [(k, v)]
  | (k', v') :: rest =>
      match String.compare k k' with
      | Lt => (k, v) :: o
      | Eq => (k, v) :: rest
      | Gt => (k', v') :: obj_insert k v rest
      end
  end.

(** ** What a file asks for *)

Record Parsed := mkParsed {
  ps_allow : list string;
  ps_disable : list string;
  ps_warnings : list string;
}.

Definition no_asks : Parsed := mkParsed [] [] [].

Definition warn (w : string) (p : Parsed) : Parsed := mkParsed (ps_allow p) (ps_disable p) (ps_warnings p ++ [w]).

Inductive Key := Allow | Disable.

#[export] Instance Key_dec : EqDecision Key.
Proof. solve_decision. Defined.

Definition key_name (k : Key) : string := match k with Allow => "allow" | Disable => "disable" end.

Definition asked (k : Key) (p : Parsed) : list string :=
  match k with Allow => ps_allow p | Disable => ps_disable p end.

Definition ask (k : Key) (s : string) (p : Parsed) : Parsed :=
  match k with
  | Allow => mkParsed (push_new (ps_allow p) s) (ps_disable p) (ps_warnings p)
  | Disable => mkParsed (ps_allow p) (push_new (ps_disable p) s) (ps_warnings p)
  end.

Section Parse.
Context `{JsonText}.

Definition parse_item (k : Key) (p : Parsed) (item : Json) : Parsed :=
  match item with
  | JString raw =>
      match from_str raw with
      | Ok pattern => ask k (display pattern) p
      | Err e => warn ("`egress." +:+ key_name k +:+ "`: " +:+ PatternError_display e) p
      end
  | _ => warn ("`egress." +:+ key_name k +:+ "`: " +:+ json_display item +:+ " is not a string") p
  end.

Definition parse_key (p : Parsed) (entry : string * Json) : Parsed :=
  let '(key, value) := entry in
  let list k :=
    match value with
    | JArray items => foldl (parse_item k) p items
    | _ => warn ("`egress." +:+ key +:+ "` must be a list of host patterns") p
    end in
  if String.eqb key "allow" then list Allow
  else if String.eqb key "disable" then list Disable
  else warn ("unknown setting `egress." +:+ key +:+ "`") p.

Definition parse_egress (value : Json) (p : Parsed) : Parsed :=
  match value with
  | JObject egress => foldl parse_key p egress
  | _ => warn "`egress` must be an object" p
  end.

Definition parse_top (p : Parsed) (entry : string * Json) : Parsed :=
  let '(key, value) := entry in
  if String.eqb key "$schema" then p
  else if String.eqb key "egress" then parse_egress value p
  else warn ("unknown setting `" +:+ key +:+ "`") p.

Definition parse (text : string) : result Parsed string :=
  match json_from_str (strip_jsonc text) with
  | Err e => Err ("not valid JSON: " +:+ e)
  | Ok (JObject top) => Ok (foldl parse_top no_asks top)
  | Ok _ => Err "the file must hold a JSON object"
  end.

(** ** An edit *)

Record Edit := mkEdit {
  allow_add : list string;
  allow_remove : list string;
  disable_add : list string;
  disable_remove : list string;
}.

Definition edit_adds (k : Key) (e : Edit) : list string := match k with Allow => allow_add e | Disable => disable_add e end.
Definition edit_removes (k : Key) (e : Edit) : list string :=
  match k with Allow => allow_remove e | Disable => disable_remove e end.

Definition as_str (v : Json) : option string := match v with JString s => Some s | _ => None end.

(** [retain]: what does not parse stays. *)
Definition other_than (s p : string) : bool :=
  match from_str p with Ok q => negb (String.eqb (display q) s) | Err _ => true end.

Fixpoint removing (l : list string) (patterns : list string) : result (list string) string :=
  match patterns with
  | [] => Ok l
  | raw :: rest => match spelled raw with Ok s => removing (lfilter (other_than s) l) rest | Err e => Err e end
  end.

Fixpoint adding (l : list string) (patterns : list string) : result (list string) string :=
  match patterns with
  | [] => Ok l
  | raw :: rest => match spelled raw with Ok s => adding (push_new l s) rest | Err e => Err e end
  end.

(** One list of the file, edited. *)
Definition edit_key (e : Edit) (k : Key) (egress : Object) : result Object string :=
  let stored :=
    match obj_get (key_name k) egress with
    | Some (JArray items) => Ok (omap as_str items)
    | Some _ => Err ("`egress." +:+ key_name k +:+ "` must be a list")
    | None => Ok []
    end in
  let egress := obj_remove (key_name k) egress in
  match stored with
  | Err e => Err e
  | Ok l =>
      match removing l (edit_removes k e) with
      | Err e => Err e
      | Ok l =>
          match adding l (edit_adds k e) with
          | Err e => Err e
          | Ok l => Ok (match l with [] => egress | _ => obj_insert (key_name k) (JArray (JString <$> l)) egress end)
          end
      end
  end.

Definition edit_text (text : option string) (e : Edit) : result string string :=
  let text := default "{}" text in
  if has_comments text
  then Err "this file has comments, which an edit from Fletch would drop; edit it by hand instead"
  else
    match json_from_str (strip_jsonc text) with
    | Err e => Err ("not valid JSON: " +:+ e)
    | Ok (JObject top) =>
        let found :=
          match obj_get "egress" top with
          | Some (JObject egress) => Ok egress
          | Some _ => Err "`egress` must be an object"
          | None => Ok []
          end in
        let top := obj_remove "egress" top in
        match found with
        | Err e => Err e
        | Ok egress =>
            match edit_key e Allow egress with
            | Err e => Err e
            | Ok egress =>
                match edit_key e Disable egress with
                | Err e => Err e
                | Ok egress =>
                    let top := match egress with [] => top | _ => obj_insert "egress" (JObject egress) top end in
                    Ok (to_string_pretty (JObject top) +:+ newline)
                end
            end
        end
    | Ok _ => Err "the file must hold a JSON object"
    end.
End Parse.

(** ** Values [serde_json] holds *)

Definition slt (a b : string) : Prop := String.compare a b = Lt.

(** Keys in order, and no float: a float's text may read back as its neighbour. *)
Fixpoint tidy (v : Json) : Prop :=
  match v with
  | JNumber (Float _) => False
  | JArray items => foldr (fun v P => tidy v /\ P) True items
  | JObject o => StronglySorted slt o.*1 /\ foldr (fun e P => tidy e.2 /\ P) True o
  | _ => True
  end.

(** What the engine relies on: a value is read back from its text and a line's end, and the text of a
    value is JSON, which has neither comments nor trailing commas. *)
Class JsonLawful `{JsonText} := {
  json_reads_back v : tidy v -> json_from_str (to_string_pretty v +:+ newline) = Ok v;
  json_is_plain v : strip_jsonc (to_string_pretty v +:+ newline) = to_string_pretty v +:+ newline;
}.

Lemma slt_trans a b c : slt a b -> slt b c -> slt a c.
Proof.
  unfold slt. intros Hab Hbc. apply String_as_OT.cmp_lt. eapply String_as_OT.lt_trans; by apply String_as_OT.cmp_lt.
Qed.

Lemma slt_irrefl a : ~ slt a a.
Proof. unfold slt. intros Ha. pose proof (String.compare_antisym a a) as E. rewrite Ha in E. done. Qed.

Lemma elem_of_obj_insert k v o e : k ∉ o.*1 -> e ∈ obj_insert k v o <-> e = (k, v) \/ e ∈ o.
Proof.
  induction o as [|[k' v'] o IH]; cbn [obj_insert fmap list_fmap fst].
  - intros _. rewrite list_elem_of_singleton, elem_of_nil. tauto.
  - intros [Hne Hk]%not_elem_of_cons. destruct (String.compare k k') eqn:E.
    + destruct Hne. by apply String.compare_eq_iff.
    + rewrite !elem_of_cons. tauto.
    + rewrite !elem_of_cons, IH by done. tauto.
Qed.

Lemma obj_insert_sorted k v o : StronglySorted slt o.*1 -> k ∉ o.*1 -> StronglySorted slt (obj_insert k v o).*1.
Proof.
  induction o as [|[k' v'] o IH]; cbn [obj_insert fmap list_fmap fst].
  - intros _ _. cbn. repeat constructor.
  - intros Hs [Hne Hk]%not_elem_of_cons. inversion Hs as [|? ? Hso Hall]; subst. destruct (String.compare k k') eqn:E.
    + destruct Hne. by apply String.compare_eq_iff.
    + cbn. constructor; [done|]. constructor; [done|]. eapply Forall_impl; [exact Hall|]. intros x. by apply slt_trans.
    + cbn. constructor; [by apply IH|]. apply Forall_forall. intros x Hx. apply list_elem_of_fmap in Hx as (e & -> & He).
      apply elem_of_obj_insert in He as [->|He]; [|rewrite Forall_forall in Hall; apply Hall; by apply list_elem_of_fmap_2|done].
      cbn. unfold slt. rewrite String.compare_antisym, E. done.
Qed.

Lemma elem_of_obj_remove k o e : e ∈ obj_remove k o <-> e ∈ o /\ e.1 <> k.
Proof.
  unfold obj_remove. rewrite elem_of_lfilter. destruct e as [k' v]. cbn. by rewrite negb_true_iff, String.eqb_neq.
Qed.

Lemma obj_removed k o : k ∉ (obj_remove k o).*1.
Proof. intros (e & -> & [_ Hne]%elem_of_obj_remove)%list_elem_of_fmap. done. Qed.

Lemma sorted_lfilter {A B} (R : B -> B -> Prop) (f : A -> B) q l : StronglySorted R (f <$> l) -> StronglySorted R (f <$> lfilter q l).
Proof.
  induction l as [|x l IH]; cbn; [done|]. intros Hs. inversion Hs as [|? ? Hsl Hall]; subst.
  destruct (q x); [|by apply IH]. cbn. constructor; [by apply IH|]. rewrite Forall_forall in *. intros y.
  intros (z & -> & [Hz _]%elem_of_lfilter)%list_elem_of_fmap. apply Hall. by apply list_elem_of_fmap_2.
Qed.

Lemma obj_get_elem k v o : StronglySorted slt o.*1 -> obj_get k o = Some v <-> (k, v) ∈ o.
Proof.
  unfold obj_get. induction o as [|[k' v'] o IH]; cbn [lfind fmap list_fmap fst]; intros Hs.
  - split; [done|by intros ?%elem_of_nil].
  - inversion Hs as [|? ? Hso Hall]; subst. rewrite elem_of_cons. destruct (String.eqb_spec k' k) as [->|Hne]; cbn.
    + split; [intros [= ->]; by left|]. intros [[= ->]|Hin]; [done|]. exfalso. rewrite Forall_forall in Hall.
      apply (slt_irrefl k), Hall. by apply (list_elem_of_fmap_2 fst _ (k, v)).
    + rewrite IH by done. split; [by right|]. by intros [[= ->]|?].
Qed.

Lemma foldr_and_elem {A} (P : A -> Prop) l : foldr (fun x Q => P x /\ Q) True l <-> forall x, x ∈ l -> P x.
Proof.
  induction l as [|x l IH]; cbn; [split; [intros _ x Hx; by apply elem_of_nil in Hx|done]|].
  rewrite IH. setoid_rewrite elem_of_cons. split; [intros [Hx Hl] y [->|Hy]; auto|auto].
Qed.

Lemma tidy_object o : tidy (JObject o) <-> StronglySorted slt o.*1 /\ forall e, e ∈ o -> tidy e.2.
Proof. cbn [tidy]. by rewrite (foldr_and_elem (fun e => tidy e.2)). Qed.

Lemma tidy_remove k o : tidy (JObject o) -> tidy (JObject (obj_remove k o)).
Proof.
  rewrite !tidy_object. intros [Hs Ht]. split; [by apply (sorted_lfilter slt fst)|]. by intros e [He _]%elem_of_obj_remove; apply Ht.
Qed.

Lemma tidy_insert k v o : tidy (JObject o) -> tidy v -> k ∉ o.*1 -> tidy (JObject (obj_insert k v o)).
Proof.
  rewrite !tidy_object. intros [Hs Ht] Hv Hk. split; [by apply obj_insert_sorted|].
  intros e [->|He]%elem_of_obj_insert; [done|by apply Ht|done].
Qed.

(** ** What an edit comes to *)

(** [x] is among the patterns of [raws]. *)
Definition names (raws : list string) (x : string) : Prop := exists raw, raw ∈ raws /\ spelled raw = Ok x.

Definition says_list (items : list Json) (x : string) : Prop := names (omap as_str items) x.
Definition says_egress (k : Key) (egress : Object) (x : string) : Prop :=
  exists items, (key_name k, JArray items) ∈ egress /\ says_list items x.
Definition says_top (k : Key) (top : Object) (x : string) : Prop :=
  exists egress, ("egress", JObject egress) ∈ top /\ says_egress k egress x.

(** The strings a list of the file holds as written, patterns or not. *)
Definition holds_egress (k : Key) (egress : Object) (raw : string) : Prop :=
  exists items, (key_name k, JArray items) ∈ egress /\ raw ∈ omap as_str items.
Definition holds_top (k : Key) (top : Object) (raw : string) : Prop :=
  exists egress, ("egress", JObject egress) ∈ top /\ holds_egress k egress raw.

(** An entry of the file's `egress` object. *)
Definition in_egress (key : string) (v : Json) (top : Object) : Prop :=
  exists egress, ("egress", JObject egress) ∈ top /\ (key, v) ∈ egress.

(** [raw] spells, however it does, a pattern to be taken out. *)
Definition taken_out (patterns : list string) (raw : string) : Prop := exists x, spelled raw = Ok x /\ names patterns x.

Lemma says_top_holds k top x : says_top k top x <-> exists raw, holds_top k top raw /\ spelled raw = Ok x.
Proof.
  split.
  - intros (eg & Heg & items & Hi & raw & Hr & Hs). exists raw. split; [|done]. exists eg. split; [done|]. by exists items.
  - intros (raw & (eg & Heg & items & Hi & Hr) & Hs). exists eg. split; [done|]. exists items. split; [done|]. by exists raw.
Qed.

Lemma names_nil x : ~ names [] x.
Proof. by intros (raw & Hin%elem_of_nil & _). Qed.

Lemma names_cons raw raws x : names (raw :: raws) x <-> spelled raw = Ok x \/ names raws x.
Proof.
  unfold names. split.
  - intros (r & [->|Hr]%elem_of_cons & Hs); [by left|right; by exists r].
  - intros [Hs|(r & Hr & Hs)]; [exists raw; split; [by left|done]|exists r; split; [by right|done] ].
Qed.

Lemma spelled_idem raw s : spelled raw = Ok s -> spelled s = Ok s.
Proof.
  unfold spelled. destruct (from_str raw) as [h|] eqn:E; [|done]. intros [= <-]. by rewrite (pattern_roundtrip _ _ E).
Qed.

Lemma elem_of_push l x y : y ∈ push_new l x <-> y ∈ l \/ y = x.
Proof.
  unfold push_new. destruct (lcontains l x) eqn:E.
  - apply lcontains_true in E. split; [by left|by intros [?| ->] ].
  - rewrite elem_of_app, list_elem_of_singleton. done.
Qed.

Lemma other_than_taken raw s : other_than s raw = false <-> spelled raw = Ok s.
Proof.
  unfold other_than, spelled. destruct (from_str raw) as [h|]; [|done].
  rewrite negb_false_iff, String.eqb_eq. split; [by intros ->|by intros [= ->]].
Qed.

Lemma removing_raws l rs l' raw : removing l rs = Ok l' -> raw ∈ l' <-> raw ∈ l /\ ~ taken_out rs raw.
Proof.
  unfold taken_out. revert l. induction rs as [|r rs IH]; cbn [removing]; intros l.
  - intros [= <-]. split; [|by intros [? _]]. intros Hl. split; [done|]. by intros (x & _ & ?%names_nil).
  - destruct (spelled r) as [s|] eqn:E; [|done]. intros Hl. rewrite (IH _ Hl), elem_of_lfilter.
    setoid_rewrite names_cons. rewrite E. pose proof (other_than_taken raw s) as Ho. split.
    + intros [[Hin Hq] Hn]. split; [done|]. intros (x & Hs & [[= <-]|Hx]); [|apply Hn; by exists x].
      apply Ho in Hs. by rewrite Hs in Hq.
    + intros [Hin Hn]. split; [split; [done|]|intros (x & Hs & Hx); apply Hn; exists x; by auto].
      destruct (other_than s raw); [done|]. destruct Hn. exists s. split; [by apply Ho|by left].
Qed.

Lemma adding_raws l rs l' raw : adding l rs = Ok l' -> raw ∈ l' <-> raw ∈ l \/ names rs raw.
Proof.
  revert l. induction rs as [|r rs IH]; cbn [adding]; intros l.
  - intros [= <-]. pose proof (names_nil raw). tauto.
  - destruct (spelled r) as [s|] eqn:E; [|done]. intros Hl. rewrite (IH _ Hl), names_cons, E, elem_of_push.
    assert (Ok s = Ok raw :> result string string <-> raw = s) as -> by (split; [by intros [= ->]|by intros ->]). tauto.
Qed.

(** A pattern added is written as it reads. *)
Lemma names_spelled rs raw : names rs raw -> spelled raw = Ok raw.
Proof. intros (r & _ & Hs). by eapply spelled_idem. Qed.

Section Reads.
Context `{Text0 : JsonText}.

Lemma parse_items k' items k p x :
  x ∈ asked k (foldl (parse_item k') p items) <-> x ∈ asked k p \/ (k = k' /\ says_list items x).
Proof.
  unfold says_list. revert p. induction items as [|item items IH]; intros p; cbn [foldl omap list_omap].
  - pose proof (names_nil x). tauto.
  - rewrite IH. unfold parse_item. destruct item; cbn [as_str]; try (by destruct k).
    rewrite names_cons. destruct (from_str s) as [h|e] eqn:E.
    2: { assert (spelled s = Ok x <-> False) as -> by (unfold spelled; by rewrite E). destruct k; cbn; tauto. }
    assert (spelled s = Ok x <-> display h = x) as -> by (unfold spelled; rewrite E; split; [by intros [= ->]|by intros ->]).
    assert (x ∈ asked k (ask k' (display h) p) <-> x ∈ asked k p \/ (k = k' /\ display h = x)) as ->.
    { destruct k, k'; cbn; rewrite ?elem_of_push; naive_solver. }
    naive_solver.
Qed.

Lemma asked_warn k w p : asked k (warn w p) = asked k p.
Proof. by destruct k. Qed.

Lemma key_names k k' : key_name k = key_name k' <-> k = k'.
Proof. by destruct k, k'. Qed.

Lemma array_named k k' items x : (k = k' /\ says_list items x) <->
  exists items', (key_name k, JArray items') = (key_name k', JArray items) /\ says_list items' x.
Proof.
  split; [intros [-> Hx]; by exists items|]. by intros (items' & [= Hk%key_names ->] & Hx).
Qed.

Lemma parse_keys egress k p x : x ∈ asked k (foldl parse_key p egress) <-> x ∈ asked k p \/ says_egress k egress x.
Proof.
  unfold says_egress. revert p. induction egress as [|[key value] egress IH]; intros p; cbn [foldl].
  - split; [by left|]. by intros [?|(? & Hin%elem_of_nil & _)].
  - rewrite IH. setoid_rewrite elem_of_cons.
    assert (x ∈ asked k (parse_key p (key, value)) <->
      x ∈ asked k p \/ exists items, (key_name k, JArray items) = (key, value) /\ says_list items x) as ->; [|naive_solver].
    unfold parse_key. destruct (String.eqb_spec key "allow") as [->|Ha]; [|destruct (String.eqb_spec key "disable") as [->|Hd] ].
    + change "allow" with (key_name Allow). destruct value; rewrite ?asked_warn, ?parse_items;
        try (split; [by left|by intros [?|(? & ? & _)] ]). by rewrite array_named.
    + change "disable" with (key_name Disable). destruct value; rewrite ?asked_warn, ?parse_items;
        try (split; [by left|by intros [?|(? & ? & _)] ]). by rewrite array_named.
    + rewrite asked_warn. split; [by left|]. intros [?|(items & [= E _] & _)]; [done|]. by destruct k.
Qed.

Lemma parse_tops top k p x : x ∈ asked k (foldl parse_top p top) <-> x ∈ asked k p \/ says_top k top x.
Proof.
  unfold says_top. revert p. induction top as [|[key value] top IH]; intros p; cbn [foldl].
  - split; [by left|]. by intros [?|(? & Hin%elem_of_nil & _)].
  - rewrite IH. setoid_rewrite elem_of_cons.
    assert (x ∈ asked k (parse_top p (key, value)) <->
      x ∈ asked k p \/ exists egress, ("egress", JObject egress) = (key, value) /\ says_egress k egress x) as ->; [|naive_solver].
    unfold parse_top. destruct (String.eqb_spec key "$schema") as [->|Hs]; [|destruct (String.eqb_spec key "egress") as [->|He] ].
    + split; [by left|]. by intros [?|(? & ? & _)].
    + unfold parse_egress. destruct value; rewrite ?asked_warn, ?parse_keys; try (split; [by left|by intros [?|(? & ? & _)] ]).
      split; [intros [?|Hx]; [by left|right; by eexists]|]. intros [?|(egress & [= ->] & Hx)]; [by left|by right].
    + rewrite asked_warn. split; [by left|]. intros [?|(egress & [= E _] & _)]; congruence.
Qed.

Lemma holds_strings (l : list string) raw : raw ∈ omap as_str (JString <$> l : list Json) <-> raw ∈ l.
Proof.
  assert (omap as_str (JString <$> l : list Json) = l) as ->; [|done]. induction l as [|s l IH]; [done|]. cbn. f_equal. exact IH.
Qed.

Lemma tidy_strings l : tidy (JArray (JString <$> l)).
Proof. cbn [tidy]. by induction l as [|s l IH]. Qed.

(** An edited list, and the entries beside it. *)
Lemma edit_key_spec e k egress egress' : tidy (JObject egress) -> edit_key e k egress = Ok egress' ->
  tidy (JObject egress') /\
  (forall raw, holds_egress k egress' raw <->
     (holds_egress k egress raw /\ ~ taken_out (edit_removes k e) raw) \/ names (edit_adds k e) raw) /\
  (forall key v, key <> key_name k -> (key, v) ∈ egress' <-> (key, v) ∈ egress).
Proof.
  intros Ht. pose proof (proj1 (tidy_object _) Ht) as [Hs _]. unfold edit_key.
  destruct (match obj_get (key_name k) egress with Some (JArray items) => Ok (omap as_str items)
    | Some _ => Err _ | None => Ok [] end) as [l|] eqn:El; [|done].
  assert (forall raw, raw ∈ l <-> holds_egress k egress raw) as Hl.
  { intros x. unfold holds_egress. destruct (obj_get (key_name k) egress) as [v|] eqn:Ev.
    - apply obj_get_elem in Ev as Hin; [|done]. destruct v; try done. injection El as <-. split; [by eexists|].
      intros (items' & Hin' & Hx). apply (obj_get_elem _ _ _ Hs) in Hin'. rewrite Ev in Hin'. by injection Hin' as <-.
    - injection El as <-. split; [by intros ?%elem_of_nil|]. intros (items & Hin & _). apply (obj_get_elem _ _ _ Hs) in Hin. congruence. }
  destruct (removing l _) as [l1|] eqn:Er; [|done]. destruct (adding l1 _) as [l2|] eqn:Ea; [|done]. intros [= <-].
  pose proof (obj_removed (key_name k) egress) as Hk.
  assert (forall raw, raw ∈ l2 <-> (holds_egress k egress raw /\ ~ taken_out (edit_removes k e) raw) \/ names (edit_adds k e) raw) as Hx
    by (intros x; by rewrite (adding_raws _ _ _ _ Ea), (removing_raws _ _ _ _ Er), Hl).
  destruct l2 as [|s l2].
  - split; [by apply tidy_remove|]. split.
    + intros x. rewrite <-Hx. split; [|by intros ?%elem_of_nil]. by intros (items & [_ Hne]%elem_of_obj_remove & _).
    + intros key v Hne. rewrite elem_of_obj_remove. cbn. tauto.
  - split; [apply tidy_insert; [by apply tidy_remove|apply (tidy_strings (s :: l2))|done]|]. split.
    + intros x. rewrite <-Hx, <-holds_strings. split; [|by intros Hn; eexists; rewrite elem_of_obj_insert; [split; [by left|]|] ].
      intros (items & [[= ->]|[_ Hne]%elem_of_obj_remove]%elem_of_obj_insert & Hi); [done|done|done].
    + intros key v Hne. rewrite elem_of_obj_insert, elem_of_obj_remove by done. cbn. split; [intros [[= ? _]|[? _]]; done|by right].
Qed.

Lemma unique_egress top egress egress' : StronglySorted slt top.*1 ->
  ("egress", JObject egress) ∈ top -> ("egress", JObject egress') ∈ top -> egress' = egress.
Proof. intros Hs Hin Hin'. apply (obj_get_elem _ _ _ Hs) in Hin, Hin'. congruence. Qed.

Lemma holds_egress_of top egress k x : StronglySorted slt top.*1 -> ("egress", JObject egress) ∈ top ->
  holds_top k top x <-> holds_egress k egress x.
Proof.
  intros Hs Hin. unfold holds_top. split; [|by intros Hx; exists egress]. intros (egress' & Hin' & Hx).
  by rewrite <-(unique_egress top egress egress').
Qed.

Lemma in_egress_of top egress key v : StronglySorted slt top.*1 -> ("egress", JObject egress) ∈ top ->
  in_egress key v top <-> (key, v) ∈ egress.
Proof.
  intros Hs Hin. unfold in_egress. split; [|by intros Hx; exists egress]. intros (egress' & Hin' & Hx).
  by rewrite <-(unique_egress top egress egress').
Qed.

Lemma asked_parsed text top k : json_from_str (strip_jsonc text) = Ok (JObject top) ->
  exists p, parse text = Ok p /\ forall x, x ∈ asked k p <-> says_top k top x.
Proof.
  intros E. unfold parse. rewrite E. eexists. split; [done|]. intros x. rewrite parse_tops.
  split; [|by right]. intros [Hx|?]; [|done]. destruct k; by apply elem_of_nil in Hx.
Qed.

Lemma holds_other k eg' eg k2 x : (forall key v, key <> key_name k -> (key, v) ∈ eg' <-> (key, v) ∈ eg) -> k2 <> k ->
  holds_egress k2 eg' x <-> holds_egress k2 eg x.
Proof.
  intros Ho Hne. unfold holds_egress. assert (key_name k2 <> key_name k) as Hk by (by rewrite key_names).
  split; intros (items & Hin & Hx); exists items; (split; [by apply (Ho _ _ Hk)|done]).
Qed.

(** The object an edit works on is the file's, or an empty one. *)
Definition egress_found (top egress : Object) : Prop :=
  tidy (JObject egress) /\ (forall k x, holds_top k top x <-> holds_egress k egress x) /\
  forall key v, in_egress key v top <-> (key, v) ∈ egress.

Lemma egress_found_Ok top egress (err : string) : tidy (JObject top) ->
  match obj_get "egress" top with Some (JObject egress) => Ok egress | Some _ => Err err | None => Ok [] end = Ok egress ->
  egress_found top egress.
Proof.
  intros Ht Eg. pose proof (proj1 (tidy_object _) Ht) as [Hs Hte]. destruct (obj_get "egress" top) as [v|] eqn:Ev.
  - apply (obj_get_elem _ _ _ Hs) in Ev as Hin. destruct v; try done. injection Eg as ->.
    split; [exact (Hte _ Hin)|]. split; [intros k x; by apply holds_egress_of|intros key v; by apply in_egress_of].
  - injection Eg as <-. assert (forall eg, ("egress", JObject eg) ∉ top) as Hno.
    { intros eg Hin. apply (obj_get_elem _ _ _ Hs) in Hin. congruence. }
    split; [apply tidy_object; split; [constructor|by intros ? ?%elem_of_nil]|].
    split; intros ? ?; (split; [intros (eg & Hin & _); by destruct (Hno eg)|]);
      [by intros (? & Hin%elem_of_nil & _)|by intros ?%elem_of_nil].
Qed.

(** Both lists edited, and the object put back. *)
Lemma edit_both e top egress eg1 eg2 : tidy (JObject top) -> egress_found top egress ->
  edit_key e Allow egress = Ok eg1 -> edit_key e Disable eg1 = Ok eg2 ->
  let top' := match eg2 with [] => obj_remove "egress" top | _ => obj_insert "egress" (JObject eg2) (obj_remove "egress" top) end in
  tidy (JObject top') /\
  (forall k raw, holds_top k top' raw <->
     (holds_top k top raw /\ ~ taken_out (edit_removes k e) raw) \/ names (edit_adds k e) raw) /\
  (forall key v, key <> "egress" -> (key, v) ∈ top' <-> (key, v) ∈ top) /\
  (forall key v, key <> "allow" -> key <> "disable" -> in_egress key v top' <-> in_egress key v top).
Proof.
  intros Ht (Heg & Hholds & Hentries) E1 E2 top'. destruct (edit_key_spec _ _ _ _ Heg E1) as (Ht1 & Ha & Ho1).
  destruct (edit_key_spec _ _ _ _ Ht1 E2) as (Ht2 & Hd & Ho2).
  assert (forall k raw, holds_egress k eg2 raw <->
    (holds_top k top raw /\ ~ taken_out (edit_removes k e) raw) \/ names (edit_adds k e) raw) as Hx.
  { intros k x. rewrite Hholds. destruct k; [rewrite <-Ha; by apply (holds_other Disable)|].
    by rewrite Hd, (holds_other Allow eg1 egress Disable). }
  assert (forall key v, key <> "allow" -> key <> "disable" -> (key, v) ∈ eg2 <-> in_egress key v top) as Hin2
    by (intros key v ? ?; by rewrite Hentries, Ho2, Ho1).
  pose proof (obj_removed "egress" top) as Hk. pose proof (tidy_remove "egress" _ Ht) as Hrm. subst top'.
  destruct eg2 as [|x0 eg2].
  - assert (forall eg, ("egress", JObject eg) ∉ obj_remove "egress" top) as Hno by (by intros eg [_ ?]%elem_of_obj_remove).
    split; [done|]. split; [|split].
    + intros k x. rewrite <-Hx. split; [intros (eg & Hin & _); by destruct (Hno eg)|by intros (? & Hin%elem_of_nil & _)].
    + intros key v Hne. rewrite elem_of_obj_remove. cbn. tauto.
    + intros key v ? ?. rewrite <-Hin2 by done. split; [intros (eg & Hin & _); by destruct (Hno eg)|by intros ?%elem_of_nil].
  - assert (tidy (JObject (obj_insert "egress" (JObject (x0 :: eg2)) (obj_remove "egress" top)))) as Hti by (by apply tidy_insert).
    assert (StronglySorted slt (obj_insert "egress" (JObject (x0 :: eg2)) (obj_remove "egress" top)).*1) as Hss
      by by apply tidy_object in Hti as [? _].
    split; [done|]. split; [|split].
    + intros k x. rewrite <-Hx. apply holds_egress_of; [done|]. rewrite elem_of_obj_insert by done. by left.
    + intros key v Hne. rewrite elem_of_obj_insert, elem_of_obj_remove by done. cbn. split; [intros [[= ? _]|[? _]]; done|by right].
    + intros key v ? ?. rewrite <-Hin2 by done. apply in_egress_of; [done|]. rewrite elem_of_obj_insert by done. by left.
Qed.

(** (C36) A tidy file edited from the app, read again. Each list asks for the patterns it asked for, less
    those taken out, with those put in; of the strings it held, patterns or not, exactly those that
    spell a pattern taken out are gone, and exactly the patterns put in are new. Every other entry of
    the file, and every other entry of its `egress` object, is as it was. An item of the two lists that is
    no string, and an `egress` object that was empty, are not kept: [edit_drops_other_items]. *)
Theorem edit_reads_back `{!JsonLawful} text e out top :
  json_from_str (strip_jsonc text) = Ok (JObject top) -> tidy (JObject top) -> edit_text (Some text) e = Ok out ->
  exists p p' top', parse text = Ok p /\ parse out = Ok p' /\ json_from_str (strip_jsonc out) = Ok (JObject top') /\
    (forall k x, x ∈ asked k p' <-> (x ∈ asked k p /\ ~ names (edit_removes k e) x) \/ names (edit_adds k e) x) /\
    (forall k raw, holds_top k top' raw <->
       (holds_top k top raw /\ ~ taken_out (edit_removes k e) raw) \/ names (edit_adds k e) raw) /\
    (forall key v, key <> "egress" -> (key, v) ∈ top' <-> (key, v) ∈ top) /\
    (forall key v, key <> "allow" -> key <> "disable" -> in_egress key v top' <-> in_egress key v top).
Proof.
  intros E Ht. unfold edit_text. cbv zeta. cbn [from_option id]. change (id text) with text. destruct (has_comments text); [done|]. rewrite E.
  destruct (match obj_get "egress" top with Some (JObject egress) => Ok egress | Some _ => Err _ | None => Ok [] end)
    as [egress|] eqn:Eg; [|done].
  pose proof (egress_found_Ok _ _ _ Ht Eg) as Hfound.
  destruct (edit_key e Allow egress) as [eg1|] eqn:E1; [|done]. destruct (edit_key e Disable eg1) as [eg2|] eqn:E2; [|done].
  intros [= <-]. destruct (edit_both e top egress eg1 eg2 Ht Hfound E1 E2) as (Ht' & Hraws & Hrest & Hinner).
  set (top' := match eg2 with [] => _ | _ => _ end) in *.
  assert (json_from_str (strip_jsonc (to_string_pretty (JObject top') +:+ newline)) = Ok (JObject top')) as E'
    by (rewrite json_is_plain; by apply json_reads_back).
  destruct (asked_parsed _ _ Allow E) as (p & Hp & _). destruct (asked_parsed _ _ Allow E') as (p' & Hp' & _).
  exists p, p', top'. split; [done|]. split; [done|]. split; [done|]. split; [|done]. intros k x.
  destruct (asked_parsed _ _ k E) as (q & Hq & Hqx). destruct (asked_parsed _ _ k E') as (q' & Hq' & Hqx').
  rewrite Hp in Hq. rewrite Hp' in Hq'. injection Hq as <-. injection Hq' as <-.
  rewrite Hqx', Hqx, !says_top_holds. setoid_rewrite Hraws. split.
  - intros (raw & [[Hh Hn]|Ha] & Hs); [left|right; rewrite (names_spelled _ _ Ha) in Hs; by injection Hs as <-].
    split; [by exists raw|]. intros Hr. apply Hn. by exists x.
  - intros [[(raw & Hh & Hs) Hn]|Ha]; [exists raw|exists x; split; [by right|by eapply names_spelled]].
    split; [|done]. left. split; [done|]. intros (y & Hy & Hny). rewrite Hs in Hy. by injection Hy as <-.
Qed.
End Reads.

(** ** A lawful stand-in for [serde_json]: a value's code, in decimal *)

Fixpoint json_tree (v : Json) : gen_tree (string + Z) :=
  match v with
  | JNull => GenNode 0 []
  | JBool b => GenNode (if b then 1 else 2) []
  | JNumber (Whole z) => GenLeaf (inr z)
  | JNumber (Float t) => GenNode 3 [GenLeaf (inl t)]
  | JString s => GenLeaf (inl s)
  | JArray items => GenNode 4 (json_tree <$> items)
  | JObject o => GenNode 5 ((fun e => GenNode 6 [GenLeaf (inl e.1); json_tree e.2]) <$> o)
  end.

Fixpoint tree_json (t : gen_tree (string + Z)) : Json :=
  match t with
  | GenLeaf (inr z) => JNumber (Whole z)
  | GenLeaf (inl s) => JString s
  | GenNode 1 _ => JBool true
  | GenNode 2 _ => JBool false
  | GenNode 3 [GenLeaf (inl t)] => JNumber (Float t)
  | GenNode 4 ts => JArray (tree_json <$> ts)
  | GenNode 5 ts =>
      JObject ((fun e => match e with GenNode 6 [GenLeaf (inl k); v] => (k, tree_json v) | _ => ("", JNull) end) <$> ts)
  | _ => JNull
  end.

Lemma tree_json_tree v : tree_json (json_tree v) = v.
Proof.
  revert v. fix IH 1. intros [|[]|[]|s|items|o]; cbn [json_tree tree_json]; try reflexivity.
  - f_equal. induction items as [|v items IHl]; [reflexivity|]. cbn. f_equal; [apply IH|exact IHl].
  - f_equal. induction o as [|[k v] o IHl]; [reflexivity|]. cbn. f_equal; [f_equal; apply IH|exact IHl].
Qed.

Definition json_code (v : Json) : positive := encode (json_tree v).
Definition code_json (p : positive) : option Json := tree_json <$> decode p.

Definition coded_text : JsonText := {|
  json_from_str text :=
    match parse_digits (trim text) with
    | Some (Npos p) => match code_json p with Some v => Ok v | None => Err "expected value" end
    | _ => Err "expected value"
    end;
  to_string_pretty v := show_N (Npos (json_code v));
  json_display v := show_N (Npos (json_code v));
|}.

Lemma digits_plain n : Forall plain_char (chars (show_N n)) /\
  Forall (fun c => c <> dq /\ c <> "/" /\ c <> ",") (chars (show_N n)).
Proof.
  rewrite <-show_N_digits. split; [apply uint_chars|]. generalize (N.to_uint n) as d.
  induction d; cbn [NilEmpty.string_of_uint]; [constructor|..]; rewrite chars_cons;
    match goal with |- context [starts_cont (NilEmpty.string_of_uint ?d)] =>
      assert (starts_cont (NilEmpty.string_of_uint d) = false) as -> by (destruct d; reflexivity) end;
    (constructor; [split_and!; discriminate|done]).
Qed.

Lemma plain_groups l : Forall plain_char l -> groups l.
Proof.
  induction 1 as [|c l (b & -> & _) Hl IH]; [done|]. split; [done|]. split; [|done].
  destruct Hl as [|c' l (b' & -> & Hc & _) _]; [done|exact Hc].
Qed.

Lemma strip_plain l : Forall (fun c => c <> dq /\ c <> "/" /\ c <> ",") l -> strip Plain l = l.
Proof.
  induction 1 as [|c l (Hq & Hs & Hc) _ IH]; [done|]. cbn [strip].
  by rewrite (proj2 (String.eqb_neq _ _) Hq), (proj2 (String.eqb_neq _ _) Hs), (proj2 (String.eqb_neq _ _) Hc), IH.
Qed.

Lemma chars_number n : chars (show_N n +:+ newline) = chars (show_N n) ++ [newline].
Proof.
  destruct (digits_plain n) as [Hp _]. rewrite <-(unchars_chars (show_N n)) at 1.
  change newline with (unchars [newline]) at 1. rewrite <-unchars_app. apply chars_unchars.
  revert Hp. induction 1 as [|c l (b & -> & _) Hl IH]; [done|]. cbn [app groups]. split; [done|]. split; [|exact IH].
  destruct Hl as [|c' l (b' & -> & Hc & _) _]; [done|exact Hc].
Qed.

Lemma trim_line n : trim (show_N n +:+ newline) = show_N n.
Proof.
  unfold trim. rewrite chars_number. destruct (digits_plain n) as [Hp _].
  assert (Forall (fun c => is_ws c = false) (chars (show_N n))) as Hf
    by (eapply Forall_impl; [exact Hp|]; intros c (b & _ & _ & Hb); exact Hb).
  assert (exists c l, chars (show_N n) = c :: l) as (c & l & E).
  { destruct (chars (show_N n)) as [|c l] eqn:E; [|by eauto]. pose proof (parse_digits_show n) as Hd.
    rewrite <-(unchars_chars (show_N n)), E in Hd. done. }
  rewrite E in Hf. assert (drop_while is_ws (chars (show_N n) ++ [newline]) = chars (show_N n) ++ [newline]) as ->.
  { rewrite E. cbn [app drop_while]. inversion Hf as [|? ? Hc]; subst. by rewrite Hc. }
  rewrite rev_app_distr. cbn [rev app drop_while]. change (is_ws newline) with true. cbn iota.
  rewrite (drop_while_none _ (rev _)) by (apply Forall_rev; rewrite E; exact Hf). by rewrite rev_involutive, unchars_chars.
Qed.

#[local] Instance coded_text_lawful : @JsonLawful coded_text.
Proof.
  split.
  - intros v _. unfold json_from_str, to_string_pretty, coded_text. rewrite trim_line, parse_digits_show.
    unfold code_json, json_code. by rewrite decode_encode; cbn; rewrite tree_json_tree.
  - intros v. unfold to_string_pretty, coded_text, strip_jsonc. rewrite chars_number, strip_plain, unchars_app, unchars_chars; [done|].
    apply Forall_app. split; [apply digits_plain|]. constructor; [split_and!; discriminate|constructor].
Qed.

Definition demo_top : Object :=
  [("egress", JObject [("allow", JArray [JString "a.com"; JString "B.com"])]); ("run", JNumber (Whole 3))].
Definition demo_edit : Edit := mkEdit ["c.com"] ["b.com"] ["github.com"] [].
Definition demo_text : string := @to_string_pretty coded_text (JObject demo_top) +:+ newline.
Definition demo_edited : string :=
  match @edit_text coded_text (Some demo_text) demo_edit with Ok out => out | Err e => e end.

Lemma edit_reads_back_witness :
  exists p p', @parse coded_text demo_text = Ok p /\ @parse coded_text demo_edited = Ok p' /\
    ("c.com" ∈ ps_allow p') /\ ("b.com" ∉ ps_allow p').
Proof.
  assert (@json_from_str coded_text (strip_jsonc demo_text) = Ok (JObject demo_top)) as H1 by (vm_compute; reflexivity).
  assert (tidy (JObject demo_top)) as H2 by (cbn; repeat constructor).
  assert (@edit_text coded_text (Some demo_text) demo_edit = Ok demo_edited) as H3 by (vm_compute; reflexivity).
  destruct (@edit_reads_back coded_text coded_text_lawful demo_text demo_edit demo_edited demo_top H1 H2 H3)
    as (p & p' & top' & Hp & Hp' & _ & Hx & _).
  exists p, p'. split; [exact Hp|]. split; [exact Hp'|]. split.
  - apply (Hx Allow). right. exists "c.com". split; [by left|vm_compute; reflexivity].
  - intros [(_ & Hn)|(raw & Hr & Hs)]%(Hx Allow).
    + apply Hn. exists "b.com". split; [by left|vm_compute; reflexivity].
    + apply list_elem_of_singleton in Hr as ->. vm_compute in Hs. discriminate.
Defined.

(** An edit that names nothing still drops what is in a list and is not a string, and an [egress] that
    is empty. *)
Theorem edit_drops_other_items :
  let text := @to_string_pretty coded_text (JObject [("egress", JObject [("allow", JArray [JNumber (Whole 3)])])]) in
  match @edit_text coded_text (Some text) (mkEdit [] [] [] []) with
  | Ok out => @json_from_str coded_text (strip_jsonc out) = Ok (JObject [])
  | Err _ => False
  end.
Proof. vm_compute. reflexivity. Qed.
