(* ===== verification/ProjectFile.v ===== *)
(** * What of a project's settings files applies

    The reading half of [src/crates/fletch-core/src/project_file/file.rs], all of
    [project_file/mod.rs] and the commands of [commands/project_file.rs], over the engine of
    EgressCommands.v: the mirror of what the files say, the approvals a client may not write, and the
    watch. The disk is read at the time of each look, and may change between any two. *)

From S2P Require Import Prelude RustStr RustText Closes Sql Database AutopilotStore Drainer EgressPolicy EgressRequest Egress BoxSettings EgressList EgressPrompt EgressCommands SettingsFile.

Local Open Scope string_scope.
Local Open Scope list_scope.

(** ** The disk *)

Record IoError := mkIoError { io_not_found : bool; io_text : string }.
Record Meta := mkMeta { is_file : bool; len : N; modified : option Z }.

(** What each call answers at each time; [canonicalize] is its [.ok()]. *)
Class Disk := {
  metadata : nat -> string -> result Meta IoError;
  read_to_string : nat -> string -> result string IoError;
  canonicalize : nat -> string -> option string;
  path_is_dir : nat -> string -> bool;
}.

(** [workspace::checkouts_root().ok()]. *)
Class Checkouts := agents_root : option string.

(** ** The engine beside the mirror of the files *)

Record FileReport := mkFileReport {
  fr_path : string;
  fr_exists : bool;
  fr_error : option string;
  fr_warnings : list string;
  fr_allow : list string;
  fr_disable : list string;
}.

#[export] Instance FileReport_dec : EqDecision FileReport.
Proof. solve_decision. Defined.

(** [Read]. *)
Record Files := mkFiles {
  rd_error : option string;
  rd_files : list FileReport;
  rd_allow : list string;
  rd_disable : list string;
}.

Definition no_files : Files := mkFiles None [] [] [].

Definition Stamp := list (option (N * Z)).

(** [Entry] of the mirror. *)
Record FileEntry := mkFileEntry {
  fe_repo_path : option string;
  fe_read : Files;
  fe_approved : list string;
  fe_stamp : Stamp;
}.

Record EgressStatus := mkEgressStatus { es_applied : list string; es_pending : list string; es_disabled : list string }.

#[export] Instance EgressStatus_dec : EqDecision EgressStatus.
Proof. solve_decision. Defined.

Record ProjectFileStatus := mkProjectFileStatus {
  pf_project_id : string;
  pf_repo_path : option string;
  pf_error : option string;
  pf_files : list FileReport;
  pf_egress : EgressStatus;
}.

#[export] Instance ProjectFileStatus_dec : EqDecision ProjectFileStatus.
Proof. solve_decision. Defined.

Definition status_of (project_id : string) (e : FileEntry) : ProjectFileStatus :=
  let approved p := lcontains (fe_approved e) p in
  mkProjectFileStatus project_id (fe_repo_path e) (rd_error (fe_read e)) (rd_files (fe_read e))
    (mkEgressStatus (lfilter approved (rd_allow (fe_read e))) (lfilter (fun p => negb (approved p)) (rd_allow (fe_read e)))
       (rd_disable (fe_read e))).

Definition delta_of (e : FileEntry) : Delta :=
  mkDelta (es_applied (pf_egress (status_of "" e))) (es_disabled (pf_egress (status_of "" e))).

(** The engine, the mirror of the files and what was written to the disk. [project_file::egress_delta]
    reads the mirror, so [en_files] follows it ([set_entry]). *)
Record Host := mkHost {
  ho_engine : Engine;
  ho_state : gmap string FileEntry;
  ho_writes : list (string * string);
}.

Definition with_engine (e : Engine) (h : Host) : Host := mkHost e (ho_state h) (ho_writes h).

Definition set_entry (project_id : string) (f : FileEntry) (h : Host) : Host :=
  let e := ho_engine h in
  mkHost
    (mkEngine (en_db e) (en_mirror e) (<[project_id := delta_of f]> (en_files e)) (en_boxes e) (en_prompts e) (en_calls e) (en_told e))
    (<[project_id := f]> (ho_state h)) (ho_writes h).

Inductive HostTold := TellProjectFile (project_id : string).

Section Host.
Context `{World0 : World} `{Json0 : JsonStrings} `{Json1 : DeltaJson} `{Json2 : JsonText} `{Disk0 : Disk} `{Root0 : Checkouts}.

(** A step of the engine, and one of its database. *)
Definition on_engine {A} (m : M Engine A) : M Host A := fun c =>
  let '(r, c') := m (Build_Conn (ho_engine (c_db c)) (c_tick c)) in
  (r, Build_Conn (with_engine (c_db c') (c_db c)) (c_tick c')).

Definition on_host_db {A} (m : M Db A) : M Host A := on_engine (on_db m).

Definition look_host {A} (f : Host -> A) : M Host A := fun c => (Ok (f (c_db c)), c).
Definition change_host (f : Host -> Host) : M Host () := fun c => (Ok tt, Build_Conn (f (c_db c)) (c_tick c)).

(** One look at the disk. *)
Definition io {A} (f : nat -> A) : M Host A := fun c => (Ok (f (c_tick c)), tick c).

(** One write, which may fail. *)
Definition fs_write (path text : string) : M Host () :=
  execute (fun h => mkHost (ho_engine h) (ho_state h) (ho_writes h ++ [(path, text)])).
Definition create_dir_all (path : string) : M Host () := execute (fun h => h).

(** ** Reading the files *)

Definition file_paths (repo : string) : list (string * string) :=
  (fun name => (DIR +:+ "/" +:+ name, path_join (path_join repo DIR) name)) <$> [SHARED_FILE; LOCAL_FILE].

Definition stamp_one (path : string) : M Host (option (N * Z)) :=
  let* meta := io (fun t => metadata t path) in
  ret (match meta with Ok m => (fun at_ => (len m, at_)) <$> modified m | Err _ => None end).

Definition stamp (repo : string) : M Host Stamp := for_each stamp_one (file_paths repo).*2.

Definition canonical (path : string) : M Host string :=
  let* o := io (fun t => canonicalize t path) in ret (default path o).

Definition failed_report (shown why : string) : FileReport := mkFileReport shown true (Some why) [] [] [].

(** One file: its report, and what both files said with it. *)
Definition read_one (read : Files) (shown path : string) : M Host Files :=
  let push r := mkFiles (rd_error read) (rd_files read ++ [r]) (rd_allow read) (rd_disable read) in
  let* meta := io (fun t => metadata t path) in
  match meta with
  | Err e =>
      ret (push (if io_not_found e then mkFileReport shown false None [] [] []
                 else failed_report shown ("unreadable: " +:+ io_text e)))
  | Ok m =>
      if negb (is_file m) then ret (push (failed_report shown "not a file"))
      else if (MAX_FILE_BYTES <? len m)%N
      then ret (push (failed_report shown (show_N (len m) +:+ " bytes is too large for a settings file")))
      else
        let* text := io (fun t => read_to_string t path) in
        ret (match text with
             | Err e => push (failed_report shown ("unreadable: " +:+ io_text e))
             | Ok text =>
                 match parse text with
                 | Err e => push (failed_report shown e)
                 | Ok parsed =>
                     mkFiles (rd_error read)
                       (rd_files read ++ [mkFileReport shown true None (ps_warnings parsed) (ps_allow parsed) (ps_disable parsed)])
                       (foldl push_new (rd_allow read) (ps_allow parsed)) (foldl push_new (rd_disable read) (ps_disable parsed))
                 end
             end)
  end.

Definition read_files (repo : string) (root : option string) : M Host Files :=
  let* inside := (match root with
                  | None => ret false
                  | Some root =>
                      let* here := canonical repo in
                      let* there := canonical root in
                      ret (path_starts_with here there)
                  end) in
  if inside
  then ret (mkFiles (Some (repo +:+ " is inside an agent's workspace; project settings are read only from your own repository")) [] [] [])
  else
    foldl (fun m '(shown, path) => let* read := m in read_one read shown path) (ret no_files) (file_paths repo).

(** ** The mirror *)

Definition APPROVED_EGRESS_KEY : string := "settings_file.approved_egress".

Definition no_status (project_id : string) : ProjectFileStatus :=
  mkProjectFileStatus project_id None None [] (mkEgressStatus [] [] []).

Definition status (project_id : string) (h : Host) : ProjectFileStatus :=
  default (no_status project_id) (status_of project_id <$> ho_state h !! project_id).

Definition store (project_id : string) (entry : FileEntry) : M Host (bool * bool) := fun c =>
  let before := status_of project_id <$> ho_state (c_db c) !! project_id in
  let after := status_of project_id entry in
  let enforced s := (es_applied (pf_egress s), es_disabled (pf_egress s)) in
  (Ok (negb (eqb before (Some after)), negb (eqb (enforced <$> before) (Some (enforced after)))),
   Build_Conn (set_entry project_id entry (c_db c)) (c_tick c)).

Definition load_approved (project_id : string) : M Host (list string) :=
  let* o := attempt_ok (on_host_db (query (fun d => db_project_settings d !! (project_id, APPROVED_EGRESS_KEY)))) in
  ret (default [] (mjoin o ≫= json_parse)).

Definition refresh (project_id : string) : M Host (ProjectFileStatus * bool) :=
  let* repo_path := on_host_db (primary_repo_path project_id) in
  let* read := (match repo_path with Some repo => read_files repo agents_root | None => ret no_files end) in
  let* at_ := (match repo_path with Some repo => stamp repo | None => ret [] end) in
  let* approved := load_approved project_id in
  let entry := mkFileEntry repo_path read approved at_ in
  let* (changed, applied_changed) := store project_id entry in
  let* _ := (if applied_changed then on_engine (update_egress project_id) else ret tt) in
  ret (status_of project_id entry, changed).

Definition store_approved (project_id : string) (approved : list string) : M Host () :=
  on_host_db (upsert_project_setting project_id APPROVED_EGRESS_KEY (json_print approved)).

(** The patterns approved with those of [patterns], each of which [offered] must hold. *)
Fixpoint approving (offered : string -> bool) (approved patterns : list string) : result (list string) string :=
  match patterns with
  | [] => Ok approved
  | pattern :: rest =>
      match spelled pattern with
      | Err e => Err e
      | Ok s =>
          if offered s then approving offered (push_new approved s) rest
          else Err ("`" +:+ s +:+ "` is not in this project's settings files")
      end
  end.

Definition approve (project_id : string) (patterns : list string) : M Host ProjectFileStatus :=
  let* (current, _) := refresh project_id in
  let offered := lcontains (es_applied (pf_egress current) ++ es_pending (pf_egress current)) in
  let* approved := load_approved project_id in
  let* approved := lift (approving offered approved patterns) in
  let* _ := store_approved project_id approved in
  let* (s, _) := refresh project_id in
  ret s.

(** ** Edits *)

(** [PathBuf::is_absolute], and [join] of a path that may be absolute. *)
Definition is_absolute (p : string) : bool := starts_with "/" p.
Definition join_any (base p : string) : string := if is_absolute p then p else path_join base p.

(** [text.trim().strip_prefix("gitdir:")?.trim()]. *)
Definition gitdir_of (text : string) : option string := trim <$> strip_prefix "gitdir:" (trim text).

Definition exclude_file (repo : string) : M Host (option string) :=
  let dot_git := path_join repo ".git" in
  let* dir := io (fun t => path_is_dir t dot_git) in
  let* git_dir :=
    (if dir : bool then ret (Some dot_git)
     else
       let* text := io (fun t => read_to_string t dot_git) in
       match text with
       | Err _ => ret None
       | Ok text =>
           match gitdir_of text with
           | None => ret None
           | Some d =>
               let d := join_any repo d in
               let* common := io (fun t => read_to_string t (path_join d "commondir")) in
               ret (Some (match common with Ok common => join_any d (trim common) | Err _ => d end))
           end
       end) in
  ret ((fun d => path_join (path_join d "info") "exclude") <$> git_dir).

Definition exclude_line : string := "/" +:+ DIR +:+ "/" +:+ LOCAL_FILE.

(** The new text of the exclude file; nothing when the line is there. *)
Definition excluded (current : string) : option string :=
  if existsb (fun l => String.eqb (trim l) exclude_line) (lines current) then None
  else Some (current +:+ (if is_empty current || ends_with newline current then "" else newline) +:+ exclude_line +:+ newline).

(** [exclude.parent()]. *)
Definition parent_dir (path : string) : string := match rsplit_once slash path with Some (d, _) => d | None => "" end.

Definition exclude_local_file (repo : string) : M Host () :=
  let* exclude := exclude_file repo in
  match exclude with
  | None => ret tt
  | Some exclude =>
      let* current := io (fun t => read_to_string t exclude) in
      match excluded (match current with Ok s => s | Err _ => "" end) with
      | None => ret tt
      | Some text => let* _ := create_dir_all (parent_dir exclude) in fs_write exclude text
      end
  end.

Inductive Which := Shared_file | Local_file.

Definition file_name (w : Which) : string := match w with Shared_file => SHARED_FILE | Local_file => LOCAL_FILE end.

Definition edit (project_id : string) (which : Which) (e : Edit) : M Host ProjectFileStatus :=
  let* repo := on_host_db (primary_repo_path project_id) in
  let* repo := require_some "this project has no repository" repo in
  let* read := read_files repo agents_root in
  let* _ := (match rd_error read with Some e => err e | None => ret tt end) in
  let path := path_join (path_join repo DIR) (file_name which) in
  let* current := io (fun t => read_to_string t path) in
  let* current := lift (match current with
                        | Ok text => Ok (Some text)
                        | Err e => if io_not_found e then Ok None else Err (io_text e)
                        end) in
  let* text := lift (match edit_text current e with
                     | Ok text => Ok text
                     | Err e => Err (DIR +:+ "/" +:+ file_name which +:+ ": " +:+ e)
                     end) in
  let* _ := create_dir_all (path_join repo DIR) in
  let* _ := fs_write path text in
  let* _ := (match which with
             | Local_file => let* _ := attempt (exclude_local_file repo) in ret tt
             | Shared_file => ret tt
             end) in
  let* approved := load_approved project_id in
  let* approved := lift (approving (fun _ => true) approved (allow_add e)) in
  let* _ := store_approved project_id approved in
  let* (s, _) := refresh project_id in
  ret s.

(** ** The watch *)

Definition project_ids : M Host (list string) :=
  let* o := attempt_ok (on_host_db (query (fun d => elements (list_to_set (repo_project_id <$> db_repos d) : gset string)))) in
  ret (default [] o).

Definition seed : M Host () :=
  let* ids := project_ids in
  let* _ := for_each refresh ids in
  ret tt.

(** Whether the files moved under the mirror, or it has none of them. *)
Definition moved (project_id : string) : M Host bool :=
  let* entry := look_host (fun h => ho_state h !! project_id) in
  match entry with
  | None => ret true
  | Some e =>
      let* now := (match fe_repo_path e with Some repo => stamp repo | None => ret [] end) in
      ret (negb (eqb now (fe_stamp e)))
  end.

(** One project of one look of the watch; [told] are the events emitted. *)
Definition watch_one (project_id : string) : M Host (list HostTold) :=
  let* m := moved project_id in
  if m : bool then let* (_, changed) := refresh project_id in ret (if changed : bool then [TellProjectFile project_id] else [])
  else ret [].

Definition watch_pass : M Host (list HostTold) :=
  let* ids := project_ids in
  let* told := for_each watch_one ids in
  ret (mjoin told).

(** ** The commands *)

Definition project_file_status_impl (project_id : string) : M Host (ProjectFileStatus * list HostTold) :=
  let* (s, changed) := refresh project_id in ret (s, if changed : bool then [TellProjectFile project_id] else []).

Definition project_file_approve_impl (project_id : string) (patterns : list string) : M Host (ProjectFileStatus * list HostTold) :=
  let* s := approve project_id patterns in ret (s, [TellProjectFile project_id]).

Definition project_file_edit_impl (project_id : string) (file : Which) (e : Edit) : M Host (ProjectFileStatus * list HostTold) :=
  let* s := edit project_id file e in ret (s, [TellProjectFile project_id]).

(** What the settings page shows of a project. *)
Definition box_egress_overview_impl (project_id : string) : M Host (list EgressList.Entry * ProjectFileStatus * list string) :=
  let* (file, _) := refresh project_id in
  let* e := look_host ho_engine in
  ret (egress_entries (en_mirror e) (file_delta e project_id) project_id, file, EgressList.egress_allow (en_mirror e) project_id).
End Host.
