(* ===== verification/FileGrants.v ===== *)
(** * A file adds only what its user granted

    Over every operation of the engine that touches what a box may reach, whatever the disk answers and
    whichever statement fails: a host a settings file adds is in the layer of a project's boxes only if
    the user approved it for that project, or added it there from the app. *)

From S2P Require Import Prelude RustStr RustText Closes Sql Database AutopilotStore Drainer EgressPolicy EgressRequest Egress BoxSettings EgressList EgressPrompt EgressCommands EgressAnswer SettingsFile ProjectFile.

Local Open Scope string_scope.
Local Open Scope list_scope.

(** ** Steps that grant nothing *)

(** The approvals stored for a project. *)
Definition approved_row `{JsonStrings} (e : Engine) (project_id : string) : list string :=
  default [] (db_project_settings (en_db e) !! (project_id, APPROVED_EGRESS_KEY) ≫= json_parse).

(** The stored approvals and the files' layers stay. *)
Definition same_grants (e e' : Engine) : Prop :=
  en_files e' = en_files e /\
  forall project_id, db_project_settings (en_db e') !! (project_id, APPROVED_EGRESS_KEY) =
    db_project_settings (en_db e) !! (project_id, APPROVED_EGRESS_KEY).

#[export] Instance same_grants_preorder : PreOrder same_grants.
Proof.
  split; [by intros e|]. intros e1 e2 e3 [Hf Hd] [Hf' Hd']. split; [congruence|]. intros p. by rewrite Hd', Hd.
Qed.

Definition sparing {A} (m : M Engine A) : Prop := forall c, same_grants (c_db c) (c_db (m c).2).

Create HintDb sparing.

Section Quiet.
Context `{World0 : World} `{Json0 : JsonStrings} `{Json1 : DeltaJson}.

Lemma sparing_ret {A} (a : A) : sparing (ret a).
Proof. by intros c. Qed.

Lemma sparing_err {A} e : sparing (err e : M Engine A).
Proof. by intros c. Qed.

Lemma sparing_lift {A} (r : result A string) : sparing (lift r).
Proof. by intros c. Qed.

Lemma sparing_bind {A B} (m : M Engine A) (k : A -> M Engine B) : sparing m -> (forall a, sparing (k a)) -> sparing (bind m k).
Proof.
  intros Hm Hk c. unfold bind. specialize (Hm c). destruct (m c) as [[a|e] c']; [|done]. etrans; [exact Hm|apply Hk].
Qed.

Lemma sparing_look {A} (f : Engine -> A) : sparing (look f).
Proof. by intros c. Qed.

Lemma sparing_change f : (forall e, same_grants e (f e)) -> sparing (change f).
Proof. intros Hf c. apply Hf. Qed.

Lemma sparing_for_each {A B} (f : A -> M Engine B) l : (forall x, sparing (f x)) -> sparing (for_each f l).
Proof.
  intros Hf. induction l as [|x l IH]; [apply sparing_ret|]. apply sparing_bind; [done|]. intros y.
  apply sparing_bind; [done|]. intros ys. apply sparing_ret.
Qed.

(** A statement of the database that leaves the approvals alone. *)
Definition spares {A} (m : M Db A) : Prop := forall c project_id,
  db_project_settings (c_db (m c).2) !! (project_id, APPROVED_EGRESS_KEY) =
  db_project_settings (c_db c) !! (project_id, APPROVED_EGRESS_KEY).

Lemma sparing_on_db {A} (m : M Db A) : spares m -> sparing (on_db m).
Proof. intros Hm c. unfold on_db. specialize (Hm (Build_Conn (en_db (c_db c)) (c_tick c))). destruct (m _) as [r c']. by split. Qed.

Lemma spares_reads {A} (m : M Db A) : reads m -> spares m.
Proof. intros Hm c p. by rewrite Hm. Qed.

Lemma spares_execute f : (forall d p, db_project_settings (f d) !! (p, APPROVED_EGRESS_KEY) =
  db_project_settings d !! (p, APPROVED_EGRESS_KEY)) -> spares (execute f).
Proof. intros Hf c p. unfold execute, sql. destruct (w_fault _); [done|]. apply Hf. Qed.

Lemma spares_upsert p k v : k <> APPROVED_EGRESS_KEY -> spares (upsert_project_setting p k v).
Proof.
  intros Hk c q. unfold upsert_project_setting, sql. destruct (w_fault _); [done|]. destruct (is_some _); [|done]. cbn.
  apply lookup_insert_ne. by intros [= _ ?].
Qed.

Lemma spares_delete p k : k <> APPROVED_EGRESS_KEY -> spares (delete_project_setting p k).
Proof. intros Hk. apply spares_execute. intros d q. cbn. apply lookup_delete_ne. by intros [= _ ?]. Qed.

Lemma spares_set_setting k v : spares (set_setting k v).
Proof. by apply spares_execute. Qed.

Lemma spares_delete_setting k : spares (delete_setting k).
Proof. by apply spares_execute. Qed.

Lemma reads_get_setting k : reads (get_setting k).
Proof. unfold get_setting. apply reads_bind; [apply reads_attempt_ok, reads_query|intros; apply reads_ret]. Qed.

Lemma reads_load_settings : reads load_settings.
Proof. unfold load_settings. repeat (apply reads_bind; [apply reads_get_setting|intros ?]). apply reads_ret. Qed.

#[local] Hint Resolve sparing_ret sparing_err sparing_lift sparing_look spares_set_setting spares_delete_setting reads_load_settings spares_reads : sparing.

Ltac sparing_all :=
  repeat first
    [ solve [auto with sparing]
    | apply sparing_bind; [|intros ?]
    | apply sparing_for_each; intros ?
    | apply sparing_on_db
    | (apply sparing_change; intros ?; by repeat split)
    | match goal with |- sparing (match ?x with _ => _ end) => destruct x end
    | match goal with |- spares (match ?x with _ => _ end) => destruct x end ].

Lemma sparing_update_egress p : sparing (update_egress p).
Proof. unfold update_egress. sparing_all. Qed.
#[local] Hint Resolve sparing_update_egress : sparing.

Lemma sparing_update_egress_all : sparing update_egress_all.
Proof. unfold update_egress_all. sparing_all. Qed.

Lemma sparing_set_turn_open agent open : sparing (set_turn_open agent open).
Proof. unfold set_turn_open. sparing_all. Qed.

Lemma sparing_decline_host agent host : sparing (decline_host agent host).
Proof. unfold decline_host. sparing_all. Qed.

Lemma sparing_resolve_prompt id o : sparing (resolve_prompt id o).
Proof. unfold resolve_prompt. apply sparing_change. intros e. by destruct (resolve _ _ _). Qed.
#[local] Hint Resolve sparing_update_egress_all sparing_set_turn_open sparing_decline_host sparing_resolve_prompt : sparing.

(** The approval is no key a client may write. *)
Lemma client_keys_spare key : is_client_project_key key = true -> key <> APPROVED_EGRESS_KEY.
Proof. intros Hk ->. vm_compute in Hk. discriminate. Qed.

Lemma sparing_set_project_setting p k v : sparing (set_project_setting_impl p k v).
Proof.
  unfold set_project_setting_impl. destruct (is_client_project_key k) eqn:Ek; [|apply sparing_err]. cbn [negb].
  apply client_keys_spare in Ek. destruct (String.eqb k ICON_SOURCE_KEY); [apply sparing_err|].
  apply sparing_bind; [apply sparing_lift|]. intros m. apply sparing_bind.
  - apply sparing_on_db. destruct (match m with Some _ => _ | None => v end); [by apply spares_upsert|by apply spares_delete].
  - intros _. sparing_all.
Qed.
#[local] Hint Resolve sparing_set_project_setting : sparing.

Lemma sparing_allow p pattern : sparing (box_egress_allow_impl p pattern).
Proof. unfold box_egress_allow_impl. sparing_all. Qed.

Lemma sparing_global d : sparing (set_box_egress_global_impl d).
Proof. unfold set_box_egress_global_impl. sparing_all. Qed.
#[local] Hint Resolve sparing_allow sparing_global : sparing.

Lemma sparing_answer id a : sparing (box_egress_answer_impl id a).
Proof. unfold box_egress_answer_impl. sparing_all. Qed.

Lemma sparing_open_turn agent open : sparing (box_egress_open_turn_impl agent open).
Proof. unfold box_egress_open_turn_impl. sparing_all. Qed.

Lemma sparing_turn_ended agent : sparing (turn_ended agent).
Proof. unfold turn_ended. sparing_all. Qed.

Lemma sparing_set_box_setting k v : sparing (set_box_setting_impl k v).
Proof. unfold set_box_setting_impl. sparing_all. Qed.
End Quiet.

(** ** What was granted *)

Section Grants.
Context `{World0 : World} `{Json0 : JsonStrings} `{Json1 : DeltaJson} `{Json2 : JsonText} `{Disk0 : Disk} `{Root0 : Checkouts}.

(** [G project_id host]: granted by the user for the project. *)
Section Invariant.
Context (lawful : json_lawful) (G : string -> string -> Prop).

Record granted (h : Host) : Prop := {
  gr_rows : forall p x, x ∈ approved_row (ho_engine h) p -> G p x;
  gr_entries : forall p f x, ho_state h !! p = Some f -> x ∈ fe_approved f -> G p x;
  gr_layers : forall p, en_files (ho_engine h) !! p = delta_of <$> ho_state h !! p;
}.

Lemma granted_engine e h : granted h -> same_grants (ho_engine h) e -> granted (with_engine e h).
Proof.
  intros [Hr He Hl] [Hf Hd]. split; cbn.
  - intros p x. unfold approved_row. rewrite Hd. apply Hr.
  - exact He.
  - intros p. rewrite Hf. apply Hl.
Qed.

Lemma keeps_on_engine {A} (m : M Engine A) : sparing m -> preserves granted (on_engine m).
Proof.
  intros Hm c Hc. unfold on_engine. specialize (Hm (Build_Conn (ho_engine (c_db c)) (c_tick c))).
  destruct (m _) as [r c']. by apply granted_engine.
Qed.

Lemma reads_io {A} (f : nat -> A) : reads (io f).
Proof. by intros c. Qed.

Lemma reads_look_host {A} (f : Host -> A) : reads (look_host f).
Proof. by intros c. Qed.

Lemma on_engine_id {A} (m : M Engine A) : reads m -> reads (on_engine m).
Proof.
  intros Hm c. unfold on_engine. specialize (Hm (Build_Conn (ho_engine (c_db c)) (c_tick c))). destruct (m _) as [r c'].
  cbn in *. rewrite Hm. by destruct (c_db c).
Qed.

Lemma reads_on_host_db {A} (m : M Db A) : reads m -> reads (on_host_db m).
Proof.
  intros Hm. apply on_engine_id. intros c. unfold on_db. specialize (Hm (Build_Conn (en_db (c_db c)) (c_tick c))).
  destruct (m _) as [r c']. cbn in *. rewrite Hm. by destruct (c_db c).
Qed.

Lemma reads_for_each {A B} (f : A -> M Host B) l : (forall x, reads (f x)) -> reads (for_each f l).
Proof.
  intros Hf. induction l as [|x l IH]; [apply reads_ret|]. cbn [for_each].
  apply reads_bind; [done|]. intros y. apply reads_bind; [done|]. intros ys. apply reads_ret.
Qed.

Lemma reads_stamp repo : reads (stamp repo).
Proof. unfold stamp. apply reads_for_each. intros p. unfold stamp_one. apply reads_bind; [apply reads_io|intros ?; apply reads_ret]. Qed.

Lemma reads_read_one read shown path : reads (read_one read shown path).
Proof.
  unfold read_one. apply reads_bind; [apply reads_io|]. intros [m|e]; [|apply reads_ret].
  destruct (negb _); [apply reads_ret|]. destruct (_ <? _)%N; [apply reads_ret|].
  apply reads_bind; [apply reads_io|intros ?; apply reads_ret].
Qed.

Lemma reads_read_files repo root : reads (read_files repo root).
Proof.
  unfold read_files. apply reads_bind.
  - destruct root as [root|]; [|apply reads_ret]. unfold canonical.
    repeat (apply reads_bind; [repeat first [apply reads_io|apply reads_ret|apply reads_bind; [|intros ?] ]|intros ?]). apply reads_ret.
  - intros []; [apply reads_ret|]. cbn [foldl file_paths fmap list_fmap].
    repeat first [apply reads_ret|apply reads_read_one|apply reads_bind; [|intros ?] ].
Qed.

Lemma reads_load_approved p : reads (load_approved p).
Proof.
  unfold load_approved. apply reads_bind; [apply reads_attempt_ok, reads_on_host_db, reads_query|intros ?; apply reads_ret].
Qed.

Lemma reads_exclude_file repo : reads (exclude_file repo).
Proof.
  unfold exclude_file. apply reads_bind; [apply reads_io|]. intros b. apply reads_bind; [|intros ?; apply reads_ret].
  destruct b; [apply reads_ret|]. apply reads_bind; [apply reads_io|]. intros [t|]; [|apply reads_ret].
  destruct (gitdir_of t); [|apply reads_ret]. apply reads_bind; [apply reads_io|intros ?; apply reads_ret].
Qed.

(** What [load_approved] finds was granted. *)
Lemma triple_load_approved p :
  triple granted (load_approved p) (fun l h => granted h /\ forall x, x ∈ l -> G p x) granted.
Proof.
  intros c Hc. unfold load_approved, bind, attempt_ok, on_host_db, on_engine, on_db, query, sql. cbn.
  destruct (w_fault (c_tick c)); cbn.
  - split; [|by intros x ?%elem_of_nil]. by destruct (c_db c) as [[] ? ?].
  - split; [by destruct (c_db c) as [[] ? ?]|]. intros x Hx. by apply (gr_rows _ Hc).
Qed.

Lemma triple_store p entry : (forall x, x ∈ fe_approved entry -> G p x) ->
  triple granted (store p entry) (fun _ => granted) granted.
Proof.
  intros Ha c [Hr He Hl]. cbn. split; cbn.
  - exact Hr.
  - intros q f x. destruct (decide (q = p)) as [->|Hne]; [rewrite lookup_insert_eq; intros [= <-]; apply Ha|].
    rewrite lookup_insert_ne by done. apply He.
  - intros q. destruct (decide (q = p)) as [->|Hne]; [by rewrite !lookup_insert_eq|]. rewrite !lookup_insert_ne by done. apply Hl.
Qed.

Lemma triple_store_approved p l : (forall x, x ∈ l -> G p x) ->
  triple granted (store_approved p l) (fun _ => granted) granted.
Proof.
  intros Ha c [Hr He Hl]. unfold store_approved, on_host_db, on_engine, on_db, upsert_project_setting, sql. cbn.
  destruct (w_fault (c_tick c)); cbn; [by split|]. destruct (is_some _); cbn; [|by split]. split; cbn; [|done..].
  intros q x. unfold approved_row. cbn. destruct (decide (q = p)) as [->|Hne].
  - rewrite lookup_insert_eq. cbn. rewrite lawful. apply Ha.
  - rewrite lookup_insert_ne by congruence. apply Hr.
Qed.

(** A step that only looks, before the rest. *)
Lemma triple_read_bind {A B} (m : M Host A) (k : A -> M Host B) Q :
  reads m -> (forall a, triple granted (k a) Q granted) -> triple granted (bind m k) Q granted.
Proof. intros Hm Hk. eapply triple_bind; [by apply triple_reads|exact Hk]. Qed.

Lemma triple_refresh p : triple granted (refresh p) (fun _ => granted) granted.
Proof.
  unfold refresh. apply triple_read_bind; [apply reads_on_host_db, primary_repo_path_reads|]. intros repo.
  apply triple_read_bind; [destruct repo; [apply reads_read_files|apply reads_ret]|]. intros read.
  apply triple_read_bind; [destruct repo; [apply reads_stamp|apply reads_ret]|]. intros at_.
  eapply triple_bind; [apply triple_load_approved|]. intros approved. apply triple_pure. intros Ha.
  eapply triple_bind; [by apply triple_store|]. intros [changed applied_changed]. eapply (triple_bind _ _ _ (fun _ => granted)).
  - destruct applied_changed; [apply triple_preserves, keeps_on_engine, sparing_update_egress|by apply triple_ret].
  - intros _. by apply triple_ret.
Qed.

Lemma approving_grants offered l patterns l' x : approving offered l patterns = Ok l' -> x ∈ l' -> x ∈ l \/ names patterns x.
Proof.
  revert l. induction patterns as [|pattern patterns IH]; cbn [approving]; intros l; [intros [= ->]; by left|].
  destruct (spelled pattern) as [s|] eqn:Es; [|done]. destruct (offered s); [|done]. intros Hl Hx. rewrite names_cons, Es.
  destruct (IH _ Hl Hx) as [[?| ->]%elem_of_push|?]; auto.
Qed.

Lemma triple_grant p patterns offered l {A} (k : () -> M Host A) Q :
  (forall x, x ∈ l -> G p x) -> (forall x, names patterns x -> G p x) -> (forall u, triple granted (k u) Q granted) ->
  triple granted (let* approved := lift (approving offered l patterns) in bind (store_approved p approved) k) Q granted.
Proof.
  intros Hl Hn Hk. eapply (triple_bind _ _ _ (fun l' h => granted h /\ forall x, x ∈ l' -> G p x)).
  - apply triple_lift; [|done]. intros l' h E Hh. split; [done|]. intros x Hx. destruct (approving_grants _ _ _ _ _ E Hx); auto.
  - intros l'. apply triple_pure. intros Hl'. eapply triple_bind; [by apply triple_store_approved|exact Hk].
Qed.

Lemma triple_refreshed {A} p (f : ProjectFileStatus -> bool -> A) :
  triple granted (let* (s, changed) := refresh p in ret (f s changed)) (fun _ => granted) granted.
Proof. eapply triple_bind; [apply triple_refresh|]. intros []. by apply triple_ret. Qed.

Lemma triple_approve p patterns : (forall x, names patterns x -> G p x) ->
  triple granted (approve p patterns) (fun _ => granted) granted.
Proof.
  intros Hn. unfold approve. eapply triple_bind; [apply triple_refresh|]. intros [current _].
  eapply triple_bind; [apply triple_load_approved|]. intros l. apply triple_pure. intros Hl.
  apply triple_grant; [done..|]. intros _. apply (triple_refreshed p (fun s _ => s)).
Qed.

Lemma keeps_fs_write path text : preserves granted (fs_write path text).
Proof. apply preserves_execute. by intros h [Hr He Hl]. Qed.

Lemma keeps_create_dir path : preserves granted (create_dir_all path).
Proof. by apply preserves_execute. Qed.

Lemma keeps_exclude repo : preserves granted (exclude_local_file repo).
Proof.
  unfold exclude_local_file. apply preserves_bind; [apply preserves_reads, reads_exclude_file|]. intros [path|]; [|apply preserves_ret].
  apply preserves_bind; [apply preserves_reads, reads_io|]. intros t. destruct (excluded _); [|apply preserves_ret].
  apply preserves_bind; [apply keeps_create_dir|]. intros _. apply keeps_fs_write.
Qed.

Lemma triple_edit p which e : (forall x, names (allow_add e) x -> G p x) ->
  triple granted (edit p which e) (fun _ => granted) granted.
Proof.
  intros Hn. unfold edit. apply triple_read_bind; [apply reads_on_host_db, primary_repo_path_reads|]. intros o.
  apply triple_read_bind; [apply reads_require_some|]. intros repo.
  apply triple_read_bind; [apply reads_read_files|]. intros read.
  apply triple_read_bind; [destruct (rd_error read); [apply reads_err|apply reads_ret]|]. intros _.
  apply triple_read_bind; [apply reads_io|]. intros t. apply triple_read_bind; [apply reads_lift|]. intros current.
  apply triple_read_bind; [apply reads_lift|]. intros text.
  eapply triple_bind; [apply triple_preserves, keeps_create_dir|]. intros ?.
  eapply triple_bind; [apply triple_preserves, keeps_fs_write|]. intros ?.
  eapply (triple_bind _ _ _ (fun _ => granted)).
  { apply triple_preserves. destruct which; [apply preserves_ret|]. apply preserves_bind; [|intros _; apply preserves_ret].
    apply preserves_attempt, keeps_exclude. }
  intros ?. eapply triple_bind; [apply triple_load_approved|]. intros l. apply triple_pure. intros Hl.
  apply triple_grant; [done..|]. intros _. apply (triple_refreshed p (fun s _ => s)).
Qed.

Lemma keeps_refreshed {A} p (f : ProjectFileStatus -> bool -> A) :
  preserves granted (let* (s, changed) := refresh p in ret (f s changed)).
Proof. apply triple_preserved, triple_refreshed. Qed.

Lemma keeps_watch_pass : preserves granted watch_pass.
Proof.
  unfold watch_pass, project_ids. apply preserves_bind.
  - apply preserves_reads, reads_bind; [apply reads_attempt_ok, reads_on_host_db, reads_query|intros ?; apply reads_ret].
  - intros ids. apply preserves_bind; [|intros ?; apply preserves_ret]. apply preserves_for_each. intros p. unfold watch_one.
    apply preserves_bind; [|intros []; [apply (keeps_refreshed p (fun _ changed => if changed : bool then [TellProjectFile p] else []))|apply preserves_ret] ].
    apply preserves_reads. unfold moved. apply reads_bind; [apply reads_look_host|]. intros [f|]; [|apply reads_ret].
    apply reads_bind; [destruct (fe_repo_path f); [apply reads_stamp|apply reads_ret]|intros ?; apply reads_ret].
Qed.

Lemma keeps_seed : preserves granted seed.
Proof.
  unfold seed, project_ids. apply preserves_bind.
  - apply preserves_reads, reads_bind; [apply reads_attempt_ok, reads_on_host_db, reads_query|intros ?; apply reads_ret].
  - intros ids. apply preserves_bind; [|intros ?; apply preserves_ret]. apply preserves_for_each. intros p.
    apply triple_preserved, triple_refresh.
Qed.
End Invariant.

(** ** Every operation *)

Inductive HostOp :=
| OpStatus (project_id : string)
| OpApprove (project_id : string) (patterns : list string)
| OpEdit (project_id : string) (which : Which) (e : Edit)
| OpOverview (project_id : string)
| OpSeed
| OpWatch
| OpSetProject (project_id key : string) (value : option string)
| OpAllow (project_id pattern : string)
| OpGlobal (d : Delta)
| OpAnswer (id : string) (a : EgressAnswer)
| OpOpenTurn (agent_id : string) (open : bool)
| OpTurnEnded (agent_id : string)
| OpSetBox (key : string) (value : option string).

Definition forget {A} (m : M Host A) : M Host () := let* _ := m in ret tt.

Definition run_host (op : HostOp) : M Host () :=
  match op with
  | OpStatus p => forget (project_file_status_impl p)
  | OpApprove p patterns => forget (project_file_approve_impl p patterns)
  | OpEdit p which e => forget (project_file_edit_impl p which e)
  | OpOverview p => forget (box_egress_overview_impl p)
  | OpSeed => ProjectFile.seed
  | OpWatch => forget watch_pass
  | OpSetProject p key value => forget (on_engine (set_project_setting_impl p key value))
  | OpAllow p pattern => forget (on_engine (box_egress_allow_impl p pattern))
  | OpGlobal d => forget (on_engine (set_box_egress_global_impl d))
  | OpAnswer id a => forget (on_engine (box_egress_answer_impl id a))
  | OpOpenTurn agent open => forget (on_engine (box_egress_open_turn_impl agent open))
  | OpTurnEnded agent => forget (on_engine (turn_ended agent))
  | OpSetBox key value => forget (on_engine (set_box_setting_impl key value))
  end.

(** The user's own acts: an approval, and an addition made in the app. *)
Definition grants (op : HostOp) (project_id host : string) : Prop :=
  match op with
  | OpApprove p patterns => p = project_id /\ names patterns host
  | OpEdit p _ e => p = project_id /\ names (allow_add e) host
  | _ => False
  end.

(** A run from the engine's start, with what was granted in it: the approvals the database came with,
    and each grant since. [HrElse] is the rest of the engine, which has no statement of the approvals. *)
Inductive host_run : (string -> string -> Prop) -> Sql.Conn Host -> Prop :=
| HrStart c : en_files (ho_engine (c_db c)) = ∅ -> ho_state (c_db c) = ∅ ->
    host_run (fun p x => x ∈ approved_row (ho_engine (c_db c)) p) c
| HrOp G c op : host_run G c -> host_run (fun p x => G p x \/ grants op p x) (run_host op c).2
| HrElse G c e t : host_run G c -> same_grants (ho_engine (c_db c)) e ->
    host_run G (Build_Conn (with_engine e (c_db c)) t).

Lemma granted_mono (G G' : string -> string -> Prop) h : (forall p x, G p x -> G' p x) -> granted G h -> granted G' h.
Proof. intros HG [Hr He Hl]. split; [by eauto..|done]. Qed.

Lemma keeps_forget {A} G (m : M Host A) : preserves (granted G) m -> preserves (granted G) (forget m).
Proof. intros Hm. apply preserves_bind; [done|]. intros ?. apply preserves_ret. Qed.

Lemma keeps_then {A B} G (m : M Host A) (f : A -> B) : triple (granted G) m (fun _ => granted G) (granted G) ->
  preserves (granted G) (forget (let* a := m in ret (f a))).
Proof. intros Hm. apply keeps_forget, preserves_bind; [by apply triple_preserved|]. intros ?. apply preserves_ret. Qed.

Lemma run_host_granted (lawful : json_lawful) G op : (forall p x, grants op p x -> G p x) -> preserves (granted G) (run_host op).
Proof.
  intros HG. destruct op; cbn [run_host grants] in *; try (apply keeps_forget, keeps_on_engine).
  - apply keeps_forget, (keeps_refreshed G project_id (fun s changed => (s, if changed : bool then [TellProjectFile project_id] else []))).
  - apply (keeps_then G _ (fun s => (s, [TellProjectFile project_id]))), triple_approve; [done|]. intros x Hx. by apply HG.
  - apply (keeps_then G _ (fun s => (s, [TellProjectFile project_id]))), triple_edit; [done|]. intros x Hx. by apply HG.
  - apply keeps_forget. unfold box_egress_overview_impl. apply preserves_bind; [apply triple_preserved, triple_refresh|].
    intros []. apply preserves_bind; [apply preserves_reads, reads_look_host|]. intros ?. apply preserves_ret.
  - apply keeps_seed.
  - apply keeps_forget, keeps_watch_pass.
  - apply sparing_set_project_setting.
  - apply sparing_allow.
  - apply sparing_global.
  - apply sparing_answer.
  - apply sparing_open_turn.
  - apply sparing_turn_ended.
  - apply sparing_set_box_setting.
Qed.

Lemma host_run_granted (lawful : json_lawful) G c : host_run G c -> granted G (c_db c).
Proof.
  induction 1 as [c Hf Hs|G c op _ IH|G c e t _ IH He].
  - split; [done| |].
    + intros p f x. by rewrite Hs, lookup_empty.
    + intros p. by rewrite Hf, Hs, !lookup_empty.
  - apply (run_host_granted lawful (fun p x => G p x \/ grants op p x)); [by right|]. eapply granted_mono; [|exact IH]. by left.
  - by apply granted_engine.
Qed.

(** (C12) Whatever the disk, the clients, the boxes and the failures of a run: a host the settings files add
    for a project's boxes is one its user granted for that project, by approving it or by adding it
    there in the app, and is one the files held when they were last read. *)
Theorem file_hosts_were_granted (lawful : json_lawful) G c p host :
  host_run G c -> host ∈ add (file_delta (ho_engine (c_db c)) p) ->
  G p host /\ exists f, ho_state (c_db c) !! p = Some f /\ host ∈ rd_allow (fe_read f).
Proof.
  intros Hr Hin. destruct (host_run_granted lawful G c Hr) as [_ He Hl]. unfold file_delta in Hin. rewrite Hl in Hin.
  destruct (ho_state (c_db c) !! p) as [f|] eqn:Ef; cbn in Hin; [|by apply elem_of_nil in Hin].
  apply elem_of_lfilter in Hin as [Hin Ha]. split; [|by exists f]. apply (He _ _ _ Ef). by apply lcontains_true.
Qed.

(** ** An agent's checkout is never read *)

(** A repository that resolves to a place under the agents' root says nothing, whatever its files hold:
    they are not looked at. *)
Theorem agents_checkout_is_not_read repo root c :
  path_starts_with (default repo (canonicalize (c_tick c) repo)) (default root (canonicalize (S (c_tick c)) root)) = true ->
  exists fs, (read_files repo (Some root) c).1 = Ok fs /\ rd_allow fs = [] /\ rd_disable fs = [] /\ is_some (rd_error fs) = true /\
    c_tick (read_files repo (Some root) c).2 = S (S (c_tick c)).
Proof.
  intros Hin. unfold read_files, canonical, io, bind, ret. cbn. cbn in Hin. rewrite Hin. cbn.
  eexists. split_and!; reflexivity.
Qed.
End Grants.

(** ** The exclude file *)

Lemma finish_lines_last l x : x <> "" -> strip_cr x ∈ finish_lines (l ++ [x; ""]).
Proof.
  intros Hx. induction l as [|y l IH]; cbn [app finish_lines]; [by left|].
  destruct (l ++ [x; ""]) as [|z zs] eqn:E; [by destruct l|]. by right.
Qed.

Lemma excluded_pieces current : exists l,
  split_on newline_byte (current +:+ (if is_empty current || ends_with newline current then "" else newline) +:+ exclude_line +:+ newline)
  = l ++ [exclude_line; ""].
Proof.
  assert (split_on newline_byte (exclude_line +:+ newline) = [exclude_line; ""]) as E by (vm_compute; reflexivity).
  destruct current as [|b current]; [by exists []|]. cbn [is_empty orb]. set (s := String b current).
  destruct (ends_with newline s) eqn:En.
  - apply ends_with_true in En as [r ->]. exists (split_on newline_byte r).
    rewrite orb_true_r, <-E, <-append_assoc. exact (split_on_app_all newline_byte r (exclude_line +:+ newline)).
  - change (is_empty s) with false. exists (split_on newline_byte s). rewrite <-E. exact (split_on_app_all newline_byte s (exclude_line +:+ newline)).
Qed.

(** Once the line is in the exclude file, it is not added again. *)
Theorem excluded_once current text : excluded current = Some text -> excluded text = None.
Proof.
  unfold excluded. destruct (existsb _ (lines current)); [done|]. intros [= <-].
  destruct (excluded_pieces current) as [l E]. unfold lines. rewrite E.
  assert (existsb (fun x => String.eqb (trim x) exclude_line) (finish_lines (l ++ [exclude_line; ""])) = true) as ->; [|done].
  apply existsb_exists. exists (strip_cr exclude_line). split; [by apply list_elem_of_In, finish_lines_last|]. vm_compute. reflexivity.
Qed.

Lemma excluded_once_witness : excluded ("*.log" +:+ newline) = Some ("*.log" +:+ newline +:+ exclude_line +:+ newline) /\
  excluded ("*.log" +:+ newline +:+ exclude_line +:+ newline) = None.
Proof.
  assert (excluded ("*.log" +:+ newline) = Some ("*.log" +:+ newline +:+ exclude_line +:+ newline)) as H by (vm_compute; reflexivity).
  split; [exact H|]. exact (excluded_once _ _ H).
Defined.

(** ** A disk that changes under a refresh *)

Definition file_text (o : Object) : string := @to_string_pretty coded_text (JObject o) +:+ newline.

(** The team's file, before and after a merge that turns a host off. *)
Definition before_merge : string := file_text [("egress", JObject [("allow", JArray [JString "a.com"])])].
Definition after_merge : string :=
  file_text [("egress", JObject [("allow", JArray [JString "a.com"]); ("disable", JArray [JString "github.com"])])].

(** The merge lands at [at_]. *)
Definition merging (at_ : nat) : Disk := {|
  metadata t path :=
    if String.eqb path "/r/.fletch/settings.json"
    then Ok (if (t <? at_)%nat then mkMeta true 100 (Some 1%Z) else mkMeta true 200 (Some 2%Z))
    else Err (mkIoError true "not found");
  read_to_string t path :=
    if String.eqb path "/r/.fletch/settings.json" then Ok (if (t <? at_)%nat then before_merge else after_merge)
    else Err (mkIoError true "not found");
  canonicalize t path := None;
  path_is_dir t path := false;
|}.

Definition demo_db : Db := {|
  db_projects := {["p" := "Proj"]}; db_project_settings := ∅; db_settings := ∅; db_workspaces := ∅;
  db_autopilot_log := []; db_items := []; db_events := []; db_project_holds := ∅; db_proposals := []; db_orders := ∅;
  db_runs := []; db_definitions := ∅;
  db_repos := [{| repo_project_id := "p"; repo_path := "/r"; repo_created_at := 0 |}];
|}.

Definition demo_host : Host :=
  mkHost (mkEngine demo_db (mkMirror default_settings ∅ ∅ no_delta) ∅ {["fuji" := mkBoxEntry "p" true false]} ∅ [] []) ∅ [].

Definition demo_run (at_ : nat) (op : HostOp) (c : Sql.Conn Host) : Sql.Conn Host :=
  (@run_host (calm_world show_nat) coded_json demo_delta_json coded_text (merging at_) None op c).2.

Definition demo_granted : Sql.Conn Host := demo_run 100 (OpApprove "p" ["A.com"]) (Build_Conn demo_host 0).

Lemma file_hosts_were_granted_witness :
  (add (file_delta (ho_engine (c_db demo_granted)) "p") = ["a.com"]) /\ names ["A.com"] "a.com".
Proof.
  assert (add (file_delta (ho_engine (c_db demo_granted)) "p") = ["a.com"]) as E by (vm_compute; reflexivity).
  split; [exact E|].
  assert ("a.com" ∈ add (file_delta (ho_engine (c_db demo_granted)) "p")) as Hin by (rewrite E; by left).
  assert (@host_run (calm_world show_nat) coded_json demo_delta_json coded_text (merging 100) None
    (fun p x => (x ∈ @approved_row coded_json (ho_engine demo_host) p) \/ grants (OpApprove "p" ["A.com"]) p x) demo_granted) as Hr.
  { apply (@HrOp (calm_world show_nat) coded_json demo_delta_json coded_text (merging 100) None
      (fun p x => x ∈ @approved_row coded_json (ho_engine demo_host) p) (Build_Conn demo_host 0)).
    by apply (@HrStart (calm_world show_nat) coded_json demo_delta_json coded_text (merging 100) None (Build_Conn demo_host 0)). }
  destruct (@file_hosts_were_granted (calm_world show_nat) coded_json demo_delta_json coded_text (merging 100) None
    coded_json_lawful _ _ "p" "a.com" Hr Hin) as [ [Hn|[_ Hn] ] _]; [|exact Hn].
  assert (@approved_row coded_json (ho_engine demo_host) "p" = []) as E0 by (vm_compute; reflexivity).
  rewrite E0 in Hn. exfalso. exact (proj1 (elem_of_nil _) Hn).
Defined.

Lemma agents_checkout_is_not_read_witness :
  exists fs, (@read_files coded_text (merging 0) "/agents/fuji/r" (Some "/agents") (Build_Conn demo_host 0)).1 = Ok fs /\ rd_allow fs = [].
Proof.
  destruct (@agents_checkout_is_not_read coded_text (merging 0) "/agents/fuji/r" "/agents" (Build_Conn demo_host 0)) as (fs & Hr & Ha & _);
    [vm_compute; reflexivity|]. by exists fs.
Defined.

(** [refresh] reads the files before it takes the stamp the watch compares with. A merge that lands in
    between leaves the old contents under the new stamp: no look of the watch reads the files again, and
    the boxes keep a host the file turns off. *)
Definition missed : Host := c_db (demo_run 4 (OpStatus "p") (Build_Conn demo_host 0)).

Theorem watch_misses_a_change :
  file_delta (ho_engine missed) "p" = no_delta /\
  (forall t, (4 <= t)%nat ->
     @moved (merging 4) "p" (Build_Conn missed t) = (Ok false, Build_Conn missed (S (S t)))) /\
  file_delta (ho_engine (c_db (demo_run 4 (OpStatus "p") (Build_Conn missed 10)))) "p" = mkDelta [] ["github.com"].
Proof.
  split; [vm_compute; reflexivity|]. split; [|vm_compute; reflexivity]. intros t Ht.
  assert (ho_state missed !! "p" = Some (mkFileEntry (Some "/r")
    (mkFiles None [mkFileReport ".fletch/settings.json" true None [] ["a.com"] []; mkFileReport ".fletch/settings.local.json" false None [] [] []]
       ["a.com"] []) [] [Some (200%N, 2%Z); None])) as E by (vm_compute; reflexivity).
  unfold moved, bind, look_host. cbn [c_db]. rewrite E. cbn [fe_repo_path fe_stamp].
  assert ((t <? 4)%nat = false) as Hlt by (apply Nat.ltb_ge; lia).
  unfold stamp, stamp_one, io, bind, ret. cbn -[Nat.ltb]. rewrite Hlt. reflexivity.
Qed.
