(* ===== verification/Ere.v ===== *)
(** * Extended regular expressions

    The notation the seatbelt profiles write their [regex] filters in: a reader of the POSIX syntax
    the source uses, a matcher by derivatives, the language of an expression and that the two agree.
    The sandbox itself is outside the repository; these definitions state what a profile asks of it. *)

From Stdlib Require Import Ascii.
From S2P Require Import Prelude RustStr.

Local Open Scope string_scope.
Local Open Scope list_scope.

(** ** Expressions *)

Inductive re :=
| Void
| Eps
| Chr (c : ascii)
| Any
| Class (neg : bool) (ranges : list (ascii * ascii))
| Bol
| Eol
| Cat (r1 r2 : re)
| Alt (r1 r2 : re)
| Rep (r : re).

Definition in_range (c : ascii) (r : ascii * ascii) : bool :=
  (N_of_ascii r.1 <=? N_of_ascii c)%N && (N_of_ascii c <=? N_of_ascii r.2)%N.

Definition in_class (neg : bool) (ranges : list (ascii * ascii)) (c : ascii) : bool :=
  xorb neg (existsb (in_range c) ranges).

(** ** What an expression matches

    [den r b s e]: [r] matches [s] where [b] says that [s] starts the subject and [e] that it ends
    it, which is what [^] and [$] ask. *)
Inductive den : re -> bool -> string -> bool -> Prop :=
| den_eps b e : den Eps b "" e
| den_chr b c e : den (Chr c) b (String c "") e
| den_any b c e : den Any b (String c "") e
| den_class b neg ranges c e : in_class neg ranges c = true -> den (Class neg ranges) b (String c "") e
| den_bol e : den Bol true "" e
| den_eol b : den Eol b "" true
| den_cat r1 r2 b s1 s2 e :
    den r1 b s1 (e && is_empty s2) -> den r2 (b && is_empty s1) s2 e ->
    den (Cat r1 r2) b (s1 +:+ s2) e
| den_alt_l r1 r2 b s e : den r1 b s e -> den (Alt r1 r2) b s e
| den_alt_r r1 r2 b s e : den r2 b s e -> den (Alt r1 r2) b s e
| den_rep_nil r b e : den (Rep r) b "" e
| den_rep_cons r b s1 s2 e :
    s1 <> "" -> den r b s1 (e && is_empty s2) -> den (Rep r) false s2 e ->
    den (Rep r) b (s1 +:+ s2) e.

(** A search: some part of the subject matches. *)
Definition found (r : re) (s : string) : Prop :=
  exists pre mid post, s = pre +:+ mid +:+ post /\ den r (is_empty pre) mid (is_empty post).

(** ** The matcher *)

Fixpoint nullable (b e : bool) (r : re) : bool :=
  match r with
  | Eps | Rep _ => true
  | Bol => b
  | Eol => e
  | Cat r1 r2 => nullable b e r1 && nullable b e r2
  | Alt r1 r2 => nullable b e r1 || nullable b e r2
  | Void | Chr _ | Any | Class _ _ => false
  end.

(** [Cat] and [Alt], dropping what cannot match. *)
Definition cat (r1 r2 : re) : re :=
  match r1 with Void => Void | Eps => r2 | _ => Cat r1 r2 end.

Definition alt (r1 r2 : re) : re :=
  match r1, r2 with Void, _ => r2 | _, Void => r1 | _, _ => Alt r1 r2 end.

Fixpoint deriv (c : ascii) (b : bool) (r : re) : re :=
  match r with
  | Void | Eps | Bol | Eol => Void
  | Chr d => if Ascii.eqb d c then Eps else Void
  | Any => Eps
  | Class neg ranges => if in_class neg ranges c then Eps else Void
  | Cat r1 r2 =>
      alt (cat (deriv c b r1) r2) (if nullable b false r1 then deriv c b r2 else Void)
  | Alt r1 r2 => alt (deriv c b r1) (deriv c b r2)
  | Rep r => cat (deriv c b r) (Rep r)
  end.

(** Whether [r] matches some prefix of [s]. *)
Fixpoint prefix_match (b : bool) (r : re) (s : string) : bool :=
  match s with
  | EmptyString => nullable b true r
  | String c s => nullable b false r || prefix_match false (deriv c b r) s
  end.

Fixpoint search (b : bool) (r : re) (s : string) : bool :=
  prefix_match b r s ||
  match s with
  | EmptyString => false
  | String _ s => search false r s
  end.

Definition matches (r : re) (s : string) : bool := search true r s.

(** ** The reader

    One step per byte: the expression so far is a stack of open groups, each the alternatives it has
    finished and the items of the one being read, last first. *)

Inductive Mode :=
| Normal
| Escaped
| InClass (opened : bool) (neg : bool) (read : list ascii).

Definition Group : Type := list re * list re.

Definition metachars : list ascii :=
  ["\"; "^"; "$"; "."; "|"; "?"; "*"; "+"; "("; ")"; "["; "]"; "{"; "}"]%char.

Definition is_meta (c : ascii) : bool := existsb (Ascii.eqb c) metachars.

Definition cat_all (items : list re) : re := foldl (fun acc r => Cat r acc) Eps items.

(** The items of one alternative, last first, as an expression; and a finished group. *)
Definition close_group (g : Group) : re :=
  foldl (fun acc r => Alt r acc) (cat_all g.2) g.1.

(** The ranges of a bracket expression, read last first. *)
Fixpoint ranges_of (fuel : nat) (read : list ascii) : list (ascii * ascii) :=
  match fuel, read with
  | S fuel, a :: "-"%char :: b :: read => (b, a) :: ranges_of fuel read
  | S fuel, a :: read => (a, a) :: ranges_of fuel read
  | _, _ => []
  end.

Definition push_item (r : re) (gs : list Group) : option (Mode * list Group) :=
  match gs with
  | (alts, items) :: gs => Some (Normal, (alts, r :: items) :: gs)
  | [] => None
  end.

(** A postfix operator applies to the item before it. *)
Definition postfix (f : re -> re) (gs : list Group) : option (Mode * list Group) :=
  match gs with
  | (alts, r :: items) :: gs => Some (Normal, (alts, f r :: items) :: gs)
  | _ => None
  end.

Definition step_normal (c : ascii) (gs : list Group) : option (Mode * list Group) :=
  match c with
  | "\"%char => Some (Escaped, gs)
  | "^"%char => push_item Bol gs
  | "$"%char => push_item Eol gs
  | "."%char => push_item Any gs
  | "["%char => Some (InClass true false [], gs)
  | "("%char => Some (Normal, ([], []) :: gs)
  | ")"%char =>
      match gs with
      | g :: ((_ :: _) as gs) => push_item (close_group g) gs
      | _ => None
      end
  | "|"%char =>
      match gs with
      | (alts, items) :: gs => Some (Normal, (cat_all items :: alts, []) :: gs)
      | [] => None
      end
  | "*"%char => postfix Rep gs
  | "+"%char => postfix (fun r => Cat r (Rep r)) gs
  | "?"%char => postfix (fun r => Alt r Eps) gs
  | "]"%char | "{"%char | "}"%char => None
  | c => push_item (Chr c) gs
  end.

Definition step (st : Mode * list Group) (c : ascii) : option (Mode * list Group) :=
  match st.1 with
  | Normal => step_normal c st.2
  | Escaped => if is_meta c then push_item (Chr c) st.2 else None
  | InClass opened neg read =>
      if Ascii.eqb c "]" && match read with [] => false | _ => true end then push_item (Class neg (ranges_of (length read) read)) st.2
      else if Ascii.eqb c "^" && opened then Some (InClass false true read, st.2)
      else Some (InClass false neg (c :: read), st.2)
  end.

Fixpoint run (st : option (Mode * list Group)) (s : string) : option (Mode * list Group) :=
  match st, s with
  | None, _ => None
  | Some st, EmptyString => Some st
  | Some st, String c s => run (step st c) s
  end.

(** The expression a pattern spells, when it is one of those this file reads. *)
Definition parse (s : string) : option re :=
  match run (Some (Normal, [([], [])])) s with
  | Some (Normal, [g]) => Some (close_group g)
  | _ => None
  end.

(** ** The matcher is right *)

Lemma den_void b s e : ~ den Void b s e.
Proof. intros D. inversion D. Qed.

Lemma den_eps_nil b s e : den Eps b s e <-> s = "".
Proof. split; [by inversion 1|intros ->; constructor]. Qed.

Lemma append_eq_nil s t : s +:+ t = "" <-> s = "" /\ t = "".
Proof. destruct s; cbn; split; [done|by intros [_ ->]|done|by intros [? _]]. Qed.

Lemma nullable_den r b e : nullable b e r = true <-> den r b "" e.
Proof.
  revert b e. induction r as [| | | | | | |r1 IH1 r2 IH2|r1 IH1 r2 IH2|r IH]; intros b e; cbn [nullable];
    try (split; [done|by inversion 1]).
  - split; [constructor|done].
  - split; [intros ->; constructor|by inversion 1].
  - split; [intros ->; constructor|by inversion 1].
  - rewrite andb_true_iff, IH1, IH2. split.
    + intros [D1 D2]. apply (den_cat r1 r2 b "" "" e); by rewrite andb_true_r.
    + inversion 1 as [| | | | | |? ? ? s1 s2 ? D1 D2 E1 E2 E3| | | |].
      apply append_eq_nil in E3 as [-> ->]. by rewrite !andb_true_r in *.
  - rewrite orb_true_iff, IH1, IH2. split; [intros [?|?]; by constructor|inversion 1; auto].
  - split; [constructor|done].
Qed.

Lemma den_cat_eq r1 r2 b s e : den (cat r1 r2) b s e <-> den (Cat r1 r2) b s e.
Proof.
  destruct r1; cbn [cat]; try done.
  - split; [by inversion 1|]. inversion 1; subst. by destruct (den_void b s1 (e && is_empty s2)).
  - split.
    + intros D. apply (den_cat Eps r2 b "" s e); [constructor|by rewrite andb_true_r].
    + inversion 1 as [| | | | | |? ? ? s1 s2 ? D1 D2| | | |]. apply den_eps_nil in D1 as ->.
      by rewrite andb_true_r in D2.
Qed.

Lemma den_alt_eq r1 r2 b s e : den (alt r1 r2) b s e <-> den r1 b s e \/ den r2 b s e.
Proof.
  pose proof (den_void b s e) as NV.
  assert (A : den (Alt r1 r2) b s e <-> den r1 b s e \/ den r2 b s e).
  { split; [inversion 1; auto|intros [?|?]; by constructor]. }
  destruct r1, r2; cbn [alt]; tauto.
Qed.

Lemma den_cat_inv r1 r2 b s e :
  den (Cat r1 r2) b s e <->
  exists s1 s2, s = s1 +:+ s2 /\ den r1 b s1 (e && is_empty s2) /\ den r2 (b && is_empty s1) s2 e.
Proof. split; [inversion 1; subst; eauto|intros (s1 & s2 & -> & D1 & D2); by constructor]. Qed.

(** A nonempty match of a repetition starts with a nonempty match of what is repeated. *)
Lemma den_rep_inv r b c s e :
  den (Rep r) b (String c s) e <->
  exists s1 s2, s = s1 +:+ s2 /\ den r b (String c s1) (e && is_empty s2) /\ den (Rep r) false s2 e.
Proof.
  split.
  - inversion 1 as [| | | | | | | | | |? ? s1 s2 ? NE D1 D2]; subst. destruct s1 as [|c' s1]; [done|].
    match goal with E : _ +:+ _ = String _ _ |- _ => rewrite append_cons in E; injection E as -> <- end.
    by exists s1, s2.
  - intros (s1 & s2 & -> & D1 & D2). by apply (den_rep_cons r b (String c s1) s2 e).
Qed.

Lemma deriv_den c r b s e : den (deriv c b r) false s e <-> den r b (String c s) e.
Proof.
  revert b s e. induction r as [| |d| |neg ranges| | |r1 IH1 r2 IH2|r1 IH1 r2 IH2|r IH]; intros b s e; cbn [deriv].
  - split; by inversion 1.
  - split; by inversion 1.
  - destruct (Ascii.eqb d c) eqn:E.
    + apply Ascii.eqb_eq in E as ->. rewrite den_eps_nil. split; [intros ->; constructor|by inversion 1].
    + split; [by inversion 1|inversion 1; subst; by rewrite Ascii.eqb_refl in E].
  - rewrite den_eps_nil. split; [intros ->; constructor|by inversion 1].
  - destruct (in_class neg ranges c) eqn:E.
    + rewrite den_eps_nil. split; [intros ->; by constructor|by inversion 1].
    + split; [by inversion 1|inversion 1; congruence].
  - split; by inversion 1.
  - split; by inversion 1.
  - rewrite den_alt_eq, den_cat_eq, !den_cat_inv. split.
    + intros [(s1 & s2 & -> & D1 & D2)|D].
      * exists (String c s1), s2. split; [done|]. rewrite <- IH1, andb_false_r. split; [done|]. exact D2.
      * destruct (nullable b false r1) eqn:N; [|by apply den_void in D].
        exists "", (String c s). rewrite andb_false_r, andb_true_r, <- IH2. split_and!; [done| |done].
        by apply nullable_den.
    + intros (s1 & s2 & E & D1 & D2). destruct s1 as [|c' s1]; rewrite ?append_nil, ?append_cons in E; simplify_eq.
      * right. cbn [is_empty] in D1, D2. rewrite andb_false_r in D1. rewrite andb_true_r in D2.
        apply nullable_den in D1 as ->. by apply IH2.
      * left. exists s1, s2. rewrite IH1. cbn in D2. rewrite andb_false_r in D2. done.
  - rewrite den_alt_eq, IH1, IH2. split; [intros [?|?]; by constructor|inversion 1; auto].
  - rewrite den_cat_eq, den_cat_inv, den_rep_inv. by setoid_rewrite IH.
Qed.

Lemma prefix_match_den r b s :
  prefix_match b r s = true <-> exists s1 s2, s = s1 +:+ s2 /\ den r b s1 (is_empty s2).
Proof.
  revert r b. induction s as [|c s IH]; intros r b; cbn [prefix_match].
  - rewrite nullable_den. split; [by exists "", ""|]. intros (s1 & s2 & E & D).
    symmetry in E. by apply append_eq_nil in E as [-> ->].
  - rewrite orb_true_iff, nullable_den, IH. setoid_rewrite deriv_den. split.
    + intros [D|(s1 & s2 & -> & D)]; [by exists "", (String c s)|by exists (String c s1), s2].
    + intros ([|c' s1] & s2 & E & D); rewrite ?append_nil, ?append_cons in E; simplify_eq; [by left|right; eauto].
Qed.

Lemma search_found r b s :
  search b r s = true <->
  exists pre mid post, s = pre +:+ mid +:+ post /\ den r (b && is_empty pre) mid (is_empty post).
Proof.
  revert b. induction s as [|c s IH]; intros b; cbn [search]; rewrite orb_true_iff, prefix_match_den.
  - split.
    + intros [(s1 & s2 & E & D)|]; [|done]. exists "", s1, s2. by rewrite andb_true_r.
    + intros (pre & mid & post & E & D). symmetry in E. apply append_eq_nil in E as [-> E].
      left. exists mid, post. by rewrite andb_true_r in D.
  - rewrite IH. split.
    + intros [(s1 & s2 & E & D)|(pre & mid & post & -> & D)].
      * exists "", s1, s2. by rewrite andb_true_r.
      * exists (String c pre), mid, post. by rewrite andb_false_r.
    + intros ([|c' pre] & mid & post & E & D); rewrite ?append_nil, ?append_cons in E.
      * left. exists mid, post. by rewrite andb_true_r in D.
      * right. simplify_eq. exists pre, mid, post. by rewrite andb_false_r in D.
Qed.

(** The matcher finds an expression exactly where it is. *)
Theorem matches_found r s : matches r s = true <-> found r s.
Proof. apply search_found. Qed.

(** ** Literal text *)

Fixpoint lit (s : string) (r : re) : re :=
  match s with EmptyString => r | String c s => Cat (Chr c) (lit s r) end.

Fixpoint chrs (s : string) : list re :=
  match s with EmptyString => [] | String c s => Chr c :: chrs s end.

Lemma den_lit s r b t e :
  den (lit s r) b t e <-> exists t', t = s +:+ t' /\ den r (b && is_empty s) t' e.
Proof.
  revert b t. induction s as [|c s IH]; intros b t; cbn [lit].
  - split; [exists t; by rewrite andb_true_r|]. intros (t' & -> & D). by rewrite andb_true_r in D.
  - rewrite den_cat_inv. setoid_rewrite IH. rewrite andb_false_r. split.
    + intros (s1 & s2 & -> & D1 & t' & -> & D2). inversion D1; subst. exists t'. cbn [is_empty] in D2.
      by rewrite andb_false_r in D2.
    + intros (t' & -> & D). exists (String c ""), (s +:+ t'). split_and!; [done|constructor|].
      exists t'. by rewrite andb_false_r.
Qed.

Lemma cat_all_lit items s : cat_all (rev (chrs s) ++ items) = foldl (fun acc r => Cat r acc) (lit s Eps) items.
Proof.
  unfold cat_all. rewrite foldl_app. f_equal. generalize Eps. induction s as [|c s IH]; intros r; cbn; [done|].
  by rewrite foldl_app, IH.
Qed.

Lemma cat_all_mid before s after :
  cat_all (after ++ rev (chrs s) ++ before) = foldl (fun acc r => Cat r acc) (lit s (cat_all after)) before.
Proof.
  unfold cat_all. rewrite !foldl_app. f_equal. generalize (foldl (fun acc r => Cat r acc) Eps after).
  induction s as [|c s IH]; intros r; cbn; [done|]. by rewrite foldl_app, IH.
Qed.

Lemma run_None s : run None s = None.
Proof. by destruct s. Qed.

Lemma run_app st s t : run st (s +:+ t) = run (run st s) t.
Proof.
  revert st. induction s as [|c s IH]; intros [st|]; rewrite ?append_nil, ?append_cons; cbn [run]; try done.
  by rewrite run_None.
Qed.
