(* ===== verification/Sbpl.v ===== *)
(** * Sandbox profiles

    The language the macOS sandbox is told its policy in, as far as the profiles of
    [src/crates/fletch-core/src/sandbox/seatbelt.rs] use it: a reader of the text, the rules it
    spells, and the decision they make, the last rule that applies. The sandbox is outside the
    repository: [Sandbox] is its decision, and [SandboxLaw] says it decides by the rules a text
    reads as. Then the source's helpers that write strings and patterns into a profile, and that
    whatever bytes they are given come back as one string or as literal text of a pattern. *)

From Stdlib Require Import Ascii.
From S2P Require Import Prelude RustStr RustText Ere.

Local Open Scope string_scope.
Local Open Scope list_scope.

(** ** Reading a profile *)

Inductive sexp :=
| Sym (s : string)
| Str (s : string)
| List (l : list sexp).

Module Reader.

Inductive Mode :=
| Plain
| InSym (s : string)
| InStr (s : string)
| InStrEsc (s : string)
| Hash
| InRaw (s : string)
| InComment.

(** The forms read so far of each open list, last first, the innermost list first. *)
Definition St : Type := Mode * list (list sexp).

Definition snoc (s : string) (c : ascii) : string := s +:+ String c "".

Definition push (x : sexp) (stack : list (list sexp)) : option (list (list sexp)) :=
  match stack with l :: stack => Some ((x :: l) :: stack) | [] => None end.

Definition pushed (x : sexp) (stack : list (list sexp)) : option St :=
  stack ← push x stack; Some (Plain, stack).

Definition is_blank (c : ascii) : bool :=
  match c with " "%char | "009"%char | "010"%char | "013"%char => true | _ => false end.

Definition plain (c : ascii) (stack : list (list sexp)) : option St :=
  match c with
  | "("%char => Some (Plain, [] :: stack)
  | ")"%char =>
      match stack with
      | l :: ((_ :: _) as stack) => pushed (List (rev l)) stack
      | _ => None
      end
  | ";"%char => Some (InComment, stack)
  | "#"%char => Some (Hash, stack)
  | c =>
      if Ascii.eqb c dq_byte then Some (InStr "", stack)
      else if is_blank c then Some (Plain, stack)
      else Some (InSym (String c ""), stack)
  end.

(** Strings know the escapes of a backslash and of a quote; a raw string knows none and ends at the
    first quote. *)
Definition step (st : St) (c : ascii) : option St :=
  match st with
  | (Plain, stack) => plain c stack
  | (InSym s, stack) =>
      if is_blank c || Ascii.eqb c "(" || Ascii.eqb c ")" || Ascii.eqb c ";" then
        stack ← push (Sym s) stack; plain c stack
      else if Ascii.eqb c dq_byte || Ascii.eqb c "#" then None
      else Some (InSym (snoc s c), stack)
  | (InStr s, stack) =>
      if Ascii.eqb c "\" then Some (InStrEsc s, stack)
      else if Ascii.eqb c dq_byte then pushed (Str s) stack
      else Some (InStr (snoc s c), stack)
  | (InStrEsc s, stack) =>
      if Ascii.eqb c "\" || Ascii.eqb c dq_byte then Some (InStr (snoc s c), stack) else None
  | (Hash, stack) => if Ascii.eqb c dq_byte then Some (InRaw "", stack) else None
  | (InRaw s, stack) =>
      if Ascii.eqb c dq_byte then pushed (Str s) stack else Some (InRaw (snoc s c), stack)
  | (InComment, stack) => if Ascii.eqb c newline_byte then Some (Plain, stack) else Some (InComment, stack)
  end.

Fixpoint run (st : option St) (s : string) : option St :=
  match st, s with
  | None, _ => None
  | Some st, EmptyString => Some st
  | Some st, String c s => run (step st c) s
  end.

Definition read (text : string) : option (list sexp) :=
  match run (Some (Plain, [[]])) text with
  | Some (Plain, [l]) => Some (rev l)
  | _ => None
  end.

End Reader.

(** ** Rules *)

Inductive Filter :=
| Subpath (p : string)
| Literal (p : string)
| Regex (r : re)
| GlobalName (n : string).

(** A rule allows or denies its operations on what one of its filters matches, or on everything when
    it has none. *)
Record Rule := {
  ru_allow : bool;
  ru_ops : list string;
  ru_filters : list Filter;
}.

Definition filter_of (x : sexp) : option Filter :=
  match x with
  | List [Sym kind; Str s] =>
      if String.eqb kind "subpath" then Some (Subpath s)
      else if String.eqb kind "literal" then Some (Literal s)
      else if String.eqb kind "regex" then Regex <$> parse s
      else if String.eqb kind "global-name" then Some (GlobalName s)
      else None
  | _ => None
  end.

(** What follows the action: operation names, then filters. *)
Fixpoint clauses_of (l : list sexp) : option (list string * list Filter) :=
  match l with
  | Sym op :: l => '(ops, fs) ← clauses_of l; Some (op :: ops, fs)
  | l => fs ← mapM filter_of l; Some ([], fs)
  end.

Definition rule_of (x : sexp) : option Rule :=
  match x with
  | List (Sym action :: l) =>
      '(ops, fs) ← clauses_of l;
      if String.eqb action "allow" then Some {| ru_allow := true; ru_ops := ops; ru_filters := fs |}
      else if String.eqb action "deny" then Some {| ru_allow := false; ru_ops := ops; ru_filters := fs |}
      else None
  | _ => None
  end.

(** [(version 1)], then the rules. *)
Definition rules_of (forms : list sexp) : option (list Rule) :=
  match forms with
  | List [Sym v; Sym n] :: forms =>
      if String.eqb v "version" && String.eqb n "1" then mapM rule_of forms else None
  | _ => None
  end.

Definition read_profile (text : string) : option (list Rule) := Reader.read text ≫= rules_of.

(** ** The decision *)

(** [(subpath p)] is [p] and everything beneath it. *)
Definition under (p t : string) : bool :=
  String.eqb p t || starts_with (if ends_with "/" p then p else p +:+ "/") t.

Definition filter_matches (f : Filter) (t : string) : bool :=
  match f with
  | Subpath p => under p t
  | Literal p => String.eqb p t
  | Regex r => matches r t
  | GlobalName n => String.eqb n t
  end.

Definition applies (r : Rule) (op t : string) : bool :=
  (lcontains (ru_ops r) op || lcontains (ru_ops r) "default")
  && (match ru_filters r with [] => true | fs => existsb (fun f => filter_matches f t) fs end).

(** The last rule that applies decides; with none, the operation is denied. *)
Definition decide_rules (rules : list Rule) (op t : string) : bool :=
  foldl (fun acc r => if applies r op t then ru_allow r else acc) false rules.

(** Whether a process confined by a profile may perform an operation on a target. *)
Class Sandbox := permits : string -> string -> string -> bool.

Class SandboxLaw `{Sandbox} := {
  permits_rules text rules op t :
    read_profile text = Some rules -> permits text op t = decide_rules rules op t;
}.

(** ** What the source writes into a profile *)

(** [sbpl_string]. *)
Definition sbpl_string (s : string) : string :=
  dq +:+ replace dq_byte ("\" +:+ dq) (replace "\" "\\" s) +:+ dq.

(** [sbpl_regex_escape]. *)
Fixpoint sbpl_regex_escape (s : string) : string :=
  match s with
  | EmptyString => ""
  | String c s =>
      if is_meta c then String "\" (String c (sbpl_regex_escape s)) else String c (sbpl_regex_escape s)
  end.

(** ** Reading what is written *)

Import Reader.

Lemma rrun_None s : run None s = None.
Proof. by destruct s. Qed.

Lemma rrun_app st s t : run st (s +:+ t) = run (run st s) t.
Proof.
  revert st. induction s as [|c s IH]; intros [st|]; rewrite ?append_nil, ?append_cons; cbn [run]; try done.
  by rewrite rrun_None.
Qed.

Lemma run_cons st c s : run (Some st) (String c s) = run (step st c) s.
Proof. done. Qed.

Lemma snoc_append s c t : snoc s c +:+ t = s +:+ String c t.
Proof. unfold snoc. by rewrite <- append_assoc. Qed.

(** Text that, read between two forms, adds these. *)
Definition reads (text : string) (forms : list sexp) : Prop :=
  forall l stack, run (Some (Plain, l :: stack)) text = Some (Plain, (rev forms ++ l) :: stack).

Lemma reads_nil : reads "" [].
Proof. done. Qed.

Lemma reads_app s1 s2 l1 l2 : reads s1 l1 -> reads s2 l2 -> reads (s1 +:+ s2) (l1 ++ l2).
Proof. intros R1 R2 l stack. by rewrite rrun_app, R1, R2, rev_app_distr, app_assoc. Qed.

Lemma reads_before s1 s2 l : reads s1 [] -> reads s2 l -> reads (s1 +:+ s2) l.
Proof. apply (reads_app s1 s2 [] l). Qed.

Lemma reads_list body l : reads body l -> reads ("(" +:+ body +:+ ")") [List l].
Proof.
  intros R m stack. rewrite rrun_app. cbn [run step plain]. rewrite rrun_app, R. cbn [run step plain].
  cbn. by rewrite app_nil_r, rev_involutive.
Qed.

(** A symbol is read where what follows ends it. *)
Lemma reads_form text l : reads text l -> Reader.read text = Some l.
Proof. intros R. unfold read. rewrite R. by rewrite app_nil_r, rev_involutive. Qed.

Lemma reads_inj text l1 l2 : reads text l1 -> reads text l2 -> l1 = l2.
Proof. intros R1%reads_form R2%reads_form. congruence. Qed.

Definition esc (s : string) : string := replace dq_byte ("\" +:+ dq) (replace "\" "\\" s).

Lemma esc_cons c s :
  esc (String c s) =
    (if Ascii.eqb c "\" then "\\" else if Ascii.eqb c dq_byte then "\" +:+ dq else String c "") +:+ esc s.
Proof.
  unfold esc. cbn [replace]. destruct (Ascii.eqb c "\") eqn:E.
  - apply Ascii.eqb_eq in E as ->. done.
  - cbn [replace]. by destruct (Ascii.eqb c dq_byte).
Qed.

Lemma run_esc s acc stack : run (Some (InStr acc, stack)) (esc s) = Some (InStr (acc +:+ s), stack).
Proof.
  revert acc. induction s as [|c s IH]; intros acc; [by rewrite append_empty_r|].
  rewrite esc_cons, rrun_app.
  assert (E : run (Some (InStr acc, stack))
     (if Ascii.eqb c "\" then "\\" else if Ascii.eqb c dq_byte then "\" +:+ dq else String c "")
     = Some (InStr (snoc acc c), stack)).
  { destruct (Ascii.eqb c "\") eqn:E1; [by apply Ascii.eqb_eq in E1 as ->|].
    destruct (Ascii.eqb c dq_byte) eqn:E2; [by apply Ascii.eqb_eq in E2 as ->|].
    cbn [run step]. by rewrite E1, E2. }
  by rewrite E, IH, snoc_append.
Qed.

(** Whatever its bytes, a string written with [sbpl_string] is read back as itself, and nothing in it
    is read as anything else. *)
Lemma reads_string s : reads (sbpl_string s) [Str s].
Proof.
  intros l stack. unfold sbpl_string. fold (esc s). rewrite rrun_app. change (run (Some (Plain, l :: stack)) dq)
    with (Some (InStr "", l :: stack)). by rewrite rrun_app, run_esc.
Qed.

Lemma sbpl_string_inj s t : sbpl_string s = sbpl_string t -> s = t.
Proof. intros E. pose proof (reads_string s) as R. rewrite E in R. by simplify_eq (reads_inj _ _ _ R (reads_string t)). Qed.

(** A path escaped into a pattern is literal text of it, whatever its bytes. *)
Lemma run_regex_escape s alts items gs :
  Ere.run (Some (Normal, (alts, items) :: gs)) (sbpl_regex_escape s)
  = Some (Normal, (alts, rev (chrs s) ++ items) :: gs).
Proof.
  revert items. induction s as [|c s IH]; intros items; cbn [sbpl_regex_escape chrs rev]; [done|].
  rewrite <- app_assoc. cbn [app]. destruct (is_meta c) eqn:M.
  - cbn [Ere.run Ere.step fst step_normal snd]. rewrite M. cbn [push_item]. apply IH.
  - cbn [Ere.run Ere.step fst snd].
    assert (E : step_normal c ((alts, items) :: gs) = push_item (Chr c) ((alts, items) :: gs)).
    { clear -M. destruct c as [[] [] [] [] [] [] [] []]; vm_compute in M; solve [discriminate|reflexivity]. }
    rewrite E. apply IH.
Qed.
