(* ===== verification/Paths.v ===== *)
(** * Paths

    What the sandbox policy uses of [std::path] beyond RustText.v: the last component, the parent,
    and how [join], [starts_with] and the components of a path go together. A path is a string of
    UTF-8 bytes. *)

From S2P Require Import Prelude RustStr RustText.

Local Open Scope string_scope.
Local Open Scope list_scope.

(** The components of a relative path. *)
Definition pieces (name : string) : list string := drop_dots false (split_on slash name).

(** A path from its components. *)
Definition to_path (c : bool * list string) : string := (if c.1 then "/" else "") +:+ join "/" c.2.

Definition is_normal (c : string) : bool := negb (String.eqb c "." || String.eqb c "..").

(** [Path::file_name]. *)
Definition file_name (p : string) : option string :=
  match rev (components p).2 with
  | c :: _ => if is_normal c then Some c else None
  | [] => None
  end.

(** [Path::parent], from the components. *)
Definition parent (p : string) : option string :=
  match rev (components p).2 with
  | _ :: rest => Some (to_path ((components p).1, rev rest))
  | [] => None
  end.

(** [Path::strip_prefix]: the components left, and as a relative path. *)
Definition path_rest (p root : string) : option (list string) :=
  if path_starts_with p root then Some (drop (length (components root).2) (components p).2) else None.

Definition path_strip_prefix (p root : string) : option string := join "/" <$> path_rest p root.

(** ** Components of a joined path *)

Lemma split_by_nonnil q s : split_by q s <> [].
Proof. destruct (split_by_cons q s) as (w & ws & ->). done. Qed.

Lemma split_on_join c s t : split_on c (s +:+ String c t) = split_on c s ++ split_on c t.
Proof.
  unfold split_on. induction s as [|b s IH].
  - rewrite append_nil. cbn [split_by app]. by rewrite Ascii.eqb_refl.
  - rewrite append_cons. cbn [split_by]. rewrite IH. destruct (Ascii.eqb c b); [done|].
    destruct (split_by_cons (Ascii.eqb c) s) as (w & ws & ->). done.
Qed.

Lemma drop_dots_app f l1 l2 : l1 <> [] -> drop_dots f (l1 ++ l2) = drop_dots f l1 ++ drop_dots false l2.
Proof.
  revert f. induction l1 as [|p l1 IH]; intros f NE; [done|]. cbn [app drop_dots].
  destruct l1 as [|p' l1]; cbn [app].
  - by destruct (is_empty p || String.eqb p "." && negb f).
  - rewrite IH by done. by destruct (is_empty p || String.eqb p "." && negb f).
Qed.

Lemma starts_with_slash_app h n : h <> "" -> starts_with "/" (h +:+ n) = starts_with "/" h.
Proof.
  destruct h as [|a h]; [done|]. intros _. rewrite append_cons. unfold starts_with. cbn [strip_prefix].
  by destruct (Ascii.eqb _ a).
Qed.

Lemma ends_with_slash h : ends_with "/" h = true -> exists h', h = h' +:+ "/".
Proof.
  intros E. unfold ends_with, strip_suffix in E. rewrite is_some_true in E. destruct E as [x E].
  destruct (strip_prefix (rev_string "/") (rev_string h)) as [y|] eqn:P; [|done].
  apply strip_prefix_Some in P. exists (rev_string y). unfold rev_string in *.
  apply (f_equal String.list_ascii_of_string) in P.
  rewrite String.list_ascii_of_string_of_list_ascii in P.
  assert (A : forall s t, String.list_ascii_of_string (s +:+ t)
              = (String.list_ascii_of_string s ++ String.list_ascii_of_string t)%list).
  { intros s t. induction s as [|c s IH]; [done|]. rewrite append_cons. cbn. by rewrite IH. }
  rewrite A in P. cbn in P. apply (f_equal (@rev _)) in P. rewrite rev_involutive in P. cbn in P.
  rewrite <- (String.string_of_list_ascii_of_string h), P.
  clear. induction (rev (String.list_ascii_of_string y)) as [|c l IH]; [done|].
  cbn [app String.string_of_list_ascii]. by rewrite append_cons, IH.
Qed.

Lemma components_app h n :
  h <> "" -> components (h +:+ "/" +:+ n) = ((components h).1, (components h).2 ++ pieces n).
Proof.
  intros NE. unfold components, pieces. rewrite starts_with_slash_app by done. cbn [fst snd]. f_equal.
  change ("/" +:+ n) with (String slash n). rewrite split_on_join. apply drop_dots_app, split_by_nonnil.
Qed.

Lemma components_slash h : h <> "" -> (components (h +:+ "/")) = components h.
Proof.
  intros NE. rewrite <- (append_empty_r "/"), components_app by done. change (pieces "") with (@nil string).
  rewrite app_nil_r. by destruct (components h).
Qed.

Lemma components_join h n :
  h <> "" -> components (path_join h n) = ((components h).1, (components h).2 ++ pieces n).
Proof.
  intros NE. unfold path_join. replace (is_empty h) with false by (symmetry; by destruct h).
  cbn [orb]. destruct (ends_with "/" h) eqn:E; [|by apply components_app].
  apply ends_with_slash in E as [h' ->]. rewrite <- append_assoc. destruct h' as [|c h'].
  - rewrite !append_nil. unfold components, pieces. done.
  - by rewrite components_app, components_slash.
Qed.

Lemma path_join_nonempty h n : h <> "" -> path_join h n <> "".
Proof.
  unfold path_join. destruct h as [|c h]; [done|]. cbn [is_empty String.eqb orb]. intros _.
  by destruct (ends_with _ _); rewrite append_cons.
Qed.

(** ** Prefixes *)

Lemma is_prefix_of_spec a b : is_prefix_of a b = true <-> exists c, b = a ++ c.
Proof.
  unfold is_prefix_of. rewrite eqb_eq. split.
  - intros E. exists (drop (length a) b). rewrite <- E at 1. by rewrite take_drop.
  - intros [c ->]. by rewrite take_app_length.
Qed.

Lemma path_starts_with_spec d r :
  path_starts_with d r = true <->
  (components d).1 = (components r).1 /\ exists c, (components d).2 = (components r).2 ++ c.
Proof. unfold path_starts_with. by rewrite andb_true_iff, eqb_eq, is_prefix_of_spec. Qed.

Lemma path_starts_with_refl p : path_starts_with p p = true.
Proof. apply path_starts_with_spec. split; [done|]. exists []. by rewrite app_nil_r. Qed.

Lemma path_starts_with_trans a b c :
  path_starts_with a b = true -> path_starts_with b c = true -> path_starts_with a c = true.
Proof.
  rewrite !path_starts_with_spec. intros [E1 [x Ex]] [E2 [y Ey]]. split; [congruence|].
  exists (y ++ x). by rewrite Ex, Ey, app_assoc.
Qed.

(** Two paths above a third: one is above the other. *)
Lemma path_starts_with_linear t a b :
  path_starts_with t a = true -> path_starts_with t b = true ->
  path_starts_with a b = true \/ path_starts_with b a = true.
Proof.
  rewrite !path_starts_with_spec. intros [E1 [x Ex]] [E2 [y Ey]]. rewrite Ex in Ey.
  destruct (Nat.le_ge_cases (length (components b).2) (length (components a).2)) as [L|L].
  - left. split; [congruence|]. exists (drop (length (components b).2) (components a).2).
    apply (f_equal (take (length (components b).2))) in Ey. rewrite take_app_length, take_app_le in Ey by done.
    rewrite <- Ey at 1. by rewrite take_drop.
  - right. split; [congruence|]. exists (drop (length (components a).2) (components b).2).
    apply (f_equal (take (length (components a).2))) in Ey. rewrite take_app_length, take_app_le in Ey by done.
    rewrite Ey at 1. by rewrite take_drop.
Qed.

Lemma path_starts_with_join h n : h <> "" -> path_starts_with (path_join h n) h = true.
Proof. intros NE. apply path_starts_with_spec. rewrite components_join by done. eauto. Qed.

Lemma path_rest_Some p root l :
  path_rest p root = Some l <-> (components p).1 = (components root).1 /\ (components p).2 = (components root).2 ++ l.
Proof.
  unfold path_rest. destruct (path_starts_with p root) eqn:E.
  - apply path_starts_with_spec in E as [E1 [c Ec]]. rewrite Ec, drop_app_length. split.
    + intros [= <-]. done.
    + intros [_ ?%app_inv_head]. by subst.
  - split; [done|]. intros [E1 E2]. apply not_true_iff_false in E. destruct E. apply path_starts_with_spec. eauto.
Qed.
