(* ===== verification/SandboxPolicy.v ===== *)
(** * What an agent may write

    [src/crates/fletch-core/src/sandbox/policy.rs]: the directories of the host a sandboxed agent is
    granted, whatever engine enforces it, and the files inside them that name programs. The host is
    the class [HostEnv]: its file system as [canonicalize] resolves it while a profile is built, the
    environment of the process and of the login shell. *)

From S2P Require Import Prelude RustStr RustText Paths.

Local Open Scope string_scope.
Local Open Scope list_scope.

Class HostEnv := {
  (** [std::fs::canonicalize], with the error's text. *)
  canonicalize : string -> result string string;
  var_os : string -> option string;
  (** The login shell's environment, when it was read. *)
  login_shell_env : option (string -> option string);
  home_dir : option string;
}.

Definition STATE_DIR_PROVIDERS : list string := ["claude"; "codex"; "cursor"; "gemini"; "pi"; "opencode"].
Definition CLAUDE_CREDENTIALS_FILE : string := ".credentials.json".
Definition CLAUDE_PROJECTS_SUBDIR : string := "projects".
Definition CLAUDE_EPHEMERAL_RUNTIME_SUBDIRS : list string := ["session-env"; "shell-snapshots"].
Definition CLAUDE_SEATBELT_STATE_SUBDIRS : list string := ["todos"; "statsig"; "file-history"; "debug"].

Definition claude_write_island_dirs (config_dir : string) : list string :=
  path_join config_dir <$>
    ([CLAUDE_PROJECTS_SUBDIR] ++ CLAUDE_EPHEMERAL_RUNTIME_SUBDIRS ++ CLAUDE_SEATBELT_STATE_SUBDIRS).

Definition GIT_EXEC_CONFIG_FILES : list string := ["config"; "config.worktree"].
Definition GIT_EXEC_CONFIG_DIRS : list string := ["hooks"; "info"].

Definition APP_SUPPORT_EXEC_FILES : list string :=
  ["Code/User/settings.json"; "Code/User/tasks.json"; "Code/User/keybindings.json";
   "Cursor/User/settings.json"; "Cursor/User/tasks.json"; "Cursor/User/keybindings.json";
   "iTerm2/Scripts/AutoLaunch.scpt"].
Definition APP_SUPPORT_EXEC_DIRS : list string := ["iTerm2/Scripts/AutoLaunch"].

Definition MACOS_PRIVACY_DIRS : list string :=
  ["Desktop"; "Documents"; "Downloads"; "Library/Mobile Documents"; "Library/Containers";
   "Library/Group Containers"].

(** [bin_resolve::effective_env_var]. *)
Definition effective_env_var_from (name : string) (process : option string)
    (shell : option (string -> option string)) : option string :=
  opt_filter (fun v => negb (is_empty v)) (or_else (shell ≫= (fun env => env name)) process).

Section policy.
Context `{Env0 : HostEnv}.

Definition effective_env_var (name : string) : option string :=
  effective_env_var_from name (var_os name) login_shell_env.

Definition has_bin_component (p : string) : bool :=
  existsb (fun c => String.eqb c "bin" || String.eqb c "sbin") (components p).2.

(** The loop of [resolve_existing_prefix] from [cur], whose components last first are [rest]; the
    names taken off it so far are [tail], in path order. *)
Fixpoint resolve_loop (p cur : string) (absolute : bool) (rest tail : list string) : string :=
  match canonicalize cur with
  | Ok real => foldl path_join real tail
  | Err _ =>
      match rest with
      | name :: rest =>
          if is_normal name then resolve_loop p (to_path (absolute, rev rest)) absolute rest (name :: tail)
          else p
      | [] => p
      end
  end.

Definition resolve_existing_prefix (p : string) : string :=
  resolve_loop p p (components p).1 (rev (components p).2) [].

Definition bin_resident (p : string) : bool :=
  has_bin_component p || has_bin_component (resolve_existing_prefix p).

Definition env_state_dir (value : option string) (default : string) : string :=
  match opt_filter (fun v => negb (is_empty v)) value with
  | None => default
  | Some raw => if bin_resident raw then default else raw
  end.

Definition xdg_base_from (value : option string) (home default_rel : string) : string :=
  env_state_dir value (path_join home default_rel).

Definition xdg_base (home var default_rel : string) : string :=
  xdg_base_from (var_os var) home default_rel.

Definition codex_home_from (value : option string) (home : string) : string :=
  env_state_dir value (path_join home ".codex").

Definition codex_home_dir (home : string) : string :=
  codex_home_from (effective_env_var "CODEX_HOME") home.

Definition codex_home_or (value : option string) (home : option string) : option string :=
  match home with
  | Some home => Some (codex_home_from value home)
  | None => opt_filter (fun dir => negb (bin_resident dir)) (opt_filter (fun v => negb (is_empty v)) value)
  end.

Definition codex_home : option string := codex_home_or (effective_env_var "CODEX_HOME") home_dir.

Definition opencode_data_dir (home : string) : string :=
  path_join (xdg_base home "XDG_DATA_HOME" ".local/share") "opencode".

Definition opencode_config_dir (home : string) : string :=
  path_join (xdg_base home "XDG_CONFIG_HOME" ".config") "opencode".

Definition provider_state_dirs (provider home : string) : list string :=
  if String.eqb provider "claude" then claude_write_island_dirs (path_join home ".claude")
  else if String.eqb provider "codex" then []
  else if String.eqb provider "cursor" then [path_join home ".cursor"]
  else if String.eqb provider "gemini" then [path_join home ".gemini"]
  else if String.eqb provider "pi" then [path_join home ".pi"]
  else if String.eqb provider "opencode" then [opencode_data_dir home; opencode_config_dir home]
  else [].

(** [if !out.contains(&dir) { out.push(dir) }]. *)
Definition push_dir (out : list string) (dir : string) : list string :=
  if existsb (path_eqb dir) out then out else out ++ [dir].

Definition all_provider_state_dirs (home : string) : list string :=
  foldl (fun out provider => foldl push_dir out (provider_state_dirs provider home)) [] STATE_DIR_PROVIDERS.

Record ProviderExecConfig := { pe_files : list string; pe_dirs : list string }.

Definition provider_exec_config_denials (home : string) : ProviderExecConfig :=
  let gemini := path_join home ".gemini" in
  let oc_config := opencode_config_dir home in
  {| pe_files := [path_join gemini "settings.json"; path_join (path_join gemini "config") "mcp_config.json";
                  path_join (path_join home ".cursor") "mcp.json";
                  path_join (path_join (path_join home ".pi") "agent") "settings.json";
                  path_join oc_config "opencode.json"; path_join oc_config "opencode.jsonc"];
     pe_dirs := [path_join gemini "extensions"; path_join gemini "plugins"; path_join oc_config "plugin"] |}.

Definition agent_scratch_dirs (home : string) : list string :=
  path_join home <$>
    [".npm"; ".cache"; ".local/share"; ".local/state"; "Library/Caches"; "Library/Application Support"].

Definition macos_privacy_dirs (home : string) : list string := path_join home <$> MACOS_PRIVACY_DIRS.

Definition inside_macos_privacy_dir (home path : string) : bool :=
  let resolved := resolve_existing_prefix path in
  existsb (fun d => path_starts_with path d || path_starts_with resolved d) (macos_privacy_dirs home).
End policy.

(** ** What no grant holds *)

Section withheld.
Context `{Env0 : HostEnv}.

Lemma push_dir_elem out d x : x ∈ push_dir out d -> x ∈ out \/ x = d.
Proof. unfold push_dir. destruct (existsb _ _); [auto|]. rewrite elem_of_app, list_elem_of_singleton. tauto. Qed.

Lemma push_dirs_elem ds out x : x ∈ foldl push_dir out ds -> x ∈ out \/ x ∈ ds.
Proof.
  revert out. induction ds as [|d ds IH]; intros out E; cbn in E; [auto|].
  apply IH in E as [E|E]; [apply push_dir_elem in E as [E| ->]|]; set_solver.
Qed.

Lemma all_provider_state_dirs_elem home x :
  x ∈ all_provider_state_dirs home -> exists p, x ∈ provider_state_dirs p home.
Proof.
  unfold all_provider_state_dirs. assert (G : forall ps out, x ∈ foldl (fun out provider =>
    foldl push_dir out (provider_state_dirs provider home)) out ps -> x ∈ out \/ exists p, x ∈ provider_state_dirs p home).
  { induction ps as [|p ps IH]; intros out E; cbn in E; [auto|].
    apply IH in E as [E|E]; [|auto]. apply push_dirs_elem in E as [E|E]; eauto. }
  intros E. apply G in E as [E|E]; [by apply elem_of_nil in E|done].
Qed.

(** The components the policy adds to home. *)
Definition HOME_GRANTS : list (list string) :=
  (app [".claude"] <$> [["projects"]; ["session-env"]; ["shell-snapshots"]; ["todos"]; ["statsig"];
                       ["file-history"]; ["debug"]])
  ++ [[".cursor"]; [".gemini"]; [".pi"]; [".local"; "share"; "opencode"]; [".config"; "opencode"];
      [".npm"]; [".cache"]; [".local"; "share"]; [".local"; "state"]; ["Library"; "Caches"];
      ["Library"; "Application Support"]].

(** A directory the policy grants is one of its own under home, or [opencode] under a directory of
    the environment that is not a PATH directory. *)
Definition at_home (home d : string) : Prop :=
  exists ps, (ps ∈ HOME_GRANTS) /\ components d = ((components home).1, (components home).2 ++ ps).

Definition relocated (d : string) : Prop :=
  exists raw, raw <> "" /\ bin_resident raw = false
    /\ components d = ((components raw).1, (components raw).2 ++ ["opencode"]).

Lemma at_home_join home n ps :
  home <> "" -> pieces n = ps -> ps ∈ HOME_GRANTS -> at_home home (path_join home n).
Proof. intros NE <- I. exists (pieces n). by rewrite components_join. Qed.

Lemma at_home_join2 home m n ps :
  home <> "" -> pieces m ++ pieces n = ps -> ps ∈ HOME_GRANTS -> at_home home (path_join (path_join home m) n).
Proof.
  intros NE <- I. exists (pieces m ++ pieces n). split; [done|].
  rewrite components_join by by apply path_join_nonempty. rewrite components_join by done. cbn [fst snd].
  by rewrite <- app_assoc.
Qed.

Lemma xdg_opencode home var rel ps :
  home <> "" -> pieces rel ++ pieces "opencode" = ps -> ps ∈ HOME_GRANTS ->
  at_home home (path_join (xdg_base home var rel) "opencode")
  \/ relocated (path_join (xdg_base home var rel) "opencode").
Proof.
  intros NE E I. unfold xdg_base, xdg_base_from, env_state_dir.
  destruct (opt_filter _ (var_os var)) as [raw|] eqn:V; [|left; by apply at_home_join2 with ps].
  destruct (bin_resident raw) eqn:B; [left; by apply at_home_join2 with ps|].
  right. exists raw. apply opt_filter_Some in V as [_ V].
  assert (raw <> "") by by destruct raw. split_and!; [done|done|by rewrite components_join].
Qed.

Lemma policy_dir_shape home d :
  home <> "" -> d ∈ all_provider_state_dirs home ++ agent_scratch_dirs home ->
  at_home home d \/ relocated d.
Proof.
  intros NE [I|I]%elem_of_app.
  - apply all_provider_state_dirs_elem in I as [p I]. unfold provider_state_dirs in I.
    repeat (destruct (String.eqb p _); [|try by apply elem_of_nil in I]); cbn in I.
    + repeat (apply elem_of_cons in I as [->|I]); try (by apply elem_of_nil in I);
        left; (eapply at_home_join2; [done|reflexivity|vm_compute; set_solver]).
    + by apply elem_of_nil in I.
    + apply list_elem_of_singleton in I as ->. left. eapply at_home_join; [done|reflexivity|vm_compute; set_solver].
    + apply list_elem_of_singleton in I as ->. left. eapply at_home_join; [done|reflexivity|vm_compute; set_solver].
    + apply list_elem_of_singleton in I as ->. left. eapply at_home_join; [done|reflexivity|vm_compute; set_solver].
    + apply elem_of_cons in I as [->|I]; [|apply list_elem_of_singleton in I as ->];
        (eapply xdg_opencode; [done|reflexivity|vm_compute; set_solver]).
  - left. unfold agent_scratch_dirs in I. cbn in I.
    repeat (apply elem_of_cons in I as [->|I]); try (by apply elem_of_nil in I);
      (eapply at_home_join; [done|reflexivity|vm_compute; set_solver]).
Qed.

(** Home, what holds configuration of other tools, what is on the PATH, and claude's own
    configuration. *)
Definition WITHHELD : list (list string) :=
  [[]; [".config"]; [".local"]; [".local"; "bin"]; [".claude"]; ["Library"]].

Definition withheld (home root : string) : Prop :=
  exists ps, (ps ∈ WITHHELD) /\ components root = ((components home).1, (components home).2 ++ ps).

Lemma bin_component_spec d :
  has_bin_component d = true <-> ("bin" ∈ (components d).2) \/ ("sbin" ∈ (components d).2).
Proof.
  unfold has_bin_component. rewrite existsb_exists. split.
  - intros (c & I & [E|E]%orb_true_iff); apply String.eqb_eq in E as ->; apply list_elem_of_In in I; auto.
  - intros [I|I]; apply list_elem_of_In in I; eexists; (split; [exact I|done]).
Qed.

Lemma home_grants_no_bin ps : ps ∈ HOME_GRANTS -> "bin" ∉ ps /\ "sbin" ∉ ps.
Proof. revert ps. apply Forall_forall. vm_compute. repeat constructor; set_solver. Qed.

Lemma home_grants_hold_nothing ps rs : ps ∈ HOME_GRANTS -> rs ∈ WITHHELD -> is_prefix_of ps rs = false.
Proof.
  intros I. revert rs. apply Forall_forall. revert ps I. apply Forall_forall.
  vm_compute. repeat constructor.
Qed.

Lemma withheld_not_opencode rs : rs ∈ WITHHELD -> "opencode" ∉ rs.
Proof. revert rs. apply Forall_forall. vm_compute. repeat constructor; set_solver. Qed.

(** No directory the policy grants is on a PATH or holds the home folder, [~/.config], [~/.local],
    its [bin] or [~/.claude], whatever the environment says. *)
Theorem policy_withholds_roots home d root :
  home <> "" -> has_bin_component home = false -> "opencode" ∉ (components home).2 ->
  d ∈ all_provider_state_dirs home ++ agent_scratch_dirs home -> withheld home root ->
  has_bin_component d = false /\ path_starts_with root d = false.
Proof.
  intros NE HB HO I (rs & IR & ER). apply not_true_iff_false in HB. rewrite bin_component_spec in HB.
  rewrite <- !not_true_iff_false, bin_component_spec, path_starts_with_spec, ER. cbn [fst snd].
  apply policy_dir_shape in I as [(ps & I & E)|(raw & NR & B & E)]; [| |done]; rewrite E; cbn [fst snd].
  - pose proof (home_grants_no_bin ps I). pose proof (home_grants_hold_nothing ps rs I IR) as P.
    split; [rewrite !elem_of_app; naive_solver|]. intros [_ [c C]]. rewrite <- app_assoc in C. apply app_inv_head in C.
    apply not_true_iff_false in P. apply P, is_prefix_of_spec. eauto.
  - unfold bin_resident in B. apply orb_false_iff in B as [B _]. apply not_true_iff_false in B.
    rewrite bin_component_spec in B. split; [set_solver|]. intros [_ [c C]].
    assert (O : "opencode" ∈ (components home).2 ++ rs) by (rewrite C; set_solver).
    apply elem_of_app in O as [O|O]; [done|]. by apply (withheld_not_opencode rs).
Qed.
End withheld.
