(* ===== verification/Seatbelt.v ===== *)
(** * The seatbelt profiles

    [src/crates/fletch-core/src/sandbox/seatbelt.rs]: the text of the profile an agent and a Run
    command are confined by, block by block. [@] stands for a double quote in the constant parts. *)

From Stdlib Require Import Ascii.
From S2P Require Import Prelude RustStr RustText Paths Ere Sbpl SandboxPolicy.

Local Open Scope string_scope.
Local Open Scope list_scope.

(** The constant parts of a profile: [@] is a double quote. *)
Definition text (s : string) : string :=
  map_bytes (fun c => if Ascii.eqb c "@"%char then dq_byte else c) s.

Definition BUNDLE_ID : string := "com.fletch.desktop".
Definition INSTALL_DIR_NAME : string := "git-dist".
Definition TEMP_PREFIX : string := ".fletch-auth-".
Definition ACCOUNTS_ROOT_ENV : string := "FLETCH_ACCOUNTS_ROOT".

Record FolderGrant := { fg_path : string; fg_writable : bool }.

(** What [host::boot] published ([sandbox::set_data_dir]). *)
Class Published := configured_data_dir : option string.

Definition DEVICE_WRITE_RULES : string := text
";; PTYs and basic device files are required for terminal programs.
(allow file-write* (literal @/dev/null@) (literal @/dev/zero@))
(allow file-write*
  (regex #@^/dev/tty[^/]*$@)
  (regex #@^/dev/ptmx$@)
  (regex #@^/dev/pts/[0-9]+$@))".

Definition KEYCHAIN_MACH_DENY : string := text
";; No Keychain access: logins reach an agent only as the host-resolved token.
(deny mach-lookup
  (global-name @com.apple.SecurityServer@)
  (global-name @com.apple.securityd@)
  (global-name @com.apple.securityd.xpc@)
  (global-name @com.apple.security.agent@))".

Definition SSH_AGENT_NETWORK_DENY : string := text
"(deny network-outbound (regex #@^/private/tmp/com\.apple\.launchd\.[^/]+/Listeners$@))".

(** One filter on a line of its own: the source's [format!("  ({kind} {})", sbpl_string(p))]. *)
Definition clause (kind p : string) : string := "  (" +:+ kind +:+ " " +:+ sbpl_string p +:+ ")".

(** The same with a raw pattern, [(regex #..)]. *)
Definition raw_clause (p : string) : string := "  (regex #" +:+ dq +:+ p +:+ dq +:+ ")".

Definition app_support (home_s : string) : string := home_s +:+ "/Library/Application Support".
Definition bundle_dir (home_s : string) : string := app_support home_s +:+ "/" +:+ BUNDLE_ID.

Definition deny_app_data_dir (home_s : string) : string :=
";; The app's own data dir (fletch.db: transcripts, settings) must be opaque
;; to confined processes: deny reads (exfiltration) and writes (forging
;; state), even though the broad Application Support grant above covers its
;; parent. Last-match-wins, so this must come after the allow block.
(deny file-read* file-write* (subpath " +:+ sbpl_string (bundle_dir home_s) +:+ "))".

(** The names of a constant list as one alternation. *)
Definition alternation (names : list string) : string := join "|" (sbpl_regex_escape <$> names).

Definition deny_git_exec_config (root : string) : string :=
  let root := sbpl_regex_escape root in
  let files := alternation GIT_EXEC_CONFIG_FILES in
  let dirs := alternation GIT_EXEC_CONFIG_DIRS in
";; Invariant 3: a repo's own config names programs git executes (hooks,
;; clean/smudge filters, textconv, merge drivers), so an agent-writable
;; .git/config is host code execution the moment Fletch runs git on the
;; checkout. `.gitattributes` stays writable on purpose — it is tracked
;; source, and inert while it cannot define the driver it names.
(deny file-write*
" +:+ join newline [raw_clause ("^" +:+ root +:+ "(/.*)?/\.git/(" +:+ files +:+ ")$");
                   raw_clause ("^" +:+ root +:+ "(/.*)?/\.git/(" +:+ dirs +:+ ")(/|$)")] +:+ ")".

Definition deny_appsupport_exec (home_s : string) : string :=
  let clauses :=
    ((fun dir => clause "subpath" (app_support home_s +:+ "/" +:+ dir)) <$> APP_SUPPORT_EXEC_DIRS)
    ++ ((fun file => clause "literal" (app_support home_s +:+ "/" +:+ file)) <$> APP_SUPPORT_EXEC_FILES) in
";; Invariant 4: `~/Library/Application Support` is macOS's config/state
;; root (the `~/.config` equivalent) and is granted whole above, but a
;; few apps auto-run code from files under it on their next launch —
;; iTerm2 `Scripts/AutoLaunch`, VS Code / Cursor `User/settings.json`
;; terminal profiles + `tasks.json` folder-open tasks. An agent-writable
;; copy is host code execution as the user, so carve those specific
;; surfaces back out. A deny-list of known-dangerous surfaces, not an
;; exhaustive one (see policy::APP_SUPPORT_EXEC_FILES). Last-match-wins,
;; so this must come after the allow block.
(deny file-write*
" +:+ join newline clauses +:+ ")".

(** [if !out.contains(&line) { out.push(line) }]. *)
Definition push_new {A} `{EqDecision A} (out : list A) (x : A) : list A :=
  if lcontains out x then out else out ++ [x].

Definition RUN_TOOLCHAIN_DIRS : list string :=
  [".cargo"; ".rustup"; "go"; ".bun"; "Library/pnpm"; ".bundle"; ".gem"; ".rbenv"; ".rvm";
   "Library/Python"; ".config"; ".local"].

Definition block_after (block : string) : string :=
  if is_empty block then block else newline +:+ newline +:+ block.

Definition profile_args (text : string) : list string := ["-p"; text].

Section seatbelt.
Context `{Env0 : HostEnv}.

Definition accounts_root : result string string :=
  match opt_filter (fun v => negb (is_empty v)) (var_os ACCOUNTS_ROOT_ENV) with
  | Some root => Ok root
  | None =>
      match home_dir with
      | Some home => Ok (path_join (path_join home ".fletch") "accounts")
      | None => Err "HOME directory not available"
      end
  end.

Definition canonical (p : string) : result string string :=
  match canonicalize p with
  | Ok real => Ok real
  | Err e => Err ("canonicalize " +:+ p +:+ ": " +:+ e)
  end.

(** Each directory in its literal and its resolved form, less those on a PATH. *)
Definition subpath_grants (dirs : list string) : list string :=
  foldl (fun out dir =>
    foldl (fun out p => if bin_resident p then out else push_new out (clause "subpath" p))
      out [dir; resolve_existing_prefix dir]) [] dirs.

Definition literal_grants (file : string) : list string :=
  foldl (fun out p => if bin_resident p then out else push_new out (clause "literal" p))
    [] [file; resolve_existing_prefix file].

Definition claude_credentials_rules (config_dir : string) : list string :=
  foldl (fun out dir =>
    if bin_resident dir then out
    else push_new out (clause "regex" ("^" +:+ sbpl_regex_escape dir +:+ "/"
           +:+ sbpl_regex_escape CLAUDE_CREDENTIALS_FILE +:+ ".*$")))
    [] [config_dir; resolve_existing_prefix config_dir].

(** ** Login denies *)

Definition LoginDeny : Type := list string.

Definition forms (p : string) : list string := [p; resolve_existing_prefix p].

Definition deny_literal (p : string) (deny : LoginDeny) : LoginDeny :=
  foldl (fun d form => push_new d (clause "literal" form)) deny (forms p).

Definition deny_subpath (p : string) (deny : LoginDeny) : LoginDeny :=
  foldl (fun d form => push_new d (clause "subpath" form)) deny (forms p).

Definition prefix_pattern (dir prefix : string) : string :=
  "^" +:+ sbpl_regex_escape dir +:+ "/" +:+ sbpl_regex_escape prefix +:+ "[^/]*$".

Definition deny_prefix (dir prefix : string) (deny : LoginDeny) : LoginDeny :=
  foldl (fun d form => push_new d (clause "regex" (prefix_pattern form prefix))) deny (forms dir).

Definition block (deny : LoginDeny) : string :=
  "(deny file-read* file-write*" +:+ newline +:+ join newline deny +:+ ")".

Definition write_block (deny : LoginDeny) : string :=
  "(deny file-write*" +:+ newline +:+ join newline deny +:+ ")".

Definition deny_host_claude_logins (home : string) (relocated_claude_dir : option string) : string :=
  let claude := path_join home ".claude" in
  let deny := deny_prefix claude TEMP_PREFIX (deny_literal (path_join claude CLAUDE_CREDENTIALS_FILE) []) in
  let deny :=
    match relocated_claude_dir with
    | Some dir => deny_prefix dir TEMP_PREFIX (deny_literal (path_join dir CLAUDE_CREDENTIALS_FILE) deny)
    | None => deny
    end in
  block (match accounts_root with Ok root => deny_subpath (path_join root "claude") deny | Err _ => deny end).

Definition deny_host_codex_logins (home : string) : string :=
  let codex_home := codex_home_dir home in
  let deny := deny_prefix codex_home TEMP_PREFIX (deny_literal (path_join codex_home "auth.json") []) in
  block (match accounts_root with Ok root => deny_subpath (path_join root "codex") deny | Err _ => deny end).

Definition socket_deny (paths : list string) : string :=
  "(deny network-outbound" +:+ newline +:+
  join newline (foldl (fun out path => foldl (fun out form => push_new out (clause "literal" form)) out (forms path))
                  [] paths) +:+ ")".

(** A directory the environment names, when it is absolute. *)
Definition env_dir (name : string) : option string :=
  opt_filter (fun p => (components p).1) (effective_env_var name).

Definition config_roots (home : string) : list string :=
  path_join home ".config" :: option_list (env_dir "XDG_CONFIG_HOME").

Definition cache_sockets (home : string) : list string :=
  ((fun root => path_join (path_join (path_join root "git") "credential") "socket")
     <$> path_join home ".cache" :: option_list (env_dir "XDG_CACHE_HOME"))
  ++ [path_join (path_join home ".git-credential-cache") "socket"].

Definition git_credential_denies (home : string) : LoginDeny :=
  let deny := deny_literal (path_join home ".git-credentials") (deny_subpath (path_join home ".ssh") []) in
  let deny :=
    foldl (fun deny root =>
      deny_literal (path_join (path_join root "git") "credentials") (deny_subpath (path_join root "gh") deny))
      deny (config_roots home) in
  match env_dir "GH_CONFIG_DIR" with Some gh_dir => deny_subpath gh_dir deny | None => deny end.

Definition deny_host_git_credentials (home : string) : string :=
";; The user's ssh keys, ssh-agent, gh login and git credential stores: git in
;; the sandbox has no credential path; publishing goes through the host-brokered
;; RPC ops.
" +:+ block (git_credential_denies home) +:+ newline +:+ SSH_AGENT_NETWORK_DENY +:+ newline
  +:+ socket_deny (cache_sockets home).

(** ** The data directory of the engine *)

Definition engine_data_dir_rules (data_dir home_s : string) (state_roots : list string) : string :=
  let data_dir := resolve_existing_prefix data_dir in
  let git_dist := sbpl_string (path_join data_dir INSTALL_DIR_NAME) in
  if path_starts_with data_dir (bundle_dir home_s) then
";; Exception, read-only: Fletch's portable git lives inside the bundle-id
;; deny above (`<data dir>/git-dist/<dist tag>/bin/git`), and on a machine
;; with no usable system git the agent's PATH is pointed at it
;; (`git_dist::child_env`). A read-denied binary cannot be stat'ed, so
;; PATH lookup skips it and `git` falls through to the Xcode CLT shim.
;; Reads only: the agent executes these binaries, so it must not be able
;; to rewrite one and have the app run it unsandboxed on the next `git`
;; invocation. Nothing secret is under it — it is an unpacked upstream
;; tarball. Last-match-wins, so this must follow the deny.
(allow file-read* (subpath " +:+ git_dist +:+ "))"
  else
    let reallows :=
      join newline ((fun root => "(allow file-read* file-write* (subpath "
        +:+ sbpl_string (resolve_existing_prefix root) +:+ "))") <$> state_roots) in
";; The same carve-out for the data dir THIS engine was configured with
;; (`fletch-host --data-dir`, default `~/Library/Application Support/
;; fletch-host`): its database holds the GitHub token in plaintext and
;; `remote/host_key` is this host's identity, yet nothing bundle-id-derived
;; matches it and the broad grant above leaves it writable. Deny reads and
;; writes. Last-match-wins, so this must come after the allow block.
(deny file-read* file-write* (subpath " +:+ sbpl_string data_dir +:+ "))

;; Exception, read-only: Fletch's own portable git lives here
;; (`<data dir>/git-dist/<dist tag>/bin/git`), and on a host with no usable
;; system git the agent's PATH is pointed at it (`git_dist::child_env`) — so
;; the deny above would take git away from every agent on such a host.
;; Reads only: the agent executes these binaries, so it must not be able to
;; rewrite one and have the host run it unsandboxed on the next `git`
;; invocation. Nothing secret is under it — it is an unpacked upstream
;; tarball. (The desktop emits the same exception against its bundle dir.)
(allow file-read* (subpath " +:+ git_dist +:+ "))

;; Exception: a host derives the checkout, RPC mailbox and toolchain cache
;; roots from that same data dir, so the deny above just took this agent's
;; own working tree, mailbox and caches with it. Give back exactly the
;; roots this profile was handed (last-match-wins again) — and no more: the
;; database, `remote/` and the admin socket stay opaque. These re-allows
;; precede the invariant-2/3/4 denies below, which therefore still win
;; inside the checkout.
" +:+ reallows.

Definition deny_engine_data_dir `{Published} (home_s : string) (state_roots : list string) : string :=
  match configured_data_dir with
  | Some dir => engine_data_dir_rules dir home_s state_roots
  | None => ""
  end.

(** ** Configuration that names programs *)

Definition deny_provider_exec_config (home : string) (codex_home relocated_claude_dir : option string) : string :=
  let denials := provider_exec_config_denials home in
  let link dir name := [path_join dir name; path_join (resolve_existing_prefix dir) name] in
  let files := pe_files denials
    ++ (match codex_home with Some dir => link dir "config.toml" | None => [] end)
    ++ (match relocated_claude_dir with Some dir => link dir "settings.json" | None => [] end) in
  let clauses :=
    foldl (fun out '(kind, paths) =>
      foldl (fun out p => foldl (fun out form => push_new out (clause kind form)) out (forms p)) out paths)
      [] [("literal", files); ("subpath", pe_dirs denials)] in
  match clauses with
  | [] => ""
  | _ =>
";; Invariant 2 (deny-inside-grant): each non-claude provider's config root
;; is granted whole for per-turn session/auth state, but the files that
;; name programs the CLI runs on the host (MCP command=, hook/notify) and
;; the dirs it auto-loads as code (plugins/extensions) must not be
;; agent-writable — writing one is host code execution the next time that
;; CLI runs outside the sandbox. Files denied exact (a temp-then-rename
;; still writes the final path); dirs denied whole. Last-match-wins, so
;; this follows the allow block.
(deny file-write*
" +:+ join newline clauses +:+ ")"
  end.

(** ** The folders macOS guards *)

Definition deny_macos_privacy_dirs (home : string) (writable readable : list string) : string :=
  let inside root := inside_macos_privacy_dir home root in
  let clauses := join newline (clause "subpath" <$> macos_privacy_dirs home) in
  let reallow ops root :=
    (fun line => "(allow " +:+ ops +:+ newline +:+ line +:+ ")") <$> subpath_grants [root] in
  let reallows :=
    mjoin (reallow "file-read* file-write*" <$> lfilter inside writable)
    ++ mjoin (reallow "file-read*" <$> lfilter inside readable) in
  let reallows :=
    match reallows with
    | [] => ""
    | _ =>
"

;; Exceptions, last-match-wins: the roots this launch was handed that sit
;; inside a folder denied above — read-write for the agent's own trees,
;; read-only for the user's source repositories its clone borrows objects
;; from. These precede the invariant-2/3/4 denies, which still win inside.
" +:+ join newline reallows
    end in
";; macOS asks the user before an app — or any process it spawned — first reads
;; Downloads, Desktop, Documents, iCloud Drive or another app's container, and
;; an agent's first `find ~` raised every one of those prompts on turn one.
;; Deny them by name: a sandbox deny is a plain EPERM, no prompt, and nothing
;; an agent is spawned for lives here. Last-match-wins, so this must come after
;; the allow block.
(deny file-read* file-write*
" +:+ clauses +:+ ")" +:+ reallows.
End seatbelt.

(** ** The profiles *)

(** The arguments of [build_profile]. *)
Record Launch := {
  la_writable_root : string;
  la_rpc_dir : string;
  la_home : string;
  la_toolchain_cache : string;
  la_claude_config_dir : option string;
  la_blackboard : option string;
  la_adopted_workspace : option string;
  la_adopted_read_only : bool;
  la_codex_home : option string;
  la_source_repos : list string;
  la_folder_grants : list FolderGrant;
}.

Definition PREAMBLE : string :=
"(version 1)
(allow default)

;; Block writes everywhere by default, then re-allow specific subpaths.
(deny file-write*)
(allow file-write*
".

Definition opt_result {A B E} (f : A -> result B E) (o : option A) : result (option B) E :=
  match o with
  | Some a => match f a with Ok b => Ok (Some b) | Err e => Err e end
  | None => Ok None
  end.

Section profiles.
Context `{Env0 : HostEnv} `{Data0 : Published}.

(** A non-default claude directory, resolved, unless it is on a PATH. *)
Definition relocated_claude (home : string) (claude_config_dir : option string) : option string :=
  opt_filter (fun resolved => negb (String.eqb resolved (path_join home ".claude")))
    (resolve_existing_prefix <$> opt_filter (fun p => negb (bin_resident p)) claude_config_dir).

Definition granted_writable (la : Launch) : list string := fg_path <$> lfilter fg_writable (la_folder_grants la).
Definition granted_readable (la : Launch) : list string :=
  fg_path <$> lfilter (fun g => negb (fg_writable g)) (la_folder_grants la).

(** Lines on lines of their own after what stands before, or nothing. *)
Definition on_new_line (lines : list string) : string := newline +:+ join newline lines.

Definition optional_lines (lines : list string) : string :=
  match lines with [] => "" | _ => on_new_line lines end.

Definition build_profile (la : Launch) : result string string :=
  let? writable_root := canonical (la_writable_root la) in
  let? rpc_root := canonical (la_rpc_dir la) in
  let? home := canonical (la_home la) in
  let? blackboard := opt_result canonical (la_blackboard la) in
  let blackboard_grant :=
    match blackboard with Some board => newline +:+ clause "subpath" board | None => "" end in
  let? adopted := opt_result canonical (la_adopted_workspace la) in
  let adopted_grant :=
    match adopted with
    | Some dir => if la_adopted_read_only la then "" else newline +:+ clause "subpath" dir
    | None => ""
    end in
  let deny_adopted_writes :=
    match adopted, la_adopted_workspace la with
    | Some resolved, Some given =>
        if la_adopted_read_only la then
";; The adopted checkout is this agent's to read, never to write.
" +:+ write_block (deny_subpath resolved (deny_subpath given []))
        else ""
    | _, _ => ""
    end in
  let claude_credentials := join newline (claude_credentials_rules (path_join home ".claude")) in
  let relocated_claude_dir := relocated_claude home (la_claude_config_dir la) in
  let claude_config_extra :=
    match relocated_claude_dir with
    | Some resolved =>
        on_new_line (subpath_grants (claude_write_island_dirs resolved)
          ++ claude_credentials_rules resolved ++ literal_grants (path_join resolved ".claude.json"))
    | None => ""
    end in
  let codex_home_grant :=
    match la_codex_home la with Some dir => on_new_line (subpath_grants [dir]) | None => "" end in
  let folder_grant_grant := optional_lines (subpath_grants (granted_writable la)) in
  let policy_dirs := join newline (subpath_grants
    (all_provider_state_dirs home ++ agent_scratch_dirs home ++ [la_toolchain_cache la])) in
  let deny_engine_data :=
    block_after (deny_engine_data_dir home [writable_root; rpc_root; la_toolchain_cache la]) in
  let adopted_writable := opt_filter (fun _ => negb (la_adopted_read_only la)) adopted in
  let adopted_readable := opt_filter (fun _ => la_adopted_read_only la) adopted in
  let writable_roots := [writable_root; rpc_root; la_toolchain_cache la] ++ option_list adopted_writable
    ++ option_list blackboard ++ granted_writable la in
  let readable_roots := la_source_repos la ++ option_list adopted_readable ++ granted_readable la in
  let deny_git_config := join (newline +:+ newline)
    (deny_git_exec_config <$> writable_root :: option_list adopted ++ granted_writable la) in
  Ok (PREAMBLE
    +:+ clause "subpath" writable_root +:+ newline
    +:+ clause "subpath" rpc_root +:+ blackboard_grant +:+ adopted_grant
    +:+ text "
  (subpath @/private/tmp@)
  (subpath @/private/var/folders@)
  (subpath @/private/var/tmp@)
" +:+ clause "literal" (home +:+ "/.claude.json") +:+ newline
    +:+ claude_credentials +:+ claude_config_extra +:+ codex_home_grant +:+ folder_grant_grant +:+ newline
    +:+ policy_dirs +:+ ")

" +:+ deny_app_data_dir home +:+ deny_engine_data +:+ "

" +:+ deny_macos_privacy_dirs home writable_roots readable_roots +:+ "

" +:+ deny_git_config +:+ "

" +:+ deny_adopted_writes +:+ "

" +:+ deny_provider_exec_config home (la_codex_home la) relocated_claude_dir +:+ "

" +:+ deny_host_claude_logins home relocated_claude_dir +:+ "

" +:+ deny_host_codex_logins home +:+ "

" +:+ deny_host_git_credentials home +:+ "

" +:+ KEYCHAIN_MACH_DENY +:+ "

" +:+ deny_appsupport_exec home +:+ "

" +:+ DEVICE_WRITE_RULES +:+ "
").

Definition build_run_profile (writable_root home toolchain_cache : string) (extra_writable : list string)
    : result string string :=
  let? writable_root := canonical writable_root in
  let? home := canonical home in
  let grants :=
    (clause "subpath" <$> [writable_root; "/private/tmp"; "/private/var/folders"; "/private/var/tmp"])
    ++ (clause "subpath" <$> agent_scratch_dirs home)
    ++ subpath_grants [toolchain_cache]
    ++ ((fun d => clause "subpath" (home +:+ "/" +:+ d)) <$> RUN_TOOLCHAIN_DIRS)
    ++ (clause "subpath" <$> extra_writable) in
  let deny_engine_data := block_after (deny_engine_data_dir home [writable_root; toolchain_cache]) in
  Ok (PREAMBLE +:+ join newline grants +:+ ")

" +:+ deny_app_data_dir home +:+ deny_engine_data +:+ "
;; Exception: a nested *dev* Fletch launched from the Run panel stores its data
;; under `<data dir>/dev` (see lib.rs setup) and must open its own database, so
;; re-allow just that subtree (last-match-wins). A Run-panel process can thus
;; touch the dev instance's state — acceptable because it's dev-only and the Run
;; panel already runs arbitrary project code the developer chose to run.
(allow file-read* file-write* (subpath " +:+ sbpl_string (bundle_dir home +:+ "/dev") +:+ "))

" +:+ deny_host_claude_logins home None +:+ "

" +:+ deny_host_codex_logins home +:+ "

" +:+ DEVICE_WRITE_RULES +:+ "
").
End profiles.
