(* ===== verification/SeatbeltRules.v ===== *)
(** * The rules a seatbelt profile spells

    The text of [build_profile] and [build_run_profile] read back: whatever bytes the paths hold, the
    profile is the list of rules [agent_rules] and [run_rules] write down, up to filters written
    once. One assumption is needed, that no root a repository may stand in holds a double quote: the
    rule for git's configuration writes its root into a raw pattern. *)

From Stdlib Require Import Ascii.
From S2P Require Import Prelude RustStr RustText Paths Ere Sbpl SandboxPolicy Seatbelt.
Import Reader.

Local Open Scope string_scope.
Local Open Scope list_scope.

(** ** Rules up to the order and repetition of their filters *)

Definition same_rule (r r' : Rule) : Prop :=
  ru_allow r = ru_allow r' /\ ru_ops r = ru_ops r'
  /\ forall f, f ∈ ru_filters r <-> f ∈ ru_filters r'.

#[export] Instance same_rule_equiv : Equivalence same_rule.
Proof.
  split.
  - by intros r.
  - intros r r' (A & O & F). split_and!; [done|done|by intros f; rewrite F].
  - intros r r' r'' (A & O & F) (A' & O' & F'). split_and!; [congruence|congruence|].
    intros f. by rewrite F, F'.
Qed.

Lemma existsb_same {A} (p : A -> bool) l l' : (forall x, x ∈ l <-> x ∈ l') -> existsb p l = existsb p l'.
Proof.
  intros S. apply eq_true_iff_eq. rewrite !existsb_exists. setoid_rewrite <- list_elem_of_In.
  by setoid_rewrite S.
Qed.

#[export] Instance applies_proper : Proper (same_rule ==> eq ==> eq ==> eq) applies.
Proof.
  intros r r' (A & O & F) op ? <- t ? <-. unfold applies. rewrite O. f_equal.
  pose proof (existsb_same (fun f => filter_matches f t) _ _ F) as E.
  destruct (ru_filters r) as [|f l], (ru_filters r') as [|f' l']; [done| | |done].
  - destruct (F f') as [_ C]. by apply elem_of_nil in C; [|set_solver].
  - destruct (F f) as [C _]. by apply elem_of_nil in C; [|set_solver].
Qed.

#[export] Instance decide_rules_proper : Proper (Forall2 same_rule ==> eq ==> eq ==> eq) decide_rules.
Proof.
  intros rs rs' S op ? <- t ? <-. unfold decide_rules. generalize false. induction S as [|r r' rs rs' E S IH]; intros b; [done|].
  cbn [foldl]. rewrite IH. f_equal. rewrite (applies_proper r r' E op op eq_refl t t eq_refl).
  by destruct E as [-> _].
Qed.

Lemma mjoin_fmap_cons {A B} (f : A -> list B) x l : mjoin (f <$> x :: l) = f x ++ mjoin (f <$> l).
Proof. done. Qed.

(** ** Lines, blocks and profiles *)

Definition line_filter (line : string) (f : Filter) : Prop :=
  exists x, reads line [x] /\ filter_of x = Some f.

Lemma line_filter_inj line f g : line_filter line f -> line_filter line g -> f = g.
Proof. intros (x & R & E) (y & R' & E'). simplify_eq (reads_inj _ _ _ R R'). congruence. Qed.

(** The lines spell these filters, each perhaps once only. *)
Definition spells (lines : list string) (wanted : list Filter) : Prop :=
  exists fs, Forall2 line_filter lines fs /\ forall f, f ∈ fs <-> f ∈ wanted.

(** The text spells these rules. *)
Definition reads_as (s : string) (rules : list Rule) : Prop :=
  exists forms rs, reads s forms /\ mapM rule_of forms = Some rs /\ Forall2 same_rule rs rules.

Lemma spells_nil : spells [] [].
Proof. by exists []. Qed.

Lemma spells_app l1 l2 w1 w2 : spells l1 w1 -> spells l2 w2 -> spells (l1 ++ l2) (w1 ++ w2).
Proof.
  intros (f1 & F1 & E1) (f2 & F2 & E2). exists (f1 ++ f2). split; [by apply Forall2_app|].
  intros f. by rewrite !elem_of_app, E1, E2.
Qed.

Lemma spells_one line f : line_filter line f -> spells [line] [f].
Proof. intros L. exists [f]. split; [by repeat constructor|done]. Qed.

Lemma spells_cons line f l w : line_filter line f -> spells l w -> spells (line :: l) (f :: w).
Proof. intros L S. apply (spells_app [line] l [f] w); [by apply spells_one|done]. Qed.

Lemma spells_fmap {A} (line : A -> string) (f : A -> Filter) l :
  (forall x, line_filter (line x) (f x)) -> spells (line <$> l) (f <$> l).
Proof. intros L. induction l as [|x l IH]; [apply spells_nil|by apply spells_cons]. Qed.

Lemma spells_push lines wanted line f :
  spells lines wanted -> line_filter line f -> spells (push_new lines line) (wanted ++ [f]).
Proof.
  intros (fs & F & E) L. unfold push_new. destruct (lcontains lines line) eqn:C.
  - exists fs. split; [done|]. intros g. rewrite elem_of_app, list_elem_of_singleton, <- E.
    split; [auto|]. intros [?| ->]; [done|]. apply lcontains_true, list_elem_of_lookup in C as [i C].
    destruct (Forall2_lookup_l _ _ _ _ _ F C) as (g & G & LG).
    rewrite (line_filter_inj _ _ _ L LG). by apply list_elem_of_lookup_2 in G.
  - apply spells_app; [by exists fs|by apply spells_one].
Qed.

(** A loop that adds lines spells what its steps spell. *)
Lemma spells_fold {A} (step : list string -> A -> list string) (f : A -> list Filter) xs lines wanted :
  (forall ls w x, spells ls w -> spells (step ls x) (w ++ f x)) ->
  spells lines wanted -> spells (foldl step lines xs) (wanted ++ mjoin (f <$> xs)).
Proof.
  intros St. revert lines wanted. induction xs as [|x xs IH]; intros lines wanted S; cbn.
  - by rewrite app_nil_r.
  - rewrite app_assoc. apply IH, St, S.
Qed.

Lemma spells_same lines w w' : (forall f, f ∈ w <-> f ∈ w') -> spells lines w -> spells lines w'.
Proof. intros E (fs & F & E'). exists fs. split; [done|]. intros f. by rewrite E', E. Qed.

Lemma reads_as_nil s : reads s [] -> reads_as s [].
Proof. intros R. by exists [], []. Qed.

Lemma reads_as_app s1 s2 r1 r2 : reads_as s1 r1 -> reads_as s2 r2 -> reads_as (s1 +:+ s2) (r1 ++ r2).
Proof.
  intros (f1 & rs1 & R1 & M1 & S1) (f2 & rs2 & R2 & M2 & S2). exists (f1 ++ f2), (rs1 ++ rs2).
  split; [by apply reads_app|]. split; [|by apply Forall2_app].
  apply mapM_Some. apply mapM_Some in M1, M2. by apply Forall2_app.
Qed.

Lemma reads_as_after s1 s2 rules : reads s1 [] -> reads_as s2 rules -> reads_as (s1 +:+ s2) rules.
Proof. intros R. apply (reads_as_app s1 s2 []). by apply reads_as_nil. Qed.

(** A form that stands for itself. *)
Lemma reads_as_const s forms rs : reads s forms -> mapM rule_of forms = Some rs -> reads_as s rs.
Proof. intros R M. exists forms, rs. split_and!; [done|done|reflexivity]. Qed.

(** A constant text, by reading it. *)
Ltac reads_constant :=
  match goal with
  | |- reads_as ?s _ =>
      let f := eval vm_compute in (Reader.read s) in
      match f with
      | Some ?forms => apply (reads_as_const s forms); [intros l stack; vm_compute; reflexivity|reflexivity]
      end
  end.

(** Lines joined by blanks. *)
Lemma reads_join sep lines fs :
  reads sep [] -> Forall2 line_filter lines fs ->
  exists forms, reads (join sep lines) forms /\ mapM filter_of forms = Some fs.
Proof.
  intros RS F. induction F as [|line f lines fs (x & R & E) F IH]; [exists []; split; [apply reads_nil|done]|].
  destruct IH as (forms & R' & E'). destruct lines as [|line' lines].
  - exists [x]. split; [exact R|]. inversion F; subst. cbn. by rewrite E.
  - exists (x :: forms). split; [|cbn; by rewrite E; cbn; rewrite E'].
    change (join sep (line :: line' :: lines)) with (line +:+ (sep +:+ join sep (line' :: lines))).
    apply (reads_app line _ [x] forms); [done|]. by apply reads_before.
Qed.

(** The text of an open list up to where its filters start: what it leaves on the stack. *)
Definition opens (s : string) (allow : bool) (ops : list string) : Prop :=
  forall l stack, run (Some (Plain, l :: stack)) s
    = Some (Plain, (rev (Sym <$> ops) ++ [Sym (if allow then "allow" else "deny")]) :: l :: stack).

Lemma clauses_of_ops ops forms fs :
  mapM filter_of forms = Some fs -> clauses_of ((Sym <$> ops) ++ forms) = Some (ops, fs).
Proof.
  intros M. induction ops as [|op ops IH]; cbn [fmap list_fmap app clauses_of].
  - destruct forms as [|x forms]; [by injection M as <-|]. destruct x; cbn in M; try done.
    cbn [clauses_of]. cbn. cbn in M. by rewrite M.
  - change (list_fmap string sexp Sym ops) with (Sym <$> ops). by rewrite IH.
Qed.

Lemma reads_block s allow ops body forms fs :
  opens s allow ops -> reads body forms -> mapM filter_of forms = Some fs ->
  reads_as (s +:+ body +:+ ")") [{| ru_allow := allow; ru_ops := ops; ru_filters := fs |}].
Proof.
  intros O R M. apply (reads_as_const _ [List (Sym (if allow then "allow" else "deny") :: (Sym <$> ops) ++ forms)]).
  - intros l stack. rewrite rrun_app, O, rrun_app, R. cbn [run step plain].
    unfold pushed, push. cbn [mbind option_bind]. cbn [rev app]. repeat f_equal.
    rewrite !rev_app_distr, !rev_involutive. done.
  - cbn [mapM rule_of]. rewrite (clauses_of_ops ops forms fs M). by destruct allow.
Qed.

(** ** Filters *)

Lemma reads_clause kind p :
  (forall l stack, run (Some (Plain, l :: stack)) ("  (" +:+ kind +:+ " ") = Some (Plain, [Sym kind] :: l :: stack)) ->
  reads (clause kind p) [List [Sym kind; Str p]].
Proof.
  intros K l stack. unfold clause.
  replace ("  (" +:+ kind +:+ " " +:+ sbpl_string p +:+ ")")
    with (("  (" +:+ kind +:+ " ") +:+ sbpl_string p +:+ ")") by by rewrite <- !append_assoc.
  by rewrite rrun_app, K, rrun_app, reads_string.
Qed.

Lemma line_subpath p : line_filter (clause "subpath" p) (Subpath p).
Proof. eexists. split; [by apply reads_clause|done]. Qed.

Lemma line_literal p : line_filter (clause "literal" p) (Literal p).
Proof. eexists. split; [by apply reads_clause|done]. Qed.

Lemma line_regex p r : parse p = Some r -> line_filter (clause "regex" p) (Regex r).
Proof. intros E. eexists. split; [by apply reads_clause|]. cbn. by rewrite E. Qed.

(** A pattern that starts with a directory, taken literally; what follows it is [after], last first. *)
Definition around (dir : string) (after : list re) : re := cat_all (after ++ rev (chrs dir) ++ [Bol]).

Lemma parse_around dir suffix after :
  (forall items, Ere.run (Some (Normal, [([], items)])) suffix = Some (Normal, [([], after ++ items)])) ->
  parse ("^" +:+ sbpl_regex_escape dir +:+ suffix) = Some (around dir after).
Proof.
  intros S. unfold parse. rewrite Ere.run_app. change (Ere.run (Some (Normal, [([], [])])) "^")
    with (Some (Normal, [([] : list re, [Bol])])). by rewrite Ere.run_app, run_regex_escape, S.
Qed.

(** What follows the directory in each pattern, last item first. *)
Definition CREDENTIALS_AFTER : list re := [Eol; Rep Any] ++ rev (chrs ("/" +:+ CLAUDE_CREDENTIALS_FILE)).
Definition TEMP_AFTER : list re := [Eol; Rep (Class true [("/", "/")%char])] ++ rev (chrs ("/" +:+ TEMP_PREFIX)).
Definition BENEATH : re := Alt (cat_all [Rep Any; Chr "/"]) Eps.
Definition names_of (names : list string) : re :=
  match (fun n => cat_all (rev (chrs n))) <$> names with
  | r :: rs => close_group (rev (removelast (r :: rs)), match last names with Some n => rev (chrs n) | None => [] end)
  | [] => Eps
  end.
Definition GIT_FILES_AFTER : list re :=
  [Eol; names_of GIT_EXEC_CONFIG_FILES] ++ rev (chrs "/.git/") ++ [BENEATH].
Definition GIT_DIRS_AFTER : list re :=
  [Alt (cat_all [Chr "/"]) (cat_all [Eol]); names_of GIT_EXEC_CONFIG_DIRS] ++ rev (chrs "/.git/") ++ [BENEATH].

Lemma parse_credentials dir :
  parse ("^" +:+ sbpl_regex_escape dir +:+ "/" +:+ sbpl_regex_escape CLAUDE_CREDENTIALS_FILE +:+ ".*$")
  = Some (around dir CREDENTIALS_AFTER).
Proof. by apply (parse_around dir ("/" +:+ sbpl_regex_escape CLAUDE_CREDENTIALS_FILE +:+ ".*$")). Qed.

Lemma parse_temp dir : parse (prefix_pattern dir TEMP_PREFIX) = Some (around dir TEMP_AFTER).
Proof. by apply (parse_around dir ("/" +:+ sbpl_regex_escape TEMP_PREFIX +:+ "[^/]*$")). Qed.

Definition git_files_pattern (root : string) : string :=
  "^" +:+ sbpl_regex_escape root +:+ "(/.*)?/\.git/(" +:+ alternation GIT_EXEC_CONFIG_FILES +:+ ")$".
Definition git_dirs_pattern (root : string) : string :=
  "^" +:+ sbpl_regex_escape root +:+ "(/.*)?/\.git/(" +:+ alternation GIT_EXEC_CONFIG_DIRS +:+ ")(/|$)".

Lemma parse_git_files root : parse (git_files_pattern root) = Some (around root GIT_FILES_AFTER).
Proof. by apply (parse_around root ("(/.*)?/\.git/(" +:+ alternation GIT_EXEC_CONFIG_FILES +:+ ")$")). Qed.

Lemma parse_git_dirs root : parse (git_dirs_pattern root) = Some (around root GIT_DIRS_AFTER).
Proof. by apply (parse_around root ("(/.*)?/\.git/(" +:+ alternation GIT_EXEC_CONFIG_DIRS +:+ ")(/|$)")). Qed.

(** ** Each block *)

(** [allow] and [deny] rules. *)
Definition allow (ops : list string) (fs : list Filter) : Rule :=
  {| ru_allow := true; ru_ops := ops; ru_filters := fs |}.
Definition deny (ops : list string) (fs : list Filter) : Rule :=
  {| ru_allow := false; ru_ops := ops; ru_filters := fs |}.

Definition READ : string := "file-read*".
Definition WRITE : string := "file-write*".

(** A block whose filters stand on lines of their own. *)
Lemma reads_lines s (b : bool) ops lines wanted :
  opens s b ops -> spells lines wanted ->
  reads_as (s +:+ join newline lines +:+ ")") [{| ru_allow := b; ru_ops := ops; ru_filters := wanted |}].
Proof.
  intros O (fs & F & E). destruct (reads_join newline lines fs) as (forms & R & M); [by intros l stack|done|].
  destruct (reads_block s b ops _ forms fs O R M) as (f & rs & R' & M' & S).
  exists f, rs. split_and!; [done|done|]. inversion S as [|r ? ? ? E1 S']; subst. inversion S'; subst.
  constructor; [|done]. etransitivity; [exact E1|]. by split_and!.
Qed.

(** A text that opens a rule and its one [subpath] filter, up to the path. *)
Definition opens_subpath (s : string) (allow : bool) (ops : list string) : Prop :=
  forall l stack, run (Some (Plain, l :: stack)) s
    = Some (Plain, [Sym "subpath"] :: (rev (Sym <$> ops) ++ [Sym (if allow then "allow" else "deny")]) :: l :: stack).

Lemma reads_subpath_rule s (b : bool) ops p :
  opens_subpath s b ops ->
  reads_as (s +:+ sbpl_string p +:+ "))") [{| ru_allow := b; ru_ops := ops; ru_filters := [Subpath p] |}].
Proof.
  intros O. apply (reads_as_const _ [List (Sym (if b then "allow" else "deny") :: (Sym <$> ops) ++ [List [Sym "subpath"; Str p]])]).
  - intros l stack. rewrite rrun_app, O, rrun_app, reads_string. cbn [run step plain].
    unfold pushed, push. cbn [mbind option_bind rev app run step plain]. unfold pushed, push. cbn [mbind option_bind].
    repeat f_equal. cbn [rev app]. rewrite !rev_app_distr, !rev_involutive. done.
  - cbn [mapM rule_of]. rewrite (clauses_of_ops ops _ [Subpath p]) by done. by destruct b.
Qed.

(** The same, followed by more text: [m] closes the rule and goes on as [m']. *)
Lemma reads_subpath_then s (b : bool) ops p m m' rest rules :
  opens_subpath s b ops -> strip_prefix "))" m = Some m' -> reads_as (m' +:+ rest) rules ->
  reads_as (s +:+ sbpl_string p +:+ m +:+ rest) ({| ru_allow := b; ru_ops := ops; ru_filters := [Subpath p] |} :: rules).
Proof.
  intros O M R. apply strip_prefix_Some in M as ->.
  replace (s +:+ sbpl_string p +:+ ("))" +:+ m') +:+ rest) with ((s +:+ sbpl_string p +:+ "))") +:+ (m' +:+ rest))
    by by rewrite <- !append_assoc.
  apply (reads_as_app _ _ [_] rules); [by apply reads_subpath_rule|done].
Qed.

Lemma app_data_reads home :
  reads_as (deny_app_data_dir home) [deny [READ; WRITE] [Subpath (bundle_dir home)]].
Proof. unfold deny_app_data_dir. by apply reads_subpath_rule. Qed.

Lemma appsupport_reads home :
  reads_as (deny_appsupport_exec home)
    [deny [WRITE] (((fun dir => Subpath (app_support home +:+ "/" +:+ dir)) <$> APP_SUPPORT_EXEC_DIRS)
                   ++ ((fun file => Literal (app_support home +:+ "/" +:+ file)) <$> APP_SUPPORT_EXEC_FILES))].
Proof.
  unfold deny_appsupport_exec. cbv zeta. apply reads_lines; [done|]. apply spells_app; apply spells_fmap.
  - intros dir. apply line_subpath.
  - intros file. apply line_literal.
Qed.

Definition keychain_rule : Rule :=
  deny ["mach-lookup"] (GlobalName <$> ["com.apple.SecurityServer"; "com.apple.securityd";
                                        "com.apple.securityd.xpc"; "com.apple.security.agent"]).

Lemma keychain_reads : reads_as KEYCHAIN_MACH_DENY [keychain_rule].
Proof. reads_constant. Qed.

Definition tty_pattern : re := cat_all ([Eol; Rep (Class true [("/", "/")%char])] ++ rev (chrs "/dev/tty") ++ [Bol]).
Definition ptmx_pattern : re := cat_all ([Eol] ++ rev (chrs "/dev/ptmx") ++ [Bol]).
Definition digit : re := Class false [("0", "9")%char].
Definition pts_pattern : re := cat_all ([Eol; Cat digit (Rep digit)] ++ rev (chrs "/dev/pts/") ++ [Bol]).

Definition device_rules : list Rule :=
  [allow [WRITE] [Literal "/dev/null"; Literal "/dev/zero"];
   allow [WRITE] [Regex tty_pattern; Regex ptmx_pattern; Regex pts_pattern]].

Lemma devices_read : reads_as DEVICE_WRITE_RULES device_rules.
Proof. reads_constant. Qed.

Definition agent_socket_pattern : re :=
  cat_all ([Eol] ++ rev (chrs "/Listeners") ++ [Cat (Class true [("/", "/")%char]) (Rep (Class true [("/", "/")%char]))]
           ++ rev (chrs "/private/tmp/com.apple.launchd.") ++ [Bol]).

Lemma ssh_agent_reads : reads_as SSH_AGENT_NETWORK_DENY [deny ["network-outbound"] [Regex agent_socket_pattern]].
Proof. reads_constant. Qed.

(** ** The rule for git's configuration

    Its patterns are raw: read whole as long as no quote stands in the root. *)

Lemma run_raw acc s stack :
  free_of dq_byte s = true -> run (Some (InRaw acc, stack)) s = Some (InRaw (acc +:+ s), stack).
Proof.
  revert acc. induction s as [|c s IH]; intros acc F; [by rewrite append_empty_r|].
  cbn [free_of] in F. apply andb_true_iff in F as [C F]. apply negb_true_iff in C.
  cbn [run step]. rewrite C, IH by done. by rewrite snoc_append.
Qed.

Lemma free_of_escape s : free_of dq_byte s = true -> free_of dq_byte (sbpl_regex_escape s) = true.
Proof.
  induction s as [|c s IH]; [done|]. cbn [free_of sbpl_regex_escape]. intros [C F]%andb_true_iff.
  destruct (is_meta c); cbn [free_of]; by rewrite C, IH.
Qed.

Lemma reads_raw_clause p : free_of dq_byte p = true -> reads (raw_clause p) [List [Sym "regex"; Str p]].
Proof.
  intros F l stack. unfold raw_clause. rewrite rrun_app.
  change (run (Some (Plain, l :: stack)) "  (regex #") with (Some (Hash, [Sym "regex"] :: l :: stack)).
  rewrite rrun_app. change (run (Some (Hash, [Sym "regex"] :: l :: stack)) dq)
    with (Some (InRaw "", [Sym "regex"] :: l :: stack)).
  by rewrite rrun_app, run_raw by done.
Qed.

Definition git_rule (root : string) : Rule :=
  deny [WRITE] [Regex (around root GIT_FILES_AFTER); Regex (around root GIT_DIRS_AFTER)].

Lemma filter_of_regex p : filter_of (List [Sym "regex"; Str p]) = Regex <$> parse p.
Proof. done. Qed.

Lemma git_config_reads root :
  free_of dq_byte root = true -> reads_as (deny_git_exec_config root) [git_rule root].
Proof.
  intros F. apply free_of_escape in F.
  assert (P : forall p, p = git_files_pattern root \/ p = git_dirs_pattern root -> free_of dq_byte p = true).
  { intros p [-> | ->]; unfold git_files_pattern, git_dirs_pattern; rewrite !free_of_app, F; done. }
  assert (L : spells [raw_clause (git_files_pattern root); raw_clause (git_dirs_pattern root)]
                [Regex (around root GIT_FILES_AFTER); Regex (around root GIT_DIRS_AFTER)]).
  { repeat apply spells_cons; [| |apply spells_nil]; eexists; (split; [apply reads_raw_clause, P; auto|]); rewrite filter_of_regex;
      [by rewrite parse_git_files|by rewrite parse_git_dirs]. }
  unfold deny_git_exec_config. cbv zeta. by apply reads_lines.
Qed.

(** ** Grants and denies of the host's paths *)

Section host.
Context `{Env0 : HostEnv}.

(** The forms of a path a grant keeps. *)
Definition safe_forms (p : string) : list string := lfilter (fun q => negb (bin_resident q)) (forms p).

(** A loop over the two forms of a path, less those on a PATH. *)
Lemma spells_safe (line : string -> string) (f : string -> Filter) p ls w :
  (forall q, line_filter (line q) (f q)) -> spells ls w ->
  spells (foldl (fun out q => if bin_resident q then out else push_new out (line q)) ls (forms p))
    (w ++ (f <$> safe_forms p)).
Proof.
  intros L S. unfold safe_forms, forms. cbn [foldl lfilter].
  destruct (bin_resident p), (bin_resident (resolve_existing_prefix p)); cbn [negb fmap list_fmap].
  - by rewrite app_nil_r.
  - by apply spells_push.
  - by apply spells_push.
  - rewrite cons_middle, app_assoc. by repeat apply spells_push.
Qed.

Lemma spells_forms (line : string -> string) (f : string -> Filter) p ls w :
  (forall q, line_filter (line q) (f q)) -> spells ls w ->
  spells (foldl (fun out q => push_new out (line q)) ls (forms p)) (w ++ (f <$> forms p)).
Proof.
  intros L S. unfold forms. cbn [foldl fmap list_fmap]. rewrite cons_middle, app_assoc.
  by repeat apply spells_push.
Qed.

Definition granted (dirs : list string) : list Filter := mjoin ((fun d => Subpath <$> safe_forms d) <$> dirs).

Lemma subpath_grants_spell dirs : spells (subpath_grants dirs) (granted dirs).
Proof.
  unfold subpath_grants. apply (spells_fold _ (fun d => Subpath <$> safe_forms d) dirs [] []); [|apply spells_nil].
  intros ls w d S. by apply (spells_safe (clause "subpath") Subpath); [apply line_subpath|].
Qed.

Lemma literal_grants_spell p : spells (literal_grants p) (Literal <$> safe_forms p).
Proof. by apply (spells_safe (clause "literal") Literal p [] []); [apply line_literal|apply spells_nil]. Qed.

Definition credentials (dir : string) : list Filter :=
  (fun d => Regex (around d CREDENTIALS_AFTER)) <$> safe_forms dir.

Lemma credentials_spell dir : spells (claude_credentials_rules dir) (credentials dir).
Proof.
  unfold claude_credentials_rules.
  apply (spells_safe (fun d => clause "regex" _) (fun d => Regex (around d CREDENTIALS_AFTER)) dir [] []);
    [|apply spells_nil].
  intros d. apply line_regex, parse_credentials.
Qed.

Lemma deny_literal_spells p ls w : spells ls w -> spells (deny_literal p ls) (w ++ (Literal <$> forms p)).
Proof. apply (spells_forms (clause "literal") Literal), line_literal. Qed.

Lemma deny_subpath_spells p ls w : spells ls w -> spells (deny_subpath p ls) (w ++ (Subpath <$> forms p)).
Proof. apply (spells_forms (clause "subpath") Subpath), line_subpath. Qed.

Definition temp_files (dir : string) : list Filter := (fun d => Regex (around d TEMP_AFTER)) <$> forms dir.

Lemma deny_prefix_spells dir ls w :
  spells ls w -> spells (deny_prefix dir TEMP_PREFIX ls) (w ++ temp_files dir).
Proof.
  apply (spells_forms (fun d => clause "regex" (prefix_pattern d TEMP_PREFIX)) (fun d => Regex (around d TEMP_AFTER))).
  intros d. apply line_regex, parse_temp.
Qed.

Lemma block_reads ls w : spells ls w -> reads_as (block ls) [deny [READ; WRITE] w].
Proof. by apply (reads_lines ("(deny file-read* file-write*" +:+ newline) false [READ; WRITE]). Qed.

Lemma write_block_reads ls w : spells ls w -> reads_as (write_block ls) [deny [WRITE] w].
Proof. by apply (reads_lines ("(deny file-write*" +:+ newline) false [WRITE]). Qed.

(** A directory's login file and the temp files beside it. *)
Definition login (dir file : string) : list Filter := (Literal <$> forms (path_join dir file)) ++ temp_files dir.

Definition accounts (provider : string) : list Filter :=
  match accounts_root with Ok root => Subpath <$> forms (path_join root provider) | Err _ => [] end.

Definition claude_logins (home : string) (relocated : option string) : list Filter :=
  login (path_join home ".claude") CLAUDE_CREDENTIALS_FILE
  ++ (match relocated with Some dir => login dir CLAUDE_CREDENTIALS_FILE | None => [] end)
  ++ accounts "claude".

Definition codex_logins (home : string) : list Filter :=
  login (codex_home_dir home) "auth.json" ++ accounts "codex".

Lemma login_spells dir file ls w :
  spells ls w -> spells (deny_prefix dir TEMP_PREFIX (deny_literal (path_join dir file) ls)) (w ++ login dir file).
Proof. intros S. unfold login. rewrite app_assoc. by apply deny_prefix_spells, deny_literal_spells. Qed.

Lemma accounts_spells provider ls w :
  spells ls w ->
  spells (match accounts_root with Ok root => deny_subpath (path_join root provider) ls | Err _ => ls end)
    (w ++ accounts provider).
Proof. intros S. unfold accounts. destruct accounts_root; [by apply deny_subpath_spells|by rewrite app_nil_r]. Qed.

Lemma claude_logins_read home relocated :
  reads_as (deny_host_claude_logins home relocated) [deny [READ; WRITE] (claude_logins home relocated)].
Proof.
  unfold deny_host_claude_logins, claude_logins. cbv zeta. apply block_reads.
  rewrite app_assoc. apply accounts_spells.
  pose proof (login_spells (path_join home ".claude") CLAUDE_CREDENTIALS_FILE [] [] spells_nil) as S.
  destruct relocated as [dir|]; [by apply login_spells|by rewrite app_nil_r].
Qed.

Lemma codex_logins_read home :
  reads_as (deny_host_codex_logins home) [deny [READ; WRITE] (codex_logins home)].
Proof.
  unfold deny_host_codex_logins, codex_logins. cbv zeta. apply block_reads, accounts_spells.
  apply (login_spells _ _ [] [] spells_nil).
Qed.

Definition git_credentials (home : string) : list Filter :=
  (Subpath <$> forms (path_join home ".ssh")) ++ (Literal <$> forms (path_join home ".git-credentials"))
  ++ mjoin ((fun root => (Subpath <$> forms (path_join root "gh"))
                         ++ (Literal <$> forms (path_join (path_join root "git") "credentials"))) <$> config_roots home)
  ++ (match env_dir "GH_CONFIG_DIR" with Some d => Subpath <$> forms d | None => [] end).

Definition sockets (home : string) : list Filter :=
  mjoin ((fun path => Literal <$> forms path) <$> cache_sockets home).

Definition git_credential_rules (home : string) : list Rule :=
  [deny [READ; WRITE] (git_credentials home); deny ["network-outbound"] [Regex agent_socket_pattern];
   deny ["network-outbound"] (sockets home)].

Lemma git_credentials_spell home : spells (git_credential_denies home) (git_credentials home).
Proof.
  unfold git_credential_denies, git_credentials. cbv zeta.
  pose proof (deny_literal_spells (path_join home ".git-credentials") _ _
                (deny_subpath_spells (path_join home ".ssh") [] [] spells_nil)) as S.
  apply (spells_fold (fun deny root => deny_literal (path_join (path_join root "git") "credentials")
           (deny_subpath (path_join root "gh") deny))
           (fun root => (Subpath <$> forms (path_join root "gh"))
              ++ (Literal <$> forms (path_join (path_join root "git") "credentials"))) (config_roots home)) in S.
  - rewrite !app_assoc. destruct (env_dir "GH_CONFIG_DIR"); [by apply deny_subpath_spells|by rewrite app_nil_r].
  - intros ls w root S'. rewrite app_assoc. by apply deny_literal_spells, deny_subpath_spells.
Qed.

Lemma socket_deny_reads home : reads_as (socket_deny (cache_sockets home)) [deny ["network-outbound"] (sockets home)].
Proof.
  apply (reads_lines ("(deny network-outbound" +:+ newline) false ["network-outbound"]); [done|].
  apply (spells_fold _ (fun path => Literal <$> forms path) (cache_sockets home) [] []); [|apply spells_nil].
  intros ls w p S. by apply (spells_forms (clause "literal") Literal); [apply line_literal|].
Qed.

Lemma git_credentials_read home : reads_as (deny_host_git_credentials home) (git_credential_rules home).
Proof.
  unfold deny_host_git_credentials. apply reads_as_after; [by intros l stack|].
  apply (reads_as_app _ _ [_] [_; _]); [apply block_reads, git_credentials_spell|].
  apply reads_as_after; [by intros l stack|]. apply (reads_as_app _ _ [_] [_]); [apply ssh_agent_reads|].
  apply reads_as_after; [by intros l stack|]. apply socket_deny_reads.
Qed.

(** ** The engine's data directory *)

Definition engine_rules (data_dir home : string) (state_roots : list string) : list Rule :=
  let data_dir := resolve_existing_prefix data_dir in
  let git_dist := allow [READ] [Subpath (path_join data_dir INSTALL_DIR_NAME)] in
  if path_starts_with data_dir (bundle_dir home) then [git_dist]
  else deny [READ; WRITE] [Subpath data_dir] :: git_dist
       :: ((fun root => allow [READ; WRITE] [Subpath (resolve_existing_prefix root)]) <$> state_roots).

Definition engine_data_rules `{Published} (home : string) (state_roots : list string) : list Rule :=
  match configured_data_dir with Some dir => engine_rules dir home state_roots | None => [] end.

(** Rules each on a line of its own. *)
Lemma rules_join {A} (line : A -> string) (rule : A -> Rule) xs :
  (forall x, reads_as (line x) [rule x]) -> reads_as (join newline (line <$> xs)) (rule <$> xs).
Proof.
  intros R. induction xs as [|x xs IH]; [by apply reads_as_nil|]. destruct xs as [|y xs]; [apply R|].
  change (join newline (line <$> x :: y :: xs)) with (line x +:+ (newline +:+ join newline (line <$> y :: xs))).
  apply (reads_as_app _ _ [rule x]); [apply R|]. apply reads_as_after; [by intros l stack|exact IH].
Qed.

Lemma engine_rules_read data_dir home roots :
  reads_as (engine_data_dir_rules data_dir home roots) (engine_rules data_dir home roots).
Proof.
  unfold engine_data_dir_rules, engine_rules. cbv zeta. destruct (path_starts_with _ _).
  - by apply reads_subpath_rule.
  - eapply reads_subpath_then; [done|reflexivity|]. eapply reads_subpath_then; [done|reflexivity|].
    apply reads_as_after; [by intros l stack|]. apply rules_join. intros root. by apply reads_subpath_rule.
Qed.

Lemma engine_data_read `{Published} home roots :
  reads_as (block_after (deny_engine_data_dir home roots)) (engine_data_rules home roots).
Proof.
  unfold block_after, deny_engine_data_dir, engine_data_rules. destruct configured_data_dir as [dir|].
  - destruct (is_empty _) eqn:E.
    + apply is_empty_true in E. rewrite E. pose proof (engine_rules_read dir home roots) as R. by rewrite E in R.
    + do 2 (apply reads_as_after; [by intros l stack|]). apply engine_rules_read.
  - by apply reads_as_nil.
Qed.

(** ** Configuration that names programs *)

Definition exec_config (home : string) (codex_home relocated : option string) : list Filter :=
  let link dir name := [path_join dir name; path_join (resolve_existing_prefix dir) name] in
  let denials := provider_exec_config_denials home in
  mjoin ((fun p => Literal <$> forms p) <$>
    pe_files denials
    ++ (match codex_home with Some dir => link dir "config.toml" | None => [] end)
    ++ (match relocated with Some dir => link dir "settings.json" | None => [] end))
  ++ mjoin ((fun p => Subpath <$> forms p) <$> pe_dirs denials).

Lemma kind_spells kind (f : string -> Filter) paths ls w :
  (forall p, line_filter (clause kind p) (f p)) -> spells ls w ->
  spells (foldl (fun out p => foldl (fun out form => push_new out (clause kind form)) out (forms p)) ls paths)
    (w ++ mjoin ((fun p => f <$> forms p) <$> paths)).
Proof.
  intros L. apply (spells_fold _ (fun p => f <$> forms p)). intros ls' w' p S.
  by apply (spells_forms (clause kind) f).
Qed.

Lemma exec_config_read home codex_home relocated :
  reads_as (deny_provider_exec_config home codex_home relocated)
    [deny [WRITE] (exec_config home codex_home relocated)].
Proof.
  unfold deny_provider_exec_config, exec_config. cbv zeta. cbn [foldl].
  set (files := pe_files _ ++ _). set (dirs := pe_dirs _).
  set (lines := foldl _ (foldl _ [] files) dirs).
  assert (S : spells lines (mjoin ((fun p => Literal <$> forms p) <$> files)
                            ++ mjoin ((fun p => Subpath <$> forms p) <$> dirs))).
  { apply (kind_spells "subpath" Subpath); [apply line_subpath|].
    apply (kind_spells "literal" Literal files [] []); [apply line_literal|apply spells_nil]. }
  clearbody lines. destruct lines as [|line lines].
  - destruct S as (fs & F & E). inversion F; subst. exfalso.
    apply (not_elem_of_nil (Literal (path_join (path_join home ".gemini") "settings.json"))), E.
    subst files. unfold provider_exec_config_denials. cbn [pe_files app fmap list_fmap mjoin list_join forms].
    set_solver.
  - by apply reads_lines.
Qed.

(** ** The folders macOS guards *)

(** The forms a grant keeps, each once. *)
Definition distinct_forms (p : string) : list string := foldl push_new [] (safe_forms p).

(** Of some roots, the forms of those inside a guarded folder. *)
Definition reopened (home : string) (roots : list string) : list string :=
  mjoin (distinct_forms <$> lfilter (inside_macos_privacy_dir home) roots).

Definition privacy_rules (home : string) (writable readable : list string) : list Rule :=
  deny [READ; WRITE] (Subpath <$> macos_privacy_dirs home)
  :: ((fun p => allow [READ; WRITE] [Subpath p]) <$> reopened home writable)
  ++ ((fun p => allow [READ] [Subpath p]) <$> reopened home readable).

Lemma subpath_clause_inj p q : clause "subpath" p = clause "subpath" q -> p = q.
Proof. intros E. pose proof (line_subpath p) as L. rewrite E in L. by simplify_eq (line_filter_inj _ _ _ L (line_subpath q)). Qed.

Lemma subpath_grants_forms p : subpath_grants [p] = clause "subpath" <$> distinct_forms p.
Proof.
  unfold subpath_grants, distinct_forms, safe_forms, forms. cbn [foldl lfilter].
  set (q := resolve_existing_prefix p). destruct (bin_resident p), (bin_resident q); cbn [negb foldl fmap list_fmap]; try done.
  unfold push_new. cbn [lcontains existsb app orb]. destruct (eqb q p) eqn:E.
  - apply eqb_eq in E as ->. by rewrite eqb_refl.
  - assert (eqb (clause "subpath" q) (clause "subpath" p) = false) as ->; [|done].
    apply eqb_neq. intros C%subpath_clause_inj. by apply eqb_neq in E.
Qed.

Definition reallow_line (ops p : string) : string :=
  "(allow " +:+ ops +:+ newline +:+ clause "subpath" p +:+ ")".

Lemma reallow_lines ops roots :
  mjoin ((fun root => (fun line => "(allow " +:+ ops +:+ newline +:+ line +:+ ")") <$> subpath_grants [root]) <$> roots)
  = reallow_line ops <$> mjoin (distinct_forms <$> roots).
Proof.
  induction roots as [|root roots IH]; [done|]. rewrite !mjoin_fmap_cons, IH, fmap_app, subpath_grants_forms.
  f_equal. by rewrite <- list_fmap_compose.
Qed.

(** The re-allows, each with whether it is of writes too. *)
Definition reallow_of (x : bool * string) : string :=
  reallow_line (if x.1 then "file-read* file-write*" else "file-read*") x.2.
Definition reallow_rule (x : bool * string) : Rule := allow (if x.1 then [READ; WRITE] else [READ]) [Subpath x.2].

Lemma reallow_reads x : reads_as (reallow_of x) [reallow_rule x].
Proof.
  destruct x as [[] p]; unfold reallow_of, reallow_line, reallow_rule; cbn [fst snd];
    [apply (reads_lines ("(allow file-read* file-write*" +:+ newline) true [READ; WRITE] [clause "subpath" p])
    |apply (reads_lines ("(allow file-read*" +:+ newline) true [READ] [clause "subpath" p])];
    try done; apply spells_one, line_subpath.
Qed.

Lemma privacy_read home writable readable :
  reads_as (deny_macos_privacy_dirs home writable readable) (privacy_rules home writable readable).
Proof.
  unfold deny_macos_privacy_dirs, privacy_rules. cbv zeta. rewrite !reallow_lines.
  fold (reopened home writable) (reopened home readable).
  set (xs := (pair true <$> reopened home writable) ++ (pair false <$> reopened home readable)).
  replace (_ ++ _) with (reallow_of <$> xs) by
    (unfold xs; by rewrite fmap_app, <- !list_fmap_compose).
  replace (_ ++ _) with (reallow_rule <$> xs) by
    (unfold xs; by rewrite fmap_app, <- !list_fmap_compose).
  match goal with |- reads_as (?h +:+ ?b +:+ ")" +:+ ?r) _ =>
    replace (h +:+ b +:+ ")" +:+ r) with ((h +:+ b +:+ ")") +:+ r) by by rewrite <- !append_assoc end.
  apply (reads_as_app _ _ [_]).
  - apply reads_lines; [done|]. apply spells_fmap, line_subpath.
  - clearbody xs. destruct xs as [|x xs]; [by apply reads_as_nil|].
    apply reads_as_after; [by intros l stack|]. apply (rules_join reallow_of reallow_rule), reallow_reads.
Qed.
End host.
