(* ===== verification/SeatbeltReads.v ===== *)
(** * The profiles read back

    [build_profile] and [build_run_profile] of Seatbelt.v, as whole texts: whatever bytes the paths
    hold, the sandbox reads the rules [agent_rules] and [run_rules], nothing more and nothing less. *)

From Stdlib Require Import Ascii.
From S2P Require Import Prelude RustStr RustText Paths Ere Sbpl SandboxPolicy Seatbelt SeatbeltRules.
Import Reader.

Local Open Scope string_scope.
Local Open Scope list_scope.

(** ** The grants of the first block *)

Definition spells_text (s : string) (wanted : list Filter) : Prop :=
  exists forms fs, reads s forms /\ mapM filter_of forms = Some fs /\ forall f, f ∈ fs <-> f ∈ wanted.

Lemma text_blank s : reads s [] -> spells_text s [].
Proof. intros R. by exists [], []. Qed.

Lemma text_line line f : line_filter line f -> spells_text line [f].
Proof. intros (x & R & E). exists [x], [f]. split_and!; [done| |done]. cbn. by rewrite E. Qed.

Lemma text_lines lines w : spells lines w -> spells_text (join newline lines) w.
Proof.
  intros (fs & F & E). destruct (reads_join newline lines fs) as (forms & R & M); [by intros l stack|done|].
  by exists forms, fs.
Qed.

Lemma text_app s1 s2 w1 w2 : spells_text s1 w1 -> spells_text s2 w2 -> spells_text (s1 +:+ s2) (w1 ++ w2).
Proof.
  intros (f1 & g1 & R1 & M1 & E1) (f2 & g2 & R2 & M2 & E2). exists (f1 ++ f2), (g1 ++ g2). split_and!.
  - by apply reads_app.
  - apply mapM_Some. apply mapM_Some in M1, M2. by apply Forall2_app.
  - intros f. by rewrite !elem_of_app, E1, E2.
Qed.

Lemma text_next s w : spells_text s w -> spells_text (newline +:+ s) w.
Proof. intros S. apply (text_app newline s [] w); [|done]. apply text_blank. by intros l stack. Qed.

(** A text read inside the open list of grants: it spells the rest of them, closes the list and goes
    on with these rules. *)
Definition completes (s : string) (wanted : list Filter) (rules : list Rule) : Prop :=
  exists forms fs more rs,
    (forall l below stack, run (Some (Plain, l :: below :: stack)) s
       = Some (Plain, (rev more ++ List (rev (rev forms ++ l)) :: below) :: stack))
    /\ mapM filter_of forms = Some fs /\ (forall f, f ∈ fs <-> f ∈ wanted)
    /\ mapM rule_of more = Some rs /\ Forall2 same_rule rs rules.

Lemma completes_close m m' rest rules :
  strip_prefix ")" m = Some m' -> reads_as (m' +:+ rest) rules -> completes (m +:+ rest) [] rules.
Proof.
  intros M (more & rs & R & Q & S). apply strip_prefix_Some in M as ->. exists [], [], more, rs.
  split_and!; try done. intros l below stack. rewrite <- append_assoc, rrun_app. cbn [run step plain].
  unfold pushed, push. cbn [mbind option_bind rev app]. apply R.
Qed.

Lemma completes_after s1 s2 w1 w2 rules :
  spells_text s1 w1 -> completes s2 w2 rules -> completes (s1 +:+ s2) (w1 ++ w2) rules.
Proof.
  intros (f1 & g1 & R1 & M1 & E1) (f2 & g2 & more & rs & R2 & M2 & E2 & Q & S).
  exists (f1 ++ f2), (g1 ++ g2), more, rs. split_and!; [| | |done|done].
  - intros l below stack. rewrite rrun_app, R1, R2. by rewrite (rev_app_distr f1 f2), <- app_assoc.
  - apply mapM_Some. apply mapM_Some in M1, M2. by apply Forall2_app.
  - intros f. by rewrite !elem_of_app, E1, E2.
Qed.

Lemma completes_blank s1 s2 w rules : reads s1 [] -> completes s2 w rules -> completes (s1 +:+ s2) w rules.
Proof. intros R. apply (completes_after s1 s2 [] w). by apply text_blank. Qed.

(** What every profile starts with. *)
Definition profile_rules (grants : list Filter) (rest : list Rule) : list Rule :=
  allow ["default"] [] :: deny [WRITE] [] :: allow [WRITE] grants :: rest.

Lemma preamble_completes s wanted rules :
  completes s wanted rules ->
  exists rs, read_profile (PREAMBLE +:+ s) = Some rs /\ Forall2 same_rule rs (profile_rules wanted rules).
Proof.
  intros (forms & fs & more & rs & R & M & E & Q & S).
  exists (allow ["default"] [] :: deny [WRITE] [] :: allow [WRITE] fs :: rs). split.
  - unfold read_profile, Reader.read. rewrite rrun_app.
    change (run (Some (Plain, [[]])) PREAMBLE)
      with (Some (Plain, [[Sym WRITE; Sym "allow"];
             [List [Sym "deny"; Sym WRITE]; List [Sym "allow"; Sym "default"]; List [Sym "version"; Sym "1"]]])).
    rewrite R. cbn [mbind option_bind].
    replace (rev _) with (List [Sym "version"; Sym "1"] :: List [Sym "allow"; Sym "default"]
      :: List [Sym "deny"; Sym WRITE] :: List (Sym "allow" :: (Sym <$> [WRITE]) ++ forms) :: more).
    + apply mapM_Some. apply mapM_Some in Q. repeat (constructor; [done|]). constructor; [|done].
      cbn [rule_of]. by rewrite (clauses_of_ops [WRITE] forms fs M).
    + rewrite rev_app_distr, rev_involutive. cbn [rev app].
      by rewrite rev_app_distr, rev_involutive.
  - do 2 (constructor; [done|]). constructor; [by split_and!|done].
Qed.

(** ** The rules of an agent's profile *)

(** The paths of a launch as the host resolves them. *)
Record Resolved := {
  re_writable_root : string;
  re_rpc_root : string;
  re_home : string;
  re_blackboard : option string;
  re_adopted : option string;
}.

Section rules.
Context `{Env0 : HostEnv} `{Data0 : Published}.

Definition resolve_launch (la : Launch) : result Resolved string :=
  let? writable_root := canonical (la_writable_root la) in
  let? rpc_root := canonical (la_rpc_dir la) in
  let? home := canonical (la_home la) in
  let? blackboard := opt_result canonical (la_blackboard la) in
  let? adopted := opt_result canonical (la_adopted_workspace la) in
  Ok {| re_writable_root := writable_root; re_rpc_root := rpc_root; re_home := home;
        re_blackboard := blackboard; re_adopted := adopted |}.

Definition adopted_to (read_only : bool) (la : Launch) (r : Resolved) : option string :=
  if Bool.eqb (la_adopted_read_only la) read_only then re_adopted r else None.

Definition relocated_grants (relocated : option string) : list Filter :=
  match relocated with
  | Some dir =>
      granted (claude_write_island_dirs dir) ++ credentials dir
      ++ (Literal <$> safe_forms (path_join dir ".claude.json"))
  | None => []
  end.

(** Everything an agent may write, before the denies. *)
Definition agent_grants (la : Launch) (r : Resolved) : list Filter :=
  [Subpath (re_writable_root r); Subpath (re_rpc_root r)]
  ++ (Subpath <$> option_list (re_blackboard r)) ++ (Subpath <$> option_list (adopted_to false la r))
  ++ [Subpath "/private/tmp"; Subpath "/private/var/folders"; Subpath "/private/var/tmp";
      Literal (re_home r +:+ "/.claude.json")]
  ++ credentials (path_join (re_home r) ".claude")
  ++ relocated_grants (relocated_claude (re_home r) (la_claude_config_dir la))
  ++ granted (option_list (la_codex_home la)) ++ granted (granted_writable la)
  ++ granted (all_provider_state_dirs (re_home r) ++ agent_scratch_dirs (re_home r) ++ [la_toolchain_cache la]).

(** The roots a repository may stand in. *)
Definition repo_roots (la : Launch) (r : Resolved) : list string :=
  re_writable_root r :: option_list (re_adopted r) ++ granted_writable la.

Definition adopted_rules (la : Launch) (r : Resolved) : list Rule :=
  match la_adopted_workspace la, adopted_to true la r with
  | Some given, Some resolved => [deny [WRITE] (Subpath <$> forms given ++ forms resolved)]
  | _, _ => []
  end.

Definition writable_roots (la : Launch) (r : Resolved) : list string :=
  [re_writable_root r; re_rpc_root r; la_toolchain_cache la] ++ option_list (adopted_to false la r)
  ++ option_list (re_blackboard r) ++ granted_writable la.

Definition readable_roots (la : Launch) (r : Resolved) : list string :=
  la_source_repos la ++ option_list (adopted_to true la r) ++ granted_readable la.

(** The rules after the grants, up to those that close off logins. *)
Definition agent_denies (la : Launch) (r : Resolved) : list Rule :=
  deny [READ; WRITE] [Subpath (bundle_dir (re_home r))]
  :: engine_data_rules (re_home r) [re_writable_root r; re_rpc_root r; la_toolchain_cache la]
  ++ privacy_rules (re_home r) (writable_roots la r) (readable_roots la r)
  ++ (git_rule <$> repo_roots la r) ++ adopted_rules la r
  ++ [deny [WRITE] (exec_config (re_home r) (la_codex_home la)
                      (relocated_claude (re_home r) (la_claude_config_dir la)))].

(** The last rules. *)
Definition login_rules (la : Launch) (r : Resolved) : list Rule :=
  [deny [READ; WRITE] (claude_logins (re_home r) (relocated_claude (re_home r) (la_claude_config_dir la)));
   deny [READ; WRITE] (codex_logins (re_home r))]
  ++ git_credential_rules (re_home r)
  ++ [keychain_rule;
      deny [WRITE] (((fun dir => Subpath (app_support (re_home r) +:+ "/" +:+ dir)) <$> APP_SUPPORT_EXEC_DIRS)
             ++ ((fun file => Literal (app_support (re_home r) +:+ "/" +:+ file)) <$> APP_SUPPORT_EXEC_FILES))].

Definition agent_rules (la : Launch) (r : Resolved) : list Rule :=
  profile_rules (agent_grants la r) (agent_denies la r ++ login_rules la r ++ device_rules).

Definition run_grants (writable_root home toolchain_cache : string) (extra_writable : list string) : list Filter :=
  (Subpath <$> [writable_root; "/private/tmp"; "/private/var/folders"; "/private/var/tmp"])
  ++ (Subpath <$> agent_scratch_dirs home) ++ granted [toolchain_cache]
  ++ ((fun d => Subpath (home +:+ "/" +:+ d)) <$> RUN_TOOLCHAIN_DIRS) ++ (Subpath <$> extra_writable).

Definition run_denies (writable_root home toolchain_cache : string) : list Rule :=
  deny [READ; WRITE] [Subpath (bundle_dir home)]
  :: engine_data_rules home [writable_root; toolchain_cache]
  ++ [allow [READ; WRITE] [Subpath (bundle_dir home +:+ "/dev")];
      deny [READ; WRITE] (claude_logins home None); deny [READ; WRITE] (codex_logins home)]
  ++ device_rules.

Definition run_rules (writable_root home toolchain_cache : string) (extra_writable : list string) : list Rule :=
  profile_rules (run_grants writable_root home toolchain_cache extra_writable)
    (run_denies writable_root home toolchain_cache).

(** ** The texts *)

Lemma text_option {A} (line : A -> string) (f : A -> Filter) (o : option A) :
  (forall x, line_filter (line x) (f x)) ->
  spells_text (match o with Some x => newline +:+ line x | None => "" end) (f <$> option_list o).
Proof. intros L. destruct o as [x|]; [by apply text_next, text_line|by apply text_blank]. Qed.

Lemma Ok_eq {A E} (a b : A) : @Ok A E a = Ok b -> a = b.
Proof. by injection 1. Qed.

(** A blank between two blocks. *)
Ltac blank := apply reads_as_after; [by intros l stack|].

Lemma login_blocks_read home relocated rest rules :
  reads_as rest rules ->
  reads_as (deny_host_claude_logins home relocated +:+ "

" +:+ deny_host_codex_logins home +:+ "

" +:+ rest) (deny [READ; WRITE] (claude_logins home relocated) :: deny [READ; WRITE] (codex_logins home) :: rules).
Proof.
  intros R. apply (reads_as_app _ _ [_] (_ :: _)); [apply claude_logins_read|]. blank.
  apply (reads_as_app _ _ [_] rules); [apply codex_logins_read|]. by blank.
Qed.

Lemma last_block_reads : reads_as (DEVICE_WRITE_RULES +:+ "
") device_rules.
Proof.
  rewrite <- (app_nil_r device_rules). apply reads_as_app; [apply devices_read|].
  apply reads_as_nil. by intros l stack.
Qed.

Lemma completes_only s1 s2 w rules : spells_text s1 w -> completes s2 [] rules -> completes (s1 +:+ s2) w rules.
Proof. intros S C. rewrite <- (app_nil_r w). by apply completes_after. Qed.

(** What a Run command is confined by, whatever bytes its paths hold. *)
Theorem run_profile_reads writable_root home cache extra s :
  build_run_profile writable_root home cache extra = Ok s ->
  exists w h rs, canonical writable_root = Ok w /\ canonical home = Ok h
    /\ read_profile s = Some rs /\ Forall2 same_rule rs (run_rules w h cache extra).
Proof.
  unfold build_run_profile. destruct (canonical writable_root) as [w|] eqn:W; [|done].
  destruct (canonical home) as [h|] eqn:Hh; [|done]. cbv zeta. intros <-%Ok_eq.
  match goal with |- context [read_profile (PREAMBLE +:+ ?s)] =>
    enough (C : completes s (run_grants w h cache extra) (run_denies w h cache)) end.
  { apply preamble_completes in C as (rs & E & F). by exists w, h, rs. }
  unfold run_grants, run_denies.
  apply completes_only.
  { apply text_lines. repeat apply spells_app; try (apply spells_fmap; intros d; apply line_subpath).
    apply subpath_grants_spell. }
  eapply completes_close; [reflexivity|]. blank. apply (reads_as_app _ _ [_]); [apply app_data_reads|].
  apply reads_as_app; [apply engine_data_read|]. cbn [app].
  eapply reads_subpath_then; [done|reflexivity|]. blank. apply login_blocks_read, last_block_reads.
Qed.

Lemma text_new_lines lines w : spells lines w -> spells_text (on_new_line lines) w.
Proof. intros S. by apply text_next, text_lines. Qed.

Lemma adopted_grant_text la r :
  spells_text
    (match re_adopted r with
     | Some dir => if la_adopted_read_only la then "" else newline +:+ clause "subpath" dir
     | None => ""
     end) (Subpath <$> option_list (adopted_to false la r)).
Proof.
  unfold adopted_to. destruct (re_adopted r) as [dir|], (la_adopted_read_only la); cbn;
    try (by apply text_blank); apply text_next, text_line, line_subpath.
Qed.

Lemma relocated_text relocated :
  spells_text
    (match relocated with
     | Some resolved =>
         on_new_line (subpath_grants (claude_write_island_dirs resolved)
           ++ claude_credentials_rules resolved ++ literal_grants (path_join resolved ".claude.json"))
     | None => ""
     end) (relocated_grants relocated).
Proof.
  destruct relocated as [dir|]; [|by apply text_blank]. apply text_new_lines.
  repeat apply spells_app; [apply subpath_grants_spell|apply credentials_spell|apply literal_grants_spell].
Qed.

Lemma codex_home_text codex_home :
  spells_text (match codex_home with Some dir => on_new_line (subpath_grants [dir]) | None => "" end)
    (granted (option_list codex_home)).
Proof. destruct codex_home as [dir|]; [|by apply text_blank]. apply text_new_lines, subpath_grants_spell. Qed.

Lemma folder_grants_text dirs :
  spells_text (optional_lines (subpath_grants dirs)) (granted dirs).
Proof.
  pose proof (subpath_grants_spell dirs) as S. destruct (subpath_grants dirs); [|by apply text_new_lines].
  apply (text_lines [] _ S).
Qed.

Lemma adopted_rules_read la r :
  reads_as
    (match re_adopted r, la_adopted_workspace la with
     | Some resolved, Some given =>
         if la_adopted_read_only la then
";; The adopted checkout is this agent's to read, never to write.
" +:+ write_block (deny_subpath resolved (deny_subpath given []))
         else ""
     | _, _ => ""
     end) (adopted_rules la r).
Proof.
  unfold adopted_rules, adopted_to.
  destruct (re_adopted r) as [dir|], (la_adopted_workspace la) as [given|], (la_adopted_read_only la);
    cbn [Bool.eqb]; try (by apply reads_as_nil).
  blank. apply write_block_reads. rewrite fmap_app.
  apply deny_subpath_spells, (deny_subpath_spells given [] []), spells_nil.
Qed.

Lemma git_configs_read roots :
  Forall (fun root => free_of dq_byte root = true) roots ->
  reads_as (join (newline +:+ newline) (deny_git_exec_config <$> roots)) (git_rule <$> roots).
Proof.
  intros F. induction F as [|root roots Q F IH]; [by apply reads_as_nil|].
  destruct roots as [|root' roots]; [by apply git_config_reads|].
  change (join (newline +:+ newline) (deny_git_exec_config <$> root :: root' :: roots))
    with (deny_git_exec_config root +:+ ((newline +:+ newline)
            +:+ join (newline +:+ newline) (deny_git_exec_config <$> root' :: roots))).
  apply (reads_as_app _ _ [_]); [by apply git_config_reads|]. by blank.
Qed.

(** The rest of an agent's profile, from where its grants close. *)
Definition closing_text (la : Launch) (r : Resolved) : string :=
  ")

" +:+ deny_app_data_dir (re_home r)
  +:+ block_after (deny_engine_data_dir (re_home r)
        [re_writable_root r; re_rpc_root r; la_toolchain_cache la]) +:+ "

" +:+ deny_macos_privacy_dirs (re_home r) (writable_roots la r) (readable_roots la r) +:+ "

" +:+ join (newline +:+ newline) (deny_git_exec_config <$> repo_roots la r) +:+ "

" +:+ (match re_adopted r, la_adopted_workspace la with
     | Some resolved, Some given =>
         if la_adopted_read_only la then
";; The adopted checkout is this agent's to read, never to write.
" +:+ write_block (deny_subpath resolved (deny_subpath given []))
         else ""
     | _, _ => ""
     end) +:+ "

" +:+ deny_provider_exec_config (re_home r) (la_codex_home la)
      (relocated_claude (re_home r) (la_claude_config_dir la)) +:+ "

" +:+ deny_host_claude_logins (re_home r) (relocated_claude (re_home r) (la_claude_config_dir la)) +:+ "

" +:+ deny_host_codex_logins (re_home r) +:+ "

" +:+ deny_host_git_credentials (re_home r) +:+ "

" +:+ KEYCHAIN_MACH_DENY +:+ "

" +:+ deny_appsupport_exec (re_home r) +:+ "

" +:+ DEVICE_WRITE_RULES +:+ "
".

Lemma closing_completes la r :
  Forall (fun root => free_of dq_byte root = true) (repo_roots la r) ->
  completes (closing_text la r) [] (agent_denies la r ++ login_rules la r ++ device_rules).
Proof.
  intros Q. unfold closing_text, agent_denies, login_rules. rewrite <- !app_comm_cons, <- !app_assoc.
  eapply completes_close; [reflexivity|]. blank. apply (reads_as_app _ _ [_]); [apply app_data_reads|].
  apply reads_as_app; [apply engine_data_read|]. blank.
  apply reads_as_app; [apply privacy_read|]. blank.
  apply reads_as_app; [by apply git_configs_read|]. blank.
  apply reads_as_app; [apply adopted_rules_read|]. blank.
  apply (reads_as_app _ _ [_]); [apply exec_config_read|]. blank.
  apply login_blocks_read. apply (reads_as_app _ _ (git_credential_rules _)); [apply git_credentials_read|]. blank.
  apply (reads_as_app _ _ [_] (_ :: _)); [apply keychain_reads|]. blank.
  apply (reads_as_app _ _ [_]); [apply appsupport_reads|]. blank. apply last_block_reads.
Qed.

(** The grants of an agent's profile, and what follows them. *)
Definition grants_text (la : Launch) (r : Resolved) (m : string) : string :=
  clause "subpath" (re_writable_root r) +:+ newline
    +:+ clause "subpath" (re_rpc_root r)
    +:+ (match re_blackboard r with Some board => newline +:+ clause "subpath" board | None => "" end)
    +:+ (match re_adopted r with
         | Some dir => if la_adopted_read_only la then "" else newline +:+ clause "subpath" dir
         | None => ""
         end)
    +:+ text "
  (subpath @/private/tmp@)
  (subpath @/private/var/folders@)
  (subpath @/private/var/tmp@)
" +:+ clause "literal" (re_home r +:+ "/.claude.json") +:+ newline
    +:+ join newline (claude_credentials_rules (path_join (re_home r) ".claude"))
    +:+ (match relocated_claude (re_home r) (la_claude_config_dir la) with
         | Some resolved =>
             on_new_line (subpath_grants (claude_write_island_dirs resolved)
               ++ claude_credentials_rules resolved ++ literal_grants (path_join resolved ".claude.json"))
         | None => ""
         end)
    +:+ (match la_codex_home la with Some dir => on_new_line (subpath_grants [dir]) | None => "" end)
    +:+ optional_lines (subpath_grants (granted_writable la)) +:+ newline
    +:+ join newline (subpath_grants (all_provider_state_dirs (re_home r) ++ agent_scratch_dirs (re_home r)
          ++ [la_toolchain_cache la]))
    +:+ m.

Lemma grants_complete la r rules m :
  completes m [] rules -> completes (grants_text la r m) (agent_grants la r) rules.
Proof.
  intros C. unfold grants_text, agent_grants.
  apply (completes_after _ _ [_] (_ :: _)); [apply text_line, line_subpath|].
  apply completes_blank; [by intros l stack|].
  apply (completes_after _ _ [_]); [apply text_line, line_subpath|].
  apply completes_after; [apply (text_option (clause "subpath") Subpath), line_subpath|].
  apply completes_after; [apply adopted_grant_text|].
  apply (completes_after _ _ [_; _; _] (_ :: _)).
  { eexists [List [Sym "subpath"; Str "/private/tmp"]; List [Sym "subpath"; Str "/private/var/folders"];
             List [Sym "subpath"; Str "/private/var/tmp"]], _.
    split_and!; [intros l stack; vm_compute; reflexivity|reflexivity|done]. }
  apply (completes_after _ _ [_]); [apply text_line, line_literal|].
  apply completes_blank; [by intros l stack|].
  apply completes_after; [apply text_lines, credentials_spell|].
  apply completes_after; [apply relocated_text|].
  apply completes_after; [apply codex_home_text|].
  apply completes_after; [apply folder_grants_text|].
  apply completes_blank; [by intros l stack|].
  by apply completes_only; [apply text_lines, subpath_grants_spell|].
Qed.

Lemma adopted_to_filter la r (b : bool) :
  opt_filter (fun _ => if b then la_adopted_read_only la else negb (la_adopted_read_only la)) (re_adopted r)
  = adopted_to b la r.
Proof. unfold adopted_to. by destruct (re_adopted r), (la_adopted_read_only la), b. Qed.

(** The text of an agent's profile, from the resolved paths. *)
Lemma build_profile_text la :
  build_profile la =
    match resolve_launch la with
    | Ok r => Ok (PREAMBLE +:+ grants_text la r (closing_text la r))
    | Err e => Err e
    end.
Proof.
  unfold build_profile, resolve_launch.
  destruct (canonical (la_writable_root la)) as [w|]; [|done].
  destruct (canonical (la_rpc_dir la)) as [rpc|]; [|done].
  destruct (canonical (la_home la)) as [h|]; [|done]. cbv zeta.
  destruct (opt_result canonical (la_blackboard la)) as [b|]; [|done].
  destruct (opt_result canonical (la_adopted_workspace la)) as [a|]; [|done].
  unfold closing_text, writable_roots, readable_roots. rewrite <- !adopted_to_filter.
  cbv [grants_text closing_text repo_roots re_writable_root re_rpc_root re_home re_blackboard re_adopted]. reflexivity.
Qed.

Lemma build_profile_reads la s :
  build_profile la = Ok s ->
  exists r, resolve_launch la = Ok r /\
    (Forall (fun root => free_of dq_byte root = true) (repo_roots la r) ->
     exists rs, read_profile s = Some rs /\ Forall2 same_rule rs (agent_rules la r)).
Proof.
  rewrite build_profile_text. destruct (resolve_launch la) as [r|]; [|done]. intros <-%Ok_eq.
  exists r. split; [done|]. intros Q. by apply preamble_completes, grants_complete, closing_completes.
Qed.

(** (C5) Whatever bytes the paths of a launch hold, its profile reads as [agent_rules], as long as no root
    a repository may stand in holds a double quote. *)
Theorem agent_profile_reads la s :
  build_profile la = Ok s ->
  exists r, resolve_launch la = Ok r /\
    (Forall (fun root => free_of dq_byte root = true) (repo_roots la r) ->
     exists rs, read_profile s = Some rs /\ Forall2 same_rule rs (agent_rules la r)).
Proof. exact (build_profile_reads la s). Qed.
End rules.
