(* ===== verification/SeatbeltGuard.v ===== *)
(** * What the seatbelt profiles guarantee

    Over any sandbox that decides by the rules a profile reads as: where a confined agent may write,
    the logins it can neither read nor write, the files inside its own grants that it cannot write,
    the directories of Fletch it cannot see. Two things the comments of the source say otherwise are
    stated as they are. *)

From Stdlib Require Import Ascii.
From S2P Require Import Prelude RustStr RustText Paths Ere Sbpl SandboxPolicy Seatbelt SeatbeltRules SeatbeltReads.

Local Open Scope string_scope.
Local Open Scope list_scope.

(** ** Deciding by the last rule *)

Definition decide_from (b : bool) (rules : list Rule) (op t : string) : bool :=
  foldl (fun acc r => if applies r op t then ru_allow r else acc) b rules.

Lemma decide_from_app b r1 r2 op t : decide_from b (r1 ++ r2) op t = decide_from (decide_from b r1 op t) r2 op t.
Proof. apply foldl_app. Qed.

(** Rules none of which allows leave what was denied denied; and what they allow, one of them allows. *)
Lemma decide_from_true b rules op t :
  decide_from b rules op t = true -> b = true \/ exists r, r ∈ rules /\ ru_allow r = true /\ applies r op t = true.
Proof.
  revert b. induction rules as [|r rules IH]; intros b E; [by left|]. cbn in E. apply IH in E as [E|(r' & I & A & P)].
  - destruct (applies r op t) eqn:P; [right; exists r; set_solver|by left].
  - right. exists r'. set_solver.
Qed.

(** What a rule denies stays denied, but for what a later rule allows. *)
Lemma denied_after before d after op t :
  applies d op t = true -> ru_allow d = false ->
  decide_rules (before ++ d :: after) op t = true ->
  exists r, r ∈ after /\ ru_allow r = true /\ applies r op t = true.
Proof.
  intros P N E. change (decide_from false (before ++ d :: after) op t = true) in E.
  rewrite decide_from_app in E. cbn [decide_from foldl] in E. rewrite P, N in E.
  by apply (decide_from_true false) in E as [E|E].
Qed.

Lemma applies_true r op t :
  applies r op t = true ->
  (op ∈ ru_ops r \/ "default" ∈ ru_ops r) /\ (ru_filters r = [] \/ exists f, f ∈ ru_filters r /\ filter_matches f t = true).
Proof.
  unfold applies. intros [O F]%andb_true_iff. split.
  - by apply orb_true_iff in O as [O|O]; apply lcontains_true in O; auto.
  - destruct (ru_filters r) as [|f fs]; [by left|]. right. apply existsb_exists in F as (g & I & G).
    exists g. by rewrite list_elem_of_In.
Qed.

Lemma applies_one r op t f :
  op ∈ ru_ops r -> f ∈ ru_filters r -> filter_matches f t = true -> applies r op t = true.
Proof.
  intros O I M. unfold applies. rewrite (proj2 (lcontains_true _ _) O). cbn [orb andb].
  destruct (ru_filters r) as [|g fs]; [by apply elem_of_nil in I|]. apply existsb_exists.
  exists f. by rewrite <- list_elem_of_In.
Qed.

(** ** What the patterns match *)

Lemma found_around dir after t :
  found (around dir after) t <->
  exists t' post, t = dir +:+ t' +:+ post /\ den (cat_all after) (is_empty dir) t' (is_empty post).
Proof.
  unfold found, around. rewrite (cat_all_mid [Bol] dir after). cbn [foldl].
  setoid_rewrite den_cat_inv. setoid_rewrite den_lit. split.
  - intros (pre & mid & post & -> & s1 & s2 & -> & D & t' & -> & D'). inversion D; subst.
    destruct pre; [|done]. exists t', post. rewrite !append_nil, <- append_assoc. split; [done|].
    by cbn in D'.
  - intros (t' & post & -> & D). exists "", (dir +:+ t'), post. rewrite append_nil, append_assoc. split; [done|].
    exists "", (dir +:+ t'). rewrite append_nil. split_and!; [done|constructor|]. exists t'. by cbn.
Qed.

(** The files a directory's credentials pattern lets be written. *)
Lemma credentials_match dir t :
  matches (around dir CREDENTIALS_AFTER) t = true -> starts_with (dir +:+ "/" +:+ CLAUDE_CREDENTIALS_FILE) t = true.
Proof.
  rewrite matches_found, found_around. intros (t' & post & -> & D).
  unfold CREDENTIALS_AFTER in D. rewrite <- (app_nil_r (rev _)), (cat_all_mid [] _ [Eol; Rep Any]) in D. cbn [foldl] in D.
  apply den_lit in D as (t'' & -> & D). apply starts_with_true. exists (t'' +:+ post).
  by rewrite !append_assoc.
Qed.

(** Every byte but a slash. *)
Definition no_slash (s : string) : bool := free_of slash s.

Lemma den_class_star s e : no_slash s = true -> forall b, den (Rep (Class true [("/", "/")%char])) b s e.
Proof.
  induction s as [|c s IH]; intros F b; [constructor|].
  cbn [no_slash free_of] in F. apply andb_true_iff in F as [C F].
  apply (den_rep_cons _ b (String c "") s e); [done| |by apply IH].
  constructor. apply negb_true_iff in C. apply Ascii.eqb_neq in C.
  unfold in_class. cbn [existsb xorb]. rewrite orb_false_r. unfold in_range. cbn [fst snd].
  destruct (_ && _) eqn:E; [|done]. apply andb_true_iff in E as [E1 E2]. apply N.leb_le in E1, E2.
  destruct C. rewrite <- (ascii_N_embedding c), <- (ascii_N_embedding slash). f_equal. by apply N.le_antisymm.
Qed.

(** The temp files of a login. *)
Lemma temp_match dir x :
  no_slash x = true -> matches (around dir TEMP_AFTER) (dir +:+ "/" +:+ TEMP_PREFIX +:+ x) = true.
Proof.
  intros F. rewrite matches_found, found_around. exists ("/" +:+ TEMP_PREFIX +:+ x), "". split; [by rewrite append_empty_r|].
  unfold TEMP_AFTER. rewrite <- (app_nil_r (rev _)), (cat_all_mid [] _ [Eol; _]). cbn [foldl].
  apply den_lit. exists x. split; [by rewrite <- append_assoc|]. rewrite andb_false_r.
  rewrite <- (append_empty_r x). apply (den_cat (Rep _) _ _ x ""); [by apply den_class_star|].
  apply (den_cat Eol Eps _ "" ""); constructor.
Qed.

Lemma den_any_star s e b : den (Rep Any) b s e.
Proof.
  revert b. induction s as [|c s IH]; intros b; [constructor|].
  apply (den_rep_cons _ b (String c "") s e); [done|constructor|apply IH].
Qed.

(** Where a repository may stand under a root: at it, or at any depth beneath it. *)
Definition at_or_below (mid : string) : Prop := mid = "" \/ exists x, mid = "/" +:+ x.

Lemma den_beneath b mid e : at_or_below mid -> den BENEATH b mid e.
Proof.
  unfold BENEATH. intros [-> |[x ->]]; [apply den_alt_r; constructor|]. apply den_alt_l.
  apply (den_lit "/" (Cat (Rep Any) Eps)). exists x. split; [done|].
  rewrite <- (append_empty_r x). apply (den_cat _ _ _ x ""); [apply den_any_star|constructor].
Qed.

Lemma den_word n b e : den (lit n Eps) b n e.
Proof. apply den_lit. exists "". rewrite append_empty_r. split; [done|constructor]. Qed.

Lemma den_name names name b e :
  names = GIT_EXEC_CONFIG_FILES \/ names = GIT_EXEC_CONFIG_DIRS -> name ∈ names -> den (names_of names) b name e.
Proof.
  intros [-> | ->] I.
  - change (den (Alt (lit "config" Eps) (lit "config.worktree" Eps)) b name e).
    apply elem_of_cons in I as [->|I%list_elem_of_singleton]; [apply den_alt_l|subst name; apply den_alt_r]; apply den_word.
  - change (den (Alt (lit "hooks" Eps) (lit "info" Eps)) b name e).
    apply elem_of_cons in I as [->|I%list_elem_of_singleton]; [apply den_alt_l|subst name; apply den_alt_r]; apply den_word.
Qed.

Definition git_exec_file (root t : string) : Prop :=
  exists mid name, at_or_below mid /\ (name ∈ GIT_EXEC_CONFIG_FILES) /\ t = root +:+ mid +:+ "/.git/" +:+ name.

Definition git_exec_dir (root t : string) : Prop :=
  exists mid name rest, at_or_below mid /\ (name ∈ GIT_EXEC_CONFIG_DIRS) /\ at_or_below rest
    /\ t = root +:+ mid +:+ "/.git/" +:+ name +:+ rest.

Lemma git_file_match root t : git_exec_file root t -> matches (around root GIT_FILES_AFTER) t = true.
Proof.
  intros (mid & name & M & I & ->). rewrite matches_found, found_around. exists (mid +:+ "/.git/" +:+ name), "".
  rewrite !append_empty_r. split; [done|]. unfold GIT_FILES_AFTER.
  rewrite (cat_all_mid [BENEATH] "/.git/" [Eol; names_of GIT_EXEC_CONFIG_FILES]). cbn [foldl].
  apply (den_cat BENEATH _ _ mid ("/.git/" +:+ name)); [by apply den_beneath|].
  apply den_lit. exists name. split; [done|]. rewrite <- (append_empty_r name).
  apply (den_cat (names_of _) _ _ name ""); [apply den_name; auto|]. apply (den_cat Eol Eps _ "" ""); constructor.
Qed.

Lemma git_dir_match root t : git_exec_dir root t -> matches (around root GIT_DIRS_AFTER) t = true.
Proof.
  intros (mid & name & rest & M & I & R & ->). rewrite matches_found, found_around.
  assert (D : exists u post, rest = u +:+ post /\ forall b, den (Alt (cat_all [Chr "/"]) (cat_all [Eol])) b u (is_empty post)).
  { destruct R as [-> |[x ->]].
    - exists "", "". split; [done|]. intros b. apply den_alt_r, (den_cat Eol Eps _ "" ""); constructor.
    - exists "/", x. split; [done|]. intros b. apply den_alt_l, (den_cat (Chr "/") Eps _ "/" ""); constructor. }
  destruct D as (u & post & -> & D). exists (mid +:+ "/.git/" +:+ name +:+ u), post.
  split; [by rewrite <- !append_assoc|]. unfold GIT_DIRS_AFTER.
  rewrite (cat_all_mid [BENEATH] "/.git/" [Alt _ _; names_of GIT_EXEC_CONFIG_DIRS]). cbn [foldl].
  apply (den_cat BENEATH _ _ mid ("/.git/" +:+ name +:+ u)); [by apply den_beneath|].
  apply den_lit. exists (name +:+ u). split; [done|].
  apply (den_cat (names_of _) _ _ name u); [apply den_name; auto|].
  rewrite <- (append_empty_r u). apply (den_cat _ Eps _ u ""); [|constructor]. rewrite andb_true_r. apply D.
Qed.

Lemma around_prefix dir after t : matches (around dir after) t = true -> starts_with dir t = true.
Proof.
  rewrite matches_found, found_around. intros (t' & post & -> & _). apply starts_with_true. by exists (t' +:+ post).
Qed.

Lemma starts_with_trans p q t : starts_with p q = true -> starts_with q t = true -> starts_with p t = true.
Proof.
  rewrite !starts_with_true. intros [x ->] [y ->]. exists (x +:+ y). by rewrite append_assoc.
Qed.

(** The last rules of every profile: devices, for writing. *)
Lemma device_applies r op t :
  r ∈ device_rules -> applies r op t = true -> op = WRITE /\ starts_with "/dev/" t = true.
Proof.
  intros I A. apply applies_true in A as [O F]. unfold device_rules in I.
  apply elem_of_cons in I as [->|I%list_elem_of_singleton]; [|subst r]; cbn [ru_ops ru_filters allow] in O, F.
  - split; [set_solver|]. destruct F as [|(f & If & Mf)]; [done|].
    apply elem_of_cons in If as [->|If%list_elem_of_singleton]; [|subst f]; apply String.eqb_eq in Mf as <-; done.
  - split; [set_solver|]. destruct F as [|(f & If & Mf)]; [done|].
    apply elem_of_cons in If as [->|If]; [|apply elem_of_cons in If as [->|If%list_elem_of_singleton]; [|subst f]].
    + apply (starts_with_trans _ "/dev/tty"); [done|]. by apply (around_prefix "/dev/tty" [Eol; Rep (Class true [("/", "/")%char])]).
    + apply (starts_with_trans _ "/dev/ptmx"); [done|]. by apply (around_prefix "/dev/ptmx" [Eol]).
    + apply (starts_with_trans _ "/dev/pts/"); [done|]. by apply (around_prefix "/dev/pts/" [Eol; Cat digit (Rep digit)]).
Qed.

Section guard.
Context `{Env0 : HostEnv} `{Data0 : Published} `{Sandbox0 : Sandbox} `{Law0 : !SandboxLaw}.

(** A launch and the profile it is given, its repository roots without quotes. *)
Definition confined (la : Launch) (r : Resolved) (s : string) : Prop :=
  build_profile la = Ok s /\ resolve_launch la = Ok r
  /\ Forall (fun root => free_of dq_byte root = true) (repo_roots la r).

Lemma confined_decides la r s op t :
  confined la r s -> permits s op t = decide_rules (agent_rules la r) op t.
Proof.
  intros (B & R & Q). apply build_profile_reads in B as (r' & R' & P). assert (r' = r) as -> by congruence.
  destruct (P Q) as (rs & E & F). rewrite (permits_rules s rs op t E).
  by apply decide_rules_proper.
Qed.

(** The rules that take something back for good: git's configuration, an adopted tree, the
    configuration of other agents, logins. *)
Definition carve_outs (la : Launch) (r : Resolved) : list Rule :=
  (git_rule <$> repo_roots la r) ++ adopted_rules la r
  ++ [deny [WRITE] (exec_config (re_home r) (la_codex_home la)
                      (relocated_claude (re_home r) (la_claude_config_dir la)))]
  ++ login_rules la r.

Definition data_rules (la : Launch) (r : Resolved) : list Rule :=
  engine_data_rules (re_home r) [re_writable_root r; re_rpc_root r; la_toolchain_cache la]
  ++ privacy_rules (re_home r) (writable_roots la r) (readable_roots la r).

Lemma agent_rules_parts la r :
  agent_rules la r
  = [allow ["default"] []; deny [WRITE] []; allow [WRITE] (agent_grants la r);
     deny [READ; WRITE] [Subpath (bundle_dir (re_home r))]]
    ++ data_rules la r ++ carve_outs la r ++ device_rules.
Proof.
  unfold agent_rules, profile_rules, agent_denies, data_rules, carve_outs. cbn [app].
  rewrite <- ?app_assoc. cbn [app]. by rewrite <- ?app_assoc.
Qed.

Lemma carve_outs_deny la r x : x ∈ carve_outs la r -> ru_allow x = false.
Proof.
  unfold carve_outs, login_rules, git_credential_rules, adopted_rules. rewrite !elem_of_app.
  intros [I|[I|[I|[I|[I|I]]]]].
  - by apply list_elem_of_fmap in I as (root & -> & _).
  - destruct (la_adopted_workspace la), (adopted_to true la r); try by apply elem_of_nil in I.
    by apply list_elem_of_singleton in I as ->.
  - by apply list_elem_of_singleton in I as ->.
  - repeat (apply elem_of_cons in I as [->|I]; [done|]). by apply elem_of_nil in I.
  - repeat (apply elem_of_cons in I as [->|I]; [done|]). by apply elem_of_nil in I.
  - repeat (apply elem_of_cons in I as [->|I]; [done|]). by apply elem_of_nil in I.
Qed.

(** What a carve-out denies nothing gives back, but a device to be written. *)
Lemma carved la r s d op t :
  confined la r s -> d ∈ carve_outs la r -> applies d op t = true ->
  permits s op t = true -> op = WRITE /\ starts_with "/dev/" t = true.
Proof.
  intros C I A P. rewrite (confined_decides la r s op t C), agent_rules_parts in P.
  pose proof (carve_outs_deny la r d I) as N.
  apply list_elem_of_split in I as (before & after & E). rewrite E in P.
  rewrite !app_assoc, <- (app_assoc _ (d :: after)), <- app_comm_cons in P.
  apply denied_after in P as (x & Ix & Ax & Px); [|done|done].
  apply elem_of_app in Ix as [Ix|Ix]; [|by apply device_applies in Px].
  rewrite (carve_outs_deny la r x) in Ax; [done|]. rewrite E. set_solver.
Qed.

(** ** Logins *)

Definition relocated_of (la : Launch) (r : Resolved) : option string :=
  relocated_claude (re_home r) (la_claude_config_dir la).

Definition claude_dirs (la : Launch) (r : Resolved) : list string :=
  path_join (re_home r) ".claude" :: option_list (relocated_of la r).

(** The files that hold a login of the user: claude's and codex's, with the temp files they are
    written through, the accounts Fletch keeps, ssh keys, and what git and gh sign in with. *)
Inductive login_file (la : Launch) (r : Resolved) : string -> Prop :=
| claude_file dir p :
    dir ∈ claude_dirs la r -> p ∈ forms (path_join dir CLAUDE_CREDENTIALS_FILE) -> login_file la r p
| codex_file p : p ∈ forms (path_join (codex_home_dir (re_home r)) "auth.json") -> login_file la r p
| temp_file dir p x :
    dir ∈ codex_home_dir (re_home r) :: claude_dirs la r -> p ∈ forms dir -> no_slash x = true ->
    login_file la r (p +:+ "/" +:+ TEMP_PREFIX +:+ x)
| account_file root provider p t :
    accounts_root = Ok root -> provider ∈ ["claude"; "codex"] -> p ∈ forms (path_join root provider) ->
    under p t = true -> login_file la r t
| ssh_file p t : p ∈ forms (path_join (re_home r) ".ssh") -> under p t = true -> login_file la r t
| git_store p : p ∈ forms (path_join (re_home r) ".git-credentials") -> login_file la r p
| gh_file root p t :
    root ∈ config_roots (re_home r) -> p ∈ forms (path_join root "gh") -> under p t = true -> login_file la r t
| git_config_store root p :
    root ∈ config_roots (re_home r) -> p ∈ forms (path_join (path_join root "git") "credentials") ->
    login_file la r p
| gh_config_file d p t :
    env_dir "GH_CONFIG_DIR" = Some d -> p ∈ forms d -> under p t = true -> login_file la r t.

Lemma elem_mjoin {A B} (f : A -> list B) l x y : x ∈ l -> y ∈ f x -> y ∈ mjoin (f <$> l).
Proof. intros I J. apply list_elem_of_join. exists (f x). split; [done|]. by apply list_elem_of_fmap_2. Qed.

Lemma login_parts dir file f :
  (exists p, f = Literal p /\ p ∈ forms (path_join dir file))
  \/ (exists p, f = Regex (around p TEMP_AFTER) /\ p ∈ forms dir) -> f ∈ login dir file.
Proof.
  unfold login, temp_files. rewrite elem_of_app. intros [(p & -> & I)|(p & -> & I)].
  - left. by apply list_elem_of_fmap_2.
  - right. by apply (list_elem_of_fmap_2 (fun d => Regex (around d TEMP_AFTER))).
Qed.

Lemma claude_logins_elem la r dir f :
  dir ∈ claude_dirs la r -> f ∈ login dir CLAUDE_CREDENTIALS_FILE ->
  f ∈ claude_logins (re_home r) (relocated_of la r).
Proof.
  unfold claude_dirs, claude_logins. intros I L. rewrite !elem_of_app.
  apply elem_of_cons in I as [->|I]; [by left|right; left].
  destruct (relocated_of la r); [|by apply elem_of_nil in I]. by apply list_elem_of_singleton in I as ->.
Qed.

Lemma accounts_elem root provider p :
  accounts_root = Ok root -> p ∈ forms (path_join root provider) -> Subpath p ∈ accounts provider.
Proof. unfold accounts. intros ->. apply list_elem_of_fmap_2. Qed.

Lemma git_credentials_elem home f :
  f ∈ git_credentials home <->
  f ∈ Subpath <$> forms (path_join home ".ssh") \/ f ∈ Literal <$> forms (path_join home ".git-credentials")
  \/ f ∈ mjoin ((fun root => (Subpath <$> forms (path_join root "gh"))
                         ++ (Literal <$> forms (path_join (path_join root "git") "credentials"))) <$> config_roots home)
  \/ f ∈ (match env_dir "GH_CONFIG_DIR" with Some d => Subpath <$> forms d | None => [] end).
Proof. unfold git_credentials. by rewrite !elem_of_app. Qed.

(** Every login file is matched by a filter of the three rules. *)
Lemma login_file_denied la r t :
  login_file la r t ->
  exists d f, (d ∈ login_rules la r) /\ ru_ops d = [READ; WRITE] /\ (f ∈ ru_filters d) /\ filter_matches f t = true.
Proof.
  set (cl := deny [READ; WRITE] (claude_logins (re_home r) (relocated_of la r))).
  set (cx := deny [READ; WRITE] (codex_logins (re_home r))).
  set (gi := deny [READ; WRITE] (git_credentials (re_home r))).
  assert (Icl : cl ∈ login_rules la r) by (unfold login_rules; set_solver).
  assert (Icx : cx ∈ login_rules la r) by (unfold login_rules; set_solver).
  assert (Igi : gi ∈ login_rules la r) by (unfold login_rules, git_credential_rules; set_solver).
  intros [dir p I J|p I|dir p x I J N|root provider p u E I J U|p u I U|p I|root p u I J U|root p I J|d p u E I U].
  - exists cl, (Literal p). split_and!; [done|done| |by apply String.eqb_refl].
    apply (claude_logins_elem la r dir); [done|]. apply login_parts. eauto.
  - exists cx, (Literal p). split_and!; [done|done| |by apply String.eqb_refl].
    apply elem_of_app. left. apply login_parts. eauto.
  - apply elem_of_cons in I as [->|I].
    + exists cx, (Regex (around p TEMP_AFTER)). split_and!; [done|done| |by apply temp_match].
      apply elem_of_app. left. apply login_parts. eauto.
    + exists cl, (Regex (around p TEMP_AFTER)). split_and!; [done|done| |by apply temp_match].
      apply (claude_logins_elem la r dir); [done|]. apply login_parts. eauto.
  - apply elem_of_cons in I as [->|I%list_elem_of_singleton].
    + exists cl, (Subpath p). split_and!; [done|done| |done]. unfold cl, claude_logins. cbn [ru_filters deny].
      rewrite !elem_of_app. do 2 right. by apply (accounts_elem root).
    + subst provider. exists cx, (Subpath p). split_and!; [done|done| |done].
      apply elem_of_app. right. by apply (accounts_elem root).
  - exists gi, (Subpath p). split_and!; [done|done| |done]. apply git_credentials_elem. left. by apply list_elem_of_fmap_2.
  - exists gi, (Literal p). split_and!; [done|done| |by apply String.eqb_refl].
    apply git_credentials_elem. right; left. by apply list_elem_of_fmap_2.
  - exists gi, (Subpath p). split_and!; [done|done| |done]. apply git_credentials_elem. do 2 right; left.
    apply (elem_mjoin _ _ root); [done|]. apply elem_of_app. left. by apply list_elem_of_fmap_2.
  - exists gi, (Literal p). split_and!; [done|done| |by apply String.eqb_refl].
    apply git_credentials_elem. do 2 right; left.
    apply (elem_mjoin _ _ root); [done|]. apply elem_of_app. right. by apply list_elem_of_fmap_2.
  - exists gi, (Subpath p). split_and!; [done|done| |done]. apply git_credentials_elem. do 3 right. rewrite E.
    by apply list_elem_of_fmap_2.
Qed.

Lemma login_rule_carves la r d : d ∈ login_rules la r -> d ∈ carve_outs la r.
Proof. unfold carve_outs. rewrite !elem_of_app. tauto. Qed.

Lemma login_carved la r s t op :
  confined la r s -> login_file la r t -> op ∈ [READ; WRITE] -> permits s op t = true ->
  op = WRITE /\ starts_with "/dev/" t = true.
Proof.
  intros C (d & f & I & O & F & M)%login_file_denied Io P.
  apply (carved la r s d op t C); [by apply login_rule_carves| |done].
  by apply (applies_one d op t f); [rewrite O| |].
Qed.

(** (C6) Whatever it was granted, no agent reads, and none writes, the login files the profile names
    ([login_file]): claude's credentials in ~/.claude and in a relocated directory the profile
    grants, codex's in the codex home in use, the temp files both are written through, the accounts
    Fletch keeps, ~/.ssh, and the stores of gh and git at their default places and where the
    environment moves them. Not among them: a claude directory moved under a bin directory, the
    default codex home while `CODEX_HOME` names another ([a_moved_login_is_readable]), and a store
    that only a git config names. *)
Theorem logins_are_out_of_reach la r s t :
  confined la r s -> login_file la r t ->
  permits s READ t = false /\ (starts_with "/dev/" t = false -> permits s WRITE t = false).
Proof.
  intros C L. split; [|intros D]; apply not_true_is_false; intros P.
  - by apply (login_carved la r s t READ C L) in P as [E _]; [|by left].
  - by apply (login_carved la r s t WRITE C L) in P as [_ E]; [rewrite E in D|right; left].
Qed.

(** So claude's credentials file is not the one file of its directory that stays writable. *)
Theorem credentials_file_stays_closed la r s dir p :
  confined la r s -> dir ∈ claude_dirs la r -> p ∈ forms (path_join dir CLAUDE_CREDENTIALS_FILE) ->
  starts_with "/dev/" p = false -> permits s WRITE p = false.
Proof.
  intros C I J D. apply not_true_is_false. intros P.
  apply (login_carved la r s p WRITE C) in P as [_ E]; [by rewrite E in D|by apply (claude_file la r dir)|right; left].
Qed.

(** ** Files inside the grants *)

(** (C18) Under an agent's roots and the folders granted it writable, at any depth, nothing can be written at
    the names `.git/config` and `.git/config.worktree`, nor at or below `.git/hooks` and `.git/info`,
    whatever was granted besides. The names are what is closed: the config of a submodule, under
    `.git/modules`, and a repository in the toolchain cache are not among them
    ([git_configs_left_writable]), and a `.git` moved aside is [denies_are_by_name]. *)
Theorem git_config_is_unwritable la r s root t :
  confined la r s -> root ∈ repo_roots la r -> git_exec_file root t \/ git_exec_dir root t ->
  starts_with "/dev/" t = false -> permits s WRITE t = false.
Proof.
  intros C I G D. apply not_true_is_false. intros P.
  apply (carved la r s (git_rule root)) in P as [_ E]; [congruence|done| |].
  - unfold carve_outs. apply elem_of_app. left. by apply list_elem_of_fmap_2.
  - destruct G as [G|G].
    + apply (applies_one _ _ _ (Regex (around root GIT_FILES_AFTER))); [set_solver|set_solver|by apply git_file_match].
    + apply (applies_one _ _ _ (Regex (around root GIT_DIRS_AFTER))); [set_solver|set_solver|by apply git_dir_match].
Qed.

(** The files that name programs another agent's tool runs are not written at their own names. *)
Theorem exec_config_is_unwritable la r s t :
  confined la r s ->
  (exists p, p ∈ pe_files (provider_exec_config_denials (re_home r)) /\ t ∈ forms p)
  \/ (exists d p, d ∈ pe_dirs (provider_exec_config_denials (re_home r)) /\ p ∈ forms d /\ under p t = true) ->
  starts_with "/dev/" t = false -> permits s WRITE t = false.
Proof.
  intros C F D. apply not_true_is_false. intros P.
  set (fs := exec_config (re_home r) (la_codex_home la) (relocated_claude (re_home r) (la_claude_config_dir la))).
  apply (carved la r s (deny [WRITE] fs)) in P as [_ E]; [congruence|done| |].
  - unfold carve_outs. rewrite !elem_of_app. do 2 right; left. by apply list_elem_of_singleton.
  - destruct F as [(p & I & J)|(d & p & I & J & U)].
    + apply (applies_one _ _ _ (Literal t)); [by left| |apply String.eqb_refl].
      cbn [ru_filters deny]. unfold fs, exec_config. cbv zeta. apply elem_of_app. left.
      apply (elem_mjoin (fun p => Literal <$> forms p) _ p); [apply elem_of_app; by left|by apply list_elem_of_fmap_2].
    + apply (applies_one _ _ _ (Subpath p)); [by left| |done].
      cbn [ru_filters deny]. unfold fs, exec_config. cbv zeta. apply elem_of_app. right.
      apply (elem_mjoin (fun p => Subpath <$> forms p) _ d); [done|by apply list_elem_of_fmap_2].
Qed.

(** A tree adopted to be read is never written. *)
Theorem adopted_tree_is_unwritable la r s given adopted p t :
  confined la r s -> la_adopted_workspace la = Some given -> re_adopted r = Some adopted ->
  la_adopted_read_only la = true -> p ∈ forms given ++ forms adopted -> under p t = true ->
  starts_with "/dev/" t = false -> permits s WRITE t = false.
Proof.
  intros C W A O I U D. apply not_true_is_false. intros P.
  apply (carved la r s (deny [WRITE] (Subpath <$> forms given ++ forms adopted))) in P as [_ E]; [congruence|done| |].
  - unfold carve_outs, adopted_rules, adopted_to. rewrite W, O, A. cbn [Bool.eqb].
    rewrite !elem_of_app. right; left. by apply list_elem_of_singleton.
  - apply (applies_one _ _ _ (Subpath p)); [set_solver| |done]. by apply list_elem_of_fmap_2.
Qed.

(** ** Where an agent writes *)

(** What the data-directory and privacy denies give back, to be written. *)
Definition given_back (la : Launch) (r : Resolved) : list string :=
  (resolve_existing_prefix <$> [re_writable_root r; re_rpc_root r; la_toolchain_cache la])
  ++ mjoin (forms <$> writable_roots la r).

(** And to be read: the portable git, and the roots given to be read. *)
Definition given_to_read (la : Launch) (r : Resolved) : list string :=
  (match configured_data_dir with
   | Some dir => [path_join (resolve_existing_prefix dir) INSTALL_DIR_NAME]
   | None => []
   end) ++ mjoin (forms <$> readable_roots la r).

Lemma distinct_forms_elem p q : q ∈ distinct_forms p -> q ∈ forms p.
Proof.
  unfold distinct_forms, safe_forms, forms. cbn [lfilter].
  destruct (bin_resident p), (bin_resident (resolve_existing_prefix p)); cbn [negb foldl];
    unfold push_new; cbn [lcontains existsb app]; try (by intros I%elem_of_nil); try set_solver.
  destruct (_ || _); set_solver.
Qed.

Lemma reopened_elem home roots p : p ∈ reopened home roots -> p ∈ mjoin (forms <$> roots).
Proof.
  unfold reopened. intros (q & I & J)%list_elem_of_join. apply list_elem_of_fmap in J as (root & -> & K).
  apply elem_of_lfilter in K as [K _]. apply (elem_mjoin forms _ root); [done|by apply distinct_forms_elem].
Qed.

(** What those rules allow is what they give back. *)
Lemma data_rules_allow la r x op t :
  x ∈ data_rules la r -> ru_allow x = true -> applies x op t = true ->
  exists p, (p ∈ given_back la r \/ op = READ /\ p ∈ given_to_read la r) /\ under p t = true.
Proof.
  intros I A P. apply applies_true in P as [O F]. unfold data_rules in I. apply elem_of_app in I as [I|I].
  - unfold engine_data_rules, engine_rules, given_to_read in *. destruct configured_data_dir as [dir|]; [|by apply elem_of_nil in I].
    cbv zeta in I. set (g := path_join _ _) in *.
    assert (K : x = allow [READ] [Subpath g] \/ x ∈ (fun root => allow [READ; WRITE] [Subpath (resolve_existing_prefix root)])
                  <$> [re_writable_root r; re_rpc_root r; la_toolchain_cache la]).
    { destruct (path_starts_with _ _); [apply list_elem_of_singleton in I; by left|].
      apply elem_of_cons in I as [->|I]; [done|]. by apply elem_of_cons in I as [->|I]; [left|right]. }
    destruct K as [->|K].
    + exists g. cbn [ru_ops ru_filters allow] in *. destruct F as [|(f & If & M)]; [done|].
      apply list_elem_of_singleton in If as ->. split; [|done]. right. set_solver.
    + apply list_elem_of_fmap in K as (root & -> & K). exists (resolve_existing_prefix root).
      cbn [ru_ops ru_filters allow] in *. destruct F as [|(f & If & M)]; [done|].
      apply list_elem_of_singleton in If as ->. split; [|done]. left. apply elem_of_app. left. by apply list_elem_of_fmap_2.
  - unfold privacy_rules in I. apply elem_of_cons in I as [->|I]; [done|]. apply elem_of_app in I as [I|I];
      apply list_elem_of_fmap in I as (p & -> & I); exists p; cbn [ru_ops ru_filters allow] in *;
      apply reopened_elem in I; (destruct F as [|(f & If & M)]; [done|]);
      apply list_elem_of_singleton in If as ->; (split; [|done]).
    + left. apply elem_of_app. by right.
    + right. split; [set_solver|]. apply elem_of_app. by right.
Qed.

(** The directories an agent is given to write, as given or resolved. *)
Definition write_dirs (la : Launch) (r : Resolved) : list string :=
  writable_roots la r ++ ["/private/tmp"; "/private/var/folders"; "/private/var/tmp"]
  ++ mjoin (claude_write_island_dirs <$> option_list (relocated_of la r)) ++ option_list (la_codex_home la)
  ++ all_provider_state_dirs (re_home r) ++ agent_scratch_dirs (re_home r).

Lemma write_dirs_elem la r d :
  d ∈ write_dirs la r <->
  d ∈ [re_writable_root r; re_rpc_root r; la_toolchain_cache la] \/ d ∈ option_list (adopted_to false la r)
  \/ d ∈ option_list (re_blackboard r) \/ d ∈ granted_writable la
  \/ d ∈ ["/private/tmp"; "/private/var/folders"; "/private/var/tmp"]
  \/ d ∈ mjoin (claude_write_island_dirs <$> option_list (relocated_of la r)) \/ d ∈ option_list (la_codex_home la)
  \/ d ∈ all_provider_state_dirs (re_home r) \/ d ∈ agent_scratch_dirs (re_home r).
Proof. unfold write_dirs, writable_roots. rewrite !elem_of_app. tauto. Qed.

Definition may_write (la : Launch) (r : Resolved) (t : string) : Prop :=
  (exists dir p, (dir ∈ write_dirs la r) /\ (p ∈ forms dir) /\ under p t = true)
  \/ t = re_home r +:+ "/.claude.json"
  \/ (exists dir p, (dir ∈ claude_dirs la r) /\ (p ∈ forms dir)
        /\ starts_with (p +:+ "/" +:+ CLAUDE_CREDENTIALS_FILE) t = true)
  \/ (exists dir, relocated_of la r = Some dir /\ t ∈ forms (path_join dir ".claude.json"))
  \/ starts_with "/dev/" t = true.

Lemma safe_forms_elem p q : q ∈ safe_forms p -> q ∈ forms p.
Proof. unfold safe_forms. by intros [I _]%elem_of_lfilter. Qed.

Lemma granted_elem dirs f : f ∈ granted dirs -> exists dir p, (dir ∈ dirs) /\ (p ∈ forms dir) /\ f = Subpath p.
Proof.
  unfold granted. intros (l & I & J)%list_elem_of_join. apply list_elem_of_fmap in J as (dir & -> & J).
  apply list_elem_of_fmap in I as (p & -> & I). exists dir, p. split_and!; [done|by apply safe_forms_elem|done].
Qed.

Lemma credentials_elem dir f t :
  f ∈ credentials dir -> filter_matches f t = true ->
  exists p, (p ∈ forms dir) /\ starts_with (p +:+ "/" +:+ CLAUDE_CREDENTIALS_FILE) t = true.
Proof.
  unfold credentials. intros (p & -> & I)%list_elem_of_fmap M. exists p.
  split; [by apply safe_forms_elem|by apply credentials_match].
Qed.

Lemma in_write_dir la r dir t :
  dir ∈ write_dirs la r -> filter_matches (Subpath dir) t = true -> may_write la r t.
Proof. intros I M. left. exists dir, dir. split_and!; [done|by left|done]. Qed.

Lemma granted_may_write la r dirs f t :
  (forall dir, dir ∈ dirs -> dir ∈ write_dirs la r) -> f ∈ granted dirs -> filter_matches f t = true -> may_write la r t.
Proof. intros S (dir & p & I & J & ->)%granted_elem M. left. exists dir, p. split_and!; [by apply S|done|done]. Qed.

Lemma grant_may_write la r f t :
  f ∈ agent_grants la r -> filter_matches f t = true -> may_write la r t.
Proof.
  unfold agent_grants. rewrite !elem_of_app. intros I M.
  destruct I as [I|[I|[I|[I|[I|[I|[I|[I|I]]]]]]]].
  - apply elem_of_cons in I as [->|I%list_elem_of_singleton]; [|subst f]; revert M; apply in_write_dir, write_dirs_elem;
      rewrite !elem_of_cons; tauto.
  - apply list_elem_of_fmap in I as (b & -> & I). revert M. apply in_write_dir, write_dirs_elem. tauto.
  - apply list_elem_of_fmap in I as (b & -> & I). revert M. apply in_write_dir, write_dirs_elem. tauto.
  - do 3 (apply elem_of_cons in I as [->|I];
      [revert M; apply in_write_dir, write_dirs_elem; do 4 right; left; rewrite !elem_of_cons; tauto|]).
    apply list_elem_of_singleton in I as ->. apply String.eqb_eq in M as <-. by right; left.
  - apply (credentials_elem _ _ t) in I as (p & I & E); [|done]. right; right; left.
    exists (path_join (re_home r) ".claude"), p. split_and!; [by left|done|done].
  - unfold relocated_grants in I. fold (relocated_of la r) in I.
    destruct (relocated_of la r) as [dir|] eqn:E; [|by apply elem_of_nil in I].
    apply elem_of_app in I as [I|I]; [|apply elem_of_app in I as [I|I]].
    + revert I M. apply granted_may_write. intros d Id. apply write_dirs_elem. do 5 right; left. rewrite E.
      by apply (elem_mjoin _ _ dir); [left|].
    + apply (credentials_elem _ _ t) in I as (p & I & S); [|done]. right; right; left. exists dir, p.
      split_and!; [unfold claude_dirs; rewrite E; by right; left|done|done].
    + apply list_elem_of_fmap in I as (p & -> & I). apply String.eqb_eq in M as <-. do 3 right; left.
      exists dir. split; [done|by apply safe_forms_elem].
  - revert I M. apply granted_may_write. intros d Id. apply write_dirs_elem. tauto.
  - revert I M. apply granted_may_write. intros d Id. apply write_dirs_elem. tauto.
  - revert I M. apply granted_may_write. intros d Id. apply write_dirs_elem. rewrite !elem_of_app in Id.
    rewrite !elem_of_cons. rewrite list_elem_of_singleton in Id. tauto.
Qed.

(** (C7) An agent writes only in its own roots, the folders made writable for it, the temporary and state
    directories of the policy, claude's state and credential files, and devices. *)
Theorem writes_are_confined la r s t :
  confined la r s -> permits s WRITE t = true ->
  may_write la r t \/ exists p, (p ∈ given_back la r) /\ under p t = true.
Proof.
  intros C P. rewrite (confined_decides la r s WRITE t C), agent_rules_parts in P. cbn [app] in P.
  change (decide_rules ([allow ["default"] []] ++ deny [WRITE] [] ::
    (allow [WRITE] (agent_grants la r) :: deny [READ; WRITE] [Subpath (bundle_dir (re_home r))]
      :: data_rules la r ++ carve_outs la r ++ device_rules)) WRITE t = true) in P.
  apply denied_after in P as (x & I & A & P); [|done|done].
  apply elem_of_cons in I as [->|I].
  - apply applies_true in P as [_ F]. left. destruct F as [F|(f & If & M)]; [|by apply (grant_may_write la r f)].
    cbn [ru_filters allow] in F. unfold agent_grants in F. discriminate F.
  - apply elem_of_cons in I as [->|I]; [done|]. apply elem_of_app in I as [I|I].
    + right. apply (data_rules_allow la r x WRITE t I A) in P as (p & [I'|[E _]] & U); [by exists p|discriminate E].
    + left. apply elem_of_app in I as [I|I]; [by rewrite (carve_outs_deny la r x I) in A|].
      do 4 right. by destruct (device_applies x WRITE t I P).
Qed.

(** The app's data directory is opaque, but for what is given back inside it. *)
Theorem app_data_is_opaque la r s op t :
  confined la r s -> op ∈ [READ; WRITE] -> under (bundle_dir (re_home r)) t = true -> starts_with "/dev/" t = false ->
  permits s op t = true ->
  exists p, (p ∈ given_back la r \/ op = READ /\ p ∈ given_to_read la r) /\ under p t = true.
Proof.
  intros C O U D P. rewrite (confined_decides la r s op t C), agent_rules_parts in P.
  change (decide_rules ([allow ["default"] []; deny [WRITE] []; allow [WRITE] (agent_grants la r)]
    ++ deny [READ; WRITE] [Subpath (bundle_dir (re_home r))] :: (data_rules la r ++ carve_outs la r ++ device_rules)) op t = true) in P.
  apply denied_after in P as (x & I & A & P); [| |done].
  - rewrite !elem_of_app in I. destruct I as [I|[I|I]]; [by apply (data_rules_allow la r x)| |].
    + by rewrite (carve_outs_deny la r x I) in A.
    + apply device_applies in P as [_ P]; [congruence|done].
  - by apply (applies_one _ _ _ (Subpath (bundle_dir (re_home r)))); [|set_solver|].
Qed.

(** ** A Run command *)

(** A Run command reads no login of claude's or codex's either. *)
Theorem run_reads_no_login root home cache extra s f t :
  build_run_profile root home cache extra = Ok s ->
  (forall h, canonical home = Ok h -> f ∈ claude_logins h None ++ codex_logins h) -> filter_matches f t = true ->
  permits s READ t = false.
Proof.
  intros B F M. apply run_profile_reads in B as (w & h & rs & _ & H & R & S). specialize (F h H).
  rewrite (permits_rules s rs READ t R), (decide_rules_proper rs _ S READ READ eq_refl t t eq_refl).
  unfold run_rules, profile_rules, run_denies. apply not_true_is_false. intros P.
  set (cl := deny [READ; WRITE] (claude_logins h None)) in P. set (cx := deny [READ; WRITE] (codex_logins h)) in P.
  assert (A : forall d, f ∈ ru_filters d -> d = cl \/ d = cx -> applies d READ t = true).
  { intros d I [-> | ->]; (apply (applies_one _ _ _ f); [by left|done|done]). }
  assert (G : forall x, x ∈ device_rules -> applies x READ t = true -> False).
  { intros x I X. by destruct (device_applies x READ t I X). }
  apply elem_of_app in F as [F|F].
  - match type of P with decide_rules (?a :: ?b :: ?c :: ?d :: ?e ++ [?g; cl; cx] ++ ?dev) _ _ = _ =>
      change (decide_rules ((a :: b :: c :: d :: e) ++ [g] ++ cl :: (cx :: dev)) READ t = true) in P end.
    rewrite app_assoc in P. apply denied_after in P as (x & I & X & Y); [|by apply A; [|left]|done].
    apply elem_of_cons in I as [->|I]; [done|by apply (G x)].
  - match type of P with decide_rules (?a :: ?b :: ?c :: ?d :: ?e ++ [?g; cl; cx] ++ ?dev) _ _ = _ =>
      change (decide_rules ((a :: b :: c :: d :: e) ++ [g; cl] ++ cx :: dev) READ t = true) in P end.
    rewrite app_assoc in P. apply denied_after in P as (x & I & X & Y); [|by apply A; [|right]|done]. by apply (G x).
Qed.
End guard.

(** ** A concrete sandbox and launch *)

Section example.

(** The sandbox that decides as the law says, and refuses a profile it cannot read. *)
#[local] Instance reading_sandbox : Sandbox := fun text op t =>
  match read_profile text with Some rules => decide_rules rules op t | None => false end.

#[local] Instance reading_sandbox_law : @SandboxLaw reading_sandbox.
Proof. constructor. intros text rules op t E. unfold permits, reading_sandbox. by rewrite E. Qed.

(** A host where [/tmp] is a link. *)
#[local] Instance example_host : HostEnv := {
  canonicalize p := if String.eqb p "/tmp/cfg" then Ok "/private/tmp/cfg" else Ok p;
  var_os _ := None;
  login_shell_env := None;
  home_dir := Some "/Users/u";
}.

#[local] Instance example_data : Published := Some "/Users/u/Library/Application Support/com.fletch.desktop".

Definition example_launch : Launch := {|
  la_writable_root := "/Users/u/.fletch/workspaces/a";
  la_rpc_dir := "/Users/u/.fletch/rpc/a";
  la_home := "/Users/u";
  la_toolchain_cache := "/Users/u/.fletch/toolchain-cache/p";
  la_claude_config_dir := Some "/tmp/cfg";
  la_blackboard := None;
  la_adopted_workspace := Some "/Users/u/.fletch/workspaces/b/repo";
  la_adopted_read_only := true;
  la_codex_home := None;
  la_source_repos := ["/Users/u/Documents/src"];
  la_folder_grants := [{| fg_path := "/Users/u/code"; fg_writable := true |}];
|}.

Definition example_resolved : Resolved := {|
  re_writable_root := "/Users/u/.fletch/workspaces/a";
  re_rpc_root := "/Users/u/.fletch/rpc/a";
  re_home := "/Users/u";
  re_blackboard := None;
  re_adopted := Some "/Users/u/.fletch/workspaces/b/repo";
|}.

Definition example_profile : string :=
  match build_profile example_launch with Ok s => s | Err _ => "" end.

Lemma example_confined : confined example_launch example_resolved example_profile.
Proof.
  split_and!; [vm_compute; reflexivity|vm_compute; reflexivity|].
  apply Forall_forall. intros root I. vm_compute in I.
  repeat (apply elem_of_cons in I as [->|I]; [reflexivity|]). by apply elem_of_nil in I.
Qed.

Lemma agent_profile_reads_witness :
  build_profile example_launch = Ok example_profile /\
  exists rs, read_profile example_profile = Some rs /\ Forall2 same_rule rs (agent_rules example_launch example_resolved).
Proof.
  assert (B : build_profile example_launch = Ok example_profile) by (vm_compute; reflexivity).
  split; [exact B|]. destruct (@agent_profile_reads example_host example_data _ _ B) as (r & E & P).
  rewrite (proj1 (proj2 example_confined)) in E. apply Ok_eq in E. subst r.
  destruct (P (proj2 (proj2 example_confined))) as (rs & R & S). exact (ex_intro _ rs (conj R S)).
Defined.

Lemma run_profile_reads_witness :
  exists rs, read_profile (match build_run_profile "/w" "/Users/u" "/c" ["/x"] with Ok s => s | Err _ => "" end) = Some rs.
Proof.
  assert (B : build_run_profile "/w" "/Users/u" "/c" ["/x"]
    = Ok (match build_run_profile "/w" "/Users/u" "/c" ["/x"] with Ok s => s | Err _ => "" end)) by (vm_compute; reflexivity).
  destruct (@run_profile_reads example_host example_data _ _ _ _ _ B) as (w & h & rs & _ & _ & E & _). by exists rs.
Defined.

Lemma logins_are_out_of_reach_witness :
  permits example_profile READ "/Users/u/.ssh/id_ed25519" = false.
Proof.
  assert (L : login_file example_launch example_resolved "/Users/u/.ssh/id_ed25519").
  { apply (ssh_file _ _ "/Users/u/.ssh"); [left|vm_compute; reflexivity]. }
  exact (proj1 (@logins_are_out_of_reach example_host example_data _ _ _ _ _ _ example_confined L)).
Defined.

Lemma credentials_file_stays_closed_witness :
  permits example_profile WRITE "/Users/u/.claude/.credentials.json" = false.
Proof.
  assert (I : "/Users/u/.claude" ∈ claude_dirs example_launch example_resolved) by left.
  assert (J : "/Users/u/.claude/.credentials.json" ∈ forms (path_join "/Users/u/.claude" CLAUDE_CREDENTIALS_FILE)) by left.
  refine (@credentials_file_stays_closed example_host example_data _ _ _ _ _ _ _ example_confined I J _).
  vm_compute; reflexivity.
Defined.

Lemma git_config_is_unwritable_witness :
  permits example_profile WRITE "/Users/u/code/lib/.git/hooks/pre-commit" = false.
Proof.
  assert (I : "/Users/u/code" ∈ repo_roots example_launch example_resolved) by (do 2 right; left).
  assert (G : git_exec_dir "/Users/u/code" "/Users/u/code/lib/.git/hooks/pre-commit").
  { exists "/lib", "hooks", "/pre-commit". split_and!; [right; by exists "lib"|left|right; by exists "pre-commit"|reflexivity]. }
  refine (@git_config_is_unwritable example_host example_data _ _ _ _ _ _ _ example_confined I (or_intror G) _).
  vm_compute; reflexivity.
Defined.

Lemma exec_config_is_unwritable_witness :
  permits example_profile WRITE "/Users/u/.gemini/config/mcp_config.json" = false.
Proof.
  refine (@exec_config_is_unwritable example_host example_data _ _ _ _ _ _ example_confined _ _); [left|vm_compute; reflexivity].
  exists "/Users/u/.gemini/config/mcp_config.json". split; [right; left|left].
Defined.

Lemma adopted_tree_is_unwritable_witness :
  permits example_profile WRITE "/Users/u/.fletch/workspaces/b/repo/src/main.rs" = false.
Proof.
  assert (I : "/Users/u/.fletch/workspaces/b/repo"
    ∈ forms "/Users/u/.fletch/workspaces/b/repo" ++ forms "/Users/u/.fletch/workspaces/b/repo") by left.
  refine (@adopted_tree_is_unwritable example_host example_data _ _ _ _ _ _ _ _ _ example_confined
            eq_refl eq_refl eq_refl I _ _); vm_compute; reflexivity.
Defined.

Lemma writes_are_confined_witness :
  exists t, permits example_profile WRITE t = true /\ (may_write example_launch example_resolved t
    \/ exists p, (p ∈ given_back example_launch example_resolved) /\ under p t = true).
Proof.
  exists "/Users/u/code/lib/main.c".
  assert (P : permits example_profile WRITE "/Users/u/code/lib/main.c" = true) by (vm_compute; reflexivity).
  split; [exact P|]. exact (@writes_are_confined example_host example_data _ _ _ _ _ _ example_confined P).
Defined.

Lemma app_data_is_opaque_witness :
  let t := "/Users/u/Library/Application Support/com.fletch.desktop/git-dist/v1/bin/git" in
  permits example_profile READ t = true /\
  exists p, (p ∈ given_back example_launch example_resolved
             \/ READ = READ /\ p ∈ given_to_read example_launch example_resolved) /\ under p t = true.
Proof.
  intros t. assert (P : permits example_profile READ t = true) by (vm_compute; reflexivity).
  split; [exact P|]. assert (O : READ ∈ [READ; WRITE]) by left.
  refine (@app_data_is_opaque example_host example_data _ _ _ _ _ _ _ example_confined O _ _ P); vm_compute; reflexivity.
Defined.

Lemma run_reads_no_login_witness :
  permits (match build_run_profile "/w" "/Users/u" "/c" ["/x"] with Ok s => s | Err _ => "" end) READ "/Users/u/.codex/auth.json" = false.
Proof.
  refine (@run_reads_no_login example_host example_data _ _ "/w" "/Users/u" "/c" ["/x"] _ (Literal "/Users/u/.codex/auth.json") _ _ _ _);
    [vm_compute; reflexivity| |vm_compute; reflexivity].
  intros h [= <-]. apply elem_of_app. right. left.
Defined.

(** ** Two ways around *)

(** The denies inside a grant are by name: the directory that holds a denied file, and the names it
    may be moved to and back from, can all be written. *)
Theorem denies_are_by_name :
  permits example_profile WRITE "/Users/u/.gemini/config/mcp_config.json" = false
  /\ permits example_profile WRITE "/Users/u/.gemini/config" = true
  /\ permits example_profile WRITE "/Users/u/.gemini/moved" = true
  /\ permits example_profile WRITE "/Users/u/.gemini/moved/mcp_config.json" = true
  /\ permits example_profile WRITE "/Users/u/code/.git/hooks/pre-commit" = false
  /\ permits example_profile WRITE "/Users/u/code/.git" = true
  /\ permits example_profile WRITE "/Users/u/code/moved/hooks/pre-commit" = true
  /\ permits example_profile "network-outbound" "/Users/u/.cache/git/credential/socket" = false
  /\ permits example_profile WRITE "/Users/u/.cache/git/credential" = true
  /\ permits example_profile "network-outbound" "/Users/u/.cache/git/moved/socket" = true.
Proof. vm_compute. repeat split. Qed.

(** What the rule for git's configuration does not name: a submodule's config in a folder granted
    writable, and the config of a repository in the toolchain cache. *)
Theorem git_configs_left_writable :
  permits example_profile WRITE "/Users/u/code/.git/config" = false
  /\ permits example_profile WRITE "/Users/u/code/.git/modules/sub/config" = true
  /\ permits example_profile WRITE "/Users/u/.fletch/toolchain-cache/p/dep/.git/config" = true.
Proof. vm_compute. repeat split. Qed.

(** A host where claude and codex keep their files elsewhere: claude below a directory of programs. *)
Definition moved_host : HostEnv := {|
  canonicalize p := Ok p;
  var_os v := if String.eqb v "CODEX_HOME" then Some "/Users/u/work/codex" else None;
  login_shell_env := None;
  home_dir := Some "/Users/u";
|}.

Definition moved_launch : Launch := {|
  la_writable_root := "/Users/u/.fletch/workspaces/a";
  la_rpc_dir := "/Users/u/.fletch/rpc/a";
  la_home := "/Users/u";
  la_toolchain_cache := "/Users/u/.fletch/toolchain-cache/p";
  la_claude_config_dir := Some "/Users/u/.local/bin/claude";
  la_blackboard := None;
  la_adopted_workspace := None;
  la_adopted_read_only := false;
  la_codex_home := None;
  la_source_repos := [];
  la_folder_grants := [];
|}.

Definition moved_profile : string :=
  match @build_profile moved_host example_data moved_launch with Ok s => s | Err _ => "" end.

(** A claude directory below a directory of programs is granted nothing and its credentials are denied
    neither: they can be read. And while `CODEX_HOME` names another home, the login in the default one
    can be read and only the other's cannot. *)
Theorem a_moved_login_is_readable :
  permits moved_profile READ "/Users/u/.local/bin/claude/.credentials.json" = true
  /\ permits moved_profile READ "/Users/u/.claude/.credentials.json" = false
  /\ permits moved_profile READ "/Users/u/.codex/auth.json" = true
  /\ permits moved_profile READ "/Users/u/work/codex/auth.json" = false.
Proof. vm_compute. repeat split. Qed.

Definition quoted_launch : Launch := {|
  la_writable_root := "/Users/u/.fletch/workspaces/a";
  la_rpc_dir := "/Users/u/.fletch/rpc/a";
  la_home := "/Users/u";
  la_toolchain_cache := "/Users/u/.fletch/toolchain-cache/p";
  la_claude_config_dir := None;
  la_blackboard := None;
  la_adopted_workspace := None;
  la_adopted_read_only := false;
  la_codex_home := None;
  la_source_repos := [];
  la_folder_grants := [{| fg_path := "/Users/u/my " +:+ dq +:+ "code" +:+ dq; fg_writable := true |}];
|}.

(** A folder granted writable whose name holds a double quote ends the raw pattern of the rule for
    git's configuration early: the profile no longer reads. *)
Theorem quote_in_a_root_breaks_the_profile :
  exists s, build_profile quoted_launch = Ok s /\ read_profile s = None.
Proof.
  exists (match build_profile quoted_launch with Ok s => s | Err _ => "" end). split; vm_compute; reflexivity.
Qed.

End example.
