(* ===== verification/FolderGrants.v ===== *)
(** * Folders granted to a workspace

    [src/crates/fletch-core/src/workspace/folder_grants.rs], with the parts of
    [supervisor/lifecycle.rs] that grant a folder and take it back: what may be granted, the table of
    grants, and which changes an agent must be relaunched for. The relaunch itself, and the events
    that announce a change, are not modelled. *)

From S2P Require Import Prelude RustStr RustText Paths Sql SandboxPolicy Seatbelt.

Local Open Scope string_scope.
Local Open Scope list_scope.

Inductive EngineKind := SandboxExec | Box.
#[export] Instance EngineKind_eq_dec : EqDecision EngineKind.
Proof. solve_decision. Defined.

Record EngineCaps := {
  ec_checkout_on_host : bool;
  ec_shares_host_fs : bool;
  ec_share_roots : option (list string);
  ec_run_panel : bool;
}.

Definition caps (k : EngineKind) : EngineCaps :=
  match k with
  | SandboxExec =>
      {| ec_checkout_on_host := true; ec_shares_host_fs := true; ec_share_roots := None; ec_run_panel := true |}
  | Box =>
      {| ec_checkout_on_host := false; ec_shares_host_fs := false; ec_share_roots := Some ["/Users"; "/Volumes"];
         ec_run_panel := true |}
  end.

Definition as_setting (k : EngineKind) : string := match k with SandboxExec => "sandbox-exec" | Box => "box" end.

Definition from_setting (value : string) : option EngineKind :=
  if String.eqb value "sandbox-exec" then Some SandboxExec
  else if String.eqb value "box" then Some Box else None.

Definition stamped_engine (sandbox_engine : option string) : EngineKind :=
  default SandboxExec (sandbox_engine ≫= from_setting).

(** [error::Error], the variants used here. *)
Inductive Error := AgentNotFound (id : string) | InvalidPath (what : string) | Other (what : string).

Definition display (e : Error) : string :=
  match e with
  | AgentNotFound id => "agent not found: " +:+ id
  | InvalidPath what => "invalid path: " +:+ what
  | Other what => what
  end.

#[export] Instance FolderGrant_eq_dec : EqDecision FolderGrant.
Proof. solve_decision. Defined.

(** What the checks ask of the host beyond [HostEnv]: folders, the data directory, the build. *)
Class Folders := {
  is_dir : string -> bool;
  (** [std::fs::read_dir]'s error. *)
  read_dir_error : string -> option string;
  dirs_data_dir : option string;
  temp_dir : string;
  debug_assertions : bool;
}.

Definition ICLOUD_DRIVE : string := "Library/Mobile Documents".

Definition SYSTEM_ROOTS : list string :=
  ["/System"; "/Library"; "/Applications"; "/usr"; "/bin"; "/sbin"; "/etc"; "/var"; "/private/etc";
   "/private/var"; "/opt/homebrew"; "/opt/local"; "/dev"; "/cores"].

(** ** Why a folder may not be granted *)

Definition refusal (path home : string) (protected : list string) (writable : bool) (path_dirs : list string)
    (engine : EngineKind) : option string :=
  let rest := path_rest path home in
  if is_none (parent path) || path_starts_with home path then Some "it holds your whole home folder"
  else if is_some_and rest (fun rest =>
            match rest with c :: _ => starts_with "." c | [] => false end) then
    Some "hidden folders in your home folder hold logins and tool config"
  else if is_some_and rest (fun rest => is_prefix_of (pieces "Library") rest
                                      && negb (is_prefix_of (pieces ICLOUD_DRIVE) rest)) then
    Some "~/Library holds app data and logins"
  else if existsb (fun root => path_starts_with path root || path_starts_with root path) protected then
    Some "it holds Fletch's own data"
  else if writable && existsb (path_starts_with path) SYSTEM_ROOTS then Some "it is a system folder"
  else if writable && existsb (fun dir => path_starts_with dir path) path_dirs then
    Some "a program the agent writes there would run the next time you use your shell"
  else if is_some_and (ec_share_roots (caps engine)) (fun roots => negb (existsb (path_starts_with path) roots)) then
    Some "a box can only mount folders under /Users or /Volumes"
  else None.

(** The order of paths, by their components. *)
Fixpoint components_le (a b : list string) : bool :=
  match a, b with
  | [], _ => true
  | _ :: _, [] => false
  | x :: a, y :: b => if String.eqb x y then components_le a b else String.leb x y
  end.

Definition path_le (a b : string) : bool :=
  if Bool.eqb (components a).1 (components b).1 then components_le (components a).2 (components b).2
  else (components a).1.

Section folders.
Context `{Env0 : HostEnv} `{Folders0 : Folders}.

(** The home folder, resolved when it can be. *)
Definition resolved_home (home : string) : string :=
  match canonicalize home with Ok real => real | Err _ => home end.

Definition normalize (path : string) : string :=
  let expanded :=
    match path_strip_prefix path "~", home_dir with
    | Some rest, Some home => path_join (resolved_home home) rest
    | _, _ => path
    end in
  match canonicalize expanded with Ok real => real | Err _ => expanded end.

Definition find (grants : list FolderGrant) (path : string) : option FolderGrant :=
  or_else (lfind (fun g => path_eqb (fg_path g) path) grants)
    (lfind (fun g => path_eqb (fg_path g) (normalize path)) grants).

Definition build_state_subpath (leaf : string) : string :=
  if debug_assertions then path_join "dev" leaf else leaf.

Definition data_dir : string :=
  let base := path_join (default temp_dir dirs_data_dir) BUNDLE_ID in
  if debug_assertions then path_join base "dev" else base.

(** [checkouts_root] and [rpc_root]: a directory of the environment, or [~/.fletch]. *)
Definition state_root (var leaf : string) : result string Error :=
  let base :=
    match opt_filter (fun v => negb (is_empty v)) (var_os var) with
    | Some root => Ok root
    | None =>
        match home_dir with
        | Some home => Ok (path_join home ".fletch")
        | None => Err (Other "HOME directory not available")
        end
    end in
  match base with Ok base => Ok (path_join base (build_state_subpath leaf)) | Err e => Err e end.

Definition checkouts_root : result string Error := state_root "FLETCH_WORKSPACES_ROOT" "workspaces".
Definition rpc_root : result string Error := state_root "FLETCH_RPC_ROOT" "rpc".

Definition ok_list {A E} (r : result A E) : list A := match r with Ok a => [a] | Err _ => [] end.

Definition protected_roots `{Published} : list string :=
  resolve_existing_prefix <$>
    [data_dir] ++ option_list configured_data_dir ++ ok_list checkouts_root ++ ok_list rpc_root.

(** The directories on the PATH: the login shell's, then the app's. *)
Definition path_dirs : list string :=
  let shell := login_shell_env ≫= (fun env => env "PATH") in
  let process := var_os "PATH" in
  mjoin ((fun value => resolve_existing_prefix <$> lfilter (fun d => (components d).1) (split_on (Ascii.ascii_of_N 58) value))
           <$> option_list shell ++ option_list process).

Definition check `{Published} (requested : string) (writable : bool) (engine : EngineKind) : result string Error :=
  match home_dir with
  | None => Err (Other "HOME directory not available")
  | Some home =>
      let home := resolved_home home in
      let requested :=
        match path_strip_prefix requested "~" with Some rest => path_join home rest | None => requested end in
      if negb (components requested).1 then Err (InvalidPath (requested +:+ " is not an absolute path"))
      else
        match canonicalize requested with
        | Err e => Err (InvalidPath (requested +:+ ": " +:+ e))
        | Ok path =>
            if negb (is_dir path) then Err (InvalidPath (path +:+ " is not a folder"))
            else
              match refusal path home protected_roots writable (if writable then path_dirs else []) engine with
              | Some reason =>
                  Err (InvalidPath ("Fletch won't share " +:+ path +:+ " with an agent: " +:+ reason))
              | None =>
                  match read_dir_error path with
                  | Some e =>
                      Err (Other ("Fletch can't read " +:+ path +:+ ": " +:+ e +:+
                        ". If macOS asked about this folder, allow Fletch in System Settings › Privacy & Security › Files and Folders."))
                  | None => Ok path
                  end
              end
        end
  end.

(** The loop of [check_all]: the last mode asked for a folder wins. *)
Fixpoint check_each `{Published} (checked grants : list FolderGrant) (engine : EngineKind)
    : result (list FolderGrant) Error :=
  match grants with
  | [] => Ok checked
  | g :: grants =>
      match check (fg_path g) (fg_writable g) engine with
      | Err e => Err e
      | Ok path =>
          check_each (lfilter (fun c => negb (path_eqb (fg_path c) path)) checked
                      ++ [{| fg_path := path; fg_writable := fg_writable g |}]) grants engine
      end
  end.

Definition check_all `{Published} (grants : list FolderGrant) (engine : EngineKind)
    : result (list FolderGrant) Error := check_each [] grants engine.

Definition launch_relevant (engine : EngineKind) (grants : list FolderGrant) (home : string) : list FolderGrant :=
  let relevant :=
    if ec_shares_host_fs (caps engine)
    then lfilter (fun g => fg_writable g || inside_macos_privacy_dir home (fg_path g)) grants
    else grants in
  sort_by (fun a b => path_le (fg_path a) (fg_path b)) relevant.

Definition present (grants : list FolderGrant) : list FolderGrant := lfilter (fun g => is_dir (fg_path g)) grants.

(** [names_granted_folder] (supervisor/messaging.rs). *)
Definition names_granted_folder (grants : list FolderGrant) (attachments : list string) : bool :=
  existsb (fun a => is_some (find grants a)) attachments.
End folders.

(** ** The table *)

Record GrantRow := { gr_workspace : string; gr_path : string; gr_writable : bool; gr_created_at : Z }.

(** A workspace's row, as far as grants read it. *)
Record Workspace := { ws_archived : bool; ws_engine : option string }.

Record GrantDb := { gd_workspaces : list (string * Workspace); gd_grants : list GrantRow }.

Definition set_grants (f : list GrantRow -> list GrantRow) (d : GrantDb) : GrantDb :=
  {| gd_workspaces := gd_workspaces d; gd_grants := f (gd_grants d) |}.

Definition same_grant (id path : string) (r : GrantRow) : bool :=
  String.eqb (gr_workspace r) id && String.eqb (gr_path r) path.

(** [INSERT ... ON CONFLICT (workspace_id, path) DO UPDATE SET writable = excluded.writable]. *)
Definition upsert_row (id path : string) (writable : bool) (now : Z) (rows : list GrantRow) : list GrantRow :=
  if existsb (same_grant id path) rows then
    (fun r => if same_grant id path r
              then {| gr_workspace := gr_workspace r; gr_path := gr_path r; gr_writable := writable;
                      gr_created_at := gr_created_at r |}
              else r) <$> rows
  else rows ++ [{| gr_workspace := id; gr_path := path; gr_writable := writable; gr_created_at := now |}].

(** [INSERT OR REPLACE]. *)
Definition replace_row (id path : string) (writable : bool) (now : Z) (rows : list GrantRow) : list GrantRow :=
  lfilter (fun r => negb (same_grant id path r)) rows
  ++ [{| gr_workspace := id; gr_path := path; gr_writable := writable; gr_created_at := now |}].

Definition delete_row (id path : string) (rows : list GrantRow) : list GrantRow :=
  lfilter (fun r => negb (same_grant id path r)) rows.

(** [ORDER BY created_at, path]. *)
Definition row_le (a b : GrantRow) : bool :=
  if (gr_created_at a =? gr_created_at b)%Z then String.leb (gr_path a) (gr_path b)
  else (gr_created_at a <=? gr_created_at b)%Z.

Definition grants_of (id : string) (rows : list GrantRow) : list FolderGrant :=
  (fun r => {| fg_path := gr_path r; fg_writable := gr_writable r |})
    <$> sort_by row_le (lfilter (fun r => String.eqb (gr_workspace r) id) rows).

Definition workspace_of (id : string) (d : GrantDb) : option Workspace :=
  snd <$> lfind (fun x => String.eqb x.1 id) (gd_workspaces d).

Section store.
Context `{World0 : World}.

Definition ensure_agent_exists (id : string) : M GrantDb () :=
  let* found := query (fun d => is_some (workspace_of id d)) in
  if found : bool then ret tt else err (display (AgentNotFound id)).

Definition load_folder_grants (id : string) : M GrantDb (list FolderGrant) :=
  let* rows := attempt_ok (query (fun d => grants_of id (gd_grants d))) in ret (default [] rows).

Definition upsert_folder_grant (id path : string) (writable : bool) : M GrantDb (list FolderGrant) :=
  let* _ := ensure_agent_exists id in
  let* now := now_millis in
  let* _ := execute (set_grants (upsert_row id path writable now)) in
  load_folder_grants id.

Definition remove_folder_grant (id path : string) : M GrantDb (list FolderGrant) :=
  let* _ := ensure_agent_exists id in
  let* _ := execute (set_grants (delete_row id path)) in
  load_folder_grants id.

Fixpoint insert_each (id : string) (now : Z) (grants : list FolderGrant) : M GrantDb () :=
  match grants with
  | [] => ret tt
  | g :: grants =>
      let* _ := execute (set_grants (replace_row id (fg_path g) (fg_writable g) now)) in
      insert_each id now grants
  end.

Definition insert_folder_grants (id : string) (grants : list FolderGrant) : M GrantDb () :=
  let* now := now_millis in insert_each id now grants.
End store.

(** ** Granting and taking back *)

(** What a grant or a revoke comes to: the folder as stored, the workspace's grants, and whether the
    agent is relaunched for it. *)
Record Granted := { gt_folder : string; gt_grants : list FolderGrant; gt_relaunch : bool }.

Section supervisor.
Context `{World0 : World} `{Env0 : HostEnv} `{Folders0 : Folders} `{Data0 : Published}.

Definition agent (id : string) : M GrantDb (Workspace * list FolderGrant) :=
  let* w := query (workspace_of id) in
  match w with
  | None => err (display (AgentNotFound id))
  | Some w => let* grants := load_folder_grants id in ret (w, grants)
  end.

(** [apply_folder_grants]: whether the launch sees the change. *)
Definition apply_folder_grants (engine : EngineKind) (before grants : list FolderGrant) : M GrantDb bool :=
  match home_dir with
  | None => err (display (Other "HOME directory not available"))
  | Some home =>
      let home := resolved_home home in
      ret (negb (eqb (launch_relevant engine before home) (launch_relevant engine grants home)))
  end.

Definition grant_folder (id path : string) (writable : bool) : M GrantDb Granted :=
  let* (w, before) := agent id in
  if ws_archived w then err (display (Other "an archived workspace runs no agent"))
  else
    let engine := stamped_engine (ws_engine w) in
    match check_all [{| fg_path := path; fg_writable := writable |}] engine with
    | Err e => err (display e)
    | Ok [] => err (display (Other "no folder to grant"))
    | Ok (g :: _) =>
        let path := fg_path g in
        if existsb (fun g => path_eqb (fg_path g) path && Bool.eqb (fg_writable g) writable) before then
          ret {| gt_folder := path; gt_grants := before; gt_relaunch := false |}
        else
          let* grants := upsert_folder_grant id path writable in
          let* relaunch := apply_folder_grants engine before grants in
          ret {| gt_folder := path; gt_grants := grants; gt_relaunch := relaunch |}
    end.

Definition revoke_folder (id path : string) : M GrantDb (list FolderGrant * bool) :=
  let* (w, before) := agent id in
  match find before path with
  | None => ret (before, false)
  | Some stored =>
      let* grants := remove_folder_grant id (fg_path stored) in
      let* relaunch := apply_folder_grants (stamped_engine (ws_engine w)) before grants in
      ret (grants, relaunch)
  end.

(** A new workspace's row with its checked grants ([add_agent], as far as grants go). *)
Definition add_workspace (id : string) (w : Workspace) (grants : list FolderGrant) : M GrantDb () :=
  match check_all grants (stamped_engine (ws_engine w)) with
  | Err e => err (display e)
  | Ok checked =>
      transaction
        (let* _ := execute (fun d => {| gd_workspaces := gd_workspaces d ++ [(id, w)]; gd_grants := gd_grants d |}) in
         insert_folder_grants id checked)
  end.
End supervisor.

(** ** What a folder that may be granted keeps apart from *)

(** Nothing lies in both. *)
Definition apart (p d : string) : Prop :=
  forall t, path_starts_with t p = true -> path_starts_with t d = true -> False.

(** What no grant may expose: a hidden folder of home and what it holds, [~/Library] but for iCloud
    Drive, and Fletch's own roots. *)
Definition in_home (home d : string) (l : list string) : Prop :=
  (components d).1 = (components home).1 /\ (components d).2 = (components home).2 ++ l.

Inductive sensitive (home : string) (protected : list string) (d : string) : Prop :=
| sensitive_hidden c rest : in_home home d (c :: rest) -> starts_with "." c = true -> sensitive home protected d
| sensitive_library c rest : in_home home d ("Library" :: c :: rest) -> c <> "Mobile Documents" -> sensitive home protected d
| sensitive_protected root : root ∈ protected -> path_starts_with d root = true -> sensitive home protected d.

Lemma is_none_true {A} (o : option A) : is_none o = true <-> o = None.
Proof. by destruct o. Qed.

Lemma existsb_none {A} (p : A -> bool) l x : existsb p l = false -> x ∈ l -> p x = false.
Proof.
  intros E I. apply not_true_is_false. intros C. apply not_true_iff_false in E. apply E, existsb_exists.
  exists x. by rewrite <- list_elem_of_In.
Qed.

Section refusal.
Context (path home : string) (protected : list string) (writable : bool) (path_dirs : list string) (engine : EngineKind).
Hypothesis granted : refusal path home protected writable path_dirs engine = None.

Lemma granted_facts :
  parent path <> None /\ path_starts_with home path = false
  /\ (forall l, path_rest path home = Some l ->
        match l with c :: _ => starts_with "." c | [] => false end = false
        /\ (is_prefix_of ["Library"] l = true -> is_prefix_of ["Library"; "Mobile Documents"] l = true))
  /\ (forall root, root ∈ protected -> path_starts_with path root = false /\ path_starts_with root path = false)
  /\ (writable = true ->
        (forall root, root ∈ SYSTEM_ROOTS -> path_starts_with path root = false)
        /\ (forall dir, dir ∈ path_dirs -> path_starts_with dir path = false))
  /\ (forall roots, ec_share_roots (caps engine) = Some roots -> exists root, (root ∈ roots) /\ path_starts_with path root = true).
Proof.
  revert granted. unfold refusal. cbv zeta.
  destruct (is_none (parent path) || path_starts_with home path) eqn:E1; [done|].
  apply orb_false_iff in E1 as [E1 E1'].
  destruct (is_some_and (path_rest path home) _) eqn:E2; [done|].
  destruct (is_some_and (path_rest path home) (fun rest => _ && _)) eqn:E3; [done|].
  destruct (existsb _ protected) eqn:E4; [done|].
  destruct (writable && existsb _ SYSTEM_ROOTS) eqn:E5; [done|].
  destruct (writable && existsb _ path_dirs) eqn:E6; [done|].
  destruct (is_some_and (ec_share_roots (caps engine)) _) eqn:E7; [done|]. intros _.
  split_and!.
  - intros N. by rewrite N in E1.
  - done.
  - intros l L. rewrite L in E2, E3. cbn in E2, E3. split; [done|].
    change (pieces "Library") with ["Library"] in E3. change (pieces ICLOUD_DRIVE) with ["Library"; "Mobile Documents"] in E3.
    intros P. rewrite P in E3. by apply negb_false_iff in E3.
  - intros root I. by apply orb_false_iff, (existsb_none _ _ root E4).
  - intros ->. cbn [andb] in E5, E6. split; intros x I; [by apply (existsb_none _ _ x E5)|by apply (existsb_none _ _ x E6)].
  - intros roots R. rewrite R in E7. cbn in E7. apply negb_false_iff, existsb_exists in E7 as (root & I & P).
    exists root. by rewrite list_elem_of_In.
Qed.

(** A granted folder that shares something with home lies strictly inside it. *)
Lemma granted_inside_home t :
  path_starts_with t path = true -> path_starts_with t home = true ->
  exists c l, in_home home path (c :: l) /\ starts_with "." c = false
    /\ (c = "Library" -> exists l', l = "Mobile Documents" :: l').
Proof.
  destruct granted_facts as (_ & NH & R & _). intros T H.
  destruct (path_starts_with_linear t path home T H) as [P|P]; [|congruence].
  apply path_starts_with_spec in P as [E1 [l E2]].
  assert (L : path_rest path home = Some l) by by apply path_rest_Some.
  destruct (R l L) as [D B]. destruct l as [|c l].
  - rewrite app_nil_r in E2. apply not_true_iff_false in NH. destruct NH. apply path_starts_with_spec.
    split; [done|]. exists []. by rewrite app_nil_r.
  - exists c, l. split_and!; [done|done|]. intros ->. specialize (B eq_refl). apply is_prefix_of_spec in B as [l' B].
    by injection B as ->; eauto.
Qed.

(** (C17) A folder that may be granted shares nothing with what no grant may expose. *)
Theorem granted_folder_is_apart d : sensitive home protected d -> apart path d.
Proof.
  intros S t T D.
  assert (U : forall l, in_home home d l -> path_starts_with t home = true).
  { intros l [E1 E2]. apply (path_starts_with_trans t d home); [done|]. apply path_starts_with_spec. eauto. }
  destruct S as [c rest I C|c rest I C|root I R].
  - destruct (granted_inside_home t T (U _ I)) as (c' & l & I' & C' & _). destruct I as [_ I], I' as [_ I'].
    apply path_starts_with_spec in T as [_ [x T]], D as [_ [y D]]. rewrite T, I', I, <- !app_assoc in D.
    apply app_inv_head in D. cbn in D. congruence.
  - destruct (granted_inside_home t T (U _ I)) as (c' & l & I' & _ & L). destruct I as [_ I], I' as [_ I'].
    apply path_starts_with_spec in T as [_ [x T]], D as [_ [y D]]. rewrite T, I', I, <- !app_assoc in D.
    apply app_inv_head in D. cbn in D. injection D as D1 D2. destruct (L D1) as [l' ->]. cbn in D2. congruence.
  - destruct granted_facts as (_ & _ & _ & P & _). destruct (P root I) as [P1 P2].
    destruct (path_starts_with_linear t path root T (path_starts_with_trans t d root D R)); congruence.
Qed.
End refusal.
