(* ===== verification/FolderGuard.v ===== *)
(** * Grants over time, and in the profile

    The table of grants under any sequence of the operations that write it and any failing statement:
    every stored grant was accepted for its workspace in the mode it is stored with, one grant per
    folder. And a change an agent is not relaunched for leaves what its profile permits as it was. *)

From S2P Require Import Prelude RustStr RustText Paths Ere Sbpl Sql SandboxPolicy Seatbelt SeatbeltRules SeatbeltReads SeatbeltGuard FolderGrants.

Local Open Scope string_scope.
Local Open Scope list_scope.

(** ** Every stored grant was accepted *)

Section stored.
Context `{World0 : World} `{Env0 : HostEnv} `{Folders0 : Folders} `{Data0 : Published}.

Definition accepted (path : string) (writable : bool) (engine : EngineKind) : Prop :=
  exists home, home_dir = Some home
    /\ refusal path (resolved_home home) protected_roots writable (if writable then path_dirs else []) engine = None.

Lemma check_accepted requested writable engine path :
  check requested writable engine = Ok path -> accepted path writable engine.
Proof.
  unfold check, accepted. destruct home_dir as [home|]; [|done]. cbv zeta.
  destruct (negb _); [done|]. destruct (canonicalize _) as [p|]; [|done]. destruct (negb (is_dir p)); [done|].
  destruct (refusal _ _ _ _ _ _) eqn:R; [done|]. destruct (read_dir_error p); [done|].
  intros [= ->]. by exists home.
Qed.

Definition accepted_grant (engine : EngineKind) (g : FolderGrant) : Prop := accepted (fg_path g) (fg_writable g) engine.

Lemma check_each_accepted engine grants checked out :
  Forall (accepted_grant engine) checked -> check_each checked grants engine = Ok out ->
  Forall (accepted_grant engine) out.
Proof.
  revert checked. induction grants as [|g grants IH]; intros checked F; cbn [check_each]; [by intros [= <-]|].
  destruct (check _ _ _) as [path|] eqn:C; [|done]. apply IH. apply Forall_app. split.
  - apply Forall_forall. intros x [I _]%elem_of_lfilter. by eapply Forall_forall in F.
  - constructor; [|done]. by apply check_accepted in C.
Qed.

(** Every grant of the table was accepted for its workspace's engine, in the mode it has. *)
Definition row_accepted (d : GrantDb) (r : GrantRow) : Prop :=
  exists w, workspace_of (gr_workspace r) d = Some w
    /\ accepted (gr_path r) (gr_writable r) (stamped_engine (ws_engine w)).

Definition grants_ok (d : GrantDb) : Prop :=
  Forall (row_accepted d) (gd_grants d) /\ NoDup ((fun r => (gr_workspace r, gr_path r)) <$> gd_grants d).

Lemma same_grant_true id path r : same_grant id path r = true <-> gr_workspace r = id /\ gr_path r = path.
Proof. unfold same_grant. by rewrite andb_true_iff, !String.eqb_eq. Qed.

Lemma row_accepted_grants f d r : row_accepted (set_grants f d) r <-> row_accepted d r.
Proof. done. Qed.

Lemma key_not_in id path rows :
  existsb (same_grant id path) rows = false -> (id, path) ∉ ((fun r => (gr_workspace r, gr_path r)) <$> rows).
Proof.
  intros E (r & [= E1 E2] & I)%list_elem_of_fmap. apply not_true_iff_false in E. apply E, existsb_exists.
  exists r. rewrite <- list_elem_of_In. split; [done|]. by apply same_grant_true.
Qed.

Lemma upsert_ok id path writable now w d :
  workspace_of id d = Some w -> accepted path writable (stamped_engine (ws_engine w)) ->
  grants_ok d -> grants_ok (set_grants (upsert_row id path writable now) d).
Proof.
  intros W A [F N]. unfold grants_ok. cbn [gd_grants set_grants]. unfold upsert_row.
  destruct (existsb (same_grant id path) (gd_grants d)) eqn:E.
  - split.
    + apply Forall_fmap. eapply Forall_impl; [exact F|]. intros r (w' & W' & A'). unfold compose.
      destruct (same_grant id path r) eqn:S; [|by exists w']. apply same_grant_true in S as [<- <-]. by exists w.
    + replace (_ <$> _) with ((fun r => (gr_workspace r, gr_path r)) <$> gd_grants d); [done|].
      rewrite <- list_fmap_compose. apply list_fmap_ext. intros i r _. cbn. by destruct (same_grant id path r).
  - split.
    + apply Forall_app. split; [done|]. constructor; [|done]. by exists w.
    + rewrite fmap_app. apply NoDup_app. split_and!; [done| |by apply NoDup_singleton].
      intros x I ->%list_elem_of_singleton. by apply key_not_in in E.
Qed.

Lemma filter_rows_ok p d : grants_ok d -> grants_ok (set_grants (lfilter p) d).
Proof.
  intros [F N]. split; cbn [gd_grants set_grants].
  - apply Forall_forall. intros r [I _]%elem_of_lfilter. by eapply Forall_forall in F.
  - by apply lfilter_fmap_NoDup.
Qed.

Lemma replace_ok id path writable now w d :
  workspace_of id d = Some w -> accepted path writable (stamped_engine (ws_engine w)) ->
  grants_ok d -> grants_ok (set_grants (replace_row id path writable now) d).
Proof.
  intros W A G. destruct (filter_rows_ok (fun r => negb (same_grant id path r)) d G) as [F N].
  unfold grants_ok, replace_row. cbn [gd_grants set_grants] in *. split.
  - apply Forall_app. split; [done|]. constructor; [|done]. by exists w.
  - rewrite fmap_app. apply NoDup_app. split_and!; [done| |by apply NoDup_singleton].
    intros x I ->%list_elem_of_singleton. apply list_elem_of_fmap in I as (r & [= E1 E2] & I).
    apply elem_of_lfilter in I as [_ I]. apply negb_true_iff, not_true_iff_false in I. apply I.
    by apply same_grant_true.
Qed.

(** Over a database where a workspace stands. *)
Definition stands_in (id : string) (w : Workspace) (d : GrantDb) : Prop := grants_ok d /\ workspace_of id d = Some w.

Lemma standing_execute id w f :
  (forall d, stands_in id w d -> grants_ok (set_grants f d)) -> preserves (stands_in id w) (execute (set_grants f)).
Proof. intros K. apply preserves_execute. intros d S. split; [by apply K|]. by destruct S. Qed.

Lemma load_reads id : reads (load_folder_grants id).
Proof. unfold load_folder_grants. reading. Qed.

Lemma ensure_reads id : reads (ensure_agent_exists id).
Proof. unfold ensure_agent_exists. apply reads_bind; [apply reads_query|]. intros []; reading. Qed.

Lemma apply_reads engine before grants : reads (apply_folder_grants engine before grants).
Proof. unfold apply_folder_grants. destruct home_dir; reading. Qed.

Hint Resolve load_reads ensure_reads apply_reads : fletch.

Lemma upsert_preserves id w path writable :
  accepted path writable (stamped_engine (ws_engine w)) ->
  preserves (stands_in id w) (upsert_folder_grant id path writable).
Proof.
  intros A. unfold upsert_folder_grant. apply preserves_bind; [auto with fletch|]. intros _.
  apply preserves_bind; [auto with fletch|]. intros now. apply preserves_bind; [|auto with fletch].
  apply standing_execute. intros d [G W]. by apply (upsert_ok _ _ _ _ w).
Qed.

(** What a workspace was read as still stands. *)
Lemma triple_agent id :
  triple grants_ok (agent id) (fun a => stands_in id a.1) grants_ok.
Proof.
  unfold agent. intros c G. unfold bind, query, sql. destruct (w_fault (c_tick c)); [done|]. cbn.
  destruct (workspace_of id (c_db c)) as [w|] eqn:W; [|done].
  pose proof (load_reads id (tick c)) as R. destruct (load_folder_grants id _) as [[grants|e] c'] eqn:L;
    cbn in R |- *; unfold stands_in; by rewrite R.
Qed.

Lemma standing_ok {A} id w (m : M GrantDb A) : preserves (stands_in id w) m -> triple (stands_in id w) m (fun _ => grants_ok) grants_ok.
Proof.
  intros P. eapply triple_weaken; [apply triple_preserves, P|done| |]; unfold stands_in; intros; tauto.
Qed.

Lemma grant_folder_keeps id path writable : preserves grants_ok (grant_folder id path writable).
Proof.
  apply triple_preserved. unfold grant_folder. eapply triple_bind; [apply triple_agent|]. intros [w before]. cbn [fst].
  apply standing_ok. destruct (ws_archived w); [auto with fletch|].
  destruct (check_all _ _) as [[|g gs]|e] eqn:C; [auto with fletch| |auto with fletch].
  assert (A : accepted (fg_path g) writable (stamped_engine (ws_engine w))).
  { unfold check_all in C. cbn [check_each] in C. destruct (check _ _ _) as [p|] eqn:K; [|done].
    injection C as <- <-. by apply check_accepted in K. }
  destruct (existsb _ before); [apply preserves_ret|]. apply preserves_bind; [by apply upsert_preserves|].
  intros grants. apply preserves_bind; [auto with fletch|]. intros r. auto with fletch.
Qed.

Lemma revoke_folder_keeps id path : preserves grants_ok (revoke_folder id path).
Proof.
  apply triple_preserved. unfold revoke_folder. eapply triple_bind; [apply triple_agent|]. intros [w before]. cbn [fst].
  apply standing_ok. destruct (find before path) as [g|]; [|auto with fletch].
  apply preserves_bind.
  - unfold remove_folder_grant. apply preserves_bind; [auto with fletch|]. intros _.
    apply preserves_bind; [|auto with fletch]. apply standing_execute. intros d [G _]. by apply filter_rows_ok.
  - intros grants. apply preserves_bind; [auto with fletch|]. intros r. auto with fletch.
Qed.

Lemma workspace_of_snoc id x d :
  workspace_of id {| gd_workspaces := gd_workspaces d ++ [x]; gd_grants := gd_grants d |}
  = or_else (workspace_of id d) (if String.eqb x.1 id then Some x.2 else None).
Proof.
  destruct d as [ws gs]. unfold workspace_of. cbn [gd_workspaces].
  induction ws as [|y ws IH]; cbn [app lfind].
  - by destruct (String.eqb x.1 id).
  - by destruct (String.eqb y.1 id).
Qed.

(** A workspace's id is new when its row is written (a primary key). *)
Lemma add_workspace_keeps id w grants c :
  workspace_of id (c_db c) = None -> grants_ok (c_db c) -> grants_ok (c_db (add_workspace id w grants c).2).
Proof.
  intros Fr G. unfold add_workspace. destruct (check_all grants _) as [checked|e] eqn:C; [|done].
  apply check_each_accepted in C; [|constructor].
  set (P d := workspace_of id d = None /\ grants_ok d).
  match goal with |- context [transaction ?m c] =>
    assert (T : triple P (transaction m) (fun _ => grants_ok) P) end.
  { apply (triple_transaction _ _ _ grants_ok), (triple_bind _ _ _ (fun _ => stands_in id w)).
    - intros c0 [F0 [F N]]. unfold execute, sql. destruct (w_fault (c_tick c0)); [done|]. cbn. split.
      + split; [|done]. eapply Forall_impl; [exact F|]. intros r (w' & W & A). exists w'.
        split; [|done]. by rewrite workspace_of_snoc, W.
      + rewrite workspace_of_snoc, F0. cbn. by rewrite String.eqb_refl.
    - intros _. apply standing_ok. unfold insert_folder_grants. apply preserves_bind; [auto with fletch|]. intros now.
      induction C as [|g gs A C IH]; cbn [insert_each]; [auto with fletch|].
      apply preserves_bind; [|done]. apply standing_execute. intros d [G0 W]. by apply (replace_ok _ _ _ _ w). }
  specialize (T c (conj Fr G)). destruct (transaction _ c) as [[a|e] c']; [done|]. by destruct T.
Qed.

(** The operations that write grants, in any order. *)
Inductive grant_step : Conn GrantDb -> Conn GrantDb -> Prop :=
| step_grant id path writable c : grant_step c (grant_folder id path writable c).2
| step_revoke id path c : grant_step c (revoke_folder id path c).2
| step_add id w grants c : workspace_of id (c_db c) = None -> grant_step c (add_workspace id w grants c).2.

(** (C16) However folders are granted, regranted in another mode and taken back, and whichever statement
    fails, every stored grant was accepted for its workspace in the mode it has, and a folder is
    granted once. *)
Theorem stored_grants_were_accepted c c' :
  grants_ok (c_db c) -> rtc grant_step c c' -> grants_ok (c_db c').
Proof.
  intros G S. induction S as [c|c c1 c' S _ IH]; [done|]. apply IH. destruct S.
  - by apply grant_folder_keeps.
  - by apply revoke_folder_keeps.
  - by apply add_workspace_keeps.
Qed.
End stored.

(** ** A change the agent is not relaunched for *)

(** Rules that decide alike from any answer before them. *)
Definition alike (rs rs' : list Rule) : Prop :=
  forall op t b, foldl (fun acc r => if applies r op t then ru_allow r else acc) b rs
               = foldl (fun acc r => if applies r op t then ru_allow r else acc) b rs'.

#[export] Instance alike_equiv : Equivalence alike.
Proof.
  split; [by intros rs op t b|by intros rs rs' S op t b|intros rs rs' rs'' S S' op t b; by rewrite S].
Qed.

#[export] Instance app_alike : Proper (alike ==> alike ==> alike) (@app Rule).
Proof. intros a a' A b b' B op t x. by rewrite !foldl_app, A, B. Qed.

Lemma same_alike rs rs' : Forall2 same_rule rs rs' -> alike rs rs'.
Proof.
  intros S op t. induction S as [|r r' rs rs' E S IH]; intros b; [done|]. cbn [foldl]. rewrite IH.
  rewrite (applies_proper r r' E op op eq_refl t t eq_refl). by destruct E as [-> _].
Qed.

(** Rules that all allow, or all deny, decide alike in any order. *)
Lemma one_answer_decides (a : bool) rs op t b :
  Forall (fun r => ru_allow r = a) rs ->
  foldl (fun acc r => if applies r op t then ru_allow r else acc) b rs
  = if existsb (fun r => applies r op t) rs then a else b.
Proof.
  intros F. revert b. induction F as [|r rs E F IH]; intros b; [done|]. cbn [foldl existsb]. rewrite IH, E.
  destruct (applies r op t), (existsb _ rs); done.
Qed.

Lemma one_answer_alike (a : bool) rs rs' :
  Forall (fun r => ru_allow r = a) rs -> rs ≡ₚ rs' -> alike rs rs'.
Proof.
  intros F P op t b. rewrite !(one_answer_decides a); [|by rewrite <- P|done].
  rewrite (existsb_same (fun r => applies r op t) rs rs'); [done|]. intros x. by rewrite P.
Qed.

Lemma fmap_rules_alike {A} (f : A -> Rule) (a : bool) l l' :
  (forall x, ru_allow (f x) = a) -> l ≡ₚ l' -> alike (f <$> l) (f <$> l').
Proof.
  intros F P. apply (one_answer_alike a); [|by rewrite P]. apply Forall_fmap, Forall_true. intros x. apply F.
Qed.

Lemma lfilter_within {A} (p q : A -> bool) l : (forall x, p x = true -> q x = true) -> lfilter p (lfilter q l) = lfilter p l.
Proof.
  intros I. induction l as [|x l IH]; [done|]. cbn [lfilter]. destruct (q x) eqn:Q; cbn [lfilter]; [by rewrite IH|].
  destruct (p x) eqn:E; [|done]. apply I in E. congruence.
Qed.

Lemma lfilter_swap {A} (p q : A -> bool) l : lfilter p (lfilter q l) = lfilter q (lfilter p l).
Proof.
  induction l as [|x l IH]; [done|]. cbn [lfilter].
  destruct (q x) eqn:Q, (p x) eqn:E; cbn [lfilter]; rewrite ?Q, ?E; by rewrite ?IH.
Qed.

Lemma lfilter_both {A} (p q : A -> bool) l : lfilter p (lfilter q l) = lfilter (fun x => q x && p x) l.
Proof. induction l as [|x l IH]; [done|]. cbn [lfilter]. destruct (q x); cbn [lfilter andb]; by rewrite IH. Qed.

Lemma lfilter_fmap {A B} (f : A -> B) p l : lfilter p (f <$> l) = f <$> lfilter (fun x => p (f x)) l.
Proof. induction l as [|x l IH]; [done|]. cbn [fmap list_fmap lfilter]. rewrite IH. by destruct (p (f x)). Qed.

Lemma mjoin_perm {A B} (f : A -> list B) l l' : l ≡ₚ l' -> mjoin (f <$> l) ≡ₚ mjoin (f <$> l').
Proof.
  induction 1 as [|x l l' _ IH|x y l|l l' l'' _ IH _ IH']; [done| | |by etrans]; rewrite !mjoin_fmap_cons.
  - by apply Permutation_app_head.
  - rewrite !app_assoc. apply Permutation_app_tail, Permutation_app_comm.
Qed.

(** A launch with the grants of a workspace that are still there. *)
Definition with_grants `{Folders} (grants : list FolderGrant) (la : Launch) : Launch :=
  {| la_writable_root := la_writable_root la; la_rpc_dir := la_rpc_dir la; la_home := la_home la;
     la_toolchain_cache := la_toolchain_cache la; la_claude_config_dir := la_claude_config_dir la;
     la_blackboard := la_blackboard la; la_adopted_workspace := la_adopted_workspace la;
     la_adopted_read_only := la_adopted_read_only la; la_codex_home := la_codex_home la;
     la_source_repos := la_source_repos la; la_folder_grants := present grants |}.

Section unseen.
Context `{Env0 : HostEnv} `{Folders0 : Folders} `{Data0 : Published}.
Context (home : string) (g1 g2 : list FolderGrant).
Hypothesis unseen : launch_relevant SandboxExec g1 home = launch_relevant SandboxExec g2 home.

Let relevant (g : FolderGrant) : bool := fg_writable g || inside_macos_privacy_dir home (fg_path g).

Lemma relevant_perm : lfilter relevant g1 ≡ₚ lfilter relevant g2.
Proof.
  pose proof unseen as U. unfold launch_relevant in U. cbn [caps ec_shares_host_fs] in U.
  rewrite <- (sort_by_perm (fun a b => path_le (fg_path a) (fg_path b)) (lfilter relevant g1)).
  unfold relevant. rewrite U. apply sort_by_perm.
Qed.

(** What a launch takes from its relevant grants is the same. *)
Lemma seen_perm (p : FolderGrant -> bool) :
  (forall g, p g = true -> relevant g = true) -> lfilter p (present g1) ≡ₚ lfilter p (present g2).
Proof.
  intros I. unfold present. rewrite (lfilter_swap p _ g1), (lfilter_swap p _ g2).
  rewrite <- (lfilter_within p relevant g1), <- (lfilter_within p relevant g2) by done.
  by apply lfilter_perm, lfilter_perm, relevant_perm.
Qed.

Lemma granted_writable_perm la : granted_writable (with_grants g1 la) ≡ₚ granted_writable (with_grants g2 la).
Proof.
  unfold granted_writable. cbn [la_folder_grants with_grants]. apply fmap_Permutation, seen_perm.
  intros g W. unfold relevant. by rewrite W.
Qed.

Lemma granted_readable_perm la :
  lfilter (inside_macos_privacy_dir home) (granted_readable (with_grants g1 la))
  ≡ₚ lfilter (inside_macos_privacy_dir home) (granted_readable (with_grants g2 la)).
Proof.
  unfold granted_readable. cbn [la_folder_grants with_grants]. rewrite !lfilter_fmap, !lfilter_both.
  apply fmap_Permutation, seen_perm. intros g [_ I]%andb_true_iff. unfold relevant. by rewrite I, orb_true_r.
Qed.

Lemma privacy_rules_alike writable writable' readable readable' :
  lfilter (inside_macos_privacy_dir home) writable ≡ₚ lfilter (inside_macos_privacy_dir home) writable' ->
  lfilter (inside_macos_privacy_dir home) readable ≡ₚ lfilter (inside_macos_privacy_dir home) readable' ->
  alike (privacy_rules home writable readable) (privacy_rules home writable' readable').
Proof.
  intros W R. unfold privacy_rules. apply (app_alike [_] [_]); [done|]. unfold reopened.
  apply app_alike; apply (fmap_rules_alike _ true); try done; by apply mjoin_perm.
Qed.

Lemma agent_rules_alike la r :
  re_home r = home -> alike (agent_rules (with_grants g1 la) r) (agent_rules (with_grants g2 la) r).
Proof.
  intros H. unfold agent_rules, profile_rules, agent_denies. rewrite H.
  pose proof (granted_writable_perm la) as W. pose proof (granted_readable_perm la) as R.
  apply (app_alike [_; _] [_; _]); [done|]. apply (app_alike [_] [_]).
  - apply same_alike. constructor; [|done]. split_and!; [done|done|]. intros f. unfold agent_grants. cbn [ru_filters allow].
    cbn [la_claude_config_dir la_codex_home la_toolchain_cache with_grants].
    assert (G : f ∈ granted (granted_writable (with_grants g1 la)) <-> f ∈ granted (granted_writable (with_grants g2 la)))
      by (unfold granted; by rewrite (mjoin_perm _ _ _ W)).
    by rewrite !elem_of_app, G.
  - cbn [app]. apply (app_alike [_] [_]); [done|]. rewrite <- !app_assoc. apply app_alike; [done|]. apply app_alike.
    + apply privacy_rules_alike.
      * unfold writable_roots. rewrite !lfilter_app. repeat apply Permutation_app_head. by apply lfilter_perm.
      * unfold readable_roots. rewrite !lfilter_app. by repeat apply Permutation_app_head.
    + apply app_alike; [|done]. apply (fmap_rules_alike _ false); [done|]. unfold repo_roots.
      by apply perm_skip, Permutation_app_head.
Qed.
End unseen.

(** (C32) A grant or a revoke the agent is not relaunched for leaves nothing to relaunch it for: launched
    with the grants before it or with those after it, a process may do the same. *)
Theorem no_relaunch_is_needed `{Env0 : HostEnv} `{Folders0 : Folders} `{Data0 : Published} `{Sandbox0 : Sandbox}
    `{Law0 : !SandboxLaw} la before after r s s' op t :
  confined (with_grants before la) r s -> confined (with_grants after la) r s' ->
  launch_relevant SandboxExec before (re_home r) = launch_relevant SandboxExec after (re_home r) ->
  permits s op t = permits s' op t.
Proof.
  intros C C' U. rewrite (confined_decides _ _ _ _ _ C), (confined_decides _ _ _ _ _ C').
  exact (agent_rules_alike _ _ _ U la r eq_refl op t false).
Qed.

(** ** Concrete cases *)

Section example.

#[local] Existing Instance example_host.
#[local] Existing Instance example_data.
#[local] Existing Instance reading_sandbox.
#[local] Existing Instance reading_sandbox_law.

#[local] Instance example_folders : Folders := {
  is_dir _ := true;
  read_dir_error _ := None;
  dirs_data_dir := Some "/Users/u/Library/Application Support";
  temp_dir := "/private/tmp";
  debug_assertions := false;
}.

(** A world where every ninth statement fails. *)
#[local] Instance example_world : World := {
  w_fault n := if (n mod 9 =? 0)%nat then Some "disk I/O error" else None;
  w_now n := Z.of_nat n;
  w_uuid n := "";
}.

Definition example_notes : list FolderGrant := [{| fg_path := "/Users/u/notes"; fg_writable := false |}].

Definition example_profile_of (grants : list FolderGrant) : string :=
  match build_profile (with_grants grants example_launch) with Ok s => s | Err _ => "" end.

Lemma example_grants_confined grants :
  grants = [] \/ grants = example_notes ->
  confined (with_grants grants example_launch) example_resolved (example_profile_of grants).
Proof.
  intros [->| ->]; (split_and!; [vm_compute; reflexivity|vm_compute; reflexivity|]);
    apply Forall_forall; intros root I; vm_compute in I;
    repeat (apply elem_of_cons in I as [->|I]; [reflexivity|]); by apply elem_of_nil in I.
Qed.

Lemma no_relaunch_is_needed_witness :
  permits (example_profile_of []) READ "/Users/u/notes/todo.md"
  = permits (example_profile_of example_notes) READ "/Users/u/notes/todo.md".
Proof.
  exact (@no_relaunch_is_needed example_host example_folders example_data reading_sandbox reading_sandbox_law
           example_launch [] example_notes example_resolved _ _ READ "/Users/u/notes/todo.md"
           (example_grants_confined [] (or_introl eq_refl)) (example_grants_confined example_notes (or_intror eq_refl))
           ltac:(vm_compute; reflexivity)).
Defined.

Lemma granted_folder_is_apart_witness :
  refusal "/Users/u/code" "/Users/u" protected_roots true path_dirs SandboxExec = None
  /\ apart "/Users/u/code" "/Users/u/.ssh/keys".
Proof.
  assert (R : refusal "/Users/u/code" "/Users/u" protected_roots true path_dirs SandboxExec = None)
    by (vm_compute; reflexivity).
  split; [exact R|]. apply (granted_folder_is_apart _ _ _ _ _ _ R).
  apply (sensitive_hidden _ _ _ ".ssh" ["keys"]); [split|]; vm_compute; reflexivity.
Defined.

Definition example_conn : Conn GrantDb := {|
  c_db := {| gd_workspaces := [("a", {| ws_archived := false; ws_engine := Some "sandbox-exec" |})]; gd_grants := [] |};
  c_tick := 1;
|}.

Definition granted_conn : Conn GrantDb := (grant_folder "a" "/Users/u/code" true example_conn).2.

Lemma stored_grants_were_accepted_witness :
  gr_path <$> gd_grants (c_db granted_conn) = ["/Users/u/code"] /\ grants_ok (c_db granted_conn).
Proof.
  split.
  - vm_compute. reflexivity.
  - apply (@stored_grants_were_accepted example_world example_host example_folders example_data example_conn).
    + split; constructor.
    + eapply rtc_l; [apply (step_grant "a" "/Users/u/code" true)|apply rtc_refl].
Defined.
End example.
