(* ===== verification/Prog.v ===== *)
(** * Tasks over a shared state

    A task of the source as the tree of what it does to the state it shares with the others: an
    atomic action (a section under a lock), which may have to wait, or an answer from outside. Tasks
    run interleaved, one action at a time, and the environment acts between any two. [safe] is the
    proof obligation of one task against an invariant of the state and of what the tasks hold;
    [pool_invariant] is its soundness. *)

From S2P Require Import Prelude.

Inductive prog (S A : Type) : Type :=
| Ret (a : A)
(** An atomic action. [None]: it waits. *)
| Act (X : Type) (f : S -> option (X * S)) (k : X -> prog S A)
(** Something answers from outside of the state: a process, a disk, the network. *)
| Ask (X : Type) (k : X -> prog S A).
Arguments Ret {S A} _.
Arguments Act {S A X} _ _.
Arguments Ask {S A} _ _.

Fixpoint pbind {S A B} (p : prog S A) (q : A -> prog S B) : prog S B :=
  match p with
  | Ret a => q a
  | Act f k => Act f (fun x => pbind (k x) q)
  | Ask X k => Ask X (fun x => pbind (k x) q)
  end.

Notation "'do' x '<-' p ';' q" := (pbind p (fun x => q))
  (at level 10, x pattern, p at level 200, q at level 200, format "'do'  x  '<-'  p ';' '//' q") : fletch_scope.

Definition atomic {S X} (f : S -> X * S) : prog S X := Act (fun s => Some (f s)) Ret.
Definition look {S X} (f : S -> X) : prog S X := atomic (fun s => (f s, s)).
Definition change {S} (f : S -> S) : prog S () := atomic (fun s => ((), f s)).
Definition ask {S} (X : Type) : prog S X := Ask X Ret.

(** ** Interleaving *)

Section pool.
Context {S : Type} (starts : prog S () -> Prop) (env : S -> S -> Prop).

Inductive pool_step : S * list (prog S ()) -> S * list (prog S ()) -> Prop :=
| pool_act X f (k : X -> prog S ()) s s' x before after :
    f s = Some (x, s') -> pool_step (s, before ++ Act f k :: after) (s', before ++ k x :: after)
| pool_ask X (k : X -> prog S ()) s x before after :
    pool_step (s, before ++ Ask X k :: after) (s, before ++ k x :: after)
| pool_start p s ts : starts p -> pool_step (s, ts) (s, ts ++ [p])
| pool_env s s' ts : env s s' -> pool_step (s, ts) (s', ts).

(** ** What a task owes *)

(** [I s gs]: the invariant of a state [s] whose tasks hold [gs]. *)
Context {G : Type} (idle : G) (I : S -> list G -> Prop).

Fixpoint safe {A} (p : prog S A) (post : A -> G -> Prop) (g : G) : Prop :=
  match p with
  | Ret a => post a g
  | Act f k =>
      forall s x s' gs, I s (g :: gs) -> f s = Some (x, s') ->
        exists g', I s' (g' :: gs) /\ safe (k x) post g'
  | Ask X k => forall x : X, safe (k x) post g
  end.

Lemma safe_bind {A B} (p : prog S A) (q : A -> prog S B) post g :
  safe p (fun a => safe (q a) post) g -> safe (pbind p q) post g.
Proof.
  revert g. induction p as [a|X f k IH|X k IH]; intros g; cbn [pbind safe]; [done| |by eauto].
  intros H s x s' gs Hi E. destruct (H s x s' gs Hi E) as (g' & Hi' & H'). exists g'. split; [done|]. by apply IH.
Qed.

Lemma safe_weaken {A} (p : prog S A) (post post' : A -> G -> Prop) g :
  (forall a g, post a g -> post' a g) -> safe p post g -> safe p post' g.
Proof.
  intros W. revert g. induction p as [a|X f k IH|X k IH]; intros g; cbn [safe]; [by apply W| |by eauto].
  intros H s x s' gs Hi E. destruct (H s x s' gs Hi E) as (g' & Hi' & H'). exists g'. split; [done|]. by apply IH.
Qed.

Lemma safe_atomic {X} (f : S -> X * S) post g :
  (forall s gs, I s (g :: gs) -> exists g', I (f s).2 (g' :: gs) /\ post (f s).1 g') -> safe (atomic f) post g.
Proof. intros H s x s' gs Hi [= E]. destruct (H s gs Hi) as (g' & Hi' & P). rewrite E in Hi', P. by exists g'. Qed.

Lemma safe_ask (X : Type) (post : X -> G -> Prop) g : (forall x, post x g) -> safe (ask X) post g.
Proof. done. Qed.

(** Whatever a pool of tasks does, the invariant stands, with each task on its way to giving back what
    it holds. *)
Section soundness.
Hypothesis order : forall s gs gs', gs ≡ₚ gs' -> I s gs -> I s gs'.
Hypothesis started : forall p, starts p -> safe p (fun _ => eq idle) idle.
Hypothesis idle_in : forall s gs, I s gs -> I s (idle :: gs).
Hypothesis env_ok : forall s s' gs, env s s' -> I s gs -> I s' gs.

Definition pool_ok (c : S * list (prog S ())) : Prop :=
  exists gs, I c.1 gs /\ Forall2 (fun p g => safe p (fun _ => eq idle) g) c.2 gs.

Lemma pool_step_ok c c' : pool_step c c' -> pool_ok c -> pool_ok c'.
Proof.
  intros St (gs & Hi & F).
  destruct St as [X f k s s' x before after E|X k s x before after|p s ts P|s s' ts E]; cbn [fst snd] in *.
  - apply Forall2_app_inv_l in F as (g1 & g2 & F1 & F2 & ->). inversion F2 as [|? g ? g3 Hs F3]; subst.
    destruct (Hs s x s' (g1 ++ g3)) as (g' & Hi' & Hs').
    + eapply order; [|exact Hi]. by rewrite Permutation_middle.
    + done.
    + exists (g1 ++ g' :: g3). split; [eapply order; [|exact Hi']; by rewrite Permutation_middle|].
      apply Forall2_app; [done|]. by constructor.
  - apply Forall2_app_inv_l in F as (g1 & g2 & F1 & F2 & ->). inversion F2 as [|? g ? g3 Hs F3]; subst.
    exists (g1 ++ g :: g3). split; [done|]. apply Forall2_app; [done|]. constructor; [apply Hs|done].
  - exists (gs ++ [idle]). split.
    + eapply order; [|by apply idle_in]. apply Permutation_cons_append.
    + apply Forall2_app; [done|]. constructor; [by apply started|done].
  - exists gs. split; [by apply (env_ok s)|done].
Qed.

Lemma pool_invariant s c :
  I s [] -> rtc pool_step (s, []) c -> pool_ok c.
Proof.
  intros Hi R. assert (P : pool_ok (s, [])) by (exists []; by split; [|constructor]).
  revert P. induction R as [c|c c1 c' St _ IH]; [done|]. intros P. apply IH. by eapply pool_step_ok.
Qed.
End soundness.
End pool.
