(* ===== verification/MessageQueue.v ===== *)
(** * Follow-up messages: the queue and its durable mirror

    [src/crates/fletch-core/src/message_queue.rs] (the queue of one supervisor, what a message sent to
    an agent comes to, messages folded into one), [workspace/message_queue.rs] (the table that mirrors
    the queue) and the rows of delivered turns of [workspace/turns.rs] that delivery writes. *)

From stdpp Require Import gmap.
From S2P Require Import Prelude RustStr Sql.

Local Open Scope string_scope.
Local Open Scope list_scope.

Inductive InjectionMode := Live | AtTurnBoundary.

Record PendingMsg := { pm_turn_id : string; pm_text : string; pm_attachments : list string }.

Inductive Delivery := DeliverNow | FlushNow | WriteLive | Enqueue.

Definition decide_delivery (busy : bool) (mode : InjectionMode) (tool_gated queue_nonempty : bool) : Delivery :=
  match busy, mode, tool_gated with
  | false, _, _ => if queue_nonempty then FlushNow else DeliverNow
  | true, Live, false => WriteLive
  | true, _, _ => Enqueue
  end.

(** ** Folding messages into one *)

Definition two_newlines : string := String (Ascii.ascii_of_N 10) (String (Ascii.ascii_of_N 10) "").

(** [if seen.insert(a) { attachments.push(a) }]: [seen] holds what was pushed. *)
Definition push_unseen (out : list string) (a : string) : list string :=
  if lcontains out a then out else out ++ [a].

Definition texts_of (msgs : list PendingMsg) : list string :=
  lfilter (fun t => negb (is_empty t)) (pm_text <$> msgs).

Definition attachments_of (msgs : list PendingMsg) : list string :=
  foldl (fun out m => foldl push_unseen out (pm_attachments m)) [] msgs.

(** [None]: no message, where the source would panic. *)
Definition coalesce (msgs : list PendingMsg) : option PendingMsg :=
  match msgs with
  | [m] => Some m
  | _ =>
      last_msg ← last msgs;
      Some {| pm_turn_id := pm_turn_id last_msg; pm_text := join two_newlines (texts_of msgs);
              pm_attachments := attachments_of msgs |}
  end.

(** ** The queue *)

Notation MessageQueue := (gmap string (list PendingMsg)).

(** [entry(agent_id).or_default()]. *)
Definition queued (q : MessageQueue) (agent_id : string) : list PendingMsg := default [] (q !! agent_id).

Definition enqueue (agent_id : string) (msg : PendingMsg) (q : MessageQueue) : MessageQueue :=
  <[agent_id := queued q agent_id ++ [msg]]> q.

Definition requeue_front (agent_id : string) (msg : PendingMsg) (q : MessageQueue) : MessageQueue :=
  <[agent_id := msg :: queued q agent_id]> q.

Definition queue_is_empty (q : MessageQueue) (agent_id : string) : bool :=
  match q !! agent_id with Some msgs => match msgs with [] => true | _ => false end | None => true end.

Definition queue_len (q : MessageQueue) (agent_id : string) : nat :=
  match q !! agent_id with Some msgs => length msgs | None => 0 end.

Definition turn_ids (q : MessageQueue) (agent_id : string) : list string :=
  match q !! agent_id with Some msgs => pm_turn_id <$> msgs | None => [] end.

Definition drain_coalesced (agent_id : string) (q : MessageQueue) : option PendingMsg * MessageQueue :=
  match q !! agent_id with
  | None => (None, q)
  | Some [] => (None, q)
  | Some msgs => (coalesce msgs, <[agent_id := []]> q)
  end.

Definition clear_queue (agent_id : string) (q : MessageQueue) : MessageQueue := delete agent_id q.

(** ** The tables *)

(** A row of [workspaces], of [sessions] ([superseded_at IS NULL]: the current one), of
    [pending_messages], and of [session_user_turns]; of the transcripts, each record's session and
    seq. *)
Record WsRow := { mw_id : string; mw_archived : bool; mw_task : option string }.
Record SessionRow := { se_id : string; se_workspace : string; se_superseded : bool }.

Record PendingRow := {
  pq_session : string; pq_seq : Z; pq_turn_id : string; pq_text : string; pq_attachments : string;
  pq_created_at : Z;
}.

Record TurnRow := {
  tu_turn_id : string; tu_session : string; tu_seq : Z; tu_text : string; tu_attachments : string;
  tu_native_id : option string; tu_watermark : option Z; tu_started_at : option Z; tu_ended_at : option Z;
  tu_outcome : option string; tu_created_at : Z;
}.

Record MsgDb := {
  md_workspaces : list WsRow;
  md_sessions : list SessionRow;
  md_pending : list PendingRow;
  md_turns : list TurnRow;
  md_records : list (string * Z);
}.

Definition set_pending (f : list PendingRow -> list PendingRow) (d : MsgDb) : MsgDb :=
  {| md_workspaces := md_workspaces d; md_sessions := md_sessions d; md_pending := f (md_pending d);
     md_turns := md_turns d; md_records := md_records d |}.

Definition set_turns (f : list TurnRow -> list TurnRow) (d : MsgDb) : MsgDb :=
  {| md_workspaces := md_workspaces d; md_sessions := md_sessions d; md_pending := md_pending d;
     md_turns := f (md_turns d); md_records := md_records d |}.

Definition set_started (at_ : option Z) (t : TurnRow) : TurnRow :=
  {| tu_turn_id := tu_turn_id t; tu_session := tu_session t; tu_seq := tu_seq t; tu_text := tu_text t;
     tu_attachments := tu_attachments t; tu_native_id := tu_native_id t; tu_watermark := tu_watermark t;
     tu_started_at := at_; tu_ended_at := tu_ended_at t; tu_outcome := tu_outcome t;
     tu_created_at := tu_created_at t |}.

Definition set_outcome (outcome : string) (t : TurnRow) : TurnRow :=
  {| tu_turn_id := tu_turn_id t; tu_session := tu_session t; tu_seq := tu_seq t; tu_text := tu_text t;
     tu_attachments := tu_attachments t; tu_native_id := tu_native_id t; tu_watermark := tu_watermark t;
     tu_started_at := tu_started_at t; tu_ended_at := tu_ended_at t; tu_outcome := Some outcome;
     tu_created_at := tu_created_at t |}.

(** [COALESCE(MAX(seq), 0)]. *)
Definition max_seq (l : list Z) : Z := max_or 0 l.

(** [serde_json] on a list of paths. *)
Class PathsJson := {
  to_json : list string -> string;
  from_json : string -> result (list string) string;
}.

Class PathsJsonLaw `{PathsJson} := { from_to_json l : from_json (to_json l) = Ok l }.

Section tables.
Context `{World0 : World} `{Json0 : PathsJson}.

Definition current_session (workspace_id : string) (d : MsgDb) : option string :=
  se_id <$> lfind (fun s => String.eqb (se_workspace s) workspace_id && negb (se_superseded s)) (md_sessions d).

(** [.ok()] of the row: an error is no session. *)
Definition current_session_id (workspace_id : string) : M MsgDb (option string) :=
  let* sid := attempt_ok (query (current_session workspace_id)) in ret (sid ≫= id).

Definition in_session (sid : string) (r : PendingRow) : bool := String.eqb (pq_session r) sid.

Definition enqueue_pending_message (workspace_id : string) (msg : PendingMsg) : M MsgDb () :=
  let* sid := current_session_id workspace_id in
  match sid with
  | None => ret ()
  | Some sid =>
      transaction
        (let* seq := query (fun d => (max_seq (pq_seq <$> lfilter (in_session sid) (md_pending d)) + 1)%Z) in
         let* now := now_millis in
         execute (set_pending (fun l => l ++
           [{| pq_session := sid; pq_seq := seq; pq_turn_id := pm_turn_id msg; pq_text := pm_text msg;
               pq_attachments := to_json (pm_attachments msg); pq_created_at := now |}])))
  end.

Definition delete_pending_messages_except (workspace_id : string) (keep : list string) : M MsgDb () :=
  let* sid := current_session_id workspace_id in
  match sid with
  | None => ret ()
  | Some sid =>
      match keep with
      | [] => execute (set_pending (lfilter (fun r => negb (in_session sid r))))
      | _ => execute (set_pending (lfilter (fun r => negb (in_session sid r && negb (lcontains keep (pq_turn_id r))))))
      end
  end.

Definition clear_pending_messages (workspace_id : string) : M MsgDb () :=
  let* sid := current_session_id workspace_id in
  match sid with
  | None => ret ()
  | Some sid => execute (set_pending (lfilter (fun r => negb (in_session sid r))))
  end.

(** The rows of current sessions of workspaces that are not archived, each with its workspace, by
    workspace and seq. *)
Definition join_rows (d : MsgDb) : list (string * PendingRow) :=
  mjoin ((fun p => mjoin ((fun s =>
      if String.eqb (se_id s) (pq_session p) && negb (se_superseded s)
         && existsb (fun w => String.eqb (mw_id w) (se_workspace s) && negb (mw_archived w)) (md_workspaces d)
      then [(se_workspace s, p)] else []) <$> md_sessions d)) <$> md_pending d).

Definition by_workspace_and_seq (a b : string * PendingRow) : bool :=
  if String.eqb a.1 b.1 then (pq_seq a.2 <=? pq_seq b.2)%Z else String.leb a.1 b.1.

Fixpoint decode_rows (rows : list (string * PendingRow)) : result (list (string * PendingMsg)) string :=
  match rows with
  | [] => Ok []
  | (workspace_id, p) :: rows =>
      match from_json (pq_attachments p) with
      | Err e => Err ("deserialize attachments: " +:+ e)
      | Ok attachments =>
          match decode_rows rows with
          | Ok l =>
              Ok ((workspace_id, {| pm_turn_id := pq_turn_id p; pm_text := pq_text p;
                                    pm_attachments := attachments |}) :: l)
          | Err e => Err e
          end
      end
  end.

Definition read_all_pending_messages : M MsgDb (list (string * PendingMsg)) :=
  let* rows := query (fun d => sort_by by_workspace_and_seq (join_rows d)) in lift (decode_rows rows).

(** ** Rows of turns *)

(** [INSERT OR IGNORE]: the turn id is the key, and a session has one turn per seq. *)
Definition insert_turn_row (t : TurnRow) (d : MsgDb) : result (bool * MsgDb) string :=
  if existsb (fun t' => String.eqb (tu_turn_id t') (tu_turn_id t)
                        || String.eqb (tu_session t') (tu_session t) && (tu_seq t' =? tu_seq t)%Z) (md_turns d)
  then Ok (false, d) else Ok (true, set_turns (fun l => l ++ [t]) d).

Definition insert_user_turn (workspace_id : string) (msg : PendingMsg) : M MsgDb bool :=
  let* sid := current_session_id workspace_id in
  match sid with
  | None => ret false
  | Some sid =>
      transaction
        (let* seq := query (fun d =>
           (max_seq (tu_seq <$> lfilter (fun t => String.eqb (tu_session t) sid) (md_turns d)) + 1)%Z) in
         let* now := now_millis in
         sql (fun d => insert_turn_row
           {| tu_turn_id := pm_turn_id msg; tu_session := sid; tu_seq := seq; tu_text := pm_text msg;
              tu_attachments := to_json (pm_attachments msg); tu_native_id := None;
              tu_watermark := Some (max_seq (snd <$> lfilter (fun r => String.eqb r.1 sid) (md_records d)));
              tu_started_at := None; tu_ended_at := None; tu_outcome := None; tu_created_at := now |} d))
  end.

Definition never_ran (turn_id : string) (t : TurnRow) : bool :=
  String.eqb (tu_turn_id t) turn_id && is_none (tu_native_id t) && is_none (tu_started_at t)
  && is_none (tu_outcome t).

Definition delete_pending_user_turns (turn_ids : list string) : M MsgDb () :=
  let* _ := for_each (fun turn_id => execute (set_turns (lfilter (fun t => negb (never_ran turn_id t))))) turn_ids in
  ret ().

Definition mark_turn_row_started (turn_id : string) (started_at : Z) : M MsgDb () :=
  execute (set_turns (fmap (fun t =>
    if String.eqb (tu_turn_id t) turn_id && is_none (tu_started_at t) then set_started (Some started_at) t else t))).

Definition unmark_user_turn_started (turn_id : string) : M MsgDb () :=
  execute (set_turns (fmap (fun t =>
    if String.eqb (tu_turn_id t) turn_id && is_none (tu_ended_at t) then set_started None t else t))).

Definition mark_user_turns_abandoned (turn_ids : list string) : M MsgDb () :=
  let* _ := for_each (fun turn_id => execute (set_turns (fmap (fun t =>
    if String.eqb (tu_turn_id t) turn_id && is_none (tu_started_at t) && is_none (tu_outcome t)
    then set_outcome "failed" t else t)))) turn_ids in
  ret ().

Definition set_agent_task_if_empty (id task : string) : M MsgDb bool :=
  let empty w := String.eqb (mw_id w) id && match mw_task w with None => true | Some t => is_empty t end in
  sql (fun d => Ok (existsb empty (md_workspaces d),
    {| md_workspaces := (fun w => if empty w
          then {| mw_id := mw_id w; mw_archived := mw_archived w; mw_task := Some task |} else w)
          <$> md_workspaces d;
       md_sessions := md_sessions d; md_pending := md_pending d; md_turns := md_turns d;
       md_records := md_records d |})).

(** [sessions::start_session], as far as it touches these tables: the old session is superseded, its
    open turns closed and its pending messages dropped, and the new one is the current session. *)
Definition start_session (workspace_id : string) : M MsgDb string :=
  transaction
    (let* old := query (current_session workspace_id) in
     match old with
     | None => err ("agent not found: " +:+ workspace_id)
     | Some old =>
         (* Its provider and view, for the new row. *)
         let* _ := query (fun _ => ()) in
         let* now := now_millis in
         let* _ := execute (fun d =>
           {| md_workspaces := md_workspaces d;
              md_sessions := (fun s => if String.eqb (se_id s) old
                then {| se_id := se_id s; se_workspace := se_workspace s; se_superseded := true |} else s)
                <$> md_sessions d;
              md_pending := md_pending d; md_turns := md_turns d; md_records := md_records d |}) in
         let* _ := execute (set_turns (fmap (fun t =>
           if String.eqb (tu_session t) old && negb (is_none (tu_started_at t)) && is_none (tu_ended_at t)
           then {| tu_turn_id := tu_turn_id t; tu_session := tu_session t; tu_seq := tu_seq t;
                   tu_text := tu_text t; tu_attachments := tu_attachments t; tu_native_id := tu_native_id t;
                   tu_watermark := tu_watermark t; tu_started_at := tu_started_at t; tu_ended_at := Some now;
                   tu_outcome := tu_outcome t; tu_created_at := tu_created_at t |} else t))) in
         let* _ := execute (set_pending (lfilter (fun r => negb (in_session old r)))) in
         let* id := new_uuid in
         let* _ := execute (fun d =>
           {| md_workspaces := md_workspaces d;
              md_sessions := md_sessions d ++ [{| se_id := id; se_workspace := workspace_id; se_superseded := false |}];
              md_pending := md_pending d; md_turns := md_turns d; md_records := md_records d |}) in
         ret id
     end).
End tables.

(** ** Folding again changes nothing *)

Lemma mjoin_cons {A} (x : list A) l : mjoin (x :: l) = x ++ mjoin l.
Proof. done. Qed.

Lemma mjoin_app {A} (l1 l2 : list (list A)) : mjoin (l1 ++ l2) = mjoin l1 ++ mjoin l2.
Proof. induction l1 as [|x l1 IH]; [done|]. by rewrite <- app_comm_cons, !mjoin_cons, IH, app_assoc. Qed.

Lemma push_unseen_in out a : a ∈ out -> push_unseen out a = out.
Proof. intros I. unfold push_unseen. by rewrite (proj2 (lcontains_true _ _) I). Qed.

Lemma push_all_elem out l a : a ∈ foldl push_unseen out l <-> a ∈ out \/ a ∈ l.
Proof.
  revert out. induction l as [|x l IH]; intros out; cbn [foldl]; [set_solver|]. rewrite IH. unfold push_unseen.
  destruct (lcontains out x) eqn:E; [apply lcontains_true in E|]; set_solver.
Qed.

Lemma push_all_seen out l : (forall a, a ∈ l -> a ∈ out) -> foldl push_unseen out l = out.
Proof.
  induction l as [|x l IH]; intros I; cbn [foldl]; [done|].
  rewrite push_unseen_in by (apply I; left). apply IH. intros a Ia. apply I. by right.
Qed.

(** Pushing what [l] comes to is pushing [l]. *)
Lemma push_all_again out mid l :
  foldl push_unseen out (foldl push_unseen mid l) = foldl push_unseen (foldl push_unseen out mid) l.
Proof.
  revert mid. induction l as [|x l IH]; intros mid; cbn [foldl]; [done|]. rewrite IH. f_equal.
  unfold push_unseen at 2. destruct (lcontains mid x) eqn:E.
  - symmetry. apply push_unseen_in, push_all_elem. right. by apply lcontains_true.
  - by rewrite foldl_app.
Qed.

Lemma attachments_flat msgs out :
  foldl (fun out m => foldl push_unseen out (pm_attachments m)) out msgs
  = foldl push_unseen out (mjoin (pm_attachments <$> msgs)).
Proof.
  revert out. induction msgs as [|m msgs IH]; intros out; [done|]. cbn [foldl fmap list_fmap]. rewrite mjoin_cons.
  by rewrite IH, foldl_app.
Qed.

Lemma attachments_of_flat msgs : attachments_of msgs = foldl push_unseen [] (mjoin (pm_attachments <$> msgs)).
Proof. apply attachments_flat. Qed.

Lemma texts_of_app l1 l2 : texts_of (l1 ++ l2) = texts_of l1 ++ texts_of l2.
Proof. unfold texts_of. by rewrite fmap_app, lfilter_app. Qed.

Lemma join_empty sep l : Forall (fun t => negb (is_empty t) = true) l -> join sep l = "" -> l = [].
Proof.
  intros F E. destruct F as [|x l X F]; [done|]. destruct x as [|c x]; [done|].
  destruct l as [|y l]; [by cbn in E|]. by rewrite joined_cons in E.
Qed.

Lemma texts_of_full l : Forall (fun t => negb (is_empty t) = true) (texts_of l).
Proof. apply Forall_forall. by intros t [_ T]%elem_of_lfilter. Qed.

(** The text of a list of messages; appending lists glues their texts. *)
Definition body (msgs : list PendingMsg) : string := join two_newlines (texts_of msgs).

Definition glue (a b : string) : string :=
  if is_empty a then b else if is_empty b then a else a +:+ two_newlines +:+ b.

Lemma body_empty l : body l = "" -> texts_of l = [].
Proof. apply join_empty, texts_of_full. Qed.

Lemma body_app l1 l2 : body (l1 ++ l2) = glue (body l1) (body l2).
Proof.
  unfold glue. destruct (is_empty (body l1)) eqn:E1; [|destruct (is_empty (body l2)) eqn:E2].
  - apply String.eqb_eq in E1. unfold body at 1. by rewrite texts_of_app, (body_empty l1 E1).
  - apply String.eqb_eq in E2. unfold body at 1. by rewrite texts_of_app, (body_empty l2 E2), app_nil_r.
  - unfold body. rewrite texts_of_app. apply joined_app; intros N; [revert E1|revert E2]; unfold body; by rewrite N.
Qed.

Lemma body_one m : body [m] = pm_text m.
Proof. unfold body, texts_of. cbn. by destruct (pm_text m). Qed.

(** ** What a message stands for *)

(** [m] is what the messages [g] come to. *)
Definition stands_for (g : list PendingMsg) (m : PendingMsg) : Prop := coalesce g = Some m.

Lemma stands_for_one m : stands_for [m] m.
Proof. done. Qed.

Lemma stands_for_full g m : stands_for g m -> g <> [].
Proof. by destruct g. Qed.

Lemma stands_for_last g m : stands_for g m -> exists l, last g = Some l /\ pm_turn_id m = pm_turn_id l.
Proof.
  unfold stands_for. destruct g as [|m1 [|m2 g]]; [done|intros [= <-]; by exists m1|]. unfold coalesce.
  destruct (last (m1 :: m2 :: g)) as [l|] eqn:L; [|done]. cbn. intros [= <-]. by exists l.
Qed.

Lemma stands_for_text g m : stands_for g m -> pm_text m = body g.
Proof.
  unfold stands_for. destruct g as [|m1 [|m2 g]]; [done|intros [= <-]; by rewrite body_one|]. unfold coalesce.
  destruct (last (m1 :: m2 :: g)) as [l|]; [|done]. cbn [mbind option_bind]. by intros [= <-].
Qed.

Lemma stands_for_attachments g m : stands_for g m -> attachments_of [m] = attachments_of g.
Proof.
  unfold stands_for. destruct g as [|m1 [|m2 g]]; [done|by intros [= ->]|]. unfold coalesce.
  destruct (last (m1 :: m2 :: g)) as [l|]; [|done]. cbn [mbind option_bind]. intros [= <-].
  rewrite attachments_of_flat. cbn [fmap list_fmap mjoin list_join pm_attachments]. rewrite app_nil_r, attachments_of_flat.
  apply (push_all_again [] []).
Qed.

Lemma attachments_of_app l1 l2 :
  attachments_of (l1 ++ l2) = foldl push_unseen (attachments_of l1) (attachments_of l2).
Proof.
  rewrite !attachments_of_flat, fmap_app, mjoin_app, foldl_app. by rewrite push_all_again.
Qed.

(** Messages that stand for groups come to what all the messages of the groups come to: folding a
    batch that was folded before, after it could not be delivered, loses and repeats nothing. *)
Lemma coalesce_groups gs ms :
  Forall2 stands_for gs ms -> ms <> [] -> coalesce (mjoin gs) = coalesce ms.
Proof.
  intros F N. destruct ms as [|m1 [|m2 ms]]; [done| |].
  - inversion F as [|g ? ? ? S F']; subst. inversion F'; subst. cbn. rewrite app_nil_r. exact S.
  - assert (T : body (mjoin gs) = body (m1 :: m2 :: ms)).
    { clear N. induction F as [|g m gs ms' S F IH]; [done|]. rewrite !mjoin_cons.
      change (m :: ms') with ([m] ++ ms'). by rewrite !body_app, IH, body_one, (stands_for_text g m S). }
    assert (A : attachments_of (mjoin gs) = attachments_of (m1 :: m2 :: ms)).
    { clear N T. induction F as [|g m gs ms' S F IH]; [done|]. rewrite !mjoin_cons.
      change (m :: ms') with ([m] ++ ms'). by rewrite !attachments_of_app, IH, (stands_for_attachments g m S). }
    assert (L : exists a b, last (mjoin gs) = Some a /\ last (m1 :: m2 :: ms) = Some b /\ pm_turn_id a = pm_turn_id b).
    { clear T A. revert N. induction F as [|g m gs ms' S F IH]; intros N; [done|]. rewrite !mjoin_cons.
      destruct ms' as [|m' ms'].
      - inversion F; subst. cbn. rewrite app_nil_r. apply stands_for_last in S as (l & E & I). exists l, m. by rewrite I.
      - destruct IH as (a & b & E1 & E2 & E3); [done|]. exists a, b. split_and!; [|done|done].
        rewrite last_app, E1. done. }
    destruct L as (a & b & E1 & E2 & E3).
    assert (Two : exists x y l, mjoin gs = x :: y :: l).
    { inversion F as [|g1 ? gs1 ? S1 F1]; subst. inversion F1 as [|g2 ? gs2 ? S2 F2]; subst.
      destruct g1 as [|x g1]; [done|]. destruct g2 as [|y g2]; [done|]. cbn. destruct g1; cbn; eauto. }
    destruct Two as (x & y & l & Ex). rewrite Ex in *. unfold coalesce at 1 2. rewrite E1, E2. cbn [mbind option_bind].
    unfold body in T. by rewrite T, A, E3.
Qed.
