(* ===== verification/Messaging.v ===== *)
(** * Messages sent to an agent

    [src/crates/fletch-core/src/supervisor/messaging.rs], for one agent: routing a message, turns
    started from messages, the queue flushed at turn boundaries; with the locks and marks it works
    under ([supervisor/disposition.rs], [supervisor/mod.rs]), the resend of a turn whose login was
    rejected ([supervisor/login_refresh.rs]), the respawn of [supervisor/lifecycle.rs] and the session
    switch of [supervisor/session_switch.rs], as far as they touch messages. Each function is a
    program of [Prog]: what it does under one lock is one action, and what processes, git and the
    network decide is an answer. *)

From stdpp Require Import gmap.
From S2P Require Import Prelude RustStr Git Sql Prog MessageQueue.

Local Open Scope string_scope.
Local Open Scope list_scope.

(** What the outside sees, in order: a message announced to the clients ([emit_turn_sent]), one given
    to the agent's process as a turn or into a running one, one put back to be sent again, queued ones
    dropped, the agent's runtime taken down, a resting session revived. *)
Inductive How := AsTurn | IntoTurn.
Inductive Event :=
| Sent (m : PendingMsg)
| Handed (how : How) (m : PendingMsg)
| Resent (m : PendingMsg)
| Dropped (ms : list PendingMsg)
| TornDown
| Revived.

(** The runtime of the agent: its live status ([statuses]), whether it has a process ([agents]) and
    that process waits on a tool prompt, and the marks [respawn_pending], [interrupted],
    [deleting_projects] (its project's); of [Logins], the last turn and the retry. *)
Record Runtime := {
  rt_status : option AgentStatus;
  rt_live : bool;
  rt_gated : bool;
  rt_respawn_pending : bool;
  rt_interrupted : bool;
  rt_deleting : bool;
  rt_last_turn : option PendingMsg;
  rt_retrying : bool;
}.

(** [Disposal] and [delivery_locks]: the agent's lock is made when it is first asked for, and
    whoever asked for it keeps it after its entry is removed. *)
Record DeliveryGate := {
  gt_reserved : bool;
  gt_routing : nat;
  gt_lock : option nat;
  gt_made : nat;
  gt_held : list nat;
}.

Record Sup := {
  su_queue : MessageQueue;
  su_run : Runtime;
  su_gate : DeliveryGate;
  su_conn : Conn MsgDb;
  su_trace : list Event;
}.

Definition set_queue (f : MessageQueue -> MessageQueue) (s : Sup) : Sup :=
  {| su_queue := f (su_queue s); su_run := su_run s; su_gate := su_gate s; su_conn := su_conn s; su_trace := su_trace s |}.
Definition set_run (f : Runtime -> Runtime) (s : Sup) : Sup :=
  {| su_queue := su_queue s; su_run := f (su_run s); su_gate := su_gate s; su_conn := su_conn s; su_trace := su_trace s |}.
Definition set_gate (f : DeliveryGate -> DeliveryGate) (s : Sup) : Sup :=
  {| su_queue := su_queue s; su_run := su_run s; su_gate := f (su_gate s); su_conn := su_conn s; su_trace := su_trace s |}.
Definition set_conn (c : Conn MsgDb) (s : Sup) : Sup :=
  {| su_queue := su_queue s; su_run := su_run s; su_gate := su_gate s; su_conn := c; su_trace := su_trace s |}.
Definition announce (e : Event) (s : Sup) : Sup :=
  {| su_queue := su_queue s; su_run := su_run s; su_gate := su_gate s; su_conn := su_conn s; su_trace := su_trace s ++ [e] |}.

Definition with_status (st : option AgentStatus) (r : Runtime) : Runtime :=
  {| rt_status := st; rt_live := rt_live r; rt_gated := rt_gated r; rt_respawn_pending := rt_respawn_pending r;
     rt_interrupted := rt_interrupted r; rt_deleting := rt_deleting r; rt_last_turn := rt_last_turn r;
     rt_retrying := rt_retrying r |}.
Definition with_live (b : bool) (r : Runtime) : Runtime :=
  {| rt_status := rt_status r; rt_live := b; rt_gated := rt_gated r; rt_respawn_pending := rt_respawn_pending r;
     rt_interrupted := rt_interrupted r; rt_deleting := rt_deleting r; rt_last_turn := rt_last_turn r;
     rt_retrying := rt_retrying r |}.
Definition with_respawn (b : bool) (r : Runtime) : Runtime :=
  {| rt_status := rt_status r; rt_live := rt_live r; rt_gated := rt_gated r; rt_respawn_pending := b;
     rt_interrupted := rt_interrupted r; rt_deleting := rt_deleting r; rt_last_turn := rt_last_turn r;
     rt_retrying := rt_retrying r |}.
Definition with_interrupted (b : bool) (r : Runtime) : Runtime :=
  {| rt_status := rt_status r; rt_live := rt_live r; rt_gated := rt_gated r; rt_respawn_pending := rt_respawn_pending r;
     rt_interrupted := b; rt_deleting := rt_deleting r; rt_last_turn := rt_last_turn r;
     rt_retrying := rt_retrying r |}.
Definition with_login (last : option PendingMsg) (retrying : bool) (r : Runtime) : Runtime :=
  {| rt_status := rt_status r; rt_live := rt_live r; rt_gated := rt_gated r; rt_respawn_pending := rt_respawn_pending r;
     rt_interrupted := rt_interrupted r; rt_deleting := rt_deleting r; rt_last_turn := last; rt_retrying := retrying |}.

Definition Steps (A : Type) : Type := prog Sup A.

(** A database call under its lock; its [Result]. *)
Definition db {A} (m : M MsgDb A) : Steps (result A string) :=
  atomic (fun s => let '(r, c) := m (su_conn s) in (r, set_conn c s)).

(** [?] after a program. *)
Definition try_ {A B} (p : Steps (result A string)) (k : A -> Steps (result B string)) : Steps (result B string) :=
  do r <- p; match r with Ok a => k a | Err e => Ret (Err e) end.

Definition busy_status (st : option AgentStatus) : bool :=
  match st with Some Spawning => true | Some Running => true | _ => false end.

Definition is_busy : Steps bool := look (fun s => busy_status (rt_status (su_run s))).

(** ** Locks and routes *)

(** [lock_delivery]: the entry, made if there is none, then the lock. *)
Definition lock_delivery : Steps nat :=
  do g <- atomic (fun s =>
    let gate := su_gate s in
    match gt_lock gate with
    | Some g => (g, s)
    | None =>
        (gt_made gate,
         set_gate (fun gate => {| gt_reserved := gt_reserved gate; gt_routing := gt_routing gate;
           gt_lock := Some (gt_made gate); gt_made := S (gt_made gate); gt_held := gt_held gate |}) s)
    end);
  Act (fun s =>
    if lcontains (gt_held (su_gate s)) g then None
    else Some (g, set_gate (fun gate => {| gt_reserved := gt_reserved gate; gt_routing := gt_routing gate;
           gt_lock := gt_lock gate; gt_made := gt_made gate; gt_held := g :: gt_held gate |}) s)) Ret.

Definition unlock (g : nat) : Steps () :=
  change (set_gate (fun gate => {| gt_reserved := gt_reserved gate; gt_routing := gt_routing gate;
    gt_lock := gt_lock gate; gt_made := gt_made gate; gt_held := lfilter (fun h => negb (Nat.eqb h g)) (gt_held gate) |})).

Definition set_routing (f : nat -> nat) : Sup -> Sup :=
  set_gate (fun gate => {| gt_reserved := gt_reserved gate; gt_routing := f (gt_routing gate); gt_lock := gt_lock gate;
    gt_made := gt_made gate; gt_held := gt_held gate |}).

Definition open_route : Steps (result () string) :=
  atomic (fun s => if gt_reserved (su_gate s) then (Err "agent is being archived", s)
                   else (Ok (), set_routing S s)).

(** Guards: what holds them gives them back however it ends. *)
Definition with_delivery {A} (p : Steps A) : Steps A :=
  do g <- lock_delivery; do a <- p; do _ <- unlock g; Ret a.

Definition with_route {A} (p : Steps (result A string)) : Steps (result A string) :=
  try_ open_route (fun _ => do a <- p; do _ <- change (set_routing Nat.pred); Ret a).

Section agent.
Context `{World0 : World} `{Json0 : PathsJson}.
Context (agent_id : string).

(** ** Starting a turn *)

Definition on_first_user_message (text : string) : Steps () :=
  let trimmed := trim text in
  if is_empty trimmed then Ret ()
  else if starts_with "/" trimmed then Ret ()
  else do _ <- db (set_agent_task_if_empty agent_id trimmed); Ret ().

(** [transition_active] to Running. *)
Definition to_running : Steps () :=
  change (set_run (fun r =>
    match default Spawning (rt_status r) with
    | Spawning | Idle => with_status (Some Running) r
    | _ => r
    end)).

Definition mark_user_turn_started (turn_id : option string) : Steps () :=
  do _ <- change (set_run (with_interrupted false));
  do started_at <- atomic (fun s => match now_millis (su_conn s) with
    | (Ok now, c) => (now, set_conn c s) | (Err _, c) => (0%Z, set_conn c s) end);
  do _ <- match turn_id with
          | Some turn_id => do _ <- db (mark_turn_row_started turn_id started_at); Ret ()
          | None => Ret ()
          end;
  to_running.

(** [live_agent] and the write to its process: [None] when it took the message. *)
Definition hand_over (how : How) (msg : PendingMsg) : Steps (result () string) :=
  do live <- look (fun s => rt_live (su_run s));
  if live : bool then
    do refused <- ask (option string);
    match refused with
    | Some e => Ret (Err e)
    | None => do _ <- change (announce (Handed how msg)); Ret (Ok ())
    end
  else Ret (Err ("agent not found: " +:+ agent_id)).

(** A row read with the workspace's: it may fail. *)
Definition read_record : Steps (result () string) := ask (result () string).

Definition deliver_user_message (msg : PendingMsg) : Steps (result () string) :=
  do _ <- db (insert_user_turn agent_id msg);
  try_ read_record (fun _ => hand_over AsTurn msg).

Definition revert_turn_start (turn_id : string) (resting : option AgentStatus) : Steps () :=
  do _ <- db (unmark_user_turn_started turn_id);
  change (set_run (fun r =>
    match rt_status r with
    | Some Running => with_status resting r
    | _ => r
    end)).

Definition remember_turn (msg : PendingMsg) : Steps () :=
  change (set_run (fun r => with_login (Some msg) (rt_retrying r) r)).

Definition deliver_as_turn (msg : PendingMsg) : Steps (result () string) :=
  try_ read_record (fun _ =>
  do deleting <- look (fun s => rt_deleting (su_run s));
  if deleting : bool then Ret (Err "project deletion is in progress")
  else
    do busy <- is_busy;
    if busy : bool then Ret (Err "a turn is already in progress")
    else
      do _ <- db (insert_user_turn agent_id msg);
      do resting <- look (fun s => rt_status (su_run s));
      do _ <- mark_user_turn_started (Some (pm_turn_id msg));
      do sent <- deliver_user_message msg;
      match sent with
      | Err e => do _ <- revert_turn_start (pm_turn_id msg) resting; Ret (Err e)
      | Ok _ =>
          do _ <- remember_turn msg;
          do _ <- on_first_user_message (pm_text msg);
          Ret (Ok ())
      end).

(** ** The queue *)

(** Under the queue's lock: the row, then the entry. *)
Definition persist_and_enqueue (msg : PendingMsg) : Steps () :=
  change (fun s =>
    let c := (enqueue_pending_message agent_id msg (su_conn s)).2 in
    set_queue (enqueue agent_id msg) (set_conn c s)).

Definition supersede_member_turns (coalesced : PendingMsg) (members : list string) (c : Conn MsgDb) : Conn MsgDb :=
  let c := (delete_pending_user_turns members c).2 in
  (insert_user_turn agent_id coalesced c).2.

(** Under the queue's lock: everything queued, as one message. *)
Definition take_queued : Steps (option PendingMsg) :=
  atomic (fun s =>
    let members := turn_ids (su_queue s) agent_id in
    match drain_coalesced agent_id (su_queue s) with
    | (None, _) => (None, s)
    | (Some coalesced, q) =>
        let c := match members with
                 | _ :: _ :: _ => supersede_member_turns coalesced members (su_conn s)
                 | _ => su_conn s
                 end in
        (Some coalesced, set_queue (fun _ => q) (set_conn c s))
    end).

(** Under the queue's lock: the rows of what is still queued are kept. *)
Definition clear_delivered : Steps () :=
  change (fun s =>
    let c := (delete_pending_messages_except agent_id (turn_ids (su_queue s) agent_id) (su_conn s)).2 in
    set_conn c s).

Definition flush_queued : Steps (result bool string) :=
  with_route
    (do taken <- take_queued;
     match taken with
     | None => Ret (Ok false)
     | Some coalesced =>
         do delivered <- deliver_as_turn coalesced;
         match delivered with
         | Err _ =>
             do _ <- change (set_queue (requeue_front agent_id coalesced));
             Ret (Ok true)
         | Ok _ =>
             do _ <- clear_delivered;
             Ret (Ok false)
         end
     end).

(** ** Sending *)

Definition persist_and_send (msg : PendingMsg) (send : Steps (result () string)) : Steps (result () string) :=
  do inserted <- db (insert_user_turn agent_id msg);
  let inserted := match inserted with Ok b => b | Err _ => false end in
  do sent <- send;
  match sent with
  | Ok _ => Ret (Ok ())
  | Err e =>
      do _ <- if inserted : bool then do _ <- db (delete_pending_user_turns [pm_turn_id msg]); Ret () else Ret ();
      Ret (Err e)
  end.

Definition inject_live (msg : PendingMsg) : Steps (result () string) :=
  persist_and_send msg (hand_over IntoTurn msg).

(** The record of the agent, as far as a send reads it: whether it is archived, how its provider
    takes follow-ups, whether some attachments name a granted folder. *)
Record SendRecord := { sr_archived : bool; sr_mode : InjectionMode; sr_names_granted_folder : list string -> bool }.

Definition needs_revive : Steps bool :=
  do status <- look (fun s => rt_status (su_run s));
  match status with
  | Some Spawning => Ret false
  | _ =>
      do live <- look (fun s => rt_live (su_run s));
      if live : bool then Ret false
      else
        do record <- read_record;
        match record with
        | Ok _ => look (fun s => negb (rt_deleting (su_run s)))
        | Err _ => Ret false
        end
  end.

Definition send_user_message (turn_id text : string) (attachments : list string) : Steps (result bool string) :=
  try_ (ask (result SendRecord string)) (fun record =>
  if sr_archived record then Ret (Err "agent is archived")
  else
    with_delivery (with_route (
      (* [relaunch_if_login_due] acts on the process only, [adopt] moves files. *)
      try_ (ask (result (list string) string)) (fun attachments =>
      do busy <- is_busy;
      do pending <- look (fun s => rt_respawn_pending (su_run s));
      let waits_for_relaunch := pending && sr_names_granted_folder record attachments in
      do gated <- look (fun s => rt_live (su_run s) && rt_gated (su_run s));
      let live_closed := waits_for_relaunch || gated in
      do queue_nonempty <- look (fun s => negb (queue_is_empty (su_queue s) agent_id));
      let msg := {| pm_turn_id := turn_id; pm_text := text; pm_attachments := attachments |} in
      do _ <- change (announce (Sent msg));
      do _ <- on_first_user_message text;
      try_ (match decide_delivery busy (sr_mode record) live_closed queue_nonempty with
            | DeliverNow =>
                do delivered <- deliver_as_turn msg;
                match delivered with
                | Ok _ => Ret (Ok false)
                | Err _ => do _ <- persist_and_enqueue msg; flush_queued
                end
            | FlushNow => do _ <- persist_and_enqueue msg; flush_queued
            | WriteLive =>
                do injected <- inject_live msg;
                match injected with
                | Ok _ => Ret (Ok false)
                | Err _ => do _ <- persist_and_enqueue msg; flush_queued
                end
            | Enqueue =>
                do _ <- persist_and_enqueue msg;
                do busy <- is_busy;
                if busy : bool then Ret (Ok true) else flush_queued
            end) (fun queued =>
      do revive <- if queued : bool then needs_revive else Ret false;
      do _ <- if revive : bool then change (announce Revived) else Ret ();
      Ret (Ok queued)))))).

(** ** Turns typed into the native view *)

Fixpoint submitted_turns (submitted : list string) : Steps (result () string) :=
  match submitted with
  | [] => Ret (Ok ())
  | text :: submitted =>
      do _ <- mark_user_turn_started None;
      do _ <- on_first_user_message text;
      submitted_turns submitted
  end.

(** [submitted]: the lines the bytes complete ([native_inputs]). *)
Definition write_to_agent (submitted : list string) : Steps (result () string) :=
  try_ read_record (fun _ =>
  do deleting <- look (fun s => rt_deleting (su_run s));
  if deleting : bool then Ret (Err "project deletion is in progress")
  else
    with_route (
      do live <- look (fun s => rt_live (su_run s));
      if live : bool then try_ (ask (result () string)) (fun _ => submitted_turns submitted)
      else Ret (Err ("agent not found: " +:+ agent_id)))).

(** ** Who flushes the queue *)

(** [drain_message_queue]: whether a flush is spawned. *)
Definition drain_message_queue : Steps bool :=
  do pending <- look (fun s => rt_respawn_pending (su_run s));
  if pending : bool then Ret false
  else
    do stopped <- atomic (fun s => (rt_interrupted (su_run s), set_run (with_interrupted false) s));
    if stopped : bool then Ret false
    else look (fun s => negb (queue_is_empty (su_queue s) agent_id)).

Definition flush_task : Steps () := do _ <- with_delivery flush_queued; Ret ().

(** A turn's end, and a spawn's. *)
Definition turn_end_task : Steps () :=
  do spawned <- drain_message_queue; if spawned : bool then flush_task else Ret ().

(** [revive_and_flush], from the resume on. *)
Definition revive_task : Steps () :=
  do resumed <- ask (result () string);
  match resumed with Ok _ => flush_task | Err _ => Ret () end.

Inductive Taken := TakenAgent | TakenBusy | TakenGone.

(** Under the lock of [agents]. *)
Definition take_idle (record_status : AgentStatus) : Steps Taken :=
  atomic (fun s =>
    if negb (rt_live (su_run s)) then (TakenGone, s)
    else if busy_status (Some (default record_status (rt_status (su_run s)))) then (TakenBusy, s)
    else (TakenAgent, set_run (with_live false) s)).

(** [restart_taken]; whether the process came up is [start_process]'s to say. *)
Definition restart_taken : Steps (result () string) :=
  do _ <- change (set_run (with_status (Some Spawning)));
  do started <- ask (result () string);
  match started with
  | Err e => do _ <- change (set_run (with_status (Some StatusError))); Ret (Err e)
  | Ok _ => Ret (Ok ())
  end.

Definition respawn_agent_preserving_session : Steps (result () string) :=
  do record <- ask (result AgentStatus string);
  match record with
  | Err _ => do _ <- change (set_run (with_respawn false)); Ret (Ok ())
  | Ok record_status =>
      do deleting <- look (fun s => rt_deleting (su_run s));
      if deleting : bool then do _ <- change (set_run (with_respawn false)); Ret (Ok ())
      else
        do taken <- take_idle record_status;
        match taken with
        | TakenBusy => do _ <- change (set_run (with_respawn true)); Ret (Ok ())
        | TakenGone => do _ <- change (set_run (with_respawn false)); Ret (Ok ())
        | TakenAgent =>
            do _ <- change (set_run (with_respawn false));
            try_ restart_taken (fun _ =>
            do stopped <- atomic (fun s => (rt_interrupted (su_run s), set_run (with_interrupted false) s));
            do _ <- if stopped : bool then Ret () else flush_task;
            Ret (Ok ()))
        end
  end.

(** ** Sessions, archives *)

(** [Supervisor::start_session]: an idle process is taken down, the old transcript is read to its end
    ([finish_ingest]), and rows and queue go under one hold of the queue's lock. *)
Definition start_new_session : Steps (result string string) :=
  try_ (ask (result bool string)) (fun archived =>
  if archived : bool then Ret (Err "agent is archived")
  else
    try_ (atomic (fun s =>
      if busy_status (rt_status (su_run s)) then (Err "stop the agent before starting a new session", s)
      else (Ok (), set_run (with_live false) s))) (fun _ =>
    try_ (ask (result () string)) (fun _ =>
    do session <- atomic (fun s =>
      match start_session agent_id (su_conn s) with
      | (Ok id, c) =>
          (Ok id, announce (Dropped (queued (su_queue s) agent_id)) (set_queue (clear_queue agent_id) (set_conn c s)))
      | (Err e, c) => (Err e, set_conn c s)
      end);
    match session with
    | Err e => Ret (Err e)
    | Ok id =>
        do _ <- change (set_run (with_interrupted false));
        do _ <- change (set_run (with_respawn false));
        do _ <- change (set_run (with_status None));
        Ret (Ok id)
    end))).

(** A rewind holds the lock and a route around it. *)
Definition switch_session : Steps (result string string) := with_delivery (with_route start_new_session).

Inductive ArchiveTrigger := ByUser | Sweep.

Definition set_reserved (b : bool) : Sup -> Sup :=
  set_gate (fun gate => {| gt_reserved := b; gt_routing := gt_routing gate; gt_lock := gt_lock gate;
    gt_made := gt_made gate; gt_held := gt_held gate |}).

Definition reserve_disposal (record_status : AgentStatus) (trigger : ArchiveTrigger) : Steps (result () string) :=
  atomic (fun s =>
    if gt_reserved (su_gate s) then (Err "archive is already in progress", s)
    else if negb (Nat.eqb (gt_routing (su_gate s)) 0) then (Err "agent is receiving a message; try again", s)
    else if busy_status (Some (default record_status (rt_status (su_run s)))) then
      (Err "agent must be idle, stopped, or in error before archiving", s)
    else if match trigger with Sweep => negb (queue_is_empty (su_queue s) agent_id) | ByUser => false end then
      (Err "agent has queued messages", s)
    else (Ok (), set_reserved true s)).

(** [detach_runtime], as far as messages go. *)
Definition detach_runtime : Steps () :=
  do _ <- change (fun s => announce TornDown (set_run (with_live false) s));
  do _ <- change (set_run (with_status None));
  do _ <- change (set_gate (fun gate => {| gt_reserved := gt_reserved gate; gt_routing := gt_routing gate;
            gt_lock := None; gt_made := gt_made gate; gt_held := gt_held gate |}));
  do _ <- change (set_run (with_login None false));
  do _ <- change (fun s =>
    let c := (mark_user_turns_abandoned (turn_ids (su_queue s) agent_id) (su_conn s)).2 in
    let c := (clear_pending_messages agent_id c).2 in
    announce (Dropped (queued (su_queue s) agent_id)) (set_queue (clear_queue agent_id) (set_conn c s)));
  change (set_run (with_interrupted false)).

(** [archive_agent_as]; [begin_archive] writes a row of [workspaces]. *)
Definition archive_agent (trigger : ArchiveTrigger) : Steps (result () string) :=
  try_ (ask (result AgentStatus string)) (fun record_status =>
  try_ (reserve_disposal record_status trigger) (fun _ =>
  do begun <- ask (result () string);
  match begun with
  | Err e => do _ <- change (set_reserved false); Ret (Err e)
  | Ok _ =>
      do _ <- detach_runtime;
      (* Snapshots, the checkouts' teardown, the record. *)
      do _ <- ask ();
      do _ <- change (set_reserved false);
      Ret (Ok ())
  end)).

(** The task of a discard, up to where the agent's rows are deleted. *)
Definition discard_task : Steps () := detach_runtime.

(** ** Events of the process, and a start of the app *)

(** What an event of the process says of its login: not a result, a result that was not rejected, a
    rejection, which without a host token is nobody's to renew. *)
Inductive LoginEvent := NotAResult | NotRejected | Rejected (has_token : bool).
Inductive LoginVerdict := Fine | GaveUp | Retrying.

(** The turn the retry resends, if one was remembered: back at the head of the queue, and the relaunch
    flagged that brings the new login. *)
Definition resend (retry : option PendingMsg) : Steps LoginVerdict :=
  do _ <- match retry with
          | Some msg => change (fun s => announce (Resent msg) (set_queue (requeue_front agent_id msg) s))
          | None => Ret ()
          end;
  do _ <- change (set_run (with_respawn true));
  Ret Retrying.

Definition set_retrying (b : bool) : Steps () :=
  change (set_run (fun r => with_login (rt_last_turn r) b r)).

(** [retrying.insert]: whether it was not there. *)
Definition start_retry : Steps bool :=
  atomic (fun s => (negb (rt_retrying (su_run s)), set_run (fun r => with_login (rt_last_turn r) true r) s)).

(** The answers: [known], the agent's provider has accounts and its record is there, read under their
    lock; [active], the record is stamped with the selected account; [moved], the fan-out restamped it
    while its process ran; [ready], the selected account exists, is signed in, and the record was
    restamped onto it. *)
Definition retry_on_active_account : Steps LoginVerdict :=
  do known <- ask bool;
  if negb known then Ret Fine
  else
    do active <- ask bool;
    if active : bool then
      do was_retry <- atomic (fun s => (rt_retrying (su_run s), set_run (fun r => with_login (rt_last_turn r) false r) s));
      do moved <- ask bool;
      if was_retry : bool then Ret Fine
      else if negb moved then Ret Fine
      else
        do retry <- atomic (fun s => (rt_last_turn (su_run s), set_run (fun r => with_login (rt_last_turn r) true r) s));
        resend retry
    else
      do first <- start_retry;
      if negb first then do _ <- set_retrying false; Ret Fine
      else
        do ready <- ask bool;
        if negb ready then do _ <- set_retrying false; Ret Fine
        else
          do retry <- look (fun s => rt_last_turn (su_run s));
          resend retry.

(** [observe_login]: [insert] of the budget, and its removal when it was spent, are one section. *)
Definition observe_login (event : LoginEvent) : Steps LoginVerdict :=
  match event with
  | NotAResult => Ret Fine
  | NotRejected => do _ <- set_retrying false; Ret Fine
  | Rejected false => Ret Fine
  | Rejected true =>
      do retry <- atomic (fun s =>
        let r := su_run s in
        if rt_retrying r then (None, set_run (with_login (rt_last_turn r) false) s)
        else (Some (rt_last_turn r), set_run (with_login (rt_last_turn r) true) s));
      match retry with
      | None => Ret GaveUp
      | Some retry => resend retry
      end
  end.

(** What an event says of the quota: nothing yet, that the turn ended on something else (on a login
    rejection, or not), that it ended on a limit. *)
Inductive LimitEvent := NotTheEnd | EndedOtherwise (auth_rejection : bool) | EndedOnLimit.

Definition observe_limit (event : LimitEvent) : Steps LoginVerdict :=
  match event with
  | NotTheEnd => Ret Fine
  | EndedOtherwise auth_rejection =>
      if auth_rejection then Ret Fine else do _ <- set_retrying false; Ret Fine
  | EndedOnLimit => retry_on_active_account
  end.

(** [rehydrate_pending_messages], at startup. *)
Definition rehydrate_pending_messages (c : Conn MsgDb) : MessageQueue * Conn MsgDb :=
  match read_all_pending_messages c with
  | (Ok pending, c) => (foldl (fun q p => enqueue p.1 p.2 q) ∅ pending, c)
  | (Err _, c) => (∅, c)
  end.

(** ** The system *)

(** What else runs under the lock and a route, and sends nothing: a rewind's checkpoints, an account
    switch, a move between sandboxes. *)
Definition held_task : Steps () :=
  do _ <- with_delivery (with_route (ask (result () string))); Ret ().

Inductive message_task : Steps () -> Prop :=
| task_send turn_id text attachments :
    message_task (do _ <- send_user_message turn_id text attachments; Ret ())
| task_turn_end : message_task turn_end_task
| task_revive : message_task revive_task
| task_respawn : message_task (do _ <- respawn_agent_preserving_session; Ret ())
| task_switch : message_task (do _ <- switch_session; Ret ())
| task_archive trigger : message_task (do _ <- archive_agent trigger; Ret ())
| task_discard : message_task discard_task
| task_login event : message_task (do _ <- observe_login event; Ret ())
| task_limit event : message_task (do _ <- observe_limit event; Ret ())
| task_native submitted : message_task (do _ <- write_to_agent submitted; Ret ())
| task_held : message_task held_task.

(** What else happens between two actions: the runtime changes in any way but what is remembered of
    the last turn (processes start, end and wait, turns end, the user stops or deletes), other agents'
    messages are queued, and rows are written that are not the agent's sessions nor its waiting
    messages. *)
Inductive message_env : Sup -> Sup -> Prop :=
| env_runtime r s : rt_last_turn r = rt_last_turn (su_run s) -> message_env s (set_run (fun _ => r) s)
| env_queue q s : q !! agent_id = su_queue s !! agent_id -> message_env s (set_queue (fun _ => q) s)
| env_tables s d n :
    current_session agent_id d = current_session agent_id (c_db (su_conn s)) ->
    (forall sid, current_session agent_id d = Some sid ->
      lfilter (in_session sid) (md_pending d) = lfilter (in_session sid) (md_pending (c_db (su_conn s)))) ->
    message_env s (set_conn {| c_db := d; c_tick := n |} s).

Definition message_step := pool_step message_task message_env.
End agent.
