(* ===== verification/MessagingGuard.v ===== *)
(** * What becomes of a message

    Over any interleaving of sends, turns typed in, turn ends, revives, respawns, session switches,
    archives, discards and events of the process: every message announced, and once more each turn put
    back by a login or a limit, is handed over, waits, was dropped or is with a running task, once
    ([messages_are_accounted]); the turns come in the order they were sent, and so do, among themselves,
    the messages written into a running turn ([turns_come_in_order]); and while statements succeed the
    table mirrors the queue ([mirror_kept]). The last two hold until the agent is torn down, moved to a
    new session, or a turn is sent again. The proof gives each task
    what it holds of the lock and of the messages ([Holding]), and each action what it does to that. *)

From stdpp Require Import gmap.
From S2P Require Import Prelude RustStr Git Sql Prog MessageQueue Messaging.

Local Open Scope string_scope.
Local Open Scope list_scope.

(** ** The trace *)

Definition owed (tr : list Event) : list PendingMsg :=
  omap (fun e => match e with Sent m | Resent m => Some m | _ => None end) tr.
Definition sent (tr : list Event) : list PendingMsg :=
  omap (fun e => match e with Sent m => Some m | _ => None end) tr.
Definition handed (tr : list Event) : list (How * PendingMsg) :=
  omap (fun e => match e with Handed how m => Some (how, m) | _ => None end) tr.
Definition dropped (tr : list Event) : list PendingMsg :=
  mjoin ((fun e => match e with Dropped ms => ms | _ => [] end) <$> tr).

(** Nothing was torn down, moved to a new session or sent again. *)
Definition undisturbed (tr : list Event) : bool :=
  forallb (fun e => match e with Resent _ | TornDown | Dropped _ => false | _ => true end) tr.

Lemma owed_snoc tr e : owed (tr ++ [e]) = owed tr ++ owed [e].
Proof. apply omap_app. Qed.
Lemma sent_snoc tr e : sent (tr ++ [e]) = sent tr ++ sent [e].
Proof. apply omap_app. Qed.
Lemma handed_snoc tr e : handed (tr ++ [e]) = handed tr ++ handed [e].
Proof. apply omap_app. Qed.
Lemma dropped_snoc tr e : dropped (tr ++ [e]) = dropped tr ++ dropped [e].
Proof. unfold dropped. by rewrite fmap_app, mjoin_app. Qed.
Lemma undisturbed_snoc tr e : undisturbed (tr ++ [e]) = undisturbed tr && undisturbed [e].
Proof. apply forallb_app. Qed.

(** ** What a task holds *)

Inductive LockState := NoLock | Asked (g : nat) | Holds (g : nat).

(** Its hold of the delivery lock; the messages it took off the queue, the one it was sent, those it
    handed over with their rows still there; whether it knows the queue to be empty; whether it tore
    the agent down. *)
Record Holding := {
  ho_lock : LockState;
  ho_flush : list PendingMsg;
  ho_send : list PendingMsg;
  ho_done : list PendingMsg;
  ho_quiet : bool;
  ho_torn : bool;
}.

Definition idle : Holding :=
  {| ho_lock := NoLock; ho_flush := []; ho_send := []; ho_done := []; ho_quiet := false; ho_torn := false |}.
Definition asked (g : nat) : Holding :=
  {| ho_lock := Asked g; ho_flush := []; ho_send := []; ho_done := []; ho_quiet := false; ho_torn := false |}.
Definition torn : Holding :=
  {| ho_lock := NoLock; ho_flush := []; ho_send := []; ho_done := []; ho_quiet := false; ho_torn := true |}.
Definition holding (g : nat) (quiet : bool) : Holding :=
  {| ho_lock := Holds g; ho_flush := []; ho_send := []; ho_done := []; ho_quiet := quiet; ho_torn := false |}.
Definition sending (g : nat) (quiet : bool) (m : PendingMsg) : Holding :=
  {| ho_lock := Holds g; ho_flush := []; ho_send := [m]; ho_done := []; ho_quiet := quiet; ho_torn := false |}.
Definition flushing (g : nat) (ms : list PendingMsg) : Holding :=
  {| ho_lock := Holds g; ho_flush := ms; ho_send := []; ho_done := []; ho_quiet := true; ho_torn := false |}.
Definition clearing (g : nat) (ms : list PendingMsg) : Holding :=
  {| ho_lock := Holds g; ho_flush := []; ho_send := []; ho_done := ms; ho_quiet := true; ho_torn := false |}.

Definition lock_held (h : Holding) : option nat := match ho_lock h with Holds g => Some g | _ => None end.

Definition all_of (f : Holding -> list PendingMsg) (hs : list Holding) : list PendingMsg := mjoin (f <$> hs).

Lemma all_of_cons f h hs : all_of f (h :: hs) = f h ++ all_of f hs.
Proof. done. Qed.

Lemma all_of_perm f hs hs' : hs ≡ₚ hs' -> all_of f hs ≡ₚ all_of f hs'.
Proof.
  unfold all_of. induction 1 as [|h hs hs' _ IH|h h' hs|hs hs' hs'' _ IH _ IH']; [done| | |by etrans];
    cbn [fmap list_fmap]; rewrite !mjoin_cons; [by rewrite IH|]. by rewrite !app_assoc, (Permutation_app_comm (f h)).
Qed.

(** A task without the lock holds no messages. *)
Definition proper (h : Holding) : Prop :=
  lock_held h = None -> ho_flush h = [] /\ ho_send h = [] /\ ho_done h = [] /\ ho_quiet h = false.

Lemma all_of_none (f : Holding -> list PendingMsg) hs :
  (forall h, lock_held h = None -> proper h -> f h = []) ->
  Forall proper hs -> omap lock_held hs = [] -> all_of f hs = [].
Proof.
  intros N F E. induction F as [|h hs Pr F IH]; [done|]. rewrite all_of_cons. cbn [omap list_omap] in E.
  destruct (lock_held h) eqn:L; [done|]. by rewrite N, IH.
Qed.

Lemma no_flush h : lock_held h = None -> proper h -> ho_flush h = [].
Proof. intros L Pr. by destruct (Pr L). Qed.
Lemma no_send h : lock_held h = None -> proper h -> ho_send h = [].
Proof. intros L Pr. by destruct (Pr L) as (_ & ? & _). Qed.
Lemma no_done h : lock_held h = None -> proper h -> ho_done h = [].
Proof. intros L Pr. by destruct (Pr L) as (_ & _ & ? & _). Qed.

(** ** The invariant *)

Section guard.
Context `{World0 : World} `{Json0 : PathsJson}.
Context (agent_id sid : string).

Definition waiting (s : Sup) : list PendingMsg := queued (su_queue s) agent_id.

(** The messages handed over as turns, each for the messages it stands for. *)
Definition turns (gh : list (How * list PendingMsg)) : list PendingMsg :=
  mjoin (snd <$> lfilter (fun g => match g.1 with AsTurn => true | IntoTurn => false end) gh).

(** Those written into a running turn. *)
Definition injected (gh : list (How * list PendingMsg)) : list PendingMsg :=
  mjoin (snd <$> lfilter (fun g => match g.1 with IntoTurn => true | AsTurn => false end) gh).

(** Every message owed is in a group handed over, in one that waits, in one dropped, or in [ms], what
    the tasks hold. *)
Record accounts (s : Sup) (gh : list (How * list PendingMsg)) (gq gd : list (list PendingMsg)) (ms : list PendingMsg) : Prop := {
  ac_handed : Forall2 (fun g e => g.1 = e.1 /\ stands_for g.2 e.2) gh (handed (su_trace s));
  ac_queue : Forall2 stands_for gq (waiting s);
  ac_dropped : Forall2 stands_for gd (dropped (su_trace s));
  ac_owed : owed (su_trace s) ≡ₚ mjoin (snd <$> gh) ++ mjoin gq ++ mjoin gd ++ ms;
}.

Record locks_ok (s : Sup) (hs : list Holding) : Prop := {
  lk_held : gt_held (su_gate s) ≡ₚ omap lock_held hs;
  lk_once : NoDup (gt_held (su_gate s));
  lk_made : Forall (fun h => match ho_lock h with NoLock => True | Asked g | Holds g => g < gt_made (su_gate s) end) hs;
  lk_proper : Forall proper hs;
  lk_torn : Forall (fun h => ho_torn h = true -> undisturbed (su_trace s) = false) hs;
  lk_entry : forall g, gt_lock (su_gate s) = Some g -> g < gt_made (su_gate s);
}.

Definition rows_of (d : MsgDb) : list PendingRow := lfilter (in_session sid) (md_pending d).

Definition mirrors (r : PendingRow) (m : PendingMsg) : Prop :=
  pq_turn_id r = pm_turn_id m /\ pq_text r = pm_text m /\ pq_attachments r = to_json (pm_attachments m).

Definition seqs_rise (d : MsgDb) : Prop := StronglySorted Z.lt (pq_seq <$> rows_of d).

(** What one holder of the lock knows of an undisturbed run, from the messages it took, was sent and
    handed over. *)
Record steady (s : Sup) (gh : list (How * list PendingMsg)) (gq : list (list PendingMsg))
    (flush send done : list PendingMsg) (quiet : bool) : Prop := {
  sd_lock : match gt_lock (su_gate s) with None => gt_made (su_gate s) = 0 | Some g => gt_made (su_gate s) = 1 /\ g = 0 end;
  sd_quiet : quiet = true -> waiting s = [];
  sd_order : turns gh ++ flush ++ mjoin gq ++ send `sublist_of` sent (su_trace s);
  sd_injected : injected gh ++ send `sublist_of` sent (su_trace s);
  sd_send : length send <= 1;
  sd_done : done = [] \/ last gh = Some (AsTurn, done);
  sd_mirror : (forall n, w_fault n = None) ->
    current_session agent_id (c_db (su_conn s)) = Some sid
    /\ Forall2 mirrors (rows_of (c_db (su_conn s))) (done ++ flush ++ mjoin gq)
    /\ seqs_rise (c_db (su_conn s));
}.

Definition Inv (s : Sup) (hs : list Holding) : Prop :=
  locks_ok s hs /\
  exists gh gq gd,
    accounts s gh gq gd (all_of ho_flush hs ++ all_of ho_send hs)
    /\ (undisturbed (su_trace s) = true ->
        steady s gh gq (all_of ho_flush hs) (all_of ho_send hs) (all_of ho_done hs) (existsb ho_quiet hs)).

Lemma accounts_perm s gh gq gd ms ms' : ms ≡ₚ ms' -> accounts s gh gq gd ms -> accounts s gh gq gd ms'.
Proof. intros E [H Q D O]. split; [done..|]. by rewrite O, E. Qed.

(** While nothing is disturbed there is one lock, so one holder. *)
Lemma one_holder s hs :
  locks_ok s hs -> match gt_lock (su_gate s) with None => gt_made (su_gate s) = 0 | Some g => gt_made (su_gate s) = 1 /\ g = 0 end ->
  length (omap lock_held hs) <= 1.
Proof.
  intros [E N M _ _ _] L. rewrite E in N.
  assert (Z : Forall (fun g => g = 0) (omap lock_held hs)).
  { apply Forall_forall. intros g (h & I & H)%list_elem_of_omap. apply Forall_forall with (x := h) in M; [|done].
    unfold lock_held in H. destruct (ho_lock h); [done..|]. injection H as ->.
    destruct (gt_lock (su_gate s)); lia. }
  destruct (omap lock_held hs) as [|a [|b l]]; cbn; [lia..|]. exfalso.
  inversion Z as [|? ? Za Z']; subst. inversion Z' as [|? ? Zb _]; subst.
  apply NoDup_cons in N as [N _]. apply N. left.
Qed.

Lemma steady_one_holder s hs gh gq f se d q :
  locks_ok s hs -> steady s gh gq f se d q -> length (omap lock_held hs) <= 1.
Proof. intros L S. eapply one_holder; [done|apply S]. Qed.

Lemma all_of_eq (f : Holding -> list PendingMsg) hs hs' :
  (forall h, lock_held h = None -> proper h -> f h = []) ->
  hs ≡ₚ hs' -> Forall proper hs -> length (omap lock_held hs) <= 1 -> all_of f hs = all_of f hs'.
Proof.
  intros N. induction 1 as [|h hs hs' _ IH|h h' hs|hs hs' hs'' E IH E' IH']; intros F L; [done| | |].
  - inversion F; subst. rewrite !all_of_cons. f_equal. apply IH; [done|].
    cbn [omap list_omap] in L. destruct (lock_held h); cbn in L; lia.
  - inversion F as [|? ? P1 F1]; subst. inversion F1 as [|? ? P2 F2]; subst. rewrite !all_of_cons.
    cbn [omap list_omap] in L. destruct (lock_held h) eqn:E1, (lock_held h') eqn:E2; cbn in L; try lia.
    + by rewrite (N h' E2 P1).
    + by rewrite (N h E1 P2).
    + by rewrite (N h E1 P2), (N h' E2 P1).
  - rewrite IH by done. apply IH'; [by rewrite <- E|by rewrite <- E].
Qed.

Lemma Inv_order s hs hs' : hs ≡ₚ hs' -> Inv s hs -> Inv s hs'.
Proof.
  intros E [L (gh & gq & gd & A & S)]. split.
  - destruct L as [H N M Pr T En]. split; try done; [by rewrite H, E|by rewrite <- E..].
  - exists gh, gq, gd. split.
    + eapply accounts_perm; [|exact A]. by rewrite (all_of_perm ho_flush _ _ E), (all_of_perm ho_send _ _ E).
    + intros U. specialize (S U). pose proof (steady_one_holder _ _ _ _ _ _ _ _ L S) as O.
      rewrite <- !(all_of_eq _ hs hs') by (done || apply lk_proper in L; done || apply no_flush || apply no_send || apply no_done).
      replace (existsb ho_quiet hs') with (existsb ho_quiet hs); [done|].
      apply eq_true_iff_eq. rewrite !existsb_exists. setoid_rewrite <- list_elem_of_In. by setoid_rewrite E.
Qed.

(** ** Actions *)

(** What the holder of the lock does, whatever the other tasks hold ([rest]). *)
Definition owner_ok {X} (s : Sup) (x : X) (s' : Sup) (h : Holding) (post : X -> Holding -> Prop) : Prop :=
  forall gh gq gd rest,
    accounts s gh gq gd (ho_flush h ++ ho_send h ++ rest) ->
    exists h' gh' gq' gd',
      lock_held h' = lock_held h /\ ho_torn h' = false
      /\ accounts s' gh' gq' gd' (ho_flush h' ++ ho_send h' ++ rest)
      /\ (undisturbed (su_trace s') = true ->
          steady s gh gq (ho_flush h) (ho_send h) (ho_done h) (ho_quiet h) ->
          steady s' gh' gq' (ho_flush h') (ho_send h') (ho_done h') (ho_quiet h'))
      /\ post x h'.

(** The locks stay as they are, and a run once disturbed stays so. *)
Definition same_locks (s s' : Sup) : Prop :=
  gt_lock (su_gate s') = gt_lock (su_gate s) /\ gt_made (su_gate s') = gt_made (su_gate s)
  /\ gt_held (su_gate s') = gt_held (su_gate s)
  /\ (undisturbed (su_trace s') = true -> undisturbed (su_trace s) = true).

Lemma others_quiet hs : omap lock_held hs = [] -> Forall proper hs -> existsb ho_quiet hs = false.
Proof.
  intros E F. induction F as [|h hs Pr F IH]; [done|]. cbn [omap list_omap] in E. cbn [existsb].
  destruct (lock_held h) eqn:L; [done|]. destruct (Pr L) as (_ & _ & _ & ->). by apply IH.
Qed.

Lemma only_holder s h hs gh gq f se d q :
  locks_ok s (h :: hs) -> steady s gh gq f se d q -> is_Some (lock_held h) -> omap lock_held hs = [].
Proof.
  intros L S [g H]. pose proof (steady_one_holder _ _ _ _ _ _ _ _ L S) as O. cbn [omap list_omap] in O. rewrite H in O.
  destruct (omap lock_held hs); cbn in O; [done|lia].
Qed.

Lemma locks_ok_step s s' h h' hs :
  same_locks s s' -> lock_held h' = lock_held h -> is_Some (lock_held h) -> ho_torn h' = false ->
  locks_ok s (h :: hs) -> locks_ok s' (h' :: hs).
Proof.
  intros (E1 & E2 & E3 & E4) H [g G] T [L N M Pr To En]. split.
  - rewrite E3, L. cbn [omap list_omap]. by rewrite H.
  - by rewrite E3.
  - rewrite E2. inversion M as [|? ? M1 M2]; subst. constructor; [|done].
    revert M1 G H. unfold lock_held. destruct (ho_lock h) as [| |g1], (ho_lock h') as [| |g2]; intros M1 G H; try congruence.
  - inversion Pr; subst. constructor; [|done]. intros N'. congruence.
  - inversion To as [|? ? T1 T2]; subst. constructor; [congruence|]. eapply Forall_impl; [exact T2|].
    intros k K Kt. specialize (K Kt). destruct (undisturbed (su_trace s')); [by rewrite E4 in K|done].
  - by rewrite E1, E2.
Qed.

Lemma safe_owner {X} (f : Sup -> X * Sup) post h :
  is_Some (lock_held h) ->
  (forall s, same_locks s (f s).2) ->
  (forall s, owner_ok s (f s).1 (f s).2 h post) ->
  safe Inv (atomic f) post h.
Proof.
  intros H Sl Ok. apply safe_atomic. intros s hs [L (gh & gq & gd & A & S)].
  destruct (Ok s gh gq gd (all_of ho_flush hs ++ all_of ho_send hs)) as (h' & gh' & gq' & gd' & Hl & T & A' & S' & Po).
  { eapply accounts_perm; [|exact A]. rewrite !all_of_cons, <- !app_assoc. apply Permutation_app_head.
    by rewrite Permutation_app_swap_app. }
  exists h'. split; [|exact Po]. split; [by apply (locks_ok_step s _ h)|]. exists gh', gq', gd'. split.
  - eapply accounts_perm; [|exact A']. rewrite !all_of_cons, <- !app_assoc. apply Permutation_app_head.
    by rewrite Permutation_app_swap_app.
  - intros U. destruct (Sl s) as (_ & _ & _ & U'). specialize (S (U' U)).
    pose proof (only_holder _ _ _ _ _ _ _ _ _ L S H) as O. apply lk_proper in L. inversion L as [|? ? _ F]; subst.
    revert S. rewrite !all_of_cons. cbn [existsb].
    rewrite (all_of_none ho_flush hs no_flush F O), (all_of_none ho_send hs no_send F O),
      (all_of_none ho_done hs no_done F O), (others_quiet hs O F).
    rewrite !app_nil_r, !orb_false_r. by apply S'.
Qed.

(** Actions that leave messages and locks as they are. *)
Record inert (s s' : Sup) : Prop := {
  in_queue : waiting s' = waiting s;
  in_locks : gt_lock (su_gate s') = gt_lock (su_gate s) /\ gt_made (su_gate s') = gt_made (su_gate s)
             /\ gt_held (su_gate s') = gt_held (su_gate s);
  in_trace : owed (su_trace s') = owed (su_trace s) /\ sent (su_trace s') = sent (su_trace s)
             /\ handed (su_trace s') = handed (su_trace s) /\ dropped (su_trace s') = dropped (su_trace s)
             /\ undisturbed (su_trace s') = undisturbed (su_trace s);
  in_session_kept : current_session agent_id (c_db (su_conn s')) = current_session agent_id (c_db (su_conn s));
  in_rows : current_session agent_id (c_db (su_conn s')) = Some sid ->
    rows_of (c_db (su_conn s')) = rows_of (c_db (su_conn s));
}.

Lemma inert_refl s : inert s s.
Proof. by split. Qed.

Lemma accounts_inert s s' gh gq gd ms : inert s s' -> accounts s gh gq gd ms -> accounts s' gh gq gd ms.
Proof.
  intros [Q _ (T1 & _ & T3 & T4 & _) _ _] [H W D O]. split; by rewrite ?T1, ?T3, ?T4, ?Q.
Qed.

Lemma steady_inert s s' gh gq f se d q : inert s s' -> steady s gh gq f se d q -> steady s' gh gq f se d q.
Proof.
  intros [Q (L1 & L2 & _) (_ & T2 & _) Se Pe] [L W O Oi Os Od M]. split.
  - by rewrite L1, L2.
  - by rewrite Q.
  - by rewrite T2.
  - by rewrite T2.
  - done.
  - done.
  - intros C. destruct (M C) as (M1 & M2 & M3). split_and!.
    + by rewrite Se.
    + by rewrite Pe by by rewrite Se.
    + unfold seqs_rise. by rewrite Pe by by rewrite Se.
Qed.

Lemma Inv_inert s s' hs : inert s s' -> Inv s hs -> Inv s' hs.
Proof.
  intros I [[L N M Pr T En] (gh & gq & gd & A & S)]. pose proof I as [_ (L1 & L2 & L3) (_ & _ & _ & _ & U) _ _]. split.
  - split; rewrite ?L1, ?L2, ?L3, ?U; done.
  - exists gh, gq, gd. split; [by apply (accounts_inert s)|]. rewrite U. intros U'. by apply (steady_inert s), S.
Qed.

Lemma safe_inert {X} (f : Sup -> X * Sup) post h :
  (forall s, inert s (f s).2) -> (forall s, post (f s).1 h) -> safe Inv (atomic f) post h.
Proof. intros I Po. apply safe_atomic. intros s hs Hi. exists h. split; [by apply (Inv_inert s)|done]. Qed.

Lemma safe_look {X} (f : Sup -> X) post h : (forall x, post x h) -> safe Inv (look f) post h.
Proof. intros Po. apply safe_inert; [by intros s; apply inert_refl|by intros s]. Qed.

Lemma safe_run f post h : post () h -> safe Inv (change (set_run f)) post h.
Proof. intros Po. apply safe_inert; [|done]. by intros s; split. Qed.

(** ** Statements that leave the mirror and the sessions alone *)

Definition spares (d d' : MsgDb) : Prop := md_pending d' = md_pending d /\ md_sessions d' = md_sessions d.

Definition sparing {A} (m : M MsgDb A) : Prop := forall d0, preserves (spares d0) m.

Lemma sparing_sets f : sparing (execute (set_turns f)).
Proof. intros d0. apply preserves_execute. by intros d. Qed.

Lemma sparing_reads {A} (m : M MsgDb A) : reads m -> sparing m.
Proof. intros R d0. by apply preserves_reads. Qed.

Lemma current_session_reads w : reads (current_session_id w).
Proof. unfold current_session_id. reading. Qed.

Lemma sparing_insert msg : sparing (insert_user_turn agent_id msg).
Proof.
  intros d0. unfold insert_user_turn. apply preserves_bind; [apply preserves_reads, current_session_reads|].
  intros [w|]; [|apply preserves_ret]. apply preserves_transaction, preserves_bind; [auto with fletch|]. intros seq.
  apply preserves_bind; [auto with fletch|]. intros now. apply preserves_sql. intros d a d' S.
  unfold insert_turn_row. destruct (existsb _ _); by intros [= <- <-].
Qed.

Lemma sparing_each {A} (f : A -> M MsgDb ()) l :
  (forall x, sparing (f x)) -> sparing (let* _ := for_each f l in ret ()).
Proof.
  intros F d0. apply preserves_bind; [|intros ?; apply preserves_ret]. apply preserves_for_each. intros x. apply F.
Qed.

Lemma sparing_delete l : sparing (delete_pending_user_turns l).
Proof. apply sparing_each. intros x. apply sparing_sets. Qed.

Lemma sparing_abandon l : sparing (mark_user_turns_abandoned l).
Proof. apply sparing_each. intros x. apply sparing_sets. Qed.

Lemma sparing_task id task : sparing (set_agent_task_if_empty id task).
Proof. intros d0. apply preserves_sql. intros d a d' S. by intros [= <- <-]. Qed.

Lemma safe_db {A} (m : M MsgDb A) post h : sparing m -> (forall r, post r h) -> safe Inv (db m) post h.
Proof.
  intros Sp Po. apply safe_inert; [|done]. intros s. specialize (Sp (c_db (su_conn s)) (su_conn s) (conj eq_refl eq_refl)).
  destruct (m (su_conn s)) as [r c]. destruct Sp as [S1 S2]. cbn [snd] in S1, S2.
  split; try done; cbn [snd su_conn set_conn]; unfold current_session, rows_of; [by rewrite S2|by rewrite S1].
Qed.

(** ** Messages on their way *)

Lemma move_front {A} (a b c f r : list A) : a ++ b ++ c ++ f ++ r ≡ₚ (a ++ f) ++ b ++ c ++ r.
Proof. rewrite <- !app_assoc. apply Permutation_app_head. rewrite !(app_assoc b c). apply Permutation_app_swap_app. Qed.

Lemma move_second {A} (a b c f r : list A) : a ++ b ++ c ++ f ++ r ≡ₚ a ++ (b ++ f) ++ c ++ r.
Proof. apply Permutation_app_head. rewrite <- !app_assoc. apply Permutation_app_head, Permutation_app_swap_app. Qed.

Lemma turns_snoc gh how g :
  turns (gh ++ [(how, g)]) = turns gh ++ (match how with AsTurn => g | IntoTurn => [] end).
Proof.
  unfold turns. rewrite lfilter_app, fmap_app, mjoin_app. destruct how; [|done].
  cbn [lfilter fmap list_fmap snd fst]. by rewrite mjoin_cons, app_nil_r.
Qed.

Lemma injected_snoc gh how g :
  injected (gh ++ [(how, g)]) = injected gh ++ (match how with IntoTurn => g | AsTurn => [] end).
Proof.
  unfold injected. rewrite lfilter_app, fmap_app, mjoin_app. destruct how; [done|].
  cbn [lfilter fmap list_fmap snd fst]. by rewrite mjoin_cons, app_nil_r.
Qed.

Lemma accounts_handed s gh gq gd how g m ms :
  stands_for g m -> accounts s gh gq gd (g ++ ms) ->
  accounts (announce (Handed how m) s) (gh ++ [(how, g)]) gq gd ms.
Proof.
  intros S [H Q D O]. split; cbn [su_trace announce]; [|done| |].
  - rewrite handed_snoc. apply Forall2_app; [done|]. by constructor.
  - rewrite dropped_snoc. by rewrite app_nil_r.
  - rewrite owed_snoc, app_nil_r, O, fmap_app, mjoin_app. cbn [fmap list_fmap snd]. rewrite mjoin_cons, app_nil_r.
    apply move_front.
Qed.

(** A turn's message, from where it is carried. *)
Definition carries (g : nat) (h : Holding) (m : PendingMsg) (h' : Holding) : Prop :=
  (h = sending g true m /\ h' = holding g true)
  \/ exists ms, stands_for ms m /\ h = flushing g ms /\ h' = clearing g ms.

Lemma steady_handed s gh gq how g m f se d q f' se' d' :
  steady s gh gq f se d q ->
  turns gh ++ (match how with AsTurn => g | IntoTurn => [] end) ++ f' ++ mjoin gq ++ se' `sublist_of` turns gh ++ f ++ mjoin gq ++ se ->
  (match how with IntoTurn => g | AsTurn => [] end) ++ se' `sublist_of` se -> length se' <= 1 ->
  d' = [] \/ how = AsTurn /\ d' = g ->
  d' ++ f' ++ mjoin gq = d ++ f ++ mjoin gq ->
  steady (announce (Handed how m) s) (gh ++ [(how, g)]) gq f' se' d' q.
Proof.
  intros [L W O Oi Os Od M] Su Si Sl Sd E. split; cbn [su_gate su_trace su_conn announce]; [done|done| | |done| |].
  - rewrite sent_snoc, app_nil_r, turns_snoc, <- app_assoc. by etrans.
  - rewrite sent_snoc, app_nil_r, injected_snoc, <- app_assoc. etrans; [|exact Oi]. by apply sublist_app.
  - destruct Sd as [->|[-> ->]]; [by left|]. right. by rewrite last_snoc.
  - intros C. rewrite E. by apply M.
Qed.

Lemma emit_locks e s : same_locks s (announce e s).
Proof. split_and!; [done..|]. cbn [su_trace announce]. rewrite undisturbed_snoc. by intros [U _]%andb_true_iff. Qed.

Lemma safe_turn_handed g h m h' post :
  carries g h m h' -> post () h' -> safe Inv (change (announce (Handed AsTurn m))) post h.
Proof.
  intros Ca Po. apply safe_owner; [|intros s; apply emit_locks|].
  - destruct Ca as [[-> _]|(ms & _ & -> & _)]; by eexists.
  - intros s gh gq gd rest A. cbn [fst snd].
    destruct Ca as [[-> ->]|(ms & St & -> & ->)].
    + exists (holding g true), (gh ++ [(AsTurn, [m])]), gq, gd. split_and!; [done|done| | |done].
      * apply accounts_handed; [apply stands_for_one|]. exact A.
      * intros _ S. apply (steady_handed _ _ _ _ _ _ _ _ _ _ _ _ _ S); [|apply sublist_nil_l|cbn; lia|by left|done].
        assert (N : waiting s = []) by by apply S. pose proof (ac_queue _ _ _ _ _ A) as Q. rewrite N in Q.
        inversion Q; subst. done.
    + exists (clearing g ms), (gh ++ [(AsTurn, ms)]), gq, gd. split_and!; [done|done| | |done].
      * by apply accounts_handed.
      * intros _ S. apply (steady_handed _ _ _ _ _ _ _ _ _ _ _ _ _ S); [done|done|cbn; lia|by right|done].
Qed.

Lemma safe_into_handed g q m post :
  post () (holding g q) -> safe Inv (change (announce (Handed IntoTurn m))) post (sending g q m).
Proof.
  intros Po. apply safe_owner; [by eexists|intros s; apply emit_locks|].
  intros s gh gq gd rest A. exists (holding g q), (gh ++ [(IntoTurn, [m])]), gq, gd. split_and!; [done|done| | |done].
  - apply accounts_handed; [apply stands_for_one|]. exact A.
  - intros _ S. apply (steady_handed _ _ _ _ _ _ _ _ _ _ _ _ _ S); [|done|cbn; lia|by left|done].
    cbn. rewrite app_nil_r. apply sublist_app; [done|]. by apply sublist_inserts_r.
Qed.

Lemma safe_announced g q m post :
  post () (sending g q m) -> safe Inv (change (announce (Sent m))) post (holding g q).
Proof.
  intros Po. apply safe_owner; [by eexists|intros s; apply emit_locks|].
  intros s gh gq gd rest [H Q D O]. exists (sending g q m), gh, gq, gd. split_and!; [done|done| | |done].
  - split; cbn [su_trace announce snd]; [by rewrite handed_snoc, app_nil_r|done|by rewrite dropped_snoc, app_nil_r|].
    rewrite owed_snoc, O. cbn [owed omap list_omap ho_flush ho_send holding sending app].
    rewrite (Permutation_app_comm _ [m]). cbn [app]. rewrite !app_assoc. apply Permutation_middle.
  - intros _ [L W Or Oi Os Od M]. split; [done|done| | |cbn; lia|done|done]; cbn [su_trace announce snd]; rewrite sent_snoc; cbn in *.
    + rewrite app_nil_r in Or. rewrite app_assoc. apply sublist_app; [by rewrite <- ?app_assoc|done].
    + rewrite app_nil_r in Oi. by apply sublist_app.
Qed.

(** ** The queue and its rows *)

Lemma waiting_set f s : waiting (set_queue f s) = queued (f (su_queue s)) agent_id.
Proof. done. Qed.

Lemma queued_enqueue m q : queued (enqueue agent_id m q) agent_id = queued q agent_id ++ [m].
Proof. unfold queued at 1, enqueue. by rewrite lookup_insert_eq. Qed.

Lemma queued_requeue m q : queued (requeue_front agent_id m q) agent_id = m :: queued q agent_id.
Proof. unfold queued at 1, requeue_front. by rewrite lookup_insert_eq. Qed.

Lemma queued_clear q : queued (clear_queue agent_id q) agent_id = [].
Proof. unfold queued, clear_queue. by rewrite lookup_delete_eq. Qed.

Lemma queue_empty_spec q : queue_is_empty q agent_id = true <-> queued q agent_id = [].
Proof. unfold queue_is_empty, queued. destruct (q !! agent_id) as [[|m l]|]; by cbn. Qed.

Lemma turn_ids_queued q : turn_ids q agent_id = pm_turn_id <$> queued q agent_id.
Proof. unfold turn_ids, queued. by destruct (q !! agent_id). Qed.

Lemma coalesce_some ms : ms <> [] -> is_Some (coalesce ms).
Proof.
  intros N. destruct ms as [|m [|m' ms]]; [done|by eexists|]. unfold coalesce.
  destruct (last (m :: m' :: ms)) eqn:E; [by eexists|]. by apply last_None in E.
Qed.

Lemma drain_spec q :
  match drain_coalesced agent_id q with
  | (None, _) => queued q agent_id = []
  | (Some c, q') => queued q agent_id <> [] /\ coalesce (queued q agent_id) = Some c /\ queued q' agent_id = []
  end.
Proof.
  unfold drain_coalesced, queued. destruct (q !! agent_id) as [[|m l]|] eqn:E; [done| |done].
  cbn [default]. destruct (coalesce_some (m :: l)) as [c C]; [done|]. rewrite C. split_and!; [done|done|].
  by rewrite lookup_insert_eq.
Qed.

Lemma in_session_rows d r : r ∈ rows_of d -> pq_session r = sid.
Proof. intros [_ I]%elem_of_lfilter. by apply String.eqb_eq in I. Qed.

Lemma sorted_snoc l z : StronglySorted Z.lt l -> (forall y, y ∈ l -> (y < z)%Z) -> StronglySorted Z.lt (l ++ [z]).
Proof.
  intros S. induction S as [|x l S IH F]; intros B; cbn; [by repeat constructor|]. constructor.
  - apply IH. intros y I. apply B. by right.
  - apply Forall_app. split; [done|]. constructor; [|done]. apply B. left.
Qed.

Section calm.
Hypothesis calm : forall n, w_fault n = None.

Lemma current_session_calm c :
  current_session agent_id (c_db c) = Some sid -> current_session_id agent_id c = (Ok (Some sid), tick c).
Proof.
  intros E. unfold current_session_id, bind, attempt_ok, query, sql. rewrite calm, E. done.
Qed.

Lemma enqueue_calm m c :
  current_session agent_id (c_db c) = Some sid ->
  exists now, c_db (enqueue_pending_message agent_id m c).2
    = set_pending (fun l => l ++ [{| pq_session := sid; pq_seq := (max_seq (pq_seq <$> rows_of (c_db c)) + 1)%Z;
        pq_turn_id := pm_turn_id m; pq_text := pm_text m; pq_attachments := to_json (pm_attachments m);
        pq_created_at := now |}]) (c_db c).
Proof.
  intros E. unfold enqueue_pending_message, bind at 1. rewrite current_session_calm by done.
  unfold transaction, bind, query, execute, sql, now_millis. cbn. rewrite !calm. cbn. by eexists.
Qed.

Lemma clear_calm c :
  current_session agent_id (c_db c) = Some sid ->
  c_db (delete_pending_messages_except agent_id [] c).2 = set_pending (lfilter (fun r => negb (in_session sid r))) (c_db c).
Proof.
  intros E. unfold delete_pending_messages_except, bind. rewrite current_session_calm by done.
  unfold execute, sql. cbn. by rewrite calm.
Qed.
End calm.

Lemma rows_snoc d r : pq_session r = sid -> rows_of (set_pending (fun l => l ++ [r]) d) = rows_of d ++ [r].
Proof.
  intros S. unfold rows_of. cbn [md_pending set_pending]. rewrite lfilter_app. cbn [lfilter].
  unfold in_session at 2. by rewrite S, String.eqb_refl.
Qed.

Lemma safe_enqueue g q m post :
  post () (holding g false) -> safe Inv (persist_and_enqueue agent_id m) post (sending g q m).
Proof.
  intros Po. apply safe_owner; [by eexists|done|]. intros s gh gq gd rest [H Q D O].
  exists (holding g false), gh, (gq ++ [[m]]), gd. split_and!; [done|done| | |done].
  - split; [done| |done|].
    + unfold waiting. cbn [snd su_queue set_queue set_conn]. rewrite queued_enqueue. apply Forall2_app; [done|].
      constructor; [apply stands_for_one|done].
    + cbn [snd su_trace set_queue set_conn]. rewrite O. cbn [ho_flush ho_send holding sending app].
      rewrite mjoin_app. cbn. rewrite <- (move_second _ _ _ [m]). done.
  - intros _ [L W Or Oi Os Od M]. split; [done|done| | |cbn; lia|done|].
    + cbn in Or |- *. rewrite mjoin_app. cbn. by rewrite !app_nil_r.
    + cbn in Oi |- *. rewrite app_nil_r. etrans; [|exact Oi]. by apply sublist_inserts_r.
    + intros C. destruct (M C) as (M1 & M2 & M3). cbn [snd su_conn set_queue set_conn].
      destruct (enqueue_calm C m (su_conn s) M1) as [now E]. rewrite E. split_and!; [done| |].
      * rewrite rows_snoc by done. cbn in M2 |- *. rewrite mjoin_app. apply Forall2_app; [done|].
        constructor; [done|constructor].
      * unfold seqs_rise. rewrite rows_snoc by done. rewrite fmap_app. apply sorted_snoc; [done|].
        intros y I. apply (max_or_ge 0) in I. unfold max_seq. cbn [pq_seq]. lia.
Qed.

Lemma safe_take g q (post : option PendingMsg -> Holding -> Prop) :
  post None (holding g q) ->
  (forall ms m, stands_for ms m -> post (Some m) (flushing g ms)) ->
  safe Inv (take_queued agent_id) post (holding g q).
Proof.
  intros P0 P1. apply safe_owner; [by eexists| |].
  { intros s. unfold take_queued. cbn. destruct (drain_coalesced _ _) as [[c|] q']; by split_and!. }
  intros s gh gq gd rest A. pose proof (drain_spec (su_queue s)) as Sp. pose proof A as [H Q D O].
  destruct (drain_coalesced agent_id (su_queue s)) as [[c|] q'] eqn:E; cbn [fst snd].
  - destruct Sp as (N & C & N'). exists (flushing g (mjoin gq)), gh, [], gd. split_and!; [done|done| | |].
    + split; [done|rewrite waiting_set, N'; constructor|done|].
      cbn [su_trace set_queue set_conn]. rewrite O. cbn [ho_flush ho_send holding flushing app mjoin].
      cbn. rewrite !(app_assoc (mjoin gd)). apply Permutation_app_head. rewrite <- app_assoc. apply Permutation_app_swap_app.
    + intros _ [L W Or Oi Os Od M]. split; [done|by intros _; rewrite waiting_set| |done|done|done|].
      * cbn in Or |- *. by rewrite !app_nil_r in *.
      * intros Ca. destruct (M Ca) as (M1 & M2 & M3). cbn [su_conn set_queue set_conn].
        set (c' := match turn_ids _ _ with _ :: _ :: _ => _ | _ => _ end).
        assert (Sp : md_pending (c_db c') = md_pending (c_db (su_conn s)) /\ md_sessions (c_db c') = md_sessions (c_db (su_conn s))).
        { unfold c'. destruct (turn_ids _ _) as [|t1 [|t2 l]]; [done..|]. unfold supersede_member_turns.
          apply (sparing_insert c (c_db (su_conn s))), (sparing_delete _ (c_db (su_conn s))). by split. }
        destruct Sp as [S1 S2]. unfold current_session, rows_of, seqs_rise, rows_of in *. rewrite S1, S2.
        cbn in M2 |- *. rewrite app_nil_r. by split_and!.
    + apply P1. unfold stands_for. by rewrite (coalesce_groups _ _ Q N).
  - exists (holding g q), gh, gq, gd. by split_and!.
Qed.

Lemma safe_requeue g ms m post :
  stands_for ms m -> post () (holding g false) ->
  safe Inv (change (set_queue (requeue_front agent_id m))) post (flushing g ms).
Proof.
  intros St Po. apply safe_owner; [by eexists|done|]. intros s gh gq gd rest [H Q D O].
  exists (holding g false), gh, (ms :: gq), gd. split_and!; [done|done| | |done].
  - split; [done| |done|].
    + unfold waiting. cbn [snd su_queue set_queue]. rewrite queued_requeue. by constructor.
    + cbn [snd su_trace set_queue]. rewrite O. cbn [ho_flush ho_send holding flushing app]. rewrite mjoin_cons.
      rewrite (move_second _ _ _ ms). by rewrite (Permutation_app_comm ms).
  - intros _ [L W Or Oi Os Od M]. split; [done|done| |done|done|done|].
    + cbn in Or |- *. by rewrite <- app_assoc.
    + intros C. by destruct (M C) as (M1 & M2 & M3).
Qed.

Lemma safe_clear g ms post :
  post () (holding g true) -> safe Inv (clear_delivered agent_id) post (clearing g ms).
Proof.
  intros Po. apply safe_owner; [by eexists|done|]. intros s gh gq gd rest [H Q D O].
  exists (holding g true), gh, gq, gd. split_and!; [done|done|by split| |done].
  intros _ [L W Or Oi Os Od M]. split; [done|done|done|done|done|by left|]. intros C. destruct (M C) as (M1 & M2 & M3).
  specialize (W eq_refl). cbn [snd su_conn set_conn]. rewrite turn_ids_queued. fold (waiting s). rewrite W.
  rewrite (clear_calm C) by done. unfold waiting in Q. fold (waiting s) in Q. rewrite W in Q. inversion Q; subst.
  assert (N : rows_of (set_pending (lfilter (fun r => negb (in_session sid r))) (c_db (su_conn s))) = []).
  { unfold rows_of. cbn [md_pending set_pending]. induction (md_pending (c_db (su_conn s))) as [|r l IH]; [done|].
    cbn [lfilter]. destruct (in_session sid r) eqn:E; cbn [negb]; [done|]. cbn [lfilter]. by rewrite E. }
  split_and!; [done|by rewrite N|]. unfold seqs_rise. rewrite N. constructor.
Qed.

(** ** Locks *)

Lemma made_more n n' hs :
  n <= n' -> Forall (fun h => match ho_lock h with NoLock => True | Asked g | Holds g => g < n end) hs ->
  Forall (fun h => match ho_lock h with NoLock => True | Asked g | Holds g => g < n' end) hs.
Proof. intros L F. eapply Forall_impl; [exact F|]. intros h. cbn. destruct (ho_lock h); lia. Qed.

Lemma accounts_gate f s gh gq gd ms : accounts s gh gq gd ms -> accounts (set_gate f s) gh gq gd ms.
Proof. intros [H Q D O]. by split. Qed.

Lemma steady_gate f s gh gq fl se d q q' :
  steady s gh gq fl se d q -> (q' = true -> q = true) ->
  match gt_lock (f (su_gate s)) with None => gt_made (f (su_gate s)) = 0 | Some g => gt_made (f (su_gate s)) = 1 /\ g = 0 end ->
  steady (set_gate f s) gh gq fl se d q'.
Proof. intros [L W O Oi Os Od M] Q E. split; [done| |done..]. intros T. by apply W, Q. Qed.

Lemma safe_hold g (post : nat -> Holding -> Prop) :
  post g (holding g false) ->
  safe Inv (Act (fun s => if lcontains (gt_held (su_gate s)) g then None
    else Some (g, set_gate (fun gate => {| gt_reserved := gt_reserved gate; gt_routing := gt_routing gate;
           gt_lock := gt_lock gate; gt_made := gt_made gate; gt_held := g :: gt_held gate |}) s)) Ret) post (asked g).
Proof.
  intros Po s x s' hs [[L N M Pr T En] (gh & gq & gd & A & S)] E.
  destruct (lcontains (gt_held (su_gate s)) g) eqn:C; [done|]. injection E as <- <-.
  exists (holding g false). split; [|done]. split.
  - inversion M; inversion Pr; inversion T; subst. split; cbn; [by rewrite L| | | | |done]; constructor; try done.
    intros I. by rewrite (proj2 (lcontains_true _ _) I) in C.
  - exists gh, gq, gd. split; [by apply accounts_gate|]. intros U. apply (steady_gate _ _ _ _ _ _ _ _ _ (S U)); [done|].
    by destruct (S U).
Qed.

Lemma safe_lock (post : nat -> Holding -> Prop) :
  (forall g, post g (holding g false)) -> safe Inv lock_delivery post idle.
Proof.
  intros Po. unfold lock_delivery. apply safe_bind, safe_atomic. intros s hs [[L N M Pr T En] (gh & gq & gd & A & S)].
  destruct (gt_lock (su_gate s)) as [g|] eqn:E; cbn [fst snd].
  - exists (asked g). split; [|by apply safe_hold]. split; [|by exists gh, gq, gd].
    inversion M; inversion Pr; inversion T; subst. split; [done|done| | | |intros g' E'; apply En; congruence]; constructor; try done. by apply En.
  - exists (asked (gt_made (su_gate s))). split; [|by apply safe_hold]. split.
    + inversion M; inversion Pr; inversion T; subst. split; cbn; [done|done| | | |].
      * constructor; [cbn; lia|]. eapply made_more; [|done]. lia.
      * by constructor.
      * by constructor.
      * intros g [= <-]. lia.
    + exists gh, gq, gd. split; [by apply accounts_gate|]. intros U.
      apply (steady_gate _ _ _ _ _ _ _ _ _ (S U)); [done|]. destruct (S U) as [Lo _ _ _ _ _ _]. rewrite E in Lo. cbn. by rewrite Lo.
Qed.

Lemma filter_this g l l' :
  l' ≡ₚ g :: l -> NoDup l' -> lfilter (fun h => negb (Nat.eqb h g)) l' ≡ₚ l.
Proof.
  intros E N. rewrite E in N. apply NoDup_cons in N as [N _]. rewrite (lfilter_perm _ _ _ E). cbn [lfilter].
  rewrite Nat.eqb_refl. cbn [negb]. assert (K : lfilter (fun h => negb (Nat.eqb h g)) l = l); [|by rewrite K].
  apply lfilter_all. intros x I. apply negb_true_iff, Nat.eqb_neq. by intros ->.
Qed.

Lemma safe_unlock g q post : post () idle -> safe Inv (unlock g) post (holding g q).
Proof.
  intros Po. apply safe_atomic. intros s hs [[L N M Pr T En] (gh & gq & gd & A & S)].
  exists idle. split; [|done]. cbn [fst snd].
  assert (F : lfilter (fun h => negb (Nat.eqb h g)) (gt_held (su_gate s)) ≡ₚ omap lock_held hs) by by apply filter_this.
  split.
  - inversion M; inversion Pr; inversion T; subst. split; [exact F| |by constructor..|done].
    change (NoDup (lfilter (fun h => negb (Nat.eqb h g)) (gt_held (su_gate s)))). rewrite F. rewrite L in N.
    apply (NoDup_cons g) in N. exact (proj2 N).
  - exists gh, gq, gd. split; [by apply accounts_gate|]. intros U. apply (steady_gate _ _ _ _ _ _ _ _ _ (S U)).
    + cbn. intros ->. by rewrite orb_true_r.
    + by destruct (S U).
Qed.

(** The lock for as long as a task delivers. *)
Definition delivering (g : nat) (h : Holding) : Prop := exists q, h = holding g q.

Lemma safe_with_delivery {A} (p : Steps A) (post : A -> Holding -> Prop) :
  (forall g, safe Inv p (fun a h => delivering g h /\ post a idle) (holding g false)) ->
  safe Inv (with_delivery p) post idle.
Proof.
  intros Sp. apply safe_bind, safe_lock. intros g. apply safe_bind. eapply safe_weaken; [|apply Sp].
  intros a h [[q ->] Po]. apply safe_bind. by apply safe_unlock.
Qed.

Lemma inert_gate f s :
  gt_lock (f (su_gate s)) = gt_lock (su_gate s) -> gt_made (f (su_gate s)) = gt_made (su_gate s) ->
  gt_held (f (su_gate s)) = gt_held (su_gate s) -> inert s (set_gate f s).
Proof. by split. Qed.

Lemma safe_try {A B} (p : Steps (result A string)) (k : A -> Steps (result B string)) post h :
  safe Inv p (fun r h => match r with Ok a => safe Inv (k a) post h | Err e => post (Err e) h end) h ->
  safe Inv (try_ p k) post h.
Proof. intros Sp. apply safe_bind. eapply safe_weaken; [|exact Sp]. by intros [a|e] h'. Qed.

Lemma safe_with_route {A} (p : Steps (result A string)) post h :
  (forall e, post (Err e) h) -> safe Inv p post h -> safe Inv (with_route p) post h.
Proof.
  intros Pe Sp. apply safe_try. apply safe_inert.
  - intros s. cbn. destruct (gt_reserved _); [apply inert_refl|by apply inert_gate].
  - intros s. cbv beta. destruct (gt_reserved _); cbn [fst]; [apply Pe|]. apply safe_bind. eapply safe_weaken; [|exact Sp].
    intros a h' Po. apply safe_bind, safe_inert; [by intros s'; apply inert_gate|done].
Qed.

(** ** Turns *)

Ltac onward := first [apply safe_bind | idtac]; first [apply safe_look; intros ? | apply safe_run | apply safe_ask; intros ?].

Lemma safe_first text post h : post () h -> safe Inv (on_first_user_message agent_id text) post h.
Proof.
  intros Po. unfold on_first_user_message. destruct (is_empty _); [done|]. destruct (starts_with _ _); [done|].
  apply safe_bind, safe_db; [apply sparing_task|done].
Qed.

Lemma safe_mark turn_id post h : post () h -> safe Inv (mark_user_turn_started turn_id) post h.
Proof.
  intros Po. unfold mark_user_turn_started. onward. apply safe_bind, safe_inert.
  { by intros s; split. }
  intros s. apply safe_bind. destruct turn_id as [turn_id|]; [|by onward].
  apply safe_bind, safe_db; [apply sparing_sets|]. intros _. by onward.
Qed.

Lemma safe_revert turn_id resting post h : post () h -> safe Inv (revert_turn_start turn_id resting) post h.
Proof. intros Po. apply safe_bind, safe_db; [apply sparing_sets|]. intros _. by onward. Qed.

Lemma safe_hand_over how m post h :
  (forall e, post (Err e) h) -> safe Inv (change (announce (Handed how m))) (fun _ => post (Ok ())) h ->
  safe Inv (hand_over agent_id how m) post h.
Proof.
  intros Pe Po. unfold hand_over. onward. destruct x; [|apply Pe]. onward. destruct x; [apply Pe|].
  apply safe_bind. exact Po.
Qed.

Lemma safe_deliver_user_message g h m h' (post : result () string -> Holding -> Prop) :
  carries g h m h' -> (forall e, post (Err e) h) -> post (Ok ()) h' ->
  safe Inv (deliver_user_message agent_id m) post h.
Proof.
  intros Ca Pe Po. apply safe_bind, safe_db; [apply sparing_insert|]. intros _. apply safe_try. onward.
  destruct x; [|apply Pe]. apply safe_hand_over; [done|]. by apply (safe_turn_handed g h m h').
Qed.

Lemma safe_deliver_as_turn g h m h' (post : result () string -> Holding -> Prop) :
  carries g h m h' -> (forall e, post (Err e) h) -> post (Ok ()) h' ->
  safe Inv (deliver_as_turn agent_id m) post h.
Proof.
  intros Ca Pe Po. apply safe_try. onward. destruct x; [|apply Pe]. onward. destruct x; [apply Pe|].
  onward. destruct x; [apply Pe|]. apply safe_bind, safe_db; [apply sparing_insert|]. intros _. onward.
  apply safe_bind, safe_mark, safe_bind, (safe_deliver_user_message g h m h'); [done| |].
  - intros e. apply safe_bind, safe_revert, Pe.
  - onward. apply safe_bind, safe_first, Po.
Qed.

Lemma safe_flush_queued g q (post : result bool string -> Holding -> Prop) :
  (forall r h, delivering g h -> post r h) -> safe Inv (flush_queued agent_id) post (holding g q).
Proof.
  intros Po. apply safe_with_route; [intros e; apply Po; by exists q|]. apply safe_bind, safe_take; [apply Po; by exists q|].
  intros ms m St. apply safe_bind, (safe_deliver_as_turn g _ _ (clearing g ms)); [by right; exists ms| |].
  - intros e. apply safe_bind, (safe_requeue _ ms); [done|]. apply Po. by exists false.
  - apply safe_bind, safe_clear, Po. by exists true.
Qed.

Lemma safe_flush_task post : post () idle -> safe Inv (flush_task agent_id) post idle.
Proof.
  intros Po. apply safe_bind, safe_with_delivery. intros g. apply safe_flush_queued. by intros r h.
Qed.

Lemma safe_queue_seen g q (post : bool -> Holding -> Prop) :
  (forall b, post b (holding g (negb b))) ->
  safe Inv (look (fun s => negb (queue_is_empty (su_queue s) agent_id))) post (holding g q).
Proof.
  intros Po. apply safe_owner; [by eexists|done|]. intros s gh gq gd rest A. cbn [fst snd].
  exists (holding g (negb (negb (queue_is_empty (su_queue s) agent_id)))), gh, gq, gd.
  split_and!; [done|done|done| |apply Po]. intros _ [L W O Oi Os Od M]. split; [done| |done..].
  cbn. rewrite negb_involutive. apply queue_empty_spec.
Qed.

Lemma safe_inject g q m (post : result () string -> Holding -> Prop) :
  (forall e, post (Err e) (sending g q m)) -> post (Ok ()) (holding g q) ->
  safe Inv (inject_live agent_id m) post (sending g q m).
Proof.
  intros Pe Po. unfold inject_live, persist_and_send. apply safe_bind, safe_db; [apply sparing_insert|]. intros r.
  apply safe_bind, safe_hand_over; [|by apply safe_into_handed].
  intros e. apply safe_bind. destruct (match r with Ok b => b | Err _ => false end); [|apply Pe].
  apply safe_bind, safe_db; [apply sparing_delete|]. intros _. apply Pe.
Qed.

Lemma safe_needs_revive (post : bool -> Holding -> Prop) h : (forall b, post b h) -> safe Inv needs_revive post h.
Proof.
  intros Po. unfold needs_revive. onward.
  assert (K : safe Inv (do live <- look (fun s => rt_live (su_run s));
      if live : bool then Ret false
      else do record <- read_record;
        match record with Ok _ => look (fun s => negb (rt_deleting (su_run s))) | Err _ => Ret false end) post h).
  { onward. destruct x0; [apply Po|]. onward. destruct x0; [|apply Po]. by onward. }
  destruct x as [[]|]; first [exact K|apply Po].
Qed.

(** What is left of a message that could not be delivered at once. *)
Lemma safe_enqueue_flush g q m (post : result bool string -> Holding -> Prop) :
  (forall r h, delivering g h -> post r h) ->
  safe Inv (do _ <- persist_and_enqueue agent_id m; flush_queued agent_id) post (sending g q m).
Proof. intros Po. apply safe_bind, safe_enqueue. by apply safe_flush_queued. Qed.

Lemma safe_send turn_id text attachments post :
  (forall r, post r idle) -> safe Inv (send_user_message agent_id turn_id text attachments) post idle.
Proof.
  intros Po. apply safe_try. onward. destruct x as [record|e]; [|apply Po].
  destruct (sr_archived record); [apply Po|]. apply safe_with_delivery. intros g.
  assert (Pd : forall r h, delivering g h -> delivering g h /\ post r idle) by done.
  apply safe_with_route; [intros e; split; [by exists false|done]|]. apply safe_try. onward.
  destruct x as [l|e]; [|split; [by exists false|done]]. onward. rename x into busy. onward. rename x into pending.
  onward. rename x into gated. apply safe_bind, safe_queue_seen. intros nonempty.
  set (m := {| pm_turn_id := turn_id; pm_text := text; pm_attachments := l |}). apply safe_bind, (safe_announced _ _ m).
  apply safe_bind, safe_first, safe_try.
  assert (Rest : forall r h, delivering g h ->
    match r with
    | Ok queued => safe Inv (do revive <- if queued : bool then needs_revive else Ret false;
        do _ <- if revive : bool then change (announce Revived) else Ret (); Ret (Ok queued))
        (fun a h => delivering g h /\ post a idle) h
    | Err e => delivering g h /\ post (Err e) idle
    end).
  { intros [queued|e] h D; [|done]. apply safe_bind.
    assert (K : forall revive : bool, safe Inv (do _ <- if revive then change (announce Revived) else Ret (); Ret (Ok queued))
      (fun a h => delivering g h /\ post a idle) h).
    { intros []; [|done]. apply safe_bind, safe_inert; [|done]. intros s. cbn [snd].
      split; try done. cbn [su_trace announce]. rewrite owed_snoc, sent_snoc, handed_snoc, dropped_snoc, undisturbed_snoc.
      by rewrite !app_nil_r, andb_true_r. }
    destruct queued; [by apply safe_needs_revive|apply K]. }
  assert (Fl : forall q, safe Inv (do _ <- persist_and_enqueue agent_id m; flush_queued agent_id)
    (fun r h => match r with
    | Ok queued => safe Inv (do revive <- if queued : bool then needs_revive else Ret false;
        do _ <- if revive : bool then change (announce Revived) else Ret (); Ret (Ok queued))
        (fun a h => delivering g h /\ post a idle) h
    | Err e => delivering g h /\ post (Err e) idle
    end) (sending g q m)) by (intros q; by apply safe_enqueue_flush).
  destruct (decide_delivery _ _ _ _) eqn:De.
  - assert (Q : nonempty = false).
    { unfold decide_delivery in De. destruct busy; [|by destruct nonempty].
      by destruct (sr_mode record), (pending && sr_names_granted_folder record l || gated). }
    subst nonempty. apply safe_bind, (safe_deliver_as_turn g _ _ (holding g true)); [by left|intros e; apply Fl|].
    apply (Rest (Ok false)). by exists true.
  - apply Fl.
  - apply safe_bind, safe_inject; [intros e; apply Fl|]. apply (Rest (Ok false)). by eexists.
  - apply safe_bind, safe_enqueue. onward. destruct x; [apply (Rest (Ok true)); by eexists|]. by apply safe_flush_queued.
Qed.

(** ** Tasks without the lock *)

Definition bare (h : Holding) : Prop := h = idle \/ h = torn.

(** What a task does that disturbs the run, or does on a run that it disturbed. *)
Definition disturbing (s s' : Sup) (h : Holding) : Prop :=
  gt_held (su_gate s') = gt_held (su_gate s) /\ gt_made (su_gate s') = gt_made (su_gate s)
  /\ (forall g, gt_lock (su_gate s') = Some g -> gt_lock (su_gate s) = Some g)
  /\ ((ho_torn h = true -> undisturbed (su_trace s) = false) -> undisturbed (su_trace s') = false)
  /\ forall gh gq gd rest, accounts s gh gq gd rest -> exists gh' gq' gd', accounts s' gh' gq' gd' rest.

Lemma safe_disturbing {X} (f : Sup -> X * Sup) post h h' :
  bare h -> bare h' -> (forall s, disturbing s (f s).2 h) -> (forall s, post (f s).1 h') -> safe Inv (atomic f) post h.
Proof.
  intros B B' D Po. apply safe_atomic. intros s hs [[L N M Pr T En] (gh & gq & gd & A & S)]. exists h'. split; [|done].
  destruct (D s) as (D1 & D2 & D3 & D4 & D5). destruct (D5 _ _ _ _ A) as (gh' & gq' & gd' & A').
  assert (U : undisturbed (su_trace (f s).2) = false) by (apply D4; by inversion T).
  split.
  - inversion M; inversion Pr; inversion T; subst. split; rewrite ?D1, ?D2, ?U.
    + rewrite L. by destruct B as [-> | ->], B' as [-> | ->].
    + done.
    + constructor; [by destruct B' as [-> | ->]|done].
    + constructor; [by destruct B' as [-> | ->]|done].
    + by apply Forall_forall.
    + eauto.
  - exists gh', gq', gd'. split; [|by rewrite U]. eapply accounts_perm; [|exact A'].
    by destruct B as [-> | ->], B' as [-> | ->].
Qed.

Lemma accounts_same s s' gh gq gd ms :
  waiting s' = waiting s -> su_trace s' = su_trace s -> accounts s gh gq gd ms -> accounts s' gh gq gd ms.
Proof. intros W T [H Q D O]. split; by rewrite ?T, ?W. Qed.

(** What waits is dropped. *)
Lemma accounts_dropped s s' gh gq gd ms :
  waiting s' = [] -> su_trace s' = su_trace s ++ [Dropped (waiting s)] -> accounts s gh gq gd ms ->
  accounts s' gh [] (gd ++ gq) ms.
Proof.
  intros W T [H Q D O]. split; rewrite ?T.
  - by rewrite handed_snoc, app_nil_r.
  - rewrite W. constructor.
  - rewrite dropped_snoc. apply Forall2_app; [done|]. cbn. by rewrite app_nil_r.
  - rewrite owed_snoc, app_nil_r, O, mjoin_app. apply Permutation_app_head. cbn. rewrite <- app_assoc.
    apply Permutation_app_swap_app.
Qed.

Lemma torn_bare : bare torn.
Proof. by right. Qed.
Lemma idle_bare : bare idle.
Proof. by left. Qed.

Lemma safe_detach post : post () idle -> safe Inv (detach_runtime agent_id) post idle.
Proof.
  intros Po. unfold detach_runtime. apply safe_bind, (safe_disturbing _ _ _ torn); [apply idle_bare|apply torn_bare| |].
  { intros s. split_and!; [done..| |].
    - intros _. cbn [snd su_trace announce]. rewrite undisturbed_snoc. apply andb_false_r.
    - intros gh gq gd rest [H Q D O]. exists gh, gq, gd. split; cbn [snd su_trace announce set_run].
      + by rewrite handed_snoc, app_nil_r.
      + done.
      + by rewrite dropped_snoc, app_nil_r.
      + by rewrite owed_snoc, app_nil_r. }
  intros s0. clear s0. onward. apply safe_bind, (safe_disturbing _ _ _ torn); [apply torn_bare|apply torn_bare| |].
  { intros s. split_and!; [done|done|done|by intros U; apply U|].
    intros gh gq gd rest A. exists gh, gq, gd. by apply accounts_gate. }
  intros s0. clear s0. onward. apply safe_bind, (safe_disturbing _ _ _ torn); [apply torn_bare|apply torn_bare| |].
  { intros s. split_and!; [done..| |].
    - intros _. cbn [snd su_trace announce]. rewrite undisturbed_snoc. apply andb_false_r.
    - intros gh gq gd rest A. exists gh, [], (gd ++ gq). apply (accounts_dropped s); [|done|done].
      unfold waiting. cbn. apply queued_clear. }
  intros s0. clear s0. apply (safe_disturbing _ _ _ idle); [apply torn_bare|apply idle_bare| |done].
  intros s. split_and!; [done|done|done|by intros U; apply U|]. intros gh gq gd rest A. exists gh, gq, gd.
  by apply (accounts_same s).
Qed.

Lemma start_session_fails c e c' : start_session agent_id c = (Err e, c') -> c_db c' = c_db c.
Proof.
  intros E. unfold start_session in E. pose proof (transaction_err _ c e (f_equal fst E)) as K. rewrite E in K. exact K.
Qed.

Lemma safe_start_session g post :
  (forall r, post r (holding g false)) ->
  safe Inv (atomic (fun s =>
      match start_session agent_id (su_conn s) with
      | (Ok id, c) =>
          (Ok id, announce (Dropped (queued (su_queue s) agent_id)) (set_queue (clear_queue agent_id) (set_conn c s)))
      | (Err e, c) => (Err e, set_conn c s)
      end)) post (holding g false).
Proof.
  intros Po. apply safe_owner; [by eexists| |].
  - intros s. cbv beta. destruct (start_session agent_id (su_conn s)) as [[id|e] c]; [|by split_and!].
    split_and!; [done..|]. cbn [snd su_trace announce]. rewrite undisturbed_snoc. by intros [U _]%andb_true_iff.
  - intros s gh gq gd rest A. cbv beta. destruct (start_session agent_id (su_conn s)) as [[id|e] c] eqn:E; cbn [fst snd].
    + exists (holding g false), gh, [], (gd ++ gq). split_and!; [done|done| | |apply Po].
      * apply (accounts_dropped s); [|done|done]. unfold waiting. cbn. apply queued_clear.
      * cbn [su_trace announce]. rewrite undisturbed_snoc. by intros [_ U]%andb_true_iff.
    + exists (holding g false), gh, gq, gd. split_and!; [done|done| | |apply Po].
      * by apply (accounts_same s).
      * intros _. apply start_session_fails in E. apply steady_inert. split; try done; cbn [su_conn set_conn]; by rewrite E.
Qed.

Lemma safe_switch post : (forall r, post r idle) -> safe Inv (switch_session agent_id) post idle.
Proof.
  intros Po. apply safe_with_delivery. intros g.
  assert (Pe : forall e, delivering g (holding g false) /\ post (Err e) idle) by (split; [by exists false|done]).
  apply safe_with_route; [done|]. apply safe_try. onward. destruct x as [[]|e]; [apply Pe| |apply Pe].
  apply safe_try, safe_inert.
  { intros s. cbv beta. destruct (busy_status _); [apply inert_refl|by split]. }
  intros s. cbv beta. destruct (busy_status _); cbn [fst]; [apply Pe|]. apply safe_try. onward. destruct x as [[]|e]; [|apply Pe].
  apply safe_bind, (safe_start_session g). intros [id|e]; [|apply Pe].
  onward. onward. onward. split; [by exists false|done].
Qed.

Lemma safe_reserved b post h : post () h -> safe Inv (change (set_reserved b)) post h.
Proof. intros Po. apply safe_inert; [|done]. intros s. by apply inert_gate. Qed.

Lemma safe_archive trigger post : (forall r, post r idle) -> safe Inv (archive_agent agent_id trigger) post idle.
Proof.
  intros Po. apply safe_try. onward. destruct x as [status|e]; [|apply Po]. apply safe_try, safe_inert.
  { intros s. cbv beta. repeat case_match; first [apply inert_refl|by apply inert_gate]. }
  intros s. destruct (fst _) as [[]|e]; [|apply Po]. onward. destruct x as [[]|e].
  - apply safe_bind, safe_detach. onward. apply safe_bind, safe_reserved, Po.
  - apply safe_bind, safe_reserved, Po.
Qed.

Lemma safe_resend retry post : (forall v, post v idle) -> safe Inv (resend agent_id retry) post idle.
Proof.
  intros Po. apply safe_bind. assert (K : safe Inv (do _ <- change (set_run (with_respawn true)); Ret Retrying) post idle).
  { onward. apply Po. }
  destruct retry as [m|]; [|exact K]. apply (safe_disturbing _ _ _ idle); [apply idle_bare|apply idle_bare| |done].
  intros s. split_and!; [done..| |].
  - intros _. cbn [snd su_trace announce]. rewrite undisturbed_snoc. apply andb_false_r.
  - intros gh gq gd rest [H Q D O]. exists gh, ([m] :: gq), gd. split; cbn [snd su_trace announce].
    + by rewrite handed_snoc, app_nil_r.
    + unfold waiting. cbn. rewrite queued_requeue. constructor; [apply stands_for_one|done].
    + by rewrite dropped_snoc, app_nil_r.
    + rewrite owed_snoc, O, mjoin_cons. cbn. rewrite !app_assoc, (Permutation_app_comm _ [m]). cbn.
      rewrite <- !app_assoc. apply Permutation_middle.
Qed.

(** A section over the runtime. *)
Lemma safe_section {X} (f : Sup -> X * Sup) post h :
  (forall s, exists r, (f s).2 = set_run r s) -> (forall x, post x h) -> safe Inv (atomic f) post h.
Proof. intros E Po. apply safe_inert; [|done]. intros s. destruct (E s) as [r ->]. by split. Qed.

Lemma safe_login event post : (forall v, post v idle) -> safe Inv (observe_login agent_id event) post idle.
Proof.
  intros Po. destruct event as [| |[]]; cbn [observe_login]; [apply Po|onward; apply Po| |apply Po].
  apply safe_bind, safe_section; [intros s; cbv zeta; destruct (rt_retrying _); by eexists|].
  intros [retry|]; [by apply safe_resend|apply Po].
Qed.

Lemma safe_limit event post : (forall v, post v idle) -> safe Inv (observe_limit agent_id event) post idle.
Proof.
  intros Po. destruct event as [|[]|]; cbn [observe_limit]; [apply Po|apply Po|onward; apply Po|].
  unfold retry_on_active_account. onward. destruct x; [|apply Po]. cbn [negb]. onward. destruct x.
  - apply safe_bind, safe_section; [by eexists|]. intros was. onward. destruct was; [apply Po|].
    destruct x; [|apply Po]. cbn [negb]. apply safe_bind, safe_section; [by eexists|]. intros retry. by apply safe_resend.
  - apply safe_bind, safe_section; [by eexists|]. intros []; cbn [negb]; [|onward; apply Po]. onward.
    destruct x; cbn [negb]; [onward; by apply safe_resend|onward; apply Po].
Qed.

Lemma safe_respawn post : (forall r, post r idle) -> safe Inv (respawn_agent_preserving_session agent_id) post idle.
Proof.
  intros Po. unfold respawn_agent_preserving_session. onward. destruct x as [status|e]; [|onward; apply Po]. onward.
  destruct x; [onward; apply Po|]. apply safe_bind, safe_inert.
  { intros s. cbv beta. destruct (negb _); [apply inert_refl|]. destruct (busy_status _); [apply inert_refl|by split]. }
  intros s. destruct (fst _); [|onward; apply Po..]. onward. apply safe_try. onward. onward.
  destruct x; [|onward; apply Po]. apply safe_bind, safe_section; [by eexists|]. intros [].
  - apply Po.
  - apply safe_bind, safe_flush_task, Po.
Qed.

Lemma safe_native submitted post : (forall r, post r idle) -> safe Inv (write_to_agent agent_id submitted) post idle.
Proof.
  intros Po. apply safe_try. onward. destruct x; [|apply Po]. onward. destruct x; [apply Po|].
  apply safe_with_route; [intros e; apply Po|]. onward. destruct x; [|apply Po]. apply safe_try. onward.
  destruct x; [|apply Po]. clear a a0. induction submitted as [|text l IH]; [apply Po|]. cbn [submitted_turns].
  apply safe_bind, safe_mark, safe_bind, safe_first, IH.
Qed.

Lemma started p : message_task agent_id p -> safe Inv p (fun _ => eq idle) idle.
Proof.
  destruct 1.
  - apply safe_bind, safe_send. done.
  - unfold turn_end_task, drain_message_queue. apply safe_bind. onward. destruct x; [done|].
    apply safe_bind, safe_inert; [by intros s; split|]. intros s. cbn [fst]. destruct (rt_interrupted _); [done|].
    onward. destruct x; [by apply safe_flush_task|done].
  - unfold revive_task. onward. destruct x; [by apply safe_flush_task|done].
  - apply safe_bind, safe_respawn. done.
  - apply safe_bind, safe_switch. done.
  - apply safe_bind, safe_archive. done.
  - by apply safe_detach.
  - apply safe_bind, safe_login. done.
  - apply safe_bind, safe_limit. done.
  - apply safe_bind, safe_native. done.
  - apply safe_bind, safe_with_delivery. intros g. apply safe_with_route; [|onward]; intros; split; by try exists false.
Qed.

Lemma env_inert s s' : message_env agent_id s s' -> inert s s'.
Proof.
  destruct 1 as [r s E|q s E|s d n E1 E2]; split; try done; [by unfold waiting, queued; rewrite <- E|]. intros C.
  by apply E2.
Qed.

Lemma idle_in s hs : Inv s hs -> Inv s (idle :: hs).
Proof.
  intros [[L N M Pr T En] (gh & gq & gd & A & S)]. split; [|by exists gh, gq, gd].
  split; [done|done|by constructor..|done].
Qed.

(** ** Runs *)

(** The app just opened: nobody holds or asked for the lock, and what waits is owed from before and
    mirrored, row for row. *)
Record opened (s : Sup) : Prop := {
  op_held : gt_held (su_gate s) = [];
  op_lock : gt_lock (su_gate s) = None;
  op_made : gt_made (su_gate s) = 0;
  op_owed : su_trace s = Sent <$> waiting s;
  op_mirror : (forall n, w_fault n = None) ->
    current_session agent_id (c_db (su_conn s)) = Some sid
    /\ Forall2 mirrors (rows_of (c_db (su_conn s))) (waiting s)
    /\ seqs_rise (c_db (su_conn s));
}.

Definition finished (p : prog Sup ()) : Prop := match p with Ret _ => True | _ => False end.

Lemma each_one l : Forall2 stands_for ((fun m => [m]) <$> l) l.
Proof. induction l as [|m l IH]; constructor; [apply stands_for_one|done]. Qed.

Lemma mjoin_each {A} (l : list A) : mjoin ((fun m => [m]) <$> l) = l.
Proof. induction l as [|m l IH]; [done|]. cbn [fmap list_fmap]. by rewrite mjoin_cons, IH. Qed.

Lemma trace_of_owed l :
  owed (Sent <$> l) = l /\ sent (Sent <$> l) = l /\ handed (Sent <$> l) = [] /\ dropped (Sent <$> l) = []
  /\ undisturbed (Sent <$> l) = true.
Proof.
  induction l as [|m l (A & B & C & D & E)]; [done|].
  split_and!; [exact (f_equal (cons m) A)|exact (f_equal (cons m) B)|exact C|exact D|exact E].
Qed.

Lemma opened_Inv s : opened s -> Inv s [].
Proof.
  intros [H L M T Mi]. split.
  - split; rewrite ?H, ?L, ?M; first [done|by constructor].
  - exists [], ((fun m => [m]) <$> waiting s), []. destruct (trace_of_owed (waiting s)) as (T1 & T2 & T3 & T4 & T5).
    split.
    + split; rewrite ?T, ?T1, ?T3, ?T4; [constructor|apply each_one|constructor|]. by rewrite mjoin_each, !app_nil_r.
    + intros _. split; [by rewrite L|done| |apply sublist_nil_l|cbn; lia|by left|].
      * rewrite T, T2, mjoin_each. cbn. by rewrite app_nil_r.
      * intros C. destruct (Mi C) as (M1 & M2 & M3). rewrite mjoin_each. by split_and!.
Qed.

Lemma run_Inv s0 s ts :
  opened s0 -> rtc (message_step agent_id) (s0, []) (s, ts) ->
  exists hs, Inv s hs /\ (Forall finished ts -> all_of ho_flush hs = [] /\ all_of ho_send hs = [] /\ all_of ho_done hs = []).
Proof.
  intros O R. assert (Po : pool_ok idle Inv (s, ts)).
  { eapply pool_invariant; [| | | |by apply opened_Inv|exact R].
    - intros s1 hs hs' E I. by apply (Inv_order _ hs).
    - apply started.
    - apply idle_in.
    - intros s1 s2 hs E. by apply Inv_inert, env_inert. }
  destruct Po as (hs & I & F). cbn [fst snd] in *. exists hs. split; [done|]. intros Fi. clear I R.
  induction F as [|p h ts hs Sp F IH]; [done|]. inversion Fi as [|? ? P1 P2]; subst. destruct p; [|done..].
  cbn in Sp. subst h. rewrite !all_of_cons. by apply IH.
Qed.

(** (C8) No message is lost and none is counted twice. However sends, turn ends, revives, respawns, session
    switches, archives, discards and the process's events interleave, whatever fails: what is owed, the
    messages announced to the clients and, once more each time, the turns that a login or a limit put back to be
    sent again, is shared out exactly between the prompts handed to the agent, those that wait in the
    queue, those that a teardown or a new session dropped, and what running tasks hold; each prompt is
    the coalesced text of its messages; and once the tasks are done none holds any. So a message is in two
    prompts handed over only if its turn was put back in between. *)
Theorem messages_are_accounted s0 s ts :
  opened s0 -> rtc (message_step agent_id) (s0, []) (s, ts) ->
  exists gh gq gd held,
    Forall2 (fun g e => g.1 = e.1 /\ stands_for g.2 e.2) gh (handed (su_trace s))
    /\ Forall2 stands_for gq (waiting s)
    /\ Forall2 stands_for gd (dropped (su_trace s))
    /\ owed (su_trace s) ≡ₚ mjoin (snd <$> gh) ++ mjoin gq ++ mjoin gd ++ held
    /\ (Forall finished ts -> held = []).
Proof.
  intros O R. destruct (run_Inv s0 s ts O R) as (hs & [_ (gh & gq & gd & [H Q D Ow] & _)] & Fi).
  exists gh, gq, gd, (all_of ho_flush hs ++ all_of ho_send hs). split_and!; [done..|].
  intros F. destruct (Fi F) as (-> & -> & _). done.
Qed.

(** (C13) As turns, messages come in the order they were sent. While the agent is not torn down, moved to a
    new session or sent a turn again, the messages of the turns handed over, followed by those that
    wait, are a subsequence of the messages announced, whatever deliveries fail and are folded
    together meanwhile: no turn is made of a follow-up while an earlier one waits. Messages written
    into a running turn, which is done whatever waits, are in the order announced among
    themselves. *)
Theorem turns_come_in_order s0 s ts :
  opened s0 -> rtc (message_step agent_id) (s0, []) (s, ts) -> undisturbed (su_trace s) = true ->
  exists gh gq,
    Forall2 (fun g e => g.1 = e.1 /\ stands_for g.2 e.2) gh (handed (su_trace s))
    /\ Forall2 stands_for gq (waiting s)
    /\ turns gh ++ mjoin gq `sublist_of` sent (su_trace s)
    /\ injected gh `sublist_of` sent (su_trace s).
Proof.
  intros O R U. destruct (run_Inv s0 s ts O R) as (hs & [_ (gh & gq & gd & [H Q D Ow] & S)] & _).
  exists gh, gq. split_and!; [done..| |]; destruct (S U) as [_ _ Or Oi _ _ _].
  - etrans; [|exact Or]. apply sublist_app; [done|]. apply sublist_inserts_l. by apply sublist_inserts_r.
  - etrans; [|exact Oi]. by apply sublist_inserts_r.
Qed.

Lemma none_dropped tr : undisturbed tr = true -> dropped tr = [].
Proof.
  unfold dropped. induction tr as [|e tr IH]; [done|]. cbn [undisturbed forallb]. intros [He U]%andb_true_iff.
  rewrite fmap_cons, mjoin_cons, (IH U). by destruct e.
Qed.

(** If statements succeed, the agent's rows are the messages that wait, one row each, before any
    folding, behind those that a task took off the queue, behind the turn just handed over if its rows
    are not cleared yet. With the one message being sent, if any, that is everything announced and not handed
    over, in its order. *)
Lemma mirror_kept s0 s ts :
  (forall n, w_fault n = None) -> opened s0 -> rtc (message_step agent_id) (s0, []) (s, ts) ->
  undisturbed (su_trace s) = true ->
  exists gh gq done taken being_sent,
    Forall2 (fun g e => g.1 = e.1 /\ stands_for g.2 e.2) gh (handed (su_trace s))
    /\ Forall2 stands_for gq (waiting s)
    /\ owed (su_trace s) ≡ₚ mjoin (snd <$> gh) ++ mjoin gq ++ taken ++ being_sent
    /\ turns gh ++ taken ++ mjoin gq ++ being_sent `sublist_of` sent (su_trace s)
    /\ (done = [] \/ last gh = Some (AsTurn, done)) /\ length being_sent <= 1
    /\ Forall2 mirrors (rows_of (c_db (su_conn s))) (done ++ taken ++ mjoin gq)
    /\ current_session agent_id (c_db (su_conn s)) = Some sid
    /\ seqs_rise (c_db (su_conn s))
    /\ (Forall finished ts -> done = [] /\ taken = [] /\ being_sent = []).
Proof.
  intros C O R U. destruct (run_Inv s0 s ts O R) as (hs & [_ (gh & gq & gd & [H Q D Ow] & S)] & Fi).
  destruct (S U) as [_ _ Or _ Os Od M]. destruct (M C) as (M1 & M2 & M3).
  rewrite (none_dropped _ U) in D. inversion D; subst. cbn [mjoin list_join app] in Ow.
  exists gh, gq, (all_of ho_done hs), (all_of ho_flush hs), (all_of ho_send hs). split_and!; [done..|].
  intros F. by destruct (Fi F) as (-> & -> & ->).
Qed.
End guard.
