(* ===== verification/Rehydrate.v ===== *)
(** * The queue after a restart

    [rehydrate_pending_messages] ([supervisor/messaging.rs]) rebuilds the queue from the table. What it
    finds is what waited ([restart_finds_what_waited]): after a clean end the first turn is the very
    one the old queue would have made, and after a crash the batch a flush had taken is there again,
    ahead of what waited, and perhaps the turn handed over last, but not a message still being sent. *)

From stdpp Require Import gmap.
From S2P Require Import Prelude RustStr Git Sql Prog MessageQueue Messaging MessagingGuard.

Local Open Scope string_scope.
Local Open Scope list_scope.

Section rehydrate.
Context `{World0 : World} `{Json0 : PathsJson} `{Law0 : !PathsJsonLaw}.
Context (agent_id sid : string).

(** What the schema and the other writers keep of these tables: session ids are keys, the agent has
    one session that is not superseded and is not archived, and the rows' attachments were written by
    [enqueue_pending_message]. *)
Record tables_sound (d : MsgDb) : Prop := {
  ts_key : NoDup (se_id <$> md_sessions d);
  ts_one : forall s, s ∈ md_sessions d -> se_workspace s = agent_id -> se_superseded s = false -> se_id s = sid;
  ts_live : exists w, w ∈ md_workspaces d /\ mw_id w = agent_id /\ mw_archived w = false;
  ts_json : forall r, r ∈ md_pending d -> exists l, pq_attachments r = to_json l;
}.

Definition of_agent {A} (p : string * A) : bool := String.eqb p.1 agent_id.

(** ** The rows of the agent *)

Lemma same_key {A B} (key : A -> B) l x y : NoDup (key <$> l) -> x ∈ l -> y ∈ l -> key x = key y -> x = y.
Proof.
  induction l as [|z l IH]; [by intros _ I%elem_of_nil|]. cbn [fmap list_fmap].
  intros [N1 N2]%NoDup_cons [->|I]%elem_of_cons [->|J]%elem_of_cons E; [done|..|by apply IH].
  - destruct N1. rewrite E. by apply list_elem_of_fmap_2.
  - destruct N1. rewrite <- E. by apply list_elem_of_fmap_2.
Qed.

Lemma joined_with p f (l : list SessionRow) :
  (forall s, s ∈ l -> f s = true -> se_id s = pq_session p) ->
  (forall s, s ∈ l -> se_id s = sid -> f s = true <-> pq_session p = sid) ->
  (forall s, s ∈ l -> f s = true -> se_workspace s = agent_id -> se_id s = sid) ->
  (forall s, s ∈ l -> se_id s = sid -> se_workspace s = agent_id) ->
  NoDup (se_id <$> l) ->
  lfilter of_agent (mjoin ((fun s => if f s : bool then [(se_workspace s, p)] else []) <$> l))
  = if in_session sid p && existsb (fun s => String.eqb (se_id s) sid) l then [(agent_id, p)] else [].
Proof.
  intros F1 F2 F3 F4 N. induction l as [|s l IH]; [by rewrite andb_false_r|]. cbn [fmap list_fmap]. rewrite mjoin_cons, lfilter_app.
  apply NoDup_cons in N as [N1 N2]. rewrite IH; [|intros; (apply F1 || apply F2 || apply F3 || apply F4); (done || by right)..|done].
  cbn [existsb]. destruct (String.eqb (se_id s) sid) eqn:E.
  - apply String.eqb_eq in E. assert (X : existsb (fun s => String.eqb (se_id s) sid) l = false).
    { apply not_true_is_false. intros (s' & I & E')%existsb_exists. apply String.eqb_eq in E'. apply N1.
      rewrite E, <- E'. apply list_elem_of_fmap_2. by apply list_elem_of_In. }
    rewrite X, andb_false_r, andb_true_r, app_nil_r. pose proof (F2 s (list_elem_of_here _ _) E) as F. unfold in_session.
    destruct (f s) eqn:Fs.
    + rewrite (proj2 (String.eqb_eq _ _) (proj1 F eq_refl)). cbn [lfilter of_agent fst]. unfold of_agent. cbn [fst].
      rewrite (F4 s) by (done || left). by rewrite String.eqb_refl.
    + destruct (String.eqb (pq_session p) sid) eqn:P; [|done]. apply String.eqb_eq in P. by apply F in P.
  - destruct (f s) eqn:Fs; [|done]. cbn [lfilter]. unfold of_agent at 1. cbn [fst].
    destruct (String.eqb (se_workspace s) agent_id) eqn:W; [|done]. apply String.eqb_eq in W. apply String.eqb_neq in E.
    destruct E. apply F3; [left|done|done].
Qed.

Lemma joined_rows d :
  tables_sound d -> current_session agent_id d = Some sid ->
  lfilter of_agent (join_rows d) = (fun p => (agent_id, p)) <$> rows_of sid d.
Proof.
  intros [K O (w & Iw & Ew & Lw) _] C. unfold join_rows, rows_of.
  assert (Cur : exists s, s ∈ md_sessions d /\ se_id s = sid /\ se_workspace s = agent_id /\ se_superseded s = false).
  { unfold current_session in C. destruct (lfind _ _) as [s|] eqn:E; [|done]. injection C as C.
    apply lfind_Some in E as [I [E1 E2]%andb_true_iff]. exists s. split_and!; [done|done|by apply String.eqb_eq|by apply negb_true_iff]. }
  destruct Cur as (s0 & I0 & E0 & W0 & U0).
  assert (Same : forall s, s ∈ md_sessions d -> se_id s = sid -> s = s0).
  { intros s I E. apply (same_key se_id (md_sessions d)); [done..|congruence]. }
  assert (Lv : forall s, se_workspace s = agent_id ->
    existsb (fun w => String.eqb (mw_id w) (se_workspace s) && negb (mw_archived w)) (md_workspaces d) = true).
  { intros s W. apply existsb_exists. exists w. split; [by apply list_elem_of_In|]. by rewrite W, Ew, Lw, String.eqb_refl. }
  assert (Ex : existsb (fun s => String.eqb (se_id s) sid) (md_sessions d) = true).
  { apply existsb_exists. exists s0. split; [by apply list_elem_of_In|by apply String.eqb_eq]. }
  induction (md_pending d) as [|p l IH]; [done|]. cbn [fmap list_fmap]. rewrite mjoin_cons, lfilter_app, IH.
  rewrite joined_with; [|..|done].
  - rewrite Ex, andb_true_r. cbn [lfilter]. by destruct (in_session sid p).
  - intros s I H. by bool_to_prop.
  - intros s I E. rewrite (Same s I E), U0, (Lv s0 W0), E0, !andb_true_r. rewrite String.eqb_eq. split; congruence.
  - intros s I H W. bool_to_prop. by apply O.
  - intros s I E. by rewrite (Same s I E).
Qed.
(** ** Their order *)

Lemma by_workspace_and_seq_total x y : by_workspace_and_seq x y = true \/ by_workspace_and_seq y x = true.
Proof.
  unfold by_workspace_and_seq. rewrite (String.eqb_sym y.1). destruct (String.eqb x.1 y.1).
  - rewrite !Z.leb_le. lia.
  - apply String.leb_total.
Qed.

Lemma by_workspace_and_seq_trans x y z :
  by_workspace_and_seq x y = true -> by_workspace_and_seq y z = true -> by_workspace_and_seq x z = true.
Proof.
  unfold by_workspace_and_seq.
  destruct (String.eqb_spec x.1 y.1) as [E1|N1], (String.eqb_spec y.1 z.1) as [E2|N2].
  - rewrite E1, E2, String.eqb_refl, !Z.leb_le. lia.
  - rewrite E1. by destruct (String.eqb_spec y.1 z.1).
  - rewrite <- E2. by destruct (String.eqb_spec x.1 y.1).
  - intros L1 L2. destruct (String.eqb_spec x.1 z.1) as [E|N3].
    + rewrite E in *. destruct N2. by apply String.leb_antisym.
    + apply Is_true_true. apply Is_true_true in L1, L2. fold (String.le x.1 y.1) in L1. fold (String.le y.1 z.1) in L2.
      fold (String.le x.1 z.1). by etrans.
Qed.
Lemma sorted_rows d : seqs_rise sid d ->
  sort_by by_workspace_and_seq ((fun p => (agent_id, p)) <$> rows_of sid d) = (fun p => (agent_id, p)) <$> rows_of sid d.
Proof.
  unfold seqs_rise. intros S. induction (rows_of sid d) as [|p l IH]; [done|]. cbn [fmap list_fmap] in *.
  inversion S as [|? ? S' F]; subst. rewrite sort_by_cons; [by rewrite IH|].
  intros y (r & -> & I)%list_elem_of_fmap. unfold by_workspace_and_seq. cbn [fst snd]. rewrite String.eqb_refl. apply Z.leb_le.
  rewrite Forall_forall in F. specialize (F (pq_seq r) (list_elem_of_fmap_2 _ _ _ I)). lia.
Qed.

(** ** Decoding them *)

Lemma decoded_rows rows :
  (forall p, p ∈ rows -> exists l, pq_attachments p.2 = to_json l) ->
  exists msgs, decode_rows rows = Ok msgs /\ Forall2 (fun p m => p.1 = m.1 /\ mirrors p.2 m.2) rows msgs.
Proof.
  induction rows as [|[w p] rows IH]; intros J; [by exists []|]. destruct IH as (msgs & E & F).
  { intros q I. apply J. by right. }
  destruct (J (w, p) (list_elem_of_here _ _)) as [l L]. cbn [snd] in L. cbn [decode_rows]. rewrite L, from_to_json, E.
  eexists. split; [done|]. by constructor.
Qed.

Lemma of_agent_same rows (msgs : list (string * PendingMsg)) :
  Forall2 (fun p m => p.1 = m.1 /\ mirrors p.2 m.2) rows msgs ->
  Forall2 mirrors (snd <$> lfilter of_agent rows) (snd <$> lfilter of_agent msgs).
Proof.
  induction 1 as [|p m rows msgs [E M] F IH]; [constructor|]. cbn [lfilter].
  replace (of_agent p) with (of_agent m) by (unfold of_agent; by rewrite E).
  destruct (of_agent m); [|done]. by constructor.
Qed.

Lemma queued_all (l : list (string * PendingMsg)) q :
  queued (foldl (fun q p => enqueue p.1 p.2 q) q l) agent_id = queued q agent_id ++ (snd <$> lfilter of_agent l).
Proof.
  revert q. induction l as [|[w m] l IH]; intros q; cbn [foldl lfilter fst snd]; [by rewrite app_nil_r|]. rewrite IH.
  unfold of_agent at 2. cbn [fst]. destruct (String.eqb_spec w agent_id) as [->|N].
  - rewrite queued_enqueue, <- app_assoc. done.
  - f_equal. unfold queued at 1, enqueue. by rewrite lookup_insert_ne.
Qed.

Lemma mirrors_same r m m' : mirrors r m -> mirrors r m' -> m = m'.
Proof.
  destruct m as [t x l], m' as [t' x' l']. intros (A & B & C) (A' & B' & C'). cbn in *.
  assert (E : Ok (A := list string) (E := string) l = Ok l') by (rewrite <- !from_to_json; congruence).
  injection E as ->. congruence.
Qed.

Lemma mirrors_all_same rows ms ms' : Forall2 mirrors rows ms -> Forall2 mirrors rows ms' -> ms = ms'.
Proof.
  intros F. revert ms'. induction F as [|r m rows ms M F IH]; intros ms' F'; inversion F'; subst; [done|].
  f_equal; [by eapply mirrors_same|by apply IH].
Qed.

Section calm.
Hypothesis calm : forall n, w_fault n = None.

Lemma rehydrated c :
  tables_sound (c_db c) -> current_session agent_id (c_db c) = Some sid -> seqs_rise sid (c_db c) ->
  Forall2 mirrors (rows_of sid (c_db c)) (queued (rehydrate_pending_messages c).1 agent_id)
  /\ c_db (rehydrate_pending_messages c).2 = c_db c.
Proof.
  intros T C S. unfold rehydrate_pending_messages, read_all_pending_messages, bind, query, sql, lift. rewrite calm.
  destruct (decoded_rows (sort_by by_workspace_and_seq (join_rows (c_db c)))) as (msgs & E & F).
  { intros p I. apply elem_of_sort_by in I. apply (ts_json _ T). unfold join_rows in I.
    apply list_elem_of_join in I as (l & I & (q & -> & Iq)%list_elem_of_fmap).
    apply list_elem_of_join in I as (l & I & (s & -> & Is)%list_elem_of_fmap).
    destruct (_ && _); [|by apply elem_of_nil in I]. by apply list_elem_of_singleton in I as ->. }
  rewrite E. cbn [fst snd c_db]. split; [|done]. rewrite queued_all. cbn. apply of_agent_same in F.
  rewrite (sort_by_filter _ by_workspace_and_seq_total by_workspace_and_seq_trans) in F.
  rewrite joined_rows, sorted_rows in F by done.
  rewrite <- list_fmap_compose, (list_fmap_ext (snd ∘ (fun p => (agent_id, p))) id), list_fmap_id in F; [exact F|done].
Qed.
End calm.
(** The supervisor of the app as it starts again. *)
Definition started_again (run : Runtime) (c : Conn MsgDb) : Sup :=
  let q := (rehydrate_pending_messages c).1 in
  {| su_queue := q; su_run := run;
     su_gate := {| gt_reserved := false; gt_routing := 0; gt_lock := None; gt_made := 0; gt_held := [] |};
     su_conn := (rehydrate_pending_messages c).2; su_trace := Sent <$> queued q agent_id |}.

(** (C14) A start finds the queue again. Take any moment of an undisturbed run (nothing torn down, moved to
    a new session or sent again) of an app whose statements succeed and whose tables are sound. Everything
    announced is in a prompt handed over, waits, is in a batch a flush took off the queue, or is the one message
    being sent. The queue that [rehydrate_pending_messages] builds is, message by message before any
    folding, that batch and what waits, in order; at most the turn handed over last stands before them, if
    its rows were not cleared yet. So a crash loses no message but the one being sent, and repeats at most
    that turn. Once the tasks are done, the first turn the new queue makes is the very one the old would
    have made; and the app starts as one whose rows mirror its queue, so all of this holds again from
    there. *)
Theorem restart_finds_what_waited s0 s ts run :
  (forall n, w_fault n = None) -> opened agent_id sid s0 -> rtc (message_step agent_id) (s0, []) (s, ts) ->
  undisturbed (su_trace s) = true -> tables_sound (c_db (su_conn s)) ->
  (exists gh gq done taken being_sent,
    Forall2 (fun g e => g.1 = e.1 /\ stands_for g.2 e.2) gh (handed (su_trace s))
    /\ Forall2 stands_for gq (waiting agent_id s)
    /\ owed (su_trace s) ≡ₚ mjoin (snd <$> gh) ++ mjoin gq ++ taken ++ being_sent
    /\ turns gh ++ taken ++ mjoin gq ++ being_sent `sublist_of` sent (su_trace s)
    /\ (done = [] \/ last gh = Some (AsTurn, done)) /\ length being_sent <= 1
    /\ (Forall finished ts -> done = [] /\ taken = [] /\ being_sent = [])
    /\ queued (rehydrate_pending_messages (su_conn s)).1 agent_id = done ++ taken ++ mjoin gq)
  /\ (Forall finished ts ->
      (drain_coalesced agent_id (rehydrate_pending_messages (su_conn s)).1).1 = (drain_coalesced agent_id (su_queue s)).1)
  /\ opened agent_id sid (started_again run (su_conn s)).
Proof.
  intros C O R U T.
  destruct (mirror_kept _ _ _ _ _ C O R U) as (gh & gq & done & taken & bs & H & Q & Ow & Or & Dn & Sn & M & Cur & S & Fi).
  destruct (rehydrated C _ T Cur S) as [M' D]. pose proof (mirrors_all_same _ _ _ M' M) as E. split_and!.
  - by exists gh, gq, done, taken, bs.
  - intros F. destruct (Fi F) as (-> & -> & _). cbn in E.
    pose proof (drain_spec agent_id (rehydrate_pending_messages (su_conn s)).1) as D1.
    pose proof (drain_spec agent_id (su_queue s)) as D2. rewrite E in D1. fold (waiting agent_id s) in D2.
    assert (Em : mjoin gq = [] <-> waiting agent_id s = []).
    { split; intros X; [|by rewrite X in Q; inversion Q]. destruct Q as [|g m gq ms St Q]; [done|].
      apply stands_for_full in St. rewrite mjoin_cons in X. by apply app_eq_nil in X as [? _]. }
    destruct (drain_coalesced agent_id (rehydrate_pending_messages (su_conn s)).1) as [[a|] qa],
      (drain_coalesced agent_id (su_queue s)) as [[b|] qb]; cbn [fst]; [| | |done].
    + destruct D1 as (_ & D1 & _), D2 as (N & D2 & _). rewrite (coalesce_groups _ _ Q N), D2 in D1. congruence.
    + destruct D1 as (N & _). by apply Em in D2.
    + destruct D2 as (N & _). by apply Em in D1.
  - split; cbn [su_gate su_trace su_conn started_again gt_held gt_lock gt_made]; [done..|]. intros _.
    unfold seqs_rise in *. rewrite D. by split_and!.
Qed.
End rehydrate.
