(* ===== verification/MessageRuns.v ===== *)
(** * Runs of the delivery of messages

    Concrete runs: sends around a turn and a start of the app, as inputs of the theorems on messages;
    a message that nothing is left to deliver, and one routed after its agent was archived. *)

From Stdlib Require Import Ascii.
From stdpp Require Import gmap.
From S2P Require Import Prelude RustStr Git Sql Prog MessageQueue Messaging MessagingGuard Rehydrate.

Local Open Scope string_scope.
Local Open Scope list_scope.

(** ** A codec for the paths *)

Fixpoint quoted (s rest : string) : string :=
  match s with
  | "" => String "0"%char rest
  | String c s => String "1"%char (String c (quoted s rest))
  end.

Fixpoint unquote (cur s : string) : option (list string) :=
  match s with
  | "" => Some []
  | String "0"%char s => cons cur <$> unquote "" s
  | String _ (String c s) => unquote (cur +:+ String c "") s
  | String _ "" => None
  end.

Lemma unquote_quoted s rest cur : unquote cur (quoted s rest) = cons (cur +:+ s) <$> unquote "" rest.
Proof.
  revert cur. induction s as [|c s IH]; intros cur; cbn [quoted unquote].
  - f_equal. f_equal. by rewrite append_empty_r.
  - rewrite IH. f_equal. f_equal. by rewrite <- append_assoc.
Qed.

#[local] Instance run_json : PathsJson := {|
  to_json l := foldr quoted "" l;
  from_json s := match unquote "" s with Some l => Ok l | None => Err "not a list" end;
|}.

#[local] Instance run_json_law : PathsJsonLaw.
Proof.
  constructor. intros l. cbn. assert (E : unquote "" (foldr quoted "" l) = Some l); [|by rewrite E].
  induction l as [|s l IH]; [done|]. cbn [foldr]. rewrite unquote_quoted, IH. done.
Qed.

#[local] Instance run_world : World := {|
  w_fault _ := None;
  w_now n := Z.of_nat n;
  w_uuid _ := "s2";
|}.

(** ** Driving a run *)

Definition reaches (c : Sup * list (prog Sup ())) : Type := { c' | rtc (message_step "a") c c' }.

Definition go {c c'} (St : message_step "a" c c') (r : reaches c') : reaches c :=
  match r with exist _ x R => exist _ x (rtc_l _ _ _ _ St R) end.

Definition stop c : reaches c := exist _ c (rtc_refl _ c).

(** The state of [reaches]'s goal with task [i] gone on to [q]. *)
Ltac next i q tac :=
  lazymatch goal with
  | |- reaches (?s, ?ts) =>
      let before := eval cbv [firstn] in (firstn i ts) in
      let after := eval cbv [skipn] in (skipn (S i) ts) in
      let q := eval hnf in q in
      let ts' := eval cbv [app] in (before ++ q :: after) in
      tac ts' before after
  end.

(** The next action of task [i]; the answer [x] to what it asks; a task started; the environment. *)
Ltac act i :=
  lazymatch goal with
  | |- reaches (?s, ?ts) =>
      let p := eval cbv [nth] in (nth i ts (Ret tt)) in
      lazymatch p with
      | @Act _ _ ?X ?f ?k =>
          let r := eval vm_compute in (f s) in
          lazymatch r with
          | Some (?x, ?s') =>
              next i (k x) ltac:(fun ts' before after =>
                refine (@go (s, ts) (s', ts') (pool_act _ _ X f k s s' x before after (@eq_refl _ (Some (x, s')) <: f s = Some (x, s'))) _))
          end
      end
  end.

Ltac answer i x :=
  lazymatch goal with
  | |- reaches (?s, ?ts) =>
      let p := eval cbv [nth] in (nth i ts (Ret tt)) in
      lazymatch p with
      | @Ask _ _ ?X ?k =>
          next i (k x) ltac:(fun ts' before after => refine (@go (s, ts) (s, ts') (pool_ask _ _ X k s x before after) _))
      end
  end.

Ltac start q t :=
  lazymatch goal with
  | |- reaches (?s, ?ts) =>
      let q' := eval hnf in q in
      let ts' := eval cbv [app] in (ts ++ [q']) in
      refine (@go (s, ts) (s, ts') (pool_start _ _ q s ts t) _)
  end.

Ltac acts i := repeat act i.

(** ** Sends around a turn *)

(** An idle agent with a live process, its session and its workspace. *)
Definition at_rest : Sup := {|
  su_queue := ∅;
  su_run := {| rt_status := Some Idle; rt_live := true; rt_gated := false; rt_respawn_pending := false;
    rt_interrupted := false; rt_deleting := false; rt_last_turn := None; rt_retrying := false |};
  su_gate := {| gt_reserved := false; gt_routing := 0; gt_lock := None; gt_made := 0; gt_held := [] |};
  su_conn := {| c_db := {| md_workspaces := [{| mw_id := "a"; mw_archived := false; mw_task := None |}];
      md_sessions := [{| se_id := "s1"; se_workspace := "a"; se_superseded := false |}]; md_pending := [];
      md_turns := []; md_records := [] |}; c_tick := 0 |};
  su_trace := [];
|}.

Definition a_record : SendRecord :=
  {| sr_archived := false; sr_mode := AtTurnBoundary; sr_names_granted_folder _ := false |}.

Definition a_send (turn_id text : string) : prog Sup () := do _ <- send_user_message "a" turn_id text []; Ret ().

Ltac send turn_id text :=
  start (a_send turn_id text) (task_send "a" turn_id text []).

Ltac go_through i := act i; repeat act i.

(** The record is read and nothing is attached. *)
Ltac routed i :=
  answer i (Ok (E := string) a_record); go_through i; answer i (Ok (E := string) (@nil string)); go_through i.

(** The process takes the turn. *)
Ltac taken i :=
  answer i (Ok (E := string) ()); go_through i; answer i (Ok (E := string) ()); go_through i;
  answer i (@None string); go_through i.

(** The agent's status becomes [st]; it has a process, or not. *)
Ltac becomes st live :=
  lazymatch goal with
  | |- reaches (?s, ?ts) =>
      let r := eval vm_compute in (with_live live (with_status st (su_run s))) in
      let s' := eval vm_compute in (set_run (fun _ => r) s) in
      refine (@go (s, ts) (s', ts) (pool_env _ _ s s' ts (env_runtime "a" r s eq_refl)) _)
  end.

Ltac turn_ends := start (turn_end_task "a") (task_turn_end "a").

(** A message to the idle agent, handed over at once; two more while its turn runs. The turn ends, and
    the process refuses the next, made of both: it waits. *)
Definition held_back : reaches (at_rest, []).
Proof.
  send "t1" "hello". routed 0. taken 0.
  send "t2" "and this". routed 1.
  send "t3" "and that". routed 2.
  becomes (Some Idle) true. turn_ends. go_through 3. answer 3 (Ok (E := string) ()). go_through 3.
  answer 3 (Err (A := ()) "gone"). go_through 3.
  apply stop.
Defined.

Definition held_state : Sup := Eval vm_compute in (proj1_sig held_back).1.
Definition all_done (n : nat) : list (prog Sup ()) := repeat (Ret ()) n.

Lemma held_back_run : rtc (message_step "a") (at_rest, []) (held_state, all_done 4).
Proof.
  assert (E : proj1_sig held_back = (held_state, all_done 4)) by by_compute.
  rewrite <- E. exact (proj2_sig held_back).
Qed.

Lemma at_rest_opened : opened "a" "s1" at_rest.
Proof. split; [done..|]. intros _. split_and!; [done|constructor|constructor]. Qed.

Lemma at_rest_tables : tables_sound "a" "s1" (c_db (su_conn held_state)).
Proof.
  split.
  - apply NoDup_singleton.
  - intros s [->|I]%elem_of_cons; [done|by apply elem_of_nil in I].
  - eexists. split; [left|done].
  - intros r I. exists []. revert I. cbn.
    intros [->|[->|I]%elem_of_cons]%elem_of_cons; [done|done|by apply elem_of_nil in I].
Qed.

Definition refused : PendingMsg :=
  {| pm_turn_id := "t3"; pm_text := "and this" +:+ two_newlines +:+ "and that"; pm_attachments := [] |}.

Example held_back_waits : waiting "a" held_state = [refused].
Proof. by_compute. Qed.

(** ** Nobody is left to deliver it *)

(** A message waits while a turn runs. Its flush, at the end of that turn, finds a turn typed into the
    native view running, and gives the message back; but that turn ends in between, with the queue
    still empty, so nothing flushes it: the agent is idle, its process lives, and every task is done. *)
Definition lost_wakeup : reaches (at_rest, []).
Proof.
  send "t1" "hello". routed 0. taken 0.
  send "t2" "and this". routed 1.
  becomes (Some Idle) true. turn_ends. go_through 2. answer 2 (Ok (E := string) ()).
  start (do _ <- write_to_agent "a" ["typed"]; Ret ()) (task_native "a" ["typed"]).
  answer 3 (Ok (E := string) ()). go_through 3. answer 3 (Ok (E := string) ()). go_through 3.
  act 2. act 2. becomes (Some Idle) true. turn_ends. go_through 4. go_through 2.
  apply stop.
Defined.

Theorem a_wakeup_is_lost :
  exists s ts, rtc (message_step "a") (at_rest, []) (s, ts) /\ Forall finished ts /\ undisturbed (su_trace s) = true
    /\ waiting "a" s <> []
    /\ rt_status (su_run s) = Some Idle /\ rt_live (su_run s) = true /\ rt_respawn_pending (su_run s) = false.
Proof.
  exists (proj1_sig lost_wakeup).1, (proj1_sig lost_wakeup).2. split; [|vm_compute; repeat constructor; done].
  rewrite <- surjective_pairing. exact (proj2_sig lost_wakeup).
Qed.

(** ** A message to an agent that was archived *)

(** The send reads its record before the archive and asks for the lock after it: the archive holds its
    reservation only until then, so the route opens, and the message is announced and queued. *)
Definition sent_after_archive : reaches (at_rest, []).
Proof.
  send "t1" "hello". answer 0 (Ok (E := string) a_record).
  start (do _ <- archive_agent "a" ByUser; Ret ()) (task_archive "a" ByUser).
  answer 1 (Ok (E := string) Idle). go_through 1. answer 1 (Ok (E := string) ()). go_through 1. answer 1 tt. go_through 1.
  go_through 0. answer 0 (Ok (E := string) (@nil string)). go_through 0.
  answer 0 (Ok (E := string) ()). go_through 0. answer 0 (Ok (E := string) ()). go_through 0.
  answer 0 (Ok (E := string) ()). go_through 0. answer 0 (Ok (E := string) ()). go_through 0.
  answer 0 (Ok (E := string) ()). go_through 0.
  apply stop.
Defined.

Theorem an_archived_agent_is_sent_to :
  exists s ts m, rtc (message_step "a") (at_rest, []) (s, ts) /\ Forall finished ts
    /\ su_trace s = [TornDown; Dropped []; Sent m; Revived] /\ waiting "a" s = [m].
Proof.
  exists (proj1_sig sent_after_archive).1, (proj1_sig sent_after_archive).2.
  exists {| pm_turn_id := "t1"; pm_text := "hello"; pm_attachments := [] |}.
  split; [|vm_compute; repeat constructor; done].
  rewrite <- surjective_pairing. exact (proj2_sig sent_after_archive).
Qed.

(** ** Witnesses *)

Lemma messages_are_accounted_witness :
  exists gh gq gd held,
    Forall2 (fun g e => g.1 = e.1 /\ stands_for g.2 e.2) gh (handed (su_trace held_state))
    /\ Forall2 stands_for gq [refused]
    /\ Forall2 stands_for gd []
    /\ owed (su_trace held_state) ≡ₚ mjoin (snd <$> gh) ++ mjoin gq ++ mjoin gd ++ held
    /\ (Forall finished (all_done 4) -> held = []).
Proof. exact (@messages_are_accounted run_world run_json "a" "s1" at_rest held_state (all_done 4) at_rest_opened held_back_run). Defined.

Lemma turns_come_in_order_witness :
  exists gh gq,
    Forall2 (fun g e => g.1 = e.1 /\ stands_for g.2 e.2) gh (handed (su_trace held_state))
    /\ Forall2 stands_for gq [refused]
    /\ turns gh ++ mjoin gq `sublist_of` sent (su_trace held_state)
    /\ injected gh `sublist_of` sent (su_trace held_state).
Proof.
  exact (@turns_come_in_order run_world run_json "a" "s1" at_rest held_state (all_done 4) at_rest_opened held_back_run eq_refl).
Defined.

Lemma restart_finds_what_waited_witness :
  drain_coalesced "a" (rehydrate_pending_messages (su_conn held_state)).1
    = (Some refused, (drain_coalesced "a" (rehydrate_pending_messages (su_conn held_state)).1).2)
  /\ opened "a" "s1" (started_again "a" (su_run at_rest) (su_conn held_state)).
Proof.
  destruct (@restart_finds_what_waited run_world run_json run_json_law "a" "s1" at_rest held_state (all_done 4) (su_run at_rest)
    (fun _ => eq_refl) at_rest_opened held_back_run eq_refl at_rest_tables) as (_ & D & O).
  split; [|exact O]. assert (F : Forall finished (all_done 4)) by repeat constructor. specialize (D F).
  destruct (drain_coalesced "a" (rehydrate_pending_messages (su_conn held_state)).1) as [o q]. cbn [fst snd] in *. rewrite D.
  reflexivity.
Defined.
